(* ===== verification/_CoqProject ===== *)
-Q . S2P
Prelude.v
RustStd.v
Chunks.v
RustFloat.v
CompactEncoding.v
Codec.v
EncodingTheorems.v
Messages.v
HyperdhtMessages.v
HyperdhtWire.v
PayloadWire.v
HyperdhtTheorems.v
Peer.v
RoutingTable.v
RoutingTableProofs.v
XorMetric.v
RoutingTableTheorems.v
UdxHeader.v
UdxCongestion.v
UdxCongestionTheorems.v
UdxStream.v
UdxSystem.v
UdxStreamProofs.v
UdxSystemProofs.v
UdxTheorems.v
Crypto.v
ToyCrypto.v
DeadDropWire.v
DeadDropTree.v
DeadDropNeed.v
DeadDropFetch.v
DeadDropFetchProofs.v
DeadDropRun.v
DeadDropTheorems.v
DeadDropPublish.v
DeadDropPublishTheorems.v
DeadDropV1.v
Persistent.v
PersistentProofs.v
PersistentTheorems.v
Noise.v
ToyNoise.v
NoiseTheorems.v
NoiseWrap.v
NoiseWrapTheorems.v
Secretstream.v
ToyStream.v
SecretstreamTheorems.v
Pipes.v
SecretSession.v
SecretSessionTheorems.v
Protomux.v
ProtomuxWire.v
ProtomuxProofs.v
ProtomuxNet.v
ProtomuxTheorems.v
BlindRelay.v
BlindRelayTheorems.v
RelayService.v
Query.v
QueryProofs.v
QueryTheorems.v
Io.v
IoProofs.v
IoTheorems.v
QueryTyped.v
Router.v
RouterTheorems.v
NatClassifier.v
NatTheorems.v
Holepuncher.v
HolepuncherTheorems.v
ReplyCache.v
Swarm.v
SwarmServer.v
SwarmTheorems.v
SwarmServerTheorems.v
Rpc.v
RpcProofs.v
RpcTheorems.v
