(* ===== verification/Prelude.v ===== *)
(** * peeroxide: a verification of its core

    peeroxide is a Rust port of HyperDHT and Hyperswarm: a Kademlia-style
    distributed hash table ([peeroxide-dht]) and its encrypted connections over
    a reliable UDP transport ([libudx]), with a swarm layer ([peeroxide]) and
    command-line tools ([peeroxide-cli]) on top.  A node keeps a routing table
    of peers, answers requests from a bounded record storage, forwards
    handshakes for peers behind NATs, and finds things by iterative queries;
    two peers shake hands through it, punch holes, or meet on a blind relay, and
    then speak an encrypted, multiplexed protocol.  This development models
    those parts and proves what makes each of them correct.

    ** The parts and the files that model them

    Names follow the source: a free function keeps its name, a method
    [Type::method] is [Type_method], a struct is a [Record] whose fields carry a
    short prefix, an enum is an [Inductive].

    Foundations:
    - [Prelude]: outcomes ([Ok], [Err], [Panic]), the state monad [M] of
      fallible code on a [&mut] argument with its weakest preconditions,
      machine-width integers, bytes and little-endian integers, with the shared
      lemmas and hints.
    - [RustStd], [Chunks], [RustFloat]: the standard-library functions the source
      calls (parsing and printing of integers and IP addresses, UTF-8,
      [Vec::with_capacity], [slice::binary_search_by], [chunks], [f64]).
    - [Crypto]: [crypto.rs] over the class [CryptoPrims] of the hash and
      signature libraries.  [ToyCrypto], [ToyNoise], [ToyStream]: concrete
      primitives that satisfy the laws the theorems assume, for the witnesses.
    - [Pipes]: programs that write to and read from a byte stream, and two of
      them connected.

    Encoding ([peeroxide-dht/src]):
    - [CompactEncoding]: [compact_encoding.rs], the cursor [State] and every
      [preencode_*], [encode_*] and [decode_*].  [Codec]: the class [Codec],
      what a message type promises (its wire format, that [preencode] measures
      it, [encode] writes it and [decode] reads it), with the lemmas that build
      codecs from parts.  [EncodingTheorems]: the claims.
    - [Messages]: [messages.rs], requests and responses of the RPC protocol.
    - [HyperdhtMessages]: [hyperdht_messages.rs], the payloads of the HyperDHT
      commands; [HyperdhtWire] and [PayloadWire] give their wire formats as
      instances of [Codec]; [HyperdhtTheorems]: the claims.

    The DHT node ([peeroxide-dht/src]):
    - [Peer], [RoutingTable]: [peer.rs] and [routing_table.rs];
      [RoutingTableProofs], [XorMetric] and [RoutingTableTheorems]: the table
      as a finite map, and buckets against the XOR metric.
    - [Persistent]: [persistent.rs], the record and LRU caches, the eight request
      handlers and their dispatch; [PersistentProofs], [PersistentTheorems].
    - [Query]: [query.rs], the iterative query; [QueryProofs],
      [QueryTheorems]: whole runs of it; [QueryTyped]: what it hands out.
    - [Io]: [io.rs], requests with retries and timeouts, the congestion window,
      tokens, replies and relays; [IoProofs], [IoTheorems].
    - [NatClassifier]: [nat.rs]; [NatTheorems].
    - [Rpc]: [rpc.rs], the actor that joins the request layer, the table, the
      queries and the classifier, with its loop; [RpcProofs], [RpcTheorems].
    - [Router]: [router.rs], and from [hyperdht.rs] the handlers
      [handle_peer_handshake] and [handle_peer_holepunch] and one turn of
      [run_request_handler], which joins storage and router; [RouterTheorems].

    The transport ([libudx/src/native]):
    - [UdxHeader]: [header.rs].  [UdxCongestion]: [congestion/*.rs] (BBR, rate
      sampling, pacing, the windowed filter); [UdxCongestionTheorems].
    - [UdxStream]: [stream.rs], the state of a stream, every function that
      changes it and the turns of its processor task.  [UdxSystem]: two streams
      and the network between them as a transition system; [UdxStreamProofs],
      [UdxSystemProofs], [UdxTheorems].

    Connections ([peeroxide-dht/src]):
    - [Noise]: [noise.rs], XX and IK; [NoiseTheorems].  [NoiseWrap]:
      [noise_wrap.rs] and [secure_payload.rs]; [NoiseWrapTheorems].
    - [Secretstream]: [secretstream.rs], the cipher; [SecretstreamTheorems].
      [SecretSession]: [secret_stream.rs], framing, handshake and messages;
      [SecretSessionTheorems].
    - [Protomux]: [protomux.rs], the frame codec and the actor; [ProtomuxWire],
      [ProtomuxProofs], [ProtomuxNet] (two actors over one connection),
      [ProtomuxTheorems].
    - [BlindRelay]: [blind_relay.rs] and the bridge of [relay_service.rs];
      [BlindRelayTheorems]; [RelayService]: the relay accepts a connection.
    - [Holepuncher]: [holepuncher.rs] and [socket_pool.rs];
      [HolepuncherTheorems].

    The swarm ([peeroxide/src]):
    - [ReplyCache]: the [HandshakeReplyCache] of [swarm.rs].
    - [Swarm]: [swarm.rs], [peer_info.rs], [connection_set.rs] and the refresh of
      [peer_discovery.rs]: topics, discovery, dials and retries.  [SwarmServer]:
      the server side, the passive hole punch and the loop, with tasks, timers
      and channels as events.  [SwarmTheorems], [SwarmServerTheorems].

    The dead drop ([peeroxide-cli/src/cmd/deaddrop]):
    - [DeadDropWire], [DeadDropTree], [DeadDropNeed]: [v2/wire.rs], [tree.rs],
      [build.rs], [keys.rs] and [need.rs].  [DeadDropFetch]: [fetch.rs] and
      [stream.rs], the receiver; [DeadDropFetchProofs], [DeadDropRun],
      [DeadDropTheorems].  [DeadDropPublish]: [queue.rs] and [publish.rs], the
      sender; [DeadDropPublishTheorems].  [DeadDropV1]: [v1.rs].

    ** How the parts interact

    Datagrams reach [Io], which decodes them with [Messages] and tells [Rpc];
    [Rpc] feeds responses to [Query], [RoutingTable] and [NatClassifier], and
    hands requests it does not know to the turn of [Router], which answers them
    from [Persistent] or forwards handshakes.  A handshake carries payloads of
    [PayloadWire] inside messages of [NoiseWrap]; its result keys a
    [Secretstream] in [SecretSession], which runs over a stream of [UdxStream]
    and carries the frames of [Protomux], on which [BlindRelay] speaks.  [Swarm]
    and [SwarmServer] decide whom to dial and answer, with [Holepuncher] for
    peers behind NATs.  Interfaces are type classes: [Codec] between message
    types and their users, [CryptoPrims], [NoisePrims], [BoxPrims] and
    [StreamPrims] for libraries, with their laws in classes of their own.

    ** What the theorems show

    - Encoding: every codec round-trips on its stated domain and measures what
      it writes; the domain is the range of the Rust types except for hosts,
      which must be in the form the decoder prints, versions, which are 1, and
      the five codes of the Noise and hole-punch payloads, which are at most 252
      (above it the encoder panics).  No decoder panics or accepts an ill-typed
      value, with one exception that is proved as such ([lookup_decode_panics]).
    - Routing table: an invariant of every operation sequence, and refinement
      of a finite map; [closest] returns distinct nodes, those of the target's
      bucket first and nearer than the others.
    - Storage: an invariant of every request sequence (bounds, authentic
      contents, no panic); the exact answer to and effect of an announcement and
      of a mutable put, accepted or not; reads return authentic records; what is
      put can be read.
    - Queries: over every interleaving of responses, timeouts and commit
      completions, the result is the [K] nearest replies received, no address
      is asked twice, the query finishes exactly when everything it asked for
      has completed, and it delivers one result.
    - Requests and nodes: every request is resolved at most once and accounted
      for; a node never panics, its books of queries and requests agree with the
      request layer's, a silent network settles it, and a neighbour that is
      checked is kept or replaced as it answers.
    - Router and NAT: a handshake through a relay arrives and its answer comes
      back; forwarding is bounded; the table changes only through accepted
      announcements; the samples are the exact report counts, and the verdict
      and the addresses offered follow from them.
    - UDX: whatever the network loses, repeats or reorders, each side reads a
      prefix of what the other wrote; streams do not fail; a timeout resends
      what is lost; the congestion controller keeps its bounds and does not
      panic, for MTUs and segment sizes that are not zero in 32 bits.
    - Connections: both sides of XX and IK agree on keys and identities; the
      cipher accepts exactly what was pushed, in order; sessions connect and
      deliver their messages; two multiplexers pair their channels and deliver
      every message once and in order; the relay pairs the two sides of a token
      and its books balance.
    - Hole punching: what a punch does on every branch, with the exact number of
      probes to each address, the pauses and the end; it reports its failure
      except when, behind a random NAT, the verified address does not resolve;
      [match_address] picks the closest address.
    - Swarm: the books of dials, registrations, hole punches and slots balance
      over every run; dials are best first; a handshake that comes by several
      ways is answered identically; the rounds of a hole punch are answered; a
      peer whose dial fails while it has a topic is not dialled again.
    - Dead drop: a file is delivered through any order of answers, arbitrary
      answers are harmless and success means that every chunk arrived (the file
      at a path is exact when its final truncation succeeded, an error the code
      ignores), the work queue and the permits are exact.
    - Deviations found are theorems too: [lookup_decode_panics],
      [wide_codes_panic], [closest_not_nearest],
      [unannounce_removes_any_entry], [lru_replace_evicts],
      [expired_topics_stay], [bootstrap_ipv6_panics], [relayed_reply_lost],
      [short_write_stalls], [mux_reject_panics], [relay_limit_leaks],
      [failed_peer_never_redialled], the second half of
      [punch_rounds_answered].

    ** Choices

    - Integers are [Z] with their width stated by [in_u] or written out by
      [as_u]; [usize] is 64-bit; arithmetic wraps as in a release build, and
      [debug_assert] is not modelled.  Cursor positions, cache totals and the
      counters of [Query], [Io] and [Rpc] are not wrapped: they count bytes,
      records or requests of one process.  Floats are their bit patterns on the
      wire and [SpecFloat] numbers in the congestion controller.
    - Slice indexing, [expect] and [Vec::with_capacity] panic where Rust's do.
    - Clocks, random draws, fresh keys and nonces, the hash and signature
      functions and the iteration order of a [HashMap] are parameters: arguments
      (a reading per turn), [CryptoPrims] with [CryptoLaws] (a digest is 32
      bytes), and [MapIter] (an iteration is a permutation of the entries).  No
      theorem assumes the hash or the signature scheme to be secure:
      authenticity is stated as "the verifier accepted".  Of the curve, the AEADs
      and the stream cipher the theorems use what [NoiseLaws], [BoxLaws],
      [StreamLaws] and [MacLaws] say: that Diffie-Hellman agrees, that opening
      inverts sealing, and the lengths.
    - Loops that are not structural have fuel: [bs_loop] halves its interval and
      gets the length, [read_loop] pops a pending node per turn and gets their
      number, [read_more] calls itself only after it set [from_table] and gets
      two levels, [utf8_lossy_go] and [chunks_exact8] consume input and get its
      length, [show_hex] prints at most four digits of a [u16], [depth_loop]
      divides and gets 64, [StreamSink_drain] and [drain_recv] take an entry of
      a buffer per turn and get its size, [drain_loop] the pending entries,
      [batch_loop] the length of the frame, [attempt_loop] the queue, a read of a
      session one turn per frame.  Each bound is used in the proof of the
      theorem that depends on it.
    - Handlers that send messages return the list of their effects; an answer
      that comes later from another task is a separate definition or an event.
      Channels are numbers or lists, mutexes are never poisoned, sockets are
      numbers.  The actors' loops are functions over the events their [select]
      can see, in any order; the answers of the DHT are event sequences.  A read
      that another arm of a [select] interrupts loses no bytes, and an
      allocation that is not a capacity overflow succeeds.
    - The network of [UdxSystem] is the set of datagrams ever sent, so that it
      may repeat and reorder; a stream sends fewer than 2^31 packets; [destroy]
      is not a step of the system.  Two multiplexers exchange fewer than
      2^32 - 1 commands and close nothing.  The node's books are for its first
      65536 transaction ids, its bootstrap nodes are canonical IPv4 addresses and
      its concurrency is positive; runs of the relay and the swarm are shorter
      than 2^64 and 2^62 events.  A ghost field ([io_taken], the traces of the
      worlds) records what happened and influences nothing.

    ** Not modelled

    The async runtimes, the sockets of [libudx] and its error types; in
    [hyperdht.rs] the client flows (connect, announce, lookup and the rounds of
    an active hole punch) and the server session; in [swarm.rs] the creation of
    the actor beyond its initial state, the handle, and the network sequence of
    [create_server_relay_connection]; the resolution of bootstrap names; the
    task spawning and rate limits of the dead drop's sender and its progress
    display; the chat; the command-line tools, which parse
    arguments and print. *)

From stdpp Require Export base option list gmap strings numbers.
From Stdlib Require Export ZArith Lia.

#[local] Open Scope Z_scope.

(** ** Rust outcomes and the state monad of fallible code *)

(** The result of a Rust computation: [Ok], the [Err] of its [Result], or a
    panic (index out of bounds, failed [expect], capacity overflow). *)
Inductive outcome (E A : Type) : Type :=
| Ok (a : A)
| Err (e : E)
| Panic.
Arguments Ok {E A} a.
Arguments Err {E A} e.
Arguments Panic {E A}.

(** Code that mutates a [&mut S] and may fail: the state is kept on [Err]. *)
Definition M (S E A : Type) : Type := S -> outcome E A * S.

#[global] Instance M_ret {S E} : MRet (M S E) := fun A a s => (Ok a, s).
#[global] Instance M_bind {S E} : MBind (M S E) := fun A B f m s =>
  match m s with
  | (Ok a, s') => f a s'
  | (Err e, s') => (Err e, s')
  | (Panic, s') => (Panic, s')
  end.

#[global] Instance M_fmap {S E} : FMap (M S E) := fun A B f m => m ≫= fun a => mret (f a).

#[global] Instance outcome_ret {E} : MRet (outcome E) := fun A => Ok.
#[global] Instance outcome_bind {E} : MBind (outcome E) := fun A B f m =>
  match m with Ok a => f a | Err e => Err e | Panic => Panic end.

(** The primitive effects. *)
Definition get {S E} : M S E S := fun s => (Ok s, s).
Definition put {S E} (s : S) : M S E unit := fun _ => (Ok tt, s).
Definition throw {S E A} (e : E) : M S E A := fun s => (Err e, s).
Definition panic {S E A} : M S E A := fun s => (Panic, s).

(** [for _ in 0..n { v.push(m?) }] *)
Fixpoint repeat_m {S E A} (n : nat) (m : M S E A) : M S E (list A) :=
  match n with
  | O => mret []
  | Datatypes.S n => x ← m; xs ← repeat_m n m; mret (x :: xs)
  end.

(** [for x in l { f(x)?; }] *)
Fixpoint for_m {S E A} (l : list A) (f : A -> M S E unit) : M S E unit :=
  match l with
  | [] => mret tt
  | x :: l => f x ;; for_m l f
  end.

(** [Result::ok], [Result::unwrap_or]. *)
Definition outcome_ok {E A} (o : outcome E A) : option A :=
  match o with Ok a => Some a | _ => None end.

Lemma bind_ok {S E A B} (m : M S E A) (f : A -> M S E B) s a s' :
  m s = (Ok a, s') -> (m ≫= f) s = f a s'.
Proof. unfold mbind, M_bind. by intros ->. Qed.

Lemma bind_err {S E A B} (m : M S E A) (f : A -> M S E B) s e s' :
  m s = (Err e, s') -> (m ≫= f) s = (Err e, s').
Proof. unfold mbind, M_bind. by intros ->. Qed.

Lemma bind_panic {S E A B} (m : M S E A) (f : A -> M S E B) s s' :
  m s = (Panic, s') -> (m ≫= f) s = (Panic, s').
Proof. unfold mbind, M_bind. by intros ->. Qed.

Lemma bind_assoc {S E A B C} (m : M S E A) (f : A -> M S E B) (g : B -> M S E C) s :
  ((m ≫= f) ≫= g) s = (m ≫= (fun x => f x ≫= g)) s.
Proof. unfold mbind, M_bind. by destruct (m s) as [[a|e|] s']. Qed.

(** Weakest preconditions: no panic, no error, and the postcondition. *)
Definition wp {S E A} (m : M S E A) (s : S) (Q : A -> S -> Prop) : Prop :=
  match m s with (Ok a, s') => Q a s' | _ => False end.

Lemma wp_ret {S E A} (a : A) s (Q : A -> S -> Prop) : Q a s -> wp (E := E) (mret a) s Q.
Proof. done. Qed.
Lemma wp_bind {S E A B} (m : M S E A) (f : A -> M S E B) s Q :
  wp m s (fun a s' => wp (f a) s' Q) -> wp (m ≫= f) s Q.
Proof. unfold wp, mbind, M_bind. by destruct (m s) as [[a|e|] s']. Qed.
Lemma wp_bind_assoc {S E A B D} (m : M S E A) (f : A -> M S E B) (k : B -> M S E D) s Q :
  wp (m ≫= f) s (fun b s' => wp (k b) s' Q) -> wp (m ≫= (fun a => f a ≫= k)) s Q.
Proof. unfold wp, mbind, M_bind. destruct (m s) as [[a|e|] s']; [|done..]. by destruct (f a s') as [[b|e|] s'']. Qed.
Lemma wp_fmap {S E A B} (g : A -> B) (m : M S E A) s (Q : B -> S -> Prop) :
  wp m s (fun a s' => Q (g a) s') -> wp (g <$> m) s Q.
Proof. intros H. by apply wp_bind. Qed.
Lemma wp_get {S E} s (Q : S -> S -> Prop) : Q s s -> wp (E := E) get s Q.
Proof. done. Qed.
Lemma wp_mono {S E A} (m : M S E A) s (Q Q' : A -> S -> Prop) :
  (forall a s', Q a s' -> Q' a s') -> wp m s Q -> wp m s Q'.
Proof. unfold wp. intros HQ. destruct (m s) as [[a|e|] s']; auto. Qed.
(** The postcondition of a known result, and the result of a proved one. *)
Lemma wp_and {S E A} (m : M S E A) s (Q Q' : A -> S -> Prop) :
  wp m s Q -> wp m s Q' -> wp m s (fun a s' => Q a s' /\ Q' a s').
Proof. unfold wp. destruct (m s) as [[a|e|] s']; auto. Qed.
Lemma wp_eq {S E A} (m : M S E A) s a s' (Q : A -> S -> Prop) : m s = (Ok a, s') -> wp m s Q <-> Q a s'.
Proof. unfold wp. by intros ->. Qed.
Lemma wp_inv {S E A} (m : M S E A) s (Q : A -> S -> Prop) :
  wp m s Q -> exists a s', m s = (Ok a, s') /\ Q a s'.
Proof. unfold wp. destruct (m s) as [[a|e|] s']; [eauto|done..]. Qed.
(** A loop keeps what its body keeps. *)
Lemma wp_for_m {S E A} (f : A -> M S E unit) (I : S -> Prop) l s :
  I s -> (forall x s, x ∈ l -> I s -> wp (f x) s (fun _ => I)) -> wp (for_m l f) s (fun _ => I).
Proof.
  revert s. induction l as [|x l IH]; intros s Hs Hf; [done|]. cbn [for_m]. apply wp_bind.
  eapply wp_mono; [|apply Hf; [by left|done]]. cbv beta. intros _ s' Hs'. apply IH; [done|].
  intros y s2 Hy. apply Hf. by right.
Qed.

(** ** Machine integers

    A [w]-bit unsigned integer is a [Z] in [0, 2^w); the [as] casts of the
    source are the wrap-around functions below. *)
Definition as_u (w : Z) (z : Z) : Z := z mod 2 ^ w.
Definition as_u8 (z : Z) : Z := as_u 8 z.
Definition as_u16 (z : Z) : Z := as_u 16 z.
Definition as_u32 (z : Z) : Z := as_u 32 z.
Definition as_u64 (z : Z) : Z := as_u 64 z.
Definition as_i (w : Z) (z : Z) : Z := (z + 2 ^ (w - 1)) mod 2 ^ w - 2 ^ (w - 1).
Definition as_i8 (z : Z) : Z := as_i 8 z.
Definition as_i16 (z : Z) : Z := as_i 16 z.
Definition as_i32 (z : Z) : Z := as_i 32 z.
Definition as_i64 (z : Z) : Z := as_i 64 z.

Definition in_u (w : Z) (z : Z) : Prop := 0 <= z < 2 ^ w.
Definition in_i (w : Z) (z : Z) : Prop := - 2 ^ (w - 1) <= z < 2 ^ (w - 1).
#[global] Instance in_u_dec w z : Decision (in_u w z).
Proof. unfold in_u. apply _. Defined.
#[global] Instance in_i_dec w z : Decision (in_i w z).
Proof. unfold in_i. apply _. Defined.

(** The powers of two the source's widths need, computed, so that [lia] sees
    literals. *)
Ltac pow2 :=
  repeat match goal with
  | |- context [2 ^ ?n] =>
      let v := eval vm_compute in (2 ^ n) in
      match v with Zpos _ => change (2 ^ n) with v end
  | H : context [2 ^ ?n] |- _ =>
      let v := eval vm_compute in (2 ^ n) in
      match v with Zpos _ => change (2 ^ n) with v in H end
  end.

Ltac words := unfold as_u8, as_u16, as_u32, as_u64, as_i8, as_i16, as_i32, as_i64,
  as_u, as_i, in_u, in_i in *; pow2.

Ltac zdm := Z.div_mod_to_equations; lia.

Lemma as_u_id w z : in_u w z -> as_u w z = z.
Proof. apply Z.mod_small. Qed.

Lemma as_u_range w z : 0 <= w -> in_u w (as_u w z).
Proof. intros. apply Z.mod_pos_bound. lia. Qed.

Lemma as_i_id w z : 1 <= w -> in_i w z -> as_i w z = z.
Proof.
  unfold in_i, as_i. intros Hw Hz.
  assert (2 ^ w = 2 * 2 ^ (w - 1)) as E.
  { rewrite <- Z.pow_succ_r by lia. f_equal. lia. }
  rewrite Z.mod_small; lia.
Qed.

(** A low part and a shifted high part do not overlap. *)
Lemma land_low_high lo hi k :
  0 <= k -> 0 <= lo < 2 ^ k -> Z.land lo (hi * 2 ^ k) = 0.
Proof.
  intros Hk Hlo. apply Z.bits_inj'. intros n Hn.
  rewrite Z.land_spec, Z.bits_0.
  destruct (Z.lt_ge_cases n k) as [H|H].
  { rewrite Z.mul_pow2_bits_low, andb_false_r by lia. done. }
  destruct (decide (lo = 0)) as [->|]; [by rewrite Z.bits_0|].
  rewrite Z.bits_above_log2; [done|lia|].
  apply Z.log2_lt_pow2; [lia|]. apply Z.lt_le_trans with (2 ^ k); [lia|].
  apply Z.pow_le_mono_r; lia.
Qed.

(** [lo | hi << k] *)
Lemma lor_shiftl_add lo hi k :
  0 <= k -> 0 <= lo < 2 ^ k -> Z.lor lo (Z.shiftl hi k) = lo + hi * 2 ^ k.
Proof.
  intros Hk Hlo. rewrite Z.shiftl_mul_pow2 by done.
  rewrite <- Z.lxor_lor, <- Z.add_nocarry_lxor; auto using land_low_high.
Qed.

(** ** Bytes and byte buffers *)

(** A byte is a [Z] in [0, 256); a buffer is a list of them. *)
Definition is_byte (b : Z) : Prop := 0 <= b < 256.
#[global] Instance is_byte_dec b : Decision (is_byte b).
Proof. unfold is_byte. apply _. Defined.
Abbreviation bytes_ok := (Forall is_byte).

Definition len {A} (l : list A) : Z := Z.of_nat (length l).

Lemma len_nonneg {A} (l : list A) : 0 <= len l.
Proof. unfold len. lia. Qed.
Lemma len_app {A} (k l : list A) : len (k ++ l) = len k + len l.
Proof. unfold len. rewrite length_app. lia. Qed.
Lemma len_cons {A} (x : A) l : len (x :: l) = 1 + len l.
Proof. unfold len. simpl. lia. Qed.
Lemma to_nat_len {A} (l : list A) : Z.to_nat (len l) = length l.
Proof. unfold len. lia. Qed.

Create HintDb rust.
Create Rewrite HintDb rust.
#[export] Hint Rewrite @len_app @len_cons @to_nat_len : rust.

(** Normalise lengths. *)
Ltac lens :=
  autorewrite with rust in *;
  repeat match goal with
  | |- context [@len ?A []] => change (@len A []) with 0
  | H : context [@len ?A []] |- _ => change (@len A []) with 0 in H
  end.

(** [l[a..b]], for 0 <= a <= b <= len l. *)
Definition slice {A} (l : list A) (a b : Z) : list A :=
  take (Z.to_nat (b - a)) (drop (Z.to_nat a) l).

Lemma slice_mid {A} (pre mid post : list A) a b :
  a = len pre -> b = len pre + len mid ->
  slice (pre ++ mid ++ post) a b = mid.
Proof.
  intros -> ->. unfold slice, len.
  rewrite Nat2Z.id, drop_app_length.
  replace (Z.to_nat _) with (length mid) by lia. apply take_app_length.
Qed.

Lemma slice_bytes l a b : bytes_ok l -> bytes_ok (slice l a b).
Proof. intros. by apply Forall_take, Forall_drop. Qed.

Lemma slice_len {A} (l : list A) a b :
  0 <= a <= b -> b <= len l -> len (slice l a b) = b - a.
Proof. unfold slice, len. intros. rewrite length_take, length_drop. lia. Qed.

(** ** Little-endian integers: [to_le_bytes] and [from_le_bytes] *)

Fixpoint to_le (n : nat) (z : Z) : list Z :=
  match n with
  | O => []
  | Datatypes.S n => z mod 256 :: to_le n (z / 256)
  end.

Fixpoint from_le (bs : list Z) : Z :=
  match bs with
  | [] => 0
  | b :: bs => b + 256 * from_le bs
  end.

Lemma length_to_le n z : length (to_le n z) = n.
Proof. revert z. induction n; intros; simpl; auto. Qed.
Lemma len_to_le n z : len (to_le n z) = Z.of_nat n.
Proof. unfold len. by rewrite length_to_le. Qed.
#[export] Hint Rewrite len_to_le length_to_le : rust.

Lemma to_le_bytes_ok n z : bytes_ok (to_le n z).
Proof.
  revert z. induction n; intros; simpl; constructor; auto.
  unfold is_byte. apply Z.mod_pos_bound. lia.
Qed.

Lemma from_le_to_le n z : from_le (to_le n z) = z mod 2 ^ (8 * Z.of_nat n).
Proof.
  revert z. induction n as [|n IH]; intros z; cbn [to_le from_le].
  - by rewrite Z.mod_1_r.
  - rewrite IH.
    replace (8 * Z.of_nat (Datatypes.S n)) with (8 + 8 * Z.of_nat n) by lia.
    rewrite Z.pow_add_r by lia. change (2 ^ 8) with 256.
    rewrite Z.rem_mul_r by lia. done.
Qed.

Lemma from_le_range bs : bytes_ok bs -> in_u (8 * len bs) (from_le bs).
Proof.
  unfold in_u. induction 1 as [|b bs Hb _ IH]; cbn [from_le].
  - by split.
  - pose proof (len_nonneg bs).
    rewrite len_cons, Z.mul_add_distr_l, Z.pow_add_r by lia.
    change (2 ^ (8 * 1)) with 256. unfold is_byte in Hb. lia.
Qed.

Lemma to_le_from_le bs : bytes_ok bs -> to_le (length bs) (from_le bs) = bs.
Proof.
  induction 1 as [|b bs Hb _ IH]; cbn [length to_le from_le]; [done|].
  unfold is_byte in Hb. f_equal.
  - rewrite Z.mul_comm, Z.mod_add by lia. apply Z.mod_small. lia.
  - rewrite Z.mul_comm, Z.div_add by lia. by rewrite Z.div_small, Z.add_0_l.
Qed.

(** An [n]-byte integer survives the trip through its little-endian bytes. *)
Lemma from_le_to_le_id n z : in_u (8 * Z.of_nat n) z -> from_le (to_le n z) = z.
Proof. rewrite from_le_to_le. apply Z.mod_small. Qed.

(** The bytes of [lo | hi << 8n] are those of its two parts. *)
Lemma to_le_add n m lo hi :
  in_u (8 * Z.of_nat n) lo ->
  to_le (n + m) (lo + hi * 2 ^ (8 * Z.of_nat n)) = to_le n lo ++ to_le m hi.
Proof.
  revert lo. induction n as [|n IH]; intros lo Hlo; unfold in_u in *.
  - simpl in *. f_equal. lia.
  - cbn [to_le Nat.add]. rewrite <- app_comm_cons.
    replace (8 * Z.of_nat (Datatypes.S n)) with (8 + 8 * Z.of_nat n) in * by lia.
    rewrite Z.pow_add_r in * by lia. change (2 ^ 8) with 256 in *.
    replace (lo + hi * (256 * 2 ^ (8 * Z.of_nat n)))
      with (lo + hi * 2 ^ (8 * Z.of_nat n) * 256) by ring.
    rewrite Z.mod_add, Z.div_add by lia. f_equal. apply IH. split.
    + apply Z.div_pos; lia.
    + apply Z.div_lt_upper_bound; lia.
Qed.

(** Only the low bits matter. *)
Lemma to_le_mod n z k : 8 * Z.of_nat n <= k -> to_le n (z mod 2 ^ k) = to_le n z.
Proof.
  revert z k. induction n as [|n IH]; intros z k Hk; cbn [to_le]; [done|].
  replace (2 ^ k) with (256 * 2 ^ (k - 8))
    by (change 256 with (2 ^ 8); rewrite <- Z.pow_add_r by lia; f_equal; lia).
  rewrite Z.rem_mul_r by lia. f_equal.
  - rewrite Z.mul_comm, Z.mod_add, Z.mod_mod by lia. done.
  - rewrite Z.mul_comm, Z.div_add, Z.div_small, Z.add_0_l by (lia || apply Z.mod_pos_bound; lia).
    apply IH. lia.
Qed.

Lemma to_le_app n m z : to_le (n + m) z = to_le n z ++ to_le m (z / 2 ^ (8 * Z.of_nat n)).
Proof.
  revert z. induction n as [|n IH]; intros z; cbn [to_le Nat.add].
  - by rewrite Z.div_1_r.
  - replace (8 * Z.of_nat (Datatypes.S n)) with (8 + 8 * Z.of_nat n) by lia.
    rewrite IH, Z.pow_add_r, <- Z.div_div by lia. done.
Qed.

Lemma from_le_app a b : from_le (a ++ b) = from_le a + from_le b * 2 ^ (8 * len a).
Proof.
  induction a as [|x a IH]; cbn [from_le app].
  - change (len []) with 0. simpl. lia.
  - pose proof (len_nonneg a).
    rewrite IH, len_cons. replace (8 * (1 + len a)) with (8 + 8 * len a) by lia.
    rewrite Z.pow_add_r by lia. change (2 ^ 8) with 256. ring.
Qed.
