(* ===== verification/RustStd.v ===== *)
(** * RustStd: the parts of the Rust standard library the source calls

    Integer parsing and printing, [str::split], [String::from_utf8_lossy],
    the textual forms of [Ipv4Addr] and [Ipv6Addr], [Vec::with_capacity] and
    [slice::binary_search_by], each as the executable function its documented
    algorithm describes.  A Rust [String] is a Rocq [string] whose characters
    are its UTF-8 bytes. *)

From S2P Require Import Prelude.
From stdpp Require Export pretty.
From Stdlib Require Import Ascii.

#[local] Open Scope Z_scope.

(** ** Strings and bytes *)

Definition byte_of_ascii (c : ascii) : Z := Z.of_N (N_of_ascii c).
Definition ascii_of_byte (b : Z) : ascii := ascii_of_N (Z.to_N b).

(** [str::as_bytes] *)
Fixpoint string_bytes (s : string) : list Z :=
  match s with
  | EmptyString => []
  | String c s => byte_of_ascii c :: string_bytes s
  end.

Fixpoint bytes_string (bs : list Z) : string :=
  match bs with
  | [] => EmptyString
  | b :: bs => String (ascii_of_byte b) (bytes_string bs)
  end.

Lemma bytes_string_bytes s : bytes_string (string_bytes s) = s.
Proof.
  induction s as [|c s IH]; simpl; [done|]. rewrite IH. f_equal.
  unfold ascii_of_byte, byte_of_ascii. rewrite N2Z.id. apply ascii_N_embedding.
Qed.

(** [char::to_digit] for radix 10 and 16. *)
Definition to_digit (radix : Z) (c : ascii) : option Z :=
  let n := byte_of_ascii c in
  let d := if (48 <=? n) && (n <=? 57) then n - 48
           else if (97 <=? n) && (n <=? 102) then n - 87
           else if (65 <=? n) && (n <=? 70) then n - 55
           else 255 in
  if d <? radix then Some d else None.

(** [uN::from_str] (decimal), for the type whose largest value is [max]. *)
Fixpoint parse_digits (max acc : Z) (s : string) : option Z :=
  match s with
  | EmptyString => Some acc
  | String c s =>
      d ← to_digit 10 c;
      if max <? acc * 10 then None
      else if max <? acc * 10 + d then None
      else parse_digits max (acc * 10 + d) s
  end.

Definition parse_uint (max : Z) (s : string) : option Z :=
  match s with
  | EmptyString => None
  | String "+" EmptyString => None
  | String "+" s => parse_digits max 0 s
  | s => parse_digits max 0 s
  end.
Definition parse_u8 : string -> option Z := parse_uint 255.
Definition parse_u16 : string -> option Z := parse_uint 65535.

(** [str::split] on one character. *)
Fixpoint split_on (sep : ascii) (s : string) : list string :=
  match s with
  | EmptyString => [EmptyString]
  | String c s =>
      if decide (c = sep) then EmptyString :: split_on sep s
      else match split_on sep s with
           | h :: t => String c h :: t
           | [] => []
           end
  end.

(** [str::contains] for one character. *)
Fixpoint str_contains (c : ascii) (s : string) : bool :=
  match s with
  | EmptyString => false
  | String a s => if decide (a = c) then true else str_contains c s
  end.

Lemma split_on_app sep a s :
  str_contains sep a = false ->
  split_on sep (a +:+ String sep s) = a :: split_on sep s.
Proof.
  induction a as [|c a IH]; simpl.
  - by rewrite decide_True.
  - case_decide; [done|]. intros Hs. by rewrite IH.
Qed.

Lemma split_on_none sep a :
  str_contains sep a = false -> split_on sep a = [a].
Proof.
  induction a as [|c a IH]; simpl; [done|].
  case_decide; [done|]. intros Hs. by rewrite IH.
Qed.

Lemma str_contains_app c a b :
  str_contains c (a +:+ b) = str_contains c a || str_contains c b.
Proof. induction a as [|d a IH]; simpl; [done|]. by case_decide. Qed.

Lemma str_contains_ne c a s :
  a <> c -> str_contains c (String a s) = str_contains c s.
Proof. intros. cbn [str_contains]. by rewrite decide_False. Qed.

(** ** The dotted-quad text of four octets *)

Definition dotted (a b c d : Z) : string :=
  pretty a +:+ String "." (pretty b +:+ String "." (pretty c +:+ String "." (pretty d))).

(** Every byte, by enumeration. *)
Definition all_bytes : list Z := Z.of_nat <$> seq 0 256.

Lemma all_bytes_spec b : is_byte b -> b ∈ all_bytes.
Proof.
  intros H. unfold is_byte in H. apply list_elem_of_fmap.
  exists (Z.to_nat b). split; [lia|]. apply elem_of_seq. lia.
Qed.

Lemma byte_ind (P : Z -> Prop) : Forall P all_bytes -> forall b, is_byte b -> P b.
Proof. intros H b Hb. rewrite Forall_forall in H. by apply H, all_bytes_spec. Qed.

Lemma pretty_byte_parse b : is_byte b -> parse_u8 (pretty b) = Some b.
Proof.
  revert b. apply byte_ind.
  apply (bool_decide_unpack (Forall (fun b => parse_u8 (pretty b) = Some b) all_bytes)).
  vm_compute. done.
Qed.

Lemma pretty_byte_no c b :
  c ∈ [".":ascii; ":":ascii] -> is_byte b -> str_contains c (pretty b) = false.
Proof.
  intros Hc Hb. revert c Hc. apply Forall_forall. revert b Hb. apply byte_ind.
  apply (bool_decide_unpack (Forall (fun b =>
    Forall (fun c => str_contains c (pretty b) = false) [".":ascii; ":":ascii]) all_bytes)).
  vm_compute. done.
Qed.

Lemma pretty_byte_no_dot b : is_byte b -> str_contains "." (pretty b) = false.
Proof. apply pretty_byte_no. left. Qed.
Lemma pretty_byte_no_colon b : is_byte b -> str_contains ":" (pretty b) = false.
Proof. apply pretty_byte_no. right. left. Qed.

Lemma split_dotted a b c d :
  is_byte a -> is_byte b -> is_byte c -> is_byte d ->
  split_on "." (dotted a b c d) = [pretty a; pretty b; pretty c; pretty d].
Proof.
  intros. unfold dotted.
  by rewrite !split_on_app, split_on_none by auto using pretty_byte_no_dot.
Qed.

Lemma dotted_no_colon a b c d :
  is_byte a -> is_byte b -> is_byte c -> is_byte d ->
  str_contains ":" (dotted a b c d) = false.
Proof.
  intros. unfold dotted.
  repeat (rewrite str_contains_app, str_contains_ne by done).
  by rewrite !pretty_byte_no_colon by done.
Qed.

(** ** [String::from_utf8_lossy] *)

Definition is_cont (b : Z) : bool := (128 <=? b) && (b <=? 191).

(** One step of the UTF-8 decoder: whether the next sequence is valid, and
    how many bytes it takes (a maximal invalid prefix when it is not). *)
Definition utf8_step (bs : list Z) : bool * nat :=
  let at_ i := nth i bs 0 in
  let b0 := at_ 0%nat in
  let b1 := at_ 1%nat in
  if b0 <? 128 then (true, 1%nat)
  else if (194 <=? b0) && (b0 <=? 223) then
    if is_cont b1 then (true, 2%nat) else (false, 1%nat)
  else if (224 <=? b0) && (b0 <=? 239) then
    let lo := if b0 =? 224 then 160 else 128 in
    let hi := if b0 =? 237 then 159 else 191 in
    if (lo <=? b1) && (b1 <=? hi) then
      if is_cont (at_ 2%nat) then (true, 3%nat) else (false, 2%nat)
    else (false, 1%nat)
  else if (240 <=? b0) && (b0 <=? 244) then
    let lo := if b0 =? 240 then 144 else 128 in
    let hi := if b0 =? 244 then 143 else 191 in
    if (lo <=? b1) && (b1 <=? hi) then
      if is_cont (at_ 2%nat) then
        if is_cont (at_ 3%nat) then (true, 4%nat) else (false, 3%nat)
      else (false, 2%nat)
    else (false, 1%nat)
  else (false, 1%nat).

(** U+FFFD in UTF-8. *)
Definition replacement_char : list Z := [239; 191; 189].

Fixpoint utf8_lossy_go (fuel : nat) (bs : list Z) : list Z :=
  match fuel, bs with
  | Datatypes.S fuel, _ :: _ =>
      let '(ok, n) := utf8_step bs in
      (if ok then take n bs else replacement_char) ++ utf8_lossy_go fuel (drop n bs)
  | _, _ => []
  end.
(** Every step takes at least one byte, so the length is enough fuel. *)
Definition utf8_lossy (bs : list Z) : list Z := utf8_lossy_go (length bs) bs.

Fixpoint utf8_valid_go (fuel : nat) (bs : list Z) : bool :=
  match fuel, bs with
  | Datatypes.S fuel, _ :: _ =>
      let '(ok, n) := utf8_step bs in ok && utf8_valid_go fuel (drop n bs)
  | _, _ => true
  end.
Definition utf8_valid (bs : list Z) : bool := utf8_valid_go (length bs) bs.

Definition from_utf8_lossy (bs : list Z) : string := bytes_string (utf8_lossy bs).

(** The invariant of the type [String]. *)
Definition str_ok (s : string) : Prop := utf8_valid (string_bytes s) = true.
#[global] Instance str_ok_dec s : Decision (str_ok s).
Proof. unfold str_ok. apply _. Defined.

Lemma utf8_step_pos bs : (1 <= (utf8_step bs).2)%nat.
Proof. unfold utf8_step. repeat case_match; simpl; lia. Qed.

(** Lossy decoding changes nothing in a valid string. *)
Lemma utf8_lossy_valid_go fuel bs :
  (length bs <= fuel)%nat -> utf8_valid_go fuel bs = true -> utf8_lossy_go fuel bs = bs.
Proof.
  revert bs. induction fuel as [|fuel IH]; intros [|b bs] Hf Hv; try done.
  { simpl in Hf. lia. }
  cbn [utf8_valid_go utf8_lossy_go] in *.
  pose proof (utf8_step_pos (b :: bs)) as Hn.
  destruct (utf8_step (b :: bs)) as [ok n]. simpl in Hn.
  apply andb_prop in Hv as [-> Hv].
  rewrite IH; [apply take_drop| |done].
  rewrite length_drop. simpl in *. lia.
Qed.

Lemma from_utf8_lossy_valid s : str_ok s -> from_utf8_lossy (string_bytes s) = s.
Proof.
  intros H. unfold from_utf8_lossy, utf8_lossy.
  rewrite utf8_lossy_valid_go by (done || apply H). apply bytes_string_bytes.
Qed.

(** ** [Ipv4Addr] and [Ipv6Addr]: parsing and printing

    A parser takes the rest of the text and returns what it read with what is
    left, [None] when it fails (the standard library's [read_atomically]). *)
Definition parser (A : Type) : Type := string -> option (A * string).

Definition read_given_char (c : ascii) : parser unit := fun s =>
  match s with
  | String a s => if decide (a = c) then Some (tt, s) else None
  | EmptyString => None
  end.

(** The digit loop of [read_number]: value, number of digits, rest; [None]
    past [max_digits]. *)
Fixpoint read_digits (radix : Z) (max_digits count : nat) (acc : Z) (s : string)
    : option (Z * nat * string) :=
  match s with
  | EmptyString => Some (acc, count, s)
  | String c s' =>
      match to_digit radix c with
      | None => Some (acc, count, s)
      | Some d =>
          if (max_digits <? Datatypes.S count)%nat then None
          else read_digits radix max_digits (Datatypes.S count) (acc * radix + d) s'
      end
  end.

Definition read_number (radix limit : Z) (max_digits : nat) (zero_prefix : bool) : parser Z :=
  fun s =>
    let leading_zero := match s with String "0" _ => true | _ => false end in
    '(v, n, s') ← read_digits radix max_digits 0 0 s;
    if (n =? 0)%nat then None
    else if negb zero_prefix && leading_zero && (1 <? n)%nat then None
    else if limit <? v then None
    else Some (v, s').

Definition read_separator {A} (sep : ascii) (i : nat) (p : parser A) : parser A :=
  fun s =>
    match i with
    | O => p s
    | _ => '(_, s') ← read_given_char sep s; p s'
    end.

Definition read_ipv4_addr : parser (list Z) := fun s =>
  let octet i := read_separator "." i (read_number 10 255 3 false) in
  '(a, s) ← octet 0%nat s; '(b, s) ← octet 1%nat s;
  '(c, s) ← octet 2%nat s; '(d, s) ← octet 3%nat s;
  Some ([a; b; c; d], s).

(** [Ipv4Addr::from_str], returning the octets. *)
Definition ipv4_from_str (s : string) : option (list Z) :=
  if (15 <? String.length s)%nat then None
  else match read_ipv4_addr s with
       | Some (o, EmptyString) => Some o
       | _ => None
       end.

(** [read_groups]: at most [k] more groups, of which [i] were read; the groups,
    whether the last two came from an embedded IPv4 address, and the rest. *)
Fixpoint read_groups (k i : nat) (s : string) : list Z * bool * string :=
  match k with
  | O => ([], false, s)
  | Datatypes.S k' =>
      match (if (0 <? k')%nat then read_separator ":" i read_ipv4_addr s else None) with
      | Some ([a; b; c; d], s') => ([a * 256 + b; c * 256 + d], true, s')
      | _ =>
          match read_separator ":" i (read_number 16 65535 4 true) s with
          | Some (g, s') =>
              let '(gs, v4, s'') := read_groups k' (Datatypes.S i) s' in (g :: gs, v4, s'')
          | None => ([], false, s)
          end
      end
  end.

Definition read_ipv6_addr : parser (list Z) := fun s =>
  let '(head, head_v4, s) := read_groups 8 0 s in
  if (length head =? 8)%nat then Some (head, s)
  else if head_v4 then None
  else
    '(_, s) ← read_given_char ":" s; '(_, s) ← read_given_char ":" s;
    let '(tail, _, s) := read_groups (8 - (length head + 1)) 0 s in
    Some (head ++ replicate (8 - length head - length tail) 0 ++ tail, s).

(** [Ipv6Addr::from_str] followed by [octets]. *)
Definition ipv6_octets (groups : list Z) : list Z :=
  groups ≫= fun g => [g / 256; g mod 256].
Definition ipv6_from_str (s : string) : option (list Z) :=
  match read_ipv6_addr s with
  | Some (g, EmptyString) => Some (ipv6_octets g)
  | _ => None
  end.

(** ** [SocketAddr]: four or sixteen octets and a port *)

Abbreviation SocketAddr := (list Z * Z)%type.

Definition read_port : parser Z := fun s =>
  '(_, s) ← read_given_char ":" s;
  read_number 10 65535 (String.length s) true s.
Definition read_socket_addr_v4 : parser SocketAddr := fun s =>
  '(o, s) ← read_ipv4_addr s; '(p, s) ← read_port s; Some ((o, p), s).
(** [scope_id], which is dropped here. *)
Definition read_scope_id : parser Z := fun s =>
  '(_, s) ← read_given_char "%" s;
  read_number 10 (2 ^ 32 - 1) (String.length s) true s.
Definition read_socket_addr_v6 : parser SocketAddr := fun s =>
  '(_, s) ← read_given_char "[" s;
  '(g, s) ← read_ipv6_addr s;
  let s := match read_scope_id s with Some (_, s') => s' | None => s end in
  '(_, s) ← read_given_char "]" s;
  '(p, s) ← read_port s;
  Some ((ipv6_octets g, p), s).
Definition socket_addr_from_str (s : string) : option SocketAddr :=
  match (match read_socket_addr_v4 s with Some r => Some r | None => read_socket_addr_v6 s end) with
  | Some (a, EmptyString) => Some a
  | _ => None
  end.

(** ** Printing and reading back an address *)

Lemma digit_char d : (d < 10)%N -> to_digit 10 (pretty_N_char d) = Some (Z.of_N d).
Proof.
  intros H. assert (d ∈ (N.of_nat <$> seq 0 10)) as Hin.
  { apply list_elem_of_fmap. exists (N.to_nat d). split; [lia|]. apply elem_of_seq. lia. }
  clear H. repeat (apply elem_of_cons in Hin as [->|Hin]; [done|]). by apply elem_of_nil in Hin.
Qed.

Lemma read_pretty_go m x s count :
  (count + String.length (pretty_N_go x s) <= m)%nat ->
  exists k, (k + String.length s <= m)%nat /\ (count <= k)%nat /\ ((0 < x)%N -> (count < k)%nat) /\
    read_digits 10 m count 0 (pretty_N_go x s) = read_digits 10 m k (Z.of_N x) s.
Proof.
  revert s. induction (N.lt_wf_0 x) as [x _ IH]. intros s Hm.
  destruct (decide (x = 0)%N) as [->|Hx].
  { exists count. rewrite pretty_N_go_0 in *. split_and!; [done|done|lia|done]. }
  rewrite pretty_N_go_step in * by lia.
  assert (x `div` 10 < x)%N as Hd by (apply N.div_lt; lia).
  destruct (IH _ Hd (String (pretty_N_char (x `mod` 10)) s) Hm) as (k & H1 & H2 & _ & H4).
  exists (Datatypes.S k). cbn [String.length] in H1. split_and!; [lia|lia|lia|]. rewrite H4.
  cbn [read_digits]. rewrite digit_char by (apply N.mod_lt; lia).
  rewrite (proj2 (Nat.ltb_ge _ _)) by lia. f_equal. pose proof (N.div_mod' x 10). lia.
Qed.

Lemma read_pretty_port p :
  in_u 16 p -> read_number 10 65535 (String.length (pretty p)) true (pretty p) = Some (p, EmptyString).
Proof.
  intros [H0 H1]. unfold read_number. destruct p as [|p|p]; [done| |lia].
  change (pretty (Z.pos p)) with (pretty (N.pos p)).
  unfold pretty, pretty_N. cbn [decide]. rewrite decide_False by done.
  destruct (read_pretty_go (String.length (pretty_N_go (N.pos p) "")) (N.pos p) "" 0) as (k & _ & _ & Hk & ->); [done|].
  cbn [read_digits mbind option_bind]. rewrite (proj2 (Nat.eqb_neq _ _)) by lia. cbn [negb andb].
  rewrite (proj2 (Z.ltb_ge _ _)) by (cbn; lia). done.
Qed.

Lemma read_digits_app radix m n acc a c rest v k :
  to_digit radix c = None -> read_digits radix m n acc a = Some (v, k, EmptyString) ->
  read_digits radix m n acc (a +:+ String c rest) = Some (v, k, String c rest).
Proof.
  intros Hc. revert n acc. induction a as [|d a IH]; intros n acc; cbn [read_digits String.app].
  - intros [= <- <-]. change (EmptyString +:+ String c rest) with (String c rest). cbn [read_digits]. by rewrite Hc.
  - change (String d a +:+ String c rest) with (String d (a +:+ String c rest)). cbn [read_digits].
    destruct (to_digit radix d); [|done]. case_match; [done|]. apply IH.
Qed.

(** Reading a printed octet takes it off the text. *)
Lemma read_pretty_octet c rest b :
  to_digit 10 c = None -> is_byte b -> read_number 10 255 3 false (pretty b +:+ String c rest) = Some (b, String c rest).
Proof.
  intros Hc Hb. assert (read_number 10 255 3 false (pretty b) = Some (b, EmptyString)) as Hr.
  { clear Hc. revert b Hb. apply byte_ind.
    apply (bool_decide_unpack (Forall (fun b => read_number 10 255 3 false (pretty b) = Some (b, EmptyString)) all_bytes)).
    vm_compute. done. }
  unfold read_number in *. destruct (read_digits 10 3 0 0 (pretty b)) as [[[v n] s]|] eqn:E; [|done].
  cbn [mbind option_bind] in Hr. destruct (pretty b) as [|d t]; [by cbn in E; simplify_eq|].
  assert (s = EmptyString) as -> by (by repeat (case_match; simplify_eq)).
  rewrite (read_digits_app _ _ _ _ _ _ _ _ _ Hc E). cbn [mbind option_bind].
  change (String d t +:+ String c rest) with (String d (t +:+ String c rest)).
  assert (v = b) as -> by (by repeat (case_match; simplify_eq)). revert Hr. repeat case_match; done.
Qed.

Lemma append_assoc s1 s2 s3 : (s1 +:+ s2) +:+ s3 = s1 +:+ (s2 +:+ s3).
Proof.
  induction s1 as [|c s1 IH]; [done|].
  change (String c ((s1 +:+ s2) +:+ s3) = String c (s1 +:+ (s2 +:+ s3))). by rewrite IH.
Qed.

(** The text of an address with a port is read back. *)
Lemma socket_addr_text a b c d p :
  is_byte a -> is_byte b -> is_byte c -> is_byte d -> in_u 16 p ->
  socket_addr_from_str (dotted a b c d +:+ ":" +:+ pretty p) = Some ([a; b; c; d], p).
Proof.
  intros Ha Hb Hc Hd Hp. unfold socket_addr_from_str, read_socket_addr_v4, read_ipv4_addr, dotted.
  assert (forall c s t, String c s +:+ t = String c (s +:+ t)) as Hs by done.
  repeat (rewrite append_assoc || rewrite Hs).
  change (EmptyString +:+ pretty p) with (pretty p).
  cbn [read_separator]. rewrite read_pretty_octet by done. cbn [mbind option_bind].
  do 3 (cbn [read_given_char]; rewrite decide_True by done; cbn [mbind option_bind];
        rewrite read_pretty_octet by done; cbn [mbind option_bind]).
  unfold read_port. cbn [read_given_char]. rewrite decide_True by done. cbn [mbind option_bind].
  by rewrite read_pretty_port.
Qed.

(** [Ipv6Addr::to_string] of sixteen octets. *)
Fixpoint ipv6_groups (o : list Z) : list Z :=
  match o with
  | a :: b :: o => a * 256 + b :: ipv6_groups o
  | _ => []
  end.

Definition hex_char (d : Z) : ascii := ascii_of_byte (if d <? 10 then 48 + d else 87 + d).
Fixpoint show_hex_go (fuel : nat) (z : Z) (acc : string) : string :=
  match fuel with
  | O => acc
  | Datatypes.S fuel =>
      let acc := String (hex_char (z mod 16)) acc in
      if z / 16 =? 0 then acc else show_hex_go fuel (z / 16) acc
  end.
(** A [u16] has at most four hexadecimal digits. *)
Definition show_hex (z : Z) : string := show_hex_go 4 z EmptyString.

Definition show_groups (gs : list Z) : string := String.concat ":" (show_hex <$> gs).

(** The longest run of zero groups (the first one of that length): its start
    and length. *)
Fixpoint longest_zeroes (i : nat) (gs : list Z) (cur best : nat * nat) : nat * nat :=
  match gs with
  | [] => best
  | g :: gs =>
      if g =? 0 then
        let cur := (if (cur.2 =? 0)%nat then i else cur.1, Datatypes.S cur.2) in
        longest_zeroes (Datatypes.S i) gs cur (if (best.2 <? cur.2)%nat then cur else best)
      else longest_zeroes (Datatypes.S i) gs (0, 0)%nat best
  end.

Definition ipv6_to_string (o : list Z) : string :=
  let gs := ipv6_groups o in
  match gs with
  | [0; 0; 0; 0; 0; 65535; _; _] =>
      match drop 12 o with
      | [a; b; c; d] => "::ffff:" +:+ dotted a b c d
      | _ => EmptyString
      end
  | _ =>
      let '(st, n) := longest_zeroes 0 gs (0, 0)%nat (0, 0)%nat in
      if (1 <? n)%nat then
        show_groups (take st gs) +:+ "::" +:+ show_groups (drop (st + n) gs)
      else show_groups gs
  end.

Example ipv6_loopback : ipv6_from_str "::1" = Some (replicate 15 0 ++ [1]).
Proof. reflexivity. Qed.
Example ipv6_doc : ipv6_to_string <$> ipv6_from_str "2001:db8:0:0:1:0:0:1" = Some "2001:db8::1:0:0:1".
Proof. reflexivity. Qed.
Example ipv6_mapped : ipv6_to_string <$> ipv6_from_str "::ffff:10.0.0.255" = Some "::ffff:10.0.0.255".
Proof. reflexivity. Qed.
Example ipv4_strict : ipv4_from_str "127.0.0.01" = None /\ ipv4_from_str "1.2.3.4" = Some [1;2;3;4].
Proof. split; reflexivity. Qed.

(** ** [Vec::with_capacity] *)

(** It panics when the byte size exceeds [isize::MAX]. *)
Definition with_capacity {S E} (elt_size n : Z) : M S E unit :=
  if elt_size * n <=? 2 ^ 63 - 1 then mret tt else panic.

(** ** [slice::swap] of neighbours *)

(** [l.swap(i, i + 1)] *)
Definition swap_next {A} (i : nat) (l : list A) : list A :=
  match l !! i, l !! Datatypes.S i with
  | Some x, Some y => <[i := y]> (<[Datatypes.S i := x]> l)
  | _, _ => l
  end.

Lemma swap_next_app {A} (pre post : list A) x y :
  swap_next (length pre) (pre ++ x :: y :: post) = pre ++ y :: x :: post.
Proof.
  unfold swap_next.
  rewrite lookup_app_r, Nat.sub_diag by lia. cbn.
  rewrite lookup_app_r by lia. replace (Datatypes.S (length pre) - length pre)%nat with 1%nat by lia. cbn.
  replace (Datatypes.S (length pre)) with (length pre + 1)%nat by lia.
  rewrite insert_app_r. cbn.
  rewrite <- (Nat.add_0_r (length pre)) at 1. by rewrite insert_app_r.
Qed.

(** ** [slice::binary_search_by] *)

Section BinarySearch.
Context {A : Type} (f : A -> comparison).

(** The loop: halve [size], moving [base] up unless the middle is [Greater].
    [size] is positive and at least halves, so [size] is enough fuel. *)
Fixpoint bs_loop (fuel : nat) (l : list A) (base size : nat) : nat :=
  match fuel with
  | O => base
  | Datatypes.S fuel =>
      if (1 <? size)%nat then
        let half := (size / 2)%nat in
        let mid := (base + half)%nat in
        let base := match l !! mid with
                    | Some x => match f x with Gt => base | _ => mid end
                    | None => base
                    end in
        bs_loop fuel l base (size - half)%nat
      else base
  end.

(** [inl i] is [Ok(i)], [inr i] is [Err(i)]. *)
Definition binary_search_by (l : list A) : nat + nat :=
  match l with
  | [] => inr 0%nat
  | _ =>
      let base := bs_loop (length l) l 0 (length l) in
      match l !! base with
      | Some x => match f x with
                  | Eq => inl base
                  | Lt => inr (Datatypes.S base)
                  | Gt => inr base
                  end
      | None => inr base
      end
  end.

(** The slice is strictly increasing in the order [f] compares with. *)
Definition bs_sorted (l : list A) : Prop :=
  forall i j x y, (i < j)%nat -> l !! i = Some x -> l !! j = Some y ->
    f y <> Gt -> f x = Lt.

(** Invariant of the loop. *)
Definition bs_inv (l : list A) (base size : nat) : Prop :=
  (0 < size)%nat /\ (base + size <= length l)%nat /\
  (base = 0%nat \/ exists x, l !! base = Some x /\ f x <> Gt) /\
  (forall j y, (base + size <= j)%nat -> l !! j = Some y -> f y = Gt).

Lemma bs_loop_inv fuel l base size :
  bs_sorted l -> (size <= fuel)%nat -> bs_inv l base size ->
  bs_inv l (bs_loop fuel l base size) 1.
Proof.
  intros Hs. revert base size. induction fuel as [|fuel IH]; intros base size Hf Hi.
  { destruct Hi. lia. }
  cbn [bs_loop]. destruct (Nat.ltb_spec 1 size) as [Hlt|Hge].
  2: { replace size with 1%nat in Hi; [done|]. destruct Hi. lia. }
  destruct Hi as (Hsz & Hlen & Hlo & Hhi).
  assert (0 < size / 2 < size /\ 2 * (size / 2) <= size)%nat as Hhalf.
  { split_and!; [apply Nat.div_str_pos; lia|apply Nat.div_lt; lia|].
    apply Nat.Div0.mul_div_le. }
  set (half := (size / 2)%nat) in *.
  destruct (lookup_lt_is_Some_2 l (base + half)) as [x Hx]; [lia|]. rewrite Hx.
  destruct (f x) eqn:Ef; apply IH; try lia.
  - repeat split; try lia; [right; exists x; by rewrite Ef|].
    intros j y Hj. apply Hhi. lia.
  - repeat split; try lia; [right; exists x; by rewrite Ef|].
    intros j y Hj. apply Hhi. lia.
  - repeat split; try lia; [done|].
    intros j y Hj Hy. destruct (decide (j = base + half)%nat) as [->|]; [congruence|].
    destruct (f y) eqn:Ey; [| |done];
      enough (f x = Lt) by congruence;
      (apply (Hs (base + half)%nat j x y); [lia|done|done|congruence]).
Qed.

Lemma bs_before l i j x y :
  bs_sorted l -> l !! i = Some x -> f x <> Gt -> (j < i)%nat -> l !! j = Some y -> f y = Lt.
Proof. intros Hs Hx Hf Hj Hy. by apply (Hs j i y x). Qed.

Lemma binary_search_by_nonempty l :
  (0 < length l)%nat ->
  binary_search_by l =
    let base := bs_loop (length l) l 0 (length l) in
    match l !! base with
    | Some x => match f x with
                | Eq => inl base
                | Lt => inr (Datatypes.S base)
                | Gt => inr base
                end
    | None => inr base
    end.
Proof. destruct l; simpl; [lia|done]. Qed.

(** The search finds the match, or the insertion point. *)
Lemma binary_search_by_spec l :
  bs_sorted l ->
  match binary_search_by l with
  | inl i => exists x, l !! i = Some x /\ f x = Eq
  | inr i => (i <= length l)%nat /\
             (forall j y, (j < i)%nat -> l !! j = Some y -> f y = Lt) /\
             (forall j y, (i <= j)%nat -> l !! j = Some y -> f y = Gt)
  end.
Proof.
  intros Hs. assert (l = [] \/ 0 < length l)%nat as [->|Hpos].
  { destruct l; simpl; [by left|right; lia]. }
  { split; [done|]. split; intros j y; [lia|by rewrite lookup_nil]. }
  rewrite binary_search_by_nonempty by done.
  assert (bs_inv l 0 (length l)) as Hi.
  { repeat split; [lia|lia|by left|].
    intros j y Hj Hy. apply lookup_lt_Some in Hy. lia. }
  apply (bs_loop_inv (length l)) in Hi as (_ & Hlen & Hlo & Hhi); [|done|lia].
  cbn zeta. set (base := bs_loop _ _ _ _) in *.
  destruct (lookup_lt_is_Some_2 l base) as [x Hx]; [lia|]. rewrite Hx.
  destruct (f x) eqn:Ef; [by exists x| |].
  - split; [lia|]. split; intros j y Hj Hy; [|apply (Hhi j); [lia|done]].
    destruct (decide (j = base)) as [->|]; [congruence|].
    apply (bs_before l base j x y); [done|done|congruence|lia|done].
  - destruct Hlo as [->|(x' & Hx' & Hf)]; [|congruence].
    split; [lia|]. split; intros j y Hj Hy; [lia|].
    destruct (decide (j = 0%nat)) as [->|]; [congruence|]. apply (Hhi j); [lia|done].
Qed.
End BinarySearch.

(** ** Ranges of parsed values *)

Lemma to_digit_range radix c d : to_digit radix c = Some d -> 0 <= d < radix.
Proof.
  unfold to_digit. intros H. case_match eqn:Hr; [|done]. simplify_eq.
  apply Z.ltb_lt in Hr. revert Hr.
  repeat case_match; rewrite ?andb_true_iff, ?Z.leb_le in *; lia.
Qed.

Lemma parse_digits_range max acc s v :
  0 <= acc <= max -> parse_digits max acc s = Some v -> 0 <= v <= max.
Proof.
  revert acc. induction s as [|c s IH]; intros acc Ha; cbn [parse_digits].
  { intros. by simplify_eq. }
  destruct (to_digit 10 c) as [d|] eqn:Hd; [cbn|done]. apply to_digit_range in Hd.
  destruct (Z.ltb_spec max (acc * 10)); [done|].
  destruct (Z.ltb_spec max (acc * 10 + d)); [done|]. apply IH. lia.
Qed.

Lemma parse_uint_range max s v : 0 <= max -> parse_uint max s = Some v -> 0 <= v <= max.
Proof.
  unfold parse_uint. intros Hm H. assert (0 <= 0 <= max) as H0 by lia.
  repeat case_match; simplify_eq; eauto using parse_digits_range.
Qed.

Lemma parse_u8_byte s v : parse_u8 s = Some v -> is_byte v.
Proof. intros H%parse_uint_range; unfold is_byte; lia. Qed.

Lemma read_digits_nonneg radix k n acc s v m s' :
  0 <= radix -> 0 <= acc -> read_digits radix k n acc s = Some (v, m, s') -> 0 <= v.
Proof.
  intros Hr. revert n acc. induction s as [|c s IH]; intros n acc Ha; cbn [read_digits].
  { intros. by simplify_eq. }
  destruct (to_digit radix c) as [d|] eqn:Hd; [|intros; by simplify_eq].
  apply to_digit_range in Hd. case_match; [done|]. apply IH. nia.
Qed.

Lemma read_number_range radix limit k z s v s' :
  0 <= radix -> read_number radix limit k z s = Some (v, s') -> 0 <= v <= limit.
Proof.
  intros Hr. unfold read_number.
  destruct (read_digits radix k 0 0 s) as [[[v' n] s'']|] eqn:Hd; [cbn|done].
  apply read_digits_nonneg in Hd; [|done..].
  generalize (match s with String "0" _ => true | _ => false end). intros lz.
  destruct (n =? 0)%nat; [done|]. destruct (_ && _); [done|].
  destruct (Z.ltb_spec limit v'); [done|]. intros. simplify_eq. lia.
Qed.

Lemma read_separator_spec {A} sep i (p : parser A) s r :
  read_separator sep i p s = Some r -> exists s0, p s0 = Some r.
Proof.
  unfold read_separator. destruct i; [by exists s|].
  destruct (read_given_char sep s) as [[[] s0]|]; [cbn; by exists s0|done].
Qed.

Lemma read_ipv4_addr_range s o s' :
  read_ipv4_addr s = Some (o, s') -> exists a b c d, o = [a; b; c; d] /\ bytes_ok o.
Proof.
  unfold read_ipv4_addr. intros H.
  repeat match type of H with
  | (?m ≫= _) = _ =>
      let E := fresh "E" in
      destruct m as [[? ?]|] eqn:E; [cbn [mbind option_bind] in H|done];
      apply read_separator_spec in E as [? E]; apply read_number_range in E; [|done]
  end.
  simplify_eq. repeat eexists. rewrite !Forall_cons. unfold is_byte.
  split_and!; lia || constructor.
Qed.

Lemma read_groups_range k i s gs v4 s' :
  read_groups k i s = (gs, v4, s') -> (length gs <= k)%nat /\ Forall (in_u 16) gs.
Proof.
  revert i s gs v4 s'. induction k as [|k IH]; intros i s gs v4 s'; cbn [read_groups].
  { intros. simplify_eq. split; [simpl; lia|constructor]. }
  match goal with |- context [match ?X with Some _ => _ | None => _ end] =>
    destruct X as [[o s0]|] eqn:Ev end.
  - destruct (0 <? k)%nat eqn:Hk; [|done]. apply Nat.ltb_lt in Hk.
    apply read_separator_spec in Ev as [s1 Ev].
    apply read_ipv4_addr_range in Ev as (a & b & c & d & -> & Hb).
    intros. simplify_eq. split; [simpl; lia|].
    rewrite !Forall_cons in Hb. unfold is_byte in Hb.
    apply Forall_cons. split; [words; lia|]. apply Forall_singleton. words. lia.
  - clear Ev. destruct (read_separator ":" i (read_number 16 65535 4 true) s) as [[g s1]|] eqn:Eg.
    2: { intros. simplify_eq. split; [simpl; lia|constructor]. }
    destruct (read_groups k _ s1) as [[gs1 v1] s2] eqn:Er. intros. simplify_eq.
    apply IH in Er as [Hl Hr]. split; [simpl; lia|].
    apply read_separator_spec in Eg as [s3 Eg]. apply read_number_range in Eg; [|done].
    constructor; [words; lia|done].
Qed.

Lemma ipv6_octets_spec gs :
  Forall (in_u 16) gs -> bytes_ok (ipv6_octets gs) /\ len (ipv6_octets gs) = 2 * len gs.
Proof.
  unfold ipv6_octets. induction 1 as [|g gs Hg _ [IH1 IH2]]; [by split|].
  cbn [mbind list_bind app]. split; [|lens; rewrite IH2; lia].
  rewrite !Forall_cons. words. unfold is_byte. split_and!; try done; zdm.
Qed.

Lemma read_ipv6_addr_range s gs s' :
  read_ipv6_addr s = Some (gs, s') -> Forall (in_u 16) gs /\ length gs = 8%nat.
Proof.
  unfold read_ipv6_addr. intros E.
  destruct (read_groups 8 0 s) as [[h hv] s1] eqn:Eh.
  apply read_groups_range in Eh as [Hh1 Hh2].
  destruct (Nat.eqb_spec (length h) 8); [by simplify_eq|].
  destruct hv; [done|].
  do 2 (destruct (read_given_char _ _) as [[[] ?]|]; [cbn [mbind option_bind] in E|done]).
  destruct (read_groups _ 0 _) as [[t tv] s4] eqn:Et.
  apply read_groups_range in Et as [Ht1 Ht2].
  simplify_eq. rewrite !length_app, length_replicate. split; [|lia].
  repeat apply Forall_app_2; [done| |done]. apply Forall_replicate. by words.
Qed.

Lemma ipv6_from_str_range s o : ipv6_from_str s = Some o -> bytes_ok o /\ len o = 16.
Proof.
  unfold ipv6_from_str. destruct (read_ipv6_addr s) as [[gs [|]]|] eqn:E; try done.
  intros [= <-]. apply read_ipv6_addr_range in E as [H1 H2].
  destruct (ipv6_octets_spec gs H1) as [? ->]. split; [done|]. unfold len. lia.
Qed.
