(* ===== verification/Chunks.v ===== *)
(** * Chunks: [slice::chunks] and [slice::chunks_exact]

    The two splitting functions of the standard library, with what the other
    files use of them: the number of chunks, each chunk as a slice, that the
    chunks concatenate to the whole, and that cutting a concatenation of
    equal-length pieces gives the pieces back. *)

From S2P Require Import Prelude.

#[local] Open Scope Z_scope.

Section Chunks.
Context {A : Type}.
Implicit Types l : list A.

(** Every turn takes at least one element, so the length is enough fuel. *)
Fixpoint chunks_go (fuel n : nat) (l : list A) : list (list A) :=
  match fuel, l with
  | Datatypes.S fuel, _ :: _ => take n l :: chunks_go fuel n (drop n l)
  | _, _ => []
  end.
Definition chunks (n : nat) (l : list A) : list (list A) := chunks_go (length l) n l.

(** [chunks_exact] leaves out a last, shorter piece. *)
Definition chunks_exact (n : nat) (l : list A) : list (list A) :=
  chunks n (take (length l / n * n) l).

Lemma chunks_go_fuel n f g l :
  (0 < n)%nat -> (length l <= f)%nat -> (length l <= g)%nat ->
  chunks_go f n l = chunks_go g n l.
Proof.
  intros Hn. revert g l. induction f as [|f IH]; intros [|g] [|x l] Hf Hg;
    cbn [length] in *; try done; try lia.
  cbn [chunks_go]. f_equal. apply IH; rewrite length_drop; cbn [length]; lia.
Qed.

Lemma chunks_nil n : chunks n [] = [].
Proof. done. Qed.

Lemma chunks_unfold n l :
  (0 < n)%nat -> l <> [] -> chunks n l = take n l :: chunks n (drop n l).
Proof.
  intros Hn Hl. destruct l as [|x l]; [done|]. unfold chunks. cbn [length chunks_go].
  f_equal. apply chunks_go_fuel; rewrite ?length_drop; cbn [length]; lia.
Qed.

(** Induction along the pieces. *)
Lemma chunks_ind n (Hn : (0 < n)%nat) (P : list A -> Prop) :
  P [] -> (forall l, l <> [] -> P (drop n l) -> P l) -> forall l, P l.
Proof.
  intros H0 HS l. remember (length l) as k eqn:Hk. revert l Hk.
  induction (lt_wf k) as [k _ IH]. intros l ->.
  destruct (decide (l = [])) as [->|Hl]; [done|]. apply HS; [done|].
  eapply IH; [|done]. rewrite length_drop. destruct l; [done|cbn [length]; lia].
Qed.

Lemma mjoin_cons (x : list A) (ls : list (list A)) : mjoin (x :: ls) = x ++ mjoin ls.
Proof. done. Qed.

Lemma chunks_concat n l : (0 < n)%nat -> mjoin (chunks n l) = l.
Proof.
  intros Hn. induction l as [|l Hl IH] using (chunks_ind n Hn); [done|].
  rewrite chunks_unfold by done. rewrite mjoin_cons, IH. apply take_drop.
Qed.

Lemma chunks_lookup n l i :
  (0 < n)%nat ->
  chunks n l !! i = if decide (i * n < length l)%nat
                    then Some (take n (drop (i * n) l)) else None.
Proof.
  intros Hn. revert i. induction l as [|l Hl IH] using (chunks_ind n Hn); intros i.
  { change (chunks n []) with (@nil (list A)). rewrite decide_False by (cbn; lia). done. }
  rewrite chunks_unfold by done. destruct i as [|i]; cbn [lookup list_lookup].
  - rewrite decide_True by (destruct l; [done|cbn; lia]). done.
  - change (list_lookup i (chunks n (drop n l))) with (chunks n (drop n l) !! i).
    rewrite IH, length_drop, drop_drop.
    replace (n + i * n)%nat with (Datatypes.S i * n)%nat by lia.
    repeat case_decide; try done; lia.
Qed.

Lemma length_chunks n l :
  (0 < n)%nat -> Z.of_nat (length (chunks n l)) = (len l + Z.of_nat n - 1) / Z.of_nat n.
Proof.
  intros Hn. induction l as [|l Hl IH] using (chunks_ind n Hn).
  { change (chunks n []) with (@nil (list A)). change (len []) with 0. cbn [length]. rewrite Z.div_small; lia. }
  rewrite chunks_unfold by done. cbn [length]. rewrite Nat2Z.inj_succ, IH.
  unfold len. rewrite length_drop. destruct l as [|x l]; [done|]. cbn [length].
  destruct (Nat.le_gt_cases n (Datatypes.S (length l))).
  - replace (Z.of_nat (Datatypes.S (length l)) + Z.of_nat n - 1)
      with (Z.of_nat (Datatypes.S (length l) - n) + Z.of_nat n - 1 + 1 * Z.of_nat n) by lia.
    rewrite Z.div_add by lia. lia.
  - replace (Datatypes.S (length l) - n)%nat with 0%nat by lia.
    rewrite Z.div_small by lia. apply Z.div_unique with (Z.of_nat (length l)); lia.
Qed.

Lemma chunks_app n x l :
  (0 < n)%nat -> length x = n -> chunks n (x ++ l) = x :: chunks n l.
Proof.
  intros Hn Hx. rewrite chunks_unfold; [|done|by destruct x; [cbn in Hx; lia|]].
  by rewrite (take_app_length' _ _ n), (drop_app_length' _ _ n).
Qed.

Lemma chunks_short n l : l <> [] -> (length l <= n)%nat -> chunks n l = [l].
Proof.
  intros Hl Hn. rewrite chunks_unfold; [|destruct l; [done|cbn in Hn; lia]|done].
  by rewrite take_ge, drop_ge.
Qed.

(** Cutting what was glued. *)
Lemma chunks_mjoin n (ls : list (list A)) :
  (0 < n)%nat -> Forall (fun x => length x = n) ls -> chunks n (mjoin ls) = ls.
Proof.
  intros Hn. induction 1 as [|x ls Hx _ IH]; [done|]. by rewrite mjoin_cons, chunks_app, IH.
Qed.

Lemma chunks_exact_id n l :
  (0 < n)%nat -> (Nat.modulo (length l) n = 0)%nat -> chunks_exact n l = chunks n l.
Proof.
  intros Hn Hm. unfold chunks_exact.
  replace (length l / n * n)%nat with (length l); [by rewrite firstn_all|].
  pose proof (Nat.div_mod_eq (length l) n). lia.
Qed.

Lemma chunks_exact_mjoin n (ls : list (list A)) :
  (0 < n)%nat -> Forall (fun x => length x = n) ls -> chunks_exact n (mjoin ls) = ls.
Proof.
  intros Hn H. rewrite chunks_exact_id; [by apply chunks_mjoin|done|].
  assert (length (mjoin ls) = length ls * n)%nat as ->; [|apply Nat.Div0.mod_mul].
  induction H as [|x ls Hx _ IH]; [done|]. rewrite mjoin_cons, length_app, IH. cbn. lia.
Qed.

Lemma chunks_exact_lengths n l :
  (0 < n)%nat -> Forall (fun x => length x = n) (chunks_exact n l).
Proof.
  intros Hn. apply Forall_lookup_2. intros i x. unfold chunks_exact. rewrite chunks_lookup by done.
  case_decide as Hi; [|done]. intros [= <-].
  pose proof (Nat.Div0.mul_div_le (length l) n).
  rewrite length_take, length_drop, length_take in *.
  assert (i < length l / n)%nat by nia. nia.
Qed.

Lemma chunks_Forall (P : A -> Prop) n l :
  (0 < n)%nat -> Forall P l -> Forall (Forall P) (chunks n l).
Proof.
  intros Hn. induction l as [|l Hl IH] using (chunks_ind n Hn); intros HP.
  { constructor. }
  rewrite chunks_unfold by done. constructor; [by apply Forall_take|by apply IH, Forall_drop].
Qed.

Lemma chunks_bound n l : (0 < n)%nat -> Forall (fun x => length x <= n)%nat (chunks n l).
Proof.
  intros Hn. apply Forall_lookup_2. intros i x. rewrite chunks_lookup by done.
  case_decide; [|done]. intros [= <-]. rewrite length_take. lia.
Qed.
End Chunks.
