(* ===== verification/RustFloat.v ===== *)
(** * RustFloat: the [f64] arithmetic the source uses

    IEEE 754 double precision with rounding to nearest even, computed by the
    Standard Library's executable specification [SpecFloat]. *)

From S2P Require Import Prelude.
From Stdlib Require Export SpecFloat.

#[local] Open Scope Z_scope.

Abbreviation f64 := spec_float.

(** [z as f64] *)
Definition f64_of_Z (z : Z) : f64 := binary_normalize 53 1024 z 0 false.
Definition f64_add : f64 -> f64 -> f64 := SFadd 53 1024.
Definition f64_sub : f64 -> f64 -> f64 := SFsub 53 1024.
Definition f64_mul : f64 -> f64 -> f64 := SFmul 53 1024.
Definition f64_div : f64 -> f64 -> f64 := SFdiv 53 1024.
Definition f64_ltb : f64 -> f64 -> bool := SFltb.
Definition f64_leb : f64 -> f64 -> bool := SFleb.
Definition f64_eqb : f64 -> f64 -> bool := SFeqb.

(** A decimal literal [a/b] is the correctly rounded quotient. *)
Definition f64_lit (a b : Z) : f64 := f64_div (f64_of_Z a) (f64_of_Z b).

(** [x as u64] and [x as usize]: truncation, saturating, 0 for a NaN. *)
Definition f64_to_u64 (x : f64) : Z :=
  match x with
  | S754_finite false m e => Z.min (Z.shiftl (Zpos m) e) (2 ^ 64 - 1)
  | S754_infinity false => 2 ^ 64 - 1
  | _ => 0
  end.

(** [x as u32] *)
Definition f64_to_u32 (x : f64) : Z :=
  match x with
  | S754_finite false m e => Z.min (Z.shiftl (Zpos m) e) (2 ^ 32 - 1)
  | S754_infinity false => 2 ^ 32 - 1
  | _ => 0
  end.

Lemma f64_to_u32_range x : in_u 32 (f64_to_u32 x).
Proof.
  unfold in_u. destruct x as [s|s| |s m e]; cbn [f64_to_u32]; try destruct s; try lia.
  assert (0 <= Z.shiftl (Z.pos m) e) by (apply Z.shiftl_nonneg; lia). lia.
Qed.

Example f64_three_quarters : f64_to_u64 (f64_mul (f64_of_Z 127) (f64_lit 3 4)) = 95.
Proof. reflexivity. Qed.
Example f64_tenth : f64_lit 1 10 = S754_finite false 7205759403792794 (-56).
Proof. reflexivity. Qed.
