(* ===== verification/CompactEncoding.v ===== *)
(** * CompactEncoding: the wire primitives of [peeroxide-dht/src/compact_encoding.rs]

    A [State] is a cursor over a byte buffer.  Every value has three
    functions: [preencode_*] grows [end_] by the size it will take, [encode_*]
    writes it at [start] (a panic when the buffer is too short), [decode_*]
    reads it back, failing with [OutOfBounds] when fewer bytes remain. *)

From S2P Require Import Prelude RustStd.
From Stdlib Require Import Ascii.

#[local] Open Scope Z_scope.

Inductive EncodingError : Type :=
| OutOfBounds (need have : Z)
| IncorrectBufferSize (expected got : Z)
| ArrayTooLarge (n : Z)
| InvalidIpFamily (family : Z)
| InvalidIpv4 (addr : string)
| InvalidIpv6 (addr : string).

Record State : Type := mkState {
  start : Z;
  end_ : Z;
  buffer : list Z
}.

(** Functions over [&mut State] that return a [Result]. *)
Abbreviation Enc := (M State EncodingError).

(** ** The cursor *)

Definition new : State := mkState 0 0 [].
Definition from_buffer (buf : list Z) : State := mkState 0 (len buf) buf.

(** [Vec::resize] to [end_] with zeroes. *)
Definition alloc (s : State) : State :=
  if len (buffer s) <? end_ s
  then mkState (start s) (end_ s)
         (buffer s ++ replicate (Z.to_nat (end_ s - len (buffer s))) 0)
  else s.

Definition remaining (s : State) : Z := Z.max 0 (end_ s - start s).

Definition check_remaining (n : Z) : Enc unit := fun s =>
  if remaining s <? n then (Err (OutOfBounds n (remaining s)), s) else (Ok tt, s).

(** [state.end += n] *)
Definition grow (n : Z) (s : State) : State := mkState (start s) (end_ s + n) (buffer s).

(** [state.start += n] *)
Definition advance (n : Z) : Enc unit := fun s =>
  (Ok tt, mkState (start s + n) (end_ s) (buffer s)).

(** [state.buffer[state.start + k] = v] *)
Definition write_at (k v : Z) : Enc unit := fun s =>
  let i := start s + k in
  if (0 <=? i) && (i <? len (buffer s))
  then (Ok tt, mkState (start s) (end_ s) (<[Z.to_nat i := v]> (buffer s)))
  else (Panic, s).

(** [state.buffer[state.start + k]] *)
Definition read_at (k : Z) : Enc Z := fun s =>
  let i := start s + k in
  if (0 <=? i) && (i <? len (buffer s))
  then (Ok (nth (Z.to_nat i) (buffer s) 0), s)
  else (Panic, s).

(** [state.buffer[state.start..state.start + bs.len()].copy_from_slice(bs)] *)
Definition copy_from_slice (bs : list Z) : Enc unit := fun s =>
  if (0 <=? start s) && (start s + len bs <=? len (buffer s))
  then (Ok tt, mkState (start s) (end_ s)
         (take (Z.to_nat (start s)) (buffer s) ++ bs ++
          drop (Z.to_nat (start s) + length bs) (buffer s)))
  else (Panic, s).

(** [state.buffer[state.start..state.start + n]] *)
Definition read_slice (n : Z) : Enc (list Z) := fun s =>
  if (0 <=? start s) && (0 <=? n) && (start s + n <=? len (buffer s))
  then (Ok (slice (buffer s) (start s) (start s + n)), s)
  else (Panic, s).

(** ** Fixed-width unsigned integers *)

Definition preencode_uint8 (s : State) (_val : Z) : State := grow 1 s.
Definition encode_uint8 (val : Z) : Enc unit := write_at 0 val ;; advance 1.
Definition decode_uint8 : Enc Z :=
  check_remaining 1 ;; val ← read_at 0; advance 1 ;; mret val.

Definition preencode_uint16 (s : State) (_val : Z) : State := grow 2 s.
Definition encode_uint16 (val : Z) : Enc unit :=
  let bytes := to_le 2 val in
  write_at 0 (nth 0 bytes 0) ;; write_at 1 (nth 1 bytes 0) ;; advance 2.
Definition decode_uint16 : Enc Z :=
  check_remaining 2 ;; b0 ← read_at 0; b1 ← read_at 1; advance 2 ;;
  mret (from_le [b0; b1]).

Definition preencode_uint24 (s : State) (_val : Z) : State := grow 3 s.
Definition encode_uint24 (val : Z) : Enc unit :=
  write_at 0 (as_u8 val) ;; write_at 1 (as_u8 (Z.shiftr val 8)) ;;
  write_at 2 (as_u8 (Z.shiftr val 16)) ;; advance 3.
Definition decode_uint24 : Enc Z :=
  check_remaining 3 ;; b0 ← read_at 0; b1 ← read_at 1; b2 ← read_at 2;
  advance 3 ;;
  mret (Z.lor (Z.lor b0 (as_u32 (Z.shiftl b1 8))) (as_u32 (Z.shiftl b2 16))).

Definition preencode_uint32 (s : State) (_val : Z) : State := grow 4 s.
Definition encode_uint32 (val : Z) : Enc unit := copy_from_slice (to_le 4 val) ;; advance 4.
Definition decode_uint32 : Enc Z :=
  check_remaining 4 ;;
  b0 ← read_at 0; b1 ← read_at 1; b2 ← read_at 2; b3 ← read_at 3;
  advance 4 ;; mret (from_le [b0; b1; b2; b3]).

Definition preencode_uint40 (s : State) (_val : Z) : State := grow 5 s.
Definition encode_uint40 (val : Z) : Enc unit :=
  encode_uint8 (as_u8 val) ;; encode_uint32 (as_u32 (Z.shiftr val 8)).
Definition decode_uint40 : Enc Z :=
  check_remaining 5 ;; lo ← decode_uint8; hi ← decode_uint32;
  mret (Z.lor lo (as_u64 (Z.shiftl hi 8))).

Definition preencode_uint48 (s : State) (_val : Z) : State := grow 6 s.
Definition encode_uint48 (val : Z) : Enc unit :=
  encode_uint16 (as_u16 val) ;; encode_uint32 (as_u32 (Z.shiftr val 16)).
Definition decode_uint48 : Enc Z :=
  check_remaining 6 ;; lo ← decode_uint16; hi ← decode_uint32;
  mret (Z.lor lo (as_u64 (Z.shiftl hi 16))).

Definition preencode_uint56 (s : State) (_val : Z) : State := grow 7 s.
Definition encode_uint56 (val : Z) : Enc unit :=
  encode_uint24 (Z.land (as_u32 val) 16777215) ;; encode_uint32 (as_u32 (Z.shiftr val 24)).
Definition decode_uint56 : Enc Z :=
  check_remaining 7 ;; lo ← decode_uint24; hi ← decode_uint32;
  mret (Z.lor lo (as_u64 (Z.shiftl hi 24))).

Definition preencode_uint64 (s : State) (_val : Z) : State := grow 8 s.
Definition encode_uint64 (val : Z) : Enc unit :=
  let lo := as_u32 val in
  let hi := as_u32 (Z.shiftr val 32) in
  encode_uint32 lo ;; encode_uint32 hi.
Definition decode_uint64 : Enc Z :=
  check_remaining 8 ;; lo ← decode_uint32; hi ← decode_uint32;
  mret (Z.lor lo (as_u64 (Z.shiftl hi 32))).

(** ** The variable-length unsigned integer *)

Definition preencode_uint (s : State) (n : Z) : State :=
  if n <=? 0xfc then grow 1 s
  else if n <=? 0xffff then grow 3 s
  else if n <=? 0xffffffff then grow 5 s
  else grow 9 s.
Definition encode_uint (n : Z) : Enc unit :=
  if n <=? 0xfc then encode_uint8 (as_u8 n)
  else if n <=? 0xffff then write_at 0 0xfd ;; advance 1 ;; encode_uint16 (as_u16 n)
  else if n <=? 0xffffffff then write_at 0 0xfe ;; advance 1 ;; encode_uint32 (as_u32 n)
  else write_at 0 0xff ;; advance 1 ;; encode_uint64 n.
Definition decode_uint : Enc Z :=
  a ← decode_uint8;
  if a <=? 0xfc then mret a
  else if a =? 0xfd then decode_uint16
  else if a =? 0xfe then decode_uint32
  else decode_uint64.

(** ** Signed integers (zigzag) *)

Definition zigzag_encode (n : Z) : Z :=
  as_u64 (Z.lxor (as_i64 (Z.shiftl n 1)) (Z.shiftr n 63)).
Definition zigzag_decode (n : Z) : Z :=
  Z.lxor (as_i64 (Z.shiftr n 1)) (- as_i64 (Z.land n 1)).

Definition preencode_int (s : State) (n : Z) : State := preencode_uint s (zigzag_encode n).
Definition encode_int (n : Z) : Enc unit := encode_uint (zigzag_encode n).
Definition decode_int : Enc Z := zigzag_decode <$> decode_uint.

Definition preencode_int8 (s : State) (_val : Z) : State := grow 1 s.
Definition encode_int8 (val : Z) : Enc unit := encode_uint8 (as_u8 (zigzag_encode val)).
Definition decode_int8 : Enc Z := (fun z => as_i8 (zigzag_decode z)) <$> decode_uint8.

Definition preencode_int16 (s : State) (_val : Z) : State := grow 2 s.
Definition encode_int16 (val : Z) : Enc unit := encode_uint16 (as_u16 (zigzag_encode val)).
Definition decode_int16 : Enc Z := (fun z => as_i16 (zigzag_decode z)) <$> decode_uint16.

Definition preencode_int32 (s : State) (_val : Z) : State := grow 4 s.
Definition encode_int32 (val : Z) : Enc unit := encode_uint32 (as_u32 (zigzag_encode val)).
Definition decode_int32 : Enc Z := (fun z => as_i32 (zigzag_decode z)) <$> decode_uint32.

Definition preencode_int64 (s : State) (_val : Z) : State := grow 8 s.
Definition encode_int64 (val : Z) : Enc unit := encode_uint64 (zigzag_encode val).
Definition decode_int64 : Enc Z := zigzag_decode <$> decode_uint64.

(** ** Floats

    An [f32] or [f64] is its bit pattern: [to_le_bytes] and [from_le_bytes]
    are those of the bits. *)

Definition preencode_float32 (s : State) (_val : Z) : State := grow 4 s.
Definition encode_float32 (val : Z) : Enc unit := copy_from_slice (to_le 4 val) ;; advance 4.
Definition decode_float32 : Enc Z :=
  check_remaining 4 ;;
  b0 ← read_at 0; b1 ← read_at 1; b2 ← read_at 2; b3 ← read_at 3;
  advance 4 ;; mret (from_le [b0; b1; b2; b3]).

Definition preencode_float64 (s : State) (_val : Z) : State := grow 8 s.
Definition encode_float64 (val : Z) : Enc unit := copy_from_slice (to_le 8 val) ;; advance 8.
Definition decode_float64 : Enc Z :=
  check_remaining 8 ;;
  b0 ← read_at 0; b1 ← read_at 1; b2 ← read_at 2; b3 ← read_at 3;
  b4 ← read_at 4; b5 ← read_at 5; b6 ← read_at 6; b7 ← read_at 7;
  advance 8 ;; mret (from_le [b0; b1; b2; b3; b4; b5; b6; b7]).

(** ** Booleans, buffers, strings *)

Definition preencode_bool (s : State) (_val : bool) : State := grow 1 s.
Definition encode_bool (val : bool) : Enc unit := encode_uint8 (if val then 1 else 0).
Definition decode_bool : Enc bool := (fun b => negb (b =? 0)) <$> decode_uint8.

Definition preencode_buffer (s : State) (buf : option (list Z)) : State :=
  match buf with
  | Some b => grow (len b) (preencode_uint s (as_u64 (len b)))
  | None => grow 1 s
  end.
Definition encode_buffer (buf : option (list Z)) : Enc unit :=
  match buf with
  | Some b => encode_uint (as_u64 (len b)) ;; copy_from_slice b ;; advance (len b)
  | None => write_at 0 0 ;; advance 1
  end.
Definition decode_buffer : Enc (option (list Z)) :=
  n ← decode_uint;
  if n =? 0 then mret None
  else check_remaining n ;; val ← read_slice n; advance n ;; mret (Some val).

Definition preencode_string (s : State) (str : string) : State :=
  let n := len (string_bytes str) in grow n (preencode_uint s (as_u64 n)).
Definition encode_string (str : string) : Enc unit :=
  let bytes := string_bytes str in
  encode_uint (as_u64 (len bytes)) ;; copy_from_slice bytes ;; advance (len bytes).
Definition decode_string : Enc string :=
  n ← decode_uint; check_remaining n ;;
  bs ← read_slice n; advance n ;; mret (from_utf8_lossy bs).

(** ** Fixed-length buffers *)

Definition preencode_fixed (n : Z) (buf : list Z) : Enc unit := fun s =>
  if negb (len buf =? n) then (Err (IncorrectBufferSize n (len buf)), s)
  else (Ok tt, grow n s).
Definition encode_fixed (buf : list Z) : Enc unit :=
  copy_from_slice buf ;; advance (len buf).
Definition decode_fixed (n : Z) : Enc (list Z) :=
  check_remaining n ;; val ← read_slice n; advance n ;; mret val.

Definition preencode_fixed32 (buf : list Z) : Enc unit := preencode_fixed 32 buf.
Definition encode_fixed32 (buf : list Z) : Enc unit := encode_fixed buf.
Definition decode_fixed32 : Enc (list Z) :=
  check_remaining 32 ;; val ← read_slice 32; advance 32 ;; mret val.

Definition preencode_fixed64 (buf : list Z) : Enc unit := preencode_fixed 64 buf.
Definition encode_fixed64 (buf : list Z) : Enc unit := encode_fixed buf.
Definition decode_fixed64 : Enc (list Z) :=
  check_remaining 64 ;; val ← read_slice 64; advance 64 ;; mret val.

(** ** IP addresses *)

Definition preencode_ipv4 (s : State) (_addr : string) : State := grow 4 s.
(** The octets before a malformed one have been written when it fails. *)
Definition encode_ipv4 (addr : string) : Enc unit :=
  let parts := split_on "." addr in
  if negb (len parts =? 4) then throw (InvalidIpv4 addr)
  else for_m parts (fun part =>
         match parse_u8 part with
         | Some byte => write_at 0 byte ;; advance 1
         | None => throw (InvalidIpv4 addr)
         end).
Definition decode_ipv4 : Enc string :=
  check_remaining 4 ;;
  a ← read_at 0; b ← read_at 1; c ← read_at 2; d ← read_at 3;
  advance 4 ;; mret (dotted a b c d).

Definition preencode_ipv6 (s : State) (_addr : string) : State := grow 16 s.
Definition encode_ipv6 (addr : string) : Enc unit :=
  match ipv6_from_str addr with
  | Some octets => copy_from_slice octets ;; advance 16
  | None => throw (InvalidIpv6 addr)
  end.
Definition decode_ipv6 : Enc string :=
  check_remaining 16 ;; octets ← read_slice 16; advance 16 ;;
  mret (ipv6_to_string octets).

Definition IP_FAMILY_V4 : Z := 4.
Definition IP_FAMILY_V6 : Z := 6.

Definition preencode_ip (s : State) (addr : string) : State :=
  if str_contains ":" addr
  then preencode_ipv6 (preencode_uint8 s IP_FAMILY_V6) addr
  else preencode_ipv4 (preencode_uint8 s IP_FAMILY_V4) addr.
Definition encode_ip (addr : string) : Enc unit :=
  if str_contains ":" addr
  then encode_uint8 IP_FAMILY_V6 ;; encode_ipv6 addr
  else encode_uint8 IP_FAMILY_V4 ;; encode_ipv4 addr.
Definition decode_ip : Enc string :=
  family ← decode_uint8;
  if family =? IP_FAMILY_V4 then decode_ipv4
  else if family =? IP_FAMILY_V6 then decode_ipv6
  else throw (InvalidIpFamily family).

Definition preencode_ipv4_address (s : State) (addr : string) (_port : Z) : State :=
  grow 2 (preencode_ipv4 s addr).
Definition encode_ipv4_address (addr : string) (port : Z) : Enc unit :=
  encode_ipv4 addr ;; encode_uint16 port.
Definition decode_ipv4_address : Enc (string * Z) :=
  addr ← decode_ipv4; port ← decode_uint16; mret (addr, port).

Definition preencode_ipv6_address (s : State) (addr : string) (_port : Z) : State :=
  grow 2 (preencode_ipv6 s addr).
Definition encode_ipv6_address (addr : string) (port : Z) : Enc unit :=
  encode_ipv6 addr ;; encode_uint16 port.
Definition decode_ipv6_address : Enc (string * Z) :=
  addr ← decode_ipv6; port ← decode_uint16; mret (addr, port).

(** ** Arrays *)

Definition MAX_ARRAY_LENGTH : Z := 0x100000.

(** The loop all array decoders share: a length guard, an allocation of
    elements of [elt_size] bytes, then one element at a time. *)
Definition decode_array_of {A} (elt_size : Z) (elt : Enc A) : Enc (list A) :=
  n ← decode_uint;
  if MAX_ARRAY_LENGTH <? n then throw (ArrayTooLarge n)
  else with_capacity elt_size n ;; repeat_m (Z.to_nat n) elt.

Definition preencode_uint_array (s : State) (arr : list Z) : State :=
  foldl preencode_uint (preencode_uint s (as_u64 (len arr))) arr.
Definition encode_uint_array (arr : list Z) : Enc unit :=
  encode_uint (as_u64 (len arr)) ;; for_m arr encode_uint.
Definition decode_uint_array : Enc (list Z) := decode_array_of 8 decode_uint.

Definition preencode_buffer_array (s : State) (arr : list (option (list Z))) : State :=
  foldl preencode_buffer (preencode_uint s (as_u64 (len arr))) arr.
Definition encode_buffer_array (arr : list (option (list Z))) : Enc unit :=
  encode_uint (as_u64 (len arr)) ;; for_m arr encode_buffer.
Definition decode_buffer_array : Enc (list (option (list Z))) := decode_array_of 24 decode_buffer.

Definition preencode_string_array (s : State) (arr : list string) : State :=
  foldl preencode_string (preencode_uint s (as_u64 (len arr))) arr.
Definition encode_string_array (arr : list string) : Enc unit :=
  encode_uint (as_u64 (len arr)) ;; for_m arr encode_string.
Definition decode_string_array : Enc (list string) := decode_array_of 24 decode_string.
