(* ===== verification/Codec.v ===== *)
(** * Codec: a specification calculus for the compact encoding

    [Writes m bs]: [m] overwrites the next [len bs] bytes with [bs].
    [Reads m bs a]: [m] consumes [bs] and returns [a].
    [Decodes m P]: on every buffer of bytes [m] does not panic, keeps the
    cursor inside the buffer, and what it returns satisfies [P].
    All three are closed under the monad, so each codec of the source is
    specified by the shape of its code.  The class [Codec] is the contract a
    message type offers: the size announced by [preencode] and the bytes
    written by [encode] are those of its wire format, and [decode] inverts
    it. *)

From S2P Require Import Prelude RustStd CompactEncoding.
From Stdlib Require Import Ascii.

#[local] Open Scope Z_scope.

(** ** Writers *)

Definition Writes (m : Enc unit) (bs : list Z) : Prop :=
  forall pre old post e, length old = length bs ->
    m (mkState (len pre) e (pre ++ old ++ post)) =
    (Ok tt, mkState (len pre + len bs) e (pre ++ bs ++ post)).

Create HintDb writes.
Create HintDb reads.
Create HintDb decodes.

Lemma Writes_ret : Writes (mret tt) [].
Proof. intros pre [|] post e H; [|done]. by rewrite Z.add_0_r. Qed.

Lemma Writes_bind m1 m2 b1 b2 :
  Writes m1 b1 -> Writes m2 b2 -> Writes (m1 ;; m2) (b1 ++ b2).
Proof.
  intros H1 H2 pre old post e Hlen. rewrite length_app in Hlen.
  assert (exists o1 o2, old = o1 ++ o2 /\ length o1 = length b1 /\ length o2 = length b2)
    as (o1 & o2 & -> & Hl1 & Hl2).
  { exists (take (length b1) old), (drop (length b1) old).
    rewrite take_drop, length_take, length_drop. split_and!; [done|lia|lia]. }
  erewrite bind_ok by (rewrite <- app_assoc; by apply H1).
  rewrite <- len_app, (app_assoc pre), H2 by done.
  by rewrite !len_app, <- !app_assoc, Z.add_assoc.
Qed.

Lemma Writes_nil m bs : Writes m bs -> Writes (m ;; mret tt) bs.
Proof. intros H. rewrite <- (app_nil_r bs). by apply Writes_bind, Writes_ret. Qed.

Lemma Writes_eq m b1 b2 : Writes m b1 -> b1 = b2 -> Writes m b2.
Proof. by intros ? <-. Qed.

Lemma Writes_option {A} (o : option A) f w :
  (forall a, o = Some a -> Writes (f a) (w a)) ->
  Writes (match o with Some a => f a | None => mret tt end)
         (match o with Some a => w a | None => [] end).
Proof. intros H. destruct o; [by apply H|apply Writes_ret]. Qed.

Lemma Writes_if (b : bool) m bs :
  (b = true -> Writes m bs) ->
  Writes (if b then m else mret tt) (if b then bs else []).
Proof. intros H. destruct b; [by apply H|apply Writes_ret]. Qed.

Lemma Writes_for {A} (l : list A) f w :
  Forall (fun a => Writes (f a) (w a)) l -> Writes (for_m l f) (l ≫= w).
Proof.
  induction 1; cbn [for_m mbind list_bind]; [apply Writes_ret|by apply Writes_bind].
Qed.

Lemma write_at_spec pre a x b v e k :
  k = len a ->
  write_at k v (mkState (len pre) e (pre ++ a ++ x :: b)) =
  (Ok tt, mkState (len pre) e (pre ++ a ++ v :: b)).
Proof.
  intros ->. unfold write_at. cbn [start buffer end_]. lens.
  pose proof (len_nonneg pre). pose proof (len_nonneg a). pose proof (len_nonneg b).
  replace (_ && _) with true by (symmetry; apply andb_true_intro; lia).
  do 2 f_equal. replace (Z.to_nat _) with (length (pre ++ a) + 0)%nat
    by (rewrite length_app; unfold len; lia).
  by rewrite app_assoc, insert_app_r, <- app_assoc.
Qed.

Lemma copy_from_slice_spec pre old post bs e :
  length old = length bs ->
  copy_from_slice bs (mkState (len pre) e (pre ++ old ++ post)) =
  (Ok tt, mkState (len pre) e (pre ++ bs ++ post)).
Proof.
  intros Hl. unfold copy_from_slice. cbn [start buffer end_]. lens.
  pose proof (len_nonneg pre). pose proof (len_nonneg post).
  replace (_ && _) with true by (symmetry; apply andb_true_intro; unfold len in *; lia).
  do 2 f_equal. rewrite take_app_length. do 2 f_equal.
  by rewrite <- Hl, <- drop_drop, drop_app_length, drop_app_length.
Qed.

Lemma Writes_copy bs n : n = len bs -> Writes (copy_from_slice bs ;; advance n) bs.
Proof.
  intros -> pre old post e Hl.
  erewrite bind_ok by (by apply copy_from_slice_spec). done.
Qed.

(** ** Readers *)

Definition Reads {A} (m : Enc A) (bs : list Z) (a : A) : Prop :=
  forall pre post,
    m (mkState (len pre) (len (pre ++ bs ++ post)) (pre ++ bs ++ post)) =
    (Ok a, mkState (len pre + len bs) (len (pre ++ bs ++ post)) (pre ++ bs ++ post)).

Lemma Reads_ret {A} (a : A) : Reads (mret a) [] a.
Proof. intros pre post. by rewrite Z.add_0_r. Qed.

Lemma Reads_bind {A B} (m : Enc A) (f : A -> Enc B) b1 b2 a b :
  Reads m b1 a -> Reads (f a) b2 b -> Reads (m ≫= f) (b1 ++ b2) b.
Proof.
  intros H1 H2 pre post.
  rewrite <- (app_assoc b1).
  erewrite bind_ok by apply H1.
  specialize (H2 (pre ++ b1) post). rewrite <- (app_assoc pre) in H2.
  rewrite <- len_app, H2. do 2 f_equal. lens. lia.
Qed.

(** A step that consumes nothing. *)
Lemma Reads_bind_nil {A B} (m : Enc A) (f : A -> Enc B) bs a b :
  Reads m [] a -> Reads (f a) bs b -> Reads (m ≫= f) bs b.
Proof. intros. by apply (Reads_bind m f [] bs a b). Qed.

Lemma Reads_bind_last {A B} (m : Enc A) (f : A -> Enc B) bs a b :
  Reads m bs a -> Reads (f a) [] b -> Reads (m ≫= f) bs b.
Proof. intros. rewrite <- (app_nil_r bs). by eapply Reads_bind. Qed.

Lemma Reads_fmap {A B} (g : A -> B) (m : Enc A) bs a :
  Reads m bs a -> Reads (g <$> m) bs (g a).
Proof. intros. by eapply Reads_bind_last, Reads_ret. Qed.

Lemma Reads_eq {A} (m : Enc A) b1 b2 a : Reads m b1 a -> b1 = b2 -> Reads m b2 a.
Proof. by intros ? <-. Qed.

Lemma Reads_val {A} (m : Enc A) bs a1 a2 : Reads m bs a1 -> a1 = a2 -> Reads m bs a2.
Proof. by intros ? <-. Qed.

(** A flag-guarded optional field. *)
Lemma Reads_option {A} (o : option A) (m : Enc A) w b :
  b = bool_decide (is_Some o) ->
  (forall a, o = Some a -> Reads m (w a) a) ->
  Reads (if b then Some <$> m else mret None)
        (match o with Some a => w a | None => [] end) o.
Proof.
  intros -> H. destruct o as [a|]; simpl; [by apply Reads_fmap, H|apply Reads_ret].
Qed.

Lemma Reads_repeat {A} (l : list A) m w :
  Forall (fun a => Reads m (w a) a) l -> Reads (repeat_m (length l) m) (l ≫= w) l.
Proof.
  induction 1 as [|a l Ha Hl IH]; cbn [repeat_m length mbind list_bind]; [apply Reads_ret|].
  eapply Reads_bind; [done|]. eapply Reads_bind_last; [done|apply Reads_ret].
Qed.

Lemma check_remaining_ok n pre bs post :
  n <= len bs ->
  check_remaining n (mkState (len pre) (len (pre ++ bs ++ post)) (pre ++ bs ++ post)) =
  (Ok tt, mkState (len pre) (len (pre ++ bs ++ post)) (pre ++ bs ++ post)).
Proof.
  intros H. unfold check_remaining, remaining. cbn [start end_]. lens.
  pose proof (len_nonneg post). rewrite (proj2 (Z.ltb_ge _ _)) by lia. done.
Qed.

Lemma Reads_check {A} n (m : Enc A) bs a :
  n <= len bs -> Reads m bs a -> Reads (check_remaining n ;; m) bs a.
Proof. intros Hn H pre post. erewrite bind_ok by (by apply check_remaining_ok). apply H. Qed.

Lemma read_at_spec pre a x b e k :
  k = len a ->
  read_at k (mkState (len pre) e (pre ++ a ++ x :: b)) =
  (Ok x, mkState (len pre) e (pre ++ a ++ x :: b)).
Proof.
  intros ->. unfold read_at. cbn [start buffer end_]. lens.
  pose proof (len_nonneg pre). pose proof (len_nonneg a). pose proof (len_nonneg b).
  replace (_ && _) with true by (symmetry; apply andb_true_intro; lia).
  do 2 f_equal. replace (Z.to_nat _) with (length (pre ++ a) + 0)%nat
    by (rewrite length_app; unfold len; lia).
  by rewrite app_assoc, app_nth2_plus.
Qed.

Lemma read_slice_spec pre bs post e n :
  n = len bs ->
  read_slice n (mkState (len pre) e (pre ++ bs ++ post)) =
  (Ok bs, mkState (len pre) e (pre ++ bs ++ post)).
Proof.
  intros ->. unfold read_slice. cbn [start buffer end_].
  pose proof (len_nonneg pre). pose proof (len_nonneg post). pose proof (len_nonneg bs).
  rewrite slice_mid by done. lens.
  replace (_ && _) with true; [done|]. symmetry. rewrite !andb_true_iff. lia.
Qed.

Lemma Reads_slice {A} (g : list Z -> A) n bs :
  n = len bs -> Reads (val ← read_slice n; advance n ;; mret (g val)) bs (g bs).
Proof. intros -> pre post. erewrite bind_ok by (by apply read_slice_spec). done. Qed.

(** ** Decoders on arbitrary input *)

(** The states a decoder meets: the cursor is inside a buffer of bytes. *)
Definition wf (s : State) : Prop :=
  0 <= start s <= end_ s /\ end_ s = len (buffer s) /\ bytes_ok (buffer s).

(** The cursor only moves forward, and the buffer is not touched. *)
Definition moved (s s' : State) : Prop :=
  start s <= start s' <= end_ s /\ end_ s' = end_ s /\ buffer s' = buffer s.

Definition Decodes {A} (m : Enc A) (P : A -> Prop) : Prop :=
  forall s, wf s ->
    match m s with
    | (Ok a, s') => P a /\ moved s s'
    | (Err _, s') => moved s s'
    | (Panic, _) => False
    end.

Lemma moved_refl s : wf s -> moved s s.
Proof. intros (H & _). unfold moved. split_and!; [lia..|done]. Qed.
Lemma moved_wf s s' : wf s -> moved s s' -> wf s'.
Proof. unfold wf, moved. intros (H1 & H2 & H3) (H4 & -> & ->). split_and!; [lia..|done]. Qed.
Lemma moved_trans s1 s2 s3 : moved s1 s2 -> moved s2 s3 -> moved s1 s3.
Proof. unfold moved. intros (?&?&?) (?&?&?). split_and!; [lia..|congruence]. Qed.

Lemma Decodes_ret {A} (a : A) (P : A -> Prop) : P a -> Decodes (mret a) P.
Proof. intros H s Hs. split; [done|by apply moved_refl]. Qed.

Lemma Decodes_throw {A} e (P : A -> Prop) : Decodes (throw e) P.
Proof. intros s Hs. by apply moved_refl. Qed.

Lemma Decodes_bind {A B} (m : Enc A) (f : A -> Enc B) P Q :
  Decodes m P -> (forall a, P a -> Decodes (f a) Q) -> Decodes (m ≫= f) Q.
Proof.
  intros Hm Hf s Hs. unfold mbind, M_bind. specialize (Hm s Hs).
  destruct (m s) as [[a|e|] s1]; [|done|done].
  destruct Hm as [Ha Hmv]. specialize (Hf a Ha s1 (moved_wf _ _ Hs Hmv)).
  destruct (f a s1) as [[b|e|] s2]; [|by eapply moved_trans|done].
  split; [apply Hf|]. eapply moved_trans; [done|apply Hf].
Qed.

Lemma Decodes_mono {A} (m : Enc A) (P Q : A -> Prop) :
  (forall a, P a -> Q a) -> Decodes m P -> Decodes m Q.
Proof.
  intros HPQ Hm s Hs. specialize (Hm s Hs).
  destruct (m s) as [[a|e|] s1]; [|done|done]. destruct Hm. auto.
Qed.

Lemma Decodes_fmap {A B} (g : A -> B) (m : Enc A) P (Q : B -> Prop) :
  Decodes m P -> (forall a, P a -> Q (g a)) -> Decodes (g <$> m) Q.
Proof. intros Hm H. eapply Decodes_bind; [done|]. intros. by apply Decodes_ret, H. Qed.

Lemma Decodes_if {A} (b : bool) (m1 m2 : Enc A) P :
  (b = true -> Decodes m1 P) -> (b = false -> Decodes m2 P) ->
  Decodes (if b then m1 else m2) P.
Proof. destruct b; auto. Qed.

Lemma Decodes_repeat {A} n (m : Enc A) P :
  Decodes m P -> Decodes (repeat_m n m) (fun l => length l = n /\ Forall P l).
Proof.
  intros Hm. induction n as [|n IH]; cbn [repeat_m]; [by apply Decodes_ret|].
  eapply Decodes_bind; [done|]. intros a Ha.
  eapply Decodes_bind; [done|]. intros l [Hl HP]. apply Decodes_ret.
  simpl. split; [congruence|by constructor].
Qed.

Lemma wf_split s n : wf s -> 0 <= n <= remaining s ->
  exists pre bs post, s = mkState (len pre) (len (pre ++ bs ++ post)) (pre ++ bs ++ post) /\
    len bs = n /\ bytes_ok bs.
Proof.
  destruct s as [st e buf]. unfold wf, remaining. cbn [start end_ buffer].
  intros (Hst & -> & Hb) Hn.
  assert (st + n <= len buf) as Hle by lia. unfold len in Hle.
  exists (take (Z.to_nat st) buf), (take (Z.to_nat n) (drop (Z.to_nat st) buf)),
    (drop (Z.to_nat n) (drop (Z.to_nat st) buf)).
  rewrite !take_drop. split_and!; [|unfold len; rewrite length_take, length_drop; lia|].
  - f_equal. unfold len. rewrite length_take. lia.
  - by apply Forall_take, Forall_drop.
Qed.

(** A decoder of [n] bytes: it fails exactly when fewer remain. *)
Lemma Decodes_fixed {A} n (m : Enc A) (g : list Z -> A) (P : A -> Prop) :
  0 <= n ->
  (forall bs, bytes_ok bs -> len bs = n -> Reads (check_remaining n ;; m) bs (g bs)) ->
  (forall bs, bytes_ok bs -> len bs = n -> P (g bs)) ->
  Decodes (check_remaining n ;; m) P.
Proof.
  intros Hn Hr HP s Hs. destruct (Z.lt_ge_cases (remaining s) n) as [Hlt|Hge].
  - erewrite bind_err; [by apply moved_refl|].
    unfold check_remaining. by rewrite (proj2 (Z.ltb_lt _ _)).
  - destruct (wf_split s n) as (pre & bs & post & -> & Hl & Hb); [done|done|].
    rewrite (Hr bs Hb Hl). split; [by apply HP|].
    unfold moved. cbn [start end_ buffer]. rewrite !len_app.
    pose proof (len_nonneg post). pose proof (len_nonneg bs). split_and!; [lia..|done].
Qed.

(** ** The integer primitives *)

Lemma read_at_mid pre bs post e k x :
  0 <= k -> bs !! Z.to_nat k = Some x ->
  read_at k (mkState (len pre) e (pre ++ bs ++ post)) =
  (Ok x, mkState (len pre) e (pre ++ bs ++ post)).
Proof.
  intros Hk Hx. pose proof (lookup_lt_Some _ _ _ Hx) as Hlt.
  apply list_elem_of_split_length in Hx as (b1 & b2 & -> & Hl).
  rewrite <- !app_assoc. cbn [app]. apply read_at_spec. unfold len. lia.
Qed.

Lemma write_at_mid pre bs post e k v :
  0 <= k < len bs ->
  write_at k v (mkState (len pre) e (pre ++ bs ++ post)) =
  (Ok tt, mkState (len pre) e (pre ++ <[Z.to_nat k := v]> bs ++ post)).
Proof.
  intros Hk. destruct (lookup_lt_is_Some_2 bs (Z.to_nat k)) as [x Hx].
  { unfold len in Hk. lia. }
  pose proof Hx as Hx'. apply list_elem_of_split_length in Hx as (b1 & b2 & -> & Hl).
  rewrite Hl, <- (Nat.add_0_r (length b1)), insert_app_r, <- !app_assoc.
  apply write_at_spec. unfold len. lia.
Qed.

(** Name the elements of a list of known length. *)
Ltac explode bs H :=
  unfold len in H; rewrite ?length_to_le in H; repeat (destruct bs as [|? bs]; cbn [length] in H; try lia).
(** Run a sequence of [read_at]s (or [write_at]s) over an exploded list. *)
Ltac run_reads := repeat (erewrite bind_ok by (apply read_at_mid; [lia|reflexivity])).
Ltac run_writes :=
  repeat (erewrite bind_ok
    by (apply write_at_mid; unfold len; rewrite ?length_insert; cbn; lia)).

Lemma Reads_uint8 bs : bytes_ok bs -> len bs = 1 -> Reads decode_uint8 bs (from_le bs).
Proof.
  intros Hb Hl. apply Reads_check; [lia|]. explode bs Hl. intros pre post. run_reads.
  cbn [from_le]. by replace (z + 256 * 0) with z by lia.
Qed.

Lemma Reads_uint16 bs : bytes_ok bs -> len bs = 2 -> Reads decode_uint16 bs (from_le bs).
Proof.
  intros Hb Hl. apply Reads_check; [lia|]. explode bs Hl. intros pre post. by run_reads.
Qed.

Lemma Reads_uint32 bs : bytes_ok bs -> len bs = 4 -> Reads decode_uint32 bs (from_le bs).
Proof.
  intros Hb Hl. apply Reads_check; [lia|]. explode bs Hl. intros pre post. by run_reads.
Qed.

(** Joining two little-endian parts with [|] and [<<], at [w] bits. *)
Lemma lor_from_le w a b :
  bytes_ok a -> bytes_ok b -> 8 * len (a ++ b) <= w ->
  Z.lor (from_le a) (as_u w (Z.shiftl (from_le b) (8 * len a))) = from_le (a ++ b).
Proof.
  intros Ha Hb Hw. pose proof (len_nonneg a). pose proof (len_nonneg b). lens.
  apply from_le_range in Ha. apply from_le_range in Hb. unfold in_u in *.
  rewrite as_u_id.
  - rewrite lor_shiftl_add by lia. by rewrite from_le_app.
  - unfold in_u. rewrite Z.shiftl_mul_pow2 by lia. split; [lia|].
    apply Z.lt_le_trans with (2 ^ (8 * len b) * 2 ^ (8 * len a)); [nia|].
    rewrite <- Z.pow_add_r by lia. apply Z.pow_le_mono_r; lia.
Qed.

Lemma split_len {A} (bs : list A) n m :
  0 <= n -> 0 <= m -> len bs = n + m ->
  exists a b, bs = a ++ b /\ len a = n /\ len b = m.
Proof.
  intros. exists (take (Z.to_nat n) bs), (drop (Z.to_nat n) bs).
  rewrite take_drop. unfold len in *. rewrite length_take, length_drop.
  split_and!; [done|lia|lia].
Qed.

(** The decoders that read a low and a high part. *)
Lemma Reads_join (m1 m2 : Enc Z) n k bs :
  0 <= k -> 0 <= n -> k + n <= 8 ->
  (forall b, bytes_ok b -> len b = k -> Reads m1 b (from_le b)) ->
  (forall b, bytes_ok b -> len b = n -> Reads m2 b (from_le b)) ->
  bytes_ok bs -> len bs = k + n ->
  Reads (lo ← m1; hi ← m2; mret (Z.lor lo (as_u64 (Z.shiftl hi (8 * k))))) bs (from_le bs).
Proof.
  intros Hk Hn Hkn H1 H2 Hb Hl.
  destruct (split_len bs k n) as (a & b & -> & Hla & Hlb); [done..|].
  apply Forall_app in Hb as [Ha Hb].
  eapply Reads_bind; [by apply H1|]. eapply Reads_bind_last; [by apply H2|].
  eapply Reads_val; [apply Reads_ret|]. rewrite <- Hla.
  apply lor_from_le; [done..|]. lens. lia.
Qed.

Lemma Reads_uint24 bs : bytes_ok bs -> len bs = 3 -> Reads decode_uint24 bs (from_le bs).
Proof.
  intros Hb Hl. apply Reads_check; [lia|]. explode bs Hl. intros pre post. run_reads.
  repeat match goal with H : Forall _ (_ :: _) |- _ => inversion_clear H end.
  unfold is_byte, as_u32 in *. cbn [from_le].
  rewrite !as_u_id by (unfold in_u; rewrite Z.shiftl_mul_pow2 by lia; pow2; lia).
  rewrite (lor_shiftl_add _ _ 8), (lor_shiftl_add _ _ 16) by (pow2; lia).
  pow2. by replace (z + z0 * 256 + z1 * 65536) with (z + 256 * (z0 + 256 * (z1 + 256 * 0))) by lia.
Qed.

Lemma Reads_uint40 bs : bytes_ok bs -> len bs = 5 -> Reads decode_uint40 bs (from_le bs).
Proof.
  intros. apply Reads_check; [lia|].
  apply (Reads_join _ _ 4 1); auto using Reads_uint8, Reads_uint32; lia.
Qed.
Lemma Reads_uint48 bs : bytes_ok bs -> len bs = 6 -> Reads decode_uint48 bs (from_le bs).
Proof.
  intros. apply Reads_check; [lia|].
  apply (Reads_join _ _ 4 2); auto using Reads_uint16, Reads_uint32; lia.
Qed.
Lemma Reads_uint56 bs : bytes_ok bs -> len bs = 7 -> Reads decode_uint56 bs (from_le bs).
Proof.
  intros. apply Reads_check; [lia|].
  apply (Reads_join _ _ 4 3); auto using Reads_uint24, Reads_uint32; lia.
Qed.
Lemma Reads_uint64 bs : bytes_ok bs -> len bs = 8 -> Reads decode_uint64 bs (from_le bs).
Proof.
  intros. apply Reads_check; [lia|].
  apply (Reads_join _ _ 4 4); auto using Reads_uint32; lia.
Qed.

Lemma Writes_uint8 v : Writes (encode_uint8 v) [v].
Proof. intros pre old post e Hl. explode old Hl. unfold encode_uint8. by run_writes. Qed.

Lemma Writes_uint16 v : Writes (encode_uint16 v) (to_le 2 v).
Proof. intros pre old post e Hl. explode old Hl. unfold encode_uint16. by run_writes. Qed.

Lemma Writes_uint24 v : Writes (encode_uint24 v) (to_le 3 v).
Proof.
  intros pre old post e Hl. explode old Hl. unfold encode_uint24, as_u8, as_u.
  rewrite !Z.shiftr_div_pow2 by lia. run_writes. cbn [to_le].
  rewrite Z.div_div by lia. done.
Qed.

Lemma Writes_uint32 v : Writes (encode_uint32 v) (to_le 4 v).
Proof. apply Writes_copy. by rewrite len_to_le. Qed.

(** The encoders that split a value into a low and a high part. *)
Lemma to_le_split n m w v :
  8 * Z.of_nat m <= w ->
  to_le (n + m) v = to_le n v ++ to_le m (as_u w (Z.shiftr v (8 * Z.of_nat n))).
Proof.
  intros. unfold as_u. rewrite to_le_mod, to_le_app, Z.shiftr_div_pow2 by lia. done.
Qed.

Lemma Writes_uint40 v : Writes (encode_uint40 v) (to_le 5 v).
Proof.
  rewrite (to_le_split 1 4 32) by lia.
  apply Writes_bind; [apply Writes_uint8|apply Writes_uint32].
Qed.
Lemma Writes_uint48 v : Writes (encode_uint48 v) (to_le 6 v).
Proof.
  rewrite (to_le_split 2 4 32), <- (to_le_mod 2 v 16) by lia.
  apply Writes_bind; [apply Writes_uint16|apply Writes_uint32].
Qed.
Lemma Writes_uint56 v : Writes (encode_uint56 v) (to_le 7 v).
Proof.
  rewrite (to_le_split 3 4 32) by lia.
  apply Writes_bind; [|apply Writes_uint32].
  change 16777215 with (Z.ones 24). rewrite Z.land_ones by lia.
  eapply Writes_eq; [apply Writes_uint24|].
  unfold as_u32, as_u. by rewrite !to_le_mod by lia.
Qed.
Lemma Writes_uint64 v : Writes (encode_uint64 v) (to_le 8 v).
Proof.
  rewrite (to_le_split 4 4 32), <- (to_le_mod 4 v 32) by lia.
  apply Writes_bind; apply Writes_uint32.
Qed.

(** ** The variable-length integer *)

(** The wire format: one byte up to 0xfc, else a marker and 2, 4 or 8
    little-endian bytes. *)
Definition wire_uint (n : Z) : list Z :=
  if n <=? 0xfc then [n]
  else if n <=? 0xffff then 0xfd :: to_le 2 n
  else if n <=? 0xffffffff then 0xfe :: to_le 4 n
  else 0xff :: to_le 8 n.

Lemma preencode_uint_spec s n : preencode_uint s n = grow (len (wire_uint n)) s.
Proof. unfold preencode_uint, wire_uint. repeat case_match; by lens. Qed.

Lemma Writes_tag v m bs : Writes m bs -> Writes (write_at 0 v ;; advance 1 ;; m) (v :: bs).
Proof.
  intros Hm pre old post e Hl. unfold encode_uint8. rewrite <- bind_assoc.
  by apply (Writes_bind _ _ [v] bs (Writes_uint8 v) Hm).
Qed.

Lemma Writes_uint n : in_u 64 n -> Writes (encode_uint n) (wire_uint n).
Proof.
  intros Hn. unfold encode_uint, wire_uint, as_u8, as_u16, as_u32.
  repeat case_match; words.
  - eapply Writes_eq; [apply Writes_uint8|]. rewrite Z.mod_small by lia. done.
  - apply Writes_tag. rewrite Z.mod_small by lia. apply Writes_uint16.
  - apply Writes_tag. rewrite Z.mod_small by lia. apply Writes_uint32.
  - apply Writes_tag, Writes_uint64.
Qed.

Lemma Reads_le n m z :
  (forall bs, bytes_ok bs -> len bs = Z.of_nat n -> Reads m bs (from_le bs)) ->
  in_u (8 * Z.of_nat n) z -> Reads m (to_le n z) z.
Proof.
  intros Hm Hz. eapply Reads_val; [apply Hm; [apply to_le_bytes_ok|apply len_to_le]|].
  by apply from_le_to_le_id.
Qed.

Lemma Reads_byte b : is_byte b -> Reads decode_uint8 [b] b.
Proof.
  intros Hb. eapply Reads_val; [apply Reads_uint8; [by apply Forall_singleton|done]|].
  cbn. lia.
Qed.

Lemma Reads_tagged {B} v (f : Z -> Enc B) bs b :
  is_byte v -> Reads (f v) bs b -> Reads (decode_uint8 ≫= f) (v :: bs) b.
Proof. intros Hv Hf. apply (Reads_bind _ _ [v] bs v b); [by apply Reads_byte|done]. Qed.

Lemma Reads_uint n : in_u 64 n -> Reads decode_uint (wire_uint n) n.
Proof.
  intros Hn. unfold wire_uint, decode_uint. words.
  destruct (Z.leb_spec n 0xfc); [|destruct (Z.leb_spec n 0xffff);
    [|destruct (Z.leb_spec n 0xffffffff)]];
  (apply Reads_tagged; [unfold is_byte; lia|]).
  - rewrite (proj2 (Z.leb_le _ _)) by lia. apply Reads_ret.
  - apply (Reads_le 2); [apply Reads_uint16|words; lia].
  - apply (Reads_le 4); [apply Reads_uint32|words; lia].
  - apply (Reads_le 8); [apply Reads_uint64|words; lia].
Qed.

(** ** Signed integers *)

Lemma zigzag_encode_spec n :
  in_i 64 n -> zigzag_encode n = if 0 <=? n then 2 * n else - 2 * n - 1.
Proof.
  intros Hn. unfold zigzag_encode. rewrite Z.shiftl_mul_pow2, Z.shiftr_div_pow2 by lia.
  words. destruct (Z.leb_spec 0 n).
  - replace (n / _) with 0 by zdm. rewrite Z.lxor_0_r. zdm.
  - replace (n / _) with (-1) by zdm. rewrite Z.lxor_m1_r. unfold Z.lnot. zdm.
Qed.

Lemma zigzag_decode_spec n :
  in_u 64 n -> zigzag_decode n = if Z.even n then n / 2 else - (n / 2) - 1.
Proof.
  intros Hn. unfold zigzag_decode. rewrite Z.shiftr_div_pow2 by lia.
  change 1 with (Z.ones 1) at 2. rewrite Z.land_ones by lia. change (2 ^ 1) with 2.
  rewrite Zmod_even. destruct (Z.even n) eqn:E.
  - change (- as_i64 0) with 0. rewrite Z.lxor_0_r. words. zdm.
  - change (- as_i64 1) with (-1). rewrite Z.lxor_m1_r. unfold Z.lnot. words. zdm.
Qed.

Lemma zigzag_id n : in_i 64 n -> zigzag_decode (zigzag_encode n) = n.
Proof.
  intros Hn. rewrite zigzag_encode_spec by done.
  rewrite zigzag_decode_spec by (words; case_match; lia).
  destruct (Z.leb_spec 0 n).
  - rewrite Z.even_mul. simpl. zdm.
  - rewrite Z.even_sub, Z.even_mul. simpl. zdm.
Qed.

Lemma zigzag_range w n :
  1 <= w <= 64 -> in_i w n -> in_u w (zigzag_encode n).
Proof.
  intros Hw Hn. assert (2 ^ w = 2 * 2 ^ (w - 1)) as E.
  { rewrite <- Z.pow_succ_r by lia. f_equal. lia. }
  assert (2 ^ (w - 1) <= 2 ^ (64 - 1)) by (apply Z.pow_le_mono_r; lia).
  rewrite zigzag_encode_spec by (unfold in_i in *; lia).
  unfold in_i, in_u in *. destruct (Z.leb_spec 0 n); lia.
Qed.

(** A zigzag value of [w] bits survives the cast to [w] bits and back. *)
Lemma zigzag_cast w n :
  1 <= w <= 64 -> in_i w n -> as_i w (zigzag_decode (as_u w (zigzag_encode n))) = n.
Proof.
  intros Hw Hn. rewrite as_u_id by (by apply zigzag_range).
  assert (2 ^ (w - 1) <= 2 ^ (64 - 1)) by (apply Z.pow_le_mono_r; lia).
  rewrite zigzag_id by (unfold in_i in *; lia). apply as_i_id; [lia|done].
Qed.

(** ** Buffers, strings and fixed-length fields *)

Definition wire_buffer (o : option (list Z)) : list Z :=
  match o with Some b => wire_uint (len b) ++ b | None => [0] end.

(** Lengths fit a [u64]: what every Rust slice satisfies. *)
Definition fits {A} (l : list A) : Prop := len l < 2 ^ 64.

#[global] Instance fits_dec {A} (l : list A) : Decision (fits l).
Proof. unfold fits. apply _. Defined.

Lemma fits_u64 {A} (l : list A) : fits l -> in_u 64 (len l).
Proof. unfold fits, in_u. pose proof (len_nonneg l). lia. Qed.
Lemma as_u64_len {A} (l : list A) : fits l -> as_u64 (len l) = len l.
Proof. intros. by apply as_u_id, fits_u64. Qed.

Lemma preencode_buffer_spec s o :
  (forall b, o = Some b -> fits b) -> preencode_buffer s o = grow (len (wire_buffer o)) s.
Proof.
  intros H. destruct o as [b|]; [|done]. cbn [preencode_buffer wire_buffer].
  rewrite preencode_uint_spec, as_u64_len by auto. unfold grow. cbn. f_equal. lens. lia.
Qed.

Lemma Writes_buffer o :
  (forall b, o = Some b -> fits b) -> Writes (encode_buffer o) (wire_buffer o).
Proof.
  intros H. destruct o as [b|]; [|apply Writes_uint8].
  cbn [encode_buffer wire_buffer]. rewrite as_u64_len by auto.
  apply Writes_bind; [by apply Writes_uint, fits_u64, H|by apply Writes_copy].
Qed.

(** An empty buffer reads back as [None]. *)
Definition buffer_norm (o : option (list Z)) : option (list Z) :=
  match o with Some [] => None | _ => o end.

Lemma Reads_buffer o :
  (forall b, o = Some b -> fits b) -> Reads decode_buffer (wire_buffer o) (buffer_norm o).
Proof.
  intros H. assert (Reads decode_buffer [0] None) as Hnone.
  { apply (Reads_bind _ _ (wire_uint 0) [] 0); [by apply Reads_uint|apply Reads_ret]. }
  destruct o as [[|x b]|]; [done| |done].
  cbn [wire_buffer buffer_norm]. eapply Reads_bind; [by apply Reads_uint, fits_u64, H|].
  rewrite (proj2 (Z.eqb_neq _ _)) by (lens; pose proof (len_nonneg b); lia).
  apply Reads_check; [done|]. by apply (Reads_slice Some).
Qed.

Definition wire_string (s : string) : list Z :=
  wire_uint (len (string_bytes s)) ++ string_bytes s.
(** A Rust [String]: valid UTF-8, of a length that fits. *)
Definition string_valid (s : string) : Prop := str_ok s /\ fits (string_bytes s).

Lemma preencode_string_spec st s :
  string_valid s -> preencode_string st s = grow (len (wire_string s)) st.
Proof.
  intros [_ H]. unfold preencode_string, wire_string.
  rewrite preencode_uint_spec, as_u64_len by auto. unfold grow. cbn. f_equal. lens. lia.
Qed.

Lemma Writes_string s : string_valid s -> Writes (encode_string s) (wire_string s).
Proof.
  intros [_ H]. unfold encode_string, wire_string. rewrite as_u64_len by auto.
  apply Writes_bind; [by apply Writes_uint, fits_u64|by apply Writes_copy].
Qed.

Lemma Reads_string s : string_valid s -> Reads decode_string (wire_string s) s.
Proof.
  intros [Hu H]. eapply Reads_bind; [by apply Reads_uint, fits_u64|].
  apply Reads_check; [done|].
  eapply Reads_val; [by apply (Reads_slice from_utf8_lossy)|by apply from_utf8_lossy_valid].
Qed.

Lemma Writes_fixed bs : Writes (encode_fixed bs) bs.
Proof. by apply Writes_copy. Qed.
Lemma Reads_fixed32 bs : len bs = 32 -> Reads decode_fixed32 bs bs.
Proof. intros H. apply Reads_check; [lia|]. by apply (Reads_slice id). Qed.
Lemma Reads_fixed64 bs : len bs = 64 -> Reads decode_fixed64 bs bs.
Proof. intros H. apply Reads_check; [lia|]. by apply (Reads_slice id). Qed.

(** ** IP addresses *)

(** The octets [encode_ipv4] reads out of a host string. *)
Definition ipv4_octets (h : string) : option (list Z) :=
  let parts := split_on "." h in
  if len parts =? 4 then mapM parse_u8 parts else None.
Definition ipv4_text (o : list Z) : string :=
  match o with [a; b; c; d] => dotted a b c d | _ => EmptyString end.
(** Hosts in the form [decode_ipv4] prints. *)
Definition ipv4_host (h : string) : Prop := ipv4_text <$> ipv4_octets h = Some h.
#[global] Instance ipv4_host_dec h : Decision (ipv4_host h).
Proof. unfold ipv4_host. apply _. Defined.
Definition wire_ipv4 (h : string) : list Z := default [] (ipv4_octets h).

Lemma ipv4_octets_range h o : ipv4_octets h = Some o -> bytes_ok o /\ len o = 4.
Proof.
  unfold ipv4_octets. destruct (Z.eqb_spec (len (split_on "." h)) 4) as [Hl|]; [|done].
  intros Hm. apply mapM_Some_1 in Hm. split.
  - clear Hl. induction Hm; constructor; eauto using parse_u8_byte.
  - unfold len in *. by rewrite <- (Forall2_length _ _ _ Hm).
Qed.

Lemma ipv4_octets_text o : bytes_ok o -> len o = 4 -> ipv4_octets (ipv4_text o) = Some o.
Proof.
  intros Hb Hl. explode o Hl. rewrite !Forall_cons in Hb. destruct Hb as (?&?&?&?&_).
  cbn [ipv4_text]. unfold ipv4_octets. rewrite split_dotted by done.
  cbn. by rewrite !pretty_byte_parse by done.
Qed.

Lemma ipv4_host_text o : bytes_ok o -> len o = 4 -> ipv4_host (ipv4_text o).
Proof. intros. unfold ipv4_host. by rewrite ipv4_octets_text. Qed.

Lemma Writes_ipv4 h o : ipv4_octets h = Some o -> Writes (encode_ipv4 h) o.
Proof.
  unfold ipv4_octets, encode_ipv4.
  destruct (Z.eqb_spec (len (split_on "." h)) 4) as [Hl|]; [|done].
  intros Hm%mapM_Some_1. clear Hl. cbn [negb].
  induction Hm as [|p b ps bs Hp Hm IH]; cbn [for_m]; [apply Writes_ret|].
  rewrite Hp. apply (Writes_bind _ _ [b] bs); [apply Writes_uint8|done].
Qed.

Lemma Reads_ipv4 o : bytes_ok o -> len o = 4 -> Reads decode_ipv4 o (ipv4_text o).
Proof.
  intros Hb Hl. apply Reads_check; [lia|]. explode o Hl. intros pre post. by run_reads.
Qed.

(** Hosts in the form [decode_ipv6] prints. *)
Definition ipv6_host (h : string) : Prop := ipv6_to_string <$> ipv6_from_str h = Some h.
#[global] Instance ipv6_host_dec h : Decision (ipv6_host h).
Proof. unfold ipv6_host. apply _. Defined.
Definition wire_ipv6 (h : string) : list Z := default [] (ipv6_from_str h).

Lemma Writes_ipv6 h o : ipv6_from_str h = Some o -> Writes (encode_ipv6 h) o.
Proof.
  intros H. unfold encode_ipv6. rewrite H. apply ipv6_from_str_range in H as [_ H].
  by apply Writes_copy.
Qed.

Lemma Reads_ipv6 o : len o = 16 -> Reads decode_ipv6 o (ipv6_to_string o).
Proof. intros H. apply Reads_check; [lia|]. by apply (Reads_slice ipv6_to_string). Qed.

(** An optional field that is written as is. *)
Definition opt_ok {A} (P : A -> Prop) (o : option A) : Prop := forall a, o = Some a -> P a.
#[global] Instance opt_ok_dec {A} (P : A -> Prop) `{!forall a, Decision (P a)} o :
  Decision (opt_ok P o).
Proof.
  refine (match o with Some a => cast_if (decide (P a)) | None => left _ end);
  unfold opt_ok; naive_solver.
Defined.

(** ** The contract of a codec *)

Class Codec (A : Type) : Type := {
  c_valid : A -> Prop;
  c_wire : A -> list Z;
  c_preencode : State -> A -> State;
  c_encode : A -> Enc unit;
  c_decode : Enc A;
  c_preencode_spec s a : c_valid a -> c_preencode s a = grow (len (c_wire a)) s;
  c_encode_spec a : c_valid a -> Writes (c_encode a) (c_wire a);
  c_decode_spec a : c_valid a -> Reads c_decode (c_wire a) a
}.

(** The body every [encode_*_to_bytes] shares: measure, allocate, encode. *)
Definition to_bytes (pre : State -> State) (enc : Enc unit) : outcome EncodingError (list Z) :=
  match enc (alloc (pre new)) with
  | (Ok _, s) => Ok (buffer s)
  | (Err e, _) => Err e
  | (Panic, _) => Panic
  end.
(** The body of every [decode_*_from_bytes]. *)
Definition from_bytes {A} (dec : Enc A) (buf : list Z) : outcome EncodingError A :=
  (dec (from_buffer buf)).1.

Lemma to_bytes_spec pre enc bs :
  pre new = grow (len bs) new -> Writes enc bs -> to_bytes pre enc = Ok bs.
Proof.
  intros Hp Hw. unfold to_bytes. rewrite Hp. unfold alloc, grow, new. cbn [end_ start buffer].
  change (len []) with 0. pose proof (len_nonneg bs).
  destruct (Z.ltb_spec 0 (0 + len bs)).
  - specialize (Hw [] (replicate (length bs) 0) [] (0 + len bs)).
    change (len []) with 0 in Hw. rewrite !app_nil_r in Hw. cbn [app] in *.
    replace (Z.to_nat _) with (length bs) by (unfold len; lia).
    rewrite Hw by (by rewrite length_replicate). done.
  - destruct bs; [|lens; pose proof (len_nonneg bs); lia].
    by rewrite (Hw [] [] [] (0 + len [])).
Qed.

Lemma from_bytes_spec {A} (dec : Enc A) bs a : Reads dec bs a -> from_bytes dec bs = Ok a.
Proof.
  intros H. unfold from_bytes, from_buffer. specialize (H [] []).
  rewrite app_nil_r in H. cbn [app] in H. change (len []) with 0 in H. by rewrite H.
Qed.

(** What a [Codec] gives its clients. *)
Lemma codec_to_bytes {A} `{Codec A} a :
  c_valid a -> to_bytes (fun s => c_preencode s a) (c_encode a) = Ok (c_wire a).
Proof. intros. apply to_bytes_spec; [by apply c_preencode_spec|by apply c_encode_spec]. Qed.

Lemma codec_from_bytes {A} `{Codec A} a :
  c_valid a -> from_bytes c_decode (c_wire a) = Ok a.
Proof. intros. by apply from_bytes_spec, c_decode_spec. Qed.

Lemma grow_grow n m s : grow n (grow m s) = grow (m + n) s.
Proof. unfold grow. cbn. f_equal. lia. Qed.

Lemma grow_0 s : grow 0 s = s.
Proof. destruct s. unfold grow. cbn. f_equal. lia. Qed.

(** ** Arrays: the elements' specifications give the array's *)

Section Array.
Context {A : Type} (elt_size : Z) (valid : A -> Prop) (w : A -> list Z)
  (pre : State -> A -> State) (enc : A -> Enc unit) (dec : Enc A).

Definition wire_array (l : list A) : list Z := wire_uint (len l) ++ (l ≫= w).
Definition array_valid (l : list A) : Prop :=
  len l <= MAX_ARRAY_LENGTH /\ Forall valid l.

Lemma array_valid_u64 l : array_valid l -> in_u 64 (len l).
Proof. intros [H _]. unfold MAX_ARRAY_LENGTH in H. pose proof (len_nonneg l). words. lia. Qed.

Lemma preencode_array_spec s l :
  (forall s a, valid a -> pre s a = grow (len (w a)) s) -> array_valid l ->
  foldl pre (preencode_uint s (as_u64 (len l))) l = grow (len (wire_array l)) s.
Proof.
  intros Hp Hv. unfold as_u64. rewrite as_u_id by (by apply array_valid_u64).
  rewrite preencode_uint_spec. unfold wire_array. destruct Hv as [_ Hv]. lens.
  rewrite <- grow_grow. generalize (grow (len (wire_uint (len l))) s).
  induction Hv as [|a l Ha _ IH]; intros st; cbn [foldl mbind list_bind].
  { lens. by rewrite grow_0. }
  rewrite IH, Hp, grow_grow by done. lens. done.
Qed.

Lemma Writes_array l :
  (forall a, valid a -> Writes (enc a) (w a)) -> array_valid l ->
  Writes (encode_uint (as_u64 (len l)) ;; for_m l enc) (wire_array l).
Proof.
  intros He Hv. pose proof (array_valid_u64 l Hv). unfold as_u64. rewrite as_u_id by done.
  apply Writes_bind; [by apply Writes_uint|]. apply Writes_for.
  eapply Forall_impl; [apply Hv|]. apply He.
Qed.

Lemma Reads_array l :
  0 <= elt_size <= 2 ^ 32 -> (forall a, valid a -> Reads dec (w a) a) -> array_valid l ->
  Reads (decode_array_of elt_size dec) (wire_array l) l.
Proof.
  intros Hsz Hd Hv. pose proof (array_valid_u64 l Hv). destruct Hv as [Hl Hv].
  unfold MAX_ARRAY_LENGTH in Hl.
  eapply Reads_bind; [by apply Reads_uint|].
  unfold MAX_ARRAY_LENGTH. rewrite (proj2 (Z.ltb_ge _ _)) by lia.
  apply Reads_bind_nil with tt.
  - unfold with_capacity. rewrite (proj2 (Z.leb_le _ _)); [apply Reads_ret|].
    pose proof (len_nonneg l). pow2. nia.
  - rewrite to_nat_len. apply Reads_repeat.
    eapply Forall_impl; [apply Hv|]. apply Hd.
Qed.
End Array.

(** ** Every decoder is safe on arbitrary bytes, and typed *)

Lemma Decodes_le n m :
  0 <= n ->
  (forall bs, bytes_ok bs -> len bs = n -> Reads (check_remaining n ;; m) bs (from_le bs)) ->
  Decodes (check_remaining n ;; m) (in_u (8 * n)).
Proof.
  intros Hn Hr. apply (Decodes_fixed n m from_le); [done..|].
  intros bs Hb Hl. rewrite <- Hl. by apply from_le_range.
Qed.

Lemma Decodes_uint8 : Decodes decode_uint8 is_byte.
Proof. apply (Decodes_le 1); [done|apply Reads_uint8]. Qed.
Lemma Decodes_uint16 : Decodes decode_uint16 (in_u 16).
Proof. apply (Decodes_le 2); [done|apply Reads_uint16]. Qed.
Lemma Decodes_uint24 : Decodes decode_uint24 (in_u 24).
Proof. apply (Decodes_le 3); [done|apply Reads_uint24]. Qed.
Lemma Decodes_uint32 : Decodes decode_uint32 (in_u 32).
Proof. apply (Decodes_le 4); [done|apply Reads_uint32]. Qed.
Lemma Decodes_uint40 : Decodes decode_uint40 (in_u 40).
Proof. apply (Decodes_le 5); [done|apply Reads_uint40]. Qed.
Lemma Decodes_uint48 : Decodes decode_uint48 (in_u 48).
Proof. apply (Decodes_le 6); [done|apply Reads_uint48]. Qed.
Lemma Decodes_uint56 : Decodes decode_uint56 (in_u 56).
Proof. apply (Decodes_le 7); [done|apply Reads_uint56]. Qed.
Lemma Decodes_uint64 : Decodes decode_uint64 (in_u 64).
Proof. apply (Decodes_le 8); [done|apply Reads_uint64]. Qed.
#[export] Hint Resolve Decodes_uint8 Decodes_uint16 Decodes_uint24 Decodes_uint32
  Decodes_uint40 Decodes_uint48 Decodes_uint56 Decodes_uint64 : decodes.

Lemma in_u_mono v w z : 0 <= v <= w -> in_u v z -> in_u w z.
Proof.
  unfold in_u. intros. pose proof (Z.pow_le_mono_r 2 v w). lia.
Qed.

Lemma Decodes_uint : Decodes decode_uint (in_u 64).
Proof.
  eapply Decodes_bind; [apply Decodes_uint8|]. intros a Ha. unfold is_byte in Ha.
  repeat (apply Decodes_if; intros).
  - apply Decodes_ret. words. lia.
  - eapply Decodes_mono; [|apply Decodes_uint16]. intros ?. by apply in_u_mono.
  - eapply Decodes_mono; [|apply Decodes_uint32]. intros ?. by apply in_u_mono.
  - apply Decodes_uint64.
Qed.
#[export] Hint Resolve Decodes_uint : decodes.

(** [n] bytes, copied out. *)
Lemma Decodes_slice {A} (g : list Z -> A) n (P : A -> Prop) :
  0 <= n -> (forall bs, bytes_ok bs -> len bs = n -> P (g bs)) ->
  Decodes (check_remaining n ;; val ← read_slice n; advance n ;; mret (g val)) P.
Proof.
  intros Hn HP. apply (Decodes_fixed n _ g); [done| |done].
  intros bs Hb Hl. apply Reads_check; [lia|]. by apply Reads_slice.
Qed.

(** A decoded array of [n] bytes. *)
Definition fixed_ok (n : Z) (bs : list Z) : Prop := bytes_ok bs /\ len bs = n.
#[global] Instance fixed_ok_dec n bs : Decision (fixed_ok n bs).
Proof. unfold fixed_ok. apply _. Defined.

Lemma Decodes_fixed32 : Decodes decode_fixed32 (fixed_ok 32).
Proof. by apply (Decodes_slice id). Qed.
Lemma Decodes_fixed64 : Decodes decode_fixed64 (fixed_ok 64).
Proof. by apply (Decodes_slice id). Qed.

(** A decoded buffer is never the empty one. *)
Definition buffer_ok (o : option (list Z)) : Prop :=
  match o with Some b => bytes_ok b /\ 0 < len b | None => True end.

Lemma Decodes_buffer : Decodes decode_buffer buffer_ok.
Proof.
  eapply Decodes_bind; [apply Decodes_uint|]. intros n Hn. unfold in_u in Hn.
  apply Decodes_if; intros Hc; [by apply Decodes_ret|]. apply Z.eqb_neq in Hc.
  apply (Decodes_slice Some); [lia|]. intros bs Hb Hl. split; [done|lia].
Qed.

Lemma Decodes_string : Decodes decode_string (fun _ => True).
Proof.
  eapply Decodes_bind; [apply Decodes_uint|]. intros n Hn. unfold in_u in Hn.
  by apply (Decodes_slice from_utf8_lossy); [lia|].
Qed.

Lemma Decodes_ipv4 : Decodes decode_ipv4 ipv4_host.
Proof.
  apply (Decodes_fixed 4 _ ipv4_text); auto using Reads_ipv4, ipv4_host_text. lia.
Qed.
Lemma Decodes_ipv6 : Decodes decode_ipv6 (fun _ => True).
Proof. apply (Decodes_slice ipv6_to_string); [lia|done]. Qed.
#[export] Hint Resolve Decodes_fixed32 Decodes_fixed64 Decodes_buffer Decodes_string
  Decodes_ipv4 Decodes_ipv6 Decodes_throw : decodes.

Lemma Decodes_with_capacity elt_size n P :
  elt_size * n <= 2 ^ 63 - 1 -> P tt -> Decodes (with_capacity elt_size n) P.
Proof.
  intros H HP. unfold with_capacity. rewrite (proj2 (Z.leb_le _ _)) by done.
  by apply Decodes_ret.
Qed.

(** The length guard keeps every array allocation below the limit. *)
Lemma Decodes_array {A} elt_size (elt : Enc A) P :
  0 <= elt_size <= 2 ^ 32 -> Decodes elt P ->
  Decodes (decode_array_of elt_size elt)
    (fun l => len l <= MAX_ARRAY_LENGTH /\ Forall P l).
Proof.
  intros Hsz He. eapply Decodes_bind; [apply Decodes_uint|]. intros n Hn. unfold in_u in Hn.
  apply Decodes_if; intros Hc; [apply Decodes_throw|]. apply Z.ltb_ge in Hc.
  eapply Decodes_bind; [apply (Decodes_with_capacity _ _ (fun _ => True)); [|done]|].
  { unfold MAX_ARRAY_LENGTH in Hc. pow2. nia. }
  intros _ _. eapply Decodes_mono; [|by apply Decodes_repeat].
  intros l [Hl HP]. split; [|done]. unfold len. lia.
Qed.

Lemma from_bytes_safe {A} (m : Enc A) P buf :
  Decodes m P -> bytes_ok buf ->
  match from_bytes m buf with Ok a => P a | Err _ => True | Panic => False end.
Proof.
  intros Hm Hb. specialize (Hm (from_buffer buf)). unfold from_bytes.
  destruct (m (from_buffer buf)) as [[a|e|] s']; cbn; [apply Hm|done|apply Hm];
  (unfold wf, from_buffer; cbn; pose proof (len_nonneg buf); split_and!; [lia..|done]).
Qed.

(** ** Encoders that fail *)

(** [m] returns the error [e] whenever [n] bytes are available. *)
Definition Fails (m : Enc unit) (n : Z) (e : EncodingError) : Prop :=
  forall pre rest en, n <= len rest -> exists s, m (mkState (len pre) en (pre ++ rest)) = (Err e, s).

Lemma Fails_bind_l m1 m2 n e : Fails m1 n e -> Fails (m1 ;; m2) n e.
Proof.
  intros H pre rest en Hn. destruct (H pre rest en Hn) as [s Hs]. exists s.
  by apply bind_err.
Qed.

Lemma Fails_bind_r m1 m2 bs n e : 0 <= n ->
  Writes m1 bs -> Fails m2 n e -> Fails (m1 ;; m2) (len bs + n) e.
Proof.
  intros Hn Hw Hf pre rest en Hl. unfold len in Hl.
  rewrite <- (take_drop (length bs) rest).
  erewrite bind_ok by (apply Hw; rewrite length_take; lia).
  rewrite <- len_app, app_assoc. apply Hf. unfold len. rewrite length_drop. lia.
Qed.

Lemma Fails_ipv4 h : ipv4_octets h = None -> Fails (encode_ipv4 h) 4 (InvalidIpv4 h).
Proof.
  unfold ipv4_octets, encode_ipv4. destruct (Z.eqb_spec (len (split_on "." h)) 4) as [Hl|].
  2: { intros _ pre rest en _. by eexists. }
  intros Hm. cbn [negb]. rewrite <- Hl. clear Hl.
  induction (split_on "." h) as [|p ps IH]; [done|]. cbn [for_m].
  cbn in Hm. destruct (parse_u8 p) as [b|] eqn:Hp.
  - rewrite len_cons. apply (Fails_bind_r _ _ [b]); [apply len_nonneg|apply Writes_uint8|].
    apply IH. by destruct (mapM parse_u8 ps).
  - intros pre rest en _. by eexists.
Qed.

Lemma to_bytes_fails pre enc n k e :
  pre new = grow n new -> 0 <= k <= n -> Fails enc k e -> to_bytes pre enc = Err e.
Proof.
  intros Hp Hk Hf. unfold to_bytes. rewrite Hp. unfold alloc, grow, new.
  cbn [end_ start buffer]. change (len []) with 0.
  destruct (Z.ltb_spec 0 (0 + n)).
  - destruct (Hf [] (replicate (Z.to_nat (0 + n - 0)) 0) (0 + n)) as [s Hs].
    { unfold len. rewrite length_replicate. lia. }
    change (len []) with 0 in Hs. cbn [app] in *. by rewrite Hs.
  - destruct (Hf [] [] (0 + n)) as [s Hs]; [change (len []) with 0; lia|].
    change (len []) with 0 in Hs. cbn [app] in *. by rewrite Hs.
Qed.
