(* ===== verification/EncodingTheorems.v ===== *)
(** * EncodingTheorems: what the compact encoding guarantees

    Round trips of the integers, strings, buffers and arrays of
    [compact_encoding.rs], minimality of the varint, and safety of every
    primitive decoder on arbitrary bytes. *)

From S2P Require Import Prelude RustStd CompactEncoding Codec.
From Stdlib Require Import Ascii.

#[local] Open Scope Z_scope.

(** Measuring, allocating and encoding [a] gives [bs], which decodes to [b]. *)
Definition codes {A} (pre : State -> A -> State) (enc : A -> Enc unit) (dec : Enc A)
    (a : A) (bs : list Z) (b : A) : Prop :=
  to_bytes (fun s => pre s a) (enc a) = Ok bs /\ from_bytes dec bs = Ok b.

Lemma codes_spec {A} pre enc (dec : Enc A) a bs b :
  (forall s, pre s a = grow (len bs) s) -> Writes (enc a) bs -> Reads dec bs b ->
  codes pre enc dec a bs b.
Proof. intros Hp Hw Hr. split; [by apply to_bytes_spec|by apply from_bytes_spec]. Qed.

(** ** Signed integers *)

(** A [w]-bit integer is read back from the bytes of its zigzag form. *)
Lemma Reads_signed (n : nat) (m : Enc Z) z :
  (1 <= n <= 8)%nat ->
  (forall bs, bytes_ok bs -> len bs = Z.of_nat n -> Reads m bs (from_le bs)) ->
  in_i (8 * Z.of_nat n) z ->
  Reads ((fun x => as_i (8 * Z.of_nat n) (zigzag_decode x)) <$> m)
    (to_le n (as_u (8 * Z.of_nat n) (zigzag_encode z))) z.
Proof.
  intros Hn Hm Hz. eapply Reads_val.
  - apply Reads_fmap, (Reads_le n); [done|apply as_u_range; lia].
  - cbn beta. apply zigzag_cast; [lia|done].
Qed.

Lemma to_le_1 z : to_le 1 z = [as_u 8 z].
Proof. done. Qed.

Lemma Writes_int8 z : Writes (encode_int8 z) (to_le 1 (as_u 8 (zigzag_encode z))).
Proof.
  rewrite to_le_1, (as_u_id 8 (as_u 8 _)) by (by apply as_u_range). apply (Writes_uint8 (as_u8 _)).
Qed.

Lemma Reads_int64 z : in_i 64 z -> Reads decode_int64 (to_le 8 (zigzag_encode z)) z.
Proof.
  intros Hz. eapply Reads_val.
  - apply Reads_fmap, (Reads_le 8); [apply Reads_uint64|by apply zigzag_range].
  - by apply zigzag_id.
Qed.

(** ** The bytes the varint decoder consumes *)

Lemma decode_le_inv n m s z s' :
  0 <= n -> wf s ->
  (forall bs, bytes_ok bs -> len bs = n -> Reads (check_remaining n ;; m) bs (from_le bs)) ->
  (check_remaining n ;; m) s = (Ok z, s') ->
  in_u (8 * n) z /\ start s' = start s + n /\ wf s'.
Proof.
  intros Hn Hs Hr Heq. destruct (Z.lt_ge_cases (remaining s) n) as [Hlt|Hge].
  { erewrite bind_err in Heq; [done|]. unfold check_remaining. by rewrite (proj2 (Z.ltb_lt _ _)). }
  pose proof (Decodes_fixed n m from_le (fun _ => True) Hn Hr (fun _ _ _ => I) s Hs) as Hd.
  rewrite Heq in Hd. destruct (wf_split s n) as (pre & bs & post & -> & Hl & Hb); [done|done|].
  rewrite (Hr bs Hb Hl) in Heq. injection Heq as <- <-. split_and!.
  - rewrite <- Hl. by apply from_le_range.
  - cbn [start]. lia.
  - eapply moved_wf; [done|apply Hd].
Qed.

Lemma wire_uint_len n :
  len (wire_uint n) =
    if n <=? 0xfc then 1 else if n <=? 0xffff then 3 else if n <=? 0xffffffff then 5 else 9.
Proof. unfold wire_uint. repeat case_match; lens; done. Qed.

Lemma decode_uint_consumes s n s' :
  wf s -> decode_uint s = (Ok n, s') -> len (wire_uint n) <= start s' - start s.
Proof.
  intros Hs. unfold decode_uint, mbind, M_bind.
  destruct (decode_uint8 s) as [[a|e|] s1] eqn:H1; [|done..].
  apply (decode_le_inv 1) in H1 as (Ha & Hs1 & Hw1); [|done|done|apply Reads_uint8].
  rewrite wire_uint_len. destruct (a <=? 0xfc) eqn:Ec.
  { intros [= -> ->]. rewrite Ec. lia. }
  destruct (a =? 0xfd); [|destruct (a =? 0xfe)]; intros Hd;
  [apply (decode_le_inv 2) in Hd as (Hz & Hs2 & _); [|done|done|apply Reads_uint16]
  |apply (decode_le_inv 4) in Hd as (Hz & Hs2 & _); [|done|done|apply Reads_uint32]
  |apply (decode_le_inv 8) in Hd as (Hz & Hs2 & _); [|done|done|apply Reads_uint64]];
  words; repeat case_match; lia.
Qed.

(** ** Safety of the other primitives *)

Lemma Decodes_bool : Decodes decode_bool (fun _ => True).
Proof. by eapply Decodes_fmap; [apply Decodes_uint8|]. Qed.

(** ** Theorems *)

(** Every [u64] encodes as the 1-, 3-, 5- or 9-byte varint that [preencode]
    measures and decodes back to itself; and the encoding is minimal: whatever
    bytes the decoder reads [n] from, it consumes at least as many. *)
Theorem uint_roundtrip n :
  in_u 64 n ->
  codes preencode_uint encode_uint decode_uint n (wire_uint n) n /\
  len (wire_uint n) =
    (if n <=? 0xfc then 1 else if n <=? 0xffff then 3 else if n <=? 0xffffffff then 5 else 9) /\
  (forall s s', wf s -> decode_uint s = (Ok n, s') -> len (wire_uint n) <= start s' - start s).
Proof.
  intros Hn. split_and!.
  - apply codes_spec; [intros; apply preencode_uint_spec|by apply Writes_uint|by apply Reads_uint].
  - apply wire_uint_len.
  - intros s s'. apply decode_uint_consumes.
Qed.

Lemma uint_roundtrip_witness :
  codes preencode_uint encode_uint decode_uint 70000 [254; 112; 17; 1; 0] 70000.
Proof. apply (proj1 (uint_roundtrip 70000 ltac:(by apply (bool_decide_unpack _)))). Defined.

(** Signed integers of every width round-trip through their zigzag form:
    the varint [int] on the whole [i64] range, and each fixed width on its own
    range, in exactly that many bytes. *)
Theorem int_roundtrip z :
  (in_i 64 z -> codes preencode_int encode_int decode_int z (wire_uint (zigzag_encode z)) z) /\
  (in_i 8 z -> codes preencode_int8 encode_int8 decode_int8 z (to_le 1 (as_u 8 (zigzag_encode z))) z) /\
  (in_i 16 z ->
    codes preencode_int16 encode_int16 decode_int16 z (to_le 2 (as_u 16 (zigzag_encode z))) z) /\
  (in_i 32 z ->
    codes preencode_int32 encode_int32 decode_int32 z (to_le 4 (as_u 32 (zigzag_encode z))) z) /\
  (in_i 64 z -> codes preencode_int64 encode_int64 decode_int64 z (to_le 8 (zigzag_encode z)) z).
Proof.
  split_and!; intros Hz; (apply codes_spec; [intros s|..]).
  - apply preencode_uint_spec.
  - by apply Writes_uint, zigzag_range.
  - eapply Reads_val; [by apply Reads_fmap, Reads_uint, zigzag_range|by apply zigzag_id].
  - by rewrite len_to_le.
  - apply Writes_int8.
  - by apply (Reads_signed 1); [lia|apply Reads_uint8|].
  - by rewrite len_to_le.
  - apply Writes_uint16.
  - by apply (Reads_signed 2); [lia|apply Reads_uint16|].
  - by rewrite len_to_le.
  - apply Writes_uint32.
  - by apply (Reads_signed 4); [lia|apply Reads_uint32|].
  - by rewrite len_to_le.
  - apply Writes_uint64.
  - by apply Reads_int64.
Qed.

Lemma int_roundtrip_witness : codes preencode_int encode_int decode_int (-3) [5] (-3).
Proof. apply (proj1 (int_roundtrip (-3))). by apply (bool_decide_unpack _). Defined.

(** Strings, buffers and arrays round-trip: any valid UTF-8 string, any
    buffer below the 64-bit length (empty and absent both read back as absent),
    and arrays of integers, strings or buffers of up to 2^20 entries. *)
Theorem collections_roundtrip s b ns ss :
  string_valid s -> opt_ok fits b -> array_valid (in_u 64) ns -> array_valid string_valid ss ->
  codes preencode_string encode_string decode_string s (wire_string s) s /\
  codes preencode_buffer encode_buffer decode_buffer b (wire_buffer b) (buffer_norm b) /\
  codes preencode_uint_array encode_uint_array decode_uint_array ns (wire_array wire_uint ns) ns /\
  codes preencode_string_array encode_string_array decode_string_array ss
    (wire_array wire_string ss) ss.
Proof.
  intros Hs Hb Hns Hss. split_and!; (apply codes_spec; [intros st|..]).
  - by apply preencode_string_spec.
  - by apply Writes_string.
  - by apply Reads_string.
  - by apply preencode_buffer_spec.
  - by apply Writes_buffer.
  - by apply Reads_buffer.
  - apply (preencode_array_spec (in_u 64)); [intros; apply preencode_uint_spec|done].
  - by apply (Writes_array (in_u 64)); [apply Writes_uint|].
  - by apply (Reads_array 8 (in_u 64)); [|apply Reads_uint|].
  - apply (preencode_array_spec string_valid); [intros; by apply preencode_string_spec|done].
  - by apply (Writes_array string_valid); [apply Writes_string|].
  - by apply (Reads_array 24 string_valid); [|apply Reads_string|].
Qed.

Lemma string_valid_ascii : string_valid "hi" /\ string_valid "".
Proof. split; (split; [done|by apply (bool_decide_unpack _)]). Defined.

Lemma collections_roundtrip_witness :
  codes preencode_string_array encode_string_array decode_string_array ["hi"; ""]
    [2; 2; 104; 105; 0] ["hi"; ""].
Proof.
  refine (proj2 (proj2 (proj2 (collections_roundtrip "hi" (Some [])  [0; 300] ["hi"; ""] _ _ _ _)))).
  - apply string_valid_ascii.
  - by apply (bool_decide_unpack _).
  - split; by apply (bool_decide_unpack _).
  - split; [done|]. repeat constructor; apply string_valid_ascii.
Defined.

(** The primitive codecs round-trip: unsigned varints (minimally encoded,
    in the length [preencode_uint] reserves), zigzag integers of every width
    on their whole range, and strings, buffers and arrays up to their length
    limits: preencode measures, encode fills and decode reads back the value. *)
Theorem primitives_roundtrip n z s b ns ss :
  in_u 64 n -> string_valid s -> opt_ok fits b -> array_valid (in_u 64) ns ->
  array_valid string_valid ss ->
  (codes preencode_uint encode_uint decode_uint n (wire_uint n) n /\
   len (wire_uint n) =
     (if n <=? 0xfc then 1 else if n <=? 0xffff then 3 else if n <=? 0xffffffff then 5 else 9) /\
   (forall st st', wf st -> decode_uint st = (Ok n, st') -> len (wire_uint n) <= start st' - start st)) /\
  ((in_i 64 z -> codes preencode_int encode_int decode_int z (wire_uint (zigzag_encode z)) z) /\
   (in_i 8 z -> codes preencode_int8 encode_int8 decode_int8 z (to_le 1 (as_u 8 (zigzag_encode z))) z) /\
   (in_i 16 z ->
     codes preencode_int16 encode_int16 decode_int16 z (to_le 2 (as_u 16 (zigzag_encode z))) z) /\
   (in_i 32 z ->
     codes preencode_int32 encode_int32 decode_int32 z (to_le 4 (as_u 32 (zigzag_encode z))) z) /\
   (in_i 64 z -> codes preencode_int64 encode_int64 decode_int64 z (to_le 8 (zigzag_encode z)) z)) /\
  codes preencode_string encode_string decode_string s (wire_string s) s /\
  codes preencode_buffer encode_buffer decode_buffer b (wire_buffer b) (buffer_norm b) /\
  codes preencode_uint_array encode_uint_array decode_uint_array ns (wire_array wire_uint ns) ns /\
  codes preencode_string_array encode_string_array decode_string_array ss
    (wire_array wire_string ss) ss.
Proof.
  intros. split; [by apply uint_roundtrip|]. split; [by apply int_roundtrip|].
  by apply collections_roundtrip.
Qed.

Lemma primitives_roundtrip_witness :
  codes preencode_uint encode_uint decode_uint 65536 [254; 0; 0; 1; 0] 65536 /\
  codes preencode_string_array encode_string_array decode_string_array ["hi"; ""]
    [2; 2; 104; 105; 0] ["hi"; ""].
Proof.
  destruct (primitives_roundtrip 65536 0 "hi" (Some []) [0; 300] ["hi"; ""]) as ((Hn & _) & _ & _ & _ & _ & Hs).
  - by apply (bool_decide_unpack _).
  - apply string_valid_ascii.
  - by apply (bool_decide_unpack _).
  - split; by apply (bool_decide_unpack _).
  - split; [done|]. repeat constructor; apply string_valid_ascii.
  - split; [exact Hn|exact Hs].
Defined.

(** No primitive decoder panics on any buffer of bytes or moves the cursor
    out of it, arrays with absurd lengths included: it returns an error, or a
    value of the type and range it announces. *)
Theorem primitive_decoders_safe :
  Decodes decode_uint8 is_byte /\ Decodes decode_uint16 (in_u 16) /\
  Decodes decode_uint24 (in_u 24) /\ Decodes decode_uint32 (in_u 32) /\
  Decodes decode_uint40 (in_u 40) /\ Decodes decode_uint48 (in_u 48) /\
  Decodes decode_uint56 (in_u 56) /\ Decodes decode_uint64 (in_u 64) /\
  Decodes decode_uint (in_u 64) /\ Decodes decode_bool (fun _ => True) /\
  Decodes decode_buffer buffer_ok /\ Decodes decode_string (fun _ => True) /\
  Decodes decode_fixed32 (fixed_ok 32) /\ Decodes decode_fixed64 (fixed_ok 64) /\
  Decodes decode_ipv4 ipv4_host /\ Decodes decode_ipv6 (fun _ => True) /\
  Decodes decode_uint_array (array_valid (in_u 64)) /\
  Decodes decode_buffer_array (array_valid buffer_ok) /\
  Decodes decode_string_array (array_valid (fun _ => True)).
Proof.
  split_and!; eauto with decodes; try apply Decodes_bool;
  by apply Decodes_array; eauto with decodes.
Qed.
