(* ===== verification/Messages.v ===== *)
(** * Messages: the dht-rpc requests and responses of [peeroxide-dht/src/messages.rs]

    A message is a type/version byte, a flags byte saying which optional
    fields follow, a transaction id, the destination peer and the fields. *)

From S2P Require Import Prelude RustStd CompactEncoding Codec.
From Stdlib Require Import Ascii.

#[local] Open Scope Z_scope.

(** ** Data *)

Inductive Command : Type := Ping | PingNat | FindNode | DownHint | DelayedPing.

Definition command_code (c : Command) : Z :=
  match c with Ping => 0 | PingNat => 1 | FindNode => 2 | DownHint => 3 | DelayedPing => 4 end.

Definition from_u64 (v : Z) : option Command :=
  if v =? 0 then Some Ping else if v =? 1 then Some PingNat
  else if v =? 2 then Some FindNode else if v =? 3 then Some DownHint
  else if v =? 4 then Some DelayedPing else None.

Definition VERSION : Z := 3.
Definition REQUEST_ID : Z := VERSION.
Definition RESPONSE_ID : Z := Z.lor (Z.shiftl 1 4) VERSION.

Definition FLAG_ID : Z := 1.
Definition FLAG_TOKEN : Z := 2.
Definition FLAG_INTERNAL_OR_CLOSER : Z := 4.
Definition FLAG_TARGET_OR_ERROR : Z := 8.
Definition FLAG_VALUE : Z := 16.

(** [NodeId] and tokens are 32-byte arrays. *)
Abbreviation NodeId := (list Z) (only parsing).

Record Ipv4Peer : Type := mkPeer { host : string; port : Z }.
#[global] Instance Ipv4Peer_eq_dec : EqDecision Ipv4Peer.
Proof. solve_decision. Defined.

Record Request : Type := mkRequest {
  req_tid : Z;
  req_to : Ipv4Peer;
  req_id : option NodeId;
  req_token : option (list Z);
  req_internal : bool;
  req_command : Z;
  req_target : option NodeId;
  req_value : option (list Z)
}.

Record Response : Type := mkResponse {
  res_tid : Z;
  res_to : Ipv4Peer;
  res_id : option NodeId;
  res_token : option (list Z);
  res_closer_nodes : list Ipv4Peer;
  res_error : Z;
  res_value : option (list Z)
}.

Inductive Message : Type :=
| MRequest (r : Request)
| MResponse (r : Response).

(** [Option::is_some], [Vec::is_empty]. *)
Definition is_some {A} (o : option A) : bool := match o with Some _ => true | None => false end.
Definition is_empty {A} (l : list A) : bool := match l with [] => true | _ => false end.

(** ** Peers *)

Definition preencode_ipv4_peer (s : State) (_peer : Ipv4Peer) : State := grow 6 s.
Definition encode_ipv4_peer (peer : Ipv4Peer) : Enc unit :=
  encode_ipv4 (host peer) ;;
  let bytes := to_le 2 (port peer) in
  write_at 0 (nth 0 bytes 0) ;; write_at 1 (nth 1 bytes 0) ;; advance 2.
Definition decode_ipv4_peer : Enc Ipv4Peer :=
  h ← decode_ipv4; p ← decode_uint16; mret (mkPeer h p).

Definition preencode_ipv4_array (s : State) (peers : list Ipv4Peer) : State :=
  grow (len peers * 6) (preencode_uint s (as_u64 (len peers))).
Definition encode_ipv4_array (peers : list Ipv4Peer) : Enc unit :=
  encode_uint (as_u64 (len peers)) ;; for_m peers encode_ipv4_peer.
(** [size_of::<Ipv4Peer>()] is 32. *)
Definition decode_ipv4_array : Enc (list Ipv4Peer) := decode_array_of 32 decode_ipv4_peer.

(** ** Requests *)

(** [if cond { flags |= flag; }] *)
Definition set_flag (cond : bool) (flag flags : Z) : Z := if cond then Z.lor flags flag else flags.
(** [flags & flag != 0] *)
Definition has (flags flag : Z) : bool := negb (Z.land flags flag =? 0).

Definition preencode_request (s : State) (req : Request) : State :=
  let s := grow 2 (grow 1 (grow 1 s)) in
  let s := preencode_ipv4_peer s (req_to req) in
  let s := if is_some (req_id req) then grow 32 s else s in
  let s := if is_some (req_token req) then grow 32 s else s in
  let s := preencode_uint s (req_command req) in
  let s := if is_some (req_target req) then grow 32 s else s in
  if is_some (req_value req) then preencode_buffer s (req_value req) else s.

Definition request_flags (req : Request) : Z :=
  set_flag (is_some (req_value req)) FLAG_VALUE
  (set_flag (is_some (req_target req)) FLAG_TARGET_OR_ERROR
  (set_flag (req_internal req) FLAG_INTERNAL_OR_CLOSER
  (set_flag (is_some (req_token req)) FLAG_TOKEN
  (set_flag (is_some (req_id req)) FLAG_ID 0)))).

(** [if let Some(x) = o { f(x) }] *)
Definition if_some {A} (o : option A) (f : A -> Enc unit) : Enc unit :=
  match o with Some a => f a | None => mret tt end.
(** [if c { m }] *)
Definition when (c : bool) (m : Enc unit) : Enc unit := if c then m else mret tt.

Definition encode_request (req : Request) : Enc unit :=
  encode_uint8 REQUEST_ID ;;
  encode_uint8 (request_flags req) ;;
  encode_uint16 (req_tid req) ;;
  encode_ipv4_peer (req_to req) ;;
  if_some (req_id req) encode_fixed32 ;;
  if_some (req_token req) encode_fixed32 ;;
  encode_uint (req_command req) ;;
  if_some (req_target req) encode_fixed32 ;;
  when (is_some (req_value req)) (encode_buffer (req_value req)).

(** ** Responses *)

Definition preencode_response (s : State) (res : Response) : State :=
  let s := grow 2 (grow 1 (grow 1 s)) in
  let s := preencode_ipv4_peer s (res_to res) in
  let s := if is_some (res_id res) then grow 32 s else s in
  let s := if is_some (res_token res) then grow 32 s else s in
  let s := if negb (is_empty (res_closer_nodes res))
           then preencode_ipv4_array s (res_closer_nodes res) else s in
  let s := if negb (res_error res =? 0) then preencode_uint s (res_error res) else s in
  if is_some (res_value res) then preencode_buffer s (res_value res) else s.

Definition response_flags (res : Response) : Z :=
  set_flag (is_some (res_value res)) FLAG_VALUE
  (set_flag (negb (res_error res =? 0)) FLAG_TARGET_OR_ERROR
  (set_flag (negb (is_empty (res_closer_nodes res))) FLAG_INTERNAL_OR_CLOSER
  (set_flag (is_some (res_token res)) FLAG_TOKEN
  (set_flag (is_some (res_id res)) FLAG_ID 0)))).

Definition encode_response (res : Response) : Enc unit :=
  encode_uint8 RESPONSE_ID ;;
  encode_uint8 (response_flags res) ;;
  encode_uint16 (res_tid res) ;;
  encode_ipv4_peer (res_to res) ;;
  if_some (res_id res) encode_fixed32 ;;
  if_some (res_token res) encode_fixed32 ;;
  when (negb (is_empty (res_closer_nodes res))) (encode_ipv4_array (res_closer_nodes res)) ;;
  when (negb (res_error res =? 0)) (encode_uint (res_error res)) ;;
  when (is_some (res_value res)) (encode_buffer (res_value res)).

(** ** Decoding *)

(** [if cond { Some(m?) } else { None }] *)
Definition opt_field {A} (cond : bool) (m : Enc A) : Enc (option A) :=
  if cond then Some <$> m else mret None.

(** The part of [decode_message] after the version check. *)
Definition decode_body (type_version : Z) : Enc Message :=
  flags ← decode_uint8;
  tid ← decode_uint16;
  to ← decode_ipv4_peer;
  id ← opt_field (has flags FLAG_ID) decode_fixed32;
  token ← opt_field (has flags FLAG_TOKEN) decode_fixed32;
  let is_response := negb (Z.land type_version 0xF0 =? 0) in
  if is_response then
    closer_nodes ← (if has flags FLAG_INTERNAL_OR_CLOSER then decode_ipv4_array else mret []);
    error ← (if has flags FLAG_TARGET_OR_ERROR then decode_uint else mret 0);
    value ← (if has flags FLAG_VALUE then decode_buffer else mret None);
    mret (MResponse (mkResponse tid to id token closer_nodes error value))
  else
    let internal := has flags FLAG_INTERNAL_OR_CLOSER in
    command ← decode_uint;
    target ← opt_field (has flags FLAG_TARGET_OR_ERROR) decode_fixed32;
    value ← (if has flags FLAG_VALUE then decode_buffer else mret None);
    mret (MRequest (mkRequest tid to id token internal command target value)).

Definition decode_message (buf : list Z) : outcome EncodingError Message :=
  match buf with
  | [] => Err (OutOfBounds 1 0)
  | type_version :: _ =>
      if negb (Z.land type_version 0x0F =? VERSION) then Err (InvalidIpFamily type_version)
      else (decode_body type_version (mkState 1 (len buf) buf)).1
  end.

Definition encode_request_to_bytes (req : Request) : outcome EncodingError (list Z) :=
  to_bytes (fun s => preencode_request s req) (encode_request req).
Definition encode_response_to_bytes (res : Response) : outcome EncodingError (list Z) :=
  to_bytes (fun s => preencode_response s res) (encode_response res).

(** ** Wire formats and well-formed messages *)

Definition wire_peer (p : Ipv4Peer) : list Z := wire_ipv4 (host p) ++ to_le 2 (port p).
Definition peer_ok (p : Ipv4Peer) : Prop := ipv4_host (host p) /\ in_u 16 (port p).
#[global] Instance peer_ok_dec p : Decision (peer_ok p).
Proof. unfold peer_ok. apply _. Defined.

Definition wire_value (v : option (list Z)) : list Z :=
  if is_some v then wire_buffer v else [].

Definition wire_request (req : Request) : list Z :=
  [REQUEST_ID] ++ [request_flags req] ++ to_le 2 (req_tid req) ++ wire_peer (req_to req) ++
  default [] (req_id req) ++ default [] (req_token req) ++ wire_uint (req_command req) ++
  default [] (req_target req) ++ wire_value (req_value req).

Definition wire_peers : list Ipv4Peer -> list Z := wire_array wire_peer.
Definition peers_ok : list Ipv4Peer -> Prop := array_valid peer_ok.
#[global] Instance peers_ok_dec l : Decision (peers_ok l).
Proof. unfold peers_ok, array_valid. apply _. Defined.

Definition wire_response (res : Response) : list Z :=
  [RESPONSE_ID] ++ [response_flags res] ++ to_le 2 (res_tid res) ++ wire_peer (res_to res) ++
  default [] (res_id res) ++ default [] (res_token res) ++
  (if negb (is_empty (res_closer_nodes res)) then wire_peers (res_closer_nodes res) else []) ++
  (if negb (res_error res =? 0) then wire_uint (res_error res) else []) ++
  wire_value (res_value res).

(** The values the Rust types allow. *)
Record request_typed (req : Request) : Prop := {
  rq_tid : in_u 16 (req_tid req);
  rq_port : in_u 16 (port (req_to req));
  rq_id : opt_ok (fixed_ok 32) (req_id req);
  rq_token : opt_ok (fixed_ok 32) (req_token req);
  rq_command : in_u 64 (req_command req);
  rq_target : opt_ok (fixed_ok 32) (req_target req);
  rq_value : opt_ok fits (req_value req)
}.
(** ... whose destination is IPv4 text as [decode_ipv4] prints it. *)
Definition request_ok (req : Request) : Prop :=
  request_typed req /\ ipv4_host (host (req_to req)).

Record response_typed (res : Response) : Prop := {
  rs_tid : in_u 16 (res_tid res);
  rs_port : in_u 16 (port (res_to res));
  rs_id : opt_ok (fixed_ok 32) (res_id res);
  rs_token : opt_ok (fixed_ok 32) (res_token res);
  rs_closer : peers_ok (res_closer_nodes res);
  rs_error : in_u 64 (res_error res);
  rs_value : opt_ok fits (res_value res)
}.
Definition response_ok (res : Response) : Prop :=
  response_typed res /\ ipv4_host (host (res_to res)).

(** What a request, a response reads back as: an empty value becomes none. *)
Definition norm_request (r : Request) : Request :=
  mkRequest (req_tid r) (req_to r) (req_id r) (req_token r) (req_internal r) (req_command r)
    (req_target r) (buffer_norm (req_value r)).
Definition norm_response (r : Response) : Response :=
  mkResponse (res_tid r) (res_to r) (res_id r) (res_token r) (res_closer_nodes r)
    (res_error r) (buffer_norm (res_value r)).

(** ** Fields *)

Lemma ipv4_host_octets h :
  ipv4_host h -> exists o, ipv4_octets h = Some o /\ ipv4_text o = h /\ bytes_ok o /\ len o = 4.
Proof.
  unfold ipv4_host. destruct (ipv4_octets h) as [o|] eqn:E; [|done]. intros [= H].
  exists o. apply ipv4_octets_range in E as [? ?]. done.
Qed.

(** The host parses: what encoding needs of a peer. *)
Definition peer_parses (p : Ipv4Peer) : Prop := is_Some (ipv4_octets (host p)).

Lemma peer_ok_parses p : peer_ok p -> peer_parses p.
Proof. intros [(o & Ho & _)%ipv4_host_octets _]. by exists o. Qed.

Lemma wire_peer_len p : peer_parses p -> len (wire_peer p) = 6.
Proof.
  intros [o Ho]. unfold wire_peer, wire_ipv4.
  rewrite Ho. apply ipv4_octets_range in Ho as [_ Hl]. simpl. lens. lia.
Qed.

Lemma Writes_peer p : peer_parses p -> Writes (encode_ipv4_peer p) (wire_peer p).
Proof.
  intros [o Ho]. unfold wire_peer, wire_ipv4. rewrite Ho.
  apply Writes_bind; [by apply Writes_ipv4|apply (Writes_uint16 (port p))].
Qed.

Lemma Reads_peer p : peer_ok p -> Reads decode_ipv4_peer (wire_peer p) p.
Proof.
  destruct p as [h pt]. intros [(o & Ho & Ht & Hb & Hl)%ipv4_host_octets Hp].
  cbn [host port] in *. unfold wire_peer, wire_ipv4. cbn [host port].
  rewrite Ho. change (default [] (Some o)) with o.
  eapply Reads_bind; [by apply Reads_ipv4|]. rewrite Ht.
  eapply Reads_bind_last; [by apply (Reads_le 2); [apply Reads_uint16|]|apply Reads_ret].
Qed.

Lemma preencode_peer_spec s p :
  peer_ok p -> preencode_ipv4_peer s p = grow (len (wire_peer p)) s.
Proof. intros H. by rewrite wire_peer_len by (by apply peer_ok_parses). Qed.

Lemma preencode_peers_spec s l :
  peers_ok l -> preencode_ipv4_array s l = grow (len (wire_peers l)) s.
Proof.
  intros Hl. unfold wire_peers.
  rewrite <- (preencode_array_spec peer_ok wire_peer _ s l preencode_peer_spec Hl). unfold preencode_ipv4_array.
  generalize (preencode_uint s (as_u64 (len l))). destruct Hl as [_ Hl]. clear Hl.
  induction l as [|p l IH]; intros st; cbn [foldl]; [apply grow_0|].
  rewrite <- IH. unfold preencode_ipv4_peer.
  rewrite grow_grow. f_equal. lens. lia.
Qed.

Lemma Writes_peers l : peers_ok l -> Writes (encode_ipv4_array l) (wire_peers l).
Proof. apply Writes_array. auto using Writes_peer, peer_ok_parses. Qed.
Lemma Reads_peers l : peers_ok l -> Reads decode_ipv4_array (wire_peers l) l.
Proof. by apply Reads_array, Reads_peer. Qed.

Lemma Writes_opt32 o : Writes (if_some o encode_fixed32) (default [] o).
Proof. destruct o; [apply Writes_fixed|apply Writes_ret]. Qed.

Lemma Writes_value v : opt_ok fits v -> Writes (when (is_some v) (encode_buffer v)) (wire_value v).
Proof. intros. by apply Writes_if; intros; apply Writes_buffer. Qed.

Lemma Reads_opt32 b o :
  b = is_some o -> opt_ok (fixed_ok 32) o -> Reads (opt_field b decode_fixed32) (default [] o) o.
Proof.
  intros -> Ho. destruct o as [bs|]; [|apply Reads_ret].
  apply Reads_fmap, Reads_fixed32. by apply (Ho bs).
Qed.

Lemma Reads_value b v :
  b = is_some v -> opt_ok fits v ->
  Reads (if b then decode_buffer else mret None) (wire_value v) (buffer_norm v).
Proof. intros -> Hv. destruct v; [by apply Reads_buffer|apply Reads_ret]. Qed.

Lemma opt32_len o : opt_ok (fixed_ok 32) o -> len (default [] o) = if is_some o then 32 else 0.
Proof. intros H. destruct o as [bs|]; [|done]. by destruct (H bs eq_refl). Qed.

#[export] Hint Resolve peer_ok_parses Writes_uint8 Writes_uint16 Writes_uint32 Writes_uint64 Writes_uint
  Writes_fixed Writes_buffer Writes_string Writes_peer Writes_peers Writes_opt32 Writes_value
  : writes.

(** ** The flags byte *)

Lemma flags_has a b c d e :
  let flags := set_flag e FLAG_VALUE (set_flag d FLAG_TARGET_OR_ERROR
    (set_flag c FLAG_INTERNAL_OR_CLOSER (set_flag b FLAG_TOKEN (set_flag a FLAG_ID 0)))) in
  is_byte flags /\ has flags FLAG_ID = a /\ has flags FLAG_TOKEN = b /\
  has flags FLAG_INTERNAL_OR_CLOSER = c /\ has flags FLAG_TARGET_OR_ERROR = d /\
  has flags FLAG_VALUE = e.
Proof. unfold is_byte. destruct a, b, c, d, e; cbv; split_and!; done || lia. Qed.

(** ** Requests *)

(** The size of the fields, whatever follows them. *)
Ltac sizes :=
  repeat match goal with
  | H : opt_ok (fixed_ok 32) ?o |- context [len (default [] ?o)] => rewrite (opt32_len o H)
  end;
  rewrite ?wire_peer_len by auto using peer_ok_parses.

Lemma value_size s v :
  opt_ok fits v -> (if is_some v then preencode_buffer s v else s) = grow (len (wire_value v)) s.
Proof.
  intros H. destruct v; cbn [is_some wire_value]; [by apply preencode_buffer_spec|].
  lens. by rewrite grow_0.
Qed.

Lemma grow_if (b : bool) n s : (if b then grow n s else s) = grow (if b then n else 0) s.
Proof. destruct b; [done|]. by rewrite grow_0. Qed.

Lemma preencode_request_spec s req :
  request_typed req -> peer_parses (req_to req) ->
  preencode_request s req = grow (len (wire_request req)) s.
Proof.
  intros [] Hp. unfold preencode_request, preencode_ipv4_peer, wire_request.
  rewrite value_size, preencode_uint_spec, !grow_if, !grow_grow by done.
  f_equal. lens. sizes. change (len []) with 0. lia.
Qed.

Lemma Writes_request req :
  request_typed req -> peer_parses (req_to req) -> Writes (encode_request req) (wire_request req).
Proof.
  intros [] Hp. unfold encode_request, wire_request.
  do 8 (apply Writes_bind; [auto with writes|]). auto with writes.
Qed.

Lemma Reads_request_body req :
  request_ok req ->
  Reads (decode_body REQUEST_ID) (drop 1 (wire_request req)) (MRequest (norm_request req)).
Proof.
  intros [[] Hh]. unfold decode_body, wire_request. cbn [drop app].
  destruct (flags_has (is_some (req_id req)) (is_some (req_token req)) (req_internal req)
    (is_some (req_target req)) (is_some (req_value req))) as (Hb & H1 & H2 & H3 & H4 & H5).
  fold (request_flags req) in *.
  apply Reads_tagged; [done|]. rewrite H1, H2, H3, H4, H5.
  eapply Reads_bind; [by apply (Reads_le 2); [apply Reads_uint16|]|].
  eapply Reads_bind; [by apply Reads_peer|].
  do 2 (eapply Reads_bind; [by apply Reads_opt32|]). cbn [negb REQUEST_ID].
  eapply Reads_bind; [by apply Reads_uint|].
  eapply Reads_bind; [by apply Reads_opt32|].
  eapply Reads_bind_last; [by apply Reads_value|apply Reads_ret].
Qed.

Lemma decode_message_spec tv bs m :
  Z.land tv 0x0F = VERSION -> Reads (decode_body tv) bs m ->
  decode_message (tv :: bs) = Ok m.
Proof.
  intros Hv Hr. unfold decode_message. rewrite Hv. cbn [negb Z.eqb VERSION].
  specialize (Hr [tv] []). rewrite app_nil_r in Hr. cbn [app] in Hr.
  change (len [tv]) with 1 in Hr. by rewrite Hr.
Qed.

(** ** Responses *)

Lemma preencode_response_spec s res :
  response_typed res -> peer_parses (res_to res) ->
  preencode_response s res = grow (len (wire_response res)) s.
Proof.
  intros [] Hp. unfold preencode_response, preencode_ipv4_peer, wire_response.
  rewrite value_size, preencode_peers_spec, preencode_uint_spec by done.
  rewrite !grow_if, !grow_grow by done.
  f_equal. lens. sizes. change (len []) with 0. repeat case_match; lens; lia.
Qed.

Lemma Writes_response res :
  response_typed res -> peer_parses (res_to res) -> Writes (encode_response res) (wire_response res).
Proof.
  intros [] Hp. unfold encode_response, wire_response.
  do 6 (apply Writes_bind; [auto with writes|]).
  do 2 (apply Writes_bind; [apply Writes_if; auto with writes|]). auto with writes.
Qed.

Lemma Reads_default {A} (b : bool) (m : Enc A) bs a d :
  (b = true -> Reads m bs a) -> (b = false -> a = d) ->
  Reads (if b then m else mret d) (if b then bs else []) a.
Proof. destruct b; intros H1 H2; [by apply H1|]. rewrite H2 by done. apply Reads_ret. Qed.

Lemma Reads_response_body res :
  response_ok res ->
  Reads (decode_body RESPONSE_ID) (drop 1 (wire_response res)) (MResponse (norm_response res)).
Proof.
  intros [[] Hh]. unfold decode_body, wire_response. cbn [drop app].
  destruct (flags_has (is_some (res_id res)) (is_some (res_token res))
    (negb (is_empty (res_closer_nodes res))) (negb (res_error res =? 0))
    (is_some (res_value res))) as (Hb & H1 & H2 & H3 & H4 & H5).
  fold (response_flags res) in *.
  apply Reads_tagged; [done|]. rewrite H1, H2, H3, H4, H5.
  eapply Reads_bind; [by apply (Reads_le 2); [apply Reads_uint16|]|].
  eapply Reads_bind; [by apply Reads_peer|].
  do 2 (eapply Reads_bind; [by apply Reads_opt32|]).
  change (negb (Z.land RESPONSE_ID 0xF0 =? 0)) with true. cbv iota.
  eapply Reads_bind.
  { apply Reads_default; [by intros; apply Reads_peers|].
    by destruct (res_closer_nodes res). }
  eapply Reads_bind.
  { apply Reads_default; [by intros; apply Reads_uint|].
    intros E. apply Z.eqb_eq. by destruct (res_error res =? 0). }
  eapply Reads_bind_last; [by apply Reads_value|apply Reads_ret].
Qed.

(** ** Decoding arbitrary bytes *)

Definition message_ok (m : Message) : Prop :=
  match m with
  | MRequest r => in_u 16 (req_tid r) /\ peer_ok (req_to r) /\ opt_ok (fixed_ok 32) (req_id r) /\
      opt_ok (fixed_ok 32) (req_token r) /\ in_u 64 (req_command r) /\
      opt_ok (fixed_ok 32) (req_target r) /\ buffer_ok (req_value r)
  | MResponse r => in_u 16 (res_tid r) /\ peer_ok (res_to r) /\ opt_ok (fixed_ok 32) (res_id r) /\
      opt_ok (fixed_ok 32) (res_token r) /\ peers_ok (res_closer_nodes r) /\
      in_u 64 (res_error r) /\ buffer_ok (res_value r)
  end.

Lemma Decodes_peer : Decodes decode_ipv4_peer peer_ok.
Proof.
  eapply Decodes_bind; [apply Decodes_ipv4|]. intros h Hh.
  eapply Decodes_bind; [apply Decodes_uint16|]. intros p Hp. by apply Decodes_ret.
Qed.

Lemma Decodes_peers : Decodes decode_ipv4_array peers_ok.
Proof. by apply Decodes_array, Decodes_peer. Qed.

Lemma Decodes_opt {A} b (m : Enc A) P : Decodes m P -> Decodes (opt_field b m) (opt_ok P).
Proof.
  intros Hm. apply Decodes_if; intros _.
  - eapply Decodes_fmap; [done|]. intros a Ha a' [= <-]. done.
  - by apply Decodes_ret.
Qed.

Lemma Decodes_default {A} (b : bool) (m : Enc A) d (P : A -> Prop) :
  Decodes m P -> P d -> Decodes (if b then m else mret d) P.
Proof. intros. apply Decodes_if; intros _; [done|by apply Decodes_ret]. Qed.

Lemma peers_ok_nil : peers_ok [].
Proof. by split. Qed.
Lemma u64_0 : in_u 64 0.
Proof. done. Qed.
Lemma buffer_ok_none : buffer_ok None.
Proof. done. Qed.
#[export] Hint Resolve Decodes_peer Decodes_peers Decodes_opt Decodes_default peers_ok_nil
  u64_0 buffer_ok_none : decodes.

(** Run through a decoder, one bind at a time. *)
Ltac decodes_step :=
  eapply Decodes_bind; [solve [eauto with decodes]|intros ? ?].

Lemma Decodes_body tv : Decodes (decode_body tv) message_ok.
Proof.
  unfold decode_body. do 5 decodes_step. cbv zeta. apply Decodes_if; intros _.
  - do 3 decodes_step. by apply Decodes_ret.
  - do 3 decodes_step. by apply Decodes_ret.
Qed.

(** ** Theorems *)

(** A request whose fields have their Rust types and whose destination is
    an IPv4 host encodes to exactly its wire format, and decoding those bytes
    gives the request back (an empty value reads back as no value). *)
Theorem request_roundtrip req :
  request_ok req ->
  encode_request_to_bytes req = Ok (wire_request req) /\
  decode_message (wire_request req) = Ok (MRequest (norm_request req)).
Proof.
  intros Hr. destruct Hr as [Ht Hh].
  assert (peer_parses (req_to req)) as Hp by (apply peer_ok_parses; split; [done|apply Ht]).
  split.
  - apply to_bytes_spec; [by apply preencode_request_spec|by apply Writes_request].
  - by apply decode_message_spec, Reads_request_body.
Qed.

(** A request with every optional field. *)
Definition sample_request : Request :=
  mkRequest 0x1234 (mkPeer "192.168.1.254" 49737) (Some (replicate 32 7)) (Some (replicate 32 9))
    true 70000 (Some (replicate 32 255)) (Some [1; 2; 3]).

Lemma sample_request_ok : request_ok sample_request.
Proof.
  split; [|by apply (bool_decide_unpack _)].
  constructor; by apply (bool_decide_unpack _).
Defined.

Lemma request_roundtrip_witness :
  decode_message (wire_request sample_request) = Ok (MRequest sample_request).
Proof. apply (proj2 (request_roundtrip sample_request sample_request_ok)). Defined.

(** A response whose fields have their Rust types and whose peers are IPv4
    hosts (at most 2^20 closer nodes) encodes to exactly its wire format and
    decodes back to itself, an empty value reading back as no value. *)
Theorem response_roundtrip res :
  response_ok res ->
  encode_response_to_bytes res = Ok (wire_response res) /\
  decode_message (wire_response res) = Ok (MResponse (norm_response res)).
Proof.
  intros Hr. destruct Hr as [Ht Hh].
  assert (peer_parses (res_to res)) as Hp by (apply peer_ok_parses; split; [done|apply Ht]).
  split.
  - apply to_bytes_spec; [by apply preencode_response_spec|by apply Writes_response].
  - by apply decode_message_spec, Reads_response_body.
Qed.

Definition sample_response : Response :=
  mkResponse 7 (mkPeer "10.0.0.1" 1) None (Some (replicate 32 3))
    [mkPeer "1.2.3.4" 65535; mkPeer "255.255.255.255" 0] 300 None.

Lemma sample_response_ok : response_ok sample_response.
Proof.
  split; [|by apply (bool_decide_unpack _)].
  constructor; by apply (bool_decide_unpack _).
Defined.

Lemma response_roundtrip_witness :
  decode_message (wire_response sample_response) = Ok (MResponse sample_response).
Proof.
  apply (proj2 (response_roundtrip sample_response
    sample_response_ok)).
Defined.

(** C36: requests and responses round-trip: a message whose fields have their
    Rust types and whose peers are IPv4 hosts encodes to exactly its wire
    format, and [decode_message] reads those bytes back as the same message
    (an empty value reading back as no value). *)
Theorem messages_roundtrip req res :
  request_ok req -> response_ok res ->
  (encode_request_to_bytes req = Ok (wire_request req) /\
   decode_message (wire_request req) = Ok (MRequest (norm_request req))) /\
  (encode_response_to_bytes res = Ok (wire_response res) /\
   decode_message (wire_response res) = Ok (MResponse (norm_response res))).
Proof. intros Hq Hs. split; [by apply request_roundtrip|by apply response_roundtrip]. Qed.

Lemma messages_roundtrip_witness :
  decode_message (wire_request sample_request) = Ok (MRequest sample_request) /\
  decode_message (wire_response sample_response) = Ok (MResponse sample_response).
Proof.
  destruct (messages_roundtrip sample_request sample_response sample_request_ok
    sample_response_ok) as [[_ Hq] [_ Hs]].
  split; [exact Hq|exact Hs].
Defined.

(** ** Safety *)

Lemma decode_message_typed buf :
  bytes_ok buf ->
  match decode_message buf with Ok m => message_ok m | Err _ => True | Panic => False end.
Proof.
  intros Hb. destruct buf as [|tv buf]; [done|]. unfold decode_message.
  destruct (negb _); [done|].
  pose proof (Decodes_body tv (mkState 1 (len (tv :: buf)) (tv :: buf))) as H.
  destruct (decode_body _ _) as [[m|e|] s]; [apply H|done|apply H];
  (pose proof (len_nonneg buf); split_and!; cbn [start end_ buffer]; lens; lia || done).
Qed.

(** C35: [decode_message] never panics, whatever bytes arrive, and a message it
    accepts is well typed: 16-bit transaction id, 32-byte ids, targets and
    tokens, canonical IPv4 hosts with 16-bit ports, 64-bit command and error
    codes, at most 2^20 closer nodes, and no empty value. *)
Theorem decode_message_safe buf :
  bytes_ok buf ->
  match decode_message buf with Ok m => message_ok m | Err _ => True | Panic => False end.
Proof. apply decode_message_typed. Qed.

(** The bytes of a request, and a request that is cut off. *)
Lemma decode_message_safe_witness :
  (exists m, decode_message (wire_request sample_request) = Ok m /\ message_ok m) /\
  decode_message [3; 31; 1; 2; 127] <> Panic.
Proof.
  split.
  - pose proof (decode_message_safe (wire_request sample_request)
      ltac:(apply (bool_decide_unpack _); vm_compute; exact Logic.I)) as Hs.
    assert (is_some (outcome_ok (decode_message (wire_request sample_request))) = true) as Hk by (vm_compute; reflexivity).
    destruct (decode_message (wire_request sample_request)) as [m|e|]; [|discriminate Hk..].
    exists m. split; [reflexivity|exact Hs].
  - intros E. pose proof (decode_message_safe [3; 31; 1; 2; 127]
      ltac:(apply (bool_decide_unpack _); vm_compute; exact Logic.I)) as Hs. rewrite E in Hs. exact Hs.
Defined.

(** Encoding a request fails exactly when its destination host does not
    parse as four decimal octets, then with [InvalidIpv4]; it never panics. *)
Theorem encode_request_total req :
  request_typed req ->
  encode_request_to_bytes req =
    match ipv4_octets (host (req_to req)) with
    | Some _ => Ok (wire_request req)
    | None => Err (InvalidIpv4 (host (req_to req)))
    end.
Proof.
  intros Ht. destruct (ipv4_octets (host (req_to req))) as [o|] eqn:Ho.
  - apply to_bytes_spec; [apply preencode_request_spec|apply Writes_request]; done || by exists o.
  - destruct Ht. eapply (to_bytes_fails _ _ _ (1 + (1 + (2 + 4)))).
    + unfold preencode_request, preencode_ipv4_peer.
      rewrite value_size, preencode_uint_spec, !grow_if, !grow_grow by done. reflexivity.
    + pose proof (len_nonneg (wire_uint (req_command req))).
      pose proof (len_nonneg (wire_value (req_value req))). repeat case_match; lia.
    + apply (Fails_bind_r _ _ [REQUEST_ID]); [lia|apply Writes_uint8|].
      apply (Fails_bind_r _ _ [request_flags req]); [lia|apply Writes_uint8|].
      apply (Fails_bind_r _ _ (to_le 2 (req_tid req))); [lia|apply Writes_uint16|].
      by apply Fails_bind_l, Fails_bind_l, Fails_ipv4.
Qed.

Lemma encode_request_total_witness :
  encode_request_to_bytes (mkRequest 1 (mkPeer "10.0.0.256" 80) None None false 0 None None) =
  Err (InvalidIpv4 "10.0.0.256").
Proof.
  refine (encode_request_total (mkRequest 1 (mkPeer "10.0.0.256" 80) None None false 0 None None) _).
  constructor; by apply (bool_decide_unpack _).
Defined.

(** The same for a response; its closer nodes come from a routing table, whose
    hosts parse. *)
Theorem encode_response_total res :
  response_typed res ->
  encode_response_to_bytes res =
    match ipv4_octets (host (res_to res)) with
    | Some _ => Ok (wire_response res)
    | None => Err (InvalidIpv4 (host (res_to res)))
    end.
Proof.
  intros Ht. destruct (ipv4_octets (host (res_to res))) as [o|] eqn:Ho.
  - apply to_bytes_spec; [apply preencode_response_spec|apply Writes_response]; done || by exists o.
  - destruct Ht. eapply (to_bytes_fails _ _ _ (1 + (1 + (2 + 4)))).
    + unfold preencode_response, preencode_ipv4_peer.
      rewrite value_size, preencode_peers_spec, preencode_uint_spec by done.
      rewrite !grow_if, !grow_grow by done. reflexivity.
    + pose proof (len_nonneg (wire_uint (res_error res))).
      pose proof (len_nonneg (wire_value (res_value res))).
      pose proof (len_nonneg (wire_peers (res_closer_nodes res))). repeat case_match; lia.
    + apply (Fails_bind_r _ _ [RESPONSE_ID]); [lia|apply Writes_uint8|].
      apply (Fails_bind_r _ _ [response_flags res]); [lia|apply Writes_uint8|].
      apply (Fails_bind_r _ _ (to_le 2 (res_tid res))); [lia|apply Writes_uint16|].
      by apply Fails_bind_l, Fails_bind_l, Fails_ipv4.
Qed.
