(* ===== verification/HyperdhtMessages.v ===== *)
(** * HyperdhtMessages: the HyperDHT payloads of [peeroxide-dht/src/hyperdht_messages.rs]

    Announcements, lookup replies, mutable records, handshake and hole-punch
    messages, and the payload of the Noise handshake, each with its
    [preencode], [encode] and [decode] functions and its wire format. *)

From S2P Require Import Prelude RustStd CompactEncoding Codec Messages.
From Stdlib Require Import Ascii.

#[local] Open Scope Z_scope.

(** ** Command, mode, firewall and error codes *)

Definition PEER_HANDSHAKE : Z := 0.
Definition PEER_HOLEPUNCH : Z := 1.
Definition FIND_PEER : Z := 2.
Definition LOOKUP : Z := 3.
Definition ANNOUNCE : Z := 4.
Definition UNANNOUNCE : Z := 5.
Definition MUTABLE_PUT : Z := 6.
Definition MUTABLE_GET : Z := 7.
Definition IMMUTABLE_PUT : Z := 8.
Definition IMMUTABLE_GET : Z := 9.
Definition MODE_FROM_CLIENT : Z := 0.
Definition MODE_FROM_SERVER : Z := 1.
Definition MODE_FROM_RELAY : Z := 2.
Definition MODE_FROM_SECOND_RELAY : Z := 3.
Definition MODE_REPLY : Z := 4.
Definition FIREWALL_UNKNOWN : Z := 0.
Definition FIREWALL_OPEN : Z := 1.
Definition FIREWALL_CONSISTENT : Z := 2.
Definition FIREWALL_RANDOM : Z := 3.
Definition ERROR_NONE : Z := 0.
Definition ERROR_ABORTED : Z := 1.
Definition ERROR_VERSION_MISMATCH : Z := 2.
Definition ERROR_TRY_LATER : Z := 3.
Definition ERROR_SEQ_REUSED : Z := 16.
Definition ERROR_SEQ_TOO_LOW : Z := 17.

(** ** Peer arrays *)

(** [encode_ipv4_address(state, &peer.host, peer.port)] and back. *)
Definition encode_addr4 (p : Ipv4Peer) : Enc unit := encode_ipv4_address (host p) (port p).
Definition decode_addr4 : Enc Ipv4Peer :=
  '(h, p) ← decode_ipv4_address; mret (mkPeer h p).
Definition encode_addr6 (p : Ipv4Peer) : Enc unit := encode_ipv6_address (host p) (port p).
Definition decode_addr6 : Enc Ipv4Peer :=
  '(h, p) ← decode_ipv6_address; mret (mkPeer h p).

Definition preencode_ipv4_peer_array (s : State) (peers : list Ipv4Peer) : State :=
  grow (len peers * 6) (preencode_uint s (as_u64 (len peers))).
Definition encode_ipv4_peer_array (peers : list Ipv4Peer) : Enc unit :=
  encode_uint (as_u64 (len peers)) ;; for_m peers encode_addr4.
Definition decode_ipv4_peer_array : Enc (list Ipv4Peer) := decode_array_of 32 decode_addr4.

Definition preencode_ipv6_peer_array (s : State) (peers : list Ipv4Peer) : State :=
  grow (len peers * 18) (preencode_uint s (as_u64 (len peers))).
Definition encode_ipv6_peer_array (peers : list Ipv4Peer) : Enc unit :=
  encode_uint (as_u64 (len peers)) ;; for_m peers encode_addr6.
Definition decode_ipv6_peer_array : Enc (list Ipv4Peer) := decode_array_of 32 decode_addr6.

(** [if c { flag } else { 0 }] *)
Definition bit (c : bool) (flag : Z) : Z := if c then flag else 0.

(** [decode_buffer(state)?.unwrap_or_default()] *)
Definition decode_vec : Enc (list Z) := default [] <$> decode_buffer.

(** ** HyperPeer *)

Record HyperPeer : Type := mkHyperPeer {
  hp_public_key : list Z;
  hp_relay_addresses : list Ipv4Peer
}.

Definition preencode_hyper_peer (s : State) (peer : HyperPeer) : State :=
  preencode_ipv4_peer_array (grow 32 s) (hp_relay_addresses peer).
Definition encode_hyper_peer (peer : HyperPeer) : Enc unit :=
  encode_fixed32 (hp_public_key peer) ;; encode_ipv4_peer_array (hp_relay_addresses peer).
Definition decode_hyper_peer : Enc HyperPeer :=
  pk ← decode_fixed32; ra ← decode_ipv4_peer_array; mret (mkHyperPeer pk ra).
Definition encode_hyper_peer_to_bytes (peer : HyperPeer) : outcome EncodingError (list Z) :=
  to_bytes (fun s => preencode_hyper_peer s peer) (encode_hyper_peer peer).
Definition decode_hyper_peer_from_bytes (buf : list Z) : outcome EncodingError HyperPeer :=
  from_bytes decode_hyper_peer buf.

(** ** AnnounceMessage *)

Definition FLAG_PEER : Z := 1.
Definition FLAG_REFRESH : Z := 2.
Definition FLAG_SIGNATURE : Z := 4.
Definition FLAG_BUMP : Z := 8.

Record AnnounceMessage : Type := mkAnnounce {
  an_peer : option HyperPeer;
  an_refresh : option (list Z);
  an_signature : option (list Z);
  an_bump : Z
}.

Definition preencode_announce (s : State) (m : AnnounceMessage) : State :=
  let s := grow 1 s in
  let s := match an_peer m with Some peer => preencode_hyper_peer s peer | None => s end in
  let s := if is_some (an_refresh m) then grow 32 s else s in
  let s := if is_some (an_signature m) then grow 64 s else s in
  if negb (an_bump m =? 0) then preencode_uint s (an_bump m) else s.
Definition announce_flags (m : AnnounceMessage) : Z :=
  Z.lor (Z.lor (Z.lor (bit (is_some (an_peer m)) FLAG_PEER)
                      (bit (is_some (an_refresh m)) FLAG_REFRESH))
               (bit (is_some (an_signature m)) FLAG_SIGNATURE))
        (bit (negb (an_bump m =? 0)) FLAG_BUMP).
Definition encode_announce (m : AnnounceMessage) : Enc unit :=
  encode_uint (announce_flags m) ;;
  if_some (an_peer m) encode_hyper_peer ;;
  if_some (an_refresh m) encode_fixed32 ;;
  if_some (an_signature m) encode_fixed64 ;;
  when (negb (an_bump m =? 0)) (encode_uint (an_bump m)).
Definition decode_announce : Enc AnnounceMessage :=
  flags ← decode_uint;
  peer ← opt_field (has flags FLAG_PEER) decode_hyper_peer;
  refresh ← opt_field (has flags FLAG_REFRESH) decode_fixed32;
  signature ← opt_field (has flags FLAG_SIGNATURE) decode_fixed64;
  bump ← (if has flags FLAG_BUMP then decode_uint else mret 0);
  mret (mkAnnounce peer refresh signature bump).
Definition encode_announce_to_bytes (m : AnnounceMessage) : outcome EncodingError (list Z) :=
  to_bytes (fun s => preencode_announce s m) (encode_announce m).
Definition decode_announce_from_bytes (buf : list Z) : outcome EncodingError AnnounceMessage :=
  from_bytes decode_announce buf.

(** ** LookupRawReply *)

Record LookupRawReply : Type := mkLookup { lk_peers : list HyperPeer; lk_bump : Z }.

Definition preencode_lookup_raw_reply (s : State) (m : LookupRawReply) : State :=
  preencode_uint
    (foldl preencode_hyper_peer (preencode_uint s (as_u64 (len (lk_peers m)))) (lk_peers m))
    (lk_bump m).
Definition encode_lookup_raw_reply (m : LookupRawReply) : Enc unit :=
  encode_uint (as_u64 (len (lk_peers m))) ;;
  for_m (lk_peers m) encode_hyper_peer ;;
  encode_uint (lk_bump m).
(** There is no length guard before this allocation
    ([size_of::<HyperPeer>()] is 56). *)
Definition decode_lookup_raw_reply : Enc LookupRawReply :=
  count ← decode_uint;
  with_capacity 56 count ;;
  peers ← repeat_m (Z.to_nat count) decode_hyper_peer;
  s ← get;
  bump ← (if start s <? end_ s then decode_uint else mret 0);
  mret (mkLookup peers bump).
Definition encode_lookup_raw_reply_to_bytes (m : LookupRawReply) : outcome EncodingError (list Z) :=
  to_bytes (fun s => preencode_lookup_raw_reply s m) (encode_lookup_raw_reply m).
Definition decode_lookup_raw_reply_from_bytes (buf : list Z)
    : outcome EncodingError LookupRawReply :=
  from_bytes decode_lookup_raw_reply buf.

(** ** Mutable records *)

Record MutablePutRequest : Type := mkMutablePut {
  mp_public_key : list Z;
  mp_seq : Z;
  mp_value : list Z;
  mp_signature : list Z
}.

Definition preencode_mutable_put_request (s : State) (m : MutablePutRequest) : State :=
  grow 64 (preencode_buffer (preencode_uint (grow 32 s) (mp_seq m)) (Some (mp_value m))).
Definition encode_mutable_put_request (m : MutablePutRequest) : Enc unit :=
  encode_fixed32 (mp_public_key m) ;; encode_uint (mp_seq m) ;;
  encode_buffer (Some (mp_value m)) ;; encode_fixed64 (mp_signature m).
Definition decode_mutable_put_request : Enc MutablePutRequest :=
  pk ← decode_fixed32; seq ← decode_uint; value ← decode_vec; sig ← decode_fixed64;
  mret (mkMutablePut pk seq value sig).
Definition encode_mutable_put_request_to_bytes (m : MutablePutRequest)
    : outcome EncodingError (list Z) :=
  to_bytes (fun s => preencode_mutable_put_request s m) (encode_mutable_put_request m).
Definition decode_mutable_put_request_from_bytes (buf : list Z)
    : outcome EncodingError MutablePutRequest :=
  from_bytes decode_mutable_put_request buf.

Record MutableGetResponse : Type := mkMutableGet {
  mg_seq : Z;
  mg_value : list Z;
  mg_signature : list Z
}.

Definition preencode_mutable_get_response (s : State) (m : MutableGetResponse) : State :=
  grow 64 (preencode_buffer (preencode_uint s (mg_seq m)) (Some (mg_value m))).
Definition encode_mutable_get_response (m : MutableGetResponse) : Enc unit :=
  encode_uint (mg_seq m) ;; encode_buffer (Some (mg_value m)) ;;
  encode_fixed64 (mg_signature m).
Definition decode_mutable_get_response : Enc MutableGetResponse :=
  seq ← decode_uint; value ← decode_vec; sig ← decode_fixed64;
  mret (mkMutableGet seq value sig).
Definition encode_mutable_get_response_to_bytes (m : MutableGetResponse)
    : outcome EncodingError (list Z) :=
  to_bytes (fun s => preencode_mutable_get_response s m) (encode_mutable_get_response m).
Definition decode_mutable_get_response_from_bytes (buf : list Z)
    : outcome EncodingError MutableGetResponse :=
  from_bytes decode_mutable_get_response buf.

Record MutableSignable : Type := mkSignable { ms_seq : Z; ms_value : list Z }.

Definition preencode_mutable_signable (s : State) (m : MutableSignable) : State :=
  preencode_buffer (preencode_uint s (ms_seq m)) (Some (ms_value m)).
Definition encode_mutable_signable (m : MutableSignable) : Enc unit :=
  encode_uint (ms_seq m) ;; encode_buffer (Some (ms_value m)).
Definition decode_mutable_signable : Enc MutableSignable :=
  seq ← decode_uint; value ← decode_vec; mret (mkSignable seq value).
Definition encode_mutable_signable_to_bytes (m : MutableSignable)
    : outcome EncodingError (list Z) :=
  to_bytes (fun s => preencode_mutable_signable s m) (encode_mutable_signable m).
Definition decode_mutable_signable_from_bytes (buf : list Z)
    : outcome EncodingError MutableSignable :=
  from_bytes decode_mutable_signable buf.

(** ** Handshake and hole-punch envelopes *)

Record HandshakeMessage : Type := mkHandshake {
  hs_mode : Z;
  hs_noise : list Z;
  hs_peer_address : option Ipv4Peer;
  hs_relay_address : option Ipv4Peer
}.

Definition preencode_handshake (s : State) (m : HandshakeMessage) : State :=
  let s := preencode_uint s 0 in
  let s := preencode_uint s (hs_mode m) in
  let s := preencode_buffer s (Some (hs_noise m)) in
  let s := if is_some (hs_peer_address m) then grow 6 s else s in
  if is_some (hs_relay_address m) then grow 6 s else s.
Definition handshake_flags (m : HandshakeMessage) : Z :=
  Z.lor (bit (is_some (hs_peer_address m)) 1) (bit (is_some (hs_relay_address m)) 2).
Definition encode_handshake (m : HandshakeMessage) : Enc unit :=
  encode_uint (handshake_flags m) ;; encode_uint (hs_mode m) ;;
  encode_buffer (Some (hs_noise m)) ;;
  if_some (hs_peer_address m) encode_addr4 ;;
  if_some (hs_relay_address m) encode_addr4.
Definition decode_handshake : Enc HandshakeMessage :=
  flags ← decode_uint; mode ← decode_uint; noise ← decode_vec;
  peer_address ← opt_field (has flags 1) decode_addr4;
  relay_address ← opt_field (has flags 2) decode_addr4;
  mret (mkHandshake mode noise peer_address relay_address).
Definition encode_handshake_to_bytes (m : HandshakeMessage) : outcome EncodingError (list Z) :=
  to_bytes (fun s => preencode_handshake s m) (encode_handshake m).
Definition decode_handshake_from_bytes (buf : list Z) : outcome EncodingError HandshakeMessage :=
  from_bytes decode_handshake buf.

Record HolepunchMessage : Type := mkHolepunch {
  hm_mode : Z;
  hm_id : Z;
  hm_payload : list Z;
  hm_peer_address : option Ipv4Peer
}.

Definition preencode_holepunch_msg (s : State) (m : HolepunchMessage) : State :=
  let s := preencode_uint s 0 in
  let s := preencode_uint s (hm_mode m) in
  let s := preencode_uint s (hm_id m) in
  let s := preencode_buffer s (Some (hm_payload m)) in
  if is_some (hm_peer_address m) then grow 6 s else s.
Definition encode_holepunch_msg (m : HolepunchMessage) : Enc unit :=
  encode_uint (bit (is_some (hm_peer_address m)) 1) ;;
  encode_uint (hm_mode m) ;; encode_uint (hm_id m) ;;
  encode_buffer (Some (hm_payload m)) ;;
  if_some (hm_peer_address m) encode_addr4.
Definition decode_holepunch_msg : Enc HolepunchMessage :=
  flags ← decode_uint; mode ← decode_uint; id ← decode_uint; payload ← decode_vec;
  peer_address ← opt_field (has flags 1) decode_addr4;
  mret (mkHolepunch mode id payload peer_address).
Definition encode_holepunch_msg_to_bytes (m : HolepunchMessage) : outcome EncodingError (list Z) :=
  to_bytes (fun s => preencode_holepunch_msg s m) (encode_holepunch_msg m).
Definition decode_holepunch_msg_from_bytes (buf : list Z)
    : outcome EncodingError HolepunchMessage :=
  from_bytes decode_holepunch_msg buf.

(** ** The parts of the Noise payload *)

Record RelayInfo : Type := mkRelayInfo { ri_relay_address : Ipv4Peer; ri_peer_address : Ipv4Peer }.

Definition preencode_relay_info (s : State) (_m : RelayInfo) : State := grow 12 s.
Definition encode_relay_info (m : RelayInfo) : Enc unit :=
  encode_addr4 (ri_relay_address m) ;; encode_addr4 (ri_peer_address m).
Definition decode_relay_info : Enc RelayInfo :=
  r ← decode_addr4; p ← decode_addr4; mret (mkRelayInfo r p).

Definition preencode_relay_info_array (s : State) (arr : list RelayInfo) : State :=
  foldl preencode_relay_info (preencode_uint s (as_u64 (len arr))) arr.
Definition encode_relay_info_array (arr : list RelayInfo) : Enc unit :=
  encode_uint (as_u64 (len arr)) ;; for_m arr encode_relay_info.
(** [size_of::<RelayInfo>()] is 64. *)
Definition decode_relay_info_array : Enc (list RelayInfo) := decode_array_of 64 decode_relay_info.

Record HolepunchInfo : Type := mkHolepunchInfo { hi_id : Z; hi_relays : list RelayInfo }.

Definition preencode_holepunch_info (s : State) (m : HolepunchInfo) : State :=
  preencode_relay_info_array (preencode_uint s (hi_id m)) (hi_relays m).
Definition encode_holepunch_info (m : HolepunchInfo) : Enc unit :=
  encode_uint (hi_id m) ;; encode_relay_info_array (hi_relays m).
Definition decode_holepunch_info : Enc HolepunchInfo :=
  id ← decode_uint; relays ← decode_relay_info_array; mret (mkHolepunchInfo id relays).

Record UdxInfo : Type := mkUdxInfo {
  ux_version : Z;
  ux_reusable_socket : bool;
  ux_id : Z;
  ux_seq : Z
}.

Definition preencode_udx_info (s : State) (m : UdxInfo) : State :=
  preencode_uint (preencode_uint (grow 2 s) (ux_id m)) (ux_seq m).
Definition encode_udx_info (m : UdxInfo) : Enc unit :=
  encode_uint 1 ;; encode_uint (if ux_reusable_socket m then 1 else 0) ;;
  encode_uint (ux_id m) ;; encode_uint (ux_seq m).
Definition decode_udx_info : Enc UdxInfo :=
  version ← decode_uint; features ← decode_uint; id ← decode_uint; seq ← decode_uint;
  mret (mkUdxInfo version (has features 1) id seq).

Record SecretStreamInfo : Type := mkSecretStreamInfo { si_version : Z }.

Definition preencode_secret_stream_info (s : State) (_m : SecretStreamInfo) : State :=
  preencode_uint s 1.
Definition encode_secret_stream_info (_m : SecretStreamInfo) : Enc unit := encode_uint 1.
Definition decode_secret_stream_info : Enc SecretStreamInfo :=
  version ← decode_uint; mret (mkSecretStreamInfo version).

Record RelayThroughInfo : Type := mkRelayThroughInfo {
  rt_version : Z;
  rt_public_key : list Z;
  rt_token : list Z
}.

Definition preencode_relay_through_info (s : State) (_m : RelayThroughInfo) : State :=
  grow 64 (preencode_uint (preencode_uint s 1) 0).
Definition encode_relay_through_info (m : RelayThroughInfo) : Enc unit :=
  encode_uint 1 ;; encode_uint 0 ;;
  encode_fixed32 (rt_public_key m) ;; encode_fixed32 (rt_token m).
Definition decode_relay_through_info : Enc RelayThroughInfo :=
  version ← decode_uint; _flags ← decode_uint;
  pk ← decode_fixed32; token ← decode_fixed32; mret (mkRelayThroughInfo version pk token).

(** ** NoisePayload *)

Record NoisePayload : Type := mkNoisePayload {
  np_version : Z;
  np_error : Z;
  np_firewall : Z;
  np_holepunch : option HolepunchInfo;
  np_addresses4 : list Ipv4Peer;
  np_addresses6 : list Ipv4Peer;
  np_udx : option UdxInfo;
  np_secret_stream : option SecretStreamInfo;
  np_relay_through : option RelayThroughInfo;
  np_relay_addresses : option (list Ipv4Peer)
}.

Definition NP_FLAG_HOLEPUNCH : Z := 1.
Definition NP_FLAG_ADDRESSES4 : Z := 2.
Definition NP_FLAG_ADDRESSES6 : Z := 4.
Definition NP_FLAG_UDX : Z := 8.
Definition NP_FLAG_SECRET_STREAM : Z := 16.
Definition NP_FLAG_RELAY_THROUGH : Z := 32.
Definition NP_FLAG_RELAY_ADDRESSES : Z := 64.

(** [if let Some(x) = o { pre(state, x) }] *)
Definition pre_some {A} (o : option A) (pre : State -> A -> State) (s : State) : State :=
  match o with Some a => pre s a | None => s end.

Definition preencode_noise_payload (s : State) (m : NoisePayload) : State :=
  let s := grow 4 s in
  let s := pre_some (np_holepunch m) preencode_holepunch_info s in
  let s := if negb (is_empty (np_addresses4 m))
           then preencode_ipv4_peer_array s (np_addresses4 m) else s in
  let s := if negb (is_empty (np_addresses6 m))
           then preencode_ipv6_peer_array s (np_addresses6 m) else s in
  let s := pre_some (np_udx m) preencode_udx_info s in
  let s := pre_some (np_secret_stream m) preencode_secret_stream_info s in
  let s := pre_some (np_relay_through m) preencode_relay_through_info s in
  pre_some (np_relay_addresses m) preencode_ipv4_peer_array s.

Definition noise_flags (m : NoisePayload) : Z :=
  set_flag (is_some (np_relay_addresses m)) NP_FLAG_RELAY_ADDRESSES
  (set_flag (is_some (np_relay_through m)) NP_FLAG_RELAY_THROUGH
  (set_flag (is_some (np_secret_stream m)) NP_FLAG_SECRET_STREAM
  (set_flag (is_some (np_udx m)) NP_FLAG_UDX
  (set_flag (negb (is_empty (np_addresses6 m))) NP_FLAG_ADDRESSES6
  (set_flag (negb (is_empty (np_addresses4 m))) NP_FLAG_ADDRESSES4
  (set_flag (is_some (np_holepunch m)) NP_FLAG_HOLEPUNCH 0)))))).

Definition encode_noise_payload (m : NoisePayload) : Enc unit :=
  encode_uint 1 ;; encode_uint (noise_flags m) ;;
  encode_uint (np_error m) ;; encode_uint (np_firewall m) ;;
  if_some (np_holepunch m) encode_holepunch_info ;;
  when (negb (is_empty (np_addresses4 m))) (encode_ipv4_peer_array (np_addresses4 m)) ;;
  when (negb (is_empty (np_addresses6 m))) (encode_ipv6_peer_array (np_addresses6 m)) ;;
  if_some (np_udx m) encode_udx_info ;;
  if_some (np_secret_stream m) encode_secret_stream_info ;;
  if_some (np_relay_through m) encode_relay_through_info ;;
  if_some (np_relay_addresses m) encode_ipv4_peer_array.

Definition decode_noise_payload : Enc NoisePayload :=
  version ← decode_uint;
  if negb (version =? 1)
  then mret (mkNoisePayload version 0 0 None [] [] None None None None)
  else
    flags ← decode_uint; error ← decode_uint; firewall ← decode_uint;
    holepunch ← opt_field (has flags NP_FLAG_HOLEPUNCH) decode_holepunch_info;
    addresses4 ← (if has flags NP_FLAG_ADDRESSES4 then decode_ipv4_peer_array else mret []);
    addresses6 ← (if has flags NP_FLAG_ADDRESSES6 then decode_ipv6_peer_array else mret []);
    udx ← opt_field (has flags NP_FLAG_UDX) decode_udx_info;
    secret_stream ← opt_field (has flags NP_FLAG_SECRET_STREAM) decode_secret_stream_info;
    relay_through ← opt_field (has flags NP_FLAG_RELAY_THROUGH) decode_relay_through_info;
    relay_addresses ← opt_field (has flags NP_FLAG_RELAY_ADDRESSES) decode_ipv4_peer_array;
    mret (mkNoisePayload version error firewall holepunch addresses4 addresses6 udx
            secret_stream relay_through relay_addresses).
Definition encode_noise_payload_to_bytes (m : NoisePayload) : outcome EncodingError (list Z) :=
  to_bytes (fun s => preencode_noise_payload s m) (encode_noise_payload m).
Definition decode_noise_payload_from_bytes (buf : list Z) : outcome EncodingError NoisePayload :=
  from_bytes decode_noise_payload buf.

(** ** HolepunchPayload *)

Record HolepunchPayload : Type := mkHolepunchPayload {
  pl_error : Z;
  pl_firewall : Z;
  pl_round : Z;
  pl_connected : bool;
  pl_punching : bool;
  pl_addresses : option (list Ipv4Peer);
  pl_remote_address : option Ipv4Peer;
  pl_token : option (list Z);
  pl_remote_token : option (list Z)
}.

Definition HP_FLAG_CONNECTED : Z := 1.
Definition HP_FLAG_PUNCHING : Z := 2.
Definition HP_FLAG_ADDRESSES : Z := 4.
Definition HP_FLAG_REMOTE_ADDRESS : Z := 8.
Definition HP_FLAG_TOKEN : Z := 16.
Definition HP_FLAG_REMOTE_TOKEN : Z := 32.

Definition preencode_holepunch_payload (s : State) (m : HolepunchPayload) : State :=
  let s := grow 4 s in
  let s := pre_some (pl_addresses m) preencode_ipv4_peer_array s in
  let s := if is_some (pl_remote_address m) then grow 6 s else s in
  let s := if is_some (pl_token m) then grow 32 s else s in
  if is_some (pl_remote_token m) then grow 32 s else s.

Definition holepunch_flags (m : HolepunchPayload) : Z :=
  set_flag (is_some (pl_remote_token m)) HP_FLAG_REMOTE_TOKEN
  (set_flag (is_some (pl_token m)) HP_FLAG_TOKEN
  (set_flag (is_some (pl_remote_address m)) HP_FLAG_REMOTE_ADDRESS
  (set_flag (is_some (pl_addresses m)) HP_FLAG_ADDRESSES
  (set_flag (pl_punching m) HP_FLAG_PUNCHING
  (set_flag (pl_connected m) HP_FLAG_CONNECTED 0))))).

Definition encode_holepunch_payload (m : HolepunchPayload) : Enc unit :=
  encode_uint (holepunch_flags m) ;; encode_uint (pl_error m) ;;
  encode_uint (pl_firewall m) ;; encode_uint (pl_round m) ;;
  if_some (pl_addresses m) encode_ipv4_peer_array ;;
  if_some (pl_remote_address m) encode_addr4 ;;
  if_some (pl_token m) encode_fixed32 ;;
  if_some (pl_remote_token m) encode_fixed32.

Definition decode_holepunch_payload : Enc HolepunchPayload :=
  flags ← decode_uint; error ← decode_uint; firewall ← decode_uint; round ← decode_uint;
  addresses ← opt_field (has flags HP_FLAG_ADDRESSES) decode_ipv4_peer_array;
  remote_address ← opt_field (has flags HP_FLAG_REMOTE_ADDRESS) decode_addr4;
  token ← opt_field (has flags HP_FLAG_TOKEN) decode_fixed32;
  remote_token ← opt_field (has flags HP_FLAG_REMOTE_TOKEN) decode_fixed32;
  mret (mkHolepunchPayload error firewall round (has flags HP_FLAG_CONNECTED)
          (has flags HP_FLAG_PUNCHING) addresses remote_address token remote_token).
Definition encode_holepunch_payload_to_bytes (m : HolepunchPayload)
    : outcome EncodingError (list Z) :=
  to_bytes (fun s => preencode_holepunch_payload s m) (encode_holepunch_payload m).
Definition decode_holepunch_payload_from_bytes (buf : list Z)
    : outcome EncodingError HolepunchPayload :=
  from_bytes decode_holepunch_payload buf.
