(* ===== verification/HyperdhtWire.v ===== *)
(** * HyperdhtWire: wire formats and codec theorems of the HyperDHT payloads

    For each message of [HyperdhtMessages] the bytes it stands for, the values
    it can carry, and a [Codec]: size, encoding and decoding agree with the
    wire format. *)

From S2P Require Import Prelude RustStd CompactEncoding Codec Messages HyperdhtMessages.
From Stdlib Require Import Ascii.

#[local] Open Scope Z_scope.

(** ** Optional and defaulted fields *)

Definition wire_opt {A} (o : option A) (w : A -> list Z) : list Z :=
  match o with Some a => w a | None => [] end.

Section Fields.
Context {A : Type} (P : A -> Prop) (w : A -> list Z).

Lemma Writes_some (enc : A -> Enc unit) o :
  (forall a, P a -> Writes (enc a) (w a)) -> opt_ok P o ->
  Writes (if_some o enc) (wire_opt o w).
Proof. intros He Ho. apply Writes_option. intros a Ha. by apply He, Ho. Qed.

Lemma Reads_some (dec : Enc A) b o :
  (forall a, P a -> Reads dec (w a) a) -> opt_ok P o -> b = is_some o ->
  Reads (opt_field b dec) (wire_opt o w) o.
Proof.
  intros Hd Ho ->. destruct o as [a|]; [|apply Reads_ret].
  apply Reads_fmap. by apply Hd, Ho.
Qed.

Lemma pre_some_spec pre o s :
  (forall s a, P a -> pre s a = grow (len (w a)) s) -> opt_ok P o ->
  pre_some o pre s = grow (len (wire_opt o w)) s.
Proof.
  intros Hp Ho. destruct o as [a|]; [by apply Hp, Ho|].
  cbn [pre_some wire_opt]. change (len []) with 0. by rewrite grow_0.
Qed.

Lemma pre_fixed_spec n o s :
  (forall a, P a -> len (w a) = n) -> opt_ok P o ->
  (if is_some o then grow n s else s) = grow (len (wire_opt o w)) s.
Proof.
  intros Hp Ho. destruct o as [a|]; cbn [is_some wire_opt].
  - by rewrite (Hp a) by (by apply Ho).
  - change (len []) with 0. by rewrite grow_0.
Qed.
End Fields.

Lemma pre_when_spec (b : bool) (pre : State -> State) (bs : list Z) s :
  pre s = grow (len bs) s -> (if b then pre s else s) = grow (len (if b then bs else [])) s.
Proof. intros H. destruct b; [done|]. change (len []) with 0. by rewrite grow_0. Qed.

Lemma Writes_when (b : bool) m bs : Writes m bs -> Writes (when b m) (if b then bs else []).
Proof. intros H. by apply Writes_if. Qed.

(** One-byte integers: what the fixed sizes of the payloads allow. *)
Definition small (z : Z) : Prop := 0 <= z <= 0xfc.
#[global] Instance small_dec z : Decision (small z).
Proof. unfold small. apply _. Defined.

Lemma wire_small z : small z -> wire_uint z = [z].
Proof. intros [_ H]. unfold wire_uint. by rewrite (proj2 (Z.leb_le _ _)). Qed.
Lemma small_u64 z : small z -> in_u 64 z.
Proof. unfold small. words. lia. Qed.

Definition wire_vec (v : list Z) : list Z := wire_buffer (Some v).

Lemma preencode_vec_spec s v : fits v -> preencode_buffer s (Some v) = grow (len (wire_vec v)) s.
Proof. intros. apply preencode_buffer_spec. by intros b [= <-]. Qed.
Lemma Writes_vec v : fits v -> Writes (encode_buffer (Some v)) (wire_vec v).
Proof. intros. apply Writes_buffer. by intros b [= <-]. Qed.
Lemma Reads_vec v : fits v -> Reads decode_vec (wire_vec v) v.
Proof.
  intros. eapply Reads_val; [apply Reads_fmap, Reads_buffer; by intros b [= <-]|].
  by destruct v.
Qed.

(** ** Addresses *)

Lemma Writes_addr4 p : peer_ok p -> Writes (encode_addr4 p) (wire_peer p).
Proof. intros. by apply Writes_peer, peer_ok_parses. Qed.

Lemma Reads_addr4 p : peer_ok p -> Reads decode_addr4 (wire_peer p) p.
Proof.
  destruct p as [h pt]. intros [(o & Ho & Ht & Hb & Hl)%ipv4_host_octets Hp].
  cbn [host port] in *. unfold wire_peer, wire_ipv4. cbn [host port].
  rewrite Ho. change (default [] (Some o)) with o.
  apply (Reads_bind_last _ _ _ (h, pt)); [|apply Reads_ret].
  eapply Reads_bind; [by apply Reads_ipv4|]. rewrite Ht.
  eapply Reads_bind_last; [by apply (Reads_le 2); [apply Reads_uint16|]|apply Reads_ret].
Qed.

Definition wire_addr6 (p : Ipv4Peer) : list Z := wire_ipv6 (host p) ++ to_le 2 (port p).
Definition addr6_ok (p : Ipv4Peer) : Prop := ipv6_host (host p) /\ in_u 16 (port p).
#[global] Instance addr6_ok_dec p : Decision (addr6_ok p).
Proof. unfold addr6_ok. apply _. Defined.

Lemma ipv6_host_octets h :
  ipv6_host h -> exists o, ipv6_from_str h = Some o /\ ipv6_to_string o = h /\ len o = 16.
Proof.
  unfold ipv6_host. destruct (ipv6_from_str h) as [o|] eqn:E; [|done]. intros [= H].
  exists o. by apply ipv6_from_str_range in E as [_ ?].
Qed.

Lemma wire_addr6_len p : addr6_ok p -> len (wire_addr6 p) = 18.
Proof.
  intros [(o & Ho & _ & Hl)%ipv6_host_octets _]. unfold wire_addr6, wire_ipv6.
  rewrite Ho. change (default [] (Some o)) with o. lens. lia.
Qed.

Lemma Writes_addr6 p : addr6_ok p -> Writes (encode_addr6 p) (wire_addr6 p).
Proof.
  intros [(o & Ho & _)%ipv6_host_octets _]. unfold wire_addr6, wire_ipv6. rewrite Ho.
  apply Writes_bind; [by apply Writes_ipv6|apply Writes_uint16].
Qed.

Lemma Reads_addr6 p : addr6_ok p -> Reads decode_addr6 (wire_addr6 p) p.
Proof.
  destruct p as [h pt]. intros [(o & Ho & Ht & Hl)%ipv6_host_octets Hp].
  cbn [host port] in *. unfold wire_addr6, wire_ipv6. cbn [host port].
  rewrite Ho. change (default [] (Some o)) with o.
  apply (Reads_bind_last _ _ _ (h, pt)); [|apply Reads_ret].
  eapply Reads_bind; [by apply Reads_ipv6|]. rewrite Ht.
  eapply Reads_bind_last; [by apply (Reads_le 2); [apply Reads_uint16|]|apply Reads_ret].
Qed.

(** Arrays whose elements all take [n] bytes. *)
Lemma foldl_grow {A} n (l : list A) s : foldl (fun s _ => grow n s) s l = grow (len l * n) s.
Proof.
  revert s. induction l as [|a l IH]; intros s; cbn [foldl].
  - change (len []) with 0. by rewrite grow_0.
  - rewrite IH, grow_grow. f_equal. lens. lia.
Qed.

Lemma preencode_peers4_spec s l :
  peers_ok l -> preencode_ipv4_peer_array s l = grow (len (wire_peers l)) s.
Proof. apply preencode_peers_spec. Qed.
Lemma Writes_peers4 l : peers_ok l -> Writes (encode_ipv4_peer_array l) (wire_peers l).
Proof. apply Writes_array, Writes_addr4. Qed.
Lemma Reads_peers4 l : peers_ok l -> Reads decode_ipv4_peer_array (wire_peers l) l.
Proof. by apply Reads_array, Reads_addr4. Qed.

Definition wire_peers6 : list Ipv4Peer -> list Z := wire_array wire_addr6.
Definition peers6_ok : list Ipv4Peer -> Prop := array_valid addr6_ok.
#[global] Instance peers6_ok_dec l : Decision (peers6_ok l).
Proof. unfold peers6_ok, array_valid. apply _. Defined.

Lemma preencode_peers6_spec s l :
  peers6_ok l -> preencode_ipv6_peer_array s l = grow (len (wire_peers6 l)) s.
Proof.
  intros Hl. unfold wire_peers6.
  rewrite <- (preencode_array_spec addr6_ok wire_addr6 (fun s _ => grow 18 s) s l); [|..|done].
  - symmetry. apply foldl_grow.
  - intros st p Hp. by rewrite wire_addr6_len.
Qed.
Lemma Writes_peers6 l : peers6_ok l -> Writes (encode_ipv6_peer_array l) (wire_peers6 l).
Proof. apply Writes_array, Writes_addr6. Qed.
Lemma Reads_peers6 l : peers6_ok l -> Reads decode_ipv6_peer_array (wire_peers6 l) l.
Proof. by apply Reads_array, Reads_addr6. Qed.

(** Sizes, writers and readers of the fields, for the search below. *)
#[export] Hint Resolve Writes_some Writes_vec Writes_addr4 Writes_addr6 Writes_peers4
  Writes_peers6 Writes_when small_u64 : writes.
#[export] Hint Resolve Reads_uint Reads_vec Reads_addr4 Reads_addr6 Reads_peers4 Reads_peers6
  Reads_some Reads_default small_u64 : reads.

Lemma Reads_fixed32_ok bs : fixed_ok 32 bs -> Reads decode_fixed32 bs bs.
Proof. intros [_ H]. by apply Reads_fixed32. Qed.
Lemma Reads_fixed64_ok bs : fixed_ok 64 bs -> Reads decode_fixed64 bs bs.
Proof. intros [_ H]. by apply Reads_fixed64. Qed.
Lemma Writes_fixed_ok n bs : fixed_ok n bs -> Writes (encode_fixed bs) bs.
Proof. intros _. apply Writes_fixed. Qed.
Lemma fixed_ok_len n bs : fixed_ok n bs -> len bs = n.
Proof. by intros [_ ?]. Qed.
Lemma peer_ok_len p : peer_ok p -> len (wire_peer p) = 6.
Proof. intros. by apply wire_peer_len, peer_ok_parses. Qed.
#[export] Hint Resolve Writes_fixed_ok : writes.
#[export] Hint Resolve Reads_fixed32_ok Reads_fixed64_ok : reads.

(** The fixed-size optional fields. *)
Lemma pre_opt32 o s :
  opt_ok (fixed_ok 32) o -> (if is_some o then grow 32 s else s) = grow (len (wire_opt o id)) s.
Proof. apply pre_fixed_spec, fixed_ok_len. Qed.
Lemma pre_opt64 o s :
  opt_ok (fixed_ok 64) o -> (if is_some o then grow 64 s else s) = grow (len (wire_opt o id)) s.
Proof. apply pre_fixed_spec, fixed_ok_len. Qed.
Lemma pre_opt_addr o s :
  opt_ok peer_ok o -> (if is_some o then grow 6 s else s) = grow (len (wire_opt o wire_peer)) s.
Proof. apply pre_fixed_spec, peer_ok_len. Qed.

Ltac writes_step := apply Writes_bind; [solve [eauto with writes]|].
Ltac reads_step := eapply Reads_bind; [solve [eauto with reads]|].
Ltac reads_last := eapply Reads_bind_last; [solve [eauto with reads]|apply Reads_ret].

(** ** HyperPeer *)

Definition wire_hyper_peer (p : HyperPeer) : list Z :=
  hp_public_key p ++ wire_peers (hp_relay_addresses p).
Definition hyper_peer_ok (p : HyperPeer) : Prop :=
  fixed_ok 32 (hp_public_key p) /\ peers_ok (hp_relay_addresses p).
#[global] Instance hyper_peer_ok_dec p : Decision (hyper_peer_ok p).
Proof. unfold hyper_peer_ok. apply _. Defined.

Lemma preencode_hyper_peer_spec s p :
  hyper_peer_ok p -> preencode_hyper_peer s p = grow (len (wire_hyper_peer p)) s.
Proof.
  intros [Hk Hr]. unfold preencode_hyper_peer, wire_hyper_peer.
  rewrite preencode_peers4_spec, grow_grow, len_app, (fixed_ok_len 32 (hp_public_key p)) by done. done.
Qed.
Lemma Writes_hyper_peer p : hyper_peer_ok p -> Writes (encode_hyper_peer p) (wire_hyper_peer p).
Proof. intros [Hk Hr]. unfold encode_hyper_peer, wire_hyper_peer. writes_step. auto with writes. Qed.
Lemma Reads_hyper_peer p : hyper_peer_ok p -> Reads decode_hyper_peer (wire_hyper_peer p) p.
Proof.
  destruct p as [pk ra]. intros [Hk Hr]. unfold decode_hyper_peer, wire_hyper_peer.
  cbn in *. reads_step. reads_last.
Qed.
#[export] Hint Resolve Writes_hyper_peer : writes.
#[export] Hint Resolve Reads_hyper_peer : reads.

#[global] Instance hyper_peer_codec : Codec HyperPeer := {|
  c_preencode_spec := preencode_hyper_peer_spec;
  c_encode_spec := Writes_hyper_peer; c_decode_spec := Reads_hyper_peer
|}.

(** ** AnnounceMessage *)

Definition wire_announce (m : AnnounceMessage) : list Z :=
  [announce_flags m] ++ wire_opt (an_peer m) wire_hyper_peer ++
  wire_opt (an_refresh m) id ++ wire_opt (an_signature m) id ++
  (if negb (an_bump m =? 0) then wire_uint (an_bump m) else []).
Record announce_ok (m : AnnounceMessage) : Prop := {
  ann_peer : opt_ok hyper_peer_ok (an_peer m);
  ann_refresh : opt_ok (fixed_ok 32) (an_refresh m);
  ann_signature : opt_ok (fixed_ok 64) (an_signature m);
  ann_bump : in_u 64 (an_bump m)
}.

Lemma bits4_has a b c d :
  let flags := Z.lor (Z.lor (Z.lor (bit a 1) (bit b 2)) (bit c 4)) (bit d 8) in
  small flags /\ has flags 1 = a /\ has flags 2 = b /\ has flags 4 = c /\ has flags 8 = d.
Proof. unfold small. destruct a, b, c, d; cbv; split_and!; done. Qed.

Lemma announce_flags_has m :
  small (announce_flags m) /\ has (announce_flags m) FLAG_PEER = is_some (an_peer m) /\
  has (announce_flags m) FLAG_REFRESH = is_some (an_refresh m) /\
  has (announce_flags m) FLAG_SIGNATURE = is_some (an_signature m) /\
  has (announce_flags m) FLAG_BUMP = negb (an_bump m =? 0).
Proof. apply bits4_has. Qed.

Lemma Writes_flags z : small z -> Writes (encode_uint z) [z].
Proof. intros H. rewrite <- wire_small by done. by apply Writes_uint, small_u64. Qed.
Lemma Reads_flags z : small z -> Reads decode_uint [z] z.
Proof. intros H. rewrite <- wire_small by done. by apply Reads_uint, small_u64. Qed.
#[export] Hint Resolve Writes_flags : writes.
#[export] Hint Resolve Reads_flags : reads.

Lemma preencode_announce_spec s m :
  announce_ok m -> preencode_announce s m = grow (len (wire_announce m)) s.
Proof.
  intros []. unfold preencode_announce, wire_announce. cbv zeta.
  fold (pre_some (an_peer m) preencode_hyper_peer (grow 1 s)).
  rewrite (pre_some_spec hyper_peer_ok wire_hyper_peer) by auto using preencode_hyper_peer_spec.
  rewrite pre_opt32, pre_opt64 by done.
  rewrite (pre_when_spec _ (fun s => preencode_uint s _) (wire_uint (an_bump m)))
    by apply preencode_uint_spec.
  rewrite !grow_grow. f_equal. lens. lia.
Qed.

Lemma Writes_announce m : announce_ok m -> Writes (encode_announce m) (wire_announce m).
Proof.
  intros []. destruct (announce_flags_has m) as [Hf _].
  unfold encode_announce, wire_announce. do 4 writes_step. auto with writes.
Qed.

Lemma eqb_default_0 z : negb (z =? 0) = false -> z = 0.
Proof. destruct (Z.eqb_spec z 0); done. Qed.
Lemma empty_default {A} (l : list A) : negb (is_empty l) = false -> l = [].
Proof. by destruct l. Qed.
#[export] Hint Resolve eqb_default_0 empty_default : reads.

Lemma Reads_announce m : announce_ok m -> Reads decode_announce (wire_announce m) m.
Proof.
  intros Hm. destruct (announce_flags_has m) as (Hf & H1 & H2 & H3 & H4).
  unfold decode_announce, wire_announce. reads_step. rewrite H1, H2, H3, H4.
  destruct m, Hm. cbn in *. do 3 reads_step. reads_last.
Qed.

#[global] Instance announce_codec : Codec AnnounceMessage := {|
  c_preencode_spec := preencode_announce_spec;
  c_encode_spec := Writes_announce; c_decode_spec := Reads_announce
|}.

(** ** LookupRawReply *)

Definition wire_lookup (m : LookupRawReply) : list Z :=
  wire_uint (len (lk_peers m)) ++ (lk_peers m ≫= wire_hyper_peer) ++ wire_uint (lk_bump m).
(** The only bound on the count is the one the allocation sets. *)
Record lookup_ok (m : LookupRawReply) : Prop := {
  lkv_count : 56 * len (lk_peers m) <= 2 ^ 63 - 1;
  lkv_peers : Forall hyper_peer_ok (lk_peers m);
  lkv_bump : in_u 64 (lk_bump m)
}.

Lemma lookup_count m : lookup_ok m -> in_u 64 (len (lk_peers m)).
Proof. intros [H _ _]. pose proof (len_nonneg (lk_peers m)). words. lia. Qed.

Lemma foldl_grow_spec {A} (pre : State -> A -> State) (w : A -> list Z) P l s :
  (forall s a, P a -> pre s a = grow (len (w a)) s) -> Forall P l ->
  foldl pre s l = grow (len (l ≫= w)) s.
Proof.
  intros Hp Hl. revert s. induction Hl as [|a l Ha _ IH]; intros s; cbn [foldl mbind list_bind].
  - change (len []) with 0. by rewrite grow_0.
  - rewrite IH, Hp, grow_grow, len_app by done. done.
Qed.

Lemma preencode_lookup_spec s m :
  lookup_ok m -> preencode_lookup_raw_reply s m = grow (len (wire_lookup m)) s.
Proof.
  intros Hm. unfold preencode_lookup_raw_reply, wire_lookup, as_u64.
  rewrite as_u_id by (by apply lookup_count). destruct Hm.
  rewrite (foldl_grow_spec _ wire_hyper_peer hyper_peer_ok) by eauto using preencode_hyper_peer_spec.
  rewrite !preencode_uint_spec, !grow_grow. f_equal. lens. lia.
Qed.

Lemma Writes_lookup m : lookup_ok m -> Writes (encode_lookup_raw_reply m) (wire_lookup m).
Proof.
  intros Hm. unfold encode_lookup_raw_reply, wire_lookup, as_u64.
  rewrite as_u_id by (by apply lookup_count). pose proof (lookup_count m Hm). destruct Hm.
  writes_step. apply Writes_bind; [|auto with writes].
  apply Writes_for. eapply Forall_impl; [done|]. apply Writes_hyper_peer.
Qed.

Lemma wire_uint_pos z : 0 < len (wire_uint z).
Proof.
  unfold wire_uint.
  repeat case_match; rewrite ?len_cons, ?len_to_le; change (len []) with 0; lia.
Qed.

(** The trailing field is present because it is never empty. *)
Lemma Reads_remaining {A} (m1 m2 : Enc A) bs a :
  0 < len bs -> Reads m1 bs a ->
  Reads (s ← get; if start s <? end_ s then m1 else m2) bs a.
Proof.
  intros Hp H pre post. erewrite bind_ok by reflexivity. cbn [start end_].
  rewrite (proj2 (Z.ltb_lt _ _)); [apply H|]. lens. pose proof (len_nonneg post). lia.
Qed.

Lemma Reads_assoc {A B C} (m : Enc A) (f : A -> Enc B) (g : B -> Enc C) bs c :
  Reads ((m ≫= f) ≫= g) bs c -> Reads (m ≫= (fun x => f x ≫= g)) bs c.
Proof. intros H pre post. rewrite <- bind_assoc. apply H. Qed.

Lemma Reads_lookup m : lookup_ok m -> Reads decode_lookup_raw_reply (wire_lookup m) m.
Proof.
  intros Hm. pose proof (lookup_count m Hm). destruct m as [ps b], Hm. cbn in *.
  unfold decode_lookup_raw_reply, wire_lookup. cbn.
  reads_step. apply Reads_bind_nil with tt.
  { unfold with_capacity. rewrite (proj2 (Z.leb_le _ _)) by done. apply Reads_ret. }
  rewrite to_nat_len. eapply Reads_bind.
  { apply Reads_repeat. eapply Forall_impl; [done|]. apply Reads_hyper_peer. }
  apply Reads_assoc. eapply Reads_bind_last; [|apply Reads_ret].
  apply Reads_remaining; [apply wire_uint_pos|auto with reads].
Qed.

#[global] Instance lookup_codec : Codec LookupRawReply := {|
  c_preencode_spec := preencode_lookup_spec;
  c_encode_spec := Writes_lookup; c_decode_spec := Reads_lookup
|}.

(** ** Mutable records *)

Definition wire_mutable_put (m : MutablePutRequest) : list Z :=
  mp_public_key m ++ wire_uint (mp_seq m) ++ wire_vec (mp_value m) ++ mp_signature m.
Record mutable_put_ok (m : MutablePutRequest) : Prop := {
  mpv_public_key : fixed_ok 32 (mp_public_key m);
  mpv_seq : in_u 64 (mp_seq m);
  mpv_value : fits (mp_value m);
  mpv_signature : fixed_ok 64 (mp_signature m)
}.

(** Close a size equation once every field has become a [grow]. *)
Ltac grows :=
  rewrite ?preencode_uint_spec, ?grow_grow; f_equal; lens;
  repeat match goal with
  | H : fixed_ok ?n ?bs |- context [len ?bs] => rewrite (fixed_ok_len n bs H)
  end; lia.

Lemma preencode_mutable_put_spec s m :
  mutable_put_ok m -> preencode_mutable_put_request s m = grow (len (wire_mutable_put m)) s.
Proof.
  intros []. unfold preencode_mutable_put_request, wire_mutable_put.
  rewrite preencode_vec_spec by done. grows.
Qed.
Lemma Writes_mutable_put m :
  mutable_put_ok m -> Writes (encode_mutable_put_request m) (wire_mutable_put m).
Proof.
  intros []. unfold encode_mutable_put_request, wire_mutable_put.
  do 3 writes_step. eauto with writes.
Qed.
Lemma Reads_mutable_put m :
  mutable_put_ok m -> Reads decode_mutable_put_request (wire_mutable_put m) m.
Proof.
  destruct m. intros []. unfold decode_mutable_put_request, wire_mutable_put. cbn in *.
  do 3 reads_step. reads_last.
Qed.
#[global] Instance mutable_put_codec : Codec MutablePutRequest := {|
  c_preencode_spec := preencode_mutable_put_spec;
  c_encode_spec := Writes_mutable_put; c_decode_spec := Reads_mutable_put
|}.

Definition wire_mutable_get (m : MutableGetResponse) : list Z :=
  wire_uint (mg_seq m) ++ wire_vec (mg_value m) ++ mg_signature m.
Record mutable_get_ok (m : MutableGetResponse) : Prop := {
  mgv_seq : in_u 64 (mg_seq m);
  mgv_value : fits (mg_value m);
  mgv_signature : fixed_ok 64 (mg_signature m)
}.

Lemma preencode_mutable_get_spec s m :
  mutable_get_ok m -> preencode_mutable_get_response s m = grow (len (wire_mutable_get m)) s.
Proof.
  intros []. unfold preencode_mutable_get_response, wire_mutable_get.
  rewrite preencode_vec_spec by done. grows.
Qed.
Lemma Writes_mutable_get m :
  mutable_get_ok m -> Writes (encode_mutable_get_response m) (wire_mutable_get m).
Proof.
  intros []. unfold encode_mutable_get_response, wire_mutable_get.
  do 2 writes_step. eauto with writes.
Qed.
Lemma Reads_mutable_get m :
  mutable_get_ok m -> Reads decode_mutable_get_response (wire_mutable_get m) m.
Proof.
  destruct m. intros []. unfold decode_mutable_get_response, wire_mutable_get. cbn in *.
  do 2 reads_step. reads_last.
Qed.
#[global] Instance mutable_get_codec : Codec MutableGetResponse := {|
  c_preencode_spec := preencode_mutable_get_spec;
  c_encode_spec := Writes_mutable_get; c_decode_spec := Reads_mutable_get
|}.

Definition wire_mutable_signable (m : MutableSignable) : list Z :=
  wire_uint (ms_seq m) ++ wire_vec (ms_value m).
Record mutable_signable_ok (m : MutableSignable) : Prop := {
  msv_seq : in_u 64 (ms_seq m);
  msv_value : fits (ms_value m)
}.

Lemma preencode_mutable_signable_spec s m :
  mutable_signable_ok m ->
  preencode_mutable_signable s m = grow (len (wire_mutable_signable m)) s.
Proof.
  intros []. unfold preencode_mutable_signable, wire_mutable_signable.
  rewrite preencode_vec_spec by done. grows.
Qed.
Lemma Writes_mutable_signable m :
  mutable_signable_ok m -> Writes (encode_mutable_signable m) (wire_mutable_signable m).
Proof.
  intros []. unfold encode_mutable_signable, wire_mutable_signable.
  writes_step. eauto with writes.
Qed.
Lemma Reads_mutable_signable m :
  mutable_signable_ok m -> Reads decode_mutable_signable (wire_mutable_signable m) m.
Proof.
  destruct m. intros []. unfold decode_mutable_signable, wire_mutable_signable. cbn in *.
  reads_step. reads_last.
Qed.
#[global] Instance mutable_signable_codec : Codec MutableSignable := {|
  c_preencode_spec := preencode_mutable_signable_spec;
  c_encode_spec := Writes_mutable_signable; c_decode_spec := Reads_mutable_signable
|}.

(** ** HandshakeMessage and HolepunchMessage *)

Definition wire_handshake (m : HandshakeMessage) : list Z :=
  [handshake_flags m] ++ wire_uint (hs_mode m) ++ wire_vec (hs_noise m) ++
  wire_opt (hs_peer_address m) wire_peer ++ wire_opt (hs_relay_address m) wire_peer.
Record handshake_ok (m : HandshakeMessage) : Prop := {
  hsv_mode : in_u 64 (hs_mode m);
  hsv_noise : fits (hs_noise m);
  hsv_peer : opt_ok peer_ok (hs_peer_address m);
  hsv_relay : opt_ok peer_ok (hs_relay_address m)
}.

Lemma handshake_flags_has m :
  small (handshake_flags m) /\ has (handshake_flags m) 1 = is_some (hs_peer_address m) /\
  has (handshake_flags m) 2 = is_some (hs_relay_address m).
Proof.
  unfold handshake_flags, small.
  destruct (is_some (hs_peer_address m)), (is_some (hs_relay_address m)); cbv; split_and!; done.
Qed.

Lemma preencode_handshake_spec s m :
  handshake_ok m -> preencode_handshake s m = grow (len (wire_handshake m)) s.
Proof.
  intros []. unfold preencode_handshake, wire_handshake.
  rewrite !pre_opt_addr, preencode_vec_spec by done.
  rewrite !preencode_uint_spec. change (len (wire_uint 0)) with 1. grows.
Qed.
Lemma Writes_handshake m : handshake_ok m -> Writes (encode_handshake m) (wire_handshake m).
Proof.
  intros []. destruct (handshake_flags_has m) as [Hf _].
  unfold encode_handshake, wire_handshake. do 4 writes_step. eauto with writes.
Qed.
Lemma Reads_handshake m : handshake_ok m -> Reads decode_handshake (wire_handshake m) m.
Proof.
  intros Hm. destruct (handshake_flags_has m) as (Hf & H1 & H2).
  unfold decode_handshake, wire_handshake. reads_step. rewrite H1, H2.
  destruct m, Hm. cbn in *. do 3 reads_step. reads_last.
Qed.
#[global] Instance handshake_codec : Codec HandshakeMessage := {|
  c_preencode_spec := preencode_handshake_spec;
  c_encode_spec := Writes_handshake; c_decode_spec := Reads_handshake
|}.

Definition wire_holepunch_msg (m : HolepunchMessage) : list Z :=
  [bit (is_some (hm_peer_address m)) 1] ++ wire_uint (hm_mode m) ++ wire_uint (hm_id m) ++
  wire_vec (hm_payload m) ++ wire_opt (hm_peer_address m) wire_peer.
Record holepunch_msg_ok (m : HolepunchMessage) : Prop := {
  hmv_mode : in_u 64 (hm_mode m);
  hmv_id : in_u 64 (hm_id m);
  hmv_payload : fits (hm_payload m);
  hmv_peer : opt_ok peer_ok (hm_peer_address m)
}.

Lemma bit1_has b : small (bit b 1) /\ has (bit b 1) 1 = b.
Proof. unfold small. destruct b; cbv; split_and!; done. Qed.

Lemma preencode_holepunch_msg_spec s m :
  holepunch_msg_ok m -> preencode_holepunch_msg s m = grow (len (wire_holepunch_msg m)) s.
Proof.
  intros []. unfold preencode_holepunch_msg, wire_holepunch_msg.
  rewrite !pre_opt_addr, preencode_vec_spec by done.
  rewrite !preencode_uint_spec. change (len (wire_uint 0)) with 1. grows.
Qed.
Lemma Writes_holepunch_msg m :
  holepunch_msg_ok m -> Writes (encode_holepunch_msg m) (wire_holepunch_msg m).
Proof.
  intros []. destruct (bit1_has (is_some (hm_peer_address m))) as [Hf _].
  unfold encode_holepunch_msg, wire_holepunch_msg. do 4 writes_step. eauto with writes.
Qed.
Lemma Reads_holepunch_msg m :
  holepunch_msg_ok m -> Reads decode_holepunch_msg (wire_holepunch_msg m) m.
Proof.
  intros Hm. destruct (bit1_has (is_some (hm_peer_address m))) as [Hf H1].
  unfold decode_holepunch_msg, wire_holepunch_msg. reads_step. rewrite H1.
  destruct m, Hm. cbn in *. do 3 reads_step. reads_last.
Qed.
#[global] Instance holepunch_msg_codec : Codec HolepunchMessage := {|
  c_preencode_spec := preencode_holepunch_msg_spec;
  c_encode_spec := Writes_holepunch_msg; c_decode_spec := Reads_holepunch_msg
|}.
