(* ===== verification/PayloadWire.v ===== *)
(** * PayloadWire: the encrypted payloads of the handshake and the hole punch

    Wire formats and codecs of [NoisePayload], [HolepunchPayload] and their
    parts. *)

From S2P Require Import Prelude RustStd CompactEncoding Codec Messages HyperdhtMessages HyperdhtWire.
From Stdlib Require Import Ascii.

#[local] Open Scope Z_scope.

(** ** The parts of the Noise payload *)

Definition wire_relay_info (m : RelayInfo) : list Z :=
  wire_peer (ri_relay_address m) ++ wire_peer (ri_peer_address m).
Definition relay_info_ok (m : RelayInfo) : Prop :=
  peer_ok (ri_relay_address m) /\ peer_ok (ri_peer_address m).
#[global] Instance relay_info_ok_dec m : Decision (relay_info_ok m).
Proof. unfold relay_info_ok. apply _. Defined.

Lemma preencode_relay_info_spec s m :
  relay_info_ok m -> preencode_relay_info s m = grow (len (wire_relay_info m)) s.
Proof.
  intros []. unfold preencode_relay_info, wire_relay_info.
  by rewrite len_app, !peer_ok_len.
Qed.
Lemma Writes_relay_info m : relay_info_ok m -> Writes (encode_relay_info m) (wire_relay_info m).
Proof. intros []. unfold encode_relay_info, wire_relay_info. writes_step. eauto with writes. Qed.
Lemma Reads_relay_info m : relay_info_ok m -> Reads decode_relay_info (wire_relay_info m) m.
Proof.
  destruct m. intros []. unfold decode_relay_info, wire_relay_info. cbn in *.
  reads_step. reads_last.
Qed.

Definition wire_holepunch_info (m : HolepunchInfo) : list Z :=
  wire_uint (hi_id m) ++ wire_array wire_relay_info (hi_relays m).
Definition holepunch_info_ok (m : HolepunchInfo) : Prop :=
  in_u 64 (hi_id m) /\ array_valid relay_info_ok (hi_relays m).
#[global] Instance holepunch_info_ok_dec m : Decision (holepunch_info_ok m).
Proof. unfold holepunch_info_ok, array_valid. apply _. Defined.

Lemma preencode_holepunch_info_spec s m :
  holepunch_info_ok m -> preencode_holepunch_info s m = grow (len (wire_holepunch_info m)) s.
Proof.
  intros [Hi Hr]. unfold preencode_holepunch_info, preencode_relay_info_array, wire_holepunch_info.
  rewrite (preencode_array_spec relay_info_ok wire_relay_info) by auto using preencode_relay_info_spec.
  grows.
Qed.
Lemma Writes_holepunch_info m :
  holepunch_info_ok m -> Writes (encode_holepunch_info m) (wire_holepunch_info m).
Proof.
  intros [Hi Hr]. unfold encode_holepunch_info, wire_holepunch_info. writes_step.
  apply (Writes_array relay_info_ok); auto using Writes_relay_info.
Qed.
Lemma Reads_holepunch_info m :
  holepunch_info_ok m -> Reads decode_holepunch_info (wire_holepunch_info m) m.
Proof.
  destruct m. intros [Hi Hr]. unfold decode_holepunch_info, wire_holepunch_info. cbn in *.
  reads_step. eapply Reads_bind_last; [|apply Reads_ret].
  by apply (Reads_array 64 relay_info_ok); auto using Reads_relay_info.
Qed.

(** The encoder always writes version 1, whatever the field holds. *)
Definition wire_udx_info (m : UdxInfo) : list Z :=
  [1] ++ [if ux_reusable_socket m then 1 else 0] ++ wire_uint (ux_id m) ++ wire_uint (ux_seq m).
Definition udx_info_ok (m : UdxInfo) : Prop :=
  ux_version m = 1 /\ in_u 64 (ux_id m) /\ in_u 64 (ux_seq m).
#[global] Instance udx_info_ok_dec m : Decision (udx_info_ok m).
Proof. unfold udx_info_ok. apply _. Defined.

Lemma preencode_udx_info_spec s m :
  udx_info_ok m -> preencode_udx_info s m = grow (len (wire_udx_info m)) s.
Proof. intros _. unfold preencode_udx_info, wire_udx_info. grows. Qed.
Lemma Writes_udx_info m : udx_info_ok m -> Writes (encode_udx_info m) (wire_udx_info m).
Proof.
  intros (_ & Hi & Hs). unfold encode_udx_info, wire_udx_info.
  apply Writes_bind; [by apply Writes_flags|].
  apply Writes_bind; [apply Writes_flags; by destruct (ux_reusable_socket m)|].
  writes_step. auto with writes.
Qed.
Lemma Reads_udx_info m : udx_info_ok m -> Reads decode_udx_info (wire_udx_info m) m.
Proof.
  destruct m as [v b i q]. intros (Hv & Hi & Hs). cbn in Hv, Hi, Hs. subst v.
  unfold decode_udx_info, wire_udx_info. cbn [ux_reusable_socket ux_id ux_seq].
  eapply Reads_bind; [by apply Reads_flags|].
  eapply Reads_bind; [apply Reads_flags; by destruct b|].
  reads_step. eapply Reads_bind_last; [eauto with reads|].
  replace (has (if b then 1 else 0) 1) with b by (by destruct b). apply Reads_ret.
Qed.

Definition wire_secret_stream_info (_ : SecretStreamInfo) : list Z := [1].
Definition secret_stream_info_ok (m : SecretStreamInfo) : Prop := si_version m = 1.
#[global] Instance secret_stream_info_ok_dec m : Decision (secret_stream_info_ok m).
Proof. unfold secret_stream_info_ok. apply _. Defined.

Lemma preencode_secret_stream_info_spec s m :
  secret_stream_info_ok m ->
  preencode_secret_stream_info s m = grow (len (wire_secret_stream_info m)) s.
Proof. done. Qed.
Lemma Writes_secret_stream_info m :
  secret_stream_info_ok m -> Writes (encode_secret_stream_info m) (wire_secret_stream_info m).
Proof. intros _. by apply Writes_flags. Qed.
Lemma Reads_secret_stream_info m :
  secret_stream_info_ok m -> Reads decode_secret_stream_info (wire_secret_stream_info m) m.
Proof.
  destruct m as [v]. intros H. unfold secret_stream_info_ok in H. cbn in H. subst v.
  eapply Reads_bind_last; [by apply Reads_flags|apply Reads_ret].
Qed.

Definition wire_relay_through_info (m : RelayThroughInfo) : list Z :=
  [1] ++ [0] ++ rt_public_key m ++ rt_token m.
Definition relay_through_info_ok (m : RelayThroughInfo) : Prop :=
  rt_version m = 1 /\ fixed_ok 32 (rt_public_key m) /\ fixed_ok 32 (rt_token m).
#[global] Instance relay_through_info_ok_dec m : Decision (relay_through_info_ok m).
Proof. unfold relay_through_info_ok. apply _. Defined.

Lemma preencode_relay_through_info_spec s m :
  relay_through_info_ok m ->
  preencode_relay_through_info s m = grow (len (wire_relay_through_info m)) s.
Proof.
  intros (_ & Hk & Ht). unfold preencode_relay_through_info, wire_relay_through_info.
  rewrite !preencode_uint_spec. change (len (wire_uint 0)) with 1.
  change (len (wire_uint 1)) with 1. grows.
Qed.
Lemma Writes_relay_through_info m :
  relay_through_info_ok m -> Writes (encode_relay_through_info m) (wire_relay_through_info m).
Proof.
  intros (_ & Hk & Ht). unfold encode_relay_through_info, wire_relay_through_info.
  do 2 (apply Writes_bind; [by apply Writes_flags|]). writes_step. eauto with writes.
Qed.
Lemma Reads_relay_through_info m :
  relay_through_info_ok m -> Reads decode_relay_through_info (wire_relay_through_info m) m.
Proof.
  destruct m as [v k t]. intros (Hv & Hk & Ht). cbn in Hv, Hk, Ht. subst v.
  unfold decode_relay_through_info, wire_relay_through_info. cbn [rt_public_key rt_token].
  do 2 (eapply Reads_bind; [by apply Reads_flags|]). reads_step. reads_last.
Qed.

#[export] Hint Resolve Writes_holepunch_info Writes_udx_info Writes_secret_stream_info
  Writes_relay_through_info : writes.
#[export] Hint Resolve Reads_holepunch_info Reads_udx_info Reads_secret_stream_info
  Reads_relay_through_info : reads.

(** ** NoisePayload *)

Definition wire_noise_payload (m : NoisePayload) : list Z :=
  [1] ++ [noise_flags m] ++ [np_error m] ++ [np_firewall m] ++
  wire_opt (np_holepunch m) wire_holepunch_info ++
  (if negb (is_empty (np_addresses4 m)) then wire_peers (np_addresses4 m) else []) ++
  (if negb (is_empty (np_addresses6 m)) then wire_peers6 (np_addresses6 m) else []) ++
  wire_opt (np_udx m) wire_udx_info ++
  wire_opt (np_secret_stream m) wire_secret_stream_info ++
  wire_opt (np_relay_through m) wire_relay_through_info ++
  wire_opt (np_relay_addresses m) wire_peers.
Record noise_payload_ok (m : NoisePayload) : Prop := {
  npv_version : np_version m = 1;
  npv_error : small (np_error m);
  npv_firewall : small (np_firewall m);
  npv_holepunch : opt_ok holepunch_info_ok (np_holepunch m);
  npv_addresses4 : peers_ok (np_addresses4 m);
  npv_addresses6 : peers6_ok (np_addresses6 m);
  npv_udx : opt_ok udx_info_ok (np_udx m);
  npv_secret_stream : opt_ok secret_stream_info_ok (np_secret_stream m);
  npv_relay_through : opt_ok relay_through_info_ok (np_relay_through m);
  npv_relay_addresses : opt_ok peers_ok (np_relay_addresses m)
}.

Lemma flags7_has a b c d e f g :
  let flags := set_flag g 64 (set_flag f 32 (set_flag e 16 (set_flag d 8
    (set_flag c 4 (set_flag b 2 (set_flag a 1 0)))))) in
  small flags /\ has flags 1 = a /\ has flags 2 = b /\ has flags 4 = c /\ has flags 8 = d /\
  has flags 16 = e /\ has flags 32 = f /\ has flags 64 = g.
Proof. unfold small. destruct a, b, c, d, e, f, g; cbv; split_and!; done. Qed.

Lemma noise_flags_has m :
  small (noise_flags m) /\
  has (noise_flags m) NP_FLAG_HOLEPUNCH = is_some (np_holepunch m) /\
  has (noise_flags m) NP_FLAG_ADDRESSES4 = negb (is_empty (np_addresses4 m)) /\
  has (noise_flags m) NP_FLAG_ADDRESSES6 = negb (is_empty (np_addresses6 m)) /\
  has (noise_flags m) NP_FLAG_UDX = is_some (np_udx m) /\
  has (noise_flags m) NP_FLAG_SECRET_STREAM = is_some (np_secret_stream m) /\
  has (noise_flags m) NP_FLAG_RELAY_THROUGH = is_some (np_relay_through m) /\
  has (noise_flags m) NP_FLAG_RELAY_ADDRESSES = is_some (np_relay_addresses m).
Proof. apply flags7_has. Qed.

Lemma preencode_noise_payload_spec s m :
  noise_payload_ok m -> preencode_noise_payload s m = grow (len (wire_noise_payload m)) s.
Proof.
  intros []. unfold preencode_noise_payload, wire_noise_payload. cbv zeta.
  rewrite (pre_some_spec peers_ok wire_peers),
    (pre_some_spec relay_through_info_ok wire_relay_through_info),
    (pre_some_spec secret_stream_info_ok wire_secret_stream_info),
    (pre_some_spec udx_info_ok wire_udx_info),
    (pre_some_spec holepunch_info_ok wire_holepunch_info)
    by auto using preencode_peers4_spec, preencode_relay_through_info_spec,
      preencode_secret_stream_info_spec, preencode_udx_info_spec, preencode_holepunch_info_spec.
  rewrite (pre_when_spec _ (fun s => preencode_ipv6_peer_array s _) (wire_peers6 (np_addresses6 m))),
    (pre_when_spec _ (fun s => preencode_ipv4_peer_array s _) (wire_peers (np_addresses4 m)))
    by auto using preencode_peers4_spec, preencode_peers6_spec.
  grows.
Qed.

Lemma Writes_noise_payload m :
  noise_payload_ok m -> Writes (encode_noise_payload m) (wire_noise_payload m).
Proof.
  intros []. destruct (noise_flags_has m) as [Hf _].
  unfold encode_noise_payload, wire_noise_payload.
  apply Writes_bind; [by apply Writes_flags|]. do 9 writes_step. eauto with writes.
Qed.

(** Project the fields, but leave the segments of the wire format apart. *)
Ltac simpl_noise :=
  cbn [np_version np_error np_firewall np_holepunch np_addresses4 np_addresses6 np_udx
    np_secret_stream np_relay_through np_relay_addresses] in *; subst.

Lemma Reads_noise_payload m :
  noise_payload_ok m -> Reads decode_noise_payload (wire_noise_payload m) m.
Proof.
  intros Hm. destruct (noise_flags_has m) as (Hf & H1 & H2 & H3 & H4 & H5 & H6 & H7).
  unfold decode_noise_payload, wire_noise_payload.
  eapply Reads_bind; [by apply Reads_flags|]. change (negb (1 =? 1)) with false. cbv iota.
  reads_step. rewrite H1, H2, H3, H4, H5, H6, H7.
  destruct m, Hm. simpl_noise. do 8 reads_step. reads_last.
Qed.
#[global] Instance noise_payload_codec : Codec NoisePayload := {|
  c_preencode_spec := preencode_noise_payload_spec;
  c_encode_spec := Writes_noise_payload; c_decode_spec := Reads_noise_payload
|}.

(** ** HolepunchPayload *)

Definition wire_holepunch_payload (m : HolepunchPayload) : list Z :=
  [holepunch_flags m] ++ [pl_error m] ++ [pl_firewall m] ++ [pl_round m] ++
  wire_opt (pl_addresses m) wire_peers ++ wire_opt (pl_remote_address m) wire_peer ++
  wire_opt (pl_token m) id ++ wire_opt (pl_remote_token m) id.
Record holepunch_payload_ok (m : HolepunchPayload) : Prop := {
  plv_error : small (pl_error m);
  plv_firewall : small (pl_firewall m);
  plv_round : small (pl_round m);
  plv_addresses : opt_ok peers_ok (pl_addresses m);
  plv_remote_address : opt_ok peer_ok (pl_remote_address m);
  plv_token : opt_ok (fixed_ok 32) (pl_token m);
  plv_remote_token : opt_ok (fixed_ok 32) (pl_remote_token m)
}.

Lemma flags6_has a b c d e f :
  let flags := set_flag f 32 (set_flag e 16 (set_flag d 8
    (set_flag c 4 (set_flag b 2 (set_flag a 1 0))))) in
  small flags /\ has flags 1 = a /\ has flags 2 = b /\ has flags 4 = c /\ has flags 8 = d /\
  has flags 16 = e /\ has flags 32 = f.
Proof. unfold small. destruct a, b, c, d, e, f; cbv; split_and!; done. Qed.

Lemma holepunch_flags_has m :
  small (holepunch_flags m) /\
  has (holepunch_flags m) HP_FLAG_CONNECTED = pl_connected m /\
  has (holepunch_flags m) HP_FLAG_PUNCHING = pl_punching m /\
  has (holepunch_flags m) HP_FLAG_ADDRESSES = is_some (pl_addresses m) /\
  has (holepunch_flags m) HP_FLAG_REMOTE_ADDRESS = is_some (pl_remote_address m) /\
  has (holepunch_flags m) HP_FLAG_TOKEN = is_some (pl_token m) /\
  has (holepunch_flags m) HP_FLAG_REMOTE_TOKEN = is_some (pl_remote_token m).
Proof. apply flags6_has. Qed.

Lemma preencode_holepunch_payload_spec s m :
  holepunch_payload_ok m ->
  preencode_holepunch_payload s m = grow (len (wire_holepunch_payload m)) s.
Proof.
  intros []. unfold preencode_holepunch_payload, wire_holepunch_payload. cbv zeta.
  rewrite !pre_opt32, pre_opt_addr, (pre_some_spec peers_ok wire_peers)
    by auto using preencode_peers4_spec.
  grows.
Qed.

Lemma Writes_holepunch_payload m :
  holepunch_payload_ok m -> Writes (encode_holepunch_payload m) (wire_holepunch_payload m).
Proof.
  intros []. destruct (holepunch_flags_has m) as [Hf _].
  unfold encode_holepunch_payload, wire_holepunch_payload. do 7 writes_step. eauto with writes.
Qed.

Ltac simpl_punch :=
  cbn [pl_error pl_firewall pl_round pl_connected pl_punching pl_addresses pl_remote_address
    pl_token pl_remote_token] in *.

Lemma Reads_holepunch_payload m :
  holepunch_payload_ok m -> Reads decode_holepunch_payload (wire_holepunch_payload m) m.
Proof.
  intros Hm. destruct (holepunch_flags_has m) as (Hf & H1 & H2 & H3 & H4 & H5 & H6).
  unfold decode_holepunch_payload, wire_holepunch_payload. reads_step.
  rewrite H1, H2, H3, H4, H5, H6.
  destruct m, Hm. simpl_punch.
  do 6 reads_step. reads_last.
Qed.
#[global] Instance holepunch_payload_codec : Codec HolepunchPayload := {|
  c_preencode_spec := preencode_holepunch_payload_spec;
  c_encode_spec := Writes_holepunch_payload; c_decode_spec := Reads_holepunch_payload
|}.
