(* ===== verification/HyperdhtTheorems.v ===== *)
(** * HyperdhtTheorems: what the HyperDHT codecs guarantee

    Round trips of every payload through the code's [*_to_bytes] and
    [*_from_bytes] functions, safety of the decoders on arbitrary bytes, and
    the two places where a codec panics. *)

From S2P Require Import Prelude RustStd CompactEncoding Codec Messages.
From S2P Require Import HyperdhtMessages HyperdhtWire PayloadWire.
From Stdlib Require Import Ascii.

#[local] Open Scope Z_scope.

(** ** Decoders on arbitrary bytes *)

Lemma Decodes_buffer_fits : Decodes decode_buffer (opt_ok fits).
Proof.
  eapply Decodes_bind; [apply Decodes_uint|]. intros n [Hn Hn'].
  apply Decodes_if; intros _; [by apply Decodes_ret|].
  apply (Decodes_slice Some); [done|]. intros bs _ Hl b [= <-]. unfold fits. lia.
Qed.
Lemma Decodes_vec : Decodes decode_vec fits.
Proof.
  eapply Decodes_fmap; [apply Decodes_buffer_fits|]. intros [b|] H; [by apply H|done].
Qed.

Lemma Decodes_addr4 : Decodes decode_addr4 peer_ok.
Proof.
  eapply (Decodes_bind _ _ (fun '(h, p) => ipv4_host h /\ in_u 16 p)).
  - eapply Decodes_bind; [apply Decodes_ipv4|]. intros h Hh.
    eapply Decodes_bind; [apply Decodes_uint16|]. intros p Hp. by apply Decodes_ret.
  - intros [h p] Hp. by apply Decodes_ret.
Qed.
Definition port_ok (p : Ipv4Peer) : Prop := in_u 16 (port p).
Lemma Decodes_addr6 : Decodes decode_addr6 port_ok.
Proof.
  eapply (Decodes_bind _ _ (fun '(h, p) => in_u 16 p)).
  - eapply Decodes_bind; [apply Decodes_ipv6|]. intros h Hh.
    eapply Decodes_bind; [apply Decodes_uint16|]. intros p Hp. by apply Decodes_ret.
  - intros [h p] Hp. by apply Decodes_ret.
Qed.

Lemma Decodes_peers4 : Decodes decode_ipv4_peer_array peers_ok.
Proof. by apply Decodes_array, Decodes_addr4. Qed.
Lemma Decodes_peers6 : Decodes decode_ipv6_peer_array (array_valid port_ok).
Proof. by apply Decodes_array, Decodes_addr6. Qed.
Lemma array_valid_nil {A} (P : A -> Prop) : array_valid P [].
Proof. by split. Qed.

Lemma Decodes_hyper_peer : Decodes decode_hyper_peer hyper_peer_ok.
Proof.
  eapply Decodes_bind; [apply Decodes_fixed32|]. intros pk Hpk.
  eapply Decodes_bind; [apply Decodes_peers4|]. intros ra Hra. by apply Decodes_ret.
Qed.
#[export] Hint Resolve Decodes_vec Decodes_addr4 Decodes_addr6 Decodes_peers4 Decodes_peers6
  Decodes_hyper_peer array_valid_nil : decodes.

Ltac decodes_end := apply Decodes_ret; done || by constructor.

Lemma Decodes_announce : Decodes decode_announce announce_ok.
Proof. unfold decode_announce. do 5 decodes_step. decodes_end. Qed.
Lemma Decodes_mutable_put : Decodes decode_mutable_put_request mutable_put_ok.
Proof. unfold decode_mutable_put_request. do 4 decodes_step. decodes_end. Qed.
Lemma Decodes_mutable_get : Decodes decode_mutable_get_response mutable_get_ok.
Proof. unfold decode_mutable_get_response. do 3 decodes_step. decodes_end. Qed.
Lemma Decodes_mutable_signable : Decodes decode_mutable_signable mutable_signable_ok.
Proof. unfold decode_mutable_signable. do 2 decodes_step. decodes_end. Qed.
Lemma Decodes_handshake : Decodes decode_handshake handshake_ok.
Proof. unfold decode_handshake. do 5 decodes_step. decodes_end. Qed.
Lemma Decodes_holepunch_msg : Decodes decode_holepunch_msg holepunch_msg_ok.
Proof. unfold decode_holepunch_msg. do 5 decodes_step. decodes_end. Qed.

(** The payloads as they arrive: the codes are 64-bit, not one byte, and a
    version other than 1 is passed on with every other field empty. *)
Record noise_payload_typed (m : NoisePayload) : Prop := {
  npt_version : in_u 64 (np_version m);
  npt_error : in_u 64 (np_error m);
  npt_firewall : in_u 64 (np_firewall m);
  npt_holepunch : opt_ok holepunch_info_ok (np_holepunch m);
  npt_addresses4 : peers_ok (np_addresses4 m);
  npt_addresses6 : array_valid port_ok (np_addresses6 m);
  npt_udx : opt_ok (fun u => in_u 64 (ux_id u) /\ in_u 64 (ux_seq u)) (np_udx m);
  npt_relay_through :
    opt_ok (fun r => fixed_ok 32 (rt_public_key r) /\ fixed_ok 32 (rt_token r)) (np_relay_through m);
  npt_relay_addresses : opt_ok peers_ok (np_relay_addresses m);
  npt_other_version :
    np_version m <> 1 -> m = mkNoisePayload (np_version m) 0 0 None [] [] None None None None
}.
Record holepunch_payload_typed (m : HolepunchPayload) : Prop := {
  plt_error : in_u 64 (pl_error m);
  plt_firewall : in_u 64 (pl_firewall m);
  plt_round : in_u 64 (pl_round m);
  plt_addresses : opt_ok peers_ok (pl_addresses m);
  plt_remote_address : opt_ok peer_ok (pl_remote_address m);
  plt_token : opt_ok (fixed_ok 32) (pl_token m);
  plt_remote_token : opt_ok (fixed_ok 32) (pl_remote_token m)
}.

Lemma Decodes_relay_info : Decodes decode_relay_info relay_info_ok.
Proof. unfold decode_relay_info. do 2 decodes_step. decodes_end. Qed.
Lemma Decodes_relay_info_array : Decodes decode_relay_info_array (array_valid relay_info_ok).
Proof. by apply Decodes_array, Decodes_relay_info. Qed.
#[export] Hint Resolve Decodes_relay_info_array : decodes.
Lemma Decodes_holepunch_info : Decodes decode_holepunch_info holepunch_info_ok.
Proof. unfold decode_holepunch_info. do 2 decodes_step. decodes_end. Qed.
Lemma Decodes_udx_info :
  Decodes decode_udx_info (fun u => in_u 64 (ux_id u) /\ in_u 64 (ux_seq u)).
Proof. unfold decode_udx_info. do 4 decodes_step. decodes_end. Qed.
Lemma Decodes_secret_stream_info : Decodes decode_secret_stream_info (fun _ => True).
Proof. unfold decode_secret_stream_info. decodes_step. decodes_end. Qed.
Lemma Decodes_relay_through_info :
  Decodes decode_relay_through_info
    (fun r => fixed_ok 32 (rt_public_key r) /\ fixed_ok 32 (rt_token r)).
Proof. unfold decode_relay_through_info. do 4 decodes_step. by apply Decodes_ret. Qed.
#[export] Hint Resolve Decodes_holepunch_info Decodes_udx_info Decodes_secret_stream_info
  Decodes_relay_through_info : decodes.

Lemma Decodes_noise_payload : Decodes decode_noise_payload noise_payload_typed.
Proof.
  unfold decode_noise_payload. decodes_step. apply Decodes_if; intros Hv.
  - apply Decodes_ret. constructor; cbn; eauto with decodes; by intros ? ?.
  - do 10 decodes_step. apply Decodes_ret. constructor; cbn; eauto.
    intros Hn. by apply Z.eqb_neq in Hn; rewrite Hn in Hv.
Qed.
Lemma Decodes_holepunch_payload : Decodes decode_holepunch_payload holepunch_payload_typed.
Proof. unfold decode_holepunch_payload. do 8 decodes_step. by apply Decodes_ret. Qed.

(** ** Encoders that run out of buffer *)

(** [m] panics when exactly [n] bytes are left. *)
Definition Panics (m : Enc unit) (n : Z) : Prop :=
  forall pre rest en, len rest = n -> exists s, m (mkState (len pre) en (pre ++ rest)) = (Panic, s).

Lemma Panics_bind_l m1 m2 n : Panics m1 n -> Panics (m1 ;; m2) n.
Proof.
  intros H pre rest en Hn. destruct (H pre rest en Hn) as [s Hs]. exists s.
  by apply bind_panic.
Qed.

Lemma Panics_bind_r m1 m2 bs n :
  0 <= n -> Writes m1 bs -> Panics m2 n -> Panics (m1 ;; m2) (len bs + n).
Proof.
  intros Hn Hw Hp pre rest en Hl. unfold len in Hl. rewrite <- (take_drop (length bs) rest).
  erewrite bind_ok by (apply Hw; rewrite length_take; lia).
  rewrite <- len_app, app_assoc. apply Hp. unfold len. rewrite length_drop. lia.
Qed.
Lemma Panics_copy bs n : n < len bs -> Panics (copy_from_slice bs) n.
Proof.
  intros Hn pre rest en Hl. unfold copy_from_slice. cbn [start buffer]. eexists.
  rewrite (proj2 (andb_false_iff _ _)); [reflexivity|]. right. lens. apply Z.leb_gt. lia.
Qed.

Lemma Panics_write k v n : n <= k -> Panics (write_at k v) n.
Proof.
  intros Hn pre rest en Hl. unfold write_at. cbn [start buffer]. eexists.
  rewrite (proj2 (andb_false_iff _ _)); [reflexivity|]. right. lens. apply Z.ltb_ge. lia.
Qed.

Lemma Panics_assoc (m1 m2 m3 : Enc unit) n : Panics ((m1 ;; m2) ;; m3) n -> Panics (m1 ;; m2 ;; m3) n.
Proof.
  intros H pre rest en Hl. destruct (H pre rest en Hl) as [s Hs]. exists s.
  by rewrite <- Hs, bind_assoc.
Qed.

Lemma Panics_uint16 v n : 0 <= n <= 1 -> Panics (encode_uint16 v) n.
Proof.
  intros Hn. destruct (decide (n = 0)) as [->|]; [by apply Panics_bind_l, Panics_write|].
  intros pre [|b [|b' l]] en Hl; lens; try (pose proof (len_nonneg l)); try lia.
  unfold encode_uint16. cbv zeta. erewrite bind_ok by (by apply (write_at_spec pre [] b [])).
  apply (Panics_bind_l _ _ 1); [by apply Panics_write|]. by lens.
Qed.

Lemma Panics_tag v m n : 0 <= n -> Panics m n -> Panics (write_at 0 v ;; advance 1 ;; m) (1 + n).
Proof.
  intros Hn Hm. apply Panics_assoc, (Panics_bind_r _ _ [v]); [done|apply (Writes_uint8 v)|done].
Qed.

(** A varint of three bytes or more does not fit in two. *)
Lemma encode_uint_short e n : 0xfc < e -> 1 <= n <= 2 -> Panics (encode_uint e) n.
Proof.
  intros He Hn. unfold encode_uint. rewrite (proj2 (Z.leb_gt _ _)) by done.
  replace n with (1 + (n - 1)) by lia. repeat case_match; apply Panics_tag; try lia.
  - apply Panics_uint16. lia.
  - apply Panics_bind_l, Panics_copy. lens. lia.
  - apply Panics_bind_l, Panics_bind_l, Panics_copy. lens. lia.
Qed.

(** And nothing fits after it in three. *)
Lemma encode_uint_fills e m : in_u 64 e -> 0xfc < e -> Panics m 0 -> Panics (encode_uint e ;; m) 3.
Proof.
  intros Hu He Hm. destruct (decide (e <= 0xffff)) as [Hs|Hs].
  - replace 3 with (len (wire_uint e) + 0); [by apply Panics_bind_r; [|by apply Writes_uint|]|].
    unfold wire_uint. rewrite (proj2 (Z.leb_gt _ _)), (proj2 (Z.leb_le _ _)) by lia. by lens.
  - apply Panics_bind_l. unfold encode_uint. rewrite !(proj2 (Z.leb_gt e _)) by lia.
    case_match; apply (Panics_tag _ _ 2); try lia.
    + apply Panics_bind_l, Panics_copy. lens. lia.
    + apply Panics_bind_l, Panics_bind_l, Panics_copy. lens. lia.
Qed.

Lemma to_bytes_panics pre enc n :
  0 < n -> pre new = grow n new -> Panics enc n -> to_bytes pre enc = Panic.
Proof.
  intros Hn Hp Hf. unfold to_bytes. rewrite Hp. unfold alloc, grow, new.
  cbn [end_ start buffer]. change (len []) with 0. rewrite (proj2 (Z.ltb_lt _ _)) by lia.
  destruct (Hf [] (replicate (Z.to_nat (0 + n - 0)) 0) (0 + n)) as [s Hs].
  { unfold len. rewrite length_replicate. lia. }
  change (len []) with 0 in Hs. cbn [app] in *. by rewrite Hs.
Qed.

(** ** Theorems *)

(** [o] is not a panic, and a value it carries satisfies [P]. *)
Definition safe {A} (P : A -> Prop) (o : outcome EncodingError A) : Prop :=
  match o with Ok a => P a | Err _ => True | Panic => False end.

Lemma safe_from_bytes {A} (m : Enc A) P buf :
  Decodes m P -> bytes_ok buf -> safe P (from_bytes m buf).
Proof. apply from_bytes_safe. Qed.

(** The two halves of a round trip, from the contract. *)
Lemma roundtrip {A} `{Codec A} (a : A) :
  c_valid a ->
  to_bytes (fun s => c_preencode s a) (c_encode a) = Ok (c_wire a) /\
  from_bytes c_decode (c_wire a) = Ok a.
Proof. intros Ha. split; [by apply codec_to_bytes|by apply codec_from_bytes]. Qed.

(** An announcement (any subset of peer, refresh token, signature and bump)
    encodes to its wire format, whose length is the one announced by
    [preencode], and decodes back to itself. *)
Theorem announce_roundtrip m :
  announce_ok m ->
  encode_announce_to_bytes m = Ok (wire_announce m) /\
  decode_announce_from_bytes (wire_announce m) = Ok m.
Proof. apply (roundtrip (H := announce_codec)). Qed.

Definition sample_peer : HyperPeer :=
  mkHyperPeer (replicate 32 5) [mkPeer "10.1.2.3" 49737; mkPeer "0.0.0.0" 0].
Definition sample_announce : AnnounceMessage :=
  mkAnnounce (Some sample_peer) None (Some (replicate 64 9)) (2 ^ 40).
Lemma sample_announce_ok : announce_ok sample_announce.
Proof. constructor; by apply (bool_decide_unpack _). Defined.

Lemma announce_roundtrip_witness :
  decode_announce_from_bytes (wire_announce sample_announce) = Ok sample_announce.
Proof. apply (proj2 (announce_roundtrip sample_announce sample_announce_ok)). Defined.

(** A lookup reply round-trips, whatever the number of peers the
    allocation limit allows. *)
Theorem lookup_roundtrip m :
  lookup_ok m ->
  encode_lookup_raw_reply_to_bytes m = Ok (wire_lookup m) /\
  decode_lookup_raw_reply_from_bytes (wire_lookup m) = Ok m.
Proof. apply (roundtrip (H := lookup_codec)). Qed.

Definition sample_lookup : LookupRawReply := mkLookup [sample_peer; sample_peer] 253.
Lemma lookup_roundtrip_witness :
  decode_lookup_raw_reply_from_bytes (wire_lookup sample_lookup) = Ok sample_lookup.
Proof.
  apply (proj2 (lookup_roundtrip sample_lookup
    ltac:(constructor; by apply (bool_decide_unpack _)))).
Defined.

(** Put requests, get responses and the signed part of a mutable record
    round-trip, the empty value included. *)
Theorem mutable_records_roundtrip p g s :
  mutable_put_ok p -> mutable_get_ok g -> mutable_signable_ok s ->
  (encode_mutable_put_request_to_bytes p = Ok (wire_mutable_put p) /\
   decode_mutable_put_request_from_bytes (wire_mutable_put p) = Ok p) /\
  (encode_mutable_get_response_to_bytes g = Ok (wire_mutable_get g) /\
   decode_mutable_get_response_from_bytes (wire_mutable_get g) = Ok g) /\
  (encode_mutable_signable_to_bytes s = Ok (wire_mutable_signable s) /\
   decode_mutable_signable_from_bytes (wire_mutable_signable s) = Ok s).
Proof.
  intros Hp Hg Hs. split_and!; apply (roundtrip (H := mutable_put_codec))
    || apply (roundtrip (H := mutable_get_codec))
    || apply (roundtrip (H := mutable_signable_codec)); done.
Qed.

Definition sample_put : MutablePutRequest :=
  mkMutablePut (replicate 32 1) 65536 [] (replicate 64 2).
Definition sample_get : MutableGetResponse := mkMutableGet 5 [104; 105] (replicate 64 3).
Definition sample_signable : MutableSignable := mkSignable 0 (replicate 300 42).
Lemma mutable_records_roundtrip_witness :
  decode_mutable_put_request_from_bytes (wire_mutable_put sample_put) = Ok sample_put.
Proof.
  refine (proj2 (proj1 (mutable_records_roundtrip sample_put sample_get sample_signable _ _ _)));
  constructor; by apply (bool_decide_unpack _).
Defined.

(** The handshake and hole-punch envelopes round-trip, with any subset of
    their addresses. *)
Theorem envelopes_roundtrip h p :
  handshake_ok h -> holepunch_msg_ok p ->
  (encode_handshake_to_bytes h = Ok (wire_handshake h) /\
   decode_handshake_from_bytes (wire_handshake h) = Ok h) /\
  (encode_holepunch_msg_to_bytes p = Ok (wire_holepunch_msg p) /\
   decode_holepunch_msg_from_bytes (wire_holepunch_msg p) = Ok p).
Proof.
  intros Hh Hp. split; [by apply (roundtrip (H := handshake_codec))
                       |by apply (roundtrip (H := holepunch_msg_codec))].
Qed.

Definition sample_handshake : HandshakeMessage :=
  mkHandshake 2 [1; 2; 3] None (Some (mkPeer "1.2.3.4" 5)).
Definition sample_holepunch : HolepunchMessage :=
  mkHolepunch 1 300 [] (Some (mkPeer "8.8.8.8" 65535)).
Lemma envelopes_roundtrip_witness :
  decode_handshake_from_bytes (wire_handshake sample_handshake) = Ok sample_handshake.
Proof.
  refine (proj2 (proj1 (envelopes_roundtrip sample_handshake sample_holepunch _ _)));
  constructor; by apply (bool_decide_unpack _).
Defined.

(** A Noise payload of version 1 round-trips through its seven optional
    parts, when its error and firewall codes fit the one byte [preencode]
    counts for each and its IPv6 hosts are in the form the decoder prints. *)
Theorem noise_payload_roundtrip m :
  noise_payload_ok m ->
  encode_noise_payload_to_bytes m = Ok (wire_noise_payload m) /\
  decode_noise_payload_from_bytes (wire_noise_payload m) = Ok m.
Proof. apply (roundtrip (H := noise_payload_codec)). Qed.

Definition sample_noise : NoisePayload :=
  mkNoisePayload 1 0 2
    (Some (mkHolepunchInfo 7 [mkRelayInfo (mkPeer "1.1.1.1" 1) (mkPeer "2.2.2.2" 2)]))
    [mkPeer "10.0.0.1" 1234] [mkPeer "2001:db8::1" 443; mkPeer "::" 0]
    (Some (mkUdxInfo 1 true 4096 0)) (Some (mkSecretStreamInfo 1))
    (Some (mkRelayThroughInfo 1 (replicate 32 8) (replicate 32 9))) (Some []).
Lemma noise_payload_roundtrip_witness :
  decode_noise_payload_from_bytes (wire_noise_payload sample_noise) = Ok sample_noise.
Proof.
  refine (proj2 (noise_payload_roundtrip sample_noise _)).
  constructor; reflexivity || by apply (bool_decide_unpack _).
Defined.

(** A hole-punch payload round-trips, flags and tokens included, when its
    error, firewall and round fit the one byte [preencode] counts for each. *)
Theorem holepunch_payload_roundtrip m :
  holepunch_payload_ok m ->
  encode_holepunch_payload_to_bytes m = Ok (wire_holepunch_payload m) /\
  decode_holepunch_payload_from_bytes (wire_holepunch_payload m) = Ok m.
Proof. apply (roundtrip (H := holepunch_payload_codec)). Qed.

Definition sample_punch : HolepunchPayload :=
  mkHolepunchPayload 0 1 3 false true (Some [mkPeer "9.9.9.9" 9]) (Some (mkPeer "1.2.3.4" 5))
    None (Some (replicate 32 6)).
Lemma holepunch_payload_roundtrip_witness :
  decode_holepunch_payload_from_bytes (wire_holepunch_payload sample_punch) = Ok sample_punch.
Proof.
  refine (proj2 (holepunch_payload_roundtrip sample_punch _)).
  constructor; by apply (bool_decide_unpack _).
Defined.

(** A Noise payload with an error or firewall code above 252 panics when
    encoded, and a hole-punch payload with such an error, firewall or round:
    [preencode] counts one byte for a field that [encode] writes as a varint of
    three bytes or more. *)
Theorem wide_codes_panic e :
  in_u 64 e -> 0xfc < e ->
  encode_noise_payload_to_bytes (mkNoisePayload 1 e 0 None [] [] None None None None) = Panic /\
  encode_noise_payload_to_bytes (mkNoisePayload 1 0 e None [] [] None None None None) = Panic /\
  encode_holepunch_payload_to_bytes (mkHolepunchPayload e 0 0 false false None None None None) = Panic /\
  encode_holepunch_payload_to_bytes (mkHolepunchPayload 0 e 0 false false None None None None) = Panic /\
  encode_holepunch_payload_to_bytes (mkHolepunchPayload 0 0 e false false None None None None) = Panic.
Proof.
  intros He Hbig. split_and!.
  - eapply (to_bytes_panics _ _ (1 + (1 + 2))); [lia|reflexivity|].
    apply (Panics_bind_r _ _ [1]); [lia|by apply Writes_flags|].
    apply (Panics_bind_r _ _ [0]); [lia|by apply Writes_flags|].
    apply Panics_bind_l. by apply encode_uint_short.
  - eapply (to_bytes_panics _ _ (1 + (1 + (1 + 1)))); [lia|reflexivity|].
    apply (Panics_bind_r _ _ [1]); [lia|by apply Writes_flags|].
    do 2 (apply (Panics_bind_r _ _ [0]); [lia|by apply Writes_flags|]).
    apply Panics_bind_l. by apply encode_uint_short.
  - eapply (to_bytes_panics _ _ (1 + 3)); [lia|reflexivity|].
    apply (Panics_bind_r _ _ [0]); [lia|by apply Writes_flags|].
    apply encode_uint_fills; [done..|]. by apply Panics_bind_l, Panics_bind_l, Panics_write.
  - eapply (to_bytes_panics _ _ (1 + (1 + 2))); [lia|reflexivity|].
    do 2 (apply (Panics_bind_r _ _ [0]); [lia|by apply Writes_flags|]).
    apply Panics_bind_l. by apply encode_uint_short.
  - eapply (to_bytes_panics _ _ (1 + (1 + (1 + 1)))); [lia|reflexivity|].
    do 3 (apply (Panics_bind_r _ _ [0]); [lia|by apply Writes_flags|]).
    apply Panics_bind_l. by apply encode_uint_short.
Qed.

Lemma wide_codes_panic_witness :
  encode_noise_payload_to_bytes (mkNoisePayload 1 300 0 None [] [] None None None None) = Panic.
Proof. apply (proj1 (wide_codes_panic 300 ltac:(by apply (bool_decide_unpack _)) eq_refl)). Defined.

(** What a payload codec promises on the values it accepts. *)
Definition roundtrips {A} (ok : A -> Prop) (encode : A -> outcome EncodingError (list Z))
    (wire : A -> list Z) (decode : list Z -> outcome EncodingError A) : Prop :=
  forall m, ok m -> encode m = Ok (wire m) /\ decode (wire m) = Ok m.

(** C38: the HyperDHT payloads round-trip, where their fields are within the
    codec's domain: peers, announcements with any subset of their optional
    parts, lookup replies, mutable put requests, get responses and signable
    records, handshake and hole-punch envelopes, hole-punch payloads and Noise
    payloads encode to exactly their wire format and decode back to
    themselves.  The domain ([*_ok]): keys, tokens and signatures of their
    fixed lengths, integers of their Rust widths, hosts in the form the decoder
    prints, arrays of at most 2^20 entries (of a lookup reply, as many as can be
    allocated); for a Noise payload version 1 (also
    of its stream parts) and error and firewall codes of at most 252, for a
    hole-punch payload error, firewall and round of at most 252.  Above 252
    each of these five codes makes the encoder panic, already in a payload that
    is empty otherwise. *)
Theorem payloads_roundtrip :
  roundtrips hyper_peer_ok encode_hyper_peer_to_bytes wire_hyper_peer decode_hyper_peer_from_bytes /\
  roundtrips announce_ok encode_announce_to_bytes wire_announce decode_announce_from_bytes /\
  roundtrips lookup_ok encode_lookup_raw_reply_to_bytes wire_lookup decode_lookup_raw_reply_from_bytes /\
  roundtrips mutable_put_ok encode_mutable_put_request_to_bytes wire_mutable_put
    decode_mutable_put_request_from_bytes /\
  roundtrips mutable_get_ok encode_mutable_get_response_to_bytes wire_mutable_get
    decode_mutable_get_response_from_bytes /\
  roundtrips mutable_signable_ok encode_mutable_signable_to_bytes wire_mutable_signable
    decode_mutable_signable_from_bytes /\
  roundtrips handshake_ok encode_handshake_to_bytes wire_handshake decode_handshake_from_bytes /\
  roundtrips holepunch_msg_ok encode_holepunch_msg_to_bytes wire_holepunch_msg
    decode_holepunch_msg_from_bytes /\
  roundtrips holepunch_payload_ok encode_holepunch_payload_to_bytes wire_holepunch_payload
    decode_holepunch_payload_from_bytes /\
  roundtrips noise_payload_ok encode_noise_payload_to_bytes wire_noise_payload
    decode_noise_payload_from_bytes /\
  forall e, in_u 64 e -> 0xfc < e ->
    Forall (fun m => encode_noise_payload_to_bytes m = Panic)
      [mkNoisePayload 1 e 0 None [] [] None None None None;
       mkNoisePayload 1 0 e None [] [] None None None None] /\
    Forall (fun m => encode_holepunch_payload_to_bytes m = Panic)
      [mkHolepunchPayload e 0 0 false false None None None None;
       mkHolepunchPayload 0 e 0 false false None None None None;
       mkHolepunchPayload 0 0 e false false None None None None].
Proof.
  split_and!; [intros m Hm..|].
  - by apply (roundtrip (H := hyper_peer_codec)).
  - by apply announce_roundtrip.
  - by apply lookup_roundtrip.
  - by apply (roundtrip (H := mutable_put_codec)).
  - by apply (roundtrip (H := mutable_get_codec)).
  - by apply (roundtrip (H := mutable_signable_codec)).
  - by apply (roundtrip (H := handshake_codec)).
  - by apply (roundtrip (H := holepunch_msg_codec)).
  - by apply holepunch_payload_roundtrip.
  - by apply noise_payload_roundtrip.
  - intros e He Hbig. destruct (wide_codes_panic e He Hbig) as (? & ? & ? & ? & ?). by repeat constructor.
Qed.

(** A Noise payload with all seven parts, a hole-punch payload, and a code
    outside the domain. *)
Lemma payloads_roundtrip_witness :
  decode_noise_payload_from_bytes (wire_noise_payload sample_noise) = Ok sample_noise /\
  decode_holepunch_payload_from_bytes (wire_holepunch_payload sample_punch) = Ok sample_punch /\
  encode_noise_payload_to_bytes (mkNoisePayload 1 300 0 None [] [] None None None None) = Panic.
Proof.
  destruct payloads_roundtrip as (_ & _ & _ & _ & _ & _ & _ & _ & Hp & Hn & Hw). split_and!.
  - refine (proj2 (Hn sample_noise _)). constructor; reflexivity || by apply (bool_decide_unpack _).
  - refine (proj2 (Hp sample_punch _)). constructor; by apply (bool_decide_unpack _).
  - destruct (Hw 300) as [H _]; [by apply (bool_decide_unpack _)|reflexivity|].
    inversion H as [|? ? E _]. exact E.
Defined.

(** C37: except for the lookup reply, no payload decoder panics on any bytes,
    and what it accepts has its Rust types, canonical IPv4 hosts and arrays of
    at most 2^20 entries: a decoded announcement, mutable record or envelope
    is one that encodes again. *)
Theorem payload_decoders_safe buf :
  bytes_ok buf ->
  safe hyper_peer_ok (decode_hyper_peer_from_bytes buf) /\
  safe announce_ok (decode_announce_from_bytes buf) /\
  safe mutable_put_ok (decode_mutable_put_request_from_bytes buf) /\
  safe mutable_get_ok (decode_mutable_get_response_from_bytes buf) /\
  safe mutable_signable_ok (decode_mutable_signable_from_bytes buf) /\
  safe handshake_ok (decode_handshake_from_bytes buf) /\
  safe holepunch_msg_ok (decode_holepunch_msg_from_bytes buf) /\
  safe noise_payload_typed (decode_noise_payload_from_bytes buf) /\
  safe holepunch_payload_typed (decode_holepunch_payload_from_bytes buf).
Proof.
  intros Hb. split_and!; apply safe_from_bytes; auto using Decodes_hyper_peer, Decodes_announce,
    Decodes_mutable_put, Decodes_mutable_get, Decodes_mutable_signable, Decodes_handshake,
    Decodes_holepunch_msg, Decodes_noise_payload, Decodes_holepunch_payload.
Qed.

Lemma payload_decoders_safe_witness :
  (exists m, decode_noise_payload_from_bytes (wire_noise_payload sample_noise) = Ok m /\ noise_payload_typed m) /\
  safe announce_ok (decode_announce_from_bytes [15; 255; 255; 0]).
Proof.
  split.
  - destruct (payload_decoders_safe (wire_noise_payload sample_noise)
      ltac:(apply (bool_decide_unpack _); vm_compute; exact Logic.I)) as (_ & _ & _ & _ & _ & _ & _ & Hs & _).
    assert (is_some (outcome_ok (decode_noise_payload_from_bytes (wire_noise_payload sample_noise))) = true) as Hk
      by (vm_compute; reflexivity).
    destruct (decode_noise_payload_from_bytes (wire_noise_payload sample_noise)) as [m|e|]; [|discriminate Hk..].
    exists m. split; [reflexivity|exact Hs].
  - apply (proj1 (proj2 (payload_decoders_safe [15; 255; 255; 0]
      ltac:(apply (bool_decide_unpack _); vm_compute; done)))).
Defined.

(** Decoding a lookup reply panics on every input whose leading count
    exceeds what [Vec::with_capacity] can allocate (a nine-byte packet is
    enough): the count is read from the wire and is not bounded first. *)
Theorem lookup_decode_panics count rest :
  in_u 64 count -> 2 ^ 63 - 1 < 56 * count ->
  decode_lookup_raw_reply_from_bytes (wire_uint count ++ rest) = Panic.
Proof.
  intros Hc Hbig. unfold decode_lookup_raw_reply_from_bytes, from_bytes, from_buffer.
  pose proof (Reads_uint count Hc [] rest) as Hr. change (len []) with 0 in Hr. cbn [app] in Hr.
  unfold decode_lookup_raw_reply. erewrite bind_ok by apply Hr.
  unfold with_capacity. by rewrite (proj2 (Z.leb_gt _ _)).
Qed.

Lemma lookup_decode_panics_witness :
  decode_lookup_raw_reply_from_bytes [255; 255; 255; 255; 255; 255; 255; 255; 255] = Panic.
Proof. apply (lookup_decode_panics (2 ^ 64 - 1) []); by apply (bool_decide_unpack _). Defined.
