(* ===== verification/Peer.v ===== *)
(** * Peer: node identities, from [peeroxide-dht/src/peer.rs]

    Node ids, the lexicographic order Rust gives byte arrays, the XOR metric,
    and [peer_id], with the Blake2b hash as a parameter. *)

From S2P Require Import Prelude RustStd CompactEncoding Codec.
From stdpp Require Export sorting.

#[local] Open Scope Z_scope.

(** [pub type NodeId = [u8; 32]] *)
Abbreviation NodeId := (list Z).
Definition id_ok (i : NodeId) : Prop := fixed_ok 32 i.
#[global] Instance id_ok_dec i : Decision (id_ok i).
Proof. unfold id_ok. apply _. Defined.

(** ** The order of byte arrays: [<[u8] as Ord>::cmp] *)

Fixpoint cmp_bytes (a b : list Z) : comparison :=
  match a, b with
  | [], [] => Eq
  | [], _ :: _ => Lt
  | _ :: _, [] => Gt
  | x :: a, y :: b => match x ?= y with Eq => cmp_bytes a b | c => c end
  end.

Definition id_lt (a b : list Z) : Prop := cmp_bytes a b = Lt.

Lemma cmp_bytes_eq a b : cmp_bytes a b = Eq <-> a = b.
Proof.
  revert b. induction a as [|x a IH]; intros [|y b]; cbn [cmp_bytes]; try done.
  destruct (Z.compare_spec x y); subst.
  - rewrite IH. split; [by intros ->|by intros [=]].
  - split; [done|]. intros [= ]. lia.
  - split; [done|]. intros [= ]. lia.
Qed.

Lemma cmp_bytes_antisym a b : cmp_bytes b a = CompOpp (cmp_bytes a b).
Proof.
  revert b. induction a as [|x a IH]; intros [|y b]; cbn [cmp_bytes]; try done.
  rewrite (Z.compare_antisym x y). destruct (x ?= y); cbn; auto.
Qed.

#[global] Instance id_lt_trans : Transitive id_lt.
Proof.
  unfold id_lt. intros a. induction a as [|x a IH]; intros [|y b] [|z c]; cbn [cmp_bytes]; try done.
  destruct (Z.compare_spec x y), (Z.compare_spec y z), (Z.compare_spec x z);
    subst; try done; try lia. by apply IH.
Qed.
#[global] Instance id_lt_irrefl : Irreflexive id_lt.
Proof. intros a Ha. unfold id_lt in Ha. by rewrite (proj2 (cmp_bytes_eq a a)) in Ha. Qed.

Lemma cmp_bytes_gt a b : cmp_bytes a b = Gt <-> id_lt b a.
Proof. unfold id_lt. rewrite (cmp_bytes_antisym a b). by destruct (cmp_bytes a b). Qed.

(** ** The XOR metric *)

Fixpoint xor_bytes (a b : list Z) : list Z :=
  match a, b with
  | x :: a, y :: b => Z.lxor x y :: xor_bytes a b
  | _, _ => []
  end.

(** [u8::leading_zeros] *)
Definition leading_zeros (b : Z) : nat :=
  if b =? 0 then 8%nat else (7 - Z.to_nat (Z.log2 b))%nat.

(** ** [peer_id] *)

Record PeerAddr : Type := mkPeerAddr { pa_host : string; pa_port : Z }.

Section PeerId.
(** [Blake2b<U32>] *)
Context (blake2b : list Z -> list Z).

(** [expect] turns the error of [encode_ipv4_address] into a panic. *)
Definition peer_id (host : string) (port : Z) : outcome EncodingError NodeId :=
  match to_bytes (fun s => preencode_ipv4_address s host port) (encode_ipv4_address host port) with
  | Ok buffer => Ok (blake2b buffer)
  | Err _ | Panic => Panic
  end.
Definition PeerAddr_id (p : PeerAddr) : outcome EncodingError NodeId :=
  peer_id (pa_host p) (pa_port p).

(** The id is the hash of the six bytes of the address; a host that is not
    IPv4 text panics. *)
Lemma peer_id_spec host port :
  peer_id host port =
    match ipv4_octets host with
    | Some o => Ok (blake2b (o ++ to_le 2 port))
    | None => Panic
    end.
Proof.
  unfold peer_id. destruct (ipv4_octets host) as [o|] eqn:Ho.
  - rewrite (to_bytes_spec _ _ (o ++ to_le 2 port)); [done| |].
    + apply ipv4_octets_range in Ho as [_ Hl].
      unfold preencode_ipv4_address, preencode_ipv4, preencode_uint16.
      rewrite grow_grow, len_app, Hl. done.
    + apply Writes_bind; [by apply Writes_ipv4|apply Writes_uint16].
  - rewrite (to_bytes_fails _ _ 6 4 (InvalidIpv4 host)); [done|done|lia|].
    by apply Fails_bind_l, Fails_ipv4.
Qed.
End PeerId.
