(* ===== verification/RoutingTable.v ===== *)
(** * RoutingTable: the Kademlia table of [peeroxide-dht/src/routing_table.rs]

    256 buckets of at most [k] nodes sorted by id.  A method [m] of the
    source is [RoutingTable_m]; methods taking [&mut self] are in the monad
    [Tbl], whose panics are out-of-range indexing and the underflow of
    [size]. *)

From S2P Require Import Prelude RustStd CompactEncoding Codec Peer.

#[local] Open Scope Z_scope.

(** [pub const K], [const NUM_BUCKETS] *)
Definition K : nat := 20.
Definition NUM_BUCKETS : nat := 256.

Record Node : Type := mkNode {
  n_id : NodeId;
  n_host : string;
  n_port : Z;
  n_token : option (list Z);
  n_added_tick : Z;
  n_seen_tick : Z;
  n_pinged_tick : Z;
  n_down_hints : Z
}.
#[global] Instance Node_eq_dec : EqDecision Node.
Proof. solve_decision. Defined.

Inductive TableEvent : Type :=
| BucketFull (new_node : Node) (bucket_index : nat).

Abbreviation Bucket := (list Node).

Record RoutingTable : Type := mkTable {
  t_id : NodeId;
  t_k : nat;
  t_buckets : list (option Bucket);
  t_size : Z;
  t_pending_events : list TableEvent
}.

Abbreviation Tbl := (M RoutingTable Empty_set).

Definition set_buckets (bs : list (option Bucket)) (t : RoutingTable) : RoutingTable :=
  mkTable (t_id t) (t_k t) bs (t_size t) (t_pending_events t).
Definition set_size (n : Z) (t : RoutingTable) : RoutingTable :=
  mkTable (t_id t) (t_k t) (t_buckets t) n (t_pending_events t).
Definition set_events (es : list TableEvent) (t : RoutingTable) : RoutingTable :=
  mkTable (t_id t) (t_k t) (t_buckets t) (t_size t) es.

(** ** Construction and size *)

Definition RoutingTable_with_k (id : NodeId) (k : nat) : RoutingTable :=
  mkTable id k (replicate NUM_BUCKETS None) 0 [].
Definition RoutingTable_new (id : NodeId) : RoutingTable := RoutingTable_with_k id K.
Definition RoutingTable_len (t : RoutingTable) : Z := t_size t.
Definition RoutingTable_is_empty (t : RoutingTable) : bool := t_size t =? 0.

(** ** bucket_index *)

Fixpoint bucket_index_from (i : nat) (id own : NodeId) : nat :=
  match id, own with
  | a :: id, b :: own =>
      if negb (a =? b) then (i * 8 + leading_zeros (Z.lxor a b))%nat
      else bucket_index_from (S i) id own
  | _, _ => (NUM_BUCKETS - 1)%nat
  end.
Definition RoutingTable_bucket_index (t : RoutingTable) (id : NodeId) : nat :=
  bucket_index_from 0 id (t_id t).

(** [bucket.nodes.binary_search_by(|n| n.id.cmp(id))] *)
Definition search (id : NodeId) (b : Bucket) : nat + nat :=
  binary_search_by (fun n => cmp_bytes (n_id n) id) b.

(** ** Element access: indexing panics out of range *)

(** [self.buckets[idx].as_ref()] *)
Definition bucket_ref (idx : nat) : Tbl (option Bucket) := fun t =>
  match t_buckets t !! idx with
  | Some b => (Ok b, t)
  | None => (Panic, t)
  end.
(** [self.buckets[idx] = b] *)
Definition bucket_set (idx : nat) (b : option Bucket) : Tbl unit := fun t =>
  match t_buckets t !! idx with
  | Some _ => (Ok tt, set_buckets (<[idx := b]> (t_buckets t)) t)
  | None => (Panic, t)
  end.
(** [self.size -= 1] *)
Definition size_dec : Tbl unit := fun t =>
  if 0 <? t_size t then (Ok tt, set_size (t_size t - 1) t) else (Panic, t).
(** [bucket.nodes[pos]] *)
Definition node_at (b : Bucket) (pos : nat) : Tbl Node := fun t =>
  match b !! pos with Some n => (Ok n, t) | None => (Panic, t) end.
(** [bucket.nodes[pos] = node] *)
Definition nodes_set (b : Bucket) (pos : nat) (n : Node) : Tbl Bucket := fun t =>
  if (pos <? length b)%nat then (Ok (<[pos := n]> b), t) else (Panic, t).
(** [bucket.nodes.insert(pos, node)] *)
Definition nodes_insert (b : Bucket) (pos : nat) (n : Node) : Tbl Bucket := fun t =>
  if (pos <=? length b)%nat then (Ok (take pos b ++ n :: drop pos b), t) else (Panic, t).
(** [bucket.nodes.remove(pos)]: the node and what is left *)
Definition nodes_remove (b : Bucket) (pos : nat) : Tbl (Node * Bucket) := fun t =>
  match b !! pos with
  | Some n => (Ok (n, take pos b ++ drop (S pos) b), t)
  | None => (Panic, t)
  end.

(** ** add, remove *)

Definition RoutingTable_add (node : Node) : Tbl bool :=
  t ← Prelude.get;
  let idx := RoutingTable_bucket_index t (n_id node) in
  b0 ← bucket_ref idx;
  match b0 with None => bucket_set idx (Some []) | Some _ => mret tt end ;;
  b1 ← bucket_ref idx;
  match b1 with
  | None => mret false
  | Some bucket =>
      match search (n_id node) bucket with
      | inl pos =>
          nodes ← nodes_set bucket pos node;
          bucket_set idx (Some nodes) ;;
          mret true
      | inr pos =>
          if (length bucket <? t_k t)%nat then
            nodes ← nodes_insert bucket pos node;
            bucket_set idx (Some nodes) ;;
            t ← Prelude.get;
            put (set_size (t_size t + 1) t) ;;
            mret true
          else
            t ← Prelude.get;
            put (set_events (t_pending_events t ++ [BucketFull node idx]) t) ;;
            mret false
      end
  end.

Definition RoutingTable_remove (id : NodeId) : Tbl (option Node) :=
  t ← Prelude.get;
  let idx := RoutingTable_bucket_index t id in
  b ← bucket_ref idx;
  match b with
  | None => mret None
  | Some bucket =>
      match search id bucket with
      | inr _ => mret None
      | inl pos =>
          '(node, nodes) ← nodes_remove bucket pos;
          bucket_set idx (Some nodes) ;;
          size_dec ;;
          mret (Some node)
      end
  end.

(** ** get, has, get_mut *)

Definition RoutingTable_get (id : NodeId) : Tbl (option Node) :=
  t ← Prelude.get;
  let idx := RoutingTable_bucket_index t id in
  b ← bucket_ref idx;
  match b with
  | None => mret None
  | Some bucket =>
      match search id bucket with
      | inr _ => mret None
      | inl pos => Some <$> node_at bucket pos
      end
  end.
Definition RoutingTable_has (id : NodeId) : Tbl bool :=
  (fun o : option Node => match o with Some _ => true | None => false end) <$> RoutingTable_get id.

(** [get_mut] hands out a reference: [f] is what the caller does with it. *)
Definition RoutingTable_get_mut (id : NodeId) (f : Node -> Node) : Tbl (option Node) :=
  t ← Prelude.get;
  let idx := RoutingTable_bucket_index t id in
  b ← bucket_ref idx;
  match b with
  | None => mret None
  | Some bucket =>
      match search id bucket with
      | inr _ => mret None
      | inl pos =>
          n ← node_at bucket pos;
          nodes ← nodes_set bucket pos (f n);
          bucket_set idx (Some nodes) ;;
          mret (Some (f n))
      end
  end.

(** ** closest *)

(** [for node in &bucket.nodes { if result.len() >= k { break; } result.push(node); }] *)
Fixpoint push_nodes (k : nat) (result : list Node) (b : Bucket) : list Node :=
  match b with
  | [] => result
  | node :: b =>
      if (k <=? length result)%nat then result else push_nodes k (result ++ [node]) b
  end.
(** [if let Some(bucket) = &self.buckets[i] { .. }] *)
Definition push_bucket (k : nat) (buckets : list (option Bucket)) (i : nat) (result : list Node)
    : list Node :=
  match buckets !! i with
  | Some (Some b) => push_nodes k result b
  | _ => result
  end.
(** [while i >= 0 { .. i -= 1; }], with [n] = [i + 1]. *)
Fixpoint scan_down (k : nat) (buckets : list (option Bucket)) (n : nat) (result : list Node)
    : list Node :=
  match n with
  | O => result
  | S i => if (k <=? length result)%nat then result
           else scan_down k buckets i (push_bucket k buckets i result)
  end.
(** [while j < NUM_BUCKETS { .. j += 1; }], with [n] = [NUM_BUCKETS - j]. *)
Fixpoint scan_up (k : nat) (buckets : list (option Bucket)) (n : nat) (result : list Node)
    : list Node :=
  match n with
  | O => result
  | S n' => if (k <=? length result)%nat then result
            else scan_up k buckets n' (push_bucket k buckets (NUM_BUCKETS - n) result)
  end.
Definition RoutingTable_closest (t : RoutingTable) (target : NodeId) (k : nat) : list Node :=
  let d := RoutingTable_bucket_index t target in
  let result := scan_down k (t_buckets t) (S d) [] in
  scan_up k (t_buckets t) (NUM_BUCKETS - (d + 1)) result.

(** ** rebuild_with_id *)

(** The nodes of a table, bucket by bucket. *)
Definition bucket_nodes (o : option Bucket) : list Node := default [] o.
Definition table_nodes (t : RoutingTable) : list Node := t_buckets t ≫= bucket_nodes.

Definition RoutingTable_rebuild_with_id (new_id : NodeId) : Tbl unit :=
  t ← Prelude.get;
  if bool_decide (t_id t = new_id) then mret tt
  else
    let nodes := table_nodes t in
    put (mkTable new_id (t_k t) ((fun _ => None) <$> t_buckets t) 0 []) ;;
    for_m nodes (fun node =>
      if bool_decide (n_id node = new_id) then mret tt
      else RoutingTable_add node ;; mret tt).

(** ** random, recent, drain_events *)

Section Random.
(** [rng.random_range(0..n)], by call. *)
Context (random_range : nat -> nat -> nat).

(** Indices of the non-empty buckets. *)
Fixpoint occupied_from (i : nat) (buckets : list (option Bucket)) : list nat :=
  match buckets with
  | [] => []
  | Some (_ :: _) :: bs => i :: occupied_from (S i) bs
  | _ :: bs => occupied_from (S i) bs
  end.

Definition RoutingTable_random : Tbl (option Node) :=
  t ← Prelude.get;
  if t_size t =? 0 then mret None
  else
    let occupied := occupied_from 0 (t_buckets t) in
    if bool_decide (occupied = []) then mret None
    else
      match occupied !! random_range 0 (length occupied) with
      | None => panic
      | Some bucket_idx =>
          b ← bucket_ref bucket_idx;
          match b with
          | None => mret None
          | Some bucket => Some <$> node_at bucket (random_range 1 (length bucket))
          end
      end.
End Random.

(** [slice::sort_by_key] is stable; insertion after the equal keys. *)
Fixpoint insert_by_seen (n : Node) (l : list Node) : list Node :=
  match l with
  | [] => [n]
  | m :: l => if n_seen_tick m <? n_seen_tick n then n :: m :: l else m :: insert_by_seen n l
  end.
Definition sort_by_seen (l : list Node) : list Node := foldl (fun acc n => insert_by_seen n acc) [] l.

Definition RoutingTable_recent (t : RoutingTable) (limit : nat) : list Node :=
  if (limit =? 0)%nat then []
  else
    let all := sort_by_seen (table_nodes t) in
    let skip := if (8 <=? length all)%nat then 5%nat else 0%nat in
    take limit (drop skip all).

Definition RoutingTable_drain_events : Tbl (list TableEvent) :=
  t ← Prelude.get; put (set_events [] t) ;; mret (t_pending_events t).
