(* ===== verification/RoutingTableProofs.v ===== *)
(** * RoutingTableProofs: invariant and refinement of the routing table

    The table is a finite map from ids to nodes, split over 256 sorted
    buckets: every operation preserves the split and acts on the map. *)

From S2P Require Import Prelude RustStd CompactEncoding Codec Peer RoutingTable.

#[local] Open Scope Z_scope.

(** Read a bucket off its option. *)
Ltac bn := cbn [bucket_nodes default from_option id] in *.

(** ** The invariant *)

Definition node_ok (n : Node) : Prop := id_ok (n_id n).
#[global] Instance node_ok_dec n : Decision (node_ok n).
Proof. unfold node_ok. apply _. Defined.

Record bucket_ok (own : NodeId) (k i : nat) (b : Bucket) : Prop := {
  bo_size : (length b <= k)%nat;
  bo_sorted : StronglySorted id_lt (n_id <$> b);
  bo_index : Forall (fun n => node_ok n /\ bucket_index_from 0 (n_id n) own = i) b
}.

Record table_inv (t : RoutingTable) : Prop := {
  ti_id : id_ok (t_id t);
  ti_buckets : length (t_buckets t) = NUM_BUCKETS;
  ti_bucket i b : t_buckets t !! i = Some (Some b) -> bucket_ok (t_id t) (t_k t) i b;
  ti_size : t_size t = len (table_nodes t)
}.

(** ** Indices *)

Lemma leading_zeros_bound b : 0 < b < 256 -> (leading_zeros b <= 7)%nat.
Proof.
  intros Hb. unfold leading_zeros. rewrite (proj2 (Z.eqb_neq _ _)) by lia. lia.
Qed.

Lemma lxor_byte a b : is_byte a -> is_byte b -> a <> b -> 0 < Z.lxor a b < 256.
Proof.
  unfold is_byte. intros Ha Hb Hne.
  assert (0 <= Z.lxor a b) by (apply Z.lxor_nonneg; lia).
  assert (Z.lxor a b <> 0) by (by intros ?%Z.lxor_eq).
  split; [lia|]. apply (Z.log2_lt_pow2 _ 8); [lia|].
  eapply Z.le_lt_trans; [apply Z.log2_lxor; lia|].
  apply Z.max_lub_lt.
  - destruct (decide (a = 0)) as [->|]; [done|]. apply Z.log2_lt_pow2; lia.
  - destruct (decide (b = 0)) as [->|]; [done|]. apply Z.log2_lt_pow2; lia.
Qed.

Lemma bucket_index_from_bound i id own :
  bytes_ok id -> bytes_ok own -> (i + length id <= 32)%nat ->
  (bucket_index_from i id own < NUM_BUCKETS)%nat.
Proof.
  intros Hid. revert i own. induction Hid as [|a id Ha Hid IH]; intros i own Ho Hl;
    [cbn; unfold NUM_BUCKETS; lia|].
  destruct Ho as [|b own Hb Ho]; cbn [bucket_index_from]; [unfold NUM_BUCKETS; lia|].
  destruct (Z.eqb_spec a b) as [|Hne]; cbn [negb length] in *; [apply IH; [done|lia]|].
  pose proof (leading_zeros_bound _ (lxor_byte a b Ha Hb Hne)).
  unfold NUM_BUCKETS. lia.
Qed.

Lemma bucket_index_bound own id :
  id_ok own -> id_ok id -> (bucket_index_from 0 id own < NUM_BUCKETS)%nat.
Proof.
  intros [Ho _] [Hi Hl]. apply bucket_index_from_bound; [done..|]. unfold len in Hl. lia.
Qed.

(** ** Searching a bucket *)

Lemma sorted_lookup b i j x y :
  StronglySorted id_lt (n_id <$> b) -> (i < j)%nat -> b !! i = Some x -> b !! j = Some y ->
  id_lt (n_id x) (n_id y).
Proof.
  intros Hs Hij Hx Hy. apply list_elem_of_split_length in Hx as (l1 & l2 & -> & ->).
  rewrite fmap_app, fmap_cons in Hs.
  apply StronglySorted_app_1_r in Hs as [_ Hs]%StronglySorted_inv.
  rewrite lookup_app_r in Hy by lia.
  rewrite Forall_forall in Hs. apply Hs. apply list_elem_of_fmap_2.
  replace (j - length l1)%nat with (S (j - length l1 - 1)) in Hy by lia.
  cbn in Hy. by eapply list_elem_of_lookup_2.
Qed.

Lemma sorted_search id b :
  StronglySorted id_lt (n_id <$> b) -> bs_sorted (fun n => cmp_bytes (n_id n) id) b.
Proof.
  intros Hs i j x y Hij Hx Hy Hne. pose proof (sorted_lookup b i j x y Hs Hij Hx Hy) as Hlt.
  destruct (cmp_bytes (n_id y) id) eqn:E; [|by apply (id_lt_trans _ (n_id y))|done].
  apply cmp_bytes_eq in E. by rewrite <- E.
Qed.

Lemma search_spec id b :
  StronglySorted id_lt (n_id <$> b) ->
  match search id b with
  | inl i => exists x, b !! i = Some x /\ n_id x = id
  | inr i => (i <= length b)%nat /\ Forall (fun n => id_lt (n_id n) id) (take i b) /\
             Forall (fun n => id_lt id (n_id n)) (drop i b)
  end.
Proof.
  intros Hs. pose proof (binary_search_by_spec _ _ (sorted_search id b Hs)) as H.
  unfold search. destruct (binary_search_by _ b) as [i|i].
  - destruct H as (x & Hx & E). exists x. by rewrite <- cmp_bytes_eq.
  - destruct H as (Hl & Hlo & Hhi). split_and!; [done| |].
    + apply Forall_lookup_2. intros j y Hy. apply lookup_take_Some in Hy as [Hy ?].
      by eapply Hlo.
    + apply Forall_lookup_2. intros j y Hy. rewrite lookup_drop in Hy.
      apply cmp_bytes_gt. eapply Hhi; [|done]. lia.
Qed.

(** ** The nodes of a table *)

Lemma elem_of_nodes t n :
  n ∈ table_nodes t <-> exists i b, t_buckets t !! i = Some (Some b) /\ n ∈ b.
Proof.
  unfold table_nodes. rewrite list_elem_of_bind. split.
  - intros ([b|] & Hn & Hb); cbn in Hn; [|by apply not_elem_of_nil in Hn].
    apply list_elem_of_lookup_1 in Hb as [i Hi]. eauto.
  - intros (i & b & Hb & Hn). exists (Some b). split; [done|]. by eapply list_elem_of_lookup_2.
Qed.

Lemma table_node_ok t n :
  table_inv t -> n ∈ table_nodes t ->
  node_ok n /\ exists b, t_buckets t !! RoutingTable_bucket_index t (n_id n) = Some (Some b) /\ n ∈ b.
Proof.
  intros Ht (i & b & Hb & Hn)%elem_of_nodes. destruct (ti_bucket t Ht i b Hb) as [_ _ Hi].
  rewrite Forall_forall in Hi. destruct (Hi n Hn) as [Hok <-]. eauto.
Qed.

Lemma sorted_NoDup l : StronglySorted id_lt l -> NoDup l.
Proof.
  induction 1 as [|x l Hs IH Hx]; constructor; [|done].
  intros Hin. rewrite Forall_forall in Hx. by apply (irreflexivity id_lt x), Hx.
Qed.

(** Buckets with distinct indices hold distinct ids. *)
Lemma nodes_NoDup_from own k i bs :
  (forall j b, bs !! j = Some (Some b) -> bucket_ok own k (i + j) b) ->
  NoDup (n_id <$> (bs ≫= bucket_nodes)) /\
  Forall (fun n => (i <= bucket_index_from 0 (n_id n) own)%nat) (bs ≫= bucket_nodes).
Proof.
  revert i. induction bs as [|o bs IH]; intros i Hb; [split; constructor|].
  destruct (IH (S i)) as [Hnd Hge].
  { intros j b Hj. rewrite Nat.add_succ_comm. by apply Hb. }
  cbn [mbind list_bind]. rewrite fmap_app, NoDup_app, Forall_app.
  destruct o as [b|]; bn.
  2: { split_and!; [apply NoDup_nil_2|by intros ? ?%not_elem_of_nil|done|done|].
       eapply Forall_impl; [done|]. simpl. lia. }
  destruct (Hb 0%nat b eq_refl) as [_ Hs Hi]. rewrite Nat.add_0_r in Hi.
  split_and!; [| |done| |].
  - by apply sorted_NoDup.
  - intros x (n & -> & Hn)%list_elem_of_fmap (m & Heq & Hm)%list_elem_of_fmap.
    rewrite Forall_forall in Hi, Hge. destruct (Hi n Hn) as [_ E].
    specialize (Hge m Hm). cbn in Hge. rewrite <- Heq in Hge. lia.
  - eapply Forall_impl; [done|]. intros n [_ ->]. done.
  - eapply Forall_impl; [done|]. simpl. lia.
Qed.

Lemma nodes_NoDup t : table_inv t -> NoDup (n_id <$> table_nodes t).
Proof. intros Ht. apply (nodes_NoDup_from (t_id t) (t_k t) 0). apply (ti_bucket t Ht). Qed.

(** Replacing one bucket. *)
Lemma nodes_split bs i o :
  bs !! i = Some o ->
  exists pre post, bs ≫= bucket_nodes = pre ++ bucket_nodes o ++ post /\
    forall o', <[i := o']> bs ≫= bucket_nodes = pre ++ bucket_nodes o' ++ post.
Proof.
  intros Hi. apply list_elem_of_split_length in Hi as (l1 & l2 & -> & ->).
  exists (l1 ≫= bucket_nodes), (l2 ≫= bucket_nodes). split.
  - by rewrite bind_app.
  - intros o'. rewrite insert_app_r_alt, Nat.sub_diag by lia. cbn [insert list_insert].
    by rewrite bind_app.
Qed.

Lemma inv_update t i o b ev :
  table_inv t -> t_buckets t !! i = Some o -> bucket_ok (t_id t) (t_k t) i b ->
  table_inv (mkTable (t_id t) (t_k t) (<[i := Some b]> (t_buckets t))
    (t_size t + len b - len (bucket_nodes o)) ev).
Proof.
  intros [Hid Hlen Hb Hsz] Ho Hok. split; cbn [t_id t_k t_buckets t_size].
  - done.
  - by rewrite length_insert.
  - intros j b' Hj. destruct (decide (i = j)) as [<-|Hne].
    + rewrite list_lookup_insert_eq in Hj by (by eapply lookup_lt_Some). by injection Hj as <-.
    + rewrite list_lookup_insert_ne in Hj by done. by apply Hb.
  - destruct (nodes_split _ _ _ Ho) as (pre & post & E1 & E2).
    rewrite Hsz. unfold table_nodes. cbn [t_buckets]. rewrite E1, E2. bn.
    lens. lia.
Qed.

Lemma elem_of_update t i o b m t' :
  t_buckets t !! i = Some o -> t_buckets t' = <[i := Some b]> (t_buckets t) ->
  NoDup (n_id <$> table_nodes t) ->
  m ∈ table_nodes t' <-> m ∈ b \/ (m ∈ table_nodes t /\ m ∉ bucket_nodes o).
Proof.
  intros Ho Ht' Hnd. destruct (nodes_split _ _ _ Ho) as (pre & post & E1 & E2).
  unfold table_nodes in *. rewrite Ht', E2. rewrite E1 in *. bn.
  apply NoDup_fmap_1 in Hnd. rewrite !NoDup_app in Hnd. destruct Hnd as (_ & Hpre & _ & Hmid & _).
  assert (m ∈ pre -> m ∉ bucket_nodes o).
  { intros H1 H2. apply (Hpre m H1), elem_of_app. by left. }
  assert (m ∈ post -> m ∉ bucket_nodes o) by (intros H1 H2; by apply (Hmid m)).
  rewrite !elem_of_app. tauto.
Qed.

(** ** Operations on a bucket *)

Lemma bucket_ok_nil own k i : bucket_ok own k i [].
Proof. split; [simpl; lia|constructor|constructor]. Qed.

Lemma bucket_ok_replace own k i b pos x node :
  bucket_ok own k i b -> b !! pos = Some x -> n_id x = n_id node ->
  bucket_ok own k i (<[pos := node]> b).
Proof.
  intros [Hsz Hs Hi] Hx Hid. split.
  - by rewrite length_insert.
  - rewrite list_fmap_insert, list_insert_id; [done|].
    by rewrite list_lookup_fmap, Hx, <- Hid.
  - apply Forall_insert; [done|]. rewrite Forall_lookup in Hi. specialize (Hi pos x Hx).
    unfold node_ok in *. by rewrite <- Hid.
Qed.

Lemma bucket_ok_insert own k i b pos node :
  bucket_ok own k i b -> (length b < k)%nat -> node_ok node ->
  bucket_index_from 0 (n_id node) own = i ->
  Forall (fun n => id_lt (n_id n) (n_id node)) (take pos b) ->
  Forall (fun n => id_lt (n_id node) (n_id n)) (drop pos b) ->
  bucket_ok own k i (take pos b ++ node :: drop pos b).
Proof.
  intros [Hsz Hs Hi] Hlt Hok Hidx Hlo Hhi. split.
  - rewrite length_app. cbn [length]. rewrite length_take, length_drop. lia.
  - rewrite fmap_app, fmap_cons. rewrite <- (take_drop pos b), fmap_app in Hs.
    pose proof (StronglySorted_app_1_l _ _ _ Hs). pose proof (StronglySorted_app_1_r _ _ _ Hs).
    apply StronglySorted_app_2; [|done|].
    + intros x y (n & -> & Hn)%list_elem_of_fmap Hy. rewrite Forall_forall in Hlo, Hhi.
      specialize (Hlo n Hn). apply elem_of_cons in Hy as [->|(m & -> & Hm)%list_elem_of_fmap]; [done|].
      by apply (id_lt_trans _ (n_id node)), Hhi.
    + constructor; [done|]. by apply Forall_fmap.
  - rewrite Forall_app, Forall_cons. split_and!; [by apply Forall_take|done..|by apply Forall_drop].
Qed.

Lemma bucket_ok_remove own k i b pos :
  bucket_ok own k i b -> bucket_ok own k i (take pos b ++ drop (S pos) b).
Proof.
  intros [Hsz Hs Hi]. destruct (decide (pos < length b)%nat) as [Hlt|].
  2: { rewrite take_ge, drop_ge, app_nil_r by lia. by split. }
  destruct (lookup_lt_is_Some_2 b pos Hlt) as [x Hx].
  apply list_elem_of_split_length in Hx as (l1 & l2 & -> & ->).
  rewrite take_app_length.
  assert (drop (S (length l1)) (l1 ++ x :: l2) = l2) as ->.
  { rewrite cons_middle, app_assoc, drop_app_length'; [done|]. rewrite length_app. simpl. lia. }
  rewrite length_app in *. cbn [length] in *. rewrite fmap_app, fmap_cons in Hs.
  rewrite Forall_app, Forall_cons in Hi. split.
  - rewrite length_app. lia.
  - rewrite fmap_app. apply StronglySorted_app_2.
    + intros y z Hy Hz. eapply StronglySorted_app_1_elem_of; [done..|]. by right.
    + by apply StronglySorted_app_1_l in Hs.
    + by apply StronglySorted_app_1_r in Hs as [? _]%StronglySorted_inv.
  - rewrite Forall_app. tauto.
Qed.

(** ** What each operation does to the record *)

(** The bucket an id belongs to. *)
Definition bucket_of (t : RoutingTable) (id : NodeId) : Bucket :=
  match t_buckets t !! RoutingTable_bucket_index t id with
  | Some o => bucket_nodes o
  | None => []
  end.

Lemma bucket_lookup t id :
  table_inv t -> id_ok id ->
  exists o, t_buckets t !! RoutingTable_bucket_index t id = Some o /\ bucket_of t id = bucket_nodes o.
Proof.
  intros Ht Hid. destruct (lookup_lt_is_Some_2 (t_buckets t) (RoutingTable_bucket_index t id)) as [o Ho].
  - rewrite (ti_buckets t Ht). by apply bucket_index_bound; [apply Ht|].
  - exists o. unfold bucket_of. by rewrite Ho.
Qed.

Lemma bucket_of_ok t id :
  table_inv t -> bucket_ok (t_id t) (t_k t) (RoutingTable_bucket_index t id) (bucket_of t id).
Proof.
  intros Ht. unfold bucket_of. destruct (t_buckets t !! _) as [[b|]|] eqn:E;
    [by apply Ht|apply bucket_ok_nil..].
Qed.

Definition put_bucket (t : RoutingTable) (id : NodeId) (b : Bucket) : list (option Bucket) :=
  <[RoutingTable_bucket_index t id := Some b]> (t_buckets t).

Lemma bucket_ref_ok t i o : t_buckets t !! i = Some o -> bucket_ref i t = (Ok o, t).
Proof. intros H. unfold bucket_ref. by rewrite H. Qed.
Lemma bucket_set_ok t i o b :
  t_buckets t !! i = Some o -> bucket_set i b t = (Ok tt, set_buckets (<[i := b]> (t_buckets t)) t).
Proof. intros H. unfold bucket_set. by rewrite H. Qed.
Lemma nodes_set_ok b pos x n (t : RoutingTable) :
  b !! pos = Some x -> nodes_set b pos n t = (Ok (<[pos := n]> b), t).
Proof.
  intros H%lookup_lt_Some. unfold nodes_set. by rewrite (proj2 (Nat.ltb_lt _ _)).
Qed.
Lemma nodes_insert_ok b pos n (t : RoutingTable) :
  (pos <= length b)%nat -> nodes_insert b pos n t = (Ok (take pos b ++ n :: drop pos b), t).
Proof. intros H. unfold nodes_insert. by rewrite (proj2 (Nat.leb_le _ _)). Qed.

(** [if self.buckets[idx].is_none() { self.buckets[idx] = Some(Bucket::new()) }] *)
Lemma ensure_bucket t i o :
  t_buckets t !! i = Some o ->
  (match o with None => bucket_set i (Some []) | Some _ => mret tt end) t =
  (Ok tt, set_buckets (<[i := Some (bucket_nodes o)]> (t_buckets t)) t).
Proof.
  intros H. destruct o as [b|]; [|by apply (bucket_set_ok _ _ None)].
  bn. rewrite list_insert_id by done. by destruct t.
Qed.

Lemma add_eq t node :
  table_inv t -> node_ok node ->
  RoutingTable_add node t =
    let b := bucket_of t (n_id node) in
    match search (n_id node) b with
    | inl pos => (Ok true, set_buckets (put_bucket t (n_id node) (<[pos := node]> b)) t)
    | inr pos =>
        if (length b <? t_k t)%nat then
          (Ok true, set_size (t_size t + 1)
             (set_buckets (put_bucket t (n_id node) (take pos b ++ node :: drop pos b)) t))
        else (Ok false, set_events
             (t_pending_events t ++ [BucketFull node (RoutingTable_bucket_index t (n_id node))])
             (set_buckets (put_bucket t (n_id node) b) t))
    end.
Proof.
  intros Ht Hok. destruct (bucket_lookup t (n_id node) Ht Hok) as (o & Ho & Hb).
  pose proof (search_spec (n_id node) _ (bo_sorted _ _ _ _ (bucket_of_ok t (n_id node) Ht))) as Hs.
  cbv zeta. rewrite Hb in *. unfold RoutingTable_add, put_bucket.
  set (idx := RoutingTable_bucket_index t (n_id node)) in *.
  pose proof (lookup_lt_Some _ _ _ Ho) as Hlt.
  erewrite bind_ok by reflexivity. cbv zeta. fold idx.
  erewrite bind_ok by (by apply bucket_ref_ok). erewrite bind_ok by (by apply ensure_bucket).
  erewrite bind_ok by (apply bucket_ref_ok; cbn; by apply list_lookup_insert_eq).
  cbv beta iota. destruct (search _ _) as [pos|pos].
  - destruct Hs as (x & Hx & _). erewrite bind_ok by (by eapply nodes_set_ok).
    erewrite bind_ok by (eapply bucket_set_ok; cbn; by apply list_lookup_insert_eq).
    unfold set_buckets. cbn. by rewrite list_insert_insert_eq.
  - destruct (_ <? _)%nat; [|done].
    erewrite bind_ok by (apply nodes_insert_ok, Hs).
    erewrite bind_ok by (eapply bucket_set_ok; cbn; by apply list_lookup_insert_eq).
    unfold set_buckets. cbn. by rewrite list_insert_insert_eq.
Qed.

Lemma get_eq t id :
  table_inv t -> id_ok id ->
  RoutingTable_get id t =
    (Ok (match search id (bucket_of t id) with inl pos => bucket_of t id !! pos | inr _ => None end), t).
Proof.
  intros Ht Hok. destruct (bucket_lookup t id Ht Hok) as (o & Ho & Hb).
  pose proof (search_spec id _ (bo_sorted _ _ _ _ (bucket_of_ok t id Ht))) as Hs.
  rewrite Hb in *. unfold RoutingTable_get. erewrite bind_ok by reflexivity. cbv zeta.
  erewrite bind_ok by (by apply bucket_ref_ok). destruct o as [b|]; [|done].
  bn. destruct (search id b) as [pos|]; [|done].
  destruct Hs as (x & Hx & _). unfold fmap, M_fmap.
  erewrite bind_ok by (unfold node_at; by rewrite Hx).
  by rewrite Hx.
Qed.

Lemma remove_eq t id :
  table_inv t -> id_ok id ->
  RoutingTable_remove id t =
    let b := bucket_of t id in
    match search id b with
    | inl pos => (Ok (b !! pos), set_size (t_size t - 1)
                    (set_buckets (put_bucket t id (take pos b ++ drop (S pos) b)) t))
    | inr _ => (Ok None, t)
    end.
Proof.
  intros Ht Hok. destruct (bucket_lookup t id Ht Hok) as (o & Ho & Hb).
  pose proof (search_spec id _ (bo_sorted _ _ _ _ (bucket_of_ok t id Ht))) as Hs.
  cbv zeta. rewrite Hb in *. unfold RoutingTable_remove, put_bucket. erewrite bind_ok by reflexivity. cbv zeta.
  erewrite bind_ok by (by apply bucket_ref_ok). destruct o as [b|]; [|done].
  bn. destruct (search id b) as [pos|]; [|done].
  destruct Hs as (x & Hx & _). erewrite bind_ok by (unfold nodes_remove; by rewrite Hx).
  cbv beta iota.
  erewrite bind_ok by (by eapply bucket_set_ok).
  assert (0 < t_size t) as Hpos.
  { rewrite (ti_size t Ht). destruct (table_nodes t) eqn:E; [|lens; pose proof (len_nonneg l); lia].
    assert (x ∈ table_nodes t) as Hin; [|rewrite E in Hin; by apply not_elem_of_nil in Hin].
    apply elem_of_nodes. eauto using list_elem_of_lookup_2. }
  erewrite bind_ok by (unfold size_dec; cbn; by rewrite (proj2 (Z.ltb_lt _ _))).
  by rewrite Hx.
Qed.

(** ** The table as a finite map *)

Definition table_map (t : RoutingTable) : gmap NodeId Node :=
  list_to_map ((fun n => (n_id n, n)) <$> table_nodes t).

Lemma table_map_lookup t id n :
  table_inv t -> table_map t !! id = Some n <-> n ∈ table_nodes t /\ n_id n = id.
Proof.
  intros Ht. unfold table_map. rewrite <- elem_of_list_to_map.
  - rewrite list_elem_of_fmap. split; [|intros [? <-]; eauto].
    by intros (m & [= -> ->] & Hm).
  - rewrite <- list_fmap_compose. by apply nodes_NoDup.
Qed.

Lemma bucket_of_elem t id n : n ∈ bucket_of t id -> n ∈ table_nodes t.
Proof.
  unfold bucket_of. destruct (t_buckets t !! _) as [[b|]|] eqn:E; bn; intros Hn;
    [|by apply not_elem_of_nil in Hn..].
  apply elem_of_nodes. eauto.
Qed.
Lemma elem_of_bucket t n : table_inv t -> n ∈ table_nodes t -> n ∈ bucket_of t (n_id n).
Proof.
  intros Ht Hn. destruct (table_node_ok t n Ht Hn) as (_ & b & Hb & Hin).
  unfold bucket_of. by rewrite Hb.
Qed.

(** A bucket holds at most one node per id. *)
Lemma bucket_unique t id n m :
  table_inv t -> n ∈ bucket_of t id -> m ∈ bucket_of t id -> n_id n = n_id m -> n = m.
Proof.
  intros Ht [i Hi]%list_elem_of_lookup [j Hj]%list_elem_of_lookup Heq.
  pose proof (bo_sorted _ _ _ _ (bucket_of_ok t id Ht)) as Hs.
  destruct (lt_eq_lt_dec i j) as [[Hlt|<-]|Hlt]; [|congruence|].
  - pose proof (sorted_lookup _ _ _ _ _ Hs Hlt Hi Hj) as H. rewrite Heq in H.
    by apply irreflexivity in H; [|apply _].
  - pose proof (sorted_lookup _ _ _ _ _ Hs Hlt Hj Hi) as H. rewrite Heq in H.
    by apply irreflexivity in H; [|apply _].
Qed.

Lemma search_map t id :
  table_inv t ->
  match search id (bucket_of t id) with
  | inl pos => exists x, bucket_of t id !! pos = Some x /\ n_id x = id /\ table_map t !! id = Some x
  | inr pos => table_map t !! id = None
  end.
Proof.
  intros Ht. pose proof (search_spec id _ (bo_sorted _ _ _ _ (bucket_of_ok t id Ht))) as Hs.
  destruct (search id _) as [pos|pos].
  - destruct Hs as (x & Hx & <-). exists x. split_and!; [done..|].
    apply table_map_lookup; [done|]. split; [|done].
    by eapply bucket_of_elem, list_elem_of_lookup_2.
  - destruct Hs as (_ & Hlo & Hhi). apply eq_None_not_Some. intros [n Hn].
    apply table_map_lookup in Hn as [Hn <-]; [|done]. apply elem_of_bucket in Hn; [|done].
    rewrite Forall_forall in Hlo, Hhi. rewrite <- (take_drop pos (bucket_of _ _)) in Hn.
    apply elem_of_app in Hn as [Hn|Hn]; [apply Hlo in Hn|apply Hhi in Hn];
    by apply irreflexivity in Hn; [|apply _].
Qed.

Lemma get_map t id :
  table_inv t -> id_ok id -> RoutingTable_get id t = (Ok (table_map t !! id), t).
Proof.
  intros Ht Hid. rewrite get_eq by done. pose proof (search_map t id Ht) as H.
  destruct (search id _) as [pos|pos]; [|by rewrite H]. by destruct H as (x & -> & _ & ->).
Qed.

(** Membership is what a map is made of. *)
Lemma table_map_ext (t : RoutingTable) (m : gmap NodeId Node) :
  table_inv t ->
  (forall n id, m !! id = Some n <-> n ∈ table_nodes t /\ n_id n = id) -> table_map t = m.
Proof.
  intros Ht Hm. apply map_eq. intros id. apply option_eq. intros n.
  by rewrite Hm, table_map_lookup.
Qed.

(** Replacing the bucket of an id acts on the map through the bucket alone. *)
Lemma elem_of_put t id b t' n :
  table_inv t -> id_ok id -> t_buckets t' = put_bucket t id b ->
  n ∈ table_nodes t' <-> n ∈ b \/ (n ∈ table_nodes t /\ n ∉ bucket_of t id).
Proof.
  intros Ht Hid Hb. destruct (bucket_lookup t id Ht Hid) as (o & Ho & ->).
  eapply elem_of_update; [done..|by apply nodes_NoDup].
Qed.

Lemma inv_put t id b n ev :
  table_inv t -> id_ok id ->
  bucket_ok (t_id t) (t_k t) (RoutingTable_bucket_index t id) b ->
  n = t_size t + len b - len (bucket_of t id) ->
  table_inv (mkTable (t_id t) (t_k t) (put_bucket t id b) n ev).
Proof.
  intros Ht Hid Hb ->. destruct (bucket_lookup t id Ht Hid) as (o & Ho & ->).
  by apply inv_update.
Qed.

(** What [add] does, as a relation between tables. *)
Definition added (t : RoutingTable) (node : Node) (r : bool) (t' : RoutingTable) : Prop :=
  table_inv t' /\ t_id t' = t_id t /\ t_k t' = t_k t /\
  if r then
    table_map t' = <[n_id node := node]> (table_map t) /\
    t_pending_events t' = t_pending_events t
  else
    table_map t' = table_map t /\ table_map t !! n_id node = None /\
    length (bucket_of t (n_id node)) = t_k t /\
    t_pending_events t' =
      t_pending_events t ++ [BucketFull node (RoutingTable_bucket_index t (n_id node))].

(** Inserting into, deleting from the bucket of an id. *)
Lemma map_put_insert t t' node b :
  table_inv t -> table_inv t' -> node_ok node -> t_buckets t' = put_bucket t (n_id node) b ->
  (forall n, n ∈ b <-> n = node \/ (n ∈ bucket_of t (n_id node) /\ n_id n <> n_id node)) ->
  table_map t' = <[n_id node := node]> (table_map t).
Proof.
  intros Ht Ht' Hok Hb Hin. apply table_map_ext; [done|]. intros n id.
  rewrite (elem_of_put t (n_id node) b t' n Ht Hok Hb), lookup_insert_Some, table_map_lookup, Hin by done.
  split.
  - intros [[<- <-]|(Hne & Hn & <-)]; [by auto|].
    destruct (decide (n ∈ bucket_of t (n_id node))); auto.
  - intros [[[->|[Hn Hne]]|[Hn Hnb]] <-]; [by left|right..].
    + split_and!; [done|by eapply bucket_of_elem|done].
    + split_and!; [|done..]. intros E. apply Hnb. rewrite E. by apply elem_of_bucket.
Qed.

Lemma map_put_delete t t' id b :
  table_inv t -> table_inv t' -> id_ok id -> t_buckets t' = put_bucket t id b ->
  (forall n, n ∈ b <-> n ∈ bucket_of t id /\ n_id n <> id) ->
  table_map t' = delete id (table_map t).
Proof.
  intros Ht Ht' Hok Hb Hin. apply table_map_ext; [done|]. intros n i.
  rewrite (elem_of_put t id b t' n Ht Hok Hb), lookup_delete_Some, table_map_lookup, Hin by done.
  split.
  - intros (Hne & Hn & <-). destruct (decide (n ∈ bucket_of t id)); auto.
  - intros [[[Hn Hne]|[Hn Hnb]] <-].
    + split_and!; [done|by eapply bucket_of_elem|done].
    + split_and!; [|done..]. intros E. apply Hnb. rewrite E. by apply elem_of_bucket.
Qed.

(** Splitting a bucket at a position. *)
Lemma bucket_split t id pos x :
  table_inv t -> bucket_of t id !! pos = Some x ->
  exists l1 l2, bucket_of t id = l1 ++ x :: l2 /\ length l1 = pos /\
    Forall (fun n => n_id n <> n_id x) (l1 ++ l2).
Proof.
  intros Ht Hx. pose proof (sorted_NoDup _ (bo_sorted _ _ _ _ (bucket_of_ok t id Ht))) as Hnd.
  apply list_elem_of_split_length in Hx as (l1 & l2 & E & Hl). exists l1, l2.
  split_and!; [done..|]. rewrite E, fmap_app, fmap_cons in Hnd.
  apply NoDup_app in Hnd as (_ & H1 & [H2 _]%NoDup_cons).
  apply Forall_forall. intros n Hn Heq. apply elem_of_app in Hn as [Hn|Hn].
  - apply (H1 (n_id x)); [rewrite <- Heq; by apply list_elem_of_fmap_2|by left].
  - apply H2. rewrite <- Heq. by apply list_elem_of_fmap_2.
Qed.

Lemma added_replace t node pos x :
  table_inv t -> node_ok node ->
  bucket_of t (n_id node) !! pos = Some x -> n_id x = n_id node ->
  added t node true
    (set_buckets (put_bucket t (n_id node) (<[pos := node]> (bucket_of t (n_id node)))) t).
Proof.
  intros Ht Hok Hx Hid.
  assert (table_inv (set_buckets
    (put_bucket t (n_id node) (<[pos := node]> (bucket_of t (n_id node)))) t)) as Ht'.
  { apply inv_put; [done..| |].
    - eapply bucket_ok_replace; [by apply bucket_of_ok|done..].
    - unfold len. rewrite length_insert. lia. }
  split_and!; [done..| |done]. eapply map_put_insert; [done..|].
  destruct (bucket_split t _ _ _ Ht Hx) as (l1 & l2 & E & <- & Hne). rewrite Hid in Hne.
  rewrite E, insert_app_r_alt, Nat.sub_diag by lia. cbn [insert list_insert].
  intros n. rewrite !elem_of_app, !elem_of_cons. rewrite Forall_forall in Hne.
  specialize (Hne n). rewrite elem_of_app in Hne.
  destruct (decide (n = x)) as [->|]; tauto.
Qed.

Lemma added_insert t node pos :
  table_inv t -> node_ok node ->
  search (n_id node) (bucket_of t (n_id node)) = inr pos ->
  (length (bucket_of t (n_id node)) < t_k t)%nat ->
  added t node true (set_size (t_size t + 1) (set_buckets (put_bucket t (n_id node)
    (take pos (bucket_of t (n_id node)) ++ node :: drop pos (bucket_of t (n_id node)))) t)).
Proof.
  intros Ht Hok Hs Hlt. pose proof (bucket_of_ok t (n_id node) Ht) as Hb.
  pose proof (search_spec (n_id node) _ (bo_sorted _ _ _ _ Hb)) as Hsp. rewrite Hs in Hsp.
  destruct Hsp as (Hpos & Hlo & Hhi).
  assert (table_inv (set_size (t_size t + 1) (set_buckets (put_bucket t (n_id node)
    (take pos (bucket_of t (n_id node)) ++ node :: drop pos (bucket_of t (n_id node)))) t))) as Ht'.
  { apply (inv_put t (n_id node)); [done..| |].
    - by apply bucket_ok_insert.
    - unfold len. rewrite length_app. cbn [length]. rewrite length_take, length_drop. lia. }
  split_and!; [done..| |done]. eapply map_put_insert; [done..|]. intros n.
  assert (n ∈ bucket_of t (n_id node) <->
    n ∈ take pos (bucket_of t (n_id node)) \/ n ∈ drop pos (bucket_of t (n_id node))) as Hin
    by (by rewrite <- elem_of_app, take_drop).
  rewrite !elem_of_app, elem_of_cons. rewrite !Forall_forall in *.
  specialize (Hlo n). specialize (Hhi n).
  assert (n ∈ take pos (bucket_of t (n_id node)) -> n_id n <> n_id node).
  { intros Hn E. apply Hlo in Hn. rewrite E in Hn. by apply irreflexivity in Hn; [|apply _]. }
  assert (n ∈ drop pos (bucket_of t (n_id node)) -> n_id n <> n_id node).
  { intros Hn E. apply Hhi in Hn. rewrite E in Hn. by apply irreflexivity in Hn; [|apply _]. }
  tauto.
Qed.

(** A full bucket changes nothing but the queue of events. *)
Lemma added_full t node pos :
  table_inv t -> node_ok node ->
  search (n_id node) (bucket_of t (n_id node)) = inr pos ->
  (t_k t <= length (bucket_of t (n_id node)))%nat ->
  added t node false (set_events
    (t_pending_events t ++ [BucketFull node (RoutingTable_bucket_index t (n_id node))])
    (set_buckets (put_bucket t (n_id node) (bucket_of t (n_id node))) t)).
Proof.
  intros Ht Hok Hs Hge. pose proof (bucket_of_ok t (n_id node) Ht) as Hb.
  pose proof (search_map t (n_id node) Ht) as Hm. rewrite Hs in Hm.
  assert (table_inv (set_events
    (t_pending_events t ++ [BucketFull node (RoutingTable_bucket_index t (n_id node))])
    (set_buckets (put_bucket t (n_id node) (bucket_of t (n_id node))) t))) as Ht'.
  { apply (inv_put t (n_id node)); [done..|cbn; lia]. }
  split_and!; [done..| |done| |done].
  - apply table_map_ext; [done|]. intros n id.
    rewrite (elem_of_put t (n_id node) (bucket_of t (n_id node))), table_map_lookup by done.
    pose proof (bucket_of_elem t (n_id node) n).
    destruct (decide (n ∈ bucket_of t (n_id node))); tauto.
  - pose proof (bo_size _ _ _ _ Hb). lia.
Qed.

Lemma add_spec t node :
  table_inv t -> node_ok node ->
  exists r t', RoutingTable_add node t = (Ok r, t') /\ added t node r t'.
Proof.
  intros Ht Hok. rewrite add_eq by done. cbv zeta.
  pose proof (search_map t (n_id node) Ht) as Hm.
  destruct (search _ _) as [pos|pos] eqn:Hs.
  - destruct Hm as (x & Hx & Hid & _). do 2 eexists. split; [done|]. by eapply added_replace.
  - destruct (Nat.ltb_spec (length (bucket_of t (n_id node))) (t_k t)).
    + do 2 eexists. split; [done|]. by apply added_insert.
    + do 2 eexists. split; [done|]. by eapply added_full.
Qed.

Lemma remove_spec t id :
  table_inv t -> id_ok id ->
  exists t', RoutingTable_remove id t = (Ok (table_map t !! id), t') /\ table_inv t' /\
    t_id t' = t_id t /\ t_k t' = t_k t /\ t_pending_events t' = t_pending_events t /\
    table_map t' = delete id (table_map t).
Proof.
  intros Ht Hok. rewrite remove_eq by done. cbv zeta. pose proof (search_map t id Ht) as Hm.
  destruct (search id _) as [pos|pos].
  2: { eexists. rewrite Hm. split_and!; [done..|]. by rewrite delete_id. }
  destruct Hm as (x & Hx & Hid & Hmx). rewrite Hx, Hmx.
  assert (table_inv (set_size (t_size t - 1) (set_buckets (put_bucket t id
    (take pos (bucket_of t id) ++ drop (S pos) (bucket_of t id))) t))) as Ht'.
  { apply (inv_put t id); [done..| |].
    - by apply bucket_ok_remove, bucket_of_ok.
    - apply lookup_lt_Some in Hx. unfold len. rewrite length_app, length_take, length_drop. lia. }
  eexists. split_and!; [done..|]. eapply map_put_delete; [done..|].
  destruct (bucket_split t _ _ _ Ht Hx) as (l1 & l2 & E & <- & Hne). rewrite Hid in Hne.
  rewrite E, take_app_length.
  assert (drop (S (length l1)) (l1 ++ x :: l2) = l2) as ->.
  { rewrite cons_middle, app_assoc, drop_app_length'; [done|]. rewrite length_app. simpl. lia. }
  intros n. rewrite Forall_forall in Hne. specialize (Hne n).
  rewrite !elem_of_app, elem_of_cons in *. destruct (decide (n = x)) as [->|]; tauto.
Qed.
