(* ===== verification/XorMetric.v ===== *)
(** * XorMetric: buckets and the XOR distance

    The bucket index of an id is the length of the prefix it shares with the
    local id, so the nodes in a target's own bucket are nearer to the target
    than all others. *)

From S2P Require Import Prelude RustStd CompactEncoding Codec Peer RoutingTable RoutingTableProofs.

#[local] Open Scope Z_scope.

(** ** One byte *)

(** [x], [y], [w] are the differences of target, node and other node from the
    local byte.  A threshold separates the distances of the node and of the
    other from the target. *)
Definition near (p : Z -> nat) (bound : Z -> Z) (x y : Z) : bool :=
  if (p x =? p y)%nat then Z.lxor y x <? bound x else bound x <=? Z.lxor y x.
Definition zeros_bound (x : Z) : Z := 2 ^ (7 - Z.of_nat (leading_zeros x)).
(** In the last byte, equality and the lowest bit share an index. *)
Definition last_zeros (x : Z) : nat := Nat.min 7 (leading_zeros x).
Definition last_bound (x : Z) : Z := 2 ^ Z.max 1 (7 - Z.of_nat (last_zeros x)).

Lemma near_tests :
  forallb (fun x => forallb (fun y =>
    ((x =? 0) || near leading_zeros zeros_bound x y) && near last_zeros last_bound x y)
    all_bytes) all_bytes = true.
Proof. vm_compute. reflexivity. Qed.

Lemma near_test x y :
  is_byte x -> is_byte y ->
  (x <> 0 -> near leading_zeros zeros_bound x y = true) /\ near last_zeros last_bound x y = true.
Proof.
  intros Hx Hy. pose proof near_tests as H. rewrite forallb_forall in H.
  specialize (H x). rewrite forallb_forall in H.
  assert (H0 : forall b, is_byte b -> In b all_bytes)
    by (intros b Hb; by apply list_elem_of_In, all_bytes_spec).
  specialize (H (H0 x Hx) y (H0 y Hy)). apply andb_true_iff in H as [H1 H2].
  split; [|done]. intros Hne. apply Z.eqb_neq in Hne. by rewrite Hne in H1.
Qed.

Lemma near_lt p bound x y w :
  near p bound x y = true -> near p bound x w = true -> p y = p x -> p w <> p x ->
  Z.lxor y x < Z.lxor w x.
Proof.
  unfold near. intros H1 H2 He Hne. rewrite He, Nat.eqb_refl in H1.
  rewrite (proj2 (Nat.eqb_neq _ _)) in H2 by congruence. lia.
Qed.

Lemma lxor_shift a b o : Z.lxor a b = Z.lxor (Z.lxor a o) (Z.lxor b o).
Proof.
  apply Z.bits_inj'. intros i _. rewrite !Z.lxor_spec.
  by destruct (Z.testbit a i), (Z.testbit b i), (Z.testbit o i).
Qed.

Lemma lxor_is_byte a b : is_byte a -> is_byte b -> is_byte (Z.lxor a b).
Proof.
  intros Ha Hb. destruct (decide (a = b)) as [->|Hne].
  - rewrite Z.lxor_nilpotent. done.
  - pose proof (lxor_byte a b Ha Hb Hne). unfold is_byte. lia.
Qed.

(** A byte where target, node and other all enter with their difference. *)
Lemma byte_nearer (o t n m : Z) :
  is_byte o -> is_byte t -> is_byte n -> is_byte m -> t <> o ->
  leading_zeros (Z.lxor n o) = leading_zeros (Z.lxor t o) ->
  leading_zeros (Z.lxor m o) <> leading_zeros (Z.lxor t o) ->
  Z.lxor n t < Z.lxor m t.
Proof.
  intros Ho Ht Hn Hm Hne Hnz Hmz. rewrite (lxor_shift n t o), (lxor_shift m t o).
  eapply (near_lt leading_zeros zeros_bound); [..|done|done];
    apply near_test; auto using lxor_is_byte; by intros ?%Z.lxor_eq.
Qed.

Lemma last_byte_nearer (o t n m : Z) :
  is_byte o -> is_byte t -> is_byte n -> is_byte m ->
  last_zeros (Z.lxor n o) = last_zeros (Z.lxor t o) ->
  last_zeros (Z.lxor m o) <> last_zeros (Z.lxor t o) ->
  Z.lxor n t < Z.lxor m t.
Proof.
  intros Ho Ht Hn Hm Hnz Hmz. rewrite (lxor_shift n t o), (lxor_shift m t o).
  eapply (near_lt last_zeros last_bound); [..|done|done];
    apply near_test; auto using lxor_is_byte.
Qed.

(** ** Whole ids *)

Lemma index_ge i id own :
  (i + length id = 32)%nat -> (Nat.min (8 * i) 255 <= bucket_index_from i id own)%nat.
Proof.
  revert i own. induction id as [|a id IH]; intros i [|o own] Hl; cbn [bucket_index_from length] in *;
    try (unfold NUM_BUCKETS; lia).
  destruct (Z.eqb_spec a o); cbn [negb]; [|lia].
  specialize (IH (S i) own). lia.
Qed.

(** The index decided by the first byte. *)
Lemma index_diff i a id o own :
  a <> o -> bucket_index_from i (a :: id) (o :: own) = (i * 8 + leading_zeros (Z.lxor a o))%nat.
Proof. intros H. cbn. by rewrite (proj2 (Z.eqb_neq _ _)). Qed.
Lemma index_same i id o own :
  bucket_index_from i (o :: id) (o :: own) = bucket_index_from (S i) id own.
Proof. cbn. by rewrite Z.eqb_refl. Qed.

Lemma diff_zeros a o : is_byte a -> is_byte o -> a <> o -> (leading_zeros (Z.lxor a o) <= 7)%nat.
Proof. intros. by apply leading_zeros_bound, lxor_byte. Qed.

(** The last byte: the index is [8 * 31] plus [last_zeros]. *)
Lemma index_last a o :
  is_byte a -> is_byte o -> bucket_index_from 31 [a] [o] = (248 + last_zeros (Z.lxor a o))%nat.
Proof.
  intros Ha Ho. destruct (decide (a = o)) as [->|Hne].
  - rewrite index_same, Z.lxor_nilpotent. done.
  - rewrite index_diff by done. pose proof (diff_zeros a o Ha Ho Hne).
    unfold last_zeros. lia.
Qed.

Lemma nearer_from own : forall i t n m,
  (i + length own = 32)%nat -> (0 < length own)%nat ->
  bytes_ok own -> bytes_ok t -> bytes_ok n -> bytes_ok m ->
  length t = length own -> length n = length own -> length m = length own ->
  bucket_index_from i n own = bucket_index_from i t own ->
  bucket_index_from i m own <> bucket_index_from i t own ->
  id_lt (xor_bytes n t) (xor_bytes m t).
Proof.
  induction own as [|o own IH]; intros i [|t0 t] [|n0 n] [|m0 m] Hi Hpos Ho Ht Hn Hm Hlt Hln Hlm Hnt Hmt;
    cbn [length] in *; try lia.
  rewrite Forall_cons in Ho, Ht, Hn, Hm.
  destruct Ho as [Ho Hos], Ht as [Ht Hts], Hn as [Hn Hns], Hm as [Hm Hms].
  unfold id_lt. cbn [xor_bytes cmp_bytes].
  destruct (decide (own = [])) as [->|Hown].
  { assert (t = [] /\ n = [] /\ m = []) as (-> & -> & ->)
      by (cbn in *; split_and!; apply nil_length_inv; lia).
    assert (i = 31%nat) as -> by (cbn in Hi; lia). rewrite !index_last in * by done.
    pose proof (last_byte_nearer o t0 n0 m0 Ho Ht Hn Hm) as Hlt0.
    by rewrite (proj2 (Z.compare_lt_iff _ _)) by (apply Hlt0; lia). }
  assert (0 < length own)%nat as Hpos' by (destruct own; [done|simpl; lia]).
  destruct (decide (t0 = o)) as [->|Hto].
  - (* the target agrees with the local id here, so the node does too *)
    rewrite index_same in *. pose proof (index_ge (S i) t own).
    destruct (decide (n0 = o)) as [->|Hno].
    2: { rewrite index_diff in Hnt by done. pose proof (diff_zeros n0 o Hn Ho Hno). lia. }
    rewrite index_same in Hnt. rewrite Z.lxor_nilpotent.
    destruct (decide (m0 = o)) as [->|Hmo].
    + rewrite Z.lxor_nilpotent. rewrite index_same in Hmt. cbn.
      eapply (IH (S i)); try done; lia.
    + pose proof (lxor_byte m0 o Hm Ho Hmo). by rewrite (proj2 (Z.compare_lt_iff _ _)) by lia.
  - (* the target leaves the local prefix here *)
    rewrite (index_diff i t0) in * by done. pose proof (diff_zeros t0 o Ht Ho Hto).
    assert (leading_zeros (Z.lxor n0 o) = leading_zeros (Z.lxor t0 o)) as Hnz.
    { destruct (decide (n0 = o)) as [->|Hno]; [|rewrite index_diff in Hnt by done; lia].
      rewrite index_same in Hnt. pose proof (index_ge (S i) n own). lia. }
    assert (leading_zeros (Z.lxor m0 o) <> leading_zeros (Z.lxor t0 o)) as Hmz.
    { destruct (decide (m0 = o)) as [->|Hmo]; [|rewrite index_diff in Hmt by done; lia].
      rewrite Z.lxor_nilpotent. change (leading_zeros 0) with 8%nat. lia. }
    by rewrite (proj2 (Z.compare_lt_iff _ _) (byte_nearer o t0 n0 m0 Ho Ht Hn Hm Hto Hnz Hmz)).
Qed.

Lemma nearer own t n m :
  id_ok own -> id_ok t -> id_ok n -> id_ok m ->
  bucket_index_from 0 n own = bucket_index_from 0 t own ->
  bucket_index_from 0 m own <> bucket_index_from 0 t own ->
  id_lt (xor_bytes n t) (xor_bytes m t).
Proof.
  unfold id_ok, fixed_ok, len. intros [Ho Hlo] [Ht Hlt] [Hn Hln] [Hm Hlm].
  apply nearer_from; done || lia.
Qed.
