(* ===== verification/RoutingTableTheorems.v ===== *)
(** * RoutingTableTheorems: what the routing table guarantees

    Refinement to a finite map, the invariant over every sequence of
    operations, the nodes [closest], [random] and [recent] return, and how
    [closest] relates to the XOR metric. *)

From S2P Require Import Prelude RustStd CompactEncoding Codec Peer RoutingTable.
From S2P Require Import RoutingTableProofs XorMetric.

#[local] Open Scope Z_scope.

(** ** New tables *)

Lemma replicate_none_nodes n : replicate n None ≫= bucket_nodes = [].
Proof. induction n as [|n IH]; cbn; [done|]. apply IH. Qed.

Lemma with_k_inv id k : id_ok id -> table_inv (RoutingTable_with_k id k).
Proof.
  intros Hid. split; cbn [RoutingTable_with_k t_id t_k t_buckets t_size].
  - done.
  - apply length_replicate.
  - intros i b [Hn _]%lookup_replicate. done.
  - unfold table_nodes. cbn [t_buckets RoutingTable_with_k]. by rewrite replicate_none_nodes.
Qed.

Lemma with_k_map id k : table_map (RoutingTable_with_k id k) = ∅.
Proof. unfold table_map, table_nodes. cbn [t_buckets RoutingTable_with_k]. by rewrite replicate_none_nodes. Qed.

(** ** get_mut *)

Lemma get_mut_spec t id f :
  table_inv t -> id_ok id -> (forall n, n_id (f n) = n_id n) ->
  exists t', RoutingTable_get_mut id f t = (Ok (f <$> table_map t !! id), t') /\ table_inv t' /\
    t_id t' = t_id t /\ t_k t' = t_k t /\
    t_pending_events t' = t_pending_events t /\
    table_map t' = match table_map t !! id with
                   | Some n => <[id := f n]> (table_map t)
                   | None => table_map t
                   end.
Proof.
  intros Ht Hok Hf. destruct (bucket_lookup t id Ht Hok) as (o & Ho & Hb).
  pose proof (search_map t id Ht) as Hs. unfold RoutingTable_get_mut.
  erewrite bind_ok by reflexivity. cbv zeta. erewrite bind_ok by (by apply bucket_ref_ok).
  destruct o as [b|]; bn; rewrite Hb in Hs.
  2: { destruct (search id []) as [pos|pos]; [by destruct Hs as (? & [=] & _)|].
       exists t. by rewrite Hs. }
  destruct (search id b) as [pos|pos]; [|exists t; by rewrite Hs].
  destruct Hs as (x & Hx & Hid & Hm). rewrite Hm.
  erewrite bind_ok by (unfold node_at; by rewrite Hx). cbv beta.
  erewrite bind_ok by (by eapply nodes_set_ok). erewrite bind_ok by (by eapply bucket_set_ok).
  assert (id = n_id (f x)) as Hfx by (by rewrite Hf).
  destruct (added_replace t (f x) pos x) as (Ht' & H1 & H2 & H3 & H4); [done|..].
  - unfold node_ok. by rewrite <- Hfx.
  - by rewrite <- Hfx, Hb.
  - by rewrite Hf.
  - rewrite <- Hfx, Hb in *. by eexists.
Qed.

(** ** rebuild_with_id *)

Lemma bucket_of_same_index t id id' :
  RoutingTable_bucket_index t id = RoutingTable_bucket_index t id' -> bucket_of t id = bucket_of t id'.
Proof. unfold bucket_of. by intros ->. Qed.

Lemma bucket_of_index t id n :
  table_inv t -> n ∈ bucket_of t id ->
  RoutingTable_bucket_index t (n_id n) = RoutingTable_bucket_index t id.
Proof.
  intros Ht Hn. destruct (bucket_of_ok t id Ht) as [_ _ Hi].
  rewrite Forall_forall in Hi. by apply Hi.
Qed.

(** A full bucket stays full while the table grows. *)
Lemma bucket_of_mono t t' id :
  table_inv t -> table_inv t' -> t_id t' = t_id t -> table_map t ⊆ table_map t' ->
  (length (bucket_of t id) <= length (bucket_of t' id))%nat.
Proof.
  intros Ht Ht' Hid Hsub. apply submseteq_length, NoDup_submseteq.
  - apply (NoDup_fmap_1 n_id), sorted_NoDup. apply (bucket_of_ok t id Ht).
  - intros n Hn. rewrite (bucket_of_same_index t' id (n_id n)).
    + apply elem_of_bucket; [done|].
      apply (proj1 (table_map_lookup t' (n_id n) n Ht')). eapply lookup_weaken; [|done].
      apply table_map_lookup; [done|]. eauto using bucket_of_elem.
    + pose proof (bucket_of_index t id n Ht Hn) as E. unfold RoutingTable_bucket_index in *.
      by rewrite Hid.
Qed.

Definition readd (own : NodeId) (node : Node) : Tbl unit :=
  if bool_decide (n_id node = own) then mret tt else RoutingTable_add node ;; mret tt.

(** What re-adding a list of nodes to [t] leads to: each node is in the table
    afterwards unless it has the own id or its bucket is full, and nothing else
    is new. *)
Definition readded (own : NodeId) (t : RoutingTable) (nodes : list Node) (t' : RoutingTable) : Prop :=
  table_inv t' /\ t_id t' = t_id t /\ t_k t' = t_k t /\ table_map t ⊆ table_map t' /\
  (forall id n, table_map t' !! id = Some n ->
     table_map t !! id = Some n \/ (n ∈ nodes /\ n_id n = id /\ id <> own)) /\
  (forall n, n ∈ nodes -> n_id n <> own ->
     table_map t' !! n_id n = Some n \/ length (bucket_of t' (n_id n)) = t_k t).

(** One more node in front, skipped, stored or refused. *)
Lemma readded_skip own t n nodes t' :
  n_id n = own -> readded own t nodes t' -> readded own t (n :: nodes) t'.
Proof.
  intros Hn (H1 & H2 & H3 & H4 & H5 & H6). split_and!; [done..| |].
  - intros id m Hm. destruct (H5 id m Hm) as [|(? & ? & ?)]; [by left|right].
    split_and!; [by right|done..].
  - intros m [->|Hm]%elem_of_cons Hne; [done|by apply H6].
Qed.

Lemma readded_stored own t n nodes t1 t' :
  n_id n <> own -> table_map t !! n_id n = None -> added t n true t1 ->
  readded own t1 nodes t' -> readded own t (n :: nodes) t'.
Proof.
  intros Hn Hnone (_ & Hi & Hk & Hmap & _) (H1 & H2 & H3 & H4 & H5 & H6).
  rewrite Hmap in *. split_and!; [done|congruence..| | |].
  - etrans; [|done]. by apply insert_subseteq.
  - intros id m Hm. destruct (H5 id m Hm) as [Hin|(? & ? & ?)].
    + apply lookup_insert_Some in Hin as [[<- <-]|[_ ?]]; [right|by left].
      split_and!; [by left|done..].
    + right. split_and!; [by right|done..].
  - intros m [->|Hm]%elem_of_cons Hne; [left|rewrite <- Hk; by apply H6].
    eapply lookup_weaken; [|done]. apply lookup_insert_eq.
Qed.

Lemma readded_refused own t n nodes t1 t' :
  table_inv t -> added t n false t1 -> readded own t1 nodes t' -> readded own t (n :: nodes) t'.
Proof.
  intros Ht (Ht1 & Hi & Hk & Hmap & _ & Hfull & _) (H1 & H2 & H3 & H4 & H5 & H6).
  rewrite Hmap in *. split_and!; [done|congruence..|done| |].
  - intros id m Hm. destruct (H5 id m Hm) as [|(? & ? & ?)]; [by left|right].
    split_and!; [by right|done..].
  - intros m [->|Hm]%elem_of_cons Hne; [right|rewrite <- Hk; by apply H6].
    pose proof (bucket_of_mono t t' (n_id n) Ht H1).
    pose proof (bo_size _ _ _ _ (bucket_of_ok t' (n_id n) H1)) as Hsz.
    rewrite H3, Hk in Hsz. apply Nat.le_antisymm; [done|]. rewrite <- Hfull.
    apply H; [congruence|done].
Qed.

Lemma readd_all own nodes t :
  table_inv t -> Forall node_ok nodes -> NoDup (n_id <$> nodes) ->
  (forall n, n ∈ nodes -> table_map t !! n_id n = None) ->
  exists t', for_m nodes (readd own) t = (Ok tt, t') /\ readded own t nodes t'.
Proof.
  intros Ht Hok. revert t Ht. induction Hok as [|n nodes Hn Hok IH]; intros t Ht Hnd Hnew.
  - exists t. split; [done|]. split_and!; [done..|by left|]. by intros n Hn%not_elem_of_nil.
  - rewrite fmap_cons, NoDup_cons in Hnd. destruct Hnd as [Hnotin Hnd]. cbn [for_m].
    unfold readd at 2. case_bool_decide as Hown.
    { destruct (IH t Ht Hnd) as (t' & E & H); [by intros m Hm; apply Hnew; right|].
      exists t'. erewrite bind_ok by reflexivity. split; [done|by apply readded_skip]. }
    destruct (add_spec t n Ht Hn) as (r & t1 & Hadd & Hadded).
    erewrite bind_ok by (by erewrite bind_ok by done).
    destruct (IH t1) as (t' & E & H); [apply Hadded|done| |].
    { intros m Hm. assert (n_id n <> n_id m) as Hne.
      { intros Heq. apply Hnotin. rewrite Heq. by apply list_elem_of_fmap_2. }
      destruct r; destruct Hadded as (_ & _ & _ & -> & _); rewrite ?lookup_insert_ne by done;
      by apply Hnew; right. }
    exists t'. split; [done|]. destruct r.
    + eapply readded_stored; [done| |done..]. by apply Hnew; left.
    + by eapply readded_refused.
Qed.

Lemma rebuild_spec t new_id :
  table_inv t -> id_ok new_id -> t_id t <> new_id ->
  exists t', RoutingTable_rebuild_with_id new_id t = (Ok tt, t') /\
    table_inv t' /\ t_id t' = new_id /\ t_k t' = t_k t /\ table_map t' ⊆ table_map t /\
    table_map t' !! new_id = None /\
    (forall id n, table_map t !! id = Some n -> id <> new_id ->
       table_map t' !! id = Some n \/ length (bucket_of t' id) = t_k t).
Proof.
  intros Ht Hid Hne. unfold RoutingTable_rebuild_with_id. erewrite bind_ok by reflexivity.
  rewrite bool_decide_false by done. cbv zeta. erewrite bind_ok by reflexivity.
  set (t0 := mkTable _ _ _ _ _).
  assert (t0 = RoutingTable_with_k new_id (t_k t)) as E0.
  { unfold t0, RoutingTable_with_k. f_equal. rewrite <- (ti_buckets t Ht).
    generalize (t_buckets t). intros l. induction l; cbn; congruence. }
  destruct (readd_all new_id (table_nodes t) t0) as (t' & E & H1 & H2 & H3 & H4 & H5 & H6).
  - rewrite E0. by apply with_k_inv.
  - apply Forall_forall. intros n Hn. by apply (table_node_ok t n Ht).
  - by apply nodes_NoDup.
  - intros n _. by rewrite E0, with_k_map.
  - exists t'. rewrite E0, with_k_map in *.
    assert (table_map t' ⊆ table_map t) as Hsub.
    { apply map_subseteq_spec. intros id n Hn.
      destruct (H5 id n Hn) as [?|(Hin & <- & _)]; [by rewrite lookup_empty in *|].
      by apply table_map_lookup. }
    split_and!; [done..| |].
    + apply eq_None_not_Some. intros [n Hn].
      destruct (H5 new_id n Hn) as [?|(_ & _ & ?)]; [by rewrite lookup_empty in *|done].
    + intros id n [Hn <-]%table_map_lookup Hdiff; [|done]. by apply H6.
Qed.

(** ** closest *)

(** The nodes at position [i], and the buckets in the order they are scanned. *)
Definition nodes_at (bs : list (option Bucket)) (i : nat) : list Node :=
  match bs !! i with Some o => bucket_nodes o | None => [] end.
Fixpoint down_nodes (bs : list (option Bucket)) (n : nat) : list Node :=
  match n with O => [] | S i => nodes_at bs i ++ down_nodes bs i end.
Fixpoint up_nodes (bs : list (option Bucket)) (n : nat) : list Node :=
  match n with O => [] | S n' => nodes_at bs (NUM_BUCKETS - n) ++ up_nodes bs n' end.
Definition scan_order (t : RoutingTable) (d : nat) : list Node :=
  down_nodes (t_buckets t) (S d) ++ up_nodes (t_buckets t) (NUM_BUCKETS - (d + 1)).

Lemma push_nodes_eq k result b : push_nodes k result b = result ++ take (k - length result) b.
Proof.
  revert result. induction b as [|n b IH]; intros result; cbn [push_nodes].
  - by rewrite take_nil, app_nil_r.
  - destruct (Nat.leb_spec k (length result)).
    + replace (k - length result)%nat with 0%nat by lia. by rewrite app_nil_r.
    + rewrite IH, length_app. cbn [length].
      replace (k - length result)%nat with (S (k - (length result + 1))) by lia.
      cbn [take]. by rewrite <- app_assoc.
Qed.

Lemma push_bucket_eq k bs i result :
  push_bucket k bs i result = result ++ take (k - length result) (nodes_at bs i).
Proof.
  unfold push_bucket, nodes_at. destruct (bs !! i) as [[b|]|]; [apply push_nodes_eq|..];
  bn; by rewrite take_nil, app_nil_r.
Qed.

(** One bucket, then the rest. *)
Lemma take_scan {A} k (result b rest : list A) :
  (result ++ take (k - length result) b) ++
    take (k - length (result ++ take (k - length result) b)) rest =
  result ++ take (k - length result) (b ++ rest).
Proof.
  rewrite <- app_assoc, take_app. do 2 f_equal. f_equal.
  rewrite length_app, length_take. lia.
Qed.

Lemma scan_down_eq k bs n result :
  scan_down k bs n result = result ++ take (k - length result) (down_nodes bs n).
Proof.
  revert result. induction n as [|i IH]; intros result; cbn [scan_down down_nodes].
  - by rewrite take_nil, app_nil_r.
  - destruct (Nat.leb_spec k (length result)).
    + replace (k - length result)%nat with 0%nat by lia. by rewrite app_nil_r.
    + by rewrite IH, push_bucket_eq, take_scan.
Qed.

Lemma scan_up_eq k bs n result :
  scan_up k bs n result = result ++ take (k - length result) (up_nodes bs n).
Proof.
  revert result. induction n as [|i IH]; intros result; cbn [scan_up up_nodes].
  - by rewrite take_nil, app_nil_r.
  - destruct (Nat.leb_spec k (length result)).
    + replace (k - length result)%nat with 0%nat by lia. by rewrite app_nil_r.
    + by rewrite IH, push_bucket_eq, take_scan.
Qed.

Lemma closest_eq t target k :
  RoutingTable_closest t target k = take k (scan_order t (RoutingTable_bucket_index t target)).
Proof.
  unfold RoutingTable_closest, scan_order. rewrite scan_up_eq, scan_down_eq.
  rewrite take_scan. cbn [app length]. by rewrite Nat.sub_0_r.
Qed.

(** The scan visits every bucket once. *)
Lemma down_nodes_perm bs n :
  (n <= length bs)%nat -> down_nodes bs n ≡ₚ take n bs ≫= bucket_nodes.
Proof.
  induction n as [|n IH]; intros Hn; cbn [down_nodes]; [done|].
  destruct (lookup_lt_is_Some_2 bs n) as [o Ho]; [lia|].
  rewrite (take_S_r _ _ _ Ho), bind_app, IH by lia. unfold nodes_at. rewrite Ho.
  cbn [mbind list_bind]. rewrite app_nil_r. apply Permutation_app_comm.
Qed.

Lemma up_nodes_eq bs n :
  (n <= NUM_BUCKETS)%nat -> length bs = NUM_BUCKETS ->
  up_nodes bs n = drop (NUM_BUCKETS - n) bs ≫= bucket_nodes.
Proof.
  intros Hn Hl. induction n as [|n IH]; cbn [up_nodes].
  - by rewrite drop_ge by lia.
  - destruct (lookup_lt_is_Some_2 bs (NUM_BUCKETS - S n)) as [o Ho]; [lia|].
    rewrite IH, (drop_S _ _ _ Ho) by lia. unfold nodes_at. rewrite Ho.
    cbn [mbind list_bind]. by replace (S (NUM_BUCKETS - S n)) with (NUM_BUCKETS - n)%nat by lia.
Qed.

Lemma scan_order_perm t d :
  table_inv t -> (d < NUM_BUCKETS)%nat -> scan_order t d ≡ₚ table_nodes t.
Proof.
  intros Ht Hd. pose proof (ti_buckets t Ht) as Hl. unfold scan_order, table_nodes.
  rewrite up_nodes_eq, down_nodes_perm by lia.
  replace (NUM_BUCKETS - (NUM_BUCKETS - (d + 1)))%nat with (S d) by lia.
  by rewrite <- bind_app, take_drop.
Qed.

(** The target's bucket is scanned first. *)
Lemma scan_order_head t target :
  exists rest, scan_order t (RoutingTable_bucket_index t target) = bucket_of t target ++ rest.
Proof. eexists. unfold scan_order. cbn [down_nodes]. by rewrite <- app_assoc. Qed.

Lemma rest_nearer t target rest n m :
  table_inv t -> id_ok target ->
  bucket_of t target ++ rest ≡ₚ table_nodes t ->
  n ∈ bucket_of t target -> m ∈ rest ->
  id_lt (xor_bytes (n_id n) target) (xor_bytes (n_id m) target).
Proof.
  intros Ht Hid Hp Hn Hm.
  assert (n ∈ table_nodes t /\ m ∈ table_nodes t) as [Hn' Hm']
    by (rewrite <- Hp, !elem_of_app; auto).
  destruct (table_node_ok t n Ht Hn') as [Hnok _], (table_node_ok t m Ht Hm') as [Hmok _].
  apply (nearer (t_id t)); [apply Ht|done..| |].
  - by apply (bucket_of_index t target n Ht).
  - intros E. assert (NoDup (bucket_of t target ++ rest)) as Hnd.
    { rewrite Hp. by apply (NoDup_fmap_1 n_id), nodes_NoDup. }
    apply NoDup_app in Hnd as (_ & Hd & _). apply (Hd m); [|done].
    rewrite (bucket_of_same_index t target (n_id m)) by (by symmetry).
    by apply elem_of_bucket.
Qed.

(** ** random *)

Lemma elem_of_occupied i bs x :
  x ∈ occupied_from i bs <-> exists j b, x = (i + j)%nat /\ bs !! j = Some (Some b) /\ b <> [].
Proof.
  revert i. induction bs as [|o bs IH]; intros i.
  { split; [by intros ?%not_elem_of_nil|]. by intros (j & b & _ & [=] & _). }
  assert (x ∈ occupied_from (S i) bs <->
    exists j b, x = (i + S j)%nat /\ (o :: bs) !! S j = Some (Some b) /\ b <> []) as IH'.
  { rewrite IH. by setoid_rewrite Nat.add_succ_r. }
  destruct o as [[|n b]|]; cbn [occupied_from]; rewrite ?elem_of_cons, IH'.
  - split; [intros (j & ?); by exists (S j)|]. intros ([|j] & b & ? & ? & ?); [by cbn in *; simplify_eq|eauto].
  - split.
    + intros [->|(j & b' & ?)]; [exists 0%nat, (n :: b); split_and!; [lia|done..]|by exists (S j), b'].
    + intros ([|j] & b' & ? & ? & ?); [left; lia|right; eauto].
  - split; [intros (j & ?); by exists (S j)|]. intros ([|j] & b & ? & ? & ?); [by cbn in *; simplify_eq|eauto].
Qed.

Lemma size_pos t : table_inv t -> t_size t <> 0 -> exists n, n ∈ table_nodes t.
Proof.
  intros Ht Hs. rewrite (ti_size t Ht) in Hs. destruct (table_nodes t) as [|n l]; [done|].
  exists n. by left.
Qed.

(** ** recent *)

Definition seen_ge (a b : Node) : Prop := n_seen_tick b <= n_seen_tick a.
#[global] Instance seen_ge_trans : Transitive seen_ge.
Proof. intros a b c. unfold seen_ge. lia. Qed.

Lemma insert_by_seen_perm n l : insert_by_seen n l ≡ₚ n :: l.
Proof.
  induction l as [|m l IH]; cbn; [done|]. case_match; [done|].
  rewrite IH. apply Permutation_swap.
Qed.

Lemma insert_by_seen_sorted n l :
  StronglySorted seen_ge l -> StronglySorted seen_ge (insert_by_seen n l).
Proof.
  induction 1 as [|m l Hl IH Hm]; cbn; [by repeat constructor|].
  destruct (Z.ltb_spec (n_seen_tick m) (n_seen_tick n)).
  - constructor; [by constructor|]. constructor; [unfold seen_ge; lia|].
    eapply Forall_impl; [done|]. intros x. unfold seen_ge. lia.
  - constructor; [done|]. rewrite insert_by_seen_perm.
    constructor; [unfold seen_ge; lia|done].
Qed.

Lemma sort_by_seen_spec l : sort_by_seen l ≡ₚ l /\ StronglySorted seen_ge (sort_by_seen l).
Proof.
  unfold sort_by_seen. assert (forall acc, StronglySorted seen_ge acc ->
    foldl (fun acc n => insert_by_seen n acc) acc l ≡ₚ acc ++ l /\
    StronglySorted seen_ge (foldl (fun acc n => insert_by_seen n acc) acc l)) as H.
  { induction l as [|n l IH]; intros acc Hacc; cbn [foldl].
    - by rewrite app_nil_r.
    - destruct (IH (insert_by_seen n acc)) as [Hp Hs]; [by apply insert_by_seen_sorted|].
      split; [|done]. rewrite Hp, insert_by_seen_perm. apply Permutation_middle. }
  apply (H []). constructor.
Qed.

(** ** Sequences of operations *)

(** One call on the table, with what the caller does with a reference from
    [get_mut] limited to what the callers do: the id stays. *)
Inductive table_step : RoutingTable -> RoutingTable -> Prop :=
| step_add t node r t' :
    node_ok node -> RoutingTable_add node t = (r, t') -> table_step t t'
| step_remove t id r t' :
    id_ok id -> RoutingTable_remove id t = (r, t') -> table_step t t'
| step_get_mut t id f r t' :
    id_ok id -> (forall n, n_id (f n) = n_id n) ->
    RoutingTable_get_mut id f t = (r, t') -> table_step t t'
| step_rebuild t new_id r t' :
    id_ok new_id -> RoutingTable_rebuild_with_id new_id t = (r, t') -> table_step t t'
| step_drain t r t' :
    RoutingTable_drain_events t = (r, t') -> table_step t t'.

Lemma rebuild_same t : RoutingTable_rebuild_with_id (t_id t) t = (Ok tt, t).
Proof.
  unfold RoutingTable_rebuild_with_id. erewrite bind_ok by reflexivity.
  by rewrite bool_decide_true.
Qed.

Lemma table_step_inv t t' : table_step t t' -> table_inv t -> table_inv t' /\ t_k t' = t_k t.
Proof.
  intros Hstep Ht. destruct Hstep as [t node r t' Hn E|t id r t' Hid E|t id f r t' Hid Hf E|
    t new_id r t' Hid E|t r t' E].
  - destruct (add_spec t node Ht Hn) as (b & t1 & E1 & H1 & _ & H2 & _).
    rewrite E1 in E. by simplify_eq.
  - destruct (remove_spec t id Ht Hid) as (t1 & E1 & H1 & _ & H2 & _).
    rewrite E1 in E. by simplify_eq.
  - destruct (get_mut_spec t id f Ht Hid Hf) as (t1 & E1 & H1 & _ & H2 & _).
    rewrite E1 in E. by simplify_eq.
  - destruct (decide (t_id t = new_id)) as [<-|Hne].
    + rewrite rebuild_same in E. by simplify_eq.
    + destruct (rebuild_spec t new_id Ht Hid Hne) as (t1 & E1 & H1 & _ & H2 & _).
    rewrite E1 in E. by simplify_eq.
  - injection E as <- <-. split; [|done]. by destruct Ht; split.
Qed.

Lemma rtc_table_inv t t' :
  rtc table_step t t' -> table_inv t -> table_inv t' /\ t_k t' = t_k t.
Proof.
  induction 1 as [t|t1 t2 t3 Hstep _ IH]; intros Ht; [done|].
  destruct (table_step_inv t1 t2 Hstep Ht) as [Ht2 <-]. by apply IH.
Qed.

(** ** Theorems *)

(** C4: whatever sequence of additions, removals, in-place updates, rebuilds and
    event drains a new table goes through, it keeps its invariant: 256 buckets
    of at most [k] nodes, each bucket strictly sorted by id and holding only ids
    of its own prefix length, and [size] the number of nodes stored. *)
Theorem table_invariant id k t :
  id_ok id -> rtc table_step (RoutingTable_with_k id k) t -> table_inv t /\ t_k t = k.
Proof.
  intros Hid Hsteps. by apply (rtc_table_inv _ _ Hsteps), with_k_inv.
Qed.

Definition zero_id : NodeId := replicate 32 0.
Definition id_of (b : Z) : NodeId := b :: replicate 31 0.
Definition node_of (id : NodeId) : Node := mkNode id "127.0.0.1" 1 None 0 0 0 0.

Lemma table_invariant_witness :
  table_inv (RoutingTable_add (node_of (id_of 8)) (RoutingTable_new zero_id)).2 /\
  t_k (RoutingTable_add (node_of (id_of 8)) (RoutingTable_new zero_id)).2 = K.
Proof.
  apply (table_invariant zero_id K); [by apply (bool_decide_unpack _)|].
  apply rtc_once. eapply (step_add _ (node_of (id_of 8))); [by apply (bool_decide_unpack _)|].
  apply surjective_pairing.
Defined.

(** C3: the table is a map from ids to nodes: lookups read the map, [add] either
    writes the entry (and says so) or, when the id is new and its bucket holds
    [k] nodes, leaves the map alone and queues a [BucketFull] event, and
    [remove] deletes the entry and returns what it held.  None of them panics. *)
Theorem table_refines_map t node id :
  table_inv t -> node_ok node -> id_ok id ->
  RoutingTable_get id t = (Ok (table_map t !! id), t) /\
  RoutingTable_has id t = (Ok (bool_decide (is_Some (table_map t !! id))), t) /\
  t_size t = Z.of_nat (size (table_map t)) /\
  (exists r t', RoutingTable_add node t = (Ok r, t') /\ added t node r t') /\
  (exists t', RoutingTable_remove id t = (Ok (table_map t !! id), t') /\ table_inv t' /\
     table_map t' = delete id (table_map t)).
Proof.
  intros Ht Hn Hid. split_and!.
  - by apply get_map.
  - unfold RoutingTable_has, fmap, M_fmap. erewrite bind_ok by (by apply get_map).
    by destruct (table_map t !! id).
  - rewrite (ti_size t Ht). unfold table_map, len. f_equal.
    rewrite <- (length_fmap (fun n => (n_id n, n)) (table_nodes t)).
    symmetry. apply map_size_list_to_map. rewrite <- list_fmap_compose. by apply nodes_NoDup.
  - by apply add_spec.
  - destruct (remove_spec t id Ht Hid) as (t' & E & H1 & _ & _ & _ & H2). eauto.
Qed.

Lemma table_refines_map_witness :
  RoutingTable_get (id_of 8) (RoutingTable_new zero_id) =
    (Ok (table_map (RoutingTable_new zero_id) !! id_of 8), RoutingTable_new zero_id).
Proof.
  refine (proj1 (table_refines_map (RoutingTable_new zero_id) (node_of zero_id) (id_of 8) _ _ _)).
  - by apply with_k_inv, (bool_decide_unpack _).
  - by apply (bool_decide_unpack _).
  - by apply (bool_decide_unpack _).
Defined.

(** Rebuilding under a new local id keeps a sub-map of the nodes, never the
    new id itself, and drops another node only when its new bucket is full;
    rebuilding under the same id changes nothing. *)
Theorem rebuild_keeps_nodes t new_id :
  table_inv t -> id_ok new_id ->
  RoutingTable_rebuild_with_id (t_id t) t = (Ok tt, t) /\
  (t_id t <> new_id ->
   exists t', RoutingTable_rebuild_with_id new_id t = (Ok tt, t') /\
     table_inv t' /\ t_id t' = new_id /\ t_k t' = t_k t /\ table_map t' ⊆ table_map t /\
     table_map t' !! new_id = None /\
     (forall id n, table_map t !! id = Some n -> id <> new_id ->
        table_map t' !! id = Some n \/ length (bucket_of t' id) = t_k t)).
Proof. intros Ht Hid. split; [apply rebuild_same|by apply rebuild_spec]. Qed.

Lemma rebuild_keeps_nodes_witness :
  RoutingTable_rebuild_with_id zero_id (RoutingTable_new zero_id) =
    (Ok tt, RoutingTable_new zero_id).
Proof.
  refine (proj1 (rebuild_keeps_nodes (RoutingTable_new zero_id) (id_of 1) _ _)).
  - by apply with_k_inv, (bool_decide_unpack _).
  - by apply (bool_decide_unpack _).
Defined.

(** [closest] returns distinct nodes of the table, exactly [min k size] of
    them; it starts with the bucket the target falls in, and every node of that
    bucket is nearer to the target in the XOR metric than every node after it. *)
Theorem closest_spec t target k :
  table_inv t -> id_ok target ->
  exists rest,
    bucket_of t target ++ rest ≡ₚ table_nodes t /\
    RoutingTable_closest t target k = take k (bucket_of t target ++ rest) /\
    Z.of_nat (length (RoutingTable_closest t target k)) = Z.min (Z.of_nat k) (t_size t) /\
    NoDup (RoutingTable_closest t target k) /\
    (forall n m, n ∈ bucket_of t target -> m ∈ rest ->
       id_lt (xor_bytes (n_id n) target) (xor_bytes (n_id m) target)).
Proof.
  intros Ht Hid. destruct (scan_order_head t target) as [rest Hr]. exists rest.
  assert (RoutingTable_bucket_index t target < NUM_BUCKETS)%nat as Hlt
    by (apply bucket_index_bound; [apply Ht|done]).
  pose proof (scan_order_perm t _ Ht Hlt) as Hp. rewrite Hr in Hp.
  rewrite closest_eq, Hr. split_and!; [done..| | |].
  - rewrite length_take, Hp, (ti_size t Ht). unfold len. lia.
  - eapply sublist_NoDup; [|apply sublist_take]. rewrite Hp.
    by apply (NoDup_fmap_1 n_id), nodes_NoDup.
  - intros n m Hn Hm. by apply (rest_nearer t target rest).
Qed.

(** A table with one node in bucket 0 and one in bucket 2. *)
Definition far_node : Node := node_of (id_of 0x80).
Definition near_node : Node := node_of (id_of 0x20).
Definition two_nodes : RoutingTable :=
  (RoutingTable_add near_node (RoutingTable_add far_node (RoutingTable_new zero_id)).2).2.
Lemma two_nodes_steps : rtc table_step (RoutingTable_new zero_id) two_nodes.
Proof.
  eapply rtc_l; [eapply (step_add _ far_node); [by apply (bool_decide_unpack _)|apply surjective_pairing]|].
  apply rtc_once. eapply (step_add _ near_node); [by apply (bool_decide_unpack _)|].
  apply surjective_pairing.
Defined.
Lemma two_nodes_inv : table_inv two_nodes.
Proof.
  apply (rtc_table_inv _ _ two_nodes_steps), with_k_inv. by apply (bool_decide_unpack _).
Defined.

Lemma closest_spec_witness :
  exists rest, RoutingTable_closest two_nodes (id_of 0x21) 2 = take 2 (bucket_of two_nodes (id_of 0x21) ++ rest).
Proof.
  destruct (closest_spec two_nodes (id_of 0x21) 2 two_nodes_inv) as (rest & _ & H & _);
    [by apply (bool_decide_unpack _)|]. by exists rest.
Defined.

(** Beyond the target's bucket the scan order is not the XOR order: with one
    node in bucket 0 and one in bucket 2, the one node [closest] returns for a
    target in bucket 1 is the farther of the two. *)
Theorem closest_not_nearest :
  RoutingTable_closest two_nodes (id_of 0x40) 1 = [far_node] /\
  near_node ∈ table_nodes two_nodes /\
  id_lt (xor_bytes (n_id near_node) (id_of 0x40)) (xor_bytes (n_id far_node) (id_of 0x40)).
Proof.
  split_and!; [vm_compute; reflexivity| |vm_compute; reflexivity].
  assert (table_nodes two_nodes = [far_node; near_node]) as -> by (vm_compute; reflexivity).
  by right; left.
Qed.

(** Whatever the random numbers, [random] does not panic and returns a node
    of the table, and [None] only when the table is empty. *)
Theorem random_spec random_range t :
  (forall call n, (0 < n)%nat -> (random_range call n < n)%nat) -> table_inv t ->
  exists r, RoutingTable_random random_range t = (Ok r, t) /\
    (r = None <-> t_size t = 0) /\ (forall n, r = Some n -> n ∈ table_nodes t).
Proof.
  intros Hrng Ht. unfold RoutingTable_random. erewrite bind_ok by reflexivity.
  destruct (Z.eqb_spec (t_size t) 0) as [H0|H0]; [by exists None|]. cbv zeta.
  set (occ := occupied_from 0 (t_buckets t)).
  assert (forall x, x ∈ occ <-> exists b, t_buckets t !! x = Some (Some b) /\ b <> []) as Hocc.
  { intros x. unfold occ. rewrite elem_of_occupied. split; [intros (j & b & -> & ?); by exists b|].
    intros (b & ?). by exists x, b. }
  destruct (size_pos t Ht H0) as (n0 & (i0 & b0 & Hb0 & Hn0)%elem_of_nodes).
  assert (i0 ∈ occ) as Hi0.
  { apply Hocc. exists b0. split; [done|]. by intros ->; apply not_elem_of_nil in Hn0. }
  assert (0 < length occ)%nat as Hpos.
  { destruct occ; [by apply not_elem_of_nil in Hi0|simpl; lia]. }
  rewrite bool_decide_false by (by intros E; rewrite E in Hi0; apply not_elem_of_nil in Hi0).
  destruct (lookup_lt_is_Some_2 occ (random_range 0%nat (length occ))) as [bi Hbi]; [by apply Hrng|].
  rewrite Hbi. apply list_elem_of_lookup_2, Hocc in Hbi as (b & Hb & Hne).
  erewrite bind_ok by (by apply bucket_ref_ok). unfold fmap, M_fmap.
  assert (0 < length b)%nat by (destruct b; [done|simpl; lia]).
  destruct (lookup_lt_is_Some_2 b (random_range 1%nat (length b))) as [n Hn]; [by apply Hrng|].
  erewrite bind_ok by (unfold node_at; by rewrite Hn).
  exists (Some n). split_and!; [done..|]. intros m [= <-]. apply elem_of_nodes.
  eauto using list_elem_of_lookup_2.
Qed.

Lemma random_spec_witness :
  exists r, RoutingTable_random (fun _ n => (n - 1)%nat) two_nodes = (Ok r, two_nodes) /\
    (r = None <-> t_size two_nodes = 0) /\ (forall n, r = Some n -> n ∈ table_nodes two_nodes).
Proof. apply random_spec; [intros; lia|apply two_nodes_inv]. Defined.

(** [recent] returns nodes ordered by [seen_tick], latest first: the whole
    table in that order splits into the five skipped (none below eight nodes),
    the [limit] returned, and the rest, none of them seen later than those
    before it. *)
Theorem recent_spec t limit :
  table_inv t ->
  exists skipped rest,
    skipped ++ RoutingTable_recent t limit ++ rest ≡ₚ table_nodes t /\
    StronglySorted seen_ge (skipped ++ RoutingTable_recent t limit ++ rest) /\
    len skipped = (if 8 <=? t_size t then 5 else 0) /\
    len (RoutingTable_recent t limit) = Z.min (Z.of_nat limit) (t_size t - len skipped).
Proof.
  intros Ht. destruct (sort_by_seen_spec (table_nodes t)) as [Hp Hs].
  unfold RoutingTable_recent. set (all := sort_by_seen (table_nodes t)) in *.
  assert (t_size t = Z.of_nat (length all)) as ->
    by (rewrite (ti_size t Ht); unfold len; by rewrite <- Hp).
  unfold len.
  set (skip := if (8 <=? length all)%nat then 5%nat else 0%nat).
  assert ((skip <= length all)%nat /\
    Z.of_nat skip = if (8 <=? Z.of_nat (length all)) then 5 else 0) as [Hle Hsk].
  { unfold skip. destruct (Nat.leb_spec 8 (length all)), (Z.leb_spec 8 (Z.of_nat (length all))); lia. }
  exists (take skip all), (drop limit (drop skip all)).
  assert (take skip all ++ (if (limit =? 0)%nat then [] else take limit (drop skip all)) ++
    drop limit (drop skip all) = all) as E.
  { destruct (Nat.eqb_spec limit 0) as [->|]; [cbn [app]; rewrite drop_0|rewrite take_drop];
    apply take_drop. }
  rewrite E, length_take. split_and!; [done|done|lia|].
  destruct (Nat.eqb_spec limit 0) as [->|]; [simpl; lia|]. rewrite length_take, length_drop. lia.
Qed.

Lemma recent_spec_witness :
  exists skipped rest,
    skipped ++ RoutingTable_recent two_nodes 1 ++ rest ≡ₚ table_nodes two_nodes /\
    len (RoutingTable_recent two_nodes 1) = Z.min 1 (t_size two_nodes - len skipped).
Proof.
  destruct (recent_spec two_nodes 1 two_nodes_inv) as (skipped & rest & H1 & _ & _ & H2).
  by exists skipped, rest.
Defined.
