(* ===== verification/UdxHeader.v ===== *)
(** * UdxHeader: the packet header of [libudx/src/native/header.rs]

    The fixed 20-byte header and the selective-acknowledgement ranges that
    follow it.  Writing into a [&mut [u8]] is a computation over the buffer
    that panics when a range falls outside it. *)

From S2P Require Import Prelude RustStd.

#[local] Open Scope Z_scope.

Definition HEADER_SIZE : Z := 20.
Definition MAGIC : Z := 0xFF.
Definition UDX_VERSION : Z := 1.
Definition FLAG_DATA : Z := 0x01.
Definition FLAG_END : Z := 0x02.
Definition FLAG_SACK : Z := 0x04.
Definition FLAG_MESSAGE : Z := 0x08.
Definition FLAG_DESTROY : Z := 0x10.
Definition FLAG_HEARTBEAT : Z := 0x20.

Inductive HeaderError : Type :=
| TooShort (n : Z)
| BadMagic (b : Z)
| BadVersion (b : Z)
| InvalidSack (n : Z).

Record Header : Type := mkHeader {
  h_type_flags : Z;
  h_data_offset : Z;
  h_remote_id : Z;
  h_recv_window : Z;
  h_seq : Z;
  h_ack : Z
}.

(** ** Writing into a buffer *)

Abbreviation Buf := (M (list Z) Empty_set).

(** [buf[i] = v] *)
Definition buf_set (i v : Z) : Buf unit := fun buf =>
  if (0 <=? i) && (i <? len buf) then (Ok tt, <[Z.to_nat i := v]> buf) else (Panic, buf).
(** [buf[a..a + bs.len()].copy_from_slice(bs)] *)
Definition buf_copy (a : Z) (bs : list Z) : Buf unit := fun buf =>
  if (0 <=? a) && (a + len bs <=? len buf)
  then (Ok tt, take (Z.to_nat a) buf ++ bs ++ drop (Z.to_nat a + length bs) buf)
  else (Panic, buf).

(** ** Header *)

Definition Header_encode_into (h : Header) : Buf unit :=
  buf_set 0 MAGIC ;; buf_set 1 UDX_VERSION ;;
  buf_set 2 (h_type_flags h) ;; buf_set 3 (h_data_offset h) ;;
  buf_copy 4 (to_le 4 (h_remote_id h)) ;; buf_copy 8 (to_le 4 (h_recv_window h)) ;;
  buf_copy 12 (to_le 4 (h_seq h)) ;; buf_copy 16 (to_le 4 (h_ack h)).

Definition Header_encode (h : Header) : outcome Empty_set (list Z) :=
  match Header_encode_into h (replicate 20 0) with
  | (Ok _, buf) => Ok buf
  | (Err e, _) => Err e
  | (Panic, _) => Panic
  end.

(** [buf[i]], read under the length check. *)
Definition at_ (buf : list Z) (i : nat) : Z := nth i buf 0.
Definition le32 (buf : list Z) (i : nat) : Z :=
  from_le [at_ buf i; at_ buf (i + 1); at_ buf (i + 2); at_ buf (i + 3)].

Definition Header_decode (buf : list Z) : outcome HeaderError Header :=
  if len buf <? HEADER_SIZE then Err (TooShort (len buf))
  else if negb (at_ buf 0 =? MAGIC) then Err (BadMagic (at_ buf 0))
  else if negb (at_ buf 1 =? UDX_VERSION) then Err (BadVersion (at_ buf 1))
  else Ok (mkHeader (at_ buf 2) (at_ buf 3) (le32 buf 4) (le32 buf 8) (le32 buf 12) (le32 buf 16)).

Definition Header_payload_offset (h : Header) : Z := HEADER_SIZE + h_data_offset h.
Definition Header_has_flag (h : Header) (flag : Z) : bool :=
  negb (Z.land (h_type_flags h) flag =? 0).

(** ** Selective acknowledgements *)

Record SackRange : Type := mkSackRange { sr_start : Z; sr_end : Z }.

Fixpoint encode_sack_from (i : Z) (ranges : list SackRange) : Buf unit :=
  match ranges with
  | [] => mret tt
  | range :: ranges =>
      let off := i * 8 in
      buf_copy off (to_le 4 (sr_start range)) ;;
      buf_copy (off + 4) (to_le 4 (sr_end range)) ;;
      encode_sack_from (i + 1) ranges
  end.
Definition encode_sack (ranges : list SackRange) : Buf Z :=
  encode_sack_from 0 ranges ;; mret (len ranges * 8).

(** [buf.chunks_exact(8)]; the length bounds the number of chunks. *)
Fixpoint chunks_exact8 (fuel : nat) (buf : list Z) : list (list Z) :=
  match fuel with
  | O => []
  | S fuel => if len buf <? 8 then [] else take 8 buf :: chunks_exact8 fuel (drop 8 buf)
  end.
Definition decode_sack (buf : list Z) : outcome HeaderError (list SackRange) :=
  if negb (len buf mod 8 =? 0) then Err (InvalidSack (len buf))
  else Ok ((fun chunk => mkSackRange (le32 chunk 0) (le32 chunk 4)) <$>
             chunks_exact8 (length buf) buf).

(** ** What the buffer operations do *)

Lemma buf_copy_spec a pre old post bs :
  a = len pre -> length old = length bs ->
  buf_copy a bs (pre ++ old ++ post) = (Ok tt, pre ++ bs ++ post).
Proof.
  intros -> Hl. unfold buf_copy. lens. pose proof (len_nonneg pre). pose proof (len_nonneg post).
  replace (_ && _) with true by (symmetry; apply andb_true_intro; unfold len in *; lia).
  do 2 f_equal. rewrite take_app_length. do 2 f_equal.
  by rewrite <- Hl, <- drop_drop, drop_app_length, drop_app_length.
Qed.

Lemma buf_copy_short a bs buf : len buf < a + len bs -> buf_copy a bs buf = (Panic, buf).
Proof.
  intros H. unfold buf_copy. rewrite (proj2 (andb_false_iff _ _)); [done|].
  right. by apply Z.leb_gt.
Qed.

Lemma buf_set_copy a v buf : buf_set a v buf = buf_copy a [v] buf.
Proof.
  unfold buf_set, buf_copy. change (len [v]) with 1.
  destruct (Z.leb_spec 0 a), (Z.ltb_spec a (len buf)), (Z.leb_spec (a + 1) (len buf));
    cbn [andb]; try lia; try done.
  do 2 f_equal. cbn [length]. rewrite Nat.add_1_r.
  apply insert_take_drop. unfold len in *. lia.
Qed.

(** ** The wire format *)

Record header_ok (h : Header) : Prop := {
  ho_flags : is_byte (h_type_flags h);
  ho_offset : is_byte (h_data_offset h);
  ho_remote_id : in_u 32 (h_remote_id h);
  ho_recv_window : in_u 32 (h_recv_window h);
  ho_seq : in_u 32 (h_seq h);
  ho_ack : in_u 32 (h_ack h)
}.

Definition wire_header (h : Header) : list Z :=
  [MAGIC] ++ [UDX_VERSION] ++ [h_type_flags h] ++ [h_data_offset h] ++
  to_le 4 (h_remote_id h) ++ to_le 4 (h_recv_window h) ++ to_le 4 (h_seq h) ++ to_le 4 (h_ack h).

(** [m] writes [bs] at offset [a]. *)
Definition Puts (m : Buf unit) (a : Z) (bs : list Z) : Prop :=
  forall pre old post, a = len pre -> length old = length bs ->
    m (pre ++ old ++ post) = (Ok tt, pre ++ bs ++ post).

Lemma Puts_copy a bs : Puts (buf_copy a bs) a bs.
Proof. intros pre old post. apply buf_copy_spec. Qed.
Lemma Puts_set a v : Puts (buf_set a v) a [v].
Proof. intros pre old post Ha Hl. rewrite buf_set_copy. by apply buf_copy_spec. Qed.
Lemma Puts_ret a : Puts (mret tt) a [].
Proof. by intros pre [|] post _ Hl. Qed.

Lemma Puts_bind m1 m2 a b1 b2 :
  Puts m1 a b1 -> Puts m2 (a + len b1) b2 -> Puts (m1 ;; m2) a (b1 ++ b2).
Proof.
  intros H1 H2 pre old post -> Hl. rewrite length_app in Hl.
  assert (exists o1 o2, old = o1 ++ o2 /\ length o1 = length b1 /\ length o2 = length b2)
    as (o1 & o2 & -> & Hl1 & Hl2).
  { exists (take (length b1) old), (drop (length b1) old).
    rewrite take_drop, length_take, length_drop. split_and!; [done|lia|lia]. }
  erewrite bind_ok by (rewrite <- app_assoc; by apply H1).
  rewrite (app_assoc pre), H2; [|by rewrite len_app|done]. by rewrite <- !app_assoc.
Qed.

Lemma Puts_header h : Puts (Header_encode_into h) 0 (wire_header h).
Proof.
  unfold Header_encode_into, wire_header.
  do 4 (apply Puts_bind; [apply Puts_set|]). do 3 (apply Puts_bind; [apply Puts_copy|]).
  apply Puts_copy.
Qed.

Lemma wire_header_len h : length (wire_header h) = 20%nat.
Proof. done. Qed.

Lemma le32_spec buf i a bs post :
  buf = a ++ bs ++ post -> length a = i -> length bs = 4%nat -> le32 buf i = from_le bs.
Proof.
  intros -> <- Hl. destruct bs as [|b0 [|b1 [|b2 [|b3 [|]]]]]; try done.
  unfold le32, at_. rewrite <- (Nat.add_0_r (length a)) at 1. by rewrite !app_nth2_plus.
Qed.

Lemma le32_to_le buf i a z post :
  buf = a ++ to_le 4 z ++ post -> length a = i -> in_u 32 z -> le32 buf i = z.
Proof.
  intros Hb Ha Hz. rewrite (le32_spec buf i a (to_le 4 z) post) by done.
  by apply (from_le_to_le_id 4).
Qed.

Lemma decode_wire h rest : header_ok h -> Header_decode (wire_header h ++ rest) = Ok h.
Proof.
  intros []. unfold Header_decode. rewrite len_app. unfold len at 1. rewrite wire_header_len.
  unfold HEADER_SIZE. pose proof (len_nonneg rest). rewrite (proj2 (Z.ltb_ge _ _)) by lia.
  change (negb (at_ (wire_header h ++ rest) 0 =? MAGIC)) with false.
  change (negb (at_ (wire_header h ++ rest) 1 =? UDX_VERSION)) with false. cbv iota.
  destruct h as [f o r w q k]. cbn [h_type_flags h_data_offset h_remote_id h_recv_window h_seq h_ack] in *.
  f_equal. unfold wire_header. cbn [h_type_flags h_data_offset h_remote_id h_recv_window h_seq h_ack].
  f_equal.
  - by eapply (le32_to_le _ 4 [_; _; _; _] r).
  - by eapply (le32_to_le _ 8 ([_; _; _; _] ++ to_le 4 r) w).
  - by eapply (le32_to_le _ 12 ([_; _; _; _] ++ to_le 4 r ++ to_le 4 w) q).
  - by eapply (le32_to_le _ 16 ([_; _; _; _] ++ to_le 4 r ++ to_le 4 w ++ to_le 4 q) k).
Qed.

(** ** Selective acknowledgements *)

Definition range_ok (r : SackRange) : Prop := in_u 32 (sr_start r) /\ in_u 32 (sr_end r).
#[global] Instance range_ok_dec r : Decision (range_ok r).
Proof. unfold range_ok. apply _. Defined.
Definition wire_range (r : SackRange) : list Z := to_le 4 (sr_start r) ++ to_le 4 (sr_end r).
Definition wire_sack (rs : list SackRange) : list Z := rs ≫= wire_range.

Lemma wire_sack_len rs : len (wire_sack rs) = len rs * 8.
Proof.
  induction rs as [|r rs IH]; [done|]. unfold wire_sack in *. cbn [mbind list_bind].
  unfold wire_range at 1. lens. lia.
Qed.

Lemma Puts_sack i rs : Puts (encode_sack_from i rs) (i * 8) (wire_sack rs).
Proof.
  revert i. induction rs as [|r rs IH]; intros i; [apply Puts_ret|].
  unfold wire_sack. cbn [encode_sack_from mbind list_bind]. unfold wire_range at 1.
  rewrite <- app_assoc. apply Puts_bind; [apply Puts_copy|].
  apply Puts_bind; [apply Puts_copy|]. rewrite !len_to_le.
  replace (i * 8 + Z.of_nat 4 + Z.of_nat 4) with ((i + 1) * 8) by lia. apply IH.
Qed.

Lemma chunks_wire fuel rs :
  (length rs <= fuel)%nat -> chunks_exact8 fuel (wire_sack rs) = wire_range <$> rs.
Proof.
  revert fuel. induction rs as [|r rs IH]; intros fuel Hf.
  { by destruct fuel. }
  destruct fuel as [|fuel]; cbn [length] in Hf; [lia|]. cbn [chunks_exact8].
  rewrite wire_sack_len, len_cons. pose proof (len_nonneg rs).
  rewrite (proj2 (Z.ltb_ge _ _)) by lia. cbn [fmap list_fmap].
  assert (wire_sack (r :: rs) = wire_range r ++ wire_sack rs) as -> by done.
  rewrite (take_app_length' _ _ 8), (drop_app_length' _ _ 8) by done. rewrite IH by lia. done.
Qed.

Lemma decode_range r : range_ok r -> mkSackRange (le32 (wire_range r) 0) (le32 (wire_range r) 4) = r.
Proof.
  destruct r as [a b]. intros [Ha Hb]. cbn [sr_start sr_end] in *. f_equal.
  - by eapply (le32_to_le _ 0 [] a).
  - eapply (le32_to_le _ 4 (to_le 4 a) b []); [|done..]. unfold wire_range. by rewrite app_nil_r.
Qed.

Lemma decode_sack_wire rs : Forall range_ok rs -> decode_sack (wire_sack rs) = Ok rs.
Proof.
  intros Hr. unfold decode_sack. rewrite wire_sack_len, Z.mod_mul by done. cbn [negb Z.eqb].
  rewrite chunks_wire.
  - rewrite <- list_fmap_compose. f_equal. rewrite <- (list_fmap_id rs) at 2.
    apply list_fmap_ext. intros i r Hi. rewrite Forall_lookup in Hr. by apply decode_range, (Hr i).
  - pose proof (wire_sack_len rs) as H. unfold len in H. lia.
Qed.

Lemma le32_range buf i :
  bytes_ok buf -> (i + 4 <= length buf)%nat ->
  in_u 32 (le32 buf i) /\ to_le 4 (le32 buf i) = take 4 (drop i buf).
Proof.
  intros Hb Hl. set (bs := take 4 (drop i buf)).
  assert (bytes_ok bs) as Hbs by (by apply Forall_take, Forall_drop).
  assert (length bs = 4%nat) as Hlen by (unfold bs; rewrite length_take, length_drop; lia).
  rewrite (le32_spec buf i (take i buf) bs (drop 4 (drop i buf))); [|..|done].
  - split; [|by rewrite <- Hlen, to_le_from_le].
    pose proof (from_le_range bs Hbs) as H. unfold len in H. by rewrite Hlen in H.
  - unfold bs. by rewrite !take_drop.
  - rewrite length_take. lia.
Qed.

Lemma chunks_exact8_concat fuel buf :
  (length buf <= fuel)%nat -> len buf mod 8 = 0 ->
  Forall (fun c => length c = 8%nat) (chunks_exact8 fuel buf) /\
  mjoin (chunks_exact8 fuel buf) = buf.
Proof.
  revert buf. induction fuel as [|fuel IH]; intros buf Hf Hm.
  { destruct buf; [by split|cbn in Hf; lia]. }
  cbn [chunks_exact8]. destruct (Z.ltb_spec (len buf) 8) as [Hlt|Hge].
  - pose proof (len_nonneg buf). rewrite Z.mod_small in Hm by lia.
    destruct buf; [by split|]. lens. pose proof (len_nonneg buf). lia.
  - destruct (IH (drop 8 buf)) as [H1 H2].
    + rewrite length_drop. unfold len in Hge. lia.
    + unfold len in *. rewrite length_drop.
      replace (Z.of_nat (length buf - 8)) with (Z.of_nat (length buf) - 1 * 8) by lia.
      by rewrite Zminus_mod, Hm.
    + split; [constructor; [rewrite length_take; unfold len in Hge; lia|done]|].
      change (take 8 buf ++ mjoin (chunks_exact8 fuel (drop 8 buf)) = buf).
      rewrite H2. apply take_drop.
Qed.

Lemma wire_decoded_chunk c :
  bytes_ok c -> length c = 8%nat -> wire_range (mkSackRange (le32 c 0) (le32 c 4)) = c.
Proof.
  intros Hb Hl. unfold wire_range. cbn [sr_start sr_end].
  rewrite (proj2 (le32_range c 0 Hb ltac:(lia))), (proj2 (le32_range c 4 Hb ltac:(lia))).
  rewrite (take_ge (drop 4 c)) by (rewrite length_drop; lia). rewrite drop_0. apply take_drop.
Qed.

(** ** Theorems *)

(** A header whose fields have their Rust widths encodes to the documented
    20-byte little-endian layout, and decoding that layout with any bytes after
    it gives the header back. *)
Theorem header_roundtrip h rest :
  header_ok h ->
  Header_encode h = Ok (wire_header h) /\ len (wire_header h) = HEADER_SIZE /\
  Header_decode (wire_header h ++ rest) = Ok h.
Proof.
  intros Hh. split_and!; [|done|by apply decode_wire]. unfold Header_encode.
  pose proof (Puts_header h [] (replicate 20 0) [] eq_refl eq_refl) as H.
  rewrite !app_nil_r in H. cbn [app] in H. by rewrite H.
Qed.

Lemma header_roundtrip_witness :
  Header_decode (wire_header (mkHeader 5 8 0xdeadbeef 65536 1 2) ++ [7; 7]) =
    Ok (mkHeader 5 8 0xdeadbeef 65536 1 2).
Proof.
  refine (proj2 (proj2 (header_roundtrip (mkHeader 5 8 0xdeadbeef 65536 1 2) [7; 7] _))).
  constructor; by apply (bool_decide_unpack _).
Defined.

(** Decoding is total and exact: it never panics, reports the first of too
    few bytes, a wrong magic byte and a wrong version, and otherwise returns the
    one header whose encoding is the first 20 bytes. *)
Theorem header_decode_exact buf :
  bytes_ok buf ->
  match Header_decode buf with
  | Ok h => header_ok h /\ take 20 buf = wire_header h
  | Err (TooShort n) => n = len buf /\ n < HEADER_SIZE
  | Err (BadMagic b) => HEADER_SIZE <= len buf /\ buf !! 0%nat = Some b /\ b <> MAGIC
  | Err (BadVersion b) =>
      HEADER_SIZE <= len buf /\ buf !! 0%nat = Some MAGIC /\ buf !! 1%nat = Some b /\ b <> UDX_VERSION
  | Err (InvalidSack _) | Panic => False
  end.
Proof.
  intros Hb. unfold Header_decode, HEADER_SIZE. destruct (Z.ltb_spec (len buf) 20) as [|Hl]; [done|].
  pose proof Hl as Hl'. unfold len in Hl'.
  destruct buf as [|b0 [|b1 [|b2 [|b3 buf]]]]; cbn [length] in Hl'; try lia.
  rewrite !Forall_cons in Hb. destruct Hb as (H0 & H1 & H2 & H3 & Hb).
  cbn [at_ nth]. destruct (Z.eqb_spec b0 MAGIC) as [->|]; cbn [negb]; [|done].
  destruct (Z.eqb_spec b1 UDX_VERSION) as [->|]; cbn [negb]; [|done].
  set (all := MAGIC :: UDX_VERSION :: b2 :: b3 :: buf) in *.
  assert (bytes_ok all) as Hall by (unfold all; by rewrite !Forall_cons).
  assert (20 <= length all)%nat as Hlen by (unfold all; cbn [length]; lia).
  destruct (le32_range all 4 Hall ltac:(lia)) as [I1 E1], (le32_range all 8 Hall ltac:(lia)) as [I2 E2],
    (le32_range all 12 Hall ltac:(lia)) as [I3 E3], (le32_range all 16 Hall ltac:(lia)) as [I4 E4].
  split; [by constructor|]. unfold wire_header. cbn [h_type_flags h_data_offset h_remote_id h_recv_window h_seq h_ack].
  rewrite E1, E2, E3, E4. unfold all in Hlen |- *. cbn [length] in Hlen.
  do 16 (destruct buf as [|? buf]; cbn [length] in Hlen; [lia|]). done.
Qed.

Lemma header_decode_exact_witness :
  HEADER_SIZE <= len (replicate 20 0) /\ replicate 20 0 !! 0%nat = Some 0 /\ 0 <> MAGIC.
Proof.
  apply (header_decode_exact (replicate 20 0)), (bool_decide_unpack _). vm_compute. done.
Defined.

(** SACK ranges written into a buffer with room for them take eight bytes
    each and decode back to the same ranges, in order; what follows them in the
    buffer is untouched. *)
Theorem sack_roundtrip ranges old post :
  Forall range_ok ranges -> len old = len ranges * 8 ->
  encode_sack ranges (old ++ post) = (Ok (len ranges * 8), wire_sack ranges ++ post) /\
  decode_sack (wire_sack ranges) = Ok ranges.
Proof.
  intros Hr Hl. split; [|by apply decode_sack_wire]. unfold encode_sack.
  erewrite bind_ok; [done|]. apply (Puts_sack 0 ranges [] old post); [done|].
  rewrite <- wire_sack_len in Hl. unfold len in Hl. lia.
Qed.

Lemma sack_roundtrip_witness :
  decode_sack (wire_sack [mkSackRange 1 4; mkSackRange 9 0xffffffff]) =
    Ok [mkSackRange 1 4; mkSackRange 9 0xffffffff].
Proof.
  refine (proj2 (sack_roundtrip [mkSackRange 1 4; mkSackRange 9 0xffffffff] (replicate 16 0) [1] _ _)).
  - by apply (bool_decide_unpack _).
  - reflexivity.
Defined.

(** Decoding SACK bytes fails exactly when their length is not a multiple of
    eight; otherwise the ranges it returns re-encode to the same bytes. *)
Theorem sack_decode_exact buf :
  bytes_ok buf ->
  match decode_sack buf with
  | Ok ranges => len buf mod 8 = 0 /\ Forall range_ok ranges /\ wire_sack ranges = buf
  | Err e => e = InvalidSack (len buf) /\ len buf mod 8 <> 0
  | Panic => False
  end.
Proof.
  intros Hb. unfold decode_sack. destruct (Z.eqb_spec (len buf mod 8) 0) as [Hm|Hm]; [|done].
  cbn [negb]. destruct (chunks_exact8_concat (length buf) buf) as [H1 H2]; [done..|].
  assert (Forall bytes_ok (chunks_exact8 (length buf) buf)) as H3.
  { apply Forall_forall. intros c Hc. apply Forall_forall. intros x Hx.
    rewrite Forall_forall in Hb. apply Hb. rewrite <- H2. apply list_elem_of_join. eauto. }
  split_and!; [done| |].
  - apply Forall_fmap, Forall_forall. intros c Hc. rewrite Forall_forall in H1, H3.
    specialize (H1 c Hc). specialize (H3 c Hc). split; apply le32_range; done || lia.
  - trans (mjoin (chunks_exact8 (length buf) buf)); [|done]. clear H2 Hm. induction (chunks_exact8 (length buf) buf) as [|c cs IH]; [done|].
    inversion_clear H1. inversion_clear H3. unfold wire_sack. cbn [fmap list_fmap mbind list_bind].
    rewrite wire_decoded_chunk by done. change (mjoin (c :: cs)) with (c ++ mjoin cs).
    f_equal. by apply IH.
Qed.

Lemma sack_decode_exact_witness :
  match decode_sack [1; 2; 3] with
  | Ok ranges => wire_sack ranges = [1; 2; 3]
  | Err e => e = InvalidSack 3
  | Panic => False
  end.
Proof.
  pose proof (sack_decode_exact [1; 2; 3] ltac:(apply (bool_decide_unpack _); vm_compute; done)) as H.
  apply H.
Defined.

(** The UDX wire formats are exact. A header whose fields fit their widths
    encodes to the 20-byte layout and decodes back from it, whatever follows;
    decoding any bytes never panics, reports the first of too short, bad magic
    and bad version, and otherwise returns the one header that encodes to the
    first 20 bytes; SACK decoding fails exactly when the length is not a
    multiple of eight and otherwise returns the ranges that encode to the
    buffer. *)
Theorem udx_wire_exact h rest buf :
  header_ok h -> bytes_ok buf ->
  (Header_encode h = Ok (wire_header h) /\ len (wire_header h) = HEADER_SIZE /\
   Header_decode (wire_header h ++ rest) = Ok h) /\
  match Header_decode buf with
  | Ok h' => header_ok h' /\ take 20 buf = wire_header h'
  | Err (TooShort n) => n = len buf /\ n < HEADER_SIZE
  | Err (BadMagic b) => HEADER_SIZE <= len buf /\ buf !! 0%nat = Some b /\ b <> MAGIC
  | Err (BadVersion b) =>
      HEADER_SIZE <= len buf /\ buf !! 0%nat = Some MAGIC /\ buf !! 1%nat = Some b /\ b <> UDX_VERSION
  | Err (InvalidSack _) | Panic => False
  end /\
  match decode_sack buf with
  | Ok ranges => len buf mod 8 = 0 /\ Forall range_ok ranges /\ wire_sack ranges = buf
  | Err e => e = InvalidSack (len buf) /\ len buf mod 8 <> 0
  | Panic => False
  end.
Proof.
  intros Hh Hb. split_and!; first [by apply header_roundtrip|by apply header_decode_exact|by apply sack_decode_exact].
Qed.

Lemma udx_wire_exact_witness :
  Header_decode (wire_header (mkHeader 1 0 7 1000 4294967295 5) ++ [1; 2]) =
    Ok (mkHeader 1 0 7 1000 4294967295 5) /\
  decode_sack [1; 2; 3] = Err (InvalidSack 3).
Proof.
  destruct (udx_wire_exact (mkHeader 1 0 7 1000 4294967295 5) [1; 2] [1; 2; 3]) as ((_ & _ & H) & _ & _).
  - constructor; by apply (bool_decide_unpack _).
  - apply (bool_decide_unpack _). vm_compute. exact I.
  - split; [exact H|reflexivity].
Defined.
