(* ===== verification/UdxCongestion.v ===== *)
(** * UdxCongestion: congestion control of [libudx/src/native/congestion]

    The windowed maximum filter ([filter.rs]), rate sampling ([rate.rs]), the
    token-bucket pacer ([pacing.rs]), the BBR state machine ([bbr.rs]) and the
    controller that joins them ([mod.rs]).  An [Instant] is a number of
    nanoseconds and the clock is an argument; [f64] is IEEE double precision
    ([RustFloat]); [u32] arithmetic wraps or saturates as written.  The fields
    of [BbrState] are grouped into records by the headings the source gives
    them. *)

From S2P Require Import Prelude RustFloat.

#[local] Open Scope Z_scope.

(** ** The clock and [u32] *)

Abbreviation Instant := Z.
Definition u32_max : Z := 2 ^ 32 - 1.
Definition sat_add (a b : Z) : Z := Z.min (a + b) u32_max.
Definition sat_sub (a b : Z) : Z := Z.max (a - b) 0.
Definition sat_mul (a b : Z) : Z := Z.min (a * b) u32_max.
Definition as_millis (d : Z) : Z := d / 1000000.
Definition checked_duration_since (now earlier : Instant) : option Z :=
  if earlier <=? now then Some (now - earlier) else None.
(** [Instant::duration_since] saturates to zero. *)
Definition elapsed_since (now earlier : Instant) : Z := Z.max (now - earlier) 0.

(** ** filter.rs *)

(** [[(f64, u32); 3]] *)
Record WindowedMaxFilter := mkFilter { wf_0 : f64 * Z; wf_1 : f64 * Z; wf_2 : f64 * Z }.
Definition f64_zero : f64 := f64_of_Z 0.
Definition WindowedMaxFilter_new : WindowedMaxFilter :=
  mkFilter (f64_zero, 0) (f64_zero, 0) (f64_zero, 0).
Definition WindowedMaxFilter_get (f : WindowedMaxFilter) : f64 := (wf_0 f).1.

Definition expired (round_count window round : Z) : bool := window <=? as_u32 (round_count - round).

Definition WindowedMaxFilter_update (val : f64) (round_count window : Z) (f : WindowedMaxFilter)
    : WindowedMaxFilter :=
  let new := (val, round_count) in
  let expired := expired round_count window in
  if f64_leb (wf_0 f).1 val || expired (wf_2 f).2 then mkFilter new new new
  else
    let f :=
      if f64_leb (wf_1 f).1 val then mkFilter (wf_0 f) new new
      else if f64_leb (wf_2 f).1 val then mkFilter (wf_0 f) (wf_1 f) new
      else f in
    if expired (wf_0 f).2 then
      let f := mkFilter (wf_1 f) (wf_2 f) new in
      if expired (wf_0 f).2 then mkFilter (wf_1 f) (wf_2 f) new else f
    else f.

(** ** rate.rs *)

Record PacketRateInfo := mkRateInfo {
  ri_first_sent_ts : Instant;
  ri_delivered_ts : Instant;
  ri_delivered : Z;
  ri_is_app_limited : bool
}.

Record RateSample := mkRateSample {
  rs_delivered : Z;
  rs_interval_ms : Z;
  rs_rtt_ms : Z;
  rs_losses : Z;
  rs_acked_sacked : Z;
  rs_is_app_limited : bool;
  rs_prior_delivered : Z;
  rs_prior_timestamp : option Instant;
  rs_prior_first_sent_ts : option Instant
}.

Record RateState := mkRateState {
  rt_current : RateSample;
  rt_rate_delivered : Z;
  rt_rate_interval_ms : Z
}.

Definition RateState_new : RateState :=
  mkRateState (mkRateSample 0 0 0 0 0 false 0 None None) 0 0.

Definition RateState_on_packet_delivered (info : PacketRateInfo) (time_sent : Instant) (rtt_ms : Z)
    (r : RateState) : option Instant * RateState :=
  let c := rt_current r in
  if rs_prior_delivered c <=? ri_delivered info then
    (Some time_sent,
     mkRateState
       (mkRateSample (rs_delivered c) (rs_interval_ms c) rtt_ms (rs_losses c) (rs_acked_sacked c)
          (ri_is_app_limited info) (ri_delivered info) (Some (ri_delivered_ts info))
          (Some (ri_first_sent_ts info)))
       (rt_rate_delivered r) (rt_rate_interval_ms r))
  else (None, r).

(** Milliseconds of a duration, a non-zero one counting as at least 1. *)
Definition clamped_ms (d : Z) : Z := if d =? 0 then 0 else Z.max (as_u32 (as_millis d)) 1.

Definition with_sample (delivered interval_ms lost_count acked : Z) (c : RateSample) : RateSample :=
  mkRateSample delivered interval_ms (rs_rtt_ms c) lost_count acked (rs_is_app_limited c)
    (rs_prior_delivered c) (rs_prior_timestamp c) (rs_prior_first_sent_ts c).

Definition RateState_generate (stream_delivered : Z) (stream_first_sent_ts stream_delivered_ts : Instant)
    (min_rtt_ms lost_count delivered_count : Z) (r : RateState) : RateState :=
  let c := rt_current r in
  let keep c := mkRateState c (rt_rate_delivered r) (rt_rate_interval_ms r) in
  match rs_prior_timestamp c, rs_prior_first_sent_ts c with
  | Some prior_ts, Some prior_first_sent =>
      let delivered := sat_sub stream_delivered (rs_prior_delivered c) in
      let snd_ms :=
        clamped_ms (default 0 (checked_duration_since stream_first_sent_ts prior_first_sent)) in
      let ack_ms := clamped_ms (default 0 (checked_duration_since stream_delivered_ts prior_ts)) in
      let interval_ms := Z.max snd_ms ack_ms in
      if interval_ms <? min_rtt_ms then keep (with_sample 0 0 lost_count delivered_count c)
      else
        let c' := with_sample delivered interval_ms lost_count delivered_count c in
        if negb (rs_is_app_limited c) ||
           (rt_rate_delivered r * interval_ms <=? delivered * rt_rate_interval_ms r)
        then mkRateState c' delivered interval_ms
        else keep c'
  | _, _ => keep (with_sample 0 0 lost_count delivered_count c)
  end.

(** ** pacing.rs *)

Record TokenBucket := mkBucket {
  tb_available : Z;
  tb_last_refill : option Instant;
  tb_rate_bytes_per_ms : Z;
  tb_max_burst : Z
}.

Definition TokenBucket_new (mss : Z) : TokenBucket :=
  mkBucket (as_u32 (2 * mss)) None 0 (as_u32 (2 * mss)).
Definition TokenBucket_set_rate (bytes_per_ms : Z) (b : TokenBucket) : TokenBucket :=
  mkBucket (tb_available b) (tb_last_refill b) bytes_per_ms (tb_max_burst b).

Definition elapsed_ms (now last : Instant) : Z := as_u32 (as_millis (elapsed_since now last)).

Definition TokenBucket_refill (now : Instant) (b : TokenBucket) : TokenBucket :=
  let available :=
    match tb_last_refill b with
    | Some last =>
        if 0 <? tb_rate_bytes_per_ms b then
          let tokens := sat_mul (elapsed_ms now last) (tb_rate_bytes_per_ms b) in
          Z.min (sat_add (tb_available b) tokens) (tb_max_burst b)
        else tb_available b
    | None => tb_available b
    end in
  mkBucket available (Some now) (tb_rate_bytes_per_ms b) (tb_max_burst b).

Definition TokenBucket_try_consume (bytes : Z) (now : Instant) (b : TokenBucket) : bool * TokenBucket :=
  let b := TokenBucket_refill now b in
  if bytes <=? tb_available b then
    (true, mkBucket (tb_available b - bytes) (tb_last_refill b) (tb_rate_bytes_per_ms b) (tb_max_burst b))
  else (false, b).

(** The delay is in milliseconds. *)
Definition TokenBucket_delay_for (bytes : Z) (now : Instant) (b : TokenBucket) : Z :=
  if (tb_rate_bytes_per_ms b =? 0) || (bytes <=? tb_available b) then 0
  else
    let deficit := bytes - tb_available b in
    let effective_deficit :=
      match tb_last_refill b with
      | Some last => sat_sub deficit (sat_mul (elapsed_ms now last) (tb_rate_bytes_per_ms b))
      | None => deficit
      end in
    if effective_deficit =? 0 then 0
    else (effective_deficit + tb_rate_bytes_per_ms b - 1) / tb_rate_bytes_per_ms b.

Definition TokenBucket_reset (now : Instant) (b : TokenBucket) : TokenBucket :=
  mkBucket (tb_max_burst b) (Some now) (tb_rate_bytes_per_ms b) (tb_max_burst b).

(** ** Constants of mod.rs *)

Definition BBR_CYCLE_LEN : Z := 8.
Definition BBR_BW_FILTER_CYCLES : Z := BBR_CYCLE_LEN + 2.
Definition BBR_MIN_RTT_INTERVAL_MS : Z := 10000.
Definition BBR_MIN_PROBE_RTT_MODE_MS : Z := 200.
Definition BBR_PACING_MARGIN_PERCENT : f64 := f64_lit 99 100.
Definition BBR_HIGH_GAIN : f64 := f64_lit 288539 100000.
Definition BBR_DRAIN_GAIN : f64 := f64_div (f64_of_Z 1) BBR_HIGH_GAIN.
Definition BBR_CWND_GAIN : f64 := f64_of_Z 2.
Definition f64_one : f64 := f64_of_Z 1.
Definition BBR_PACING_GAIN : list f64 :=
  [f64_lit 125 100; f64_lit 75 100; f64_one; f64_one; f64_one; f64_one; f64_one; f64_one].
Definition BBR_CWND_MIN_TARGET : Z := 4.
Definition BBR_FULL_BW_THRESH : f64 := f64_lit 125 100.
Definition BBR_FULL_BW_COUNT : Z := 3.
Definition BBR_EXTRA_ACKED_GAIN : f64 := f64_one.
Definition BBR_EXTRA_ACKED_WIN_RTTS : Z := 5.

Inductive BbrMode := Startup | Drain | ProbeBw | ProbeRtt.
#[global] Instance BbrMode_eq_dec : EqDecision BbrMode.
Proof. solve_decision. Defined.

(** In increasing order, as [PartialOrd] derives it. *)
Inductive CaState := Open | Recovery | Loss.
#[global] Instance CaState_eq_dec : EqDecision CaState.
Proof. solve_decision. Defined.
(** [self >= CaState::Recovery] *)
Definition in_recovery (s : CaState) : bool := match s with Open => false | _ => true end.

(** ** bbr.rs: the state *)

Record Rounds := mkRounds { ro_count : Z; ro_start : bool; ro_next_rtt_delivered : Z }.
Record FullBw := mkFullBw { fb_bw : f64; fb_count : Z; fb_reached : bool }.
Record Cycle := mkCycle { cy_index : Z; cy_stamp : option Instant }.
Record MinRtt := mkMinRtt {
  mr_ms : Z;
  mr_stamp : option Instant;
  mr_done_stamp : option Instant;
  mr_round_done : bool;
  mr_idle_restart : bool
}.
Record Gains := mkGains { ga_pacing : f64; ga_cwnd : f64 }.
Record CwndRecovery := mkCwndRecovery {
  re_prev_ca_state : CaState;
  re_prior_cwnd : Z;
  re_packet_conservation : bool
}.
Record Aggregation := mkAggregation {
  ag_extra_acked : list Z;
  ag_win_rtts : Z;
  ag_win_rtts_thresh : Z;
  ag_epoch_acked : Z;
  ag_epoch_stamp : option Instant;
  ag_idx : Z
}.

Record BbrState := mkBbr {
  b_mode : BbrMode;
  b_bw_filter : WindowedMaxFilter;
  b_bw : f64;
  b_round : Rounds;
  b_full : FullBw;
  b_cycle : Cycle;
  b_rtt : MinRtt;
  b_gains : Gains;
  b_recovery : CwndRecovery;
  b_agg : Aggregation
}.

Definition set_mode m b :=
  mkBbr m (b_bw_filter b) (b_bw b) (b_round b) (b_full b) (b_cycle b) (b_rtt b) (b_gains b) (b_recovery b) (b_agg b).
Definition set_bw f w b :=
  mkBbr (b_mode b) f w (b_round b) (b_full b) (b_cycle b) (b_rtt b) (b_gains b) (b_recovery b) (b_agg b).
Definition set_round r b :=
  mkBbr (b_mode b) (b_bw_filter b) (b_bw b) r (b_full b) (b_cycle b) (b_rtt b) (b_gains b) (b_recovery b) (b_agg b).
Definition set_full f b :=
  mkBbr (b_mode b) (b_bw_filter b) (b_bw b) (b_round b) f (b_cycle b) (b_rtt b) (b_gains b) (b_recovery b) (b_agg b).
Definition set_cycle c b :=
  mkBbr (b_mode b) (b_bw_filter b) (b_bw b) (b_round b) (b_full b) c (b_rtt b) (b_gains b) (b_recovery b) (b_agg b).
Definition set_rtt r b :=
  mkBbr (b_mode b) (b_bw_filter b) (b_bw b) (b_round b) (b_full b) (b_cycle b) r (b_gains b) (b_recovery b) (b_agg b).
Definition set_gains g b :=
  mkBbr (b_mode b) (b_bw_filter b) (b_bw b) (b_round b) (b_full b) (b_cycle b) (b_rtt b) g (b_recovery b) (b_agg b).
Definition set_recovery r b :=
  mkBbr (b_mode b) (b_bw_filter b) (b_bw b) (b_round b) (b_full b) (b_cycle b) (b_rtt b) (b_gains b) r (b_agg b).
Definition set_agg a b :=
  mkBbr (b_mode b) (b_bw_filter b) (b_bw b) (b_round b) (b_full b) (b_cycle b) (b_rtt b) (b_gains b) (b_recovery b) a.

Definition BbrState_new (initial_rtt_ms : Z) (now : Instant) : BbrState :=
  mkBbr Startup WindowedMaxFilter_new f64_zero (mkRounds 0 false 0) (mkFullBw f64_zero 0 false)
    (mkCycle 0 None) (mkMinRtt initial_rtt_ms (Some now) None false false)
    (mkGains BBR_HIGH_GAIN BBR_HIGH_GAIN) (mkCwndRecovery Open 0 false)
    (mkAggregation [0; 0] 0 BBR_EXTRA_ACKED_WIN_RTTS 0 None 0).

Definition BbrState_on_rto (b : BbrState) : BbrState :=
  let r := b_round b in
  let c := b_recovery b in
  set_full (mkFullBw f64_zero 0 false)
    (set_round (mkRounds (ro_count r) true (ro_next_rtt_delivered r))
       (set_recovery (mkCwndRecovery Loss (re_prior_cwnd c) (re_packet_conservation c)) b)).

Definition with_idle_restart (v : bool) (m : MinRtt) : MinRtt :=
  mkMinRtt (mr_ms m) (mr_stamp m) (mr_done_stamp m) (mr_round_done m) v.

Definition BbrState_on_transmit_start (app_limited : bool) (now : Instant) (b : BbrState) : BbrState :=
  if app_limited then
    let a := b_agg b in
    set_agg (mkAggregation (ag_extra_acked a) (ag_win_rtts a) (ag_win_rtts_thresh a) 0 (Some now) (ag_idx a))
      (set_rtt (with_idle_restart true (b_rtt b)) b)
  else b.

Definition save_cwnd (cwnd : Z) (b : BbrState) : BbrState :=
  let c := b_recovery b in
  let prior :=
    if negb (in_recovery (re_prev_ca_state c)) && bool_decide (b_mode b <> ProbeRtt) then cwnd
    else Z.max (re_prior_cwnd c) cwnd in
  set_recovery (mkCwndRecovery (re_prev_ca_state c) prior (re_packet_conservation c)) b.

Definition BbrState_min_rtt_ms (b : BbrState) : Z := if mr_ms (b_rtt b) =? 0 then 1 else mr_ms (b_rtt b).

(** ** bbr.rs: the update pipeline *)

Definition advance_cycle_phase (now : Instant) (b : BbrState) : BbrState :=
  set_cycle (mkCycle (as_u32 (cy_index (b_cycle b) + 1) mod BBR_CYCLE_LEN) (Some now)) b.

Definition target_cwnd (bw gain : f64) (min_rtt_ms : Z) : Z :=
  let bdp := f64_to_u32 (f64_mul bw (f64_of_Z min_rtt_ms)) in
  Z.max (f64_to_u32 (f64_mul (f64_of_Z bdp) gain)) BBR_CWND_MIN_TARGET.

Definition update_bw (rs : RateSample) (delivered : Z) (b : BbrState) : BbrState :=
  let r := b_round b in
  let start := ro_next_rtt_delivered r <=? rs_prior_delivered rs in
  let b := set_round
    (if start then mkRounds (as_u32 (ro_count r + 1)) true delivered
     else mkRounds (ro_count r) false (ro_next_rtt_delivered r)) b in
  if (rs_delivered rs =? 0) || (rs_interval_ms rs =? 0) then b
  else
    let delivery_rate := f64_div (f64_of_Z (rs_delivered rs)) (f64_of_Z (rs_interval_ms rs)) in
    if negb (rs_is_app_limited rs) || f64_ltb (WindowedMaxFilter_get (b_bw_filter b)) delivery_rate then
      let f := WindowedMaxFilter_update delivery_rate (ro_count (b_round b)) BBR_BW_FILTER_CYCLES (b_bw_filter b) in
      set_bw f (WindowedMaxFilter_get f) b
    else b.

(** [extra_acked[idx]] and [extra_acked[idx] = v] of a two-element array. *)
Definition slot_get (idx : Z) (l : list Z) : outcome Empty_set Z :=
  match l !! Z.to_nat idx with Some v => Ok v | None => Panic end.
Definition slot_set (idx v : Z) (l : list Z) : outcome Empty_set (list Z) :=
  if idx <? len l then Ok (<[Z.to_nat idx := v]> l) else Panic.

(** The slot of the round: the other one, cleared, when the window is over. *)
Definition rotate_slot (a : Aggregation) : outcome Empty_set Aggregation :=
  let win := Z.min (sat_add (ag_win_rtts a) 1) 0xff in
  if ag_win_rtts_thresh a <=? win then
    let idx := Z.lxor (ag_idx a) 1 in
    slots ← slot_set idx 0 (ag_extra_acked a);
    Ok (mkAggregation slots 0 (ag_win_rtts_thresh a) (ag_epoch_acked a) (ag_epoch_stamp a) idx)
  else Ok (mkAggregation (ag_extra_acked a) win (ag_win_rtts_thresh a) (ag_epoch_acked a)
             (ag_epoch_stamp a) (ag_idx a)).

Definition update_ack_aggregation (rs : RateSample) (cwnd : Z) (now : Instant) (b : BbrState)
    : outcome Empty_set BbrState :=
  if (rs_acked_sacked rs =? 0) || (rs_delivered rs =? 0) || (rs_interval_ms rs =? 0) then Ok b
  else
    a ← (if ro_start (b_round b) then rotate_slot (b_agg b) else Ok (b_agg b));
    let '(stamp, acked) :=
      match ag_epoch_stamp a with Some s => (s, ag_epoch_acked a) | None => (now, 0) end in
    let elapsed := default 0 ((fun d => as_u64 (as_millis d)) <$> checked_duration_since now stamp) in
    let expected := f64_to_u32 (f64_mul (f64_of_Z elapsed) (b_bw b)) in
    let '(stamp, acked, expected) :=
      if (acked <=? expected) || (u32_max <=? acked + rs_acked_sacked rs) then (now, 0, 0)
      else (stamp, acked, expected) in
    let acked := sat_add acked (rs_acked_sacked rs) in
    let extra := Z.min (sat_sub acked expected) cwnd in
    current ← slot_get (ag_idx a) (ag_extra_acked a);
    slots ← (if current <? extra then slot_set (ag_idx a) extra (ag_extra_acked a)
             else Ok (ag_extra_acked a));
    Ok (set_agg (mkAggregation slots (ag_win_rtts a) (ag_win_rtts_thresh a) acked (Some stamp) (ag_idx a)) b).

Definition update_cycle_phase (rs : RateSample) (inflight min_rtt_ms : Z) (now : Instant) (b : BbrState)
    : BbrState :=
  match b_mode b with
  | ProbeBw =>
      let elapsed_enough :=
        match cy_stamp (b_cycle b) ≫= checked_duration_since now with
        | Some d => min_rtt_ms <? as_u64 (as_millis d)
        | None => true
        end in
      let gain := ga_pacing (b_gains b) in
      if f64_eqb gain f64_one then
        if elapsed_enough then advance_cycle_phase now b else b
      else if f64_ltb f64_one gain then
        let target := target_cwnd (b_bw b) gain min_rtt_ms in
        if elapsed_enough && ((0 <? rs_losses rs) || (target <? inflight)) then advance_cycle_phase now b
        else b
      else
        let target := target_cwnd (b_bw b) f64_one min_rtt_ms in
        if elapsed_enough || (inflight <=? target) then advance_cycle_phase now b else b
  | _ => b
  end.

Definition check_full_bw_reached (rs : RateSample) (b : BbrState) : BbrState :=
  let f := b_full b in
  if fb_reached f || negb (ro_start (b_round b)) || rs_is_app_limited rs then b
  else if f64_leb (f64_mul (fb_bw f) BBR_FULL_BW_THRESH) (b_bw b) then
    set_full (mkFullBw (b_bw b) 0 (fb_reached f)) b
  else
    let count := as_u32 (fb_count f + 1) in
    set_full (mkFullBw (fb_bw f) count (BBR_FULL_BW_COUNT <=? count)) b.

Definition enter_probe_bw (now : Instant) (b : BbrState) : BbrState :=
  advance_cycle_phase now (set_cycle (mkCycle 3 (cy_stamp (b_cycle b))) (set_mode ProbeBw b)).

Definition check_drain (inflight : Z) (now : Instant) (b : BbrState) : option Z * BbrState :=
  let target := target_cwnd (b_bw b) f64_one (mr_ms (b_rtt b)) in
  let '(ssthresh, b) :=
    match b_mode b with
    | Startup => if fb_reached (b_full b) then (Some target, set_mode Drain b) else (None, b)
    | _ => (None, b)
    end in
  match b_mode b with
  | Drain => (ssthresh, if inflight <=? target then enter_probe_bw now b else b)
  | _ => (ssthresh, b)
  end.

(** A stamp older than [ms] milliseconds; no stamp is not. *)
Definition older_than (ms : Z) (now : Instant) (stamp : option Instant) : bool :=
  match stamp ≫= checked_duration_since now with
  | Some d => ms <? as_u64 (as_millis d)
  | None => false
  end.

Definition with_probe (done_stamp : option Instant) (round_done : bool) (m : MinRtt) : MinRtt :=
  mkMinRtt (mr_ms m) (mr_stamp m) done_stamp round_done (mr_idle_restart m).
Definition with_stamp (stamp : option Instant) (m : MinRtt) : MinRtt :=
  mkMinRtt (mr_ms m) stamp (mr_done_stamp m) (mr_round_done m) (mr_idle_restart m).

(** The part of [update_min_rtt] under [mode == ProbeRtt]. *)
Definition probe_rtt (inflight : Z) (now : Instant) (b : BbrState) : BbrState :=
  let b := set_rtt (with_stamp (Some now) (b_rtt b)) b in
  let m := b_rtt b in
  if inflight <=? BBR_CWND_MIN_TARGET then
    match mr_done_stamp m with
    | None => set_rtt (with_probe (Some now) false m) b
    | Some _ =>
        let round_done := ro_start (b_round b) || mr_round_done m in
        if older_than BBR_MIN_PROBE_RTT_MODE_MS now (mr_done_stamp m) && round_done then
          let b := set_rtt (with_stamp (Some now) (with_probe None false m)) b in
          if 0 <? fb_count (b_full b) then enter_probe_bw now b else set_mode Startup b
        else set_rtt (with_probe (mr_done_stamp m) round_done m) b
    end
  else set_rtt (with_probe None false m) b.

Definition update_min_rtt (rs : RateSample) (cwnd inflight : Z) (now : Instant) (b : BbrState) : BbrState :=
  let m := b_rtt b in
  let min_rtt_expired := older_than BBR_MIN_RTT_INTERVAL_MS now (mr_stamp m) in
  let b :=
    if (0 <? rs_rtt_ms rs) && ((mr_ms m =? 0) || (rs_rtt_ms rs <? mr_ms m) || min_rtt_expired)
    then set_rtt (mkMinRtt (rs_rtt_ms rs) (Some now) (mr_done_stamp m) (mr_round_done m) (mr_idle_restart m)) b
    else b in
  let b :=
    if min_rtt_expired && negb (mr_idle_restart (b_rtt b)) && bool_decide (b_mode b <> ProbeRtt)
    then let b := save_cwnd cwnd (set_mode ProbeRtt b) in set_rtt (with_probe None false (b_rtt b)) b
    else b in
  let b := if decide (b_mode b = ProbeRtt) then probe_rtt inflight now b else b in
  if 0 <? rs_delivered rs then set_rtt (with_idle_restart false (b_rtt b)) b else b.

Definition update_gains (b : BbrState) : outcome Empty_set BbrState :=
  match b_mode b with
  | Startup => Ok (set_gains (mkGains BBR_HIGH_GAIN BBR_HIGH_GAIN) b)
  | Drain => Ok (set_gains (mkGains BBR_DRAIN_GAIN BBR_HIGH_GAIN) b)
  | ProbeBw =>
      match BBR_PACING_GAIN !! Z.to_nat (cy_index (b_cycle b)) with
      | Some gain => Ok (set_gains (mkGains gain BBR_CWND_GAIN) b)
      | None => Panic
      end
  | ProbeRtt => Ok (set_gains (mkGains f64_one f64_one) b)
  end.

Definition update_model (rs : RateSample) (cwnd delivered inflight : Z) (now : Instant) (b : BbrState)
    : outcome Empty_set (option Z * BbrState) :=
  let b := update_bw rs delivered b in
  b ← update_ack_aggregation rs cwnd now b;
  let b := update_cycle_phase rs inflight (mr_ms (b_rtt b)) now b in
  let b := check_full_bw_reached rs b in
  let '(ssthresh_out, b) := check_drain inflight now b in
  let b := update_min_rtt rs cwnd inflight now b in
  b ← update_gains b;
  Ok (ssthresh_out, b).

Definition set_pacing_rate (bw : f64) (mss : Z) (pacing_gain : f64) : Z :=
  f64_to_u32 (f64_mul (f64_mul (f64_mul bw (f64_of_Z mss)) pacing_gain) BBR_PACING_MARGIN_PERCENT).

Definition extra_acked (b : BbrState) : outcome Empty_set Z :=
  x ← slot_get 0 (ag_extra_acked (b_agg b));
  y ← slot_get 1 (ag_extra_acked (b_agg b));
  Ok (f64_to_u32 (f64_mul (f64_of_Z (Z.max x y)) BBR_EXTRA_ACKED_GAIN)).

(** The recovery part of [set_cwnd]: entering and leaving recovery. *)
Definition recovery_cwnd (acked new_cwnd inflight : Z) (ca_state : CaState) (delivered : Z) (b : BbrState)
    : Z * BbrState :=
  let c := b_recovery b in
  let r := b_round b in
  let prev := re_prev_ca_state c in
  if bool_decide (ca_state = Recovery) && bool_decide (prev <> Recovery) then
    (sat_add inflight acked,
     set_round (mkRounds (ro_count r) (ro_start r) delivered)
       (set_recovery (mkCwndRecovery ca_state (re_prior_cwnd c) true) b))
  else if in_recovery prev && bool_decide (ca_state = Open) then
    (Z.max new_cwnd (re_prior_cwnd c), set_recovery (mkCwndRecovery ca_state (re_prior_cwnd c) false) b)
  else (new_cwnd, set_recovery (mkCwndRecovery ca_state (re_prior_cwnd c) (re_packet_conservation c)) b).

Definition set_cwnd (rs : RateSample) (acked cwnd : Z) (bw cwnd_gain : f64) (min_rtt_ms inflight : Z)
    (ca_state : CaState) (delivered : Z) (b : BbrState) : outcome Empty_set (Z * BbrState) :=
  let new_cwnd := if 0 <? rs_losses rs then Z.max (sat_sub cwnd (rs_losses rs)) 1 else cwnd in
  let '(new_cwnd, b) := recovery_cwnd acked new_cwnd inflight ca_state delivered b in
  if re_packet_conservation (b_recovery b) then
    Ok (Z.max (Z.max new_cwnd (sat_add inflight acked)) BBR_CWND_MIN_TARGET, b)
  else if rs_delivered rs =? 0 then Ok (Z.max new_cwnd BBR_CWND_MIN_TARGET, b)
  else
    extra ← extra_acked b;
    let target := sat_add (target_cwnd bw cwnd_gain min_rtt_ms) extra in
    let new_cwnd :=
      if fb_reached (b_full b) then Z.min (sat_add new_cwnd acked) target else sat_add new_cwnd acked in
    let new_cwnd := if decide (b_mode b = ProbeRtt) then Z.min new_cwnd BBR_CWND_MIN_TARGET else new_cwnd in
    Ok (Z.max new_cwnd BBR_CWND_MIN_TARGET, b).

(** The new window, pacing rate and slow-start threshold. *)
Definition BbrState_on_ack (rs : RateSample) (acked cwnd mss delivered inflight : Z) (ca_state : CaState)
    (now : Instant) (b : BbrState) : outcome Empty_set (Z * Z * option Z * BbrState) :=
  '(ssthresh_out, b) ← update_model rs cwnd delivered inflight now b;
  let pacing := set_pacing_rate (b_bw b) mss (ga_pacing (b_gains b)) in
  '(new_cwnd, b) ← set_cwnd rs acked cwnd (b_bw b) (ga_cwnd (b_gains b)) (mr_ms (b_rtt b)) inflight
                     ca_state delivered b;
  Ok (new_cwnd, pacing, ssthresh_out, b).

(** ** mod.rs: the controller *)

Record CongestionController := mkCongestion {
  cc_bbr : BbrState;
  cc_rate : RateState;
  cc_pacing : TokenBucket;
  cc_delivered : Z;
  cc_lost : Z;
  cc_app_limited : Z;
  cc_first_sent_ts : option Instant;
  cc_delivered_ts : option Instant;
  cc_ca_state : CaState;
  cc_high_seq : Z;
  cc_cwnd : Z;
  cc_ssthresh : Z;
  cc_pacing_bytes_per_ms : Z;
  cc_mss : Z
}.

Definition INITIAL_CWND : Z := 10.
Definition INITIAL_SSTHRESH : Z := 0xffff.

Definition CongestionController_new (mss : Z) (now : Instant) : CongestionController :=
  mkCongestion (BbrState_new 0 now) RateState_new (TokenBucket_new mss) 0 0 u32_max None None Open 0
    INITIAL_CWND INITIAL_SSTHRESH 0 mss.

Definition on_packet_sent (inflight : Z) (now : Instant) (c : CongestionController)
    : PacketRateInfo * CongestionController :=
  let restart := (inflight =? 0) || bool_decide (cc_first_sent_ts c = None) in
  let first := if restart then Some now else cc_first_sent_ts c in
  let dts := if restart then Some now else cc_delivered_ts c in
  (mkRateInfo (default now first) (default now dts) (cc_delivered c) (0 <? cc_app_limited c),
   mkCongestion (cc_bbr c) (cc_rate c) (cc_pacing c) (cc_delivered c) (cc_lost c) (cc_app_limited c)
     first dts (cc_ca_state c) (cc_high_seq c) (cc_cwnd c) (cc_ssthresh c) (cc_pacing_bytes_per_ms c)
     (cc_mss c)).

(** One turn of the rate-sampling loop of [on_ack]. *)
Definition sample_packet (now : Instant) (acc : option Instant * RateState) (p : Z * PacketRateInfo)
    : option Instant * RateState :=
  let '(first, r) := acc in
  let info := p.2 in
  let dur := default 0 (checked_duration_since now (ri_first_sent_ts info)) in
  let '(new_first, r) :=
    RateState_on_packet_delivered info (ri_first_sent_ts info) (clamped_ms dur) r in
  (match new_first with Some _ => new_first | None => first end, r).

(** [iter().max().unwrap_or(0)] of the sequence numbers. *)
Definition max_acked (acked : list (Z * PacketRateInfo)) : Z := foldr Z.max 0 acked.*1.

Definition on_ack (acked : list (Z * PacketRateInfo)) (lost_count inflight : Z) (now : Instant)
    (c : CongestionController) : outcome Empty_set CongestionController :=
  let acked_count := as_u32 (len acked) in
  let delivered := as_u32 (cc_delivered c + acked_count) in
  let ca_state :=
    if in_recovery (cc_ca_state c) && (cc_high_seq c <=? max_acked acked) then Open else cc_ca_state c in
  let app_limited :=
    if (0 <? cc_app_limited c) && (cc_app_limited c <? delivered) then 0 else cc_app_limited c in
  let '(first, rate) := foldl (sample_packet now) (cc_first_sent_ts c, cc_rate c) acked in
  let rate := RateState_generate delivered (default now first) now (BbrState_min_rtt_ms (cc_bbr c))
                lost_count acked_count rate in
  '(new_cwnd, new_pacing, ssthresh_out, bbr) ←
    BbrState_on_ack (rt_current rate) acked_count (cc_cwnd c) (cc_mss c) delivered inflight ca_state now
      (cc_bbr c);
  let app_limited :=
    if decide (b_mode bbr = ProbeRtt) then Z.max (as_u32 (delivered + inflight)) 1 else app_limited in
  Ok (mkCongestion bbr rate (TokenBucket_set_rate new_pacing (cc_pacing c)) delivered (cc_lost c)
        app_limited first (Some now) ca_state (cc_high_seq c) new_cwnd
        (default (cc_ssthresh c) ssthresh_out) new_pacing (cc_mss c)).

Definition on_packet_lost (c : CongestionController) : CongestionController :=
  let opens := bool_decide (cc_ca_state c = Open) in
  mkCongestion (if opens then save_cwnd (cc_cwnd c) (cc_bbr c) else cc_bbr c) (cc_rate c) (cc_pacing c)
    (cc_delivered c) (as_u32 (cc_lost c + 1)) (cc_app_limited c) (cc_first_sent_ts c) (cc_delivered_ts c)
    (if opens then Recovery else cc_ca_state c) (cc_high_seq c) (cc_cwnd c)
    (if opens then cc_cwnd c else cc_ssthresh c) (cc_pacing_bytes_per_ms c) (cc_mss c).

Definition on_rto (c : CongestionController) : CongestionController :=
  mkCongestion (BbrState_on_rto (cc_bbr c)) (cc_rate c) (cc_pacing c) (cc_delivered c) (cc_lost c)
    (cc_app_limited c) (cc_first_sent_ts c) (cc_delivered_ts c) Loss (cc_high_seq c) (cc_cwnd c)
    (cc_ssthresh c) (cc_pacing_bytes_per_ms c) (cc_mss c).

Definition with_pacing (bbr : BbrState) (p : TokenBucket) (c : CongestionController) : CongestionController :=
  mkCongestion bbr (cc_rate c) p (cc_delivered c) (cc_lost c) (cc_app_limited c) (cc_first_sent_ts c)
    (cc_delivered_ts c) (cc_ca_state c) (cc_high_seq c) (cc_cwnd c) (cc_ssthresh c)
    (cc_pacing_bytes_per_ms c) (cc_mss c).

Definition on_transmit_start (now : Instant) (c : CongestionController) : CongestionController :=
  with_pacing (BbrState_on_transmit_start (0 <? cc_app_limited c) now (cc_bbr c))
    (TokenBucket_reset now (cc_pacing c)) c.

(** The division panics for a zero [mss]. *)
Definition can_send (inflight send_rwnd : Z) (c : CongestionController) : outcome Empty_set bool :=
  if cc_mss c =? 0 then Panic
  else Ok (inflight <? Z.min (cc_cwnd c) (send_rwnd / cc_mss c)).

Definition pacing_delay (bytes : Z) (now : Instant) (c : CongestionController) : Z * CongestionController :=
  let p := TokenBucket_refill now (cc_pacing c) in
  (TokenBucket_delay_for bytes now p, with_pacing (cc_bbr c) p c).

Definition is_app_limited (queued_bytes inflight : Z) (retransmit_pending : bool) (c : CongestionController)
    : bool :=
  (as_u32 queued_bytes <? cc_mss c) && (inflight <? cc_cwnd c) && negb retransmit_pending.

Definition check_app_limited (queued_bytes inflight : Z) (c : CongestionController) : CongestionController :=
  if is_app_limited queued_bytes inflight false c then
    mkCongestion (cc_bbr c) (cc_rate c) (cc_pacing c) (cc_delivered c) (cc_lost c)
      (Z.max (as_u32 (cc_delivered c + inflight)) 1) (cc_first_sent_ts c) (cc_delivered_ts c)
      (cc_ca_state c) (cc_high_seq c) (cc_cwnd c) (cc_ssthresh c) (cc_pacing_bytes_per_ms c) (cc_mss c)
  else c.

(** The guard is on the [usize], the division by its low 32 bits: it panics for a
    positive multiple of 2^32. *)
Definition on_mtu_change (old_mtu new_mtu : Z) (c : CongestionController)
    : outcome Empty_set CongestionController :=
  cwnd ← (if 0 <? old_mtu then
            if as_u32 old_mtu =? 0 then Panic
            else Ok (as_u32 (cc_cwnd c * as_u32 new_mtu) / as_u32 old_mtu)
          else Ok (cc_cwnd c));
  Ok (mkCongestion (cc_bbr c) (cc_rate c) (cc_pacing c) (cc_delivered c) (cc_lost c) (cc_app_limited c)
        (cc_first_sent_ts c) (cc_delivered_ts c) (cc_ca_state c) (cc_high_seq c) cwnd (cc_ssthresh c)
        (cc_pacing_bytes_per_ms c) (as_u32 (new_mtu - 20))).

(** [congestion.high_seq = max_seq], which the stream sets. *)
Definition set_high_seq (seq : Z) (c : CongestionController) : CongestionController :=
  mkCongestion (cc_bbr c) (cc_rate c) (cc_pacing c) (cc_delivered c) (cc_lost c) (cc_app_limited c)
    (cc_first_sent_ts c) (cc_delivered_ts c) (cc_ca_state c) seq (cc_cwnd c) (cc_ssthresh c)
    (cc_pacing_bytes_per_ms c) (cc_mss c).
