(* ===== verification/UdxCongestionTheorems.v ===== *)
(** * UdxCongestionTheorems: what the congestion controller guarantees

    No sequence of sends, acknowledgements, losses, timeouts and MTU changes
    makes the controller index out of its tables, the window never falls below
    four packets after an acknowledgement, and the pacer lets through at most a
    burst plus the paced rate.  The bandwidth filter returns a sample of the
    window, not always its largest. *)

From S2P Require Import Prelude RustFloat UdxCongestion.

#[local] Open Scope Z_scope.

(** ** The state machine stays inside its tables *)

Record agg_ok (a : Aggregation) : Prop := {
  ao_slots : length (ag_extra_acked a) = 2%nat;
  ao_range : Forall (in_u 32) (ag_extra_acked a);
  ao_idx : ag_idx a = 0 \/ ag_idx a = 1
}.

Record bbr_ok (b : BbrState) : Prop := {
  bo_cycle : 0 <= cy_index (b_cycle b) < BBR_CYCLE_LEN;
  bo_agg : agg_ok (b_agg b);
  bo_prior : in_u 32 (re_prior_cwnd (b_recovery b))
}.

Record bucket_ok (p : TokenBucket) : Prop := {
  tk_available : 0 <= tb_available p <= tb_max_burst p;
  tk_burst : in_u 32 (tb_max_burst p)
}.

Record cc_ok (c : CongestionController) : Prop := {
  co_bbr : bbr_ok (cc_bbr c);
  co_bucket : bucket_ok (cc_pacing c);
  co_cwnd : in_u 32 (cc_cwnd c);
  co_mss : cc_mss c <> 0
}.

(** Two states that differ only outside the tables. *)
Definition same_tables (b b' : BbrState) : Prop :=
  b_cycle b' = b_cycle b /\ b_agg b' = b_agg b /\
  re_prior_cwnd (b_recovery b') = re_prior_cwnd (b_recovery b).

Lemma same_tables_ok b b' : same_tables b b' -> bbr_ok b -> bbr_ok b'.
Proof. intros (Hc & Ha & Hp) [H1 H2 H3]. split; [by rewrite Hc|by rewrite Ha|by rewrite Hp]. Qed.

Lemma advance_ok now b : bbr_ok b -> bbr_ok (advance_cycle_phase now b).
Proof. intros [_ Ha Hp]. split; [|done|done]. cbn. apply Z.mod_pos_bound. done. Qed.

Lemma enter_probe_bw_ok now b : bbr_ok b -> bbr_ok (enter_probe_bw now b).
Proof. intros [_ Ha Hp]. apply advance_ok. by split. Qed.

Create HintDb bbr.
#[export] Hint Resolve advance_ok enter_probe_bw_ok : bbr.

Lemma update_bw_ok rs d b : bbr_ok b -> bbr_ok (update_bw rs d b).
Proof.
  intros Hb. apply (same_tables_ok b); [|done]. unfold update_bw.
  repeat (case_match; try by split).
Qed.

Lemma slot_set_ok a idx v :
  agg_ok a -> idx = 0 \/ idx = 1 -> in_u 32 v ->
  exists slots, slot_set idx v (ag_extra_acked a) = Ok slots /\ length slots = 2%nat /\
    Forall (in_u 32) slots.
Proof.
  intros [Hl Hf _] Hi Hv. unfold slot_set. rewrite (proj2 (Z.ltb_lt _ _)) by (unfold len; lia).
  eexists. split_and!; [done|by rewrite length_insert|by apply Forall_insert].
Qed.

Lemma rotate_slot_ok a : agg_ok a -> exists a', rotate_slot a = Ok a' /\ agg_ok a'.
Proof.
  intros Ha. pose proof (ao_idx _ Ha) as Hi. unfold rotate_slot. case_match.
  - destruct (slot_set_ok a (Z.lxor (ag_idx a) 1) 0) as (slots & -> & Hl & Hf); [done| |done|].
    { destruct Hi as [->| ->]; [by right|by left]. }
    eexists. split; [done|]. split; [done|done|]. cbn.
    destruct Hi as [->| ->]; [by right|by left].
  - eexists. split; [done|]. destruct Ha. by split.
Qed.

Lemma slot_get_ok a idx :
  agg_ok a -> idx = 0 \/ idx = 1 ->
  exists v, slot_get idx (ag_extra_acked a) = Ok v /\ in_u 32 v.
Proof.
  intros [Hl Hf _] Hi. unfold slot_get.
  destruct (ag_extra_acked a !! Z.to_nat idx) as [v|] eqn:E.
  - exists v. split; [done|]. by eapply Forall_lookup_1.
  - apply lookup_ge_None in E. lia.
Qed.

Lemma update_ack_aggregation_ok rs cwnd now b :
  in_u 32 cwnd -> bbr_ok b ->
  exists b', update_ack_aggregation rs cwnd now b = Ok b' /\ bbr_ok b' /\ b_cycle b' = b_cycle b.
Proof.
  intros Hc [Hcy Ha Hp]. unfold update_ack_aggregation. case_match; [by exists b|].
  assert (exists a, (if ro_start (b_round b) then rotate_slot (b_agg b) else Ok (b_agg b)) = Ok a /\ agg_ok a)
    as (a & -> & Hok).
  { case_match; [by apply rotate_slot_ok|eauto]. }
  cbn [mbind outcome_bind].
  destruct (match ag_epoch_stamp a with Some s => (s, ag_epoch_acked a) | None => (now, 0) end)
    as [stamp acked].
  match goal with |- context [if ?x || ?y then (now, 0, 0) else _] =>
    destruct (if x || y then (now, 0, 0) else (stamp, acked, _)) as [[stamp' acked'] expected] end.
  destruct (slot_get_ok a (ag_idx a) Hok (ao_idx _ Hok)) as (v & -> & Hv). cbn [mbind outcome_bind].
  match goal with |- context [Z.min (sat_sub ?x ?y) cwnd] => set (extra := Z.min (sat_sub x y) cwnd) end.
  assert (in_u 32 extra) as He.
  { subst extra. unfold in_u, sat_sub in *. lia. }
  destruct (v <? extra).
  - destruct (slot_set_ok a (ag_idx a) extra Hok (ao_idx _ Hok) He) as (slots & -> & Hl & Hf).
    cbn [mbind outcome_bind]. eexists. split; [done|]. split; [|done]. split; [done| |done]. split; [done|done|].
    apply (ao_idx _ Hok).
  - cbn [mbind outcome_bind]. eexists. split; [done|]. split; [|done]. split; [done| |done]. by destruct Hok.
Qed.

Lemma update_cycle_phase_ok rs i m now b : bbr_ok b -> bbr_ok (update_cycle_phase rs i m now b).
Proof. intros Hb. unfold update_cycle_phase. repeat (case_match; auto with bbr). Qed.

Lemma check_full_bw_reached_ok rs b : bbr_ok b -> bbr_ok (check_full_bw_reached rs b).
Proof.
  intros Hb. apply (same_tables_ok b); [|done]. unfold check_full_bw_reached.
  repeat (case_match; try by split).
Qed.

Lemma set_mode_ok m b : bbr_ok b -> bbr_ok (set_mode m b).
Proof. by apply same_tables_ok. Qed.
Lemma set_rtt_ok r b : bbr_ok b -> bbr_ok (set_rtt r b).
Proof. by apply same_tables_ok. Qed.
Lemma set_gains_ok g b : bbr_ok b -> bbr_ok (set_gains g b).
Proof. by apply same_tables_ok. Qed.
#[export] Hint Resolve set_mode_ok set_rtt_ok set_gains_ok : bbr.

Lemma save_cwnd_ok c b : in_u 32 c -> bbr_ok b -> bbr_ok (save_cwnd c b).
Proof.
  intros Hc [H1 H2 H3]. split; [done|done|]. cbn. unfold in_u in *. case_match; lia.
Qed.
#[export] Hint Resolve save_cwnd_ok : bbr.

Lemma check_drain_ok i now b : bbr_ok b -> bbr_ok (check_drain i now b).2.
Proof.
  intros Hb. unfold check_drain. destruct (b_mode b) eqn:Em; try (destruct (fb_reached _));
    cbn [b_mode set_mode]; rewrite ?Em; cbn [snd]; try case_match; auto with bbr.
Qed.

Lemma probe_rtt_ok i now b : bbr_ok b -> bbr_ok (probe_rtt i now b).
Proof. intros Hb. unfold probe_rtt. repeat (case_match; auto 6 with bbr). Qed.
#[export] Hint Resolve probe_rtt_ok : bbr.

Lemma update_min_rtt_ok rs c i now b : in_u 32 c -> bbr_ok b -> bbr_ok (update_min_rtt rs c i now b).
Proof.
  intros Hc Hb. unfold update_min_rtt. repeat (case_match; auto 8 with bbr).
Qed.

Lemma update_gains_ok b : bbr_ok b -> exists b', update_gains b = Ok b' /\ bbr_ok b' /\ b_mode b' = b_mode b.
Proof.
  intros Hb. unfold update_gains. destruct (b_mode b) eqn:Em;
    try (eexists; split_and!; [reflexivity|auto with bbr|exact Em]).
  destruct (BBR_PACING_GAIN !! _) as [g|] eqn:E;
    [eexists; split_and!; [reflexivity|auto with bbr|exact Em]|].
  apply lookup_ge_None in E. pose proof (bo_cycle _ Hb). unfold BBR_CYCLE_LEN in *. cbn in E. lia.
Qed.

Lemma update_model_ok rs cwnd d i now b :
  in_u 32 cwnd -> bbr_ok b ->
  exists st b', update_model rs cwnd d i now b = Ok (st, b') /\ bbr_ok b'.
Proof.
  intros Hc Hb. unfold update_model.
  destruct (update_ack_aggregation_ok rs cwnd now (update_bw rs d b) Hc) as (b1 & -> & H1 & _);
    [by apply update_bw_ok|]. cbn [mbind outcome_bind].
  destruct (check_drain i now _) as [st b2] eqn:E.
  assert (bbr_ok b2) as H2.
  { change b2 with (st, b2).2. rewrite <- E.
    by apply check_drain_ok, check_full_bw_reached_ok, update_cycle_phase_ok. }
  destruct (update_gains_ok (update_min_rtt rs cwnd i now b2)) as (b3 & -> & H3 & _);
    [by apply update_min_rtt_ok|]. cbn. eauto.
Qed.

Lemma extra_acked_ok b : bbr_ok b -> exists v, extra_acked b = Ok v /\ in_u 32 v.
Proof.
  intros [_ Ha _]. unfold extra_acked.
  destruct (slot_get_ok _ 0 Ha) as (x & -> & _); [by left|]. cbn [mbind outcome_bind].
  destruct (slot_get_ok _ 1 Ha) as (y & -> & _); [by right|]. cbn [mbind outcome_bind].
  eexists. split; [done|apply f64_to_u32_range].
Qed.

Lemma recovery_cwnd_ok acked w i ca d b :
  in_u 32 w -> 0 <= acked -> 0 <= i -> bbr_ok b ->
  in_u 32 (recovery_cwnd acked w i ca d b).1 /\ bbr_ok (recovery_cwnd acked w i ca d b).2.
Proof.
  intros Hw Ha Hi Hb. pose proof (bo_prior _ Hb). unfold recovery_cwnd, sat_add, u32_max, in_u in *.
  repeat case_match; cbn [fst snd]; (split_and!; [lia|lia|]); by apply (same_tables_ok b).
Qed.

(** The new window is at least four packets and fits a [u32]. *)
Lemma set_cwnd_ok rs acked cwnd bw gain rtt i ca d b :
  in_u 32 cwnd -> in_u 32 acked -> in_u 32 i -> 0 <= rs_losses rs -> bbr_ok b ->
  exists w b', set_cwnd rs acked cwnd bw gain rtt i ca d b = Ok (w, b') /\ bbr_ok b' /\
    BBR_CWND_MIN_TARGET <= w < 2 ^ 32.
Proof.
  intros Hc Ha Hi Hl Hb. unfold set_cwnd.
  set (w0 := if 0 <? rs_losses rs then _ else _).
  assert (in_u 32 w0) as Hw0.
  { subst w0. unfold in_u, sat_sub in *. case_match; lia. }
  destruct (recovery_cwnd_ok acked w0 i ca d b Hw0) as [Hw Hb1]; [apply Ha|apply Hi|done|].
  destruct (recovery_cwnd acked w0 i ca d b) as [w1 b1]. cbn [fst snd] in *.
  unfold BBR_CWND_MIN_TARGET, sat_add, u32_max, in_u in *.
  destruct (re_packet_conservation _); [eexists _, _; split; [done|]; split; [done|lia]|].
  destruct (rs_delivered rs =? 0); [eexists _, _; split; [done|]; split; [done|lia]|].
  destruct (extra_acked_ok b1 Hb1) as (v & -> & Hv). cbn [mbind outcome_bind].
  eexists _, _. split; [done|]. split; [done|]. unfold in_u in *. repeat case_match; lia.
Qed.

(** ** Every operation of the controller *)

Inductive CcOp :=
| OpSent (inflight : Z) (now : Instant)
| OpAck (acked : list (Z * PacketRateInfo)) (lost inflight : Z) (now : Instant)
| OpLost
| OpRto
| OpTransmitStart (now : Instant)
| OpPacingDelay (bytes : Z) (now : Instant)
| OpConsume (bytes : Z) (now : Instant)
| OpCheckAppLimited (queued_bytes inflight : Z)
| OpCanSend (inflight send_rwnd : Z)
| OpMtuChange (old_mtu new_mtu : Z)
| OpHighSeq (seq : Z).

Definition cc_step (op : CcOp) (c : CongestionController) : outcome Empty_set CongestionController :=
  match op with
  | OpSent i now => Ok (on_packet_sent i now c).2
  | OpAck acked lost i now => on_ack acked lost i now c
  | OpLost => Ok (on_packet_lost c)
  | OpRto => Ok (on_rto c)
  | OpTransmitStart now => Ok (on_transmit_start now c)
  | OpPacingDelay bytes now => Ok (pacing_delay bytes now c).2
  | OpConsume bytes now => Ok (with_pacing (cc_bbr c) (TokenBucket_try_consume bytes now (cc_pacing c)).2 c)
  | OpCheckAppLimited q i => Ok (check_app_limited q i c)
  | OpCanSend i rwnd => _ ← can_send i rwnd c; Ok c
  | OpMtuChange old new => on_mtu_change old new c
  | OpHighSeq seq => Ok (set_high_seq seq c)
  end.

(** The arguments have their Rust types; an MTU change neither divides by an MTU
    whose low 32 bits are zero nor leaves a segment size of zero. *)
Definition op_ok (op : CcOp) : Prop :=
  match op with
  | OpAck _ lost i _ => 0 <= lost /\ in_u 32 i
  | OpConsume bytes _ => 0 <= bytes
  | OpMtuChange old new =>
      0 <= old /\ ~ (0 < old /\ as_u32 old = 0) /\ as_u32 (new - 20) <> 0
  | _ => True
  end.

Fixpoint cc_run (ops : list CcOp) (c : CongestionController) : outcome Empty_set CongestionController :=
  match ops with
  | [] => Ok c
  | op :: ops => c ← cc_step op c; cc_run ops c
  end.

Lemma refill_ok now p : bucket_ok p -> bucket_ok (TokenBucket_refill now p).
Proof.
  intros [Ha Hb]. unfold TokenBucket_refill. split; cbn; [|done].
  unfold sat_add, sat_mul, u32_max, elapsed_ms in *. unfold in_u in Hb.
  case_match; [|done]. destruct (Z.ltb_spec 0 (tb_rate_bytes_per_ms p)); [|done].
  pose proof (as_u_range 32 (as_millis (elapsed_since now z)) ltac:(lia)). unfold in_u, as_u32 in *. nia.
Qed.

Lemma consume_ok bytes now p : 0 <= bytes -> bucket_ok p -> bucket_ok (TokenBucket_try_consume bytes now p).2.
Proof.
  intros Hb Hp. unfold TokenBucket_try_consume. pose proof (refill_ok now p Hp) as [Ha Hr].
  destruct (Z.leb_spec bytes (tb_available (TokenBucket_refill now p))); [|done].
  split; cbn [tb_available tb_max_burst snd]; [lia|done].
Qed.

Lemma sample_losses lost n d f s m r : rs_losses (rt_current (RateState_generate d f s m lost n r)) = lost.
Proof. unfold RateState_generate. repeat case_match; done. Qed.

Lemma on_ack_ok acked lost i now c :
  0 <= lost -> in_u 32 i -> cc_ok c ->
  exists c', on_ack acked lost i now c = Ok c' /\ cc_ok c' /\ BBR_CWND_MIN_TARGET <= cc_cwnd c'.
Proof.
  intros Hl Hi [Hb Hp Hw Hms]. unfold on_ack.
  destruct (foldl (sample_packet now) (cc_first_sent_ts c, cc_rate c) acked) as [first rate].
  unfold BbrState_on_ack.
  match goal with |- context [update_model ?rs ?w ?d ?i now ?b] =>
    destruct (update_model_ok rs w d i now b Hw Hb) as (st & b1 & E & Hb1) end.
  rewrite E. clear E. cbn [mbind outcome_bind].
  match goal with |- context [set_cwnd ?rs ?a ?w ?bw ?g ?r ?i ?ca ?d ?b] =>
    destruct (set_cwnd_ok rs a w bw g r i ca d b Hw) as (w' & b2 & -> & Hb2 & Hw') end;
    [apply as_u_range; lia|done|by rewrite sample_losses|done|].
  cbn [mbind outcome_bind]. eexists. split; [done|].
  unfold BBR_CWND_MIN_TARGET in *. split; [|cbn; lia]. split; cbn; [done| |unfold in_u; lia|done].
  destruct Hp. by split.
Qed.

Lemma mtu_change_ok old new c :
  op_ok (OpMtuChange old new) -> cc_ok c ->
  exists c', on_mtu_change old new c = Ok c' /\ cc_ok c' /\ cc_mss c' = as_u32 (new - 20).
Proof.
  intros (Ho & Hz & Hn) [Hb Hp Hw Hms]. unfold on_mtu_change.
  destruct (Z.ltb_spec 0 old); cbn [mbind outcome_bind].
  2: { eexists. split; [done|]. by split. }
  destruct (Z.eqb_spec (as_u32 old) 0); [tauto|]. cbn [mbind outcome_bind].
  eexists. split; [done|]. split; [|done]. split; cbn; [done..| |done].
  pose proof (as_u_range 32 (cc_cwnd c * as_u32 new) ltac:(lia)).
  pose proof (as_u_range 32 old ltac:(lia)). unfold in_u, as_u32 in *.
  split; [apply Z.div_pos; lia|]. apply Z.le_lt_trans with (as_u 32 (cc_cwnd c * as_u 32 new)); [|lia].
  apply Z.div_le_upper_bound; nia.
Qed.

Lemma cc_step_ok op c : op_ok op -> cc_ok c -> exists c', cc_step op c = Ok c' /\ cc_ok c'.
Proof.
  intros Ho [Hb Hp Hw Hms]. destruct op; cbn [cc_step]; try (eexists; split; [done|]).
  - by split.
  - destruct Ho. destruct (on_ack_ok acked lost inflight now c) as (c' & -> & Hc & _); eauto. by split.
  - split; cbn; [|done..]. case_match; [by apply save_cwnd_ok|done].
  - split; cbn; [|done..]. by apply (same_tables_ok (cc_bbr c)).
  - split; cbn; [| |done..].
    + unfold BbrState_on_transmit_start. case_match; [|done]. destruct Hb as [H1 [H2 H3 H4] H5].
      split; [exact H1|by split|exact H5].
    + destruct Hp. split; [cbn; lia|done].
  - split; cbn; [done|by apply refill_ok|done..].
  - split; cbn; [done|by apply consume_ok|done..].
  - unfold check_app_limited. case_match; by split.
  - unfold can_send. rewrite (proj2 (Z.eqb_neq _ _)) by done. eexists. split; [done|]. by split.
  - destruct (mtu_change_ok old_mtu new_mtu c Ho) as (c' & -> & Hc & _); [by split|by exists c'].
  - by split.
Qed.

Lemma cc_run_ok ops c : Forall op_ok ops -> cc_ok c -> exists c', cc_run ops c = Ok c' /\ cc_ok c'.
Proof.
  intros Ho. revert c. induction Ho as [|op ops H _ IH]; intros c Hc; [by exists c|].
  destruct (cc_step_ok op c H Hc) as (c1 & E & Hc1). cbn [cc_run]. rewrite E. by apply IH.
Qed.

Lemma cc_new_ok mss now : mss <> 0 -> cc_ok (CongestionController_new mss now).
Proof.
  intros Hms. pose proof (as_u_range 32 (2 * mss) ltac:(lia)) as H. unfold in_u in H.
  split; [|split; cbn; unfold as_u32, in_u; lia|done|done].
  split; [done| |done]. split; [done| |by left]. by repeat constructor.
Qed.

(** C34: the congestion controller is safe.  It starts with a segment size that
    is not zero and sees any sequence of sends, send checks, acknowledgements,
    losses, timeouts, pacing queries and MTU changes with arguments of their Rust
    types, any clock and any rate samples, where no MTU change starts from a positive multiple of 2^32
    or leaves a segment size that is zero in 32 bits (a stream's MTUs lie
    between 1200 and 1500).  Then no table index (the pacing-gain cycle, the
    two aggregation slots) goes out of range and no division is by zero, so it
    never panics; the pacer holds between zero and a burst of tokens; the next
    send check has an answer; and every acknowledgement leaves a window of at
    least four packets.  An MTU change panics exactly in the excluded case of
    a positive old MTU that is a multiple of 2^32. *)
Theorem congestion_safe mss now ops :
  mss <> 0 -> Forall op_ok ops ->
  exists c, cc_run ops (CongestionController_new mss now) = Ok c /\
    0 <= cy_index (b_cycle (cc_bbr c)) < BBR_CYCLE_LEN /\
    0 <= tb_available (cc_pacing c) <= tb_max_burst (cc_pacing c) /\
    (forall inflight rwnd, exists ok, can_send inflight rwnd c = Ok ok) /\
    (forall acked lost inflight now', 0 <= lost -> in_u 32 inflight ->
      exists c', on_ack acked lost inflight now' c = Ok c' /\
        BBR_CWND_MIN_TARGET <= cc_cwnd c' < 2 ^ 32) /\
    forall old new, on_mtu_change old new c = Panic <-> 0 < old /\ (2 ^ 32 | old).
Proof.
  intros Hms Ho. destruct (cc_run_ok ops _ Ho (cc_new_ok mss now Hms)) as (c & E & Hc).
  exists c. split_and!; [done|apply Hc..| | |].
  - intros i w. unfold can_send. rewrite (proj2 (Z.eqb_neq _ _)) by apply Hc. by eexists.
  - intros acked lost i now' Hl Hi.
    destruct (on_ack_ok acked lost i now' c Hl Hi Hc) as (c' & Ea & Hc' & Hw).
    exists c'. split; [done|]. split; [done|]. apply Hc'.
  - intros old new. unfold on_mtu_change. rewrite <- Z.mod_divide by done.
    change (old mod 2 ^ 32) with (as_u32 old).
    destruct (Z.ltb_spec 0 old); [|by split; [|lia]]. destruct (Z.eqb_spec (as_u32 old) 0); by split; [|tauto].
Qed.

Definition quiet (i : Z) : PacketRateInfo := mkRateInfo i i 0 false.

Lemma congestion_safe_witness :
  exists c, cc_run [OpSent 0 0; OpAck [(0, quiet 0)] 0 0 30000000; OpRto; OpLost;
                    OpMtuChange 1200 1232; OpCanSend 3 65536; OpAck [] 3 7 20000000000]
              (CongestionController_new 1180 0) = Ok c /\
    (exists c', on_ack [] 1 0 0 c = Ok c' /\ BBR_CWND_MIN_TARGET <= cc_cwnd c' < 2 ^ 32) /\
    on_mtu_change (2 ^ 32) 1500 c = Panic.
Proof.
  destruct (congestion_safe 1180 0
    [OpSent 0 0; OpAck [(0, quiet 0)] 0 0 30000000; OpRto; OpLost;
     OpMtuChange 1200 1232; OpCanSend 3 65536; OpAck [] 3 7 20000000000]) as (c & E & _ & _ & _ & H & Hp).
  - discriminate.
  - repeat constructor; try (cbn; unfold in_u; lia); vm_compute; try discriminate. intros [_ ?]. discriminate.
  - exists c. split; [exact E|]. split; [apply H; [lia|unfold in_u; lia]|].
    apply Hp. split; [lia|]. exists 1. reflexivity.
Defined.

(** ** Pacing *)

(** The bytes a sequence of [try_consume] calls lets through. *)
Fixpoint consume_all (calls : list (Z * Instant)) (p : TokenBucket) : Z * TokenBucket :=
  match calls with
  | [] => (0, p)
  | (bytes, now) :: calls =>
      let '(ok, p) := TokenBucket_try_consume bytes now p in
      let '(total, p) := consume_all calls p in
      ((if ok then bytes else 0) + total, p)
  end.

(** Calls in the order of the clock, the first not before [t]. *)
Fixpoint clocked (t : Instant) (calls : list (Z * Instant)) : Prop :=
  match calls with
  | [] => True
  | (bytes, now) :: calls => 0 <= bytes /\ t <= now /\ clocked now calls
  end.

Definition last_time (t : Instant) (calls : list (Z * Instant)) : Instant := List.last calls.*2 t.

Lemma last_time_cons t b now calls : last_time t ((b, now) :: calls) = last_time now calls.
Proof.
  unfold last_time. cbn [fmap list_fmap snd]. destruct (calls.*2) as [|x l]; [done|].
  cbn [List.last]. revert x. induction l as [|y l IH]; intros x; [done|]. cbn [List.last]. apply IH.
Qed.

Lemma refill_tokens now t p :
  bucket_ok p -> 0 <= tb_rate_bytes_per_ms p -> tb_last_refill p = Some t -> t <= now ->
  tb_available (TokenBucket_refill now p) <= tb_available p + tb_rate_bytes_per_ms p * as_millis (now - t).
Proof.
  intros [Ha Hb] Hr Ht Hn. unfold TokenBucket_refill. rewrite Ht. cbn [tb_available].
  assert (0 <= as_millis (now - t)) by (apply Z.div_pos; lia).
  destruct (Z.ltb_spec 0 (tb_rate_bytes_per_ms p)); [|nia].
  unfold sat_add, sat_mul, elapsed_ms, elapsed_since. rewrite Z.max_l by lia.
  assert (as_u32 (as_millis (now - t)) <= as_millis (now - t)) by (apply Z.mod_le; lia). nia.
Qed.

Lemma as_millis_add a b : 0 <= a -> 0 <= b -> as_millis a + as_millis b <= as_millis (a + b).
Proof. unfold as_millis. intros. zdm. Qed.

Lemma consume_all_bound calls p t :
  bucket_ok p -> 0 <= tb_rate_bytes_per_ms p -> tb_last_refill p = Some t -> clocked t calls ->
  t <= last_time t calls /\
  (consume_all calls p).1 + tb_available (consume_all calls p).2 <=
    tb_available p + tb_rate_bytes_per_ms p * as_millis (last_time t calls - t).
Proof.
  revert p t. induction calls as [|[bytes now] calls IH]; intros p t Hp Hr Ht Hc.
  { cbn. unfold last_time. cbn. split; [lia|]. rewrite Z.sub_diag. change (as_millis 0) with 0. lia. }
  destruct Hc as (Hb & Hn & Hc). rewrite last_time_cons. cbn [consume_all].
  pose proof (refill_tokens now t p Hp Hr Ht Hn) as Hf.
  pose proof (consume_ok bytes now p Hb Hp) as Hq.
  destruct (TokenBucket_try_consume bytes now p) as [ok q] eqn:E. cbn [snd] in Hq.
  assert (tb_rate_bytes_per_ms q = tb_rate_bytes_per_ms p /\ tb_last_refill q = Some now /\
          (if ok then bytes else 0) + tb_available q = tb_available (TokenBucket_refill now p)) as (Hrq & Htq & Hs).
  { unfold TokenBucket_try_consume in E. case_match; simplify_eq; cbn; split_and!; try done; lia. }
  destruct (IH q now Hq ltac:(lia) Htq Hc) as [Hl Hi]. destruct (consume_all calls q) as [total r].
  cbn [fst snd] in *. split; [lia|]. rewrite Hrq in Hi.
  pose proof (as_millis_add (now - t) (last_time now calls - now) ltac:(lia) ltac:(lia)).
  replace (now - t + (last_time now calls - now)) with (last_time now calls - t) in H by lia. nia.
Qed.

(** The pacer enforces its rate.  From a bucket at rate [r] bytes per
    millisecond, any sequence of [try_consume] calls in the order of the clock
    lets through at most the tokens it held plus [r] times the milliseconds
    from its last refill to the last call, and the tokens it held are at most
    the burst. *)
Theorem pacing_bound p t calls :
  bucket_ok p -> 0 <= tb_rate_bytes_per_ms p -> tb_last_refill p = Some t -> clocked t calls ->
  (consume_all calls p).1 <=
    tb_max_burst p + tb_rate_bytes_per_ms p * as_millis (last_time t calls - t).
Proof.
  intros Hp Hr Ht Hc. destruct (consume_all_bound calls p t Hp Hr Ht Hc) as [_ H].
  assert (0 <= tb_available (consume_all calls p).2).
  { clear -Hp Hc. revert p t Hp Hc. induction calls as [|[bytes now] calls IH]; intros p t Hp Hc.
    - apply Hp.
    - destruct Hc as (Hb & _ & Hc). cbn [consume_all].
      pose proof (consume_ok bytes now p Hb Hp) as Hq.
      destruct (TokenBucket_try_consume bytes now p) as [ok q]. specialize (IH q now Hq Hc).
      by destruct (consume_all calls q). }
  destruct Hp as [Ha _]. lia.
Qed.

Lemma pacing_bound_witness :
  (consume_all [(1180, 0); (1180, 500000); (1180, 12000000)] (mkBucket 2360 (Some 0) 100 2360)).1 <=
    2360 + 100 * 12.
Proof.
  refine (pacing_bound (mkBucket 2360 (Some 0) 100 2360) 0 [(1180, 0); (1180, 500000); (1180, 12000000)] _ _ _ _).
  - split; cbn; unfold in_u; lia.
  - cbn; lia.
  - reflexivity.
  - cbn; lia.
Defined.

(** Refilling loses the fraction of a millisecond it cuts off.  However
    long a sequence of refills lasts, if each comes less than a millisecond
    after the one before, the bucket gains nothing: a sender polled by
    acknowledgements at that pace waits for tokens that never come. *)
Theorem fast_refills_starve times p t :
  tb_last_refill p = Some t -> 0 <= tb_available p <= tb_max_burst p -> tb_max_burst p < 2 ^ 32 ->
  (forall i now, times !! i = Some now ->
     List.nth i (t :: times) 0 <= now < List.nth i (t :: times) 0 + 1000000) ->
  tb_available (foldl (fun p now => TokenBucket_refill now p) p times) = tb_available p.
Proof.
  revert p t. induction times as [|now times IH]; intros p t Ht Ha Hm Hi; [done|]. cbn [foldl].
  assert (tb_available (TokenBucket_refill now p) = tb_available p) as E.
  { unfold TokenBucket_refill. rewrite Ht. cbn [tb_available].
    pose proof (Hi 0%nat now eq_refl) as H0. cbn in H0. case_match; [|done].
    unfold sat_mul, sat_add, elapsed_ms, elapsed_since, as_millis. rewrite Z.max_l by lia.
    rewrite (Z.div_small (now - t)) by lia. change (as_u32 0) with 0. unfold u32_max. lia. }
  rewrite <- E. apply (IH _ now); [done|cbn -[TokenBucket_refill]; by rewrite E|done|].
  intros i x Hx. apply (Hi (S i)). done.
Qed.

Lemma fast_refills_starve_witness :
  tb_available (foldl (fun p now => TokenBucket_refill now p) (mkBucket 7 (Some 0) 1000 2360)
                  [900000; 1800000; 2700000]) = 7.
Proof.
  refine (fast_refills_starve [900000; 1800000; 2700000] (mkBucket 7 (Some 0) 1000 2360) 0 eq_refl _ _ _).
  - cbn; lia.
  - cbn; lia.
  - intros i now H. destruct i as [|[|[|i]]]; cbn in H |- *; try (injection H as <-); try lia. discriminate H.
Defined.

(** ** The bandwidth filter *)

(** The filter fed with one integer sample per round, from round 0. *)
Fixpoint feed (round : Z) (samples : list Z) (f : WindowedMaxFilter) : WindowedMaxFilter :=
  match samples with
  | [] => f
  | x :: samples =>
      feed (round + 1) samples (WindowedMaxFilter_update (f64_of_Z x) round BBR_BW_FILTER_CYCLES f)
  end.

(** The filter is not the maximum of its window: of thirteen samples the 5 of
    round 3 is nine rounds old at the end, younger than the ten rounds of the
    window, and the filter says 4.  (The sample came while all three entries
    held larger ones, and the filter has no sub-windows that would have kept
    it.) *)
Theorem filter_misses_window_max :
  let samples := [10; 8; 6; 5; 1; 1; 1; 1; 1; 1; 4; 3; 2] in
  f64_eqb (WindowedMaxFilter_get (feed 0 samples WindowedMaxFilter_new)) (f64_of_Z 4) = true /\
  samples !! 3%nat = Some 5 /\ expired 12 BBR_BW_FILTER_CYCLES 3 = false.
Proof. vm_compute. done. Qed.
