(* ===== verification/UdxStream.v ===== *)
(** * UdxStream: the reliable stream of [libudx/src/native/stream.rs]

    [StreamInner] with the functions that change it (writes, cumulative and
    selective acknowledgements, loss detection, the receive buffer,
    retransmission, MTU probing) and [process_incoming], the task that runs a
    stream, one turn of its [select!] loop at a time.  The fields of
    [StreamInner] that belong together are grouped into records under the
    headings of the source; what a turn does outside the state (datagrams sent,
    events for the reader, writes completed) is its list of effects.  The
    clock is an argument: [clk i] is the [i]-th reading of the turn.  [u32]
    arithmetic wraps, as in a release build. *)

From stdpp Require Import sorting.
From S2P Require Import Prelude RustStd Chunks UdxHeader RustFloat UdxCongestion.

#[local] Open Scope Z_scope.

Definition DEFAULT_RWND : Z := 4194304.
Definition MAX_PAYLOAD : Z := 1200 - HEADER_SIZE.
Definition MTU_BASE : Z := 1200.
Definition MTU_MAX : Z := 1500.
Definition MTU_STEP : Z := 32.
Definition MTU_MAX_PROBES : Z := 3.
Definition INITIAL_RTO_MS : Z := 1000.
Definition MAX_RTO_MS : Z := 30000.
Definition MAX_RTO_TIMEOUTS : Z := 6.
Definition MAX_SACK_RANGES : nat := 50.
Definition MAX_RTT_MS : Z := 30000.
(** Durations are nanoseconds. *)
Definition ms (n : Z) : Z := n * 1000000.
Definition FAR_FUTURE : Z := ms 86400000.

Inductive MtuState := Base | Search | SearchComplete.
#[global] Instance MtuState_eq_dec : EqDecision MtuState.
Proof. solve_decision. Defined.

Definition seq_after (a b : Z) : bool := 0 <? as_i32 (as_u32 (a - b)).

Definition is_plausible_first_packet (h : Header) : bool :=
  if h_type_flags h =? 0 then false
  else if Header_has_flag h FLAG_DESTROY then false
  else if h_type_flags h =? FLAG_SACK then false
  else true.

(** An address is the bytes of the IP and a port. *)
Abbreviation SocketAddr := (list Z * Z)%type.
Definition unspecified : SocketAddr := ([0; 0; 0; 0], 0).

Inductive StreamEvent := Data (payload : list Z) | End_.

Record SentPacket := mkSent {
  sp_packet : list Z;
  sp_time_sent : Instant;
  sp_retransmit_count : Z;
  sp_sacked : bool;
  sp_is_mtu_probe : bool;
  sp_lost : bool;
  sp_rate_info : option PacketRateInfo
}.
Record RecvdPacket := mkRecvd { rp_payload : list Z; rp_flags : Z }.
Record QueuedPacket := mkQueued { qp_packet : list Z; qp_seq : Z; qp_remote_addr : SocketAddr }.
(** The sender half of a oneshot channel is named by a number. *)
Record PendingWrite := mkPending { pw_ack_threshold : Z; pw_tx : nat }.

Inductive StreamNotify := DataQueued | Shutdown.

(** ** BTreeMap: a finite map read in the order of its keys *)

Definition key_le {A} (p q : Z * A) : Prop := p.1 <= q.1.
#[global] Instance key_le_dec {A} : RelDecision (@key_le A).
Proof. intros p q. apply Z.le_dec. Defined.
Definition btree_iter {A} (m : gmap Z A) : list (Z * A) := merge_sort key_le (map_to_list m).
Definition btree_values {A} (m : gmap Z A) : list A := (btree_iter m).*2.
Definition btree_keys {A} (m : gmap Z A) : list Z := (btree_iter m).*1.

(** ** The state *)

Record Conn := mkConn {
  cn_remote_id : Z;
  cn_remote_addr : option SocketAddr;
  cn_connected : bool;
  cn_ended : bool;
  cn_udp : bool;             (** [udp.is_some()] *)
  cn_notify : bool;          (** [notify_tx.is_some()] *)
  cn_close_tx : bool;        (** [close_tx.is_some()] *)
  cn_relay_target : bool;    (** [relay_target.is_some()] *)
  cn_firewall_hook : bool    (** hook and socket are set and taken together *)
}.
Record RttEstimate := mkRtt { rt_srtt : Z; rt_rttvar : Z; rt_rto : Z; rt_rto_timeouts : Z }.
Record MtuProbe := mkMtu {
  mt_state : MtuState;
  mt_mtu : Z;
  mt_probe_size : Z;
  mt_probe_count : Z;
  mt_probe_wanted : bool;
  mt_max : Z
}.

Record StreamInner := mkInner {
  s_conn : Conn;
  s_next_seq : Z;
  s_pending_writes : list PendingWrite;
  s_outgoing : gmap Z SentPacket;
  s_next_remote_seq : Z;
  s_remote_acked : Z;
  s_recv_buf : gmap Z RecvdPacket;
  s_rtt : RttEstimate;
  s_send_rwnd : Z;
  s_mtu : MtuProbe;
  s_congestion : CongestionController;
  s_send_queue : list QueuedPacket
}.

Definition set_conn v s := mkInner v (s_next_seq s) (s_pending_writes s) (s_outgoing s)
  (s_next_remote_seq s) (s_remote_acked s) (s_recv_buf s) (s_rtt s) (s_send_rwnd s) (s_mtu s) (s_congestion s) (s_send_queue s).
Definition set_next_seq v s := mkInner (s_conn s) v (s_pending_writes s) (s_outgoing s)
  (s_next_remote_seq s) (s_remote_acked s) (s_recv_buf s) (s_rtt s) (s_send_rwnd s) (s_mtu s) (s_congestion s) (s_send_queue s).
Definition set_pending v s := mkInner (s_conn s) (s_next_seq s) v (s_outgoing s)
  (s_next_remote_seq s) (s_remote_acked s) (s_recv_buf s) (s_rtt s) (s_send_rwnd s) (s_mtu s) (s_congestion s) (s_send_queue s).
Definition set_outgoing v s := mkInner (s_conn s) (s_next_seq s) (s_pending_writes s) v
  (s_next_remote_seq s) (s_remote_acked s) (s_recv_buf s) (s_rtt s) (s_send_rwnd s) (s_mtu s) (s_congestion s) (s_send_queue s).
Definition set_received n buf s := mkInner (s_conn s) (s_next_seq s) (s_pending_writes s) (s_outgoing s)
  n (s_remote_acked s) buf (s_rtt s) (s_send_rwnd s) (s_mtu s) (s_congestion s) (s_send_queue s).
Definition set_remote_acked v s := mkInner (s_conn s) (s_next_seq s) (s_pending_writes s) (s_outgoing s)
  (s_next_remote_seq s) v (s_recv_buf s) (s_rtt s) (s_send_rwnd s) (s_mtu s) (s_congestion s) (s_send_queue s).
Definition set_rtt_est v s := mkInner (s_conn s) (s_next_seq s) (s_pending_writes s) (s_outgoing s)
  (s_next_remote_seq s) (s_remote_acked s) (s_recv_buf s) v (s_send_rwnd s) (s_mtu s) (s_congestion s) (s_send_queue s).
Definition set_send_rwnd v s := mkInner (s_conn s) (s_next_seq s) (s_pending_writes s) (s_outgoing s)
  (s_next_remote_seq s) (s_remote_acked s) (s_recv_buf s) (s_rtt s) v (s_mtu s) (s_congestion s) (s_send_queue s).
Definition set_mtu v s := mkInner (s_conn s) (s_next_seq s) (s_pending_writes s) (s_outgoing s)
  (s_next_remote_seq s) (s_remote_acked s) (s_recv_buf s) (s_rtt s) (s_send_rwnd s) v (s_congestion s) (s_send_queue s).
Definition set_congestion v s := mkInner (s_conn s) (s_next_seq s) (s_pending_writes s) (s_outgoing s)
  (s_next_remote_seq s) (s_remote_acked s) (s_recv_buf s) (s_rtt s) (s_send_rwnd s) (s_mtu s) v (s_send_queue s).
Definition set_send_queue v s := mkInner (s_conn s) (s_next_seq s) (s_pending_writes s) (s_outgoing s)
  (s_next_remote_seq s) (s_remote_acked s) (s_recv_buf s) (s_rtt s) (s_send_rwnd s) (s_mtu s) (s_congestion s) v.

(** [UdxStream::new] *)
Definition StreamInner_new (now : Instant) : StreamInner :=
  mkInner (mkConn 0 None false false false false true false false) 0 [] ∅ 0 0 ∅
    (mkRtt 0 0 INITIAL_RTO_MS 0) DEFAULT_RWND
    (mkMtu Base MTU_BASE (MTU_BASE + MTU_STEP) 0 false MTU_MAX)
    (CongestionController_new MAX_PAYLOAD now) [].

(** What [connect] and [set_firewall_hook] set. *)
Definition connect (remote_id : Z) (remote_addr : SocketAddr) (s : StreamInner) : StreamInner :=
  let c := s_conn s in
  set_conn (mkConn remote_id (Some remote_addr) true (cn_ended c) true true (cn_close_tx c)
              (cn_relay_target c) (cn_firewall_hook c)) s.
Definition set_firewall_hook (remote_id : Z) (s : StreamInner) : StreamInner :=
  let c := s_conn s in
  set_conn (mkConn remote_id (cn_remote_addr c) (cn_connected c) (cn_ended c) true true (cn_close_tx c)
              (cn_relay_target c) true) s.
Definition relay_to (s : StreamInner) : StreamInner :=
  let c := s_conn s in
  set_conn (mkConn (cn_remote_id c) (cn_remote_addr c) (cn_connected c) (cn_ended c) (cn_udp c) (cn_notify c)
              (cn_close_tx c) true (cn_firewall_hook c)) s.

(** ** Effects *)

Inductive UdxError := NotConnected | AlreadyShutDown | StreamClosed | TimedOut.

Inductive Effect :=
| SendTo (packet : list Z) (addr : SocketAddr)   (** a datagram handed to the socket *)
| Deliver (ev : StreamEvent)                     (** an event for the reader *)
| Complete (tx : nat) (result : outcome UdxError unit)  (** a pending write resolves *)
| NotifySelf (n : StreamNotify)                  (** a message on [notify_tx] *)
| CloseSignal.                                   (** [close_tx] fires *)

Definition close_signal (s : StreamInner) : list Effect * StreamInner :=
  let c := s_conn s in
  if cn_close_tx c then
    ([CloseSignal],
     set_conn (mkConn (cn_remote_id c) (cn_remote_addr c) (cn_connected c) (cn_ended c) (cn_udp c)
                 (cn_notify c) false (cn_relay_target c) (cn_firewall_hook c)) s)
  else ([], s).

Definition terminate (s : StreamInner) : list Effect * StreamInner :=
  let c := s_conn s in
  ((fun pw => Complete (pw_tx pw) (Err StreamClosed)) <$> s_pending_writes s,
   set_pending []
     (set_conn (mkConn (cn_remote_id c) (cn_remote_addr c) false (cn_ended c) (cn_udp c) false
                  (cn_close_tx c) (cn_relay_target c) (cn_firewall_hook c)) s)).

(** ** MTU probing *)

Definition max_payload (s : StreamInner) : Z := mt_mtu (s_mtu s) - HEADER_SIZE.

Definition set_probe_wanted (v : bool) (m : MtuProbe) : MtuProbe :=
  mkMtu (mt_state m) (mt_mtu m) (mt_probe_size m) (mt_probe_count m) v (mt_max m).

(** The padded packet, when the packet can be turned into a probe. *)
Definition mtu_probeify_packet (packet : list Z) (s : StreamInner) : bool * list Z * StreamInner :=
  let target_size := mt_probe_size (s_mtu s) in
  let padding := target_size - len packet in
  if (len packet <? HEADER_SIZE) || (target_size <=? len packet) || (255 <? padding) then (false, packet, s)
  else
    let packet := take 20 packet ++ replicate (Z.to_nat padding) 0 ++ drop 20 packet in
    (true, <[3%nat := padding]> packet, set_mtu (set_probe_wanted false (s_mtu s)) s).

Definition on_mtu_probe_acked (s : StreamInner) : outcome Empty_set StreamInner :=
  let m := s_mtu s in
  let mtu := mt_probe_size m in
  let probe_size := Z.min (mtu + MTU_STEP) (mt_max m) in
  let complete := mt_max m <=? mtu in
  cc ← on_mtu_change (mt_mtu m) mtu (s_congestion s);
  Ok (set_congestion cc
        (set_mtu (mkMtu (if complete then SearchComplete else mt_state m) mtu probe_size 0
                    (if complete then mt_probe_wanted m else true) (mt_max m)) s)).

(** ** Writes *)

Record WritePrep := mkPrep {
  wp_remote_addr : SocketAddr;
  wp_remote_id : Z;
  wp_first_seq : Z;
  wp_current_ack : Z
}.

(** [tx] names the oneshot channel made for the write. *)
Definition prepare_write (data_len : Z) (tx : nat) : M StreamInner UdxError WritePrep := fun s =>
  let c := s_conn s in
  if negb (cn_connected c) && negb (cn_firewall_hook c) then (Err NotConnected, s)
  else if cn_ended c then (Err AlreadyShutDown, s)
  else if negb (cn_udp c) then (Err StreamClosed, s)
  else
    let remote_addr := default unspecified (cn_remote_addr c) in
    let max_payload := max_payload s in
    if (0 <? data_len) && (max_payload =? 0) then (Panic, s)
    else
      let chunk_count := if data_len =? 0 then 1 else (data_len + max_payload - 1) / max_payload in
      let first_seq := s_next_seq s in
      let ack_threshold := as_u32 (first_seq + as_u32 chunk_count) in
      (Ok (mkPrep remote_addr (cn_remote_id c) first_seq (s_next_remote_seq s)),
       set_pending (s_pending_writes s ++ [mkPending ack_threshold tx]) (set_next_seq ack_threshold s)).

Definition prepare_end (tx : nat) : M StreamInner UdxError WritePrep := fun s =>
  let c := s_conn s in
  if negb (cn_connected c) then (Err NotConnected, s)
  else if cn_ended c then (Err AlreadyShutDown, s)
  else
    let s := set_conn (mkConn (cn_remote_id c) (cn_remote_addr c) (cn_connected c) true (cn_udp c)
                         (cn_notify c) (cn_close_tx c) (cn_relay_target c) (cn_firewall_hook c)) s in
    if negb (cn_udp c) then (Err StreamClosed, s)
    else
      match cn_remote_addr c with
      | None => (Err StreamClosed, s)
      | Some remote_addr =>
          let seq := s_next_seq s in
          let next := as_u32 (seq + 1) in
          (Ok (mkPrep remote_addr (cn_remote_id c) seq (s_next_remote_seq s)),
           set_pending (s_pending_writes s ++ [mkPending next tx]) (set_next_seq next s))
      end.

Definition inflight (s : StreamInner) : Z :=
  as_u32 (len (filter (fun p => negb (sp_sacked p) && negb (sp_lost p)) (btree_values (s_outgoing s)))).

Definition register_sent (seq : Z) (packet : list Z) (is_mtu_probe : bool) (now : Instant) (s : StreamInner)
    : StreamInner :=
  let '(rate_info, cc) := on_packet_sent (inflight s) now (s_congestion s) in
  set_outgoing (<[seq := mkSent packet now 0 false is_mtu_probe false (Some rate_info)]> (s_outgoing s))
    (set_congestion cc s).

Definition notify (n : StreamNotify) (s : StreamInner) : list Effect :=
  if cn_notify (s_conn s) then [NotifySelf n] else [].

Definition queue_for_send (packets : list (Z * list Z)) (remote_addr : SocketAddr) (s : StreamInner)
    : list Effect * StreamInner :=
  (notify DataQueued s,
   set_send_queue (s_send_queue s ++ ((fun '(seq, p) => mkQueued p seq remote_addr) <$> packets)) s).

Definition send_idle (s : StreamInner) : bool :=
  bool_decide (s_outgoing s = ∅) && bool_decide (length (s_send_queue s) = 0%nat).

Definition build_data_packet (remote_id seq ack : Z) (payload : list Z) : outcome Empty_set (list Z) :=
  header ← Header_encode (mkHeader FLAG_DATA 0 remote_id DEFAULT_RWND seq ack);
  Ok (header ++ payload).

Fixpoint build_packets (remote_id seq ack : Z) (chunks : list (list Z)) : outcome Empty_set (list (Z * list Z)) :=
  match chunks with
  | [] => Ok []
  | chunk :: chunks =>
      packet ← build_data_packet remote_id seq ack chunk;
      rest ← build_packets remote_id (as_u32 (seq + 1)) ack chunks;
      Ok ((seq, packet) :: rest)
  end.

(** The second half of [write], under a lock of its own. *)
Definition send_data_packets (prep : WritePrep) (data : list Z) (now : Instant) (s : StreamInner)
    : outcome Empty_set (list Effect * StreamInner) :=
  let size := Z.to_nat (max_payload s) in
  if bool_decide (data <> []) && (max_payload s =? 0) then Panic
  else
    let pieces := match data with [] => [[]] | _ => chunks size data end in
    packets ← build_packets (wp_remote_id prep) (wp_first_seq prep) (wp_current_ack prep) pieces;
    let s := if send_idle s then set_congestion (on_transmit_start now (s_congestion s)) s else s in
    Ok (queue_for_send packets (wp_remote_addr prep) s).

(** The second half of [shutdown]. *)
Definition send_end_packet (prep : WritePrep) (s : StreamInner) : outcome Empty_set (list Effect * StreamInner) :=
  packet ← Header_encode (mkHeader FLAG_END 0 (wp_remote_id prep) DEFAULT_RWND (wp_first_seq prep)
                            (wp_current_ack prep));
  Ok (queue_for_send [(wp_first_seq prep, packet)] (wp_remote_addr prep) s).

(** [destroy], whose processor task is aborted first. *)
Definition destroy (s : StreamInner) : outcome Empty_set (list Effect * StreamInner) :=
  let c := s_conn s in
  sent ← (match cn_connected c, cn_udp c, cn_remote_addr c with
          | true, true, Some addr =>
              packet ← Header_encode (mkHeader FLAG_DESTROY 0 (cn_remote_id c) 0 (s_next_seq s)
                                        (s_next_remote_seq s));
              Ok [SendTo packet addr]
          | _, _, _ => Ok []
          end);
  let '(closed, s) := terminate s in
  let '(signal, s) := close_signal s in
  Ok (sent ++ closed ++ signal, s).

(** ** RTT estimation *)

Definition update_rtt (rtt_ms : Z) (r : RttEstimate) : RttEstimate :=
  let rtt := Z.min rtt_ms MAX_RTT_MS in
  let '(srtt, rttvar) :=
    if rt_srtt r =? 0 then (rtt, rtt / 2)
    else (as_u32 (as_u32 (7 * rt_srtt r) + rtt) / 8,
          as_u32 (as_u32 (3 * rt_rttvar r) + Z.abs (rt_srtt r - rtt)) / 4) in
  mkRtt srtt rttvar (Z.max 1000 (Z.min (as_u32 (srtt + as_u32 (4 * rttvar))) MAX_RTO_MS)) (rt_rto_timeouts r).

(** ** Acknowledgements *)

(** The walk over the packets a cumulative acknowledgement removed. *)
Record AckWalk := mkWalk { aw_inner : StreamInner; aw_measured : bool; aw_rate : list (Z * PacketRateInfo) }.

Definition ack_packet (now : Instant) (w : AckWalk) (p : Z * SentPacket) : outcome Empty_set AckWalk :=
  let '(seq, pkt) := p in
  let s := aw_inner w in
  let measure := negb (aw_measured w) && (sp_retransmit_count pkt =? 0) in
  let s :=
    if measure then
      set_rtt_est (update_rtt (as_u32 (as_millis (elapsed_since now (sp_time_sent pkt)))) (s_rtt s)) s
    else s in
  let rate := match sp_rate_info pkt with Some info => aw_rate w ++ [(seq, info)] | None => aw_rate w end in
  s ← (if sp_is_mtu_probe pkt && bool_decide (mt_state (s_mtu s) = Search) then on_mtu_probe_acked s else Ok s);
  Ok (mkWalk s (aw_measured w || measure) rate).
Fixpoint ack_packets (now : Instant) (w : AckWalk) (ps : list (Z * SentPacket)) : outcome Empty_set AckWalk :=
  match ps with
  | [] => Ok w
  | p :: ps => w ← ack_packet now w p; ack_packets now w ps
  end.

Definition reset_timeouts (r : RttEstimate) : RttEstimate := mkRtt (rt_srtt r) (rt_rttvar r) (rt_rto r) 0.

Definition on_cumulative_ack (ack : Z) (now : Instant) (s : StreamInner)
    : outcome Empty_set (list nat * list (Z * PacketRateInfo) * StreamInner) :=
  if negb (seq_after ack (s_remote_acked s)) then Ok ([], [], s)
  else
    let s := set_remote_acked ack s in
    let removed := filter (fun p => p.1 < ack) (btree_iter (s_outgoing s)) in
    let s := set_outgoing (filter (fun p => ack <= p.1) (s_outgoing s)) s in
    w ← ack_packets now (mkWalk s false []) removed;
    let s := aw_inner w in
    let s := set_rtt_est (reset_timeouts (s_rtt s)) s in
    let completed := filter (fun pw => pw_ack_threshold pw <= ack) (s_pending_writes s) in
    Ok (pw_tx <$> completed, aw_rate w,
        set_pending (filter (fun pw => ack < pw_ack_threshold pw) (s_pending_writes s)) s).

Definition mark_sacked (p : SentPacket) : SentPacket :=
  mkSent (sp_packet p) (sp_time_sent p) (sp_retransmit_count p) true (sp_is_mtu_probe p) (sp_lost p) (sp_rate_info p).

Definition sack_seq (acc : gmap Z SentPacket * list (Z * PacketRateInfo)) (seq : Z)
    : gmap Z SentPacket * list (Z * PacketRateInfo) :=
  let '(out, info) := acc in
  match out !! seq with
  | Some pkt =>
      if sp_sacked pkt then (out, info)
      else (<[seq := mark_sacked pkt]> out,
            match sp_rate_info pkt with Some i => info ++ [(seq, i)] | None => info end)
  | None => (out, info)
  end.

(** [range.start..range.end] *)
Definition range_seqs (r : SackRange) : list Z := seqZ (sr_start r) (sr_end r - sr_start r).

Definition on_sack (ranges : list SackRange) (s : StreamInner) : list (Z * PacketRateInfo) * StreamInner :=
  let '(out, info) := foldl sack_seq (s_outgoing s, []) (ranges ≫= range_seqs) in
  (info, set_outgoing out s).

Definition mark_lost (p : SentPacket) : SentPacket :=
  mkSent (sp_packet p) (sp_time_sent p) (sp_retransmit_count p) (sp_sacked p) (sp_is_mtu_probe p) true (sp_rate_info p).

Definition max_of (l : list Z) : option Z :=
  match l with [] => None | x :: l => Some (foldl Z.max x l) end.

Definition detect_losses (s : StreamInner) : Z * StreamInner :=
  match max_of (filter (fun p => sp_sacked p.2) (btree_iter (s_outgoing s))).*1 with
  | None => (0, s)
  | Some highest =>
      let is_lost (p : Z * SentPacket) : bool :=
        negb (sp_sacked p.2) && negb (sp_lost p.2) && seq_after highest p.1 in
      let lost_seqs := (filter is_lost (btree_iter (s_outgoing s))).*1 in
      let out := map_imap (fun seq p => Some (if is_lost (seq, p) then mark_lost p else p)) (s_outgoing s) in
      let was_open := bool_decide (cc_ca_state (s_congestion s) = Open) in
      let cc := foldl (fun c _ => on_packet_lost c) (s_congestion s) lost_seqs in
      let cc :=
        if was_open && bool_decide (cc_ca_state cc = Recovery) then
          match max_of (btree_keys out) with Some m => set_high_seq m cc | None => cc end
        else cc in
      (as_u32 (len lost_seqs), set_congestion cc (set_outgoing out s))
  end.

(** ** Receiving *)

Definition push_events (payload : list Z) (flags : Z) : list StreamEvent :=
  let has_data := negb (Z.land flags FLAG_DATA =? 0) in
  let has_end := negb (Z.land flags FLAG_END =? 0) in
  (if has_data && bool_decide (payload <> []) then [Data payload] else []) ++
  (if has_end then [End_] else []).

(** The loop takes an entry out of the buffer per turn: its size is enough fuel. *)
Fixpoint drain_recv (fuel : nat) (next : Z) (buf : gmap Z RecvdPacket)
    : list StreamEvent * Z * gmap Z RecvdPacket :=
  match fuel with
  | O => ([], next, buf)
  | S fuel =>
      match buf !! next with
      | Some r =>
          let '(evs, next', buf') := drain_recv fuel (as_u32 (next + 1)) (delete next buf) in
          (push_events (rp_payload r) (rp_flags r) ++ evs, next', buf')
      | None => ([], next, buf)
      end
  end.

Definition receive_data (seq : Z) (payload : list Z) (flags : Z) (s : StreamInner)
    : list StreamEvent * StreamInner :=
  if seq <? s_next_remote_seq s then ([], s)
  else if seq =? s_next_remote_seq s then
    let '(evs, next, buf) := drain_recv (size (s_recv_buf s)) (as_u32 (seq + 1)) (s_recv_buf s) in
    (push_events payload flags ++ evs, set_received next buf s)
  else
    match s_recv_buf s !! seq with
    | Some _ => ([], s)
    | None => ([], set_received (s_next_remote_seq s) (<[seq := mkRecvd payload flags]> (s_recv_buf s)) s)
    end.

(** The loop of [sack_ranges] over the keys after the first, with the ranges
    closed so far. *)
Fixpoint sack_loop (start end_ : Z) (keys : list Z) (ranges : list SackRange) : list SackRange :=
  match keys with
  | [] => ranges ++ [mkSackRange start end_]
  | seq :: keys =>
      if seq =? end_ then sack_loop start (as_u32 (seq + 1)) keys ranges
      else
        let ranges := ranges ++ [mkSackRange start end_] in
        if (MAX_SACK_RANGES <=? length ranges)%nat then ranges
        else sack_loop seq (as_u32 (seq + 1)) keys ranges
  end.
Definition sack_ranges (s : StreamInner) : list SackRange :=
  match btree_keys (s_recv_buf s) with
  | [] => []
  | first :: keys => sack_loop first (as_u32 (first + 1)) keys []
  end.

(** ** Retransmission *)

Definition strip_probe_padding (packet : list Z) : list Z :=
  if len packet <? HEADER_SIZE then packet
  else
    let data_offset := nth 3 packet 0 in
    if data_offset =? 0 then packet
    else
      let payload_start := HEADER_SIZE + data_offset in
      let packet :=
        if payload_start <=? len packet then take 20 packet ++ drop (Z.to_nat payload_start) packet
        else packet in
      <[3%nat := 0]> packet.

(** A packet that is sent again: a failed probe loses its padding. *)
Definition retransmitted (now : Instant) (p : SentPacket) : SentPacket :=
  mkSent (if sp_is_mtu_probe p then strip_probe_padding (sp_packet p) else sp_packet p) now
    (as_u32 (sp_retransmit_count p + 1)) (sp_sacked p) false (sp_lost p) (sp_rate_info p).

Definition probe_failed (m : MtuProbe) : MtuProbe :=
  let count := as_u32 (mt_probe_count m + 1) in
  let exhausted := MTU_MAX_PROBES <=? count in
  mkMtu (if exhausted then SearchComplete else mt_state m) (mt_mtu m) (mt_probe_size m) count
    (negb exhausted) (mt_max m).

(** The loop both retransmissions share: [pick] says which packets are sent
    again and [after] what else happens to them. *)
Definition retransmit (pick : SentPacket -> bool) (after : SentPacket -> SentPacket) (now : Instant)
    (s : StreamInner) : list (list Z) * StreamInner :=
  let again := filter pick (btree_values (s_outgoing s)) in
  let failed := existsb sp_is_mtu_probe again in
  let s := set_outgoing ((fun p => if pick p then after (retransmitted now p) else p) <$> s_outgoing s) s in
  ((fun p => sp_packet (retransmitted now p)) <$> again,
   if failed then set_mtu (probe_failed (s_mtu s)) s else s).

Definition packets_to_retransmit (now : Instant) : StreamInner -> list (list Z) * StreamInner :=
  retransmit (fun p => negb (sp_sacked p)) (fun p => p) now.

Definition clear_lost (p : SentPacket) : SentPacket :=
  mkSent (sp_packet p) (sp_time_sent p) (sp_retransmit_count p) (sp_sacked p) (sp_is_mtu_probe p) false (sp_rate_info p).
Definition fast_retransmit (now : Instant) : StreamInner -> list (list Z) * StreamInner :=
  retransmit (fun p => sp_lost p && negb (sp_sacked p)) clear_lost now.

(** ** Acknowledging *)

Definition ack_packet_bytes (remote_id ack : Z) (ranges : list SackRange) : outcome Empty_set (list Z) :=
  match ranges with
  | [] => Header_encode (mkHeader 0 0 remote_id DEFAULT_RWND 0 ack)
  | _ =>
      let sack_byte_len := len ranges * 8 in
      header ← Header_encode (mkHeader FLAG_SACK (as_u8 sack_byte_len) remote_id DEFAULT_RWND 0 ack);
      match encode_sack ranges (replicate (Z.to_nat sack_byte_len) 0) with
      | (Ok _, sack_buf) => Ok (header ++ sack_buf)
      | (Err e, _) => Err e
      | (Panic, _) => Panic
      end
  end.

Definition send_ack (ranges : list SackRange) (s : StreamInner) : outcome Empty_set (list Effect) :=
  let c := s_conn s in
  match cn_udp c, cn_remote_addr c with
  | true, Some addr =>
      packet ← ack_packet_bytes (cn_remote_id c) (s_next_remote_seq s) ranges;
      Ok [SendTo packet addr]
  | _, _ => Ok []
  end.

(** Datagrams for the remote address, when there are a socket and an address. *)
Definition send_all (packets : list (list Z)) (s : StreamInner) : list Effect :=
  match cn_udp (s_conn s), cn_remote_addr (s_conn s) with
  | true, Some addr => (fun p => SendTo p addr) <$> packets
  | _, _ => []
  end.

(** ** The processor task *)

Record Processor := mkProc {
  pr_inner : StreamInner;
  pr_shutting_down : bool;
  pr_rto_at : Instant;
  pr_pacing_at : Instant
}.
Definition set_inner (s : StreamInner) (p : Processor) : Processor :=
  mkProc s (pr_shutting_down p) (pr_rto_at p) (pr_pacing_at p).
Definition set_rto_at (t : Instant) (p : Processor) : Processor :=
  mkProc (pr_inner p) (pr_shutting_down p) t (pr_pacing_at p).
Definition set_pacing_at (t : Instant) (p : Processor) : Processor :=
  mkProc (pr_inner p) (pr_shutting_down p) (pr_rto_at p) t.

(** What a turn ends with: [Next] goes round the loop, [Stop] leaves it. *)
Inductive Flow := Next | Stop.
Definition Turn : Type := outcome Empty_set (Flow * list Effect * Processor).

Definition SocketAddr_eqb (a b : SocketAddr) : bool := bool_decide (a = b).

(** The firewall gate of a stream that is not connected yet: [hook_ok] is the
    answer of the hook.  [inl] ends the turn. *)
Definition firewall_gate (h : Header) (addr : SocketAddr) (hook_ok : bool) (s : StreamInner)
    : (Flow * StreamInner) + (list Effect * StreamInner) :=
  let c := s_conn s in
  if cn_connected c then inr ([], s)
  else if negb (is_plausible_first_packet h) then inl (Next, s)
  else if negb (cn_firewall_hook c) then inl (Next, s)
  else
    let conn addr' connected :=
      mkConn (cn_remote_id c) addr' connected (cn_ended c) (cn_udp c) (cn_notify c) (cn_close_tx c)
        (cn_relay_target c) false in
    if hook_ok then
      let patch q :=
        if SocketAddr_eqb (qp_remote_addr q) unspecified then mkQueued (qp_packet q) (qp_seq q) addr else q in
      let s := set_send_queue (patch <$> s_send_queue s) (set_conn (conn (Some addr) true) s) in
      inr (notify DataQueued s, s)
    else inl (Stop, set_conn (conn (cn_remote_addr c) (cn_connected c)) s).

(** The relay fast path; [target] is what the target stream holds: its remote
    id, its remote address and whether it has a socket. *)
Definition relay_packet (data : list Z) (target : Z * option SocketAddr * bool) (s : StreamInner)
    : Flow * list Effect * StreamInner :=
  let '(dest_id, dest_addr, dest_udp) := target in
  let fwd := if 8 <=? len data then take 4 data ++ to_le 4 dest_id ++ drop 8 data else data in
  let sent := match dest_udp, dest_addr with true, Some a => [SendTo fwd a] | _, _ => [] end in
  if (2 <? len fwd) && negb (Z.land (nth 2 fwd 0) FLAG_DESTROY =? 0) then
    let '(signal, s) := close_signal s in (Stop, sent ++ signal, s)
  else (Next, sent, s).

(** The ranges of an acknowledgement, if it carries well-formed ones. *)
Definition packet_sacks (h : Header) (data : list Z) : option (list SackRange) :=
  if Header_has_flag h FLAG_SACK && (0 <? h_data_offset h) then
    let sack_end := Header_payload_offset h in
    if sack_end <=? len data then outcome_ok (decode_sack (slice data HEADER_SIZE sack_end)) else None
  else None.

(** The state changes of the acknowledgement block, under one lock. *)
Definition process_ack (h : Header) (data : list Z) (clk : nat -> Instant) (s : StreamInner)
    : outcome Empty_set (list nat * list (list Z) * StreamInner) :=
  let s := set_send_rwnd (h_recv_window h) s in
  '(completed, rate, s) ←
    (if 0 <? h_ack h then on_cumulative_ack (h_ack h) (clk 0%nat) s else Ok ([], [], s));
  let '(rate, s) :=
    match packet_sacks h data with
    | Some ranges => let '(info, s) := on_sack ranges s in (rate ++ info, s)
    | None => (rate, s)
    end in
  let '(lost_count, s) := detect_losses s in
  s ← (if bool_decide (rate <> []) || (0 <? lost_count) then
         cc ← on_ack rate lost_count (inflight s) (clk 1%nat) (s_congestion s);
         Ok (set_congestion cc s)
       else Ok s);
  let '(again, s) := fast_retransmit (clk 2%nat) s in
  Ok (completed, again, s).

Definition ack_block (h : Header) (data : list Z) (clk : nat -> Instant) (p : Processor)
    : outcome Empty_set (list Effect * Processor) :=
  if (0 <? h_ack h) || (Header_has_flag h FLAG_SACK && (0 <? h_data_offset h)) then
    '(completed, again, s) ← process_ack h data clk (pr_inner p);
    let effects := ((fun tx => Complete tx (Ok tt)) <$> completed) ++ send_all again s in
    let p := set_inner s p in
    let p := if decide (s_outgoing s = ∅) then set_rto_at (clk 3%nat + FAR_FUTURE) p
             else set_rto_at (clk 3%nat + ms (rt_rto (s_rtt s))) p in
    let p := match s_send_queue s with [] => p | _ => set_pacing_at (clk 4%nat) p end in
    Ok (effects, p)
  else Ok ([], set_inner (set_send_rwnd (h_recv_window h) (pr_inner p)) p).

Definition data_block (h : Header) (data : list Z) (s : StreamInner)
    : outcome Empty_set (list Effect * StreamInner) :=
  let is_data := Header_has_flag h FLAG_DATA in
  let is_end := Header_has_flag h FLAG_END in
  if is_data || is_end then
    let start := Header_payload_offset h in
    let payload := if start <=? len data then drop (Z.to_nat start) data else [] in
    let flags := Z.lor (if is_data then FLAG_DATA else 0) (if is_end then FLAG_END else 0) in
    let '(evs, s) := receive_data (h_seq h) payload flags s in
    acks ← send_ack (sack_ranges s) s;
    Ok ((Deliver <$> evs) ++ acks, s)
  else Ok ([], s).

(** DESTROY and HEARTBEAT. *)
Definition control_block (h : Header) (s : StreamInner) : outcome Empty_set (Flow * list Effect * StreamInner) :=
  if Header_has_flag h FLAG_DESTROY then
    let '(signal, s) := close_signal s in Ok (Stop, Deliver End_ :: signal, s)
  else if Header_has_flag h FLAG_HEARTBEAT then acks ← send_ack [] s; Ok (Next, acks, s)
  else Ok (Next, [], s).

(** [incoming_rx.recv()] gave a packet. *)
Definition on_packet (addr : SocketAddr) (data : list Z) (hook_ok : bool)
    (target : Z * option SocketAddr * bool) (clk : nat -> Instant) (p : Processor) : Turn :=
  match Header_decode data with
  | Ok h =>
      match firewall_gate h addr hook_ok (pr_inner p) with
      | inl (flow, s) => Ok (flow, [], set_inner s p)
      | inr (opened, s) =>
          if cn_relay_target (s_conn s) then
            let '(flow, sent, s) := relay_packet data target s in
            Ok (flow, opened ++ sent, set_inner s p)
          else
            '(acked, p) ← ack_block h data clk (set_inner s p);
            '(received, s) ← data_block h data (pr_inner p);
            '(flow, control, s) ← control_block h s;
            Ok (flow, opened ++ acked ++ received ++ control, set_inner s p)
      end
  | _ => Ok (Next, [], p)
  end.

Definition on_notify (n : StreamNotify) (now : Instant) (p : Processor) : Turn :=
  Ok (Next, [], mkProc (pr_inner p)
                  (match n with Shutdown => true | DataQueued => pr_shutting_down p end)
                  (pr_rto_at p) now).

(** Taking the packet at the head of the queue to the wire. *)
Definition send_front (q : QueuedPacket) (rest : list QueuedPacket) (clk : nat -> Instant) (s : StreamInner)
    : list Z * StreamInner :=
  let s := set_send_queue rest s in
  let packet := qp_packet q in
  let is_data := (HEADER_SIZE <=? len packet) && negb (Z.land (nth 2 packet 0) FLAG_DATA =? 0) in
  let m := s_mtu s in
  let s := if is_data && bool_decide (mt_state m = Base) then
             set_mtu (mkMtu Search (mt_mtu m) (mt_probe_size m) (mt_probe_count m) true (mt_max m)) s
           else s in
  let '(is_probe, packet, s) :=
    if is_data && bool_decide (mt_state (s_mtu s) = Search) && mt_probe_wanted (s_mtu s)
    then mtu_probeify_packet packet s else (false, packet, s) in
  let s := register_sent (qp_seq q) packet is_probe (clk 1%nat) s in
  let cc := s_congestion s in
  (packet,
   set_congestion (with_pacing (cc_bbr cc) (TokenBucket_try_consume (as_u32 (len packet)) (clk 2%nat) (cc_pacing cc)).2 cc) s).

(** The sending loop over the queue: the packets sent and, when the pacer ended
    it, the delay it asked for.  The window test adds the batch to the packets
    in flight, although they are registered already. *)
Fixpoint send_loop (queue : list QueuedPacket) (clk : nat -> nat -> Instant) (batch : list Effect)
    (s : StreamInner) : outcome Empty_set (list Effect * option Z * StreamInner) :=
  match queue with
  | [] => Ok (batch, None, s)
  | q :: rest =>
      let flying := as_u32 (inflight s + as_u32 (len batch)) in
      let queued_bytes := foldr Z.add 0 ((fun q => len (qp_packet q)) <$> queue) in
      let s := set_congestion (check_app_limited queued_bytes flying (s_congestion s)) s in
      ok ← can_send flying (s_send_rwnd s) (s_congestion s);
      if negb ok then Ok (batch, None, s)
      else
        let '(delay, cc) := pacing_delay (as_u32 (len (qp_packet q))) (clk (length batch) 0%nat) (s_congestion s) in
        let s := set_congestion cc s in
        if 0 <? delay then Ok (batch, Some delay, s)
        else
          let '(packet, s) := send_front q rest (clk (length batch)) s in
          send_loop rest clk (batch ++ [SendTo packet (qp_remote_addr q)]) s
  end.

(** [pacing_sleep] fired. *)
Definition on_pacing (clk : nat -> nat -> Instant) (now : Instant) (p : Processor) : Turn :=
  let s := pr_inner p in
  let was_empty := bool_decide (s_outgoing s = ∅) in
  '(batch, delay, s) ← send_loop (s_send_queue s) clk [] s;
  let p := set_inner s p in
  let arm := was_empty && bool_decide (s_outgoing s <> ∅) in
  let sent := if cn_udp (s_conn s) then batch else [] in
  let p := if arm then set_rto_at (now + ms (rt_rto (s_rtt s))) p else p in
  match s_send_queue s with
  | [] => if pr_shutting_down p then Ok (Stop, sent, p) else Ok (Next, sent, set_pacing_at (now + FAR_FUTURE) p)
  | _ => Ok (Next, sent, set_pacing_at (now + ms 1) p)
  end.

(** [rto_sleep] fired. *)
Definition on_rto_timer (clk : nat -> Instant) (p : Processor) : Turn :=
  let s := pr_inner p in
  if decide (s_outgoing s = ∅) then Ok (Next, [], set_rto_at (clk 0%nat + FAR_FUTURE) p)
  else
    let r := s_rtt s in
    let timeouts := as_u32 (rt_rto_timeouts r + 1) in
    let s := set_rtt_est (mkRtt (rt_srtt r) (rt_rttvar r) (rt_rto r) timeouts) s in
    if MAX_RTO_TIMEOUTS <=? timeouts then
      Ok (Stop, (fun pw => Complete (pw_tx pw) (Err TimedOut)) <$> s_pending_writes s,
          set_inner (set_pending [] s) p)
    else
      let cc := on_rto (s_congestion s) in
      let cc := match max_of (btree_keys (s_outgoing s)) with Some m => set_high_seq m cc | None => cc end in
      let rto := Z.min (as_u32 (rt_rto r * 2)) MAX_RTO_MS in
      let s := set_rtt_est (mkRtt (rt_srtt r) (rt_rttvar r) rto timeouts) (set_congestion cc s) in
      let '(again, s) := packets_to_retransmit (clk 0%nat) s in
      Ok (Next, send_all again s, set_rto_at (clk 1%nat + ms rto) (set_inner s p)).

(** [keepalive.tick()] *)
Definition on_keepalive (p : Processor) : Turn :=
  let s := pr_inner p in
  let c := s_conn s in
  if cn_connected c && bool_decide (s_outgoing s = ∅) && negb (cn_relay_target c) then
    packet ← Header_encode (mkHeader FLAG_HEARTBEAT 0 (cn_remote_id c) DEFAULT_RWND 0 (s_next_remote_seq s));
    Ok (Next, send_all [packet] s, p)
  else Ok (Next, [], p).

(** One turn of the [select!]: what woke it up. *)
Inductive Wake :=
| WakePacket (addr : SocketAddr) (data : list Z) (hook_ok : bool) (target : Z * option SocketAddr * bool)
    (clk : nat -> Instant)
| WakeNotify (n : StreamNotify) (now : Instant)
| WakePacing (clk : nat -> nat -> Instant) (now : Instant)
| WakeRto (clk : nat -> Instant)
| WakeKeepalive.

Definition process_turn (w : Wake) (p : Processor) : Turn :=
  match w with
  | WakePacket addr data hook_ok target clk => on_packet addr data hook_ok target clk p
  | WakeNotify n now => on_notify n now p
  | WakePacing clk now => on_pacing clk now p
  | WakeRto clk => on_rto_timer clk p
  | WakeKeepalive => on_keepalive p
  end.
