(* ===== verification/UdxSystem.v ===== *)
(** * UdxSystem: two streams and the network between them

    Two connected [UdxStream]s as a transition system.  An endpoint is the
    state of its processor task with what it has handed out: the datagrams it
    ever sent, the events its reader got, the writes that resolved, and a record
    of the writes its application began.  The network may lose, repeat, delay
    and reorder: a step may hand an endpoint any datagram the other one ever
    sent.  Timers may fire at any time.  The two halves of a [write] (reserving
    the sequence numbers, then cutting and queueing the data) are separate
    steps, as the source holds the lock separately for each.  A stream sends
    fewer than 2^31 packets: the comparison of sequence numbers is right only
    below that distance. *)

From S2P Require Import Prelude RustStd Chunks UdxHeader RustFloat UdxCongestion UdxStream.

#[local] Open Scope Z_scope.

(** ** What an application wrote *)

(** A write or, with [w_end], the end of the stream: the sequence numbers
    reserved for it are [w_first .. w_thr - 1]; [w_pieces] are the payloads its
    packets carry once they are queued. *)
Record WriteRec := mkWrite {
  w_prep : WritePrep;
  w_thr : Z;
  w_data : list Z;
  w_end : bool;
  w_tx : nat;
  w_pieces : option (list (list Z))
}.
Definition w_first (w : WriteRec) : Z := wp_first_seq (w_prep w).
Definition w_flag (w : WriteRec) : Z := if w_end w then FLAG_END else FLAG_DATA.
Definition set_pieces (ps : list (list Z)) (w : WriteRec) : WriteRec :=
  mkWrite (w_prep w) (w_thr w) (w_data w) (w_end w) (w_tx w) (Some ps).

(** The payload and flag that sequence number [q] stands for. *)
Fixpoint log_at (ws : list WriteRec) (q : Z) : option (list Z * Z) :=
  match ws with
  | [] => None
  | w :: ws =>
      if (w_first w <=? q) && (q <? w_thr w) then
        pieces ← w_pieces w;
        piece ← pieces !! Z.to_nat (q - w_first w);
        Some (piece, w_flag w)
      else log_at ws q
  end.

(** The bytes written, in the order the writes began. *)
Definition written (ws : list WriteRec) : list Z := ws ≫= w_data.

Definition event_bytes (e : StreamEvent) : list Z :=
  match e with Data d => d | End_ => [] end.

(** ** Endpoints *)

Record Endpoint := mkEndpoint {
  e_proc : Processor;
  e_running : bool;
  e_writes : list WriteRec;
  e_sent : list (list Z);
  e_read : list StreamEvent;
  e_done : list (nat * outcome UdxError unit)
}.
Definition e_inner (e : Endpoint) : StreamInner := pr_inner (e_proc e).

(** An endpoint right after [connect]. *)
Definition connected_to (remote_id : Z) (addr : SocketAddr) (now : Instant) : Endpoint :=
  mkEndpoint (mkProc (connect remote_id addr (StreamInner_new now)) false (now + FAR_FUTURE) (now + FAR_FUTURE))
    true [] [] [] [].

Definition datagrams (effs : list Effect) : list (list Z) :=
  omap (fun e => match e with SendTo p _ => Some p | _ => None end) effs.
Definition delivered (effs : list Effect) : list StreamEvent :=
  omap (fun e => match e with Deliver ev => Some ev | _ => None end) effs.
Definition resolved (effs : list Effect) : list (nat * outcome UdxError unit) :=
  omap (fun e => match e with Complete tx r => Some (tx, r) | _ => None end) effs.

(** The endpoint after a turn or a call. *)
Definition perform (effs : list Effect) (p : Processor) (running : bool) (ws : list WriteRec) (e : Endpoint)
    : Endpoint :=
  mkEndpoint p running ws (e_sent e ++ datagrams effs) (e_read e ++ delivered effs)
    (e_done e ++ resolved effs).

(** The end of a turn: leaving the loop terminates the stream. *)
Definition finish_turn (r : Flow * list Effect * Processor) (e : Endpoint) : Endpoint :=
  let '(flow, effs, p) := r in
  match flow with
  | Next => perform effs p true (e_writes e) e
  | Stop =>
      let '(closing, s) := terminate (pr_inner p) in
      perform (effs ++ closing) (set_inner s p) false (e_writes e) e
  end.

(** The pieces [send_data_packets] cuts the data into. *)
Definition pieces_of (s : StreamInner) (data : list Z) : list (list Z) :=
  match data with [] => [[]] | _ => chunks (Z.to_nat (max_payload s)) data end.

(** A datagram comes from the other endpoint. *)
Definition from_inbox (inbox : list (list Z)) (w : Wake) : Prop :=
  match w with WakePacket _ data _ _ _ => data ∈ inbox | _ => True end.

Inductive ep_step (inbox : list (list Z)) (e : Endpoint) : Endpoint -> Prop :=
| step_prepare_write data tx prep s :
    prepare_write (len data) tx (e_inner e) = (Ok prep, s) ->
    s_next_seq (e_inner e) + len (pieces_of (e_inner e) data) < 2 ^ 31 ->
    ep_step inbox e
      (perform [] (set_inner s (e_proc e)) (e_running e)
         (e_writes e ++ [mkWrite prep (s_next_seq s) data false tx None]) e)
| step_send_write i w now effs s :
    e_writes e !! i = Some w -> w_pieces w = None -> w_end w = false ->
    send_data_packets (w_prep w) (w_data w) now (e_inner e) = Ok (effs, s) ->
    ep_step inbox e
      (perform effs (set_inner s (e_proc e)) (e_running e)
         (<[i := set_pieces (pieces_of (e_inner e) (w_data w)) w]> (e_writes e)) e)
| step_prepare_end tx prep s :
    prepare_end tx (e_inner e) = (Ok prep, s) ->
    s_next_seq (e_inner e) + 1 < 2 ^ 31 ->
    ep_step inbox e
      (perform [] (set_inner s (e_proc e)) (e_running e)
         (e_writes e ++ [mkWrite prep (s_next_seq s) [] true tx None]) e)
| step_send_end i w effs s :
    e_writes e !! i = Some w -> w_pieces w = None -> w_end w = true ->
    send_end_packet (w_prep w) (e_inner e) = Ok (effs, s) ->
    ep_step inbox e
      (perform effs (set_inner s (e_proc e)) (e_running e)
         (<[i := set_pieces [[]] w]> (e_writes e)) e)
| step_wake w r :
    e_running e = true -> from_inbox inbox w ->
    process_turn w (e_proc e) = Ok r ->
    ep_step inbox e (finish_turn r e).

(** Two endpoints that receive what the other one sent. *)
Inductive sys_step : Endpoint * Endpoint -> Endpoint * Endpoint -> Prop :=
| step_left a a' b : ep_step (e_sent b) a a' -> sys_step (a, b) (a', b)
| step_right a b b' : ep_step (e_sent a) b b' -> sys_step (a, b) (a, b').

(** The states two streams connected to each other can reach. *)
Definition sys_reach (s : Endpoint * Endpoint) : Prop :=
  exists id_a id_b addr_a addr_b now_a now_b,
    in_u 32 id_a /\ in_u 32 id_b /\
    rtc sys_step (connected_to id_b addr_b now_a, connected_to id_a addr_a now_b) s.

(** ** Runs as functions *)

(** A running endpoint takes a turn. *)
Definition turn (w : Wake) (e : Endpoint) : option Endpoint :=
  if e_running e then
    match process_turn w (e_proc e) with Ok r => Some (finish_turn r e) | _ => None end
  else None.

(** An application writes: both halves at once. *)
Definition app_write (data : list Z) (tx : nat) (now : Instant) (e : Endpoint) : option Endpoint :=
  match prepare_write (len data) tx (e_inner e) with
  | (Ok prep, s) =>
      let w := mkWrite prep (s_next_seq s) data false tx None in
      let e' := perform [] (set_inner s (e_proc e)) (e_running e) (e_writes e ++ [w]) e in
      match send_data_packets prep data now (e_inner e') with
      | Ok (effs, s') =>
          Some (perform effs (set_inner s' (e_proc e')) (e_running e')
                  (<[length (e_writes e) := set_pieces (pieces_of (e_inner e') data) w]> (e_writes e')) e')
      | _ => None
      end
  | _ => None
  end.

(** Datagrams arrive one after the other. *)
Fixpoint arrive (addr : SocketAddr) (clk : nat -> nat -> Instant) (ds : list (list Z)) (e : Endpoint)
    : option Endpoint :=
  match ds with
  | [] => Some e
  | d :: ds => turn (WakePacket addr d true (0, None, false) (clk (length ds))) e ≫= arrive addr clk ds
  end.

(** The bytes an application has read. *)
Definition bytes_read (e : Endpoint) : list Z := e_read e ≫= event_bytes.

(** What [b] reads is what [a] wrote: a prefix of it at any time, all of every
    write that resolved, and everything once the end has been read. *)
Definition in_order (a b : Endpoint) : Prop :=
  bytes_read b `prefix_of` written (e_writes a) /\
  (forall tx, (tx, Ok tt) ∈ e_done a ->
     exists i w, e_writes a !! i = Some w /\ w_tx w = tx /\
       written (take (S i) (e_writes a)) `prefix_of` bytes_read b) /\
  (End_ ∈ e_read b -> bytes_read b = written (e_writes a) /\ cn_ended (s_conn (e_inner a)) = true).

(** Every reserved number has its packet: no write is half done, and none was
    cut into fewer pieces than were reserved for it. *)
Definition complete_log (e : Endpoint) : Prop :=
  forall q, 0 <= q < s_next_seq (e_inner e) -> is_Some (log_at (e_writes e) q).
