(* ===== verification/UdxStreamProofs.v ===== *)
(** * UdxStreamProofs: what the functions of a stream do

    The datagrams a stream builds and how probing pads and strips them, the
    receive buffer against a log of numbered payloads, the ranges it
    acknowledges, and what the acknowledgement path leaves alone. *)

From stdpp Require Import sorting.
From S2P Require Import Prelude RustStd Chunks UdxHeader RustFloat UdxCongestion UdxStream UdxSystem.
From S2P Require Import UdxCongestionTheorems.

#[local] Open Scope Z_scope.

(** ** Datagrams *)

Lemma encode_wire h : Header_encode h = Ok (wire_header h).
Proof.
  unfold Header_encode. pose proof (Puts_header h [] (replicate 20 0) [] eq_refl eq_refl) as H.
  cbn [app] in H. rewrite app_nil_r in H. rewrite H. by rewrite app_nil_r.
Qed.

(** A datagram with [off] bytes of padding between header and payload. *)
Definition datagram (f off id seq ack : Z) (payload : list Z) : list Z :=
  wire_header (mkHeader f off id DEFAULT_RWND seq ack) ++ replicate (Z.to_nat off) 0 ++ payload.

Lemma datagram_len f off id seq ack payload :
  0 <= off -> len (datagram f off id seq ack payload) = 20 + off + len payload.
Proof. intros. unfold datagram. rewrite !len_app. unfold len. rewrite wire_header_len, length_replicate. lia. Qed.

Lemma datagram_take f off id seq ack payload :
  take 20 (datagram f off id seq ack payload) = wire_header (mkHeader f off id DEFAULT_RWND seq ack).
Proof. done. Qed.
Lemma datagram_drop f off id seq ack payload :
  drop 20 (datagram f off id seq ack payload) = replicate (Z.to_nat off) 0 ++ payload.
Proof. done. Qed.

Lemma datagram_decode f off id seq ack payload :
  is_byte f -> is_byte off -> in_u 32 id -> in_u 32 seq -> in_u 32 ack ->
  Header_decode (datagram f off id seq ack payload) = Ok (mkHeader f off id DEFAULT_RWND seq ack).
Proof. intros. apply decode_wire. by split. Qed.

Lemma datagram_payload f off id seq ack payload :
  0 <= off -> drop (Z.to_nat (HEADER_SIZE + off)) (datagram f off id seq ack payload) = payload.
Proof.
  intros Ho. unfold datagram, HEADER_SIZE. rewrite app_assoc. apply drop_app_length'.
  rewrite length_app, wire_header_len, length_replicate. lia.
Qed.

Lemma set_offset f off off' id w seq ack rest :
  <[3%nat := off']> (wire_header (mkHeader f off id w seq ack) ++ rest) =
  wire_header (mkHeader f off' id w seq ack) ++ rest.
Proof. done. Qed.

Lemma strip_datagram f off id seq ack payload :
  0 <= off ->
  strip_probe_padding (datagram f off id seq ack payload) = datagram f 0 id seq ack payload.
Proof.
  intros Ho. unfold strip_probe_padding. rewrite datagram_len by done. unfold HEADER_SIZE.
  pose proof (len_nonneg payload). rewrite (proj2 (Z.ltb_ge _ _)) by lia.
  change (nth 3 (datagram f off id seq ack payload) 0) with off.
  destruct (Z.eqb_spec off 0) as [->|]; [done|].
  rewrite (proj2 (Z.leb_le _ _)) by lia. pose proof (datagram_payload f off id seq ack payload Ho) as Hp.
  unfold HEADER_SIZE in Hp. rewrite Hp, datagram_take, set_offset. done.
Qed.

Lemma probeify_datagram f id seq ack payload s :
  exists off, 0 <= off <= 255 /\
    (mtu_probeify_packet (datagram f 0 id seq ack payload) s).1.2 = datagram f off id seq ack payload.
Proof.
  unfold mtu_probeify_packet. case_match eqn:E; [by exists 0|]. cbn [fst snd].
  rewrite datagram_len in * by lia. repeat rewrite orb_false_iff in E.
  destruct E as [[E1 E2] E3]. apply Z.ltb_ge in E1, E3. apply Z.leb_gt in E2.
  eexists. split; [|rewrite datagram_take, datagram_drop; cbn [Z.to_nat replicate app]; by rewrite set_offset].
  lia.
Qed.

(** ** The receive buffer against a log *)

Section Receive.
Variable log : Z -> option (list Z * Z).

(** The events the first [n] packets of the log stand for. *)
Definition log_events (n : Z) : list StreamEvent :=
  seqZ 0 n ≫= fun q => match log q with Some (p, f) => push_events p f | None => [] end.

Lemma log_events_succ n p f :
  0 <= n -> log n = Some (p, f) -> log_events (n + 1) = log_events n ++ push_events p f.
Proof.
  intros Hn Hl. unfold log_events. rewrite seqZ_app by lia. rewrite Z.add_0_l.
  rewrite bind_app. f_equal. change (seqZ n 1) with [0 + n]. cbn [mbind list_bind]. rewrite Z.add_0_l, Hl. by rewrite app_nil_r.
Qed.

(** Everything before [n] is in the log, and what waits is from the log. *)
Record rcv_ok (n : Z) (buf : gmap Z RecvdPacket) : Prop := {
  ro_range : 0 <= n < 2 ^ 32;
  ro_before : forall q, 0 <= q < n -> is_Some (log q);
  ro_buf : forall q r, buf !! q = Some r -> n < q < 2 ^ 32 - 1 /\ log q = Some (rp_payload r, rp_flags r)
}.

(** Sequence number [q] has arrived. *)
Definition got (n : Z) (buf : gmap Z RecvdPacket) (q : Z) : Prop := q < n \/ is_Some (buf !! q).

Lemma drain_recv_spec fuel n buf :
  (size buf <= fuel)%nat -> 0 <= n < 2 ^ 32 ->
  (forall q, 0 <= q < n -> is_Some (log q)) ->
  (forall q r, buf !! q = Some r -> n <= q < 2 ^ 32 - 1 /\ log q = Some (rp_payload r, rp_flags r)) ->
  let '(evs, n', buf') := drain_recv fuel n buf in
  rcv_ok n' buf' /\ log_events n' = log_events n ++ evs /\ n <= n' /\
  (forall q, got n buf q -> got n' buf' q).
Proof.
  revert n buf. induction fuel as [|fuel IH]; intros n buf Hf Hn Hb Hbuf; cbn [drain_recv].
  - assert (buf = ∅) as -> by (apply map_size_empty_inv; lia).
    split_and!; [split; [done|done|by intros ??; rewrite lookup_empty]|by rewrite app_nil_r|lia|done].
  - destruct (buf !! n) as [r|] eqn:E.
    + destruct (Hbuf n r E) as [Hr Hl].
      assert (as_u32 (n + 1) = n + 1) as -> by (apply as_u_id; unfold in_u; lia).
      specialize (IH (n + 1) (delete n buf)).
      destruct (drain_recv fuel (n + 1) (delete n buf)) as [[evs n'] buf'].
      destruct IH as (H1 & H2 & H3 & H4).
      * rewrite map_size_delete_Some by done. lia.
      * lia.
      * intros q Hq. destruct (decide (q = n)) as [->|]; [by rewrite Hl|apply Hb; lia].
      * intros q x Hx. apply lookup_delete_Some in Hx as [Hne Hx]. specialize (Hbuf q x Hx).
        intuition lia.
      * split_and!; [done| |lia|].
        -- rewrite H2, (log_events_succ n (rp_payload r) (rp_flags r)) by (done || lia).
           by rewrite app_assoc.
        -- intros q [Hq|Hq]; apply H4; [left; lia|]. destruct (decide (q = n)) as [->|]; [left; lia|].
           right. by rewrite lookup_delete_ne.
    + split_and!; [split; [done|done|]|by rewrite app_nil_r|lia|done].
      intros q r Hq. destruct (Hbuf q r Hq) as [H1 H2]. split; [|done].
      assert (q <> n) by (intros ->; congruence). lia.
Qed.

Lemma receive_data_spec seq p f s :
  let n := s_next_remote_seq s in
  rcv_ok n (s_recv_buf s) -> 0 <= seq < 2 ^ 32 - 1 -> log seq = Some (p, f) ->
  let '(evs, s') := receive_data seq p f s in
  let n' := s_next_remote_seq s' in
  s' = set_received n' (s_recv_buf s') s /\
  rcv_ok n' (s_recv_buf s') /\ log_events n' = log_events n ++ evs /\ n <= n' /\
  (forall q, got n (s_recv_buf s) q \/ q = seq -> got n' (s_recv_buf s') q).
Proof.
  intros n Hr Hs Hl. subst n. unfold receive_data. destruct Hr as [Hn Hb Hbuf].
  destruct (Z.ltb_spec seq (s_next_remote_seq s)).
  { split_and!; [by destruct s|by split|by rewrite app_nil_r|lia|].
    intros q [Hq| ->]; [done|by left]. }
  destruct (Z.eqb_spec seq (s_next_remote_seq s)) as [->|].
  - assert (as_u32 (s_next_remote_seq s + 1) = s_next_remote_seq s + 1) as -> by (apply as_u_id; unfold in_u; lia).
    pose proof (drain_recv_spec (size (s_recv_buf s)) (s_next_remote_seq s + 1) (s_recv_buf s)) as H1.
    destruct (drain_recv _ _ _) as [[evs n'] buf']. destruct H1 as (H1 & H2 & H3 & H4).
    + done.
    + lia.
    + intros q Hq. destruct (decide (q = s_next_remote_seq s)) as [->|]; [by rewrite Hl|apply Hb; lia].
    + intros q r Hq. destruct (Hbuf q r Hq). split; [lia|done].
    + cbn. split_and!; [done|done| |lia|].
      * rewrite H2, (log_events_succ _ p f) by (done || lia). by rewrite app_assoc.
      * intros q Hq. apply H4. destruct Hq as [[Hq|Hq]| ->]; [left; lia|by right|left; lia].
  - destruct (s_recv_buf s !! seq) as [r|] eqn:E.
    + split_and!; [by destruct s|by split|by rewrite app_nil_r|lia|].
      intros q [Hq| ->]; [done|right; by rewrite E].
    + cbn. split_and!; [done| |by rewrite app_nil_r|lia|].
      * split; [done|done|]. intros q r Hq. apply lookup_insert_Some in Hq as [[<- <-]|[Hne Hq]]; [|by apply Hbuf].
        cbn. split; [lia|done].
      * intros q [[Hq|Hq]| ->]; [by left| |right; by rewrite lookup_insert_eq].
        right. destruct (decide (seq = q)) as [->|]; [by rewrite lookup_insert_eq|by rewrite lookup_insert_ne].
Qed.
End Receive.

(** ** The ranges a receiver acknowledges *)

Lemma btree_iter_elem {A} (m : gmap Z A) p : p ∈ btree_iter m <-> m !! p.1 = Some p.2.
Proof.
  unfold btree_iter. rewrite merge_sort_Permutation. destruct p as [k v]. apply elem_of_map_to_list.
Qed.

Lemma btree_keys_elem {A} (m : gmap Z A) q : q ∈ btree_keys m <-> is_Some (m !! q).
Proof.
  unfold btree_keys. rewrite list_elem_of_fmap. split.
  - intros ([k v] & -> & H). apply btree_iter_elem in H. by exists v.
  - intros [v H]. exists (q, v). split; [done|]. by apply btree_iter_elem.
Qed.

(** Every sequence number of every range has the property. *)
Definition sacks_ok (g : Z -> Prop) : list SackRange -> Prop :=
  Forall (fun r => range_ok r /\ forall q, sr_start r <= q < sr_end r -> g q).

Lemma sack_loop_ok (g : Z -> Prop) start end_ keys ranges :
  0 <= start < 2 ^ 32 -> 0 <= end_ < 2 ^ 32 -> (forall q, start <= q < end_ -> g q) ->
  Forall (fun q => g q /\ 0 <= q < 2 ^ 32 - 1) keys -> sacks_ok g ranges ->
  sacks_ok g (sack_loop start end_ keys ranges).
Proof.
  intros Hs He Hg Hk. revert start end_ ranges Hs He Hg.
  induction Hk as [|seq keys [Hq Hr] _ IH]; intros start end_ ranges Hs He Hg Hok; cbn [sack_loop].
  { apply Forall_app. split; [done|]. by repeat constructor; cbn; try lia. }
  assert (as_u32 (seq + 1) = seq + 1) as -> by (apply as_u_id; unfold in_u; lia).
  assert (sacks_ok g (ranges ++ [mkSackRange start end_])) as Hok'.
  { apply Forall_app. split; [done|]. by repeat constructor; cbn; try lia. }
  destruct (Z.eqb_spec seq end_) as [->|].
  - apply IH; [lia|lia| |done]. intros q ?. destruct (decide (q = end_)) as [->|]; [done|apply Hg; lia].
  - case_match; [done|]. apply IH; [lia|lia| |done]. intros q ?. by replace q with seq by lia.
Qed.

Lemma sack_ranges_ok s :
  (forall q, is_Some (s_recv_buf s !! q) -> 0 <= q < 2 ^ 32 - 1) ->
  sacks_ok (fun q => is_Some (s_recv_buf s !! q)) (sack_ranges s).
Proof.
  intros Hr. unfold sack_ranges.
  assert (forall q, q ∈ btree_keys (s_recv_buf s) -> is_Some (s_recv_buf s !! q) /\ 0 <= q < 2 ^ 32 - 1) as Hk.
  { intros q Hq. apply btree_keys_elem in Hq. auto. }
  destruct (btree_keys (s_recv_buf s)) as [|first keys]; [by constructor|].
  destruct (Hk first ltac:(by left)) as [Hf Hfr].
  assert (as_u32 (first + 1) = first + 1) as -> by (apply as_u_id; unfold in_u; lia).
  apply sack_loop_ok; [lia|lia| | |by constructor].
  - intros q ?. by replace q with first by lia.
  - apply Forall_forall. intros q Hq. apply Hk. by right.
Qed.

(** An acknowledgement or heartbeat that claims no more than [g] and [bound]. *)
Definition control (g : Z -> Prop) (bound : Z) (d : list Z) : Prop :=
  exists f rs id ack,
    (f = FLAG_SACK \/ rs = [] /\ (f = 0 \/ f = FLAG_HEARTBEAT)) /\
    d = wire_header (mkHeader f (as_u8 (len rs * 8)) id DEFAULT_RWND 0 ack) ++ wire_sack rs /\
    in_u 32 id /\ 0 <= ack <= bound /\ sacks_ok g rs.

(** A data or end packet that carries what the log says, behind [off] bytes of
    padding. *)
Definition carries_off (log : Z -> option (list Z * Z)) (bound off seq : Z) (d : list Z) : Prop :=
  exists f id ack payload,
    d = datagram f off id seq ack payload /\ (f = FLAG_DATA \/ f = FLAG_END) /\
    in_u 32 id /\ 0 <= ack <= bound /\ log seq = Some (payload, f).
Definition carries (log : Z -> option (list Z * Z)) (bound seq : Z) (d : list Z) : Prop :=
  exists off, 0 <= off <= 255 /\ carries_off log bound off seq d.

Definition genuine (log : Z -> option (list Z * Z)) (g : Z -> Prop) (bound : Z) (d : list Z) : Prop :=
  (exists seq, carries log bound seq d) \/ control g bound d.

Definition log_le (log log' : Z -> option (list Z * Z)) : Prop := forall q x, log q = Some x -> log' q = Some x.

#[global] Instance log_le_refl : Reflexive log_le.
Proof. by intros log q x. Qed.

Lemma sacks_ok_mono (g g' : Z -> Prop) rs : (forall q, g q -> g' q) -> sacks_ok g rs -> sacks_ok g' rs.
Proof. intros Hg H. eapply Forall_impl; [exact H|]. intros r [H1 H2]. split; [done|eauto]. Qed.

Lemma carries_off_mono log log' bound bound' off seq d :
  log_le log log' -> bound <= bound' -> carries_off log bound off seq d -> carries_off log' bound' off seq d.
Proof.
  intros Hl Hb (f & id & ack & p & H1 & H2 & H3 & H4 & H5).
  exists f, id, ack, p. split_and!; eauto; lia.
Qed.
Lemma carries_mono log log' bound bound' seq d :
  log_le log log' -> bound <= bound' -> carries log bound seq d -> carries log' bound' seq d.
Proof. intros Hl Hb (off & Ho & H). exists off. eauto using carries_off_mono. Qed.

Lemma genuine_mono log log' (g g' : Z -> Prop) bound bound' d :
  log_le log log' -> (forall q, g q -> g' q) -> bound <= bound' ->
  genuine log g bound d -> genuine log' g' bound' d.
Proof.
  intros Hl Hg Hb [[seq H]|(f & rs & id & ack & H1 & H2 & H3 & H4 & H5)].
  - left. exists seq. by eapply carries_mono.
  - right. exists f, rs, id, ack. split_and!; eauto using sacks_ok_mono; lia.
Qed.

(** ** Building acknowledgements *)

Lemma encode_sack_wire rs :
  encode_sack rs (replicate (Z.to_nat (len rs * 8)) 0) = (Ok (len rs * 8), wire_sack rs).
Proof.
  unfold encode_sack.
  pose proof (Puts_sack 0 rs [] (replicate (Z.to_nat (len rs * 8)) 0) [] eq_refl) as H.
  cbn [app] in H. rewrite !app_nil_r in H. erewrite bind_ok; [done|]. apply H.
  rewrite length_replicate. pose proof (wire_sack_len rs). unfold len in *. lia.
Qed.

Lemma control_decode f n id ack rest :
  is_byte f -> is_byte n -> in_u 32 id -> in_u 32 ack ->
  Header_decode (wire_header (mkHeader f n id DEFAULT_RWND 0 ack) ++ rest) = Ok (mkHeader f n id DEFAULT_RWND 0 ack).
Proof. intros. by apply decode_wire. Qed.

Lemma ack_packet_bytes_ok (g : Z -> Prop) id ack rs :
  in_u 32 id -> 0 <= ack -> sacks_ok g rs -> ack < 2 ^ 32 ->
  exists d, ack_packet_bytes id ack rs = Ok d /\ control g ack d /\
    exists h, Header_decode d = Ok h /\ h_ack h = ack.
Proof.
  intros Hi Ha Hr Hlt. unfold ack_packet_bytes. destruct rs as [|r rs].
  - rewrite encode_wire. eexists. split; [done|]. split.
    + exists 0, [], id, ack. split_and!; [right; auto|by rewrite app_nil_r|done|lia..|done].
    + exists (mkHeader 0 0 id DEFAULT_RWND 0 ack). split; [|done]. rewrite <- (app_nil_r (wire_header _)).
      apply control_decode; [done..|unfold in_u; lia].
  - rewrite encode_wire. cbn [mbind outcome_bind]. rewrite encode_sack_wire. eexists. split; [done|]. split.
    + exists FLAG_SACK, (r :: rs), id, ack. split_and!; auto; lia.
    + eexists (mkHeader _ _ _ _ _ ack). split; [|done]. apply control_decode; [by cbv|apply (as_u_range 8); lia|done|unfold in_u; lia].
Qed.

(** ** Reading acknowledgements *)

Lemma wire_sack_take k rs : take (8 * k) (wire_sack rs) = wire_sack (take k rs).
Proof.
  revert k. induction rs as [|r rs IH]; intros [|k]; [done..|].
  change (wire_sack (r :: rs)) with (wire_range r ++ wire_sack rs).
  change (wire_sack (take (S k) (r :: rs))) with (wire_range r ++ wire_sack (take k rs)).
  rewrite <- IH. replace (8 * S k)%nat with (length (wire_range r) + 8 * k)%nat by (cbn; lia).
  by rewrite take_app_add.
Qed.

Lemma sacks_ok_ranges g rs : sacks_ok g rs -> Forall range_ok rs.
Proof. intros H. eapply Forall_impl; [exact H|]. by intros r []. Qed.

(** The length of the ranges is written in a byte: 32 ranges fill it. *)
Lemma sack_count (rs : list SackRange) : as_u8 (len rs * 8) = 8 * (len rs mod 32).
Proof. change (as_u8 (len rs * 8)) with ((len rs * 8) mod (32 * 8)). rewrite Zmult_mod_distr_r. lia. Qed.

Lemma control_slice f rs id ack k :
  0 <= k -> slice (wire_header (mkHeader f (8 * k) id DEFAULT_RWND 0 ack) ++ wire_sack rs) HEADER_SIZE (HEADER_SIZE + 8 * k)
    = wire_sack (take (Z.to_nat k) rs).
Proof.
  intros Hk. unfold slice, HEADER_SIZE. rewrite <- wire_sack_take.
  replace (Z.to_nat (20 + 8 * k - 20)) with (8 * Z.to_nat k)%nat by lia.
  change (Z.to_nat 20) with (length (wire_header (mkHeader f (8 * k) id DEFAULT_RWND 0 ack))).
  by rewrite drop_app_length.
Qed.

Lemma control_sacks (g : Z -> Prop) f rs id ack ranges :
  sacks_ok g rs ->
  packet_sacks (mkHeader f (as_u8 (len rs * 8)) id DEFAULT_RWND 0 ack)
    (wire_header (mkHeader f (as_u8 (len rs * 8)) id DEFAULT_RWND 0 ack) ++ wire_sack rs) = Some ranges ->
  sacks_ok g ranges.
Proof.
  intros Hr. unfold packet_sacks, Header_payload_offset. cbn [h_data_offset].
  case_match; [|done]. case_match; [|done]. rewrite sack_count.
  pose proof (Z.mod_pos_bound (len rs) 32 ltac:(lia)). rewrite control_slice by lia.
  assert (sacks_ok g (take (Z.to_nat (len rs mod 32)) rs)) as Ht by (by apply Forall_take).
  rewrite decode_sack_wire by (by eapply sacks_ok_ranges). by intros [= <-].
Qed.

(** ** What the send side keeps *)

(** MTU and congestion controller agree and are in range. *)
Record tuned (s : StreamInner) : Prop := {
  tu_mtu : MTU_BASE <= mt_mtu (s_mtu s) <= mt_probe_size (s_mtu s);
  tu_max : mt_probe_size (s_mtu s) <= mt_max (s_mtu s) /\ mt_max (s_mtu s) = MTU_MAX;
  tu_mss : cc_mss (s_congestion s) = mt_mtu (s_mtu s) - HEADER_SIZE;
  tu_cc : cc_ok (s_congestion s)
}.

(** [s'] differs from [s] at most in timing, MTU, congestion state and pending
    writes. *)
Record side (s s' : StreamInner) : Prop := {
  si_conn : s_conn s' = s_conn s;
  si_next_seq : s_next_seq s' = s_next_seq s;
  si_outgoing : s_outgoing s' = s_outgoing s;
  si_next_remote : s_next_remote_seq s' = s_next_remote_seq s;
  si_acked : s_remote_acked s' = s_remote_acked s;
  si_buf : s_recv_buf s' = s_recv_buf s;
  si_queue : s_send_queue s' = s_send_queue s;
  si_mtu : mt_mtu (s_mtu s) <= mt_mtu (s_mtu s');
  si_tuned : tuned s -> tuned s'
}.

#[global] Instance side_refl : Reflexive side.
Proof. intros s. by split. Qed.
#[global] Instance side_trans : Transitive side.
Proof. intros s1 s2 s3 [] []. split; try congruence; [lia|auto]. Qed.

Lemma side_rtt r s : side s (set_rtt_est r s).
Proof. split; try done. by intros []. Qed.
Lemma side_pending l s : side s (set_pending l s).
Proof. split; try done. by intros []. Qed.
Lemma side_rwnd w s : side s (set_send_rwnd w s).
Proof. split; try done. by intros []. Qed.

(** Operations of the controller other than an MTU change. *)
Lemma side_cc op cc s :
  op_ok op -> (forall o n, op <> OpMtuChange o n) -> cc_step op (s_congestion s) = Ok cc ->
  side s (set_congestion cc s).
Proof.
  intros Ho Hop Hs. split; try done. intros [H1 H2 H3 H4]. split; try done.
  - cbn [s_congestion s_mtu set_congestion]. rewrite <- H3. clear -Hs Hop. destruct op; cbn in Hs; try (by injection Hs as <-); try done.
    + unfold on_ack in Hs. case_match. unfold mbind, outcome_bind in Hs. repeat case_match; by simplify_eq.
    + injection Hs as <-. unfold check_app_limited. by case_match.
    + unfold can_send, mbind, outcome_bind in Hs. repeat case_match; by simplify_eq.
    + by destruct (Hop old_mtu new_mtu).
  - cbn. destruct (cc_step_ok op _ Ho H4) as (c' & E & Hc). by rewrite Hs in E; simplify_eq.
Qed.

Lemma side_mtu_probe_acked s : tuned s -> exists s', on_mtu_probe_acked s = Ok s' /\ side s s' /\
  s_pending_writes s' = s_pending_writes s /\ s_outgoing s' = s_outgoing s.
Proof.
  intros [[H1 H2] [H3 H4] H5 H6]. unfold MTU_BASE, MTU_MAX, MTU_STEP in *. unfold on_mtu_probe_acked. cbv zeta.
  assert (forall m, 1200 <= m <= 1500 -> as_u32 m = m /\ as_u32 (m - 20) = m - 20) as Hid
    by (intros m Hm; split; apply as_u_id; unfold in_u; lia).
  destruct (mtu_change_ok (mt_mtu (s_mtu s)) (mt_probe_size (s_mtu s)) (s_congestion s)) as (c & -> & Hc & Hms);
    [|done|].
  { destruct (Hid (mt_mtu (s_mtu s)) ltac:(lia)), (Hid (mt_probe_size (s_mtu s)) ltac:(lia)). cbn [op_ok]. lia. }
  cbn [mbind outcome_bind]. eexists. split; [done|]. split; [|done].
  split; try done. intros _. split; cbn; unfold MTU_BASE, MTU_STEP, MTU_MAX in *; [lia|lia| |done].
  rewrite Hms. apply Hid. lia.
Qed.

Lemma side_ack_packet now w p :
  tuned (aw_inner w) ->
  exists w', ack_packet now w p = Ok w' /\ side (aw_inner w) (aw_inner w') /\
    s_pending_writes (aw_inner w') = s_pending_writes (aw_inner w) /\
    s_outgoing (aw_inner w') = s_outgoing (aw_inner w).
Proof.
  intros Ht. destruct p as [seq pkt]. unfold ack_packet. cbv zeta.
  set (s := if negb (aw_measured w) && _ then _ else aw_inner w).
  assert (side (aw_inner w) s /\ s_pending_writes s = s_pending_writes (aw_inner w) /\
    s_outgoing s = s_outgoing (aw_inner w)) as (Hs & Hp & Ho).
  { unfold s. case_match; [|done]. split; [apply side_rtt|done]. }
  destruct (_ && bool_decide _).
  - destruct (side_mtu_probe_acked s) as (s' & -> & H1 & H2 & H3); [by apply Hs|]. cbn [mbind outcome_bind].
    eexists. split; [done|]. cbn [aw_inner]. split; [by trans s|]. by rewrite H2, H3.
  - cbn [mbind outcome_bind]. by eexists.
Qed.

Lemma side_ack_walk now l w :
  tuned (aw_inner w) ->
  exists w', ack_packets now w l = Ok w' /\ side (aw_inner w) (aw_inner w') /\
    s_pending_writes (aw_inner w') = s_pending_writes (aw_inner w) /\
    s_outgoing (aw_inner w') = s_outgoing (aw_inner w).
Proof.
  revert w. induction l as [|p l IH]; intros w Ht; cbn [ack_packets]; [by exists w|].
  destruct (side_ack_packet now w p Ht) as (w1 & -> & Hs & Hp & Ho). cbn [mbind outcome_bind].
  destruct (IH w1) as (w2 & -> & Hs2 & Hp2 & Ho2); [by apply Hs|]. exists w2. split; [done|].
  split; [by trans (aw_inner w1)|]. by rewrite Hp2, Ho2.
Qed.

(** ** How the packets in flight evolve *)

(** [s'] has the packets of [s] except those below [acked], perhaps without
    their padding, and has marked as acknowledged at most those in [S]. *)
Record evolves (acked : Z) (S : Z -> Prop) (s s' : StreamInner) : Prop := {
  ev_conn : s_conn s' = s_conn s;
  ev_next_seq : s_next_seq s' = s_next_seq s;
  ev_next_remote : s_next_remote_seq s' = s_next_remote_seq s;
  ev_buf : s_recv_buf s' = s_recv_buf s;
  ev_queue : s_send_queue s' = s_send_queue s;
  ev_mtu : mt_mtu (s_mtu s) <= mt_mtu (s_mtu s');
  ev_tuned : tuned s -> tuned s';
  ev_out : forall q p', s_outgoing s' !! q = Some p' ->
    exists p, s_outgoing s !! q = Some p /\
      (sp_packet p' = sp_packet p \/ sp_packet p' = strip_probe_padding (sp_packet p)) /\
      (sp_sacked p' = true -> sp_sacked p = true \/ S q);
  ev_keep : forall q, is_Some (s_outgoing s !! q) -> q < acked \/ is_Some (s_outgoing s' !! q)
}.

Lemma side_evolves acked S s s' : side s s' -> evolves acked S s s'.
Proof.
  intros []. split; try congruence; try done; rewrite si_outgoing0; [|by right].
  intros q p Hp. exists p. by split_and!; [|left|left].
Qed.

Lemma strip_twice p : strip_probe_padding (strip_probe_padding p) = strip_probe_padding p.
Proof.
  unfold strip_probe_padding at 2 3. unfold HEADER_SIZE.
  destruct (Z.ltb_spec (len p) 20) as [Hl|Hl].
  { unfold strip_probe_padding, HEADER_SIZE. by rewrite (proj2 (Z.ltb_lt _ _)). }
  destruct (Z.eqb_spec (nth 3 p 0) 0) as [E|E].
  { unfold strip_probe_padding, HEADER_SIZE. rewrite (proj2 (Z.ltb_ge _ _)) by done. by rewrite E. }
  set (x := <[3%nat := 0]> _). unfold strip_probe_padding at 1. case_match; [done|].
  assert (nth 3 x 0 = 0) as ->; [|done]. unfold x. unfold len in Hl.
  destruct p as [|a [|b [|c [|d p]]]]; cbn [length] in Hl; try lia. by case_match.
Qed.

Lemma evolves_trans acked S s1 s2 s3 : evolves acked S s1 s2 -> evolves acked S s2 s3 -> evolves acked S s1 s3.
Proof.
  intros [] []. split; try congruence; [lia|auto| |].
  - intros q p3 H3. destruct (ev_out1 q p3 H3) as (p2 & H2 & Hp2 & Hs2).
    destruct (ev_out0 q p2 H2) as (p1 & H1 & Hp1 & Hs1). exists p1. split; [done|].
    split; [|by intros H; destruct (Hs2 H); auto].
    destruct Hp2 as [->| ->], Hp1 as [->| ->]; auto. right. by rewrite strip_twice.
  - intros q H. destruct (ev_keep0 q H) as [|H']; [by left|auto].
Qed.

Lemma evolves_mono acked acked' (S S' : Z -> Prop) s s' :
  acked <= acked' -> (forall q, S q -> S' q) -> evolves acked S s s' -> evolves acked' S' s s'.
Proof.
  intros Ha HS []. split; try done.
  - intros q p' H. destruct (ev_out0 q p' H) as (p & H1 & H2 & H3). exists p. split_and!; [done..|].
    intros Hs. destruct (H3 Hs); auto.
  - intros q H. destruct (ev_keep0 q H); [left; lia|by right].
Qed.

(** Changing the packets in place. *)
Lemma evolves_map acked S s out :
  (forall q, s_outgoing s !! q = None -> out !! q = None) ->
  (forall q p, s_outgoing s !! q = Some p -> exists p', out !! q = Some p' /\
     (sp_packet p' = sp_packet p \/ sp_packet p' = strip_probe_padding (sp_packet p)) /\
     (sp_sacked p' = true -> sp_sacked p = true \/ S q)) ->
  evolves acked S s (set_outgoing out s).
Proof.
  intros Hn Hp. split; try done; cbn.
  - by intros [].
  - intros q p' H. destruct (s_outgoing s !! q) as [p|] eqn:E; [|by rewrite Hn in H].
    destruct (Hp q p E) as (p2 & H1 & H2 & H3). exists p. simplify_eq. by split_and!.
  - intros q [p H]. right. destruct (Hp q p H) as (p' & -> & _). done.
Qed.

Lemma evolves_cumulative ack now S s completed rate s' :
  tuned s -> on_cumulative_ack ack now s = Ok (completed, rate, s') -> evolves ack S s s'.
Proof.
  intros Ht. unfold on_cumulative_ack. case_match; [intros [= _ _ <-]; by apply side_evolves|]. cbv zeta.
  set (s1 := set_outgoing _ (set_remote_acked ack s)).
  assert (evolves ack S s s1) as H1.
  { unfold s1. split; try done; cbn.
    - by intros [].
    - intros q p' Hq. apply map_lookup_filter_Some in Hq as [Hq _]. exists p'. by split_and!; [|left|left].
    - intros q [p Hq]. destruct (decide (ack <= q)); [right|left; lia].
      exists p. by apply map_lookup_filter_Some. }
  destruct (side_ack_walk now (filter (fun p => p.1 < ack) (btree_iter (s_outgoing (set_remote_acked ack s))))
    (mkWalk s1 false [])) as (w & -> & Hw & _); [by apply H1|]. cbn [mbind outcome_bind]. intros [= _ _ <-].
  eapply evolves_trans; [exact H1|]. apply side_evolves.
  etrans; [|apply side_pending]. etrans; [|apply side_rtt]. exact Hw.
Qed.

Lemma sack_fold seqs out info :
  forall q p', (foldl sack_seq (out, info) seqs).1 !! q = Some p' ->
    exists p, out !! q = Some p /\ sp_packet p' = sp_packet p /\
      (sp_sacked p' = true -> sp_sacked p = true \/ q ∈ seqs).
Proof.
  revert out info. induction seqs as [|x seqs IH]; intros out info q p' H; [by eauto 10|].
  cbn [foldl] in H. destruct (sack_seq (out, info) x) as [out1 info1] eqn:E.
  destruct (IH out1 info1 q p' H) as (p1 & H1 & H2 & H3). unfold sack_seq in E.
  destruct (out !! x) as [px|] eqn:Ex; [destruct (sp_sacked px) eqn:Es|]; simplify_eq.
  - exists p1. split_and!; [done..|]. intros Hs. destruct (H3 Hs); [by left|right; by right].
  - apply lookup_insert_Some in H1 as [[<- <-]|[Hne H1]].
    + exists px. split_and!; [done|done|]. intros _. right. by left.
    + exists p1. split_and!; [done..|]. intros Hs. destruct (H3 Hs); [by left|right; by right].
  - exists p1. split_and!; [done..|]. intros Hs. destruct (H3 Hs); [by left|right; by right].
Qed.

Lemma sack_fold_dom seqs out info q :
  is_Some (out !! q) -> is_Some ((foldl sack_seq (out, info) seqs).1 !! q).
Proof.
  revert out info. induction seqs as [|x seqs IH]; intros out info H; [done|]. cbn [foldl].
  destruct (sack_seq (out, info) x) as [out1 info1] eqn:E. apply IH. unfold sack_seq in E.
  destruct (out !! x) as [px|] eqn:Ex; [destruct (sp_sacked px)|]; simplify_eq; try done.
  destruct (decide (x = q)) as [->|]; [by rewrite lookup_insert_eq|by rewrite lookup_insert_ne].
Qed.

Lemma range_seqs_elem q r : q ∈ range_seqs r <-> sr_start r <= q < sr_end r.
Proof. unfold range_seqs. rewrite elem_of_seqZ. lia. Qed.

Lemma evolves_sack acked (g : Z -> Prop) ranges s :
  sacks_ok g ranges -> evolves acked g s (on_sack ranges s).2.
Proof.
  intros Hr. unfold on_sack. destruct (foldl sack_seq _ _) as [out info] eqn:E. cbn [snd].
  assert (out = (foldl sack_seq (s_outgoing s, []) (ranges ≫= range_seqs)).1) as Eo by (by rewrite E).
  apply evolves_map.
  - intros q Hq. destruct (out !! q) as [p'|] eqn:Ep; [|done]. rewrite Eo in Ep.
    apply sack_fold in Ep as (p & Hp & _). congruence.
  - intros q p Hp. destruct (sack_fold_dom (ranges ≫= range_seqs) (s_outgoing s) [] q) as [p' Hp'];
      [by rewrite Hp|]. exists p'. rewrite Eo. split; [done|].
    destruct (sack_fold _ _ _ _ _ Hp') as (p1 & H1 & H2 & H3). simplify_eq.
    split; [by left|]. intros Hs. destruct (H3 Hs) as [|Hq]; [by left|right].
    apply list_elem_of_bind in Hq as (r & Hq & Hr'). apply range_seqs_elem in Hq.
    unfold sacks_ok in Hr. rewrite Forall_forall in Hr. by apply (Hr r).
Qed.

Lemma side_lost_fold {A} (l : list A) cc s :
  side s (set_congestion cc s) -> side s (set_congestion (foldl (fun c _ => on_packet_lost c) cc l) s).
Proof.
  revert cc. induction l as [|x l IH]; intros cc H; [done|]. cbn [foldl]. apply IH.
  trans (set_congestion cc s); [done|].
  change (set_congestion (on_packet_lost cc) s) with (set_congestion (on_packet_lost cc) (set_congestion cc s)).
  by apply (side_cc OpLost).
Qed.

Lemma side_congestion_id s : side s (set_congestion (s_congestion s) s).
Proof. split; try done. by intros []. Qed.

Lemma side_high_seq m cc s : side s (set_congestion cc s) -> side s (set_congestion (set_high_seq m cc) s).
Proof.
  intros H. trans (set_congestion cc s); [done|].
  change (set_congestion (set_high_seq m cc) s) with (set_congestion (set_high_seq m cc) (set_congestion cc s)).
  by apply (side_cc (OpHighSeq m)).
Qed.

Lemma evolves_detect acked S s : evolves acked S s (detect_losses s).2.
Proof.
  unfold detect_losses. case_match; [|by apply side_evolves]. cbn [snd].
  match goal with |- evolves _ _ _ (set_congestion _ ?x) => apply (evolves_trans _ _ _ x) end.
  - apply evolves_map.
    + intros q Hq. rewrite map_lookup_imap, Hq. done.
    + intros q p Hp. rewrite map_lookup_imap, Hp. cbn. eexists. split; [done|].
      case_match; (split; [by left|by left]).
  - apply side_evolves. match goal with |- side ?x (set_congestion _ _) => set (s1 := x) end.
    pose proof (fun l : list Z => side_lost_fold l (s_congestion s1) s1 (side_congestion_id s1)) as H1.
    repeat case_match; try apply side_high_seq; apply H1.
Qed.

Lemma evolves_retransmit acked S pick after now s :
  (forall p, sp_packet (after p) = sp_packet p /\ sp_sacked (after p) = sp_sacked p) ->
  evolves acked S s (retransmit pick after now s).2.
Proof.
  intros Ha. unfold retransmit. cbn [snd].
  set (out := (fun p => if pick p then after (retransmitted now p) else p) <$> s_outgoing s).
  assert (evolves acked S s (set_outgoing out s)) as H1.
  { apply evolves_map; unfold out.
    - intros q Hq. by rewrite lookup_fmap, Hq.
    - intros q p Hp. rewrite lookup_fmap, Hp. cbn. eexists. split; [done|].
      case_match; [|by split; left]. destruct (Ha (retransmitted now p)) as [-> ->]. cbn.
      split; [case_match; [by right|by left]|by left]. }
  case_match; [|done]. eapply evolves_trans; [exact H1|]. apply side_evolves.
  split; try done; cbn. by intros [].
Qed.

Lemma evolves_fast acked S now s : evolves acked S s (fast_retransmit now s).2.
Proof. by apply evolves_retransmit. Qed.
Lemma evolves_timeout acked S now s : evolves acked S s (packets_to_retransmit now s).2.
Proof. by apply evolves_retransmit. Qed.

(** What is sent again is what the state holds afterwards. *)
Lemma retransmit_sent pick after now s d :
  (forall p, sp_packet (after p) = sp_packet p) ->
  d ∈ (retransmit pick after now s).1 ->
  exists q p', s_outgoing (retransmit pick after now s).2 !! q = Some p' /\ sp_packet p' = d.
Proof.
  intros Ha Hd. unfold retransmit in *. cbn [fst snd] in *.
  apply list_elem_of_fmap in Hd as (p & -> & Hp). apply list_elem_of_filter in Hp as [Hp Hv].
  unfold btree_values in Hv. apply list_elem_of_fmap in Hv as ([q p0] & -> & Hq).
  apply btree_iter_elem in Hq. cbn [fst snd] in *.
  exists q, (after (retransmitted now p0)). rewrite Ha. split; [|done].
  assert (forall s', s_outgoing (if existsb sp_is_mtu_probe (filter pick (btree_values (s_outgoing s)))
    then set_mtu (probe_failed (s_mtu s')) s' else s') = s_outgoing s') as -> by (intros; by case_match).
  cbn. rewrite lookup_fmap, Hq. cbn. by rewrite Is_true_true in Hp; rewrite Hp || idtac.
Qed.

(** ** The acknowledgement block *)

(** Below 2^31 the wrapping comparison is the order of the integers. *)
Lemma seq_after_lt a b : 0 <= a < 2 ^ 31 -> 0 <= b < 2 ^ 31 -> seq_after a b = (b <? a).
Proof.
  intros Ha Hb. unfold seq_after, as_i32, as_u32, as_u, as_i.
  change (2 ^ (32 - 1)) with (2 ^ 31). destruct (Z.ltb_spec b a).
  - apply Z.ltb_lt. rewrite (Z.mod_small (a - b)) by lia. rewrite Z.mod_small by lia. lia.
  - apply Z.ltb_ge. destruct (decide (a = b)) as [->|]; [by rewrite Z.sub_diag|].
    rewrite <- (Z.mod_unique (a - b) (2 ^ 32) (-1) (a - b + 2 ^ 32)) by lia.
    rewrite <- (Z.mod_unique (a - b + 2 ^ 32 + 2 ^ 31) (2 ^ 32) 1 (a - b + 2 ^ 31)) by lia. lia.
Qed.

(** What an acknowledgement that moves forward settles. *)
Record settles (ack : Z) (s : StreamInner) (completed : list nat) (s' : StreamInner) : Prop := {
  sl_done : forall pw, pw ∈ s_pending_writes s -> pw_ack_threshold pw <= ack -> pw_tx pw ∈ completed;
  sl_pending : forall pw, pw ∈ s_pending_writes s' -> ack < pw_ack_threshold pw;
  sl_out : forall q, is_Some (s_outgoing s' !! q) -> ack <= q
}.

Lemma cumulative_completes ack now s :
  tuned s -> exists completed rate s', on_cumulative_ack ack now s = Ok (completed, rate, s') /\
  (forall tx, tx ∈ completed -> exists pw, pw ∈ s_pending_writes s /\ pw_tx pw = tx /\ pw_ack_threshold pw <= ack) /\
  (forall pw, pw ∈ s_pending_writes s' -> pw ∈ s_pending_writes s) /\
  s_remote_acked s' = (if seq_after ack (s_remote_acked s) then ack else s_remote_acked s) /\
  (seq_after ack (s_remote_acked s) = true -> settles ack s completed s').
Proof.
  intros Ht. unfold on_cumulative_ack. destruct (seq_after _ _); cbn [negb].
  2: { eexists _, _, _. split; [done|]. split_and!; auto; by intros ? ?%elem_of_nil || done. }
  cbv zeta. set (s1 := set_outgoing _ (set_remote_acked ack s)).
  destruct (side_ack_walk now (filter (fun p => p.1 < ack) (btree_iter (s_outgoing (set_remote_acked ack s))))
    (mkWalk s1 false [])) as (w & -> & Hw & Hp & Ho); [by destruct Ht|].
  cbn [mbind outcome_bind]. eexists _, _, _. split; [done|].
  assert (s_remote_acked (aw_inner w) = ack) as Ha by (by destruct Hw).
  cbn [s_pending_writes s_remote_acked set_pending set_rtt_est] in *.
  rewrite Hp, Ha. split_and!; [| |done|].
  3: { intros _. split.
    - intros pw Hin Hle. apply list_elem_of_fmap. exists pw. split; [done|]. by apply list_elem_of_filter.
    - cbn [s_pending_writes set_pending]. intros pw Hf. by apply list_elem_of_filter in Hf as [? _].
    - intros q [p Hq]. cbn [s_outgoing set_pending set_rtt_est] in Hq. rewrite Ho in Hq.
      cbn in Hq. by apply map_lookup_filter_Some in Hq as [_ ?]. }
  - intros tx Htx. apply list_elem_of_fmap in Htx as (pw & -> & Hf).
    apply list_elem_of_filter in Hf as [? ?]. exists pw. split_and!; done.
  - intros pw Hf. by apply list_elem_of_filter in Hf as [_ ?].
Qed.

Lemma inflight_range s : in_u 32 (inflight s).
Proof. apply as_u_range. lia. Qed.

Lemma detect_losses_keeps s :
  s_pending_writes (detect_losses s).2 = s_pending_writes s /\
  s_remote_acked (detect_losses s).2 = s_remote_acked s /\ 0 <= (detect_losses s).1.
Proof.
  unfold detect_losses. case_match; [|by cbn]. cbn. split_and!; [done..|]. apply as_u_range. lia.
Qed.

Lemma retransmit_keeps pick after now s :
  s_pending_writes (retransmit pick after now s).2 = s_pending_writes s /\
  s_remote_acked (retransmit pick after now s).2 = s_remote_acked s.
Proof. unfold retransmit. cbn. by case_match. Qed.

(** What the block does with an acknowledgement of [h_ack h] and ranges in [g]. *)
Record ack_result (h : Header) (g : Z -> Prop) (s : StreamInner) (completed : list nat)
    (again : list (list Z)) (s' : StreamInner) : Prop := {
  ar_evolves : evolves (h_ack h) g s s';
  ar_acked : 0 <= h_ack h < 2 ^ 31 -> 0 <= s_remote_acked s < 2 ^ 31 ->
    s_remote_acked s' = Z.max (s_remote_acked s) (h_ack h);
  ar_completed : forall tx, tx ∈ completed ->
    exists pw, pw ∈ s_pending_writes s /\ pw_tx pw = tx /\ pw_ack_threshold pw <= h_ack h;
  ar_pending : forall pw, pw ∈ s_pending_writes s' -> pw ∈ s_pending_writes s;
  ar_again : forall d, d ∈ again -> exists q p, s_outgoing s' !! q = Some p /\ sp_packet p = d;
  ar_settles : 0 < h_ack h -> seq_after (h_ack h) (s_remote_acked s) = true -> settles (h_ack h) s completed s'
}.

Lemma process_ack_spec h data clk g s :
  tuned s -> (forall ranges, packet_sacks h data = Some ranges -> sacks_ok g ranges) ->
  exists completed again s', process_ack h data clk s = Ok (completed, again, s') /\
    ack_result h g s completed again s'.
Proof.
  intros Ht Hg. unfold process_ack. set (s0 := set_send_rwnd (h_recv_window h) s).
  assert (evolves (h_ack h) g s s0) as H0 by (apply side_evolves, side_rwnd).
  assert (tuned s0) as Ht0 by (by apply H0).
  assert (exists completed rate s1,
    (if 0 <? h_ack h then on_cumulative_ack (h_ack h) (clk 0%nat) s0 else Ok ([], [], s0)) =
      Ok (completed, rate, s1) /\
    evolves (h_ack h) g s0 s1 /\
    (forall tx, tx ∈ completed -> exists pw, pw ∈ s_pending_writes s0 /\ pw_tx pw = tx /\ pw_ack_threshold pw <= h_ack h) /\
    (forall pw, pw ∈ s_pending_writes s1 -> pw ∈ s_pending_writes s0) /\
    (0 <= h_ack h < 2 ^ 31 -> 0 <= s_remote_acked s0 < 2 ^ 31 ->
     s_remote_acked s1 = Z.max (s_remote_acked s0) (h_ack h)) /\
    (0 < h_ack h -> seq_after (h_ack h) (s_remote_acked s0) = true -> settles (h_ack h) s0 completed s1))
    as (completed & rate & s1 & -> & H1 & Hc & Hp1 & Ha1 & Hse).
  { destruct (Z.ltb_spec 0 (h_ack h)).
    - destruct (cumulative_completes (h_ack h) (clk 0%nat) s0 Ht0) as (completed & rate & s1 & E & H1 & H2 & H3 & H4).
      pose proof (evolves_cumulative (h_ack h) (clk 0%nat) g s0 _ _ _ Ht0 E) as He.
      exists completed, rate, s1. split_and!; [done..| |done]. intros Hr1 Hr2. rewrite H3, seq_after_lt by done.
      destruct (Z.ltb_spec (s_remote_acked s0) (h_ack h)); lia.
    - exists [], [], s0. split_and!; auto; [by apply side_evolves|by intros ? ?%elem_of_nil|lia|lia]. }
  cbn [mbind outcome_bind].
  assert (exists rate' s2,
    match packet_sacks h data with
    | Some ranges => let '(info, s) := on_sack ranges s1 in (rate ++ info, s)
    | None => (rate, s1)
    end = (rate', s2) /\ evolves (h_ack h) g s1 s2 /\ s_pending_writes s2 = s_pending_writes s1 /\
    s_remote_acked s2 = s_remote_acked s1) as (rate' & s2 & -> & H2 & Hp2 & Ha2).
  { destruct (packet_sacks h data) as [ranges|] eqn:Es; [|exists rate, s1; split_and!; try done; by apply side_evolves].
    pose proof (evolves_sack (h_ack h) g ranges s1 (Hg ranges eq_refl)) as He.
    unfold on_sack in *. destruct (foldl sack_seq _ _) as [out info].
    eexists _, _. split; [done|]. done. }
  pose proof (evolves_detect (h_ack h) g s2) as H3. destruct (detect_losses_keeps s2) as (Hp3 & Ha3 & Hl).
  destruct (detect_losses s2) as [lost s3]. cbn [fst snd] in *.
  assert (evolves (h_ack h) g s s3) as Hs3 by eauto using evolves_trans.
  assert (exists s4,
    (if bool_decide (rate' <> []) || (0 <? lost)
     then cc ← on_ack rate' lost (inflight s3) (clk 1%nat) (s_congestion s3); Ok (set_congestion cc s3)
     else Ok s3) = Ok s4 /\ side s3 s4 /\ s_pending_writes s4 = s_pending_writes s3) as (s4 & -> & H4 & Hp4).
  { destruct (_ || _); [|by exists s3].
    destruct (on_ack_ok rate' lost (inflight s3) (clk 1%nat) (s_congestion s3)) as (cc & E & Hcc & _);
      [done|apply inflight_range|apply Hs3; done|]. rewrite E. cbn [mbind outcome_bind]. eexists. split; [done|].
    split; [|done]. eapply (side_cc (OpAck rate' lost (inflight s3) (clk 1%nat))); [|done|done].
    split; [done|apply inflight_range]. }
  cbn [mbind outcome_bind].
  pose proof (evolves_fast (h_ack h) g (clk 2%nat) s4) as H5.
  destruct (retransmit_keeps (fun p => sp_lost p && negb (sp_sacked p)) clear_lost (clk 2%nat) s4) as [Hp5 Ha5].
  pose proof (retransmit_sent (fun p => sp_lost p && negb (sp_sacked p)) clear_lost (clk 2%nat) s4) as Hr5.
  unfold fast_retransmit in *. destruct (retransmit _ clear_lost _ s4) as [again s5]. cbn [fst snd] in *.
  exists completed, again, s5. split; [done|]. split.
  - eapply evolves_trans; [exact Hs3|]. eapply evolves_trans; [by apply side_evolves|done].
  - rewrite Ha5, (si_acked _ _ H4), Ha3, Ha2. exact Ha1.
  - exact Hc.
  - intros pw Hpw. rewrite Hp5, Hp4, Hp3, Hp2 in Hpw. by apply Hp1 in Hpw.
  - intros d Hd. by apply Hr5.
  - intros Hpos Haft. destruct (Hse Hpos Haft) as [S1 S2 S3].
    split; [exact S1|intros pw Hpw; rewrite Hp5, Hp4, Hp3, Hp2 in Hpw; by apply S2|].
    assert (evolves (h_ack h) g s1 s5) as H15.
    { eapply evolves_trans; [exact H2|]. eapply evolves_trans; [exact H3|].
      eapply evolves_trans; [by apply side_evolves|done]. }
    intros q [p' Hq]. destruct (ev_out _ _ _ _ H15 q p' Hq) as (p & Hp & _). apply S3. by exists p.
Qed.
