(* ===== verification/UdxSystemProofs.v ===== *)
(** * UdxSystemProofs: the invariant of two streams

    Every step of [UdxSystem] keeps: the datagrams in flight carry what the
    writes of their sender put under their numbers; a receiver has read exactly
    the packets below its next expected number; an endpoint acknowledges only
    what has arrived; a write resolves only when the other side has read it. *)

From S2P Require Import Prelude RustStd Chunks UdxHeader RustFloat UdxCongestion UdxStream UdxSystem.
From S2P Require Import UdxCongestionTheorems UdxStreamProofs.

#[local] Open Scope Z_scope.

(** ** The writes of an endpoint *)

(** The writes reserve consecutive, non-empty ranges from [a] to [b]. *)
Fixpoint chain (a : Z) (ws : list WriteRec) (b : Z) : Prop :=
  match ws with
  | [] => a = b
  | w :: ws => w_first w = a /\ a < w_thr w /\ chain (w_thr w) ws b
  end.

Lemma chain_le a ws b : chain a ws b -> a <= b.
Proof. revert a. induction ws as [|w ws IH]; cbn; intros a H; [lia|]. destruct H as (_ & H & Hc). apply IH in Hc. lia. Qed.

Lemma chain_snoc a ws b w : chain a ws b -> w_first w = b -> b < w_thr w -> chain a (ws ++ [w]) (w_thr w).
Proof. revert a. induction ws as [|x ws IH]; cbn; intros a H Hf Ht; [by subst|]. destruct H as (-> & H & Hc). eauto. Qed.

Lemma chain_insert a ws b i w w' :
  chain a ws b -> ws !! i = Some w -> w_first w' = w_first w -> w_thr w' = w_thr w -> chain a (<[i := w']> ws) b.
Proof.
  revert a i. induction ws as [|x ws IH]; intros a [|i] H Hi Hf Ht; cbn in *; simplify_eq; try done.
  - destruct H as (<- & H & Hc). rewrite Ht. by split_and!.
  - destruct H as (<- & H & Hc). split_and!; eauto.
Qed.

Lemma chain_lookup a ws b i w : chain a ws b -> ws !! i = Some w -> a <= w_first w /\ w_first w < w_thr w /\ w_thr w <= b.
Proof.
  revert a i. induction ws as [|x ws IH]; intros a [|i] H Hi; cbn in *; simplify_eq.
  - destruct H as (<- & H & Hc). apply chain_le in Hc. lia.
  - destruct H as (<- & H & Hc). pose proof (IH (w_thr x) i Hc Hi). lia.
Qed.

Lemma chain_last a ws b i w : chain a ws b -> ws !! i = Some w -> S i = length ws -> w_thr w = b.
Proof.
  revert a i. induction ws as [|x ws IH]; intros a [|i] H Hi Hl; cbn in *; simplify_eq.
  - destruct ws; [|done]. by destruct H as (_ & _ & H).
  - destruct H as (_ & _ & H). by eapply IH.
Qed.

Lemma chain_end a ws b b' : chain a ws b -> chain a ws b' -> b = b'.
Proof. revert a. induction ws as [|w ws IH]; cbn; intros a; [congruence|]. intros (_ & _ & H) (_ & _ & H'). eauto. Qed.

Lemma log_range a ws b q x : chain a ws b -> log_at ws q = Some x -> a <= q < b.
Proof.
  revert a. induction ws as [|w ws IH]; cbn; intros a H Hq; [done|]. destruct H as (<- & H & Hc).
  destruct ((w_first w <=? q) && (q <? w_thr w)) eqn:E.
  - apply andb_true_iff in E as [E1%Z.leb_le E2%Z.ltb_lt]. apply chain_le in Hc. lia.
  - pose proof (IH (w_thr w) Hc Hq). lia.
Qed.

(** In a chain every number belongs to one write. *)
Lemma log_write a ws b i w q :
  chain a ws b -> ws !! i = Some w -> w_first w <= q < w_thr w ->
  log_at ws q = (pieces ← w_pieces w; piece ← pieces !! Z.to_nat (q - w_first w); Some (piece, w_flag w)).
Proof.
  revert a i. induction ws as [|x ws IH]; intros a [|i] H Hi Hq; cbn [lookup list_lookup] in *; simplify_eq.
  - cbn [log_at]. by rewrite (proj2 (Z.leb_le _ _)), (proj2 (Z.ltb_lt _ _)) by lia.
  - destruct H as (<- & H & Hc). cbn [log_at].
    pose proof (chain_lookup _ _ _ _ _ Hc Hi). rewrite (proj2 (Z.ltb_ge q (w_thr x))) by lia.
    rewrite andb_false_r. by eapply IH.
Qed.

Lemma log_snoc ws w : w_pieces w = None -> log_le (log_at ws) (log_at (ws ++ [w])).
Proof.
  intros Hw q x. induction ws as [|y ws IH]; cbn [log_at app]; [done|]. case_match; auto.
Qed.

Lemma log_insert ws i w ps :
  ws !! i = Some w -> w_pieces w = None -> log_le (log_at ws) (log_at (<[i := set_pieces ps w]> ws)).
Proof.
  revert i. induction ws as [|y ws IH]; intros [|i] Hi Hw q x; cbn [lookup list_lookup insert list_insert log_at] in *;
    simplify_eq.
  - cbn [w_first w_prep w_thr set_pieces]. change (w_first (set_pieces ps w)) with (w_first w).
    case_match; [by rewrite Hw|done].
  - case_match; [done|]. by apply IH.
Qed.

Lemma log_insert_out ws i w ps q :
  ws !! i = Some w -> ~ (w_first w <= q < w_thr w) -> log_at (<[i := set_pieces ps w]> ws) q = log_at ws q.
Proof.
  revert i. induction ws as [|y ws IH]; intros [|i] Hi Hq; cbn [lookup list_lookup insert list_insert log_at] in *;
    simplify_eq.
  - cbn [w_thr set_pieces]. change (w_first (set_pieces ps w)) with (w_first w).
    destruct ((w_first w <=? q) && (q <? w_thr w)) eqn:E; [|done].
    apply andb_true_iff in E as [E1%Z.leb_le E2%Z.ltb_lt]. lia.
  - case_match; [done|]. by apply IH.
Qed.

(** ** One endpoint *)

Definition write_ok (s : StreamInner) (w : WriteRec) : Prop :=
  0 <= wp_current_ack (w_prep w) <= s_next_remote_seq s /\ in_u 32 (wp_remote_id (w_prep w)) /\
  match w_pieces w with
  | Some ps => len ps <= w_thr w - w_first w /\ mjoin ps = w_data w
  | None => if w_end w then w_data w = []
            else len (pieces_of s (w_data w)) <= w_thr w - w_first w
  end.

(** What was received was acknowledged. *)
Definition acks_out (sent : list (list Z)) (n : Z) : Prop :=
  0 < n -> exists d h, d ∈ sent /\ Header_decode d = Ok h /\ h_ack h = n.

Lemma acks_out_app sent ds n : acks_out sent n -> acks_out (sent ++ ds) n.
Proof. intros H Hn. destruct (H Hn) as (d & h & Hd & ?). exists d, h. split; [|done]. apply elem_of_app. by left. Qed.

Record ep_ok (e : Endpoint) : Prop := {
  eo_conn : in_u 32 (cn_remote_id (s_conn (e_inner e))) /\ cn_relay_target (s_conn (e_inner e)) = false;
  eo_peer : cn_udp (s_conn (e_inner e)) = true /\ is_Some (cn_remote_addr (s_conn (e_inner e)));
  eo_gate : e_running e = true -> cn_connected (s_conn (e_inner e)) = true;
  eo_chain : chain 0 (e_writes e) (s_next_seq (e_inner e));
  eo_next : s_next_seq (e_inner e) < 2 ^ 31;
  eo_acked : 0 <= s_remote_acked (e_inner e);
  eo_writes : Forall (write_ok (e_inner e)) (e_writes e);
  eo_tuned : tuned (e_inner e);
  eo_out : forall q p, s_outgoing (e_inner e) !! q = Some p ->
    carries (log_at (e_writes e)) (s_next_remote_seq (e_inner e)) q (sp_packet p);
  eo_queue : forall x, x ∈ s_send_queue (e_inner e) ->
    carries_off (log_at (e_writes e)) (s_next_remote_seq (e_inner e)) 0 (qp_seq x) (qp_packet x);
  eo_sent : Forall (genuine (log_at (e_writes e))
                      (got (s_next_remote_seq (e_inner e)) (s_recv_buf (e_inner e)))
                      (s_next_remote_seq (e_inner e))) (e_sent e);
  eo_cover : forall q, is_Some (log_at (e_writes e) q) ->
    q < s_remote_acked (e_inner e) \/ is_Some (s_outgoing (e_inner e) !! q) \/
    (exists x, x ∈ s_send_queue (e_inner e) /\ qp_seq x = q);
  eo_ended : forall i w, e_writes e !! i = Some w -> w_end w = true ->
    cn_ended (s_conn (e_inner e)) = true /\ S i = length (e_writes e) /\ w_thr w = w_first w + 1 /\ w_data w = [];
  eo_acks : acks_out (e_sent e) (s_next_remote_seq (e_inner e))
}.

(** ** A sender and its receiver *)

Record link (a b : Endpoint) : Prop := {
  lk_rcv : rcv_ok (log_at (e_writes a)) (s_next_remote_seq (e_inner b)) (s_recv_buf (e_inner b));
  lk_read : e_read b = log_events (log_at (e_writes a)) (s_next_remote_seq (e_inner b));
  lk_acked : s_remote_acked (e_inner a) <= s_next_remote_seq (e_inner b);
  lk_pending : forall pw, pw ∈ s_pending_writes (e_inner a) ->
    exists w, w ∈ e_writes a /\ w_tx w = pw_tx pw /\ w_thr w = pw_ack_threshold pw;
  lk_done : forall tx, (tx, Ok tt) ∈ e_done a ->
    exists w, w ∈ e_writes a /\ w_tx w = tx /\ w_thr w <= s_next_remote_seq (e_inner b);
  lk_sacked : forall q p, s_outgoing (e_inner a) !! q = Some p -> sp_sacked p = true ->
    got (s_next_remote_seq (e_inner b)) (s_recv_buf (e_inner b)) q
}.

Definition sys_ok (s : Endpoint * Endpoint) : Prop :=
  ep_ok s.1 /\ ep_ok s.2 /\ link s.1 s.2 /\ link s.2 s.1.

(** ** Carrying packets through the operations *)

Lemma carries_strip log bound q d : carries log bound q d -> carries log bound q (strip_probe_padding d).
Proof.
  intros (off & Ho & f & id & ack & p & -> & H). exists 0. split; [lia|].
  exists f, id, ack, p. split; [apply strip_datagram; lia|done].
Qed.

Lemma evolves_carries acked S log bound s s' :
  evolves acked S s s' ->
  (forall q p, s_outgoing s !! q = Some p -> carries log bound q (sp_packet p)) ->
  forall q p, s_outgoing s' !! q = Some p -> carries log bound q (sp_packet p).
Proof.
  intros He Hs q p Hp. destruct (ev_out _ _ _ _ He q p Hp) as (p0 & H0 & [->| ->] & _); [by apply Hs|].
  by apply carries_strip, Hs.
Qed.

(** A larger MTU cuts into no more pieces. *)
Lemma pieces_mono s s' data :
  0 < max_payload s <= max_payload s' -> len (pieces_of s' data) <= len (pieces_of s data).
Proof.
  intros H. unfold pieces_of. destruct data as [|x data]; [lia|]. unfold len.
  rewrite !length_chunks by lia. rewrite !Z2Nat.id by lia.
  set (n := len (x :: data)). assert (1 <= n) by (unfold n; lens; pose proof (len_nonneg data); lia).
  apply Z.lt_succ_r, Z.div_lt_upper_bound; [lia|].
  pose proof (Z.div_mod (n + max_payload s - 1) (max_payload s) ltac:(lia)).
  pose proof (Z.mod_pos_bound (n + max_payload s - 1) (max_payload s) ltac:(lia)).
  set (k := (n + max_payload s - 1) / max_payload s) in *.
  assert (0 <= k) by (apply Z.div_pos; lia). nia.
Qed.

Lemma tuned_payload s : tuned s -> 0 < max_payload s.
Proof. intros [H _ _ _]. unfold max_payload, HEADER_SIZE, MTU_BASE in *. lia. Qed.

Lemma write_ok_mono s s' w :
  tuned s -> s_next_remote_seq s <= s_next_remote_seq s' -> mt_mtu (s_mtu s) <= mt_mtu (s_mtu s') ->
  write_ok s w -> write_ok s' w.
Proof.
  intros Ht Hn Hm (H1 & H2 & H3). split_and!; [lia|lia|done..|].
  destruct (w_pieces w); [done|]. destruct (w_end w); [done|].
  pose proof (tuned_payload s Ht). pose proof (pieces_mono s s' (w_data w)).
  unfold max_payload in *. lia.
Qed.

(** The acknowledgement side: new state, more datagrams of the right kind. *)
Lemma ep_ok_evolves acked S e e' ds :
  ep_ok e -> evolves acked S (e_inner e) (e_inner e') ->
  (s_remote_acked (e_inner e) <= s_remote_acked (e_inner e')) ->
  (acked <= s_remote_acked (e_inner e')) ->
  e_writes e' = e_writes e -> e_sent e' = e_sent e ++ ds ->
  (e_running e' = true -> e_running e = true) ->
  Forall (genuine (log_at (e_writes e)) (got (s_next_remote_seq (e_inner e)) (s_recv_buf (e_inner e)))
            (s_next_remote_seq (e_inner e))) ds ->
  ep_ok e'.
Proof.
  intros [] He Ha1 Ha2 Hw Hs Hr Hds. pose proof He as [].
  split; rewrite ?Hw, ?Hs, ?ev_conn, ?ev_next_seq, ?ev_next_remote, ?ev_buf, ?ev_queue;
    auto using acks_out_app; [lia| | | |].
  - eapply Forall_impl; [exact eo_writes0|]. intros w. apply write_ok_mono; [done|lia|done].
  - by eapply evolves_carries.
  - by apply Forall_app.
  - intros q Hq. destruct (eo_cover0 q Hq) as [H|[H|H]]; [left; lia| |by right; right].
    destruct (ev_keep q H); [left; lia|by right; left].
Qed.

(** ** What a genuine datagram says *)

Record reading (log : Z -> option (list Z * Z)) (g : Z -> Prop) (bound : Z) (d : list Z) (h : Header) : Prop := {
  rd_decode : Header_decode d = Ok h;
  rd_ack : 0 <= h_ack h <= bound;
  rd_sacks : forall ranges, packet_sacks h d = Some ranges -> sacks_ok g ranges;
  rd_data : Header_has_flag h FLAG_DATA || Header_has_flag h FLAG_END = true ->
    Header_payload_offset h <= len d /\
    log (h_seq h) = Some (drop (Z.to_nat (Header_payload_offset h)) d,
                          Z.lor (if Header_has_flag h FLAG_DATA then FLAG_DATA else 0)
                                (if Header_has_flag h FLAG_END then FLAG_END else 0));
  rd_destroy : Header_has_flag h FLAG_DESTROY = false
}.

Lemma genuine_reading log g bound d :
  bound < 2 ^ 32 -> (forall q x, log q = Some x -> in_u 32 q) ->
  genuine log g bound d -> exists h, reading log g bound d h.
Proof.
  intros Hb Hl [(seq & off & Ho & f & id & ack & p & -> & Hf & Hi & Ha & Hp)
               |(f & rs & id & ack & Hf & -> & Hi & Ha & Hr)].
  - exists (mkHeader f off id DEFAULT_RWND seq ack). split; cbn [h_ack h_seq].
    + apply datagram_decode; [|unfold is_byte; lia|done|by eapply Hl|unfold in_u; lia].
      unfold is_byte. destruct Hf as [->| ->]; by cbv.
    + done.
    + intros ranges. unfold packet_sacks. destruct Hf as [->| ->]; by cbn.
    + intros _. unfold Header_payload_offset, HEADER_SIZE. cbn [h_data_offset]. rewrite datagram_len by lia.
      split; [pose proof (len_nonneg p); lia|]. pose proof (datagram_payload f off id seq ack p ltac:(lia)) as Hd.
      unfold HEADER_SIZE in Hd. rewrite Hd, Hp. destruct Hf as [->| ->]; done.
    + destruct Hf as [->| ->]; done.
  - exists (mkHeader f (as_u8 (len rs * 8)) id DEFAULT_RWND 0 ack). split; cbn [h_ack h_seq].
    + apply decode_wire. split; cbn [h_type_flags h_data_offset h_remote_id h_recv_window h_seq h_ack];
      [|apply (as_u_range 8); lia|done|by cbv|by cbv|unfold in_u; lia].
      unfold is_byte. destruct Hf as [->|[_ [->| ->]]]; by cbv.
    + done.
    + intros ranges. by apply control_sacks.
    + destruct Hf as [->|[_ [->| ->]]]; by cbn.
    + destruct Hf as [->|[_ [->| ->]]]; by cbn.
Qed.

(** ** Links *)

Lemma link_sender a a' b :
  link a b ->
  (forall q p', s_outgoing (e_inner a') !! q = Some p' -> sp_sacked p' = true ->
     (exists p, s_outgoing (e_inner a) !! q = Some p /\ sp_sacked p = true) \/
     got (s_next_remote_seq (e_inner b)) (s_recv_buf (e_inner b)) q) ->
  e_writes a' = e_writes a -> s_remote_acked (e_inner a') <= s_next_remote_seq (e_inner b) ->
  (forall pw, pw ∈ s_pending_writes (e_inner a') -> pw ∈ s_pending_writes (e_inner a)) ->
  (forall tx, (tx, Ok tt) ∈ e_done a' -> (tx, Ok tt) ∈ e_done a \/
     exists pw, pw ∈ s_pending_writes (e_inner a) /\ pw_tx pw = tx /\
       pw_ack_threshold pw <= s_next_remote_seq (e_inner b)) ->
  link a' b.
Proof.
  intros [] He Hw Ha Hp Hd. split; rewrite ?Hw; auto.
  - intros tx Ht. destruct (Hd tx Ht) as [H|(pw & H1 & H2 & H3)]; [auto|].
    destruct (lk_pending0 pw H1) as (w & ? & ? & ?). exists w. split_and!; [done|congruence|lia].
  - intros q p Hq Hs. destruct (He q p Hq Hs) as [(p0 & H0 & H1)|]; eauto.
Qed.

Lemma evolves_sacked acked (S : Z -> Prop) s s' :
  evolves acked S s s' ->
  forall q p', s_outgoing s' !! q = Some p' -> sp_sacked p' = true ->
    (exists p, s_outgoing s !! q = Some p /\ sp_sacked p = true) \/ S q.
Proof.
  intros He q p' Hq Hs. destruct (ev_out _ _ _ _ He q p' Hq) as (p & Hp & _ & H). destruct (H Hs); eauto.
Qed.

Lemma link_receiver b a a' :
  link b a -> rcv_ok (log_at (e_writes b)) (s_next_remote_seq (e_inner a')) (s_recv_buf (e_inner a')) ->
  e_read a' = log_events (log_at (e_writes b)) (s_next_remote_seq (e_inner a')) ->
  s_next_remote_seq (e_inner a) <= s_next_remote_seq (e_inner a') ->
  (forall q, got (s_next_remote_seq (e_inner a)) (s_recv_buf (e_inner a)) q ->
     got (s_next_remote_seq (e_inner a')) (s_recv_buf (e_inner a')) q) ->
  link b a'.
Proof.
  intros [] Hr He Hn Hg. split; auto; [lia| |eauto].
  intros tx Ht. destruct (lk_done0 tx Ht) as (w & ? & ? & ?). exists w. split_and!; [done..|lia].
Qed.

Lemma link_receiver_same b a a' :
  link b a -> s_next_remote_seq (e_inner a') = s_next_remote_seq (e_inner a) ->
  s_recv_buf (e_inner a') = s_recv_buf (e_inner a) -> e_read a' = e_read a -> link b a'.
Proof.
  intros Hl Hn Hb Hr. apply (link_receiver b a); [done|..]; rewrite ?Hn, ?Hb, ?Hr; auto; try apply Hl; lia.
Qed.

(** ** Effects *)

Lemma datagrams_app x y : datagrams (x ++ y) = datagrams x ++ datagrams y.
Proof. apply omap_app. Qed.
Lemma delivered_app x y : delivered (x ++ y) = delivered x ++ delivered y.
Proof. apply omap_app. Qed.
Lemma resolved_app x y : resolved (x ++ y) = resolved x ++ resolved y.
Proof. apply omap_app. Qed.

Lemma perform_perform x y p p' r r' ws ws' e :
  perform y p' r' ws' (perform x p r ws e) = perform (x ++ y) p' r' ws' e.
Proof. unfold perform. cbn. by rewrite datagrams_app, delivered_app, resolved_app, !app_assoc. Qed.

Lemma send_all_effects ps s :
  (forall d, d ∈ datagrams (send_all ps s) -> d ∈ ps) /\ delivered (send_all ps s) = [] /\ resolved (send_all ps s) = [].
Proof.
  unfold send_all. case_match; [case_match|]; try (split_and!; [by intros ? ?%elem_of_nil|done|done]).
  split_and!.
  - intros d Hd. unfold datagrams in Hd. apply list_elem_of_omap in Hd as (e & He & Hd).
    apply list_elem_of_fmap in He as (x & -> & Hx). by simplify_eq.
  - induction ps; [done|]. by cbn.
  - induction ps; [done|]. by cbn.
Qed.

Lemma send_all_nil s : send_all [] s = [].
Proof. unfold send_all. by repeat case_match. Qed.

Lemma complete_effects (l : list nat) (r : outcome UdxError unit) :
  let effs := (fun tx => Complete tx r) <$> l in
  datagrams effs = [] /\ delivered effs = [] /\ resolved effs = (fun tx => (tx, r)) <$> l.
Proof.
  intros effs. unfold effs, datagrams, delivered, resolved. clear effs.
  split_and!; induction l as [|x l IH]; try done; cbn in *; by rewrite IH.
Qed.

(** Writes that resolve with an error. *)
Lemma failed_effects (l : list PendingWrite) (e : UdxError) :
  let effs := (fun pw => Complete (pw_tx pw) (Err e)) <$> l in
  datagrams effs = [] /\ delivered effs = [] /\ forall tx, (tx, Ok tt) ∉ resolved effs.
Proof.
  intros effs. unfold effs, datagrams, delivered, resolved. clear effs. split_and!.
  - induction l as [|x l IH]; [done|]. cbn in *. by rewrite IH.
  - induction l as [|x l IH]; [done|]. cbn in *. by rewrite IH.
  - intros tx. induction l as [|x l IH]; cbn; [by intros ?%elem_of_nil|].
    intros Ht. by apply elem_of_cons in Ht as [|Ht].
Qed.

Lemma deliver_effects (l : list StreamEvent) :
  datagrams (Deliver <$> l) = [] /\ delivered (Deliver <$> l) = l /\ resolved (Deliver <$> l) = [].
Proof.
  unfold datagrams, delivered, resolved.
  split_and!; induction l as [|x l IH]; try done; cbn in *; by rewrite IH.
Qed.

(** ** A datagram arrives *)

Lemma next_le a b : ep_ok a -> link a b -> 0 <= s_next_remote_seq (e_inner b) <= s_next_seq (e_inner a).
Proof.
  intros Ha [[Hn Hb _] _ _ _ _ _]. split; [lia|].
  destruct (decide (s_next_remote_seq (e_inner b) <= 0)).
  { pose proof (chain_le _ _ _ (eo_chain _ Ha)). lia. }
  destruct (Hb (s_next_remote_seq (e_inner b) - 1)) as [x Hx]; [lia|].
  pose proof (log_range _ _ _ _ _ (eo_chain _ Ha) Hx). lia.
Qed.

(** The acknowledgement [ack] completed every write it covers. *)
Record settled (ack : Z) (s : StreamInner) (effs : list Effect) (s' : StreamInner) : Prop := {
  sd_done : forall pw, pw ∈ s_pending_writes s -> pw_ack_threshold pw <= ack -> (pw_tx pw, Ok tt) ∈ resolved effs;
  sd_pending : forall pw, pw ∈ s_pending_writes s' -> ack < pw_ack_threshold pw;
  sd_out : forall q, is_Some (s_outgoing s' !! q) -> ack <= q
}.

Lemma ack_block_ok a b d h clk :
  sys_ok (a, b) -> e_running a = true ->
  reading (log_at (e_writes b)) (got (s_next_remote_seq (e_inner b)) (s_recv_buf (e_inner b)))
    (s_next_remote_seq (e_inner b)) d h ->
  exists effs p', ack_block h d clk (e_proc a) = Ok (effs, p') /\
    sys_ok (perform effs p' true (e_writes a) a, b) /\
    s_next_remote_seq (pr_inner p') = s_next_remote_seq (e_inner a) /\
    s_recv_buf (pr_inner p') = s_recv_buf (e_inner a) /\
    (s_remote_acked (e_inner a) < h_ack h -> settled (h_ack h) (e_inner a) effs (pr_inner p')).
Proof.
  intros (Ha & Hb & Hab & Hba) Hrun Hrd. cbn [fst snd] in *.
  pose proof (next_le a b Ha Hab) as Hn. pose proof (eo_next _ Ha) as Hn'.
  pose proof (rd_ack _ _ _ _ _ Hrd) as Hack. pose proof (eo_acked _ Ha) as Hra.
  pose proof (lk_acked _ _ Hab) as Hla.
  assert (exists effs p' completed again,
    ack_block h d clk (e_proc a) = Ok (effs, p') /\
    effs = ((fun tx => Complete tx (Ok tt)) <$> completed) ++ send_all again (pr_inner p') /\
    ack_result h (got (s_next_remote_seq (e_inner b)) (s_recv_buf (e_inner b))) (e_inner a) completed again (pr_inner p'))
    as (effs & p' & completed & again & E & -> & [He Hacked Hcomp Hpend Hagain Hset]).
  { unfold ack_block. change (pr_inner (e_proc a)) with (e_inner a). destruct (_ || _) eqn:Eb.
    - destruct (process_ack_spec h d clk (got (s_next_remote_seq (e_inner b)) (s_recv_buf (e_inner b))) (e_inner a))
        as (completed & again & s' & -> & Hr); [apply Ha|apply Hrd|].
      cbn [mbind outcome_bind]. eexists _, _, completed, again. split; [done|].
      match goal with |- context [pr_inner ?x] => assert (pr_inner x = s') as -> by (by repeat case_match) end.
      done.
    - apply orb_false_iff in Eb as [Eb _]. apply Z.ltb_ge in Eb.
      eexists _, _, [], []. split; [done|]. split; [by rewrite send_all_nil|]. cbn [pr_inner set_inner].
      split; [apply side_evolves, side_rwnd| |by intros ? ?%elem_of_nil|done|by intros ? ?%elem_of_nil|].
      + intros _ _. cbn. lia.
      + lia. }
  specialize (Hacked ltac:(lia) ltac:(lia)).
  eexists _, p'. split; [exact E|].
  destruct (complete_effects completed (Ok tt)) as (Hd1 & Hv1 & Hr1).
  destruct (send_all_effects again (pr_inner p')) as (Hd2 & Hv2 & Hr2).
  split; [|split; [apply He|split; [apply He|]]].
  2: { intros Hlt. destruct Hset as [S1 S2 S3]; [lia|rewrite seq_after_lt by lia; by apply Z.ltb_lt|].
    split; [|done|done]. intros pw Hin Hle. rewrite resolved_app, Hr1. apply elem_of_app. left.
    apply list_elem_of_fmap. eauto. }
  split_and!; cbn [fst snd]; [|done| |].
  - eapply (ep_ok_evolves (h_ack h) _ a); [done|exact He| | |done| | |]; cbn.
    + unfold e_inner in *. cbn. lia.
    + unfold e_inner in *. cbn. lia.
    + rewrite datagrams_app, Hd1. done.
    + done.
    + apply Forall_forall. intros x Hx. apply Hd2, Hagain in Hx as (q & p & Hq & <-).
      left. exists q. eapply evolves_carries; [exact He|apply (eo_out _ Ha)|done].
  - eapply (link_sender a); [done|exact (evolves_sacked _ _ _ _ He)|done| |done|].
    + unfold e_inner in *. cbn. lia.
    + intros tx Ht. cbn in Ht. apply elem_of_app in Ht as [Ht|Ht]; [by left|right].
      rewrite resolved_app, Hr1, Hr2, app_nil_r in Ht.
      apply list_elem_of_fmap in Ht as (x & ? & Hx). simplify_eq.
      destruct (Hcomp _ Hx) as (pw & ? & ? & ?). exists pw. split_and!; [done..|lia].
  - eapply (link_receiver_same b a); [done|apply He|apply He|]. cbn.
    by rewrite delivered_app, Hv1, Hv2, app_nil_r.
Qed.

Lemma perform_nil e : perform [] (set_inner (e_inner e) (e_proc e)) (e_running e) (e_writes e) e = e.
Proof. unfold perform. rewrite !app_nil_r. by destruct e as [[] ? ? ? ? ?]. Qed.

Lemma ep_ok_received n' buf' e e' ds :
  ep_ok e -> e_inner e' = set_received n' buf' (e_inner e) ->
  s_next_remote_seq (e_inner e) <= n' ->
  (forall q, got (s_next_remote_seq (e_inner e)) (s_recv_buf (e_inner e)) q -> got n' buf' q) ->
  e_writes e' = e_writes e -> e_running e' = e_running e -> e_sent e' = e_sent e ++ ds ->
  Forall (genuine (log_at (e_writes e)) (got n' buf') n') ds -> acks_out (e_sent e') n' -> ep_ok e'.
Proof.
  intros [] Hi Hn Hg Hw Hr Hs Hds Hacks. rewrite Hs in Hacks. split; rewrite ?Hi, ?Hw, ?Hs, ?Hr; cbn; auto.
  - eapply Forall_impl; [exact eo_writes0|]. intros w. apply write_ok_mono; [done|done|]. cbn. lia.
  - by destruct eo_tuned0.
  - intros q p Hq. eapply carries_mono; [reflexivity|exact Hn|by apply eo_out0].
  - intros x Hx. eapply carries_off_mono; [reflexivity|exact Hn|by apply eo_queue0].
  - apply Forall_app. split; [|done]. eapply Forall_impl; [exact eo_sent0|].
    intros d. by apply (genuine_mono (log_at (e_writes e)) _ _ _ _ _ d).
Qed.

Lemma send_ack_ok (g : Z -> Prop) rs s :
  in_u 32 (cn_remote_id (s_conn s)) -> 0 <= s_next_remote_seq s < 2 ^ 32 -> sacks_ok g rs ->
  cn_udp (s_conn s) = true -> is_Some (cn_remote_addr (s_conn s)) ->
  exists effs, send_ack rs s = Ok effs /\ delivered effs = [] /\ resolved effs = [] /\
    Forall (control g (s_next_remote_seq s)) (datagrams effs) /\
    acks_out (datagrams effs) (s_next_remote_seq s).
Proof.
  intros Hi Hn Hr Hu [addr Hda]. unfold send_ack. rewrite Hu, Hda.
  destruct (ack_packet_bytes_ok g (cn_remote_id (s_conn s)) (s_next_remote_seq s) rs Hi ltac:(lia) Hr) as (d & -> & Hd & h & Hh & Ha);
    [lia|].
  eexists. split; [done|]. cbn. split_and!; [done|done|by repeat constructor|].
  intros _. exists d, h. split; [by left|done].
Qed.

Lemma data_block_ok a b d h :
  sys_ok (a, b) ->
  reading (log_at (e_writes b)) (got (s_next_remote_seq (e_inner b)) (s_recv_buf (e_inner b)))
    (s_next_remote_seq (e_inner b)) d h ->
  exists effs s', data_block h d (e_inner a) = Ok (effs, s') /\
    sys_ok (perform effs (set_inner s' (e_proc a)) (e_running a) (e_writes a) a, b) /\
    s' = set_received (s_next_remote_seq s') (s_recv_buf s') (e_inner a) /\
    (forall q, got (s_next_remote_seq (e_inner a)) (s_recv_buf (e_inner a)) q \/
       Header_has_flag h FLAG_DATA || Header_has_flag h FLAG_END = true /\ q = h_seq h ->
     got (s_next_remote_seq s') (s_recv_buf s') q).
Proof.
  intros (Ha & Hb & Hab & Hba) Hrd. cbn [fst snd] in *. unfold data_block.
  pose proof (rd_data _ _ _ _ _ Hrd) as Hdata. destruct (_ || _) eqn:Ef.
  2: { eexists _, _. split; [done|]. rewrite perform_nil. split_and!; [done..|by destruct (e_inner a)|].
       intros q [?|[? _]]; done. }
  destruct (Hdata eq_refl) as [Hlen Hlog]. rewrite (proj2 (Z.leb_le _ _)) by done.
  pose proof (log_range _ _ _ _ _ (eo_chain _ Hb) Hlog) as Hseq. pose proof (eo_next _ Hb).
  pose proof (receive_data_spec _ (h_seq h) _ _ (e_inner a) (lk_rcv _ _ Hba) ltac:(lia) Hlog) as Hrcv.
  destruct (receive_data _ _ _ (e_inner a)) as [evs s']. destruct Hrcv as (Hs' & Hok & Hev & Hn & Hg).
  destruct (send_ack_ok (fun q => is_Some (s_recv_buf s' !! q)) (sack_ranges s') s') as (acks & -> & Hv & Hr & Hc & Hacks).
  - rewrite Hs'. cbn. apply Ha.
  - apply Hok.
  - apply sack_ranges_ok. intros q [r Hq]. pose proof (ro_range _ _ _ Hok). destruct (ro_buf _ _ _ Hok q r Hq). lia.
  - rewrite Hs'. cbn. apply Ha.
  - rewrite Hs'. cbn. apply Ha.
  - cbn [mbind outcome_bind]. eexists _, s'. split; [done|]. destruct (deliver_effects evs) as (Hd1 & Hv1 & Hr1).
    split; [|split; [done|intros q [?|[_ ->]]; auto]].
    split_and!; cbn [fst snd]; [|done| |].
    + eapply (ep_ok_received (s_next_remote_seq s') (s_recv_buf s') a); [done|exact Hs'|done|auto|done|done| | |].
      * cbn. by rewrite datagrams_app, Hd1.
      * eapply Forall_impl; [exact Hc|]. intros x (f & rs & id & ack & H1 & H2 & H3 & H4 & H5).
        right. exists f, rs, id, ack. split_and!; try done; try lia.
        eapply sacks_ok_mono; [|exact H5]. intros q Hq. by right.
      * cbn. rewrite datagrams_app. intros Hpos. destruct (Hacks Hpos) as (d' & h' & Hd' & Hh'). exists d', h'.
        split; [|done]. apply elem_of_app. right. apply elem_of_app. by right.
    + eapply (link_sender a); [done| |done| | |].
      * unfold e_inner. cbn. rewrite Hs'. cbn. intros q p Hq Hs. left. by exists p.
      * unfold e_inner. cbn. rewrite Hs'. apply Hab.
      * unfold e_inner. cbn. by rewrite Hs'.
      * cbn. rewrite resolved_app, Hr1, Hr, app_nil_r. auto.
    + eapply (link_receiver b a); [done|done| |done|auto]. cbn.
      rewrite delivered_app, Hv1, Hv, app_nil_r, (lk_read _ _ Hba). done.
Qed.

Lemma control_block_ok a b d h :
  sys_ok (a, b) ->
  reading (log_at (e_writes b)) (got (s_next_remote_seq (e_inner b)) (s_recv_buf (e_inner b)))
    (s_next_remote_seq (e_inner b)) d h ->
  exists effs, control_block h (e_inner a) = Ok (Next, effs, e_inner a) /\
    sys_ok (perform effs (set_inner (e_inner a) (e_proc a)) (e_running a) (e_writes a) a, b).
Proof.
  intros Hs Hrd. unfold control_block. rewrite (rd_destroy _ _ _ _ _ Hrd).
  case_match; [|exists []; split; [done|by rewrite perform_nil]].
  destruct Hs as (Ha & Hb & Hab & Hba). cbn [fst snd] in *.
  destruct (send_ack_ok (got (s_next_remote_seq (e_inner a)) (s_recv_buf (e_inner a))) [] (e_inner a))
    as (acks & -> & Hv & Hr & Hc & Hacks); [apply Ha|apply (lk_rcv _ _ Hba)|by constructor|apply Ha|apply Ha|].
  exists acks. split; [done|]. split_and!; cbn [fst snd]; [|done| |].
  - eapply (ep_ok_received (s_next_remote_seq (e_inner a)) (s_recv_buf (e_inner a)) a); try done.
    + cbn. by destruct (e_inner a).
    + eapply Forall_impl; [exact Hc|]. by right.
    + apply acks_out_app, Ha.
  - eapply (link_sender a); [done|by eauto|done|apply Hab|done|].
    cbn. rewrite Hr, app_nil_r. auto.
  - eapply (link_receiver_same b a); try done. cbn. by rewrite Hv, app_nil_r.
Qed.

Lemma sent_reading a b d :
  sys_ok (a, b) -> d ∈ e_sent b ->
  exists h, reading (log_at (e_writes b)) (got (s_next_remote_seq (e_inner b)) (s_recv_buf (e_inner b)))
    (s_next_remote_seq (e_inner b)) d h.
Proof.
  intros (Ha & Hb & Hab & Hba) Hd. cbn [fst snd] in *. apply genuine_reading.
  - pose proof (next_le a b Ha Hab). pose proof (eo_next _ Ha). lia.
  - intros q x Hq. pose proof (log_range _ _ _ _ _ (eo_chain _ Hb) Hq). pose proof (eo_next _ Hb). unfold in_u. lia.
  - pose proof (eo_sent _ Hb) as H. rewrite Forall_forall in H. by apply H.
Qed.

(** What the arrival of a datagram with header [h] does to [a]. *)
Record arrival (h : Header) (a a' : Endpoint) : Prop := {
  av_running : e_running a' = true;
  av_writes : e_writes a' = e_writes a;
  av_got : forall q, got (s_next_remote_seq (e_inner a)) (s_recv_buf (e_inner a)) q \/
      Header_has_flag h FLAG_DATA || Header_has_flag h FLAG_END = true /\ q = h_seq h ->
    got (s_next_remote_seq (e_inner a')) (s_recv_buf (e_inner a')) q;
  av_done : s_remote_acked (e_inner a) < h_ack h ->
    (forall pw, pw ∈ s_pending_writes (e_inner a) -> pw_ack_threshold pw <= h_ack h -> (pw_tx pw, Ok tt) ∈ e_done a') /\
    (forall pw, pw ∈ s_pending_writes (e_inner a') -> h_ack h < pw_ack_threshold pw) /\
    (forall q, is_Some (s_outgoing (e_inner a') !! q) -> h_ack h <= q)
}.

Lemma on_packet_arrives a b addr d h hook_ok target clk :
  sys_ok (a, b) -> e_running a = true -> d ∈ e_sent b -> Header_decode d = Ok h ->
  exists r, on_packet addr d hook_ok target clk (e_proc a) = Ok r /\ sys_ok (finish_turn r a, b) /\
    arrival h a (finish_turn r a).
Proof.
  intros Hs Hrun Hd Hh. pose proof Hs as (Ha & Hb & Hab & Hba). cbn [fst snd] in *.
  destruct (sent_reading a b d Hs Hd) as [h' Hrd].
  assert (h' = h) as -> by (pose proof (rd_decode _ _ _ _ _ Hrd); congruence).
  unfold on_packet. rewrite Hh. unfold firewall_gate. change (pr_inner (e_proc a)) with (e_inner a).
  rewrite (eo_gate _ Ha Hrun), (proj2 (eo_conn _ Ha)).
  assert (set_inner (e_inner a) (e_proc a) = e_proc a) as -> by (unfold e_inner; by destruct (e_proc a)).
  destruct (ack_block_ok a b d h clk Hs Hrun Hrd) as (effs1 & p1 & -> & H1 & Hn1 & Hb1 & Hset).
  cbn [mbind outcome_bind]. set (a1 := perform effs1 p1 true (e_writes a) a) in *.
  destruct (data_block_ok a1 b d h H1 Hrd) as (effs2 & s2 & E2 & H2 & Hs2 & Hg).
  change (e_inner a1) with (pr_inner p1) in E2, Hs2, Hg. rewrite E2. cbn [mbind outcome_bind].
  match type of H2 with sys_ok (?x, _) => set (a2 := x) in * end.
  destruct (control_block_ok a2 b d h H2 Hrd) as (effs3 & E3 & H3).
  change (e_inner a2) with s2 in E3, H3. rewrite E3. cbn [mbind outcome_bind].
  eexists. split; [done|]. unfold finish_turn. split.
  - match type of H3 with sys_ok (?x, _) => replace (perform _ _ _ _ a) with x; [done|] end.
    unfold a2, a1. by rewrite !perform_perform.
  - split; [done|done| |].
    + change (e_inner (perform _ _ _ _ a)) with s2. by rewrite <- Hn1, <- Hb1.
    + change (e_inner (perform _ _ _ _ a)) with s2. intros Hlt. destruct (Hset Hlt) as [D1 D2 D3].
      rewrite Hs2. cbn [s_pending_writes s_outgoing set_received]. split_and!; [|done|done].
      intros pw Hin Hle. cbn [e_done perform]. apply elem_of_app. right.
      cbn [app]. rewrite resolved_app. apply elem_of_app. left. by apply D1.
Qed.

Lemma on_packet_ok a b addr d hook_ok target clk :
  sys_ok (a, b) -> e_running a = true -> d ∈ e_sent b ->
  exists r, on_packet addr d hook_ok target clk (e_proc a) = Ok r /\ sys_ok (finish_turn r a, b).
Proof.
  intros Hs Hrun Hd. destruct (sent_reading a b d Hs Hd) as [h Hrd].
  destruct (on_packet_arrives a b addr d h hook_ok target clk) as (r & ? & ? & _); eauto. apply Hrd.
Qed.

(** ** Turns that send *)

(** A turn of [a] that sends genuine datagrams, resolves no write with success
    and delivers nothing. *)
Lemma sys_ok_sends acked a b effs p' :
  sys_ok (a, b) ->
  evolves acked (got (s_next_remote_seq (e_inner b)) (s_recv_buf (e_inner b))) (e_inner a) (pr_inner p') ->
  s_remote_acked (pr_inner p') = s_remote_acked (e_inner a) -> acked <= s_remote_acked (e_inner a) ->
  (forall pw, pw ∈ s_pending_writes (pr_inner p') -> pw ∈ s_pending_writes (e_inner a)) ->
  delivered effs = [] -> (forall tx, (tx, Ok tt) ∉ resolved effs) ->
  Forall (genuine (log_at (e_writes a)) (got (s_next_remote_seq (e_inner a)) (s_recv_buf (e_inner a)))
            (s_next_remote_seq (e_inner a))) (datagrams effs) ->
  sys_ok (perform effs p' (e_running a) (e_writes a) a, b).
Proof.
  intros (Ha & Hb & Hab & Hba) He Hra Hack Hp Hd Hr Hg. cbn [fst snd] in *.
  split_and!; cbn [fst snd]; [|done| |].
  - eapply (ep_ok_evolves acked _ a); [done|exact He| | |done|done|done|done]; unfold e_inner in *; cbn; lia.
  - eapply (link_sender a); [done|exact (evolves_sacked _ _ _ _ He)|done| |done|].
    + unfold e_inner in *. cbn. rewrite Hra. apply Hab.
    + intros tx Ht. cbn in Ht. apply elem_of_app in Ht as [Ht|Ht]; [by left|by destruct (Hr tx)].
  - eapply (link_receiver_same b a); [done|apply He|apply He|]. cbn. by rewrite Hd, app_nil_r.
Qed.

(** The stream of [a] is closed. *)
Lemma sys_ok_terminate a b :
  sys_ok (a, b) ->
  sys_ok (perform (terminate (e_inner a)).1 (set_inner (terminate (e_inner a)).2 (e_proc a)) false (e_writes a) a, b).
Proof.
  intros (Ha & Hb & Hab & Hba). cbn [fst snd] in *.
  assert (datagrams (terminate (e_inner a)).1 = [] /\ delivered (terminate (e_inner a)).1 = [] /\
    forall tx, (tx, Ok tt) ∉ resolved (terminate (e_inner a)).1) as (Hd & Hv & Hr) by apply failed_effects.
  split_and!; cbn [fst snd]; [|done| |].
  - destruct Ha. unfold perform. rewrite Hd, app_nil_r. by destruct eo_conn0, eo_tuned0; split.
  - eapply (link_sender a); [done| |done| | |].
    + cbn. intros q p Hq Hs. left. by exists p.
    + cbn. apply Hab.
    + cbn. by intros ? ?%elem_of_nil.
    + cbn. intros tx Ht. apply elem_of_app in Ht as [Ht|Ht]; [by left|by destruct (Hr tx)].
  - eapply (link_receiver_same b a); try done. cbn [e_read perform]. by rewrite Hv, app_nil_r.
Qed.

(** ** The sending loop *)

(** From [s] to [s'] packets of the queue went out as the datagrams [new]. *)
Record pushes (log : Z -> option (list Z * Z)) (bound : Z) (s s' : StreamInner) (new : list (list Z)) : Prop := {
  pu_conn : s_conn s' = s_conn s;
  pu_next_seq : s_next_seq s' = s_next_seq s;
  pu_next_remote : s_next_remote_seq s' = s_next_remote_seq s;
  pu_buf : s_recv_buf s' = s_recv_buf s;
  pu_acked : s_remote_acked s' = s_remote_acked s;
  pu_pending : s_pending_writes s' = s_pending_writes s;
  pu_mtu : mt_mtu (s_mtu s') = mt_mtu (s_mtu s);
  pu_tuned : tuned s -> tuned s';
  pu_out : forall q p', s_outgoing s' !! q = Some p' ->
    s_outgoing s !! q = Some p' \/ carries log bound q (sp_packet p') /\ sp_sacked p' = false;
  pu_keep : forall q, is_Some (s_outgoing s !! q) -> is_Some (s_outgoing s' !! q);
  pu_queue : forall x, x ∈ s_send_queue s' -> x ∈ s_send_queue s;
  pu_cover : forall x, x ∈ s_send_queue s -> x ∈ s_send_queue s' \/ is_Some (s_outgoing s' !! qp_seq x);
  pu_new : Forall (fun d => exists q, carries log bound q d) new
}.

Lemma pushes_refl log bound s : pushes log bound s s [].
Proof. split; auto. Qed.

Lemma pushes_trans log bound s1 s2 s3 n1 n2 :
  pushes log bound s1 s2 n1 -> pushes log bound s2 s3 n2 -> pushes log bound s1 s3 (n1 ++ n2).
Proof.
  intros [] []. split; try congruence; auto.
  - intros q p' H. destruct (pu_out1 q p' H) as [H'|]; auto.
  - intros x Hx. destruct (pu_cover0 x Hx) as [H|H]; auto.
  - by apply Forall_app.
Qed.

Lemma side_pushes log bound s s' :
  side s s' -> mt_mtu (s_mtu s') = mt_mtu (s_mtu s) -> s_pending_writes s' = s_pending_writes s ->
  pushes log bound s s' [].
Proof.
  intros [] Hm Hp. split; try congruence; auto; rewrite ?si_outgoing, ?si_queue; auto.
Qed.

Lemma cc_pushes log bound op cc s :
  op_ok op -> (forall o n, op <> OpMtuChange o n) -> cc_step op (s_congestion s) = Ok cc ->
  pushes log bound s (set_congestion cc s) [].
Proof. intros. apply side_pushes; [by apply (side_cc op)|done|done]. Qed.

Lemma tuned_mtu m s :
  mt_mtu m = mt_mtu (s_mtu s) -> mt_probe_size m = mt_probe_size (s_mtu s) -> mt_max m = mt_max (s_mtu s) ->
  tuned s -> tuned (set_mtu m s).
Proof. intros H1 H2 H3 []. split; cbn; rewrite ?H1, ?H2, ?H3; done. Qed.

Lemma send_front_pushes log bound q rest clk s :
  s_send_queue s = q :: rest -> carries_off log bound 0 (qp_seq q) (qp_packet q) ->
  let '(packet, s') := send_front q rest clk s in
  pushes log bound s s' [packet] /\ s_send_queue s' = rest.
Proof.
  intros Hq (f & id & ack & payload & Hd & Hf & Hi & Ha & Hl). unfold send_front.
  set (m := s_mtu (set_send_queue rest s)).
  match goal with |- context [if ?c then set_mtu ?m' ?s' else ?s'] =>
    set (s1 := if c then set_mtu m' s' else s') end.
  assert (side (set_send_queue rest s) s1 /\ mt_mtu (s_mtu s1) = mt_mtu (s_mtu s) /\ s_pending_writes s1 = s_pending_writes s)
    as (Hs1 & Hm1 & Hp1).
  { unfold s1. case_match; [|by split_and!]. split_and!; [|done|done]. split; try done. by apply tuned_mtu. }
  assert (exists is_probe off s2, 0 <= off <= 255 /\
    (if (HEADER_SIZE <=? len (qp_packet q)) && negb (Z.land (nth 2 (qp_packet q) 0) FLAG_DATA =? 0) &&
        bool_decide (mt_state (s_mtu s1) = Search) && mt_probe_wanted (s_mtu s1)
     then mtu_probeify_packet (qp_packet q) s1 else (false, qp_packet q, s1)) =
    (is_probe, datagram f off id (qp_seq q) ack payload, s2) /\
    side s1 s2 /\ mt_mtu (s_mtu s2) = mt_mtu (s_mtu s1) /\ s_pending_writes s2 = s_pending_writes s1)
    as (is_probe & off & s2 & Ho & -> & Hs2 & Hm2 & Hp2).
  { rewrite Hd. case_match; [|exists false, 0, s1; by split_and!].
    destruct (probeify_datagram f id (qp_seq q) ack payload s1) as (off & Ho & E).
    unfold mtu_probeify_packet in *. case_match; cbn [fst snd] in *; eexists _, off, _; rewrite <- E.
    - split_and!; [lia|lia|done..].
    - split_and!; [lia|lia|reflexivity| |done|done].
      split; try done. by apply tuned_mtu. }
  cbn zeta. unfold register_sent. destruct (on_packet_sent (inflight s2) (clk 1%nat) (s_congestion s2)) as [info cc] eqn:Ec.
  set (s3 := set_outgoing _ (set_congestion cc s2)).
  assert (side s2 (set_congestion cc s2)) as Hs3.
  { apply (side_cc (OpSent (inflight s2) (clk 1%nat))); [done|done|]. cbn [cc_step]. by rewrite Ec. }
  set (bytes := as_u32 _).
  assert (side s3 (set_congestion (with_pacing (cc_bbr (s_congestion s3))
    (TokenBucket_try_consume bytes (clk 2%nat) (cc_pacing (s_congestion s3))).2 (s_congestion s3)) s3)) as Hs4.
  { apply (side_cc (OpConsume bytes (clk 2%nat))); [|done|done]. apply (as_u_range 32). lia. }
  assert (side (set_send_queue rest s) (set_congestion cc s2)) as Hside by (by etrans; [exact Hs1|]; etrans; [exact Hs2|]).
  assert (carries log bound (qp_seq q) (datagram f off id (qp_seq q) ack payload)) as Hc.
  { exists off. split; [lia|]. by exists f, id, ack, payload. }
  split; [|apply (si_queue _ _ Hside)].
  assert (pushes log bound s s3 [datagram f off id (qp_seq q) ack payload]) as Hpush.
  { pose proof Hside as []. unfold s3.
    split; cbn [s_conn s_next_seq s_next_remote_seq s_recv_buf s_remote_acked s_pending_writes s_mtu s_outgoing s_send_queue set_outgoing];
      auto; try congruence.
    - cbn. congruence.
    - cbn. congruence.
    - intros Ht. destruct (si_tuned ltac:(by destruct Ht)). by split.
    - intros k p' Hk. apply lookup_insert_Some in Hk as [[<- <-]|[Hne Hk]]; [right|left].
      + by split.
      + cbn in si_outgoing. by rewrite <- si_outgoing.
    - intros k Hk. destruct (decide (qp_seq q = k)) as [->|]; [by rewrite lookup_insert_eq|].
      rewrite lookup_insert_ne by done. cbn in si_outgoing. by rewrite si_outgoing.
    - rewrite si_queue, Hq. cbn. intros x Hx. by right.
    - rewrite si_queue, Hq. cbn. intros x Hx. apply elem_of_cons in Hx as [->|Hx]; [right|by left].
      by rewrite lookup_insert_eq.
    - repeat constructor. by exists (qp_seq q). }
  rewrite <- (app_nil_r [datagram f off id (qp_seq q) ack payload]).
  eapply pushes_trans; [exact Hpush|]. by apply side_pushes.
Qed.

Lemma can_send_ok flying rwnd s : tuned s -> exists ok, can_send flying rwnd (s_congestion s) = Ok ok.
Proof.
  intros [H _ Hm _]. unfold can_send. rewrite Hm. unfold MTU_BASE, HEADER_SIZE in *.
  rewrite (proj2 (Z.eqb_neq _ _)) by lia. eauto.
Qed.

Lemma send_loop_ok log bound queue clk batch s :
  tuned s -> s_send_queue s = queue ->
  (forall x, x ∈ queue -> carries_off log bound 0 (qp_seq x) (qp_packet x)) ->
  exists effs delay s', send_loop queue clk batch s = Ok (batch ++ effs, delay, s') /\
    pushes log bound s s' (datagrams effs) /\ delivered effs = [] /\ resolved effs = [].
Proof.
  revert batch s. induction queue as [|q rest IH]; intros batch s Ht Hq Hc; cbn [send_loop].
  { exists [], None, s. split_and!; [by rewrite app_nil_r|apply pushes_refl|done..]. }
  set (flying := as_u32 _). set (bytes := foldr _ _ _).
  set (s1 := set_congestion (check_app_limited bytes flying (s_congestion s)) s).
  assert (pushes log bound s s1 []) as H1 by (by apply (cc_pushes log bound (OpCheckAppLimited bytes flying))).
  destruct (can_send_ok flying (s_send_rwnd s1) s1) as [ok ->]; [by apply H1|]. cbn [mbind outcome_bind].
  destruct ok; cbn [negb]; [|exists [], None, s1; by rewrite app_nil_r].
  destruct (pacing_delay _ _ (s_congestion s1)) as [delay cc] eqn:Ed.
  set (s2 := set_congestion cc s1).
  assert (pushes log bound s s2 []) as H2.
  { eapply (pushes_trans _ _ _ _ _ [] []); [exact H1|].
    eapply (cc_pushes log bound (OpPacingDelay _ _)); [done|done|]. cbn [cc_step]. by rewrite Ed. }
  destruct (0 <? delay); [exists [], (Some delay), s2; by rewrite app_nil_r|].
  assert (s_send_queue s2 = q :: rest) as Hq2 by done.
  pose proof (send_front_pushes log bound q rest (clk (length batch)) s2 Hq2 (Hc q ltac:(by left))) as H3.
  destruct (send_front q rest _ s2) as [packet s3]. destruct H3 as [H3 Hq3].
  destruct (IH (batch ++ [SendTo packet (qp_remote_addr q)]) s3) as (effs & d & s' & -> & H4 & Hv & Hr);
    [by apply H3, H2|done|intros x Hx; apply Hc; by right|].
  exists (SendTo packet (qp_remote_addr q) :: effs), d, s'. split_and!; [by rewrite <- app_assoc| |done..].
  change (datagrams (SendTo packet (qp_remote_addr q) :: effs)) with ([] ++ [packet] ++ datagrams effs).
  eapply pushes_trans; [exact H2|]. by eapply pushes_trans.
Qed.

Lemma sys_ok_pushes a b effs new p' :
  sys_ok (a, b) ->
  pushes (log_at (e_writes a)) (s_next_remote_seq (e_inner a)) (e_inner a) (pr_inner p') new ->
  (forall d, d ∈ datagrams effs -> d ∈ new) -> delivered effs = [] -> resolved effs = [] ->
  sys_ok (perform effs p' (e_running a) (e_writes a) a, b).
Proof.
  intros (Ha & Hb & Hab & Hba) Hp Hd Hv Hr. cbn [fst snd] in *. pose proof Hp as [].
  split_and!; cbn [fst snd]; [|done| |].
  - destruct Ha. split; cbn; unfold e_inner in *; cbn;
      rewrite ?pu_conn0, ?pu_next_seq0, ?pu_next_remote0, ?pu_buf0, ?pu_acked0; auto using acks_out_app.
    + eapply Forall_impl; [exact eo_writes0|]. intros w. apply write_ok_mono; [done|lia|lia].
    + intros q p Hq. destruct (pu_out0 q p Hq) as [|[]]; auto.
    + apply Forall_app. split; [done|]. apply Forall_forall. intros d Hin. left.
      rewrite Forall_forall in pu_new0. by apply pu_new0, Hd.
    + intros q Hq. destruct (eo_cover0 q Hq) as [|[|(x & Hx & <-)]]; [by left|right; left; auto|].
      destruct (pu_cover0 x Hx); eauto.
  - eapply (link_sender a); [done| |done| | |]; unfold e_inner; cbn.
    + intros q p Hq Hs. destruct (pu_out0 q p Hq) as [|[_ Hf]]; [eauto|congruence].
    + rewrite pu_acked0. apply Hab.
    + by rewrite pu_pending0.
    + rewrite Hr, app_nil_r. auto.
  - eapply (link_receiver_same b a); [done|done|done|]. cbn. by rewrite Hv, app_nil_r.
Qed.

Lemma on_pacing_ok a b clk now :
  sys_ok (a, b) -> e_running a = true ->
  exists r, on_pacing clk now (e_proc a) = Ok r /\ sys_ok (finish_turn r a, b).
Proof.
  intros Hs Hrun. pose proof Hs as (Ha & _). cbn [fst snd] in *. unfold on_pacing.
  change (pr_inner (e_proc a)) with (e_inner a).
  destruct (send_loop_ok (log_at (e_writes a)) (s_next_remote_seq (e_inner a)) (s_send_queue (e_inner a)) clk []
    (e_inner a)) as (effs & delay & s' & -> & Hp & Hv & Hr); [apply Ha|done|apply (eo_queue _ Ha)|].
  cbn [mbind outcome_bind app].
  match goal with |- context [if cn_udp (s_conn s') then effs else []] =>
    set (sent := if cn_udp (s_conn s') then effs else []) end.
  assert (forall d, d ∈ datagrams sent -> d ∈ datagrams effs) as Hd.
  { intros d. unfold sent. case_match; [done|]. by intros ?%elem_of_nil. }
  assert (delivered sent = [] /\ resolved sent = []) as [Hv' Hr'] by (unfold sent; by case_match).
  match goal with |- context [if ?c then set_rto_at ?t ?p else ?p] => set (p1 := if c then set_rto_at t p else p) end.
  assert (pr_inner p1 = s') as Hp1 by (unfold p1; by case_match).
  assert (forall p, pr_inner p = s' -> sys_ok (perform sent p true (e_writes a) a, b)) as Hok.
  { intros p Hi. rewrite <- Hrun. eapply sys_ok_pushes; [done| |exact Hd|done|done]. by rewrite Hi. }
  case_match; [case_match|]; eexists; (split; [done|]); cbn [finish_turn]; try (by apply Hok).
  pose proof (sys_ok_terminate _ _ (Hok p1 Hp1)) as Hterm. rewrite perform_perform in Hterm.
  unfold e_inner in Hterm. cbn [e_proc perform e_writes] in Hterm.
  destruct (terminate (pr_inner p1)) as [closing s2]. done.
Qed.

Lemma on_rto_ok a b clk :
  sys_ok (a, b) -> e_running a = true ->
  exists r, on_rto_timer clk (e_proc a) = Ok r /\ sys_ok (finish_turn r a, b).
Proof.
  intros Hs Hrun. pose proof Hs as (Ha & _ & Hab & _). cbn [fst snd] in *. unfold on_rto_timer.
  change (pr_inner (e_proc a)) with (e_inner a). pose proof (eo_acked _ Ha) as Hack.
  assert (forall p effs, side (e_inner a) (pr_inner p) -> datagrams effs = [] -> delivered effs = [] ->
    (forall pw, pw ∈ s_pending_writes (pr_inner p) -> pw ∈ s_pending_writes (e_inner a)) ->
    (forall tx, (tx, Ok tt) ∉ resolved effs) -> sys_ok (perform effs p true (e_writes a) a, b)) as Hside.
  { intros p effs Hp Hd Hv Hpw Hr. rewrite <- Hrun. eapply (sys_ok_sends 0); try done.
    - by apply side_evolves.
    - apply Hp.
    - rewrite Hd. constructor. }
  case_match.
  { eexists. split; [done|]. apply Hside; try done. by intros ? ?%elem_of_nil. }
  case_match.
  - eexists. split; [done|]. cbn [finish_turn].
    set (effs := (fun pw => Complete (pw_tx pw) (Err TimedOut)) <$> _).
    assert (datagrams effs = [] /\ delivered effs = [] /\ forall tx, (tx, Ok tt) ∉ resolved effs)
      as (Hd & Hv & Hr) by apply failed_effects.
    match goal with |- context [set_inner (set_pending [] ?x) ?y] => set (p1 := set_inner (set_pending [] x) y) end.
    assert (sys_ok (perform effs p1 true (e_writes a) a, b)) as Hok.
    { apply Hside; try done.
      - unfold p1. cbn [pr_inner set_inner]. etrans; [apply side_rtt|apply side_pending].
      - unfold p1. cbn. by intros ? ?%elem_of_nil. }
    pose proof (sys_ok_terminate _ _ Hok) as Hterm. rewrite perform_perform in Hterm.
    unfold e_inner in Hterm. cbn [e_proc perform e_writes] in Hterm.
    destruct (terminate (pr_inner p1)) as [closing s2]. done.
  - match goal with |- context [packets_to_retransmit _ ?x] => set (s1 := x) end.
    assert (side (e_inner a) s1) as H1.
    { unfold s1. etrans; [|apply side_rtt]. etrans; [apply side_rtt|].
      match goal with |- side ?x _ => assert (side x (set_congestion (on_rto (s_congestion x)) x)) as H1 end.
      { by apply (side_cc OpRto). }
      case_match; [by apply side_high_seq|done]. }
    pose proof (evolves_timeout 0 (got (s_next_remote_seq (e_inner b)) (s_recv_buf (e_inner b))) (clk 0%nat) s1) as H2.
    destruct (retransmit_keeps (fun p => negb (sp_sacked p)) (fun p => p) (clk 0%nat) s1) as [Hp2 Ha2].
    pose proof (retransmit_sent (fun p => negb (sp_sacked p)) (fun p => p) (clk 0%nat) s1) as Hr2.
    unfold packets_to_retransmit in *.
    destruct (retransmit _ _ (clk 0%nat) s1) as [again s2]. cbn [fst snd] in *.
    eexists. split; [done|]. cbn [finish_turn]. rewrite <- Hrun.
    assert (evolves 0 (got (s_next_remote_seq (e_inner b)) (s_recv_buf (e_inner b))) (e_inner a) s2) as He.
    { eapply evolves_trans; [by apply side_evolves|done]. }
    destruct (send_all_effects again s2) as (Hd & Hv & Hr).
    eapply (sys_ok_sends 0); cbn [pr_inner set_rto_at set_inner]; try done.
    + rewrite Hp2. done.
    + rewrite Hr. by intros ? ?%elem_of_nil.
    + apply Forall_forall. intros x Hx. apply Hd, Hr2 in Hx as (q & p & Hq & <-); [|done].
      left. exists q. eapply evolves_carries; [exact He|apply (eo_out _ Ha)|done].
Qed.

Lemma on_keepalive_ok a b :
  sys_ok (a, b) -> e_running a = true ->
  exists r, on_keepalive (e_proc a) = Ok r /\ sys_ok (finish_turn r a, b).
Proof.
  intros Hs Hrun. pose proof Hs as (Ha & _ & _ & Hba). cbn [fst snd] in *. unfold on_keepalive.
  change (pr_inner (e_proc a)) with (e_inner a). pose proof (eo_acked _ Ha).
  assert (forall effs, delivered effs = [] -> resolved effs = [] ->
    Forall (genuine (log_at (e_writes a)) (got (s_next_remote_seq (e_inner a)) (s_recv_buf (e_inner a)))
            (s_next_remote_seq (e_inner a))) (datagrams effs) ->
    sys_ok (perform effs (e_proc a) true (e_writes a) a, b)) as Hok.
  { intros effs Hv Hr Hg. rewrite <- Hrun. eapply (sys_ok_sends 0); try done; [by apply side_evolves|].
    rewrite Hr. by intros ? ?%elem_of_nil. }
  case_match; [|eexists; split; [done|]; by apply Hok].
  rewrite encode_wire. cbn [mbind outcome_bind]. eexists. split; [done|]. cbn [finish_turn].
  set (h := wire_header _).
  destruct (send_all_effects [h] (e_inner a)) as (Hd & Hv & Hr). apply Hok; [done|done|].
  apply Forall_forall. intros d Hin. apply Hd in Hin. apply list_elem_of_singleton in Hin as ->. right.
  exists FLAG_HEARTBEAT, [], (cn_remote_id (s_conn (e_inner a))), (s_next_remote_seq (e_inner a)).
  pose proof (ro_range _ _ _ (lk_rcv _ _ Hba)).
  split_and!; [right; auto|unfold h; by rewrite app_nil_r|apply Ha|lia|lia|by constructor].
Qed.

(** ** The application writes *)

Lemma log_events_mono log log' n :
  log_le log log' -> (forall q, 0 <= q < n -> is_Some (log q)) -> log_events log' n = log_events log n.
Proof.
  intros Hl Hs. unfold log_events.
  assert (forall q, q ∈ seqZ 0 n -> is_Some (log q)) as Hin by (intros q ?%elem_of_seqZ; apply Hs; lia).
  revert Hin. clear Hs. induction (seqZ 0 n) as [|q l IH]; intros Hs; [done|].
  cbn [mbind list_bind]. destruct (Hs q ltac:(by left)) as [x Hx].
  rewrite Hx, (Hl _ _ Hx). f_equal. apply IH. intros. apply Hs. by right.
Qed.

Lemma rcv_ok_mono log log' n buf : log_le log log' -> rcv_ok log n buf -> rcv_ok log' n buf.
Proof.
  intros Hl []. split; [done| |].
  - intros q Hq. destruct (ro_before q Hq) as [x Hx]. by rewrite (Hl _ _ Hx).
  - intros q r Hq. destruct (ro_buf q r Hq). split; [done|auto].
Qed.

(** The peer is the same: only [ended] may differ. *)
Definition same_peer (c c' : Conn) : Prop :=
  cn_remote_id c' = cn_remote_id c /\ cn_relay_target c' = cn_relay_target c /\
  cn_connected c' = cn_connected c /\ cn_udp c' = cn_udp c /\ cn_remote_addr c' = cn_remote_addr c.

(** [a'] is [a] after a step of its application: more writes or queued packets. *)
Record writes (a a' : Endpoint) : Prop := {
  wr_log : log_le (log_at (e_writes a)) (log_at (e_writes a'));
  wr_chain : chain 0 (e_writes a') (s_next_seq (e_inner a')) /\ s_next_seq (e_inner a') < 2 ^ 31;
  wr_conn : same_peer (s_conn (e_inner a)) (s_conn (e_inner a'));
  wr_ended : forall i w, e_writes a' !! i = Some w -> w_end w = true ->
    cn_ended (s_conn (e_inner a')) = true /\ S i = length (e_writes a') /\ w_thr w = w_first w + 1 /\ w_data w = [];
  wr_next_remote : s_next_remote_seq (e_inner a') = s_next_remote_seq (e_inner a);
  wr_buf : s_recv_buf (e_inner a') = s_recv_buf (e_inner a);
  wr_acked : s_remote_acked (e_inner a') = s_remote_acked (e_inner a);
  wr_out : s_outgoing (e_inner a') = s_outgoing (e_inner a);
  wr_tuned : tuned (e_inner a');
  wr_writes : Forall (write_ok (e_inner a')) (e_writes a');
  wr_queue : forall x, x ∈ s_send_queue (e_inner a') -> x ∈ s_send_queue (e_inner a) \/
    carries_off (log_at (e_writes a')) (s_next_remote_seq (e_inner a)) 0 (qp_seq x) (qp_packet x);
  wr_cover : forall q, is_Some (log_at (e_writes a') q) -> is_Some (log_at (e_writes a) q) \/
    exists x, x ∈ s_send_queue (e_inner a') /\ qp_seq x = q;
  wr_kept : forall x, x ∈ s_send_queue (e_inner a) -> x ∈ s_send_queue (e_inner a');
  wr_sent : e_sent a' = e_sent a;
  wr_read : e_read a' = e_read a;
  wr_done : e_done a' = e_done a;
  wr_running : e_running a' = e_running a;
  wr_pending : forall pw, pw ∈ s_pending_writes (e_inner a') -> pw ∈ s_pending_writes (e_inner a) \/
    exists w, w ∈ e_writes a' /\ w_tx w = pw_tx pw /\ w_thr w = pw_ack_threshold pw;
  wr_mono : forall w, w ∈ e_writes a -> exists w', w' ∈ e_writes a' /\ w_tx w' = w_tx w /\ w_thr w' = w_thr w
}.

Lemma sys_ok_writes a a' b : writes a a' -> sys_ok (a, b) -> sys_ok (a', b).
Proof.
  intros [] (Ha & Hb & Hab & Hba). cbn [fst snd] in *.
  destruct wr_chain0 as [Hch Hlt], wr_conn0 as (C1 & C2 & C3 & C4 & C5).
  split_and!; cbn [fst snd]; [|done| |by eapply (link_receiver_same b a)].
  - destruct Ha. split; rewrite ?wr_sent0, ?wr_next_remote0, ?wr_buf0, ?wr_acked0, ?wr_out0, ?wr_running0, ?C1, ?C2, ?C3, ?C4, ?C5; auto.
    + intros q p Hq. eapply carries_mono; [exact wr_log0|reflexivity|auto].
    + intros x Hx. destruct (wr_queue0 x Hx); [|done]. eapply carries_off_mono; [exact wr_log0|reflexivity|auto].
    + eapply Forall_impl; [exact eo_sent0|]. intros d. apply genuine_mono; [done|done|lia].
    + intros q Hq. destruct (wr_cover0 q Hq) as [H|]; [|by right; right].
      destruct (eo_cover0 q H) as [|[|(x & Hx & E)]]; [by left|by right; left|right; right; eauto].
  - destruct Hab. split; rewrite ?wr_acked0, ?wr_out0, ?wr_done0; auto.
    + by eapply rcv_ok_mono.
    + rewrite (log_events_mono _ _ _ wr_log0); [done|apply lk_rcv0].
    + intros pw Hp. destruct (wr_pending0 pw Hp) as [H|]; [|done].
      destruct (lk_pending0 pw H) as (w & Hw & <- & <-). auto.
    + intros tx Ht. destruct (lk_done0 tx Ht) as (w & Hw & <- & Hle).
      destruct (wr_mono0 w Hw) as (w' & Hw' & <- & Hthr). exists w'. split_and!; [done..|lia].
Qed.

Lemma log_snoc_eq ws w q : w_pieces w = None -> log_at (ws ++ [w]) q = log_at ws q.
Proof.
  intros Hw. induction ws as [|y ws IH]; cbn [log_at app]; [rewrite Hw; by case_match|].
  by case_match.
Qed.

Lemma len_pieces s data :
  0 < max_payload s ->
  len (pieces_of s data) = if len data =? 0 then 1 else (len data + max_payload s - 1) / max_payload s.
Proof.
  intros H. destruct data as [|x data]; [done|]. unfold pieces_of.
  assert (0 < len (x :: data)) by (lens; pose proof (len_nonneg data); lia).
  rewrite (proj2 (Z.eqb_neq _ _)) by lia. unfold len at 1. rewrite length_chunks by lia. rewrite Z2Nat.id by lia. done.
Qed.

Lemma len_pieces_pos s data : 0 < max_payload s -> 0 < len (pieces_of s data).
Proof.
  intros H. rewrite len_pieces by done. pose proof (len_nonneg data).
  destruct (Z.eqb_spec (len data) 0); [lia|]. apply Z.div_str_pos. lia.
Qed.

Lemma pieces_join s data : 0 < max_payload s -> mjoin (pieces_of s data) = data.
Proof. intros H. destruct data as [|x data]; [done|]. apply chunks_concat. lia. Qed.

(** Reserving the numbers of a new write or of the end of the stream. *)
Lemma writes_reserve a w s' :
  ep_ok a -> w_pieces w = None -> write_ok (e_inner a) w ->
  w_first w = s_next_seq (e_inner a) -> s_next_seq (e_inner a) < w_thr w < 2 ^ 31 ->
  (exists c, s' = set_pending (s_pending_writes (e_inner a) ++ [mkPending (w_thr w) (w_tx w)])
                    (set_next_seq (w_thr w) (set_conn c (e_inner a))) /\
     same_peer (s_conn (e_inner a)) c /\ cn_ended (s_conn (e_inner a)) = false /\
     (w_end w = true -> cn_ended c = true /\ w_thr w = w_first w + 1 /\ w_data w = [])) ->
  writes a (perform [] (set_inner s' (e_proc a)) (e_running a) (e_writes a ++ [w]) a).
Proof.
  intros Ha Hp Hok Hf Ht (c & -> & Hc & Hopen & Hend).
  split; unfold perform, e_inner; cbn; rewrite ?app_nil_r; auto.
  - by apply log_snoc.
  - split; [|lia]. eapply chain_snoc; [apply (eo_chain _ Ha)|done|lia].
  - intros i x Hx He. apply lookup_app_Some in Hx as [Hx|[Hlen Hx]].
    + destruct (eo_ended _ Ha i x Hx He). congruence.
    + apply list_lookup_singleton_Some in Hx as [Hi <-]. destruct (Hend He) as (? & ? & ?).
      split_and!; [done| |done|done]. rewrite length_app. cbn. lia.
  - by destruct (eo_tuned _ Ha).
  - apply Forall_app. split; [|by constructor].
    eapply Forall_impl; [exact (eo_writes _ Ha)|]. done.
  - intros q. rewrite log_snoc_eq by done. by left.
  - intros pw Hin. apply elem_of_app in Hin as [Hin|Hin]; [by left|right].
    apply list_elem_of_singleton in Hin as ->. exists w. split_and!; [|done..].
    apply elem_of_app. right. by apply list_elem_of_singleton.
  - intros w' Hw. exists w'. split_and!; [|done..]. apply elem_of_app. by left.
Qed.

(** Packets whose numbers start at [first] and whose payloads are [ps]. *)
Definition numbered (f id first ack : Z) (ps : list (list Z)) (packets : list (Z * list Z)) : Prop :=
  packets = imap (fun i p => (first + Z.of_nat i, datagram f 0 id (first + Z.of_nat i) ack p)) ps.

Lemma build_packets_ok id first ack ps :
  0 <= first -> first + len ps <= 2 ^ 31 ->
  exists packets, build_packets id first ack ps = Ok packets /\ numbered FLAG_DATA id first ack ps packets.
Proof.
  unfold numbered. revert first. induction ps as [|p ps IH]; intros first H0 H1; cbn [build_packets]; [by eexists|].
  unfold build_data_packet. rewrite encode_wire. cbn [mbind outcome_bind].
  lens. pose proof (len_nonneg ps).
  assert (as_u32 (first + 1) = first + 1) as -> by (apply as_u_id; unfold in_u; lia).
  destruct (IH (first + 1)) as (packets & -> & ->); [lia|lia|].
  cbn [mbind outcome_bind]. eexists. split; [done|]. rewrite imap_cons. cbn [Z.of_nat]. rewrite Z.add_0_r.
  f_equal. apply imap_ext. intros i x _. cbn [compose]. replace (first + 1 + Z.of_nat i) with (first + Z.of_nat (S i)) by lia. done.
Qed.

(** Queueing the packets of a write whose numbers are reserved. *)
Lemma writes_queue a i w ps packets cc addr :
  ep_ok a -> e_writes a !! i = Some w -> w_pieces w = None ->
  len ps <= w_thr w - w_first w -> mjoin ps = w_data w ->
  numbered (w_flag w) (wp_remote_id (w_prep w)) (w_first w) (wp_current_ack (w_prep w)) ps packets ->
  side (e_inner a) (set_congestion cc (e_inner a)) ->
  let s' := set_send_queue (s_send_queue (e_inner a) ++ ((fun '(seq, p) => mkQueued p seq addr) <$> packets))
              (set_congestion cc (e_inner a)) in
  writes a (perform [] (set_inner s' (e_proc a)) (e_running a) (<[i := set_pieces ps w]> (e_writes a)) a).
Proof.
  intros Ha Hi Hp Hl Hj Hn Hside s'. pose proof (eo_chain _ Ha) as Hch.
  pose proof (chain_lookup _ _ _ _ _ Hch Hi) as Hw.
  assert (write_ok (e_inner a) w) as (Hw1 & Hw2 & _).
  { pose proof (eo_writes _ Ha) as H. rewrite Forall_lookup in H. eauto. }
  assert (chain 0 (<[i := set_pieces ps w]> (e_writes a)) (s_next_seq (e_inner a))) as Hch'.
  { by eapply chain_insert. }
  assert (<[i := set_pieces ps w]> (e_writes a) !! i = Some (set_pieces ps w)) as Hi'.
  { apply list_lookup_insert_eq. by eapply lookup_lt_Some. }
  assert (forall q, w_first w <= q < w_thr w ->
    log_at (<[i := set_pieces ps w]> (e_writes a)) q =
    (piece ← ps !! Z.to_nat (q - w_first w); Some (piece, w_flag w))) as Hlog.
  { intros q Hq. by rewrite (log_write _ _ _ _ _ _ Hch' Hi'). }
  split; unfold perform, e_inner; cbn; rewrite ?app_nil_r; auto.
  - by apply log_insert.
  - split; [done|apply Ha].
  - done.
  - intros j x Hx He. rewrite length_insert. apply list_lookup_insert_Some in Hx as [(<- & <- & _)|[_ Hx]].
    + exact (eo_ended _ Ha _ w Hi He).
    + exact (eo_ended _ Ha _ x Hx He).
  - pose proof (si_tuned _ _ Hside (eo_tuned _ Ha)) as []. by split.
  - apply Forall_insert; [exact (eo_writes _ Ha)|]. split; [exact Hw1|]. split; [exact Hw2|]. by split.
  - intros x Hx. apply elem_of_app in Hx as [Hx|Hx]; [by left|right].
    apply list_elem_of_fmap in Hx as ([q d] & -> & Hx). rewrite Hn in Hx.
    apply elem_of_lookup_imap in Hx as (k & p & [= -> ->] & Hk). cbn.
    pose proof (lookup_lt_Some _ _ _ Hk). unfold len in Hl.
    exists (w_flag w), (wp_remote_id (w_prep w)), (wp_current_ack (w_prep w)), p.
    split_and!; [done| |done|lia|unfold e_inner in *; lia|].
    + unfold w_flag. case_match; auto.
    + rewrite Hlog by lia. replace (Z.to_nat _) with k by lia. by rewrite Hk.
  - intros q Hq. destruct (decide (w_first w <= q < w_thr w)) as [Hin|Hout].
    + right. rewrite Hlog in Hq by done. destruct (ps !! Z.to_nat (q - w_first w)) as [p|] eqn:E; [|by destruct Hq].
      exists (mkQueued (datagram (w_flag w) 0 (wp_remote_id (w_prep w)) q (wp_current_ack (w_prep w)) p) q addr).
      split; [|done]. apply elem_of_app. right. apply list_elem_of_fmap.
      exists (q, datagram (w_flag w) 0 (wp_remote_id (w_prep w)) q (wp_current_ack (w_prep w)) p). split; [done|].
      rewrite Hn. apply elem_of_lookup_imap. exists (Z.to_nat (q - w_first w)), p. split; [|done].
      rewrite Z2Nat.id by lia. by replace (w_first w + (q - w_first w)) with q by lia.
    + left. by rewrite log_insert_out in Hq.
  - intros x Hx. apply elem_of_app. by left.
  - intros w' Hw'. apply list_elem_of_lookup in Hw' as [j Hj'].
    destruct (decide (j = i)) as [->|Hne].
    + simplify_eq. exists (set_pieces ps w). split_and!; [|done..]. by eapply list_elem_of_lookup_2.
    + exists w'. split_and!; [|done..]. eapply (list_elem_of_lookup_2 _ j). by rewrite list_lookup_insert_ne by done.
Qed.

Lemma numbered_len f id first ack ps packets : numbered f id first ack ps packets -> length packets = length ps.
Proof. intros ->. apply length_imap. Qed.

Lemma prepare_write_ok a b data tx prep s :
  sys_ok (a, b) -> prepare_write (len data) tx (e_inner a) = (Ok prep, s) ->
  s_next_seq (e_inner a) + len (pieces_of (e_inner a) data) < 2 ^ 31 ->
  sys_ok (perform [] (set_inner s (e_proc a)) (e_running a)
            (e_writes a ++ [mkWrite prep (s_next_seq s) data false tx None]) a, b).
Proof.
  intros Hs Hp Hlt. pose proof Hs as (Ha & _ & _ & Hba). cbn [fst snd] in *.
  eapply sys_ok_writes; [|done].
  pose proof (tuned_payload _ (eo_tuned _ Ha)) as Hmp. pose proof (chain_le _ _ _ (eo_chain _ Ha)) as H0.
  pose proof (len_pieces_pos _ data Hmp) as Hpos. pose proof (ro_range _ _ _ (lk_rcv _ _ Hba)) as Hn.
  unfold prepare_write in Hp. repeat (case_match; [done|]).
  rewrite <- len_pieces in Hp by done.
  assert (as_u32 (len (pieces_of (e_inner a) data)) = len (pieces_of (e_inner a) data)) as Ec
    by (apply as_u_id; unfold in_u; lia).
  rewrite Ec in Hp.
  assert (as_u32 (s_next_seq (e_inner a) + len (pieces_of (e_inner a) data)) =
    s_next_seq (e_inner a) + len (pieces_of (e_inner a) data)) as Et by (apply as_u_id; unfold in_u; lia).
  rewrite Et in Hp. injection Hp as <- <-. cbn [s_next_seq set_pending set_next_seq].
  apply writes_reserve; [done|done| |done|cbn; lia|].
  - split; [cbn; lia|]. split; [apply Ha|]. unfold w_first. cbn. lia.
  - exists (s_conn (e_inner a)). by split_and!.
Qed.

Lemma prepare_end_ok a b tx prep s :
  sys_ok (a, b) -> prepare_end tx (e_inner a) = (Ok prep, s) -> s_next_seq (e_inner a) + 1 < 2 ^ 31 ->
  sys_ok (perform [] (set_inner s (e_proc a)) (e_running a)
            (e_writes a ++ [mkWrite prep (s_next_seq s) [] true tx None]) a, b).
Proof.
  intros Hs Hp Hlt. pose proof Hs as (Ha & _ & _ & Hba). cbn [fst snd] in *.
  eapply sys_ok_writes; [|done]. pose proof (chain_le _ _ _ (eo_chain _ Ha)) as H0.
  pose proof (ro_range _ _ _ (lk_rcv _ _ Hba)) as Hn.
  unfold prepare_end in Hp. repeat (case_match; [done|]). case_match; [|done].
  cbn [s_next_seq set_conn] in Hp.
  assert (as_u32 (s_next_seq (e_inner a) + 1) = s_next_seq (e_inner a) + 1) as Et by (apply as_u_id; unfold in_u; lia).
  rewrite Et in Hp. injection Hp as <- <-. cbn [s_next_seq set_pending set_next_seq].
  apply writes_reserve; [done|done| |done|cbn; lia|].
  - split; [cbn; lia|]. split; [apply Ha|done].
  - eexists. by split_and!.
Qed.

(** The notification a queueing sends is the only effect. *)
Lemma perform_notify n s p r ws e : perform (notify n s) p r ws e = perform [] p r ws e.
Proof. unfold notify. by case_match. Qed.

Lemma send_write_ok a b i w now :
  sys_ok (a, b) -> e_writes a !! i = Some w -> w_pieces w = None -> w_end w = false ->
  exists effs s, send_data_packets (w_prep w) (w_data w) now (e_inner a) = Ok (effs, s) /\
    sys_ok (perform effs (set_inner s (e_proc a)) (e_running a)
              (<[i := set_pieces (pieces_of (e_inner a) (w_data w)) w]> (e_writes a)) a, b).
Proof.
  intros Hs Hi Hp He. pose proof Hs as (Ha & _ & _ & _). cbn [fst snd] in *.
  pose proof (tuned_payload _ (eo_tuned _ Ha)) as Hmp.
  pose proof (chain_lookup _ _ _ _ _ (eo_chain _ Ha) Hi) as Hw. pose proof (eo_next _ Ha) as Hn.
  assert (write_ok (e_inner a) w) as (Hw1 & Hw2 & Hw3).
  { pose proof (eo_writes _ Ha) as H. rewrite Forall_lookup in H. eauto. }
  rewrite Hp, He in Hw3. unfold send_data_packets. rewrite (proj2 (Z.eqb_neq _ _)), andb_false_r by lia.
  change (match w_data w with [] => [[]] | _ => _ end) with (pieces_of (e_inner a) (w_data w)).
  destruct (build_packets_ok (wp_remote_id (w_prep w)) (w_first w) (wp_current_ack (w_prep w))
    (pieces_of (e_inner a) (w_data w))) as (packets & E & Hnum); [lia|lia|].
  unfold w_first in E. rewrite E. cbn [mbind outcome_bind].
  assert (forall cc, side (e_inner a) (set_congestion cc (e_inner a)) ->
    sys_ok (perform (notify DataQueued (set_congestion cc (e_inner a)))
      (set_inner (set_send_queue (s_send_queue (e_inner a) ++
         ((fun '(seq, p) => mkQueued p seq (wp_remote_addr (w_prep w))) <$> packets)) (set_congestion cc (e_inner a)))
         (e_proc a)) (e_running a)
      (<[i := set_pieces (pieces_of (e_inner a) (w_data w)) w]> (e_writes a)) a, b)) as Hok.
  { intros cc Hcc. rewrite perform_notify. eapply sys_ok_writes; [|done].
    apply writes_queue; [done|done|done|done|by apply pieces_join| |done]. unfold w_flag. by rewrite He. }
  destruct (send_idle (e_inner a)); eexists _, _; (split; [done|]).
  - apply Hok. by apply (side_cc (OpTransmitStart now)).
  - pose proof (Hok (s_congestion (e_inner a))) as H.
    replace (set_congestion (s_congestion (e_inner a)) (e_inner a)) with (e_inner a) in H by (by destruct (e_inner a)).
    by apply H.
Qed.

Lemma send_end_ok a b i w :
  sys_ok (a, b) -> e_writes a !! i = Some w -> w_pieces w = None -> w_end w = true ->
  exists effs s, send_end_packet (w_prep w) (e_inner a) = Ok (effs, s) /\
    sys_ok (perform effs (set_inner s (e_proc a)) (e_running a) (<[i := set_pieces [[]] w]> (e_writes a)) a, b).
Proof.
  intros Hs Hi Hp He. pose proof Hs as (Ha & _ & _ & _). cbn [fst snd] in *.
  pose proof (chain_lookup _ _ _ _ _ (eo_chain _ Ha) Hi) as Hw.
  assert (write_ok (e_inner a) w) as (_ & _ & Hw3).
  { pose proof (eo_writes _ Ha) as H. rewrite Forall_lookup in H. eauto. }
  rewrite Hp, He in Hw3. unfold send_end_packet. rewrite encode_wire. cbn [mbind outcome_bind].
  eexists _, _. split; [done|]. cbn [queue_for_send]. rewrite perform_notify. eapply sys_ok_writes; [|done].
  pose proof (writes_queue a i w [[]] [(wp_first_seq (w_prep w),
    wire_header (mkHeader FLAG_END 0 (wp_remote_id (w_prep w)) DEFAULT_RWND (wp_first_seq (w_prep w)) (wp_current_ack (w_prep w))))]
    (s_congestion (e_inner a)) (wp_remote_addr (w_prep w)) Ha Hi Hp) as H.
  replace (set_congestion (s_congestion (e_inner a)) (e_inner a)) with (e_inner a) in H by (by destruct (e_inner a)).
  apply H; [change (len [[]]) with 1; lia|done| |done]. unfold numbered. cbn. unfold w_first, w_flag, datagram. rewrite He, Z.add_0_r. done.
Qed.

(** ** Every state the two streams reach *)

Lemma sys_ok_swap a b : sys_ok (a, b) -> sys_ok (b, a).
Proof. intros (? & ? & ? & ?). by split_and!. Qed.

(** A turn of a running endpoint returns, and keeps the invariant. *)
Lemma process_turn_ok a b w :
  sys_ok (a, b) -> e_running a = true -> from_inbox (e_sent b) w ->
  exists r, process_turn w (e_proc a) = Ok r /\ sys_ok (finish_turn r a, b).
Proof.
  intros Hs Hrun Hin. destruct w as [addr d hook_ok target clk|n now|clk now|clk|]; cbn [process_turn].
  - by apply on_packet_ok.
  - eexists. split; [done|]. cbn [finish_turn].
    pose proof (eo_acked a (proj1 Hs)). rewrite <- Hrun.
    eapply (sys_ok_sends 0); try done; [by apply side_evolves|by intros ? ?%elem_of_nil].
  - by apply on_pacing_ok.
  - by apply on_rto_ok.
  - by apply on_keepalive_ok.
Qed.

Lemma ep_step_ok a b a' : sys_ok (a, b) -> ep_step (e_sent b) a a' -> sys_ok (a', b).
Proof.
  intros Hs [data tx prep s E|i w now effs s Hi Hp He E|tx prep s E|i w effs s Hi Hp He E|w r Hr Hin E].
  - by eapply prepare_write_ok.
  - destruct (send_write_ok a b i w now Hs Hi Hp He) as (effs' & s' & E' & H'). rewrite E in E'. by simplify_eq.
  - by eapply prepare_end_ok.
  - destruct (send_end_ok a b i w Hs Hi Hp He) as (effs' & s' & E' & H'). rewrite E in E'. by simplify_eq.
  - destruct (process_turn_ok a b w Hs Hr Hin) as (r' & E' & H'). rewrite E in E'. by simplify_eq.
Qed.

Lemma connected_ok id_a id_b addr_a addr_b now_a now_b :
  in_u 32 id_a -> in_u 32 id_b -> sys_ok (connected_to id_b addr_b now_a, connected_to id_a addr_a now_b).
Proof.
  assert (forall id addr now, in_u 32 id -> ep_ok (connected_to id addr now)) as He.
  { intros id addr now Hid. split; cbn; try done; try (by intros ? ?%elem_of_nil); try (by intros ? []);
      try (by intros ??; rewrite lookup_empty).
    split; try done. by apply cc_new_ok. }
  assert (forall id addr now id' addr' now', link (connected_to id addr now) (connected_to id' addr' now')) as Hl.
  { intros. split; cbn; try done; try (by intros ? ?%elem_of_nil); try (by intros ??; rewrite lookup_empty).
    split; cbn; [lia|lia|by intros ??; rewrite lookup_empty]. }
  intros. split_and!; cbn; auto.
Qed.

Lemma sys_reach_ok s : sys_reach s -> sys_ok s.
Proof.
  intros (id_a & id_b & addr_a & addr_b & now_a & now_b & Ha & Hb & Hr).
  pose proof (connected_ok id_a id_b addr_a addr_b now_a now_b Ha Hb) as H. revert H.
  induction Hr as [|x y z Hstep _ IH]; [done|]. intros Hx. apply IH.
  destruct Hstep; [by eapply ep_step_ok|]. apply sys_ok_swap. eapply ep_step_ok; [by apply sys_ok_swap|done].
Qed.
