(* ===== verification/UdxTheorems.v ===== *)
(** * UdxTheorems: what two streams promise each other

    Whatever the network loses, repeats, delays or reorders, each side reads
    a prefix of what the other wrote, a write resolves only when the other side
    has read it, and a retransmission timeout whose packets arrive completes
    everything.  Where the code falls short: sequence numbers do not wrap, and a
    larger MTU between the two halves of a write leaves a hole in the numbers. *)

From S2P Require Import Prelude RustStd Chunks UdxHeader RustFloat UdxCongestion UdxStream UdxSystem.
From S2P Require Import UdxCongestionTheorems UdxStreamProofs UdxSystemProofs.

#[local] Open Scope Z_scope.

(** ** The bytes of a log *)

Definition log_bytes (ws : list WriteRec) (a n : Z) : list Z :=
  seqZ a (n - a) ≫= fun q => match log_at ws q with Some (p, _) => p | None => [] end.

Lemma seqZ_split a m n : a <= m <= n -> seqZ a (n - a) = seqZ a (m - a) ++ seqZ m (n - m).
Proof.
  intros H. replace (n - a) with ((m - a) + (n - m)) by lia. rewrite seqZ_app by lia.
  by replace (a + (m - a)) with m by lia.
Qed.

Lemma log_bytes_ext ws ws' a n :
  (forall q, a <= q < n -> log_at ws q = log_at ws' q) -> log_bytes ws a n = log_bytes ws' a n.
Proof.
  intros H. unfold log_bytes.
  assert (forall q, q ∈ seqZ a (n - a) -> log_at ws q = log_at ws' q) as Hin by (intros q ?%elem_of_seqZ; apply H; lia).
  induction (seqZ a (n - a)) as [|q l IH]; [done|]. cbn [mbind list_bind].
  rewrite (Hin q) by (by left). f_equal. apply IH. intros. apply Hin. by right.
Qed.

(** The numbers of one write carry its pieces. *)
Lemma write_bytes w ws ps n :
  w_pieces w = Some ps -> w_first w <= n <= w_thr w ->
  (forall q, w_first w <= q < n -> is_Some (log_at (w :: ws) q)) ->
  log_bytes (w :: ws) (w_first w) n = mjoin (take (Z.to_nat (n - w_first w)) ps) /\ n - w_first w <= len ps.
Proof.
  intros Hp Hn Hs.
  assert (forall q, w_first w <= q < w_thr w -> log_at (w :: ws) q =
    (piece ← ps !! Z.to_nat (q - w_first w); Some (piece, w_flag w))) as Hlog.
  { intros q Hq. cbn [log_at]. rewrite (proj2 (Z.leb_le _ _)), (proj2 (Z.ltb_lt _ _)) by lia. by rewrite Hp. }
  remember (Z.to_nat (n - w_first w)) as k eqn:Ek. revert n Hn Hs Ek.
  induction k as [|k IH]; intros n Hn Hs Ek.
  - replace n with (w_first w) by lia. unfold log_bytes. rewrite Z.sub_diag. split; [done|apply len_nonneg].
  - destruct (IH (n - 1)) as [IH1 IH2]; [lia|intros; apply Hs; lia|lia|].
    unfold log_bytes in *. rewrite (seqZ_split (w_first w) (n - 1) n), bind_app, IH1 by lia.
    replace (n - (n - 1)) with 1 by lia. change (seqZ (n - 1) 1) with [0 + (n - 1)].
    cbn [mbind list_bind]. rewrite Z.add_0_l, Hlog by lia. destruct (Hs (n - 1)) as [x Hx]; [lia|].
    rewrite Hlog in Hx by lia. replace (Z.to_nat (n - 1 - w_first w)) with k in * by lia.
    destruct (ps !! k) as [piece|] eqn:Epk; [|done]. cbn [mbind option_bind].
    pose proof (lookup_lt_Some _ _ _ Epk). split; [|unfold len; lia].
    rewrite (take_S_r _ _ _ Epk), join_app. cbn. done.
Qed.

Definition pieces_ok (w : WriteRec) : Prop :=
  match w_pieces w with
  | Some ps => len ps <= w_thr w - w_first w /\ mjoin ps = w_data w
  | None => True
  end.

(** The numbers below [n] carry whole writes and then part of one. *)
Lemma chain_bytes a ws b n :
  chain a ws b -> Forall pieces_ok ws -> a <= n <= b -> (forall q, a <= q < n -> is_Some (log_at ws q)) ->
  exists k part rest, log_bytes ws a n = written (take k ws) ++ part /\
    written ws = (written (take k ws) ++ part) ++ rest /\
    (forall i w, ws !! i = Some w -> w_thr w <= n -> (i < k)%nat) /\
    ((length ws <= k)%nat -> rest = [] /\ part = []).
Proof.
  revert a. induction ws as [|w ws IH]; intros a Hc Hok Hn Hs.
  { cbn in Hc. exists 0%nat, [], []. unfold log_bytes. replace (n - a) with 0 by lia. by split_and!. }
  destruct Hc as (Hf & Hlt & Hc). subst a. apply Forall_cons in Hok as [Hw Hok]. unfold pieces_ok in Hw.
  assert (forall i w', (w :: ws) !! i = Some w' -> w_thr w' <= n -> i = 0%nat /\ w_thr w <= n \/
    exists j, i = S j /\ ws !! j = Some w' /\ w_thr w <= n) as Hidx.
  { intros [|i] w' Hi Hle; cbn in Hi; simplify_eq; [by left|right]. exists i. split_and!; [done..|].
    pose proof (chain_lookup _ _ _ _ _ Hc Hi). lia. }
  destruct (decide (n = w_first w)) as [->|Hne].
  { exists 0%nat, [], (written (w :: ws)). unfold log_bytes. rewrite Z.sub_diag. split_and!; [done..| |cbn; lia].
    intros i w' Hi Hle. destruct (Hidx i w' Hi Hle) as [[_ ?]|(j & _ & _ & ?)]; lia. }
  assert (exists ps, w_pieces w = Some ps) as [ps Hps].
  { destruct (Hs (w_first w)) as [x Hx]; [lia|]. cbn [log_at] in Hx.
    rewrite (proj2 (Z.leb_le _ _)), (proj2 (Z.ltb_lt _ _)) in Hx by lia. cbn [andb] in Hx.
    destruct (w_pieces w); [by eexists|done]. }
  rewrite Hps in Hw. destruct Hw as [Hlen Hjoin].
  destruct (write_bytes w ws ps (Z.min n (w_thr w)) Hps ltac:(lia)) as [Hb Hl]; [intros; apply Hs; lia|].
  change (written (w :: ws)) with (w_data w ++ written ws).
  destruct (decide (n < w_thr w)) as [Hin|Hout].
  - rewrite Z.min_l in * by lia.
    exists 0%nat, (mjoin (take (Z.to_nat (n - w_first w)) ps)), (mjoin (drop (Z.to_nat (n - w_first w)) ps) ++ written ws).
    split_and!; [done| | |cbn; lia].
    + rewrite <- Hjoin. rewrite <- (take_drop (Z.to_nat (n - w_first w)) ps) at 1. rewrite join_app.
      cbn [take written mbind list_bind app]. by rewrite app_assoc.
    + intros i w' Hi Hle. destruct (Hidx i w' Hi Hle) as [[_ ?]|(j & _ & _ & ?)]; lia.
  - rewrite Z.min_r in * by lia. rewrite take_ge in Hb by (unfold len in *; lia). rewrite Hjoin in Hb.
    assert (forall q, w_thr w <= q < n -> log_at (w :: ws) q = log_at ws q) as Hskip.
    { intros q Hq. cbn [log_at]. rewrite (proj2 (Z.ltb_ge q (w_thr w))), andb_false_r by lia. done. }
    destruct (IH (w_thr w) Hc Hok) as (k & part & rest & H1 & H2 & H3 & H4); [lia| |].
    { intros q Hq. rewrite <- Hskip by done. apply Hs. lia. }
    exists (S k), part, rest. cbn [take]. change (written (w :: take k ws)) with (w_data w ++ written (take k ws)).
    split_and!.
    + unfold log_bytes in *. rewrite (seqZ_split _ (w_thr w) n), bind_app, Hb by lia.
      rewrite <- app_assoc. f_equal. rewrite <- H1. by apply log_bytes_ext.
    + by rewrite H2, !app_assoc.
    + intros i w' Hi Hle. destruct (Hidx i w' Hi Hle) as [[-> ?]|(j & -> & Hj & ?)]; [lia|].
      pose proof (H3 j w' Hj Hle). lia.
    + cbn. intros. apply H4. lia.
Qed.

(** ** What was read *)

Lemma log_at_write ws q x :
  log_at ws q = Some x -> exists i w ps, ws !! i = Some w /\ w_first w <= q < w_thr w /\ w_pieces w = Some ps /\
    x.1 ∈ ps /\ x.2 = w_flag w.
Proof.
  induction ws as [|w ws IH]; [done|]. cbn [log_at].
  destruct ((w_first w <=? q) && (q <? w_thr w)) eqn:E.
  - apply andb_true_iff in E as [E1%Z.leb_le E2%Z.ltb_lt]. destruct (w_pieces w) as [ps|] eqn:Ep; [|done].
    cbn [mbind option_bind]. destruct (ps !! _) as [p|] eqn:El; [|done]. intros [= <-].
    exists 0%nat, w, ps. split_and!; try done. by eapply list_elem_of_lookup_2.
  - intros H. destruct (IH H) as (i & w' & ps & H1 & H2). by exists (S i), w', ps.
Qed.

(** The end of the stream is the last write and carries nothing. *)
Lemma log_flag e q p f :
  ep_ok e -> log_at (e_writes e) q = Some (p, f) ->
  f = FLAG_DATA \/ f = FLAG_END /\ p = [] /\ q + 1 = s_next_seq (e_inner e) /\ cn_ended (s_conn (e_inner e)) = true.
Proof.
  intros He Hq. destruct (log_at_write _ _ _ Hq) as (i & w & ps & Hi & Hr & Hp & Hin & Hf). cbn in Hin, Hf.
  unfold w_flag in Hf. destruct (w_end w) eqn:Ew; [right|by left].
  destruct (eo_ended _ He i w Hi Ew) as (Hend & Hlast & Hthr & Hnil).
  pose proof (eo_writes _ He) as Hok. rewrite Forall_lookup in Hok. destruct (Hok i w Hi) as (_ & _ & Hw).
  rewrite Hp, Hnil in Hw. destruct Hw as [_ Hj]. split_and!; [done| | |done].
  - clear -Hin Hj. induction ps as [|x ps IH]; [by apply elem_of_nil in Hin|]. rewrite mjoin_cons in Hj.
    apply app_eq_nil in Hj as [-> Hj]. apply elem_of_cons in Hin as [->|Hin]; auto.
  - assert (w_thr w = s_next_seq (e_inner e)); [|lia]. apply (chain_last _ _ _ _ _ (eo_chain _ He) Hi). done.
Qed.

Lemma read_log_bytes a b : ep_ok a -> link a b -> bytes_read b = log_bytes (e_writes a) 0 (s_next_remote_seq (e_inner b)).
Proof.
  intros Ha Hab. unfold bytes_read, log_bytes. rewrite (lk_read _ _ Hab), Z.sub_0_r. unfold log_events.
  induction (seqZ 0 (s_next_remote_seq (e_inner b))) as [|q l IH]; [done|].
  cbn [mbind list_bind]. rewrite bind_app, IH. f_equal.
  destruct (log_at (e_writes a) q) as [[p f]|] eqn:E; [|done].
  destruct (log_flag _ _ _ _ Ha E) as [->|(-> & -> & _)]; [|done].
  destruct p as [|x p]; [done|]. change (push_events (x :: p) FLAG_DATA ≫= event_bytes) with ((x :: p) ++ []). by rewrite app_nil_r.
Qed.

(** A reader that has got everything has read everything. *)
Lemma read_all a b :
  ep_ok a -> link a b -> s_next_remote_seq (e_inner b) = s_next_seq (e_inner a) -> bytes_read b = written (e_writes a).
Proof.
  intros Ha Hab Hn. rewrite (read_log_bytes a b Ha Hab).
  destruct (chain_bytes _ _ _ (s_next_remote_seq (e_inner b)) (eo_chain _ Ha)) as (k & part & rest & H1 & H2 & H3 & H4).
  - eapply Forall_impl; [exact (eo_writes _ Ha)|]. intros w (_ & _ & H). unfold pieces_ok. by case_match.
  - apply (next_le a b Ha Hab).
  - apply (lk_rcv _ _ Hab).
  - destruct H4 as [-> ->]; [|by rewrite H1, H2, !app_nil_r].
    destruct (decide (length (e_writes a) <= k)%nat) as [|Hk]; [done|].
    destruct (lookup_lt_is_Some_2 (e_writes a) k) as [w Hw]; [lia|].
    pose proof (chain_lookup _ _ _ _ _ (eo_chain _ Ha) Hw). pose proof (H3 k w Hw). lia.
Qed.

Lemma in_order_ok a b : ep_ok a -> link a b -> in_order a b.
Proof.
  intros Ha Hab. pose proof (read_log_bytes a b Ha Hab) as Hb.
  destruct (chain_bytes _ _ _ (s_next_remote_seq (e_inner b)) (eo_chain _ Ha)) as (k & part & rest & H1 & H2 & H3 & _).
  - eapply Forall_impl; [exact (eo_writes _ Ha)|]. intros w (_ & _ & H). unfold pieces_ok. by case_match.
  - apply (next_le a b Ha Hab).
  - apply (lk_rcv _ _ Hab).
  - rewrite <- Hb in H1. split_and!.
    + rewrite H1, H2. by eexists.
    + intros tx Ht. destruct (lk_done _ _ Hab tx Ht) as (w & Hw & Htx & Hle).
      apply list_elem_of_lookup in Hw as [i Hi]. exists i, w. split_and!; [done..|].
      pose proof (H3 i w Hi Hle). rewrite H1. apply prefix_app_r.
      replace k with (S i + (k - S i))%nat by lia. rewrite <- take_take_drop. unfold written. rewrite bind_app. by eexists.
    + intros Hend. rewrite (lk_read _ _ Hab) in Hend. unfold log_events in Hend.
      apply list_elem_of_bind in Hend as (q & Hev & Hq). apply elem_of_seqZ in Hq.
      destruct (log_at (e_writes a) q) as [[p f]|] eqn:E; [|by apply elem_of_nil in Hev].
      destruct (log_flag _ _ _ _ Ha E) as [->|(-> & -> & Hlast & Hended)].
      { cbn in Hev. destruct p; cbn in Hev; [by apply elem_of_nil in Hev|].
        apply list_elem_of_singleton in Hev. done. }
      split; [|done]. apply read_all; [done|done|]. pose proof (next_le a b Ha Hab). lia.
Qed.

(** ** Arrivals *)

Definition is_data (h : Header) : bool := Header_has_flag h FLAG_DATA || Header_has_flag h FLAG_END.

Lemma carries_header log bound q d :
  bound < 2 ^ 32 -> in_u 32 q -> carries log bound q d ->
  exists h, Header_decode d = Ok h /\ h_seq h = q /\ is_data h = true.
Proof.
  intros Hb Hq (off & Ho & f & id & ack & p & -> & Hf & Hi & Ha & _).
  exists (mkHeader f off id DEFAULT_RWND q ack). split; [|split; [done|by destruct Hf as [->| ->]]].
  apply datagram_decode; [|unfold is_byte; lia|done|done|unfold in_u; lia].
  destruct Hf as [->| ->]; by cbv.
Qed.

Lemma arrive_ok addr clk ds b a :
  sys_ok (b, a) -> e_running b = true -> (forall d, d ∈ ds -> d ∈ e_sent a) ->
  exists b', arrive addr clk ds b = Some b' /\ sys_ok (b', a) /\ e_running b' = true /\
    forall q, got (s_next_remote_seq (e_inner b)) (s_recv_buf (e_inner b)) q \/
        (exists d h, d ∈ ds /\ Header_decode d = Ok h /\ is_data h = true /\ h_seq h = q) ->
      got (s_next_remote_seq (e_inner b')) (s_recv_buf (e_inner b')) q.
Proof.
  revert b. induction ds as [|d ds IH]; intros b Hs Hrun Hin.
  { exists b. split_and!; try done. intros q [|(d & h & Hd & _)]; [done|by apply elem_of_nil in Hd]. }
  destruct (sent_reading b a d Hs) as [h Hrd]; [apply Hin; by left|].
  pose proof (rd_decode _ _ _ _ _ Hrd) as Hh.
  destruct (on_packet_arrives b a addr d h true (0, None, false) (clk (length ds))) as (r & E & Hs1 & [Hr1 _ Hg1 _]);
    [done|done|apply Hin; by left|done|].
  destruct (IH (finish_turn r b)) as (b' & Hb' & Hs' & Hr' & Hg'); [done|done|intros; apply Hin; by right|].
  exists b'. cbn [arrive]. unfold turn. rewrite Hrun. cbn [process_turn]. rewrite E. cbn [mbind option_bind].
  split_and!; try done. intros q [Hq|(d' & h' & Hd & Hh' & Hf & <-)]; apply Hg'.
  - left. apply Hg1. by left.
  - apply elem_of_cons in Hd as [->|Hd]; [|right; eauto 10]. left. apply Hg1. right. assert (h' = h) as -> by congruence. by split.
Qed.

(** ** A retransmission timeout *)

Lemma rto_turn a clk :
  ep_ok a -> s_outgoing (e_inner a) <> ∅ -> 0 <= rt_rto_timeouts (s_rtt (e_inner a)) + 1 < MAX_RTO_TIMEOUTS ->
  exists effs p', on_rto_timer clk (e_proc a) = Ok (Next, effs, p') /\
    s_next_seq (pr_inner p') = s_next_seq (e_inner a) /\
    s_pending_writes (pr_inner p') = s_pending_writes (e_inner a) /\
    s_remote_acked (pr_inner p') = s_remote_acked (e_inner a) /\
    forall q p, s_outgoing (e_inner a) !! q = Some p -> sp_sacked p = false ->
      exists d, d ∈ datagrams effs /\ carries (log_at (e_writes a)) (s_next_remote_seq (e_inner a)) q d.
Proof.
  intros Ha Hne Ht. unfold on_rto_timer. change (pr_inner (e_proc a)) with (e_inner a).
  rewrite decide_False by done. unfold MAX_RTO_TIMEOUTS in *.
  assert (as_u32 (rt_rto_timeouts (s_rtt (e_inner a)) + 1) = rt_rto_timeouts (s_rtt (e_inner a)) + 1) as ->
    by (apply as_u_id; unfold in_u; lia).
  rewrite (proj2 (Z.leb_gt _ _)) by lia.
  match goal with |- context [packets_to_retransmit _ ?x] => set (s1 := x) end.
  assert (s_outgoing s1 = s_outgoing (e_inner a)) as Ho by (unfold s1; by case_match).
  destruct (retransmit_keeps (fun p => negb (sp_sacked p)) (fun p => p) (clk 0%nat) s1) as [Hp Hk].
  assert (s_conn (packets_to_retransmit (clk 0%nat) s1).2 = s_conn (e_inner a) /\
          s_next_seq (packets_to_retransmit (clk 0%nat) s1).2 = s_next_seq (e_inner a)) as [Hc Hn].
  { unfold packets_to_retransmit, retransmit. cbn [snd]. unfold s1. by repeat case_match. }
  assert (forall q p, s_outgoing (e_inner a) !! q = Some p -> sp_sacked p = false ->
    exists d, d ∈ (packets_to_retransmit (clk 0%nat) s1).1 /\
      carries (log_at (e_writes a)) (s_next_remote_seq (e_inner a)) q d) as Hagain.
  { intros q p Hq Hs. exists (sp_packet (retransmitted (clk 0%nat) p)).
    unfold packets_to_retransmit, retransmit. cbn [fst]. rewrite Ho. split.
    - apply list_elem_of_fmap. exists p. split; [done|]. apply list_elem_of_filter. rewrite Hs. split; [done|].
      unfold btree_values. apply list_elem_of_fmap. exists (q, p). split; [done|]. by apply btree_iter_elem.
    - pose proof (eo_out _ Ha q p Hq). cbn. case_match; [by apply carries_strip|done]. }
  unfold packets_to_retransmit in *. destruct (retransmit _ _ (clk 0%nat) s1) as [again s2]. cbn [fst snd] in *.
  eexists _, _. split; [done|]. cbn [pr_inner set_inner set_rto_at].
  split_and!; [done|rewrite Hp; unfold s1; by case_match|rewrite Hk; unfold s1; by case_match|].
  destruct (eo_peer _ Ha) as [Hu [addr Haddr]]. unfold send_all. rewrite Hc, Hu, Haddr.
  intros q p Hq Hs. destruct (Hagain q p Hq Hs) as (d & Hd & Hcar). exists d. split; [|done].
  unfold datagrams. apply list_elem_of_omap. exists (SendTo d addr). split; [|done].
  apply list_elem_of_fmap. by exists d.
Qed.

(** A receiver that has got every packet of a complete log waits for none. *)
Lemma all_got a b :
  ep_ok a -> link a b ->
  (forall q, 0 <= q < s_next_seq (e_inner a) -> got (s_next_remote_seq (e_inner b)) (s_recv_buf (e_inner b)) q) ->
  s_next_remote_seq (e_inner b) = s_next_seq (e_inner a).
Proof.
  intros Ha Hab Hg. pose proof (next_le a b Ha Hab) as Hn.
  destruct (decide (s_next_remote_seq (e_inner b) = s_next_seq (e_inner a))) as [|Hne]; [done|].
  destruct (Hg (s_next_remote_seq (e_inner b))) as [|[r Hr]]; [lia|lia|].
  destruct (ro_buf _ _ _ (lk_rcv _ _ Hab) _ _ Hr). lia.
Qed.

(** Something reserved and queued is in flight until it is acknowledged. *)
Lemma unacked_in_flight a :
  ep_ok a -> s_send_queue (e_inner a) = [] -> complete_log a ->
  s_remote_acked (e_inner a) < s_next_seq (e_inner a) -> s_outgoing (e_inner a) <> ∅.
Proof.
  intros Ha Hq Hlog Hun Hemp. pose proof (eo_acked _ Ha).
  destruct (eo_cover _ Ha (s_remote_acked (e_inner a))) as [|[[p Hp]|(x & Hx & _)]].
  - apply Hlog. lia.
  - lia.
  - by rewrite Hemp, lookup_empty in Hp.
  - rewrite Hq in Hx. by apply elem_of_nil in Hx.
Qed.

(** The packets of a timeout fill every gap of the receiver. *)
Lemma timeout_fills a a1 b b1 effs order :
  ep_ok a -> link a b -> ep_ok a1 -> link a1 b1 -> in_u 32 (s_next_remote_seq (e_inner a)) ->
  s_send_queue (e_inner a) = [] -> complete_log a -> s_next_seq (e_inner a1) = s_next_seq (e_inner a) ->
  (forall q p, s_outgoing (e_inner a) !! q = Some p -> sp_sacked p = false ->
     exists d, d ∈ datagrams effs /\ carries (log_at (e_writes a)) (s_next_remote_seq (e_inner a)) q d) ->
  order ≡ₚ datagrams effs ->
  (forall q, got (s_next_remote_seq (e_inner b)) (s_recv_buf (e_inner b)) q \/
      (exists d h, d ∈ order /\ Header_decode d = Ok h /\ is_data h = true /\ h_seq h = q) ->
    got (s_next_remote_seq (e_inner b1)) (s_recv_buf (e_inner b1)) q) ->
  s_next_remote_seq (e_inner b1) = s_next_seq (e_inner a).
Proof.
  intros Ha Hab Ha1 Hab1 [_ Hbound] Hq Hlog Hn Hsent Horder Hgot. pose proof (eo_next _ Ha).
  rewrite <- Hn. apply all_got; [done|done|]. rewrite Hn. intros q Hrange. apply Hgot.
  destruct (eo_cover _ Ha q (Hlog q Hrange)) as [Hlt|[[p Hp]|(x & Hx & _)]].
  - left. left. pose proof (lk_acked _ _ Hab). lia.
  - destruct (sp_sacked p) eqn:Es; [left; by apply (lk_sacked _ _ Hab q p)|right].
    destruct (Hsent q p Hp Es) as (d & Hd & Hc).
    destruct (carries_header _ _ q d Hbound ltac:(unfold in_u; lia) Hc) as (h & ? & ? & ?).
    exists d, h. split_and!; try done. by rewrite Horder.
  - rewrite Hq in Hx. by apply elem_of_nil in Hx.
Qed.

(** An acknowledgement of everything finishes the writer. *)
Lemma full_ack_finishes a b addr d h hook_ok target clk :
  sys_ok (a, b) -> e_running a = true -> d ∈ e_sent b -> Header_decode d = Ok h ->
  h_ack h = s_next_seq (e_inner a) -> s_remote_acked (e_inner a) < s_next_seq (e_inner a) ->
  exists a2, turn (WakePacket addr d hook_ok target clk) a = Some a2 /\
    s_pending_writes (e_inner a2) = [] /\ s_outgoing (e_inner a2) = ∅ /\
    forall pw, pw ∈ s_pending_writes (e_inner a) -> (pw_tx pw, Ok tt) ∈ e_done a2.
Proof.
  intros Hs Hrun Hd Hh Hha Hun. pose proof Hs as (Ha & _ & Hab & _). cbn [fst snd] in *.
  destruct (on_packet_arrives a b addr d h hook_ok target clk Hs Hrun Hd Hh) as (r & E & (Ha2 & _ & Hab2 & _) & [_ Hw _ Hdone]).
  cbn [fst snd] in *. exists (finish_turn r a). split; [unfold turn; rewrite Hrun; cbn [process_turn]; by rewrite E|].
  rewrite Hha in Hdone. destruct (Hdone Hun) as (D1 & D2 & D3).
  assert (forall e pw, link e b -> e_writes e = e_writes a -> pw ∈ s_pending_writes (e_inner e) ->
    pw_ack_threshold pw <= s_next_seq (e_inner a)) as Hthr.
  { intros e pw Hl He Hpw. destruct (lk_pending _ _ Hl pw Hpw) as (w & Hin & _ & <-). rewrite He in Hin.
    apply list_elem_of_lookup in Hin as [i Hi]. pose proof (chain_lookup _ _ _ _ _ (eo_chain _ Ha) Hi). lia. }
  assert (s_next_seq (e_inner (finish_turn r a)) = s_next_seq (e_inner a)) as Hn2.
  { pose proof (eo_chain _ Ha2) as C2. rewrite Hw in C2. exact (chain_end _ _ _ _ C2 (eo_chain _ Ha)). }
  split_and!.
  - apply elem_of_nil_inv. intros pw Hpw. pose proof (D2 pw Hpw). pose proof (Hthr _ pw Hab2 Hw Hpw). lia.
  - apply map_empty. intros q. apply eq_None_not_Some. intros [p Hp].
    pose proof (D3 q ltac:(by exists p)).
    destruct (eo_out _ Ha2 q p Hp) as (off & _ & f & id & ack & pl & _ & _ & _ & _ & Hl).
    pose proof (log_range _ _ _ _ _ (eo_chain _ Ha2) Hl). lia.
  - intros pw Hpw. apply D1; [done|]. by apply (Hthr a).
Qed.

(** ** The theorems *)

(** C6: two connected streams over a network that may lose, repeat, delay and
    reorder datagrams, with timers firing at any time: in every reachable state
    what each side has read is a prefix of what the other side wrote; a write
    that resolved with success has been read completely, with everything before
    it; and a reader that has seen the end has read everything and the writer
    can write no more. *)
Theorem streams_in_order (a b : Endpoint) (Hr : sys_reach (a, b)) : in_order a b /\ in_order b a.
Proof. apply sys_reach_ok in Hr as (Ha & Hb & Hab & Hba). by split; apply in_order_ok. Qed.

(** C33: in every reachable state of two connected streams no turn of a running
    processor panics or fails, whatever wakes it (any datagram the other side
    ever sent, a notification, either timer, the keepalive), and neither does
    the second half of a write or of a shutdown. *)
Theorem streams_never_fail (a b : Endpoint) (Hr : sys_reach (a, b)) :
  (forall w, e_running a = true -> from_inbox (e_sent b) w -> exists r, process_turn w (e_proc a) = Ok r) /\
  (forall i w now, e_writes a !! i = Some w -> w_pieces w = None ->
     if w_end w then exists r, send_end_packet (w_prep w) (e_inner a) = Ok r
     else exists r, send_data_packets (w_prep w) (w_data w) now (e_inner a) = Ok r).
Proof.
  apply sys_reach_ok in Hr. split.
  - intros w Hrun Hw. destruct (process_turn_ok a b w Hr Hrun Hw) as (r & E & _). eauto.
  - intros i w now Hi Hp. destruct (w_end w) eqn:He.
    + destruct (send_end_ok a b i w Hr Hi Hp He) as (effs & s & E & _). eauto.
    + destruct (send_write_ok a b i w now Hr Hi Hp He) as (effs & s & E & _). eauto.
Qed.

(** C7: recovery after losses.  Take a reachable state in which everything the
    writer [a] has reserved is cut into packets and has left its queue, something
    is not acknowledged and fewer than the maximum of timeouts passed in a row.
    When the retransmission timer fires and the packets it sends arrive, in any
    order, the reader has read everything that was written and has sent an
    acknowledgement of all of it; when any such acknowledgement comes back, every
    pending write resolves with success and nothing stays in flight. *)
Theorem timeout_recovers (a b : Endpoint) (clk : nat -> Instant) (addr : SocketAddr) (clk_b : nat -> nat -> Instant)
  (Hr : sys_reach (a, b)) (Hra : e_running a = true) (Hrb : e_running b = true)
  (Hq : s_send_queue (e_inner a) = []) (Hlog : complete_log a)
  (Hun : s_remote_acked (e_inner a) < s_next_seq (e_inner a))
  (Ht : 0 <= rt_rto_timeouts (s_rtt (e_inner a)) + 1 < MAX_RTO_TIMEOUTS) :
  exists a1 sent, turn (WakeRto clk) a = Some a1 /\ e_sent a1 = e_sent a ++ sent /\
  forall order, order ≡ₚ sent ->
    exists b1, arrive addr clk_b order b = Some b1 /\ bytes_read b1 = written (e_writes a) /\
      (exists d h, d ∈ e_sent b1 /\ Header_decode d = Ok h /\ h_ack h = s_next_seq (e_inner a)) /\
      forall d h hook_ok target clk', d ∈ e_sent b1 -> Header_decode d = Ok h -> h_ack h = s_next_seq (e_inner a) ->
        exists a2, turn (WakePacket addr d hook_ok target clk') a1 = Some a2 /\
          s_pending_writes (e_inner a2) = [] /\ s_outgoing (e_inner a2) = ∅ /\
          forall pw, pw ∈ s_pending_writes (e_inner a) -> (pw_tx pw, Ok tt) ∈ e_done a2.
Proof.
  apply sys_reach_ok in Hr. pose proof Hr as (Ha & Hb & Hab & Hba). cbn [fst snd] in *.
  pose proof (unacked_in_flight a Ha Hq Hlog Hun) as Hne. pose proof (eo_acked _ Ha).
  destruct (rto_turn a clk Ha Hne Ht) as (effs & p' & E & Hn1 & Hp1 & Hk1 & Hsent).
  destruct (on_rto_ok a b clk Hr Hra) as (r & E' & Hs1).
  assert (r = (Next, effs, p')) as -> by congruence. cbn [finish_turn] in Hs1.
  set (a1 := perform effs p' true (e_writes a) a) in *.
  exists a1, (datagrams effs). split_and!; [unfold turn; by rewrite Hra; cbn [process_turn]; rewrite E|done|].
  intros order Horder.
  destruct (arrive_ok addr clk_b order b a1 (sys_ok_swap _ _ Hs1) Hrb) as (b1 & Eb & Hs2 & Hrb1 & Hgot).
  { intros d Hd. cbn. apply elem_of_app. right. by rewrite <- Horder. }
  exists b1. split; [done|]. pose proof Hs2 as (Hb1 & Ha1 & Hba1 & Hab1). cbn [fst snd] in *.
  assert (s_next_remote_seq (e_inner b1) = s_next_seq (e_inner a)) as Hall.
  { eapply (timeout_fills a a1 b b1); eauto. apply (lk_rcv _ _ Hba). }
  split; [change (e_writes a) with (e_writes a1); apply read_all; [done|done|by rewrite Hall]|]. split.
  { rewrite <- Hall. apply (eo_acks _ Hb1). lia. }
  intros d h hook_ok target clk' Hd Hh Hha. rewrite <- Hn1 in Hha.
  destruct (full_ack_finishes a1 b1 addr d h hook_ok target clk' (sys_ok_swap _ _ Hs2) eq_refl Hd Hh Hha)
    as (a2 & H1 & H2 & H3 & Hfin); [unfold e_inner in *; cbn; lia|].
  exists a2. split_and!; [done..|]. intros pw Hpw. apply Hfin. unfold e_inner in *. cbn. by rewrite Hp1.
Qed.

(** The ranges of a selective acknowledgement as its receiver reads them:
    up to 31 ranges come back exactly, but a stream sends up to 50 and their
    length is kept in one byte, so that beyond 31 only the first [n mod 32] are
    read, and none of exactly 32. *)
Theorem sack_readback (id ack : Z) (rs : list SackRange)
  (Hi : in_u 32 id) (Ha : in_u 32 ack) (Hr : Forall range_ok rs) (Hne : rs <> []) :
  exists d h, ack_packet_bytes id ack rs = Ok d /\ Header_decode d = Ok h /\ h_ack h = ack /\
    packet_sacks h d = (if len rs mod 32 =? 0 then None else Some (take (Z.to_nat (len rs mod 32)) rs)).
Proof.
  unfold ack_packet_bytes. destruct rs as [|r rs]; [done|]. rewrite encode_wire. cbn [mbind outcome_bind].
  rewrite encode_sack_wire, sack_count. set (l := r :: rs) in *. pose proof (Z.mod_pos_bound (len l) 32 ltac:(lia)).
  eexists _, (mkHeader FLAG_SACK (8 * (len l mod 32)) id DEFAULT_RWND 0 ack). split; [done|].
  split; [apply control_decode; [by cbv|unfold is_byte; lia|done|done]|]. split; [done|].
  unfold packet_sacks, Header_payload_offset. cbn [h_data_offset].
  change (Header_has_flag _ FLAG_SACK) with true. cbn [andb].
  destruct (Z.eqb_spec (len l mod 32) 0) as [->|Hnz]; [done|].
  rewrite (proj2 (Z.ltb_lt _ _)), (proj2 (Z.leb_le _ _)).
  - rewrite control_slice by lia. by rewrite decode_sack_wire by (by apply Forall_take).
  - unfold len at 2. rewrite length_app, wire_header_len, Nat2Z.inj_add. change (Z.of_nat 20) with HEADER_SIZE.
    pose proof (wire_sack_len l). pose proof (Z.mod_le (len l) 32 (len_nonneg l) ltac:(lia)). unfold len in *. lia.
  - lia.
Qed.

(** A write whose data was cut into fewer packets than the numbers reserved
    for it (the MTU can grow between the two halves of [write], which lock
    separately) never completes: in every reachable state the receiver has not
    passed the first number without a packet, and the writer's acknowledgements
    have not either, so neither this write nor a later one is ever resolved. *)
Theorem short_write_stalls (a b : Endpoint) (i : nat) (w : WriteRec) (ps : list (list Z))
  (Hr : sys_reach (a, b)) (Hw : e_writes a !! i = Some w) (Hp : w_pieces w = Some ps)
  (Hshort : len ps < w_thr w - w_first w) :
  s_next_remote_seq (e_inner b) <= w_first w + len ps /\ s_remote_acked (e_inner a) <= w_first w + len ps.
Proof.
  apply sys_reach_ok in Hr as (Ha & Hb & Hab & Hba). cbn [fst snd] in *.
  assert (s_next_remote_seq (e_inner b) <= w_first w + len ps) as Hn; [|pose proof (lk_acked _ _ Hab); lia].
  pose proof (len_nonneg ps). pose proof (chain_lookup _ _ _ _ _ (eo_chain _ Ha) Hw).
  destruct (decide (s_next_remote_seq (e_inner b) <= w_first w + len ps)) as [|Hgt]; [done|exfalso].
  destruct (ro_before _ _ _ (lk_rcv _ _ Hab) (w_first w + len ps)) as [x Hx]; [lia|].
  rewrite (log_write _ _ _ _ _ _ (eo_chain _ Ha) Hw), Hp in Hx by lia. cbn [mbind option_bind] in Hx.
  rewrite lookup_ge_None_2 in Hx; [done|]. unfold len. lia.
Qed.

(** ** Concrete runs *)

Lemma reach_swap a b : sys_reach (a, b) -> sys_reach (b, a).
Proof.
  intros (ia & ib & aa & ab & na & nb & Ha & Hb & Hr). exists ib, ia, ab, aa, nb, na. split_and!; [done..|].
  assert (forall x y, sys_step x y -> sys_step (x.2, x.1) (y.2, y.1)) as Hstep.
  { intros x y []; by constructor. }
  change (rtc sys_step ((connected_to ib ab na, connected_to ia aa nb).2, (connected_to ib ab na, connected_to ia aa nb).1)
    ((a, b).2, (a, b).1)).
  remember (connected_to ib ab na, connected_to ia aa nb) as x. clear Heqx. induction Hr; [done|].
  eapply rtc_l; eauto.
Qed.

Lemma reach_step a a' b : sys_reach (a, b) -> ep_step (e_sent b) a a' -> sys_reach (a', b).
Proof.
  intros (ia & ib & aa & ab & na & nb & Ha & Hb & Hr) Hs. exists ia, ib, aa, ab, na, nb. split_and!; [done..|].
  eapply rtc_r; [exact Hr|]. by constructor.
Qed.

Lemma reach_start id_a id_b addr_a addr_b now_a now_b :
  in_u 32 id_a -> in_u 32 id_b -> sys_reach (connected_to id_b addr_b now_a, connected_to id_a addr_a now_b).
Proof. intros. exists id_a, id_b, addr_a, addr_b, now_a, now_b. by split_and!. Qed.

Lemma reach_turn w a a' b :
  sys_reach (a, b) -> from_inbox (e_sent b) w -> turn w a = Some a' -> sys_reach (a', b).
Proof.
  intros Hr Hw Ht. unfold turn in Ht. destruct (e_running a) eqn:E; [|done].
  destruct (process_turn w (e_proc a)) eqn:Ep; simplify_eq. eapply reach_step; [done|]. by eapply step_wake.
Qed.

Lemma reach_arrive addr clk ds a a' b :
  sys_reach (a, b) -> Forall (fun d => d ∈ e_sent b) ds -> arrive addr clk ds a = Some a' -> sys_reach (a', b).
Proof.
  intros Hr Hds. revert a Hr. induction Hds as [|d ds Hd _ IH]; intros a Hr; cbn [arrive]; [by intros [= <-]|].
  destruct (turn _ a) as [a1|] eqn:Et; [|done]. cbn [mbind option_bind]. apply IH.
  eapply reach_turn; [exact Hr| |exact Et]. done.
Qed.

Lemma reach_write data tx now a a' b :
  sys_reach (a, b) -> s_next_seq (e_inner a) + len (pieces_of (e_inner a) data) < 2 ^ 31 ->
  app_write data tx now a = Some a' -> sys_reach (a', b).
Proof.
  intros Hr Hlt. unfold app_write. destruct (prepare_write _ _ _) as [[prep| |] s] eqn:E; try done.
  destruct (send_data_packets _ _ _ _) as [[effs s']| |] eqn:E'; try done. intros [= <-].
  eapply reach_step; [eapply reach_step; [exact Hr|by eapply step_prepare_write]|].
  refine (step_send_write (e_sent b) _ (length (e_writes a)) (mkWrite prep (s_next_seq s) data false tx None)
    now effs s' _ eq_refl eq_refl E').
  cbn. by rewrite lookup_app_r, Nat.sub_diag by lia.
Qed.

Definition run_addr : SocketAddr := unspecified.
Definition run_clk : nat -> Instant := fun _ => 1000000.
Definition run_clk2 : nat -> nat -> Instant := fun _ _ => 1000000.
Definition run_text : list Z := [104; 101; 108; 108; 111].

(** Two writes whose packets are sent and all lost. *)
Definition run_a0 : Endpoint := connected_to 7 run_addr 0.
Definition run_b0 : Endpoint := connected_to 9 run_addr 0.
Definition run_a1 : Endpoint := default run_a0 (app_write run_text 1 0 run_a0).
Definition run_a2 : Endpoint := default run_a0 (app_write [33; 33] 2 0 run_a1).
Definition run_a3 : Endpoint := default run_a0 (turn (WakePacing run_clk2 1000000) run_a2).
(** The same packets, arriving twice and in the wrong order, and the answers. *)
Definition run_b3 : Endpoint := default run_b0 (arrive run_addr run_clk2 (rev (e_sent run_a3) ++ e_sent run_a3) run_b0).
Definition run_a4 : Endpoint := default run_a0 (arrive run_addr run_clk2 (e_sent run_b3) run_a3).

Ltac by_vm := vm_compute; reflexivity.

Lemma run_reach3 : sys_reach (run_a3, run_b0).
Proof.
  eapply (reach_turn (WakePacing run_clk2 1000000) run_a2); [|done|by_vm].
  eapply (reach_write [33; 33] 2 0 run_a1); [|by_vm|by_vm].
  eapply (reach_write run_text 1 0 run_a0); [|by_vm|by_vm].
  by apply (reach_start 9 7).
Qed.

Lemma all_in (l k : list (list Z)) : forallb (fun d => bool_decide (d ∈ k)) l = true -> Forall (fun d => d ∈ k) l.
Proof. rewrite forallb_forall, Forall_forall. intros H d Hd. eapply bool_decide_eq_true, H. by apply list_elem_of_In. Qed.

Lemma run_reach4 : sys_reach (run_a4, run_b3).
Proof.
  eapply (reach_arrive run_addr run_clk2 (e_sent run_b3) run_a3); [|apply all_in; by_vm|by_vm].
  apply reach_swap.
  eapply (reach_arrive run_addr run_clk2 (rev (e_sent run_a3) ++ e_sent run_a3) run_b0); [|apply all_in; by_vm|by_vm].
  apply reach_swap, run_reach3.
Qed.

(** Duplicated and reordered packets: everything is read once, both writes
    resolved. *)
Lemma streams_in_order_witness :
  in_order run_a4 run_b3 /\ bytes_read run_b3 = run_text ++ [33; 33] /\ e_done run_a4 = [(1%nat, Ok tt); (2%nat, Ok tt)].
Proof. split; [apply (proj1 (streams_in_order run_a4 run_b3 run_reach4))|]. split; by_vm. Defined.

Lemma streams_never_fail_witness :
  exists r, process_turn (WakePacket run_addr (default [] (head (e_sent run_b3))) true (0, None, false) run_clk)
              (e_proc run_a4) = Ok r.
Proof.
  apply (proj1 (streams_never_fail run_a4 run_b3 run_reach4)); [by_vm|].
  change (default [] (head (e_sent run_b3)) ∈ e_sent run_b3). apply (bool_decide_unpack _). vm_compute. exact I.
Defined.

(** Both packets are lost; the timeout brings them through. *)
Lemma timeout_recovers_witness :
  exists a1 sent, turn (WakeRto run_clk) run_a3 = Some a1 /\ e_sent a1 = e_sent run_a3 ++ sent /\
  forall order, order ≡ₚ sent ->
    exists b1, arrive run_addr run_clk2 order run_b0 = Some b1 /\ bytes_read b1 = run_text ++ [33; 33].
Proof.
  destruct (timeout_recovers run_a3 run_b0 run_clk run_addr run_clk2 run_reach3) as (a1 & sent & H1 & H2 & H3);
    [by_vm|by_vm|by_vm| |by_vm|split; by vm_compute|].
  - intros q Hq. change (s_next_seq (e_inner run_a3)) with 2 in Hq.
    assert (q = 0 \/ q = 1) as [->| ->] by lia; (eexists; by_vm).
  - exists a1, sent. split; [exact H1|]. split; [exact H2|]. intros order Ho.
    destruct (H3 order Ho) as (b1 & Hb1 & Hread & _). exists b1. split; [exact Hb1|]. rewrite Hread. by_vm.
Defined.

Lemma sack_readback_witness :
  let rs := replicate 32 (mkSackRange 5 6) in
  Forall range_ok rs /\ exists d h, ack_packet_bytes 1 2 rs = Ok d /\ Header_decode d = Ok h /\ packet_sacks h d = None.
Proof.
  intros rs. assert (Forall range_ok rs) as Hr by (apply (bool_decide_unpack _); vm_compute; exact I).
  split; [exact Hr|]. destruct (sack_readback 1 2 rs) as (d & h & H1 & H2 & _ & H4); [done|done|exact Hr|done|].
  exists d, h. split; [exact H1|]. split; [exact H2|]. rewrite H4. by_vm.
Defined.

(** A write of one full packet is sent as an MTU probe and acknowledged between
    the halves of a write of 1200 bytes. *)
Definition race_data : list Z := replicate 1200 7.
Definition race_a1 : Endpoint := default run_a0 (app_write (replicate 1180 1) 1 0 run_a0).
Definition race_a2 : Endpoint := default run_a0 (turn (WakePacing run_clk2 1000000) race_a1).
Definition race_b : Endpoint := default run_b0 (arrive run_addr run_clk2 (e_sent race_a2) run_b0).
Definition race_prep : outcome UdxError WritePrep * StreamInner := prepare_write 1200 2 (e_inner race_a2).
Definition race_w : WriteRec :=
  mkWrite (match race_prep.1 with Ok p => p | _ => mkPrep run_addr 0 0 0 end) (s_next_seq race_prep.2) race_data false 2 None.
Definition race_a3 : Endpoint :=
  perform [] (set_inner race_prep.2 (e_proc race_a2)) (e_running race_a2) (e_writes race_a2 ++ [race_w]) race_a2.
Definition race_a4 : Endpoint := default run_a0 (arrive run_addr run_clk2 (e_sent race_b) race_a3).
Definition race_send : list Effect * StreamInner :=
  match send_data_packets (w_prep race_w) race_data 0 (e_inner race_a4) with Ok r => r | _ => ([], e_inner race_a4) end.
Definition race_a5 : Endpoint :=
  perform race_send.1 (set_inner race_send.2 (e_proc race_a4)) (e_running race_a4)
    (<[1%nat := set_pieces (pieces_of (e_inner race_a4) race_data) race_w]> (e_writes race_a4)) race_a4.

Lemma race_reach : sys_reach (race_a5, race_b).
Proof.
  eapply reach_step; [|apply (step_send_write (e_sent race_b) race_a4 1%nat race_w 0); by_vm].
  eapply (reach_arrive run_addr run_clk2 (e_sent race_b) race_a3); [|apply all_in; by_vm|by_vm].
  eapply reach_step; [|apply (step_prepare_write (e_sent race_b) race_a2 race_data 2); by_vm].
  apply reach_swap. eapply (reach_arrive run_addr run_clk2 (e_sent race_a2) run_b0); [|apply all_in; by_vm|by_vm].
  apply reach_swap. eapply (reach_turn (WakePacing run_clk2 1000000) race_a1); [|done|by_vm].
  eapply (reach_write (replicate 1180 1) 1 0 run_a0); [|by_vm|by_vm]. by apply (reach_start 9 7).
Qed.

(** Two numbers were reserved, one packet was built: the receiver never gets
    past it. *)
Lemma short_write_stalls_witness :
  s_next_seq (e_inner race_a5) = 3 /\ s_next_remote_seq (e_inner race_b) <= 2.
Proof.
  split; [by_vm|].
  apply (short_write_stalls race_a5 race_b 1%nat (set_pieces [race_data] race_w) [race_data] race_reach); by_vm.
Defined.

(** Sequence numbers do not wrap: an acknowledgement that lies after [q] in the
    wrapping order but is a smaller number leaves packet [q] in flight. *)
Lemma wrapped_ack_keeps (s : StreamInner) (ack q : Z) (now : Instant) :
  tuned s -> seq_after ack q = true -> ack <= q -> is_Some (s_outgoing s !! q) ->
  exists completed rate s', on_cumulative_ack ack now s = Ok (completed, rate, s') /\ is_Some (s_outgoing s' !! q).
Proof.
  intros Ht _ Hle Hq. destruct (cumulative_completes ack now s Ht) as (completed & rate & s' & E & _).
  exists completed, rate, s'. split; [done|].
  destruct (ev_keep _ _ _ _ (evolves_cumulative ack now (fun _ => False) s _ _ _ Ht E) q Hq); [lia|done].
Qed.
