(* ===== verification/Crypto.v ===== *)
(** * Crypto: the signable buffers of [peeroxide-dht/src/crypto.rs]

    BLAKE2b and Ed25519 are third-party code: the class [CryptoPrims] holds
    the functions the source calls, with the laws the code relies on, the
    lengths of a digest and of a public key. *)

From S2P Require Import Prelude RustStd CompactEncoding Codec HyperdhtMessages HyperdhtWire.
From Stdlib Require Import Ascii.

#[local] Open Scope Z_scope.

Class CryptoPrims : Type := {
  (** [Blake2b256::digest]; updating in parts hashes the concatenation. *)
  blake2b256 : list Z -> list Z;
  (** [Blake2bMac256] with a key. *)
  blake2b_mac256 : list Z -> list Z -> list Z;
  (** [SigningKey::from_bytes(seed).sign(message)]. *)
  ed25519_sign : list Z -> list Z -> list Z;
  (** [SigningKey::from_bytes(seed).verifying_key()]. *)
  ed25519_public : list Z -> list Z;
  (** [VerifyingKey::from_bytes(pk)] succeeds. *)
  ed25519_valid_key : list Z -> bool;
  (** [verifying_key.verify(message, &sig).is_ok()], by key, message, signature. *)
  ed25519_verify : list Z -> list Z -> list Z -> bool
}.

(** Digests and public keys are 32 bytes. *)
Class CryptoLaws (C : CryptoPrims) : Prop := {
  blake2b256_ok data : fixed_ok 32 (blake2b256 data);
  ed25519_public_ok seed : fixed_ok 32 (ed25519_public seed)
}.

(** [KeyPair] of [hyperdht.rs]: the secret key is the seed followed by the
    public key. *)
Record KeyPair := mkKeyPair { kp_public_key : list Z; kp_secret_key : list Z }.

Section Crypto.
Context `{CryptoPrims}.

Definition KeyPair_from_seed (seed : list Z) : KeyPair :=
  let pk := ed25519_public seed in mkKeyPair pk (seed ++ pk).

Definition hash (data : list Z) : list Z := blake2b256 data.
Definition hash_batch (parts : list (list Z)) : list Z := blake2b256 (mjoin parts).
Definition discovery_key (public_key : list Z) : list Z :=
  blake2b_mac256 public_key (string_bytes "hypercore").

(** [ns] is the digest of the name followed by the id byte. *)
Definition namespace (name : string) (ids : list Z) : list (list Z) :=
  let name_hash := blake2b256 (string_bytes name) in
  (fun id => blake2b256 (name_hash ++ [id])) <$> ids.
Definition namespace_at (id : Z) : list Z :=
  nth 0 (namespace "hyperswarm/dht" [id]) [].
Definition NS_ANNOUNCE : list Z := namespace_at 4.
Definition NS_UNANNOUNCE : list Z := namespace_at 5.
Definition NS_MUTABLE_PUT : list Z := namespace_at 6.
Definition NS_PEER_HANDSHAKE : list Z := namespace_at 0.
Definition NS_PEER_HOLEPUNCH : list Z := namespace_at 1.

Definition sign_detached (message secret_key : list Z) : list Z :=
  ed25519_sign (take 32 secret_key) message.
Definition verify_detached (signature message public_key : list Z) : bool :=
  if ed25519_valid_key public_key then ed25519_verify public_key message signature else false.

Definition ann_signable (target token id peer_encoded refresh ns : list Z) : list Z :=
  ns ++ hash_batch [target; id; token; peer_encoded; refresh].

(** The encoder writes into a buffer it has measured; the panic of a short
    buffer is the only failure. *)
Definition mutable_signable (ns : list Z) (seq : Z) (value : list Z)
    : outcome EncodingError (list Z) :=
  match to_bytes (fun s => preencode_buffer (preencode_uint s seq) (Some value))
          (encode_uint seq ;; encode_buffer (Some value)) with
  | Ok buffer => Ok (ns ++ hash buffer)
  | Err e => Err e
  | Panic => Panic
  end.

(** The signed bytes of a mutable record: namespace, then the digest of its
    encoded [MutableSignable]. *)
Lemma mutable_signable_spec ns seq value :
  in_u 64 seq -> fits value ->
  mutable_signable ns seq value =
    Ok (ns ++ hash (wire_mutable_signable (mkSignable seq value))).
Proof.
  intros Hs Hv. unfold mutable_signable.
  rewrite (to_bytes_spec _ _ (wire_mutable_signable (mkSignable seq value))); [done|..].
  - by apply (preencode_mutable_signable_spec new (mkSignable seq value)).
  - by apply (Writes_mutable_signable (mkSignable seq value)).
Qed.

(** A signable covers the namespace and all its parts. *)
Lemma ann_signable_spec target token id peer refresh ns :
  ann_signable target token id peer refresh ns =
    ns ++ hash (target ++ id ++ token ++ peer ++ refresh).
Proof. unfold ann_signable, hash_batch, hash. cbn. by rewrite app_nil_r. Qed.
End Crypto.
