(* ===== verification/ToyCrypto.v ===== *)
(** * ToyCrypto: a concrete hash and key derivation for the witnesses

    The digest is the last 32 bytes of the input, so short inputs that differ
    have different digests; the verifier accepts everything. *)

From S2P Require Import Prelude Codec Crypto.

#[local] Open Scope Z_scope.

Definition tail_digest (data : list Z) : list Z :=
  rev (take 32 (rev ((fun z => z mod 256) <$> (replicate 32 0 ++ data)))).
Definition tail_crypto : CryptoPrims := {|
  blake2b256 := tail_digest;
  blake2b_mac256 _ := tail_digest;
  ed25519_sign _ _ := replicate 64 0;
  ed25519_public := tail_digest;
  ed25519_valid_key _ := true;
  ed25519_verify _ _ _ := true
|}.
Lemma tail_digest_ok data : fixed_ok 32 (tail_digest data).
Proof.
  unfold tail_digest. split.
  - apply Forall_rev, Forall_take, Forall_rev, Forall_fmap, Forall_forall. intros z _. cbn.
    unfold is_byte. apply Z.mod_pos_bound. lia.
  - unfold len. rewrite length_rev, length_take, length_rev, length_fmap, length_app, length_replicate. lia.
Qed.
#[global] Instance tail_laws : CryptoLaws tail_crypto.
Proof. split; apply tail_digest_ok. Qed.

