(* ===== verification/DeadDropWire.v ===== *)
(** * DeadDropWire: the frames of a dead drop, version 2

    [peeroxide-cli/src/cmd/deaddrop/v2/wire.rs] and the need-list codec of
    [need.rs]: data chunks, root and non-root index chunks and need lists,
    with the round trip of each and what a decoder accepts.  [keys.rs]: the
    keys and addresses of a drop over the class [CryptoPrims]. *)

From S2P Require Import Prelude RustStd Chunks Codec Crypto.
From Stdlib Require Import Ascii.

#[local] Open Scope Z_scope.

Definition VERSION : Z := 2.
Definition MAX_CHUNK_SIZE : Z := 1000.
Definition DATA_HEADER_SIZE : Z := 2.
Definition DATA_PAYLOAD_MAX : Z := MAX_CHUNK_SIZE - DATA_HEADER_SIZE.
Definition NON_ROOT_INDEX_HEADER_SIZE : Z := 1.
Definition NON_ROOT_INDEX_SLOT_CAP : Z := (MAX_CHUNK_SIZE - NON_ROOT_INDEX_HEADER_SIZE) / 32.
Definition ROOT_INDEX_HEADER_SIZE : Z := 1 + 8 + 4.
Definition ROOT_INDEX_SLOT_CAP : Z := (MAX_CHUNK_SIZE - ROOT_INDEX_HEADER_SIZE) / 32.
Definition NEED_LIST_HEADER_SIZE : Z := 1 + 2.
Definition NEED_ENTRY_SIZE : Z := 8.
Definition NEED_LIST_ENTRY_CAP : Z := (MAX_CHUNK_SIZE - NEED_LIST_HEADER_SIZE) / NEED_ENTRY_SIZE.
Definition HASH_LEN : Z := 32.

Inductive WireError :=
| Empty
| BadVersion (b : Z)
| Truncated (needed got : Z)
| BadSlotByteLength (n : Z)
| OversizedChunk (n : Z)
| BadCount (declared computed : Z)
| InvalidEntry (start end_ : Z).

(** ** Data chunks *)

Definition encode_data_chunk (salt : Z) (payload : list Z) : list Z :=
  [VERSION] ++ [salt] ++ payload.

Definition first_byte (bytes : list Z) : Z := nth 0 bytes 0.

Definition decode_data_chunk (bytes : list Z) : outcome WireError (list Z) :=
  if len bytes =? 0 then Err Empty
  else if negb (first_byte bytes =? VERSION) then Err (BadVersion (first_byte bytes))
  else if len bytes <? DATA_HEADER_SIZE then Err (Truncated DATA_HEADER_SIZE (len bytes))
  else Ok (drop (Z.to_nat DATA_HEADER_SIZE) bytes).

(** ** Index chunks *)

Definition encode_root_index (file_size crc32c : Z) (slots : list (list Z)) : list Z :=
  [VERSION] ++ to_le 8 file_size ++ to_le 4 crc32c ++ mjoin slots.

Definition encode_non_root_index (slots : list (list Z)) : list Z := [VERSION] ++ mjoin slots.

Record RootIndex := mkRootIndex {
  ri_file_size : Z;
  ri_crc32c : Z;
  ri_slots : list (list Z)
}.

Definition decode_root_index (bytes : list Z) : outcome WireError RootIndex :=
  if len bytes =? 0 then Err Empty
  else if negb (first_byte bytes =? VERSION) then Err (BadVersion (first_byte bytes))
  else if len bytes <? ROOT_INDEX_HEADER_SIZE then
    Err (Truncated ROOT_INDEX_HEADER_SIZE (len bytes))
  else if MAX_CHUNK_SIZE <? len bytes then Err (OversizedChunk (len bytes))
  else
    let file_size := from_le (slice bytes 1 9) in
    let crc32c := from_le (slice bytes 9 13) in
    let slot_bytes := drop (Z.to_nat ROOT_INDEX_HEADER_SIZE) bytes in
    if negb (len slot_bytes mod HASH_LEN =? 0) then Err (BadSlotByteLength (len slot_bytes))
    else Ok (mkRootIndex file_size crc32c (chunks_exact (Z.to_nat HASH_LEN) slot_bytes)).

Definition decode_non_root_index (bytes : list Z) : outcome WireError (list (list Z)) :=
  if len bytes =? 0 then Err Empty
  else if negb (first_byte bytes =? VERSION) then Err (BadVersion (first_byte bytes))
  else if MAX_CHUNK_SIZE <? len bytes then Err (OversizedChunk (len bytes))
  else
    let slot_bytes := drop (Z.to_nat NON_ROOT_INDEX_HEADER_SIZE) bytes in
    if negb (len slot_bytes mod HASH_LEN =? 0) then Err (BadSlotByteLength (len slot_bytes))
    else Ok (chunks_exact (Z.to_nat HASH_LEN) slot_bytes).

(** ** Need lists *)

Record NeedEntry := mkNeedEntry { ne_start : Z; ne_end : Z }.
#[global] Instance NeedEntry_eq_dec : EqDecision NeedEntry.
Proof. solve_decision. Defined.

Definition encode_entry (entry : NeedEntry) : list Z :=
  to_le 4 (ne_start entry) ++ to_le 4 (ne_end entry).

Definition encode_need_list (entries : list NeedEntry) : list Z :=
  [VERSION] ++ to_le 2 (as_u16 (len entries)) ++ mjoin (encode_entry <$> entries).

Definition div_ceil (a b : Z) : Z := (a + b - 1) / b.

(** The loop over the eight-byte pieces, which stops at an invalid entry. *)
Fixpoint decode_entries (pieces : list (list Z)) : outcome WireError (list NeedEntry) :=
  match pieces with
  | [] => Ok []
  | chunk :: pieces =>
      let start := from_le (slice chunk 0 4) in
      let end_ := from_le (slice chunk 4 8) in
      if end_ <=? start then Err (InvalidEntry start end_)
      else match decode_entries pieces with
           | Ok entries => Ok (mkNeedEntry start end_ :: entries)
           | Err e => Err e
           | Panic => Panic
           end
  end.

Definition decode_need_list (bytes : list Z) : outcome WireError (list NeedEntry) :=
  if len bytes =? 0 then Ok []
  else if negb (first_byte bytes =? VERSION) then Err (BadVersion (first_byte bytes))
  else if len bytes <? NEED_LIST_HEADER_SIZE then
    Err (Truncated NEED_LIST_HEADER_SIZE (len bytes))
  else
    let declared := from_le (slice bytes 1 3) in
    let entry_bytes := drop (Z.to_nat NEED_LIST_HEADER_SIZE) bytes in
    if negb (len entry_bytes mod NEED_ENTRY_SIZE =? 0) then
      Err (Truncated (NEED_LIST_HEADER_SIZE +
                      div_ceil (len entry_bytes) NEED_ENTRY_SIZE * NEED_ENTRY_SIZE) (len bytes))
    else
      let computed := len entry_bytes / NEED_ENTRY_SIZE in
      if negb (computed =? declared) then Err (BadCount declared computed)
      else decode_entries (chunks_exact (Z.to_nat NEED_ENTRY_SIZE) entry_bytes).

(** ** Keys and addresses *)

Section Keys.
Context `{CryptoPrims}.

Definition salt (root_seed : list Z) : Z := 0.
Definition derive_index_keypair (root_seed : list Z) (i : Z) : KeyPair :=
  KeyPair_from_seed (hash (root_seed ++ string_bytes "idx" ++ to_le 4 i)).
Definition need_topic (root_pk : list Z) : list Z := hash (root_pk ++ string_bytes "need").
Definition ack_topic (root_pk : list Z) : list Z := hash (root_pk ++ string_bytes "ack").
Definition data_chunk_address (encoded_chunk : list Z) : list Z := hash encoded_chunk.
End Keys.

(** ** What the codecs do *)

Ltac dd_consts :=
  unfold DATA_PAYLOAD_MAX, NON_ROOT_INDEX_SLOT_CAP, ROOT_INDEX_SLOT_CAP,
    NEED_LIST_ENTRY_CAP, ROOT_INDEX_HEADER_SIZE, NON_ROOT_INDEX_HEADER_SIZE,
    NEED_LIST_HEADER_SIZE, DATA_HEADER_SIZE, MAX_CHUNK_SIZE, NEED_ENTRY_SIZE, HASH_LEN,
    VERSION in *.

Definition slots_ok (slots : list (list Z)) : Prop := Forall (fixed_ok 32) slots.

Lemma slots_lengths slots :
  slots_ok slots -> Forall (fun x => length x = Z.to_nat HASH_LEN) slots.
Proof. intros H. eapply Forall_impl; [exact H|]. intros x [_ Hl]. unfold len in Hl. dd_consts. lia. Qed.

Lemma mjoin_len (n : Z) (ls : list (list Z)) :
  Forall (fun x => len x = n) ls -> len (mjoin ls) = n * len ls.
Proof.
  induction 1 as [|x ls Hx _ IH]; [change (len (mjoin [])) with 0; lens; lia|].
  rewrite mjoin_cons. lens. lia.
Qed.

Lemma slots_len slots : slots_ok slots -> len (mjoin slots) = 32 * len slots.
Proof. intros H. apply mjoin_len. eapply Forall_impl; [exact H|]. by intros x []. Qed.

Lemma decode_data_chunk_encode s payload :
  decode_data_chunk (encode_data_chunk s payload) = Ok payload.
Proof.
  unfold decode_data_chunk, encode_data_chunk, first_byte. lens. pose proof (len_nonneg payload).
  dd_consts. rewrite (proj2 (Z.eqb_neq _ _)) by lia. cbn [nth app negb Z.eqb Pos.eqb].
  by rewrite (proj2 (Z.ltb_ge _ _)) by lia.
Qed.

Lemma decode_root_index_encode file_size crc slots :
  in_u 64 file_size -> in_u 32 crc -> slots_ok slots -> len slots <= ROOT_INDEX_SLOT_CAP ->
  decode_root_index (encode_root_index file_size crc slots)
    = Ok (mkRootIndex file_size crc slots).
Proof.
  intros Hf Hc Hs Hl. unfold decode_root_index, encode_root_index, first_byte.
  pose proof (slots_len _ Hs) as Hsl. pose proof (len_nonneg slots).
  assert (Hd : drop (Z.to_nat ROOT_INDEX_HEADER_SIZE)
            ([VERSION] ++ to_le 8 file_size ++ to_le 4 crc ++ mjoin slots) = mjoin slots).
  { rewrite !app_assoc. apply drop_app_length'. rewrite !length_app, !length_to_le. done. }
  rewrite Hd. lens. rewrite Hsl. change (ROOT_INDEX_SLOT_CAP) with 30 in Hl. dd_consts.
  rewrite (proj2 (Z.eqb_neq _ _)) by lia. cbn [nth app negb Z.eqb Pos.eqb].
  rewrite !(proj2 (Z.ltb_ge _ _)) by lia.
  rewrite (Z.mul_comm 32), Z.mod_mul by lia. cbn [negb Z.eqb].
  rewrite chunks_exact_mjoin by (lia || by apply slots_lengths).
  f_equal. change (2 :: ?l) with ([2] ++ l). f_equal.
  - rewrite slice_mid by (lens; lia). by apply from_le_to_le_id.
  - rewrite (app_assoc [2]), slice_mid by (lens; lia). by apply from_le_to_le_id.
Qed.

Lemma decode_non_root_index_encode slots :
  slots_ok slots -> len slots <= NON_ROOT_INDEX_SLOT_CAP ->
  decode_non_root_index (encode_non_root_index slots) = Ok slots.
Proof.
  intros Hs Hl. unfold decode_non_root_index, encode_non_root_index, first_byte.
  pose proof (slots_len _ Hs) as Hsl. pose proof (len_nonneg slots).
  assert (drop (Z.to_nat NON_ROOT_INDEX_HEADER_SIZE) ([VERSION] ++ mjoin slots) = mjoin slots) as -> by done.
  lens. rewrite Hsl. change NON_ROOT_INDEX_SLOT_CAP with 31 in Hl. dd_consts.
  rewrite (proj2 (Z.eqb_neq _ _)) by lia. cbn [nth app negb Z.eqb Pos.eqb].
  rewrite !(proj2 (Z.ltb_ge _ _)) by lia.
  rewrite (Z.mul_comm 32), Z.mod_mul by lia. cbn [negb Z.eqb].
  by rewrite chunks_exact_mjoin by (lia || by apply slots_lengths).
Qed.

(** What a decoded index holds. *)
Lemma chunks_exact_slots bs :
  bytes_ok bs -> slots_ok (chunks_exact (Z.to_nat HASH_LEN) bs) /\
  32 * len (chunks_exact (Z.to_nat HASH_LEN) bs) <= len bs.
Proof.
  intros Hb. change (Z.to_nat HASH_LEN) with 32%nat.
  pose proof (chunks_exact_lengths 32 bs ltac:(lia)) as Hl.
  assert (Hs : slots_ok (chunks_exact 32 bs)).
  { pose proof (chunks_Forall is_byte 32 (take (length bs / 32 * 32) bs) ltac:(lia) (Forall_take _ _ _ Hb)) as Hc.
    fold (chunks_exact 32 bs) in Hc. unfold slots_ok.
    rewrite Forall_forall in *. intros x Hx. split; [by apply Hc|].
    unfold len. rewrite Hl by done. done. }
  split; [done|]. rewrite <- slots_len by done. unfold chunks_exact.
  rewrite chunks_concat by lia. unfold len. rewrite length_take. lia.
Qed.

Lemma decode_root_index_typed bytes r :
  bytes_ok bytes -> decode_root_index bytes = Ok r ->
  in_u 64 (ri_file_size r) /\ in_u 32 (ri_crc32c r) /\ slots_ok (ri_slots r) /\
  len (ri_slots r) <= ROOT_INDEX_SLOT_CAP.
Proof.
  intros Hb. unfold decode_root_index. change ROOT_INDEX_SLOT_CAP with 30.
  repeat (case_match; [done|]). intros [= <-]. cbn [ri_file_size ri_crc32c ri_slots].
  apply Z.ltb_ge in H1, H2. dd_consts.
  destruct (chunks_exact_slots (drop 13 bytes)) as [Hs Hl]; [by apply Forall_drop|].
  split_and!; [|..|done|].
  - pose proof (from_le_range (slice bytes 1 9) (slice_bytes _ _ _ Hb)) as Hr.
    by rewrite slice_len in Hr by lia.
  - pose proof (from_le_range (slice bytes 9 13) (slice_bytes _ _ _ Hb)) as Hr.
    by rewrite slice_len in Hr by lia.
  - change (Z.to_nat (1 + 8 + 4)) with 13%nat. change (Z.to_nat HASH_LEN) with 32%nat in Hl.
    change (Z.to_nat 32) with 32%nat. unfold len in *. rewrite length_drop in Hl. lia.
Qed.

Lemma decode_non_root_index_typed bytes slots :
  bytes_ok bytes -> decode_non_root_index bytes = Ok slots ->
  slots_ok slots /\ len slots <= NON_ROOT_INDEX_SLOT_CAP.
Proof.
  intros Hb. unfold decode_non_root_index. change NON_ROOT_INDEX_SLOT_CAP with 31.
  repeat (case_match; [done|]). intros [= <-]. apply Z.ltb_ge in H1. dd_consts.
  destruct (chunks_exact_slots (drop 1 bytes)) as [Hs Hl]; [by apply Forall_drop|].
  split; [done|]. change (Z.to_nat HASH_LEN) with 32%nat in Hl. change (Z.to_nat 1) with 1%nat.
  change (Z.to_nat 32) with 32%nat. unfold len in *. rewrite length_drop in Hl. lia.
Qed.

(** ** Need lists *)

Definition entry_ok (e : NeedEntry) : Prop :=
  in_u 32 (ne_start e) /\ in_u 32 (ne_end e) /\ ne_start e < ne_end e.
#[global] Instance entry_ok_dec e : Decision (entry_ok e).
Proof. unfold entry_ok. apply _. Defined.

Lemma decode_entries_encode entries :
  Forall entry_ok entries -> decode_entries (encode_entry <$> entries) = Ok entries.
Proof.
  induction 1 as [|[a b] entries (Ha & Hb & Hab) _ IH]; [done|].
  cbn [fmap list_fmap decode_entries]. cbn [ne_start ne_end] in *.
  assert (slice (encode_entry (mkNeedEntry a b)) 0 4 = to_le 4 a) as ->
    by (apply (slice_mid [] (to_le 4 a) (to_le 4 b)); done).
  assert (slice (encode_entry (mkNeedEntry a b)) 4 8 = to_le 4 b) as ->.
  { unfold encode_entry. cbn [ne_start ne_end]. rewrite <- (app_nil_r (to_le 4 b)) at 1.
    by apply slice_mid. }
  rewrite !from_le_to_le_id by done. rewrite (proj2 (Z.leb_gt _ _)) by done.
  change (decode_entries (list_fmap _ _ encode_entry entries))
    with (decode_entries (encode_entry <$> entries)). by rewrite IH.
Qed.

Lemma encode_entry_len e : len (encode_entry e) = 8.
Proof. done. Qed.

Lemma decode_need_list_encode entries :
  Forall entry_ok entries -> in_u 16 (len entries) ->
  decode_need_list (encode_need_list entries) = Ok entries.
Proof.
  intros He Hl. unfold decode_need_list, encode_need_list, first_byte. unfold as_u16.
  rewrite as_u_id by done.
  set (body := mjoin (encode_entry <$> entries)).
  assert (Hbody : len body = 8 * len entries).
  { unfold body. rewrite (mjoin_len 8); [unfold len; by rewrite length_fmap|].
    apply Forall_fmap, Forall_forall. done. }
  pose proof (len_nonneg entries).
  assert (drop (Z.to_nat NEED_LIST_HEADER_SIZE)
            ([VERSION] ++ to_le 2 (len entries) ++ body) = body) as -> by done.
  assert (slice ([VERSION] ++ to_le 2 (len entries) ++ body) 1 3 = to_le 2 (len entries)) as ->
    by (by apply slice_mid).
  rewrite from_le_to_le_id by done. lens. rewrite Hbody. dd_consts.
  rewrite (proj2 (Z.eqb_neq _ _)) by lia. cbn [nth app negb Z.eqb Pos.eqb].
  rewrite (proj2 (Z.ltb_ge _ _)) by lia. rewrite (Z.mul_comm 8), Z.mod_mul by lia. cbn [negb Z.eqb].
  rewrite Z.div_mul, Z.eqb_refl by lia. cbn [negb].
  unfold body. rewrite chunks_exact_mjoin; [by apply decode_entries_encode|lia|].
  apply Forall_fmap, Forall_forall. done.
Qed.

(** A decoded need list holds at least one position per entry, and encodes to
    the record it came from. *)
Lemma decode_entries_inv pieces entries :
  Forall (fun x => length x = 8%nat) pieces -> Forall (Forall is_byte) pieces ->
  decode_entries pieces = Ok entries ->
  Forall entry_ok entries /\ encode_entry <$> entries = pieces.
Proof.
  intros Hl Hb. revert entries. induction Hl as [|x pieces Hx Hl IH]; intros entries He.
  { by injection He as <-. }
  inversion_clear Hb as [|? ? Hbx Hbp]. cbn [decode_entries] in He.
  case_match eqn:Hle; [done|]. destruct (decode_entries pieces) as [es|?|] eqn:Hes; [|done..].
  injection He as <-. destruct (IH Hbp _ eq_refl) as [IH1 IH2]. apply Z.leb_gt in Hle.
  pose proof (from_le_range (slice x 0 4) (slice_bytes _ _ _ Hbx)) as H1.
  pose proof (from_le_range (slice x 4 8) (slice_bytes _ _ _ Hbx)) as H2.
  rewrite slice_len in H1, H2 by (unfold len; lia).
  split; [constructor; [done|exact IH1]|]. cbn [fmap list_fmap]. f_equal; [|exact IH2].
  unfold encode_entry. cbn [ne_start ne_end].
  pose proof (to_le_from_le (slice x 0 4) (slice_bytes _ _ _ Hbx)) as E1.
  pose proof (to_le_from_le (slice x 4 8) (slice_bytes _ _ _ Hbx)) as E2.
  assert (Hs : slice x 0 4 ++ slice x 4 8 = x) by (do 9 (destruct x as [|? x]; try done)).
  rewrite <- Hs at 3. f_equal; [rewrite <- E1 at 2|rewrite <- E2 at 2]; f_equal;
    unfold slice; rewrite length_take, length_drop; lia.
Qed.

Lemma decode_need_list_inv bytes entries :
  bytes_ok bytes -> bytes <> [] -> decode_need_list bytes = Ok entries ->
  Forall entry_ok entries /\ in_u 16 (len entries) /\ encode_need_list entries = bytes.
Proof.
  intros Hb Hne. unfold decode_need_list.
  case_match eqn:H0; [destruct bytes; [done|]; apply Z.eqb_eq in H0; lens; pose proof (len_nonneg bytes); lia|].
  case_match eqn:H1; [done|]. apply negb_false_iff, Z.eqb_eq in H1.
  case_match eqn:H2; [done|]. apply Z.ltb_ge in H2. dd_consts.
  set (body := drop (Z.to_nat (1 + 2)) bytes).
  case_match eqn:H3; [done|]. apply negb_false_iff, Z.eqb_eq in H3.
  case_match eqn:H4; [done|]. apply negb_false_iff, Z.eqb_eq in H4.
  change (Z.to_nat 8) with 8%nat.
  assert (Hm : (length body mod 8 = 0)%nat) by (unfold len in H3; apply Nat2Z.inj; by rewrite Nat2Z.inj_mod).
  rewrite chunks_exact_id by (lia || done). intros He.
  pose proof (chunks_exact_lengths 8 body ltac:(lia)) as Hl. rewrite chunks_exact_id in Hl by (lia || done).
  apply decode_entries_inv in He as [He1 He2]; [|done|by apply chunks_Forall; [lia|apply Forall_drop]].
  assert (Hbody : mjoin (encode_entry <$> entries) = body).
  { rewrite He2. apply chunks_concat. lia. }
  assert (Hn : len entries = from_le (slice bytes 1 3)).
  { rewrite <- H4, <- Hbody, (mjoin_len 8).
    - unfold len. rewrite length_fmap, (Z.mul_comm 8), Z.div_mul by lia. done.
    - apply Forall_fmap, Forall_forall. done. }
  pose proof (from_le_range (slice bytes 1 3) (slice_bytes _ _ _ Hb)) as Hr.
  rewrite slice_len in Hr by lia. change (8 * (3 - 1)) with 16 in Hr.
  split; [done|]. split; [by rewrite Hn|]. unfold encode_need_list, as_u16.
  rewrite as_u_id, Hn, Hbody by (by rewrite Hn).
  pose proof (to_le_from_le (slice bytes 1 3) (slice_bytes _ _ _ Hb)) as E.
  replace (length (slice bytes 1 3)) with 2%nat in E
    by (unfold slice; rewrite length_take, length_drop; unfold len in H2; lia).
  rewrite E. subst body. do 3 (destruct bytes as [|? bytes]; [done|]). cbn in H1 |- *. by subst.
Qed.
