(* ===== verification/DeadDropTree.v ===== *)
(** * DeadDropTree: the shape and construction of a dead-drop tree

    [v2/tree.rs] (depth and layer sizes from the file size) and [v2/build.rs]
    (the bottom-up construction).  The lemmas give the closed form of a layer,
    the chunks of 31 children each, and of the depth, the least one whose
    capacity holds the data chunks. *)

From S2P Require Import Prelude RustStd Chunks Codec Crypto DeadDropWire.

#[local] Open Scope Z_scope.

(** ** [tree.rs] *)

Definition data_chunk_count (file_size : Z) : Z :=
  if file_size =? 0 then 0 else div_ceil file_size DATA_PAYLOAD_MAX.

(** The loop of [canonical_depth].  A [u64] layer count falls to 30 or less
    within 13 turns, so 64 turns are enough. *)
Fixpoint depth_loop (fuel : nat) (layer_count depth : Z) : Z :=
  match fuel with
  | O => depth
  | S fuel =>
      if ROOT_INDEX_SLOT_CAP <? layer_count then
        depth_loop fuel (div_ceil layer_count NON_ROOT_INDEX_SLOT_CAP) (depth + 1)
      else depth
  end.

Definition canonical_depth (n : Z) : Z :=
  if (n =? 0) || (n <=? ROOT_INDEX_SLOT_CAP) then 0
  else depth_loop 64 (div_ceil n NON_ROOT_INDEX_SLOT_CAP) 1.

Definition saturating_mul (a b : Z) : Z := Z.min (a * b) (2 ^ 64 - 1).

Fixpoint max_data_chunks_from (depth : nat) (cap : Z) : Z :=
  match depth with
  | O => cap
  | S depth => max_data_chunks_from depth (saturating_mul cap NON_ROOT_INDEX_SLOT_CAP)
  end.
Definition max_data_chunks_for_depth (depth : Z) : Z :=
  max_data_chunks_from (Z.to_nat depth) ROOT_INDEX_SLOT_CAP.

Record TreeLayout := mkTreeLayout {
  tl_data_chunk_count : Z;
  tl_depth : Z;
  tl_layer_counts : list Z
}.

(** [count], then its successive quotients, [more] of them. *)
Fixpoint layer_counts_from (more : nat) (count : Z) : list Z :=
  count :: match more with
           | O => []
           | S more => layer_counts_from more (div_ceil count NON_ROOT_INDEX_SLOT_CAP)
           end.

Definition compute_layout (file_size : Z) : TreeLayout :=
  let n := data_chunk_count file_size in
  let depth := canonical_depth n in
  let layer_counts :=
    if 1 <=? depth then
      layer_counts_from (Z.to_nat (depth - 1)) (div_ceil n NON_ROOT_INDEX_SLOT_CAP)
    else [] in
  mkTreeLayout n depth layer_counts.

Definition total_non_root_index_chunks (file_size : Z) : Z :=
  foldr Z.add 0 (tl_layer_counts (compute_layout file_size)).

(** ** [build.rs] *)

Record IndexChunk := mkIndexChunk {
  ic_keypair_index : Z;
  ic_keypair : KeyPair;
  ic_encoded : list Z;
  ic_layer : Z;
  ic_position_in_layer : Z
}.

Record DataChunk := mkDataChunk {
  dc_file_position : Z;
  dc_address : list Z;
  dc_encoded : list Z
}.

Record BuiltTree := mkBuiltTree {
  bt_root_encoded : list Z;
  bt_root_keypair : KeyPair;
  bt_index_chunks : list IndexChunk;
  bt_data_chunks : list DataChunk;
  bt_layout : TreeLayout;
  bt_crc32c : Z
}.

Inductive BuildError :=
| DataCountMismatch (expected got : Z)
| EmptyChunkInNonEmptyFile.

Section Build.
Context `{CryptoPrims}.
Implicit Types (root_seed : list Z).

(** [&children[start..end]], which panics out of range. *)
Definition children_slice (children : list (list Z)) (start end_ : Z)
    : outcome BuildError (list (list Z)) :=
  if (start <=? end_) && (end_ <=? len children) then Ok (slice children start end_) else Panic.

(** The loop over the chunks of one layer, from position [pos] on, [count] of
    them; the leaf layer and the higher layers run the same loop over the data
    addresses or the public keys of the layer below.  Returns the chunks and
    the next key index. *)
Fixpoint build_layer (root_seed : list Z) (layer : Z) (children : list (list Z))
    (count : nat) (pos next_keypair_index : Z) : outcome BuildError (list IndexChunk * Z) :=
  match count with
  | O => Ok ([], next_keypair_index)
  | S count =>
      let start := pos * NON_ROOT_INDEX_SLOT_CAP in
      let end_ := Z.min ((pos + 1) * NON_ROOT_INDEX_SLOT_CAP) (len children) in
      slots ← children_slice children start end_;
      let encoded := encode_non_root_index slots in
      let kp := derive_index_keypair root_seed next_keypair_index in
      '(rest, next) ← build_layer root_seed layer children count (pos + 1)
                        (as_u32 (next_keypair_index + 1));
      Ok (mkIndexChunk next_keypair_index kp encoded layer pos :: rest, next)
  end.

Definition layer_pubkeys (layer : list IndexChunk) : list (list Z) :=
  (fun c => kp_public_key (ic_keypair c)) <$> layer.

(** The layers with the indices [layer_idxs], bottom-up: all their chunks and
    the public keys of the last one. *)
Fixpoint build_layers (root_seed : list Z) (layout : TreeLayout) (layer_idxs : list nat)
    (child_pubkeys : list (list Z)) (next_keypair_index : Z)
    : outcome BuildError (list IndexChunk * list (list Z)) :=
  match layer_idxs with
  | [] => Ok ([], child_pubkeys)
  | layer_idx :: layer_idxs =>
      match tl_layer_counts layout !! layer_idx with
      | None => Panic
      | Some layer_chunk_count =>
          '(layer, next) ← build_layer root_seed (Z.of_nat layer_idx) child_pubkeys
                             (Z.to_nat layer_chunk_count) 0 next_keypair_index;
          '(rest, top) ← build_layers root_seed layout layer_idxs (layer_pubkeys layer) next;
          Ok (layer ++ rest, top)
      end
  end.

Definition build_data_chunk (salt : Z) (i : nat) (payload : list Z) : DataChunk :=
  let encoded := encode_data_chunk salt payload in
  mkDataChunk (Z.of_nat i) (data_chunk_address encoded) encoded.

Definition build_tree (root_seed : list Z) (file_size crc32c : Z)
    (data_payloads : list (list Z)) : outcome BuildError BuiltTree :=
  let salt := salt root_seed in
  let root_keypair := KeyPair_from_seed root_seed in
  let layout := compute_layout file_size in
  let n := tl_data_chunk_count layout in
  let data_chunks := imap (build_data_chunk salt) data_payloads in
  if negb (len data_chunks =? n) then Err (DataCountMismatch n (len data_chunks))
  else if n =? 0 then
    Ok (mkBuiltTree (encode_root_index file_size crc32c []) root_keypair [] data_chunks
          layout crc32c)
  else
    let slots := dc_address <$> data_chunks in
    if tl_depth layout =? 0 then
      Ok (mkBuiltTree (encode_root_index file_size crc32c slots) root_keypair [] data_chunks
            layout crc32c)
    else
      '(index_chunks, child_pubkeys) ←
        build_layers root_seed layout (seq 0 (Z.to_nat (tl_depth layout))) slots 0;
      Ok (mkBuiltTree (encode_root_index file_size crc32c child_pubkeys) root_keypair
            index_chunks data_chunks layout crc32c).

(** The CRC is a library function. *)
Definition build_tree_from_bytes (crc : list Z -> Z) (root_seed file : list Z)
    : outcome BuildError BuiltTree :=
  build_tree root_seed (len file) (crc file) (chunks (Z.to_nat DATA_PAYLOAD_MAX) file).
End Build.

(** ** The depth is the least one that holds the data *)

Abbreviation CAP := NON_ROOT_INDEX_SLOT_CAP.

Lemma div_ceil_le a b c : 0 < b -> (div_ceil a b <= c <-> a <= c * b).
Proof.
  intros Hb. unfold div_ceil. split; intros Ha.
  - pose proof (Z.div_mod (a + b - 1) b ltac:(lia)). pose proof (Z.mod_pos_bound (a + b - 1) b Hb). nia.
  - assert ((a + b - 1) / b < c + 1); [|lia]. apply Z.div_lt_upper_bound; nia.
Qed.

Lemma div_ceil_pos a b : 0 < b -> 0 < a -> 0 < div_ceil a b.
Proof. intros Hb Ha. destruct (Z.lt_ge_cases 0 (div_ceil a b)); [done|]. apply div_ceil_le in H; lia. Qed.

(** [ceil(ceil(n/31^i)/31)], the sizes of the layers. *)
Definition layer_size (n : Z) (i : nat) : Z := div_ceil n (31 ^ Z.of_nat i).

Lemma layer_size_0 n : layer_size n 0 = n.
Proof. unfold layer_size, div_ceil. cbn. rewrite Z.div_1_r. lia. Qed.

Lemma layer_size_S n i : div_ceil (layer_size n i) 31 = layer_size n (S i).
Proof.
  unfold layer_size. rewrite Nat2Z.inj_succ, Z.pow_succ_r by lia.
  set (p := 31 ^ Z.of_nat i). assert (0 < p) by (apply Z.pow_pos_nonneg; lia).
  apply Z.le_antisymm.
  - apply (proj2 (div_ceil_le _ 31 _ ltac:(lia))), (proj2 (div_ceil_le n p _ ltac:(lia))).
    rewrite <- Z.mul_assoc. apply (proj1 (div_ceil_le n (31 * p) _ ltac:(lia))). lia.
  - apply div_ceil_le; [lia|]. rewrite Z.mul_assoc.
    apply (proj1 (div_ceil_le n p _ ltac:(lia))), (proj1 (div_ceil_le _ 31 _ ltac:(lia))). lia.
Qed.

Lemma layer_size_1 n : div_ceil n 31 = layer_size n 1.
Proof. by rewrite <- (layer_size_S n 0), layer_size_0. Qed.

Lemma layer_size_le n i c : layer_size n i <= c <-> n <= c * 31 ^ Z.of_nat i.
Proof. apply div_ceil_le. apply Z.pow_pos_nonneg; lia. Qed.

Lemma depth_loop_spec fuel n i :
  n <= 30 * 31 ^ (Z.of_nat (i + fuel)) ->
  exists d, (i <= d <= i + fuel)%nat /\ depth_loop fuel (layer_size n i) (Z.of_nat i) = Z.of_nat d /\
    layer_size n d <= 30 /\ forall j, (i <= j < d)%nat -> 30 < layer_size n j.
Proof.
  change ROOT_INDEX_SLOT_CAP with 30. revert i. induction fuel as [|fuel IH]; intros i Hn.
  - exists i. rewrite Nat.add_0_r in Hn. split; [lia|]. split; [done|]. split; [by apply layer_size_le|lia].
  - cbn [depth_loop]. change ROOT_INDEX_SLOT_CAP with 30. change CAP with 31.
    destruct (Z.ltb_spec 30 (layer_size n i)) as [Hlt|Hle].
    + rewrite layer_size_S. replace (Z.of_nat i + 1) with (Z.of_nat (S i)) by lia.
      destruct (IH (S i)) as (d & Hd & E & Hle & Hmin).
      { by replace (S i + fuel)%nat with (i + S fuel)%nat by lia. }
      exists d. split; [lia|]. split; [done|]. split; [done|]. intros j Hj.
      destruct (decide (j = i)) as [->|]; [done|]. apply Hmin. lia.
    + exists i. split; [lia|]. split; [done|]. split; [done|lia].
Qed.

Lemma canonical_depth_spec n :
  in_u 64 n ->
  exists d : nat, canonical_depth n = Z.of_nat d /\ layer_size n d <= 30 /\
    forall j : nat, (j < d)%nat -> 30 < layer_size n j.
Proof.
  intros Hn. unfold canonical_depth. change ROOT_INDEX_SLOT_CAP with 30.
  destruct (orb _ _) eqn:Hb.
  - exists 0%nat. split; [done|]. rewrite layer_size_0. split; [|lia].
    apply orb_prop in Hb as [Hb%Z.eqb_eq|Hb%Z.leb_le]; lia.
  - apply orb_false_elim in Hb as [_ Hb%Z.leb_gt].
    change CAP with 31. rewrite layer_size_1.
    destruct (depth_loop_spec 64 n 1) as (d & Hd & E & Hle & Hmin).
    { destruct Hn as [_ Hn]. etransitivity; [apply Z.lt_le_incl, Hn|]. vm_compute. discriminate. }
    exists d. split; [done|]. split; [done|]. intros j Hj.
    destruct j as [|j]; [by rewrite layer_size_0|]. apply Hmin. lia.
Qed.

Lemma layer_counts_from_spec n more i :
  layer_counts_from more (layer_size n i) = (fun j => layer_size n j) <$> seq i (S more).
Proof.
  revert i. induction more as [|more IH]; intros i; [done|].
  cbn [layer_counts_from]. change CAP with 31. rewrite layer_size_S, IH. done.
Qed.

(** The layout in closed form. *)
Lemma compute_layout_spec file_size :
  in_u 64 file_size ->
  let n := data_chunk_count file_size in
  exists d : nat,
    compute_layout file_size =
      mkTreeLayout n (Z.of_nat d) ((fun j => layer_size n j) <$> seq 1 d) /\
    layer_size n d <= 30 /\ forall j : nat, (j < d)%nat -> 30 < layer_size n j.
Proof.
  intros Hf n. destruct (canonical_depth_spec n) as (d & E & Hle & Hmin).
  { unfold n, data_chunk_count, in_u in *. case_match eqn:Hz; [lia|].
    change DATA_PAYLOAD_MAX with 998. apply Z.eqb_neq in Hz.
    split; [apply Z.lt_le_incl, div_ceil_pos; lia|].
    apply Z.le_lt_trans with file_size; [apply div_ceil_le|]; lia. }
  exists d. split; [|done]. unfold compute_layout. fold n. rewrite E. f_equal.
  destruct d as [|d]; [done|]. rewrite (proj2 (Z.leb_le _ _)) by lia.
  change CAP with 31. rewrite layer_size_1.
  replace (Z.to_nat (Z.of_nat (S d) - 1)) with d by lia. apply layer_counts_from_spec.
Qed.

(** ** What [build_tree] builds

    [kids L] are the children of the index layer [L]: the data addresses for
    the leaf layer, the public keys of the layer below for the others. *)
Section Shape.
Context `{CryptoPrims}.
Context (root_seed : list Z) (addrs : list (list Z)).

(** Key index of the first chunk of layer [L]. *)
Definition layer_offset (L : nat) : Z :=
  foldr Z.add 0 ((fun j => layer_size (len addrs) j) <$> seq 1 L).

Definition node (L : nat) (next : Z) (p : nat) (slots : list (list Z)) : IndexChunk :=
  mkIndexChunk (next + Z.of_nat p) (derive_index_keypair root_seed (next + Z.of_nat p))
    (encode_non_root_index slots) (Z.of_nat L) (Z.of_nat p).
Definition layer_of (L : nat) (next : Z) (children : list (list Z)) : list IndexChunk :=
  imap (node L next) (chunks 31 children).

Fixpoint kids (L : nat) : list (list Z) :=
  match L with
  | O => addrs
  | S L => layer_pubkeys (layer_of L (layer_offset L) (kids L))
  end.
Definition index_layer (L : nat) : list IndexChunk := layer_of L (layer_offset L) (kids L).

Lemma layer_offset_S L : layer_offset (S L) = layer_offset L + layer_size (len addrs) (S L).
Proof.
  unfold layer_offset. rewrite seq_S, fmap_app, foldr_app. cbn [fmap list_fmap foldr].
  generalize ((λ j : nat, layer_size (len addrs) j) <$> seq 1 L). intros l.
  rewrite Z.add_0_r. induction l as [|x l IH]; cbn [foldr]; [done|]. lia.
Qed.

Lemma layer_offset_mono L d :
  (forall j, (j <= d)%nat -> 0 <= layer_size (len addrs) j) -> (L <= d)%nat ->
  layer_offset L <= layer_offset d.
Proof.
  intros Hpos. induction 1 as [|d Hle IH]; [lia|]. rewrite layer_offset_S.
  pose proof (Hpos (S d) ltac:(lia)). assert (layer_offset L <= layer_offset d); [|lia].
  apply IH. intros j Hj. apply Hpos. lia.
Qed.

Lemma length_index_layer L : len (index_layer L) = div_ceil (len (kids L)) 31.
Proof. unfold index_layer, layer_of, len at 1. rewrite length_imap, length_chunks by lia. done. Qed.

Lemma len_kids L : len (kids L) = layer_size (len addrs) L.
Proof.
  induction L as [|L IH]; cbn [kids]; [by rewrite layer_size_0|].
  unfold layer_pubkeys, len at 1. rewrite length_fmap.
  change (Z.of_nat (length ?l)) with (len l). fold (index_layer L).
  by rewrite length_index_layer, IH, layer_size_S.
Qed.

Lemma len_index_layer L : len (index_layer L) = layer_size (len addrs) (S L).
Proof. by rewrite length_index_layer, len_kids, layer_size_S. Qed.

(** One layer of the construction. *)
Lemma build_layer_from L children pre rest next pos :
  children = pre ++ rest -> len pre = 31 * pos ->
  next + len (chunks 31 rest) < 2 ^ 32 -> 0 <= next -> 0 <= pos ->
  build_layer root_seed (Z.of_nat L) children (length (chunks 31 rest)) pos next =
    Ok (imap (fun p slots => mkIndexChunk (next + Z.of_nat p)
                (derive_index_keypair root_seed (next + Z.of_nat p))
                (encode_non_root_index slots) (Z.of_nat L) (pos + Z.of_nat p)) (chunks 31 rest),
        next + len (chunks 31 rest)).
Proof.
  intros ->. revert pre next pos. assert (H31 : (0 < 31)%nat) by lia.
  induction rest as [|rest Hr IH] using (chunks_ind 31 H31); intros pre next pos Hp Hn Hn0 Hp0.
  { change (chunks 31 []) with (@nil (list (list Z))). cbn. by rewrite Z.add_0_r. }
  rewrite chunks_unfold in * by (lia || done). lens.
  pose proof (len_nonneg (chunks 31 (drop 31 rest))).
  cbn [length build_layer]. change CAP with 31. lens.
  assert (0 < len rest) by (destruct rest; [done|lens; pose proof (len_nonneg rest); lia]).
  unfold children_slice at 1. lens.
  rewrite !(proj2 (Z.leb_le _ _)) by lia. cbn [andb mbind outcome_bind].
  assert (slice (pre ++ rest) (pos * 31) (Z.min ((pos + 1) * 31) (len pre + len rest)) = take 31 rest) as ->.
  { unfold slice. replace (Z.to_nat (pos * 31)) with (length pre) by (unfold len in Hp; lia).
    rewrite drop_app_length. destruct (Z.le_ge_cases 31 (len rest)).
    - f_equal. lia.
    - rewrite !take_ge; unfold len in *; [done|lia..]. }
  unfold as_u32. rewrite as_u_id by (unfold in_u; lia).
  replace (pre ++ rest) with ((pre ++ take 31 rest) ++ drop 31 rest) by (by rewrite <- app_assoc, take_drop).
  destruct (decide (drop 31 rest = [])) as [Hd|Hd].
  { rewrite Hd, chunks_nil. cbn. do 3 f_equal; f_equal; try lia. f_equal. lia. }
  rewrite IH; [| |lia..]; last first.
  { lens. assert (len (take 31 rest) = 31); [|lia]. unfold len. rewrite length_take.
    assert (length (drop 31 rest) <> 0%nat) by (destruct (drop 31 rest); [done|cbn; lia]).
    rewrite length_drop in *. lia. }
  cbn [mbind outcome_bind]. f_equal. f_equal; [|lia]. rewrite imap_cons.
  f_equal; [f_equal; try lia; f_equal; lia|]. apply imap_ext. intros i x _. cbn.
  f_equal; try lia. f_equal. lia.
Qed.

Lemma build_layer_spec L :
  layer_offset L + layer_size (len addrs) (S L) < 2 ^ 32 -> 0 <= layer_offset L ->
  build_layer root_seed (Z.of_nat L) (kids L)
    (Z.to_nat (layer_size (len addrs) (S L))) 0 (layer_offset L) =
    Ok (index_layer L, layer_offset (S L)).
Proof.
  intros Hb H0. pose proof (len_index_layer L) as Hl.
  unfold index_layer, layer_of, len at 1 in Hl. rewrite length_imap in Hl.
  rewrite <- Hl, Nat2Z.id, (build_layer_from L (kids L) [] (kids L)); [|done|done|unfold len in *; lia|lia..].
  unfold index_layer, layer_of, node. f_equal. f_equal.
  rewrite layer_offset_S. unfold len in *. lia.
Qed.

Lemma build_layers_spec layout d L k :
  tl_layer_counts layout = (fun j => layer_size (len addrs) j) <$> seq 1 d ->
  (L + k = d)%nat -> 0 <= layer_offset L -> layer_offset d < 2 ^ 32 ->
  (forall j, (j <= d)%nat -> 0 <= layer_size (len addrs) j) ->
  build_layers root_seed layout (seq L k) (kids L) (layer_offset L) =
    Ok (mjoin (index_layer <$> seq L k), kids d).
Proof.
  intros Hc. revert L. induction k as [|k IH]; intros L HL H0 Hd Hpos.
  { cbn. do 2 f_equal. f_equal. lia. }
  pose proof (layer_offset_mono (S L) d Hpos ltac:(lia)) as Hmono.
  pose proof (Hpos (S L) ltac:(lia)) as HS. pose proof (layer_offset_S L) as HoS.
  cbn [seq build_layers]. rewrite Hc, list_lookup_fmap, lookup_seq_lt by lia. cbn [fmap option_fmap option_map].
  replace (1 + L)%nat with (S L) by lia.
  rewrite build_layer_spec by lia. cbn [mbind outcome_bind].
  change (layer_pubkeys (index_layer L)) with (kids (S L)).
  rewrite IH by (done || lia). done.
Qed.

(** The index chunks are fewer than the data chunks. *)
Lemma layer_offset_bound d :
  (forall j : nat, (j < d)%nat -> 30 < layer_size (len addrs) j) ->
  0 <= layer_offset d /\ layer_offset d <= len addrs /\
  forall j, (j <= d)%nat -> 0 <= layer_size (len addrs) j.
Proof.
  intros Hbig.
  assert (Hhalf : forall m, 30 < m -> 0 < div_ceil m 31 /\ 2 * div_ceil m 31 <= m).
  { intros m Hm. unfold div_ceil. zdm. }
  assert (Hle : forall j : nat, (j <= d)%nat -> 0 <= layer_size (len addrs) j).
  { intros [|j] Hj; [rewrite layer_size_0; apply len_nonneg|].
    rewrite <- layer_size_S. pose proof (Hhalf _ (Hbig j ltac:(lia))). lia. }
  assert (Hoff : forall k, (k <= d)%nat ->
            0 <= layer_offset k /\ layer_offset k + layer_size (len addrs) k <= len addrs).
  { induction k as [|k IH]; intros Hk.
    - unfold layer_offset. cbn. rewrite layer_size_0. lia.
    - destruct (IH ltac:(lia)) as [IH0 IH1]. rewrite layer_offset_S.
      pose proof (Hhalf _ (Hbig k ltac:(lia))) as Hh. rewrite layer_size_S in Hh. lia. }
  pose proof (Hoff d ltac:(lia)). pose proof (Hle d ltac:(lia)). split_and!; [lia|lia|done].
Qed.
End Shape.

Section BuiltShape.
Context `{CryptoPrims}.
Context (crc : list Z -> Z) (root_seed file : list Z).

Definition file_data : list DataChunk :=
  imap (build_data_chunk (salt root_seed)) (chunks (Z.to_nat DATA_PAYLOAD_MAX) file).
Definition file_addrs : list (list Z) := dc_address <$> file_data.

Lemma len_file_addrs : len file_addrs = data_chunk_count (len file).
Proof.
  unfold file_addrs, file_data, data_chunk_count, len at 1. rewrite length_fmap, length_imap.
  rewrite length_chunks by (vm_compute; lia). case_match eqn:E; [|done].
  apply Z.eqb_eq in E. rewrite E. done.
Qed.

(** The tree of a file, layer by layer. *)
Lemma build_tree_from_bytes_spec :
  in_u 64 (len file) -> len file_addrs < 2 ^ 32 ->
  exists d : nat,
    build_tree_from_bytes crc root_seed file = Ok (mkBuiltTree
      (encode_root_index (len file) (crc file) (kids root_seed file_addrs d))
      (KeyPair_from_seed root_seed)
      (mjoin (index_layer root_seed file_addrs <$> seq 0 d))
      file_data (compute_layout (len file)) (crc file)) /\
    compute_layout (len file) =
      mkTreeLayout (len file_addrs) (Z.of_nat d) ((fun j => layer_size (len file_addrs) j) <$> seq 1 d) /\
    layer_size (len file_addrs) d <= 30 /\
    forall j : nat, (j < d)%nat -> 30 < layer_size (len file_addrs) j.
Proof.
  intros Hf Hn. destruct (compute_layout_spec (len file) Hf) as (d & Hl & Hle & Hmin).
  rewrite <- len_file_addrs in *. exists d. split; [|done].
  unfold build_tree_from_bytes, build_tree. fold file_data. fold file_addrs. rewrite Hl.
  cbn [tl_data_chunk_count tl_depth]. rewrite Nat2Z.id.
  assert (len file_data = len file_addrs) as -> by (unfold file_addrs, len; by rewrite length_fmap).
  rewrite Z.eqb_refl. cbn [negb].
  destruct (layer_offset_bound file_addrs d Hmin) as (H0 & H1 & H2).
  destruct (Z.eqb_spec (len file_addrs) 0) as [Hz|Hz].
  { destruct d as [|d]; [|specialize (Hmin 0%nat ltac:(lia)); rewrite layer_size_0 in Hmin; lia].
    cbn [kids]. by assert (file_addrs = []) as -> by (apply nil_length_inv; unfold len in Hz; lia). }
  destruct d as [|d]; [done|]. rewrite (proj2 (Z.eqb_neq _ _)) by lia.
  change file_addrs with (kids root_seed file_addrs 0) at 1.
  change 0 with (layer_offset file_addrs 0) at 1.
  rewrite (build_layers_spec root_seed file_addrs _ (S d) 0 (S d)); [done|done|lia| |lia|done].
  unfold layer_offset. cbn. lia.
Qed.
End BuiltShape.

(** ** Counting the chunks of a subtree *)

(** Chunks of the layers 0 (data) to [k] over [m] data chunks. *)
Definition chunk_total (k : nat) (m : Z) : Z :=
  foldr Z.add 0 ((fun j => layer_size m j) <$> seq 0 (S k)).

Lemma foldr_add_app l l' : foldr Z.add 0 (l ++ l') = foldr Z.add 0 l + foldr Z.add 0 l'.
Proof. induction l as [|x l IH]; cbn [app foldr]; lia. Qed.

Lemma chunk_total_S k m : chunk_total (S k) m = chunk_total k m + layer_size m (S k).
Proof. unfold chunk_total. rewrite (seq_S (S k)), fmap_app, foldr_add_app. cbn. lia. Qed.

Lemma layer_size_add r j m :
  (j <= r)%nat -> layer_size (31 ^ Z.of_nat r + m) j = layer_size (31 ^ Z.of_nat r) j + layer_size m j.
Proof.
  intros Hj. unfold layer_size, div_ceil. set (w := 31 ^ Z.of_nat j).
  assert (Hw : 0 < w) by (apply Z.pow_pos_nonneg; lia).
  assert (31 ^ Z.of_nat r = 31 ^ Z.of_nat (r - j) * w) as ->.
  { unfold w. rewrite <- Z.pow_add_r by lia. f_equal. lia. }
  set (q := 31 ^ Z.of_nat (r - j)).
  replace (q * w + m + w - 1) with (m + w - 1 + q * w) by ring.
  replace (q * w + w - 1) with (w - 1 + q * w) by ring.
  rewrite !Z.div_add by lia. rewrite (Z.div_small (w - 1)) by lia. lia.
Qed.

Lemma chunk_total_add k m :
  chunk_total k (31 ^ Z.of_nat k + m) = chunk_total k (31 ^ Z.of_nat k) + chunk_total k m.
Proof.
  unfold chunk_total. assert (Hall : Forall (fun j => (j <= k)%nat) (seq 0 (S k))).
  { apply Forall_forall. intros j Hj%elem_of_seq. lia. }
  induction Hall as [|j l Hj _ IH]; [done|]. rewrite !fmap_cons. cbn [foldr].
  rewrite IH, layer_size_add by done. lia.
Qed.

Lemma chunk_total_0 k : chunk_total k 0 = 0.
Proof.
  unfold chunk_total. induction (seq 0 (S k)) as [|j l IH]; [done|]. rewrite fmap_cons. cbn [foldr].
  rewrite IH. unfold layer_size, div_ceil.
  assert (0 < 31 ^ Z.of_nat j) by (apply Z.pow_pos_nonneg; lia). rewrite Z.div_small by lia. done.
Qed.

Lemma layer_size_one m k : 0 < m <= 31 ^ Z.of_nat k -> layer_size m k = 1.
Proof.
  intros Hm. assert (layer_size m k <= 1) by (apply layer_size_le; lia).
  pose proof (div_ceil_pos m (31 ^ Z.of_nat k) ltac:(lia) ltac:(lia)). unfold layer_size in *. lia.
Qed.
