(* ===== verification/DeadDropNeed.v ===== *)
(** * DeadDropNeed: the need-list channel of a dead drop

    [v2/need.rs]: the receiver coalesces missing positions into ranges, the
    sender translates ranges into the data chunks and the index chunks on
    their paths. *)

From S2P Require Import Prelude RustStd Chunks Codec Crypto DeadDropWire DeadDropTree.
From Stdlib Require Import Sorting.Sorted.

#[local] Open Scope Z_scope.

(** ** Coalescing *)

Fixpoint coalesce_loop (ps : list Z) (start prev : Z) : list NeedEntry :=
  match ps with
  | [] => [mkNeedEntry start (as_u32 (prev + 1))]
  | p :: ps =>
      if p =? as_u32 (prev + 1) then coalesce_loop ps start p
      else mkNeedEntry start (as_u32 (prev + 1)) :: coalesce_loop ps p p
  end.

Definition coalesce_missing_ranges (missing_positions : list Z) : list NeedEntry :=
  match missing_positions with
  | [] => []
  | p :: ps => coalesce_loop ps p p
  end.

(** ** Responses *)

Record ResponseChunks := mkResponseChunks {
  rc_data_chunk_indices : list nat;
  rc_index_chunk_indices : list nat
}.

(** [(lo..hi)] as indices. *)
Definition range_nat (lo hi : Z) : list nat := seq (Z.to_nat lo) (Z.to_nat (hi - lo)).

(** The touched range of each layer, [more] layers above the range [(lo, hi)]. *)
Fixpoint touched_from (more : nat) (lo hi_excl : Z) : list (Z * Z) :=
  (lo, hi_excl) ::
  match more with
  | O => []
  | S more => touched_from more (lo / NON_ROOT_INDEX_SLOT_CAP)
                ((hi_excl - 1) / NON_ROOT_INDEX_SLOT_CAP + 1)
  end.

(** [layer_offset]: the partial sums of the layer counts. *)
Fixpoint offsets_from (acc : Z) (counts : list Z) : list Z :=
  acc :: match counts with
         | [] => []
         | count :: counts => offsets_from (acc + count) counts
         end.

(** Every layer below the depth of a layout has its count and its offset, so the
    two lookups are in range. *)
Definition layer_response (layout : TreeLayout) (offsets : list Z) (layer : nat)
    (touched : Z * Z) : list nat :=
  let layer_chunks := nth layer (tl_layer_counts layout) 0 in
  let lo := Z.min touched.1 layer_chunks in
  let hi := Z.min touched.2 layer_chunks in
  let offset := Z.to_nat (nth layer offsets 0) in
  (fun pos => (offset + pos)%nat) <$> range_nat lo hi.

Definition response_chunks_for_entry (tree : BuiltTree) (entry : NeedEntry) : ResponseChunks :=
  let n := len (bt_data_chunks tree) in
  let start := ne_start entry in
  let end_ := Z.min (ne_end entry) n in
  if end_ <=? start then mkResponseChunks [] []
  else
    let data_chunk_indices := range_nat start end_ in
    if tl_depth (bt_layout tree) =? 0 then mkResponseChunks data_chunk_indices []
    else
      let leaf_lo := start / NON_ROOT_INDEX_SLOT_CAP in
      let leaf_hi_inclusive := (end_ - 1) / NON_ROOT_INDEX_SLOT_CAP in
      let touched_at_layer :=
        touched_from (Z.to_nat (tl_depth (bt_layout tree) - 1)) leaf_lo (leaf_hi_inclusive + 1) in
      let layer_offset := offsets_from 0 (tl_layer_counts (bt_layout tree)) in
      mkResponseChunks data_chunk_indices
        (mjoin (imap (layer_response (bt_layout tree) layer_offset) touched_at_layer)).

(** [BTreeSet::insert] on the ascending list of the elements. *)
Fixpoint btree_insert (x : nat) (s : list nat) : list nat :=
  match s with
  | [] => [x]
  | y :: s' => match Nat.compare x y with
               | Lt => x :: s
               | Eq => s
               | Gt => y :: btree_insert x s'
               end
  end.
Definition btree_extend (s xs : list nat) : list nat := foldl (fun s x => btree_insert x s) s xs.

Definition response_chunks_for_list (tree : BuiltTree) (entries : list NeedEntry)
    : ResponseChunks :=
  foldl (fun acc entry =>
      let r := response_chunks_for_entry tree entry in
      mkResponseChunks (btree_extend (rc_data_chunk_indices acc) (rc_data_chunk_indices r))
        (btree_extend (rc_index_chunk_indices acc) (rc_index_chunk_indices r)))
    (mkResponseChunks [] []) entries.

Definition full_data_range (layout : TreeLayout) : NeedEntry :=
  mkNeedEntry 0 (as_u32 (tl_data_chunk_count layout)).
Definition full_need_list (file_size : Z) : list NeedEntry :=
  let layout := compute_layout file_size in
  if tl_data_chunk_count layout =? 0 then []
  else [mkNeedEntry 0 (as_u32 (tl_data_chunk_count layout))].

(** ** Coalescing covers exactly the missing positions, minimally *)

Definition covers (entries : list NeedEntry) (p : Z) : Prop :=
  Exists (fun e => ne_start e <= p < ne_end e) entries.

(** Consecutive ranges leave a gap, so none can be merged. *)
Inductive separated : list NeedEntry -> Prop :=
| separated_nil : separated []
| separated_one e : separated [e]
| separated_cons e f l : ne_end e < ne_start f -> separated (f :: l) -> separated (e :: f :: l).

Inductive ascending : list Z -> Prop :=
| ascending_nil : ascending []
| ascending_one x : ascending [x]
| ascending_cons x y l : x < y -> ascending (y :: l) -> ascending (x :: y :: l).

Lemma ascending_lower x l : ascending (x :: l) -> forall y, y ∈ l -> x < y.
Proof.
  revert x. induction l as [|z l IH]; intros x H y Hy; [by apply not_elem_of_nil in Hy|].
  inversion_clear H. apply elem_of_cons in Hy as [->|Hy]; [done|].
  pose proof (IH z H1 y Hy). lia.
Qed.

Lemma ascending_tail x l : ascending (x :: l) -> ascending l.
Proof. inversion 1; [constructor|done]. Qed.

Lemma coalesce_loop_spec ps start prev :
  0 <= start <= prev -> ascending (prev :: ps) -> Forall (fun p => p < 2 ^ 32 - 1) (prev :: ps) ->
  let es := coalesce_loop ps start prev in
  (exists e es', es = e :: es' /\ ne_start e = start) /\ separated es /\ Forall entry_ok es /\
  (forall p, covers es p <-> start <= p <= prev \/ p ∈ ps).
Proof.
  revert start prev. induction ps as [|q ps IH]; intros start prev Hs Ha Hb es; subst es;
    inversion_clear Hb as [|? ? Hprev Hb']; cbn [coalesce_loop];
    unfold as_u32; rewrite as_u_id by (unfold in_u; lia).
  - split; [by eexists _, _|]. split; [constructor|].
    split; [constructor; [|constructor]; unfold entry_ok, in_u; cbn; lia|].
    intros p. unfold covers. rewrite Exists_cons, Exists_nil. cbn. rewrite elem_of_nil. intuition lia.
  - pose proof (ascending_lower _ _ Ha q ltac:(left)) as Hq. pose proof (ascending_tail _ _ Ha) as Ha'.
    destruct (Z.eqb_spec q (prev + 1)) as [->|Hne].
    + destruct (IH start (prev + 1)) as (H1 & H2 & H3 & H4); [lia|done..|].
      split; [done|]. split; [done|]. split; [done|]. intros p. rewrite H4, elem_of_cons. intuition lia.
    + destruct (IH q q) as ((e & es & E & He) & H2 & H3 & H4); [lia|done..|].
      split; [by eexists _, _|]. rewrite E in *. split; [constructor; [cbn; lia|done]|].
      split; [constructor; [unfold entry_ok, in_u; cbn; lia|done]|].
      intros p. unfold covers in *. rewrite Exists_cons, H4, elem_of_cons. cbn. intuition lia.
Qed.

Lemma coalesce_spec ps :
  ascending ps -> Forall (fun p => 0 <= p < 2 ^ 32 - 1) ps ->
  let es := coalesce_missing_ranges ps in
  Forall entry_ok es /\ separated es /\ (forall p, covers es p <-> p ∈ ps).
Proof.
  intros Ha Hb. destruct ps as [|q ps]; cbn [coalesce_missing_ranges].
  - split; [constructor|]. split; [constructor|]. intros p. unfold covers.
    by rewrite Exists_nil, elem_of_nil.
  - inversion Hb as [|? ? Hq Hb']; subst.
    destruct (coalesce_loop_spec ps q q) as (_ & H2 & H3 & H4); [lia|done| |].
    { eapply Forall_impl; [exact Hb|]. cbn. lia. }
    split; [done|]. split; [done|]. intros p. rewrite H4, elem_of_cons. intuition lia.
Qed.

(** ** [BTreeSet] *)

Definition strictly_ascending (l : list nat) : Prop := StronglySorted lt l.

Lemma btree_insert_spec x s :
  strictly_ascending s ->
  strictly_ascending (btree_insert x s) /\ forall y, y ∈ btree_insert x s <-> y = x \/ y ∈ s.
Proof.
  induction 1 as [|z s Hs IH Hz]; cbn [btree_insert].
  { split; [repeat constructor|]. intros y. by rewrite elem_of_cons. }
  destruct (Nat.compare_spec x z) as [->|Hlt|Hgt].
  - split; [by constructor|]. intros y. rewrite elem_of_cons. tauto.
  - split; [|intros y; rewrite !elem_of_cons; tauto]. constructor; [by constructor|].
    constructor; [done|]. eapply Forall_impl; [exact Hz|]. cbn. lia.
  - destruct IH as [IH1 IH2]. split; [|intros y; rewrite !elem_of_cons, IH2; tauto].
    constructor; [done|]. apply Forall_forall. intros y [->|Hy]%IH2; [done|].
    rewrite Forall_forall in Hz. by apply Hz.
Qed.

Lemma btree_extend_spec xs s :
  strictly_ascending s ->
  strictly_ascending (btree_extend s xs) /\ forall y, y ∈ btree_extend s xs <-> y ∈ s \/ y ∈ xs.
Proof.
  unfold btree_extend. revert s. induction xs as [|x xs IH]; intros s Hs; cbn [foldl].
  { split; [done|]. intros y. rewrite elem_of_nil. tauto. }
  destruct (btree_insert_spec x s Hs) as [H1 H2]. destruct (IH _ H1) as [H3 H4].
  split; [done|]. intros y. rewrite H4, H2, elem_of_cons. tauto.
Qed.

(** ** A response holds the requested data and exactly the chunks of their paths *)

Lemma elem_of_range_nat lo hi i :
  0 <= lo -> i ∈ range_nat lo hi <-> lo <= Z.of_nat i < hi.
Proof. intros. unfold range_nat. rewrite elem_of_seq. lia. Qed.

(** The index chunk of layer [L] on the path of data position [p]. *)
Definition path_index (addrs : list (list Z)) (L : nat) (p : Z) : Z :=
  layer_offset addrs L + p / 31 ^ Z.of_nat (S L).

Lemma touched_lookup more lo hi L :
  0 <= lo < hi -> touched_from more lo hi !! L =
    if decide (L <= more)%nat
    then Some (lo / 31 ^ Z.of_nat L, (hi - 1) / 31 ^ Z.of_nat L + 1) else None.
Proof.
  revert lo hi L. induction more as [|more IH]; intros lo hi [|L] Hlo; cbn [touched_from lookup list_lookup].
  1,3: rewrite decide_True by lia; rewrite !Z.div_1_r; do 2 f_equal; lia.
  - by rewrite decide_False by lia.
  - change CAP with 31. change (list_lookup L ?l) with (l !! L). rewrite IH.
    + replace (((hi - 1) / 31 + 1 - 1)) with ((hi - 1) / 31) by lia.
      rewrite !Z.div_div, <- Z.pow_succ_r, <- Nat2Z.inj_succ by (lia || apply Z.pow_pos_nonneg; lia).
      repeat case_decide; try done; lia.
    + split; [zdm|]. assert (lo / 31 <= (hi - 1) / 31) by (apply Z.div_le_mono; lia). lia.
Qed.

Lemma offsets_lookup acc counts L :
  (L <= length counts)%nat -> nth L (offsets_from acc counts) 0 = acc + foldr Z.add 0 (take L counts).
Proof.
  revert acc L. induction counts as [|c counts IH]; intros acc [|L] HL; cbn in *; try lia.
  rewrite IH by lia. cbn. lia.
Qed.

Section Response.
Context `{CryptoPrims}.
Context (addrs : list (list Z)) (tree : BuiltTree) (d : nat).
Context (Hlen : len (bt_data_chunks tree) = len addrs).
Context (Hlayout : bt_layout tree = mkTreeLayout (len addrs) (Z.of_nat d)
                     ((fun j => layer_size (len addrs) j) <$> seq 1 d)).
Context (Hmin : forall j : nat, (j < d)%nat -> 30 < layer_size (len addrs) j).

Lemma layer_counts_nth L :
  (L < d)%nat -> nth L ((fun j => layer_size (len addrs) j) <$> seq 1 d) 0 = layer_size (len addrs) (S L).
Proof.
  intros HL. rewrite nth_lookup, list_lookup_fmap, lookup_seq_lt by lia. done.
Qed.

Lemma layer_offset_nth L :
  (L <= d)%nat ->
  nth L (offsets_from 0 ((fun j => layer_size (len addrs) j) <$> seq 1 d)) 0 = layer_offset addrs L.
Proof.
  intros HL. rewrite offsets_lookup by (rewrite length_fmap, length_seq; lia).
  unfold layer_offset. rewrite <- fmap_take, take_seq. rewrite Nat.min_l by lia. lia.
Qed.

(** One layer: the chunks over the range, none of them cut off. *)
Lemma elem_of_layer_response L lo hi i :
  (L < d)%nat -> 0 <= lo < hi -> hi <= len addrs ->
  i ∈ layer_response (bt_layout tree) (offsets_from 0 (tl_layer_counts (bt_layout tree))) L
        (lo / 31 ^ Z.of_nat (S L), (hi - 1) / 31 ^ Z.of_nat (S L) + 1) <->
  exists p, lo <= p < hi /\ Z.of_nat i = path_index addrs L p.
Proof.
  intros HL Hlo Hhi. unfold layer_response. rewrite Hlayout. cbn [tl_layer_counts fst snd].
  rewrite layer_counts_nth, layer_offset_nth by lia.
  set (w := 31 ^ Z.of_nat (S L)). assert (0 < w) by (apply Z.pow_pos_nonneg; lia).
  destruct (layer_offset_bound addrs d Hmin) as (_ & _ & Hpos).
  assert (0 <= layer_offset addrs L).
  { destruct (layer_offset_bound addrs L) as [? _]; [|done]. intros j Hj. apply Hmin. lia. }
  assert (Hcut : (hi - 1) / w < layer_size (len addrs) (S L)).
  { apply Z.div_lt_upper_bound; [done|].
    pose proof (proj1 (layer_size_le (len addrs) (S L) _) (Z.le_refl _)). fold w in H2. lia. }
  assert (lo / w <= (hi - 1) / w) by (apply Z.div_le_mono; lia).
  assert (0 <= lo / w) by (apply Z.div_pos; lia).
  rewrite !Z.min_l by lia. rewrite list_elem_of_fmap. unfold path_index. fold w. split.
  - intros (pos & -> & Hpos'). apply elem_of_range_nat in Hpos'; [|done].
    exists (Z.max lo (Z.of_nat pos * w)). 
    assert (Z.max lo (Z.of_nat pos * w) / w = Z.of_nat pos) as ->.
    { destruct (Z.max_spec lo (Z.of_nat pos * w)) as [[Hm ->]|[Hm ->]]; [by rewrite Z.div_mul by lia|].
      assert (Z.of_nat pos <= lo / w) by (apply Z.div_le_lower_bound; lia). lia. }
    split; [|lia]. assert (w * ((hi - 1) / w) <= hi - 1) by (apply Z.mul_div_le; lia). nia.
  - intros (p & Hp & E). exists (Z.to_nat (p / w)).
    assert (0 <= p / w) by (apply Z.div_pos; lia).
    split; [lia|]. apply elem_of_range_nat; [done|]. rewrite Z2Nat.id by done.
    assert (lo / w <= p / w) by (apply Z.div_le_mono; lia).
    assert (p / w <= (hi - 1) / w) by (apply Z.div_le_mono; lia). lia.
Qed.

Definition needed (entry : NeedEntry) (p : Z) : Prop :=
  ne_start entry <= p < ne_end entry /\ p < len addrs.

Lemma response_entry_spec entry :
  entry_ok entry ->
  let r := response_chunks_for_entry tree entry in
  (forall i, i ∈ rc_data_chunk_indices r <-> needed entry (Z.of_nat i)) /\
  (forall i, i ∈ rc_index_chunk_indices r <->
     exists p L, needed entry p /\ (L < d)%nat /\ Z.of_nat i = path_index addrs L p).
Proof.
  intros (Hs & He & Hse). unfold response_chunks_for_entry, needed, in_u in *. rewrite Hlen.
  set (lo := ne_start entry) in *. set (hi := Z.min (ne_end entry) (len addrs)).
  destruct (Z.leb_spec hi lo) as [Hle|Hlt].
  { cbn. setoid_rewrite elem_of_nil. split; [intros i; split; [done|lia]|]. intros i. split; [done|].
    intros (p & L & Hp & _). lia. }
  assert (Hdata : forall i, i ∈ range_nat lo hi <->
            lo <= Z.of_nat i < ne_end entry /\ Z.of_nat i < len addrs).
  { intros i. rewrite elem_of_range_nat by lia. lia. }
  destruct (Z.eqb_spec (tl_depth (bt_layout tree)) 0) as [Hz|Hz];
    cbn [rc_data_chunk_indices rc_index_chunk_indices]; (split; [done|]); intros i;
    rewrite Hlayout in Hz; cbn [tl_depth] in Hz.
  { rewrite elem_of_nil. split; [done|]. intros (p & L & _ & HL & _). lia. }
  assert (Hleaf : 0 <= lo / CAP < (hi - 1) / CAP + 1).
  { change CAP with 31. split; [apply Z.div_pos; lia|].
    assert (lo / 31 <= (hi - 1) / 31) by (apply Z.div_le_mono; lia). lia. }
  rewrite list_elem_of_join. split.
  - intros (l & Hi & Hl). apply elem_of_lookup_imap in Hl as (L & [a b] & -> & Ht).
    rewrite touched_lookup in Ht by done.
    case_decide as HL; [|done]. rewrite Hlayout in HL; cbn [tl_depth] in HL.
    injection Ht as <- <-. replace ((hi - 1) / CAP + 1 - 1) with ((hi - 1) / 31) in Hi by (change CAP with 31; lia).
    change CAP with 31 in Hi.
    rewrite !Z.div_div, <- Z.pow_succ_r, <- Nat2Z.inj_succ in Hi by (lia || apply Z.pow_pos_nonneg; lia).
    apply elem_of_layer_response in Hi as (p & Hp & E); [|lia..]. exists p, L. split; [lia|]. split; [lia|done].
  - intros (p & L & Hp & HL & E).
    exists (layer_response (bt_layout tree) (offsets_from 0 (tl_layer_counts (bt_layout tree))) L
      (lo / 31 ^ Z.of_nat (S L), (hi - 1) / 31 ^ Z.of_nat (S L) + 1)).
    split; [apply elem_of_layer_response; [lia..|]; exists p; split; [lia|done]|].
    apply elem_of_lookup_imap. exists L, (lo / 31 ^ Z.of_nat (S L), (hi - 1) / 31 ^ Z.of_nat (S L) + 1).
    split; [done|]. rewrite touched_lookup by done.
    rewrite decide_True by (rewrite Hlayout; cbn [tl_depth]; lia).
    change CAP with 31. replace ((hi - 1) / 31 + 1 - 1) with ((hi - 1) / 31) by lia.
    by rewrite !Z.div_div, <- Z.pow_succ_r, <- Nat2Z.inj_succ by (lia || apply Z.pow_pos_nonneg; lia).
Qed.

Lemma response_list_spec entries :
  Forall entry_ok entries ->
  let r := response_chunks_for_list tree entries in
  let wanted p := Exists (fun e => needed e p) entries in
  strictly_ascending (rc_data_chunk_indices r) /\ strictly_ascending (rc_index_chunk_indices r) /\
  (forall i, i ∈ rc_data_chunk_indices r <-> wanted (Z.of_nat i)) /\
  (forall i, i ∈ rc_index_chunk_indices r <->
     exists p L, wanted p /\ (L < d)%nat /\ Z.of_nat i = path_index addrs L p).
Proof.
  intros He. unfold response_chunks_for_list. cbv zeta.
  induction entries as [|e es IH] using rev_ind.
  { cbn. split_and!; [constructor..| |]; intros i; rewrite elem_of_nil.
    - by rewrite Exists_nil.
    - split; [done|]. intros (p & L & Hp & _). by rewrite Exists_nil in Hp. }
  apply Forall_app in He as [He He1]. inversion_clear He1 as [|? ? He1' _].
  destruct (IH He) as (S1 & S2 & I1 & I2). destruct (response_entry_spec e He1') as [D1 D2].
  rewrite foldl_app. cbn [foldl rc_data_chunk_indices rc_index_chunk_indices].
  destruct (btree_extend_spec (rc_data_chunk_indices (response_chunks_for_entry tree e)) _ S1) as [T1 J1].
  destruct (btree_extend_spec (rc_index_chunk_indices (response_chunks_for_entry tree e)) _ S2) as [T2 J2].
  split; [done|]. split; [done|]. split; intros i.
  - rewrite J1, I1, D1, Exists_app, Exists_cons, Exists_nil. tauto.
  - rewrite J2, I2, D2. setoid_rewrite Exists_app. setoid_rewrite Exists_cons.
    setoid_rewrite Exists_nil. split.
    + intros [(p & L & Hp & H1)|(p & L & Hp & H1)]; exists p, L; tauto.
    + intros (p & L & [Hp|[Hp|[]]] & H1); [left|right]; exists p, L; tauto.
Qed.
End Response.
