(* ===== verification/DeadDropFetch.v ===== *)
(** * DeadDropFetch: the receiver of a dead drop

    [v2/stream.rs] (the reorder buffer for stdout) and [v2/fetch.rs]: output
    sinks, scheduling of the children of an index chunk, and the drain loop of
    [get_from_root].  A fetch task is its parameters; the network is the
    sequence of events the loop sees, in any order: a task ends with bytes or
    an error, a task panics, or a second passes.  Each turn of the loop has its
    own clock, the successive readings of [Instant::now] in nanoseconds. *)

From S2P Require Import Prelude RustStd Chunks Codec Crypto DeadDropWire DeadDropTree DeadDropNeed.

#[local] Open Scope Z_scope.

Definition PARALLEL_FETCH_CAP : Z := 64.
Definition secs (s : Z) : Z := s * 1000000000.
Definition millis (ms : Z) : Z := ms * 1000000.

(** ** [stream.rs] *)

Record StreamSink := mkStreamSink {
  ss_emit_pos : Z;
  ss_expected : Z;
  ss_reorder : gmap Z (list Z);
  ss_emitted_bytes : Z
}.

Definition StreamSink_new (expected_data_chunks : Z) : StreamSink :=
  mkStreamSink 0 expected_data_chunks ∅ 0.

(** [while let Some(next) = self.reorder.remove(&self.emit_pos)]; every turn
    takes an entry away, so the size of the buffer is enough fuel. *)
Fixpoint StreamSink_drain (fuel : nat) (s : StreamSink) : list (list Z) * StreamSink :=
  match fuel with
  | O => ([], s)
  | S fuel =>
      match ss_reorder s !! ss_emit_pos s with
      | None => ([], s)
      | Some next =>
          let '(out, s') := StreamSink_drain fuel
            (mkStreamSink (ss_emit_pos s + 1) (ss_expected s)
               (delete (ss_emit_pos s) (ss_reorder s)) (ss_emitted_bytes s + len next)) in
          (next :: out, s')
      end
  end.

Definition StreamSink_accept (position : Z) (payload : list Z) (s : StreamSink)
    : list (list Z) * StreamSink :=
  if (ss_expected s <=? position) || (position <? ss_emit_pos s) then ([], s)
  else if position =? ss_emit_pos s then
    let '(out, s') := StreamSink_drain (size (ss_reorder s))
      (mkStreamSink (ss_emit_pos s + 1) (ss_expected s) (ss_reorder s)
         (ss_emitted_bytes s + len payload)) in
    (payload :: out, s')
  else
    ([], mkStreamSink (ss_emit_pos s) (ss_expected s)
           (<[position := payload]> (ss_reorder s)) (ss_emitted_bytes s)).

Definition StreamSink_is_complete (s : StreamSink) : bool := ss_expected s <=? ss_emit_pos s.
Definition StreamSink_next_emit_pos (s : StreamSink) : Z := ss_emit_pos s.
Definition StreamSink_buffered_count (s : StreamSink) : nat := size (ss_reorder s).

(** ** Output sinks *)

Inductive OutputSink :=
| SinkFile (mmap : list Z) (temp_path final_path : string)
| SinkEmptyFile (temp_path final_path : string)
| SinkStdout (sink : StreamSink)
| SinkEmptyStdout.

(** [mmap[offset..offset + bs.len()].copy_from_slice(bs)], in range. *)
Definition copy_at (offset : Z) (bs l : list Z) : list Z :=
  take (Z.to_nat offset) l ++ bs ++ drop (Z.to_nat offset + length bs) l.

(** The sink after accepting a chunk and the bytes written to stdout; an error
    when the chunk does not fit or the write fails ([write_ok]). *)
Definition OutputSink_accept (write_ok : bool) (position : Z) (payload : list Z) (s : OutputSink)
    : outcome unit (OutputSink * list Z) :=
  match s with
  | SinkFile mmap t f =>
      let offset := position * DATA_PAYLOAD_MAX in
      if len mmap <? offset + len payload then Err tt
      else Ok (SinkFile (copy_at offset payload mmap) t f, [])
  | SinkStdout sink =>
      let '(to_emit, sink') := StreamSink_accept position payload sink in
      if write_ok then Ok (SinkStdout sink', mjoin to_emit) else Err tt
  | SinkEmptyFile _ _ | SinkEmptyStdout => Ok (s, [])
  end.

(** What a finished command leaves behind: the file at [final_path] (with its
    content), or nothing but what went to stdout. *)
Inductive FinalOutput :=
| CommittedFile (path : string) (content : list Z)
| StdoutOnly.

(** [finalize]; [io_ok]: flush, write and rename succeed. *)
Definition OutputSink_finalize (io_ok : bool) (s : OutputSink) : outcome unit FinalOutput :=
  if negb io_ok then
    match s with SinkEmptyStdout => Ok StdoutOnly | _ => Err tt end
  else
    match s with
    | SinkFile mmap _ f => Ok (CommittedFile f mmap)
    | SinkEmptyFile _ f => Ok (CommittedFile f [])
    | SinkStdout _ | SinkEmptyStdout => Ok StdoutOnly
    end.

(** [open_output_sink]; [dest] holds the temporary and the final path when
    [--output] is given. *)
Definition open_output_sink (dest : option (string * string)) (io_ok : bool) (file_size : Z)
    : outcome unit OutputSink :=
  match dest with
  | Some (temp_path, path) =>
      if file_size =? 0 then Ok (SinkEmptyFile temp_path path)
      else
        let n := data_chunk_count file_size in
        let alloc_size := Z.max (saturating_mul n DATA_PAYLOAD_MAX) file_size in
        if io_ok then Ok (SinkFile (replicate (Z.to_nat alloc_size) 0) temp_path path) else Err tt
  | None =>
      if file_size =? 0 then Ok SinkEmptyStdout
      else Ok (SinkStdout (StreamSink_new (data_chunk_count file_size)))
  end.

Definition verify_crc (crc : list Z -> Z) (output : OutputSink) (file_size expected_crc : Z) : bool :=
  match output with
  | SinkFile mmap _ _ => crc (take (Z.to_nat file_size) mmap) =? expected_crc
  | SinkEmptyFile _ _ | SinkEmptyStdout => crc [] =? expected_crc
  | SinkStdout _ => true
  end.

(** ** The state of the drain loop *)

Inductive ChunkState :=
| Unscheduled
| InFlight (address : list Z)
| Failed (address : list Z)
| Done.

(** A spawned task: what it fetches and what its [TaskOutcome] carries. *)
Inductive FetchTask :=
| IndexTask (child_pk : list Z) (remaining_depth base end_ : Z)
| DataTask (address : list Z) (position : Z).

Record Fetch := mkFetch {
  f_tasks : list FetchTask;
  f_chunk_states : list ChunkState;
  f_output : OutputSink;
  f_stdout : list Z;
  f_need_seq : Z;
  f_last_need_publish : Z;
  f_last_published_encoded : option (list Z);
  f_last_actual_publish_at : option Z;
  f_last_progress_at : Z;
  (** need lists put so far, with their sequence numbers *)
  f_published : list (list Z * Z);
  f_had_error : bool
}.

Definition upd_tasks (g : list FetchTask -> list FetchTask) (s : Fetch) : Fetch :=
  mkFetch (g (f_tasks s)) (f_chunk_states s) (f_output s) (f_stdout s) (f_need_seq s)
    (f_last_need_publish s) (f_last_published_encoded s) (f_last_actual_publish_at s)
    (f_last_progress_at s) (f_published s) (f_had_error s).
Definition upd_states (g : list ChunkState -> list ChunkState) (s : Fetch) : Fetch :=
  mkFetch (f_tasks s) (g (f_chunk_states s)) (f_output s) (f_stdout s) (f_need_seq s)
    (f_last_need_publish s) (f_last_published_encoded s) (f_last_actual_publish_at s)
    (f_last_progress_at s) (f_published s) (f_had_error s).
Definition set_output (o : OutputSink) (written : list Z) (s : Fetch) : Fetch :=
  mkFetch (f_tasks s) (f_chunk_states s) o (f_stdout s ++ written) (f_need_seq s)
    (f_last_need_publish s) (f_last_published_encoded s) (f_last_actual_publish_at s)
    (f_last_progress_at s) (f_published s) (f_had_error s).
Definition set_progress (now : Z) (s : Fetch) : Fetch :=
  mkFetch (f_tasks s) (f_chunk_states s) (f_output s) (f_stdout s) (f_need_seq s)
    (f_last_need_publish s) (f_last_published_encoded s) (f_last_actual_publish_at s)
    now (f_published s) (f_had_error s).
Definition set_had_error (s : Fetch) : Fetch :=
  mkFetch (f_tasks s) (f_chunk_states s) (f_output s) (f_stdout s) (f_need_seq s)
    (f_last_need_publish s) (f_last_published_encoded s) (f_last_actual_publish_at s)
    (f_last_progress_at s) (f_published s) true.
Definition put_need_list (encoded : list Z) (now : Z) (s : Fetch) : Fetch :=
  mkFetch (f_tasks s) (f_chunk_states s) (f_output s) (f_stdout s) (f_need_seq s + 1)
    (f_last_need_publish s) (Some encoded) (Some now)
    (f_last_progress_at s) (f_published s ++ [(encoded, f_need_seq s + 1)]) (f_had_error s).
Definition set_last_need_publish (now : Z) (s : Fetch) : Fetch :=
  mkFetch (f_tasks s) (f_chunk_states s) (f_output s) (f_stdout s) (f_need_seq s)
    now (f_last_published_encoded s) (f_last_actual_publish_at s)
    (f_last_progress_at s) (f_published s) (f_had_error s).

Definition modify (g : Fetch -> Fetch) : M Fetch unit unit := fun s => (Ok tt, g s).
Definition spawn (t : FetchTask) : M Fetch unit unit := modify (upd_tasks (fun ts => ts ++ [t])).

(** [chunk_states[pos]] and [chunk_states[pos] = st], which panic out of range. *)
Definition get_state (pos : Z) : M Fetch unit ChunkState := fun s =>
  match (if pos <? 0 then None else f_chunk_states s !! Z.to_nat pos) with
  | Some c => (Ok c, s)
  | None => (Panic, s)
  end.
Definition set_state (pos : Z) (c : ChunkState) : M Fetch unit unit :=
  get_state pos ;; modify (upd_states (insert (Z.to_nat pos) c)).

(** ** Scheduling *)

Fixpoint schedule_data (slots : list (list Z)) (pos end_ : Z) : M Fetch unit unit :=
  match slots with
  | [] => mret tt
  | address :: slots =>
      if end_ <=? pos then mret tt
      else
        set_state pos (InFlight address) ;;
        spawn (DataTask address pos) ;;
        schedule_data slots (pos + 1) end_
  end.

Fixpoint subtree_loop (times : nat) (subtree_size : Z) : Z :=
  match times with
  | O => subtree_size
  | S times => subtree_loop times (saturating_mul subtree_size NON_ROOT_INDEX_SLOT_CAP)
  end.

Fixpoint schedule_index (slots : list (list Z)) (child_remaining subtree_size child_base end_ : Z)
    : M Fetch unit unit :=
  match slots with
  | [] => mret tt
  | child_pk :: slots =>
      if end_ <=? child_base then mret tt
      else
        let child_end := Z.min (as_u64 (child_base + subtree_size)) end_ in
        spawn (IndexTask child_pk child_remaining child_base child_end) ;;
        schedule_index slots child_remaining subtree_size child_end end_
  end.

Definition schedule_children_from_index (slots : list (list Z)) (remaining_depth base end_ : Z)
    : M Fetch unit unit :=
  if remaining_depth =? 0 then schedule_data slots base end_
  else
    let child_remaining := remaining_depth - 1 in
    let subtree_size := subtree_loop (Z.to_nat (child_remaining + 1)) 1 in
    schedule_index slots child_remaining subtree_size base end_.

(** ** One turn of the drain loop *)

Inductive Event :=
| TaskDone (i : nat) (result : option (list Z)) (write_ok : bool)
| TaskPanicked (i : nat)
| SecondPassed.

(** What the statement that handles an outcome does to the loop: go on with
    the rest of the turn, [continue], or [break]. *)
Inductive Control := Fallthrough | Continue | Break.

Definition fail : M Fetch unit Control := modify set_had_error ;; mret Break.

Section Loop.
Context (root : RootIndex) (chunk_timeout : Z).

Definition on_index (remaining_depth base end_ : Z) (result : option (list Z)) (now : Z)
    : M Fetch unit Control :=
  match result with
  | Some bytes =>
      match decode_non_root_index bytes with
      | Ok slots =>
          modify (set_progress now) ;;
          schedule_children_from_index slots remaining_depth base end_ ;;
          mret Fallthrough
      | _ => fail
      end
  | None => fail
  end.

Definition trim_len (position : Z) (payload : list Z) : Z :=
  if ri_file_size root <? as_u64 ((position + 1) * DATA_PAYLOAD_MAX) then
    ri_file_size root - position * DATA_PAYLOAD_MAX
  else len payload.

Definition on_data (position : Z) (result : option (list Z)) (write_ok : bool) (now : Z)
    : M Fetch unit Control :=
  match result with
  | Some bytes =>
      match decode_data_chunk bytes with
      | Ok payload =>
          c ← get_state position;
          match c with
          | Done => mret Continue
          | _ =>
              let trimmed := take (Z.to_nat (Z.min (trim_len position payload) (len payload))) payload in
              s ← get;
              match OutputSink_accept write_ok position trimmed (f_output s) with
              | Ok (o, written) =>
                  modify (set_output o written) ;;
                  modify (set_progress now) ;;
                  set_state position Done ;;
                  mret Fallthrough
              | _ => fail
              end
          end
      | _ => fail
      end
  | None =>
      c ← get_state position;
      match c with
      | InFlight address => set_state position (Failed address) ;; mret Fallthrough
      | _ => mret Fallthrough
      end
  end.

Definition take_task (i : nat) : M Fetch unit (option FetchTask) := fun s =>
  (Ok (f_tasks s !! i), upd_tasks (delete i) s).

Definition handle_outcome (ev : Event) (now : Z) : M Fetch unit Control :=
  match ev with
  | SecondPassed => mret Fallthrough
  | TaskPanicked i => take_task i ;; mret Fallthrough
  | TaskDone i result write_ok =>
      t ← take_task i;
      match t with
      | None => mret Fallthrough
      | Some (IndexTask _ remaining_depth base end_) => on_index remaining_depth base end_ result now
      | Some (DataTask _ position) => on_data position result write_ok now
      end
  end.

Definition missing_positions (states : list ChunkState) : list Z :=
  mjoin (imap (fun p c => match c with Failed _ => [as_u32 (Z.of_nat p)] | _ => [] end) states).

Definition respawn_state (c : ChunkState) : ChunkState :=
  match c with Failed address => InFlight address | _ => c end.
Definition respawn_tasks (states : list ChunkState) : list FetchTask :=
  mjoin (imap (fun p c => match c with Failed address => [DataTask address (Z.of_nat p)] | _ => [] end)
           states).

Definition need_publish_interval : Z := secs 20.
Definition need_keepalive_interval : Z := secs 600.

Definition opt_bytes_eqb (o : option (list Z)) (bs : list Z) : bool := bool_decide (o = Some bs).

Definition publish_needs (clock : nat -> Z) : M Fetch unit unit := fun s =>
  if need_publish_interval <=? clock 1%nat - f_last_need_publish s then
    let missing := missing_positions (f_chunk_states s) in
    let s :=
      match missing with
      | [] => s
      | _ =>
          let encoded := encode_need_list (coalesce_missing_ranges missing) in
          let unchanged := opt_bytes_eqb (f_last_published_encoded s) encoded in
          let needs_keepalive :=
            match f_last_actual_publish_at s with
            | None => true
            | Some t => need_keepalive_interval <=? clock 2%nat - t
            end in
          let s := if negb unchanged || needs_keepalive
                   then put_need_list encoded (clock 3%nat) s else s in
          let tasks := respawn_tasks (f_chunk_states s) in
          upd_states (fmap respawn_state) (upd_tasks (fun ts => ts ++ tasks) s)
      end in
    (Ok tt, set_last_need_publish (clock 4%nat) s)
  else (Ok tt, s).

(** One turn; [true] when the loop breaks. *)
Definition fetch_turn (ev : Event) (clock : nat -> Z) : M Fetch unit bool :=
  c ← handle_outcome ev (clock 0%nat);
  match c with
  | Continue => mret false
  | Break => mret true
  | Fallthrough =>
      publish_needs clock ;;
      s ← get;
      if chunk_timeout <=? clock 5%nat - f_last_progress_at s then
        modify set_had_error ;; mret true
      else mret false
  end.

(** [while !tasks.is_empty()]: [Ok true] when the loop has ended, [Ok false]
    when it still waits for an event. *)
Fixpoint drain_loop (evs : list (Event * (nat -> Z))) : M Fetch unit bool := fun s =>
  match f_tasks s with
  | [] => (Ok true, s)
  | _ =>
      match evs with
      | [] => (Ok false, s)
      | (ev, clock) :: evs =>
          (b ← fetch_turn ev clock; if (b : bool) then mret true else drain_loop evs) s
      end
  end.
End Loop.

(** ** [get_from_root] around the loop *)

Definition initial_fetch (n : Z) (output : OutputSink) (now : Z) : Fetch :=
  mkFetch [] (replicate (Z.to_nat n) Unscheduled) output [] 0 now None None now [] false.

(** Steps 1 to 5: [Err code] is the early exit. *)
Definition get_start (timeout : Z) (dest : option (string * string)) (open_ok : bool)
    (root_data : list Z) (now : Z) : outcome Z (RootIndex * Fetch) :=
  if timeout =? 0 then Err 1
  else match decode_root_index root_data with
  | Ok root =>
      let layout := compute_layout (ri_file_size root) in
      let n := tl_data_chunk_count layout in
      let tree_depth := tl_depth layout in
      let expected_root_slots :=
        if tree_depth =? 0 then Some n else last (tl_layer_counts layout) in
      match expected_root_slots with
      | None => Panic
      | Some expected =>
          if negb (len (ri_slots root) =? expected) then Err 1
          else match open_output_sink dest open_ok (ri_file_size root) with
          | Ok output =>
              match schedule_children_from_index (ri_slots root) tree_depth 0 n
                      (initial_fetch n output now) with
              | (Ok _, s) => Ok (root, s)
              | _ => Panic
              end
          | _ => Err 1
          end
      end
  | _ => Err 1
  end.

(** The results of the system calls of the last step. *)
Record EndIo := mkEndIo { io_truncate_ok : bool; io_finalize_ok : bool }.

Definition is_done (c : ChunkState) : bool := match c with Done => true | _ => false end.
Definition done_count (states : list ChunkState) : Z := len (List.filter is_done states).

(** [temp_path] is cut to the file size; an error there is ignored. *)
Definition truncate_output (truncate_ok : bool) (file_size : Z) (o : OutputSink) : OutputSink :=
  match o with
  | SinkFile mmap t f => if truncate_ok then SinkFile (take (Z.to_nat file_size) mmap) t f else o
  | _ => o
  end.

Record GetResult := mkGetResult {
  gr_code : Z;
  gr_final : option FinalOutput;
  gr_stdout : list Z;
  (** puts to the need keypair, the empty list being the done sentinel *)
  gr_published : list (list Z * Z);
  gr_ack : bool
}.

Definition get_end (crc : list Z -> Z) (no_ack : bool) (io : EndIo) (root : RootIndex) (s : Fetch)
    : GetResult :=
  let failed := mkGetResult 1 None (f_stdout s) (f_published s) false in
  let n := data_chunk_count (ri_file_size root) in
  if f_had_error s then failed
  else if negb (done_count (f_chunk_states s) =? n) then failed
  else if negb (verify_crc crc (f_output s) (ri_file_size root) (ri_crc32c root)) then failed
  else
    match OutputSink_finalize (io_finalize_ok io)
            (truncate_output (io_truncate_ok io) (ri_file_size root) (f_output s)) with
    | Ok final =>
        mkGetResult 0 (Some final) (f_stdout s) (f_published s ++ [([], f_need_seq s + 1)])
          (negb no_ack)
    | _ => failed
    end.

(** The whole command: [None] while the loop still waits for events. *)
Definition get_from_root (crc : list Z -> Z) (timeout : Z) (dest : option (string * string))
    (open_ok no_ack : bool) (io : EndIo) (root_data : list Z) (now : Z)
    (evs : list (Event * (nat -> Z))) : outcome unit (option GetResult) :=
  match get_start timeout dest open_ok root_data now with
  | Err code => Ok (Some (mkGetResult code None [] [] false))
  | Panic => Panic
  | Ok (root, s) =>
      match drain_loop root (secs timeout) evs s with
      | (Ok true, s') => Ok (Some (get_end crc no_ack io root s'))
      | (Ok false, _) => Ok None
      | _ => Panic
      end
  end.

(** ** Retries of one fetch

    One attempt: the answer of [mutable_get] or [immutable_get] ([inl] is an
    error), and the clock readings after it. *)
Inductive RetryResult :=
| RetryOk (value : list Z)
| RetryErr
| RetryWaits (slept : list Z).

Fixpoint fetch_with_retry_loop (deadline backoff max_backoff : Z)
    (attempts : list ((unit + option (list Z)) * Z * Z)) (slept : list Z) : RetryResult :=
  match attempts with
  | [] => RetryWaits slept
  | (answer, now_err, now) :: attempts =>
      match answer with
      | inr (Some value) => RetryOk value
      | _ =>
          if (match answer with inl _ => deadline <=? now_err | inr _ => false end) then RetryErr
          else if deadline <=? now then RetryErr
          else
            let sleep := Z.min backoff (Z.max 0 (deadline - now)) in
            fetch_with_retry_loop deadline (Z.min (backoff * 2) max_backoff) max_backoff attempts
              (slept ++ [sleep])
      end
  end.
Definition fetch_mutable_with_retry (deadline : Z) attempts : RetryResult :=
  fetch_with_retry_loop deadline (millis 500) (secs 15) attempts [].
Definition fetch_immutable_with_retry (deadline : Z) attempts : RetryResult :=
  fetch_with_retry_loop deadline (millis 500) (secs 15) attempts [].
