(* ===== verification/DeadDropFetchProofs.v ===== *)
(** * DeadDropFetchProofs: what one turn of the receiver's loop does

    Scheduling in closed form, the reorder buffer and the mapped file, and
    three invariants: [in_range] for arbitrary answers, [faithful] for answers
    that are chunks of the published tree, and [live] when no task fails. *)

From S2P Require Import Prelude RustStd Chunks Codec Crypto DeadDropWire DeadDropTree DeadDropNeed DeadDropFetch.

#[local] Open Scope Z_scope.

(** ** Scheduling in closed form *)

Fixpoint data_tasks (slots : list (list Z)) (pos end_ : Z) : list FetchTask :=
  match slots with
  | [] => []
  | a :: slots => if end_ <=? pos then [] else DataTask a pos :: data_tasks slots (pos + 1) end_
  end.

Fixpoint data_states (slots : list (list Z)) (pos end_ : Z) (l : list ChunkState) : list ChunkState :=
  match slots with
  | [] => l
  | a :: slots =>
      if end_ <=? pos then l
      else data_states slots (pos + 1) end_ (<[Z.to_nat pos := InFlight a]> l)
  end.

Fixpoint index_tasks (slots : list (list Z)) (child_remaining size base end_ : Z) : list FetchTask :=
  match slots with
  | [] => []
  | pk :: slots =>
      if end_ <=? base then []
      else let child_end := Z.min (as_u64 (base + size)) end_ in
           IndexTask pk child_remaining base child_end ::
           index_tasks slots child_remaining size child_end end_
  end.

Lemma upd_tasks_app_nil s : upd_tasks (fun ts => ts ++ []) s = s.
Proof. destruct s. unfold upd_tasks. cbn. by rewrite app_nil_r. Qed.

Lemma get_state_ok pos c s :
  0 <= pos -> f_chunk_states s !! Z.to_nat pos = Some c -> get_state pos s = (Ok c, s).
Proof. intros Hp Hc. unfold get_state. rewrite (proj2 (Z.ltb_ge _ _)) by lia. by rewrite Hc. Qed.

Lemma set_state_ok pos c s :
  0 <= pos < len (f_chunk_states s) ->
  set_state pos c s = (Ok tt, upd_states (insert (Z.to_nat pos) c) s).
Proof.
  intros Hp. unfold set_state.
  destruct (lookup_lt_is_Some_2 (f_chunk_states s) (Z.to_nat pos)) as [c' Hc]; [unfold len in Hp; lia|].
  by rewrite (bind_ok _ _ _ _ _ (get_state_ok _ _ _ (proj1 Hp) Hc)).
Qed.

Lemma schedule_data_closed slots pos end_ s :
  0 <= pos -> end_ <= len (f_chunk_states s) ->
  schedule_data slots pos end_ s =
    (Ok tt, upd_states (data_states slots pos end_)
              (upd_tasks (fun ts => ts ++ data_tasks slots pos end_) s)).
Proof.
  revert pos s. induction slots as [|a slots IH]; intros pos s Hp He;
    cbn [schedule_data data_tasks data_states].
  { rewrite upd_tasks_app_nil. by destruct s. }
  destruct (Z.leb_spec end_ pos).
  { rewrite upd_tasks_app_nil. by destruct s. }
  rewrite (bind_ok _ _ _ _ _ (set_state_ok pos (InFlight a) s ltac:(lia))). cbv beta.
  unfold spawn. rewrite (bind_ok _ _ _ tt (upd_tasks (fun ts => ts ++ [DataTask a pos])
    (upd_states (insert (Z.to_nat pos) (InFlight a)) s))) by done. cbv beta.
  rewrite IH; [|lia|]. 2: { destruct s. cbn in *. unfold len in *. by rewrite length_insert. }
  destruct s. unfold upd_states, upd_tasks. cbn. by rewrite <- app_assoc.
Qed.

Lemma schedule_index_closed slots r size base end_ s :
  schedule_index slots r size base end_ s =
    (Ok tt, upd_tasks (fun ts => ts ++ index_tasks slots r size base end_) s).
Proof.
  revert base s. induction slots as [|a slots IH]; intros base s; cbn [schedule_index index_tasks].
  { by rewrite upd_tasks_app_nil. }
  destruct (Z.leb_spec end_ base); [by rewrite upd_tasks_app_nil|]. cbv zeta. unfold spawn at 1.
  rewrite (bind_ok _ _ _ tt (upd_tasks (fun ts => ts ++ [IndexTask a r base
    (Z.min (as_u64 (base + size)) end_)]) s)) by done.
  cbv beta. rewrite IH. destruct s. unfold upd_tasks. cbn. by rewrite <- app_assoc.
Qed.

Definition child_tasks (slots : list (list Z)) (remaining_depth base end_ : Z) : list FetchTask :=
  if remaining_depth =? 0 then data_tasks slots base end_
  else index_tasks slots (remaining_depth - 1)
         (subtree_loop (Z.to_nat (remaining_depth - 1 + 1)) 1) base end_.
Definition child_states (slots : list (list Z)) (remaining_depth base end_ : Z)
    (l : list ChunkState) : list ChunkState :=
  if remaining_depth =? 0 then data_states slots base end_ l else l.

Lemma schedule_children_closed slots r base end_ s :
  0 <= base -> end_ <= len (f_chunk_states s) ->
  schedule_children_from_index slots r base end_ s =
    (Ok tt, upd_states (child_states slots r base end_)
              (upd_tasks (fun ts => ts ++ child_tasks slots r base end_) s)).
Proof.
  intros Hb He. unfold schedule_children_from_index, child_tasks, child_states.
  destruct (r =? 0); [by apply schedule_data_closed|]. cbv zeta.
  rewrite schedule_index_closed. by destruct s.
Qed.

Lemma length_data_states slots pos end_ l : length (data_states slots pos end_ l) = length l.
Proof.
  revert pos l. induction slots as [|a slots IH]; intros pos l; cbn; [done|].
  case_match; [done|]. by rewrite IH, length_insert.
Qed.

Lemma length_child_states slots r pos end_ l : length (child_states slots r pos end_ l) = length l.
Proof. unfold child_states. case_match; [apply length_data_states|done]. Qed.

(** A scheduled position is in flight; the others keep their state. *)
Lemma data_states_lookup slots pos end_ l (p : nat) c :
  0 <= pos -> data_states slots pos end_ l !! p = Some c ->
  (exists a, c = InFlight a /\ DataTask a (Z.of_nat p) ∈ data_tasks slots pos end_) \/
  (l !! p = Some c /\ forall i : nat, (i < length slots)%nat -> pos + Z.of_nat i < end_ ->
                                     Z.of_nat p <> pos + Z.of_nat i).
Proof.
  revert pos l. induction slots as [|a slots IH]; intros pos l Hp; cbn [data_states data_tasks].
  { intros Hc. right. split; [done|]. cbn. lia. }
  destruct (Z.leb_spec end_ pos) as [Hle|Hlt]; [intros Hc; right; split; [done|lia]|].
  intros [(a' & -> & Hin)|[Hc Hout]]%IH; [left; exists a'; split; [done|by right]| |lia].
  destruct (decide (p = Z.to_nat pos)) as [->|Hne].
  - apply list_lookup_insert_Some in Hc as [(_ & <- & _)|[? _]]; [|done].
    left. exists a. split; [done|]. rewrite Z2Nat.id by lia. left.
  - rewrite list_lookup_insert_ne in Hc by done. right. split; [done|].
    intros [|i] Hi Hlt'; [lia|]. specialize (Hout i ltac:(cbn in Hi; lia) ltac:(lia)). lia.
Qed.

Lemma elem_of_data_tasks slots pos end_ t :
  t ∈ data_tasks slots pos end_ <->
  exists (i : nat) a, slots !! i = Some a /\ pos + Z.of_nat i < end_ /\ t = DataTask a (pos + Z.of_nat i).
Proof.
  revert pos. induction slots as [|a slots IH]; intros pos; cbn [data_tasks].
  { rewrite elem_of_nil. split; [done|]. by intros (i & a & ? & _). }
  destruct (Z.leb_spec end_ pos) as [Hle|Hlt].
  { rewrite elem_of_nil. split; [done|]. intros (i & b & _ & ? & _). lia. }
  rewrite elem_of_cons, IH. split.
  - intros [->|(i & b & Hi & Hb & ->)]; [exists 0%nat, a|exists (S i), b]; cbn.
    + split; [done|]. split; [lia|]. f_equal. lia.
    + split; [done|]. split; [lia|]. f_equal. lia.
  - intros ([|i] & b & Hi & Hb & ->); cbn in Hi; [injection Hi as ->; left; f_equal; lia|].
    right. exists i, b. split; [done|]. split; [lia|]. f_equal. lia.
Qed.

(** The children of an index chunk tile its range in pieces of [size]. *)
Lemma elem_of_index_tasks slots r size base end_ t :
  0 < size -> 0 <= base -> end_ + size < 2 ^ 64 ->
  t ∈ index_tasks slots r size base end_ <->
  exists (i : nat) pk, slots !! i = Some pk /\ base + Z.of_nat i * size < end_ /\
    t = IndexTask pk r (base + Z.of_nat i * size) (Z.min (base + (Z.of_nat i + 1) * size) end_).
Proof.
  intros Hs. revert base. induction slots as [|a slots IH]; intros base Hb He; cbn [index_tasks].
  { rewrite elem_of_nil. split; [done|]. by intros (i & pk & ? & _). }
  destruct (Z.leb_spec end_ base) as [Hle|Hlt].
  { rewrite elem_of_nil. split; [done|]. intros (i & pk & _ & ? & _). lia. }
  cbv zeta. unfold as_u64. rewrite as_u_id by (unfold in_u; lia). rewrite elem_of_cons.
  destruct (Z.le_gt_cases (base + size) end_).
  - rewrite Z.min_l by done. rewrite IH by lia. split.
    + intros [->|(i & pk & Hi & Hb' & ->)]; [exists 0%nat, a|exists (S i), pk]; cbn [lookup list_lookup];
        (split; [done|]); (split; [lia|]); f_equal; lia.
    + intros ([|i] & pk & Hi & Hb' & ->); cbn in Hi; [injection Hi as ->; left; f_equal; lia|].
      right. exists i, pk. split; [done|]. split; [lia|]. f_equal; lia.
  - rewrite Z.min_r by lia. rewrite IH by lia. split.
    + intros [->|(i & pk & _ & Hb' & _)]; [|lia]. exists 0%nat, a.
      split; [done|]. split; [lia|]. f_equal; lia.
    + intros ([|i] & pk & Hi & Hb' & ->); cbn in Hi; [injection Hi as ->; left; f_equal; lia|]. lia.
Qed.

Lemma subtree_loop_spec k size :
  0 < size -> size * 31 ^ Z.of_nat k < 2 ^ 64 -> subtree_loop k size = size * 31 ^ Z.of_nat k.
Proof.
  revert size. induction k as [|k IH]; intros size Hs Hb; cbn [subtree_loop].
  { cbn. lia. }
  assert (0 < 31 ^ Z.of_nat k) by (apply Z.pow_pos_nonneg; lia).
  rewrite Nat2Z.inj_succ, Z.pow_succ_r in * by lia.
  unfold saturating_mul. change CAP with 31. rewrite Z.min_l by nia. rewrite IH by nia. lia.
Qed.

(** ** Total correctness of monadic code: it returns, and [Q] holds *)

Definition runs {A} (m : M Fetch unit A) (s : Fetch) (Q : A -> Fetch -> Prop) : Prop :=
  exists a s', m s = (Ok a, s') /\ Q a s'.

Lemma runs_ret {A} (a : A) s (Q : A -> Fetch -> Prop) : Q a s -> runs (mret a) s Q.
Proof. intros HQ. by exists a, s. Qed.
Lemma runs_bind {A B} (m : M Fetch unit A) (g : A -> M Fetch unit B) s Q :
  runs m s (fun a s' => runs (g a) s' Q) -> runs (m ≫= g) s Q.
Proof.
  intros (a & s' & Hm & b & s'' & Hg & HQ). exists b, s''. split; [|done].
  by rewrite (bind_ok _ _ _ _ _ Hm).
Qed.
Lemma runs_modify g s (Q : unit -> Fetch -> Prop) : Q tt (g s) -> runs (modify g) s Q.
Proof. intros HQ. by exists tt, (g s). Qed.
Lemma runs_get s (Q : Fetch -> Fetch -> Prop) : Q s s -> runs get s Q.
Proof. intros HQ. by exists s, s. Qed.
Lemma runs_get_state pos s (Q : ChunkState -> Fetch -> Prop) :
  0 <= pos < len (f_chunk_states s) ->
  (forall c, f_chunk_states s !! Z.to_nat pos = Some c -> Q c s) -> runs (get_state pos) s Q.
Proof.
  intros Hp HQ.
  destruct (lookup_lt_is_Some_2 (f_chunk_states s) (Z.to_nat pos)) as [c Hc]; [unfold len in Hp; lia|].
  exists c, s. split; [|by apply HQ]. by apply get_state_ok; [lia|].
Qed.
Lemma runs_set_state pos c s (Q : unit -> Fetch -> Prop) :
  0 <= pos < len (f_chunk_states s) -> Q tt (upd_states (insert (Z.to_nat pos) c) s) ->
  runs (set_state pos c) s Q.
Proof. intros Hp HQ. exists tt, (upd_states (insert (Z.to_nat pos) c) s). split; [by apply set_state_ok|done]. Qed.
Lemma runs_impl {A} (m : M Fetch unit A) s (P Q : A -> Fetch -> Prop) :
  runs m s P -> (forall a s', P a s' -> Q a s') -> runs m s Q.
Proof. intros (a & s' & Hm & HP) HQ. exists a, s'. auto. Qed.
Lemma runs_schedule slots r base end_ s (Q : unit -> Fetch -> Prop) :
  0 <= base -> end_ <= len (f_chunk_states s) ->
  Q tt (upd_states (child_states slots r base end_)
              (upd_tasks (fun ts => ts ++ child_tasks slots r base end_) s)) ->
  runs (schedule_children_from_index slots r base end_) s Q.
Proof. intros Hb He HQ. eexists _, _. split; [by apply schedule_children_closed|done]. Qed.
Lemma runs_fail s (Q : Control -> Fetch -> Prop) : Q Break (set_had_error s) -> runs fail s Q.
Proof. intros HQ. by exists Break, (set_had_error s). Qed.

(** ** Every position a task names is in range, whatever was answered *)

Definition task_in_range (n : Z) (t : FetchTask) : Prop :=
  match t with
  | IndexTask _ r base end_ => 0 <= r /\ 0 <= base /\ end_ <= n
  | DataTask _ p => 0 <= p < n
  end.

(** [K] is a property of the sink that accepting chunks keeps. *)
Definition in_range (K : OutputSink -> Prop) (n : Z) (s : Fetch) : Prop :=
  len (f_chunk_states s) = n /\ Forall (task_in_range n) (f_tasks s) /\ K (f_output s).
Class SinkInvariant (K : OutputSink -> Prop) : Prop := sink_invariant :
  forall ok p v o o' w, K o -> OutputSink_accept ok p v o = Ok (o', w) -> K o'.

Lemma child_tasks_in_range n slots r base end_ :
  0 <= r -> 0 <= base -> end_ <= n -> Forall (task_in_range n) (child_tasks slots r base end_).
Proof.
  intros Hr Hb He. unfold child_tasks. destruct (Z.eqb_spec r 0).
  - apply Forall_forall. intros t (i & a & _ & Hi & ->)%elem_of_data_tasks. cbn. lia.
  - generalize (subtree_loop (Z.to_nat (r - 1 + 1)) 1). intros size. revert base Hb.
    induction slots as [|a slots IH]; intros base Hb; cbn [index_tasks]; [constructor|].
    case_match; [constructor|]. cbv zeta.
    assert (0 <= as_u64 (base + size)) by (apply (as_u_range 64); lia).
    constructor; [cbn; lia|]. apply Z.leb_gt in H. apply IH. lia.
Qed.

Lemma in_range_states K n g s :
  (forall l, length (g l) = length l) -> in_range K n s -> in_range K n (upd_states g s).
Proof. intros Hg (Hl & Ht & HK). split_and!; [|done..]. cbn. unfold len in *. by rewrite Hg. Qed.
Lemma in_range_app K n ts s :
  Forall (task_in_range n) ts -> in_range K n s -> in_range K n (upd_tasks (fun l => l ++ ts) s).
Proof. intros Hts (Hl & Ht & HK). split_and!; [done| |done]. cbn. by apply Forall_app. Qed.

Lemma elem_of_respawn_tasks states t :
  t ∈ respawn_tasks states <->
  exists (p : nat) a, states !! p = Some (Failed a) /\ t = DataTask a (Z.of_nat p).
Proof.
  unfold respawn_tasks. rewrite list_elem_of_join. split.
  - intros (l & Hin & Hl). apply elem_of_lookup_imap in Hl as (p & c & -> & Hc).
    destruct c; try by apply not_elem_of_nil in Hin. apply list_elem_of_singleton in Hin as ->. by exists p, address.
  - intros (p & a & Hp & ->). exists [DataTask a (Z.of_nat p)]. split; [by left|].
    apply elem_of_lookup_imap. by exists p, (Failed a).
Qed.

(** What publishing needs changes: failed positions are in flight again. *)
Lemma publish_needs_cases clock s :
  exists s', publish_needs clock s = (Ok tt, s') /\
    f_output s' = f_output s /\ f_stdout s' = f_stdout s /\ f_had_error s' = f_had_error s /\
    f_last_progress_at s' = f_last_progress_at s /\
    ((f_tasks s' = f_tasks s /\ f_chunk_states s' = f_chunk_states s) \/
     (f_tasks s' = f_tasks s ++ respawn_tasks (f_chunk_states s) /\
      f_chunk_states s' = respawn_state <$> f_chunk_states s)).
Proof.
  unfold publish_needs. case_match; [|by exists s; intuition].
  eexists. split; [done|]. cbn.
  destruct (missing_positions (f_chunk_states s)) as [|m ms]; [by intuition|].
  case_match; cbn; intuition.
Qed.

Lemma in_range_respawn K n s :
  in_range K n s -> Forall (task_in_range n) (respawn_tasks (f_chunk_states s)).
Proof.
  intros (Hl & _ & _). apply Forall_forall. intros t (p & a & Hp & ->)%elem_of_respawn_tasks.
  apply lookup_lt_Some in Hp. cbn. unfold len in Hl. lia.
Qed.

Lemma in_range_publish K n clock s :
  in_range K n s -> runs (publish_needs clock) s (fun _ s' => in_range K n s').
Proof.
  intros Hs. destruct (publish_needs_cases clock s) as (s' & E & Ho & ? & ? & ? & Hc).
  exists tt, s'. split; [done|]. pose proof (in_range_respawn K n s Hs) as Hr. destruct Hs as (Hl & Ht & HK).
  unfold in_range. rewrite Ho. destruct Hc as [[-> ->]|[-> ->]]; [done|]. split_and!; [|by apply Forall_app|done].
  unfold len in *. by rewrite length_fmap.
Qed.

Section Turn.
Context (K : OutputSink -> Prop) `{!SinkInvariant K}.
Context (root : RootIndex) (chunk_timeout n : Z).

Lemma in_range_outcome ev now s :
  in_range K n s -> runs (handle_outcome root ev now) s (fun _ s' => in_range K n s').
Proof.
  intros Hs. assert (Hdel : forall i, in_range K n (upd_tasks (delete i) s)).
  { intros i. destruct Hs as (Hl & Ht & HK). split_and!; [done| |done]. cbn. by apply Forall_delete. }
  destruct ev as [i result ok|i|]; cbn [handle_outcome]; [| |by apply runs_ret].
  2: { apply runs_bind. eexists _, _. split; [done|]. by apply runs_ret. }
  apply runs_bind. eexists _, _. split; [done|]. cbv beta.
  destruct (f_tasks s !! i) as [t|] eqn:Ht; [|by apply runs_ret].
  pose proof (proj1 (Forall_lookup _ _) (proj1 (proj2 Hs)) _ _ Ht) as Hrange.
  specialize (Hdel i). set (s1 := upd_tasks (delete i) s) in *. clearbody s1.
  destruct t as [pk r base e|a p]; cbn in Hrange.
  - destruct Hrange as (Hr & Hb & He). unfold on_index.
    destruct result as [bytes|]; [|by apply runs_fail].
    destruct (decode_non_root_index bytes); [|by apply runs_fail..].
    apply runs_bind, runs_modify, runs_bind, runs_schedule; [done|cbn; by rewrite (proj1 Hdel)|].
    apply runs_ret, in_range_states; [intros; apply length_child_states|].
    apply in_range_app; [by apply child_tasks_in_range|done].
  - assert (0 <= p < len (f_chunk_states s1)) by (by rewrite (proj1 Hdel)).
    unfold on_data. destruct result as [bytes|].
    + destruct (decode_data_chunk bytes); [|by apply runs_fail..].
      apply runs_bind, runs_get_state; [done|]. intros c _.
      assert (Hacc : runs (s ← get; match OutputSink_accept ok p (take (Z.to_nat
        (Z.min (trim_len root p a0) (len a0))) a0) (f_output s) with
        | Ok (o, written) => modify (set_output o written) ;; modify (set_progress now) ;;
            set_state p Done ;; mret Fallthrough | _ => fail end) s1 (fun _ s' => in_range K n s')).
      { apply runs_bind, runs_get. destruct (OutputSink_accept _ _ _ _) as [[o w]| |] eqn:Ea; [|by apply runs_fail..].
        apply runs_bind, runs_modify, runs_bind, runs_modify, runs_bind, runs_set_state; [done|].
        apply runs_ret. apply in_range_states; [intros; apply length_insert|].
        destruct Hdel as (Hl & Ht' & HK). split_and!; [done|done|]. by eapply sink_invariant in Ea. }
      destruct c; [done..|]. by apply runs_ret.
    + apply runs_bind, runs_get_state; [done|]. intros c _.
      destruct c; try by apply runs_ret.
      apply runs_bind, runs_set_state; [done|]. apply runs_ret, in_range_states; [intros; apply length_insert|done].
Qed.

Lemma in_range_turn ev clock s :
  in_range K n s -> runs (fetch_turn root chunk_timeout ev clock) s (fun _ s' => in_range K n s').
Proof.
  intros Hs. unfold fetch_turn. apply runs_bind.
  eapply runs_impl; [by apply in_range_outcome|]. intros c s1 H1.
  destruct c; try by apply runs_ret.
  apply runs_bind. eapply runs_impl; [by apply in_range_publish|]. intros ? s2 H2.
  apply runs_bind, runs_get. case_match; [|by apply runs_ret].
  by apply runs_bind, runs_modify, runs_ret.
Qed.

Lemma in_range_loop evs s :
  in_range K n s -> runs (drain_loop root chunk_timeout evs) s (fun _ s' => in_range K n s').
Proof.
  revert s. induction evs as [|[ev clock] evs IH]; intros s Hs.
  - unfold runs. cbn. destruct (f_tasks s); eauto.
  - unfold runs. cbn [drain_loop]. destruct (f_tasks s) as [|t ts] eqn:Ht; [eauto|].
    change (runs (b ← fetch_turn root chunk_timeout ev clock;
      if (b : bool) then mret true else drain_loop root chunk_timeout evs) s (fun _ s' => in_range K n s')).
    apply runs_bind. eapply runs_impl; [by apply in_range_turn|]. intros [|] s' Hs'; [by apply runs_ret|].
    by apply IH.
Qed.
End Turn.

(** ** The mapped file *)

Lemma len_copy_at off bs l :
  0 <= off -> off + len bs <= len l -> len (copy_at off bs l) = len l.
Proof.
  intros Ho Hl. unfold copy_at, len in *. rewrite !length_app, length_take, length_drop. lia.
Qed.

Lemma slice_copy_same off bs l :
  0 <= off -> off + len bs <= len l -> slice (copy_at off bs l) off (off + len bs) = bs.
Proof.
  intros Ho Hl. unfold copy_at. apply slice_mid; unfold len in *; rewrite length_take; lia.
Qed.

Lemma slice_lookup {A} (l : list A) a b (i : nat) :
  0 <= a -> slice l a b !! i = if decide (a + Z.of_nat i < b) then l !! (Z.to_nat a + i)%nat else None.
Proof.
  intros Ha. unfold slice. case_decide.
  - rewrite lookup_take_lt by lia. apply lookup_drop.
  - apply lookup_take_ge. lia.
Qed.

Lemma slice_copy_other off bs l a b :
  0 <= off -> off + len bs <= len l -> 0 <= a -> b <= off \/ off + len bs <= a ->
  slice (copy_at off bs l) a b = slice l a b.
Proof.
  intros Ho Hl Ha Hd. apply list_eq. intros i. rewrite !slice_lookup by done.
  case_decide as Hi; [|done]. unfold copy_at, len in *. destruct Hd as [Hd|Hd].
  - rewrite lookup_app_l by (rewrite length_take; lia). by rewrite lookup_take_lt by lia.
  - rewrite lookup_app_r by (rewrite length_take; lia).
    rewrite lookup_app_r by (rewrite length_take; lia). rewrite lookup_drop, length_take.
    f_equal. lia.
Qed.

(** ** The reorder buffer *)

Section Stream.
Context (payloads : list (list Z)).

(** [out] has been written; what is done is written or held. *)
Record sink_ok (done : nat -> Prop) (s : StreamSink) (out : list Z) : Prop := {
  so_expected : ss_expected s = len payloads;
  so_emit : 0 <= ss_emit_pos s <= len payloads;
  so_out : out = mjoin (take (Z.to_nat (ss_emit_pos s)) payloads);
  so_held q v : ss_reorder s !! q = Some v -> ss_emit_pos s <= q /\ payloads !! Z.to_nat q = Some v;
  so_done (p : nat) : done p -> Z.of_nat p < ss_emit_pos s \/ is_Some (ss_reorder s !! Z.of_nat p)
}.

Lemma mjoin_take_S (k : nat) v :
  payloads !! k = Some v -> mjoin (take (S k) payloads) = mjoin (take k payloads) ++ v.
Proof.
  intros Hk. rewrite (take_S_r _ _ _ Hk), join_app. by rewrite mjoin_cons, app_nil_r.
Qed.

(** One more chunk at the cursor. *)
Lemma sink_ok_emit done s out v :
  payloads !! Z.to_nat (ss_emit_pos s) = Some v ->
  sink_ok done s out ->
  sink_ok (fun p => done p \/ Z.of_nat p = ss_emit_pos s)
    (mkStreamSink (ss_emit_pos s + 1) (ss_expected s) (delete (ss_emit_pos s) (ss_reorder s))
       (ss_emitted_bytes s + len v)) (out ++ v).
Proof.
  intros Hv [H1 H2 H3 H4 H5]. pose proof (lookup_lt_Some _ _ _ Hv) as Hlt.
  split; cbn [ss_expected ss_emit_pos ss_reorder]; [done|unfold len in *; lia|..].
  - replace (Z.to_nat (ss_emit_pos s + 1)) with (S (Z.to_nat (ss_emit_pos s))) by lia.
    by rewrite (mjoin_take_S _ _ Hv), H3.
  - intros q w Hq. apply lookup_delete_Some in Hq as [Hne Hq]. destruct (H4 _ _ Hq). split; [lia|done].
  - intros p [Hp|Hp]; [|lia]. destruct (decide (Z.of_nat p = ss_emit_pos s)); [lia|].
    destruct (H5 _ Hp); [lia|]. right. by rewrite lookup_delete_ne.
Qed.

Lemma sink_ok_weaken (done done' : nat -> Prop) s out :
  (forall p, done' p -> done p) -> sink_ok done s out -> sink_ok done' s out.
Proof. intros Hd [H1 H2 H3 H4 H5]. split; auto. Qed.

Lemma StreamSink_drain_ok fuel done s out :
  (size (ss_reorder s) <= fuel)%nat -> sink_ok done s out ->
  let r := StreamSink_drain fuel s in
  sink_ok done r.2 (out ++ mjoin r.1) /\ ss_reorder r.2 !! ss_emit_pos r.2 = None.
Proof.
  revert s out. induction fuel as [|fuel IH]; intros s out Hf Hs; cbn [StreamSink_drain].
  - cbn. rewrite app_nil_r. split; [done|].
    assert (ss_reorder s = ∅) as -> by (apply map_size_empty_inv; lia). apply lookup_empty.
  - destruct (ss_reorder s !! ss_emit_pos s) as [v|] eqn:E; [|cbn; by rewrite app_nil_r].
    pose proof (proj2 (so_held _ _ _ Hs _ _ E)) as Hv.
    pose proof (sink_ok_emit _ _ _ _ Hv Hs) as Hs'. apply (sink_ok_weaken _ done) in Hs'; [|tauto].
    assert (Hsz : (size (delete (ss_emit_pos s) (ss_reorder s)) <= fuel)%nat).
    { rewrite map_size_delete, E. lia. }
    specialize (IH (mkStreamSink _ _ _ _) _ Hsz Hs').
    destruct (StreamSink_drain fuel _) as [o s']. cbn [fst snd] in IH |- *. destruct IH as [I1 I2].
    split; [|done]. by rewrite mjoin_cons, app_assoc.
Qed.

(** Accepting chunk [p] of the file, in any order. *)
Lemma StreamSink_accept_ok done s out (p : nat) v :
  payloads !! p = Some v -> sink_ok done s out -> ss_reorder s !! ss_emit_pos s = None ->
  let r := StreamSink_accept (Z.of_nat p) v s in
  sink_ok (fun q => done q \/ q = p) r.2 (out ++ mjoin r.1) /\
  ss_reorder r.2 !! ss_emit_pos r.2 = None.
Proof.
  intros Hv Hs Hnone. pose proof (lookup_lt_Some _ _ _ Hv) as Hlt. unfold StreamSink_accept.
  rewrite (so_expected _ _ _ Hs). rewrite (proj2 (Z.leb_gt _ _)) by (unfold len; lia). cbn [orb].
  destruct (Z.ltb_spec (Z.of_nat p) (ss_emit_pos s)) as [Hl|Hge].
  { cbn. rewrite app_nil_r. split; [|done]. destruct Hs as [H1 H2 H3 H4 H5]. split; try done.
    intros q [Hq| ->]; [by apply H5|by left]. }
  destruct (Z.eqb_spec (Z.of_nat p) (ss_emit_pos s)) as [He|Hne].
  - pose proof (sink_ok_emit done s out v) as Hs'. rewrite <- He, Nat2Z.id in Hs'.
    specialize (Hs' Hv Hs). rewrite He in Hs'. rewrite delete_id in Hs' by done.
    rewrite (so_expected _ _ _ Hs) in Hs'.
    apply (StreamSink_drain_ok (size (ss_reorder s))) in Hs'; [|done].
    destruct (StreamSink_drain _ _) as [o s']. cbn [fst snd] in Hs' |- *. destruct Hs' as [I1 I2].
    split; [|done]. rewrite mjoin_cons, app_assoc. eapply sink_ok_weaken; [|exact I1].
    intros q [Hq| ->]; [by left|right; lia].
  - cbn. rewrite app_nil_r. destruct Hs as [H1 H2 H3 H4 H5]. split; [|by rewrite lookup_insert_ne].
    split; cbn [ss_expected ss_emit_pos ss_reorder]; try done.
    + intros q w [[<- <-]|[Hq Hw]]%lookup_insert_Some; [|by apply H4]. rewrite Nat2Z.id. split; [lia|done].
    + intros q [Hq| ->]; [|right; by rewrite lookup_insert_eq].
      destruct (H5 _ Hq); [by left|]. right. rewrite lookup_insert_is_Some. 
      destruct (decide (Z.of_nat p = Z.of_nat q)); [by left|by right].
Qed.

(** When everything is done, everything is written. *)
Lemma sink_ok_complete done s out :
  sink_ok done s out -> ss_reorder s !! ss_emit_pos s = None ->
  (forall p : nat, (p < length payloads)%nat -> done p) -> out = mjoin payloads.
Proof.
  intros [H1 H2 H3 H4 H5] Hnone Hall. subst out.
  destruct (Z.lt_ge_cases (ss_emit_pos s) (len payloads)) as [Hl|Hge].
  - destruct (H5 (Z.to_nat (ss_emit_pos s))) as [Hx|Hx]; [apply Hall; unfold len in Hl; lia|lia|].
    rewrite Z2Nat.id in Hx by lia. rewrite Hnone in Hx. by destruct Hx.
  - by rewrite take_ge by (unfold len in Hge; lia).
Qed.
End Stream.
