(* ===== verification/DeadDropRun.v ===== *)
(** * DeadDropRun: the receiver against the tree of a file

    The invariants of the drain loop when the answers are the chunks the sender
    published: every task names a node of the tree and its range, and what has
    been accepted is the file's. *)

From S2P Require Import Prelude RustStd Chunks Codec Crypto DeadDropWire DeadDropTree DeadDropNeed DeadDropFetch DeadDropFetchProofs.

#[local] Open Scope Z_scope.

(** An answer to a task that the sender published. *)
Definition published (tree : BuiltTree) (t : FetchTask) (bytes : list Z) : Prop :=
  match t with
  | IndexTask pk _ _ _ =>
      Exists (fun c => kp_public_key (ic_keypair c) = pk /\ bytes = ic_encoded c) (bt_index_chunks tree)
  | DataTask a _ => Exists (fun c => dc_address c = a /\ bytes = dc_encoded c) (bt_data_chunks tree)
  end.

(** No two chunks of the tree that differ share their key or address. *)
Definition collision_free (tree : BuiltTree) : Prop :=
  Forall (fun c => Forall (fun c' => kp_public_key (ic_keypair c) = kp_public_key (ic_keypair c') ->
                                    ic_encoded c = ic_encoded c') (bt_index_chunks tree))
    (bt_index_chunks tree) /\
  Forall (fun c => Forall (fun c' => dc_address c = dc_address c' -> dc_encoded c = dc_encoded c')
                     (bt_data_chunks tree)) (bt_data_chunks tree).

(** The answers of a run are published chunks, errors, panics or silence. *)
Definition honest (tree : BuiltTree) (s : Fetch) (ev : Event) : Prop :=
  match ev with
  | TaskDone i (Some bytes) _ =>
      match f_tasks s !! i with Some t => published tree t bytes | None => True end
  | _ => True
  end.

(** A task answers with its published chunk, in time and with a working output. *)
Definition succeeds (tree : BuiltTree) (timeout : Z) (s : Fetch) (ev : Event) (clock : nat -> Z) : Prop :=
  match ev with
  | TaskDone i (Some bytes) true =>
      match f_tasks s !! i with
      | Some t => published tree t bytes
      | None => False
      end /\ clock 5%nat - clock 0%nat < timeout
  | _ => False
  end.

(** A run all of whose events satisfy [P] in the state they meet. *)
Fixpoint run_ok (P : Fetch -> Event -> (nat -> Z) -> Prop) (root : RootIndex) (timeout : Z)
    (evs : list (Event * (nat -> Z))) (s : Fetch) : Prop :=
  match f_tasks s, evs with
  | [], _ | _, [] => True
  | _, (ev, clock) :: evs =>
      P s ev clock /\
      match fetch_turn root timeout ev clock s with
      | (Ok false, s') => run_ok P root timeout evs s'
      | _ => True
      end
  end.

#[global] Instance published_dec tree t bytes : Decision (published tree t bytes).
Proof. destruct t; cbn; apply _. Defined.
#[global] Instance collision_free_dec tree : Decision (collision_free tree).
Proof. unfold collision_free. apply _. Defined.
#[global] Instance honest_dec tree s ev : Decision (honest tree s ev).
Proof. destruct ev as [i [bytes|] ok| |]; cbn; try apply _. case_match; apply _. Defined.
#[global] Instance succeeds_dec tree timeout s ev clock : Decision (succeeds tree timeout s ev clock).
Proof. destruct ev as [i [bytes|] []| |]; cbn; try apply _. case_match; apply _. Defined.
#[global] Instance run_ok_dec P root timeout evs s `{!forall s ev clock, Decision (P s ev clock)} :
  Decision (run_ok P root timeout evs s).
Proof.
  revert s. induction evs as [|[ev clock] evs IH]; intros s; cbn [run_ok].
  - destruct (f_tasks s); apply _.
  - destruct (f_tasks s); [apply _|]. apply and_dec; [apply _|].
    destruct (fetch_turn root timeout ev clock s) as [[[|]|?|] s']; apply _ || apply IH.
Defined.
#[global] Typeclasses Opaque published collision_free honest succeeds run_ok.


(** The kind of sink, fixed when it is opened. *)
Definition sink_for (dest : option (string * string)) (o : OutputSink) : Prop :=
  match dest, o with
  | Some (_, path), SinkFile _ _ f | Some (_, path), SinkEmptyFile _ f => f = path
  | None, SinkStdout _ | None, SinkEmptyStdout => True
  | _, _ => False
  end.

#[global] Instance sink_for_invariant dest : SinkInvariant (sink_for dest).
Proof.
  intros ok p v o o' w HK. destruct o; cbn [OutputSink_accept].
  - case_match; [done|]. by intros [= <- _].
  - by intros [= <- _].
  - destruct (StreamSink_accept _ _ _). destruct ok; [|done]. by intros [= <- _].
  - by intros [= <- _].
Qed.

Section Run.
Context `{CryptoPrims} `{!CryptoLaws _}.
Context (crc : list Z -> Z) (seed file : list Z) (d : nat).

#[local] Abbreviation addrs := (file_addrs seed file).
#[local] Abbreviation n := (len addrs).
#[local] Abbreviation payloads := (chunks (Z.to_nat DATA_PAYLOAD_MAX) file).
#[local] Abbreviation kids := (kids seed addrs).
#[local] Abbreviation layer := (index_layer seed addrs).

Definition file_root : RootIndex := mkRootIndex (len file) (crc file) (kids d).
Definition file_tree : BuiltTree :=
  mkBuiltTree (encode_root_index (len file) (crc file) (kids d)) (KeyPair_from_seed seed)
    (mjoin (layer <$> seq 0 d)) (file_data seed file) (compute_layout (len file)) (crc file).

Context (Hf : in_u 64 (len file)) (Hbytes : bytes_ok file) (Hn : n < 2 ^ 32).
Context (Hle : layer_size n d <= 30) (Hmin : forall j : nat, (j < d)%nat -> 30 < layer_size n j).
Context (Hcf : collision_free file_tree).

(** ** The slots of a node *)

Lemma pow31_pos k : 0 < 31 ^ Z.of_nat k.
Proof. apply Z.pow_pos_nonneg; lia. Qed.

Lemma kids_slots_ok L : slots_ok (kids L).
Proof.
  destruct L as [|L]; cbn [DeadDropTree.kids]; unfold slots_ok.
  - apply Forall_fmap, Forall_forall. intros c Hc. apply elem_of_lookup_imap in Hc as (i & x & -> & _).
    apply blake2b256_ok.
  - apply Forall_fmap, Forall_forall. intros c Hc. apply elem_of_lookup_imap in Hc as (i & x & -> & _).
    apply ed25519_public_ok.
Qed.

Definition node_slots (L k : nat) : list (list Z) := take 31 (drop (k * 31) (kids L)).

Lemma kids_S_lookup L k pk :
  kids (S L) !! k = Some pk ->
  exists c, layer L !! k = Some c /\ kp_public_key (ic_keypair c) = pk /\
    ic_encoded c = encode_non_root_index (node_slots L k) /\ (k * 31 < length (kids L))%nat.
Proof.
  cbn [DeadDropTree.kids]. fold (layer L). unfold layer_pubkeys. rewrite list_lookup_fmap.
  destruct (layer L !! k) as [c|] eqn:Hc; [|done]. intros [= <-]. exists c. split; [done|].
  split; [done|]. unfold index_layer, layer_of in Hc. rewrite list_lookup_imap in Hc.
  destruct (chunks 31 (kids L) !! k) as [slots|] eqn:Hs; [|done]. cbn in Hc. injection Hc as <-.
  rewrite chunks_lookup in Hs by lia. case_decide; [|done]. injection Hs as <-. done.
Qed.

(** The published answer to a good index task decodes to the slots of its node. *)
Lemma index_answer L k pk r b e bytes :
  (L < d)%nat -> kids (S L) !! k = Some pk -> published file_tree (IndexTask pk r b e) bytes ->
  decode_non_root_index bytes = Ok (node_slots L k).
Proof.
  intros HL Hk Hp. destruct (kids_S_lookup _ _ _ Hk) as (c & Hc & Hpk & Henc & Hlt).
  cbn [published] in Hp. apply Exists_exists in Hp as (c' & Hin & Hpk' & ->).
  assert (Hcin : c ∈ bt_index_chunks file_tree).
  { cbn. apply list_elem_of_join. exists (layer L). split; [by apply list_elem_of_lookup_2 in Hc|].
    apply list_elem_of_fmap. exists L. split; [done|]. apply elem_of_seq. lia. }
  destruct Hcf as [Hcf1 _]. rewrite Forall_forall in Hcf1. specialize (Hcf1 _ Hin).
  rewrite Forall_forall in Hcf1. rewrite (Hcf1 _ Hcin) by congruence. rewrite Henc.
  apply decode_non_root_index_encode.
  - apply Forall_take, Forall_drop, kids_slots_ok.
  - unfold node_slots, len. rewrite length_take. change NON_ROOT_INDEX_SLOT_CAP with 31. lia.
Qed.

Lemma data_lookup (p : nat) a :
  addrs !! p = Some a ->
  exists v c, payloads !! p = Some v /\ file_data seed file !! p = Some c /\ dc_address c = a /\
    dc_encoded c = encode_data_chunk (salt seed) v.
Proof.
  unfold file_addrs. rewrite list_lookup_fmap. destruct (file_data seed file !! p) as [c|] eqn:Hc; [|done].
  intros [= <-]. pose proof Hc as Hc'. unfold file_data in Hc'. rewrite list_lookup_imap in Hc'.
  destruct (payloads !! p) as [v|]; [|done]. injection Hc' as <-. by exists v, (build_data_chunk (salt seed) p v).
Qed.

Lemma data_answer (p : nat) a bytes :
  addrs !! p = Some a -> published file_tree (DataTask a (Z.of_nat p)) bytes ->
  exists v, payloads !! p = Some v /\ decode_data_chunk bytes = Ok v.
Proof.
  intros Ha Hp. destruct (data_lookup _ _ Ha) as (v & c & Hv & Hc & Hca & Henc).
  cbn [published] in Hp. apply Exists_exists in Hp as (c' & Hin & Hpk' & ->).
  exists v. split; [done|]. destruct Hcf as [_ Hcf2]. rewrite Forall_forall in Hcf2.
  specialize (Hcf2 _ Hin). rewrite Forall_forall in Hcf2.
  rewrite (Hcf2 c); [|by apply list_elem_of_lookup_2 in Hc|congruence].
  rewrite Henc. apply decode_data_chunk_encode.
Qed.

(** ** Payloads and their trimming *)

Lemma payload_spec (p : nat) v :
  payloads !! p = Some v ->
  v = slice file (Z.of_nat p * 998) (Z.of_nat p * 998 + len v) /\
  len v = Z.min 998 (len file - Z.of_nat p * 998) /\ Z.of_nat p * 998 < len file.
Proof.
  change (Z.to_nat DATA_PAYLOAD_MAX) with 998%nat. rewrite chunks_lookup by lia.
  case_decide as Hlt; [|done]. intros [= <-].
  assert (Hl : len (take 998 (drop (p * 998) file)) = Z.min 998 (len file - Z.of_nat p * 998)).
  { unfold len. rewrite length_take, length_drop. lia. }
  split; [|split; [done|unfold len; lia]]. unfold slice.
  replace (Z.to_nat (Z.of_nat p * 998)) with (p * 998)%nat by lia.
  rewrite Hl. apply list_eq. intros i. destruct (decide (i < 998)%nat).
  - rewrite lookup_take_lt by done. destruct (decide (i < length (drop (p * 998) file))%nat) as [Hi|Hi].
    + rewrite lookup_take_lt; [done|]. rewrite length_drop in Hi. unfold len. lia.
    + rewrite length_drop in Hi. rewrite lookup_ge_None_2 by (rewrite length_drop; lia).
      symmetry. apply lookup_ge_None_2. rewrite length_take, length_drop. lia.
  - rewrite lookup_take_ge by lia. symmetry. apply lookup_ge_None_2. rewrite length_take. lia.
Qed.

Lemma length_payloads : len payloads = n.
Proof. unfold file_addrs, file_data, len. by rewrite length_fmap, length_imap. Qed.

(** A published payload is never cut, even where the product wraps. *)
Lemma trim_payload (p : nat) v :
  payloads !! p = Some v ->
  take (Z.to_nat (Z.min (trim_len file_root (Z.of_nat p) v) (len v))) v = v.
Proof.
  intros Hv. destruct (payload_spec _ _ Hv) as (_ & Hl & Hlt). apply take_ge. unfold trim_len.
  cbn [ri_file_size file_root]. change DATA_PAYLOAD_MAX with 998.
  case_match; unfold len in *; lia.
Qed.

(** ** Good tasks *)

Definition task_good (t : FetchTask) : Prop :=
  match t with
  | DataTask a p => 0 <= p /\ addrs !! Z.to_nat p = Some a
  | IndexTask pk r b e =>
      exists L k : nat, r = Z.of_nat L /\ (L < d)%nat /\ kids (S L) !! k = Some pk /\
        b = Z.of_nat k * 31 ^ Z.of_nat (S L) /\ b < n /\
        e = Z.min ((Z.of_nat k + 1) * 31 ^ Z.of_nat (S L)) n
  end.

(** [slots] is the window of [kids L] from [o] on, and [b], [e] its data range. *)
Definition window (L o : nat) (slots : list (list Z)) (b e : Z) : Prop :=
  (forall i x, slots !! i = Some x -> kids L !! (o + i)%nat = Some x) /\
  b = Z.of_nat o * 31 ^ Z.of_nat L /\
  e = Z.min ((Z.of_nat o + len slots) * 31 ^ Z.of_nat L) n.

Lemma window_root : window d 0 (kids d) 0 n.
Proof.
  split; [done|]. split; [lia|]. rewrite len_kids.
  pose proof (proj1 (layer_size_le n d _) (Z.le_refl _)). lia.
Qed.

Lemma window_node L k :
  (k * 31 < length (kids L))%nat ->
  window L (k * 31) (node_slots L k) (Z.of_nat k * 31 ^ Z.of_nat (S L))
    (Z.min ((Z.of_nat k + 1) * 31 ^ Z.of_nat (S L)) n).
Proof.
  intros Hk. unfold node_slots. split; [|split].
  - intros i x Hi. apply lookup_take_Some in Hi as [Hi _]. by rewrite lookup_drop in Hi.
  - rewrite Nat2Z.inj_succ, Z.pow_succ_r by lia. lia.
  - pose proof (proj1 (layer_size_le n L _) (Z.le_refl _)) as Hcap. rewrite <- (len_kids seed) in Hcap.
    pose proof (pow31_pos L). rewrite Nat2Z.inj_succ, Z.pow_succ_r by lia.
    unfold len at 2. rewrite length_take, length_drop. unfold len in Hcap at 2.
    destruct (Nat.le_gt_cases 31 (length (kids L) - k * 31)).
    + rewrite Nat.min_l by lia. f_equal. lia.
    + rewrite Nat.min_r by lia. rewrite !Z.min_r; [done|..]; nia.
Qed.

Lemma size_bound L : (L <= d)%nat -> 31 ^ Z.of_nat L <= Z.max 1 (31 * n).
Proof.
  intros HL. destruct L as [|L]; [cbn; lia|].
  specialize (Hmin L ltac:(lia)). pose proof (pow31_pos L).
  assert (~ layer_size n L <= 30) as Hb by lia. rewrite layer_size_le in Hb.
  rewrite Nat2Z.inj_succ, Z.pow_succ_r by lia. lia.
Qed.

Lemma child_tasks_window L o slots b e :
  (L <= d)%nat -> window L o slots b e ->
  forall t, t ∈ child_tasks slots (Z.of_nat L) b e <->
  exists (i : nat) x, slots !! i = Some x /\ b + Z.of_nat i * 31 ^ Z.of_nat L < e /\
    t = match L with
        | O => DataTask x (b + Z.of_nat i)
        | S L' => IndexTask x (Z.of_nat L') (b + Z.of_nat i * 31 ^ Z.of_nat L)
                    (Z.min (b + (Z.of_nat i + 1) * 31 ^ Z.of_nat L) e)
        end.
Proof.
  intros HL (Hw & Hb & He) t. unfold child_tasks. pose proof (pow31_pos L).
  destruct L as [|L].
  { change (Z.of_nat 0) with 0. rewrite Z.eqb_refl, elem_of_data_tasks. change (31 ^ 0) with 1.
    setoid_rewrite Z.mul_1_r. done. }
  rewrite (proj2 (Z.eqb_neq _ _)) by lia.
  replace (Z.to_nat (Z.of_nat (S L) - 1 + 1)) with (S L) by lia.
  replace (Z.of_nat (S L) - 1) with (Z.of_nat L) by lia.
  pose proof (size_bound (S L) HL) as Hsz. pose proof (len_nonneg addrs).
  rewrite subtree_loop_spec, Z.mul_1_l by lia.
  apply elem_of_index_tasks; [done|nia|]. lia.
Qed.

Lemma child_tasks_good L o slots b e :
  (L <= d)%nat -> window L o slots b e -> Forall task_good (child_tasks slots (Z.of_nat L) b e).
Proof.
  intros HL Hw. apply Forall_forall. intros t Ht.
  apply (child_tasks_window _ _ _ _ _ HL Hw) in Ht as (i & x & Hi & Hlt & ->).
  destruct Hw as (Hw & Hb & He). pose proof (pow31_pos L).
  pose proof (lookup_lt_Some _ _ _ Hi). specialize (Hw _ _ Hi). destruct L as [|L]; cbn [task_good].
  - split; [lia|]. cbn in Hb. rewrite <- Hw. cbn [DeadDropTree.kids]. f_equal. lia.
  - exists L, (o + i)%nat. split; [done|]. split; [lia|]. split; [done|]. subst b. split; [nia|]. split; [lia|].
    subst e. unfold len. rewrite Z.min_assoc.
    rewrite (Z.min_l (_ + _) ((Z.of_nat o + Z.of_nat (length slots)) * _)) by nia. f_equal. nia.
Qed.

(** Every data position of the range is covered by a child. *)
Definition covers_task (t : FetchTask) (p : Z) : Prop :=
  match t with
  | IndexTask _ _ b e => b <= p < e
  | DataTask _ q => q = p
  end.

Lemma child_tasks_cover L o slots b e p :
  (L <= d)%nat -> window L o slots b e -> b <= p < e ->
  Exists (fun t => covers_task t p) (child_tasks slots (Z.of_nat L) b e).
Proof.
  intros HL Hw Hp. pose proof Hw as (_ & Hb & He). pose proof (pow31_pos L) as Hpos.
  set (w := 31 ^ Z.of_nat L) in *.
  assert (Hi : Z.of_nat o <= p / w < Z.of_nat o + len slots).
  { split; [apply Z.div_le_lower_bound; lia|apply Z.div_lt_upper_bound; lia]. }
  destruct (lookup_lt_is_Some_2 slots (Z.to_nat (p / w) - o)) as [x Hx]; [unfold len in Hi; lia|].
  assert (Hpw : w * (p / w) <= p) by (apply Z.mul_div_le; lia).
  assert (Hpw' : p < w * (p / w) + w).
  { pose proof (Z.mod_pos_bound p w Hpos). pose proof (Z.div_mod p w ltac:(lia)). lia. }
  apply Exists_exists. eexists. split.
  - apply (child_tasks_window _ _ _ _ _ HL Hw). exists (Z.to_nat (p / w) - o)%nat, x.
    split; [done|]. split; [|done]. fold w. nia.
  - destruct L as [|L]; cbn [covers_task].
    + cbn in w. subst w. rewrite Z.div_1_r in *. lia.
    + fold w. nia.
Qed.
(** ** The invariant *)

Definition done_at (s : Fetch) (p : nat) : Prop := f_chunk_states s !! p = Some Done.

Definition output_ok (done : nat -> Prop) (o : OutputSink) (out : list Z) : Prop :=
  match o with
  | SinkFile mmap _ _ =>
      out = [] /\ len mmap = n * 998 /\ forall (p : nat) v, done p -> payloads !! p = Some v ->
        slice mmap (Z.of_nat p * 998) (Z.of_nat p * 998 + len v) = v
  | SinkStdout s => sink_ok payloads done s out /\ ss_reorder s !! ss_emit_pos s = None
  | SinkEmptyFile _ _ | SinkEmptyStdout => out = [] /\ n = 0
  end.

Definition addr_ok (p : nat) (c : ChunkState) : Prop :=
  match c with InFlight a | Failed a => addrs !! p = Some a | _ => True end.

Record faithful (s : Fetch) : Prop := {
  fa_len : len (f_chunk_states s) = n;
  fa_tasks : Forall task_good (f_tasks s);
  fa_addr (p : nat) c : f_chunk_states s !! p = Some c -> addr_ok p c;
  fa_out : output_ok (done_at s) (f_output s) (f_stdout s)
}.

Lemma output_ok_weaken (done done' : nat -> Prop) o out :
  (forall p, done' p -> done p) -> output_ok done o out -> output_ok done' o out.
Proof.
  intros Hd. destruct o; cbn; [|done| |done].
  - intros (H1 & H2 & H3). split_and!; [done|done|]. eauto.
  - intros [H1 H2]. split; [by eapply sink_ok_weaken|done].
Qed.

Lemma OutputSink_accept_ok ok done o out (p : nat) v :
  payloads !! p = Some v -> output_ok done o out ->
  match OutputSink_accept ok (Z.of_nat p) v o with
  | Ok (o', w) => output_ok (fun q => done q \/ q = p) o' (out ++ w)
  | Err _ => ok = false
  | Panic => False
  end.
Proof.
  intros Hv Ho. pose proof (lookup_lt_Some _ _ _ Hv) as Hlt.
  pose proof length_payloads as Hlen. unfold len in Hlen at 1.
  destruct (payload_spec _ _ Hv) as (_ & Hl & _). destruct o as [m t f|t f|s|]; cbn [OutputSink_accept].
  - destruct Ho as (-> & Hm & Hd). change DATA_PAYLOAD_MAX with 998.
    destruct (Z.ltb_spec (len m) (Z.of_nat p * 998 + len v)) as [Hbad|Hfit]; [lia|]. cbn.
    split; [done|]. split; [rewrite len_copy_at; lia|]. intros q w Hq Hw.
    destruct (payload_spec _ _ Hw) as (_ & Hlw & _). destruct (decide (q = p)) as [->|Hne].
    + assert (w = v) as -> by congruence. apply slice_copy_same; lia.
    + destruct Hq as [Hq|?]; [|done]. rewrite slice_copy_other; [by apply Hd|lia..|].
      destruct (Nat.lt_ge_cases q p); lia.
  - destruct Ho as [-> Hz]. cbn. lia.
  - destruct Ho as [Hs Hnone]. pose proof (StreamSink_accept_ok _ _ _ _ _ _ Hv Hs Hnone) as [H1 H2].
    destruct (StreamSink_accept (Z.of_nat p) v s) as [o s']. cbn [fst snd] in *. by destruct ok.
  - destruct Ho as [-> Hz]. cbn. lia.
Qed.

Lemma faithful_delete i s : faithful s -> faithful (upd_tasks (delete i) s).
Proof. intros [H1 H2 H3 H4]. split; try done. cbn. by apply Forall_delete. Qed.

Lemma faithful_schedule L o slots b e s :
  (L <= d)%nat -> window L o slots b e -> faithful s ->
  faithful (upd_states (child_states slots (Z.of_nat L) b e)
              (upd_tasks (fun ts => ts ++ child_tasks slots (Z.of_nat L) b e) s)).
Proof.
  intros HL Hw [H1 H2 H3 H4]. pose proof (child_tasks_good _ _ _ _ _ HL Hw) as Hg.
  assert (Hb : 0 <= b) by (destruct Hw as (_ & -> & _); pose proof (pow31_pos L); nia).
  assert (Hst : forall (p : nat) c,
    child_states slots (Z.of_nat L) b e (f_chunk_states s) !! p = Some c ->
    (exists a, c = InFlight a /\ addrs !! p = Some a) \/ f_chunk_states s !! p = Some c).
  { intros p c. unfold child_states, child_tasks in *. destruct (Z.of_nat L =? 0); [|by right].
    intros [(a & -> & Hin)|[Hc _]]%data_states_lookup; [|by right|done]. left. exists a. split; [done|].
    rewrite Forall_forall in Hg. destruct (Hg _ Hin) as [_ Ha]. by rewrite Nat2Z.id in Ha. }
  split; cbn [upd_states upd_tasks f_chunk_states f_tasks f_output f_stdout].
  - unfold len in *. by rewrite length_child_states.
  - by apply Forall_app.
  - intros p c [(a & -> & Ha)|Hc]%Hst; [done|by apply H3].
  - eapply output_ok_weaken; [|exact H4]. intros p Hp. unfold done_at in *. cbn in Hp.
    apply Hst in Hp as [(a & ? & _)|?]; done.
Qed.

Lemma faithful_insert (p : nat) c s :
  addr_ok p c -> c <> Done -> faithful s -> faithful (upd_states (insert p c) s).
Proof.
  intros Hc Hd [H1 H2 H3 H4].
  split; cbn [upd_states f_chunk_states f_tasks f_output f_stdout]; [|done|..].
  - unfold len in *. by rewrite length_insert.
  - intros q c' [(-> & <- & _)|[_ Hq]]%list_lookup_insert_Some; [done|by apply H3].
  - eapply output_ok_weaken; [|exact H4]. intros q Hq. unfold done_at in *. cbn in Hq.
    apply list_lookup_insert_Some in Hq as [(-> & Hc' & _)|[_ ?]]; done.
Qed.

Lemma faithful_done (p : nat) o w s :
  faithful s -> output_ok (fun q => done_at s q \/ q = p) o (f_stdout s ++ w) ->
  forall now, faithful (upd_states (insert p Done) (set_progress now (set_output o w s))).
Proof.
  intros [H1 H2 H3 H4] Ho now.
  split; cbn [upd_states set_progress set_output f_chunk_states f_tasks f_output f_stdout]; [|done|..].
  - unfold len in *. by rewrite length_insert.
  - intros q c' [(-> & <- & _)|[_ Hq]]%list_lookup_insert_Some; [done|by apply H3].
  - eapply output_ok_weaken; [|exact Ho]. intros q Hq. unfold done_at in *. cbn in Hq.
    apply list_lookup_insert_Some in Hq as [(-> & _ & _)|[_ ?]]; [by right|by left].
Qed.

(** Handling an outcome keeps the invariant or ends the loop with an error. *)
Definition kept (s0 : Fetch) (c : Control) (s : Fetch) : Prop :=
  (c = Break /\ f_had_error s = true) \/
  (c <> Break /\ faithful s /\ f_had_error s = f_had_error s0).

Lemma kept_ok s0 c s :
  c <> Break -> faithful s -> f_had_error s = f_had_error s0 -> kept s0 c s.
Proof. by right. Qed.

Lemma faithful_outcome ev now s :
  faithful s -> honest file_tree s ev -> runs (handle_outcome file_root ev now) s (kept s).
Proof.
  intros Hs Hh. destruct ev as [i result ok|i|]; cbn [handle_outcome honest] in *; [| |by apply runs_ret, kept_ok].
  2: { apply runs_bind. eexists _, _. split; [done|]. apply runs_ret, kept_ok; [done|by apply faithful_delete|done]. }
  apply runs_bind. eexists _, _. split; [done|]. cbv beta.
  pose proof (faithful_delete i _ Hs) as Hs1.
  destruct (f_tasks s !! i) as [t|] eqn:Ht; [|by apply runs_ret, kept_ok].
  pose proof (proj1 (Forall_lookup _ _) (fa_tasks _ Hs) _ _ Ht) as Hgood.
  assert (He : f_had_error (upd_tasks (delete i) s) = f_had_error s) by done.
  set (s1 := upd_tasks (delete i) s) in *. clearbody s1.
  destruct t as [pk r b e|a p].
  - destruct Hgood as (L & k & -> & HL & Hk & -> & Hb & ->). unfold on_index.
    destruct result as [bytes|]; [|apply runs_fail; by left].
    rewrite (index_answer _ _ _ _ _ _ _ HL Hk Hh).
    destruct (kids_S_lookup _ _ _ Hk) as (_ & _ & _ & _ & Hlt).
    pose proof (window_node _ _ Hlt) as Hw. pose proof (pow31_pos (S L)).
    apply runs_bind, runs_modify, runs_bind, runs_schedule; [nia|cbn; rewrite (fa_len _ Hs1); lia|].
    apply runs_ret, kept_ok; [done| |done].
    apply (faithful_schedule L (k * 31)); [lia|done|]. by destruct Hs1; split.
  - destruct Hgood as [Hp Ha]. destruct (Z_of_nat_complete p Hp) as [q ->]. rewrite Nat2Z.id in Ha.
    assert (Hrange : 0 <= Z.of_nat q < len (f_chunk_states s1)).
    { rewrite (fa_len _ Hs1). apply lookup_lt_Some in Ha. unfold len. lia. }
    unfold on_data. destruct result as [bytes|].
    + destruct (data_answer _ _ _ Ha Hh) as (v & Hv & Hdec).
      rewrite Hdec. apply runs_bind, runs_get_state; [done|]. intros c Hc.
      assert (Hacc : runs (s ← get; match OutputSink_accept ok (Z.of_nat q) (take (Z.to_nat
        (Z.min (trim_len file_root (Z.of_nat q) v) (len v))) v) (f_output s) with
        | Ok (o, written) => modify (set_output o written) ;; modify (set_progress now) ;;
            set_state (Z.of_nat q) Done ;; mret Fallthrough | _ => fail end) s1 (kept s)).
      { apply runs_bind, runs_get. rewrite (trim_payload _ _ Hv).
        pose proof (OutputSink_accept_ok ok _ _ _ _ _ Hv (fa_out _ Hs1)) as Hacc.
        destruct (OutputSink_accept _ _ _ _) as [[o w]|?|]; [|apply runs_fail; by left|done].
        apply runs_bind, runs_modify, runs_bind, runs_modify, runs_bind, runs_set_state; [done|].
        rewrite Nat2Z.id. apply runs_ret, kept_ok; [done|by apply faithful_done|done]. }
      destruct c; [done..|]. by apply runs_ret, kept_ok.
    + apply runs_bind, runs_get_state; [done|]. intros c Hc.
      destruct c as [|a'| |]; try by apply runs_ret, kept_ok.
      apply runs_bind, runs_set_state; [done|]. rewrite Nat2Z.id in *. apply runs_ret, kept_ok; [done| |done].
      apply faithful_insert; [by apply (fa_addr _ Hs1 _ _ Hc)|done|done].
Qed.

Lemma faithful_respawn s s' :
  faithful s -> f_output s' = f_output s -> f_stdout s' = f_stdout s ->
  (f_tasks s' = f_tasks s /\ f_chunk_states s' = f_chunk_states s) \/
  (f_tasks s' = f_tasks s ++ respawn_tasks (f_chunk_states s) /\
   f_chunk_states s' = respawn_state <$> f_chunk_states s) -> faithful s'.
Proof.
  intros [H1 H2 H3 H4] Ho Hout [[E1 E2]|[E1 E2]].
  - split; unfold done_at; rewrite ?E1, ?E2, ?Ho, ?Hout; done.
  - split; unfold done_at in *; rewrite ?E1, ?E2, ?Ho, ?Hout.
    + unfold len in *. by rewrite length_fmap.
    + apply Forall_app. split; [done|]. apply Forall_forall.
      intros t (p & a & Hp & ->)%elem_of_respawn_tasks. cbn. rewrite Nat2Z.id. split; [lia|].
      by apply (H3 _ _ Hp).
    + intros p c Hc. rewrite list_lookup_fmap in Hc.
      destruct (f_chunk_states s !! p) as [c'|] eqn:Hc'; [|done]. injection Hc as <-.
      specialize (H3 _ _ Hc'). by destruct c'.
    + eapply output_ok_weaken; [|exact H4]. intros p Hp. rewrite list_lookup_fmap in Hp.
      destruct (f_chunk_states s !! p) as [c'|] eqn:Hc'; [|done]. cbn in Hp. by destruct c'.
Qed.

Lemma faithful_turn timeout ev clock s :
  faithful s -> honest file_tree s ev ->
  runs (fetch_turn file_root timeout ev clock) s (fun b s' =>
    (b = true /\ f_had_error s' = true) \/
    (b = false /\ faithful s' /\ f_had_error s' = f_had_error s)).
Proof.
  intros Hs Hh. unfold fetch_turn. apply runs_bind.
  eapply runs_impl; [by apply faithful_outcome|]. intros c s1 [[-> H1]|(Hc & H1 & H2)].
  { apply runs_ret. by left. }
  destruct c; [|by apply runs_ret; right|done].
  apply runs_bind. destruct (publish_needs_cases clock s1) as (s2 & E & Ho & Hout & Herr & _ & Hcase).
  exists tt, s2. split; [done|]. apply runs_bind, runs_get.
  case_match; [apply runs_bind, runs_modify, runs_ret; by left|].
  apply runs_ret. right. split; [done|]. split; [by eapply faithful_respawn|congruence].
Qed.

Lemma faithful_loop timeout evs s :
  faithful s -> run_ok (fun s ev _ => honest file_tree s ev) file_root timeout evs s ->
  runs (drain_loop file_root timeout evs) s (fun b s' =>
    (b = true /\ f_had_error s' = true) \/ (faithful s' /\ f_had_error s' = f_had_error s)).
Proof.
  revert s. induction evs as [|[ev clock] evs IH]; intros s Hs Hrun.
  - unfold runs. cbn. destruct (f_tasks s); eexists _, _; (split; [done|by right]).
  - unfold runs. cbn [drain_loop run_ok] in *. destruct (f_tasks s) as [|t ts] eqn:Ht.
    { eexists _, _; (split; [done|by right]). }
    destruct Hrun as [Hh Hrun].
    change (runs (b ← fetch_turn file_root timeout ev clock;
      if (b : bool) then mret true else drain_loop file_root timeout evs) s (fun b s' =>
    (b = true /\ f_had_error s' = true) \/ (faithful s' /\ f_had_error s' = f_had_error s))).
    destruct (faithful_turn timeout ev clock s Hs Hh) as (b & s' & E & Hcase).
    apply runs_bind. exists b, s'. split; [done|]. rewrite E in Hrun.
    destruct Hcase as [[-> He]|(-> & Hs' & He)]; [apply runs_ret; by left|].
    eapply runs_impl; [by apply IH|]. intros b s'' [?|[? ?]]; [by left|right]. split; [done|congruence].
Qed.

(** ** Progress: every good answer is one chunk less to fetch *)

Definition weight (t : FetchTask) : Z :=
  match t with
  | DataTask _ _ => 1
  | IndexTask _ r b e => chunk_total (S (Z.to_nat r)) (e - b)
  end.
Definition remaining (ts : list FetchTask) : Z := foldr Z.add 0 (weight <$> ts).

Lemma remaining_app ts ts' : remaining (ts ++ ts') = remaining ts + remaining ts'.
Proof. unfold remaining. by rewrite fmap_app, foldr_add_app. Qed.

Lemma remaining_delete ts i t :
  ts !! i = Some t -> remaining ts = weight t + remaining (delete i ts).
Proof.
  intros Hi. rewrite <- (take_drop_middle _ _ _ Hi) at 1. rewrite delete_take_drop, !remaining_app.
  unfold remaining. rewrite fmap_cons. cbn [foldr]. lia.
Qed.

Lemma remaining_data slots pos e :
  pos <= e -> e - pos <= len slots -> remaining (data_tasks slots pos e) = e - pos.
Proof.
  revert pos. induction slots as [|a slots IH]; intros pos Hp Hl; cbn [data_tasks]; lens; [cbn; lia|].
  destruct (Z.leb_spec e pos); [cbn; lia|].
  change (remaining (DataTask a pos :: data_tasks slots (pos + 1) e))
    with (1 + remaining (data_tasks slots (pos + 1) e)). rewrite IH by lia. lia.
Qed.

Lemma remaining_index slots (L : nat) base e :
  let w := 31 ^ Z.of_nat (S L) in
  0 <= base <= e -> e + w < 2 ^ 64 -> e - base <= len slots * w ->
  remaining (index_tasks slots (Z.of_nat L) w base e) = chunk_total (S L) (e - base).
Proof.
  intros w. revert base. pose proof (pow31_pos (S L)) as Hw. fold w in Hw.
  induction slots as [|a slots IH]; intros base Hb He Hl; cbn [index_tasks]; lens.
  { replace (e - base) with 0 by lia. by rewrite chunk_total_0. }
  destruct (Z.leb_spec e base).
  { replace (e - base) with 0 by lia. by rewrite chunk_total_0. }
  cbv zeta. unfold as_u64. rewrite as_u_id by (unfold in_u; lia).
  set (ce := Z.min (base + w) e).
  change (remaining (IndexTask a (Z.of_nat L) base ce :: index_tasks slots (Z.of_nat L) w ce e))
    with (chunk_total (S (Z.to_nat (Z.of_nat L))) (ce - base) + remaining (index_tasks slots (Z.of_nat L) w ce e)).
  rewrite Nat2Z.id, IH by (pose proof (len_nonneg slots); nia). unfold ce. destruct (Z.le_gt_cases (base + w) e).
  - rewrite Z.min_l by done. replace (base + w - base) with w by lia.
    replace (e - base) with (w + (e - (base + w))) by lia. unfold w. by rewrite chunk_total_add.
  - rewrite Z.min_r, Z.sub_diag, chunk_total_0 by lia. lia.
Qed.

Lemma remaining_children L o slots b e :
  (L <= d)%nat -> window L o slots b e -> b <= e ->
  remaining (child_tasks slots (Z.of_nat L) b e) = chunk_total L (e - b).
Proof.
  intros HL (_ & Hb & He) Hbe. unfold child_tasks. pose proof (pow31_pos L). pose proof (len_nonneg addrs).
  destruct L as [|L].
  - change (Z.of_nat 0) with 0 in *. rewrite Z.eqb_refl. change (31 ^ 0) with 1 in *.
    rewrite remaining_data by lia. unfold chunk_total. cbn. rewrite layer_size_0. lia.
  - rewrite (proj2 (Z.eqb_neq _ _)) by lia.
    replace (Z.to_nat (Z.of_nat (S L) - 1 + 1)) with (S L) by lia.
    replace (Z.of_nat (S L) - 1) with (Z.of_nat L) by lia.
    pose proof (size_bound (S L) HL) as Hsz. rewrite subtree_loop_spec, Z.mul_1_l by lia.
    apply remaining_index; nia.
Qed.

Lemma chunk_total_nonneg k m : 0 <= m -> 0 <= chunk_total k m.
Proof.
  intros Hm. unfold chunk_total. induction (seq 0 (S k)) as [|j l IH]; [done|].
  rewrite fmap_cons. cbn [foldr]. pose proof (pow31_pos j).
  assert (0 <= layer_size m j); [|lia]. apply Z.div_pos; lia.
Qed.

Lemma weight_pos t : task_good t -> 1 <= weight t.
Proof.
  destruct t as [pk r b e|]; cbn [weight task_good]; [|lia]. intros (L & k & -> & HL & _ & -> & Hb & ->).
  rewrite Nat2Z.id, chunk_total_S. pose proof (pow31_pos (S L)) as Hw.
  set (w := 31 ^ Z.of_nat (S L)) in *.
  assert (Hm : 0 < Z.min ((Z.of_nat k + 1) * w) n - Z.of_nat k * w <= w) by nia.
  rewrite layer_size_one by done. pose proof (chunk_total_nonneg L _ (Z.lt_le_incl _ _ (proj1 Hm))). lia.
Qed.

Lemma remaining_zero ts : Forall task_good ts -> remaining ts <= 0 -> ts = [].
Proof.
  destruct 1 as [|t ts Ht Hts]; [done|]. intros Hr. pose proof (weight_pos _ Ht).
  assert (0 <= remaining ts).
  { clear -Hts Hn Hmin Hle Hf. induction Hts as [|t ts Ht _ IH]; [done|].
    pose proof (weight_pos _ Ht). change (remaining (t :: ts)) with (weight t + remaining ts). lia. }
  change (remaining (t :: ts)) with (weight t + remaining ts) in Hr. lia.
Qed.

(** Every position is done or some task will bring it. *)
Definition live (s : Fetch) : Prop :=
  forall (p : nat) c, f_chunk_states s !! p = Some c ->
    c = Done \/ ((forall a, c <> Failed a) /\ Exists (fun t => covers_task t (Z.of_nat p)) (f_tasks s)).

Lemma succeeds_honest timeout s ev clock : succeeds file_tree timeout s ev clock -> honest file_tree s ev.
Proof.
  destruct ev as [i [bytes|] ok|i|]; cbn; try done. destruct ok; [|done]. by destruct (f_tasks s !! i), 1.
Qed.

Lemma Exists_delete_ne {A} (P : A -> Prop) (l : list A) i x :
  l !! i = Some x -> Exists P l -> P x \/ Exists P (delete i l).
Proof.
  intros Hi. rewrite <- (take_drop_middle _ _ _ Hi) at 1.
  rewrite delete_take_drop, !Exists_app, Exists_cons. tauto.
Qed.

Definition advanced (timeout : Z) (s : Fetch) (clock : nat -> Z) (c : Control) (s' : Fetch) : Prop :=
  c <> Break /\ live s' /\ remaining (f_tasks s') = remaining (f_tasks s) - 1 /\
  (c = Fallthrough -> f_last_progress_at s' = clock 0%nat).

Lemma live_outcome timeout ev clock s :
  faithful s -> live s -> succeeds file_tree timeout s ev clock ->
  runs (handle_outcome file_root ev (clock 0%nat)) s (advanced timeout s clock).
Proof.
  intros Hs Hlive Hok. destruct ev as [i [bytes|] [|]|i|]; cbn in Hok; try done.
  destruct (f_tasks s !! i) as [t|] eqn:Ht; [|by destruct Hok]. destruct Hok as [Hpub _].
  cbn [handle_outcome]. apply runs_bind. eexists _, _. split; [done|]. cbv beta. rewrite Ht.
  pose proof (proj1 (Forall_lookup _ _) (fa_tasks _ Hs) _ _ Ht) as Hgood.
  pose proof (faithful_delete i _ Hs) as Hs1. pose proof (remaining_delete _ _ _ Ht) as Hrem.
  assert (Hlive1 : forall (p : nat) c, f_chunk_states (upd_tasks (delete i) s) !! p = Some c ->
    c = Done \/ (forall a, c <> Failed a) /\
      (covers_task t (Z.of_nat p) \/ Exists (fun t => covers_task t (Z.of_nat p)) (f_tasks (upd_tasks (delete i) s)))).
  { intros p c Hc. destruct (Hlive p c Hc) as [?|[? Hex]]; [by left|]. right. split; [done|].
    by apply (Exists_delete_ne _ _ _ _ Ht) in Hex. }
  change (delete i (f_tasks s)) with (f_tasks (upd_tasks (delete i) s)) in Hrem.
  set (s1 := upd_tasks (delete i) s) in *. clearbody s1. clear Hlive.
  destruct t as [pk r b e|a p].
  - destruct Hgood as (L & k & -> & HL & Hk & -> & Hb & ->). unfold on_index.
    rewrite (index_answer _ _ _ _ _ _ _ HL Hk Hpub).
    destruct (kids_S_lookup _ _ _ Hk) as (_ & _ & _ & _ & Hlt).
    pose proof (window_node _ _ Hlt) as Hw. pose proof (pow31_pos (S L)).
    apply runs_bind, runs_modify, runs_bind, runs_schedule; [nia|cbn; rewrite (fa_len _ Hs1); lia|].
    apply runs_ret. split; [done|]. split; [|split; [|done]].
    + intros p c Hc. cbn [upd_states upd_tasks f_chunk_states f_tasks set_progress] in *.
      rewrite Exists_app. unfold child_states in Hc.
      assert (Hold : f_chunk_states s1 !! p = Some c \/ exists a, c = InFlight a /\
        Exists (fun t => covers_task t (Z.of_nat p)) (child_tasks (node_slots L k) (Z.of_nat L)
          (Z.of_nat k * 31 ^ Z.of_nat (S L)) (Z.min ((Z.of_nat k + 1) * 31 ^ Z.of_nat (S L)) n))).
      { unfold child_tasks. destruct (Z.of_nat L =? 0); [|by left].
        apply data_states_lookup in Hc as [(a & -> & Hin)|[Hc _]]; [|by left|nia].
        right. exists a. split; [done|]. apply Exists_exists. by eexists. }
      destruct Hold as [Hold|(a & -> & Hex)]; [|right; split; [done|by right]].
      destruct (Hlive1 _ _ Hold) as [?|[Hf' [Hcov|Hex]]]; [by left|..]; right; (split; [done|]); [right|by left].
      cbn in Hcov. eapply child_tasks_cover; [|done|done]. lia.
    + cbn [upd_states upd_tasks f_tasks set_progress]. rewrite remaining_app.
      erewrite remaining_children; [|by apply Nat.lt_le_incl|done|lia].
      rewrite Hrem. cbn [weight]. rewrite Nat2Z.id, chunk_total_S, layer_size_one by nia. lia.
  - destruct Hgood as [Hp Ha]. destruct (Z_of_nat_complete p Hp) as [q ->]. rewrite Nat2Z.id in Ha.
    assert (Hrange : 0 <= Z.of_nat q < len (f_chunk_states s1)).
    { rewrite (fa_len _ Hs1). apply lookup_lt_Some in Ha. unfold len. lia. }
    unfold on_data. destruct (data_answer _ _ _ Ha Hpub) as (v & Hv & Hdec).
    rewrite Hdec. apply runs_bind, runs_get_state; [done|]. rewrite Nat2Z.id. intros c Hc.
    assert (Hacc : runs (s ← get; match OutputSink_accept true (Z.of_nat q) (take (Z.to_nat
        (Z.min (trim_len file_root (Z.of_nat q) v) (len v))) v) (f_output s) with
        | Ok (o, written) => modify (set_output o written) ;; modify (set_progress (clock 0%nat)) ;;
            set_state (Z.of_nat q) Done ;; mret Fallthrough | _ => fail end) s1 (advanced timeout s clock)).
    { apply runs_bind, runs_get. rewrite (trim_payload _ _ Hv).
      pose proof (OutputSink_accept_ok true _ _ _ _ _ Hv (fa_out _ Hs1)) as Hacc.
      destruct (OutputSink_accept _ _ _ _) as [[o w]|?|]; [|done..].
      apply runs_bind, runs_modify, runs_bind, runs_modify, runs_bind, runs_set_state; [done|].
      rewrite Nat2Z.id. apply runs_ret. split; [done|]. split; [|split; [|done]].
      - intros p c' Hc'. cbn [upd_states set_output set_progress f_chunk_states f_tasks] in *.
        apply list_lookup_insert_Some in Hc' as [(-> & <- & _)|[Hne Hc']]; [by left|].
        destruct (Hlive1 _ _ Hc') as [?|[? [Hcov|?]]]; [by left| |by right].
        cbn in Hcov. lia.
      - cbn [upd_states set_output set_progress f_tasks]. rewrite Hrem. cbn [weight]. lia. }
    destruct c; [done..|]. apply runs_ret. split; [done|]. split; [|split; [|done]].
    + intros p c' Hc'. destruct (Hlive1 _ _ Hc') as [?|[? [Hcov|?]]]; [by left| |by right].
      cbn in Hcov. assert (p = q) as -> by lia. left. congruence.
    + rewrite Hrem. cbn [weight]. lia.
Qed.

Lemma missing_none s : live s -> missing_positions (f_chunk_states s) = [].
Proof.
  intros Hl. unfold missing_positions. apply nil_length_inv.
  destruct (mjoin _) as [|x l] eqn:E; [done|]. exfalso.
  assert (Hx : x ∈ x :: l) by left. rewrite <- E in Hx. apply list_elem_of_join in Hx as (y & Hin & Hy).
  apply elem_of_lookup_imap in Hy as (p & c & -> & Hc).
  destruct c as [| |a|]; try by apply not_elem_of_nil in Hin.
  destruct (Hl _ _ Hc) as [?|[Hnf _]]; [done|]. by apply (Hnf a).
Qed.

Lemma live_turn timeout ev clock s :
  faithful s -> live s -> succeeds file_tree timeout s ev clock ->
  runs (fetch_turn file_root timeout ev clock) s (fun b s' =>
    b = false /\ live s' /\ remaining (f_tasks s') = remaining (f_tasks s) - 1).
Proof.
  intros Hs Hl Hok. unfold fetch_turn. apply runs_bind.
  eapply runs_impl; [by apply (live_outcome timeout)|]. intros c s1 (Hc & H1 & H2 & H3).
  destruct c; [|by apply runs_ret|done]. specialize (H3 eq_refl).
  apply runs_bind. pose proof (missing_none _ H1) as Hmiss.
  assert (exists s2, publish_needs clock s1 = (Ok tt, s2) /\ f_tasks s2 = f_tasks s1 /\
    f_chunk_states s2 = f_chunk_states s1 /\ f_last_progress_at s2 = f_last_progress_at s1) as (s2 & E & E1 & E2 & E3).
  { unfold publish_needs. rewrite Hmiss. case_match; eexists; split; try done. }
  exists tt, s2. split; [done|]. apply runs_bind, runs_get. rewrite E3, H3.
  assert (clock 5%nat - clock 0%nat < timeout) by (destruct ev as [? [?|] [|]| |]; cbn in Hok; tauto).
  rewrite (proj2 (Z.leb_gt _ _)) by done. apply runs_ret. split; [done|].
  unfold live. by rewrite E1, E2.
Qed.

Lemma live_loop timeout evs s :
  faithful s -> live s -> remaining (f_tasks s) <= len evs ->
  run_ok (succeeds file_tree timeout) file_root timeout evs s ->
  runs (drain_loop file_root timeout evs) s (fun b s' =>
    b = true /\ live s' /\ f_tasks s' = [] /\ faithful s' /\ f_had_error s' = f_had_error s).
Proof.
  revert s. induction evs as [|[ev clock] evs IH]; intros s Hs Hl Hlen Hrun.
  - pose proof (remaining_zero _ (fa_tasks _ Hs) Hlen) as Ht. unfold runs. cbn. rewrite Ht.
    by eexists _, _.
  - unfold runs. cbn [drain_loop run_ok] in *. destruct (f_tasks s) as [|t ts] eqn:Ht; [by eexists _, _|].
    destruct Hrun as [Hok Hrun].
    change (runs (b ← fetch_turn file_root timeout ev clock;
      if (b : bool) then mret true else drain_loop file_root timeout evs) s (fun b s' =>
        b = true /\ live s' /\ f_tasks s' = [] /\ faithful s' /\ f_had_error s' = f_had_error s)).
    destruct (live_turn timeout ev clock s Hs Hl Hok) as (b & s' & E & -> & Hl' & Hrem).
    destruct (faithful_turn timeout ev clock s Hs (succeeds_honest _ _ _ _ Hok)) as (b' & s'' & E' & Hcase).
    rewrite E in E'. injection E' as <- <-. destruct Hcase as [[? _]|(_ & Hs' & He)]; [done|].
    apply runs_bind. exists false, s'. split; [done|]. rewrite E in Hrun.
    eapply runs_impl; [apply IH; try done; rewrite Hrem, Ht; lens; lia|].
    intros b s'' (? & ? & ? & ? & ?). split_and!; try done. congruence.
Qed.

(** ** Start and end *)

Lemma n_blocks : len file <= n * 998 /\ (n = 0 <-> len file = 0).
Proof.
  rewrite len_file_addrs. unfold data_chunk_count. change DATA_PAYLOAD_MAX with 998.
  pose proof (len_nonneg file). destruct (Z.eqb_spec (len file) 0); [lia|].
  pose proof (proj1 (div_ceil_le (len file) 998 _ ltac:(lia)) (Z.le_refl _)).
  pose proof (div_ceil_pos (len file) 998 ltac:(lia) ltac:(lia)). lia.
Qed.
Lemma n_tight : n * 998 < len file + 998.
Proof.
  rewrite len_file_addrs. unfold data_chunk_count. change DATA_PAYLOAD_MAX with 998.
  pose proof (len_nonneg file). destruct (Z.eqb_spec (len file) 0); [lia|].
  pose proof (proj2 (div_ceil_le (len file) 998 (div_ceil (len file) 998 - 1) ltac:(lia))). lia.
Qed.

Lemma no_done p : replicate (Z.to_nat n) Unscheduled !! p = Some Done -> False.
Proof. by intros [? _]%lookup_replicate_1. Qed.

Lemma open_output_sink_ok dest output :
  open_output_sink dest true (len file) = Ok output ->
  output_ok (fun p => replicate (Z.to_nat n) Unscheduled !! p = Some Done) output [].
Proof.
  pose proof n_blocks as [Hb Hz]. pose proof length_payloads as Hp. pose proof (len_nonneg addrs).
  unfold open_output_sink. rewrite <- (len_file_addrs seed file). destruct dest as [[t f]|]; case_match eqn:E.
  - intros [= <-]. apply Z.eqb_eq in E. cbn. tauto.
  - intros [= <-]. cbn. split; [done|]. split.
    + unfold len in *. rewrite length_replicate. unfold saturating_mul. change DATA_PAYLOAD_MAX with 998. lia.
    + intros p v Hd _. by apply no_done in Hd.
  - intros [= <-]. apply Z.eqb_eq in E. cbn. tauto.
  - intros [= <-]. cbn. split; [|apply lookup_empty]. split; cbn; try done.
    + pose proof (len_nonneg payloads). lia.
    + intros p Hd. by apply no_done in Hd.
Qed.

Lemma open_output_sink_total dest : exists output, open_output_sink dest true (len file) = Ok output.
Proof. unfold open_output_sink. destruct dest as [[t f]|]; case_match; by eexists. Qed.

Context (Hcrc : in_u 32 (crc file)).
Context (Hlayout : compute_layout (len file) =
  mkTreeLayout n (Z.of_nat d) ((fun j => layer_size n j) <$> seq 1 d)).

Lemma decode_file_root : decode_root_index (bt_root_encoded file_tree) = Ok file_root.
Proof.
  cbn [bt_root_encoded file_tree]. apply decode_root_index_encode; [done|done|apply kids_slots_ok|].
  by rewrite len_kids.
Qed.

(** The command starts, with everything still to fetch. *)
Lemma get_start_file timeout dest now :
  0 < timeout ->
  exists s, get_start timeout dest true (bt_root_encoded file_tree) now = Ok (file_root, s) /\
    faithful s /\ live s /\ f_had_error s = false /\ remaining (f_tasks s) = chunk_total d n.
Proof.
  intros Ht. unfold get_start. rewrite (proj2 (Z.eqb_neq _ _)) by lia. rewrite decode_file_root.
  cbn [ri_file_size ri_slots file_root]. rewrite Hlayout. cbn [tl_data_chunk_count tl_depth tl_layer_counts].
  assert ((if Z.of_nat d =? 0 then Some n else last ((fun j => layer_size n j) <$> seq 1 d))
            = Some (layer_size n d)) as ->.
  { destruct d as [|d']; [cbn; by rewrite layer_size_0|]. rewrite (proj2 (Z.eqb_neq _ _)) by lia.
    rewrite seq_S, fmap_app, list_fmap_singleton, last_snoc. done. }
  rewrite len_kids, Z.eqb_refl. cbn [negb].
  destruct (open_output_sink_total dest) as [o Ho]. rewrite Ho.
  pose proof (len_nonneg addrs) as Hnn.
  assert (Hlen : len (f_chunk_states (initial_fetch n o now)) = n).
  { cbn. unfold len. rewrite length_replicate. unfold len in *. lia. }
  rewrite schedule_children_closed by (rewrite ?Hlen; lia).
  eexists. split; [done|].
  assert (Hi : faithful (initial_fetch n o now)).
  { split; [done|constructor| |by apply open_output_sink_ok in Ho]. cbn.
    by intros p c [-> _]%lookup_replicate_1. }
  split; [by apply (faithful_schedule d 0); [|apply window_root|]|].
  split; [|split; [done|]].
  - intros p c Hc. cbn [upd_states upd_tasks f_chunk_states f_tasks initial_fetch app] in *.
    pose proof (lookup_lt_Some _ _ _ Hc) as Hlt. rewrite length_child_states, length_replicate in Hlt.
    assert (Hcov : Exists (fun t => covers_task t (Z.of_nat p)) (child_tasks (kids d) (Z.of_nat d) 0 n)).
    { eapply child_tasks_cover; [done|apply window_root|lia]. }
    right. split; [|done]. intros a ->. unfold child_states in Hc. case_match.
    + apply data_states_lookup in Hc as [(a' & ? & _)|[Hc _]]; [done| |lia].
      by apply lookup_replicate_1 in Hc as [? _].
    + by apply lookup_replicate_1 in Hc as [? _].
  - cbn [upd_states upd_tasks f_tasks initial_fetch app].
    erewrite remaining_children; [|done|apply window_root|lia]. f_equal. lia.
Qed.

(** Once every position is done, the output is the file. *)
Lemma all_done s :
  faithful s -> done_count (f_chunk_states s) = n -> forall p : nat, (p < length payloads)%nat -> done_at s p.
Proof.
  intros Hs Hd p Hp. pose proof (fa_len _ Hs) as Hl. pose proof length_payloads as Hlp.
  unfold done_count, len in *. unfold done_at.
  destruct (lookup_lt_is_Some_2 (f_chunk_states s) p) as [c Hc]; [lia|].
  assert (Hall : Forall (fun c => is_done c = true) (f_chunk_states s)).
  { assert (length (List.filter is_done (f_chunk_states s)) = length (f_chunk_states s)) as Hf' by lia.
    clear -Hf'. induction (f_chunk_states s) as [|c l IH]; [constructor|]. cbn in Hf'.
    pose proof (List.filter_length_le is_done l). destruct (is_done c) eqn:E; cbn in Hf'; [|lia].
    constructor; [done|]. apply IH. lia. }
  pose proof (proj1 (Forall_lookup _ _) Hall _ _ Hc) as Hc'. rewrite Hc. by destruct c.
Qed.

Lemma live_done s : faithful s -> live s -> f_tasks s = [] -> done_count (f_chunk_states s) = n.
Proof.
  intros Hs Hl Ht. rewrite <- (fa_len _ Hs). unfold done_count. f_equal.
  assert (Hall : Forall (fun c => c = Done) (f_chunk_states s)).
  { apply Forall_lookup_2. intros p c Hc. destruct (Hl _ _ Hc) as [?|[_ Hex]]; [done|].
    rewrite Ht in Hex. by apply Exists_nil in Hex. }
  induction Hall as [|c l -> _ IH]; cbn; [done|]. by rewrite IH.
Qed.

Lemma file_output mmap :
  len mmap = n * 998 ->
  (forall (p : nat) v, payloads !! p = Some v ->
     slice mmap (Z.of_nat p * 998) (Z.of_nat p * 998 + len v) = v) ->
  take (Z.to_nat (len file)) mmap = file.
Proof.
  intros Hm Hall. pose proof n_blocks as [Hb _]. unfold len at 1. rewrite Nat2Z.id.
  assert (H998 : (0 < 998)%nat) by lia.
  transitivity (mjoin (chunks 998 file)); [|by apply chunks_concat].
  rewrite <- (chunks_concat 998 (take (length file) mmap) H998) at 1. f_equal. apply list_eq. intros p. rewrite !chunks_lookup, length_take by done.
  rewrite Nat.min_l by (unfold len in *; lia). case_decide as Hp; [|done]. f_equal.
  assert (Hv : payloads !! p = Some (take 998 (drop (p * 998) file))).
  { change (Z.to_nat DATA_PAYLOAD_MAX) with 998%nat. rewrite chunks_lookup by done. by rewrite decide_True. }
  specialize (Hall _ _ Hv). etransitivity; [|exact Hall]. unfold slice.
  replace (Z.to_nat (Z.of_nat p * 998)) with (p * 998)%nat by lia.
  replace (Z.to_nat _) with (length (take 998 (drop (p * 998) file))) by (unfold len; lia).
  rewrite length_take, length_drop. apply list_eq. intros i.
  destruct (decide (i < 998 `min` (length file - p * 998))%nat) as [Hi|Hi].
  - rewrite !lookup_take_lt, !lookup_drop by lia. by rewrite lookup_take_lt by lia.
  - rewrite (lookup_take_ge (drop (p * 998) mmap)) by lia. apply lookup_ge_None_2.
    rewrite length_take, length_drop, length_take. lia.
Qed.

(** What the command leaves: the file on stdout, or at the path given; there
    the rest of the last block follows it when the final truncation failed. *)
Definition delivered (dest : option (string * string)) (io : EndIo) (r : GetResult) : Prop :=
  match dest with
  | Some (_, path) => exists pad, gr_final r = Some (CommittedFile path (file ++ pad)) /\
      len pad < DATA_PAYLOAD_MAX /\ (io_truncate_ok io = true -> pad = [])
  | None => gr_final r = Some StdoutOnly /\ gr_stdout r = file
  end.

Lemma get_end_delivers dest no_ack io s :
  faithful s -> sink_for dest (f_output s) -> f_had_error s = false ->
  done_count (f_chunk_states s) = n ->
  let r := get_end crc no_ack io file_root s in
  (io_finalize_ok io = true -> gr_code r = 0) /\ (gr_code r = 0 -> delivered dest io r).
Proof.
  intros Hs Hk He Hd. pose proof (all_done s Hs Hd) as Hall. pose proof (fa_out _ Hs) as Ho.
  unfold get_end. cbn [ri_file_size ri_crc32c file_root].
  rewrite He, <- (len_file_addrs seed file), Hd, Z.eqb_refl. cbn [negb].
  assert (Hempty : n = 0 -> file = []).
  { intros Hz%n_blocks. apply nil_length_inv. unfold len in Hz. lia. }
  assert (Hcrc0 : n = 0 -> (crc [] =? crc file) = true).
  { intros Hz. rewrite (Hempty Hz). apply Z.eqb_refl. }
  unfold delivered. destruct (f_output s) as [m t f|t f|sk|] eqn:Eo; cbn [output_ok] in Ho.
  - destruct Ho as (Hout & Hm & Hsl).
    assert (Hfile : take (Z.to_nat (len file)) m = file).
    { apply file_output; [done|]. intros p v Hv. apply Hsl; [|done]. apply Hall. by apply lookup_lt_Some in Hv. }
    cbn [verify_crc]. rewrite Hfile, Z.eqb_refl. cbn [negb truncate_output]. rewrite Hfile.
    destruct dest as [[? path]|]; [|done]. cbn in Hk. subst f.
    pose proof (take_drop (Z.to_nat (len file)) m) as Hpad. rewrite Hfile in Hpad.
    set (pad := drop _ m) in Hpad. assert (len pad < DATA_PAYLOAD_MAX) as Hp.
    { pose proof n_tight. assert (len file + len pad = n * 998) by (rewrite <- Hm, <- Hpad; by lens).
      change DATA_PAYLOAD_MAX with 998. lia. }
    destruct (io_finalize_ok io), (io_truncate_ok io); cbn; try done; (split; [done|]); intros _.
    + exists []. by rewrite app_nil_r.
    + exists pad. by rewrite Hpad.
  - destruct Ho as [Hout Hz]. cbn [verify_crc]. rewrite (Hcrc0 Hz). cbn [negb truncate_output].
    destruct dest as [[? path]|]; [|done]. cbn in Hk. subst f. destruct (io_finalize_ok io); [|done].
    split; [done|]. intros _. exists []. by rewrite (Hempty Hz).
  - destruct Ho as [Hsk Hnone]. cbn [verify_crc negb truncate_output].
    assert (Hout : f_stdout s = file).
    { rewrite (sink_ok_complete _ _ _ _ Hsk Hnone Hall). apply chunks_concat. vm_compute. lia. }
    destruct dest as [[? path]|]; [done|]. by destruct (io_finalize_ok io).
  - destruct Ho as [Hout Hz]. cbn [verify_crc]. rewrite (Hcrc0 Hz). cbn [negb truncate_output].
    destruct dest as [[? path]|]; [done|]. rewrite (Hempty Hz). by destruct (io_finalize_ok io).
Qed.
End Run.
