(* ===== verification/DeadDropTheorems.v ===== *)
(** * DeadDropTheorems: claims about the dead drop

    Delivery of a file through the published tree in any order of answers,
    safety against arbitrary answers, the need-list feedback, the shape of the
    tree and the frames. *)

From S2P Require Import Prelude RustStd Chunks Codec Crypto ToyCrypto DeadDropWire DeadDropTree DeadDropNeed DeadDropFetch DeadDropFetchProofs DeadDropRun.
From Stdlib Require Import Ascii Sorting.Sorted.

#[local] Open Scope Z_scope.

(** ** Delivery *)

Section Delivery.
Context `{CryptoPrims} `{!CryptoLaws _}.

(** The tree of a file with fewer than 2^32 chunks, with all that is known of it. *)
Lemma built_tree crc seed file tree :
  data_chunk_count (len file) < 2 ^ 32 -> build_tree_from_bytes crc seed file = Ok tree ->
  in_u 64 (len file) /\ len (file_addrs seed file) < 2 ^ 32 /\
  exists d : nat, tree = file_tree crc seed file d /\
    compute_layout (len file) = mkTreeLayout (len (file_addrs seed file)) (Z.of_nat d)
      ((fun j => layer_size (len (file_addrs seed file)) j) <$> seq 1 d) /\
    layer_size (len (file_addrs seed file)) d <= 30 /\
    forall j : nat, (j < d)%nat -> 30 < layer_size (len (file_addrs seed file)) j.
Proof.
  intros Hn Hb. rewrite <- (len_file_addrs seed file) in Hn.
  pose proof (n_blocks seed file) as [Hbl _]. pose proof (len_nonneg file).
  assert (Hf : in_u 64 (len file)) by (unfold in_u; lia). split; [done|]. split; [done|].
  destruct (build_tree_from_bytes_spec crc seed file Hf Hn) as (d & E & Hl & Hle & Hmin).
  exists d. rewrite E in Hb. injection Hb as <-. done.
Qed.

(** What [get_from_root] returns after a loop that ended in [s']. *)
Lemma get_from_root_eq crc timeout dest no_ack io root_data now evs root s b s' :
  get_start timeout dest true root_data now = Ok (root, s) ->
  drain_loop root (secs timeout) evs s = (Ok b, s') ->
  get_from_root crc timeout dest true no_ack io root_data now evs =
    Ok (if b then Some (get_end crc no_ack io root s') else None).
Proof. intros E1 E2. unfold get_from_root. rewrite E1, E2. by destruct b. Qed.

(** The sink opened at the start keeps its kind. *)
Lemma get_start_inv timeout dest open_ok root_data now root s :
  bytes_ok root_data -> get_start timeout dest open_ok root_data now = Ok (root, s) ->
  decode_root_index root_data = Ok root /\
  open_output_sink dest open_ok (ri_file_size root) = Ok (f_output s) /\
  in_range (fun o => o = f_output s) (data_chunk_count (ri_file_size root)) s /\ f_had_error s = false.
Proof.
  intros Hb. unfold get_start. case_match; [done|].
  destruct (decode_root_index root_data) as [r|?|] eqn:Er; [|done..].
  destruct (decode_root_index_typed _ _ Hb Er) as (Hf & _ & _ & _).
  destruct (compute_layout_spec _ Hf) as (d & Hl & Hle & Hmin). rewrite Hl. cbn [tl_data_chunk_count tl_depth].
  set (n := data_chunk_count (ri_file_size r)) in *.
  destruct (if Z.of_nat d =? 0 then _ else _) as [e|]; [|done]. case_match; [done|].
  destruct (open_output_sink dest open_ok (ri_file_size r)) as [o|?|] eqn:Eo; [|done..].
  assert (Hn : 0 <= n).
  { unfold n, data_chunk_count. case_match eqn:Hz; [lia|]. apply Z.eqb_neq in Hz.
    apply Z.lt_le_incl, div_ceil_pos; [done|unfold in_u in Hf; lia]. }
  assert (Hlen : len (f_chunk_states (initial_fetch n o now)) = n)
    by (cbn; unfold len; rewrite length_replicate; lia).
  rewrite schedule_children_closed by (rewrite ?Hlen; lia). intros [= -> <-].
  split; [done|]. split; [done|]. split; [|done].
  split_and!; [|by apply (child_tasks_in_range n); lia|done].
  cbn [upd_states upd_tasks f_chunk_states initial_fetch]. unfold len in *. by rewrite length_child_states.
Qed.

Lemma get_start_total timeout dest open_ok root_data now :
  bytes_ok root_data -> get_start timeout dest open_ok root_data now <> Panic.
Proof.
  intros Hb. unfold get_start. case_match; [done|].
  destruct (decode_root_index root_data) as [r|?|] eqn:Er; [|done..].
  destruct (decode_root_index_typed _ _ Hb Er) as (Hf & _ & _ & _).
  destruct (compute_layout_spec _ Hf) as (d & Hl & Hle & Hmin). rewrite Hl.
  cbn [tl_data_chunk_count tl_depth tl_layer_counts].
  set (n := data_chunk_count (ri_file_size r)) in *.
  assert (exists e, (if Z.of_nat d =? 0 then Some n else last ((fun j => layer_size n j) <$> seq 1 d)) = Some e)
    as [e ->].
  { destruct d as [|d]; [by eexists|]. rewrite (proj2 (Z.eqb_neq _ _)) by lia.
    rewrite seq_S, fmap_app, list_fmap_singleton, last_snoc. by eexists. }
  case_match; [done|]. destruct (open_output_sink dest open_ok (ri_file_size r)) as [o|?|] eqn:Eo; [|done..].
  assert (Hn : 0 <= n).
  { unfold n, data_chunk_count. case_match eqn:Hz; [lia|]. apply Z.eqb_neq in Hz.
    apply Z.lt_le_incl, div_ceil_pos; [done|unfold in_u in Hf; lia]. }
  assert (Hlen : len (f_chunk_states (initial_fetch n o now)) = n)
    by (cbn; unfold len; rewrite length_replicate; lia).
  by rewrite schedule_children_closed by (rewrite ?Hlen; lia).
Qed.

(** Errors end with code 1. *)
Lemma get_end_failed crc no_ack io root s :
  f_had_error s = true -> gr_code (get_end crc no_ack io root s) = 1.
Proof. intros He. unfold get_end. by rewrite He. Qed.

Lemma get_end_code crc no_ack io root s :
  gr_code (get_end crc no_ack io root s) = 0 ->
  f_had_error s = false /\ done_count (f_chunk_states s) = data_chunk_count (ri_file_size root).
Proof.
  unfold get_end. destruct (f_had_error s); [done|].
  destruct (Z.eqb_spec (done_count (f_chunk_states s)) (data_chunk_count (ri_file_size root))); [done|done].
Qed.

Lemma open_sink_for dest open_ok file_size o :
  open_output_sink dest open_ok file_size = Ok o -> sink_for dest o.
Proof.
  unfold open_output_sink. destruct dest as [[? ?]|]; case_match; try (by intros [= <-]).
  destruct open_ok; [|done]. by intros [= <-].
Qed.

Lemma root_bytes_ok crc seed file d : bytes_ok (bt_root_encoded (file_tree crc seed file d)).
Proof.
  cbn [bt_root_encoded file_tree]. unfold encode_root_index.
  repeat (apply Forall_app; split); [by repeat constructor|apply to_le_bytes_ok..|].
  pose proof (kids_slots_ok seed file d) as Hs.
  induction Hs as [|x l [Hx _] _ IH]; [constructor|]. rewrite mjoin_cons. by apply Forall_app.
Qed.

(** C31: the receiver reassembles the file.  For any file of fewer than 2^32
    chunks with a 32-bit CRC, whose tree the sender built without a hash
    collision, the receiver accepts the root, given a positive timeout and an
    output it can open.  Whatever the order of the answers, and with any failures
    and panics of tasks between them, as long as the answers are chunks of the
    tree: the command does not panic, and if it exits with code 0 it has left
    the file, on stdout or at the path given.  At the path it is exactly the
    file when the final truncation succeeded; the code ignores an error of that
    call, and then fewer than 998 bytes follow the file.  If all tasks answer in
    time, the command ends after at most one answer per chunk of the tree, and
    exits with 0 when flushing and renaming succeed. *)
Theorem dead_drop_delivers crc seed file tree timeout dest no_ack io now evs :
  data_chunk_count (len file) < 2 ^ 32 -> in_u 32 (crc file) ->
  build_tree_from_bytes crc seed file = Ok tree -> collision_free tree -> 0 < timeout ->
  exists root s,
    get_start timeout dest true (bt_root_encoded tree) now = Ok (root, s) /\
    let run := get_from_root crc timeout dest true no_ack io
                 (bt_root_encoded tree) now evs in
    (run_ok (fun s ev _ => honest tree s ev) root (secs timeout) evs s ->
       run <> Panic /\
       forall r, run = Ok (Some r) -> gr_code r = 0 -> delivered file dest io r) /\
    (run_ok (succeeds tree (secs timeout)) root (secs timeout) evs s ->
       data_chunk_count (len file) + total_non_root_index_chunks (len file) <= len evs ->
       exists r, run = Ok (Some r) /\ (io_finalize_ok io = true -> gr_code r = 0) /\
         (gr_code r = 0 -> delivered file dest io r)).
Proof.
  intros Hn Hcrc Hb Hcf Ht. destruct (built_tree _ _ _ _ Hn Hb) as (Hf & Hn' & d & -> & Hl & Hle & Hmin).
  destruct (get_start_file crc seed file d Hf Hn' Hle Hmin Hcrc Hl timeout dest now Ht)
    as (s & Es & Hfa & Hlive & Herr & Hrem).
  exists (file_root crc seed file d), s. split; [done|]. cbv zeta.
  destruct (get_start_inv _ _ _ _ _ _ _ (root_bytes_ok crc seed file d) Es) as (_ & Ho & Hr & _).
  assert (Hr' : in_range (sink_for dest) (data_chunk_count (ri_file_size (file_root crc seed file d))) s).
  { destruct Hr as (? & ? & _). split_and!; [done..|]. by eapply open_sink_for. }
  destruct (in_range_loop (sink_for dest) (file_root crc seed file d) (secs timeout) _ evs s Hr')
    as (b & s' & El & _ & _ & Hsink).
  rewrite (get_from_root_eq _ _ _ _ _ _ _ _ _ _ _ _ Es El).
  assert (Hdn : data_chunk_count (ri_file_size (file_root crc seed file d)) = len (file_addrs seed file))
    by (symmetry; apply len_file_addrs).
  split.
  - intros Hrun. split; [by destruct b|]. intros r Er Hcode. destruct b; [|done]. injection Er as <-.
    destruct (faithful_loop crc seed file d Hn' Hmin Hcf (secs timeout) evs s Hfa Hrun)
      as (b' & s'' & El' & Hcase). rewrite El in El'. injection El' as <- <-.
    destruct (get_end_code _ _ _ _ _ Hcode) as [He Hd]. rewrite Hdn in Hd.
    destruct Hcase as [[_ ?]|[Hfa' _]]; [congruence|].
    by apply (get_end_delivers crc seed file d dest no_ack io s' Hfa' Hsink He Hd).
  - intros Hrun Hlen.
    assert (Hrem' : remaining (f_tasks s) <= len evs).
    { rewrite Hrem. etransitivity; [|exact Hlen]. unfold total_non_root_index_chunks. rewrite Hl.
      cbn [tl_layer_counts]. unfold chunk_total. cbn [seq]. rewrite fmap_cons, layer_size_0.
      rewrite <- (len_file_addrs seed file). done. }
    destruct (live_loop crc seed file d Hn' Hmin Hcf (secs timeout) evs s Hfa Hlive Hrem' Hrun)
      as (b' & s'' & El' & -> & Hlive' & Htasks & Hfa' & Herr').
    rewrite El in El'. injection El' as -> <-. eexists. split; [done|].
    apply get_end_delivers; [done|done|congruence|]. by eapply live_done.
Qed.
End Delivery.

(** A file of two chunks, its tree, and the answers in reverse order. *)
Definition sample_file : list Z := replicate 998 7 ++ [1; 2; 3].
Definition sample_crc (bs : list Z) : Z := len bs.
Definition sample_seed : list Z := replicate 32 9.
Definition sample_tree : BuiltTree :=
  match build_tree_from_bytes (H := tail_crypto) sample_crc sample_seed sample_file with
  | Ok t => t
  | _ => mkBuiltTree [] (mkKeyPair [] []) [] [] (mkTreeLayout 0 0 []) 0
  end.
Definition sample_answer (k : nat) : option (list Z) :=
  dc_encoded <$> bt_data_chunks sample_tree !! k.
Definition frozen : nat -> Z := fun _ => 0.
Definition sample_evs : list (Event * (nat -> Z)) :=
  [(TaskDone 1 (sample_answer 1) true, frozen); (SecondPassed, frozen);
   (TaskDone 0 (sample_answer 0) true, frozen)].
Definition sample_start : RootIndex * Fetch :=
  match get_start 5 None true (bt_root_encoded sample_tree) 0 with
  | Ok rs => rs
  | _ => (mkRootIndex 0 0 [], initial_fetch 0 SinkEmptyStdout 0)
  end.
#[local] Abbreviation sample_run :=
  (get_from_root sample_crc 5 None true false (mkEndIo true true) (bt_root_encoded sample_tree) 0 sample_evs).

Lemma dead_drop_delivers_witness :
  exists r, sample_run = Ok (Some r) /\ gr_code r = 0 /\ gr_stdout r = sample_file.
Proof.
  destruct (dead_drop_delivers (H := tail_crypto) sample_crc sample_seed sample_file sample_tree 5 None
    false (mkEndIo true true) 0 sample_evs) as (root & s & Es & Hhonest & _).
  - apply (bool_decide_unpack _); vm_compute; exact I.
  - apply (bool_decide_unpack _); vm_compute; exact I.
  - vm_compute. reflexivity.
  - apply (bool_decide_unpack _); vm_compute; exact I.
  - lia.
  - destruct Hhonest as [_ Hdel].
    + assert (root = (sample_start).1 /\ s = (sample_start).2) as [-> ->].
      { split; [change root with (root, s).1|change s with (root, s).2];
          f_equal; unfold sample_start; rewrite Es; reflexivity. }
      apply (bool_decide_unpack _); vm_compute; exact I.
    + assert (exists r, sample_run = Ok (Some r) /\ gr_code r = 0) as (r & Er & Hc).
      { eexists. split; [vm_compute; reflexivity|done]. }
      exists r. split; [exact Er|]. split; [exact Hc|]. exact (proj2 (Hdel r Er Hc)).
Defined.

(** ** Safety against arbitrary answers *)

(** The mapped file never gets shorter than the file. *)
Definition sink_holds (file_size : Z) (o : OutputSink) : Prop :=
  match o with
  | SinkFile mmap _ _ => file_size <= len mmap
  | SinkEmptyFile _ _ => file_size = 0
  | _ => True
  end.
#[global] Instance sink_holds_invariant file_size : SinkInvariant (sink_holds file_size).
Proof.
  intros ok p v o o' w HK. destruct o; cbn [OutputSink_accept].
  - case_match; [done|]. intros [= <- _]. cbn in *. unfold copy_at, len in *.
    rewrite !length_app, length_take, length_drop. lia.
  - by intros [= <- _].
  - destruct (StreamSink_accept _ _ _). destruct ok; [|done]. by intros [= <- _].
  - by intros [= <- _].
Qed.

Lemma open_sink_holds dest open_ok file_size o :
  in_u 64 file_size -> open_output_sink dest open_ok file_size = Ok o -> sink_holds file_size o.
Proof.
  intros Hf. unfold open_output_sink. destruct dest as [[? ?]|]; case_match eqn:E.
  - intros [= <-]. by apply Z.eqb_eq in E.
  - destruct open_ok; [|done]. intros [= <-]. cbn. unfold len. rewrite length_replicate.
    unfold in_u in Hf. lia.
  - by intros [= <-].
  - by intros [= <-].
Qed.

(** The answers that deliver a data chunk. *)
Definition data_answer (ev : Event * (nat -> Z)) : bool :=
  match ev.1 with
  | TaskDone _ (Some bytes) _ => match decode_data_chunk bytes with Ok _ => true | _ => false end
  | _ => false
  end.
Definition data_answers (evs : list (Event * (nat -> Z))) : Z := len (List.filter data_answer evs).

(** A computation adds at most [k] finished positions. *)
Definition finishes {A} (m : M Fetch unit A) (k : Z) : Prop :=
  forall s, done_count (f_chunk_states (m s).2) <= done_count (f_chunk_states s) + k.

Lemma finishes_bind {A B} (m : M Fetch unit A) (g : A -> M Fetch unit B) k j :
  0 <= j -> finishes m k -> (forall a, finishes (g a) j) -> finishes (a ← m; g a) (k + j).
Proof.
  intros Hj Hm Hg s. specialize (Hm s). unfold mbind, M_bind.
  destruct (m s) as [[a|e|] s']; cbn [snd] in *; [|lia..]. specialize (Hg a s'). lia.
Qed.
Lemma finishes_le {A} (m : M Fetch unit A) k j : finishes m k -> k <= j -> finishes m j.
Proof. intros Hm Hj s. specialize (Hm s). lia. Qed.
Lemma finishes_bind0 {A B} (m : M Fetch unit A) (g : A -> M Fetch unit B) :
  finishes m 0 -> (forall a, finishes (g a) 0) -> finishes (a ← m; g a) 0.
Proof. intros Hm Hg. by apply (finishes_bind m g 0 0). Qed.
Lemma finishes_ret {A} (a : A) : finishes (mret a) 0.
Proof. intros s. cbn. lia. Qed.
Lemma finishes_keep {A} (m : M Fetch unit A) :
  (forall s, f_chunk_states (m s).2 = f_chunk_states s) -> finishes m 0.
Proof. intros Hm s. rewrite Hm. lia. Qed.
Lemma finishes_get_state pos : finishes (get_state pos) 0.
Proof. apply finishes_keep. intros s. unfold get_state. by destruct (if pos <? 0 then _ else _). Qed.

Lemma done_count_insert i c l : done_count (<[i := c]> l) <= done_count l + (if is_done c then 1 else 0).
Proof.
  revert i. induction l as [|x l IH]; intros i; [by destruct i, c|].
  assert (forall y k, done_count (y :: k) = (if is_done y then 1 else 0) + done_count k) as E.
  { intros y k. unfold done_count, len. cbn [List.filter]. destruct (is_done y); cbn [length]; lia. }
  destruct i as [|i].
  - change (<[0%nat := c]> (x :: l)) with (c :: l). rewrite !E. destruct (is_done x), (is_done c); lia.
  - change (<[S i := c]> (x :: l)) with (x :: <[i := c]> l). rewrite !E. specialize (IH i). lia.
Qed.
Lemma finishes_set_state pos c : finishes (set_state pos c) (if is_done c then 1 else 0).
Proof.
  eapply finishes_le; [apply (finishes_bind _ _ 0 (if is_done c then 1 else 0));
    [by destruct (is_done c)|apply finishes_get_state|]|lia].
  intros _ s. cbn. apply done_count_insert.
Qed.
Lemma finishes_schedule slots r base end_ : finishes (schedule_children_from_index slots r base end_) 0.
Proof.
  unfold schedule_children_from_index. case_match.
  - revert base. induction slots as [|a l IH]; intros base; cbn [schedule_data]; [apply finishes_ret|].
    case_match; [apply finishes_ret|]. apply finishes_bind0; [apply (finishes_set_state _ (InFlight a))|].
    intros _. apply finishes_bind0; [by apply finishes_keep|done].
  - revert base. generalize (subtree_loop (Z.to_nat (r - 1 + 1)) 1). intros sz.
    induction slots as [|a l IH]; intros base; cbn [schedule_index]; [apply finishes_ret|].
    case_match; [apply finishes_ret|]. apply finishes_bind0; [by apply finishes_keep|done].
Qed.
Lemma finishes_fail : finishes fail 0.
Proof. by apply finishes_keep. Qed.
Lemma finishes_publish clock : finishes (publish_needs clock) 0.
Proof.
  intros s. unfold publish_needs. case_match; [|cbn; lia]. cbn [snd set_last_need_publish f_chunk_states].
  assert (forall l, done_count (respawn_state <$> l) = done_count l) as Hre.
  { unfold done_count, len. induction l as [|[] l IH]; cbn in *; lia. }
  destruct (missing_positions _); [lia|]. cbn [upd_states upd_tasks f_chunk_states]. rewrite Hre.
  case_match; cbn; lia.
Qed.

(** One turn finishes at most one position, and only on a data answer. *)
Definition answer_weight (ev : Event * (nat -> Z)) : Z := if data_answer ev then 1 else 0.
Lemma finishes_on_data root p result ok now :
  finishes (on_data root p result ok now) (answer_weight (TaskDone 0 result ok, fun _ => 0)).
Proof.
  unfold on_data, answer_weight, data_answer. cbn [fst]. destruct result as [bytes|].
  - destruct (decode_data_chunk bytes) as [payload|e|]; [|apply finishes_fail..].
    apply (finishes_bind _ _ 0 1); [lia|apply finishes_get_state|].
    assert (finishes (s ← Prelude.get; match OutputSink_accept ok p (take (Z.to_nat
      (Z.min (trim_len root p payload) (len payload))) payload) (f_output s) with
      | Ok (o, written) => modify (set_output o written) ;; modify (set_progress now) ;;
          set_state p Done ;; mret Fallthrough | _ => fail end) 1) as Hacc.
    { apply (finishes_bind _ _ 0 1); [lia|by apply finishes_keep|]. intros s.
      destruct (OutputSink_accept _ _ _ _) as [[o w]|e|];
        [|eapply finishes_le; [apply finishes_fail|lia]..].
      apply (finishes_bind _ _ 0 1); [lia|by apply finishes_keep|]. intros _.
      apply (finishes_bind _ _ 0 1); [lia|by apply finishes_keep|]. intros _.
      apply (finishes_bind _ _ 1 0); [lia|apply (finishes_set_state _ Done)|]. intros _. apply finishes_ret. }
    intros []; [exact Hacc..|]. eapply finishes_le; [apply finishes_ret|lia].
  - apply finishes_bind0; [apply finishes_get_state|]. intros []; try apply finishes_ret.
    apply finishes_bind0; [apply (finishes_set_state _ (Failed _))|]. intros _. apply finishes_ret.
Qed.
Lemma answer_weight_pos ev : 0 <= answer_weight ev.
Proof. unfold answer_weight. by case_match. Qed.
Lemma finishes_outcome root ev now clock :
  finishes (handle_outcome root ev now) (answer_weight (ev, clock)).
Proof.
  pose proof (answer_weight_pos (ev, clock)) as Hw.
  destruct ev as [i result ok|i|]; cbn [handle_outcome].
  - apply (finishes_bind _ _ 0); [done|by apply finishes_keep|].
    intros [[pk r base end_|a p]|].
    + eapply finishes_le; [|exact Hw]. unfold on_index. destruct result as [bytes|]; [|apply finishes_fail].
      destruct (decode_non_root_index bytes); [|apply finishes_fail..].
      apply finishes_bind0; [by apply finishes_keep|]. intros _.
      apply finishes_bind0; [apply finishes_schedule|]. intros _. apply finishes_ret.
    + apply finishes_on_data.
    + eapply finishes_le; [apply finishes_ret|exact Hw].
  - eapply finishes_le; [|exact Hw]. apply finishes_bind0; [by apply finishes_keep|].
    intros _. apply finishes_ret.
  - eapply finishes_le; [apply finishes_ret|exact Hw].
Qed.
Lemma finishes_turn root timeout ev clock :
  finishes (fetch_turn root timeout ev clock) (answer_weight (ev, clock)).
Proof.
  eapply finishes_le; [apply (finishes_bind _ _ (answer_weight (ev, clock)) 0);
    [lia|apply finishes_outcome|]|lia].
  intros []; [|apply finishes_ret..]. apply finishes_bind0; [apply finishes_publish|]. intros _.
  apply finishes_bind0; [by apply finishes_keep|]. intros s.
  case_match; [|apply finishes_ret]. by apply finishes_keep.
Qed.
Lemma finishes_loop root timeout evs : finishes (drain_loop root timeout evs) (data_answers evs).
Proof.
  assert (forall l, 0 <= data_answers l) as Hpos by (intros; apply len_nonneg).
  induction evs as [|[ev clock] evs IH]; intros s; cbn [drain_loop].
  { specialize (Hpos []). destruct (f_tasks s); cbn [snd]; lia. }
  assert (data_answers ((ev, clock) :: evs) = answer_weight (ev, clock) + data_answers evs) as ->.
  { unfold data_answers, answer_weight, len. cbn [List.filter]. case_match; cbn [length]; lia. }
  pose proof (Hpos evs). pose proof (answer_weight_pos (ev, clock)). destruct (f_tasks s); [cbn [snd]; lia|].
  apply (finishes_bind (fetch_turn root timeout ev clock) (fun b : bool => if b then mret true else _));
    [done|apply finishes_turn|]. intros []; [|done]. eapply finishes_le; [apply finishes_ret|done].
Qed.

Lemma done_count_all l : done_count l = len l -> Forall (fun c => c = Done) l.
Proof.
  unfold done_count, len. induction l as [|c l IH]; intros E; [done|]. cbn in E.
  pose proof (List.filter_length_le is_done l). destruct c; cbn in E; try lia.
  constructor; [done|]. apply IH. lia.
Qed.
Lemma get_start_undone timeout dest open_ok root_data now root s :
  get_start timeout dest open_ok root_data now = Ok (root, s) -> done_count (f_chunk_states s) <= 0.
Proof.
  unfold get_start. case_match; [done|]. destruct (decode_root_index root_data) as [r|?|]; [|done..].
  destruct (if tl_depth _ =? 0 then _ else _); [|done]. case_match; [done|].
  destruct (open_output_sink _ _ _) as [o|?|]; [|done..].
  set (n := tl_data_chunk_count _). pose proof (finishes_schedule (ri_slots r) (tl_depth (compute_layout (ri_file_size r)))
    0 n (initial_fetch n o now)) as Hf.
  destruct (schedule_children_from_index _ _ _ _ _) as [[?|?|] s']; [|done..]. intros [= <- <-].
  cbn [snd initial_fetch f_chunk_states] in Hf. etransitivity; [exact Hf|].
  assert (forall k, done_count (replicate k Unscheduled) = 0) as ->; [|done].
  unfold done_count, len. induction k as [|k IH]; [done|exact IH].
Qed.

(** The committed file of a download that ended well. *)
Lemma get_end_committed crc no_ack io root s path content :
  sink_holds (ri_file_size root) (f_output s) -> 0 <= ri_file_size root ->
  gr_code (get_end crc no_ack io root s) = 0 ->
  gr_final (get_end crc no_ack io root s) = Some (CommittedFile path content) ->
  ri_file_size root <= len content /\
  crc (take (Z.to_nat (ri_file_size root)) content) = ri_crc32c root /\
  (io_truncate_ok io = true -> len content = ri_file_size root).
Proof.
  unfold get_end. intros Hsink Hf. destruct (f_had_error s); [done|]. case_match; [done|].
  destruct (verify_crc crc (f_output s) (ri_file_size root) (ri_crc32c root)) eqn:Hv; [|done]. cbn [negb].
  destruct (f_output s) as [m t f|t f|sk|]; cbn [truncate_output]; destruct (io_finalize_ok io); try done;
    cbn in Hv, Hsink; try apply Z.eqb_eq in Hv.
  - destruct (io_truncate_ok io); cbn; intros _ [= <- <-]; [|by split_and!].
    rewrite take_take, Nat.min_id. assert (len (take (Z.to_nat (ri_file_size root)) m) = ri_file_size root) as ->
      by (unfold len in *; rewrite length_take; lia). by split_and!.
  - by destruct (io_truncate_ok io).
  - cbn. intros _ [= <- <-]. rewrite take_nil, Hsink. by split_and!.
Qed.

(** C32: no root chunk and no answers make the receiver panic, whatever their
    bytes and order.  If it exits with code 0, the root decoded and all of its
    data chunks arrived: the loop ended with every position of the announced
    file done, after at least as many answers that decode as data chunks.  A
    committed file holds at least the announced number of bytes, the first of
    them with the announced CRC, and exactly that number when the final
    truncation, whose error the code ignores, succeeded. *)
Theorem fetch_safe crc timeout dest open_ok no_ack io root_data now evs :
  bytes_ok root_data ->
  exists res, get_from_root crc timeout dest open_ok no_ack io root_data now evs = Ok res /\
    forall r, res = Some r -> gr_code r = 0 ->
      exists root s s', decode_root_index root_data = Ok root /\
        get_start timeout dest open_ok root_data now = Ok (root, s) /\
        drain_loop root (secs timeout) evs s = (Ok true, s') /\
        let n := data_chunk_count (ri_file_size root) in
        len (f_chunk_states s') = n /\ Forall (fun c => c = Done) (f_chunk_states s') /\
        n <= data_answers evs /\
        forall path content, gr_final r = Some (CommittedFile path content) ->
          ri_file_size root <= len content /\
          crc (take (Z.to_nat (ri_file_size root)) content) = ri_crc32c root /\
          (io_truncate_ok io = true -> len content = ri_file_size root).
Proof.
  intros Hb. unfold get_from_root.
  pose proof (get_start_total timeout dest open_ok root_data now Hb) as Hnp.
  destruct (get_start timeout dest open_ok root_data now) as [[root s]|code|] eqn:Es; [| |done].
  2: { eexists. split; [done|]. intros r [= <-]. cbn. intros ->. exfalso. revert Es. unfold get_start.
       repeat case_match; try done; by intros [= <-]. }
  destruct (get_start_inv _ _ _ _ _ _ _ Hb Es) as (Er & Ho & Hr & _).
  destruct (decode_root_index_typed _ _ Hb Er) as (Hf & _).
  assert (Hr' : in_range (sink_holds (ri_file_size root)) (data_chunk_count (ri_file_size root)) s).
  { destruct Hr as (? & ? & _). split_and!; [done..|]. by eapply open_sink_holds. }
  pose proof (finishes_loop root (secs timeout) evs s) as Hfin. apply get_start_undone in Es as Hz.
  destruct (in_range_loop _ root (secs timeout) _ evs s Hr') as (b & s' & El & Hlen & _ & Hsink).
  rewrite El in Hfin |- *. cbn [snd] in Hfin.
  destruct b; [|by exists None]. eexists. split; [done|]. intros r [= <-] Hcode.
  destruct (get_end_code _ _ _ _ _ Hcode) as [_ Hdone].
  exists root, s, s'. cbv zeta. split_and!; [done..| | |].
  - apply done_count_all. congruence.
  - lia.
  - intros path content Hc. unfold in_u in Hf. eapply get_end_committed; [done|lia|done..].
Qed.

(** The sample file, saved at a path whose final truncation fails: the last
    block is padded. *)
Lemma fetch_safe_witness :
  exists r content, get_from_root sample_crc 5 (Some ("t", "out")) true true (mkEndIo false true)
    (bt_root_encoded sample_tree) 0 sample_evs = Ok (Some r) /\ gr_code r = 0 /\
    gr_final r = Some (CommittedFile "out" content) /\ len content = 1996 /\
    1001 <= len content /\ sample_crc (take 1001 content) = 1001.
Proof.
  destruct (fetch_safe sample_crc 5 (Some ("t", "out")) true true (mkEndIo false true)
    (bt_root_encoded sample_tree) 0 sample_evs) as (res & E & Hres).
  - apply (bool_decide_unpack _). vm_compute. exact I.
  - assert (exists r content, res = Some r /\ gr_code r = 0 /\
      gr_final r = Some (CommittedFile "out" content) /\ len content = 1996) as (r & content & -> & Hc & Hf & Hl).
    { assert (Ok res = get_from_root sample_crc 5 (Some ("t", "out")) true true (mkEndIo false true)
        (bt_root_encoded sample_tree) 0 sample_evs) as E' by (symmetry; exact E).
      vm_compute in E'. injection E' as ->. do 2 eexists. by split_and!. }
    destruct (Hres r eq_refl Hc) as (root & s & s' & Er & _ & _ & _ & _ & _ & Hcom).
    exists r, content. destruct (Hcom "out" content Hf) as (H1 & H2 & _).
    assert (Ok root = decode_root_index (bt_root_encoded sample_tree)) as Er' by (symmetry; exact Er).
    vm_compute in Er'. injection Er' as ->. by split_and!.
Defined.

(** ** The last failure *)

(** When the only task left fails within twenty seconds of the last
    need-list round, the loop ends at once: the command exits with code 1, the
    missing chunk is never advertised to the sender and never fetched again. *)
Theorem last_failure_gives_up crc root timeout no_ack io s a (p : nat) ok clock evs :
  f_tasks s = [DataTask a (Z.of_nat p)] -> f_chunk_states s !! p = Some (InFlight a) ->
  len (f_chunk_states s) = data_chunk_count (ri_file_size root) ->
  clock 1%nat - f_last_need_publish s < need_publish_interval ->
  exists s', drain_loop root timeout ((TaskDone 0 None ok, clock) :: evs) s = (Ok true, s') /\
    gr_code (get_end crc no_ack io root s') = 1 /\
    gr_published (get_end crc no_ack io root s') = f_published s.
Proof.
  intros Ht Hp Hl Hclock. set (s1 := upd_states (insert p (Failed a)) (upd_tasks (delete 0%nat) s)).
  pose proof (lookup_lt_Some _ _ _ Hp) as Hlt.
  assert (Hh : handle_outcome root (TaskDone 0 None ok) (clock 0%nat) s = (Ok Fallthrough, s1)).
  { cbn [handle_outcome]. rewrite (bind_ok _ _ _ (Some (DataTask a (Z.of_nat p))) (upd_tasks (delete 0%nat) s));
      [|unfold take_task; by rewrite Ht]. cbv beta iota. unfold on_data.
    rewrite (bind_ok _ _ _ (InFlight a) (upd_tasks (delete 0%nat) s));
      [|apply get_state_ok; [lia|by rewrite Nat2Z.id]]. cbv beta iota.
    rewrite (bind_ok _ _ _ tt s1); [done|].
    rewrite set_state_ok by (cbn; unfold len; lia). by rewrite Nat2Z.id. }
  assert (Hpn : publish_needs clock s1 = (Ok tt, s1)).
  { unfold publish_needs. cbn [s1 upd_states upd_tasks f_last_need_publish].
    by rewrite (proj2 (Z.leb_gt _ _)) by done. }
  assert (Hcount : done_count (f_chunk_states s1) <> data_chunk_count (ri_file_size root)).
  { rewrite <- Hl. cbn [s1 upd_states upd_tasks f_chunk_states]. unfold done_count, len.
    rewrite <- (take_drop_middle _ _ _ Hp) at 2. rewrite insert_take_drop by done.
    rewrite List.filter_app, !length_app. cbn [List.filter is_done length].
    pose proof (List.filter_length_le is_done (take p (f_chunk_states s))).
    pose proof (List.filter_length_le is_done (drop (S p) (f_chunk_states s))). lia. }
  assert (Hend : forall s', f_chunk_states s' = f_chunk_states s1 -> f_published s' = f_published s ->
    gr_code (get_end crc no_ack io root s') = 1 /\
    gr_published (get_end crc no_ack io root s') = f_published s).
  { intros s' E1 E2. unfold get_end. destruct (f_had_error s'); [done|].
    rewrite E1, (proj2 (Z.eqb_neq _ _)) by done. done. }
  assert (Hturn : exists b s2, fetch_turn root timeout (TaskDone 0 None ok) clock s = (Ok b, s2) /\
    f_tasks s2 = [] /\ f_chunk_states s2 = f_chunk_states s1 /\ f_published s2 = f_published s).
  { unfold fetch_turn. rewrite (bind_ok _ _ _ _ _ Hh). cbv beta iota.
    rewrite (bind_ok _ _ _ _ _ Hpn). cbv beta. rewrite (bind_ok get _ s1 s1 s1) by done. cbv beta.
    change (f_last_progress_at s1) with (f_last_progress_at s).
    destruct (timeout <=? clock 5%nat - f_last_progress_at s); eexists _, _;
      (split; [reflexivity|]); (split; [cbn; by rewrite Ht|done]). }
  destruct Hturn as (b & s2 & E & E1 & E2 & E3). exists s2. split; [|by apply Hend].
  cbn [drain_loop]. rewrite Ht, (bind_ok _ _ _ _ _ E). destruct b; [done|].
  destruct evs as [|[ev c] evs]; cbn [drain_loop]; by rewrite E1.
Qed.

(** One data chunk that cannot be found, at any moment of the run. *)
Lemma last_failure_gives_up_witness :
  exists s', drain_loop (mkRootIndex 5 0 [[1]]) (secs 1200) [(TaskDone 0 None true, fun _ => secs 1205)]
    (mkFetch [DataTask [1] 0] [InFlight [1]] (SinkStdout (StreamSink_new 1)) [] 0 (secs 1200) None None
       (secs 1100) [] false) = (Ok true, s') /\ gr_published (get_end sample_crc true (mkEndIo true true)
         (mkRootIndex 5 0 [[1]]) s') = [].
Proof.
  destruct (last_failure_gives_up sample_crc (mkRootIndex 5 0 [[1]]) (secs 1200) true (mkEndIo true true)
    (mkFetch [DataTask [1] 0] [InFlight [1]] (SinkStdout (StreamSink_new 1)) [] 0 (secs 1200) None None
       (secs 1100) [] false) [1] 0 true (fun _ => secs 1205) []) as (s' & E & _ & Hp);
    [reflexivity..|]. exists s'. split; [exact E|exact Hp].
Defined.

(** ** Need lists *)

Lemma missing_positions_spec states :
  len states < 2 ^ 32 ->
  ascending (missing_positions states) /\ Forall (fun p => 0 <= p < len states) (missing_positions states) /\
  forall p, p ∈ missing_positions states <-> exists (i : nat) a, p = Z.of_nat i /\ states !! i = Some (Failed a).
Proof.
  unfold missing_positions. induction states as [|c l IH] using rev_ind; intros Hlen.
  { split; [constructor|]. split; [constructor|]. intros p. cbn. rewrite elem_of_nil. split; [done|].
    by intros (i & a & _ & ?). }
  lens. change (1 + 0) with 1 in Hlen. rewrite imap_app, join_app. cbn [imap].
  destruct (IH ltac:(lia)) as (I1 & I2 & I3). clear IH.
  set (old := mjoin (imap _ l)) in *. rewrite Nat.add_0_r. cbn [compose].
  unfold as_u32. rewrite as_u_id by (unfold in_u, len in *; lia).
  assert (Hlook : forall (i : nat) a, (l ++ [c]) !! i = Some (Failed a) <->
            l !! i = Some (Failed a) \/ i = length l /\ c = Failed a).
  { intros i a. rewrite lookup_app. destruct (l !! i) as [x|] eqn:E.
    - apply lookup_lt_Some in E. split; [by left|]. intros [?|[-> ?]]; [done|lia].
    - apply lookup_ge_None in E. destruct (decide (i = length l)) as [->|Hne].
      + rewrite Nat.sub_diag. cbn. split; [intros [= ->]; by right|]. by intros [?|[_ ->]].
      + rewrite lookup_ge_None_2 by (cbn; lia). split; [done|]. intros [?|[? _]]; [done|lia]. }
  assert (Hold : Forall (fun p => 0 <= p < len l + 1) old).
  { eapply Forall_impl; [exact I2|]. cbn. lia. }
  destruct c as [|a|a|]; cbn [mjoin list_join app]; rewrite ?app_nil_r.
  1,2,4: split; [done|]; split; [done|]; intros p; rewrite I3; setoid_rewrite Hlook;
    split; [intros (i & a' & ? & ?); exists i, a'; tauto|intros (i & a' & ? & [?|[_ ?]]); [by exists i, a'|done]].
  split; [|split].
  - clear -I1 I2. fold (len l). induction old as [|x xs IHx]; [constructor|].
    inversion_clear I2 as [|? ? Hx Hxs]. specialize (IHx (ascending_tail _ _ I1) Hxs).
    destruct xs as [|y ys]; cbn [app] in *; constructor; try done; [lia|]. by inversion I1.
  - apply Forall_app. split; [done|]. constructor; [unfold len; lia|constructor].
  - intros p. rewrite elem_of_app, I3, list_elem_of_singleton. setoid_rewrite Hlook. split.
    + intros [(i & a' & ? & ?)| ->]; [exists i, a'; tauto|]. exists (length l), a. tauto.
    + intros (i & a' & -> & [?|[-> ?]]); [left; by exists i, a'|by right].
Qed.

(** The chunk at an index, by its layer and position. *)
Lemma index_chunks_lookup `{CryptoPrims} seed addrs d i c :
  (forall j, (j <= d)%nat -> 0 <= layer_size (len addrs) j) ->
  mjoin (index_layer seed addrs <$> seq 0 d) !! i = Some c <->
  exists L k : nat, (L < d)%nat /\ index_layer seed addrs L !! k = Some c /\
    Z.of_nat i = layer_offset addrs L + Z.of_nat k.
Proof.
  intros Hpos.
  assert (Hlen : forall e, (e <= d)%nat ->
            len (mjoin (index_layer seed addrs <$> seq 0 e)) = layer_offset addrs e).
  { induction e as [|e IHe]; intros He; [done|].
    rewrite seq_S, fmap_app, join_app, list_fmap_singleton, mjoin_cons, app_nil_r. lens.
    rewrite IHe, layer_offset_S by lia. by rewrite len_index_layer. }
  assert (Hgen : forall e, (e <= d)%nat -> mjoin (index_layer seed addrs <$> seq 0 e) !! i = Some c <->
    exists L k : nat, (L < e)%nat /\ index_layer seed addrs L !! k = Some c /\
      Z.of_nat i = layer_offset addrs L + Z.of_nat k); [|by apply Hgen].
  induction e as [|e IHe]; intros He.
  { cbn. rewrite lookup_nil. split; [done|]. intros (L & k & ? & _). lia. }
  rewrite seq_S, fmap_app, join_app, list_fmap_singleton, mjoin_cons, app_nil_r, lookup_app_Some.
  rewrite IHe by lia. specialize (Hlen e ltac:(lia)). unfold len in Hlen. split.
  - intros [(L & k & ? & ? & ?)|[Hge Hk]]; [exists L, k; split; [lia|done]|].
    eexists e, _. split; [lia|]. split; [exact Hk|]. lia.
  - intros (L & k & HL & Hk & Hi). destruct (decide (L = e)) as [->|Hne].
    + right. split; [lia|]. rewrite <- Hk. f_equal. lia.
    + left. exists L, k. split; [lia|done].
Qed.

(** The need-list feedback is exact.  The list a receiver encodes for its
    failed positions decodes at the sender, its ranges are sorted, disjoint and
    not even adjacent, and the sender's answer to it, in ascending order and
    without duplicates, is exactly the failed data chunks and the index chunks
    on their paths (the chunk of each layer that holds the position). *)
Theorem need_answered `{CryptoPrims} `{!CryptoLaws _} crc seed file tree states :
  data_chunk_count (len file) < 2 ^ 32 - 1 -> build_tree_from_bytes crc seed file = Ok tree ->
  len states = data_chunk_count (len file) ->
  let entries := coalesce_missing_ranges (missing_positions states) in
  len entries < 2 ^ 16 ->
  let failed (p : nat) := exists a, states !! p = Some (Failed a) in
  let r := response_chunks_for_list tree entries in
  decode_need_list (encode_need_list entries) = Ok entries /\ separated entries /\
  strictly_ascending (rc_data_chunk_indices r) /\ strictly_ascending (rc_index_chunk_indices r) /\
  (forall i, i ∈ rc_data_chunk_indices r <-> failed i) /\
  (forall i, i ∈ rc_index_chunk_indices r <->
     exists c (p : nat), bt_index_chunks tree !! i = Some c /\ failed p /\
       ic_position_in_layer c = Z.of_nat p / 31 ^ (ic_layer c + 1)).
Proof.
  intros Hn Hb Hst entries Hcount failed r.
  assert (Hn32 : data_chunk_count (len file) < 2 ^ 32) by lia.
  destruct (built_tree _ _ _ _ Hn32 Hb) as (Hf & Hn' & d & -> & Hl & Hle & Hmin).
  destruct (missing_positions_spec states) as (Hasc & Hrange & Hmiss); [lia|].
  destruct (coalesce_spec (missing_positions states) Hasc) as (Hok & Hsep & Hcov).
  { eapply Forall_impl; [exact Hrange|]. cbn. lia. }
  fold entries in Hok, Hsep, Hcov.
  assert (Hlen : len (bt_data_chunks (file_tree crc seed file d)) = len (file_addrs seed file))
    by (unfold file_addrs, len; by rewrite length_fmap).
  destruct (response_list_spec (file_addrs seed file) (file_tree crc seed file d) d Hlen Hl Hmin entries Hok)
    as (S1 & S2 & D1 & D2). fold r in S1, S2, D1, D2.
  assert (Hwant : forall p, Exists (fun e => needed (file_addrs seed file) e p) entries <->
            exists q : nat, p = Z.of_nat q /\ failed q).
  { intros p. unfold failed. transitivity (covers entries p /\ p < len (file_addrs seed file)).
    - unfold covers, needed. rewrite !Exists_exists. split.
      + intros (e & ? & ? & ?). split; [by exists e|done].
      + intros [(e & ? & ?) ?]. by exists e.
    - rewrite Hcov, Hmiss, len_file_addrs, <- Hst. split.
      + intros [(i & a & -> & Hi) _]. exists i. eauto.
      + intros (q & -> & a & Hq). pose proof (lookup_lt_Some _ _ _ Hq). split; [eauto|unfold len; lia]. }
  split_and!; [|done|done|done|..].
  - apply decode_need_list_encode; [done|]. pose proof (len_nonneg entries). unfold in_u. lia.
  - intros i. rewrite D1, Hwant. split; [intros (q & ? & ?); by assert (i = q) as -> by lia|by exists i].
  - intros i. rewrite D2. destruct (layer_offset_bound _ d Hmin) as (_ & _ & Hpos).
    cbn [bt_index_chunks file_tree]. split.
    + intros (p & L & Hp & HL & Hi). apply Hwant in Hp as (q & -> & a & Hq).
      assert (Hk : 0 <= Z.of_nat q / 31 ^ Z.of_nat (S L)) by (apply Z.div_pos; [lia|apply pow31_pos]).
      destruct (lookup_lt_is_Some_2 (index_layer seed (file_addrs seed file) L)
        (Z.to_nat (Z.of_nat q / 31 ^ Z.of_nat (S L)))) as [c Hc].
      { pose proof (len_index_layer seed (file_addrs seed file) L) as Hll. unfold len in Hll at 1.
        pose proof (proj1 (layer_size_le (len (file_addrs seed file)) (S L) _) (Z.le_refl _)).
        assert (Z.of_nat q / 31 ^ Z.of_nat (S L) < layer_size (len (file_addrs seed file)) (S L)); [|lia].
        apply Z.div_lt_upper_bound; [apply pow31_pos|]. rewrite len_file_addrs, <- Hst in *.
        pose proof (lookup_lt_Some _ _ _ Hq). unfold len in *. lia. }
      pose proof Hc as Hc'. unfold index_layer, layer_of in Hc'. rewrite list_lookup_imap in Hc'.
      destruct (chunks 31 _ !! _) as [sl|]; [|done]. cbn in Hc'. injection Hc' as Hc'.
      exists c, q. split; [|split; [by exists a|]].
      * apply index_chunks_lookup; [done|]. eexists L, _. split; [done|]. split; [exact Hc|].
        rewrite Hi. unfold path_index. lia.
      * subst c. cbn [ic_position_in_layer ic_layer node]. rewrite Z2Nat.id by done.
        do 2 f_equal. lia.
    + intros (c & q & Hc & Hq & Hpos'). apply index_chunks_lookup in Hc as (L & k & HL & Hc & Hi); [|done].
      exists (Z.of_nat q), L. split; [apply Hwant; by exists q|]. split; [done|]. rewrite Hi. unfold path_index. f_equal.
      unfold index_layer, layer_of in Hc. rewrite list_lookup_imap in Hc.
      destruct (chunks 31 _ !! _) as [sl|]; [|done]. cbn in Hc. injection Hc as <-.
      cbn [ic_position_in_layer ic_layer node] in Hpos'. rewrite Hpos'. do 2 f_equal. lia.
Qed.

(** The second chunk of the sample file failed. *)
Lemma need_answered_witness :
  let r := response_chunks_for_list sample_tree
             (coalesce_missing_ranges (missing_positions [Done; Failed []])) in
  1%nat ∈ rc_data_chunk_indices r /\ 0%nat ∉ rc_data_chunk_indices r.
Proof.
  destruct (need_answered (H := tail_crypto) sample_crc sample_seed sample_file sample_tree [Done; Failed []])
    as (_ & _ & _ & _ & Hd & _).
  - apply (bool_decide_unpack _). vm_compute. exact I.
  - vm_compute. reflexivity.
  - vm_compute. reflexivity.
  - apply (bool_decide_unpack _). vm_compute. exact I.
  - split.
    + apply Hd. exists []. reflexivity.
    + intros [a Ha]%Hd. discriminate Ha.
Defined.

(** ** Shape *)

Lemma max_data_chunks_from_spec k cap :
  0 <= cap < 2 ^ 64 -> max_data_chunks_from k cap = Z.min (cap * 31 ^ Z.of_nat k) (2 ^ 64 - 1).
Proof.
  revert cap. induction k as [|k IH]; intros cap Hc; cbn [max_data_chunks_from]; [cbn; lia|].
  unfold saturating_mul. change NON_ROOT_INDEX_SLOT_CAP with 31. rewrite IH by lia.
  rewrite Nat2Z.inj_succ, Z.pow_succ_r by lia. pose proof (pow31_pos k). nia.
Qed.

(** The tree of a file.  Building it from the chunks of the file always
    succeeds; its depth is the least one whose capacity holds the data chunks;
    the index chunks are as many as the layout says and carry the key of their
    place in the list; and every chunk of the tree fits a record of 1000
    bytes. *)
Theorem tree_shape `{CryptoPrims} `{!CryptoLaws _} crc seed file :
  data_chunk_count (len file) < 2 ^ 32 ->
  exists tree, build_tree_from_bytes crc seed file = Ok tree /\
    let n := data_chunk_count (len file) in
    let depth := tl_depth (bt_layout tree) in
    n <= max_data_chunks_for_depth depth /\
    (forall e, 0 <= e < depth -> max_data_chunks_for_depth e < n) /\
    len (bt_data_chunks tree) = n /\
    len (bt_index_chunks tree) = total_non_root_index_chunks (len file) /\
    (forall i c, bt_index_chunks tree !! i = Some c -> ic_keypair_index c = Z.of_nat i /\
       ic_keypair c = derive_index_keypair seed (Z.of_nat i)) /\
    Forall (fun c => len (dc_encoded c) <= MAX_CHUNK_SIZE) (bt_data_chunks tree) /\
    Forall (fun c => len (ic_encoded c) <= MAX_CHUNK_SIZE) (bt_index_chunks tree) /\
    len (bt_root_encoded tree) <= MAX_CHUNK_SIZE.
Proof.
  intros Hn. pose proof (n_blocks seed file) as [Hbl _]. pose proof (len_nonneg file).
  pose proof Hn as Hn'. rewrite <- (len_file_addrs seed file) in Hn'.
  assert (Hf : in_u 64 (len file)) by (unfold in_u; lia).
  destruct (build_tree_from_bytes_spec crc seed file Hf Hn') as (d & E & Hl & Hle & Hmin).
  eexists. split; [exact E|]. cbv zeta.
  cbn [bt_layout bt_data_chunks bt_index_chunks bt_root_encoded]. rewrite <- (len_file_addrs seed file).
  destruct (layer_offset_bound _ d Hmin) as (_ & _ & Hpos).
  assert (Hmax : forall e : nat, max_data_chunks_for_depth (Z.of_nat e) =
            Z.min (30 * 31 ^ Z.of_nat e) (2 ^ 64 - 1)).
  { intros e. unfold max_data_chunks_for_depth. rewrite Nat2Z.id.
    by rewrite max_data_chunks_from_spec by (vm_compute; split; [discriminate|done]). }
  rewrite Hl. cbn [tl_depth]. split_and!.
  - rewrite Hmax. apply layer_size_le in Hle. lia.
  - intros e He. destruct (Z_of_nat_complete e (proj1 He)) as [k ->]. rewrite Hmax.
    specialize (Hmin k ltac:(lia)). assert (~ layer_size (len (file_addrs seed file)) k <= 30) as Hb by lia.
    rewrite layer_size_le in Hb. lia.
  - unfold file_addrs, len. by rewrite length_fmap.
  - unfold total_non_root_index_chunks. rewrite Hl. cbn [tl_layer_counts]. clear -Hpos.
    induction d as [|d IH]; [done|]. rewrite !seq_S, !fmap_app, join_app, !list_fmap_singleton, mjoin_cons, app_nil_r.
    lens. rewrite IH by (intros; apply Hpos; lia). rewrite foldr_add_app, len_index_layer. cbn. lia.
  - intros i c Hc. apply index_chunks_lookup in Hc as (L & k & HL & Hc & Hi); [|done].
    unfold index_layer, layer_of in Hc. rewrite list_lookup_imap in Hc.
    destruct (chunks 31 _ !! _) as [sl|]; [|done]. cbn in Hc. injection Hc as <-.
    cbn [ic_keypair_index ic_keypair node]. by rewrite Hi.
  - apply Forall_forall. intros c Hc. apply elem_of_lookup_imap in Hc as (i & x & -> & Hx).
    apply payload_spec in Hx as (_ & Hx & _). cbn. unfold MAX_CHUNK_SIZE. lens. lia.
  - apply Forall_forall. intros c Hc. apply list_elem_of_lookup in Hc as [i Hc].
    apply index_chunks_lookup in Hc as (L & k & HL & Hc & Hi); [|done].
    unfold index_layer, layer_of in Hc. rewrite list_lookup_imap in Hc.
    destruct (chunks 31 _ !! _) as [sl|] eqn:Hs; [|done]. cbn in Hc. injection Hc as <-.
    cbn [ic_encoded node]. unfold encode_non_root_index, MAX_CHUNK_SIZE.
    rewrite chunks_lookup in Hs by lia. case_decide; [|done]. injection Hs as <-. lens.
    rewrite slots_len by (apply Forall_take, Forall_drop, kids_slots_ok).
    unfold len. rewrite length_take. lia.
  - unfold encode_root_index, MAX_CHUNK_SIZE. lens. rewrite slots_len by apply kids_slots_ok. rewrite len_kids. lia.
Qed.

Lemma tree_shape_witness : exists tree,
  build_tree_from_bytes (H := tail_crypto) sample_crc sample_seed sample_file = Ok tree /\
  len (bt_data_chunks tree) = 2.
Proof.
  destruct (tree_shape (H := tail_crypto) sample_crc sample_seed sample_file) as (tree & E & _ & _ & Hl & _).
  - apply (bool_decide_unpack _). vm_compute. exact I.
  - exists tree. split; [exact E|]. rewrite Hl. vm_compute. reflexivity.
Defined.

(** ** Frames *)

(** The dead-drop frames round-trip: data chunks, root and non-root index
    chunks up to their slot caps, and need lists; a record that decodes as a
    non-empty need list is the encoding of what it decodes to. *)
Theorem drop_frames_roundtrip :
  (forall s payload, decode_data_chunk (encode_data_chunk s payload) = Ok payload) /\
  (forall file_size crc slots, in_u 64 file_size -> in_u 32 crc -> slots_ok slots ->
     len slots <= ROOT_INDEX_SLOT_CAP ->
     decode_root_index (encode_root_index file_size crc slots) = Ok (mkRootIndex file_size crc slots)) /\
  (forall slots, slots_ok slots -> len slots <= NON_ROOT_INDEX_SLOT_CAP ->
     decode_non_root_index (encode_non_root_index slots) = Ok slots) /\
  (forall entries, Forall entry_ok entries -> in_u 16 (len entries) ->
     decode_need_list (encode_need_list entries) = Ok entries) /\
  (forall bytes entries, bytes_ok bytes -> bytes <> [] -> decode_need_list bytes = Ok entries ->
     Forall entry_ok entries /\ encode_need_list entries = bytes).
Proof.
  split_and!; intros.
  - apply decode_data_chunk_encode.
  - by apply decode_root_index_encode.
  - by apply decode_non_root_index_encode.
  - by apply decode_need_list_encode.
  - by edestruct decode_need_list_inv as (? & ? & ?).
Qed.
