(* ===== verification/DeadDropPublish.v ===== *)
(** * DeadDropPublish: the sender of a dead drop

    [v2/queue.rs]: the shared work queue with its two lanes and subscribers;
    [v2/publish.rs]: the AIMD controller, the permits of the publish pipeline,
    what each trigger enqueues, and one poll of the need watcher.  Operations
    that hold the queue's mutex are single steps; the atomics of the
    concurrency state are touched by one step each. *)

From S2P Require Import Prelude RustStd RustFloat Codec Crypto DeadDropWire DeadDropTree DeadDropNeed.

#[local] Open Scope Z_scope.

(** ** [queue.rs] *)

Inductive ChunkId :=
| IdData (i : nat)
| IdIndex (i : nat)
| IdRoot.
#[global] Instance ChunkId_eq_dec : EqDecision ChunkId.
Proof. solve_decision. Defined.
#[global] Program Instance ChunkId_countable : Countable ChunkId :=
  inj_countable
    (fun id => match id with IdData i => inl i | IdIndex i => inr (Some i) | IdRoot => inr None end)
    (fun x => match x with inl i => Some (IdData i) | inr (Some i) => Some (IdIndex i) | inr None => Some IdRoot end)
    _.
Next Obligation. by intros []. Qed.

Inductive Lane := Normal | High.
#[global] Instance Lane_eq_dec : EqDecision Lane.
Proof. solve_decision. Defined.
(** [a > b] in declaration order. *)
Definition Lane_gt (a b : Lane) : bool := match a, b with High, Normal => true | _, _ => false end.

Inductive PublishUnit :=
| UnitData (encoded : list Z)
| UnitIndex (keypair : KeyPair) (encoded : list Z).

(** A subscriber is its operation: the counter and the notification are
    shared, so the operation's number stands for them. *)
Abbreviation OpId := nat.

Record Entry := mkEntry { en_unit : PublishUnit; en_lane : Lane; en_subs : list OpId }.

(** The counters an operation shares with its subscribers. *)
Record Operation := mkOperation {
  op_remaining : Z;
  (** [notify_waiters] was called *)
  op_notified : bool;
  op_bytes : Z;
  op_data_done : Z;
  op_index_done : Z
}.
Definition Operation_new (chunk_count : Z) : Operation := mkOperation chunk_count false 0 0 0.

Record WorkQueue := mkWorkQueue {
  wq_queued : gmap ChunkId Entry;
  wq_high : list ChunkId;
  wq_normal : list ChunkId;
  wq_inflight : gmap ChunkId (list OpId);
  (** the stored permit of [have_work] *)
  wq_have_work : bool
}.
Definition WorkQueue_new : WorkQueue := mkWorkQueue ∅ [] [] ∅ false.

Definition WorkQueue_enqueue (id : ChunkId) (unit : PublishUnit) (lane : Lane) (sub : OpId)
    (q : WorkQueue) : WorkQueue :=
  match wq_inflight q !! id with
  | Some subs =>
      mkWorkQueue (wq_queued q) (wq_high q) (wq_normal q)
        (<[id := subs ++ [sub]]> (wq_inflight q)) (wq_have_work q)
  | None =>
      match wq_queued q !! id with
      | Some entry =>
          let upgraded := Lane_gt lane (en_lane entry) in
          mkWorkQueue
            (<[id := mkEntry (en_unit entry) (if upgraded then lane else en_lane entry)
                       (en_subs entry ++ [sub])]> (wq_queued q))
            (if upgraded then wq_high q ++ [id] else wq_high q)
            (wq_normal q) (wq_inflight q) (wq_have_work q)
      | None =>
          mkWorkQueue (<[id := mkEntry unit lane [sub]]> (wq_queued q))
            (match lane with High => wq_high q ++ [id] | Normal => wq_high q end)
            (match lane with Normal => wq_normal q ++ [id] | High => wq_normal q end)
            (wq_inflight q) true
      end
  end.

(** The two loops of one pass of [pop] under the lock; the result is [None]
    when both lanes ran empty. *)
Fixpoint pop_high (ids : list ChunkId) (q : WorkQueue)
    : option (ChunkId * PublishUnit * list OpId) * WorkQueue :=
  match ids with
  | [] => (None, mkWorkQueue (wq_queued q) [] (wq_normal q) (wq_inflight q) (wq_have_work q))
  | id :: ids =>
      match wq_queued q !! id with
      | Some entry =>
          (Some (id, en_unit entry, en_subs entry),
           mkWorkQueue (delete id (wq_queued q)) ids (wq_normal q)
             (<[id := en_subs entry]> (wq_inflight q)) (wq_have_work q))
      | None => pop_high ids q
      end
  end.

Fixpoint pop_normal (ids : list ChunkId) (q : WorkQueue)
    : option (ChunkId * PublishUnit * list OpId) * WorkQueue :=
  match ids with
  | [] => (None, mkWorkQueue (wq_queued q) (wq_high q) [] (wq_inflight q) (wq_have_work q))
  | id :: ids =>
      match wq_queued q !! id with
      | Some entry =>
          if decide (en_lane entry = High) then
            pop_normal ids
              (mkWorkQueue (<[id := entry]> (delete id (wq_queued q))) (wq_high q) (wq_normal q)
                 (wq_inflight q) (wq_have_work q))
          else
            (Some (id, en_unit entry, en_subs entry),
             mkWorkQueue (delete id (wq_queued q)) (wq_high q) ids
               (<[id := en_subs entry]> (wq_inflight q)) (wq_have_work q))
      | None => pop_normal ids q
      end
  end.

Definition WorkQueue_try_pop (q : WorkQueue)
    : option (ChunkId * PublishUnit * list OpId) * WorkQueue :=
  match pop_high (wq_high q) q with
  | (Some r, q') => (Some r, q')
  | (None, q') => pop_normal (wq_normal q') q'
  end.

(** One subscriber: progress, then the counter ([fetch_sub] wraps). *)
Definition fire (bytes : Z) (is_data : bool) (o : Operation) : Operation :=
  mkOperation (as_u64 (op_remaining o - 1)) (op_notified o || (op_remaining o =? 1))
    (if is_data then op_bytes o + bytes else op_bytes o)
    (if is_data then op_data_done o + 1 else op_data_done o)
    (if is_data then op_index_done o else op_index_done o + 1).

Definition WorkQueue_mark_done (id : ChunkId) (bytes : Z) (is_data : bool)
    (q : WorkQueue) (ops : gmap OpId Operation) : WorkQueue * gmap OpId Operation :=
  let subs := default [] (wq_inflight q !! id) in
  (mkWorkQueue (wq_queued q) (wq_high q) (wq_normal q) (delete id (wq_inflight q)) (wq_have_work q),
   foldl (fun ops sub => alter (fire bytes is_data) sub ops) ops subs).

(** [await_done] returns when it finds the counter at zero, or at the
    notification. *)
Definition Operation_await_done (o : Operation) : bool :=
  (op_remaining o =? 0) || op_notified o.

(** ** [publish.rs]: what the triggers enqueue *)

Definition tree_non_root_units (tree : BuiltTree) : list (ChunkId * PublishUnit) :=
  imap (fun i c => (IdData i, UnitData (dc_encoded c))) (bt_data_chunks tree) ++
  imap (fun i c => (IdIndex i, UnitIndex (ic_keypair c) (ic_encoded c))) (bt_index_chunks tree).

Definition enqueue_all (units : list (ChunkId * PublishUnit)) (lane : Lane) (op : OpId)
    (q : WorkQueue) : WorkQueue :=
  foldl (fun q u => WorkQueue_enqueue u.1 u.2 lane op q) q units.

Definition enqueue_tree_non_root (tree : BuiltTree) (lane : Lane) (op : OpId) (q : WorkQueue) : WorkQueue :=
  enqueue_all (tree_non_root_units tree) lane op q.

Definition root_unit (tree : BuiltTree) : ChunkId * PublishUnit :=
  (IdRoot, UnitIndex (bt_root_keypair tree) (bt_root_encoded tree)).
Definition enqueue_root (tree : BuiltTree) (lane : Lane) (op : OpId) (q : WorkQueue) : WorkQueue :=
  enqueue_all [root_unit tree] lane op q.

(** [tree.data_chunks[i]] panics out of range. *)
Definition partial_units (tree : BuiltTree) (data_idx index_idx : list nat)
    : option (list (ChunkId * PublishUnit)) :=
  ds ← mapM (fun i => (fun c => (IdData i, UnitData (dc_encoded c))) <$> bt_data_chunks tree !! i) data_idx;
  ixs ← mapM (fun i => (fun c => (IdIndex i, UnitIndex (ic_keypair c) (ic_encoded c)))
                        <$> bt_index_chunks tree !! i) index_idx;
  Some (ds ++ ixs).
Definition enqueue_partial (tree : BuiltTree) (data_idx index_idx : list nat) (op : OpId)
    (q : WorkQueue) : outcome unit WorkQueue :=
  match partial_units tree data_idx index_idx with
  | Some units => Ok (enqueue_all units High op q)
  | None => Panic
  end.

(** ** The AIMD controller *)

Record AimdController := mkAimd {
  ai_current : Z;
  ai_initial : Z;
  ai_max_cap : option Z;
  ai_ewma : f64;
  ai_alpha : f64;
  ai_samples_since_decision : Z;
  ai_decision_interval : Z;
  ai_degraded_since_decision : Z;
  ai_fast_trip_threshold : Z;
  ai_shrink_cooldown : bool
}.

Definition AimdController_new (initial : Z) (max_cap : option Z) : AimdController :=
  mkAimd initial initial max_cap (f64_of_Z 0) (f64_lit 1 10) 0 20 0 10 false.

Definition kick_stall (c : AimdController) : option Z * AimdController :=
  let floor := Z.max (ai_initial c / 2) 1 in
  if floor <=? ai_current c then (None, c)
  else (Some floor,
        mkAimd floor (ai_initial c) (ai_max_cap c) (f64_of_Z 0) (ai_alpha c) 0
          (ai_decision_interval c) 0 (ai_fast_trip_threshold c) false).

Definition shrink_step (c : AimdController) : Z * AimdController :=
  let current := Z.max (f64_to_u64 (f64_mul (f64_of_Z (ai_current c)) (f64_lit 3 4))) 1 in
  (current,
   mkAimd current (ai_initial c) (ai_max_cap c) (ai_ewma c) (ai_alpha c) (ai_samples_since_decision c)
     (ai_decision_interval c) (ai_degraded_since_decision c) (ai_fast_trip_threshold c) true).

Definition grow_step (c : AimdController) : Z * AimdController :=
  let next := ai_current c + 2 in
  let current := match ai_max_cap c with Some cap => Z.min next cap | None => next end in
  (current,
   mkAimd current (ai_initial c) (ai_max_cap c) (ai_ewma c) (ai_alpha c) (ai_samples_since_decision c)
     (ai_decision_interval c) (ai_degraded_since_decision c) (ai_fast_trip_threshold c) false).

Definition reset_decision_window (c : AimdController) : AimdController :=
  mkAimd (ai_current c) (ai_initial c) (ai_max_cap c) (ai_ewma c) (ai_alpha c) 0
    (ai_decision_interval c) 0 (ai_fast_trip_threshold c) (ai_shrink_cooldown c).

Definition clear_cooldown (c : AimdController) : AimdController :=
  mkAimd (ai_current c) (ai_initial c) (ai_max_cap c) (ai_ewma c) (ai_alpha c)
    (ai_samples_since_decision c) (ai_decision_interval c) (ai_degraded_since_decision c)
    (ai_fast_trip_threshold c) false.

(** The counters and the average after one sample. *)
Definition sampled (degraded : bool) (c : AimdController) : AimdController :=
  let sample := if degraded then f64_of_Z 1 else f64_of_Z 0 in
  mkAimd (ai_current c) (ai_initial c) (ai_max_cap c)
    (f64_add (f64_mul (ai_alpha c) sample)
       (f64_mul (f64_sub (f64_of_Z 1) (ai_alpha c)) (ai_ewma c)))
    (ai_alpha c) (ai_samples_since_decision c + 1) (ai_decision_interval c)
    (if degraded then ai_degraded_since_decision c + 1 else ai_degraded_since_decision c)
    (ai_fast_trip_threshold c) (ai_shrink_cooldown c).

Definition shrink_unless_cooling (c : AimdController) : option Z * AimdController :=
  if ai_shrink_cooldown c then (None, clear_cooldown c)
  else let '(t, c) := shrink_step c in (Some t, c).

Definition AimdController_record (degraded : bool) (c : AimdController) : option Z * AimdController :=
  let c := sampled degraded c in
  if ai_fast_trip_threshold c <=? ai_degraded_since_decision c then
    shrink_unless_cooling (reset_decision_window c)
  else if ai_decision_interval c <=? ai_samples_since_decision c then
    let ewma := ai_ewma c in
    let c := reset_decision_window c in
    if f64_ltb (f64_lit 3 10) ewma then shrink_unless_cooling c
    else if f64_ltb ewma (f64_lit 5 100) then let '(t, c) := grow_step c in (Some t, c)
    else (None, clear_cooldown c)
  else (None, c).

(** ** The permits of the pipeline *)

Record ConcurrencyState := mkConc {
  (** permits in the semaphore, and those held by running puts *)
  cs_available : Z;
  cs_held : Z;
  cs_target : Z;
  cs_forget_pending : Z;
  cs_aimd : AimdController;
  cs_last_record_ms : Z;
  cs_last_kick_ms : Z
}.

Definition ConcurrencyState_new (initial : Z) (max_cap : option Z) (now : Z) : ConcurrencyState :=
  mkConc initial 0 initial 0 (AimdController_new initial max_cap) now 0.

(** One turn of the loop of [acquire], when a permit is available: [true] when
    the permit is handed out, [false] when it was forgotten. *)
Definition acquire_turn (s : ConcurrencyState) : option (bool * ConcurrencyState) :=
  if cs_available s <=? 0 then None
  else if 0 <? cs_forget_pending s then
    Some (false, mkConc (cs_available s - 1) (cs_held s) (cs_target s) (cs_forget_pending s - 1)
                   (cs_aimd s) (cs_last_record_ms s) (cs_last_kick_ms s))
  else
    Some (true, mkConc (cs_available s - 1) (cs_held s + 1) (cs_target s) (cs_forget_pending s)
                  (cs_aimd s) (cs_last_record_ms s) (cs_last_kick_ms s)).

(** Dropping a permit. *)
Definition release (s : ConcurrencyState) : ConcurrencyState :=
  mkConc (cs_available s + 1) (cs_held s - 1) (cs_target s) (cs_forget_pending s) (cs_aimd s)
    (cs_last_record_ms s) (cs_last_kick_ms s).

Definition apply_target (target : Z) (s : ConcurrencyState) : ConcurrencyState :=
  match Z.compare target (cs_target s) with
  | Gt => mkConc (cs_available s + (target - cs_target s)) (cs_held s) target (cs_forget_pending s)
            (cs_aimd s) (cs_last_record_ms s) (cs_last_kick_ms s)
  | Lt => mkConc (cs_available s) (cs_held s) target (cs_forget_pending s + (cs_target s - target))
            (cs_aimd s) (cs_last_record_ms s) (cs_last_kick_ms s)
  | Eq => s
  end.

Definition set_aimd (c : AimdController) (last_record last_kick : Z) (s : ConcurrencyState) : ConcurrencyState :=
  mkConc (cs_available s) (cs_held s) (cs_target s) (cs_forget_pending s) c last_record last_kick.

Definition ConcurrencyState_record (degraded : bool) (now : Z) (s : ConcurrencyState) : ConcurrencyState :=
  let '(new_target, ctrl) := AimdController_record degraded (cs_aimd s) in
  let s := set_aimd ctrl now (cs_last_kick_ms s) s in
  match new_target with Some target => apply_target target s | None => s end.

Definition kick_if_stalled (stall_threshold_ms min_kick_interval_ms now : Z) (s : ConcurrencyState)
    : option Z * ConcurrencyState :=
  if Z.max 0 (now - cs_last_record_ms s) <? stall_threshold_ms then (None, s)
  else if Z.max 0 (now - cs_last_kick_ms s) <? min_kick_interval_ms then (None, s)
  else
    let '(new_target, ctrl) := kick_stall (cs_aimd s) in
    match new_target with
    | Some target => (Some target, apply_target target (set_aimd ctrl now now s))
    | None => (None, set_aimd ctrl (cs_last_record_ms s) (cs_last_kick_ms s) s)
    end.

(** ** The need watcher *)

Record PeerState := mkPeerState {
  ps_last_value_hash : option (list Z);
  ps_completed : bool;
  ps_last_seq : option Z
}.
Definition PeerState_default : PeerState := mkPeerState None false None.

(** One peer of one poll: [get] is the answer of [mutable_get] (value and
    sequence number), [hash_bytes] the SHA-256 of the value.  Returns the chunks
    to republish, when there are any. *)
Definition watch_peer (hash_bytes : list Z -> list Z) (tree : BuiltTree)
    (get : option (list Z * Z)) (entry : PeerState) : option ResponseChunks * PeerState :=
  if ps_completed entry then (None, entry)
  else match get with
  | None => (None, entry)
  | Some (value, seq) =>
      let value_hash := hash_bytes value in
      if decide (ps_last_value_hash entry = Some value_hash) then
        (None, mkPeerState (ps_last_value_hash entry) (ps_completed entry) (Some seq))
      else match decode_need_list value with
      | Ok [] => (None, mkPeerState (Some value_hash) true (Some seq))
      | Ok entries =>
          (Some (response_chunks_for_list tree entries),
           mkPeerState (Some value_hash) (ps_completed entry) (Some seq))
      | _ => (None, entry)
      end
  end.

(** A poll over the peers the lookup returned. *)
Fixpoint watch_poll (hash_bytes : list Z -> list Z) (tree : BuiltTree)
    (found : list (list Z * option (list Z * Z))) (peers : gmap (list Z) PeerState)
    : list ResponseChunks * gmap (list Z) PeerState :=
  match found with
  | [] => ([], peers)
  | (public_key, get) :: found =>
      let entry := default PeerState_default (peers !! public_key) in
      let '(resp, entry') := watch_peer hash_bytes tree get entry in
      let '(rest, peers') := watch_poll hash_bytes tree found (<[public_key := entry']> peers) in
      (match resp with Some r => r :: rest | None => rest end, peers')
  end.

(** ** Pickup acknowledgements *)

(** The double loop over the announced keys: new keys count, and the limit
    stops it. *)
Fixpoint count_acks (max_pickups : option Z) (keys : list (list Z)) (seen : gset (list Z))
    (pickup_count : Z) : bool * gset (list Z) * Z :=
  match keys with
  | [] => (false, seen, pickup_count)
  | k :: keys =>
      if decide (k ∈ seen) then count_acks max_pickups keys seen pickup_count
      else
        let pickup_count := pickup_count + 1 in
        let seen := {[k]} ∪ seen in
        match max_pickups with
        | Some max => if max <=? pickup_count then (true, seen, pickup_count)
                      else count_acks max_pickups keys seen pickup_count
        | None => count_acks max_pickups keys seen pickup_count
        end
  end.
