(* ===== verification/DeadDropPublishTheorems.v ===== *)
(** * DeadDropPublishTheorems: claims about the sender of a dead drop

    The work queue serves every operation exactly (no lost wake-up, no lost or
    doubled subscription), the permits follow the controller's target, the
    controller keeps its bounds, and a repeated need list is not served. *)

From S2P Require Import Prelude RustStd RustFloat Chunks Codec Crypto DeadDropWire DeadDropTree DeadDropNeed DeadDropFetch DeadDropTheorems DeadDropPublish.

#[local] Open Scope Z_scope.

(** ** Counting subscriptions *)

Definition occurrences (op : OpId) (subs : list OpId) : Z := len (List.filter (Nat.eqb op) subs).

Definition subs_total (op : OpId) (m : gmap ChunkId (list OpId)) : Z :=
  map_fold (fun _ subs n => occurrences op subs + n) 0 m.

Definition outstanding (op : OpId) (q : WorkQueue) : Z :=
  subs_total op (en_subs <$> wq_queued q) + subs_total op (wq_inflight q).

Lemma occurrences_app op a b : occurrences op (a ++ b) = occurrences op a + occurrences op b.
Proof. unfold occurrences. rewrite List.filter_app. apply len_app. Qed.
Lemma occurrences_one op sub : occurrences op [sub] = if decide (op = sub) then 1 else 0.
Proof. unfold occurrences. cbn. destruct (Nat.eqb_spec op sub); case_decide; done. Qed.

Lemma subs_total_insert op m id subs :
  m !! id = None -> subs_total op (<[id := subs]> m) = occurrences op subs + subs_total op m.
Proof. intros Hid. unfold subs_total. rewrite map_fold_insert_L; [done|lia|done]. Qed.
Lemma subs_total_delete op m id subs :
  m !! id = Some subs -> subs_total op m = occurrences op subs + subs_total op (delete id m).
Proof. intros Hid. unfold subs_total. rewrite (map_fold_delete_L _ _ id subs); [done|lia|done]. Qed.
Lemma subs_total_replace op m id subs subs' :
  m !! id = Some subs ->
  subs_total op (<[id := subs']> m) = subs_total op m + occurrences op subs' - occurrences op subs.
Proof.
  intros Hid. rewrite (subs_total_delete op m id subs) by done.
  rewrite <- insert_delete_eq, subs_total_insert by apply lookup_delete_eq. lia.
Qed.

Lemma occurrences_nonneg op subs : 0 <= occurrences op subs.
Proof. apply len_nonneg. Qed.
Lemma subs_total_nonneg op m : 0 <= subs_total op m.
Proof.
  unfold subs_total. apply (map_fold_weak_ind (fun r _ => 0 <= r)); [lia|].
  intros i x m' r _ Hr. pose proof (occurrences_nonneg op x). lia.
Qed.

(** ** The queue as a transition system *)

Record Sender := mkSender {
  sn_queue : WorkQueue;
  sn_ops : gmap OpId Operation;
  (** chunks an operation has still to enqueue *)
  sn_left : gmap OpId Z;
  (** the dispatcher waits in [have_work.notified()] *)
  sn_waiting : bool
}.
Definition Sender_new : Sender := mkSender WorkQueue_new ∅ ∅ false.

Inductive SenderStep : Sender -> Sender -> Prop :=
| StepNewOp q ops left w op count :
    ops !! op = None -> left !! op = None -> 0 <= count < 2 ^ 64 ->
    SenderStep (mkSender q ops left w)
      (mkSender q (<[op := Operation_new count]> ops) (<[op := count]> left) w)
| StepEnqueue q ops left w op k id unit lane :
    left !! op = Some k -> 0 < k ->
    SenderStep (mkSender q ops left w)
      (mkSender (WorkQueue_enqueue id unit lane op q) ops (<[op := k - 1]> left) w)
| StepPop q ops left r q' :
    WorkQueue_try_pop q = (Some r, q') ->
    SenderStep (mkSender q ops left false) (mkSender q' ops left false)
| StepWait q ops left q' :
    WorkQueue_try_pop q = (None, q') ->
    SenderStep (mkSender q ops left false) (mkSender q' ops left true)
| StepWake q ops left :
    wq_have_work q = true ->
    SenderStep (mkSender q ops left true)
      (mkSender (mkWorkQueue (wq_queued q) (wq_high q) (wq_normal q) (wq_inflight q) false) ops left false)
| StepDone q ops left w id bytes is_data q' ops' :
    is_Some (wq_inflight q !! id) -> WorkQueue_mark_done id bytes is_data q ops = (q', ops') ->
    SenderStep (mkSender q ops left w) (mkSender q' ops' left w).

Definition in_lane (q : WorkQueue) (id : ChunkId) (l : Lane) : Prop :=
  match l with High => id ∈ wq_high q | Normal => id ∈ wq_normal q end.

(** An operation's counter is what it has to enqueue plus what is under way. *)
Record sender_ok (s : Sender) : Prop := {
  sk_disjoint id : is_Some (wq_queued (sn_queue s) !! id) -> wq_inflight (sn_queue s) !! id = None;
  sk_lanes id e : wq_queued (sn_queue s) !! id = Some e -> in_lane (sn_queue s) id (en_lane e);
  sk_ops op o : sn_ops s !! op = Some o -> exists k, sn_left s !! op = Some k /\ 0 <= k /\
    op_remaining o = k + outstanding op (sn_queue s) /\ 0 <= op_remaining o < 2 ^ 64 /\
    (op_notified o = true -> op_remaining o = 0);
  sk_left op k : sn_left s !! op = Some k -> is_Some (sn_ops s !! op);
  sk_subs op : sn_ops s !! op = None -> outstanding op (sn_queue s) = 0;
  sk_wake : sn_waiting s = true -> wq_queued (sn_queue s) <> ∅ -> wq_have_work (sn_queue s) = true
}.

(** A pop takes one queued chunk and makes it in flight, or finds none. *)
Definition popped (q : WorkQueue) (r : option (ChunkId * PublishUnit * list OpId)) (q' : WorkQueue) : Prop :=
  wq_have_work q' = wq_have_work q /\
  match r with
  | Some (id, u, subs) => exists e, wq_queued q !! id = Some e /\ u = en_unit e /\ subs = en_subs e /\
      wq_queued q' = delete id (wq_queued q) /\ wq_inflight q' = <[id := subs]> (wq_inflight q)
  | None => wq_queued q' = wq_queued q /\ wq_inflight q' = wq_inflight q
  end.

Lemma popped_queued q r q' id e :
  popped q r q' -> wq_queued q' !! id = Some e -> wq_queued q !! id = Some e.
Proof.
  intros [_ Hp] He. destruct r as [[[id' u] subs]|].
  - destruct Hp as (e0 & _ & _ & _ & Hq & _). rewrite Hq in He. by apply lookup_delete_Some in He as [_ ?].
  - destruct Hp as [Hq _]. by rewrite Hq in He.
Qed.

Lemma pop_high_spec ids q r q' :
  pop_high ids q = (r, q') ->
  popped q r q' /\ wq_normal q' = wq_normal q /\
  (r = None -> wq_high q' = [] /\ forall id, id ∈ ids -> wq_queued q !! id = None) /\
  (forall id, id ∈ ids -> is_Some (wq_queued q' !! id) -> id ∈ wq_high q').
Proof.
  induction ids as [|i ids IH]; cbn [pop_high].
  { intros [= <- <-]. split; [done|]. split; [done|]. split; [split; [done|]|];
      intros id Hid; by apply not_elem_of_nil in Hid. }
  destruct (wq_queued q !! i) as [e|] eqn:Hi.
  - intros [= <- <-]. split; [split; [done|]; by exists e|]. split; [done|]. split; [done|]. cbn.
    intros id [->|Hid]%elem_of_cons; [|done]. rewrite lookup_delete_eq. by intros [].
  - intros E. destruct (IH E) as (Hp & Hn & Hnone & Hin). split; [done|]. split; [done|]. split.
    + intros Hr. destruct (Hnone Hr) as [? Hq]. split; [done|]. intros id [->|Hid]%elem_of_cons; auto.
    + intros id [->|Hid]%elem_of_cons Hs; [|auto]. exfalso.
      destruct Hs as [e He]. by rewrite (popped_queued _ _ _ _ _ Hp He) in Hi.
Qed.

Lemma pop_normal_spec ids q r q' :
  (forall id e, wq_queued q !! id = Some e -> en_lane e = Normal) ->
  pop_normal ids q = (r, q') ->
  popped q r q' /\ wq_high q' = wq_high q /\
  (r = None -> forall id, id ∈ ids -> wq_queued q !! id = None) /\
  (forall id, id ∈ ids -> is_Some (wq_queued q' !! id) -> id ∈ wq_normal q').
Proof.
  intros Hlane. induction ids as [|i ids IH]; cbn [pop_normal].
  { intros [= <- <-]. split; [done|]. split; [done|]. split; intros *; rewrite ?elem_of_nil; try done.
    intros _ id Hid. by apply not_elem_of_nil in Hid. }
  destruct (wq_queued q !! i) as [e|] eqn:Hi.
  - rewrite decide_False by (rewrite (Hlane _ _ Hi); done).
    intros [= <- <-]. split; [split; [done|]; by exists e|]. split; [done|]. split; [done|]. cbn.
    intros id [->|Hid]%elem_of_cons; [|done]. rewrite lookup_delete_eq. by intros [].
  - intros E. destruct (IH E) as (Hp & Hn & Hnone & Hin). split; [done|]. split; [done|]. split.
    + intros Hr id [->|Hid]%elem_of_cons; [done|]. by apply (Hnone Hr).
    + intros id [->|Hid]%elem_of_cons Hs; [|auto]. exfalso.
      destruct Hs as [e He]. by rewrite (popped_queued _ _ _ _ _ Hp He) in Hi.
Qed.

(** With every queued chunk in its lane, a pop finds one if there is one. *)
Lemma try_pop_spec q r q' :
  (forall id e, wq_queued q !! id = Some e -> in_lane q id (en_lane e)) ->
  WorkQueue_try_pop q = (r, q') ->
  popped q r q' /\ (r = None -> wq_queued q = ∅) /\
  (forall id e, wq_queued q' !! id = Some e -> in_lane q' id (en_lane e)).
Proof.
  intros Hl. unfold WorkQueue_try_pop. destruct (pop_high (wq_high q) q) as [r1 q1] eqn:E1.
  destruct (pop_high_spec _ _ _ _ E1) as (Hp1 & Hn1 & Hnone1 & Hin1).
  destruct r1 as [r1|].
  - intros [= <- <-]. split; [done|]. split; [done|]. intros id e He.
    specialize (Hl _ _ (popped_queued _ _ _ _ _ Hp1 He)).
    destruct (en_lane e); cbn in *; [by rewrite Hn1|]. apply Hin1; [done|by eexists].
  - destruct (Hnone1 eq_refl) as [Hh1 Hnone]. intros E2.
    assert (Hq1 : wq_queued q1 = wq_queued q) by (destruct Hp1 as [_ [? _]]; done).
    assert (Hi1 : wq_inflight q1 = wq_inflight q) by (destruct Hp1 as [_ [_ ?]]; done).
    assert (Hlane : forall id e, wq_queued q1 !! id = Some e -> en_lane e = Normal).
    { intros id e He. rewrite Hq1 in He. pose proof (Hl _ _ He) as Hin. destruct (en_lane e); [done|].
      cbn in Hin. rewrite (Hnone _ Hin) in He. done. }
    destruct (pop_normal_spec _ _ _ _ Hlane E2) as (Hp2 & Hh2 & Hnone2 & Hin2). rewrite Hn1 in *.
    split; [|split].
    + destruct Hp1 as [Hw1 _]. destruct Hp2 as [Hw2 Hp2]. split; [congruence|].
      destruct r as [[[id u] subs]|]; rewrite ?Hq1, ?Hi1 in Hp2; done.
    + intros ->. apply map_empty. intros id. destruct (wq_queued q !! id) as [e|] eqn:He; [|done].
      pose proof (Hl _ _ He) as Hin. rewrite Hq1 in Hlane. rewrite (Hlane _ _ He) in Hin. cbn in Hin.
      pose proof (Hnone2 eq_refl _ Hin) as Hx. by rewrite Hq1, He in Hx.
    + intros id e He. pose proof (popped_queued _ _ _ _ _ Hp2 He) as Hold.
      rewrite (Hlane _ _ Hold). cbn. apply Hin2; [|by eexists].
      rewrite Hq1 in Hold. pose proof (Hl _ _ Hold) as Hin. rewrite Hq1 in Hlane. by rewrite (Hlane _ _ Hold) in Hin.
Qed.

Lemma popped_outstanding op q r q' :
  (forall id, is_Some (wq_queued q !! id) -> wq_inflight q !! id = None) ->
  popped q r q' -> outstanding op q' = outstanding op q.
Proof.
  intros Hd [_ Hp]. unfold outstanding. destruct r as [[[id u] subs]|].
  - destruct Hp as (e & He & _ & -> & -> & ->).
    rewrite fmap_delete, subs_total_insert by (apply Hd; by eexists).
    rewrite (subs_total_delete op (en_subs <$> wq_queued q) id (en_subs e)) by (by rewrite lookup_fmap, He). lia.
  - by destruct Hp as [-> ->].
Qed.

Lemma enqueue_outstanding op id u lane sub q :
  outstanding op (WorkQueue_enqueue id u lane sub q) =
    outstanding op q + if decide (op = sub) then 1 else 0.
Proof.
  unfold WorkQueue_enqueue, outstanding. destruct (wq_inflight q !! id) as [subs|] eqn:Hi.
  - cbn. rewrite (subs_total_replace op _ _ _ (subs ++ [sub]) Hi), occurrences_app, occurrences_one. lia.
  - destruct (wq_queued q !! id) as [e|] eqn:He; cbn; rewrite fmap_insert; cbn.
    + rewrite (subs_total_replace op (en_subs <$> wq_queued q) id (en_subs e)) by (by rewrite lookup_fmap, He).
      rewrite occurrences_app, occurrences_one. lia.
    + rewrite subs_total_insert by (by rewrite lookup_fmap, He). rewrite occurrences_one. lia.
Qed.

(** Firing a list of subscribers. *)
Lemma fire_all bytes is_data subs (ops : gmap OpId Operation) op :
  match foldl (fun ops sub => alter (fire bytes is_data) sub ops) ops subs !! op, ops !! op with
  | Some o', Some o => 0 <= op_remaining o < 2 ^ 64 -> occurrences op subs <= op_remaining o ->
      (op_notified o = true -> op_remaining o = 0) ->
      op_remaining o' = op_remaining o - occurrences op subs /\
      (op_notified o' = true -> op_remaining o' = 0) /\
      (op_notified o = true \/ 0 < op_remaining o /\ op_remaining o' = 0 -> op_notified o' = true)
  | None, None => True
  | _, _ => False
  end.
Proof.
  revert ops. induction subs as [|sub subs IH]; intros ops; cbn [foldl].
  { destruct (ops !! op); [|done]. intros. change (occurrences op []) with 0. split; [lia|]. split; [done|]. intros [?|?]; [done|lia]. }
  specialize (IH (alter (fire bytes is_data) sub ops)).
  change (sub :: subs) with ([sub] ++ subs). rewrite occurrences_app, occurrences_one.
  destruct (foldl _ (alter _ _ _) _ !! op) as [o'|]; destruct (decide (op = sub)) as [->|Hne].
  - rewrite lookup_alter_eq in IH. destruct (ops !! sub) as [o|]; cbn in IH |- *; [|done].
    intros Hr Hle Hnot. pose proof (occurrences_nonneg sub subs).
    unfold as_u64 in IH. rewrite as_u_id in IH by (unfold in_u; lia).
    destruct IH as (I1 & I2 & I3); [lia|lia| |].
    { intros [?|He%Z.eqb_eq]%orb_prop; [specialize (Hnot ltac:(done)); lia|lia]. }
    split; [lia|]. split; [done|]. intros Hcase. apply I3.
    destruct (Z.eqb_spec (op_remaining o) 1) as [H1|H1]; [left; apply orb_true_r|].
    destruct Hcase as [Hn|[? ?]]; [left; by rewrite Hn|right; lia].
  - rewrite lookup_alter_ne in IH by done. destruct (ops !! op) as [o|]; [|done].
    intros. by apply IH.
  - rewrite lookup_alter_eq in IH. by destruct (ops !! sub).
  - rewrite lookup_alter_ne in IH by done. by destruct (ops !! op).
Qed.

(** ** The invariant *)

Lemma sender_ok_new : sender_ok Sender_new.
Proof. by split. Qed.

Lemma enqueue_facts id u lane sub q :
  (forall id, is_Some (wq_queued q !! id) -> wq_inflight q !! id = None) ->
  (forall id e, wq_queued q !! id = Some e -> in_lane q id (en_lane e)) ->
  let q' := WorkQueue_enqueue id u lane sub q in
  (forall id, is_Some (wq_queued q' !! id) -> wq_inflight q' !! id = None) /\
  (forall id e, wq_queued q' !! id = Some e -> in_lane q' id (en_lane e)) /\
  ((wq_queued q <> ∅ -> wq_have_work q = true) -> wq_queued q' <> ∅ -> wq_have_work q' = true).
Proof.
  intros Hd Hl. unfold WorkQueue_enqueue. destruct (wq_inflight q !! id) as [subs|] eqn:Hi.
  - cbn. split; [|done]. intros i Hs. rewrite lookup_insert_ne; [by apply Hd|].
    intros <-. rewrite (Hd _ Hs) in Hi. done.
  - destruct (wq_queued q !! id) as [e|] eqn:He.
    + cbn. split_and!.
      * intros i [->|Hs]%lookup_insert_is_Some'; [done|by apply Hd].
      * intros i e' [[<- <-]|[Hne He']]%lookup_insert_Some; cbn.
        -- pose proof (Hl _ _ He) as Hin. destruct (Lane_gt lane (en_lane e)) eqn:Hgt.
           ++ destruct lane; [by destruct (en_lane e)|]. cbn. apply elem_of_app. right. by left.
           ++ destruct (en_lane e); done.
        -- specialize (Hl _ _ He'). destruct (en_lane e'); cbn in *; [done|].
           case_match; [apply elem_of_app; by left|done].
      * intros Hw _. apply Hw. intros E. rewrite E in He. done.
    + cbn. split_and!; [| |done].
      * intros i [->|Hs]%lookup_insert_is_Some'; [done|by apply Hd].
      * intros i e' [[<- <-]|[Hne He']]%lookup_insert_Some; cbn.
        -- destruct lane; cbn; apply elem_of_app; right; by left.
        -- specialize (Hl _ _ He'). destruct (en_lane e'), lane; cbn in *; try done; apply elem_of_app; by left.
Qed.

Lemma sender_ok_step s s' : SenderStep s s' -> sender_ok s -> sender_ok s'.
Proof.
  intros Hstep [H1 H2 H3 H4 H5 H6]. destruct Hstep as [q ops left w op count Hop Hleft Hc
    |q ops left w op k id u lane Hleft Hk|q ops left r q' Hpop|q ops left q' Hpop|q ops left Hw
    |q ops left w id bytes is_data q' ops' Hfl Hdone]; cbn in *.
  - split; cbn; try done.
    + intros op' o [[<- <-]|[Hne Ho]]%lookup_insert_Some.
      * exists count. rewrite lookup_insert_eq. cbn. rewrite (H5 _ Hop). split_and!; try done; lia.
      * rewrite lookup_insert_ne by done. by apply H3.
    + intros op' k [[<- <-]|[Hne Hk]]%lookup_insert_Some; [by rewrite lookup_insert_eq; eexists|].
      rewrite lookup_insert_ne by done. by apply H4 in Hk.
    + intros op' [Ho Hne]%lookup_insert_None. by apply H5.
  - destruct (enqueue_facts id u lane op q H1 H2) as (E1 & E2 & E3). split; cbn; try done.
    + intros op' o Ho. destruct (H3 _ _ Ho) as (k' & Hk' & Hpos & Hrem & Hr & Hn).
      rewrite enqueue_outstanding. destruct (decide (op' = op)) as [->|Hne].
      * rewrite Hk' in Hleft. injection Hleft as ->. exists (k - 1). rewrite lookup_insert_eq. split_and!; try done; lia.
      * exists k'. rewrite lookup_insert_ne by done. split_and!; try done; lia.
    + intros op' k' [[<- <-]|[Hne Hk']]%lookup_insert_Some; by eapply H4.
    + intros op' Ho. rewrite enqueue_outstanding. destruct (decide (op' = op)) as [->|]; [|rewrite H5 by done; lia].
      destruct (H4 _ _ Hleft) as [o Ho']. congruence.
    + intros Hwt. apply E3. by apply H6.
  - destruct (try_pop_spec _ _ _ H2 Hpop) as (Hp & _ & Hl).
    split; cbn; try done.
    + intros i Hs. destruct Hp as [_ Hp]. destruct r as [[i' u'] subs].
      destruct Hp as (e & He & _ & _ & Hq & Hi). rewrite Hq in Hs. rewrite Hi.
      destruct (decide (i = i')) as [->|Hne]; [rewrite lookup_delete_eq in Hs; by destruct Hs|].
      rewrite lookup_insert_ne by done. apply H1. by rewrite lookup_delete_ne in Hs by done.
    + intros op' o Ho. rewrite (popped_outstanding _ _ _ _ H1 Hp). by apply H3.
    + intros op' Ho. rewrite (popped_outstanding _ _ _ _ H1 Hp). by apply H5.
  - destruct (try_pop_spec _ _ _ H2 Hpop) as (Hp & Hempty & Hl). pose proof Hp as [Hw [Hq Hi]].
    split; cbn; try done.
    + intros i Hs. rewrite Hq in Hs. rewrite Hi. by apply H1.
    + intros op' o Ho. rewrite (popped_outstanding _ _ _ _ H1 Hp). by apply H3.
    + intros op' Ho. rewrite (popped_outstanding _ _ _ _ H1 Hp). by apply H5.
    + intros _ Hne. rewrite Hq in Hne. by rewrite Hempty in Hne.
  - split; done.
  - unfold WorkQueue_mark_done in Hdone. injection Hdone as <- <-. destruct Hfl as [subs Hfl]. rewrite Hfl.
    change (default [] (Some subs)) with subs.
    assert (Hout : forall op', outstanding op' (mkWorkQueue (wq_queued q) (wq_high q) (wq_normal q)
              (delete id (wq_inflight q)) (wq_have_work q)) = outstanding op' q - occurrences op' subs).
    { intros op'. unfold outstanding. cbn. rewrite (subs_total_delete op' _ _ _ Hfl). lia. }
    assert (Hocc : forall op', occurrences op' subs <= outstanding op' q).
    { intros op'. unfold outstanding. rewrite (subs_total_delete op' _ _ _ Hfl).
      pose proof (subs_total_nonneg op' (en_subs <$> wq_queued q)).
      pose proof (subs_total_nonneg op' (delete id (wq_inflight q))). lia. }
    split; cbn [sn_queue sn_ops sn_left sn_waiting wq_queued wq_inflight wq_have_work]; try done.
    + intros i Hs. apply lookup_delete_None. right. by apply H1.
    + intros op' o Ho. pose proof (fire_all bytes is_data subs ops op') as Hf. rewrite Ho in Hf.
      destruct (ops !! op') as [o0|] eqn:Ho0; [|done].
      destruct (H3 _ _ Ho0) as (k & Hk & Hpos & Hrem & Hr & Hn). specialize (Hocc op').
      destruct Hf as (F1 & F2 & _); [done|lia|done|]. exists k. rewrite Hout. pose proof (occurrences_nonneg op' subs).
      split_and!; try done; lia.
    + intros op' k Hk. destruct (H4 _ _ Hk) as [o Ho]. pose proof (fire_all bytes is_data subs ops op') as Hf.
      rewrite Ho in Hf. destruct (foldl _ ops subs !! op'); [by eexists|done].
    + intros op' Ho. pose proof (fire_all bytes is_data subs ops op') as Hf. rewrite Ho in Hf.
      destruct (ops !! op') as [?|] eqn:Ho0; [done|]. rewrite Hout. specialize (Hocc op').
      rewrite (H5 _ Ho0) in *. pose proof (occurrences_nonneg op' subs). lia.
Qed.

Inductive SenderReach : Sender -> Prop :=
| reach_new : SenderReach Sender_new
| reach_step s s' : SenderReach s -> SenderStep s s' -> SenderReach s'.

Lemma reach_ok s : SenderReach s -> sender_ok s.
Proof. induction 1; [apply sender_ok_new|by eapply sender_ok_step]. Qed.

(** The work queue in every reachable state.  No chunk is queued while it
    is being put, so it is never put twice at once; a queued chunk is found by
    the next pop, and a dispatcher that waits while something is queued has a
    wake-up pending; an operation that enqueued all its chunks has returned from
    [await_done] exactly when none of them is queued or in flight any more. *)
Theorem queue_invariant s :
  SenderReach s ->
  let q := sn_queue s in
  (forall id, is_Some (wq_queued q !! id) -> wq_inflight q !! id = None) /\
  (wq_queued q <> ∅ -> exists r q', WorkQueue_try_pop q = (Some r, q')) /\
  (sn_waiting s = true -> wq_queued q <> ∅ -> wq_have_work q = true) /\
  (forall op o, sn_ops s !! op = Some o -> sn_left s !! op = Some 0 ->
     op_remaining o = outstanding op q /\
     (Operation_await_done o = true <-> outstanding op q = 0)).
Proof.
  intros Hr. destruct (reach_ok _ Hr) as [H1 H2 H3 H4 H5 H6]. cbv zeta. split_and!; [done| |done|].
  - intros Hne. destruct (WorkQueue_try_pop (sn_queue s)) as [[r|] q'] eqn:E; [by eexists _, _|].
    destruct (try_pop_spec _ _ _ H2 E) as (_ & Hempty & _). by destruct Hne; apply Hempty.
  - intros op o Ho Hl. destruct (H3 _ _ Ho) as (k & Hk & _ & Hrem & Hr' & Hn). rewrite Hl in Hk.
    injection Hk as <-. split; [lia|]. unfold Operation_await_done. split.
    + intros [?%Z.eqb_eq|Hnot]%orb_prop; [lia|]. specialize (Hn Hnot). lia.
    + intros Hz. apply orb_true_intro. left. apply Z.eqb_eq. lia.
Qed.

(** One operation over one chunk, from enqueue to done. *)
Definition one_chunk : Sender :=
  mkSender (WorkQueue_enqueue (IdData 0) (UnitData []) Normal 0 WorkQueue_new)
    (<[0%nat := Operation_new 1]> ∅) (<[0%nat := 0]> (<[0%nat := 1]> ∅)) false.
Lemma one_chunk_reach : SenderReach one_chunk.
Proof.
  eapply reach_step; [eapply reach_step; [apply reach_new|]|].
  - apply (StepNewOp _ _ _ _ 0%nat 1); [done|done|lia].
  - apply (StepEnqueue _ _ _ _ 0%nat 1 (IdData 0) (UnitData []) Normal); [done|lia].
Defined.
Lemma queue_invariant_witness :
  (exists r q', WorkQueue_try_pop (sn_queue one_chunk) = (Some r, q')) /\ outstanding 0 (sn_queue one_chunk) = 1.
Proof.
  destruct (queue_invariant one_chunk one_chunk_reach) as (_ & Hpop & _ & Hop).
  split.
  - apply Hpop. intros E. apply (f_equal (lookup (IdData 0))) in E. discriminate E.
  - destruct (Hop 0%nat (Operation_new 1)) as [Hr _]; [reflexivity|reflexivity|]. rewrite <- Hr. reflexivity.
Defined.

(** ** Permits *)

(** What happens to the concurrency state. *)
Inductive ConcEvent :=
| CAcquire
| CRelease
| CRecord (degraded : bool) (now : Z)
| CKick (stall interval now : Z).

Definition conc_step (e : ConcEvent) (s : ConcurrencyState) : ConcurrencyState :=
  match e with
  | CAcquire => match acquire_turn s with Some (_, s') => s' | None => s end
  | CRelease => if 0 <? cs_held s then release s else s
  | CRecord degraded now => ConcurrencyState_record degraded now s
  | CKick stall interval now => (kick_if_stalled stall interval now s).2
  end.

Record conc_ok (s : ConcurrencyState) : Prop := {
  co_permits : cs_available s + cs_held s - cs_forget_pending s = cs_target s;
  co_nonneg : 0 <= cs_available s /\ 0 <= cs_held s /\ 0 <= cs_forget_pending s;
  co_target : cs_target s = ai_current (cs_aimd s) /\ 1 <= cs_target s;
  co_cap : forall cap, ai_max_cap (cs_aimd s) = Some cap -> 1 <= cap;
  co_initial : 1 <= ai_initial (cs_aimd s)
}.

(** A decision sets the controller's current value and returns it. *)
Definition decides (c : AimdController) (r : option Z * AimdController) : Prop :=
  ai_initial r.2 = ai_initial c /\ ai_max_cap r.2 = ai_max_cap c /\
  match r.1 with
  | Some t => t = ai_current r.2 /\ 1 <= t
  | None => ai_current r.2 = ai_current c
  end.

Lemma shrink_decides c c0 :
  ai_initial c = ai_initial c0 -> ai_max_cap c = ai_max_cap c0 -> ai_current c = ai_current c0 ->
  decides c0 (shrink_unless_cooling c).
Proof.
  intros H1 H2 H3. unfold shrink_unless_cooling. destruct (ai_shrink_cooldown c); [done|].
  unfold shrink_step. split_and!; [done|done|]. cbn [fst snd ai_current]. lia.
Qed.

Lemma record_decides degraded c :
  1 <= ai_current c -> (forall cap, ai_max_cap c = Some cap -> 1 <= cap) ->
  decides c (AimdController_record degraded c).
Proof.
  intros Hc Hcap. unfold AimdController_record. cbv zeta.
  case_match; [by apply shrink_decides|]. case_match; [|done].
  case_match; [by apply shrink_decides|]. case_match; [|done].
  unfold grow_step. split_and!; [done|done|]. cbn. split; [done|].
  destruct (ai_max_cap c) as [cap|]; [specialize (Hcap cap eq_refl)|]; lia.
Qed.

Lemma kick_decides c : decides c (kick_stall c).
Proof.
  unfold kick_stall. cbv zeta. case_match; [done|]. split_and!; [done|done|]. cbn. lia.
Qed.

Lemma apply_target_ok t s :
  cs_available s + cs_held s - cs_forget_pending s = cs_target s ->
  0 <= cs_available s /\ 0 <= cs_held s /\ 0 <= cs_forget_pending s ->
  t = ai_current (cs_aimd s) -> 1 <= t ->
  (forall cap, ai_max_cap (cs_aimd s) = Some cap -> 1 <= cap) -> 1 <= ai_initial (cs_aimd s) ->
  conc_ok (apply_target t s).
Proof.
  intros H1 H2 H3 H4 H5 H6. unfold apply_target.
  destruct (Z.compare_spec t (cs_target s)); split; cbn; (done || lia || (split; lia)).
Qed.

Lemma conc_ok_step e s : conc_ok s -> conc_ok (conc_step e s).
Proof.
  intros [H1 H2 [H3 H3'] H4 H5]. destruct e as [| |degraded now|stall interval now]; cbn [conc_step].
  - unfold acquire_turn. destruct (Z.leb_spec (cs_available s) 0); [by split|].
    destruct (Z.ltb_spec 0 (cs_forget_pending s)); split; cbn; (done || lia).
  - destruct (Z.ltb_spec 0 (cs_held s)); split; cbn; (done || lia).
  - unfold ConcurrencyState_record.
    pose proof (record_decides degraded (cs_aimd s) ltac:(lia) H4) as (D1 & D2 & D3).
    destruct (AimdController_record degraded (cs_aimd s)) as [[t|] c]; cbn in D1, D2, D3.
    + apply apply_target_ok; cbn; rewrite ?D1, ?D2; (done || lia || tauto).
    + split; cbn; rewrite ?D1, ?D2; (done || lia).
  - unfold kick_if_stalled. case_match; [by split|]. case_match; [by split|].
    pose proof (kick_decides (cs_aimd s)) as (D1 & D2 & D3).
    destruct (kick_stall (cs_aimd s)) as [[t|] c]; cbn in D1, D2, D3; cbn [snd].
    + apply apply_target_ok; cbn; rewrite ?D1, ?D2; (done || lia || tauto).
    + split; cbn; rewrite ?D1, ?D2; (done || lia).
Qed.

(** Over every sequence of acquisitions, releases, put results and stall
    kicks, the permits in circulation are the controller's target plus those
    still to be forgotten, the target is the controller's current value and at
    least one; so at most target plus pending puts run, and once the pending ones
    are forgotten at most target. *)
Theorem permits_follow_target initial max_cap now evs :
  1 <= initial -> (forall cap, max_cap = Some cap -> 1 <= cap) ->
  let s := foldl (fun s e => conc_step e s) (ConcurrencyState_new initial max_cap now) evs in
  cs_available s + cs_held s = cs_target s + cs_forget_pending s /\
  cs_held s <= cs_target s + cs_forget_pending s /\
  cs_target s = ai_current (cs_aimd s) /\ 1 <= cs_target s.
Proof.
  intros Hi Hcap s. assert (Hok : conc_ok s).
  { unfold s. assert (H0 : conc_ok (ConcurrencyState_new initial max_cap now)).
    { split; cbn; (done || lia || (split; lia)). }
    revert H0. generalize (ConcurrencyState_new initial max_cap now). induction evs as [|e evs IH]; intros s0 H0; [done|].
    cbn. by apply IH, conc_ok_step. }
  destruct Hok as [H1 H2 [H3 H3'] _ _]. lia.
Qed.

Lemma permits_follow_target_witness :
  let s := foldl (fun s e => conc_step e s) (ConcurrencyState_new 128 (Some 4) 0)
             (CAcquire :: replicate 10 (CRecord true 1)) in
  cs_target s = 96 /\ cs_held s <= cs_target s + cs_forget_pending s.
Proof.
  destruct (permits_follow_target 128 (Some 4) 0 (CAcquire :: replicate 10 (CRecord true 1))) as (_ & Hh & _ & _).
  - lia.
  - intros cap [= <-]. lia.
  - split; [vm_compute; reflexivity|exact Hh].
Defined.

(** ** Repeated need lists *)

(** A need list that was served once is not served again while the
    receiver's missing set is the same: after a poll that answered a peer's
    list, the list the receiver encodes for any later state with the same
    missing positions, under any sequence number, gets no answer, although the
    chunks may never have arrived. *)
Theorem repeated_need_ignored hash_bytes tree states states' seq seq' entry r entry' :
  missing_positions states' = missing_positions states ->
  let value := encode_need_list (coalesce_missing_ranges (missing_positions states)) in
  let value' := encode_need_list (coalesce_missing_ranges (missing_positions states')) in
  watch_peer hash_bytes tree (Some (value, seq)) entry = (Some r, entry') ->
  (watch_peer hash_bytes tree (Some (value', seq')) entry').1 = None.
Proof.
  intros Hm value value' Hw. unfold value', value in *. rewrite Hm. revert Hw. unfold watch_peer.
  destruct (ps_completed entry); [done|]. case_decide; [done|].
  destruct (decode_need_list _) as [[|e es]|?|]; try done. intros [= _ <-]. cbn.
  by rewrite decide_True.
Qed.

Lemma repeated_need_ignored_witness :
  exists r entry', watch_peer (fun v => v) sample_tree
      (Some (encode_need_list (coalesce_missing_ranges (missing_positions [Done; Failed []])), 1))
      PeerState_default = (Some r, entry') /\
    (watch_peer (fun v => v) sample_tree
      (Some (encode_need_list (coalesce_missing_ranges (missing_positions [InFlight []; Failed []])), 9))
      entry').1 = None.
Proof.
  eexists _, _. split; [vm_compute; reflexivity|].
  eapply (repeated_need_ignored (fun v => v) sample_tree [Done; Failed []] [InFlight []; Failed []] 1 9
    PeerState_default); [reflexivity|]. vm_compute. reflexivity.
Defined.
