(* ===== verification/DeadDropV1.v ===== *)
(** * DeadDropV1: the first version of the dead drop, a chain of records

    [deaddrop/v1.rs]: splitting a file into a chain of signed records, each
    holding the key of the next, and walking the chain; the controller of
    [deaddrop/mod.rs].  Fetching a record is a parameter of the walk. *)

From S2P Require Import Prelude RustStd RustFloat Chunks Codec Crypto ToyCrypto.

#[local] Open Scope Z_scope.

Definition MAX_PAYLOAD : Z := 1000.
Definition MAX_CHUNKS : Z := 65535.
Definition ROOT_HEADER_SIZE : Z := 39.
Definition NON_ROOT_HEADER_SIZE : Z := 33.
Definition ROOT_PAYLOAD_MAX : Z := MAX_PAYLOAD - ROOT_HEADER_SIZE.
Definition NON_ROOT_PAYLOAD_MAX : Z := MAX_PAYLOAD - NON_ROOT_HEADER_SIZE.
Definition V1_VERSION : Z := 1.

Definition encode_root_chunk (total_chunks crc : Z) (next_pk payload : list Z) : list Z :=
  [V1_VERSION] ++ to_le 2 total_chunks ++ to_le 4 crc ++ next_pk ++ payload.

Definition encode_non_root_chunk (next_pk payload : list Z) : list Z :=
  [V1_VERSION] ++ next_pk ++ payload.

Definition compute_chunk_count (data_len : Z) : Z :=
  if data_len <=? ROOT_PAYLOAD_MAX then 1
  else 1 + (data_len - ROOT_PAYLOAD_MAX + NON_ROOT_PAYLOAD_MAX - 1) / NON_ROOT_PAYLOAD_MAX.

Record ChunkData := mkChunkData { cd_keypair : KeyPair; cd_encoded : list Z }.

Definition zero_key : list Z := replicate 32 0.

Section Split.
Context `{CryptoPrims}.

Definition derive_chunk_keypair (root_seed : list Z) (chunk_index : Z) : KeyPair :=
  KeyPair_from_seed (hash (root_seed ++ to_le 2 chunk_index)).

(** [keypairs[i]]: the root key, then the derived ones. *)
Definition chunk_keypair (root_seed : list Z) (i : nat) : KeyPair :=
  match i with O => KeyPair_from_seed root_seed | _ => derive_chunk_keypair root_seed (Z.of_nat i) end.

Definition next_key (root_seed : list Z) (total i : nat) : list Z :=
  if (S i <? total)%nat then kp_public_key (chunk_keypair root_seed (S i)) else zero_key.

(** The loop over the chunks after the root, [count] of them from number [i]. *)
Fixpoint split_rest (data root_seed : list Z) (total count i offset : nat) : list ChunkData :=
  match count with
  | O => []
  | S count =>
      let payload_len := Nat.min (length data - offset) (Z.to_nat NON_ROOT_PAYLOAD_MAX) in
      let payload := take payload_len (drop offset data) in
      mkChunkData (chunk_keypair root_seed i)
        (encode_non_root_chunk (next_key root_seed total i) payload) ::
      split_rest data root_seed total count (S i) (offset + payload_len)
  end.

Definition split_into_chunks (data : list Z) (total : nat) (crc : Z) (root_seed : list Z)
    : list ChunkData :=
  let root_payload_len := Nat.min (length data) (Z.to_nat ROOT_PAYLOAD_MAX) in
  mkChunkData (chunk_keypair root_seed 0)
    (encode_root_chunk (Z.of_nat total) crc (next_key root_seed total 0) (take root_payload_len data)) ::
  split_rest data root_seed total (total - 1) 1 root_payload_len.
End Split.

(** ** Walking the chain *)

Inductive V1Error :=
| RootTooSmall
| InvalidChunkCount (n : Z)
| ChainEndedPrematurely (i : nat)
| LoopDetected
| ChunkNotFound (i : nat)
| ChunkBadVersion (i : nat)
| ChunkTooSmall (i : nat)
| ChainNotTerminated
| CrcMismatch (expected got : Z).

Definition byte_at (bs : list Z) (i : nat) : Z := nth i bs 0.

(** The loop [for i in 1..total_chunks], with the indices still to do; returns
    the last [next_pk] and the payload so far. *)
Fixpoint walk (fetch : list Z -> option (list Z)) (total : nat) (is_ : list nat) (next_pk : list Z)
    (seen : gset (list Z)) (payload : list Z) : outcome V1Error (list Z * list Z) :=
  match is_ with
  | [] => Ok (next_pk, payload)
  | i :: is_ =>
      if decide (next_pk = zero_key) then
        if decide (i = (total - 1)%nat) then Ok (next_pk, payload)
        else Err (ChainEndedPrematurely i)
      else if decide (next_pk ∈ seen) then Err LoopDetected
      else match fetch next_pk with
      | None => Err (ChunkNotFound (S i))
      | Some chunk_data =>
          if (len chunk_data =? 0) || negb (byte_at chunk_data 0 =? V1_VERSION) then
            Err (ChunkBadVersion (S i))
          else if len chunk_data <? NON_ROOT_HEADER_SIZE then Err (ChunkTooSmall (S i))
          else walk fetch total is_ (slice chunk_data 1 33) ({[next_pk]} ∪ seen)
                 (payload ++ drop 33 chunk_data)
      end
  end.

(** [get_from_root] up to the output: the reassembled payload. *)
Definition get_chain (crc : list Z -> Z) (fetch : list Z -> option (list Z))
    (root_data root_pk : list Z) : outcome V1Error (list Z) :=
  if len root_data <? ROOT_HEADER_SIZE then Err RootTooSmall
  else
    let total_chunks := Z.to_nat (from_le (slice root_data 1 3)) in
    let stored_crc := from_le (slice root_data 3 7) in
    let next_pk := slice root_data 7 39 in
    let root_payload := drop 39 root_data in
    if (total_chunks =? 0)%nat || (MAX_CHUNKS <? Z.of_nat total_chunks) then
      Err (InvalidChunkCount (Z.of_nat total_chunks))
    else
      match walk fetch total_chunks (seq 1 (total_chunks - 1)) next_pk {[root_pk]} root_payload with
      | Ok (next_pk, payload_data) =>
          if (1 <? total_chunks)%nat && negb (bool_decide (next_pk = zero_key)) then Err ChainNotTerminated
          else
            let computed_crc := crc payload_data in
            if negb (computed_crc =? stored_crc) then Err (CrcMismatch stored_crc computed_crc)
            else Ok payload_data
      | Err e => Err e
      | Panic => Panic
      end.

(** ** The controller of [mod.rs] *)

Record AimdV1 := mkAimdV1 {
  a1_current : Z;
  a1_max_cap : option Z;
  a1_window_size : Z;
  a1_degraded_in_window : Z;
  a1_total_in_window : Z
}.
Definition AimdV1_new (initial : Z) (max_cap : option Z) : AimdV1 := mkAimdV1 initial max_cap 10 0 0.
Definition AimdV1_record (degraded : bool) (c : AimdV1) : option Z * AimdV1 :=
  let degraded_in_window := if degraded then a1_degraded_in_window c + 1 else a1_degraded_in_window c in
  let total_in_window := a1_total_in_window c + 1 in
  if as_u32 (a1_window_size c) <=? total_in_window then
    let ratio := f64_div (f64_of_Z degraded_in_window) (f64_of_Z total_in_window) in
    let current :=
      if f64_ltb (f64_lit 3 10) ratio then Z.max (a1_current c / 2) 1
      else if f64_eqb ratio (f64_of_Z 0) then
        match a1_max_cap c with Some cap => Z.min (a1_current c + 1) cap | None => a1_current c + 1 end
      else a1_current c in
    (Some current, mkAimdV1 current (a1_max_cap c) (a1_window_size c) 0 0)
  else
    (None, mkAimdV1 (a1_current c) (a1_max_cap c) (a1_window_size c) degraded_in_window total_in_window).

(** ** The chain delivers the file *)

Section Chain.
Context `{CryptoPrims} `{!CryptoLaws _}.
Context (crc : list Z -> Z) (data root_seed : list Z) (fetch : list Z -> option (list Z)).

#[local] Abbreviation total := (Z.to_nat (compute_chunk_count (len data))).
#[local] Abbreviation chunks_of := (split_into_chunks data total (crc data) root_seed).

(** The sender's records are what the walk fetches. *)
Definition chain_published : Prop :=
  forall i c, chunks_of !! i = Some c -> fetch (kp_public_key (cd_keypair c)) = Some (cd_encoded c).

(** The keys of the chain: distinct, and none of them the end mark. *)
Definition chain_keys : list (list Z) :=
  (fun i => kp_public_key (chunk_keypair root_seed i)) <$> seq 0 total.

Lemma chunk_key_ok i : fixed_ok 32 (kp_public_key (chunk_keypair root_seed i)).
Proof. destruct i; apply ed25519_public_ok. Qed.

Lemma next_key_ok t i : fixed_ok 32 (next_key root_seed t i).
Proof. unfold next_key. case_match; [apply chunk_key_ok|split; [by repeat constructor|done]]. Qed.

Lemma length_next_key t i : length (next_key root_seed t i) = 32%nat.
Proof. pose proof (proj2 (next_key_ok t i)) as Hl. unfold len in Hl. lia. Qed.

Lemma total_pos : (1 <= total)%nat.
Proof.
  unfold compute_chunk_count. case_match eqn:E; [lia|]. apply Z.leb_gt in E.
  pose proof (Z.div_pos (len data - ROOT_PAYLOAD_MAX + NON_ROOT_PAYLOAD_MAX - 1) NON_ROOT_PAYLOAD_MAX) as Hp.
  change ROOT_PAYLOAD_MAX with 961 in *. change NON_ROOT_PAYLOAD_MAX with 967 in *. lia.
Qed.

Lemma total_covers :
  (length data <= 961 + 967 * (total - 1))%nat /\ (total = 1%nat \/ (961 + 967 * (total - 2) < length data)%nat).
Proof.
  pose proof total_pos as Hp. unfold compute_chunk_count in *.
  change ROOT_PAYLOAD_MAX with 961 in *. change NON_ROOT_PAYLOAD_MAX with 967 in *.
  unfold len in *. destruct (Z.leb_spec (Z.of_nat (length data)) 961); [lia|].
  set (k := (Z.of_nat (length data) - 961 + 967 - 1) / 967) in *.
  assert (967 * k <= Z.of_nat (length data) - 961 + 967 - 1 < 967 * k + 967) by (unfold k; zdm).
  split; [lia|]. right. lia.
Qed.

Lemma split_rest_lookup count i offset k c :
  split_rest data root_seed total count i offset !! k = Some c ->
  exists payload, c = mkChunkData (chunk_keypair root_seed (i + k))
    (encode_non_root_chunk (next_key root_seed total (i + k)) payload).
Proof.
  revert i offset k. induction count as [|count IH]; intros i offset k; cbn [split_rest]; [done|].
  destruct k as [|k]; cbn; [intros [= <-]; rewrite Nat.add_0_r; by eexists|].
  intros Hk%IH. by replace (i + S k)%nat with (S i + k)%nat by lia.
Qed.

Lemma decode_chain_chunk next payload :
  length next = 32%nat ->
  let bs := encode_non_root_chunk next payload in
  ((len bs =? 0) || negb (byte_at bs 0 =? V1_VERSION)) = false /\ (len bs <? NON_ROOT_HEADER_SIZE) = false /\
  slice bs 1 33 = next /\ drop 33 bs = payload.
Proof.
  intros Hn bs. unfold bs, encode_non_root_chunk, NON_ROOT_HEADER_SIZE. lens.
  assert (Hl : len next = 32) by (unfold len; lia). pose proof (len_nonneg payload).
  split_and!.
  - rewrite (proj2 (Z.eqb_neq _ _)) by lia. done.
  - apply Z.ltb_ge. lia.
  - apply slice_mid; lens; lia.
  - rewrite app_assoc. apply drop_app_length'. rewrite length_app, Hn. done.
Qed.

(** From chunk [i] on, with the payload of the chunks before it. *)
Lemma walk_chain count i offset seen payload :
  (i + count = total)%nat -> (1 <= i)%nat -> (offset <= length data)%nat ->
  (length data - offset <= 967 * count)%nat ->
  (forall k c, split_rest data root_seed total count i offset !! k = Some c ->
     fetch (kp_public_key (cd_keypair c)) = Some (cd_encoded c)) ->
  NoDup chain_keys -> zero_key ∉ chain_keys ->
  (forall k, k ∈ seen -> exists j, (j < i)%nat /\ k = kp_public_key (chunk_keypair root_seed j)) ->
  walk fetch total (seq i count) (next_key root_seed total (i - 1)) seen payload =
    Ok (zero_key, payload ++ drop offset data).
Proof.
  revert i offset seen payload. induction count as [|count IH]; intros i offset seen payload Hi H1 Hoff Hlen Hpub Hnd Hz Hseen.
  { cbn. unfold next_key. rewrite (proj2 (Nat.ltb_ge _ _)) by lia.
    rewrite (drop_ge data offset) by lia. by rewrite app_nil_r. }
  cbn [seq walk].
  assert (Hkey : next_key root_seed total (i - 1) = kp_public_key (chunk_keypair root_seed i)).
  { unfold next_key. replace (S (i - 1)) with i by lia. by rewrite (proj2 (Nat.ltb_lt _ _)) by lia. }
  rewrite Hkey.
  assert (Hin : forall j, (j < total)%nat -> chain_keys !! j = Some (kp_public_key (chunk_keypair root_seed j))).
  { intros j Hj. unfold chain_keys. rewrite list_lookup_fmap, lookup_seq_lt by done. done. }
  rewrite decide_False. 2: { intros E. apply Hz. rewrite <- E. eapply list_elem_of_lookup_2, Hin. lia. }
  rewrite decide_False.
  2: { intros (j & Hj & E)%Hseen. assert (i = j); [|lia].
       apply (NoDup_lookup chain_keys i j (kp_public_key (chunk_keypair root_seed i))); [done|apply Hin; lia|].
       rewrite E. apply Hin. lia. }
  pose proof (Hpub 0%nat _ eq_refl) as Hfetch. cbn [cd_keypair cd_encoded] in Hfetch. rewrite Hfetch.
  destruct (decode_chain_chunk (next_key root_seed total i)
    (take (Nat.min (length data - offset) (Z.to_nat NON_ROOT_PAYLOAD_MAX)) (drop offset data))) as (E1 & E2 & E3 & E4);
    [apply length_next_key|].
  rewrite E1, E2, E3, E4. change (Z.to_nat NON_ROOT_PAYLOAD_MAX) with 967%nat in *.
  set (pl := Nat.min (length data - offset) 967) in *.
  replace i with (S i - 1)%nat at 2 by lia.
  rewrite (IH (S i) (offset + pl)%nat); [|lia|lia|lia|lia| |done|done|].
  - rewrite <- app_assoc. do 3 f_equal. rewrite <- drop_drop. apply take_drop.
  - intros k c Hc. apply (Hpub (S k)). exact Hc.
  - intros k [->%elem_of_singleton|(j & Hj & E)%Hseen]%elem_of_union; [exists i; split; [lia|done]|].
    exists j. split; [lia|done].
Qed.

Lemma get_chain_root next payload :
  length next = 32%nat -> in_u 32 (crc data) -> Z.of_nat total <= MAX_CHUNKS ->
  let bs := encode_root_chunk (Z.of_nat total) (crc data) next payload in
  (len bs <? ROOT_HEADER_SIZE) = false /\ from_le (slice bs 1 3) = Z.of_nat total /\
  from_le (slice bs 3 7) = crc data /\ slice bs 7 39 = next /\ drop 39 bs = payload.
Proof.
  intros Hn Hc Ht bs. unfold bs, encode_root_chunk, ROOT_HEADER_SIZE. lens. unfold MAX_CHUNKS in Ht.
  assert (Hl : len next = 32) by (unfold len; lia). pose proof (len_nonneg payload).
  split_and!.
  - apply Z.ltb_ge. lia.
  - rewrite slice_mid by (lens; lia). apply from_le_to_le_id. unfold in_u. change (8 * Z.of_nat 2) with 16. lia.
  - rewrite (app_assoc [V1_VERSION]), slice_mid by (lens; lia). by apply from_le_to_le_id.
  - rewrite (app_assoc [V1_VERSION]), app_assoc, slice_mid by (lens; lia). done.
  - rewrite !app_assoc. apply drop_app_length'. rewrite !length_app, !length_to_le, Hn. done.
Qed.

(** A version 1 drop delivers.  When the chunks [split_into_chunks] makes
    are published under their keys, and the keys are distinct and none is the
    all-zero end mark, walking the chain from the root record returns exactly
    the data, for every size up to the maximum number of chunks. *)
Theorem chain_delivers root :
  in_u 32 (crc data) -> compute_chunk_count (len data) <= MAX_CHUNKS ->
  chain_published -> NoDup chain_keys -> zero_key ∉ chain_keys ->
  head chunks_of = Some root ->
  get_chain crc fetch (cd_encoded root) (kp_public_key (cd_keypair root)) = Ok data.
Proof.
  intros Hc Ht Hpub Hnd Hz Hroot. unfold split_into_chunks in Hroot. cbn [head] in Hroot. injection Hroot as <-.
  pose proof total_pos as Hp. destruct total_covers as [Hcov _].
  change (Z.to_nat ROOT_PAYLOAD_MAX) with 961%nat. cbn [cd_encoded cd_keypair].
  destruct (get_chain_root (next_key root_seed total 0) (take (Nat.min (length data) 961) data)) as (E1 & E2 & E3 & E4 & E5);
    [apply length_next_key|done|lia|].
  unfold get_chain. rewrite E1, E2, E3, E4, E5, Nat2Z.id.
  rewrite (proj2 (Nat.eqb_neq _ _)) by lia. rewrite (proj2 (Z.ltb_ge _ _)) by lia. cbn [orb].
  rewrite (walk_chain (total - 1) 1 (Nat.min (length data) 961)); [|lia|lia|lia|lia| |done|done|].
  - rewrite bool_decide_eq_true_2 by done. rewrite andb_false_r. rewrite take_drop.
    by rewrite Z.eqb_refl.
  - intros k c Hk. apply (Hpub (S k)). exact Hk.
  - intros k ->%elem_of_singleton. exists 0%nat. split; [lia|done].
Qed.
End Chain.

(** Two chunks, fetched from the list of published records. *)
Definition v1_data : list Z := replicate 961 5 ++ [1; 2; 3].
Definition v1_crc (bs : list Z) : Z := len bs.
Definition v1_seed : list Z := replicate 32 9.
Definition v1_chunks : list ChunkData :=
  split_into_chunks (H := tail_crypto) v1_data 2 (v1_crc v1_data) v1_seed.
Definition v1_fetch (pk : list Z) : option (list Z) :=
  cd_encoded <$> List.find (fun c => bool_decide (kp_public_key (cd_keypair c) = pk)) v1_chunks.
Definition v1_root : ChunkData := nth 0 v1_chunks (mkChunkData (mkKeyPair [] []) []).

Lemma chain_delivers_witness :
  get_chain v1_crc v1_fetch (cd_encoded v1_root) (kp_public_key (cd_keypair v1_root)) = Ok v1_data.
Proof.
  apply (chain_delivers (H := tail_crypto) v1_crc v1_data v1_seed v1_fetch v1_root).
  - apply (bool_decide_unpack _). vm_compute. exact I.
  - vm_compute. discriminate.
  - intros [|[|i]] c Hc; [..|discriminate Hc]; injection Hc as <-; vm_compute; reflexivity.
  - apply (bool_decide_unpack _). vm_compute. exact I.
  - apply (bool_decide_unpack _). vm_compute. exact I.
  - reflexivity.
Defined.
