(* ===== verification/Persistent.v ===== *)
(** * Persistent: record storage, from [peeroxide-dht/src/persistent.rs]

    The record and LRU caches and the request handlers of a storage node.
    [HashMap]s keyed by hex strings are [gmap]s; the order in which one is
    iterated, which decides ties between equally old entries, is the class
    [MapIter].  An [Instant] is a number of nanoseconds; every read of the
    clock is an argument. *)

From S2P Require Import Prelude RustStd CompactEncoding Codec Messages.
From S2P Require Import HyperdhtMessages HyperdhtWire HyperdhtTheorems Crypto.
From Stdlib Require Import Ascii.

#[local] Open Scope Z_scope.

(** [HashMap::iter]: every entry once, in some order. *)
Class MapIter : Type := {
  map_iter {V : Type} : gmap string V -> list (string * V);
  map_iter_perm {V : Type} (m : gmap string V) : map_iter m ≡ₚ map_to_list m
}.

(** ** Standard-library helpers *)

(** [Iterator::min_by_key]: the first of the least elements. *)
Fixpoint min_by_key {A} (key : A -> Z) (l : list A) : option A :=
  match l with
  | [] => None
  | a :: l =>
      match min_by_key key l with
      | Some b => if key a <=? key b then Some a else Some b
      | None => Some a
      end
  end.
(** [iter().enumerate()] *)
Fixpoint enumerate_from {A} (i : nat) (l : list A) : list (nat * A) :=
  match l with [] => [] | a :: l => (i, a) :: enumerate_from (S i) l end.
(** [usize::saturating_sub] *)
Definition saturating_sub (a b : Z) : Z := Z.max 0 (a - b).
(** [Vec::remove] at an index known to be in range. *)
Definition vec_remove {A} (i : nat) (l : list A) : list A := take i l ++ drop (S i) l.
(** [now.duration_since(t)] saturates at zero. *)
Definition duration_since (now t : Z) : Z := Z.max 0 (now - t).

Definition hex_digit (d : Z) : ascii :=
  RustStd.ascii_of_byte (if d <? 10 then 48 + d else 87 + d).
(** [write!(s, "{b:02x}")] *)
Definition hex_byte (b : Z) : string :=
  String (hex_digit (b / 16)) (String (hex_digit (b mod 16)) EmptyString).
Definition to_hex (bytes : list Z) : string :=
  foldl (fun s b => (s +:+ hex_byte b)) EmptyString bytes.

Definition SEQ_REUSED : Z := 16.
Definition SEQ_TOO_LOW : Z := 17.
Definition MAX_RECORDS_PER_LOOKUP : nat := 20.
Definition MAX_RELAY_ADDRESSES : nat := 3.

Record PersistentConfig : Type := mkConfig {
  cfg_max_records : Z;
  cfg_max_record_age : Z;
  cfg_max_per_key : Z;
  cfg_max_lru_size : Z;
  cfg_max_lru_age : Z
}.
(** Twenty minutes, in nanoseconds. *)
Definition PersistentConfig_default : PersistentConfig :=
  let age := 20 * 60 * 1000000000 in mkConfig 65536 age 20 65536 age.

(** ** Requests and replies *)

Record IncomingHyperRequest : Type := mkIncoming {
  in_command : Z;
  in_target : option (list Z);
  in_token : option (list Z);
  in_value : option (list Z);
  in_from : Ipv4Peer;
  in_id : option (list Z)
}.

Inductive HandlerReply : Type :=
| RValue (v : option (list Z))
| RValueNoToken (v : option (list Z))
| RError (code : Z)
| RSilent.

(** ** RecordCache *)

Record RecordEntry : Type := mkRecord {
  re_public_key : list Z;
  re_record : list Z;
  re_inserted_at : Z
}.

Record RecordCache : Type := mkRecordCache {
  rc_entries : gmap string (list RecordEntry);
  rc_max_size : Z;
  rc_max_age : Z;
  rc_max_per_key : Z;
  rc_total : Z
}.

Definition RecordCache_new (max_size max_age max_per_key : Z) : RecordCache :=
  mkRecordCache ∅ max_size max_age max_per_key 0.
Definition rc_set (es : gmap string (list RecordEntry)) (total : Z) (c : RecordCache) : RecordCache :=
  mkRecordCache es (rc_max_size c) (rc_max_age c) (rc_max_per_key c) total.

(** [b.iter_mut().find(|e| e.public_key == pk)], and the write through it. *)
Fixpoint refresh_record (pk record : list Z) (now : Z) (b : list RecordEntry)
    : option (list RecordEntry) :=
  match b with
  | [] => None
  | e :: b =>
      if bool_decide (re_public_key e = pk) then Some (mkRecord (re_public_key e) record now :: b)
      else (fun b' => e :: b') <$> refresh_record pk record now b
  end.

(** [b.iter().enumerate().min_by_key(|(_, e)| e.inserted_at).map(|(i, _)| i)] *)
Definition oldest_idx (b : list RecordEntry) : option nat :=
  fst <$> min_by_key (fun ie => re_inserted_at ie.2) (enumerate_from 0 b).

Section RecordCache.
Context `{MapIter}.

Definition oldest_key (es : gmap string (list RecordEntry)) : option string :=
  fst <$> min_by_key snd
    (omap (fun kb => (fun e => (kb.1, re_inserted_at e)) <$> min_by_key re_inserted_at kb.2)
      (map_iter es)).

Definition RecordCache_evict_oldest (c : RecordCache) : RecordCache :=
  match oldest_key (rc_entries c) with
  | None => c
  | Some k =>
      match rc_entries c !! k with
      | None => c
      | Some bucket =>
          let '(bucket', total) :=
            match oldest_idx bucket with
            | Some i => (vec_remove i bucket, saturating_sub (rc_total c) 1)
            | None => (bucket, rc_total c)
            end in
          match bucket' with
          | [] => rc_set (delete k (rc_entries c)) total c
          | _ => rc_set (<[k := bucket']> (rc_entries c)) total c
          end
      end
  end.

(** The full bucket loses its oldest record. *)
Definition evict_in_bucket (key : string) (c : RecordCache) : RecordCache :=
  let bucket_len := match rc_entries c !! key with Some b => len b | None => 0 end in
  if rc_max_per_key c <=? bucket_len then
    match rc_entries c !! key with
    | Some b =>
        match oldest_idx b with
        | Some i => rc_set (<[key := vec_remove i b]> (rc_entries c)) (saturating_sub (rc_total c) 1) c
        | None => c
        end
    | None => c
    end
  else c.

Definition RecordCache_add (now : Z) (key : string) (pk record : list Z) (c : RecordCache)
    : RecordCache :=
  match rc_entries c !! key ≫= refresh_record pk record now with
  | Some b' => rc_set (<[key := b']> (rc_entries c)) (rc_total c) c
  | None =>
      let c := evict_in_bucket key c in
      let c := if rc_max_size c <=? rc_total c then RecordCache_evict_oldest c else c in
      rc_set (<[key := default [] (rc_entries c !! key) ++ [mkRecord pk record now]]> (rc_entries c))
        (rc_total c + 1) c
  end.

Definition RecordCache_remove (key : string) (pk : list Z) (c : RecordCache) : RecordCache :=
  match rc_entries c !! key with
  | None => c
  | Some bucket =>
      let bucket' := filter (fun e => re_public_key e <> pk) bucket in
      let removed := len bucket - len bucket' in
      let total := saturating_sub (rc_total c) removed in
      match bucket' with
      | [] => rc_set (delete key (rc_entries c)) total c
      | _ => rc_set (<[key := bucket']> (rc_entries c)) total c
      end
  end.

Definition RecordCache_get (now : Z) (key : string) (max : nat) (c : RecordCache)
    : list (list Z) * RecordCache :=
  match rc_entries c !! key with
  | None => ([], c)
  | Some bucket =>
      let bucket' := filter (fun e => duration_since now (re_inserted_at e) < rc_max_age c) bucket in
      let removed := len bucket - len bucket' in
      (re_record <$> take max bucket',
       rc_set (<[key := bucket']> (rc_entries c)) (saturating_sub (rc_total c) removed) c)
  end.

Definition RecordCache_destroy (c : RecordCache) : RecordCache := rc_set ∅ 0 c.
Definition RecordCache_record_count (c : RecordCache) : Z := rc_total c.
Definition RecordCache_topic_count (c : RecordCache) : Z := Z.of_nat (size (rc_entries c)).
End RecordCache.

(** ** LruCache *)

Record CacheEntry : Type := mkCacheEntry { ce_value : list Z; ce_inserted_at : Z }.
Record LruCache : Type := mkLru {
  lc_entries : gmap string CacheEntry;
  lc_max_size : Z;
  lc_max_age : Z
}.

Definition LruCache_new (max_size max_age : Z) : LruCache := mkLru ∅ max_size max_age.
Definition lc_set (es : gmap string CacheEntry) (c : LruCache) : LruCache :=
  mkLru es (lc_max_size c) (lc_max_age c).

Definition LruCache_get (now : Z) (key : string) (c : LruCache) : option (list Z) :=
  match lc_entries c !! key with
  | None => None
  | Some e => if lc_max_age c <=? duration_since now (ce_inserted_at e) then None
              else Some (ce_value e)
  end.

Section LruCache.
Context `{MapIter}.

(** [key] is moved into the map after the eviction. *)
Definition LruCache_set (now : Z) (key : string) (value : list Z) (c : LruCache) : LruCache :=
  let c :=
    if lc_max_size c <=? Z.of_nat (size (lc_entries c)) then
      match fst <$> min_by_key (fun ke => ce_inserted_at ke.2) (map_iter (lc_entries c)) with
      | Some oldest => lc_set (delete oldest (lc_entries c)) c
      | None => c
      end
    else c in
  lc_set (<[key := mkCacheEntry value now]> (lc_entries c)) c.
End LruCache.

Definition LruCache_delete (key : string) (c : LruCache) : LruCache :=
  lc_set (delete key (lc_entries c)) c.
Definition LruCache_destroy (c : LruCache) : LruCache := lc_set ∅ c.
Definition LruCache_len (c : LruCache) : Z := Z.of_nat (size (lc_entries c)).
Definition LruCache_is_empty (c : LruCache) : bool := (size (lc_entries c) =? 0)%nat.

(** ** Persistent *)

Record RouterEntry : Type := mkRouterEntry { rt_relay : Ipv4Peer; rt_record : list Z }.

Record Persistent : Type := mkPersistent {
  p_records : RecordCache;
  p_bumps : LruCache;
  p_refreshes : LruCache;
  p_mutables : LruCache;
  p_immutables : LruCache;
  p_router : gmap string RouterEntry
}.

Record PersistentStats : Type := mkStats {
  st_records : Z;
  st_record_topics : Z;
  st_mutables : Z;
  st_immutables : Z;
  st_router_entries : Z
}.

Definition Persistent_new (cfg : PersistentConfig) : Persistent :=
  mkPersistent
    (RecordCache_new (cfg_max_records cfg) (cfg_max_record_age cfg) (cfg_max_per_key cfg))
    (LruCache_new (cfg_max_lru_size cfg) (cfg_max_lru_age cfg))
    (LruCache_new (cfg_max_lru_size cfg) (cfg_max_lru_age cfg))
    (LruCache_new (cfg_max_lru_size cfg) (cfg_max_lru_age cfg))
    (LruCache_new (cfg_max_lru_size cfg) (cfg_max_lru_age cfg))
    ∅.

Definition with_records (r : RecordCache) (p : Persistent) : Persistent :=
  mkPersistent r (p_bumps p) (p_refreshes p) (p_mutables p) (p_immutables p) (p_router p).
Definition with_bumps (b : LruCache) (p : Persistent) : Persistent :=
  mkPersistent (p_records p) b (p_refreshes p) (p_mutables p) (p_immutables p) (p_router p).
Definition with_refreshes (b : LruCache) (p : Persistent) : Persistent :=
  mkPersistent (p_records p) (p_bumps p) b (p_mutables p) (p_immutables p) (p_router p).
Definition with_mutables (b : LruCache) (p : Persistent) : Persistent :=
  mkPersistent (p_records p) (p_bumps p) (p_refreshes p) b (p_immutables p) (p_router p).
Definition with_immutables (b : LruCache) (p : Persistent) : Persistent :=
  mkPersistent (p_records p) (p_bumps p) (p_refreshes p) (p_mutables p) b (p_router p).
Definition with_router (r : gmap string RouterEntry) (p : Persistent) : Persistent :=
  mkPersistent (p_records p) (p_bumps p) (p_refreshes p) (p_mutables p) (p_immutables p) r.

(** Handlers run on [&mut self]; the only failure is a panic. *)
Abbreviation Hdl := (M Persistent Empty_set).

(** [match e { Ok(a) => .., Err(_) => .. }], a panic propagating. *)
Definition ok_or_none {A} (o : outcome EncodingError A) : Hdl (option A) := fun p =>
  match o with Ok a => (Ok (Some a), p) | Err _ => (Ok None, p) | Panic => (Panic, p) end.
Definition modify (f : Persistent -> Persistent) : Hdl unit := fun p => (Ok tt, f p).

(** [let x = match o { Some(x) => x, None => return Silent }] *)
Definition or_silent {A} (o : option A) (k : A -> Hdl HandlerReply) : Hdl HandlerReply :=
  match o with Some a => k a | None => mret RSilent end.

(** [records.filter_map(|b| decode_hyper_peer_from_bytes(&b).ok())] *)
Fixpoint decode_peers (bs : list (list Z)) : Hdl (list HyperPeer) :=
  match bs with
  | [] => mret []
  | b :: bs =>
      o ← ok_or_none (decode_hyper_peer_from_bytes b);
      rest ← decode_peers bs;
      mret (match o with Some p => p :: rest | None => rest end)
  end.

Section Handlers.
Context `{MapIter} `{CryptoPrims}.

Definition on_find_peer (req : IncomingHyperRequest) : Hdl HandlerReply :=
  or_silent (in_target req) (fun target =>
    p ← Prelude.get;
    mret (match p_router p !! to_hex target with
          | Some entry => RValue (Some (rt_record entry))
          | None => RValue None
          end)).

(** [clk 0] and [clk 1] are the two clock reads: the record cache's and the
    bump cache's. *)
Definition on_lookup (clk : nat -> Z) (req : IncomingHyperRequest) : Hdl HandlerReply :=
  or_silent (in_target req) (fun target =>
    let key := to_hex target in
    p ← Prelude.get;
    let '(raw, records) := RecordCache_get (clk 0%nat) key MAX_RECORDS_PER_LOOKUP (p_records p) in
    modify (with_records records) ;;
    peers ← decode_peers raw;
    peers ← (if (length peers <? MAX_RECORDS_PER_LOOKUP)%nat then
               match p_router p !! key with
               | Some entry =>
                   o ← ok_or_none (decode_hyper_peer_from_bytes (rt_record entry));
                   mret (match o with Some peer => peers ++ [peer] | None => peers end)
               | None => mret peers
               end
             else mret peers);
    bump ← (match LruCache_get (clk 1%nat) key (p_bumps p) with
            | Some b => default 0 <$> ok_or_none (from_bytes decode_uint b)
            | None => mret 0
            end);
    if is_empty peers && (bump =? 0) then mret (RValue None)
    else
      o ← ok_or_none (encode_lookup_raw_reply_to_bytes (mkLookup peers bump));
      mret (RValue o)).

(** The checks [on_announce] and [on_unannounce] share after the message is
    complete: the signature over target, node id, token, peer and refresh. *)
Definition ann_verified (ns target token node_id : list Z) (peer : HyperPeer)
    (peer_encoded : list Z) (refresh : option (list Z)) (signature : list Z) : bool :=
  verify_detached signature
    (ann_signable target token node_id peer_encoded (default [] refresh) ns)
    (hp_public_key peer).

(** [clk 0]: refresh lookup, [clk 1]: record, [clk 2]: bump, [clk 3]: refresh. *)
Definition on_announce (clk : nat -> Z) (node_id : list Z) (req : IncomingHyperRequest)
    : Hdl HandlerReply :=
  or_silent (in_target req) (fun target =>
  or_silent (in_token req) (fun token =>
  or_silent (in_value req) (fun value =>
    o ← ok_or_none (decode_announce_from_bytes value);
    or_silent o (fun msg =>
      p ← Prelude.get;
      peer ← (match an_peer msg, an_refresh msg with
              | None, Some refresh =>
                  match LruCache_get (clk 0%nat) (to_hex refresh) (p_refreshes p) with
                  | Some stored => ok_or_none (decode_hyper_peer_from_bytes stored)
                  | None => mret None
                  end
              | peer, _ => mret peer
              end);
      or_silent peer (fun peer =>
      or_silent (an_signature msg) (fun signature =>
        o ← ok_or_none (encode_hyper_peer_to_bytes peer);
        or_silent o (fun peer_encoded =>
          if negb (ann_verified NS_ANNOUNCE target token node_id peer peer_encoded
                     (an_refresh msg) signature)
          then mret RSilent
          else
            let stored_peer := mkHyperPeer (hp_public_key peer)
                                 (take MAX_RELAY_ADDRESSES (hp_relay_addresses peer)) in
            let target_key := to_hex target in
            o ← ok_or_none (encode_hyper_peer_to_bytes stored_peer);
            or_silent o (fun encoded =>
              (if bool_decide (hash (hp_public_key stored_peer) = target) then
                 modify (fun p => with_router
                   (<[target_key := mkRouterEntry (in_from req) encoded]> (p_router p)) p) ;;
                 modify (fun p => with_records
                   (RecordCache_remove target_key (hp_public_key stored_peer) (p_records p)) p)
               else
                 modify (fun p => with_records
                   (RecordCache_add (clk 1%nat) target_key (hp_public_key stored_peer) encoded
                      (p_records p)) p) ;;
                 if negb (an_bump msg =? 0) then
                   b ← ok_or_none (to_bytes (fun s => preencode_uint s (an_bump msg))
                                     (encode_uint (an_bump msg)));
                   modify (fun p => with_bumps
                     (LruCache_set (clk 2%nat) target_key (default [] b) (p_bumps p)) p)
                 else mret tt) ;;
              (match an_refresh msg with
               | Some refresh =>
                   o ← ok_or_none (encode_hyper_peer_to_bytes stored_peer);
                   modify (fun p => with_refreshes
                     (LruCache_set (clk 3%nat) (to_hex refresh) (default [] o) (p_refreshes p)) p)
               | None => mret tt
               end) ;;
              mret (RValueNoToken None))))))))).

Definition on_unannounce (node_id : list Z) (req : IncomingHyperRequest) : Hdl HandlerReply :=
  or_silent (in_target req) (fun target =>
  or_silent (in_token req) (fun token =>
  or_silent (in_value req) (fun value =>
    o ← ok_or_none (decode_announce_from_bytes value);
    or_silent o (fun msg =>
    or_silent (an_peer msg) (fun peer =>
    or_silent (an_signature msg) (fun signature =>
      o ← ok_or_none (encode_hyper_peer_to_bytes peer);
      or_silent o (fun peer_encoded =>
        if negb (ann_verified NS_UNANNOUNCE target token node_id peer peer_encoded
                   (an_refresh msg) signature)
        then mret RSilent
        else
          let target_key := to_hex target in
          modify (fun p => with_records
            (RecordCache_remove target_key (hp_public_key peer) (p_records p)) p) ;;
          modify (fun p => with_router (delete target_key (p_router p)) p) ;;
          mret (RValueNoToken None)))))))).

(** [clk 0]: the lookup of the existing record, [clk 1]: the insertion. *)
Definition on_mutable_put (clk : nat -> Z) (req : IncomingHyperRequest) : Hdl HandlerReply :=
  or_silent (in_target req) (fun target =>
    match in_token req with
    | None => mret RSilent
    | Some _ =>
      or_silent (in_value req) (fun value =>
        o ← ok_or_none (decode_mutable_put_request_from_bytes value);
        or_silent o (fun put =>
          if negb (bool_decide (hash (mp_public_key put) = target)) then mret RSilent
          else
            signable ← ok_or_none (mutable_signable NS_MUTABLE_PUT (mp_seq put) (mp_value put));
            if negb (verify_detached (mp_signature put) (default [] signable) (mp_public_key put))
            then mret RSilent
            else
              let target_key := to_hex target in
              p ← Prelude.get;
              existing ← (match LruCache_get (clk 0%nat) target_key (p_mutables p) with
                          | Some bytes => ok_or_none (decode_mutable_get_response_from_bytes bytes)
                          | None => mret None
                          end);
              let store :=
                o ← ok_or_none (encode_mutable_get_response_to_bytes
                      (mkMutableGet (mp_seq put) (mp_value put) (mp_signature put)));
                match o with
                | Some encoded =>
                    modify (fun p => with_mutables
                      (LruCache_set (clk 1%nat) target_key encoded (p_mutables p)) p) ;;
                    mret (RValue None)
                | None => mret RSilent
                end in
              match existing with
              | Some existing =>
                  if mg_seq existing =? mp_seq put then mret (RError SEQ_REUSED)
                  else if mp_seq put <? mg_seq existing then mret (RError SEQ_TOO_LOW)
                  else store
              | None => store
              end))
    end).

Definition on_mutable_get (now : Z) (req : IncomingHyperRequest) : Hdl HandlerReply :=
  or_silent (in_target req) (fun target =>
  or_silent (in_value req) (fun value =>
    requested ← ok_or_none (from_bytes decode_uint value);
    let requested_seq := default 0 requested in
    p ← Prelude.get;
    match LruCache_get now (to_hex target) (p_mutables p) with
    | Some stored_bytes =>
        o ← ok_or_none (decode_mutable_get_response_from_bytes stored_bytes);
        match o with
        | Some stored =>
            if requested_seq <=? mg_seq stored then mret (RValue (Some stored_bytes))
            else mret (RValue None)
        | None => mret (RValue None)
        end
    | None => mret (RValue None)
    end)).

Definition on_immutable_put (now : Z) (req : IncomingHyperRequest) : Hdl HandlerReply :=
  or_silent (in_target req) (fun target =>
    match in_token req with
    | None => mret RSilent
    | Some _ =>
      or_silent (in_value req) (fun value =>
        if negb (bool_decide (hash value = target)) then mret RSilent
        else
          modify (fun p => with_immutables
            (LruCache_set now (to_hex target) value (p_immutables p)) p) ;;
          mret (RValue None))
    end).

Definition on_immutable_get (now : Z) (req : IncomingHyperRequest) : Hdl HandlerReply :=
  or_silent (in_target req) (fun target =>
    p ← Prelude.get;
    mret (RValue (LruCache_get now (to_hex target) (p_immutables p)))).

(** The storage part of the request loop: which handler a command reaches.
    [own_id] is the table id the node announces under, if it has one; [None]
    means the request is dropped (unknown command) or handled elsewhere
    (handshake, hole punch).  The router entry an announcement leaves is added
    by [handle_request] in [Router]. *)
Definition dispatch (own_id : option (list Z)) (clk : nat -> Z) (req : IncomingHyperRequest)
    : Hdl (option HandlerReply) :=
  let cmd := in_command req in
  if cmd =? FIND_PEER then Some <$> on_find_peer req
  else if cmd =? LOOKUP then Some <$> on_lookup clk req
  else if cmd =? ANNOUNCE then
    match own_id with
    | Some nid => Some <$> on_announce clk nid req
    | None => mret (Some RSilent)
    end
  else if cmd =? UNANNOUNCE then
    match own_id with
    | Some nid => Some <$> on_unannounce nid req
    | None => mret (Some RSilent)
    end
  else if cmd =? MUTABLE_PUT then Some <$> on_mutable_put clk req
  else if cmd =? MUTABLE_GET then Some <$> on_mutable_get (clk 0%nat) req
  else if cmd =? IMMUTABLE_PUT then Some <$> on_immutable_put (clk 0%nat) req
  else if cmd =? IMMUTABLE_GET then Some <$> on_immutable_get (clk 0%nat) req
  else mret None.
End Handlers.

Definition Persistent_stats (p : Persistent) : PersistentStats :=
  mkStats (RecordCache_record_count (p_records p)) (RecordCache_topic_count (p_records p))
    (LruCache_len (p_mutables p)) (LruCache_len (p_immutables p))
    (Z.of_nat (size (p_router p))).

Definition Persistent_destroy (p : Persistent) : Persistent :=
  mkPersistent (RecordCache_destroy (p_records p)) (LruCache_destroy (p_bumps p))
    (LruCache_destroy (p_refreshes p)) (LruCache_destroy (p_mutables p))
    (LruCache_destroy (p_immutables p)) ∅.
