(* ===== verification/PersistentProofs.v ===== *)
(** * PersistentProofs: the caches and the stored data

    Hex keys, eviction of the oldest entry, the size bounds of both caches,
    and invariants over everything a cache holds. *)

From S2P Require Import Prelude RustStd CompactEncoding Codec Messages.
From S2P Require Import HyperdhtMessages HyperdhtWire HyperdhtTheorems Crypto.
From S2P Require Import Persistent.
From Stdlib Require Import Ascii.

#[local] Open Scope Z_scope.

(** ** Hex keys *)

Definition unhex_digit (c : ascii) : Z :=
  let n := RustStd.byte_of_ascii c in if n <? 58 then n - 48 else n - 87.
Fixpoint unhex (s : string) : list Z :=
  match s with
  | String a (String b s) => (unhex_digit a * 16 + unhex_digit b) :: unhex s
  | _ => []
  end.

Lemma unhex_digits b :
  is_byte b -> unhex_digit (hex_digit (b / 16)) * 16 + unhex_digit (hex_digit (b mod 16)) = b.
Proof.
  revert b. apply byte_ind.
  apply (bool_decide_unpack (Forall (fun b =>
    unhex_digit (hex_digit (b / 16)) * 16 + unhex_digit (hex_digit (b mod 16)) = b) all_bytes)).
  vm_compute. done.
Qed.

Lemma unhex_byte b s : is_byte b -> unhex (hex_byte b +:+ s) = b :: unhex s.
Proof.
  intros Hb. change (unhex (hex_byte b +:+ s)) with
    ((unhex_digit (hex_digit (b / 16)) * 16 + unhex_digit (hex_digit (b mod 16))) :: unhex s).
  by rewrite unhex_digits.
Qed.

Lemma append_nil s : s +:+ EmptyString = s.
Proof.
  induction s as [|c s IH]; [done|].
  change (String c (s +:+ EmptyString) = String c s). by rewrite IH.
Qed.

Lemma to_hex_foldr bs : to_hex bs = foldr (fun b s => hex_byte b +:+ s) EmptyString bs.
Proof.
  unfold to_hex. assert (forall acc, foldl (fun s b => s +:+ hex_byte b) acc bs =
    acc +:+ foldr (fun b s => hex_byte b +:+ s) EmptyString bs) as H; [|apply H].
  induction bs as [|b bs IH]; intros acc; cbn [foldl foldr].
  - by rewrite append_nil.
  - by rewrite IH, append_assoc.
Qed.

Lemma unhex_to_hex bs : bytes_ok bs -> unhex (to_hex bs) = bs.
Proof.
  rewrite to_hex_foldr. induction 1 as [|b bs Hb _ IH]; cbn [foldr]; [done|].
  by rewrite unhex_byte, IH.
Qed.

Lemma to_hex_inj a b : bytes_ok a -> bytes_ok b -> to_hex a = to_hex b -> a = b.
Proof. intros Ha Hb H. by rewrite <- (unhex_to_hex a), <- (unhex_to_hex b), H. Qed.

(** ** Oldest entries *)

Lemma min_by_key_spec {A} (key : A -> Z) l :
  match min_by_key key l with
  | Some a => a ∈ l /\ Forall (fun b => key a <= key b) l
  | None => l = []
  end.
Proof.
  induction l as [|a l IH]; cbn [min_by_key]; [done|].
  destruct (min_by_key key l) as [b|].
  - destruct IH as [Hb Hl]. destruct (Z.leb_spec (key a) (key b)).
    + split; [by left|]. constructor; [lia|]. eapply Forall_impl; [done|]. simpl. lia.
    + split; [by right|]. constructor; [lia|done].
  - subst. split; [by left|]. by constructor.
Qed.

Lemma min_by_key_some {A} (key : A -> Z) l a :
  min_by_key key l = Some a -> a ∈ l /\ forall b, b ∈ l -> key a <= key b.
Proof.
  intros E. pose proof (min_by_key_spec key l) as H. rewrite E in H.
  split; [apply H|]. apply Forall_forall, H.
Qed.
Lemma min_by_key_none {A} (key : A -> Z) l : min_by_key key l = None -> l = [].
Proof. intros E. pose proof (min_by_key_spec key l) as H. by rewrite E in H. Qed.

Lemma enumerate_lookup {A} i (l : list A) j a :
  (j, a) ∈ enumerate_from i l <-> exists k, j = (i + k)%nat /\ l !! k = Some a.
Proof.
  revert i. induction l as [|x l IH]; intros i; cbn [enumerate_from].
  - split; [by intros ?%not_elem_of_nil|]. by intros (k & _ & [=]).
  - rewrite elem_of_cons, IH. split.
    + intros [[= -> ->]|(k & -> & Hk)]; [exists 0%nat|exists (S k)]; split; done || lia.
    + intros ([|k] & -> & Hk); cbn in Hk; [left; simplify_eq; by rewrite Nat.add_0_r|right].
      exists k. split; [lia|done].
Qed.

Lemma oldest_idx_spec b :
  match oldest_idx b with
  | Some i => exists e, b !! i = Some e /\
                Forall (fun e' => re_inserted_at e <= re_inserted_at e') b
  | None => b = []
  end.
Proof.
  unfold oldest_idx.
  pose proof (min_by_key_spec (fun ie => re_inserted_at ie.2) (enumerate_from 0 b)) as H.
  destruct (min_by_key _ _) as [[i e]|]; cbn.
  - destruct H as [Hin Hall]. apply enumerate_lookup in Hin as (k & -> & Hk). exists e.
    split; [done|]. apply Forall_lookup_2. intros j e' Hj. rewrite Forall_forall in Hall.
    apply (Hall (j, e')). apply enumerate_lookup. by exists j.
  - destruct b; [done|]. cbn in H. done.
Qed.

Lemma vec_remove_perm {A} (l : list A) i x : l !! i = Some x -> l ≡ₚ x :: vec_remove i l.
Proof.
  intros H. unfold vec_remove. rewrite <- (take_drop i l) at 1.
  rewrite (drop_S _ _ _ H). symmetry. apply Permutation_middle.
Qed.
Lemma vec_remove_sublist {A} (l : list A) i : sublist (vec_remove i l) l.
Proof. unfold vec_remove. rewrite <- delete_take_drop. apply sublist_delete. Qed.

(** Read a defaulted lookup; the empty list has no records. *)
Ltac dflt := cbn [default from_option id] in *; change (@len RecordEntry []) with 0 in *.

(** ** The number of records *)

Definition rc_sum (es : gmap string (list RecordEntry)) : Z :=
  map_fold (fun _ b acc => len b + acc) 0 es.

Definition bucket_at (es : gmap string (list RecordEntry)) (k : string) : list RecordEntry :=
  default [] (es !! k).

Lemma rc_sum_insert es k b : es !! k = None -> rc_sum (<[k := b]> es) = len b + rc_sum es.
Proof. intros Hk. unfold rc_sum. rewrite map_fold_insert_L; [done| |done]. intros. lia. Qed.

Lemma rc_sum_delete es k : rc_sum es = len (bucket_at es k) + rc_sum (delete k es).
Proof.
  unfold bucket_at. destruct (es !! k) as [b|] eqn:E; cbn [default from_option id].
  - rewrite <- (insert_delete_id es k b E) at 1. apply rc_sum_insert, lookup_delete_eq.
  - rewrite delete_id by done. change (len []) with 0. lia.
Qed.

Lemma rc_sum_put es k b : rc_sum (<[k := b]> es) = rc_sum es - len (bucket_at es k) + len b.
Proof.
  rewrite (rc_sum_delete es k), (rc_sum_delete (<[k := b]> es) k), delete_insert_eq.
  unfold bucket_at at 1. rewrite lookup_insert_eq. cbn [default from_option id]. lia.
Qed.

Lemma rc_sum_nonneg es : 0 <= rc_sum es.
Proof.
  unfold rc_sum. apply (map_fold_weak_ind (fun r _ => 0 <= r)); [done|].
  intros k b m r _ Hr. pose proof (len_nonneg b). lia.
Qed.

Lemma bucket_at_le es k : len (bucket_at es k) <= rc_sum es.
Proof. rewrite (rc_sum_delete es k). pose proof (rc_sum_nonneg (delete k es)). lia. Qed.

(** ** Invariant of the record cache *)

Definition key_ok (c : RecordCache) (b : list RecordEntry) : Prop :=
  len b <= Z.max 1 (rc_max_per_key c) /\ NoDup (re_public_key <$> b).
Definition buckets_ok (c : RecordCache) : Prop :=
  forall k b, rc_entries c !! k = Some b -> key_ok c b.
Record rc_inv (c : RecordCache) : Prop := {
  ri_buckets : buckets_ok c;
  ri_total : rc_total c = rc_sum (rc_entries c);
  ri_bound : rc_total c <= Z.max 1 (rc_max_size c)
}.

(** Everything in the cache satisfies [P]. *)
Definition rc_forall (P : string -> RecordEntry -> Prop) (c : RecordCache) : Prop :=
  forall k b, rc_entries c !! k = Some b -> Forall (P k) b.

(** One bucket replaced by a smaller one, or dropped when it is empty. *)
Definition shrunk (c : RecordCache) (k : string) (b : list RecordEntry) (c' : RecordCache) : Prop :=
  rc_max_size c' = rc_max_size c /\ rc_max_age c' = rc_max_age c /\
  rc_max_per_key c' = rc_max_per_key c /\
  rc_total c' = rc_total c - (len (bucket_at (rc_entries c) k) - len b) /\
  sublist b (bucket_at (rc_entries c) k) /\
  (rc_entries c' = <[k := b]> (rc_entries c) \/ (b = [] /\ rc_entries c' = delete k (rc_entries c))).

Lemma sublist_len {A} (l k : list A) : sublist l k -> len l <= len k.
Proof. intros H%sublist_length. unfold len. lia. Qed.

Lemma Forall_sublist {A} (P : A -> Prop) l k : sublist l k -> Forall P k -> Forall P l.
Proof.
  intros Hs Hk. apply Forall_forall. intros x Hx. rewrite Forall_forall in Hk.
  by apply Hk, (elem_of_sublist l).
Qed.

Lemma shrunk_lookup c k b c' k' b' :
  shrunk c k b c' -> rc_entries c' !! k' = Some b' ->
  (k' = k /\ b' = b) \/ (k' <> k /\ rc_entries c !! k' = Some b').
Proof.
  intros (_ & _ & _ & _ & _ & [->|[_ ->]]).
  - rewrite lookup_insert_Some. intros [[<- <-]|[Hne Hl]]; auto.
  - rewrite lookup_delete_Some. intros [Hne Hl]. auto.
Qed.

Lemma shrunk_sum c k b c' :
  shrunk c k b c' ->
  rc_sum (rc_entries c') = rc_sum (rc_entries c) - (len (bucket_at (rc_entries c) k) - len b).
Proof.
  intros (_ & _ & _ & _ & _ & [->|[-> ->]]).
  - rewrite rc_sum_put. lia.
  - rewrite (rc_sum_delete (rc_entries c) k). change (len []) with 0. lia.
Qed.

Lemma shrunk_buckets c k b c' : shrunk c k b c' -> buckets_ok c -> buckets_ok c'.
Proof.
  intros Hs Hc k' b' Hk'. pose proof Hs as (Hm1 & Hm2 & Hm3 & _ & Hsub & _).
  unfold key_ok. rewrite Hm3.
  destruct (shrunk_lookup _ _ _ _ _ _ Hs Hk') as [[-> ->]|[_ Hold]]; [|by apply (Hc k')].
  unfold bucket_at in Hsub. destruct (rc_entries c !! k) as [b0|] eqn:E; cbn in Hsub.
  - destruct (Hc k b0 E) as [Hl Hn]. split.
    + apply sublist_len in Hsub. lia.
    + eapply sublist_NoDup; [done|]. by apply fmap_sublist.
  - apply sublist_nil_r in Hsub as ->. split; [change (len []) with 0; lia|constructor].
Qed.

Lemma shrunk_inv c k b c' : shrunk c k b c' -> rc_inv c -> rc_inv c'.
Proof.
  intros Hs [Hb Ht Hm]. pose proof (shrunk_sum _ _ _ _ Hs) as Hsum.
  pose proof (shrunk_buckets _ _ _ _ Hs Hb). destruct Hs as (H1 & _ & _ & H4 & H5 & _).
  apply sublist_len in H5. split; [done|congruence|lia].
Qed.

Lemma shrunk_forall P c k b c' : shrunk c k b c' -> rc_forall P c -> rc_forall P c'.
Proof.
  intros Hs HP k' b' Hk'.
  destruct (shrunk_lookup _ _ _ _ _ _ Hs Hk') as [[-> ->]|[_ Hold]]; [|by apply HP].
  destruct Hs as (_ & _ & _ & _ & Hsub & _). unfold bucket_at in Hsub.
  eapply Forall_sublist; [done|]. destruct (rc_entries c !! k) as [b0|] eqn:E; cbn;
    [by apply HP|constructor].
Qed.

Lemma shrunk_bucket_at c k b c' k' :
  shrunk c k b c' -> sublist (bucket_at (rc_entries c') k') (bucket_at (rc_entries c) k').
Proof.
  intros (_ & _ & _ & _ & Hsub & Hes). unfold bucket_at in *.
  destruct (decide (k = k')) as [<-|Hne]; destruct Hes as [->|[-> ->]].
  - by rewrite lookup_insert_eq.
  - rewrite lookup_delete_eq. apply sublist_nil_l.
  - by rewrite lookup_insert_ne.
  - by rewrite lookup_delete_ne.
Qed.

Lemma rc_sum_zero es : (forall k b, es !! k = Some b -> b = []) -> rc_sum es = 0.
Proof.
  induction es as [|k b es Hk IH] using map_ind; intros Hall; [done|].
  rewrite rc_sum_insert by done. rewrite (Hall k b) by apply lookup_insert_eq.
  change (len []) with 0. rewrite IH; [done|]. intros k' b' Hk'. apply (Hall k').
  rewrite lookup_insert_ne; [done|]. intros ->. congruence.
Qed.

(** ** The operations of the record cache *)

Lemma saturating_sub_le a b : b <= a -> saturating_sub a b = a - b.
Proof. unfold saturating_sub. lia. Qed.

Lemma bucket_at_some es k b : es !! k = Some b -> bucket_at es k = b.
Proof. unfold bucket_at. by intros ->. Qed.

(** A retained part of a bucket. *)
Lemma shrunk_intro c k b b' es' :
  rc_total c = rc_sum (rc_entries c) -> rc_entries c !! k = Some b -> sublist b' b ->
  (es' = <[k := b']> (rc_entries c) \/ (b' = [] /\ es' = delete k (rc_entries c))) ->
  shrunk c k b' (rc_set es' (saturating_sub (rc_total c) (len b - len b')) c).
Proof.
  intros Ht Hk Hsub Hes. pose proof (bucket_at_some _ _ _ Hk) as Hb.
  split_and!; [done..| | |done].
  - cbn [rc_set rc_total]. rewrite Hb, saturating_sub_le; [done|].
    pose proof (bucket_at_le (rc_entries c) k). pose proof (len_nonneg b').
    rewrite Hb in *. lia.
  - by rewrite Hb.
Qed.

Lemma vec_remove_len {A} (b : list A) i e : b !! i = Some e -> len b - len (vec_remove i b) = 1.
Proof.
  intros H. apply vec_remove_perm in H. apply Permutation_length in H.
  unfold len. cbn [length] in H. lia.
Qed.

Lemma remove_shrunk c k pk :
  rc_total c = rc_sum (rc_entries c) ->
  RecordCache_remove k pk c = c \/
  shrunk c k (filter (fun e => re_public_key e <> pk) (bucket_at (rc_entries c) k))
    (RecordCache_remove k pk c).
Proof.
  intros Ht. unfold RecordCache_remove. destruct (rc_entries c !! k) as [b|] eqn:E; [right|by left].
  rewrite (bucket_at_some _ _ _ E). cbv zeta.
  pose proof (sublist_filter (fun e => re_public_key e <> pk) b) as Hsub.
  destruct (filter _ b) as [|e b'] eqn:Ef; apply (shrunk_intro c k b); auto.
Qed.

Lemma get_shrunk now k max c :
  rc_total c = rc_sum (rc_entries c) ->
  (RecordCache_get now k max c).2 = c \/
  shrunk c k (filter (fun e => duration_since now (re_inserted_at e) < rc_max_age c)
                (bucket_at (rc_entries c) k))
    (RecordCache_get now k max c).2.
Proof.
  intros Ht. unfold RecordCache_get. destruct (rc_entries c !! k) as [b|] eqn:E; [right|by left].
  rewrite (bucket_at_some _ _ _ E). cbn [snd].
  apply (shrunk_intro c k b); auto using sublist_filter.
Qed.

Lemma evict_in_bucket_shrunk k c :
  rc_total c = rc_sum (rc_entries c) ->
  (evict_in_bucket k c = c /\
   (len (bucket_at (rc_entries c) k) < rc_max_per_key c \/ bucket_at (rc_entries c) k = [])) \/
  (exists b', shrunk c k b' (evict_in_bucket k c) /\
     len (bucket_at (rc_entries c) k) = len b' + 1).
Proof.
  intros Ht. unfold evict_in_bucket, bucket_at. destruct (rc_entries c !! k) as [b|] eqn:E; cbn.
  2: { left. split; [by case_match|by right]. }
  destruct (Z.leb_spec (rc_max_per_key c) (len b)); [|by left; auto].
  pose proof (oldest_idx_spec b) as Hi. destruct (oldest_idx b) as [i|]; [|left; auto].
  destruct Hi as (e & He & _). right. exists (vec_remove i b).
  pose proof (vec_remove_len b i e He) as Hl. split; [|lia].
  rewrite <- Hl. apply (shrunk_intro c k b); auto using vec_remove_sublist.
Qed.

Section Evict.
Context `{MapIter}.

Lemma elem_of_map_iter {V} (m : gmap string V) k v : (k, v) ∈ map_iter m <-> m !! k = Some v.
Proof. rewrite map_iter_perm. apply elem_of_map_to_list. Qed.

(** [k] holds the oldest record of the whole cache. *)
Lemma oldest_key_spec es :
  match oldest_key es with
  | Some k => exists b e, es !! k = Some b /\ e ∈ b /\
      forall k' b' e', es !! k' = Some b' -> e' ∈ b' -> re_inserted_at e <= re_inserted_at e'
  | None => forall k b, es !! k = Some b -> b = []
  end.
Proof.
  unfold oldest_key. set (l := omap _ (map_iter es)).
  assert (forall k t, (k, t) ∈ l <->
    exists b e, es !! k = Some b /\ min_by_key re_inserted_at b = Some e /\ t = re_inserted_at e) as Hl.
  { intros k t. unfold l. rewrite list_elem_of_omap. split.
    - intros ([k' b] & Hin & Hm). cbn in Hm. apply fmap_Some in Hm as (e & Hm & [= -> ->]).
      apply elem_of_map_iter in Hin. eauto.
    - intros (b & e & Hk & Hm & ->). exists (k, b). cbn. rewrite Hm.
      split; [by apply elem_of_map_iter|done]. }
  destruct (min_by_key snd l) as [[k t]|] eqn:Hmin; cbn.
  - apply min_by_key_some in Hmin as [Hin Hall]. apply Hl in Hin as (b & e & Hk & Hm & ->).
    apply min_by_key_some in Hm as [He _]. exists b, e. split_and!; [done..|].
    intros k' b' e' Hk' He'. destruct (min_by_key re_inserted_at b') as [e2|] eqn:Hm'.
    + pose proof (Hall (k', re_inserted_at e2)) as H2. cbn in H2.
      apply min_by_key_some in Hm' as Hb'. destruct Hb' as [_ Hb']. specialize (Hb' e' He').
      etrans; [|done]. apply H2, Hl. eauto.
    + apply min_by_key_none in Hm' as ->. by apply not_elem_of_nil in He'.
  - apply min_by_key_none in Hmin. intros k b Hk.
    destruct (min_by_key re_inserted_at b) as [e|] eqn:Hm; [|by apply min_by_key_none in Hm].
    assert ((k, re_inserted_at e) ∈ l) as Hin by (apply Hl; eauto).
    rewrite Hmin in Hin. by apply not_elem_of_nil in Hin.
Qed.

(** Eviction takes the oldest record of all, if there is one. *)
Lemma evict_oldest_spec c :
  rc_total c = rc_sum (rc_entries c) ->
  (RecordCache_evict_oldest c = c /\ rc_sum (rc_entries c) = 0) \/
  (exists k e b', shrunk c k b' (RecordCache_evict_oldest c) /\
     bucket_at (rc_entries c) k ≡ₚ e :: b' /\
     forall k' b2 e', rc_entries c !! k' = Some b2 -> e' ∈ b2 ->
       re_inserted_at e <= re_inserted_at e').
Proof.
  intros Ht. unfold RecordCache_evict_oldest. pose proof (oldest_key_spec (rc_entries c)) as Hk.
  destruct (oldest_key (rc_entries c)) as [k|]; [right|left; split; [done|by apply rc_sum_zero]].
  destruct Hk as (b & e0 & Hk & He0 & Hmin). rewrite Hk.
  pose proof (oldest_idx_spec b) as Hi. destruct (oldest_idx b) as [i|];
    [|subst; by apply not_elem_of_nil in He0].
  destruct Hi as (e & He & Hb). rewrite Forall_forall in Hb. exists k, e, (vec_remove i b).
  split_and!.
  - rewrite <- (vec_remove_len b i e He). pose proof (vec_remove_sublist b i) as Hsub.
    destruct (vec_remove i b) as [|e1 b1]; apply (shrunk_intro c k b); auto.
  - rewrite (bucket_at_some _ _ _ Hk). by apply vec_remove_perm.
  - intros k' b2 e' Hk' He'. etrans; [by apply Hb|by eapply Hmin].
Qed.

(** The cache just before the new record is pushed. *)
Definition make_room (key : string) (c : RecordCache) : RecordCache :=
  let c := evict_in_bucket key c in
  if rc_max_size c <=? rc_total c then RecordCache_evict_oldest c else c.

Definition same_limits (c c' : RecordCache) : Prop :=
  rc_max_size c' = rc_max_size c /\ rc_max_age c' = rc_max_age c /\
  rc_max_per_key c' = rc_max_per_key c.

Lemma shrunk_limits c k b c' : shrunk c k b c' -> same_limits c c'.
Proof. intros (H1 & H2 & H3 & _). by split_and!. Qed.

Lemma evict_in_bucket_room key c :
  rc_inv c ->
  rc_inv (evict_in_bucket key c) /\ same_limits c (evict_in_bucket key c) /\
  (forall k, sublist (bucket_at (rc_entries (evict_in_bucket key c)) k) (bucket_at (rc_entries c) k)) /\
  (forall P, rc_forall P c -> rc_forall P (evict_in_bucket key c)) /\
  len (bucket_at (rc_entries (evict_in_bucket key c)) key) + 1 <= Z.max 1 (rc_max_per_key c).
Proof.
  intros Hc. destruct (evict_in_bucket_shrunk key c (ri_total c Hc)) as [[-> Hl]|(b' & Hs & Hl)].
  - split_and!; [done..|].
    destruct Hl as [Hl| ->]; [lia|change (len []) with 0; lia].
  - split_and!; [by eapply shrunk_inv|by eapply shrunk_limits|..].
    + intros k. by eapply shrunk_bucket_at.
    + intros P. by eapply shrunk_forall.
    + assert (len (bucket_at (rc_entries c) key) <= Z.max 1 (rc_max_per_key c)) as Hb.
      { unfold bucket_at. destruct (rc_entries c !! key) as [b|] eqn:E; dflt; [|lia].
        by apply (ri_buckets c Hc key). }
      destruct Hs as (_ & _ & _ & _ & _ & [->|[-> ->]]); unfold bucket_at at 1.
      * rewrite lookup_insert_eq. dflt. lia.
      * rewrite lookup_delete_eq. dflt. lia.
Qed.

Lemma make_room_spec key c :
  rc_inv c ->
  rc_inv (make_room key c) /\ same_limits c (make_room key c) /\
  (forall k, sublist (bucket_at (rc_entries (make_room key c)) k) (bucket_at (rc_entries c) k)) /\
  (forall P, rc_forall P c -> rc_forall P (make_room key c)) /\
  len (bucket_at (rc_entries (make_room key c)) key) + 1 <= Z.max 1 (rc_max_per_key c) /\
  rc_total (make_room key c) + 1 <= Z.max 1 (rc_max_size c).
Proof.
  intros Hc. destruct (evict_in_bucket_room key c Hc) as (H1 & H2 & H3 & H4 & H5).
  unfold make_room. cbv zeta. set (c1 := evict_in_bucket key c) in *.
  destruct H2 as (Hm1 & Hm2 & Hm3). destruct (Z.leb_spec (rc_max_size c1) (rc_total c1)) as [Hle|Hgt].
  2: { split_and!; [done..|]. lia. }
  pose proof (ri_bound c1 H1) as Hb. pose proof (ri_total c1 H1) as Ht.
  destruct (evict_oldest_spec c1 Ht) as [[-> Hz]|(k & e & b' & Hs & Hp & _)].
  { split_and!; [done..|]. lia. }
  pose proof (shrunk_limits _ _ _ _ Hs) as (Hn1 & Hn2 & Hn3).
  assert (len (bucket_at (rc_entries c1) k) = 1 + len b') as Hlen
    by (unfold len; rewrite Hp; cbn; lia).
  pose proof (shrunk_bucket_at _ _ _ _ key Hs) as Hsub.
  split_and!; [by eapply shrunk_inv|unfold same_limits; split_and!; congruence| | | |].
  - intros k'. etrans; [by eapply shrunk_bucket_at|done].
  - intros P HP. eapply shrunk_forall; [done|by apply H4].
  - apply sublist_len in Hsub. lia.
  - destruct Hs as (_ & _ & _ & Ht' & _). lia.
Qed.

Lemma refresh_some pk record now b b' :
  refresh_record pk record now b = Some b' ->
  re_public_key <$> b' = re_public_key <$> b /\ mkRecord pk record now ∈ b' /\
  (forall P : RecordEntry -> Prop, P (mkRecord pk record now) -> Forall P b -> Forall P b').
Proof.
  revert b'. induction b as [|e b IH]; intros b'; cbn [refresh_record]; [done|].
  case_bool_decide as Hpk.
  - intros [= <-]. cbn. rewrite Hpk. split_and!; [done|by left|].
    intros P HP. rewrite !Forall_cons. tauto.
  - destruct (refresh_record pk record now b) as [b1|]; [|done]. intros [= <-].
    destruct (IH b1 eq_refl) as (H1 & H2 & H3). cbn. rewrite H1. split_and!; [done|by right|].
    intros P HP. rewrite !Forall_cons. intros [? ?]. auto.
Qed.

Lemma refresh_none pk record now b :
  refresh_record pk record now b = None -> pk ∉ re_public_key <$> b.
Proof.
  induction b as [|e b IH]; cbn [refresh_record]; [intros _; apply not_elem_of_nil|].
  case_bool_decide as Hpk; [done|].
  destruct (refresh_record pk record now b); [done|]. intros _.
  rewrite fmap_cons, not_elem_of_cons. split; [done|by apply IH].
Qed.

Lemma add_unfold now key pk record c :
  RecordCache_add now key pk record c =
    match rc_entries c !! key ≫= refresh_record pk record now with
    | Some b' => rc_set (<[key := b']> (rc_entries c)) (rc_total c) c
    | None => rc_set (<[key := bucket_at (rc_entries (make_room key c)) key ++
                               [mkRecord pk record now]]> (rc_entries (make_room key c)))
                (rc_total (make_room key c) + 1) (make_room key c)
    end.
Proof. done. Qed.

(** What adding a record establishes. *)
Definition add_post (now : Z) (key : string) (pk record : list Z) (c c' : RecordCache) : Prop :=
  rc_inv c' /\ same_limits c c' /\
  mkRecord pk record now ∈ bucket_at (rc_entries c') key /\
  (forall P, P key (mkRecord pk record now) -> rc_forall P c -> rc_forall P c').

Lemma add_refresh now key pk record c b b' :
  rc_inv c -> rc_entries c !! key = Some b -> refresh_record pk record now b = Some b' ->
  add_post now key pk record c (rc_set (<[key := b']> (rc_entries c)) (rc_total c) c).
Proof.
  intros [Hb Ht Hm] Hk Hr. destruct (refresh_some _ _ _ _ _ Hr) as (H1 & H2 & H3).
  assert (len b' = len b) as Hl
    by (unfold len; by rewrite <- (length_fmap re_public_key), H1, length_fmap).
  split_and!; [split| | |].
  - intros k b1. cbn [rc_entries rc_set]. intros [[<- <-]|[Hne Hb1]]%lookup_insert_Some.
    + destruct (Hb key b Hk) as [Hlen Hnd]. split; cbn [rc_max_per_key rc_set]; [lia|by rewrite H1].
    + by apply (Hb k).
  - cbn [rc_total rc_entries rc_set]. rewrite rc_sum_put, (bucket_at_some _ _ _ Hk). lia.
  - done.
  - done.
  - cbn [rc_entries rc_set]. unfold bucket_at. by rewrite lookup_insert_eq.
  - intros P HP Hc k b1. cbn [rc_entries rc_set]. intros [[<- <-]|[Hne Hb1]]%lookup_insert_Some.
    + by apply H3; [|apply Hc].
    + by apply Hc.
Qed.

Lemma add_push now key pk record c :
  rc_inv c -> pk ∉ re_public_key <$> bucket_at (rc_entries c) key ->
  add_post now key pk record c
    (rc_set (<[key := bucket_at (rc_entries (make_room key c)) key ++ [mkRecord pk record now]]>
               (rc_entries (make_room key c)))
       (rc_total (make_room key c) + 1) (make_room key c)).
Proof.
  intros Hc Hpk. destruct (make_room_spec key c Hc) as (H1 & H2 & H3 & H4 & H5 & H6).
  set (c1 := make_room key c) in *. set (b := bucket_at (rc_entries c1) key) in *.
  destruct H2 as (Hm1 & Hm2 & Hm3).
  split_and!; [split| | |].
  - intros k b1. cbn [rc_entries rc_set]. intros [[<- <-]|[Hne Hb1]]%lookup_insert_Some.
    + unfold key_ok. cbn [rc_max_per_key rc_set]. rewrite len_app. change (len [_]) with 1.
      split; [lia|]. rewrite fmap_app, NoDup_app. split_and!.
      * unfold b, bucket_at. destruct (rc_entries c1 !! key) as [b0|] eqn:E; [|constructor].
        by apply (ri_buckets c1 H1 key).
      * intros x Hx Hx'. apply list_elem_of_singleton in Hx' as ->.
        apply Hpk. eapply elem_of_sublist; [exact Hx|]. apply fmap_sublist, H3.
      * apply NoDup_singleton.
    + by apply (ri_buckets c1 H1 k).
  - cbn [rc_total rc_entries rc_set]. rewrite rc_sum_put. fold b. rewrite len_app.
    change (len [_]) with 1. rewrite (ri_total c1 H1). lia.
  - cbn [rc_total rc_max_size rc_set]. lia.
  - done.
  - cbn [rc_entries rc_set]. unfold bucket_at at 1. rewrite lookup_insert_eq. dflt.
    apply elem_of_app. right. by left.
  - intros P HP Hall k b1. cbn [rc_entries rc_set]. specialize (H4 P Hall).
    intros [[<- <-]|[Hne Hb1]]%lookup_insert_Some; [|by apply H4].
    apply Forall_app. split; [|by constructor]. unfold b, bucket_at.
    destruct (rc_entries c1 !! key) as [b0|] eqn:E; [by apply H4|constructor].
Qed.

Lemma record_add_spec now key pk record c :
  rc_inv c -> add_post now key pk record c (RecordCache_add now key pk record c).
Proof.
  intros Hc. rewrite add_unfold.
  destruct (rc_entries c !! key) as [b|] eqn:Hk; cbn [mbind option_bind].
  - destruct (refresh_record pk record now b) as [b'|] eqn:Hr; [by eapply add_refresh|].
    apply add_push; [done|]. rewrite (bucket_at_some _ _ _ Hk). by eapply refresh_none.
  - apply add_push; [done|]. unfold bucket_at. rewrite Hk. apply not_elem_of_nil.
Qed.
End Evict.

(** ** The LRU cache *)

Section Lru.
Context `{MapIter}.

Definition lc_forall (P : string -> list Z -> Prop) (c : LruCache) : Prop :=
  forall k e, lc_entries c !! k = Some e -> P k (ce_value e).
Definition lc_bounded (c : LruCache) : Prop :=
  Z.of_nat (size (lc_entries c)) <= Z.max 1 (lc_max_size c).

(** What [set] evicts first. *)
Definition lru_room (c : LruCache) : gmap string CacheEntry :=
  if lc_max_size c <=? Z.of_nat (size (lc_entries c)) then
    match fst <$> min_by_key (fun ke => ce_inserted_at ke.2) (map_iter (lc_entries c)) with
    | Some oldest => delete oldest (lc_entries c)
    | None => lc_entries c
    end
  else lc_entries c.

Lemma lru_set_eq now key value c :
  LruCache_set now key value c = lc_set (<[key := mkCacheEntry value now]> (lru_room c)) c.
Proof. unfold LruCache_set, lru_room. cbv zeta. by repeat case_match. Qed.

(** At capacity exactly one entry goes, and it is the oldest. *)
Lemma lru_room_spec c :
  lru_room c ⊆ lc_entries c /\
  (lru_room c = lc_entries c /\
     (Z.of_nat (size (lc_entries c)) < lc_max_size c \/ lc_entries c = ∅) \/
   lc_max_size c <= Z.of_nat (size (lc_entries c)) /\
   exists k e, lc_entries c !! k = Some e /\ lru_room c = delete k (lc_entries c) /\
     forall k' e', lc_entries c !! k' = Some e' -> ce_inserted_at e <= ce_inserted_at e').
Proof.
  unfold lru_room. destruct (Z.leb_spec (lc_max_size c) (Z.of_nat (size (lc_entries c)))); [|by auto].
  destruct (min_by_key _ _) as [[k e]|] eqn:Hm; cbn.
  - split; [apply delete_subseteq|]. right. split; [done|]. apply min_by_key_some in Hm as [Hin Hall].
    apply elem_of_map_iter in Hin. exists k, e. split_and!; [done..|].
    intros k' e' Hk'. apply (Hall (k', e')). by apply elem_of_map_iter.
  - split; [done|]. left. split; [done|]. right. apply min_by_key_none in Hm.
    apply map_to_list_empty_iff. apply Permutation_nil. by rewrite <- Hm, map_iter_perm.
Qed.

Lemma lru_set_bounded now key value c : lc_bounded c -> lc_bounded (LruCache_set now key value c).
Proof.
  unfold lc_bounded. intros Hb. rewrite lru_set_eq. cbn [lc_set lc_entries lc_max_size].
  destruct (lru_room_spec c) as [_ Hr].
  assert (Z.of_nat (size (lru_room c)) + 1 <= Z.max 1 (lc_max_size c)) as Hs.
  { destruct Hr as [[-> [Hlt| ->]]|(Hge & k & e & Hk & -> & _)].
    - lia.
    - rewrite map_size_empty. lia.
    - rewrite map_size_delete, Hk. lia. }
  rewrite map_size_insert. destruct (lru_room c !! key); cbn [id]; lia.
Qed.

Lemma lru_set_forall P now key value c :
  P key value -> lc_forall P c -> lc_forall P (LruCache_set now key value c).
Proof.
  intros Hkv Hc k e. rewrite lru_set_eq. cbn [lc_set lc_entries].
  intros [[<- <-]|[_ Hk]]%lookup_insert_Some; [done|]. apply Hc.
  eapply lookup_weaken; [done|apply lru_room_spec].
Qed.

(** A value just set is there until it expires. *)
Lemma lru_get_set now now' key value c :
  LruCache_get now' key (LruCache_set now key value c) =
    if lc_max_age c <=? duration_since now' now then None else Some value.
Proof. rewrite lru_set_eq. unfold LruCache_get. cbn [lc_set lc_entries lc_max_age]. by rewrite lookup_insert_eq. Qed.

Lemma lru_get_forall P now key c v :
  lc_forall P c -> LruCache_get now key c = Some v -> P key v.
Proof.
  unfold LruCache_get. intros Hc. destruct (lc_entries c !! key) as [e|] eqn:E; [|done].
  case_match; [done|]. intros [= <-]. by apply Hc.
Qed.

Lemma lru_set_limits now key value c :
  lc_max_size (LruCache_set now key value c) = lc_max_size c /\
  lc_max_age (LruCache_set now key value c) = lc_max_age c.
Proof. by rewrite lru_set_eq. Qed.
End Lru.
