(* ===== verification/PersistentTheorems.v ===== *)
(** * PersistentTheorems: what a storage node guarantees

    The invariant of the stored data over every sequence of requests, the
    authentication of every change, the order of mutable records, what the
    read requests return, and three deviations from the documented
    behaviour. *)

From S2P Require Import Prelude RustStd CompactEncoding Codec Messages.
From S2P Require Import HyperdhtMessages HyperdhtWire HyperdhtTheorems Crypto.
From S2P Require Import Persistent PersistentProofs.
From Stdlib Require Import Ascii.

#[local] Open Scope Z_scope.

(** ** Weakest preconditions of handlers: no panic, and the postcondition *)

Lemma wp_modify f p (Q : unit -> Persistent -> Prop) : Q tt (f p) -> wp (modify f) p Q.
Proof. done. Qed.
Lemma wp_ok {A} (o : outcome EncodingError A) a p (Q : option A -> Persistent -> Prop) :
  o = Ok a -> Q (Some a) p -> wp (ok_or_none o) p Q.
Proof. by intros ->. Qed.
Lemma wp_safe {A} (P : A -> Prop) (o : outcome EncodingError A) p (Q : option A -> Persistent -> Prop) :
  safe P o -> (forall a, o = Ok a -> P a -> Q (Some a) p) ->
  (forall e, o = Err e -> Q None p) -> wp (ok_or_none o) p Q.
Proof. unfold wp, ok_or_none, safe. destruct o; eauto. Qed.
Lemma wp_silent {A} (o : option A) k p Q :
  (o = None -> Q RSilent p) -> (forall a, o = Some a -> wp (k a) p Q) -> wp (or_silent o k) p Q.
Proof. destruct o; cbn [or_silent]; [auto|]. intros HQ _. by apply wp_ret, HQ. Qed.
(** ** Encodings of stored values *)

Lemma encode_peer_ok peer :
  hyper_peer_ok peer -> encode_hyper_peer_to_bytes peer = Ok (wire_hyper_peer peer).
Proof. exact (codec_to_bytes (H := hyper_peer_codec) peer). Qed.
Lemma decode_peer_ok peer :
  hyper_peer_ok peer -> decode_hyper_peer_from_bytes (wire_hyper_peer peer) = Ok peer.
Proof. exact (codec_from_bytes (H := hyper_peer_codec) peer). Qed.
Lemma encode_get_ok m :
  mutable_get_ok m -> encode_mutable_get_response_to_bytes m = Ok (wire_mutable_get m).
Proof. exact (codec_to_bytes (H := mutable_get_codec) m). Qed.
Lemma decode_get_ok m :
  mutable_get_ok m -> decode_mutable_get_response_from_bytes (wire_mutable_get m) = Ok m.
Proof. exact (codec_from_bytes (H := mutable_get_codec) m). Qed.
Lemma encode_bump_ok b :
  in_u 64 b -> to_bytes (fun s => preencode_uint s b) (encode_uint b) = Ok (wire_uint b).
Proof. intros Hb. apply to_bytes_spec; [apply preencode_uint_spec|by apply Writes_uint]. Qed.

(** The peer a record is stored as: at most three relay addresses. *)
Definition truncated (peer : HyperPeer) : HyperPeer :=
  mkHyperPeer (hp_public_key peer) (take MAX_RELAY_ADDRESSES (hp_relay_addresses peer)).
Definition stored_peer (bytes pk : list Z) : Prop :=
  exists peer, hyper_peer_ok peer /\ hp_public_key peer = pk /\
    (length (hp_relay_addresses peer) <= MAX_RELAY_ADDRESSES)%nat /\ bytes = wire_hyper_peer peer.

Lemma truncated_ok peer : hyper_peer_ok peer -> hyper_peer_ok (truncated peer).
Proof.
  intros [Hk [Hl Hr]]. split; [done|]. split; [|by apply Forall_take].
  cbn [truncated hp_relay_addresses]. unfold len in *. rewrite length_take. lia.
Qed.
Lemma truncated_stored peer :
  hyper_peer_ok peer -> stored_peer (wire_hyper_peer (truncated peer)) (hp_public_key peer).
Proof.
  intros Hp. exists (truncated peer). split_and!; [by apply truncated_ok|done| |done].
  cbn [truncated hp_relay_addresses]. rewrite length_take. lia.
Qed.

(** Requests as they arrive: 32-byte targets and tokens, values of bytes. *)
Record incoming_ok (req : IncomingHyperRequest) : Prop := {
  io_target : opt_ok (fixed_ok 32) (in_target req);
  io_token : opt_ok (fixed_ok 32) (in_token req);
  io_value : opt_ok (fun v => bytes_ok v) (in_value req)
}.

Section Storage.
Context `{MapIter} `{C : CryptoPrims} `{!CryptoLaws C} (cfg : PersistentConfig).

(** ** What is stored *)

Definition mutable_signed (m : MutableGetResponse) (pk : list Z) : Prop :=
  verify_detached (mg_signature m)
    (NS_MUTABLE_PUT ++ hash (wire_mutable_signable (mkSignable (mg_seq m) (mg_value m)))) pk = true.

Definition record_authentic (k : string) (e : RecordEntry) : Prop :=
  stored_peer (re_record e) (re_public_key e).
Definition router_authentic (k : string) (e : RouterEntry) : Prop :=
  exists pk, k = to_hex (hash pk) /\ stored_peer (rt_record e) pk.
Definition mutable_authentic (k : string) (v : list Z) : Prop :=
  exists pk m, k = to_hex (hash pk) /\ mutable_get_ok m /\ v = wire_mutable_get m /\
    mutable_signed m pk.
Definition immutable_authentic (k : string) (v : list Z) : Prop := k = to_hex (hash v).
Definition refresh_stored (k : string) (v : list Z) : Prop := exists pk, stored_peer v pk.
Definition bump_stored (k : string) (v : list Z) : Prop :=
  exists b, in_u 64 b /\ v = wire_uint b.

Definition lru_inv (P : string -> list Z -> Prop) (c : LruCache) : Prop :=
  (lc_bounded c /\ lc_max_size c = cfg_max_lru_size cfg /\ lc_max_age c = cfg_max_lru_age cfg) /\
  lc_forall P c.

(** The limits the caches were created with. *)
Definition rc_limits (c : RecordCache) : Prop :=
  rc_max_size c = cfg_max_records cfg /\ rc_max_age c = cfg_max_record_age cfg /\
  rc_max_per_key c = cfg_max_per_key cfg.

Record storage_inv (p : Persistent) : Prop := {
  si_records : rc_inv (p_records p);
  si_limits : rc_limits (p_records p);
  si_records_auth : rc_forall record_authentic (p_records p);
  si_bumps : lru_inv bump_stored (p_bumps p);
  si_refreshes : lru_inv refresh_stored (p_refreshes p);
  si_mutables : lru_inv mutable_authentic (p_mutables p);
  si_immutables : lru_inv immutable_authentic (p_immutables p);
  si_router k e : p_router p !! k = Some e -> router_authentic k e
}.

Lemma lru_set_inv P now key value c :
  P key value -> lru_inv P c -> lru_inv P (LruCache_set now key value c).
Proof.
  intros HP [(Hb & H1 & H2) Hf]. split; [|by apply lru_set_forall].
  destruct (lru_set_limits now key value c) as [-> ->]. split_and!; [by apply lru_set_bounded|done..].
Qed.

Lemma limits_same c c' : same_limits c c' -> rc_limits c -> rc_limits c'.
Proof. intros (H1 & H2 & H3) (? & ? & ?). unfold rc_limits. by rewrite H1, H2, H3. Qed.

Lemma remove_inv k pk c :
  rc_inv c -> rc_limits c -> rc_forall record_authentic c ->
  rc_inv (RecordCache_remove k pk c) /\ rc_limits (RecordCache_remove k pk c) /\
  rc_forall record_authentic (RecordCache_remove k pk c).
Proof.
  intros Hc Hm Hf. destruct (remove_shrunk c k pk (ri_total c Hc)) as [->|Hs]; [done|].
  split_and!; [by eapply shrunk_inv| |by eapply shrunk_forall].
  eapply limits_same; [by eapply shrunk_limits|done].
Qed.

Lemma get_inv now k max c :
  rc_inv c -> rc_limits c -> rc_forall record_authentic c ->
  rc_inv (RecordCache_get now k max c).2 /\ rc_limits (RecordCache_get now k max c).2 /\
  rc_forall record_authentic (RecordCache_get now k max c).2.
Proof.
  intros Hc Hm Hf. destruct (get_shrunk now k max c (ri_total c Hc)) as [->|Hs]; [done|].
  split_and!; [by eapply shrunk_inv| |by eapply shrunk_forall].
  eapply limits_same; [by eapply shrunk_limits|done].
Qed.

(** ** ANNOUNCE *)

(** The request announces [peer] under [target] with the message [msg]: its
    value decodes to [msg], the peer is the one in the message or, without one,
    the one remembered under its refresh token, and the signature, over target,
    node id, token, encoded peer and refresh token in the announce namespace,
    verifies under the peer's key. *)
Record accepts_announce (clk : nat -> Z) (node_id : list Z) (req : IncomingHyperRequest)
    (p : Persistent) (target : list Z) (msg : AnnounceMessage) (peer : HyperPeer) : Prop := {
  aa_target : in_target req = Some target;
  aa_message : exists value, in_value req = Some value /\ decode_announce_from_bytes value = Ok msg;
  aa_peer : an_peer msg = Some peer \/
    an_peer msg = None /\ exists refresh stored, an_refresh msg = Some refresh /\
      LruCache_get (clk 0%nat) (to_hex refresh) (p_refreshes p) = Some stored /\
      decode_hyper_peer_from_bytes stored = Ok peer;
  aa_signed : exists token signature, in_token req = Some token /\ an_signature msg = Some signature /\
    ann_verified NS_ANNOUNCE target token node_id peer (wire_hyper_peer peer) (an_refresh msg)
      signature = true
}.

(** The storage after it: the router entry in place of the topic record when
    the target is the hash of the peer's key, else a topic record and the bump;
    and the peer remembered under the refresh token. *)
Definition announced_peer (clk : nat -> Z) (req : IncomingHyperRequest) (target : list Z)
    (bump : Z) (peer : HyperPeer) (p : Persistent) : Persistent :=
  let encoded := wire_hyper_peer (truncated peer) in
  if bool_decide (hash (hp_public_key peer) = target) then
    with_records (RecordCache_remove (to_hex target) (hp_public_key peer) (p_records p))
      (with_router (<[to_hex target := mkRouterEntry (in_from req) encoded]> (p_router p)) p)
  else
    let p := with_records
      (RecordCache_add (clk 1%nat) (to_hex target) (hp_public_key peer) encoded (p_records p)) p in
    if bump =? 0 then p
    else with_bumps (LruCache_set (clk 2%nat) (to_hex target) (wire_uint bump) (p_bumps p)) p.
Definition announced (clk : nat -> Z) (req : IncomingHyperRequest) (target : list Z)
    (msg : AnnounceMessage) (peer : HyperPeer) (p : Persistent) : Persistent :=
  let p := announced_peer clk req target (an_bump msg) peer p in
  match an_refresh msg with
  | Some refresh => with_refreshes
      (LruCache_set (clk 3%nat) (to_hex refresh) (wire_hyper_peer (truncated peer)) (p_refreshes p)) p
  | None => p
  end.

Definition announce_post (clk : nat -> Z) (node_id : list Z) (req : IncomingHyperRequest)
    (p : Persistent) (r : HandlerReply) (p' : Persistent) : Prop :=
  storage_inv p' /\
  ((r = RSilent /\ p' = p /\
    forall target msg peer, ~ accepts_announce clk node_id req p target msg peer) \/
   (r = RValueNoToken None /\ exists target msg peer,
      accepts_announce clk node_id req p target msg peer /\ p' = announced clk req target msg peer p)).

Lemma accepts_unique clk node_id req p t1 m1 q1 t2 m2 q2 :
  accepts_announce clk node_id req p t1 m1 q1 -> accepts_announce clk node_id req p t2 m2 q2 ->
  t1 = t2 /\ m1 = m2 /\ q1 = q2.
Proof.
  intros [? (? & ? & ?) Hp1 _] [? (? & ? & ?) Hp2 _].
  assert (m1 = m2) as <- by congruence. split_and!; [congruence|done|].
  destruct Hp1 as [?|(? & ? & ? & ? & ? & ?)], Hp2 as [?|(? & ? & ? & ? & ? & ?)]; congruence.
Qed.

(** Storing a verified peer: the router entry or the record. *)
Lemma announced_peer_inv clk req target bump peer p :
  storage_inv p -> hyper_peer_ok peer -> in_u 64 bump ->
  storage_inv (announced_peer clk req target bump peer p).
Proof.
  intros Hp Hpeer Hbump. pose proof (truncated_stored peer Hpeer) as Hst.
  unfold announced_peer. cbv zeta. case_bool_decide as Hself.
  - destruct Hp. destruct (remove_inv (to_hex target) (hp_public_key peer) (p_records p))
      as (H1 & H2 & H3); [done..|].
    split; cbn [with_records with_router p_records p_bumps p_refreshes p_mutables p_immutables p_router];
      [done..|]. intros k e [[<- <-]|[_ Hk]]%lookup_insert_Some; [|by apply si_router0].
    exists (hp_public_key peer). by rewrite <- Hself.
  - destruct (record_add_spec (clk 1%nat) (to_hex target) (hp_public_key peer)
      (wire_hyper_peer (truncated peer)) (p_records p)) as (H1 & Hl & _ & H2); [apply Hp|].
    apply limits_same in Hl; [|apply Hp].
    specialize (H2 record_authentic Hst (si_records_auth p Hp)).
    destruct Hp. destruct (bump =? 0); [by split|]. split; try done.
    apply lru_set_inv; [|done]. by exists bump.
Qed.

Lemma store_peer_spec clk req target peer bump p Q :
  in_u 64 bump -> Q tt (announced_peer clk req target bump peer p) ->
  let stored := truncated peer in
  wp (if bool_decide (hash (hp_public_key stored) = target) then
        modify (fun p => with_router
          (<[to_hex target := mkRouterEntry (in_from req) (wire_hyper_peer stored)]> (p_router p)) p) ;;
        modify (fun p => with_records
          (RecordCache_remove (to_hex target) (hp_public_key stored) (p_records p)) p)
      else
        modify (fun p => with_records
          (RecordCache_add (clk 1%nat) (to_hex target) (hp_public_key stored)
             (wire_hyper_peer stored) (p_records p)) p) ;;
        if negb (bump =? 0) then
          b ← ok_or_none (to_bytes (fun s => preencode_uint s bump) (encode_uint bump));
          modify (fun p => with_bumps
            (LruCache_set (clk 2%nat) (to_hex target) (default [] b) (p_bumps p)) p)
        else mret tt) p Q.
Proof.
  intros Hbump HQ stored. subst stored. unfold announced_peer in HQ. cbv zeta in HQ.
  cbn [truncated hp_public_key]. case_bool_decide as Hself.
  - by apply wp_bind, wp_modify, wp_modify.
  - apply wp_bind, wp_modify. destruct (bump =? 0); cbn [negb]; [by apply wp_ret|].
    apply wp_bind. eapply wp_ok; [by apply encode_bump_ok|]. by apply wp_modify.
Qed.

Lemma refreshed_inv p now key peer :
  storage_inv p -> hyper_peer_ok peer ->
  storage_inv (with_refreshes
    (LruCache_set now key (wire_hyper_peer (truncated peer)) (p_refreshes p)) p).
Proof.
  intros Hp Hpeer. destruct Hp. split; try done. apply lru_set_inv; [|done].
  eexists. by apply truncated_stored.
Qed.

(** The peer of an announcement: in the message, or remembered by its refresh
    token. *)
Lemma announce_peer_spec clk node_id req target msg value p Q :
  storage_inv p -> announce_ok msg -> in_target req = Some target -> in_value req = Some value ->
  decode_announce_from_bytes value = Ok msg ->
  ((forall t m peer, ~ accepts_announce clk node_id req p t m peer) -> Q None p) ->
  (forall peer, hyper_peer_ok peer ->
     (forall token signature, in_token req = Some token -> an_signature msg = Some signature ->
        ann_verified NS_ANNOUNCE target token node_id peer (wire_hyper_peer peer) (an_refresh msg)
          signature = true -> accepts_announce clk node_id req p target msg peer) ->
     (forall t m peer', accepts_announce clk node_id req p t m peer' -> t = target /\ m = msg /\ peer' = peer) ->
     Q (Some peer) p) ->
  wp (match an_peer msg, an_refresh msg with
      | None, Some refresh =>
          match LruCache_get (clk 0%nat) (to_hex refresh) (p_refreshes p) with
          | Some stored => ok_or_none (decode_hyper_peer_from_bytes stored)
          | None => mret None
          end
      | peer, _ => mret peer
      end) p Q.
Proof.
  intros Hp [Hpeer _ _ _] Ht Hv Hd HN HQ. destruct (an_peer msg) as [peer|] eqn:Epe.
  { apply wp_ret, HQ; [by apply Hpeer|intros; split; eauto|].
    intros t m peer' [? (? & ? & ?) [?|[? _]] _]; simplify_eq/=;
      assert (m = msg) as -> by congruence; split_and!; congruence. }
  destruct (an_refresh msg) as [refresh|] eqn:Er.
  2: { apply wp_ret, HN. intros t m peer' [_ (? & ? & ?) [?|(_ & ? & _ & ? & _)] _];
       assert (m = msg) as -> by congruence; congruence. }
  destruct (LruCache_get _ _ _) as [stored|] eqn:E.
  2: { apply wp_ret, HN.
       intros t m peer' [_ (? & ? & ?) [?|(_ & ? & ? & ? & ? & _)] _];
       assert (m = msg) as -> by congruence; congruence. }
  destruct (lru_get_forall _ _ _ _ _ (proj2 (si_refreshes p Hp)) E) as (pk & peer & Hok & _ & _ & ->).
  pose proof (decode_peer_ok peer Hok) as Hdec.
  eapply wp_ok; [done|]. apply HQ; [done| |].
  - intros token signature ???. split; [done|eauto|right; split; [done|]; eauto 6|].
    exists token, signature. by rewrite Er.
  - intros t m peer' [? (? & ? & ?) [?|(_ & ? & ? & ? & ? & ?)] _];
      assert (m = msg) as -> by congruence; split_and!; congruence.
Qed.

(** Refuting an acceptance whose message lacks what the handler found missing. *)
Ltac refuse := split; [done|left; split_and!; [done..|]]; intros ? ? ?
  [? (? & ? & ?) ? (? & ? & ? & ? & ?)]; congruence.

Lemma on_announce_spec clk node_id req p :
  storage_inv p -> incoming_ok req ->
  wp (on_announce clk node_id req) p (announce_post clk node_id req p).
Proof.
  intros Hp [Htgt Htok Hval]. unfold on_announce.
  apply wp_silent; [intros; refuse|]. intros target Ht.
  apply wp_silent; [intros; refuse|]. intros token Hk.
  apply wp_silent; [intros; refuse|]. intros value Hv.
  apply wp_bind. eapply (wp_safe announce_ok);
    [apply safe_from_bytes; [apply Decodes_announce|by apply Hval]| |intros; apply wp_ret; refuse].
  intros msg Hd Hmsg. apply wp_silent; [done|]. intros ? [= <-].
  apply wp_bind, wp_get, wp_bind.
  eapply (announce_peer_spec clk node_id req target msg value); [done..| |].
  { intros Hno. apply wp_ret. split; [done|]. by left. }
  intros peer Hpeer Hacc Huniq. apply wp_silent; [done|]. intros ? [= <-].
  apply wp_silent; [intros; refuse|]. intros signature Hsig.
  apply wp_bind. eapply wp_ok; [by apply encode_peer_ok|]. apply wp_silent; [done|]. intros ? [= <-].
  destruct (ann_verified _ _ _ _ _ _ _ _) eqn:Hver; cbn [negb].
  2: { apply wp_ret. split; [done|]. left. split_and!; [done..|]. intros t m peer' Ha.
       destruct (Huniq t m peer' Ha) as (-> & -> & ->). destruct Ha as [_ _ _ (? & ? & ? & ? & ?)].
       congruence. }
  cbv zeta. fold (truncated peer). apply wp_bind.
  eapply wp_ok; [by apply encode_peer_ok, truncated_ok|].
  apply wp_silent; [done|]. intros ? [= <-].
  apply wp_bind, (store_peer_spec clk req target peer); [by destruct Hmsg|].
  pose proof (announced_peer_inv clk req target (an_bump msg) peer p Hp Hpeer (ann_bump _ Hmsg)) as Hp'.
  assert (storage_inv (announced clk req target msg peer p) ->
    announce_post clk node_id req p (RValueNoToken None) (announced clk req target msg peer p)) as Hdone.
  { intros Hi. split; [done|right]. split; [done|]. exists target, msg, peer. eauto. }
  unfold announced in Hdone. apply wp_bind.
  destruct (an_refresh msg) as [refresh|]; [|by apply wp_ret, wp_ret, Hdone].
  apply wp_bind. eapply wp_ok; [by apply encode_peer_ok, truncated_ok|].
  apply wp_modify, wp_ret, Hdone. by apply refreshed_inv.
Qed.

(** ** UNANNOUNCE *)




(** ** MUTABLE_PUT *)

(** The live record under a key. *)
Definition live_mutable (now : Z) (target : list Z) (p : Persistent) (m : MutableGetResponse) : Prop :=
  LruCache_get now (to_hex target) (p_mutables p) = Some (wire_mutable_get m) /\ mutable_get_ok m.

(** The request carries the put: its value decodes to it, the key hashes to the
    target and the signature over sequence number and value verifies. *)
Definition new_mutable (put : MutablePutRequest) : MutableGetResponse :=
  mkMutableGet (mp_seq put) (mp_value put) (mp_signature put).
Record valid_put (req : IncomingHyperRequest) (target : list Z) (put : MutablePutRequest) : Prop := {
  vp_target : in_target req = Some target;
  vp_token : is_Some (in_token req);
  vp_value : exists value, in_value req = Some value /\
    decode_mutable_put_request_from_bytes value = Ok put;
  vp_hash : hash (mp_public_key put) = target;
  vp_signed : mutable_signed (new_mutable put) (mp_public_key put)
}.
Definition put_stored_as (clk : nat -> Z) (target : list Z) (put : MutablePutRequest)
    (p : Persistent) : Persistent :=
  with_mutables (LruCache_set (clk 1%nat) (to_hex target) (wire_mutable_get (new_mutable put))
                   (p_mutables p)) p.

Definition mutable_put_post (clk : nat -> Z) (req : IncomingHyperRequest)
    (p : Persistent) (r : HandlerReply) (p' : Persistent) : Prop :=
  storage_inv p' /\
  ((r = RSilent /\ p' = p /\ forall target put, ~ valid_put req target put) \/
   exists target put, valid_put req target put /\ mutable_get_ok (new_mutable put) /\
     ((exists old, live_mutable (clk 0%nat) target p old /\ p' = p /\
         (mg_seq old = mp_seq put /\ r = RError SEQ_REUSED \/
          mp_seq put < mg_seq old /\ r = RError SEQ_TOO_LOW)) \/
      (r = RValue None /\
       (forall old, live_mutable (clk 0%nat) target p old -> mg_seq old < mp_seq put) /\
       p' = put_stored_as clk target put p))).

Lemma live_unique now target p old old' :
  live_mutable now target p old -> live_mutable now target p old' -> old' = old.
Proof.
  intros [H1 Hok1] [H2 Hok2]. rewrite H1 in H2. injection H2 as E.
  pose proof (decode_get_ok old Hok1) as E1. rewrite E, decode_get_ok in E1 by done.
  by injection E1.
Qed.
Lemma valid_unique req t1 q1 t2 q2 :
  valid_put req t1 q1 -> valid_put req t2 q2 -> t1 = t2 /\ q1 = q2.
Proof. intros [? _ (? & ? & ?) _ _] [? _ (? & ? & ?) _ _]. split; congruence. Qed.

(** A verified put is compared with the live record, then stored. *)
Section Put.
Context (clk : nat -> Z) (req : IncomingHyperRequest) (p : Persistent) (put : MutablePutRequest).
Let new := new_mutable put.
Let target := hash (mp_public_key put).
Context (Hp : storage_inv p) (Hnew : mutable_get_ok new) (Hvalid : valid_put req target put).

Let stored := put_stored_as clk target put p.

Lemma put_stored :
  (forall old, live_mutable (clk 0%nat) target p old -> mg_seq old < mp_seq put) ->
  mutable_put_post clk req p (RValue None) stored.
Proof.
  intros Hlt. split.
  - destruct Hp. split; try done. apply lru_set_inv; [|done].
    exists (mp_public_key put), new. split_and!; [done..|]. by apply Hvalid.
  - right. exists target, put. split_and!; [done..|]. right. by split_and!.
Qed.

Lemma put_refused old r :
  live_mutable (clk 0%nat) target p old ->
  mg_seq old = mp_seq put /\ r = RError SEQ_REUSED \/
  mp_seq put < mg_seq old /\ r = RError SEQ_TOO_LOW ->
  mutable_put_post clk req p r p.
Proof.
  intros Hl Hr. split; [done|right]. exists target, put. split_and!; [done..|].
  left. by exists old.
Qed.

Lemma put_store_step :
  mutable_put_post clk req p (RValue None) stored ->
  wp (o ← ok_or_none (encode_mutable_get_response_to_bytes new);
      match o with
      | Some encoded =>
          modify (fun p => with_mutables
            (LruCache_set (clk 1%nat) (to_hex target) encoded (p_mutables p)) p) ;;
          mret (RValue None)
      | None => mret RSilent
      end) p (mutable_put_post clk req p).
Proof.
  intros HQ. apply wp_bind. eapply wp_ok; [by apply encode_get_ok|].
  by apply wp_bind, wp_modify, wp_ret.
Qed.
End Put.

(** Refuting a put that lacks what the handler found missing. *)
Ltac refuse_put := split; [done|left; split_and!; [done..|]]; intros ? ?
  [? [? ?] (? & ? & ?) ? Hsig']; unfold mutable_signed, new_mutable in *;
  cbn [mg_seq mg_value mg_signature] in *; congruence.

Lemma on_mutable_put_spec clk req p :
  storage_inv p -> incoming_ok req ->
  wp (on_mutable_put clk req) p (mutable_put_post clk req p).
Proof.
  intros Hp [Htgt Htok Hval]. unfold on_mutable_put.
  apply wp_silent; [intros; refuse_put|]. intros target Ht.
  destruct (in_token req) as [token|] eqn:Hk; [|apply wp_ret; refuse_put].
  apply wp_silent; [intros; refuse_put|]. intros value Hv. apply wp_bind.
  eapply (wp_safe mutable_put_ok);
    [apply safe_from_bytes; [apply Decodes_mutable_put|by apply Hval]| |intros; apply wp_ret; refuse_put].
  intros put Hd [Hpk Hseq Hfit Hsig]. apply wp_silent; [done|]. intros ? [= <-].
  case_bool_decide as Hhash; cbn [negb]; [|apply wp_ret; refuse_put].
  apply wp_bind. eapply wp_ok; [by apply mutable_signable_spec|]. cbn [default from_option id].
  destruct (verify_detached _ _ _) eqn:Hver; cbn [negb]; [|apply wp_ret; refuse_put].
  assert (valid_put req target put) as Hvalid by (split; eauto).
  subst target. assert (mutable_get_ok (new_mutable put)) by done.
  cbv zeta. apply wp_bind, wp_get, wp_bind.
  destruct (LruCache_get _ _ (p_mutables p)) as [bytes|] eqn:Hget.
  2: { apply wp_ret, put_store_step, put_stored; [done..|]. intros old [Hl _]. congruence. }
  destruct (lru_get_forall _ _ _ _ _ (proj2 (si_mutables p Hp)) Hget) as (pk & old & _ & Hold & -> & _).
  assert (live_mutable (clk 0%nat) (hash (mp_public_key put)) p old) as Hlive by done.
  eapply wp_ok; [by apply decode_get_ok|]. cbv beta iota.
  destruct (Z.eqb_spec (mg_seq old) (mp_seq put)) as [He|He].
  { apply wp_ret. eapply put_refused; eauto. }
  destruct (Z.ltb_spec (mp_seq put) (mg_seq old)) as [Hl|Hl].
  { apply wp_ret. eapply put_refused; eauto. }
  apply put_store_step, put_stored; [done..|]. intros old' Hlive'.
  rewrite (live_unique _ _ _ old old') by done. lia.
Qed.

(** ** Reads *)

Definition find_peer_post (req : IncomingHyperRequest) (p : Persistent) (r : HandlerReply)
    (p' : Persistent) : Prop :=
  p' = p /\
  (r = RSilent \/ r = RValue None \/ exists target v pk,
     in_target req = Some target /\ r = RValue (Some v) /\ target = hash pk /\ stored_peer v pk).

Lemma hash_bytes data : bytes_ok (hash data).
Proof. apply blake2b256_ok. Qed.

(** A key determines the digest it was made from. *)
Lemma key_hash target data : fixed_ok 32 target -> to_hex target = to_hex (hash data) -> target = hash data.
Proof. intros [Ht _] E. apply to_hex_inj; [done|apply hash_bytes|done]. Qed.

Lemma on_find_peer_spec req p :
  storage_inv p -> incoming_ok req -> wp (on_find_peer req) p (find_peer_post req p).
Proof.
  intros Hp Hr. unfold on_find_peer. apply wp_silent; [by split; auto|]. intros target Ht.
  apply wp_bind, wp_get, wp_ret. split; [done|].
  destruct (p_router p !! to_hex target) as [e|] eqn:E; [|auto]. right. right.
  destruct (si_router p Hp _ _ E) as (pk & Hk & Hs). exists target, (rt_record e), pk.
  split_and!; [done..| |done]. apply key_hash; [by apply Hr|done].
Qed.

Definition mutable_get_post (now : Z) (req : IncomingHyperRequest) (p : Persistent)
    (r : HandlerReply) (p' : Persistent) : Prop :=
  p' = p /\
  (r = RSilent \/ r = RValue None \/ exists target m pk,
     in_target req = Some target /\ r = RValue (Some (wire_mutable_get m)) /\
     target = hash pk /\ mutable_get_ok m /\ mutable_signed m pk /\
     forall v seq, in_value req = Some v -> from_bytes decode_uint v = Ok seq -> seq <= mg_seq m).

Lemma mutable_get_read now req p target value o :
  storage_inv p -> incoming_ok req -> in_target req = Some target -> in_value req = Some value ->
  (forall seq, from_bytes decode_uint value = Ok seq -> o = Some seq) ->
  wp (match LruCache_get now (to_hex target) (p_mutables p) with
      | Some stored_bytes =>
          o' ← ok_or_none (decode_mutable_get_response_from_bytes stored_bytes);
          match o' with
          | Some stored => if default 0 o <=? mg_seq stored then mret (RValue (Some stored_bytes))
                           else mret (RValue None)
          | None => mret (RValue None)
          end
      | None => mret (RValue None)
      end) p (mutable_get_post now req p).
Proof.
  intros Hp Hr Ht Hv Ho. assert (mutable_get_post now req p (RValue None) p) as Hn by (split; auto).
  destruct (LruCache_get _ _ _) as [bytes|] eqn:E; [|by apply wp_ret].
  destruct (lru_get_forall _ _ _ _ _ (proj2 (si_mutables p Hp)) E) as (pk & m & Hk & Hm & -> & Hsig).
  apply wp_bind. eapply wp_ok; [by apply decode_get_ok|]. cbv beta iota.
  destruct (Z.leb_spec (default 0 o) (mg_seq m)) as [Hle|]; [|by apply wp_ret].
  apply wp_ret. split; [done|]. right. right. exists target, m, pk. split_and!; [done..| |done|done|].
  - apply key_hash; [by apply Hr|done].
  - intros v seq Hv' Hseq. simplify_eq. by rewrite (Ho seq Hseq) in Hle.
Qed.

Lemma on_mutable_get_spec now req p :
  storage_inv p -> incoming_ok req -> wp (on_mutable_get now req) p (mutable_get_post now req p).
Proof.
  intros Hp Hr. unfold on_mutable_get.
  assert (mutable_get_post now req p RSilent p) as Hs by (split; auto).
  apply wp_silent; [done|]. intros target Ht.
  apply wp_silent; [done|]. intros value Hv. apply wp_bind.
  eapply (wp_safe (in_u 64)); [apply safe_from_bytes; [apply Decodes_uint|by eapply io_value]|..].
  - intros a Ha _. cbv zeta. apply wp_bind, wp_get, mutable_get_read with value; [done..|].
    intros seq Hseq. congruence.
  - intros e He. cbv zeta. apply wp_bind, wp_get, mutable_get_read with value; [done..|].
    intros seq Hseq. congruence.
Qed.

Definition immutable_get_post (req : IncomingHyperRequest) (p : Persistent)
    (r : HandlerReply) (p' : Persistent) : Prop :=
  p' = p /\
  (r = RSilent \/ r = RValue None \/ exists v,
     in_target req = Some (hash v) /\ r = RValue (Some v)).

Lemma on_immutable_get_spec now req p :
  storage_inv p -> incoming_ok req -> wp (on_immutable_get now req) p (immutable_get_post req p).
Proof.
  intros Hp Hr. unfold on_immutable_get. apply wp_silent; [by split; auto|]. intros target Ht.
  apply wp_bind, wp_get, wp_ret. split; [done|].
  destruct (LruCache_get _ _ _) as [v|] eqn:E; [|auto]. right. right. exists v. split; [|done].
  pose proof (lru_get_forall _ _ _ _ _ (proj2 (si_immutables p Hp)) E) as Hk.
  apply key_hash in Hk; [congruence|by apply Hr].
Qed.

Definition immutable_put_post (now : Z) (req : IncomingHyperRequest) (p : Persistent)
    (r : HandlerReply) (p' : Persistent) : Prop :=
  storage_inv p' /\
  ((r = RSilent /\ p' = p) \/
   exists v, in_target req = Some (hash v) /\ in_value req = Some v /\ r = RValue None /\
     p' = with_immutables (LruCache_set now (to_hex (hash v)) v (p_immutables p)) p).

Lemma on_immutable_put_spec now req p :
  storage_inv p -> wp (on_immutable_put now req) p (immutable_put_post now req p).
Proof.
  intros Hp. unfold on_immutable_put.
  assert (immutable_put_post now req p RSilent p) as Hs by (split; auto).
  apply wp_silent; [done|]. intros target Ht.
  destruct (in_token req); [|by apply wp_ret]. apply wp_silent; [done|]. intros v Hv.
  case_bool_decide as Hh; cbn [negb]; [subst target|by apply wp_ret].
  apply wp_bind, wp_modify, wp_ret. split; [|right; eauto].
  destruct Hp. split; try done. by apply lru_set_inv.
Qed.

(** ** LOOKUP *)

Lemma decode_peers_spec bs p Q :
  Forall (fun b => exists pk, stored_peer b pk) bs ->
  (forall ps, Forall hyper_peer_ok ps -> length ps = length bs -> Q ps p) ->
  wp (decode_peers bs) p Q.
Proof.
  intros Hbs. revert Q. induction Hbs as [|b bs (pk & peer & Hp & _ & _ & ->) _ IH]; intros Q HQ;
    cbn [decode_peers].
  - by apply wp_ret, HQ.
  - apply wp_bind. eapply wp_ok; [by apply decode_peer_ok|]. apply wp_bind, IH. intros ps Hps Hl.
    apply wp_ret, HQ; [by constructor|simpl; congruence].
Qed.

Lemma records_get_stored now key max c :
  rc_forall record_authentic c ->
  Forall (fun b => exists pk, stored_peer b pk) (RecordCache_get now key max c).1 /\
  (length (RecordCache_get now key max c).1 <= max)%nat.
Proof.
  intros Hc. unfold RecordCache_get. destruct (rc_entries c !! key) as [b|] eqn:E; cbn [fst].
  - split; [|rewrite length_fmap, length_take; lia].
    apply Forall_fmap, Forall_take. eapply Forall_sublist; [apply sublist_filter|].
    eapply Forall_impl; [by apply Hc|]. intros e He. by exists (re_public_key e).
  - split; [constructor|simpl; lia].
Qed.

(** A lookup reply lists at most twenty peers. *)
Definition lookup_post (clk : nat -> Z) (req : IncomingHyperRequest) (p : Persistent)
    (r : HandlerReply) (p' : Persistent) : Prop :=
  storage_inv p' /\
  ((r = RSilent /\ p' = p) \/
   exists target, in_target req = Some target /\
     p' = with_records (RecordCache_get (clk 0%nat) (to_hex target) MAX_RECORDS_PER_LOOKUP
                          (p_records p)).2 p /\
     (r = RValue None \/ exists m, r = RValue (Some (wire_lookup m)) /\ lookup_ok m /\
        (length (lk_peers m) <= MAX_RECORDS_PER_LOOKUP)%nat)).

Lemma router_peer_spec peers key p p' (Q : list HyperPeer -> Persistent -> Prop) :
  storage_inv p -> Forall hyper_peer_ok peers ->
  (length peers <= MAX_RECORDS_PER_LOOKUP)%nat ->
  (forall ps, Forall hyper_peer_ok ps -> (length ps <= MAX_RECORDS_PER_LOOKUP)%nat -> Q ps p') ->
  wp (if (length peers <? MAX_RECORDS_PER_LOOKUP)%nat then
        match p_router p !! key with
        | Some entry =>
            o ← ok_or_none (decode_hyper_peer_from_bytes (rt_record entry));
            mret (match o with Some peer => peers ++ [peer] | None => peers end)
        | None => mret peers
        end
      else mret peers) p' Q.
Proof.
  intros Hp Hps Hl HQ. destruct (Nat.ltb_spec (length peers) MAX_RECORDS_PER_LOOKUP);
    [|by apply wp_ret, HQ].
  destruct (p_router p !! key) as [e|] eqn:E; [|by apply wp_ret, HQ].
  destruct (si_router p Hp _ _ E) as (pk & _ & peer & Hok & _ & _ & ->).
  apply wp_bind. eapply wp_ok; [by apply decode_peer_ok|]. apply wp_ret, HQ.
  - apply Forall_app. split; [done|by constructor].
  - rewrite length_app. simpl. lia.
Qed.

Lemma bump_spec key now p p' (Q : Z -> Persistent -> Prop) :
  storage_inv p -> (forall b, in_u 64 b -> Q b p') ->
  wp (match LruCache_get now key (p_bumps p) with
      | Some b => default 0 <$> ok_or_none (from_bytes decode_uint b)
      | None => mret 0
      end) p' Q.
Proof.
  intros Hp HQ. destruct (LruCache_get _ _ _) as [v|] eqn:E; [|by apply wp_ret, HQ].
  destruct (lru_get_forall _ _ _ _ _ (proj2 (si_bumps p Hp)) E) as (b & Hb & ->).
  apply wp_fmap. eapply wp_ok; [by apply from_bytes_spec, Reads_uint|]. by apply HQ.
Qed.

Lemma lookup_ok_small peers bump :
  Forall hyper_peer_ok peers -> (length peers <= MAX_RECORDS_PER_LOOKUP)%nat -> in_u 64 bump ->
  lookup_ok (mkLookup peers bump).
Proof.
  intros H1 H2 H3. split; [|done..]. cbn [lk_peers]. unfold len, MAX_RECORDS_PER_LOOKUP in *.
  pow2. lia.
Qed.

Lemma on_lookup_spec clk req p :
  storage_inv p -> wp (on_lookup clk req) p (lookup_post clk req p).
Proof.
  intros Hp. unfold on_lookup. apply wp_silent; [by split; auto|]. intros target Ht. cbv zeta.
  apply wp_bind, wp_get.
  destruct (RecordCache_get (clk 0%nat) (to_hex target) MAX_RECORDS_PER_LOOKUP (p_records p))
    as [raw records] eqn:Eg.
  destruct (records_get_stored (clk 0%nat) (to_hex target) MAX_RECORDS_PER_LOOKUP (p_records p)) as [Hraw Hlen];
    [apply Hp|]. destruct (get_inv (clk 0%nat) (to_hex target) MAX_RECORDS_PER_LOOKUP (p_records p))
    as (Hi1 & Hi2 & Hi3); [apply Hp..|]. rewrite Eg in *. cbn [fst snd] in *.
  assert (storage_inv (with_records records p)) as Hp' by (destruct Hp; by split).
  apply wp_bind, wp_modify, wp_bind, decode_peers_spec; [done|]. intros ps Hps Hl.
  apply wp_bind, router_peer_spec; [done..|lia|]. clear ps Hps Hl. intros ps Hps Hl.
  apply wp_bind, bump_spec; [done|]. intros bump Hbump.
  assert (forall r, (r = RValue None \/ exists m, r = RValue (Some (wire_lookup m)) /\ lookup_ok m /\
        (length (lk_peers m) <= MAX_RECORDS_PER_LOOKUP)%nat) ->
    lookup_post clk req p r (with_records records p)) as Hpost.
  { intros r Hr. split; [done|right]. exists target. by rewrite Eg. }
  destruct (_ && _); [apply wp_ret, Hpost; auto|]. apply wp_bind.
  pose proof (lookup_ok_small ps bump Hps Hl Hbump) as Hok.
  eapply wp_ok; [exact (codec_to_bytes (H := lookup_codec) _ Hok)|].
  apply wp_ret, Hpost. right. by exists (mkLookup ps bump).
Qed.

(** ** Sequences of requests *)


Lemma lru_new_inv P size age : size = cfg_max_lru_size cfg -> age = cfg_max_lru_age cfg ->
  lru_inv P (LruCache_new size age).
Proof.
  intros -> ->. split_and!; [|done..|].
  - unfold lc_bounded, LruCache_new. cbn [lc_entries lc_max_size]. rewrite map_size_empty. lia.
  - intros k e Hk. cbn in Hk. by rewrite lookup_empty in Hk.
Qed.

Lemma new_inv : storage_inv (Persistent_new cfg).
Proof.
  split; try by apply lru_new_inv.
  - split; cbn [Persistent_new p_records RecordCache_new rc_total rc_max_size rc_entries]; [|done|lia].
    intros k b Hk. cbn in Hk. by rewrite lookup_empty in Hk.
  - done.
  - intros k b Hk. cbn in Hk. by rewrite lookup_empty in Hk.
  - intros k e Hk. cbn in Hk. by rewrite lookup_empty in Hk.
Qed.





(** ** Theorems *)


(** C29: in a storage that satisfies the invariant of its requests, an
    announcement is answered and stored exactly when it is accepted: its value decodes to a message with a signature, the peer is in the message
    or is the one remembered under its refresh token, and the signature, over
    target, node id, token, encoded peer and refresh token in the announce
    namespace, verifies under the peer's key.  The storage is then exactly
    [announced]: the router entry in place of the topic record when the target
    is the hash of the key, else the topic record and the bump number, and the
    peer under its refresh token.  Every other request is answered with silence
    and changes nothing. *)
Theorem announce_authenticated clk node_id req p :
  storage_inv p -> incoming_ok req ->
  (forall target msg peer, accepts_announce clk node_id req p target msg peer ->
     on_announce clk node_id req p = (Ok (RValueNoToken None), announced clk req target msg peer p)) /\
  ((forall target msg peer, ~ accepts_announce clk node_id req p target msg peer) ->
     on_announce clk node_id req p = (Ok RSilent, p)).
Proof.
  intros Hp Hr. pose proof (on_announce_spec clk node_id req p Hp Hr) as Hwp. unfold wp in Hwp.
  destruct (on_announce clk node_id req p) as [[r|[]|] p']; [|done..].
  destruct Hwp as [_ [(-> & -> & Hno)|(-> & t & m & q & Ha & ->)]].
  - split; [|done]. intros t m q Ha. by destruct (Hno t m q).
  - split; [|by intros Hno; destruct (Hno t m q)]. intros t' m' q' Ha'.
    by destruct (accepts_unique _ _ _ _ _ _ _ _ _ _ Ha Ha') as (-> & -> & ->).
Qed.

(** C30: in a storage that satisfies the invariant of its requests, a mutable
    put whose key hashes to the target and whose signature over sequence number
    and value verifies is compared with the live record: an equal sequence
    number is refused with [SEQ_REUSED], a lower one with [SEQ_TOO_LOW], both
    without a change, and a put above it, or without a live record, is stored
    and answered.  Every other request is answered with silence and changes
    nothing. *)
Theorem mutable_put_ordered clk req p :
  storage_inv p -> incoming_ok req ->
  (forall target put, valid_put req target put ->
     (forall old, live_mutable (clk 0%nat) target p old -> mg_seq old = mp_seq put ->
        on_mutable_put clk req p = (Ok (RError SEQ_REUSED), p)) /\
     (forall old, live_mutable (clk 0%nat) target p old -> mp_seq put < mg_seq old ->
        on_mutable_put clk req p = (Ok (RError SEQ_TOO_LOW), p)) /\
     ((forall old, live_mutable (clk 0%nat) target p old -> mg_seq old < mp_seq put) ->
        on_mutable_put clk req p = (Ok (RValue None), put_stored_as clk target put p))) /\
  ((forall target put, ~ valid_put req target put) ->
     on_mutable_put clk req p = (Ok RSilent, p)).
Proof.
  intros Hp Hr. pose proof (on_mutable_put_spec clk req p Hp Hr) as Hwp. unfold wp in Hwp.
  destruct (on_mutable_put clk req p) as [[r|[]|] p']; [|done..].
  destruct Hwp as [_ [(-> & -> & Hno)|(t & q & Hv & _ & Hcase)]].
  { split; [|done]. intros t q Hv. by destruct (Hno t q). }
  split; [|by intros Hno; destruct (Hno t q)]. intros t' q' Hv'.
  destruct (valid_unique _ _ _ _ _ Hv Hv') as [<- <-].
  destruct Hcase as [(old & Hl & -> & [[Hs ->]|[Hs ->]])|(-> & Hlt & ->)]; split_and!.
  all: try (intros old' Hl' Hs'; rewrite (live_unique _ _ _ _ _ Hl Hl') in Hs').
  all: try done; try lia.
  all: try (intros Hlt; specialize (Hlt old Hl); lia).
  all: intros old' Hl'; specialize (Hlt old' Hl'); lia.
Qed.

(** Reads return only authentic data: a found peer record belongs to the key
    that hashes to the target, a mutable record is signed by such a key and its
    sequence number is at least the requested one, an immutable value hashes to
    the target, and a lookup reply lists at most twenty well-formed peers.
    Except for expiring old records on lookup, reads change nothing. *)
Theorem reads_authentic clk req p :
  storage_inv p -> incoming_ok req ->
  wp (on_find_peer req) p (find_peer_post req p) /\
  wp (on_mutable_get (clk 0%nat) req) p (mutable_get_post (clk 0%nat) req p) /\
  wp (on_immutable_get (clk 0%nat) req) p (immutable_get_post req p) /\
  wp (on_lookup clk req) p (lookup_post clk req p).
Proof.
  intros Hp Hr. split_and!; [by apply on_find_peer_spec|by apply on_mutable_get_spec
    |by apply on_immutable_get_spec|by apply on_lookup_spec].
Qed.

(** What a node stores it serves: after an accepted mutable put, asking the
    same target for that or a lower sequence number returns the stored record
    until it expires, and likewise for an immutable put. *)
Theorem put_then_get clk req p r p' now get_req :
  storage_inv p -> incoming_ok req -> incoming_ok get_req ->
  duration_since now (clk 1%nat) < cfg_max_lru_age cfg ->
  duration_since now (clk 0%nat) < cfg_max_lru_age cfg ->
  in_target get_req = in_target req ->
  (on_mutable_put clk req p = (Ok r, p') -> r = RValue None ->
   forall v seq, in_value get_req = Some v -> from_bytes decode_uint v = Ok seq ->
     exists put, mutable_get_ok put /\
       on_mutable_get now get_req p' =
         (Ok (RValue (if seq <=? mg_seq put then Some (wire_mutable_get put) else None)), p')) /\
  (on_immutable_put (clk 0%nat) req p = (Ok r, p') -> r = RValue None ->
     on_immutable_get now get_req p' = (Ok (RValue (in_value req)), p')).
Proof.
  intros Hp Hr Hg Hage1 Hage0 Htgt. split; intros E Hv.
  - intros v seq Hval Hseq. pose proof (on_mutable_put_spec clk req p Hp Hr) as Hwp.
    unfold wp in Hwp. rewrite E in Hwp. destruct Hwp as [_ [[? _]|Hput]]; [by subst|].
    destruct Hput as (target & put & [Ht _ _ _ _] & Hok & [(old & _ & _ & [[_ ?]|[_ ?]])|(_ & _ & ->)]);
      [by subst..|].
    exists (new_mutable put). split; [done|]. unfold put_stored_as.
    unfold on_mutable_get. rewrite Htgt, Ht, Hval. cbn [or_silent].
    erewrite bind_ok by (unfold ok_or_none; by rewrite Hseq). cbv zeta.
    erewrite bind_ok by reflexivity. cbn [with_mutables p_mutables].
    rewrite lru_get_set, (proj2 (Z.leb_gt _ _)).
    2: { by rewrite (proj2 (proj2 (proj1 (si_mutables p Hp)))). }
    erewrite bind_ok by (unfold ok_or_none; by rewrite decode_get_ok).
    cbn [default from_option id mg_seq]. by case_match.
  - pose proof (on_immutable_put_spec (clk 0%nat) req p Hp) as Hwp.
    unfold wp in Hwp. rewrite E in Hwp. destruct Hwp as [_ [[? _]|(v & Ht & Hval & _ & ->)]]; [by subst|].
    unfold on_immutable_get. rewrite Htgt, Ht. cbn [or_silent].
    erewrite bind_ok by reflexivity. cbn [with_immutables p_immutables].
    rewrite lru_get_set, (proj2 (Z.leb_gt _ _)); [by rewrite Hval|].
    by rewrite (proj2 (proj2 (proj1 (si_immutables p Hp)))).
Qed.

(** A correctly signed unannounce of any peer for a target removes the
    router entry stored under that target, also when the signing key does not
    hash to the target: a node's own announcement can be removed by anyone who
    holds a token. *)
Theorem unannounce_removes_any_entry node_id req p target token msg peer signature entry :
  in_target req = Some target -> in_token req = Some token ->
  p_router p !! to_hex target = Some entry ->
  announce_ok msg -> in_value req = Some (wire_announce msg) ->
  an_peer msg = Some peer -> an_signature msg = Some signature ->
  hash (hp_public_key peer) <> target ->
  ann_verified NS_UNANNOUNCE target token node_id peer (wire_hyper_peer peer)
    (an_refresh msg) signature = true ->
  exists p', on_unannounce node_id req p = (Ok (RValueNoToken None), p') /\
    p_router p' !! to_hex target = None.
Proof.
  intros Ht Hk _ Hok Hv Hpe Hs _ Hver. unfold on_unannounce. rewrite Ht, Hk, Hv. cbn [or_silent].
  assert (decode_announce_from_bytes (wire_announce msg) = Ok msg) as Hd
    by exact (codec_from_bytes (H := announce_codec) msg Hok).
  erewrite bind_ok by (unfold ok_or_none; by rewrite Hd). cbn [or_silent].
  rewrite Hpe, Hs. cbn [or_silent].
  erewrite bind_ok by (unfold ok_or_none; rewrite encode_peer_ok; [reflexivity|by apply Hok]).
  cbn [or_silent]. rewrite Hver. cbn [negb].
  eexists. split; [reflexivity|]. apply lookup_delete_eq.
Qed.
End Storage.

(** ** Cache behaviour that differs from the documented one *)

Section Deviations.
Context `{MapIter}.

(** Replacing a value in a full LRU cache still evicts: when some entry is
    older than the one being replaced, an entry with another key is lost though
    the cache does not grow. *)
Theorem lru_replace_evicts c now key value e0 k1 e1 :
  lc_max_size c <= LruCache_len c ->
  lc_entries c !! key = Some e0 -> lc_entries c !! k1 = Some e1 ->
  ce_inserted_at e1 < ce_inserted_at e0 ->
  exists k, k <> key /\ is_Some (lc_entries c !! k) /\
    lc_entries (LruCache_set now key value c) !! k = None /\
    LruCache_len (LruCache_set now key value c) = LruCache_len c - 1.
Proof.
  unfold LruCache_len. intros Hfull Hkey Hk1 Hlt. rewrite lru_set_eq. cbn [lc_set lc_entries].
  destruct (lru_room_spec c) as [_ [[_ [?|E]]|(_ & k & e & Hk & Hroom & Hmin)]]; [lia| |].
  { by rewrite E, lookup_empty in Hkey. }
  assert (k <> key) as Hne by (intros ->; specialize (Hmin k1 e1 Hk1); simplify_eq; lia).
  exists k. rewrite Hroom. split_and!; [done|by eexists| |].
  - rewrite lookup_insert_ne by done. apply lookup_delete_eq.
  - rewrite map_size_insert_Some, map_size_delete_Some by (eauto; by rewrite lookup_delete_ne by done; eauto).
    assert (0 < size (lc_entries c))%nat; [|lia].
    apply Nat.neq_0_lt_0. intros Hz. apply map_size_empty_iff in Hz. by rewrite Hz, lookup_empty in Hkey.
Qed.

(** A record announced under each key in turn, and looked up after it expired. *)
Definition announce_and_expire (age : Z) (pk record : list Z) (keys : list string) (c : RecordCache)
    : RecordCache :=
  foldl (fun c k => (RecordCache_get age k MAX_RECORDS_PER_LOOKUP (RecordCache_add 0 k pk record c)).2)
    c keys.

Lemma expire_one age pk record k c :
  0 <= age -> rc_max_age c = age -> 0 < rc_max_size c -> 0 < rc_max_per_key c ->
  rc_total c = 0 -> rc_entries c !! k = None ->
  (RecordCache_get age k MAX_RECORDS_PER_LOOKUP (RecordCache_add 0 k pk record c)).2 =
    rc_set (<[k := []]> (rc_entries c)) 0 c.
Proof.
  intros Hage Hm Hs Hk Ht Hn. rewrite add_unfold, Hn. cbn [mbind option_bind].
  assert (make_room k c = c) as ->.
  { unfold make_room, evict_in_bucket. rewrite Hn.
    rewrite (proj2 (Z.leb_gt _ 0)) by done. cbv zeta. by rewrite (proj2 (Z.leb_gt _ _)) by lia. }
  unfold bucket_at. rewrite Hn. unfold RecordCache_get. cbn [rc_set rc_entries rc_total rc_max_age].
  rewrite lookup_insert_eq. cbn [default from_option app].
  rewrite filter_cons_False, filter_nil by (cbn [re_inserted_at]; unfold duration_since; lia).
  cbn [snd]. rewrite insert_insert_eq, Ht. done.
Qed.

(** Looking up expired records leaves their topics behind: after announcing
    under any number of distinct topics and looking each up once it expired, the
    cache holds no record but as many topics, whatever [max_size] is. *)
Theorem expired_topics_stay size age per_key pk record keys :
  0 <= age -> 0 < size -> 0 < per_key -> NoDup keys ->
  let c := announce_and_expire age pk record keys (RecordCache_new size age per_key) in
  RecordCache_record_count c = 0 /\ RecordCache_topic_count c = len keys.
Proof.
  intros Hage Hs Hk Hnd.
  assert (forall c, rc_max_age c = age -> 0 < rc_max_size c -> 0 < rc_max_per_key c ->
    rc_total c = 0 -> (forall k, k ∈ keys -> rc_entries c !! k = None) ->
    RecordCache_record_count (announce_and_expire age pk record keys c) = 0 /\
    RecordCache_topic_count (announce_and_expire age pk record keys c) =
      RecordCache_topic_count c + len keys) as Hgen.
  { induction Hnd as [|k keys Hin Hnd IH]; intros c H1 H2 H3 H4 H5; unfold announce_and_expire;
      cbn [foldl]; [by rewrite Z.add_0_r|].
    rewrite expire_one by (done || (apply H5; left)).
    destruct (IH (rc_set (<[k := []]> (rc_entries c)) 0 c)) as [E1 E2]; [done..| |].
    - intros k' Hk'. cbn [rc_set rc_entries]. rewrite lookup_insert_ne by (by intros ->).
      apply H5. by right.
    - unfold announce_and_expire in E1, E2. split; [done|]. rewrite E2.
      unfold RecordCache_topic_count. cbn [rc_set rc_entries].
      rewrite map_size_insert_None by (apply H5; left). lens. lia. }
  cbv zeta. destruct (Hgen (RecordCache_new size age per_key)) as [E1 E2];
    [done..|by intros; apply lookup_empty|]. split; [done|]. rewrite E2.
  unfold RecordCache_topic_count, RecordCache_new. cbn [rc_entries]. by rewrite map_size_empty.
Qed.
End Deviations.

(** ** Concrete instances *)

Definition list_iter : MapIter := {|
  map_iter V m := map_to_list m;
  map_iter_perm V m := reflexivity (map_to_list m)
|}.
(** A digest that keeps the first 32 bytes, and a verifier that accepts. *)
Definition toy_crypto : CryptoPrims := {|
  blake2b256 data := take 32 ((fun z => z mod 256) <$> (data ++ replicate 32 0));
  blake2b_mac256 _ data := take 32 ((fun z => z mod 256) <$> (data ++ replicate 32 0));
  ed25519_sign _ _ := replicate 64 0;
  ed25519_public seed := take 32 ((fun z => z mod 256) <$> (seed ++ replicate 32 0));
  ed25519_valid_key _ := true;
  ed25519_verify _ _ _ := true
|}.
Lemma pad32_ok data :
  fixed_ok 32 (take 32 ((fun z => z mod 256) <$> (data ++ replicate 32 0))).
Proof.
  split.
  - apply Forall_take, Forall_fmap, Forall_forall. intros z _. cbn. unfold is_byte.
    apply Z.mod_pos_bound. lia.
  - unfold len. rewrite length_take, length_fmap, length_app, length_replicate. lia.
Qed.
Lemma toy_laws : CryptoLaws toy_crypto.
Proof. split; apply pad32_ok. Qed.

Definition toy_peer : HyperPeer := mkHyperPeer (replicate 32 7) [mkPeer "10.0.0.1" 80].
Definition toy_announce : AnnounceMessage :=
  mkAnnounce (Some toy_peer) None (Some (replicate 64 0)) 0.
Definition toy_request (cmd : Z) (target value : list Z) : IncomingHyperRequest :=
  mkIncoming cmd (Some target) (Some (replicate 32 1)) (Some value) (mkPeer "10.0.0.1" 80) None.
Lemma toy_request_ok cmd b value :
  is_byte b -> bytes_ok value -> incoming_ok (toy_request cmd (replicate 32 b) value).
Proof.
  intros Hb Hv. split; cbn.
  - intros t [= <-]. split; [exact (Forall_replicate is_byte 32 b Hb)|done].
  - intros t [= <-]. by apply (bool_decide_unpack _).
  - by intros v [= <-].
Qed.
Lemma toy_announce_ok : announce_ok toy_announce.
Proof. constructor; by apply (bool_decide_unpack _). Defined.

Abbreviation toy_storage := (Persistent_new PersistentConfig_default).
Lemma toy_storage_inv :
  storage_inv (C := toy_crypto) PersistentConfig_default toy_storage.
Proof. apply new_inv. Qed.
Definition toy_clock : nat -> Z := fun n => Z.of_nat n.

(** A peer announced under a topic with a bump number and a refresh token, and
    its announcement by that token alone. *)
Definition toy_topic_announce (peer : option HyperPeer) : AnnounceMessage :=
  mkAnnounce peer (Some (replicate 32 8)) (Some (replicate 64 0)) 4.
Definition toy_announce_request (peer : option HyperPeer) : IncomingHyperRequest :=
  toy_request ANNOUNCE (replicate 32 9) (wire_announce (toy_topic_announce peer)).
Definition toy_announced : Persistent :=
  announced (H := list_iter) (C := toy_crypto) toy_clock (toy_announce_request (Some toy_peer))
    (replicate 32 9) (toy_topic_announce (Some toy_peer)) toy_peer toy_storage.

Lemma announce_authenticated_witness :
  on_announce (H := list_iter) (H0 := toy_crypto) toy_clock (replicate 32 2)
    (toy_announce_request (Some toy_peer)) toy_storage = (Ok (RValueNoToken None), toy_announced) /\
  on_announce (H := list_iter) (H0 := toy_crypto) toy_clock (replicate 32 2)
    (toy_announce_request None) toy_storage = (Ok RSilent, toy_storage).
Proof.
  split.
  - refine (proj1 (announce_authenticated (H := list_iter) (C := toy_crypto) PersistentConfig_default
      toy_clock (replicate 32 2) (toy_announce_request (Some toy_peer)) toy_storage toy_storage_inv _)
      (replicate 32 9) (toy_topic_announce (Some toy_peer)) toy_peer _).
    + apply toy_request_ok; [done|]. apply (bool_decide_unpack _). vm_compute. done.
    + split; [done|eexists; split; [reflexivity|vm_compute; reflexivity]|by left|].
      exists (replicate 32 1), (replicate 64 0). by split_and!.
  - refine (proj2 (announce_authenticated (H := list_iter) (C := toy_crypto) PersistentConfig_default
      toy_clock (replicate 32 2) (toy_announce_request None) toy_storage toy_storage_inv _) _).
    + apply toy_request_ok; [done|]. apply (bool_decide_unpack _). vm_compute. done.
    + intros t m q [_ (v & [= <-] & Hd) Hq _].
      assert (m = toy_topic_announce None) as ->.
      { assert (decode_announce_from_bytes (wire_announce (toy_topic_announce None)) =
          Ok (toy_topic_announce None)) as E by (vm_compute; reflexivity). congruence. }
      by destruct Hq as [?|(_ & ? & ? & _ & ? & _)].
Defined.

(** A put under the digest of its key. *)
Definition toy_put : MutablePutRequest :=
  mkMutablePut (replicate 32 5) 3 [104; 105] (replicate 64 0).
Definition toy_put_request : IncomingHyperRequest :=
  toy_request MUTABLE_PUT (replicate 32 5) (wire_mutable_put toy_put).
Lemma toy_put_request_ok : incoming_ok toy_put_request.
Proof. apply toy_request_ok; [done|]. apply (bool_decide_unpack _). vm_compute. done. Qed.


Lemma toy_put_valid : valid_put (C := toy_crypto) toy_put_request (replicate 32 5) toy_put.
Proof.
  split; [done|by eexists|eexists; split; [reflexivity|vm_compute; reflexivity]
    |vm_compute; reflexivity|done].
Qed.
Definition toy_stored : Persistent :=
  put_stored_as (H := list_iter) toy_clock (replicate 32 5) toy_put toy_storage.
Lemma mutable_put_ordered_witness :
  on_mutable_put (H := list_iter) (H0 := toy_crypto) toy_clock toy_put_request toy_storage =
    (Ok (RValue None), toy_stored).
Proof.
  refine (proj2 (proj2 (proj1 (mutable_put_ordered (H := list_iter) (C := toy_crypto)
    PersistentConfig_default toy_clock toy_put_request toy_storage toy_storage_inv toy_put_request_ok)
    (replicate 32 5) toy_put toy_put_valid)) _).
  intros old [Hl _]. discriminate Hl.
Defined.

Lemma reads_authentic_witness :
  wp (on_lookup toy_clock (toy_request LOOKUP (replicate 32 5) [])) toy_storage
    (lookup_post (C := toy_crypto) PersistentConfig_default toy_clock
       (toy_request LOOKUP (replicate 32 5) []) toy_storage).
Proof.
  apply (proj2 (proj2 (proj2 (@reads_authentic toy_crypto toy_laws PersistentConfig_default toy_clock
    (toy_request LOOKUP (replicate 32 5) []) toy_storage toy_storage_inv
    ltac:(by apply toy_request_ok))))).
Defined.

Definition toy_after_put : Persistent :=
  (on_mutable_put (H := list_iter) (H0 := toy_crypto) toy_clock toy_put_request toy_storage).2.
Lemma put_then_get_witness :
  exists put, mutable_get_ok put /\
    on_mutable_get 1000 (toy_request MUTABLE_GET (replicate 32 5) [2]) toy_after_put =
      (Ok (RValue (if 2 <=? mg_seq put then Some (wire_mutable_get put) else None)), toy_after_put).
Proof.
  refine (proj1 (put_then_get (H := list_iter) (C := toy_crypto) PersistentConfig_default toy_clock
    toy_put_request toy_storage (RValue None) toy_after_put 1000
    (toy_request MUTABLE_GET (replicate 32 5) [2]) _ _ _ _ _ _) _ _ [2] 2 _ _).
  - apply toy_storage_inv.
  - apply toy_put_request_ok.
  - apply toy_request_ok; [done|]. by apply (bool_decide_unpack _).
  - reflexivity.
  - reflexivity.
  - reflexivity.
  - vm_compute. reflexivity.
  - reflexivity.
  - reflexivity.
  - vm_compute. reflexivity.
Defined.

(** A node's router entry under [replicate 32 9], and an unannounce by the key
    [replicate 32 7]. *)
Definition toy_router_storage : Persistent :=
  with_router {[ to_hex (replicate 32 9) := mkRouterEntry (mkPeer "10.0.0.9" 1) [] ]} toy_storage.
Lemma unannounce_removes_any_entry_witness :
  exists p', on_unannounce (H0 := toy_crypto) (replicate 32 2)
      (toy_request UNANNOUNCE (replicate 32 9) (wire_announce toy_announce)) toy_router_storage =
      (Ok (RValueNoToken None), p') /\
    p_router p' !! to_hex (replicate 32 9) = None.
Proof.
  apply (unannounce_removes_any_entry (C := toy_crypto) (replicate 32 2) _ toy_router_storage (replicate 32 9)
    (replicate 32 1) toy_announce toy_peer (replicate 64 0) (mkRouterEntry (mkPeer "10.0.0.9" 1) []));
    try reflexivity.
  - apply toy_announce_ok.
  - vm_compute. discriminate.
Defined.

Definition full_cache : LruCache :=
  mkLru {[ "a" := mkCacheEntry [1] 0; "b" := mkCacheEntry [2] 5 ]} 2 100.
Lemma lru_replace_evicts_witness :
  exists k, k <> "b" /\ is_Some (lc_entries full_cache !! k) /\
    lc_entries (LruCache_set (H := list_iter) 7 "b" [3] full_cache) !! k = None /\
    LruCache_len (LruCache_set (H := list_iter) 7 "b" [3] full_cache) = LruCache_len full_cache - 1.
Proof.
  apply (lru_replace_evicts (H := list_iter) full_cache 7 "b" [3] (mkCacheEntry [2] 5) "a" (mkCacheEntry [1] 0));
    [by vm_compute|reflexivity|reflexivity|done].
Defined.

Lemma expired_topics_stay_witness :
  RecordCache_topic_count (announce_and_expire (H := list_iter) 10 [] [] ["a"; "b"; "c"] (RecordCache_new 1 10 1)) = 3.
Proof.
  refine (proj2 (expired_topics_stay (H := list_iter) 1 10 1 [] [] ["a"; "b"; "c"] _ _ _ _));
    by apply (bool_decide_unpack _).
Defined.
