(* ===== verification/Noise.v ===== *)
(** * Noise: the XX and IK handshakes of [peeroxide-dht/src/noise.rs]

    The hash, the curve and the AEAD are third-party code: [NoisePrims] holds
    the functions the source calls; HMAC, HKDF, the key clamping, the cipher and
    symmetric states and both handshake state machines are modelled on top of
    them.  [Handshake] and [HandshakeIK] are two structs with the same fields,
    one record here.  A fresh ephemeral seed is an argument of [send], used when
    none was set. *)

From S2P Require Import Prelude RustStd Codec HyperdhtWire Crypto.

#[local] Open Scope Z_scope.

Inductive NoiseError := InvalidPublicKey | NDecryptionFailed | HandshakeComplete | UnexpectedState.

Class NoisePrims : Type := {
  (** [Blake2b512::digest]; updating in parts hashes the concatenation. *)
  blake2b512 : list Z -> list Z;
  (** [Sha512::digest]. *)
  sha512 : list Z -> list Z;
  (** [CompressedEdwardsY(pk).decompress()] succeeds, and the compressed product
      of its point with [Scalar::from_bytes_mod_order(scalar)]. *)
  edwards_valid : list Z -> bool;
  edwards_mul : list Z -> list Z -> list Z;
  (** ChaCha20-Poly1305 by key, nonce, additional data and message; the
      ciphertext ends in its tag. *)
  aead_encrypt : list Z -> list Z -> list Z -> list Z -> option (list Z);
  aead_decrypt : list Z -> list Z -> list Z -> list Z -> option (list Z)
}.

Record Keypair := mkKeypair { nk_public_key : list Z; nk_secret_key : list Z }.

Record HandshakeResult := mkResult {
  hr_tx : list Z;
  hr_rx : list Z;
  hr_handshake_hash : list Z;
  hr_remote_public_key : list Z
}.

Record CipherState := mkCipher { cs_key : option (list Z); cs_nonce : Z }.

Record SymmetricState := mkSymmetric {
  sy_chaining_key : list Z;
  sy_digest : list Z;
  sy_cipher : CipherState
}.

Record Handshake := mkHs {
  hk_is_initiator : bool;
  hk_step : Z;
  hk_symmetric : SymmetricState;
  hk_s : Keypair;
  hk_e : option Keypair;
  hk_re : option (list Z);
  hk_rs : option (list Z);
  hk_result : option HandshakeResult
}.
Definition HandshakeIK : Type := Handshake.

(** [Result]s inside the monad, [ok_or], and the arrays [copy_from_slice]
    fills: a panic when the lengths differ. *)
Definition from_outcome {S E A} (o : outcome E A) : M S E A := fun s => (o, s).
Definition ok_or {S E A} (o : option A) (e : E) : M S E A :=
  match o with Some a => mret a | None => throw e end.
Definition array_of {S E} (n : Z) (bs : list Z) : M S E (list Z) :=
  if len bs =? n then mret bs else panic.

Section Noise.
Context `{CryptoPrims, NoisePrims}.

(** ** HMAC and HKDF *)

Definition BLOCKLEN : nat := 128.

Definition hmac_blake2b (key data : list Z) : list Z :=
  let hkey :=
    if (BLOCKLEN <? length key)%nat then blake2b512 key ++ replicate 64 0
    else key ++ replicate (BLOCKLEN - length key) 0 in
  let ipad := (fun b => Z.lxor b 0x36) <$> hkey in
  let opad := (fun b => Z.lxor b 0x5c) <$> hkey in
  let inner := blake2b512 (ipad ++ data) in
  blake2b512 (opad ++ inner).

Definition hkdf (chaining_key input_key_material : list Z) : list Z * list Z :=
  let temp_key := hmac_blake2b chaining_key input_key_material in
  let output1 := hmac_blake2b temp_key [0x01] in
  let output2 := hmac_blake2b temp_key (output1 ++ [0x02]) in
  (output1, output2).

(** ** Diffie-Hellman *)

Definition upd_byte (i : nat) (f : Z -> Z) (bs : list Z) : list Z := alter f i bs.

(** The clamped scalar of a seed. *)
Definition secret_scalar (seed : list Z) : list Z :=
  let hash := sha512 seed in
  let hash := upd_byte 0 (fun b => Z.land b 248) hash in
  let hash := upd_byte 31 (fun b => Z.land b 127) hash in
  let hash := upd_byte 31 (fun b => Z.lor b 64) hash in
  take 32 hash.

Definition ed25519_dh (secret_key public_key : list Z) : outcome NoiseError (list Z) :=
  let scalar := secret_scalar (take 32 secret_key) in
  if edwards_valid public_key then Ok (edwards_mul scalar public_key) else Err InvalidPublicKey.

Definition noise_keypair_from_seed (seed : list Z) : Keypair :=
  let pub_key := ed25519_public seed in mkKeypair pub_key (seed ++ pub_key).

(** ** The cipher state *)

Definition CipherState_new : CipherState := mkCipher None 0.
Definition CipherState_has_key (c : CipherState) : bool := bool_decide (is_Some (cs_key c)).
Definition CipherState_set_key (key : list Z) (c : CipherState) : CipherState := mkCipher (Some key) 0.
Definition build_nonce (nonce : Z) : list Z := replicate 4 0 ++ to_le 8 nonce.

Definition CipherState_encrypt (plaintext ad : list Z) : M CipherState NoiseError (list Z) := fun c =>
  match cs_key c with
  | None => (Ok plaintext, c)
  | Some key =>
      match aead_encrypt key (build_nonce (cs_nonce c)) ad plaintext with
      | Some ciphertext => (Ok ciphertext, mkCipher (Some key) (as_u64 (cs_nonce c + 1)))
      | None => (Err NDecryptionFailed, c)
      end
  end.
Definition CipherState_decrypt (ciphertext ad : list Z) : M CipherState NoiseError (list Z) := fun c =>
  match cs_key c with
  | None => (Ok ciphertext, c)
  | Some key =>
      match aead_decrypt key (build_nonce (cs_nonce c)) ad ciphertext with
      | Some plaintext => (Ok plaintext, mkCipher (Some key) (as_u64 (cs_nonce c + 1)))
      | None => (Err NDecryptionFailed, c)
      end
  end.

(** ** The symmetric state *)

Definition PROTOCOL_NAME : list Z := string_bytes "Noise_XX_Ed25519_ChaChaPoly_BLAKE2b".
Definition PROTOCOL_NAME_IK : list Z := string_bytes "Noise_IK_Ed25519_ChaChaPoly_BLAKE2b".

Definition SymmetricState_new (protocol_name : list Z) : SymmetricState :=
  let digest :=
    if (length protocol_name <=? 64)%nat then protocol_name ++ replicate (64 - length protocol_name) 0
    else blake2b512 protocol_name in
  mkSymmetric digest digest CipherState_new.

Definition mix_hash_of (data : list Z) (s : SymmetricState) : SymmetricState :=
  mkSymmetric (sy_chaining_key s) (blake2b512 (sy_digest s ++ data)) (sy_cipher s).
Definition mix_key_of (dh_output : list Z) (s : SymmetricState) : SymmetricState :=
  let '(ck, temp_k) := hkdf (sy_chaining_key s) dh_output in
  mkSymmetric ck (sy_digest s) (CipherState_set_key (take 32 temp_k) (sy_cipher s)).

Abbreviation SymM := (M SymmetricState NoiseError).
Definition mix_hash (data : list Z) : SymM unit := fun s => (Ok tt, mix_hash_of data s).
Definition mix_key (dh_output : list Z) : SymM unit := fun s => (Ok tt, mix_key_of dh_output s).
Definition on_cipher {A} (f : M CipherState NoiseError A) : SymM A := fun s =>
  let '(o, c) := f (sy_cipher s) in (o, mkSymmetric (sy_chaining_key s) (sy_digest s) c).

Definition encrypt_and_hash (plaintext : list Z) : SymM (list Z) :=
  s ← get;
  ciphertext ← on_cipher (CipherState_encrypt plaintext (sy_digest s));
  mix_hash ciphertext ;; mret ciphertext.
Definition decrypt_and_hash (ciphertext : list Z) : SymM (list Z) :=
  s ← get;
  plaintext ← on_cipher (CipherState_decrypt ciphertext (sy_digest s));
  mix_hash ciphertext ;; mret plaintext.

Definition split (s : SymmetricState) : list Z * list Z :=
  let '(t1, t2) := hkdf (sy_chaining_key s) [] in (take 32 t1, take 32 t2).

(** ** The handshake monad *)

Abbreviation HsM := (M Handshake NoiseError).
Definition on_symmetric {A} (f : SymM A) : HsM A := fun h =>
  let '(o, s) := f (hk_symmetric h) in
  (o, mkHs (hk_is_initiator h) (hk_step h) s (hk_s h) (hk_e h) (hk_re h) (hk_rs h) (hk_result h)).
Definition set_step (n : Z) : HsM unit := fun h =>
  (Ok tt, mkHs (hk_is_initiator h) n (hk_symmetric h) (hk_s h) (hk_e h) (hk_re h) (hk_rs h) (hk_result h)).
Definition set_e (e : option Keypair) : HsM unit := fun h =>
  (Ok tt, mkHs (hk_is_initiator h) (hk_step h) (hk_symmetric h) (hk_s h) e (hk_re h) (hk_rs h) (hk_result h)).
Definition set_re (re : list Z) : HsM unit := fun h =>
  (Ok tt, mkHs (hk_is_initiator h) (hk_step h) (hk_symmetric h) (hk_s h) (hk_e h) (Some re) (hk_rs h) (hk_result h)).
Definition set_rs (rs : list Z) : HsM unit := fun h =>
  (Ok tt, mkHs (hk_is_initiator h) (hk_step h) (hk_symmetric h) (hk_s h) (hk_e h) (hk_re h) (Some rs) (hk_result h)).
Definition set_result (r : HandshakeResult) : HsM unit := fun h =>
  (Ok tt, mkHs (hk_is_initiator h) (hk_step h) (hk_symmetric h) (hk_s h) (hk_e h) (hk_re h) (hk_rs h) (Some r)).

Definition has_key : HsM bool := h ← get; mret (CipherState_has_key (sy_cipher (hk_symmetric h))).
(** [self.e.take().unwrap_or_else(generate_keypair)] *)
Definition take_ephemeral (fresh : list Z) : HsM Keypair :=
  h ← get; set_e None ;; mret (default (noise_keypair_from_seed fresh) (hk_e h)).
(** [symmetric.mix_key(&ed25519_dh(..)?)] *)
Definition mix_dh (secret_key public_key : list Z) : HsM unit :=
  dh ← from_outcome (ed25519_dh secret_key public_key);
  on_symmetric (mix_key dh).
(** The static key, encrypted: its length depends on whether there is a key. *)
Definition enc_static_len : HsM Z := b ← has_key; mret (if b : bool then 32 + 16 else 32).

Definition complete (h : Handshake) : bool := bool_decide (is_Some (hk_result h)).

(** ** Noise XX *)

Definition Handshake_new (is_initiator : bool) (keypair : Keypair) : Handshake :=
  mkHs is_initiator 0 (mix_hash_of [] (SymmetricState_new PROTOCOL_NAME)) keypair None None None None.
Definition set_ephemeral (keypair : Keypair) (h : Handshake) : Handshake :=
  mkHs (hk_is_initiator h) (hk_step h) (hk_symmetric h) (hk_s h) (Some keypair) (hk_re h) (hk_rs h) (hk_result h).

Definition initiator_send_m1 (fresh : list Z) : HsM (list Z) :=
  e ← take_ephemeral fresh;
  on_symmetric (mix_hash (nk_public_key e)) ;;
  set_e (Some e) ;;
  payload_enc ← on_symmetric (encrypt_and_hash []);
  set_step 1 ;;
  mret (nk_public_key e ++ payload_enc).

Definition responder_recv_m1 (message : list Z) : HsM (option HandshakeResult) :=
  if len message <? 32 then throw UnexpectedState
  else
    let re := take 32 message in
    on_symmetric (mix_hash re) ;;
    set_re re ;;
    on_symmetric (decrypt_and_hash (drop 32 message)) ;;
    set_step 1 ;;
    mret None.

Definition responder_send_m2 (fresh : list Z) : HsM (list Z) :=
  h ← get;
  re ← ok_or (hk_re h) UnexpectedState;
  e ← take_ephemeral fresh;
  on_symmetric (mix_hash (nk_public_key e)) ;;
  mix_dh (nk_secret_key e) re ;;
  enc_s ← on_symmetric (encrypt_and_hash (nk_public_key (hk_s h)));
  mix_dh (nk_secret_key (hk_s h)) re ;;
  set_e (Some e) ;;
  enc_payload ← on_symmetric (encrypt_and_hash []);
  set_step 2 ;;
  mret (nk_public_key e ++ enc_s ++ enc_payload).

Definition initiator_recv_m2 (message : list Z) : HsM (option HandshakeResult) :=
  if len message <? 96 then throw UnexpectedState
  else
    h ← get;
    e ← ok_or (hk_e h) UnexpectedState;
    let re := take 32 message in
    on_symmetric (mix_hash re) ;;
    set_re re ;;
    mix_dh (nk_secret_key e) re ;;
    enc_s_len ← enc_static_len;
    if len message <? 32 + enc_s_len then throw UnexpectedState
    else
      rs_bytes ← on_symmetric (decrypt_and_hash (slice message 32 (32 + enc_s_len)));
      rs ← array_of 32 rs_bytes;
      set_rs rs ;;
      mix_dh (nk_secret_key e) rs ;;
      on_symmetric (decrypt_and_hash (drop (Z.to_nat (32 + enc_s_len)) message)) ;;
      set_step 2 ;;
      mret None.

(** The result: [tx] and [rx] are swapped for the responder. *)
Definition finish (is_initiator : bool) (remote : list Z) (step : Z) : HsM HandshakeResult :=
  h ← get;
  let '(k1, k2) := split (hk_symmetric h) in
  let result :=
    if is_initiator then mkResult k1 k2 (sy_digest (hk_symmetric h)) remote
    else mkResult k2 k1 (sy_digest (hk_symmetric h)) remote in
  set_result result ;; set_step step ;; mret result.

Definition initiator_send_m3 : HsM (list Z) :=
  h ← get;
  re ← ok_or (hk_re h) UnexpectedState;
  enc_s ← on_symmetric (encrypt_and_hash (nk_public_key (hk_s h)));
  mix_dh (nk_secret_key (hk_s h)) re ;;
  enc_payload ← on_symmetric (encrypt_and_hash []);
  finish true (default (replicate 32 0) (hk_rs h)) 3 ;;
  mret (enc_s ++ enc_payload).

Definition responder_recv_m3 (message : list Z) : HsM (option HandshakeResult) :=
  if len message <? 64 then throw UnexpectedState
  else
    h ← get;
    e ← ok_or (hk_e h) UnexpectedState;
    enc_s_len ← enc_static_len;
    rs_bytes ← on_symmetric (decrypt_and_hash (slice message 0 enc_s_len));
    rs ← array_of 32 rs_bytes;
    set_rs rs ;;
    mix_dh (nk_secret_key e) rs ;;
    on_symmetric (decrypt_and_hash (drop (Z.to_nat enc_s_len) message)) ;;
    result ← finish false rs 3;
    mret (Some result).

Definition Handshake_send (fresh : list Z) : HsM (list Z) :=
  h ← get;
  if complete h then throw HandshakeComplete
  else match hk_is_initiator h, hk_step h with
       | true, 0 => initiator_send_m1 fresh
       | false, 1 => responder_send_m2 fresh
       | true, 2 => initiator_send_m3
       | _, _ => throw UnexpectedState
       end.

Definition Handshake_recv (message : list Z) : HsM (option HandshakeResult) :=
  h ← get;
  if complete h then throw HandshakeComplete
  else match hk_is_initiator h, hk_step h with
       | false, 0 => responder_recv_m1 message
       | true, 1 => initiator_recv_m2 message
       | false, 2 => responder_recv_m3 message
       | _, _ => throw UnexpectedState
       end.

(** ** Noise IK *)

Definition HandshakeIK_new_initiator (keypair : Keypair) (remote_static prologue : list Z) : HandshakeIK :=
  let sym := mix_hash_of remote_static (mix_hash_of prologue (SymmetricState_new PROTOCOL_NAME_IK)) in
  mkHs true 0 sym keypair None None (Some remote_static) None.
Definition HandshakeIK_new_responder (keypair : Keypair) (prologue : list Z) : HandshakeIK :=
  let sym := mix_hash_of (nk_public_key keypair) (mix_hash_of prologue (SymmetricState_new PROTOCOL_NAME_IK)) in
  mkHs false 0 sym keypair None None None None.

Definition ik_initiator_send_m1 (fresh payload : list Z) : HsM (list Z) :=
  h ← get;
  rs ← ok_or (hk_rs h) UnexpectedState;
  e ← take_ephemeral fresh;
  on_symmetric (mix_hash (nk_public_key e)) ;;
  mix_dh (nk_secret_key e) rs ;;
  enc_s ← on_symmetric (encrypt_and_hash (nk_public_key (hk_s h)));
  mix_dh (nk_secret_key (hk_s h)) rs ;;
  set_e (Some e) ;;
  enc_payload ← on_symmetric (encrypt_and_hash payload);
  set_step 1 ;;
  mret (nk_public_key e ++ enc_s ++ enc_payload).

Definition ik_responder_recv_m1 (message : list Z) : HsM (list Z) :=
  if len message <? 96 then throw UnexpectedState
  else
    h ← get;
    let re := take 32 message in
    on_symmetric (mix_hash re) ;;
    set_re re ;;
    mix_dh (nk_secret_key (hk_s h)) re ;;
    enc_s_len ← enc_static_len;
    if len message <? 32 + enc_s_len then throw UnexpectedState
    else
      rs_bytes ← on_symmetric (decrypt_and_hash (slice message 32 (32 + enc_s_len)));
      rs ← array_of 32 rs_bytes;
      set_rs rs ;;
      mix_dh (nk_secret_key (hk_s h)) rs ;;
      payload ← on_symmetric (decrypt_and_hash (drop (Z.to_nat (32 + enc_s_len)) message));
      set_step 1 ;;
      mret payload.

Definition ik_responder_send_m2 (fresh payload : list Z) : HsM (list Z) :=
  h ← get;
  re ← ok_or (hk_re h) UnexpectedState;
  rs ← ok_or (hk_rs h) UnexpectedState;
  e ← take_ephemeral fresh;
  on_symmetric (mix_hash (nk_public_key e)) ;;
  mix_dh (nk_secret_key e) re ;;
  mix_dh (nk_secret_key e) rs ;;
  set_e (Some e) ;;
  enc_payload ← on_symmetric (encrypt_and_hash payload);
  finish false (default (replicate 32 0) (hk_rs h)) 2 ;;
  mret (nk_public_key e ++ enc_payload).

Definition ik_initiator_recv_m2 (message : list Z) : HsM (list Z) :=
  if len message <? 48 then throw UnexpectedState
  else
    h ← get;
    e ← ok_or (hk_e h) UnexpectedState;
    let re := take 32 message in
    on_symmetric (mix_hash re) ;;
    set_re re ;;
    mix_dh (nk_secret_key e) re ;;
    mix_dh (nk_secret_key (hk_s h)) re ;;
    payload ← on_symmetric (decrypt_and_hash (drop 32 message));
    finish true (default (replicate 32 0) (hk_rs h)) 2 ;;
    mret payload.

Definition HandshakeIK_send (fresh payload : list Z) : HsM (list Z) :=
  h ← get;
  if complete h then throw HandshakeComplete
  else match hk_is_initiator h, hk_step h with
       | true, 0 => ik_initiator_send_m1 fresh payload
       | false, 1 => ik_responder_send_m2 fresh payload
       | _, _ => throw UnexpectedState
       end.

Definition HandshakeIK_recv (message : list Z) : HsM (list Z) :=
  h ← get;
  if complete h then throw HandshakeComplete
  else match hk_is_initiator h, hk_step h with
       | false, 0 => ik_responder_recv_m1 message
       | true, 1 => ik_initiator_recv_m2 message
       | _, _ => throw UnexpectedState
       end.

(** ** What the source relies on

    A digest has 64 bytes; the AEAD decrypts what it encrypted, encrypts every
    message the cipher admits, adds 16 bytes and takes them away; public keys of
    seeds are points, a product is 32 bytes, and both sides of an exchange get
    the same one. *)
Class NoiseLaws : Prop := {
  nl_blake2b512 data : fixed_ok 64 (blake2b512 data);
  nl_encrypt key nonce ad pt : len pt < 2 ^ 38 - 64 ->
    exists ct, aead_encrypt key nonce ad pt = Some ct /\ len ct = len pt + 16 /\
      aead_decrypt key nonce ad ct = Some pt;
  nl_decrypt key nonce ad ct pt : aead_decrypt key nonce ad ct = Some pt -> len ct = len pt + 16;
  nl_valid seed : edwards_valid (ed25519_public seed) = true;
  nl_agree a b :
    edwards_mul (secret_scalar a) (ed25519_public b) = edwards_mul (secret_scalar b) (ed25519_public a)
}.
End Noise.
