(* ===== verification/ToyNoise.v ===== *)
(** * ToyNoise: a concrete curve and AEAD for the witnesses

    The point of a seed is its scalar, the product of two is their bytewise
    sum; the AEAD appends a 16-byte digest of key, nonce, data and message. *)

From S2P Require Import Prelude RustStd Codec Crypto ToyCrypto Noise.

#[local] Open Scope Z_scope.

Definition tail_digest64 (data : list Z) : list Z :=
  rev (take 64 (rev ((fun z => z mod 256) <$> (replicate 64 0 ++ data)))).
Definition toy_tag (key nonce ad pt : list Z) : list Z :=
  take 16 (rev (tail_digest (nonce ++ take 4 key ++ take 4 ad ++ pt))).
Definition toy_encrypt (key nonce ad pt : list Z) : option (list Z) := Some (pt ++ toy_tag key nonce ad pt).
Definition toy_decrypt (key nonce ad ct : list Z) : option (list Z) :=
  let pt := take (length ct - 16) ct in
  if bool_decide (drop (length ct - 16) ct = toy_tag key nonce ad pt) then Some pt else None.
Definition toy_noise : NoisePrims := {|
  blake2b512 := tail_digest64;
  sha512 := tail_digest64;
  edwards_valid _ := true;
  edwards_mul := zip_with (fun x y => (x + y) mod 256);
  aead_encrypt := toy_encrypt;
  aead_decrypt := toy_decrypt
|}.
Definition toy_crypto : CryptoPrims := {|
  blake2b256 := tail_digest;
  blake2b_mac256 _ := tail_digest;
  ed25519_sign _ _ := replicate 64 0;
  ed25519_public := @secret_scalar toy_noise;
  ed25519_valid_key _ := true;
  ed25519_verify _ _ _ := true
|}.

Lemma tail_digest64_ok data : fixed_ok 64 (tail_digest64 data).
Proof.
  unfold tail_digest64. split.
  - apply Forall_rev, Forall_take, Forall_rev, Forall_fmap, Forall_forall. intros z _. cbn.
    unfold is_byte. apply Z.mod_pos_bound. lia.
  - unfold len. rewrite length_rev, length_take, length_rev, length_fmap, length_app, length_replicate. lia.
Qed.
Lemma upd_byte_ok i f bs : bytes_ok bs -> (forall b, is_byte b -> is_byte (f b)) -> bytes_ok (upd_byte i f bs).
Proof. intros Hb Hf. apply Forall_alter; [done|]. intros x _ Hx. by apply Hf. Qed.
(** A check of all 256 bytes. *)
Lemma all_bytes (P : Z -> Prop) `{forall b, Decision (P b)} :
  bool_decide (Forall P (seqZ 0 256)) = true -> forall b, is_byte b -> P b.
Proof.
  intros Hd b Hb. apply bool_decide_eq_true in Hd. rewrite Forall_forall in Hd. apply Hd, elem_of_seqZ, Hb.
Qed.
Lemma toy_public_ok seed : fixed_ok 32 (@secret_scalar toy_noise seed).
Proof.
  destruct (tail_digest64_ok seed) as [Hb Hl]. unfold secret_scalar. cbn [sha512 toy_noise]. split.
  - apply Forall_take. apply upd_byte_ok; [apply upd_byte_ok; [apply upd_byte_ok; [exact Hb|]|]|].
    + by apply (all_bytes (fun b => is_byte (Z.land b 248))).
    + by apply (all_bytes (fun b => is_byte (Z.land b 127))).
    + by apply (all_bytes (fun b => is_byte (Z.lor b 64))).
  - unfold len, upd_byte in *. rewrite length_take, !length_alter. lia.
Qed.
#[global] Instance toy_crypto_laws : CryptoLaws toy_crypto.
Proof. split; [apply tail_digest_ok|apply toy_public_ok]. Qed.

Lemma toy_tag_length key nonce ad pt : length (toy_tag key nonce ad pt) = 16%nat.
Proof.
  unfold toy_tag. rewrite length_take, length_rev.
  pose proof (tail_digest_ok (nonce ++ take 4 key ++ take 4 ad ++ pt)) as [_ Hl]. unfold len in Hl. lia.
Qed.
Lemma toy_opens key nonce ad pt : toy_decrypt key nonce ad (pt ++ toy_tag key nonce ad pt) = Some pt.
Proof.
  unfold toy_decrypt. rewrite length_app, toy_tag_length.
  replace (length pt + 16 - 16)%nat with (length pt) by lia.
  rewrite take_app_length, drop_app_length. by rewrite bool_decide_eq_true_2.
Qed.
Lemma toy_decrypt_len key nonce ad ct pt : toy_decrypt key nonce ad ct = Some pt -> len ct = len pt + 16.
Proof.
  unfold toy_decrypt. case_bool_decide as E; [|done]. intros [= <-]. apply (f_equal length) in E.
  rewrite toy_tag_length, length_drop in E. unfold len. rewrite length_take. lia.
Qed.
#[global] Instance toy_noise_laws : @NoiseLaws toy_crypto toy_noise.
Proof.
  split.
  - apply tail_digest64_ok.
  - intros key nonce ad pt _. exists (pt ++ toy_tag key nonce ad pt). split_and!; [done| |apply toy_opens].
    rewrite len_app. unfold len at 2. by rewrite toy_tag_length.
  - apply toy_decrypt_len.
  - done.
  - intros a b. cbn [edwards_mul toy_noise ed25519_public toy_crypto]. generalize (@secret_scalar toy_noise b).
    induction (@secret_scalar toy_noise a) as [|x l IH]; intros [|y k]; cbn; [done..|]. by rewrite Z.add_comm, IH.
Qed.
