(* ===== verification/NoiseTheorems.v ===== *)
(** * NoiseTheorems: both sides of the XX and IK handshakes agree

    The two symmetric states walk through the same sequence of values: what one
    side encrypts the other decrypts from the same state, and both mix the same
    Diffie-Hellman outputs. *)

From S2P Require Import Prelude RustStd Codec HyperdhtWire Crypto ToyCrypto Noise ToyNoise.

#[local] Open Scope Z_scope.

Section NoiseTheorems.
Context `{CryptoPrims} `{!CryptoLaws _} `{NoisePrims} `{!NoiseLaws}.

(** ** Diffie-Hellman and the symmetric state *)

Lemma public_len seed : len (ed25519_public seed) = 32.
Proof. apply ed25519_public_ok. Qed.

Lemma dh_seed a b : len a = 32 ->
  ed25519_dh (nk_secret_key (noise_keypair_from_seed a)) (ed25519_public b)
  = Ok (edwards_mul (secret_scalar a) (ed25519_public b)).
Proof.
  intros Ha. unfold ed25519_dh, noise_keypair_from_seed. cbn [nk_secret_key].
  rewrite nl_valid, take_app_length' by (unfold len in Ha; lia). done.
Qed.

Definition sym_keyed (s : SymmetricState) : Prop := is_Some (cs_key (sy_cipher s)).

Lemma mix_key_keyed d s : sym_keyed (mix_key_of d s).
Proof. unfold mix_key_of. destruct (hkdf _ _) as [ck tk]. by exists (take 32 tk). Qed.
Lemma mix_hash_keyed d s : sym_keyed s -> sym_keyed (mix_hash_of d s).
Proof. done. Qed.
Lemma mix_hash_new_key d s : cs_key (sy_cipher (mix_hash_of d s)) = cs_key (sy_cipher s).
Proof. done. Qed.

(** What one side encrypts, the other decrypts from the same state, and both
    end in the same state. *)
Lemma seal_open s pt : sym_keyed s -> len pt < 2 ^ 38 - 64 ->
  exists ct s', encrypt_and_hash pt s = (Ok ct, s') /\ decrypt_and_hash ct s = (Ok pt, s') /\
    len ct = len pt + 16 /\ sym_keyed s'.
Proof.
  intros [k Hk] Hpt. destruct s as [ck d [key n]]. cbn in Hk. subst key.
  destruct (nl_encrypt k (build_nonce n) d pt Hpt) as (ct & He & Hl & Hd).
  exists ct, (mix_hash_of ct (mkSymmetric ck d (mkCipher (Some k) (as_u64 (n + 1))))).
  repeat split; [| |done|by exists k].
  - unfold encrypt_and_hash, mbind, M_bind, on_cipher, CipherState_encrypt, get, mret, M_ret, mix_hash.
    cbn [cs_key cs_nonce sy_cipher sy_digest sy_chaining_key]. by rewrite He.
  - unfold decrypt_and_hash, mbind, M_bind, on_cipher, CipherState_decrypt, get, mret, M_ret, mix_hash.
    cbn [cs_key cs_nonce sy_cipher sy_digest sy_chaining_key]. by rewrite Hd.
Qed.
Lemma seal_open_plain s pt : cs_key (sy_cipher s) = None ->
  encrypt_and_hash pt s = (Ok pt, mix_hash_of pt s) /\ decrypt_and_hash pt s = (Ok pt, mix_hash_of pt s).
Proof. destruct s as [ck d [key n]]. intros Hk. cbn in Hk. by subst key. Qed.

(** ** Running the handshake monad *)

Abbreviation hs_with h s :=
  (mkHs (hk_is_initiator h) (hk_step h) s (hk_s h) (hk_e h) (hk_re h) (hk_rs h) (hk_result h)).

Lemma on_symmetric_run {A} (f : M SymmetricState NoiseError A) h (o : A) s' :
  f (hk_symmetric h) = (Ok o, s') -> on_symmetric f h = (Ok o, hs_with h s').
Proof. unfold on_symmetric. by intros ->. Qed.
Lemma mix_hash_run d h : on_symmetric (mix_hash d) h = (Ok tt, hs_with h (mix_hash_of d (hk_symmetric h))).
Proof. done. Qed.
Lemma mix_dh_run sk pk d h : ed25519_dh sk pk = Ok d ->
  mix_dh sk pk h = (Ok tt, hs_with h (mix_key_of d (hk_symmetric h))).
Proof. unfold mix_dh, mbind, M_bind, from_outcome. by intros ->. Qed.
Lemma enc_static_run h : sym_keyed (hk_symmetric h) -> enc_static_len h = (Ok 48, h).
Proof.
  intros Hk. unfold enc_static_len, has_key, mbind, M_bind, get, mret, M_ret.
  unfold CipherState_has_key. by rewrite bool_decide_eq_true_2.
Qed.
Lemma array_run {S E} n bs (s : S) : len bs = n -> array_of (E := E) n bs s = (Ok bs, s).
Proof. unfold array_of. intros <-. by rewrite Z.eqb_refl. Qed.

(** The session a completed symmetric state stands for. *)
Definition session_of (is_initiator : bool) (s : SymmetricState) (remote : list Z) : HandshakeResult :=
  let '(k1, k2) := split s in
  if is_initiator then mkResult k1 k2 (sy_digest s) remote else mkResult k2 k1 (sy_digest s) remote.

Lemma finish_run b remote n h : finish b remote n h =
  (Ok (session_of b (hk_symmetric h) remote),
   mkHs (hk_is_initiator h) n (hk_symmetric h) (hk_s h) (hk_e h) (hk_re h) (hk_rs h)
     (Some (session_of b (hk_symmetric h) remote))).
Proof. unfold session_of. by destruct b. Qed.

Lemma ltb_no a b : b <= a -> (a <? b) = false.
Proof. intros. by apply Z.ltb_ge. Qed.

(** The parts of a message of two or three pieces. *)
Lemma take_head (a b : list Z) n : length a = n -> take n (a ++ b) = a.
Proof. intros <-. apply take_app_length. Qed.
Lemma drop_head (a b : list Z) n : length a = n -> drop n (a ++ b) = b.
Proof. intros <-. apply drop_app_length. Qed.
Lemma slice_head (a b : list Z) n : len a = n -> slice (a ++ b) 0 n = a.
Proof. intros <-. unfold slice. rewrite drop_0, Z.sub_0_r, to_nat_len. by apply take_head. Qed.
Lemma slice_second (a b c : list Z) n m : len a = n -> len b = m -> slice (a ++ b ++ c) n (n + m) = b.
Proof.
  intros <- <-. unfold slice. rewrite to_nat_len, drop_head by done.
  rewrite Z.add_simpl_l, to_nat_len. by apply take_head.
Qed.
Lemma drop_two (a b c : list Z) n m : len a = n -> len b = m ->
  drop (Z.to_nat (n + m)) (a ++ b ++ c) = c.
Proof.
  intros <- <-. rewrite app_assoc, drop_head; [done|]. rewrite length_app. unfold len. lia.
Qed.

(** ** IK

    Seeds of the statics and of the ephemerals: [si], [sr], [ei], [er]. *)

Ltac hs_norm :=
  cbn [hk_is_initiator hk_step hk_symmetric hk_s hk_e hk_re hk_rs hk_result
       nk_public_key noise_keypair_from_seed default from_option].
Ltac hs_run := repeat (first
  [ erewrite bind_ok by (apply mix_dh_run; eassumption)
  | erewrite bind_ok by (apply on_symmetric_run; eassumption)
  | erewrite bind_ok by (apply enc_static_run; first [eassumption | apply mix_key_keyed])
  | erewrite bind_ok by (apply array_run; apply public_len)
  | erewrite bind_ok by apply finish_run
  | erewrite bind_ok by reflexivity ]; hs_norm).

Definition seed_ok (seed : list Z) : Prop := len seed = 32.

(** The first message, from two equal symmetric states. *)
Lemma ik_first si sr ei s0 payload :
  seed_ok si -> seed_ok sr -> seed_ok ei -> len payload < 2 ^ 38 - 64 ->
  exists m s, 
    ik_initiator_send_m1 ei payload
      (mkHs true 0 s0 (noise_keypair_from_seed si) None None (Some (ed25519_public sr)) None)
    = (Ok m, mkHs true 1 s (noise_keypair_from_seed si) (Some (noise_keypair_from_seed ei)) None
        (Some (ed25519_public sr)) None) /\
    ik_responder_recv_m1 m (mkHs false 0 s0 (noise_keypair_from_seed sr) None None None None)
    = (Ok payload, mkHs false 1 s (noise_keypair_from_seed sr) None (Some (ed25519_public ei))
        (Some (ed25519_public si)) None) /\ sym_keyed s.
Proof.
  intros Hi Hr He Hp.
  pose proof (dh_seed ei sr He) as D1. pose proof (dh_seed sr ei Hr) as D1'. rewrite (nl_agree sr ei) in D1'.
  pose proof (dh_seed si sr Hi) as D2. pose proof (dh_seed sr si Hr) as D2'. rewrite (nl_agree sr si) in D2'.
  destruct (seal_open (mix_key_of (edwards_mul (secret_scalar ei) (ed25519_public sr))
    (mix_hash_of (ed25519_public ei) s0)) (ed25519_public si)) as (c1 & s1 & E1 & O1 & L1 & K1).
  { apply mix_key_keyed. } { rewrite public_len. lia. } rewrite public_len in L1.
  destruct (seal_open (mix_key_of (edwards_mul (secret_scalar si) (ed25519_public sr)) s1) payload)
    as (c2 & s2 & E2 & O2 & L2 & K2); [apply mix_key_keyed|done|].
  exists (ed25519_public ei ++ c1 ++ c2), s2. split_and!; [| |done].
  - unfold ik_initiator_send_m1. hs_run. done.
  - unfold ik_responder_recv_m1. rewrite ltb_no.
    2: { lens. rewrite public_len. pose proof (len_nonneg payload). lia. }
    rewrite take_head by (pose proof (public_len ei) as L; unfold len in L; lia).
    hs_run.
    rewrite ltb_no by (lens; rewrite public_len; pose proof (len_nonneg payload); lia).
    rewrite slice_second by (rewrite ?public_len; lia).
    rewrite drop_two by (rewrite ?public_len; lia).
    hs_run. done.
Qed.

(** The reply completes both sides with the keys of one symmetric state. *)
Lemma ik_second si sr ei er s0 payload :
  seed_ok si -> seed_ok er -> seed_ok ei -> len payload < 2 ^ 38 - 64 ->
  exists m s hr hi,
    ik_responder_send_m2 er payload (mkHs false 1 s0 (noise_keypair_from_seed sr) None
        (Some (ed25519_public ei)) (Some (ed25519_public si)) None) = (Ok m, hr) /\
    ik_initiator_recv_m2 m (mkHs true 1 s0 (noise_keypair_from_seed si) (Some (noise_keypair_from_seed ei)) None
        (Some (ed25519_public sr)) None) = (Ok payload, hi) /\
    hk_result hr = Some (session_of false s (ed25519_public si)) /\
    hk_result hi = Some (session_of true s (ed25519_public sr)) /\ len m = len payload + 48.
Proof.
  intros Hi Hr He Hp.
  pose proof (dh_seed er ei Hr) as D1. pose proof (dh_seed ei er He) as D1'. rewrite (nl_agree ei er) in D1'.
  pose proof (dh_seed er si Hr) as D2. pose proof (dh_seed si er Hi) as D2'. rewrite (nl_agree si er) in D2'.
  destruct (seal_open (mix_key_of (edwards_mul (secret_scalar er) (ed25519_public si))
      (mix_key_of (edwards_mul (secret_scalar er) (ed25519_public ei)) (mix_hash_of (ed25519_public er) s0)))
    payload) as (c1 & s1 & E1 & O1 & L1 & K1); [apply mix_key_keyed|done|].
  eexists (ed25519_public er ++ c1), s1, _, _. split_and!.
  - unfold ik_responder_send_m2. hs_run. reflexivity.
  - unfold ik_initiator_recv_m2.
    rewrite ltb_no by (lens; rewrite public_len; pose proof (len_nonneg payload); lia).
    assert (length (ed25519_public er) = 32%nat) as L by (pose proof (public_len er) as L; unfold len in L; lia).
    rewrite take_head, drop_head by done.
    hs_run. reflexivity.
  - reflexivity.
  - reflexivity.
  - rewrite len_app, public_len, L1. lia.
Qed.

(** ** XX *)

Abbreviation kp := noise_keypair_from_seed.
Abbreviation pub := ed25519_public.

(** The first message is sent in the clear. *)
Lemma xx_first si sr ei s0 : cs_key (sy_cipher s0) = None ->
  exists m s,
    initiator_send_m1 ei (mkHs true 0 s0 (kp si) None None None None)
    = (Ok m, mkHs true 1 s (kp si) (Some (kp ei)) None None None) /\
    responder_recv_m1 m (mkHs false 0 s0 (kp sr) None None None None)
    = (Ok None, mkHs false 1 s (kp sr) None (Some (pub ei)) None None) /\ len m = 32.
Proof.
  intros Hk. destruct (seal_open_plain (mix_hash_of (pub ei) s0) []) as [E O]; [done|].
  eexists (pub ei ++ []), _. split_and!.
  - unfold initiator_send_m1. hs_run. reflexivity.
  - unfold responder_recv_m1. rewrite ltb_no by (lens; rewrite public_len; lia).
    assert (length (pub ei) = 32%nat) as L by (pose proof (public_len ei) as L; unfold len in L; lia).
    rewrite take_head, drop_head by done. hs_run. reflexivity.
  - lens. rewrite public_len. done.
Qed.

(** The second carries the responder's static key. *)
Lemma xx_second si sr ei er s0 : seed_ok ei -> seed_ok er -> seed_ok sr ->
  exists m s,
    responder_send_m2 er (mkHs false 1 s0 (kp sr) None (Some (pub ei)) None None)
    = (Ok m, mkHs false 2 s (kp sr) (Some (kp er)) (Some (pub ei)) None None) /\
    initiator_recv_m2 m (mkHs true 1 s0 (kp si) (Some (kp ei)) None None None)
    = (Ok None, mkHs true 2 s (kp si) (Some (kp ei)) (Some (pub er)) (Some (pub sr)) None) /\
    sym_keyed s /\ len m = 96.
Proof.
  intros Hi He Hr.
  pose proof (dh_seed er ei He) as D1. pose proof (dh_seed ei er Hi) as D1'. rewrite (nl_agree ei er) in D1'.
  pose proof (dh_seed sr ei Hr) as D2. pose proof (dh_seed ei sr Hi) as D2'. rewrite (nl_agree ei sr) in D2'.
  destruct (seal_open (mix_key_of (edwards_mul (secret_scalar er) (pub ei)) (mix_hash_of (pub er) s0)) (pub sr))
    as (c1 & s1 & E1 & O1 & L1 & K1); [apply mix_key_keyed|rewrite public_len; lia|].
  rewrite public_len in L1.
  destruct (seal_open (mix_key_of (edwards_mul (secret_scalar sr) (pub ei)) s1) [])
    as (c2 & s2 & E2 & O2 & L2 & K2); [apply mix_key_keyed|done|].
  change (len []) with 0 in L2.
  exists (pub er ++ c1 ++ c2), s2. split_and!; [| |done|lens; rewrite public_len; lia].
  - unfold responder_send_m2. hs_run. reflexivity.
  - unfold initiator_recv_m2. rewrite ltb_no by (lens; rewrite public_len; lia).
    rewrite take_head by (pose proof (public_len er) as L; unfold len in L; lia).
    hs_run. rewrite ltb_no by (lens; rewrite public_len; lia).
    rewrite slice_second by (rewrite ?public_len; lia).
    rewrite drop_two by (rewrite ?public_len; lia). hs_run. reflexivity.
Qed.

(** The third carries the initiator's, and completes both sides. *)
Lemma xx_third si sr ei er s0 : seed_ok si -> seed_ok er -> sym_keyed s0 ->
  exists m s hi hr,
    initiator_send_m3 (mkHs true 2 s0 (kp si) (Some (kp ei)) (Some (pub er)) (Some (pub sr)) None) = (Ok m, hi) /\
    responder_recv_m3 m (mkHs false 2 s0 (kp sr) (Some (kp er)) (Some (pub ei)) None None)
    = (Ok (Some (session_of false s (pub si))), hr) /\
    hk_result hi = Some (session_of true s (pub sr)) /\
    hk_result hr = Some (session_of false s (pub si)) /\ len m = 64.
Proof.
  intros Hi Hr K0.
  pose proof (dh_seed si er Hi) as D1. pose proof (dh_seed er si Hr) as D1'. rewrite (nl_agree er si) in D1'.
  destruct (seal_open s0 (pub si)) as (c1 & s1 & E1 & O1 & L1 & K1); [done|rewrite public_len; lia|].
  rewrite public_len in L1.
  destruct (seal_open (mix_key_of (edwards_mul (secret_scalar si) (pub er)) s1) [])
    as (c2 & s2 & E2 & O2 & L2 & K2); [apply mix_key_keyed|done|].
  change (len []) with 0 in L2.
  eexists (c1 ++ c2), s2, _, _. split_and!; [| | | |lens; lia].
  - unfold initiator_send_m3. hs_run. reflexivity.
  - unfold responder_recv_m3. rewrite ltb_no by (lens; lia). hs_run.
    rewrite slice_head by lia. rewrite drop_head by (unfold len in L1; lia). hs_run. reflexivity.
  - reflexivity.
  - reflexivity.
Qed.

(** ** No message panics *)

Definition no_panic {S E A} (m : M S E A) (s : S) : Prop := fst (m s) <> Panic.
Lemma no_panic_bind {S E A B} (m : M S E A) (f : A -> M S E B) s :
  no_panic m s -> (forall a s', m s = (Ok a, s') -> no_panic (f a) s') -> no_panic (m ≫= f) s.
Proof. unfold no_panic, mbind, M_bind. destruct (m s) as [[a|e|] s']; cbn; auto. Qed.
Lemma no_panic_step {S E A B} (m : M S E A) (f : A -> M S E B) s a s' :
  m s = (Ok a, s') -> no_panic (f a) s' -> no_panic (m ≫= f) s.
Proof. intros Hm. unfold no_panic. by rewrite (bind_ok _ _ _ _ _ Hm). Qed.
Lemma no_panic_ok {S E A} (m : M S E A) s a s' : m s = (Ok a, s') -> no_panic m s.
Proof. unfold no_panic. by intros ->. Qed.
Lemma no_panic_throw {S E A} (e : E) (s : S) : no_panic (throw (A := A) e) s.
Proof. done. Qed.
Lemma no_panic_ok_or {S E A} (o : option A) (e : E) (s : S) : no_panic (ok_or o e) s.
Proof. by destruct o. Qed.
Lemma no_panic_dh sk pk h : no_panic (mix_dh sk pk) h.
Proof. unfold no_panic, mix_dh, ed25519_dh, from_outcome, mbind, M_bind. by destruct (edwards_valid pk). Qed.
Lemma no_panic_seal pt h : no_panic (on_symmetric (encrypt_and_hash pt)) h.
Proof.
  unfold no_panic, on_symmetric, encrypt_and_hash, on_cipher, CipherState_encrypt, mbind, M_bind, get.
  destruct (cs_key _) as [k|]; [|done]. by destruct (aead_encrypt _ _ _ _).
Qed.
Lemma no_panic_open ct h : no_panic (on_symmetric (decrypt_and_hash ct)) h.
Proof.
  unfold no_panic, on_symmetric, decrypt_and_hash, on_cipher, CipherState_decrypt, mbind, M_bind, get.
  destruct (cs_key _) as [k|]; [|done]. by destruct (aead_decrypt _ _ _ _).
Qed.
Lemma no_panic_finish b remote n h : no_panic (finish b remote n) h.
Proof. unfold no_panic. by rewrite finish_run. Qed.

(** The ciphertext of a static key opens to 32 bytes. *)
Definition static_len (h : Handshake) : Z := if CipherState_has_key (sy_cipher (hk_symmetric h)) then 48 else 32.
Lemma enc_static_any h : enc_static_len h = (Ok (static_len h), h).
Proof. unfold static_len. unfold enc_static_len, has_key, mbind, M_bind, get. by destruct (CipherState_has_key _). Qed.
Lemma static_opens ct h pt h' : len ct = static_len h ->
  on_symmetric (decrypt_and_hash ct) h = (Ok pt, h') -> len pt = 32.
Proof.
  unfold static_len, CipherState_has_key, on_symmetric, decrypt_and_hash, on_cipher, CipherState_decrypt,
    mbind, M_bind, get, mret, M_ret, mix_hash.
  destruct (cs_key _) as [k|] eqn:Ek.
  - rewrite bool_decide_eq_true_2 by eauto. intros Hl. destruct (aead_decrypt _ _ _ _) as [p|] eqn:Ed; [|done].
    intros [= <- _]. apply nl_decrypt in Ed. lia.
  - rewrite bool_decide_eq_false_2 by (by intros []). intros Hl [= <- _]. done.
Qed.

Ltac np := repeat first
  [ apply no_panic_throw | apply no_panic_ok_or | apply no_panic_dh | apply no_panic_seal
  | apply no_panic_open | apply no_panic_finish
  | lazymatch goal with
    | |- no_panic (enc_static_len ≫= _) _ => fail
    | |- _ => apply no_panic_bind; [|intros ? ? ?]
    end
  | done ].

Lemma static_np {A} message a n h (f : list Z -> M Handshake NoiseError A) :
  0 <= a -> n = a + static_len h -> n <= len message ->
  (forall rs h', no_panic (f rs) h') ->
  no_panic (bytes ← on_symmetric (decrypt_and_hash (slice message a n)); rs ← array_of 32 bytes; f rs) h.
Proof.
  intros Ha Hn Hl Hf. apply no_panic_bind; [apply no_panic_open|]. intros bs h' E.
  apply static_opens in E.
  - apply no_panic_bind; [eapply no_panic_ok; by apply array_run|]. intros rs h2 _. apply Hf.
  - rewrite slice_len; [lia|split; [done|]|done]. unfold static_len in Hn. destruct (CipherState_has_key _) in Hn; lia.
Qed.

Lemma static_len_le h : 32 <= static_len h <= 48.
Proof. unfold static_len. destruct (CipherState_has_key _); lia. Qed.

Lemma np_static_rest {A} message h (f : list Z -> Z -> M Handshake NoiseError A) :
  (forall rs n h', no_panic (f rs n) h') ->
  no_panic (n ← enc_static_len;
    if len message <? 32 + n then throw UnexpectedState
    else bytes ← on_symmetric (decrypt_and_hash (slice message 32 (32 + n))); rs ← array_of 32 bytes; f rs n) h.
Proof.
  intros Hf. apply (no_panic_step _ _ _ _ _ (enc_static_any h)).
  destruct (Z.ltb_spec (len message) (32 + static_len h)); [done|].
  apply static_np; [lia..|]. intros. apply Hf.
Qed.

Lemma xx_recv_no_panic message h : no_panic (Handshake_recv message) h.
Proof.
  unfold Handshake_recv. np. destruct (complete _); [np|].
  destruct (hk_is_initiator _), (hk_step _) as [|[?|[?|?|]|]|]; np.
  - unfold initiator_recv_m2. destruct (len message <? 96); np.
    apply np_static_rest. intros. np.
  - unfold responder_recv_m1. destruct (len message <? 32); np.
  - unfold responder_recv_m3. destruct (Z.ltb_spec (len message) 64); np.
    apply (no_panic_step _ _ _ _ _ (enc_static_any _)).
    match goal with |- no_panic _ ?h => pose proof (static_len_le h) end.
    apply static_np; [lia..|]. intros. np.
Qed.

Lemma ik_recv_no_panic message h : no_panic (HandshakeIK_recv message) h.
Proof.
  unfold HandshakeIK_recv. np. destruct (complete _); [np|].
  destruct (hk_is_initiator _), (hk_step _) as [|[?|[?|?|]|]|]; np.
  - unfold ik_initiator_recv_m2. destruct (len message <? 48); np.
  - unfold ik_responder_recv_m1. destruct (len message <? 96); np.
    apply np_static_rest. intros. np.
Qed.

Lemma xx_send_no_panic fresh h : no_panic (Handshake_send fresh) h.
Proof.
  unfold Handshake_send. np. destruct (complete _); [np|].
  destruct (hk_is_initiator _), (hk_step _) as [|[?|[?|?|]|]|]; np;
    unfold initiator_send_m1, responder_send_m2, initiator_send_m3, take_ephemeral, set_e; np.
Qed.

Lemma ik_send_no_panic fresh payload h : no_panic (HandshakeIK_send fresh payload) h.
Proof.
  unfold HandshakeIK_send. np. destruct (complete _); [np|].
  destruct (hk_is_initiator _), (hk_step _) as [|[?|[?|?|]|]|]; np;
    unfold ik_initiator_send_m1, ik_responder_send_m2, take_ephemeral, set_e; np.
Qed.

(** ** The two handshakes *)

(** Both sides are complete: what one sends with the other receives with, they
    have the same transcript hash, and each knows the other's static key. *)
Definition agreed (pki pkr : list Z) (hi hr : Handshake) : Prop :=
  exists ri rr, hk_result hi = Some ri /\ hk_result hr = Some rr /\
    hr_tx ri = hr_rx rr /\ hr_rx ri = hr_tx rr /\ hr_handshake_hash ri = hr_handshake_hash rr /\
    hr_remote_public_key ri = pkr /\ hr_remote_public_key rr = pki.

Lemma agreed_session s pki pkr hi hr : hk_result hi = Some (session_of true s pkr) ->
  hk_result hr = Some (session_of false s pki) -> agreed pki pkr hi hr.
Proof. intros Hi Hr. eexists _, _. split_and!; [exact Hi|exact Hr|..]; unfold session_of; by destruct (split s). Qed.

(** A Noise IK handshake between an initiator that knows the responder's static
    key and the responder delivers both payloads and completes both sides in
    agreement, for every prologue and every choice of seeds. *)
Lemma ik_exchange si sr ei er prologue p1 p2 :
  seed_ok si -> seed_ok sr -> seed_ok ei -> seed_ok er -> len p1 < 2 ^ 38 - 64 -> len p2 < 2 ^ 38 - 64 ->
  exists m1 m2 hi1 hr1 hi2 hr2,
    HandshakeIK_send ei p1 (HandshakeIK_new_initiator (noise_keypair_from_seed si) (ed25519_public sr) prologue)
    = (Ok m1, hi1) /\
    HandshakeIK_recv m1 (HandshakeIK_new_responder (noise_keypair_from_seed sr) prologue) = (Ok p1, hr1) /\
    HandshakeIK_send er p2 hr1 = (Ok m2, hr2) /\
    HandshakeIK_recv m2 hi1 = (Ok p2, hi2) /\ len m2 = len p2 + 48 /\
    agreed (ed25519_public si) (ed25519_public sr) hi2 hr2.
Proof.
  intros Hsi Hsr Hei Her Hp1 Hp2.
  destruct (ik_first si sr ei (mix_hash_of (ed25519_public sr) (mix_hash_of prologue
    (SymmetricState_new PROTOCOL_NAME_IK))) p1) as (m1 & s1 & E1 & R1 & _); [done..|].
  destruct (ik_second si sr ei er s1 p2) as (m2 & s2 & hr & hi & E2 & R2 & Hr & Hi & L2); [done..|].
  eexists m1, m2, _, _, hi, hr. split_and!; [exact E1|exact R1|exact E2|exact R2|exact L2|by eapply agreed_session].
Qed.

(** A Noise XX handshake of two parties that know nothing of each other
    completes both sides in agreement, each holding the other's static key; the
    messages have the sizes of the wire protocol, 32, 96 and 64 bytes.  The
    third message takes no ephemeral. *)
Lemma xx_exchange_agrees si sr ei er e3 :
  seed_ok si -> seed_ok sr -> seed_ok ei -> seed_ok er ->
  exists m1 m2 m3 hi1 hi2 hi3 hr1 hr2 hr3 result,
    Handshake_send ei (Handshake_new true (noise_keypair_from_seed si)) = (Ok m1, hi1) /\ len m1 = 32 /\
    Handshake_recv m1 (Handshake_new false (noise_keypair_from_seed sr)) = (Ok None, hr1) /\
    Handshake_send er hr1 = (Ok m2, hr2) /\ len m2 = 96 /\
    Handshake_recv m2 hi1 = (Ok None, hi2) /\
    Handshake_send e3 hi2 = (Ok m3, hi3) /\ len m3 = 64 /\
    Handshake_recv m3 hr2 = (Ok (Some result), hr3) /\ hk_result hr3 = Some result /\
    agreed (ed25519_public si) (ed25519_public sr) hi3 hr3.
Proof.
  intros Hsi Hsr Hei Her.
  destruct (xx_first si sr ei (mix_hash_of [] (SymmetricState_new PROTOCOL_NAME)))
    as (m1 & s1 & E1 & R1 & L1); [done|].
  destruct (xx_second si sr ei er s1) as (m2 & s2 & E2 & R2 & K2 & L2); [done..|].
  destruct (xx_third si sr ei er s2) as (m3 & s3 & hi & hr & E3 & R3 & Hi & Hr & L3); [done..|].
  eexists m1, m2, m3, _, _, hi, _, _, hr, _.
  split_and!; [exact E1|exact L1|exact R1|exact E2|exact L2|exact R2|exact E3|exact L3|exact R3|exact Hr|].
  by eapply agreed_session.
Qed.
End NoiseTheorems.

(** Neither handshake panics, in any state, whatever bytes arrive. *)
Theorem noise_never_panics `{CryptoPrims} `{NoisePrims} `{!NoiseLaws} (h : Handshake) fresh payload message :
  fst (Handshake_send fresh h) <> Panic /\ fst (Handshake_recv message h) <> Panic /\
  fst (HandshakeIK_send fresh payload h) <> Panic /\ fst (HandshakeIK_recv message h) <> Panic.
Proof.
  split_and!; [apply xx_send_no_panic|apply xx_recv_no_panic|apply ik_send_no_panic|apply ik_recv_no_panic].
Qed.

Module NoiseExamples.
Definition seed (b : Z) : list Z := replicate 32 b.
Lemma seed_good b : seed_ok (seed b).
Proof. done. Qed.
End NoiseExamples.
Import NoiseExamples.
#[local] Existing Instances toy_crypto toy_noise.

Lemma noise_never_panics_witness :
  fst (Handshake_send (seed 3) (Handshake_new false (mkKeypair [] []))) <> Panic /\
  fst (Handshake_recv [1] (Handshake_new false (mkKeypair [] []))) <> Panic /\
  fst (HandshakeIK_send (seed 3) [] (Handshake_new false (mkKeypair [] []))) <> Panic /\
  fst (HandshakeIK_recv [1] (Handshake_new false (mkKeypair [] []))) <> Panic.
Proof. apply noise_never_panics. Defined.
