(* ===== verification/NoiseWrap.v ===== *)
(** * NoiseWrap: the typed handshake of [noise_wrap.rs] and the payload box of
    [secure_payload.rs], both of [peeroxide-dht/src].

    [NoiseWrap] runs the IK handshake with encoded [NoisePayload]s and derives
    the hole-punch secret; [SecurePayload] seals [HolepunchPayload]s under it.
    XSalsa20-Poly1305 is third-party code: [BoxPrims]. *)

From S2P Require Import Prelude RustStd CompactEncoding Codec HyperdhtMessages HyperdhtWire PayloadWire Crypto Noise.

#[local] Open Scope Z_scope.

Inductive NoiseWrapError :=
| NwNoise (e : NoiseError)
| NwEncoding (e : EncodingError)
| NotComplete.

Record NoiseWrapResult := mkNoiseWrapResult {
  nr_is_initiator : bool;
  nr_remote_public_key : list Z;
  nr_holepunch_secret : list Z;
  nr_handshake_hash : list Z;
  nr_tx : list Z;
  nr_rx : list Z
}.

Record NoiseWrap := mkNoiseWrap { nw_handshake : HandshakeIK; nw_is_initiator : bool }.

Inductive SecurePayloadError := SpEncoding (e : EncodingError) | EncryptFailed | DecryptFailed | BufferTooShort.

Record SecurePayload := mkSecurePayload { sp_shared_secret : list Z; sp_local_secret : list Z }.

Class BoxPrims : Type := {
  (** [encrypt_in_place_detached] by key, nonce and message: tag and ciphertext. *)
  box_seal : list Z -> list Z -> list Z -> option (list Z * list Z);
  (** [decrypt_in_place_detached] by key, nonce, tag and ciphertext. *)
  box_open : list Z -> list Z -> list Z -> list Z -> option (list Z)
}.

(** The box opens what it sealed, every message the cipher admits; a tag has 16
    bytes and the ciphertext is as long as the message. *)
Class BoxLaws `{BoxPrims} : Prop := {
  bl_seal key nonce msg : len msg < 2 ^ 38 ->
    exists tag ct, box_seal key nonce msg = Some (tag, ct) /\ len tag = 16 /\ len ct = len msg /\
      box_open key nonce tag ct = Some msg
}.

(** [map_err] on a [Result]. *)
Definition map_err {E F A} (f : E -> F) (o : outcome E A) : outcome F A :=
  match o with Ok a => Ok a | Err e => Err (f e) | Panic => Panic end.

Section NoiseWrap.
Context `{CryptoPrims, NoisePrims, BoxPrims}.

Definition derive_holepunch_secret (handshake_hash : list Z) : list Z :=
  blake2b_mac256 handshake_hash NS_PEER_HOLEPUNCH.

Definition NoiseWrap_new_initiator (keypair : Keypair) (remote_public_key : list Z) : NoiseWrap :=
  mkNoiseWrap (HandshakeIK_new_initiator keypair remote_public_key NS_PEER_HANDSHAKE) true.
Definition NoiseWrap_new_responder (keypair : Keypair) : NoiseWrap :=
  mkNoiseWrap (HandshakeIK_new_responder keypair NS_PEER_HANDSHAKE) false.

(** A step of the inner handshake, its errors wrapped. *)
Definition on_handshake {A} (f : M HandshakeIK NoiseError A) : M NoiseWrap NoiseWrapError A := fun nw =>
  let '(o, h) := f (nw_handshake nw) in (map_err NwNoise o, mkNoiseWrap h (nw_is_initiator nw)).

Definition NoiseWrap_send (fresh : list Z) (payload : NoisePayload) : M NoiseWrap NoiseWrapError (list Z) :=
  encoded ← from_outcome (map_err NwEncoding (encode_noise_payload_to_bytes payload));
  on_handshake (HandshakeIK_send fresh encoded).

Definition NoiseWrap_recv (buf : list Z) : M NoiseWrap NoiseWrapError NoisePayload :=
  plaintext ← on_handshake (HandshakeIK_recv buf);
  from_outcome (map_err NwEncoding (decode_noise_payload_from_bytes plaintext)).

Definition NoiseWrap_finalize (nw : NoiseWrap) : outcome NoiseWrapError NoiseWrapResult :=
  match hk_result (nw_handshake nw) with
  | None => Err NotComplete
  | Some hr =>
      Ok (mkNoiseWrapResult (nw_is_initiator nw) (hr_remote_public_key hr)
            (derive_holepunch_secret (hr_handshake_hash hr)) (hr_handshake_hash hr) (hr_tx hr) (hr_rx hr))
  end.

Definition NoiseWrap_complete (nw : NoiseWrap) : bool := complete (nw_handshake nw).
Definition NoiseWrap_set_ephemeral (keypair : Keypair) (nw : NoiseWrap) : NoiseWrap :=
  mkNoiseWrap (set_ephemeral keypair (nw_handshake nw)) (nw_is_initiator nw).

(** ** SecurePayload: nonce, tag, ciphertext *)

Definition NONCE_SIZE : Z := 24.
Definition TAG_SIZE : Z := 16.

(** [new] draws the local secret at random, an argument here. *)
Definition SecurePayload_with_local_secret (holepunch_secret local_secret : list Z) : SecurePayload :=
  mkSecurePayload holepunch_secret local_secret.

(** [encrypt] is this with a random nonce. *)
Definition SecurePayload_encrypt_with_nonce (sp : SecurePayload) (payload : HolepunchPayload)
    (nonce : list Z) : outcome SecurePayloadError (list Z) :=
  encoded ← map_err SpEncoding (encode_holepunch_payload_to_bytes payload);
  match box_seal (sp_shared_secret sp) nonce encoded with
  | None => Err EncryptFailed
  | Some (tag, ciphertext) => Ok (nonce ++ tag ++ ciphertext)
  end.

Definition SecurePayload_decrypt (sp : SecurePayload) (buffer : list Z)
    : outcome SecurePayloadError HolepunchPayload :=
  let min_len := NONCE_SIZE + TAG_SIZE + 1 in
  if len buffer <? min_len then Err BufferTooShort
  else
    let nonce := slice buffer 0 NONCE_SIZE in
    let tag := slice buffer NONCE_SIZE (NONCE_SIZE + TAG_SIZE) in
    match box_open (sp_shared_secret sp) nonce tag (drop (Z.to_nat (NONCE_SIZE + TAG_SIZE)) buffer) with
    | None => Err DecryptFailed
    | Some plaintext => map_err SpEncoding (decode_holepunch_payload_from_bytes plaintext)
    end.

Definition SecurePayload_token (sp : SecurePayload) (host : string) : list Z :=
  blake2b_mac256 (sp_local_secret sp) (string_bytes host).
End NoiseWrap.
