(* ===== verification/NoiseWrapTheorems.v ===== *)
(** * NoiseWrapTheorems: the handshake sets up a channel for hole-punch payloads *)

From S2P Require Import Prelude RustStd CompactEncoding Codec Messages HyperdhtMessages HyperdhtWire PayloadWire HyperdhtTheorems Crypto ToyCrypto Noise ToyNoise NoiseTheorems NoiseWrap.

#[local] Open Scope Z_scope.

Section NoiseWrapTheorems.
Context `{CryptoPrims} `{!CryptoLaws _} `{NoisePrims} `{!NoiseLaws} `{BoxPrims} `{!BoxLaws}.

Lemma on_handshake_run {A} (f : M HandshakeIK NoiseError A) nw a h :
  f (nw_handshake nw) = (Ok a, h) -> on_handshake f nw = (Ok a, mkNoiseWrap h (nw_is_initiator nw)).
Proof. unfold on_handshake. by intros ->. Qed.

Lemma encode_noise_ok p : noise_payload_ok p -> encode_noise_payload_to_bytes p = Ok (wire_noise_payload p).
Proof. intros Hp. apply (roundtrip (H := noise_payload_codec)), Hp. Qed.
Lemma decode_noise_ok p : noise_payload_ok p -> decode_noise_payload_from_bytes (wire_noise_payload p) = Ok p.
Proof. intros Hp. apply (roundtrip (H := noise_payload_codec)), Hp. Qed.

Lemma encode_punch_ok p :
  holepunch_payload_ok p -> encode_holepunch_payload_to_bytes p = Ok (wire_holepunch_payload p).
Proof. intros Hp. apply (roundtrip (H := holepunch_payload_codec)), Hp. Qed.
Lemma decode_punch_ok p :
  holepunch_payload_ok p -> decode_holepunch_payload_from_bytes (wire_holepunch_payload p) = Ok p.
Proof. intros Hp. apply (roundtrip (H := holepunch_payload_codec)), Hp. Qed.

Lemma wrap_send_run fresh p nw m h : noise_payload_ok p ->
  HandshakeIK_send fresh (wire_noise_payload p) (nw_handshake nw) = (Ok m, h) ->
  NoiseWrap_send fresh p nw = (Ok m, mkNoiseWrap h (nw_is_initiator nw)).
Proof.
  intros Hp Hs. unfold NoiseWrap_send, from_outcome. rewrite encode_noise_ok by done.
  cbn [map_err]. unfold mbind, M_bind. by apply on_handshake_run.
Qed.
Lemma wrap_recv_run p nw m h : noise_payload_ok p ->
  HandshakeIK_recv m (nw_handshake nw) = (Ok (wire_noise_payload p), h) ->
  NoiseWrap_recv m nw = (Ok p, mkNoiseWrap h (nw_is_initiator nw)).
Proof.
  intros Hp Hs. unfold NoiseWrap_recv. rewrite (bind_ok _ _ _ _ _ (on_handshake_run _ _ _ _ Hs)).
  unfold from_outcome. by rewrite decode_noise_ok.
Qed.

(** ** The box *)

Lemma box_inverts sp sp' p nonce :
  sp_shared_secret sp = sp_shared_secret sp' -> holepunch_payload_ok p -> len nonce = 24 ->
  len (wire_holepunch_payload p) < 2 ^ 38 ->
  exists buffer, SecurePayload_encrypt_with_nonce sp p nonce = Ok buffer /\
    SecurePayload_decrypt sp' buffer = Ok p /\ len buffer = 40 + len (wire_holepunch_payload p).
Proof.
  intros Hs Hp Hn Hl.
  destruct (bl_seal (sp_shared_secret sp) nonce (wire_holepunch_payload p) Hl) as (tag & ct & E & Lt & Lc & O).
  exists (nonce ++ tag ++ ct).
  split_and!.
  - unfold SecurePayload_encrypt_with_nonce.
    rewrite encode_punch_ok by done. unfold mbind, outcome_bind. cbn [map_err]. by rewrite E.
  - unfold SecurePayload_decrypt. rewrite ltb_no.
    2: { lens. assert (1 <= len (wire_holepunch_payload p)); [|unfold NONCE_SIZE, TAG_SIZE; lia].
         unfold wire_holepunch_payload. rewrite len_app. unfold len. cbn. lia. }
    rewrite slice_head by done. unfold NONCE_SIZE, TAG_SIZE.
    rewrite slice_second, drop_two by done. rewrite <- Hs, O.
    by rewrite decode_punch_ok.
  - lens. lia.
Qed.

(** ** The whole handshake *)

(** Finalised sessions of the two ends of one connection. *)
Definition session_pair (pki pkr : list Z) (ri rr : NoiseWrapResult) : Prop :=
  nr_is_initiator ri = true /\ nr_is_initiator rr = false /\
  nr_tx ri = nr_rx rr /\ nr_rx ri = nr_tx rr /\
  nr_handshake_hash ri = nr_handshake_hash rr /\ nr_holepunch_secret ri = nr_holepunch_secret rr /\
  nr_remote_public_key ri = pkr /\ nr_remote_public_key rr = pki.

Lemma finalize_agreed pki pkr hi hr : agreed pki pkr hi hr ->
  exists ri rr, NoiseWrap_finalize (mkNoiseWrap hi true) = Ok ri /\
    NoiseWrap_finalize (mkNoiseWrap hr false) = Ok rr /\ session_pair pki pkr ri rr.
Proof.
  intros (ri & rr & Ei & Er & Ht & Hr & Hh & Hk & Hk'). unfold NoiseWrap_finalize. cbn [nw_handshake].
  rewrite Ei, Er. eexists _, _. split_and!; [done..|]. unfold session_pair. cbn.
  split_and!; try done. by rewrite Hh.
Qed.
End NoiseWrapTheorems.

Section NoiseWrapClaims.
Context `{CryptoPrims} `{!CryptoLaws _} `{NoisePrims} `{!NoiseLaws} `{BoxPrims} `{!BoxLaws}.

Lemma wrap_exchange si sr ei er p1 p2 :
  seed_ok si -> seed_ok sr -> seed_ok ei -> seed_ok er -> noise_payload_ok p1 -> noise_payload_ok p2 ->
  len (wire_noise_payload p1) < 2 ^ 38 - 64 -> len (wire_noise_payload p2) < 2 ^ 38 - 64 ->
  exists m1 m2 i1 r1 i2 r2 ri rr,
    NoiseWrap_send ei p1 (NoiseWrap_new_initiator (noise_keypair_from_seed si) (ed25519_public sr)) = (Ok m1, i1) /\
    NoiseWrap_recv m1 (NoiseWrap_new_responder (noise_keypair_from_seed sr)) = (Ok p1, r1) /\
    NoiseWrap_send er p2 r1 = (Ok m2, r2) /\ NoiseWrap_recv m2 i1 = (Ok p2, i2) /\
    NoiseWrap_finalize i2 = Ok ri /\ NoiseWrap_finalize r2 = Ok rr /\
    session_pair (ed25519_public si) (ed25519_public sr) ri rr /\ len m2 = len (wire_noise_payload p2) + 48.
Proof.
  intros Hsi Hsr Hei Her Hp1 Hp2 Hl1 Hl2.
  destruct (ik_exchange si sr ei er NS_PEER_HANDSHAKE _ _ Hsi Hsr Hei Her Hl1 Hl2)
    as (m1 & m2 & hi1 & hr1 & hi2 & hr2 & E1 & R1 & E2 & R2 & Hlen & Ha).
  destruct (finalize_agreed _ _ _ _ Ha) as (ri & rr & Fi & Fr & Hpair).
  exists m1, m2, (mkNoiseWrap hi1 true), (mkNoiseWrap hr1 false), (mkNoiseWrap hi2 true), (mkNoiseWrap hr2 false), ri, rr.
  split_and!; [| | | |done..].
  - by apply (wrap_send_run _ _ (NoiseWrap_new_initiator _ _)).
  - by apply (wrap_recv_run _ (NoiseWrap_new_responder _)).
  - by apply (wrap_send_run _ _ (mkNoiseWrap hr1 false)).
  - by apply (wrap_recv_run _ (mkNoiseWrap hi1 true)).
Qed.

(** C14: a handshake between a peer that knows the other's public key and that
    peer delivers both [NoisePayload]s, finalises both ends with crossed session
    keys, each other's identity and one hole-punch secret, and from then on a
    hole-punch payload either end seals, under any nonce, the other opens. *)
Theorem noise_wrap_channel si sr ei er p1 p2 punch nonce li lr :
  seed_ok si -> seed_ok sr -> seed_ok ei -> seed_ok er -> noise_payload_ok p1 -> noise_payload_ok p2 ->
  len (wire_noise_payload p1) < 2 ^ 38 - 64 -> len (wire_noise_payload p2) < 2 ^ 38 - 64 ->
  holepunch_payload_ok punch -> len (wire_holepunch_payload punch) < 2 ^ 38 -> len nonce = 24 ->
  exists m1 m2 i1 r1 i2 r2 ri rr,
    NoiseWrap_send ei p1 (NoiseWrap_new_initiator (noise_keypair_from_seed si) (ed25519_public sr)) = (Ok m1, i1) /\
    NoiseWrap_recv m1 (NoiseWrap_new_responder (noise_keypair_from_seed sr)) = (Ok p1, r1) /\
    NoiseWrap_send er p2 r1 = (Ok m2, r2) /\ NoiseWrap_recv m2 i1 = (Ok p2, i2) /\
    NoiseWrap_finalize i2 = Ok ri /\ NoiseWrap_finalize r2 = Ok rr /\
    session_pair (ed25519_public si) (ed25519_public sr) ri rr /\
    let bi := SecurePayload_with_local_secret (nr_holepunch_secret ri) li in
    let br := SecurePayload_with_local_secret (nr_holepunch_secret rr) lr in
    (exists buffer, SecurePayload_encrypt_with_nonce bi punch nonce = Ok buffer /\
       SecurePayload_decrypt br buffer = Ok punch) /\
    (exists buffer, SecurePayload_encrypt_with_nonce br punch nonce = Ok buffer /\
       SecurePayload_decrypt bi buffer = Ok punch).
Proof.
  intros Hsi Hsr Hei Her Hp1 Hp2 Hl1 Hl2 Hq Hql Hn.
  destruct (wrap_exchange si sr ei er p1 p2) as (m1 & m2 & i1 & r1 & i2 & r2 & ri & rr & E1 & R1 & E2 & R2 & Fi & Fr & Hs & _);
    [done..|].
  exists m1, m2, i1, r1, i2, r2, ri, rr. split_and!; [done..|]. cbv zeta.
  assert (nr_holepunch_secret ri = nr_holepunch_secret rr) as Hsec by apply Hs.
  split.
  - destruct (box_inverts (mkSecurePayload (nr_holepunch_secret ri) li) (mkSecurePayload (nr_holepunch_secret rr) lr)
      punch nonce Hsec Hq Hn Hql) as (buf & E & D & _). by exists buf.
  - destruct (box_inverts (mkSecurePayload (nr_holepunch_secret rr) lr) (mkSecurePayload (nr_holepunch_secret ri) li)
      punch nonce (eq_sym Hsec) Hq Hn Hql) as (buf & E & D & _). by exists buf.
Qed.
End NoiseWrapClaims.

Module NoiseWrapExamples.
Definition toy_box : BoxPrims := {|
  box_seal key nonce msg := Some (toy_tag key nonce [] msg, msg);
  box_open key nonce tag ct := if bool_decide (tag = toy_tag key nonce [] ct) then Some ct else None
|}.
Lemma toy_box_laws : @BoxLaws toy_box.
Proof.
  split. intros key nonce msg _. exists (toy_tag key nonce [] msg), msg. split_and!; [done| |done|].
  - unfold len. by rewrite toy_tag_length.
  - cbn [box_open toy_box]. by rewrite bool_decide_eq_true_2.
Qed.
Definition hello (firewall : Z) : NoisePayload :=
  mkNoisePayload 1 0 firewall None [mkPeer "10.0.0.1" 1234] [] (Some (mkUdxInfo 1 true 7 0)) None None None.
Lemma hello_ok n : small n -> noise_payload_ok (hello n).
Proof. intros Hn. constructor; try exact Hn; reflexivity || by apply (bool_decide_unpack _). Qed.
Definition punch : HolepunchPayload :=
  mkHolepunchPayload 0 1 3 false true (Some [mkPeer "9.9.9.9" 9]) None None (Some (replicate 32 6)).
Lemma punch_ok : holepunch_payload_ok punch.
Proof. constructor; by apply (bool_decide_unpack _). Qed.
End NoiseWrapExamples.
Import NoiseExamples NoiseWrapExamples.
#[local] Existing Instances toy_crypto toy_noise toy_box toy_box_laws.

Lemma noise_wrap_channel_witness : exists m1 m2 i1 r1 i2 r2 ri rr,
  NoiseWrap_send (seed 3) (hello 1)
    (NoiseWrap_new_initiator (noise_keypair_from_seed (seed 1)) (ed25519_public (seed 2))) = (Ok m1, i1) /\
  NoiseWrap_recv m1 (NoiseWrap_new_responder (noise_keypair_from_seed (seed 2))) = (Ok (hello 1), r1) /\
  NoiseWrap_send (seed 4) (hello 2) r1 = (Ok m2, r2) /\ NoiseWrap_recv m2 i1 = (Ok (hello 2), i2) /\
  NoiseWrap_finalize i2 = Ok ri /\ NoiseWrap_finalize r2 = Ok rr /\
  session_pair (ed25519_public (seed 1)) (ed25519_public (seed 2)) ri rr /\
  let bi := SecurePayload_with_local_secret (nr_holepunch_secret ri) [] in
  let br := SecurePayload_with_local_secret (nr_holepunch_secret rr) [] in
  (exists buffer, SecurePayload_encrypt_with_nonce bi punch (replicate 24 5) = Ok buffer /\
     SecurePayload_decrypt br buffer = Ok punch) /\
  (exists buffer, SecurePayload_encrypt_with_nonce br punch (replicate 24 5) = Ok buffer /\
     SecurePayload_decrypt bi buffer = Ok punch).
Proof.
  apply (noise_wrap_channel (seed 1) (seed 2) (seed 3) (seed 4) (hello 1) (hello 2) punch (replicate 24 5) [] []).
  1-4: apply seed_good.
  1-2: apply hello_ok; unfold small; lia.
  1-2: vm_compute; reflexivity.
  - apply punch_ok.
  - vm_compute. reflexivity.
  - reflexivity.
Defined.
