(* ===== verification/Secretstream.v ===== *)
(** * Secretstream: the sequenced cipher of [peeroxide-dht/src/secretstream.rs]

    ChaCha20, HChaCha20 and Poly1305 are third-party code: [StreamPrims].  The
    construction on top of them (the tag block, the padding of the MAC input,
    the nonce that absorbs each MAC, the rekeying) is modelled.  A fresh header
    is an argument of [Push_new]. *)

From S2P Require Import Prelude RustStd Codec.

#[local] Open Scope Z_scope.

Definition KEYBYTES : Z := 32.
Definition HEADERBYTES : Z := 24.
Definition ABYTES : Z := 17.
Definition TAG_MESSAGE : Z := 0.
Definition TAG_PUSH : Z := 1.
Definition TAG_REKEY : Z := 2.
Definition TAG_FINAL : Z := 3.

Inductive SecretstreamError := CiphertextTooShort | DecryptionFailed.

Class StreamPrims : Type := {
  (** [hchacha::<U10>], by key and input. *)
  hchacha : list Z -> list Z -> list Z;
  (** The byte of the ChaCha20 keystream at a position, by key and nonce. *)
  chacha20_byte : list Z -> list Z -> nat -> Z;
  (** [Poly1305::compute_unpadded]. *)
  poly1305 : list Z -> list Z -> list Z
}.
(** A tag has 16 bytes. *)
Class StreamLaws `{StreamPrims} : Prop := {
  sl_poly1305 key data : fixed_ok 16 (poly1305 key data);
  sl_chacha20 key nonce i : is_byte (chacha20_byte key nonce i)
}.

(** [Push] and [Pull] are two structs with the same fields, one record here. *)
Record CipherStream := mkCs { st_key : list Z; st_nonce : list Z }.
Definition Push : Type := CipherStream.
Definition Pull : Type := CipherStream.

Section Secretstream.
Context `{StreamPrims}.

(** [cipher.apply_keystream(&mut buf)] with the cipher at a position. *)
Definition apply_keystream (key nonce : list Z) (pos : nat) (buf : list Z) : list Z :=
  imap (fun i b => Z.lxor b (chacha20_byte key nonce (pos + i))) buf.

Definition hchacha20_subkey (key input : list Z) : list Z := hchacha key input.

Definition evolve_nonce (nonce mac : list Z) : list Z :=
  let inonce := zip_with Z.lxor (drop 4 nonce) (take 8 mac) in
  let counter := from_le (take 4 nonce) in
  to_le 4 (as_u32 (counter + 1)) ++ inonce.

Definition rekey_state (s : CipherStream) : CipherStream :=
  let buf := apply_keystream (st_key s) (st_nonce s) 0 (st_key s ++ drop 4 (st_nonce s)) in
  mkCs (take 32 buf) (to_le 4 1 ++ drop 32 buf).

Definition compute_mac (poly_key aad tag_block encrypted_msg : list Z) : list Z :=
  let adlen := len aad in
  let mlen := len encrypted_msg in
  let pad_aad := Z.land (as_u64 (16 - adlen)) 0xf in
  let pad_msg := Z.land mlen 0xf in
  poly1305 poly_key
    (aad ++ replicate (Z.to_nat pad_aad) 0 ++ tag_block ++ encrypted_msg ++ replicate (Z.to_nat pad_msg) 0 ++
     to_le 8 adlen ++ to_le 8 (64 + mlen)).

Definition poly_key_of (key nonce : list Z) : list Z := take 32 (apply_keystream key nonce 0 (replicate 64 0)).

Definition secretstream_encrypt (key nonce aad : list Z) (tag : Z) (message : list Z) : list Z :=
  let tag_block := apply_keystream key nonce 64 (tag :: replicate 63 0) in
  let encrypted_msg := apply_keystream key nonce 128 message in
  let mac := compute_mac (poly_key_of key nonce) aad tag_block encrypted_msg in
  [nth 0 tag_block 0] ++ encrypted_msg ++ mac.

Definition secretstream_decrypt (key nonce aad ciphertext : list Z)
    : outcome SecretstreamError (list Z * Z) :=
  if len ciphertext <? ABYTES then Err CiphertextTooShort
  else
    let mac_start := len ciphertext - 16 in
    let received_mac := drop (Z.to_nat mac_start) ciphertext in
    let encrypted_tag := nth 0 ciphertext 0 in
    let encrypted_msg := slice ciphertext 1 mac_start in
    let tag_block := apply_keystream key nonce 64 (encrypted_tag :: replicate 63 0) in
    let tag := nth 0 tag_block 0 in
    let tag_block := <[0%nat := encrypted_tag]> tag_block in
    if bool_decide (compute_mac (poly_key_of key nonce) aad tag_block encrypted_msg <> received_mac)
    then Err DecryptionFailed
    else Ok (apply_keystream key nonce 128 encrypted_msg, tag).

Definition init_from_header (key header : list Z) : CipherStream :=
  let subkey := hchacha20_subkey key (take 16 header) in
  mkCs subkey ([1; 0; 0; 0] ++ slice header 16 24).

Definition should_rekey (tag : Z) (nonce : list Z) : bool :=
  let rekey_bit := negb (Z.land tag TAG_REKEY =? 0) in
  let counter_zero := bool_decide (take 4 nonce = [0; 0; 0; 0]) in
  rekey_bit || counter_zero.

(** What [push] and [pull] both do with the state after a message. *)
Definition advance (tag : Z) (mac : list Z) (s : CipherStream) : CipherStream :=
  let s := mkCs (st_key s) (evolve_nonce (st_nonce s) mac) in
  if should_rekey tag (st_nonce s) then rekey_state s else s.

Definition Push_with_header (key header : list Z) : Push := init_from_header key header.
Definition Push_new (key fresh_header : list Z) : Push * list Z :=
  (Push_with_header key fresh_header, fresh_header).

Definition Push_push (plaintext : list Z) (ad : option (list Z)) (tag : Z) (s : Push) : list Z * Push :=
  let aad := default [] ad in
  let ciphertext := secretstream_encrypt (st_key s) (st_nonce s) aad tag plaintext in
  let mac := drop (length ciphertext - 16) ciphertext in
  (ciphertext, advance tag mac s).
Definition Push_next (plaintext : list Z) (s : Push) : list Z * Push := Push_push plaintext None TAG_MESSAGE s.
Definition Push_finalize (plaintext : list Z) (s : Push) : list Z * Push := Push_push plaintext None TAG_FINAL s.

Definition Pull_new (key header : list Z) : Pull := init_from_header key header.

Definition Pull_pull (ciphertext : list Z) (ad : option (list Z)) : M Pull SecretstreamError (list Z * Z) := fun s =>
  if len ciphertext <? ABYTES then (Err CiphertextTooShort, s)
  else
    let aad := default [] ad in
    let mac := drop (Z.to_nat (len ciphertext - 16)) ciphertext in
    match secretstream_decrypt (st_key s) (st_nonce s) aad ciphertext with
    | Ok (message, tag) => (Ok (message, tag), advance tag mac s)
    | Err e => (Err e, s)
    | Panic => (Panic, s)
    end.
Definition Pull_next (ciphertext : list Z) : M Pull SecretstreamError (list Z * Z) := Pull_pull ciphertext None.
End Secretstream.
