(* ===== verification/ToyStream.v ===== *)
(** * ToyStream: a concrete keystream and authenticator for the witnesses *)

From S2P Require Import Prelude RustStd Codec Crypto ToyCrypto Secretstream.

#[local] Open Scope Z_scope.

Definition toy_stream : StreamPrims := {|
  hchacha key input := tail_digest (input ++ take 16 key);
  chacha20_byte key nonce i := (nth (i mod 32) key 0 + nth (i mod 12) nonce 0 + Z.of_nat i) mod 256;
  poly1305 key data := take 16 (rev (tail_digest (take 4 key ++ data)))
|}.
Lemma toy_stream_laws : @StreamLaws toy_stream.
Proof.
  split.
  - intros key data. pose proof (tail_digest_ok (take 4 key ++ data)) as [Hb Hl]. cbn [poly1305 toy_stream]. split.
    + by apply Forall_take, Forall_rev.
    + unfold len in *. rewrite length_take, length_rev. lia.
  - intros key nonce i. cbn [chacha20_byte toy_stream]. apply Z.mod_pos_bound. lia.
Qed.
