(* ===== verification/SecretstreamTheorems.v ===== *)
(** * SecretstreamTheorems: [pull] inverts [push], and accepts nothing else *)

From S2P Require Import Prelude RustStd Codec Crypto ToyCrypto Noise NoiseTheorems Secretstream ToyStream.

#[local] Open Scope Z_scope.

Section SecretstreamTheorems.
Context `{StreamPrims} `{!StreamLaws}.

Lemma keystream_length key nonce pos buf : length (apply_keystream key nonce pos buf) = length buf.
Proof. apply length_imap. Qed.
Lemma keystream_involutive key nonce pos buf :
  apply_keystream key nonce pos (apply_keystream key nonce pos buf) = buf.
Proof.
  apply list_eq. intros i. unfold apply_keystream. rewrite !list_lookup_imap, <- option_fmap_compose.
  destruct (buf !! i) as [b|]; [|done]. cbn. by rewrite Z.lxor_assoc, Z.lxor_nilpotent, Z.lxor_0_r.
Qed.
Lemma compute_mac_len key aad block msg : len (compute_mac key aad block msg) = 16.
Proof. apply sl_poly1305. Qed.

(** The block [decrypt] rebuilds from the encrypted tag is the one [encrypt] made. *)
Lemma tag_block_rebuilt key nonce t e : e = Z.lxor t (chacha20_byte key nonce 64) ->
  <[0%nat := e]> (apply_keystream key nonce 64 (e :: replicate 63 0))
  = apply_keystream key nonce 64 (t :: replicate 63 0).
Proof. intros ->. done. Qed.
Lemma tag_byte key nonce t : nth 0 (apply_keystream key nonce 64 (t :: replicate 63 0)) 0
  = Z.lxor t (chacha20_byte key nonce 64).
Proof. done. Qed.
Lemma lxor_twice a b : Z.lxor (Z.lxor a b) b = a.
Proof. by rewrite Z.lxor_assoc, Z.lxor_nilpotent, Z.lxor_0_r. Qed.

Lemma encrypt_len key nonce aad tag msg : len (secretstream_encrypt key nonce aad tag msg) = len msg + ABYTES.
Proof.
  unfold secretstream_encrypt. cbv zeta. rewrite !len_app, compute_mac_len. unfold ABYTES, len at 1 2.
  rewrite keystream_length. cbn [length]. fold (len msg). lia.
Qed.
Lemma last16 (ct : list Z) : drop (length ct - 16) ct = drop (Z.to_nat (len ct - 16)) ct.
Proof. f_equal. unfold len. lia. Qed.

(** A ciphertext of the shape [e :: c ++ mac]. *)
Lemma decrypt_shape key nonce aad e c mac : len mac = 16 ->
  secretstream_decrypt key nonce aad (e :: c ++ mac) =
    if bool_decide (compute_mac (poly_key_of key nonce) aad
         (apply_keystream key nonce 64 (Z.lxor e (chacha20_byte key nonce 64) :: replicate 63 0)) c <> mac)
    then Err DecryptionFailed
    else Ok (apply_keystream key nonce 128 c, Z.lxor e (chacha20_byte key nonce 64)).
Proof.
  intros Hm. unfold secretstream_decrypt.
  assert (len (e :: c ++ mac) = 17 + len c) as L by (lens; lia).
  rewrite ltb_no by (rewrite L; unfold ABYTES; pose proof (len_nonneg c); lia).
  replace (len (e :: c ++ mac) - 16) with (1 + len c) by lia.
  change (e :: c ++ mac) with ([e] ++ c ++ mac).
  rewrite (slice_second [e] c mac), (drop_two [e] c mac) by done. cbn [app nth].
  change (nth 0 (apply_keystream key nonce 64 (e :: replicate 63 0)) 0) with (Z.lxor e (chacha20_byte key nonce 64)).
  rewrite (tag_block_rebuilt key nonce (Z.lxor e (chacha20_byte key nonce 64)) e); [done|]. by rewrite lxor_twice.
Qed.

Lemma decrypt_encrypt key nonce aad tag msg :
  secretstream_decrypt key nonce aad (secretstream_encrypt key nonce aad tag msg) = Ok (msg, tag).
Proof.
  unfold secretstream_encrypt. cbn [app]. rewrite tag_byte, decrypt_shape by apply compute_mac_len.
  rewrite lxor_twice, keystream_involutive. rewrite bool_decide_eq_false_2; [done|]. intros Hn. by apply Hn.
Qed.

(** A ciphertext long enough has that shape. *)
Lemma ciphertext_shape (ct : list Z) : ABYTES <= len ct -> exists e c mac, ct = e :: c ++ mac /\ len mac = 16.
Proof.
  unfold ABYTES. intros Hl. destruct ct as [|e r]; [done|]. rewrite len_cons in Hl.
  exists e, (take (length r - 16) r), (drop (length r - 16) r). split; [by rewrite take_drop|].
  unfold len in *. rewrite length_drop. lia.
Qed.

(** Decryption succeeds only on what encryption makes. *)
Lemma encrypt_decrypt key nonce aad ct msg tag :
  secretstream_decrypt key nonce aad ct = Ok (msg, tag) -> secretstream_encrypt key nonce aad tag msg = ct.
Proof.
  intros E. destruct (Z.ltb_spec (len ct) ABYTES) as [Hs|Hs].
  { unfold secretstream_decrypt in E. apply Z.ltb_lt in Hs. by rewrite Hs in E. }
  destruct (ciphertext_shape ct Hs) as (e & c & mac & -> & Hm). rewrite decrypt_shape in E by done.
  case_bool_decide as Hd; [done|]. injection E as <- <-.
  unfold secretstream_encrypt. rewrite keystream_involutive, tag_byte, lxor_twice, Hd. done.
Qed.

(** One message: the same state on both sides goes to the same state. *)
Lemma pull_push s msg ad tag : let '(ct, s') := Push_push msg ad tag s in Pull_pull ct ad s = (Ok (msg, tag), s').
Proof.
  unfold Push_push, Pull_pull. cbv zeta. rewrite decrypt_encrypt, last16.
  rewrite ltb_no; [done|]. rewrite encrypt_len. pose proof (len_nonneg msg). lia.
Qed.
Lemma push_pull s ct ad msg tag s' : Pull_pull ct ad s = (Ok (msg, tag), s') -> Push_push msg ad tag s = (ct, s').
Proof.
  unfold Push_push, Pull_pull. destruct (len ct <? ABYTES); [done|].
  destruct (secretstream_decrypt _ _ _ _) as [[m t]|e|] eqn:E; [|done..].
  intros [= <- <- <-]. apply encrypt_decrypt in E. cbv zeta. by rewrite E, last16.
Qed.
Lemma pull_state s ct ad : match Pull_pull ct ad s with (Ok _, _) => True | (Err _, s') => s' = s | (Panic, _) => False end.
Proof.
  unfold Pull_pull. destruct (len ct <? ABYTES) eqn:El; [done|].
  destruct (secretstream_decrypt _ _ _ _) as [[m t]|e|] eqn:E; [done..|].
  unfold secretstream_decrypt in E. rewrite El in E. by case_bool_decide.
Qed.
End SecretstreamTheorems.

(** C16: a receiver in the sender's state accepts exactly the ciphertexts the
    sender would make there: [pull] returns a message and a tag and moves to a
    state if and only if [push] of that message, data and tag gives that
    ciphertext and moves to that state; anything else is an error, never a
    panic, and leaves the receiver's state as it was. *)
Theorem secretstream_exact `{StreamPrims} `{!StreamLaws} (s : CipherStream) ct ad :
  (forall msg tag s', Pull_pull ct ad s = (Ok (msg, tag), s') <-> Push_push msg ad tag s = (ct, s')) /\
  ((forall msg tag, fst (Push_push msg ad tag s) <> ct) -> exists e, Pull_pull ct ad s = (Err e, s)).
Proof.
  split.
  - intros msg tag s'. split; [apply push_pull|]. intros E. pose proof (pull_push s msg ad tag) as P. by rewrite E in P.
  - intros Hno. pose proof (pull_state s ct ad) as P. destruct (Pull_pull ct ad s) as [[[m t]|e|] s'] eqn:E.
    + destruct (Hno m t). apply push_pull in E. by rewrite E.
    + exists e. by rewrite P.
    + done.
Qed.

#[local] Existing Instances toy_stream toy_stream_laws.
Definition toy_state : CipherStream := Push_with_header (replicate 32 3) (replicate 24 9).
Lemma secretstream_exact_witness :
  (exists ct s', Push_push [1; 2; 3] (Some [7]) TAG_REKEY toy_state = (ct, s') /\
     Pull_pull ct (Some [7]) toy_state = (Ok ([1; 2; 3], TAG_REKEY), s') /\ st_key s' <> st_key toy_state) /\
  (exists e, Pull_pull [1] None toy_state = (Err e, toy_state)).
Proof.
  split.
  - eexists _, _. split; [reflexivity|]. split; [apply (secretstream_exact toy_state); reflexivity|].
    apply (bool_decide_unpack _). vm_compute. exact Logic.I.
  - apply (secretstream_exact toy_state). intros msg tag E. apply (f_equal len) in E. revert E.
    unfold Push_push. cbn [fst]. rewrite encrypt_len. unfold ABYTES. change (len [1]) with 1.
    pose proof (len_nonneg msg). lia.
Defined.
