(* ===== verification/Pipes.v ===== *)
(** * Pipes: programs over a byte stream, and two of them connected

    A [Prog] is an asynchronous function over [AsyncRead + AsyncWrite]: it
    writes bytes, waits for an exact number of bytes, and ends in a value; the
    continuations receive what [write_all] and [read_exact] return.  [run] is a
    program against the bytes that will ever arrive; [step] interleaves two
    programs connected by a pipe each way.  The two sides commute, so whatever
    the schedule, a pair that can finish does, in the same configuration. *)

From S2P Require Import Prelude.
From stdpp Require Import relations.

#[local] Open Scope Z_scope.

Inductive ReadResult := RdOk (bytes : list Z) | RdEof | RdErr.

Inductive Prog (A : Type) : Type :=
| Done (a : A)
| Write (bytes : list Z) (k : bool -> Prog A)
| ReadExact (n : Z) (k : ReadResult -> Prog A).
Arguments Done {A} a.
Arguments Write {A} bytes k.
Arguments ReadExact {A} n k.

Fixpoint prog_bind {A B} (p : Prog A) (f : A -> Prog B) : Prog B :=
  match p with
  | Done a => f a
  | Write bs k => Write bs (fun b => prog_bind (k b) f)
  | ReadExact n k => ReadExact n (fun r => prog_bind (k r) f)
  end.

(** [async fn .. -> Result<A, E>], with [?] as bind. *)
Definition ProgE (E A : Type) : Type := Prog (outcome E A).
#[global] Instance ProgE_ret {E} : MRet (ProgE E) := fun A a => Done (Ok a).
#[global] Instance ProgE_bind {E} : MBind (ProgE E) := fun A B f p =>
  prog_bind p (fun o => match o with Ok a => f a | Err e => Done (Err e) | Panic => Done Panic end).
Definition pthrow {E A} (e : E) : ProgE E A := Done (Err e).

(** ** One program and its whole input *)

(** What a program comes to on an input that ends ([eof]) or is all there is so
    far: its value or the program it waits in, the bytes left, those written. *)
Fixpoint run {A} (p : Prog A) (input : list Z) (eof : bool) : (A + Prog A) * list Z * list Z :=
  match p with
  | Done a => (inl a, input, [])
  | Write bs k => let '(r, rest, out) := run (k true) input eof in (r, rest, bs ++ out)
  | ReadExact n k =>
      if n <=? len input then run (k (RdOk (take (Z.to_nat n) input))) (drop (Z.to_nat n) input) eof
      else if eof then run (k RdEof) [] eof
      else (inr (ReadExact n k), input, [])
  end.

Lemma run_bind {A B} (p : Prog A) (f : A -> Prog B) input eof :
  run (prog_bind p f) input eof =
  match run p input eof with
  | (inl a, rest, out) => let '(r, rest', out') := run (f a) rest eof in (r, rest', out ++ out')
  | (inr q, rest, out) => (inr (prog_bind q f), rest, out)
  end.
Proof.
  revert input. induction p as [a|bs k IH|n k IH]; intros input; cbn [prog_bind run].
  - by destruct (run (f a) input eof) as [[r rest] out].
  - rewrite IH. destruct (run (k true) input eof) as [[[a|q] rest] out]; [|done].
    destruct (run (f a) rest eof) as [[r rest'] out']. by rewrite app_assoc.
  - destruct (n <=? len input); [apply IH|]. destruct eof; [apply IH|done].
Qed.
Lemma run_bind_ok {A B} (p : Prog A) (f : A -> Prog B) input eof a rest out :
  run p input eof = (inl a, rest, out) ->
  run (prog_bind p f) input eof = (let '(r, rest', out') := run (f a) rest eof in (r, rest', out ++ out')).
Proof. intros E. by rewrite run_bind, E. Qed.

(** ** Two programs *)

Record Config (A B : Type) : Type := mkConfig {
  cf_left : Prog A; cf_right : Prog B; cf_lr : list Z; cf_rl : list Z
}.
Arguments mkConfig {A B} _ _ _ _.

(** A step of one program, from its input to its output pipe. *)
Definition pstep {A} (p : Prog A) (inp out : list Z) : option (Prog A * list Z * list Z) :=
  match p with
  | Done _ => None
  | Write bs k => Some (k true, inp, out ++ bs)
  | ReadExact n k =>
      if n <=? len inp then Some (k (RdOk (take (Z.to_nat n) inp)), drop (Z.to_nat n) inp, out) else None
  end.

Inductive step {A B} : Config A B -> Config A B -> Prop :=
| step_left p p' q lr lr' rl rl' :
    pstep p rl lr = Some (p', rl', lr') -> step (mkConfig p q lr rl) (mkConfig p' q lr' rl')
| step_right p q q' lr lr' rl rl' :
    pstep q lr rl = Some (q', lr', rl') -> step (mkConfig p q lr rl) (mkConfig p q' lr' rl').

(** More input does not disturb a step, which only appends to its output. *)
Lemma pstep_frame {A} (p p' : Prog A) inp inp' out out' :
  pstep p inp out = Some (p', inp', out') ->
  exists w, out' = out ++ w /\
    forall more out2, pstep p (inp ++ more) out2 = Some (p', inp' ++ more, out2 ++ w).
Proof.
  destruct p as [a|bs k|n k]; cbn [pstep]; [done| |].
  - intros [= <- <- <-]. by exists bs.
  - destruct (Z.leb_spec n (len inp)) as [Hn|]; [|done]. intros [= <- <- <-]. exists [].
    split; [by rewrite app_nil_r|]. intros more out2. rewrite app_nil_r.
    assert ((n <=? len (inp ++ more)) = true) as -> by (apply Z.leb_le; lens; pose proof (len_nonneg more); lia).
    unfold len in Hn. by rewrite take_app_le, drop_app_le by lia.
Qed.

(** Steps of the two sides commute; each side has at most one. *)
Lemma step_diamond {A B} (c c1 c2 : Config A B) :
  step c c1 -> step c c2 -> c1 = c2 \/ exists c3, step c1 c3 /\ step c2 c3.
Proof.
  intros H1 H2. destruct H1 as [p p' q lr lr' rl rl' E1|p q q' lr lr' rl rl' E1];
    inversion H2 as [? p2 ? ? lr2 ? rl2 E2|? ? q2 ? lr2 ? rl2 E2]; subst.
  - left. congruence.
  - right. destruct (pstep_frame _ _ _ _ _ _ E1) as (w1 & -> & F1).
    destruct (pstep_frame _ _ _ _ _ _ E2) as (w2 & -> & F2).
    exists (mkConfig p' q2 (lr2 ++ w1) (rl' ++ w2)). split; constructor; [apply F2|apply F1].
  - right. destruct (pstep_frame _ _ _ _ _ _ E1) as (w1 & -> & F1).
    destruct (pstep_frame _ _ _ _ _ _ E2) as (w2 & -> & F2).
    exists (mkConfig p2 q' (lr' ++ w2) (rl2 ++ w1)). split; constructor; [apply F2|apply F1].
  - left. congruence.
Qed.

Lemma one_step_on {A B} n : forall (c d f : Config A B),
  nsteps step n c f -> nf step f -> step c d -> exists n', n = S n' /\ nsteps step n' d f.
Proof.
  induction n as [|n IH]; intros c d f Hn Hf Hd.
  - inversion Hn; subst f. destruct Hf. by exists d.
  - exists n. split; [done|]. inversion Hn as [|? ? e ? He Hrest]; subst.
    destruct (step_diamond c d e Hd He) as [->|(g & Hdg & Heg)]; [done|].
    destruct (IH e g f Hrest Hf Heg) as (m & -> & Hg). by apply nsteps_l with g.
Qed.

(** Whatever the schedule did so far, the rest leads to the same end, and the
    whole takes the same number of steps. *)
Lemma any_schedule {A B} n (c f : Config A B) :
  nsteps step n c f -> nf step f ->
  forall m d, nsteps step m c d -> (m <= n)%nat /\ nsteps step (n - m) d f.
Proof.
  intros Hn Hf m. revert n c Hn. induction m as [|m IH]; intros n c Hn d Hm.
  - inversion Hm; subst d. rewrite Nat.sub_0_r. split; [lia|done].
  - inversion Hm as [|? ? e ? He Hrest]; subst.
    destruct (one_step_on n c e f Hn Hf He) as (k & -> & Hk).
    destruct (IH k e Hk d Hrest) as [Hle Hd]. split; [lia|done].
Qed.

(** Both programs can be put in a context. *)
Lemma pstep_bind {A B} (p p' : Prog A) (f : A -> Prog B) inp inp' out out' :
  pstep p inp out = Some (p', inp', out') -> pstep (prog_bind p f) inp out = Some (prog_bind p' f, inp', out').
Proof.
  destruct p as [a|bs k|n k]; cbn [prog_bind pstep]; [done|by intros [= <- <- <-]|].
  destruct (n <=? len inp); [|done]. by intros [= <- <- <-].
Qed.
Lemma steps_bind {A B C D} (p p' : Prog A) (q q' : Prog B) (f : A -> Prog C) (g : B -> Prog D) lr rl lr' rl' :
  rtc step (mkConfig p q lr rl) (mkConfig p' q' lr' rl') ->
  rtc step (mkConfig (prog_bind p f) (prog_bind q g) lr rl) (mkConfig (prog_bind p' f) (prog_bind q' g) lr' rl').
Proof.
  intros H. remember (mkConfig p q lr rl) as c eqn:Ec. remember (mkConfig p' q' lr' rl') as d eqn:Ed.
  revert p q lr rl Ec. induction H as [c|c c1 d Hs _ IH]; intros p q lr rl ->.
  - injection Ed as -> -> -> ->. apply rtc_refl.
  - inversion Hs as [? p1 ? ? lr1 ? rl1 E|? ? q1 ? lr1 ? rl1 E]; subst.
    + eapply rtc_l; [apply step_left, pstep_bind, E|]. by apply IH.
    + eapply rtc_l; [apply step_right, pstep_bind, E|]. by apply IH.
Qed.
Lemma done_nf {A B} (a : A) (b : B) lr rl : nf step (mkConfig (Done a) (Done b) lr rl).
Proof. intros [c Hs]. by inversion Hs. Qed.
