(* ===== verification/SecretSession.v ===== *)
(** * SecretSession: the encrypted transport of [peeroxide-dht/src/secret_stream.rs]

    Framing, the XX handshake with the exchange of ID headers, and the sealed
    messages, as programs over a byte stream ([Pipes]).  The transport is that
    stream, so the record holds the other fields of [SecretStream]; random
    seeds and headers are arguments.  The read loop has fuel: a frame each. *)

From S2P Require Import Prelude RustStd Codec HyperdhtWire Crypto Noise Secretstream Pipes.

#[local] Open Scope Z_scope.

Definition IDHEADERBYTES : Z := HEADERBYTES + 32.
Definition MAX_MESSAGE_LEN : Z := 0xFFFFFF.

Inductive SecretStreamError :=
| SsIo
| SsNoise (e : NoiseError)
| SsDecrypt (e : SecretstreamError)
| HandshakeIncomplete
| UnexpectedEof
| InvalidIdHeader (expected got : Z)
| StreamIdMismatch
| MessageTooLarge (length : Z).

Record SecretStream := mkSecretStream {
  ss_encrypt : Push;
  ss_decrypt : Pull;
  ss_remote_public_key : list Z;
  ss_handshake_hash : list Z;
  ss_is_initiator : bool
}.
Record SecretStreamReadHalf := mkReadHalf { rh_decrypt : Pull }.
Record SecretStreamWriteHalf := mkWriteHalf { wh_encrypt : Push }.

Abbreviation SsProg := (ProgE SecretStreamError).

(** [w.write_all(bytes).await?] *)
Definition write_all (bytes : list Z) : SsProg unit :=
  Write bytes (fun ok => Done (if ok then Ok tt else Err SsIo)).

(** ** Framing *)

Definition frame_header (n : Z) : list Z := [as_u8 n; as_u8 (Z.shiftr n 8); as_u8 (Z.shiftr n 16)].
Definition header_len (header : list Z) : Z :=
  Z.lor (Z.lor (nth 0 header 0) (Z.shiftl (nth 1 header 0) 8)) (Z.shiftl (nth 2 header 0) 16).

Definition write_frame (data : list Z) : SsProg unit :=
  if MAX_MESSAGE_LEN <? len data then pthrow (MessageTooLarge (len data))
  else write_all (frame_header (len data)) ;; write_all data.

(** A failed read of the length is the end of the stream, of the body an error. *)
Definition read_frame : SsProg (option (list Z)) :=
  ReadExact 3 (fun r =>
    match r with
    | RdEof => Done (Ok None)
    | RdErr => pthrow SsIo
    | RdOk header =>
        ReadExact (header_len header) (fun r =>
          match r with
          | RdOk buf => Done (Ok (Some buf))
          | _ => pthrow UnexpectedEof
          end)
    end).

(** [read_frame(..).await?.ok_or(UnexpectedEof)?] *)
Definition read_some : SsProg (list Z) :=
  o ← read_frame; match o with Some m => mret m | None => pthrow UnexpectedEof end.

(** [f(..).map_err(SecretStreamError::Noise)?] on a handshake, with the new one. *)
Definition noise_step {A} (f : M Handshake NoiseError A) (h : Handshake) : SsProg (A * Handshake) :=
  match f h with
  | (Ok a, h') => mret (a, h')
  | (Err e, _) => pthrow (SsNoise e)
  | (Panic, _) => Done Panic
  end.

Section SecretSession.
Context `{CryptoPrims, NoisePrims, StreamPrims}.

Definition NS_SECRET_STREAM : list (list Z) := namespace "hyperswarm/secret-stream" [0; 1; 2].
Definition ns_initiator : list Z := nth 0 NS_SECRET_STREAM [].
Definition ns_responder : list Z := nth 1 NS_SECRET_STREAM [].

Definition stream_id (handshake_hash : list Z) (is_initiator : bool) : list Z :=
  blake2b_mac256 handshake_hash (if is_initiator then ns_initiator else ns_responder).

(** The ID header exchange, with which [new] ends and which is all of
    [from_session]. *)
Definition SecretStream_from_session (is_initiator : bool) (tx rx handshake_hash remote_public_key : list Z)
    (fresh_header : list Z) : SsProg SecretStream :=
  let '(encrypt, ss_header) := Push_new tx fresh_header in
  let id_msg := stream_id handshake_hash is_initiator ++ ss_header in
  write_frame id_msg ;;
  remote_msg ← read_some;
  if negb (len remote_msg =? IDHEADERBYTES) then pthrow (InvalidIdHeader IDHEADERBYTES (len remote_msg))
  else if bool_decide (take 32 remote_msg <> stream_id handshake_hash (negb is_initiator))
  then pthrow StreamIdMismatch
  else
    let decrypt := Pull_new rx (slice remote_msg 32 56) in
    mret (mkSecretStream encrypt decrypt remote_public_key handshake_hash is_initiator).

(** Phase 1 of [new]: the messages of XX in each role. *)
Definition xx_exchange (is_initiator : bool) (keypair : Keypair) (fresh : list Z) : SsProg Handshake :=
  let handshake := Handshake_new is_initiator keypair in
  if is_initiator then
    '(m1, handshake) ← noise_step (Handshake_send fresh) handshake;
    write_frame m1 ;;
    m2 ← read_some;
    '(_, handshake) ← noise_step (Handshake_recv m2) handshake;
    '(m3, handshake) ← noise_step (Handshake_send fresh) handshake;
    write_frame m3 ;;
    mret handshake
  else
    m1 ← read_some;
    '(_, handshake) ← noise_step (Handshake_recv m1) handshake;
    '(m2, handshake) ← noise_step (Handshake_send fresh) handshake;
    write_frame m2 ;;
    m3 ← read_some;
    '(_, handshake) ← noise_step (Handshake_recv m3) handshake;
    mret handshake.

Definition SecretStream_new (is_initiator : bool) (keypair : Keypair) (fresh fresh_header : list Z)
    : SsProg SecretStream :=
  handshake ← xx_exchange is_initiator keypair fresh;
  match hk_result handshake with
  | None => pthrow HandshakeIncomplete
  | Some hr =>
      SecretStream_from_session is_initiator (hr_tx hr) (hr_rx hr) (hr_handshake_hash hr)
        (hr_remote_public_key hr) fresh_header
  end.

(** ** Messages

    The cipher has moved on when the frame is refused or fails. *)
Definition SecretStreamWriteHalf_write (data : list Z) (wh : SecretStreamWriteHalf)
    : Prog (outcome SecretStreamError unit * SecretStreamWriteHalf) :=
  let '(encrypted, encrypt) := Push_next data (wh_encrypt wh) in
  prog_bind (write_frame encrypted) (fun o => Done (o, mkWriteHalf encrypt)).

(** One turn of the loop of [read]: [None] asks for another. *)
Definition read_turn (o : outcome SecretStreamError (option (list Z))) (rh : SecretStreamReadHalf)
    : option (outcome SecretStreamError (option (list Z))) * SecretStreamReadHalf :=
  match o with
  | Err e => (Some (Err e), rh)
  | Panic => (Some Panic, rh)
  | Ok None => (Some (Ok None), rh)
  | Ok (Some msg) =>
      if len msg <? ABYTES then (Some (Err (SsDecrypt CiphertextTooShort)), rh)
      else
        let '(o, decrypt) := Pull_next msg (rh_decrypt rh) in
        let rh := mkReadHalf decrypt in
        match o with
        | Err e => (Some (Err (SsDecrypt e)), rh)
        | Panic => (Some Panic, rh)
        | Ok (plaintext, _tag) =>
            if (length plaintext =? 0)%nat then (None, rh) else (Some (Ok (Some plaintext)), rh)
        end
  end.

Fixpoint SecretStreamReadHalf_read (fuel : nat) (rh : SecretStreamReadHalf)
    : Prog (option (outcome SecretStreamError (option (list Z))) * SecretStreamReadHalf) :=
  match fuel with
  | O => Done (None, rh)
  | S fuel =>
      prog_bind read_frame (fun o =>
        let '(result, rh) := read_turn o rh in
        match result with
        | Some result => Done (Some result, rh)
        | None => SecretStreamReadHalf_read fuel rh
        end)
  end.

Definition SecretStream_into_split (ss : SecretStream) : SecretStreamReadHalf * SecretStreamWriteHalf :=
  (mkReadHalf (ss_decrypt ss), mkWriteHalf (ss_encrypt ss)).

(** The unsplit stream has the same operations on the same ciphers. *)
Definition SecretStream_write (data : list Z) (ss : SecretStream)
    : Prog (outcome SecretStreamError unit * SecretStream) :=
  prog_bind (SecretStreamWriteHalf_write data (mkWriteHalf (ss_encrypt ss))) (fun '(o, wh) =>
    Done (o, mkSecretStream (wh_encrypt wh) (ss_decrypt ss) (ss_remote_public_key ss)
               (ss_handshake_hash ss) (ss_is_initiator ss))).
Definition SecretStream_read (fuel : nat) (ss : SecretStream)
    : Prog (option (outcome SecretStreamError (option (list Z))) * SecretStream) :=
  prog_bind (SecretStreamReadHalf_read fuel (mkReadHalf (ss_decrypt ss))) (fun '(o, rh) =>
    Done (o, mkSecretStream (ss_encrypt ss) (rh_decrypt rh) (ss_remote_public_key ss)
               (ss_handshake_hash ss) (ss_is_initiator ss))).
End SecretSession.
