(* ===== verification/SecretSessionTheorems.v ===== *)
(** * SecretSessionTheorems: sessions connect, and deliver their messages *)

From S2P Require Import Prelude RustStd Codec Crypto ToyCrypto Noise ToyNoise NoiseTheorems Secretstream ToyStream SecretstreamTheorems Pipes SecretSession.
From stdpp Require Import relations.

#[local] Open Scope Z_scope.

(** A keyed digest has 32 bytes. *)
Class MacLaws `{CryptoPrims} : Prop := {
  mac256_ok key data : fixed_ok 32 (blake2b_mac256 key data)
}.

(** ** Framing *)

Definition frame (data : list Z) : list Z := frame_header (len data) ++ data.

Lemma header_len_frame n : 0 <= n <= MAX_MESSAGE_LEN -> header_len (frame_header n) = n.
Proof.
  unfold MAX_MESSAGE_LEN, header_len, frame_header. cbn [nth]. intros Hn.
  rewrite !Z.shiftr_div_pow2 by lia. words.
  rewrite (lor_shiftl_add (n mod 256) _ 8) by (pow2; zdm). rewrite lor_shiftl_add by (pow2; zdm). pow2. zdm.
Qed.
Lemma frame_header_len n : len (frame_header n) = 3.
Proof. done. Qed.
Lemma run_write_frame data input eof : len data <= MAX_MESSAGE_LEN ->
  run (write_frame data) input eof = (inl (Ok tt), input, frame data).
Proof.
  intros Hl. unfold write_frame. assert ((MAX_MESSAGE_LEN <? len data) = false) as -> by lia.
  cbn. by rewrite app_nil_r.
Qed.
Lemma run_read_frame data rest eof : len data <= MAX_MESSAGE_LEN ->
  run read_frame (frame data ++ rest) eof = (inl (Ok (Some data)), rest, []).
Proof.
  intros Hl. unfold read_frame, frame. cbn [run].
  assert ((3 <=? len ((frame_header (len data) ++ data) ++ rest)) = true) as ->.
  { apply Z.leb_le. lens. rewrite frame_header_len. pose proof (len_nonneg data). pose proof (len_nonneg rest). lia. }
  rewrite <- app_assoc, take_head, drop_head by done. cbn [run].
  rewrite header_len_frame by (pose proof (len_nonneg data); lia).
  assert ((len data <=? len (data ++ rest)) = true) as ->.
  { apply Z.leb_le. lens. pose proof (len_nonneg rest). lia. }
  by rewrite to_nat_len, take_head, drop_head.
Qed.

(** A frame cut short ends the stream, inside its header, or is an error. *)
Definition cut_end (o : outcome SecretStreamError (option (list Z))) : Prop := o = Ok None \/ o = Err UnexpectedEof.
Lemma run_read_cut data input cut : len data <= MAX_MESSAGE_LEN -> frame data = input ++ cut -> cut <> [] ->
  exists o, run read_frame input true = (inl o, [], []) /\ cut_end o.
Proof.
  intros Hl Hf Hc. unfold read_frame. cbn [run].
  destruct (Z.leb_spec 3 (len input)) as [H3|H3]; [|eexists; split; [done|by left]].
  assert (length cut <> 0%nat) as Hcl by (by destruct cut).
  assert (input = frame_header (len data) ++ drop 3 input) as E.
  { apply (f_equal (take 3)) in Hf. unfold frame in Hf. rewrite take_head in Hf by done.
    rewrite take_app_le in Hf by (unfold len in H3; lia). rewrite Hf. symmetry. apply take_drop. }
  apply (f_equal length) in Hf. unfold frame in Hf. rewrite !length_app in Hf.
  rewrite E. rewrite take_head, drop_head by done. cbn [run].
  rewrite header_len_frame by (pose proof (len_nonneg data); lia).
  destruct (Z.leb_spec (len data) (len (drop 3 input))) as [Hd|Hd]; [|eexists; split; [done|by right]].
  exfalso. unfold len in Hd, H3. rewrite length_drop in Hd. cbn [length frame_header] in Hf. lia.
Qed.

Lemma prefix_split {A} (input a b : list A) : input `prefix_of` a ++ b ->
  (exists i', input = a ++ i' /\ i' `prefix_of` b) \/ (exists cut, cut <> [] /\ a = input ++ cut).
Proof.
  intros [k Hk]. symmetry in Hk. apply app_eq_app in Hk as [l [[-> E]|[-> E]]].
  - left. exists l. split; [done|]. by exists k.
  - destruct l as [|x l].
    + left. exists []. rewrite !app_nil_r. split; [done|apply prefix_nil].
    + right. by exists (x :: l).
Qed.

(** ** Messages *)

Section Messages.
Context `{StreamPrims} `{!StreamLaws}.

(** Write one message after another; stop at the first error. *)
Fixpoint send_all (ms : list (list Z)) (wh : SecretStreamWriteHalf)
    : Prog (outcome SecretStreamError unit * SecretStreamWriteHalf) :=
  match ms with
  | [] => Done (Ok tt, wh)
  | m :: ms =>
      prog_bind (SecretStreamWriteHalf_write m wh) (fun '(o, wh) =>
        match o with Ok _ => send_all ms wh | _ => Done (o, wh) end)
  end.

(** Read until a read brings no message: those that came, and the last result;
    [None] when [n] reads or the fuel of one did not suffice. *)
Fixpoint receive_all (n fuel : nat) (rh : SecretStreamReadHalf)
    : Prog (list (list Z) * option (outcome SecretStreamError (option (list Z))) * SecretStreamReadHalf) :=
  match n with
  | O => Done ([], None, rh)
  | S n =>
      prog_bind (SecretStreamReadHalf_read fuel rh) (fun '(r, rh) =>
        match r with
        | Some (Ok (Some m)) => prog_bind (receive_all n fuel rh) (fun '(ms, r, rh) => Done (m :: ms, r, rh))
        | r => Done ([], r, rh)
        end)
  end.

Abbreviation Received :=
  (list (list Z) * option (outcome SecretStreamError (option (list Z))) * SecretStreamReadHalf)%type.

(** The bytes of the messages and the cipher after them. *)
Fixpoint sealed (ms : list (list Z)) (p : Push) : list Z * Push :=
  match ms with
  | [] => ([], p)
  | m :: ms => let '(ct, p) := Push_next m p in let '(rest, p) := sealed ms p in (frame ct ++ rest, p)
  end.
Definition nonempty (ms : list (list Z)) : list (list Z) := filter (fun m => m <> []) ms.
Definition message_ok (m : list Z) : Prop := len m <= MAX_MESSAGE_LEN - ABYTES.

Lemma push_len m p : len (fst (Push_next m p)) = len m + ABYTES.
Proof. apply encrypt_len. Qed.

Lemma run_send ms p : Forall message_ok ms -> forall input eof,
  run (send_all ms (mkWriteHalf p)) input eof
  = (inl (Ok tt, mkWriteHalf (snd (sealed ms p))), input, fst (sealed ms p)).
Proof.
  intros Hms. revert p. induction Hms as [|m ms Hm _ IH]; intros p input eof; [done|].
  cbn [send_all sealed]. unfold SecretStreamWriteHalf_write. cbn [wh_encrypt].
  pose proof (push_len m p) as L. destruct (Push_next m p) as [ct p'] eqn:Ep. cbn [fst] in L.
  erewrite run_bind_ok.
  2: { erewrite run_bind_ok; [|apply run_write_frame; unfold message_ok in Hm; lia]. reflexivity. }
  cbv beta iota. rewrite IH. destruct (sealed ms p') as [rest p2]. cbn [fst snd]. by rewrite app_nil_r.
Qed.

(** What [receive_all] does after its first read. *)
Definition keep_receiving n fuel : option (outcome SecretStreamError (option (list Z))) * SecretStreamReadHalf -> _ :=
  fun '(r, rh) =>
    match r with
    | Some (Ok (Some m)) => prog_bind (receive_all n fuel rh) (fun '(ms, r, rh) => Done (m :: ms, r, rh))
    | r => Done ([], r, rh)
    end.

(** The messages that came, how it ended, on a prefix of what was sent. *)
Definition received (ms : list (list Z)) (p : Push) (input : list Z)
    (out : (Received + Prog Received) * list Z * list Z) : Prop :=
  exists ms' r rh, out = (inl (ms', Some r, rh), [], []) /\ ms' `prefix_of` nonempty ms /\ cut_end r /\
    (input = fst (sealed ms p) -> ms' = nonempty ms /\ r = Ok None /\ rh_decrypt rh = snd (sealed ms p)).

Lemma nonempty_cons_nil ms : nonempty ([] :: ms) = nonempty ms.
Proof. unfold nonempty. rewrite filter_cons_False; [done|]. intros Hn. by apply Hn. Qed.
Lemma nonempty_cons m ms : m <> [] -> nonempty (m :: ms) = m :: nonempty ms.
Proof. intros Hm. unfold nonempty. by rewrite filter_cons_True. Qed.

(** The turn of a sealed message. *)
Lemma read_turn_sealed m p ct p' : Push_next m p = (ct, p') ->
  read_turn (Ok (Some ct)) (mkReadHalf p)
  = (if decide (m = []) then None else Some (Ok (Some m)), mkReadHalf p').
Proof.
  intros E. pose proof (push_len m p) as L. rewrite E in L. cbn [fst] in L.
  pose proof (pull_push p m None TAG_MESSAGE) as P. fold (Push_next m p) in P. rewrite E in P.
  unfold read_turn. rewrite ltb_no by (pose proof (len_nonneg m); lia).
  unfold Pull_next. cbn [rh_decrypt]. rewrite P. cbn [length]. destruct m; by destruct (decide _).
Qed.

(** A run of a read that starts with a whole frame, or with a cut one. *)
Lemma run_read_whole {B} m p ct p' fuel rest (K : _ -> Prog B) : Push_next m p = (ct, p') -> message_ok m ->
  run (prog_bind (SecretStreamReadHalf_read (S fuel) (mkReadHalf p)) K) (frame ct ++ rest) true
  = if decide (m = []) then run (prog_bind (SecretStreamReadHalf_read fuel (mkReadHalf p')) K) rest true
    else run (K (Some (Ok (Some m)), mkReadHalf p')) rest true.
Proof.
  intros E Hm. pose proof (push_len m p) as L. rewrite E in L. cbn [fst] in L. unfold message_ok in Hm.
  cbn [SecretStreamReadHalf_read]. rewrite run_bind.
  rewrite (run_bind_ok _ _ _ _ _ _ _ (run_read_frame ct rest true ltac:(lia))).
  rewrite (read_turn_sealed m p ct p' E). rewrite run_bind. destruct (decide (m = [])).
  - by destruct (run (SecretStreamReadHalf_read fuel (mkReadHalf p')) rest true) as [[[a|q] r] o].
  - cbn [run]. by destruct (run _ rest true) as [[[a|q] r] o].
Qed.
Lemma run_read_ended {B} o fuel rh input (K : _ -> Prog B) : cut_end o ->
  run read_frame input true = (inl o, [], []) ->
  run (prog_bind (SecretStreamReadHalf_read (S fuel) rh) K) input true = run (K (Some o, rh)) [] true.
Proof.
  intros Ho E. cbn [SecretStreamReadHalf_read]. rewrite run_bind. rewrite (run_bind_ok _ _ _ _ _ _ _ E).
  destruct Ho as [->| ->]; cbn; by destruct (run _ [] true) as [[[a|q] r] o].
Qed.

(** A silent message, and one that is delivered. *)
Lemma received_skip ms p ct p' input out : Push_next [] p = (ct, p') ->
  received ms p' input out -> received ([] :: ms) p (frame ct ++ input) out.
Proof.
  intros E (ms' & r & rh & -> & Hp & Hr & Hall). exists ms', r, rh. cbn [sealed]. rewrite E, nonempty_cons_nil.
  destruct (sealed ms p') as [rest p2] eqn:Es. split_and!; [done..|]. cbn [fst snd] in *.
  intros Hi. apply app_inv_head in Hi. by apply Hall.
Qed.
Lemma received_take m ms p ct p' input n F : Push_next m p = (ct, p') -> m <> [] ->
  received ms p' input
    (run (prog_bind (SecretStreamReadHalf_read F (mkReadHalf p')) (keep_receiving n F)) input true) ->
  received (m :: ms) p (frame ct ++ input)
    (run (prog_bind (receive_all (S n) F (mkReadHalf p')) (fun '(ms, r, rh) => Done (m :: ms, r, rh))) input true).
Proof.
  intros E Hne (ms' & r & rh & Hrun & Hp & Hr & Hall).
  exists (m :: ms'), r, rh. rewrite nonempty_cons by done. cbn [sealed]. rewrite E.
  destruct (sealed ms p') as [rest p2] eqn:Es. split_and!; [|by apply prefix_cons|done|].
  - change (receive_all (S n) F (mkReadHalf p'))
      with (prog_bind (SecretStreamReadHalf_read F (mkReadHalf p')) (keep_receiving n F)).
    by rewrite (run_bind_ok _ _ _ _ _ _ _ Hrun).
  - cbn [fst snd] in *. intros Hi. apply app_inv_head in Hi. destruct (Hall Hi) as (-> & -> & Hd).
    by split_and!.
Qed.

Lemma received_run ms : Forall message_ok ms -> forall p input n f F,
  input `prefix_of` fst (sealed ms p) -> (length ms < f)%nat -> (length ms < F)%nat -> (length ms <= n)%nat ->
  received ms p input
    (run (prog_bind (SecretStreamReadHalf_read f (mkReadHalf p)) (keep_receiving n F)) input true).
Proof.
  intros Hms. induction Hms as [|m ms Hm Hms IH]; intros p input n f F Hp Hf HF Hn; (destruct f as [|f]; [cbn in Hf; lia|]).
  - apply prefix_nil_inv in Hp. subst input. rewrite (run_read_ended (Ok None)); [|by left|done].
    eexists [], _, _. split_and!; [done|done|by left|done].
  - cbn [sealed length] in *. destruct (Push_next m p) as [ct p'] eqn:Ep.
    destruct (sealed ms p') as [rest p2] eqn:Es. cbn [fst] in Hp.
    pose proof (push_len m p) as L. rewrite Ep in L. cbn [fst] in L. unfold message_ok in Hm.
    apply prefix_split in Hp as [(i' & -> & Hp)|(cut & Hc & E)].
    + rewrite (run_read_whole m p ct p') by done.
      assert (rest = fst (sealed ms p')) as -> by (by rewrite Es). pose proof (f_equal snd Es) as E2. cbn in E2. subst p2.
      destruct (decide (m = [])) as [->|Hne].
      * eapply received_skip; [exact Ep|]. apply IH; [done|lia..].
      * destruct n as [|n]; [lia|]. cbn [keep_receiving].
        eapply received_take; [exact Ep|exact Hne|]. apply IH; [done|lia..].
    + destruct (run_read_cut ct input cut) as (o & Ho & Hend); [lia|done..|].
      rewrite (run_read_ended o) by done. eexists [], _, _. split_and!; [|apply prefix_nil|exact Hend|].
      { by destruct Hend as [->| ->]. }
      intros ->. exfalso. cbn [sealed] in E. rewrite Ep, Es in E. cbn [fst] in E.
      apply (f_equal length) in E. rewrite !length_app in E. destruct cut; [done|]. cbn in E. lia.
Qed.
End Messages.

(** ** Connecting *)

Section Connect.
Context `{CryptoPrims} `{!CryptoLaws _} `{!MacLaws} `{NoisePrims} `{!NoiseLaws} `{StreamPrims} `{!StreamLaws}.

Abbreviation steps := (rtc step).

Lemma left_writes {A B} m (k : unit -> SsProg A) (q : Prog B) lr rl : len m <= MAX_MESSAGE_LEN ->
  steps (mkConfig (write_frame m ≫= k) q lr rl) (mkConfig (k tt) q (lr ++ frame m) rl).
Proof.
  intros Hl. unfold write_frame. assert ((MAX_MESSAGE_LEN <? len m) = false) as -> by lia.
  eapply rtc_l; [by apply step_left|]. eapply rtc_l; [by apply step_left|].
  unfold frame. rewrite app_assoc. apply rtc_refl.
Qed.
Lemma right_writes {A B} m (k : unit -> SsProg B) (p : Prog A) lr rl : len m <= MAX_MESSAGE_LEN ->
  steps (mkConfig p (write_frame m ≫= k) lr rl) (mkConfig p (k tt) lr (rl ++ frame m)).
Proof.
  intros Hl. unfold write_frame. assert ((MAX_MESSAGE_LEN <? len m) = false) as -> by lia.
  eapply rtc_l; [by apply step_right|]. eapply rtc_l; [by apply step_right|].
  unfold frame. rewrite app_assoc. apply rtc_refl.
Qed.

(** Two reads take a frame off the pipe. *)
Lemma psteps_read {A} m (k : list Z -> SsProg A) rest out : len m <= MAX_MESSAGE_LEN ->
  exists p2, pstep (read_some ≫= k) (frame m ++ rest) out = Some (p2, m ++ rest, out) /\
    pstep p2 (m ++ rest) out = Some (k m, rest, out).
Proof.
  intros Hl. unfold read_some, read_frame, mbind, ProgE_bind. cbn [prog_bind pstep].
  assert ((3 <=? len (frame m ++ rest)) = true) as ->.
  { apply Z.leb_le. unfold frame. lens. rewrite frame_header_len. pose proof (len_nonneg m). pose proof (len_nonneg rest). lia. }
  unfold frame. rewrite <- app_assoc, take_head, drop_head by done. cbn [prog_bind].
  eexists. split; [done|]. cbn [pstep]. rewrite header_len_frame by (pose proof (len_nonneg m); lia).
  assert ((len m <=? len (m ++ rest)) = true) as ->.
  { apply Z.leb_le. lens. pose proof (len_nonneg rest). lia. }
  by rewrite to_nat_len, take_head, drop_head.
Qed.
Lemma left_reads {A B} m (k : list Z -> SsProg A) (q : Prog B) lr rl : len m <= MAX_MESSAGE_LEN ->
  steps (mkConfig (read_some ≫= k) q lr (frame m ++ rl)) (mkConfig (k m) q lr rl).
Proof.
  intros Hl. destruct (psteps_read m k rl lr Hl) as (p2 & E1 & E2).
  eapply rtc_l; [by apply step_left|]. eapply rtc_l; [by apply step_left|]. apply rtc_refl.
Qed.
Lemma right_reads {A B} m (k : list Z -> SsProg B) (p : Prog A) lr rl : len m <= MAX_MESSAGE_LEN ->
  steps (mkConfig p (read_some ≫= k) (frame m ++ lr) rl) (mkConfig p (k m) lr rl).
Proof.
  intros Hl. destruct (psteps_read m k lr rl Hl) as (p2 & E1 & E2).
  eapply rtc_l; [by apply step_right|]. eapply rtc_l; [by apply step_right|]. apply rtc_refl.
Qed.
Lemma noise_step_run {A B} (f : M Handshake NoiseError A) h a h' (k : A * Handshake -> SsProg B) :
  f h = (Ok a, h') -> noise_step f h ≫= k = k (a, h').
Proof. unfold noise_step. by intros ->. Qed.

(** The ID headers, from the two results of one handshake. *)
Definition ready (is_initiator : bool) tx rx hash remote (hl hr : list Z) : SecretStream :=
  mkSecretStream (Push_with_header tx hl) (Pull_new rx hr) remote hash is_initiator.

Lemma id_accepted b tx rx hash remote hl hr :
  len hl = 24 -> len hr = 24 ->
  (if negb (len (stream_id hash (negb b) ++ hr) =? IDHEADERBYTES)
   then pthrow (InvalidIdHeader IDHEADERBYTES (len (stream_id hash (negb b) ++ hr)))
   else if bool_decide (take 32 (stream_id hash (negb b) ++ hr) <> stream_id hash (negb b))
   then pthrow StreamIdMismatch
   else mret (mkSecretStream (Push_with_header tx hl) (Pull_new rx (slice (stream_id hash (negb b) ++ hr) 32 56)) remote hash b))
  = (mret (ready b tx rx hash remote hl hr) : SsProg SecretStream).
Proof.
  intros Hl Hr. assert (len (stream_id hash (negb b)) = 32) as Li by apply mac256_ok.
  assert (length (stream_id hash (negb b)) = 32%nat) as Ln by (unfold len in Li; lia).
  rewrite len_app, Li, Hr, take_head by done. cbn [negb]. 
  replace (negb (32 + 24 =? IDHEADERBYTES)) with false by done.
  rewrite bool_decide_eq_false_2 by (intros Hn; by apply Hn).
  assert (slice (stream_id hash (negb b) ++ hr) 32 56 = hr) as ->; [|done].
  rewrite <- (app_nil_r hr) at 1. by apply (slice_second _ _ [] 32 24).
Qed.

Lemma ids_exchanged tx rx hash pkl pkr hl hr : len hl = 24 -> len hr = 24 ->
  steps (mkConfig (SecretStream_from_session true tx rx hash pkr hl)
           (SecretStream_from_session false rx tx hash pkl hr) [] [])
    (mkConfig (Done (Ok (ready true tx rx hash pkr hl hr))) (Done (Ok (ready false rx tx hash pkl hr hl))) [] []).
Proof.
  intros Hl Hr. assert (forall b, len (stream_id hash b) = 32) as Li by (intros b; apply mac256_ok).
  unfold SecretStream_from_session, Push_new.
  etrans; [apply left_writes; lens; rewrite Li, Hl; done|].
  etrans; [apply right_writes; lens; rewrite Li, Hr; done|].
  cbn [app]. rewrite <- (app_nil_r (frame (stream_id hash false ++ hr))), <- (app_nil_r (frame (stream_id hash true ++ hl))).
  etrans; [apply left_reads; lens; rewrite Li, Hr; done|].
  etrans; [apply right_reads; lens; rewrite Li, Hl; done|].
  pose proof (id_accepted true tx rx hash pkr hl hr Hl Hr) as E1.
  pose proof (id_accepted false rx tx hash pkl hr hl Hr Hl) as E2.
  lazymatch goal with |- rtc _ (mkConfig ?x ?y _ _) (mkConfig ?x' ?y' _ _) =>
    replace x with x' by (symmetry; exact E1); replace y with y' by (symmetry; exact E2) end.
  apply rtc_refl.
Qed.

Lemma xx_connected si sr ei er : seed_ok si -> seed_ok sr -> seed_ok ei -> seed_ok er ->
  exists hi hr,
    steps (mkConfig (xx_exchange true (noise_keypair_from_seed si) ei)
             (xx_exchange false (noise_keypair_from_seed sr) er) [] [])
      (mkConfig (Done (Ok hi)) (Done (Ok hr)) [] []) /\
    agreed (ed25519_public si) (ed25519_public sr) hi hr.
Proof.
  intros Hsi Hsr Hei Her.
  destruct (xx_exchange_agrees si sr ei er ei Hsi Hsr Hei Her) as
    (m1 & m2 & m3 & hi1 & hi2 & hi3 & hr1 & hr2 & hr3 & res & E1 & L1 & R1 & E2 & L2 & R2 & E3 & L3 & R3 & _ & Ha).
  exists hi3, hr3. split; [|done]. unfold xx_exchange. cbv zeta.
  rewrite (noise_step_run _ _ _ _ _ E1).
  etrans; [apply left_writes; rewrite L1; done|]. cbn [app]. rewrite <- (app_nil_r (frame m1)).
  etrans; [apply right_reads; rewrite L1; done|].
  cbv beta. rewrite (noise_step_run _ _ _ _ _ R1), (noise_step_run _ _ _ _ _ E2).
  etrans; [apply right_writes; rewrite L2; done|]. cbn [app]. rewrite <- (app_nil_r (frame m2)).
  etrans; [apply left_reads; rewrite L2; done|].
  cbv beta. rewrite (noise_step_run _ _ _ _ _ R2), (noise_step_run _ _ _ _ _ E3).
  etrans; [apply left_writes; rewrite L3; done|]. cbn [app]. rewrite <- (app_nil_r (frame m3)).
  etrans; [apply right_reads; rewrite L3; done|].
  cbv beta. rewrite (noise_step_run _ _ _ _ _ R3). apply rtc_refl.
Qed.

(** The two ends of one connection: what one seals the other opens. *)
Definition ends (pki pkr : list Z) (i r : SecretStream) : Prop :=
  ss_encrypt i = ss_decrypt r /\ ss_encrypt r = ss_decrypt i /\ ss_handshake_hash i = ss_handshake_hash r /\
  ss_remote_public_key i = pkr /\ ss_remote_public_key r = pki /\
  ss_is_initiator i = true /\ ss_is_initiator r = false.

Lemma connected si sr ei er hl hr :
  seed_ok si -> seed_ok sr -> seed_ok ei -> seed_ok er -> len hl = 24 -> len hr = 24 ->
  exists i r,
    steps (mkConfig (SecretStream_new true (noise_keypair_from_seed si) ei hl)
             (SecretStream_new false (noise_keypair_from_seed sr) er hr) [] [])
      (mkConfig (Done (Ok i)) (Done (Ok r)) [] []) /\
    ends (ed25519_public si) (ed25519_public sr) i r.
Proof.
  intros Hsi Hsr Hei Her Hl Hr.
  destruct (xx_connected si sr ei er) as (hi & hr' & Hsteps & ri & rr & Ei & Er & Ht & Hx & Hh & Hk & Hk'); [done..|].
  eexists _, _. split.
  - unfold SecretStream_new. etrans; [apply steps_bind, Hsteps|]. cbn [prog_bind]. rewrite Ei, Er, Ht, Hx, Hh, Hk, Hk'.
    by apply ids_exchanged.
  - by split_and!.
Qed.
End Connect.

(** C13: two peers that open a [SecretStream] over the two ends of a transport
    connect, whatever the order in which their reads and writes are scheduled:
    every schedule so far, no longer than a fixed number of steps, continues to
    the state where both have a session, nothing is left in the pipes, each
    opens what the other seals, and each knows the other's public key. *)
Theorem secret_stream_connects `{CryptoPrims} `{!CryptoLaws _} `{!MacLaws} `{NoisePrims} `{!NoiseLaws}
    `{StreamPrims} si sr ei er hl hr :
  seed_ok si -> seed_ok sr -> seed_ok ei -> seed_ok er -> len hl = 24 -> len hr = 24 ->
  exists n i r,
    ends (ed25519_public si) (ed25519_public sr) i r /\
    forall m d,
      nsteps step m (mkConfig (SecretStream_new true (noise_keypair_from_seed si) ei hl)
                       (SecretStream_new false (noise_keypair_from_seed sr) er hr) [] []) d ->
      (m <= n)%nat /\ nsteps step (n - m) d (mkConfig (Done (Ok i)) (Done (Ok r)) [] []).
Proof.
  intros Hsi Hsr Hei Her Hl Hr. destruct (connected si sr ei er hl hr) as (i & r & Hs & He); [done..|].
  apply rtc_nsteps in Hs as [n Hn]. exists n, i, r. split; [done|]. intros m d.
  apply any_schedule; [done|apply done_nf].
Qed.

(** C15: a session delivers its messages: writing any messages that fit a frame
    succeeds, and the other end, reading any prefix of the bytes until they end,
    gets a prefix of the non-empty messages, in order, then the end of the
    stream or [UnexpectedEof]; all the bytes bring all the messages and leave
    both ciphers in one state. *)
Theorem secret_stream_delivers `{StreamPrims} `{!StreamLaws} ms (p : Push) input :
  Forall message_ok ms -> 
  run (send_all ms (mkWriteHalf p)) [] true = (inl (Ok tt, mkWriteHalf (snd (sealed ms p))), [], fst (sealed ms p)) /\
  (input `prefix_of` fst (sealed ms p) ->
   received ms p input (run (receive_all (S (length ms)) (S (length ms)) (mkReadHalf p)) input true)).
Proof.
  intros Hms. split; [by apply run_send|]. intros Hp. apply received_run; [done|done|lia..].
Qed.

(** A message too large for a frame is refused, with the cipher moved on. *)
Lemma oversized_write m wh input eof : MAX_MESSAGE_LEN - ABYTES < len m ->
  forall `{StreamPrims} `{!StreamLaws},
  run (SecretStreamWriteHalf_write m wh) input eof
  = (inl (Err (MessageTooLarge (len m + ABYTES)), mkWriteHalf (snd (Push_next m (wh_encrypt wh)))), input, []).
Proof.
  intros Hl Hp Hlaws. unfold SecretStreamWriteHalf_write. pose proof (push_len m (wh_encrypt wh)) as L.
  destruct (Push_next m (wh_encrypt wh)) as [ct p]. cbn [fst snd] in *. unfold write_frame. rewrite L.
  assert ((MAX_MESSAGE_LEN <? len m + ABYTES) = true) as -> by lia. done.
Qed.

Module SessionExamples.
Lemma toy_mac : @MacLaws toy_crypto.
Proof. split. intros key data. apply tail_digest_ok. Qed.
Definition messages : list (list Z) := [[1; 2]; []; [3]].
Lemma messages_ok : Forall message_ok messages.
Proof. apply (bool_decide_unpack _). vm_compute. exact Logic.I. Qed.
End SessionExamples.
Import NoiseExamples SessionExamples.
#[local] Existing Instances toy_crypto toy_noise toy_mac toy_stream toy_stream_laws.

Lemma secret_stream_connects_witness : exists n i r,
  ends (ed25519_public (seed 1)) (ed25519_public (seed 2)) i r /\
  forall m d,
    nsteps step m (mkConfig (SecretStream_new true (noise_keypair_from_seed (seed 1)) (seed 3) (replicate 24 7))
                     (SecretStream_new false (noise_keypair_from_seed (seed 2)) (seed 4) (replicate 24 8)) [] []) d ->
    (m <= n)%nat /\ nsteps step (n - m) d (mkConfig (Done (Ok i)) (Done (Ok r)) [] []).
Proof.
  apply (secret_stream_connects (seed 1) (seed 2) (seed 3) (seed 4)); [apply seed_good..|reflexivity|reflexivity].
Defined.

Lemma secret_stream_delivers_witness :
  received messages toy_state (take 30 (fst (sealed messages toy_state)))
    (run (receive_all 4 4 (mkReadHalf toy_state)) (take 30 (fst (sealed messages toy_state))) true) /\
  exists rh, run (receive_all 4 4 (mkReadHalf toy_state)) (fst (sealed messages toy_state)) true
    = (inl ([[1; 2]; [3]], Some (Ok None), rh), [], []).
Proof.
  split.
  - apply (secret_stream_delivers messages toy_state); [apply messages_ok|].
    exists (drop 30 (fst (sealed messages toy_state))). symmetry. apply take_drop.
  - pose proof (proj2 (secret_stream_delivers messages toy_state _ messages_ok) (reflexivity _)) as P.
    change (S (length messages)) with 4%nat in P. destruct P as (ms & r & rh & E & _ & _ & Hall).
    destruct (Hall eq_refl) as (-> & -> & _). exists rh. exact E.
Defined.
