(* ===== verification/Protomux.v ===== *)
(** * Protomux: the channel multiplexer of [peeroxide-dht/src/protomux.rs]

    Many named channels over one framed stream.  The first half is the frame
    codec; the second half is the actor [run_mux] and the handles that talk to
    it.  The handlers are programs over a [Mux]: the source's [MuxState]
    together with what the actor reaches through its arguments, the write queue,
    the frames handed to the stream, the events sent into the channels' event
    queues and the answers sent into reply channels.  An event queue is a
    number, the order of its creation; a reply channel is a number chosen by the
    caller.  Sending to a handle that was dropped is ignored by the source, so
    what was sent does not depend on who still listens. *)

From stdpp Require Import pretty.
From S2P Require Import Prelude RustStd Persistent CompactEncoding Codec.
From Stdlib Require Import Ascii.

#[local] Open Scope Z_scope.

Definition CTRL_BATCH : Z := 0.
Definition CTRL_OPEN : Z := 1.
Definition CTRL_REJECT : Z := 2.
Definition CTRL_CLOSE : Z := 3.

Inductive ProtomuxError : Type :=
| PEncoding (e : EncodingError)
| PStreamClosed
| PInvalidFrame (what : string)
| PChannelClosed
| PChannelNotFound (local_id : Z)
| PInternal (what : string).

(** ** Frame encoding

    Every encoder measures, allocates and writes.  The two header bytes are
    written at the start of the buffer. *)

Definition encode_header (kind : Z) : Enc unit := write_at 0 0 ;; write_at 1 kind ;; advance 2.

Definition encode_open (local_id : Z) (protocol : string) (id handshake : option (list Z)) :
    outcome EncodingError (list Z) :=
  to_bytes
    (fun s =>
       let s := preencode_buffer (preencode_string (preencode_uint (grow 2 s) local_id) protocol) id in
       match handshake with Some hs => grow (len hs) s | None => s end)
    (encode_header 1 ;; encode_uint local_id ;; encode_string protocol ;; encode_buffer id ;;
     match handshake with Some hs => copy_from_slice hs ;; advance (len hs) | None => mret tt end).

Definition encode_close (local_id : Z) : outcome EncodingError (list Z) :=
  to_bytes (fun s => preencode_uint (grow 2 s) local_id) (encode_header 3 ;; encode_uint local_id).

Definition encode_reject (remote_id : Z) : outcome EncodingError (list Z) :=
  to_bytes (fun s => preencode_uint (grow 2 s) remote_id) (encode_header 2 ;; encode_uint remote_id).

Definition encode_message (channel_id message_type : Z) (payload : list Z) :
    outcome EncodingError (list Z) :=
  to_bytes
    (fun s => grow (len payload) (preencode_uint (preencode_uint s channel_id) message_type))
    (encode_uint channel_id ;; encode_uint message_type ;;
     copy_from_slice payload ;; advance (len payload)).

(** The two loops of [encode_batch]: an entry for another channel than the one
    before it is announced by a zero byte and its id. *)
Fixpoint preencode_entries (prev_id : Z) (entries : list (Z * list Z)) (s : State) : State :=
  match entries with
  | [] => s
  | (channel_id, buf) :: entries =>
      let s := if channel_id =? prev_id then s else preencode_uint (grow 1 s) channel_id in
      preencode_entries channel_id entries (preencode_buffer s (Some buf))
  end.

Fixpoint encode_entries (prev_id : Z) (entries : list (Z * list Z)) : Enc unit :=
  match entries with
  | [] => mret tt
  | (channel_id, buf) :: entries =>
      (if channel_id =? prev_id then mret tt
       else write_at 0 0 ;; advance 1 ;; encode_uint channel_id) ;;
      encode_buffer (Some buf) ;; encode_entries channel_id entries
  end.

Definition encode_batch (entries : list (Z * list Z)) : outcome EncodingError (list Z) :=
  match entries with
  | [] => Ok []
  | (first, _) :: _ =>
      to_bytes (fun s => preencode_entries first entries (preencode_uint (grow 2 s) first))
        (encode_header 0 ;; encode_uint first ;; encode_entries first entries)
  end.

(** ** Frame decoding *)

Inductive ControlFrame : Type :=
| FOpen (local_id : Z) (protocol : string) (id handshake_state : option (list Z))
| FClose (local_id : Z)
| FReject (remote_id : Z).

Record BatchItem : Type := mkItem { bi_channel_id : Z; bi_data : list Z }.

Inductive DecodedFrame : Type :=
| Control (c : ControlFrame)
| Batch (items : list BatchItem)
| Message (channel_id message_type : Z) (payload : list Z).

(** Decoders of this file: a primitive's error becomes a [PEncoding]. *)
Abbreviation Dec := (M State ProtomuxError).
Definition lift {A} (m : Enc A) : Dec A := fun s =>
  match m s with
  | (Ok a, s') => (Ok a, s')
  | (Err e, s') => (Err (PEncoding e), s')
  | (Panic, s') => (Panic, s')
  end.

(** [state.buffer[state.start..state.end]] *)
Definition rest_of_buffer : Dec (list Z) := s ← get; lift (read_slice (end_ s - start s)).

(** The items of a batch.  Every turn consumes at least one byte.  The sum
    [state.start + len] wraps, and a wrapped end makes the slice panic. *)
Fixpoint batch_loop (fuel : nat) (end' current_channel : Z) (items : list BatchItem) :
    Dec (list BatchItem) :=
  s ← get;
  if start s <? end' then
    match fuel with
    | O => panic
    | Datatypes.S fuel =>
        n ← lift decode_uint;
        if n =? 0 then
          current_channel ← lift decode_uint;
          batch_loop fuel end' current_channel items
        else
          s ← get;
          if end' <? as_u64 (start s + n) then throw (PInvalidFrame "batch item overflows frame")
          else
            data ← lift (read_slice n);
            lift (advance n) ;;
            batch_loop fuel end' current_channel (items ++ [mkItem current_channel data])
    end
  else mret items.

Definition decode_control (fuel : nat) : Dec DecodedFrame :=
  ctrl_type ← lift decode_uint;
  if ctrl_type =? CTRL_OPEN then
    local_id ← lift decode_uint;
    protocol ← lift decode_string;
    id ← lift decode_buffer;
    s ← get;
    handshake_state ← (if start s <? end_ s then Some <$> rest_of_buffer else mret None);
    mret (Control (FOpen local_id protocol id handshake_state))
  else if ctrl_type =? CTRL_CLOSE then
    local_id ← lift decode_uint; mret (Control (FClose local_id))
  else if ctrl_type =? CTRL_REJECT then
    remote_id ← lift decode_uint; mret (Control (FReject remote_id))
  else if ctrl_type =? CTRL_BATCH then
    current_channel ← lift decode_uint;
    s ← get;
    items ← batch_loop fuel (end_ s) current_channel [];
    mret (Batch items)
  else throw (PInvalidFrame ("unknown control type: " +:+ pretty (Z.to_N ctrl_type))).

Definition decode_frame_go (fuel : nat) : Dec DecodedFrame :=
  channel_id ← lift decode_uint;
  if channel_id =? 0 then decode_control fuel
  else
    message_type ← lift decode_uint;
    payload ← rest_of_buffer;
    mret (Message channel_id message_type payload).

Definition decode_frame (data : list Z) : outcome ProtomuxError DecodedFrame :=
  if len data =? 0 then Err (PInvalidFrame "empty frame")
  else (decode_frame_go (length data) (from_buffer data)).1.

(** ** Events, commands and handles *)

Inductive ChannelEvent : Type :=
| EvOpened (handshake : option (list Z))
| EvMessage (message_type : Z) (data : list Z)
| EvClosed (is_remote : bool).

(** [response] is the reply channel of a create. *)
Inductive MuxCommand : Type :=
| CreateChannel (protocol : string) (id handshake : option (list Z)) (response : Z)
| SendMessage (local_id message_type : Z) (data : list Z)
| CloseChannel (local_id : Z)
| Cork
| Uncork.

Record ChannelHandle : Type := mkHandle { hd_local_id : Z; hd_event_rx : Z }.

(** The user's handle; its [cmd_tx] is the way to the actor. *)
Record Channel : Type := mkChannel {
  ch_local_id : Z;
  ch_protocol : string;
  ch_id : option (list Z);
  ch_event_rx : Z;
  ch_opened : bool;
  ch_closed : bool
}.

(** [send] produces a command; [alive] says whether the actor still runs. *)
Definition Channel_send (alive : bool) (ch : Channel) (message_type : Z) (data : list Z) :
    outcome ProtomuxError MuxCommand :=
  if ch_closed ch then Err PChannelClosed
  else if alive then Ok (SendMessage (ch_local_id ch) message_type data) else Err PStreamClosed.

(** [wait_opened] over the events its queue holds: the answer, the handle and
    the events left, or [None] while it still waits.  [ended] says that the
    sender is gone, so that an empty queue answers [None] to [recv]. *)
Fixpoint wait_opened_loop (ended : bool) (ch : Channel) (queue : list ChannelEvent) :
    option (outcome ProtomuxError (option (list Z)) * Channel * list ChannelEvent) :=
  match queue with
  | EvOpened handshake :: queue =>
      Some (Ok handshake,
            mkChannel (ch_local_id ch) (ch_protocol ch) (ch_id ch) (ch_event_rx ch) true (ch_closed ch),
            queue)
  | EvClosed _ :: queue =>
      Some (Err PChannelClosed,
            mkChannel (ch_local_id ch) (ch_protocol ch) (ch_id ch) (ch_event_rx ch) (ch_opened ch) true,
            queue)
  | EvMessage _ _ :: queue => wait_opened_loop ended ch queue
  | [] => if ended then Some (Err PStreamClosed, ch, []) else None
  end.
Definition Channel_wait_opened (ended : bool) (ch : Channel) (queue : list ChannelEvent) :
    option (outcome ProtomuxError (option (list Z)) * Channel * list ChannelEvent) :=
  if ch_opened ch then Some (Ok None, ch, queue) else wait_opened_loop ended ch queue.

Definition Channel_close (ch : Channel) : Channel * option MuxCommand :=
  if ch_closed ch then (ch, None)
  else (mkChannel (ch_local_id ch) (ch_protocol ch) (ch_id ch) (ch_event_rx ch) (ch_opened ch) true,
        Some (CloseChannel (ch_local_id ch))).

(** What [Mux::create_channel] makes of the actor's answer. *)
Definition Mux_create_channel (protocol : string) (id : option (list Z))
    (answer : option (ProtomuxError + ChannelHandle)) : outcome ProtomuxError Channel :=
  match answer with
  | None => Err PStreamClosed
  | Some (inl e) => Err e
  | Some (inr h) => Ok (mkChannel (hd_local_id h) protocol id (hd_event_rx h) false false)
  end.

(** ** The actor's state *)

Record LocalChannel : Type := mkLocal {
  lc_protocol : string;
  lc_id : option (list Z);
  lc_remote_id : option Z;
  lc_event_tx : Z;
  lc_opened : bool;
  lc_closed : bool
}.

Record RemoteChannel : Type := mkRemote {
  rc_handshake_state : option (list Z);
  rc_local_id : option Z;
  rc_pending : list (Z * list Z)
}.

Record ChannelInfo : Type := mkInfo { ci_outgoing : list Z; ci_incoming : list Z }.

Record MuxState : Type := mkMuxState {
  ms_local : list (option LocalChannel);
  ms_free_ids : list Z;
  ms_remote : list (option RemoteChannel);
  ms_infos : gmap string ChannelInfo;
  ms_cork_depth : Z;
  ms_batch : list (Z * list Z)
}.

Definition MuxState_new : MuxState := mkMuxState [] [] [] ∅ 0 [].

(** The state of [run_mux]: its [MuxState] and [write_queue], the frames it has
    written, the events and answers it has sent (each with its queue, oldest
    first) and the number of event queues made. *)
Record Mux : Type := mkMux {
  mx_state : MuxState;
  mx_write_queue : list (list Z);
  mx_written : list (list Z);
  mx_events : list (Z * ChannelEvent);
  mx_responses : list (Z * (ProtomuxError + ChannelHandle));
  mx_queues : Z
}.

Definition Mux_start : Mux := mkMux MuxState_new [] [] [] [] 0.

Abbreviation MuxM := (M Mux ProtomuxError).

(** ** Access to the state *)

Definition upd_state (f : MuxState -> MuxState) (m : Mux) : Mux :=
  mkMux (f (mx_state m)) (mx_write_queue m) (mx_written m) (mx_events m) (mx_responses m) (mx_queues m).
Definition set_locals (l : list (option LocalChannel)) (s : MuxState) : MuxState :=
  mkMuxState l (ms_free_ids s) (ms_remote s) (ms_infos s) (ms_cork_depth s) (ms_batch s).
Definition set_free_ids (l : list Z) (s : MuxState) : MuxState :=
  mkMuxState (ms_local s) l (ms_remote s) (ms_infos s) (ms_cork_depth s) (ms_batch s).
Definition set_remotes (l : list (option RemoteChannel)) (s : MuxState) : MuxState :=
  mkMuxState (ms_local s) (ms_free_ids s) l (ms_infos s) (ms_cork_depth s) (ms_batch s).
Definition set_infos (i : gmap string ChannelInfo) (s : MuxState) : MuxState :=
  mkMuxState (ms_local s) (ms_free_ids s) (ms_remote s) i (ms_cork_depth s) (ms_batch s).
Definition set_cork (d : Z) (s : MuxState) : MuxState :=
  mkMuxState (ms_local s) (ms_free_ids s) (ms_remote s) (ms_infos s) d (ms_batch s).
Definition set_batch (b : list (Z * list Z)) (s : MuxState) : MuxState :=
  mkMuxState (ms_local s) (ms_free_ids s) (ms_remote s) (ms_infos s) (ms_cork_depth s) b.

Definition update (f : MuxState -> MuxState) : MuxM unit := fun m => (Ok tt, upd_state f m).
Definition gets {A} (f : MuxState -> A) : MuxM A := fun m => (Ok (f (mx_state m)), m).

(** An encoder's bytes. *)
Definition encoded (o : outcome EncodingError (list Z)) : MuxM (list Z) :=
  match o with Ok bs => mret bs | Err e => throw (PEncoding e) | Panic => panic end.

(** [write_queue.push_back(frame)] *)
Definition push_frame (frame : list Z) : MuxM unit := fun m =>
  (Ok tt, mkMux (mx_state m) (mx_write_queue m ++ [frame]) (mx_written m) (mx_events m)
            (mx_responses m) (mx_queues m)).
(** [mpsc::unbounded_channel] *)
Definition unbounded_channel : MuxM Z := fun m =>
  (Ok (mx_queues m),
   mkMux (mx_state m) (mx_write_queue m) (mx_written m) (mx_events m) (mx_responses m) (mx_queues m + 1)).
(** [let _ = event_tx.send(ev)] *)
Definition send_event (event_tx : Z) (ev : ChannelEvent) : MuxM unit := fun m =>
  (Ok tt, mkMux (mx_state m) (mx_write_queue m) (mx_written m) (mx_events m ++ [(event_tx, ev)])
            (mx_responses m) (mx_queues m)).
(** [let _ = response.send(result)] *)
Definition respond (response : Z) (r : ProtomuxError + ChannelHandle) : MuxM unit := fun m =>
  (Ok tt, mkMux (mx_state m) (mx_write_queue m) (mx_written m) (mx_events m)
            (mx_responses m ++ [(response, r)]) (mx_queues m)).

(** [v[i]] and [v[i] = x]: a panic out of range. *)
Definition index {A} (l : list A) (i : Z) : MuxM A :=
  match l !! Z.to_nat i with Some a => if 0 <=? i then mret a else panic | None => panic end.
Definition local_at (i : Z) : MuxM (option LocalChannel) := l ← gets ms_local; index l i.
Definition set_local (i : Z) (c : option LocalChannel) : MuxM unit :=
  local_at i ;; update (fun s => set_locals (<[Z.to_nat i := c]> (ms_local s)) s).
Definition set_remote (i : Z) (c : option RemoteChannel) : MuxM unit :=
  l ← gets ms_remote; index l i ;;
  update (fun s => set_remotes (<[Z.to_nat i := c]> (ms_remote s)) s).

(** [v.get(i)], flattened: [Some(Some(x))] or nothing. *)
Definition get_local (i : Z) : MuxM (option LocalChannel) :=
  gets (fun s => mjoin (ms_local s !! Z.to_nat i)).
Definition get_remote (i : Z) : MuxM (option RemoteChannel) :=
  gets (fun s => mjoin (ms_remote s !! Z.to_nat i)).
(** A write through the [&mut] of such a [get_mut]. *)
Definition put_local (i : Z) (c : LocalChannel) : MuxM unit :=
  update (fun s => set_locals (<[Z.to_nat i := Some c]> (ms_local s)) s).
Definition put_remote (i : Z) (c : RemoteChannel) : MuxM unit :=
  update (fun s => set_remotes (<[Z.to_nat i := Some c]> (ms_remote s)) s).

Definition lc_pair (remote_id : Z) (c : LocalChannel) : LocalChannel :=
  mkLocal (lc_protocol c) (lc_id c) (Some remote_id) (lc_event_tx c) (lc_opened c) (lc_closed c).
Definition lc_open (c : LocalChannel) : LocalChannel :=
  mkLocal (lc_protocol c) (lc_id c) (lc_remote_id c) (lc_event_tx c) true (lc_closed c).
Definition lc_close (c : LocalChannel) : LocalChannel :=
  mkLocal (lc_protocol c) (lc_id c) (lc_remote_id c) (lc_event_tx c) (lc_opened c) true.

(** [if let Some(ch) = &mut state.local[i] { ... }] *)
Definition with_local (i : Z) (f : LocalChannel -> MuxM unit) : MuxM unit :=
  c ← local_at i; match c with Some ch => f ch | None => mret tt end.

(** [if !ch.closed { ch.closed = true; send Closed }] *)
Definition mark_closed (i : Z) (ch : LocalChannel) (is_remote : bool) : MuxM unit :=
  if lc_closed ch then mret tt
  else put_local i (lc_close ch) ;; send_event (lc_event_tx ch) (EvClosed is_remote).

Definition alloc_local_id : MuxM Z :=
  free ← gets ms_free_ids;
  match reverse free with
  | id :: rest => update (set_free_ids (reverse rest)) ;; mret id
  | [] =>
      l ← gets ms_local;
      update (set_locals (l ++ [None])) ;; mret (as_u32 (len l))
  end.

Definition channel_key (protocol : string) (id : option (list Z)) : string :=
  match id with
  | Some id => protocol +:+ "##" +:+ to_hex id
  | None => protocol +:+ "##"
  end.

(** [infos.entry(key).or_insert_with(..)] *)
Definition info_entry (key : string) : MuxM ChannelInfo :=
  infos ← gets ms_infos;
  let info := default (mkInfo [] []) (infos !! key) in
  update (set_infos (<[key := info]> infos)) ;; mret info.
Definition put_info (key : string) (info : ChannelInfo) : MuxM unit :=
  update (fun s => set_infos (<[key := info]> (ms_infos s)) s).

(** Both branches of the source push the frame. *)
Definition enqueue_write (frame : list Z) : MuxM unit := push_frame frame.

(** ** Commands *)

(** The pairing of a new local channel with a queued remote one. *)
Definition adopt_remote (remote_id internal_id : Z) : MuxM (option (list Z)) :=
  rc ← get_remote (remote_id - 1);
  match rc with
  | Some rc =>
      put_remote (remote_id - 1) (mkRemote None (Some internal_id) (rc_pending rc)) ;;
      mret (rc_handshake_state rc)
  | None => mret None
  end.

Definition drain_pending (remote_id event_tx : Z) : MuxM unit :=
  rc ← get_remote (remote_id - 1);
  match rc with
  | Some rc =>
      put_remote (remote_id - 1) (mkRemote (rc_handshake_state rc) (rc_local_id rc) []) ;;
      for_m (rc_pending rc) (fun '(msg_type, data) => send_event event_tx (EvMessage (as_u32 msg_type) data))
  | None => mret tt
  end.

Definition create_channel_internal (protocol : string) (id handshake : option (list Z)) :
    MuxM ChannelHandle :=
  internal_id ← alloc_local_id;
  let local_id_wire := as_u32 (internal_id + 1) in
  event_tx ← unbounded_channel;
  let key := channel_key protocol id in
  set_local internal_id (Some (mkLocal protocol id None event_tx false false)) ;;
  info ← info_entry key;
  match ci_incoming info with
  | remote_id :: incoming =>
      put_info key (mkInfo (ci_outgoing info) incoming) ;;
      with_local internal_id (fun ch => put_local internal_id (lc_pair remote_id ch)) ;;
      remote_hs ← adopt_remote remote_id internal_id;
      frame ← encoded (encode_open local_id_wire protocol id handshake);
      enqueue_write frame ;;
      send_event event_tx (EvOpened remote_hs) ;;
      with_local internal_id (fun ch => put_local internal_id (lc_open ch)) ;;
      drain_pending remote_id event_tx
  | [] =>
      put_info key (mkInfo (ci_outgoing info ++ [local_id_wire]) []) ;;
      frame ← encoded (encode_open local_id_wire protocol id handshake);
      enqueue_write frame
  end ;;
  mret (mkHandle local_id_wire event_tx).

(** [[uint:messageType][payload]], what a batch carries. *)
Definition encode_inner (message_type : Z) (data : list Z) : outcome EncodingError (list Z) :=
  to_bytes (fun s => grow (len data) (preencode_uint s message_type))
    (encode_uint message_type ;; copy_from_slice data).

Definition send_message_internal (local_id message_type : Z) (data : list Z) : MuxM unit :=
  let internal_id := as_u32 (local_id - 1) in
  l ← gets ms_local;
  if len l <=? internal_id then mret tt
  else
    ch ← get_local internal_id;
    match ch with
    | None => mret tt
    | Some _ =>
        depth ← gets ms_cork_depth;
        if 0 <? depth then
          inner ← encoded (encode_inner message_type data);
          update (fun s => set_batch (ms_batch s ++ [(local_id, inner)]) s)
        else
          frame ← encoded (encode_message local_id message_type data);
          push_frame frame
    end.

(** The tail of [close_channel_internal]. *)
Definition finish_close (local_id internal_id : Z) : MuxM unit :=
  frame ← encoded (encode_close local_id);
  enqueue_write frame ;;
  set_local internal_id None ;;
  update (fun s => set_free_ids (ms_free_ids s ++ [internal_id]) s).

Definition close_channel_internal (local_id : Z) : MuxM unit :=
  let internal_id := as_u32 (local_id - 1) in
  l ← gets ms_local;
  if len l <=? internal_id then mret tt
  else
    c ← local_at internal_id;
    match c with
    | Some ch =>
        if lc_closed ch then mret tt
        else mark_closed internal_id ch false ;; finish_close local_id internal_id
    | None => finish_close local_id internal_id
    end.

(** [let result = ...; response.send(result)] *)
Definition try_m {A} (m : MuxM A) : MuxM (ProtomuxError + A) := fun s =>
  match m s with
  | (Ok a, s') => (Ok (inr a), s')
  | (Err e, s') => (Ok (inl e), s')
  | (Panic, s') => (Panic, s')
  end.

Definition handle_uncork : MuxM unit :=
  depth ← gets ms_cork_depth;
  if 0 <? depth then
    update (set_cork (depth - 1)) ;;
    batch ← gets ms_batch;
    if (depth - 1 =? 0) && negb (len batch =? 0) then
      update (set_batch []) ;;
      frame ← encoded (encode_batch batch);
      if len frame =? 0 then mret tt else push_frame frame
    else mret tt
  else mret tt.

Definition handle_command (cmd : MuxCommand) : MuxM unit :=
  match cmd with
  | CreateChannel protocol id handshake response =>
      result ← try_m (create_channel_internal protocol id handshake);
      respond response result
  | SendMessage local_id message_type data => send_message_internal local_id message_type data
  | CloseChannel local_id => close_channel_internal local_id
  | Cork => depth ← gets ms_cork_depth; update (set_cork (as_u32 (depth + 1)))
  | Uncork => handle_uncork
  end.

(** ** Incoming frames *)

(** [while state.remote.len() <= rid { state.remote.push(None) }] *)
Definition grow_remotes (rid : Z) : MuxM unit :=
  update (fun s => set_remotes
    (ms_remote s ++ replicate (Z.to_nat (rid + 1 - len (ms_remote s))) None) s).

Definition handle_remote_open (remote_local_id : Z) (protocol : string)
    (id handshake_state : option (list Z)) : MuxM unit :=
  let remote_id := as_u32 remote_local_id in
  if remote_id =? 0 then
    frame ← encoded (encode_reject 0); push_frame frame
  else
    let rid := remote_id - 1 in
    grow_remotes rid ;;
    l ← gets ms_remote;
    r ← index l rid;
    match r with
    | Some _ => throw (PInvalidFrame "duplicate remote channel ID")
    | None =>
        let key := channel_key protocol id in
        info ← info_entry key;
        match ci_outgoing info with
        | pos :: outgoing =>
            put_info key (mkInfo outgoing (ci_incoming info)) ;;
            let internal_id := as_u32 (pos - 1) in
            set_remote rid (Some (mkRemote handshake_state (Some internal_id) [])) ;;
            with_local internal_id (fun ch =>
              put_local internal_id (lc_open (lc_pair remote_id ch)) ;;
              send_event (lc_event_tx ch) (EvOpened handshake_state))
        | [] =>
            set_remote rid (Some (mkRemote handshake_state None [])) ;;
            put_info key (mkInfo [] (ci_incoming info ++ [remote_id]))
        end
    end.

Definition handle_remote_close (remote_local_id : Z) : MuxM unit :=
  let remote_id := as_u32 remote_local_id in
  if remote_id =? 0 then mret tt
  else
    let rid := remote_id - 1 in
    rc ← get_remote rid;
    match rc ≫= rc_local_id with
    | Some internal_id =>
        ch ← get_local internal_id;
        match ch with Some ch => mark_closed internal_id ch true | None => mret tt end
    | None => mret tt
    end ;;
    l ← gets ms_remote;
    if rid <? len l then set_remote rid None else mret tt.

Definition handle_remote_reject (remote_id : Z) : MuxM unit :=
  let local_id_wire := as_u32 remote_id in
  let internal_id := as_u32 (local_id_wire - 1) in
  ch ← get_local internal_id;
  match ch with Some ch => mark_closed internal_id ch true | None => mret tt end ;;
  set_local internal_id None ;;
  update (fun s => set_free_ids (ms_free_ids s ++ [internal_id]) s).

Definition handle_control (ctrl : ControlFrame) : MuxM unit :=
  match ctrl with
  | FOpen remote_local_id protocol id handshake_state =>
      handle_remote_open remote_local_id protocol id handshake_state
  | FClose remote_local_id => handle_remote_close remote_local_id
  | FReject remote_id => handle_remote_reject remote_id
  end.

Definition dispatch_message (remote_id message_type : Z) (payload : list Z) : MuxM unit :=
  if remote_id =? 0 then mret tt
  else
    let rid := remote_id - 1 in
    rc ← get_remote rid;
    match rc with
    | None => mret tt
    | Some rc =>
        ch ← (match rc_local_id rc with Some internal_id => get_local internal_id | None => mret None end);
        match ch with
        | Some ch =>
            if lc_opened ch then send_event (lc_event_tx ch) (EvMessage (as_u32 message_type) payload)
            else put_remote rid (mkRemote (rc_handshake_state rc) (rc_local_id rc)
                                   (rc_pending rc ++ [(message_type, payload)]))
        | None => put_remote rid (mkRemote (rc_handshake_state rc) (rc_local_id rc)
                                    (rc_pending rc ++ [(message_type, payload)]))
        end
    end.

(** [[uint:messageType][payload]] read back. *)
Definition decode_inner (data : list Z) : outcome ProtomuxError (Z * list Z) :=
  ((message_type ← lift decode_uint; payload ← rest_of_buffer; mret (message_type, payload))
     (from_buffer data)).1.

(** The [Result] of a decoder, with [?]. *)
Definition decoded {A} (o : outcome ProtomuxError A) : MuxM A :=
  match o with Ok a => mret a | Err e => throw e | Panic => panic end.

Definition dispatch_batch_item (item : BatchItem) : MuxM unit :=
  p ← decoded (decode_inner (bi_data item));
  dispatch_message (as_u32 (bi_channel_id item)) p.1 p.2.

Definition handle_incoming_frame (data : list Z) : MuxM unit :=
  frame ← decoded (decode_frame data);
  match frame with
  | Control ctrl => handle_control ctrl
  | Message channel_id message_type payload =>
      dispatch_message (as_u32 channel_id) message_type payload
  | Batch items => for_m items dispatch_batch_item
  end.

(** ** The run loop *)

(** [for ch in state.local.iter_mut().flatten()] *)
Fixpoint shutdown_go (i : Z) (l : list (option LocalChannel)) : MuxM unit :=
  match l with
  | [] => mret tt
  | c :: l =>
      match c with Some ch => mark_closed i ch true | None => mret tt end ;;
      shutdown_go (i + 1) l
  end.
Definition shutdown_all : MuxM unit := l ← gets ms_local; shutdown_go 0 l.

(** The writes before a [select!]; [fails] is the number of frames the stream
    still takes before it reports an error. *)
Definition flush (fails : option nat) : MuxM bool := fun m =>
  let queue := mx_write_queue m in
  let upto k q := mkMux (mx_state m) q (mx_written m ++ take k queue) (mx_events m)
                    (mx_responses m) (mx_queues m) in
  match fails with
  | Some k => if (k <? length queue)%nat then (Ok false, upto k (drop (Datatypes.S k) queue))
              else (Ok true, upto (length queue) [])
  | None => (Ok true, upto (length queue) [])
  end.

(** What a [select!] returns: a read of the stream, or a command with those
    that are drained after it, or that all handles are gone. *)
Inductive MuxEvent : Type :=
| ReadFrame (data : list Z)
| ReadEof
| ReadError
| Commands (cmd : MuxCommand) (more : list MuxCommand)
| HandlesDropped.

(** One [select!] arm; [false] when [run_mux] returns. *)
Definition select_arm (ev : MuxEvent) : MuxM bool :=
  match ev with
  | ReadFrame data =>
      if len data =? 0 then mret true
      else
        r ← try_m (handle_incoming_frame data);
        match r with
        | inl _ => shutdown_all ;; mret false
        | inr _ => mret true
        end
  | ReadEof | ReadError | HandlesDropped => shutdown_all ;; mret false
  | Commands cmd more => handle_command cmd ;; for_m more handle_command ;; mret true
  end.

(** A turn of the loop; [None] while the [select!] still waits. *)
Definition mux_turn (fails : option nat) (ev : option MuxEvent) : MuxM bool :=
  ok ← flush fails;
  if (ok : bool) then match ev with Some ev => select_arm ev | None => mret true end
  else shutdown_all ;; mret false.

(** [run_mux] over the outcomes its turns meet, while they last. *)
Fixpoint run_mux (turns : list (option nat * MuxEvent)) : MuxM bool :=
  match turns with
  | [] => mux_turn None None
  | (fails, ev) :: turns =>
      more ← mux_turn fails (Some ev);
      if (more : bool) then run_mux turns else mret false
  end.
