(* ===== verification/ProtomuxWire.v ===== *)
(** * ProtomuxWire: the frames of the multiplexer on the wire

    The wire format of every frame, that the encoders write it and the decoder
    reads it back, what the decoder does on arbitrary bytes, and that the key
    under which channels are paired separates them. *)

From S2P Require Import Prelude RustStd Persistent PersistentProofs CompactEncoding Codec Protomux.
From Stdlib Require Import Ascii.

#[local] Open Scope Z_scope.

(** ** Writing *)

Definition wire_open (local_id : Z) (protocol : string) (id handshake : option (list Z)) : list Z :=
  [0; 1] ++ wire_uint local_id ++ wire_string protocol ++ wire_buffer id ++ default [] handshake.
Definition wire_message (channel_id message_type : Z) (payload : list Z) : list Z :=
  wire_uint channel_id ++ wire_uint message_type ++ payload.
Definition wire_inner (message_type : Z) (data : list Z) : list Z := wire_uint message_type ++ data.
Fixpoint wire_entries (prev_id : Z) (entries : list (Z * list Z)) : list Z :=
  match entries with
  | [] => []
  | (channel_id, buf) :: entries =>
      (if channel_id =? prev_id then [] else 0 :: wire_uint channel_id) ++
      wire_buffer (Some buf) ++ wire_entries channel_id entries
  end.
Definition wire_batch (first : Z) (entries : list (Z * list Z)) : list Z :=
  [0; 0] ++ wire_uint first ++ wire_entries first entries.

Definition entry_ok (e : Z * list Z) : Prop := in_u 64 e.1 /\ fits e.2.
#[global] Instance entry_ok_dec e : Decision (entry_ok e).
Proof. unfold entry_ok. apply _. Defined.

Lemma Writes_header kind : Writes (encode_header kind) [0; kind].
Proof.
  intros pre old post e Hl. explode old Hl. unfold encode_header. run_writes. done.
Qed.

Lemma Writes_separator n : in_u 64 n -> Writes (write_at 0 0 ;; advance 1 ;; encode_uint n) (0 :: wire_uint n).
Proof. intros. by apply Writes_tag, Writes_uint. Qed.

Lemma encode_open_wire local_id protocol id handshake :
  in_u 64 local_id -> string_valid protocol -> opt_ok fits id ->
  encode_open local_id protocol id handshake = Ok (wire_open local_id protocol id handshake).
Proof.
  intros Hl Hp Hid. apply to_bytes_spec.
  - cbv zeta. rewrite preencode_buffer_spec, preencode_string_spec, preencode_uint_spec by done.
    destruct handshake; unfold wire_open; cbn [default]; rewrite !grow_grow; f_equal; cbn; lens; lia.
  - unfold wire_open. apply (Writes_bind _ _ [0; 1]); [apply Writes_header|].
    apply Writes_bind; [by apply Writes_uint|]. apply Writes_bind; [by apply Writes_string|].
    apply Writes_bind; [by apply Writes_buffer|].
    destruct handshake; [by apply Writes_copy|apply Writes_ret].
Qed.

Lemma encode_short_wire kind id :
  in_u 64 id ->
  to_bytes (fun s => preencode_uint (grow 2 s) id) (encode_header kind ;; encode_uint id) =
  Ok ([0; kind] ++ wire_uint id).
Proof.
  intros Hid. apply to_bytes_spec.
  - rewrite preencode_uint_spec, grow_grow. f_equal. lens. lia.
  - apply Writes_bind; [apply Writes_header|by apply Writes_uint].
Qed.

Lemma encode_message_wire channel_id message_type payload :
  in_u 64 channel_id -> in_u 64 message_type ->
  encode_message channel_id message_type payload = Ok (wire_message channel_id message_type payload).
Proof.
  intros Hc Ht. apply to_bytes_spec.
  - rewrite !preencode_uint_spec, !grow_grow. unfold wire_message. f_equal. lens. lia.
  - apply Writes_bind; [by apply Writes_uint|]. apply Writes_bind; [by apply Writes_uint|].
    by apply Writes_copy.
Qed.

Lemma encode_inner_wire message_type data :
  in_u 64 message_type -> encode_inner message_type data = Ok (wire_inner message_type data).
Proof.
  intros Ht. unfold encode_inner, to_bytes.
  rewrite preencode_uint_spec, grow_grow, <- len_app. fold (wire_inner message_type data).
  set (bs := wire_inner message_type data). unfold grow, alloc, new. cbn [start end_ buffer].
  change (len []) with 0. pose proof (len_nonneg bs).
  assert (exists old, length old = length bs /\ (if 0 <? 0 + len bs
    then mkState 0 (0 + len bs) ([] ++ replicate (Z.to_nat (0 + len bs - 0)) 0)
    else mkState 0 (0 + len bs) []) = mkState (len (@nil Z)) (len bs) ([] ++ old ++ [])) as (old & Hold & ->).
  { exists (replicate (length bs) 0). rewrite length_replicate, app_nil_r. split; [done|].
    destruct (Z.ltb_spec 0 (0 + len bs)); unfold len in *; cbn; f_equal; try lia.
    - f_equal. lia.
    - destruct bs; [done|cbn in *; lia]. }
  unfold bs, wire_inner in *. clear bs.
  rewrite length_app in Hold. rewrite <- (take_drop (length (wire_uint message_type)) old).
  erewrite bind_ok; last first.
  { rewrite <- app_assoc. apply Writes_uint; [done|]. rewrite length_take. lia. }
  rewrite <- len_app, app_assoc.
  rewrite (copy_from_slice_spec _ _ _ data) by (rewrite length_drop; lia).
  cbn. by rewrite app_nil_r.
Qed.

Lemma preencode_entries_spec prev entries s :
  Forall entry_ok entries ->
  preencode_entries prev entries s = grow (len (wire_entries prev entries)) s.
Proof.
  intros H. revert prev s. induction H as [|[id buf] entries [Hid Hb] _ IH]; intros prev s.
  { cbn. by rewrite grow_0. }
  cbn [preencode_entries wire_entries]. cbv zeta. rewrite IH.
  rewrite preencode_buffer_spec by (by intros ? [= <-]).
  destruct (id =? prev); rewrite ?preencode_uint_spec, !grow_grow; f_equal; lens; lia.
Qed.

Lemma Writes_entries prev entries :
  Forall entry_ok entries -> Writes (encode_entries prev entries) (wire_entries prev entries).
Proof.
  intros H. revert prev. induction H as [|[id buf] entries [Hid Hb] _ IH]; intros prev.
  { apply Writes_ret. }
  cbn [encode_entries wire_entries]. apply Writes_bind.
  - destruct (id =? prev); [apply Writes_ret|by apply Writes_separator].
  - apply Writes_bind; [|apply IH]. apply Writes_buffer. by intros ? [= <-].
Qed.

Lemma encode_batch_wire id buf entries :
  Forall entry_ok ((id, buf) :: entries) ->
  encode_batch ((id, buf) :: entries) = Ok (wire_batch id ((id, buf) :: entries)).
Proof.
  intros H. unfold encode_batch. apply to_bytes_spec.
  - rewrite preencode_entries_spec, preencode_uint_spec, !grow_grow by done.
    unfold wire_batch. f_equal. lens. lia.
  - apply (Writes_bind _ _ [0; 0]); [apply Writes_header|].
    apply Writes_bind; [|by apply Writes_entries].
    inversion H as [|? ? [Hid _]]; subst. by apply Writes_uint.
Qed.

(** ** Reading *)

(** The cursor between what was read and what is left. *)
Definition at_rest (pre rest : list Z) : State := mkState (len pre) (len (pre ++ rest)) (pre ++ rest).

Lemma from_buffer_at bs : from_buffer bs = at_rest [] bs.
Proof. done. Qed.

Lemma lift_read {A} (m : Enc A) pre bs rest a :
  Reads m bs a -> lift m (at_rest pre (bs ++ rest)) = (Ok a, at_rest (pre ++ bs) rest).
Proof.
  intros H. unfold lift, at_rest. by rewrite H, <- app_assoc, (len_app pre bs).
Qed.

Lemma rest_of_buffer_at pre rest : rest_of_buffer (at_rest pre rest) = (Ok rest, at_rest pre rest).
Proof.
  unfold rest_of_buffer, at_rest. erewrite bind_ok by done. cbn [end_ start].
  pose proof (read_slice_spec pre rest [] (len (pre ++ rest)) (len (pre ++ rest) - len pre)) as H.
  rewrite app_nil_r in H. unfold lift. by rewrite H by (lens; lia).
Qed.

Lemma lift_slice pre bs rest n :
  n = len bs -> lift (read_slice n) (at_rest pre (bs ++ rest)) = (Ok bs, at_rest pre (bs ++ rest)).
Proof. intros Hn. unfold lift, at_rest. by rewrite (read_slice_spec pre bs rest _ n Hn). Qed.

Lemma lift_advance pre bs rest n :
  n = len bs -> lift (advance n) (at_rest pre (bs ++ rest)) = (Ok tt, at_rest (pre ++ bs) rest).
Proof.
  intros ->. unfold lift, at_rest, advance. cbn [start end_ buffer]. by rewrite <- app_assoc, (len_app pre bs).
Qed.

Ltac step_read := erewrite bind_ok by (apply lift_read; first
  [ apply Reads_uint; first [done | words; lia] | apply Reads_string; done | apply Reads_buffer; done ]).

(** The turns of the batch loop: an item, a switch to another channel. *)
Lemma batch_loop_item fuel pre id buf rest items :
  buf <> [] -> fits (pre ++ wire_buffer (Some buf) ++ rest) ->
  batch_loop (Datatypes.S fuel) (len (pre ++ wire_buffer (Some buf) ++ rest)) id items
    (at_rest pre (wire_buffer (Some buf) ++ rest)) =
  batch_loop fuel (len (pre ++ wire_buffer (Some buf) ++ rest)) id (items ++ [mkItem id buf])
    (at_rest (pre ++ wire_buffer (Some buf)) rest).
Proof.
  intros Hne Hfit. cbn [wire_buffer] in *. rewrite <- !app_assoc in *.
  cbn [batch_loop]. erewrite bind_ok by done. unfold at_rest at 1. cbn [start].
  pose proof (len_nonneg rest). pose proof (len_nonneg (wire_uint (len buf))). pose proof (len_nonneg pre).
  assert (0 < len buf) by (destruct buf; [done|lens; pose proof (len_nonneg buf); lia]).
  unfold fits in Hfit. lens.
  rewrite (proj2 (Z.ltb_lt _ _)) by lia.
  erewrite bind_ok by (apply lift_read, Reads_uint; unfold in_u; lia).
  rewrite (proj2 (Z.eqb_neq _ _)) by lia.
  erewrite bind_ok by done. unfold at_rest at 1. cbn [start]. lens.
  unfold as_u64. rewrite as_u_id by (unfold in_u; lia). rewrite (proj2 (Z.ltb_ge _ _)) by lia.
  erewrite bind_ok by (by apply lift_slice). erewrite bind_ok by (by apply lift_advance).
  by rewrite <- app_assoc.
Qed.

Lemma batch_loop_switch fuel pre prev id rest items :
  in_u 64 id ->
  batch_loop (Datatypes.S fuel) (len (pre ++ (0 :: wire_uint id) ++ rest)) prev items
    (at_rest pre ((0 :: wire_uint id) ++ rest)) =
  batch_loop fuel (len (pre ++ (0 :: wire_uint id) ++ rest)) id items
    (at_rest (pre ++ 0 :: wire_uint id) rest).
Proof.
  intros Hid. cbn [batch_loop]. erewrite bind_ok by done. unfold at_rest at 1. cbn [start].
  pose proof (len_nonneg rest). pose proof (len_nonneg (wire_uint id)).
  rewrite (proj2 (Z.ltb_lt _ _)) by (cbn [app]; lens; lia).
  change ((0 :: wire_uint id) ++ rest) with (wire_uint 0 ++ wire_uint id ++ rest).
  change (0 :: wire_uint id) with (wire_uint 0 ++ wire_uint id).
  step_read. rewrite Z.eqb_refl. step_read. by rewrite <- (app_assoc pre (wire_uint 0)).
Qed.

Lemma batch_loop_entries fuel pre prev entries items :
  Forall entry_ok entries -> Forall (fun e => e.2 <> []) entries ->
  fits (pre ++ wire_entries prev entries) -> (2 * length entries <= fuel)%nat ->
  batch_loop fuel (len (pre ++ wire_entries prev entries)) prev items
    (at_rest pre (wire_entries prev entries)) =
  (Ok (items ++ ((fun e => mkItem e.1 e.2) <$> entries)), at_rest (pre ++ wire_entries prev entries) []).
Proof.
  intros Hok. revert fuel pre prev items.
  induction Hok as [|[id buf] entries [Hid Hb] _ IH]; intros fuel pre prev items Hne Hfit Hfuel.
  { cbn [wire_entries]. rewrite !app_nil_r. destruct fuel; cbn [batch_loop];
      erewrite bind_ok by done; unfold at_rest at 1; cbn [start]; by rewrite Z.ltb_irrefl. }
  inversion Hne as [|? ? Hbuf Hne']; subst. cbn [fst snd length] in *.
  destruct fuel as [|[|fuel]]; [lia..|]. cbn [wire_entries] in *.
  destruct (Z.eqb_spec id prev) as [->|Hprev]; cbn [app] in *.
  - rewrite batch_loop_item by done. rewrite (app_assoc pre) in *.
    rewrite IH by (done || lia). by rewrite <- app_assoc.
  - change (0 :: wire_uint id ++ ?r) with ((0 :: wire_uint id) ++ r) in *.
    rewrite batch_loop_switch by done. rewrite (app_assoc pre) in *.
    rewrite batch_loop_item by done. rewrite (app_assoc (pre ++ _)) in *.
    rewrite IH by (done || lia). by rewrite <- !app_assoc.
Qed.

(** ** Frames *)

Definition encode_frame (f : DecodedFrame) : outcome EncodingError (list Z) :=
  match f with
  | Control (FOpen local_id protocol id handshake) => encode_open local_id protocol id handshake
  | Control (FClose local_id) => encode_close local_id
  | Control (FReject remote_id) => encode_reject remote_id
  | Batch items => encode_batch ((fun i => (bi_channel_id i, bi_data i)) <$> items)
  | Message channel_id message_type payload => encode_message channel_id message_type payload
  end.

(** What the fields of a frame can be: identifiers are [u64], a data frame is
    not for channel 0, a batch has an item and its items are not empty. *)
Definition frame_valid (f : DecodedFrame) : Prop :=
  match f with
  | Control (FOpen local_id protocol id handshake) =>
      in_u 64 local_id /\ string_valid protocol /\ opt_ok fits id
  | Control (FClose id) | Control (FReject id) => in_u 64 id
  | Batch items => items <> [] /\
      Forall (fun i => in_u 64 (bi_channel_id i) /\ fits (bi_data i) /\ bi_data i <> []) items
  | Message channel_id message_type payload =>
      channel_id <> 0 /\ in_u 64 channel_id /\ in_u 64 message_type
  end.
#[global] Instance frame_valid_dec f : Decision (frame_valid f).
Proof. destruct f as [[]| |]; cbn; apply _. Defined.

(** An absent and an empty identifier or handshake are the same on the wire. *)
Definition frame_norm (f : DecodedFrame) : DecodedFrame :=
  match f with
  | Control (FOpen local_id protocol id handshake) =>
      Control (FOpen local_id protocol (buffer_norm id) (buffer_norm handshake))
  | _ => f
  end.

Definition wire_frame (f : DecodedFrame) : list Z :=
  match f with
  | Control (FOpen local_id protocol id handshake) => wire_open local_id protocol id handshake
  | Control (FClose id) => [0; 3] ++ wire_uint id
  | Control (FReject id) => [0; 2] ++ wire_uint id
  | Batch items =>
      let entries := (fun i => (bi_channel_id i, bi_data i)) <$> items in
      match entries with [] => [] | e :: _ => wire_batch e.1 entries end
  | Message channel_id message_type payload => wire_message channel_id message_type payload
  end.

Lemma batch_entries_ok items :
  Forall (fun i => in_u 64 (bi_channel_id i) /\ fits (bi_data i) /\ bi_data i <> []) items ->
  Forall entry_ok ((fun i => (bi_channel_id i, bi_data i)) <$> items) /\
  Forall (fun e : Z * list Z => e.2 <> []) ((fun i => (bi_channel_id i, bi_data i)) <$> items).
Proof. intros H. rewrite !Forall_fmap. by split; eapply Forall_impl; try exact H; intros i (? & ? & ?); [split|]. Qed.

Lemma encode_frame_wire f : frame_valid f -> encode_frame f = Ok (wire_frame f).
Proof.
  destruct f as [[lid p id hs|id|id]|items|c t p]; cbn [frame_valid encode_frame wire_frame].
  - intros (? & ? & ?). by apply encode_open_wire.
  - intros. by apply encode_short_wire.
  - intros. by apply encode_short_wire.
  - intros [Hne Hf]. apply batch_entries_ok in Hf as [Hf _].
    destruct items as [|i items]; [done|]. cbn [fmap list_fmap] in *. by apply encode_batch_wire.
  - intros (? & ? & ?). by apply encode_message_wire.
Qed.

Lemma decode_open_wire lid p cid hs :
  in_u 64 lid -> string_valid p -> opt_ok fits cid ->
  decode_frame (wire_open lid p cid hs) =
  Ok (Control (FOpen lid p (buffer_norm cid) (buffer_norm hs))).
Proof.
  intros Hl Hp Hid. unfold decode_frame, wire_open. rewrite (proj2 (Z.eqb_neq _ _)) by (by apply not_eq_sym).
  change ([0; 1] ++ ?x) with (wire_uint 0 ++ wire_uint 1 ++ x). rewrite from_buffer_at.
  unfold decode_frame_go. step_read. rewrite Z.eqb_refl. unfold decode_control. step_read.
  change (1 =? CTRL_OPEN) with true. cbv iota. do 3 step_read.
  erewrite bind_ok by done. set (pre := _ ++ wire_buffer cid).
  change (start (at_rest pre ?r)) with (len pre). change (end_ (at_rest pre ?r)) with (len (pre ++ r)).
  destruct hs as [[|x hs]|]; cbn [default from_option id buffer_norm]; rewrite ?app_nil_r, ?Z.ltb_irrefl; [done| |done].
  rewrite (proj2 (Z.ltb_lt _ _)) by (lens; pose proof (len_nonneg hs); lia).
  unfold fmap, M_fmap. erewrite bind_ok by (erewrite bind_ok by apply rest_of_buffer_at; done). done.
Qed.

Lemma decode_short_wire kind id :
  in_u 64 id -> kind = CTRL_CLOSE \/ kind = CTRL_REJECT ->
  decode_frame ([0; kind] ++ wire_uint id) =
  Ok (Control (if kind =? CTRL_CLOSE then FClose id else FReject id)).
Proof.
  intros Hid Hk. unfold decode_frame. rewrite (proj2 (Z.eqb_neq _ _)) by (by apply not_eq_sym).
  rewrite <- (app_nil_r (wire_uint id)), from_buffer_at. unfold decode_frame_go.
  destruct Hk as [-> | ->].
  - change ([0; CTRL_CLOSE] ++ ?x) with (wire_uint 0 ++ wire_uint 3 ++ x).
    step_read. rewrite Z.eqb_refl. unfold decode_control. step_read. cbn [Z.eqb Pos.eqb CTRL_CLOSE CTRL_OPEN].
    by step_read.
  - change ([0; CTRL_REJECT] ++ ?x) with (wire_uint 0 ++ wire_uint 2 ++ x).
    step_read. rewrite Z.eqb_refl. unfold decode_control. step_read.
    cbn [Z.eqb Pos.eqb CTRL_CLOSE CTRL_OPEN CTRL_REJECT]. by step_read.
Qed.

Lemma decode_message_wire c t p :
  c <> 0 -> in_u 64 c -> in_u 64 t -> decode_frame (wire_message c t p) = Ok (Message c t p).
Proof.
  intros Hc Hc64 Ht. unfold decode_frame, wire_message.
  destruct (Z.eqb_spec (len (wire_uint c ++ wire_uint t ++ p)) 0) as [Hl|_].
  { exfalso. lens. pose proof (len_nonneg (wire_uint t)). pose proof (len_nonneg p).
    unfold wire_uint at 1 in Hl. repeat case_match; lens; lia. }
  rewrite from_buffer_at. unfold decode_frame_go. step_read.
  rewrite (proj2 (Z.eqb_neq _ _)) by done. step_read.
  erewrite bind_ok by apply rest_of_buffer_at. done.
Qed.

Lemma wire_entries_length prev entries :
  Forall (fun e => e.2 <> []) entries -> (2 * length entries <= length (wire_entries prev entries))%nat.
Proof.
  intros H. revert prev. induction H as [|[id buf] entries Hb _ IH]; intros prev; [cbn; lia|].
  cbn [wire_entries length wire_buffer]. rewrite !length_app. specialize (IH id). cbn [snd] in Hb.
  destruct buf; [done|]. cbn [length].
  assert (1 <= length (wire_uint (len (z :: buf))))%nat by (unfold wire_uint; repeat case_match; cbn; lia).
  lia.
Qed.

Lemma decode_batch_wire first entries :
  in_u 64 first -> Forall entry_ok entries -> Forall (fun e => e.2 <> []) entries ->
  fits (wire_batch first entries) ->
  decode_frame (wire_batch first entries) = Ok (Batch ((fun e => mkItem e.1 e.2) <$> entries)).
Proof.
  intros Hf Hok Hne Hfit. unfold decode_frame, wire_batch in *.
  rewrite (proj2 (Z.eqb_neq _ _)) by (by apply not_eq_sym).
  change ([0; 0] ++ ?x) with (wire_uint 0 ++ wire_uint 0 ++ x) in *. rewrite from_buffer_at.
  unfold decode_frame_go. step_read. rewrite Z.eqb_refl. unfold decode_control. step_read.
  change (0 =? CTRL_OPEN) with false. change (0 =? CTRL_CLOSE) with false.
  change (0 =? CTRL_REJECT) with false. change (0 =? CTRL_BATCH) with true. cbv iota.
  step_read. erewrite bind_ok by done. set (pre := (([] ++ _) ++ _) ++ wire_uint first).
  change (end_ (at_rest pre ?r)) with (len (pre ++ r)).
  erewrite bind_ok; [done|]. apply batch_loop_entries; [done..| |].
  - by unfold pre; rewrite <- !app_assoc.
  - rewrite !length_app. pose proof (wire_entries_length first entries Hne). lia.
Qed.

Lemma decode_wire_frame f :
  frame_valid f -> fits (wire_frame f) -> decode_frame (wire_frame f) = Ok (frame_norm f).
Proof.
  destruct f as [[lid p id hs|id|id]|items|c t p]; cbn [frame_valid wire_frame frame_norm].
  - intros (? & ? & ?) _. by apply decode_open_wire.
  - intros H _. by apply (decode_short_wire CTRL_CLOSE); [|left].
  - intros H _. by apply (decode_short_wire CTRL_REJECT); [|right].
  - intros [Hne Hf]. pose proof (batch_entries_ok _ Hf) as [Hok Hd].
    destruct items as [|i items]; [done|]. cbn [fmap list_fmap fst] in *. intros Hfit.
    rewrite decode_batch_wire; [|by inversion Hok as [|? ? []]|done..].
    do 2 f_equal. cbn [fmap list_fmap fst snd]. destruct i. f_equal. rewrite <- list_fmap_compose.
    rewrite <- (list_fmap_id items) at 2. apply list_fmap_ext. by intros ? [].
  - intros (? & ? & ?) _. by apply decode_message_wire.
Qed.

Lemma decode_inner_wire t p : in_u 64 t -> decode_inner (wire_inner t p) = Ok (t, p).
Proof.
  intros Ht. unfold decode_inner, wire_inner. rewrite from_buffer_at. step_read.
  erewrite bind_ok by apply rest_of_buffer_at. done.
Qed.

(** ** Arbitrary bytes *)

(** A length whose end, added to the position after it, does not fit 64 bits:
    the only thing that makes the decoder panic. *)
Definition overlong (data : list Z) : Prop :=
  exists pre n post, data = pre ++ wire_uint n ++ post /\ in_u 64 n /\
    2 ^ 64 <= len pre + len (wire_uint n) + n.

(** On a buffer of [n] bytes, [m] panics on overlong input only, and what it
    returns satisfies [P]. *)
Definition Safely {A} (n : nat) (m : Dec A) (P : A -> Prop) : Prop :=
  forall s, wf s -> length (buffer s) = n ->
    match m s with
    | (Ok a, s') => P a /\ moved s s'
    | (Err _, _) => True
    | (Panic, _) => overlong (buffer s)
    end.

Lemma Safely_ret {A} n (a : A) (P : A -> Prop) : P a -> Safely n (mret a) P.
Proof. intros H s Hs _. split; [done|by apply moved_refl]. Qed.

Lemma Safely_throw {A} n e (P : A -> Prop) : Safely n (throw e) P.
Proof. done. Qed.

Lemma Safely_lift {A} n (m : Enc A) P : Decodes m P -> Safely n (lift m) P.
Proof.
  intros H s Hs _. specialize (H s Hs). unfold lift. destruct (m s) as [[a|e|] s']; done.
Qed.

Lemma Safely_bind {A B} n (m : Dec A) (f : A -> Dec B) P Q :
  Safely n m P -> (forall a, P a -> Safely n (f a) Q) -> Safely n (m ≫= f) Q.
Proof.
  intros Hm Hf s Hs Hl. unfold mbind, M_bind. specialize (Hm s Hs Hl).
  destruct (m s) as [[a|e|] s1]; [|done|done]. destruct Hm as [Ha Hmv].
  pose proof Hmv as (_ & _ & Hbuf).
  specialize (Hf a Ha s1 (moved_wf _ _ Hs Hmv)). rewrite Hbuf in Hf. specialize (Hf Hl).
  destruct (f a s1) as [[b|e|] s2]; [|done|done].
  split; [apply Hf|]. eapply moved_trans; [done|apply Hf].
Qed.

Lemma Safely_get {A} n (f : State -> Dec A) P :
  (forall s, wf s -> length (buffer s) = n -> Safely n (f s) P) -> Safely n (s ← get; f s) P.
Proof. intros H s Hs Hl. erewrite bind_ok by done. by apply H. Qed.

Lemma rest_of_buffer_safe s :
  wf s -> exists bs, rest_of_buffer s = (Ok bs, s) /\ bytes_ok bs /\ len bs = end_ s - start s.
Proof.
  intros Hs. destruct (wf_split s (end_ s - start s)) as (pre & bs & post & -> & Hl & Hb); [done| |].
  { destruct Hs. unfold remaining. lia. }
  cbn [start end_] in *. rewrite !len_app in Hl. destruct post as [|x post].
  2: { rewrite len_cons in Hl. pose proof (len_nonneg post). lia. }
  rewrite app_nil_r. exists bs. split_and!; [apply rest_of_buffer_at|done|rewrite len_app; lia].
Qed.

Lemma Safely_rest n : Safely n rest_of_buffer bytes_ok.
Proof.
  intros s Hs _. destruct (rest_of_buffer_safe s Hs) as (bs & -> & ? & _). split; [done|by apply moved_refl].
Qed.

(** A [uint] of more than 32 bits is in its nine-byte form. *)
Lemma decode_uint_wide s n s' :
  wf s -> decode_uint s = (Ok n, s') -> 2 ^ 32 <= n ->
  exists pre post, s = at_rest pre (wire_uint n ++ post) /\ s' = at_rest (pre ++ wire_uint n) post.
Proof.
  intros Hs Hd Hn. unfold decode_uint in Hd.
  destruct (Z.lt_ge_cases (remaining s) 1) as [Hr|Hr].
  { unfold decode_uint8 in Hd. erewrite bind_err in Hd; [done|]. apply bind_err. unfold check_remaining.
    by rewrite (proj2 (Z.ltb_lt _ _)). }
  destruct (wf_split s 1) as (pre & bs & post & -> & Hl & Hb); [done|lia|].
  destruct bs as [|b [|]]; [done| |rewrite !len_cons in Hl; pose proof (len_nonneg l); lia].
  rewrite Forall_singleton in Hb. erewrite bind_ok in Hd by (by apply Reads_byte).
  assert (wf (mkState (len pre + len [b]) (len (pre ++ [b] ++ post)) (pre ++ [b] ++ post))) as Hs1.
  { destruct Hs as (? & ? & ?). cbn [start end_ buffer] in *.
    split_and!; cbn [start end_ buffer]; lens; pose proof (len_nonneg post); try lia; done. }
  change (2 ^ 32) with 4294967296 in Hn. unfold is_byte in Hb.
  destruct (Z.leb_spec b 0xfc); [injection Hd; lia|].
  destruct (Z.eqb_spec b 0xfd).
  { pose proof (Decodes_uint16 _ Hs1) as H1. rewrite Hd in H1. destruct H1 as [H1 _]. words. lia. }
  destruct (Z.eqb_spec b 0xfe).
  { pose proof (Decodes_uint32 _ Hs1) as H1. rewrite Hd in H1. destruct H1 as [H1 _]. words. lia. }
  assert (b = 255) as -> by lia.
  match type of Hs1 with wf ?st => set (s1 := st) in * end.
  destruct (Z.lt_ge_cases (remaining s1) 8) as [Hr1|Hr1].
  { unfold decode_uint64 in Hd. erewrite bind_err in Hd; [done|]. unfold check_remaining.
    by rewrite (proj2 (Z.ltb_lt _ _)). }
  destruct (wf_split s1 8) as (pre1 & bs & post1 & E & Hl1 & Hb1); [done|lia|].
  rewrite E in Hd. pose proof (Reads_uint64 bs Hb1 Hl1) as Hr64. rewrite Hr64 in Hd. injection Hd as <- <-.
  assert (wire_uint (from_le bs) = 255 :: bs) as ->.
  { unfold wire_uint. rewrite !(proj2 (Z.leb_gt _ _)) by lia. f_equal.
    replace 8%nat with (length bs) by (unfold len in Hl1; lia). by apply to_le_from_le. }
  unfold s1 in E. injection E as E1 _ E2.
  assert (pre1 = pre ++ [255] /\ post = bs ++ post1) as [-> ->].
  { change (255 :: post) with ([255] ++ post) in E2. rewrite (app_assoc pre [255] post) in E2.
    apply app_inj_1 in E2 as [<- ->]; [done|]. rewrite length_app. unfold len in E1. cbn in *. lia. }
  exists pre, post1. unfold at_rest. rewrite <- !app_assoc. cbn [app]. split; [done|].
  f_equal. lens. lia.
Qed.

Definition item_typed (i : BatchItem) : Prop :=
  in_u 64 (bi_channel_id i) /\ bytes_ok (bi_data i) /\ bi_data i <> [].

Lemma read_slice_in s n :
  wf s -> 0 <= n <= remaining s ->
  exists bs s', read_slice n s = (Ok bs, s) /\ bytes_ok bs /\ len bs = n /\ advance n s = (Ok tt, s') /\ moved s s'.
Proof.
  intros Hs Hn. destruct (wf_split s n) as (pre & bs & post & -> & Hl & Hb); [done..|].
  exists bs, (at_rest (pre ++ bs) post). rewrite (read_slice_spec _ bs) by done.
  fold (at_rest pre (bs ++ post)).
  assert (advance n (at_rest pre (bs ++ post)) = (Ok tt, at_rest (pre ++ bs) post)) as ->.
  { unfold at_rest, advance. cbn [start end_ buffer]. rewrite <- Hl, <- app_assoc. by rewrite (len_app pre bs). }
  split_and!; try done. unfold moved, at_rest. cbn [start end_ buffer]. rewrite <- app_assoc.
  pose proof (len_nonneg post). pose proof (len_nonneg bs). split_and!; [lens; lia|lens; lia|done|done].
Qed.

(** One item: it is read, refused, or its end wraps around. *)
Lemma item_safe s n s1 :
  wf s -> len (buffer s) < 2 ^ 63 -> decode_uint s = (Ok n, s1) -> n <> 0 -> moved s s1 -> in_u 64 n ->
  end_ s < as_u64 (start s1 + n) \/
  (as_u64 (start s1 + n) <= end_ s /\ n <= remaining s1) \/
  (as_u64 (start s1 + n) <= end_ s /\ (read_slice n s1).1 = Panic /\ overlong (buffer s)).
Proof.
  intros Hs Hl Hd Hn Hm Hn64. destruct (moved_wf _ _ Hs Hm) as (H1 & H2 & _).
  pose proof Hs as (Hst0 & Hse & Hsb).
  pose proof Hm as (Hst & He & Hb). rewrite He, Hb in *.
  destruct (Z.lt_ge_cases (end_ s) (as_u64 (start s1 + n))) as [|Hle]; [by left|right].
  unfold as_u64, as_u, in_u, remaining in *.
  destruct (Z.lt_ge_cases (start s1 + n) (2 ^ 64)) as [Hlt|Hge].
  { left. rewrite Z.mod_small in Hle by lia. split; [rewrite Z.mod_small by lia; done|]. lia. }
  right. split_and!; [done| |].
  - unfold read_slice. rewrite (proj2 (Z.leb_gt _ (len _))), andb_false_r by (rewrite Hb; lia). done.
  - destruct (decode_uint_wide s n s1) as (pre & post & -> & ->); [done|done|lia|].
    exists pre, n, post. cbn [buffer at_rest start] in *. split_and!; [done|unfold in_u; lia|].
    revert Hge. unfold at_rest. cbn [start]. lens. lia.
Qed.

Lemma decode_uint8_moves s : wf s ->
  match decode_uint8 s with (Ok _, s1) => start s < start s1 | _ => True end.
Proof.
  intros Hs. unfold decode_uint8, mbind, M_bind, check_remaining.
  destruct (remaining s <? 1) eqn:E; [done|]. apply Z.ltb_ge in E. unfold read_at.
  destruct (_ && _); [|done]. cbn. lia.
Qed.

(** A [uint] takes at least a byte. *)
Lemma decode_uint_moves s n s1 : wf s -> decode_uint s = (Ok n, s1) -> start s < start s1.
Proof.
  intros Hs Hd. pose proof (decode_uint8_moves s Hs) as H8. pose proof (Decodes_uint8 s Hs) as D8.
  unfold decode_uint, mbind, M_bind in Hd. destruct (decode_uint8 s) as [[b|e|] s0]; [|done|done].
  destruct D8 as [_ Hm]. pose proof (moved_wf _ _ Hs Hm) as Hs0.
  destruct (b <=? 252); [by injection Hd as -> ->|].
  assert (moved s0 s1); [|unfold moved in *; lia].
  destruct (b =? 253); [pose proof (Decodes_uint16 _ Hs0) as D; rewrite Hd in D; apply D|].
  destruct (b =? 254); [pose proof (Decodes_uint32 _ Hs0) as D; rewrite Hd in D; apply D|].
  pose proof (Decodes_uint64 _ Hs0) as D; rewrite Hd in D; apply D.
Qed.

Lemma batch_loop_safe fuel s current items :
  wf s -> len (buffer s) < 2 ^ 63 -> end_ s - start s <= Z.of_nat fuel ->
  in_u 64 current -> Forall item_typed items ->
  match batch_loop fuel (end_ s) current items s with
  | (Ok l, s') => Forall item_typed l /\ moved s s'
  | (Err _, _) => True
  | (Panic, _) => overlong (buffer s)
  end.
Proof.
  revert s current items. induction fuel as [|fuel IH]; intros s cur items Hs Hl Hf Hc Hi;
    cbn [batch_loop]; erewrite bind_ok by done.
  all: destruct (Z.ltb_spec (start s) (end_ s)); [|split; [done|by apply moved_refl]].
  { lia. }
  pose proof (Decodes_uint s Hs) as Hn. unfold mbind at 1, M_bind at 1. unfold lift at 1.
  destruct (decode_uint s) as [[n|e|] s1] eqn:Hd; [|done|done]. destruct Hn as [Hn Hm].
  pose proof (decode_uint_moves s n s1 Hs Hd) as Hlt. pose proof (moved_wf _ _ Hs Hm) as Hs1.
  pose proof Hm as (Hst & He & Hb). destruct (Z.eqb_spec n 0) as [->|Hn0].
  - pose proof (Decodes_uint s1 Hs1) as Hn2. unfold mbind at 1, M_bind at 1. unfold lift at 1.
    destruct (decode_uint s1) as [[c|e|] s2]; [|done|done]. destruct Hn2 as [Hc2 Hm2].
    pose proof Hm2 as (Hst2 & He2 & Hb2).
    specialize (IH s2 c items (moved_wf _ _ Hs1 Hm2)). rewrite He2, Hb2, He, Hb in IH.
    specialize (IH Hl ltac:(lia) Hc2 Hi). destruct (batch_loop _ _ _ _ _) as [[l|e|] s3]; [|done|done].
    split; [apply IH|]. eapply moved_trans; [done|]. by eapply moved_trans; [|apply IH].
  - erewrite bind_ok by done.
    destruct (item_safe s n s1 Hs Hl Hd Hn0 Hm Hn) as [H1|[[H1 H2]|(H1 & H2 & H3)]].
    + by rewrite (proj2 (Z.ltb_lt _ _)) by done.
    + rewrite (proj2 (Z.ltb_ge _ _)) by done. unfold in_u in Hn.
      destruct (read_slice_in s1 n Hs1 ltac:(lia)) as (bs & s2 & Hr & Hbs & Hlen & Ha & Hm2).
      erewrite bind_ok by (unfold lift; by rewrite Hr). erewrite bind_ok by (unfold lift; by rewrite Ha).
      pose proof Hm2 as (Hst2 & He2 & Hb2).
      specialize (IH s2 cur (items ++ [mkItem cur bs]) (moved_wf _ _ Hs1 Hm2)).
      rewrite He2, Hb2, He, Hb in IH.
      assert (Forall item_typed (items ++ [mkItem cur bs])) as Hi'.
      { apply Forall_app. split; [done|]. apply Forall_singleton. split_and!; [done|done|].
        cbn. intros ->. by rewrite <- Hlen in Hn0. }
      specialize (IH Hl ltac:(lia) Hc Hi'). destruct (batch_loop _ _ _ _ _) as [[l|e|] s3]; [|done|done].
      split; [apply IH|]. eapply moved_trans; [done|]. by eapply moved_trans; [|apply IH].
    + rewrite (proj2 (Z.ltb_ge _ _)) by done. unfold mbind, M_bind, lift.
      by destruct (read_slice n s1) as [[a|e|] s2].
Qed.

(** What a decoded frame looks like: identifiers are [u64] and never 0 on a
    data frame, an identifier or handshake is absent or not empty, no item of a
    batch is empty. *)
Definition frame_typed (f : DecodedFrame) : Prop :=
  match f with
  | Control (FOpen local_id protocol id handshake) =>
      in_u 64 local_id /\ buffer_ok id /\ buffer_ok handshake
  | Control (FClose id) | Control (FReject id) => in_u 64 id
  | Batch items => Forall item_typed items
  | Message channel_id message_type payload =>
      channel_id <> 0 /\ in_u 64 channel_id /\ in_u 64 message_type /\ bytes_ok payload
  end.

Lemma Safely_batch n current :
  Z.of_nat n < 2 ^ 63 -> in_u 64 current ->
  Safely n (s ← get; items ← batch_loop n (end_ s) current []; mret (Batch items)) frame_typed.
Proof.
  intros Hn Hc s Hs Hl. erewrite bind_ok by done.
  assert (len (buffer s) = Z.of_nat n) as Hlen by (by unfold len; rewrite Hl).
  pose proof (batch_loop_safe n s current [] Hs) as H. destruct Hs as (Hs & He & _).
  unfold mbind, M_bind. specialize (H ltac:(lia) ltac:(lia) Hc (Forall_nil_2 _)).
  by destruct (batch_loop _ _ _ _ _) as [[l|e|] s'].
Qed.

Lemma Safely_handshake n lid p id :
  in_u 64 lid -> buffer_ok id ->
  Safely n (s ← get; handshake_state ← (if start s <? end_ s then Some <$> rest_of_buffer else mret None);
            mret (Control (FOpen lid p id handshake_state))) frame_typed.
Proof.
  intros Hl Hid s Hs _. erewrite bind_ok by done. pose proof (moved_refl s Hs) as Hm.
  destruct (Z.ltb_spec (start s) (end_ s)) as [Hlt|_]; [|by split].
  destruct (rest_of_buffer_safe s Hs) as (bs & Hr & Hb & Hlen).
  unfold fmap, M_fmap. erewrite bind_ok by (by rewrite (bind_ok _ _ _ _ _ Hr)).
  split; [|done]. split_and!; [done|done|split; [done|lia]].
Qed.

Ltac safe_read H :=
  eapply Safely_bind; [apply Safely_lift; first [apply Decodes_uint|apply Decodes_string|apply Decodes_buffer]|];
  intros ? H.

Lemma Safely_control n : Z.of_nat n < 2 ^ 63 -> Safely n (decode_control n) frame_typed.
Proof.
  intros Hn. unfold decode_control. safe_read Ht. case_match.
  { safe_read Hl. safe_read Hp. safe_read Hid. by apply Safely_handshake. }
  case_match; [safe_read Hl; by apply Safely_ret|].
  case_match; [safe_read Hl; by apply Safely_ret|].
  case_match; [safe_read Hl; by apply Safely_batch|apply Safely_throw].
Qed.

Lemma decode_frame_safely data :
  bytes_ok data -> len data < 2 ^ 63 ->
  match decode_frame data with
  | Ok f => frame_typed f
  | Err _ => True
  | Panic => overlong data
  end.
Proof.
  intros Hb Hl. unfold decode_frame. destruct (len data =? 0); [exact I|].
  assert (Safely (length data) (decode_frame_go (length data)) frame_typed) as H1.
  { unfold decode_frame_go. safe_read Hc. destruct (Z.eqb_spec a 0); [by apply Safely_control|].
    safe_read Ht. eapply Safely_bind; [apply Safely_rest|]. intros p Hp. by apply Safely_ret. }
  specialize (H1 (from_buffer data)). cbn [buffer from_buffer] in H1.
  destruct (decode_frame_go _ _) as [[f|e|] s]; cbn; [|done|]; apply H1; try done.
  all: unfold wf, from_buffer; cbn; pose proof (len_nonneg data); split_and!; [lia..|done].
Qed.

(** ** Channel keys *)

Abbreviation has_hash := (str_contains "#"%char).

Lemma has_hash_hex b : is_byte b -> has_hash (hex_byte b) = false.
Proof.
  revert b. apply byte_ind.
  apply (bool_decide_unpack (Forall (fun b => has_hash (hex_byte b) = false) all_bytes)).
  vm_compute. exact I.
Qed.

Lemma to_hex_no_hash bs : bytes_ok bs -> has_hash (to_hex bs) = false.
Proof.
  rewrite to_hex_foldr. induction 1 as [|b bs Hb _ IH]; [done|]. cbn [foldr].
  by rewrite str_contains_app, has_hash_hex, IH.
Qed.

(** The last [##] of a string whose tail has none splits it. *)
Lemma hash_split p p' h h' :
  has_hash h = false -> has_hash h' = false ->
  p +:+ "##" +:+ h = p' +:+ "##" +:+ h' -> p = p' /\ h = h'.
Proof.
  intros Hh Hh'. revert p'. induction p as [|c p IH]; intros [|c' p'] E.
  - change (String "#" (String "#" h) = String "#" (String "#" h')) in E. by injection E as ->.
  - change (String "#" (String "#" h) = String c' (p' +:+ "##" +:+ h')) in E. injection E as _ E.
    destruct p' as [|d p'].
    + change (String "#" h = String "#" (String "#" h')) in E. injection E as ->. done.
    + change (String "#" h = String d (p' +:+ "##" +:+ h')) in E. injection E as _ ->.
      rewrite !str_contains_app, orb_true_r in Hh. done.
  - change (String c (p +:+ "##" +:+ h) = String "#" (String "#" h')) in E. injection E as _ E.
    destruct p as [|d p].
    + change (String "#" (String "#" h) = String "#" h') in E. injection E as <-. done.
    + change (String d (p +:+ "##" +:+ h) = String "#" h') in E. injection E as _ <-.
      rewrite !str_contains_app, orb_true_r in Hh'. done.
  - change (String c (p +:+ "##" +:+ h) = String c' (p' +:+ "##" +:+ h')) in E.
    injection E as -> E. apply IH in E as [-> ->]. done.
Qed.

Lemma channel_key_default p id : channel_key p id = p +:+ "##" +:+ to_hex (default [] id).
Proof. by destruct id. Qed.

Lemma channel_key_norm p id : channel_key p (buffer_norm id) = channel_key p id.
Proof. by destruct id as [[|x l]|]. Qed.

Lemma channel_key_inj p id p' id' :
  opt_ok bytes_ok id -> opt_ok bytes_ok id' ->
  channel_key p id = channel_key p' id' <-> p = p' /\ buffer_norm id = buffer_norm id'.
Proof.
  intros Hid Hid'.
  assert (forall o, opt_ok bytes_ok o -> bytes_ok (default [] o)) as Hd.
  { intros [l|] Ho; [by apply (Ho l)|constructor]. }
  split.
  - rewrite !channel_key_default. intros E.
    apply hash_split in E as [-> E]; [|by apply to_hex_no_hash, Hd..]. split; [done|].
    apply to_hex_inj in E; [|by apply Hd..].
    destruct id as [[|]|], id' as [[|]|]; cbn in *; congruence.
  - intros [-> E]. by rewrite <- (channel_key_norm p' id), E, channel_key_norm.
Qed.
