(* ===== verification/ProtomuxProofs.v ===== *)
(** * ProtomuxProofs: what the multiplexer's handlers do

    The part of the state the channels live in is a function of two lists: the
    keys of the channels created here, and what the peer has announced and sent
    ([Item]s).  The first channel created under a key belongs to the first one
    the peer opened under it, and so on; [reflects] says that the state of the
    actor and the events it has sent are exactly the ones this gives.  Each
    handler is shown to keep it. *)

From S2P Require Import Prelude RustStd Persistent CompactEncoding Codec Protomux ProtomuxWire.

#[local] Open Scope Z_scope.

(** ** What a peer says *)

Inductive Item : Type :=
| IOpen (rid : Z) (key : string) (handshake : option (list Z))
| IMsg (rid message_type : Z) (data : list Z).

(** The channels it opened, those under one key, the handshake of one, and the
    messages for one. *)
Definition opened (I : list Item) : list Z :=
  omap (fun x => match x with IOpen r _ _ => Some r | _ => None end) I.
Definition openers (k : string) (I : list Item) : list Z :=
  omap (fun x => match x with IOpen r k' _ => if decide (k' = k) then Some r else None | _ => None end) I.
Definition handshake_of (r : Z) (I : list Item) : option (list Z) :=
  default None (head (omap (fun x => match x with
    IOpen r' _ hs => if decide (r' = r) then Some hs else None | _ => None end) I)).
Definition messages (r : Z) (I : list Item) : list (Z * list Z) :=
  omap (fun x => match x with IMsg r' t d => if decide (r' = r) then Some (t, d) else None | _ => None end) I.

(** A channel is opened once, under a [u32] that is not 0, and before its
    messages. *)
Definition item_next (I : list Item) (x : Item) : Prop :=
  match x with
  | IOpen r _ _ => 1 <= r < 2 ^ 32 /\ r ∉ opened I
  | IMsg r _ _ => r ∈ opened I
  end.
Definition items_ok (I : list Item) : Prop :=
  forall n x, I !! n = Some x -> item_next (take n I) x.

Lemma items_ok_app I J : items_ok (I ++ J) -> items_ok I.
Proof.
  intros H n x Hn. specialize (H n x). rewrite lookup_app_l in H by (by eapply lookup_lt_Some).
  rewrite take_app_le in H by (apply lookup_lt_Some in Hn; lia). auto.
Qed.

Lemma items_ok_next I x : items_ok (I ++ [x]) -> item_next I x.
Proof.
  intros H. specialize (H (length I) x). rewrite take_app_length in H. apply H.
  by rewrite lookup_app_r, Nat.sub_diag by lia.
Qed.

Lemma items_ok_snoc I x : items_ok I -> item_next I x -> items_ok (I ++ [x]).
Proof.
  intros HI Hx n y Hn. destruct (decide (n < length I)%nat).
  - rewrite lookup_app_l in Hn by done. rewrite take_app_le by lia. by apply HI.
  - rewrite lookup_app_r in Hn by lia. destruct (n - length I)%nat eqn:E; [|done]. injection Hn as <-.
    assert (n = length I) as -> by lia. by rewrite take_app_length.
Qed.

Lemma opened_app I J : opened (I ++ J) = opened I ++ opened J.
Proof. apply omap_app. Qed.
Lemma openers_app k I J : openers k (I ++ J) = openers k I ++ openers k J.
Proof. apply omap_app. Qed.
Lemma messages_app r I J : messages r (I ++ J) = messages r I ++ messages r J.
Proof. apply omap_app. Qed.

Lemma handshake_of_app r I J : r ∈ opened I -> handshake_of r (I ++ J) = handshake_of r I.
Proof.
  unfold handshake_of. intros H. rewrite omap_app. f_equal.
  destruct (omap _ I) as [|h l] eqn:E; [|done]. exfalso. apply list_elem_of_omap in H as (x & Hx & H).
  destruct x as [r' k hs|]; [|done]. injection H as ->.
  eapply (not_elem_of_nil hs). rewrite <- E. apply list_elem_of_omap. eexists. split; [done|].
  cbn. by rewrite decide_True.
Qed.

Lemma handshake_of_new r k hs I : r ∉ opened I -> handshake_of r (I ++ [IOpen r k hs]) = hs.
Proof.
  unfold handshake_of. intros H. rewrite omap_app. cbn. rewrite decide_True by done.
  destruct (omap _ I) as [|h l] eqn:E; [done|]. exfalso. apply H.
  assert (h ∈ h :: l) as Hh by (by left). rewrite <- E in Hh.
  apply list_elem_of_omap in Hh as (x & Hx & Hh). apply list_elem_of_omap. exists x. split; [done|].
  destruct x as [r' k' hs'|]; [|done]. case_decide; [by subst|done].
Qed.

Lemma opened_in r I : r ∈ opened I <-> exists k hs, IOpen r k hs ∈ I.
Proof.
  unfold opened. rewrite list_elem_of_omap. split.
  - intros ([r' k hs|] & Hx & H); [|done]. injection H as ->. eauto.
  - intros (k & hs & H). by exists (IOpen r k hs).
Qed.

Lemma openers_in k r I : r ∈ openers k I <-> exists hs, IOpen r k hs ∈ I.
Proof.
  unfold openers. rewrite list_elem_of_omap. split.
  - intros ([r' k' hs|] & Hx & H); [|done]. case_decide; [|done]. injection H as ->. subst. eauto.
  - intros (hs & H). exists (IOpen r k hs). by rewrite decide_True.
Qed.

Lemma openers_opened k r I : r ∈ openers k I -> r ∈ opened I.
Proof. rewrite openers_in, opened_in. intros [hs H]; eauto. Qed.

(** No message of a channel that is not open. *)
Lemma messages_unopened r I : items_ok I -> r ∉ opened I -> messages r I = [].
Proof.
  intros HI Hr. destruct (messages r I) as [|p l] eqn:E; [done|]. exfalso. apply Hr.
  assert (p ∈ p :: l) as Hp by (by left). rewrite <- E in Hp.
  apply list_elem_of_omap in Hp as ([|r' t d] & Hx & Hp); [done|]. case_decide; [subst|done].
  apply list_elem_of_lookup in Hx as [n Hn]. specialize (HI n _ Hn). cbn in HI.
  rewrite <- (take_drop n I), opened_app. apply elem_of_app. by left.
Qed.

Lemma opened_range r I : items_ok I -> r ∈ opened I -> 1 <= r < 2 ^ 32.
Proof.
  rewrite opened_in. intros HI (k & hs & H). apply list_elem_of_lookup in H as [n Hn].
  by apply (HI n _ Hn).
Qed.

(** A channel is opened under one key. *)
Lemma openers_unique k k' r I : items_ok I -> r ∈ openers k I -> r ∈ openers k' I -> k = k'.
Proof.
  rewrite !openers_in. intros HI [hs H] [hs' H'].
  apply list_elem_of_lookup in H as [n Hn]. apply list_elem_of_lookup in H' as [n' Hn'].
  assert (forall a b ka kb ha hb, I !! a = Some (IOpen r ka ha) -> I !! b = Some (IOpen r kb hb) -> (b <= a)%nat) as Hle.
  { intros a b ka kb ha hb Ha Hb. destruct (decide (b <= a)%nat); [done|]. exfalso.
    destruct (HI b _ Hb) as [_ Hni]. apply Hni, opened_in. exists ka, ha.
    apply list_elem_of_lookup. exists a. rewrite lookup_take_lt by lia. done. }
  assert (n = n') as -> by (apply Nat.le_antisymm; eauto). congruence.
Qed.

Lemma openers_NoDup k I : items_ok I -> NoDup (openers k I).
Proof.
  induction I as [|x I IH] using rev_ind; intros HI; [constructor|].
  rewrite openers_app. apply items_ok_next in HI as Hx. apply items_ok_app in HI.
  destruct x as [r k' hs|]; cbn; [|rewrite app_nil_r; auto].
  case_decide; [|rewrite app_nil_r; auto]. subst. apply NoDup_app. split_and!; [auto| |apply NoDup_singleton].
  intros y Hy Hy'. apply list_elem_of_singleton in Hy' as ->. destruct Hx as [_ Hx].
  by eapply Hx, openers_opened.
Qed.

(** ** The channels created here, by their keys *)

(** The positions of a key, counted from [i]. *)
Fixpoint positions_from (i : nat) (k : string) (C : list string) : list nat :=
  match C with
  | [] => []
  | k' :: C => (if decide (k' = k) then [i] else []) ++ positions_from (Datatypes.S i) k C
  end.
Definition positions : string -> list string -> list nat := positions_from 0.
(** How many channels before [i] have its key. *)
Definition rank (C : list string) (i : nat) : nat :=
  match C !! i with Some k => length (positions k (take i C)) | None => 0 end.
(** The peer's channel that the [i]-th channel is paired with. *)
Definition partner (C : list string) (I : list Item) (i : nat) : option Z :=
  k ← C !! i; openers k I !! rank C i.

Lemma positions_from_snoc i k C k' :
  positions_from i k (C ++ [k']) = positions_from i k C ++ (if decide (k' = k) then [i + length C]%nat else []).
Proof.
  revert i. induction C as [|k0 C IH]; intros i; cbn [positions_from app length].
  - rewrite app_nil_r, Nat.add_0_r. done.
  - rewrite IH, app_assoc. do 2 f_equal. case_decide; [|done]. f_equal. lia.
Qed.
Lemma positions_snoc k C k' :
  positions k (C ++ [k']) = positions k C ++ (if decide (k' = k) then [length C] else []).
Proof. apply positions_from_snoc. Qed.

Lemma positions_lookup k C n i :
  positions k C !! n = Some i <-> C !! i = Some k /\ rank C i = n.
Proof.
  revert n i. induction C as [|k' C IH] using rev_ind; intros n i.
  { cbn. split; [done|]. by intros [? _]. }
  rewrite positions_snoc. unfold rank in *.
  destruct (decide (i < length C)%nat) as [Hi|Hi].
  - rewrite (lookup_app_l C) by done. rewrite take_app_le by lia.
    rewrite <- IH. split; [|by apply lookup_app_l_Some].
    intros H. apply lookup_app_Some in H as [H|[_ H]]; [done|].
    case_decide; [|done]. apply list_lookup_singleton_Some in H as [_ <-]. lia.
  - assert (forall m, positions k C !! m <> Some i) as Hno.
    { intros m Hm. apply IH in Hm as [Hm _]. by apply lookup_lt_Some in Hm. }
    rewrite (lookup_app_r C) by lia. destruct (i - length C)%nat as [|d] eqn:Hd.
    + assert (i = length C) as -> by lia. rewrite take_app_length. cbn. split.
      * intros H. apply lookup_app_Some in H as [H|[Hl H]]; [by apply Hno in H|].
        case_decide; [|done]. apply list_lookup_singleton_Some in H as [H _]. subst. split; [done|lia].
      * intros [[= ->] <-]. rewrite lookup_app_r, Nat.sub_diag by lia. by rewrite decide_True.
    + split; [|by intros [? _]]. intros H. apply lookup_app_Some in H as [H|[_ H]]; [by apply Hno in H|].
      case_decide; [|done]. apply list_lookup_singleton_Some in H as [_ H]. lia.
Qed.

Lemma positions_lt k C i : i ∈ positions k C -> (i < length C)%nat.
Proof.
  intros [n Hn]%list_elem_of_lookup. apply positions_lookup in Hn as [H _]. by eapply lookup_lt_Some.
Qed.

Lemma rank_app C k i : (i < length C)%nat -> rank (C ++ [k]) i = rank C i.
Proof. intros Hi. unfold rank. rewrite lookup_app_l by done. by rewrite take_app_le by lia. Qed.

Lemma partner_app C k I i : (i < length C)%nat -> partner (C ++ [k]) I i = partner C I i.
Proof. intros Hi. unfold partner. by rewrite rank_app, lookup_app_l by done. Qed.

Lemma partner_last C k I : partner (C ++ [k]) I (length C) = openers k I !! length (positions k C).
Proof.
  unfold partner, rank. rewrite lookup_app_r, Nat.sub_diag by lia. cbn. by rewrite take_app_length.
Qed.

(** Both views of a pair. *)
Lemma partner_iff C I i r k :
  C !! i = Some k -> partner C I i = Some r <->
  exists n, positions k C !! n = Some i /\ openers k I !! n = Some r.
Proof.
  intros Hk. unfold partner. rewrite Hk. cbn. split.
  - intros H. exists (rank C i). by rewrite positions_lookup.
  - intros (n & Hn & H). apply positions_lookup in Hn as [_ <-]. done.
Qed.

Lemma partner_in C I i r : partner C I i = Some r -> r ∈ opened I.
Proof.
  unfold partner. destruct (C !! i) as [k|]; [|done]. cbn. intros H.
  eapply openers_opened, list_elem_of_lookup_2. done.
Qed.

Lemma partner_stays C I J i r : partner C I i = Some r -> partner C (I ++ J) i = Some r.
Proof.
  unfold partner. destruct (C !! i); [|done]. cbn. intros H. rewrite openers_app. by apply lookup_app_l_Some.
Qed.

(** No two channels have one partner. *)
Lemma partner_inj C I i j r : items_ok I -> partner C I i = Some r -> partner C I j = Some r -> i = j.
Proof.
  intros HI Hi Hj. unfold partner in *.
  destruct (C !! i) as [k|] eqn:Ei; [|done]. destruct (C !! j) as [k'|] eqn:Ej; [|done]. cbn in *.
  assert (k = k') as <- by (eapply openers_unique; eauto using list_elem_of_lookup_2).
  pose proof (NoDup_lookup _ _ _ _ (openers_NoDup k I HI) Hi Hj) as Hr.
  assert (positions k C !! rank C i = Some i) as Hpi by (by apply positions_lookup).
  assert (positions k C !! rank C j = Some j) as Hpj by (by apply positions_lookup).
  rewrite Hr in Hpi. congruence.
Qed.

(** ** The events of a channel *)

Definition events_of (i : nat) (m : Mux) : list ChannelEvent :=
  omap (fun e => if decide (e.1 = Z.of_nat i) then Some e.2 else None) (mx_events m).

Definition message_event (p : Z * list Z) : ChannelEvent := EvMessage (as_u32 p.1) p.2.

(** What the [i]-th channel has been told. *)
Definition told (C : list string) (I : list Item) (i : nat) : list ChannelEvent :=
  match partner C I i with
  | Some r => EvOpened (handshake_of r I) :: (message_event <$> messages r I)
  | None => []
  end.

(** ** The state of the actor *)

Record reflects (C : list string) (I : list Item) (m : Mux) : Prop := {
  rf_items : items_ok I;
  rf_queues : mx_queues m = len C;
  rf_free : ms_free_ids (mx_state m) = [];
  rf_count : length (ms_local (mx_state m)) = length C;
  rf_local i : (i < length C)%nat -> exists ch,
    ms_local (mx_state m) !! i = Some (Some ch) /\ lc_event_tx ch = Z.of_nat i /\
    lc_opened ch = bool_decide (is_Some (partner C I i)) /\ lc_closed ch = false;
  rf_remote k n r : openers k I !! n = Some r -> exists rc,
    ms_remote (mx_state m) !! Z.to_nat (r - 1) = Some (Some rc) /\
    rc_local_id rc = Z.of_nat <$> positions k C !! n /\
    match positions k C !! n with
    | Some _ => rc_pending rc = []
    | None => rc_handshake_state rc = handshake_of r I /\ rc_pending rc = messages r I
    end;
  rf_absent j rc : ms_remote (mx_state m) !! j = Some (Some rc) -> Z.of_nat j + 1 ∈ opened I;
  rf_infos k : default (mkInfo [] []) (ms_infos (mx_state m) !! k) =
    mkInfo ((fun i => Z.of_nat i + 1) <$> drop (length (openers k I)) (positions k C))
      (drop (length (positions k C)) (openers k I));
  rf_events i : events_of i m = told C I i
}.

Lemma reflects_start : reflects [] [] Mux_start.
Proof. split; try done; cbn; intros; lia. Qed.

(** What a step leaves alone. *)
Definition outputs (m : Mux) : list (list Z) * list (list Z) * Z * list (Z * list Z) :=
  (mx_write_queue m, mx_written m, ms_cork_depth (mx_state m), ms_batch (mx_state m)).

Lemma events_of_send i m tx ev :
  events_of i (mkMux (mx_state m) (mx_write_queue m) (mx_written m) (mx_events m ++ [(tx, ev)])
    (mx_responses m) (mx_queues m)) =
  events_of i m ++ (if decide (tx = Z.of_nat i) then [ev] else []).
Proof. unfold events_of. cbn [mx_events]. rewrite omap_app. cbn. by case_decide. Qed.

(** *** Running the primitives *)

Lemma wp_gets {A} (f : MuxState -> A) m Q : Q (f (mx_state m)) m -> wp (gets f) m Q.
Proof. done. Qed.
Lemma wp_update f m (Q : unit -> Mux -> Prop) : Q tt (upd_state f m) -> wp (update f) m Q.
Proof. done. Qed.
Lemma wp_index {A} (l : list A) i a m (Q : A -> Mux -> Prop) :
  0 <= i -> l !! Z.to_nat i = Some a -> Q a m -> wp (index l i) m Q.
Proof. intros Hi Hl HQ. unfold index. rewrite Hl. by rewrite (proj2 (Z.leb_le _ _)). Qed.
Lemma wp_local_at i c m (Q : option LocalChannel -> Mux -> Prop) :
  0 <= i -> ms_local (mx_state m) !! Z.to_nat i = Some c -> Q c m -> wp (local_at i) m Q.
Proof. intros. apply wp_bind, wp_gets. by eapply wp_index. Qed.
Lemma wp_set_local i c c0 m (Q : unit -> Mux -> Prop) :
  0 <= i -> ms_local (mx_state m) !! Z.to_nat i = Some c0 ->
  Q tt (upd_state (fun s => set_locals (<[Z.to_nat i := c]> (ms_local s)) s) m) -> wp (set_local i c) m Q.
Proof. intros. apply wp_bind. eapply wp_local_at; [done..|]. by apply wp_update. Qed.
Lemma wp_with_local i f ch m (Q : unit -> Mux -> Prop) :
  0 <= i -> ms_local (mx_state m) !! Z.to_nat i = Some (Some ch) -> wp (f ch) m Q -> wp (with_local i f) m Q.
Proof. intros. apply wp_bind. by eapply wp_local_at. Qed.
Lemma wp_encoded o bs m (Q : list Z -> Mux -> Prop) : o = Ok bs -> Q bs m -> wp (encoded o) m Q.
Proof. by intros ->. Qed.
Lemma wp_send_event tx ev m (Q : unit -> Mux -> Prop) :
  Q tt (mkMux (mx_state m) (mx_write_queue m) (mx_written m) (mx_events m ++ [(tx, ev)]) (mx_responses m) (mx_queues m)) ->
  wp (send_event tx ev) m Q.
Proof. done. Qed.

Lemma wp_unbounded m (Q : Z -> Mux -> Prop) :
  Q (mx_queues m) (mkMux (mx_state m) (mx_write_queue m) (mx_written m) (mx_events m) (mx_responses m) (mx_queues m + 1)) ->
  wp unbounded_channel m Q.
Proof. done. Qed.
Lemma wp_push frame m (Q : unit -> Mux -> Prop) :
  Q tt (mkMux (mx_state m) (mx_write_queue m ++ [frame]) (mx_written m) (mx_events m) (mx_responses m) (mx_queues m)) ->
  wp (enqueue_write frame) m Q.
Proof. done. Qed.

(** The buffered messages, sent one by one. *)
Lemma wp_send_all tx l m (Q : unit -> Mux -> Prop) :
  Q tt (mkMux (mx_state m) (mx_write_queue m) (mx_written m)
          (mx_events m ++ ((fun p => (tx, message_event p)) <$> l)) (mx_responses m) (mx_queues m)) ->
  wp (for_m l (fun '(t, d) => send_event tx (EvMessage (as_u32 t) d))) m Q.
Proof.
  revert m. induction l as [|[t d] l IH]; intros m HQ; cbn [for_m].
  - apply wp_ret. cbn in HQ. rewrite app_nil_r in HQ. by destruct m.
  - apply wp_bind, wp_send_event, IH. cbn [mx_state mx_write_queue mx_written mx_events mx_responses mx_queues].
    rewrite <- app_assoc. exact HQ.
Qed.

Lemma wp_info_entry k info m (Q : ChannelInfo -> Mux -> Prop) :
  default (mkInfo [] []) (ms_infos (mx_state m) !! k) = info ->
  Q info (upd_state (set_infos (<[k := info]> (ms_infos (mx_state m)))) m) -> wp (info_entry k) m Q.
Proof. intros <- HQ. exact HQ. Qed.

Create HintDb mux.
#[export] Hint Unfold upd_state set_locals set_free_ids set_remotes set_infos set_cork set_batch : mux.
Ltac muxs := autounfold with mux;
  cbn [mx_state mx_write_queue mx_written mx_events mx_responses mx_queues
       ms_local ms_free_ids ms_remote ms_infos ms_cork_depth ms_batch].

(** *** Creating a channel *)

Lemma wp_alloc m (Q : Z -> Mux -> Prop) :
  ms_free_ids (mx_state m) = [] -> len (ms_local (mx_state m)) < 2 ^ 32 ->
  Q (len (ms_local (mx_state m))) (upd_state (set_locals (ms_local (mx_state m) ++ [None])) m) ->
  wp alloc_local_id m Q.
Proof.
  intros Hf Hl HQ. apply wp_bind, wp_gets. rewrite Hf. cbn [reverse rev_append].
  apply wp_bind, wp_gets, wp_bind, wp_update. apply wp_ret.
  unfold as_u32. rewrite as_u_id; [done|]. pose proof (len_nonneg (ms_local (mx_state m))). unfold in_u. lia.
Qed.

Lemma insert_last {A} (l : list A) x y i : i = len l -> <[Z.to_nat i := y]> (l ++ [x]) = l ++ [y].
Proof. intros ->. rewrite to_nat_len, <- (Nat.add_0_r (length l)), insert_app_r. done. Qed.
Lemma lookup_last {A} (l : list A) x i : i = len l -> (l ++ [x]) !! Z.to_nat i = Some x.
Proof. intros ->. rewrite to_nat_len, lookup_app_r, Nat.sub_diag by lia. done. Qed.

Section Create.
Context (p : string) (id hs : option (list Z)) (m : Mux).
Let n := len (ms_local (mx_state m)).
Let key := channel_key p id.
Context (Hfree : ms_free_ids (mx_state m) = []) (Hn : n < 2 ^ 32 - 1)
  (Hp : string_valid p) (Hid : opt_ok fits id).

Lemma create_wire : encode_open (as_u32 (n + 1)) p id hs = Ok (wire_open (n + 1) p id hs).
Proof.
  pose proof (len_nonneg (ms_local (mx_state m))). unfold n in *. unfold as_u32.
  rewrite as_u_id by (words; lia). apply encode_open_wire; [words; lia|done..].
Qed.

Lemma create_id : as_u32 (n + 1) = n + 1.
Proof. pose proof (len_nonneg (ms_local (mx_state m))). unfold n in *. apply as_u_id. words. lia. Qed.

Lemma wp_create_alone out (Q : ChannelHandle -> Mux -> Prop) :
  default (mkInfo [] []) (ms_infos (mx_state m) !! key) = mkInfo out [] ->
  Q (mkHandle (n + 1) (mx_queues m))
    (mkMux (mkMuxState (ms_local (mx_state m) ++ [Some (mkLocal p id None (mx_queues m) false false)]) []
              (ms_remote (mx_state m)) (<[key := mkInfo (out ++ [n + 1]) []]> (ms_infos (mx_state m)))
              (ms_cork_depth (mx_state m)) (ms_batch (mx_state m)))
       (mx_write_queue m ++ [wire_open (n + 1) p id hs]) (mx_written m) (mx_events m)
       (mx_responses m) (mx_queues m + 1)) ->
  wp (create_channel_internal p id hs) m Q.
Proof.
  intros Hinfo HQ. pose proof create_wire as Hw. pose proof create_id as Hcid.
  apply wp_bind, wp_alloc; [done|lia|]. fold n. cbv zeta. apply wp_bind, wp_unbounded.
  muxs. fold key. apply wp_bind. eapply wp_set_local; [apply len_nonneg|by apply lookup_last|].
  muxs. rewrite insert_last by done. apply wp_bind. eapply wp_info_entry; [exact Hinfo|].
  cbn [ci_incoming ci_outgoing]. muxs. apply wp_bind, wp_bind, wp_update, wp_bind.
  eapply wp_encoded; [done|]. apply wp_push, wp_ret. muxs.
  rewrite insert_insert_eq, Hcid. by rewrite Hfree in *.
Qed.

Lemma wp_create_paired out r inc hs0 lid0 pending (Q : ChannelHandle -> Mux -> Prop) :
  default (mkInfo [] []) (ms_infos (mx_state m) !! key) = mkInfo out (r :: inc) ->
  ms_remote (mx_state m) !! Z.to_nat (r - 1) = Some (Some (mkRemote hs0 lid0 pending)) ->
  Q (mkHandle (n + 1) (mx_queues m))
    (mkMux (mkMuxState (ms_local (mx_state m) ++ [Some (mkLocal p id (Some r) (mx_queues m) true false)]) []
              (<[Z.to_nat (r - 1) := Some (mkRemote None (Some n) [])]> (ms_remote (mx_state m)))
              (<[key := mkInfo out inc]> (ms_infos (mx_state m)))
              (ms_cork_depth (mx_state m)) (ms_batch (mx_state m)))
       (mx_write_queue m ++ [wire_open (n + 1) p id hs]) (mx_written m)
       (mx_events m ++ (mx_queues m, EvOpened hs0) :: ((fun x => (mx_queues m, message_event x)) <$> pending))
       (mx_responses m) (mx_queues m + 1)) ->
  wp (create_channel_internal p id hs) m Q.
Proof.
  intros Hinfo Hr HQ. pose proof create_wire as Hw. pose proof create_id as Hcid.
  assert (Z.to_nat (r - 1) < length (ms_remote (mx_state m)))%nat as Hlt by (by eapply lookup_lt_Some).
  apply wp_bind, wp_alloc; [done|lia|]. fold n. cbv zeta. apply wp_bind, wp_unbounded.
  muxs. fold key. apply wp_bind. eapply wp_set_local; [apply len_nonneg|by apply lookup_last|].
  muxs. rewrite insert_last by done. apply wp_bind. eapply wp_info_entry; [exact Hinfo|].
  cbn [ci_incoming ci_outgoing]. muxs. apply wp_bind, wp_bind, wp_update, wp_bind. muxs.
  eapply wp_with_local; [apply len_nonneg|by apply lookup_last|]. apply wp_update. muxs.
  rewrite insert_last by done. unfold lc_pair. cbn [lc_protocol lc_id lc_event_tx lc_opened lc_closed].
  apply wp_bind, wp_bind, wp_gets. muxs. rewrite Hr. cbn [mjoin option_join].
  apply wp_bind, wp_update, wp_ret. muxs. cbn [rc_pending rc_handshake_state].
  apply wp_bind. eapply wp_encoded; [done|]. apply wp_bind, wp_push, wp_bind, wp_send_event. muxs.
  apply wp_bind. eapply wp_with_local; [apply len_nonneg|by apply lookup_last|]. apply wp_update. muxs.
  rewrite insert_last by done. unfold lc_open. cbn [lc_protocol lc_id lc_event_tx lc_remote_id lc_closed].
  apply wp_bind, wp_gets. muxs. rewrite list_lookup_insert_eq by done. cbn [mjoin option_join].
  apply wp_bind, wp_update. muxs. cbn [rc_pending rc_handshake_state rc_local_id].
  rewrite list_insert_insert_eq. apply wp_send_all, wp_ret. muxs.
  rewrite <- app_assoc, insert_insert_eq, Hcid. by rewrite Hfree in *.
Qed.
End Create.

(** What a new channel changes in the bookkeeping of the other keys, and of its
    own. *)
Lemma positions_other k k' C n : (n < length (positions k C))%nat \/ k <> k' ->
  positions k (C ++ [k']) !! n = positions k C !! n.
Proof.
  rewrite positions_snoc. intros [H|H]; [by apply lookup_app_l|].
  rewrite decide_False by done. by rewrite app_nil_r.
Qed.

Lemma told_unmade C I i : (length C <= i)%nat -> told C I i = [].
Proof. intros Hi. unfold told, partner. by rewrite (proj2 (lookup_ge_None C i)). Qed.

Lemma told_made C k I i : (i < length C)%nat -> told (C ++ [k]) I i = told C I i.
Proof. intros Hi. unfold told. by rewrite partner_app. Qed.

Lemma openers_distinct k n r k' n' r' I :
  items_ok I -> openers k I !! n = Some r -> openers k' I !! n' = Some r' -> (k, n) <> (k', n') ->
  Z.to_nat (r - 1) <> Z.to_nat (r' - 1).
Proof.
  intros HI Hn Hn' Hne E.
  assert (r = r') as <-.
  { apply list_elem_of_lookup_2, openers_opened, opened_range in Hn; [|done].
    apply list_elem_of_lookup_2, openers_opened, opened_range in Hn'; [|done]. lia. }
  assert (k = k') as <- by (eapply openers_unique; eauto using list_elem_of_lookup_2).
  pose proof (NoDup_lookup _ _ _ _ (openers_NoDup k I HI) Hn Hn'). congruence.
Qed.

Lemma reflects_local_app C I m k ch :
  reflects C I m -> lc_event_tx ch = len C -> lc_closed ch = false ->
  lc_opened ch = bool_decide (is_Some (openers k I !! length (positions k C))) ->
  forall i, (i < length (C ++ [k]))%nat -> exists ch',
    (ms_local (mx_state m) ++ [Some ch]) !! i = Some (Some ch') /\ lc_event_tx ch' = Z.of_nat i /\
    lc_opened ch' = bool_decide (is_Some (partner (C ++ [k]) I i)) /\ lc_closed ch' = false.
Proof.
  intros R Htx Hc Ho i Hi. rewrite length_app in Hi. cbn in Hi. pose proof (rf_count _ _ _ R) as Hcnt.
  destruct (decide (i < length C)%nat).
  - destruct (rf_local _ _ _ R i) as (ch' & ? & ? & ? & ?); [done|]. exists ch'.
    rewrite lookup_app_l, partner_app by lia. done.
  - assert (i = length C) as -> by lia. exists ch. rewrite partner_last, lookup_app_r, Hcnt, Nat.sub_diag by lia. done.
Qed.

Lemma reflects_create_alone C I m p cid q w :
  let k := channel_key p cid in
  reflects C I m -> openers k I !! length (positions k C) = None ->
  reflects (C ++ [k]) I
    (mkMux (mkMuxState (ms_local (mx_state m) ++ [Some (mkLocal p cid None (mx_queues m) false false)]) []
              (ms_remote (mx_state m))
              (<[k := mkInfo (((fun i => Z.of_nat i + 1) <$> drop (length (openers k I)) (positions k C)) ++ [len C + 1]) []]>
                 (ms_infos (mx_state m)))
              (ms_cork_depth (mx_state m)) (ms_batch (mx_state m)))
       q w (mx_events m) (mx_responses m) (mx_queues m + 1)).
Proof.
  intros k R Hnone. pose proof Hnone as Hle. apply lookup_ge_None in Hle.
  pose proof (rf_queues _ _ _ R) as Hq. pose proof (rf_count _ _ _ R) as Hcnt.
  split; muxs.
  - apply R.
  - rewrite Hq. lens. lia.
  - done.
  - rewrite !length_app. cbn. lia.
  - eapply reflects_local_app; [done..| |]; cbn; [done|]. by rewrite Hnone.
  - intros k' n r Hn. destruct (rf_remote _ _ _ R k' n r Hn) as (rc & ?). exists rc.
    rewrite positions_other; [done|]. destruct (decide (k' = k)) as [->|]; [left|by right].
    apply lookup_lt_Some in Hn. lia.
  - apply R.
  - intros k'. rewrite positions_snoc. destruct (decide (k' = k)) as [->|Hk].
    + rewrite lookup_insert_eq, decide_True by done. cbn [default from_option id].
      rewrite drop_app_le, fmap_app by lia. f_equal. by rewrite drop_ge by (rewrite length_app; cbn; lia).
    + rewrite lookup_insert_ne, decide_False, app_nil_r by done. apply R.
  - intros i. transitivity (told C I i); [apply R|]. destruct (decide (i < length C)%nat); [by rewrite told_made|].
    rewrite told_unmade by lia. destruct (decide (i = length C)) as [->|].
    + unfold told. by rewrite partner_last, Hnone.
    + rewrite told_unmade; [done|]. rewrite length_app. cbn. lia.
Qed.

Lemma events_of_all i tx evs :
  omap (fun e : Z * ChannelEvent => if decide (e.1 = Z.of_nat i) then Some e.2 else None) ((tx,.) <$> evs) =
  (if decide (tx = Z.of_nat i) then evs else []).
Proof.
  induction evs as [|e evs IH]; [by case_decide|]. cbn [fmap list_fmap omap list_omap fst snd].
  rewrite IH. by case_decide.
Qed.

Lemma reflects_create_paired C I m p cid q w r inc rc :
  let k := channel_key p cid in
  reflects C I m -> openers k I !! length (positions k C) = Some r ->
  drop (length (positions k C)) (openers k I) = r :: inc ->
  rc_handshake_state rc = handshake_of r I -> rc_pending rc = messages r I ->
  is_Some (ms_remote (mx_state m) !! Z.to_nat (r - 1)) ->
  reflects (C ++ [k]) I
    (mkMux (mkMuxState (ms_local (mx_state m) ++ [Some (mkLocal p cid (Some r) (mx_queues m) true false)]) []
              (<[Z.to_nat (r - 1) := Some (mkRemote None (Some (len C)) [])]> (ms_remote (mx_state m)))
              (<[k := mkInfo [] inc]> (ms_infos (mx_state m)))
              (ms_cork_depth (mx_state m)) (ms_batch (mx_state m)))
       q w (mx_events m ++ (mx_queues m, EvOpened (rc_handshake_state rc)) ::
                            ((fun x => (mx_queues m, message_event x)) <$> rc_pending rc))
       (mx_responses m) (mx_queues m + 1)).
Proof.
  intros k R Hr Hdrop Hhs Hpend [o Ho]. pose proof Hr as Hlt. apply lookup_lt_Some in Hlt.
  pose proof (rf_queues _ _ _ R) as Hq. pose proof (rf_count _ _ _ R) as Hcnt.
  pose proof (rf_items _ _ _ R) as HI.
  assert (Z.to_nat (r - 1) < length (ms_remote (mx_state m)))%nat as Hrlt by (by eapply lookup_lt_Some).
  split; muxs.
  - done.
  - rewrite Hq. lens. lia.
  - done.
  - rewrite !length_app. cbn. lia.
  - eapply reflects_local_app; [done..| |]; cbn; [done|]. by rewrite Hr.
  - intros k' n r' Hn. destruct (decide ((k', n) = (k, length (positions k C)))) as [[= -> ->]|Hne].
    + assert (r' = r) as -> by congruence. eexists. rewrite list_lookup_insert_eq by done. split; [done|].
      rewrite positions_snoc, decide_True, lookup_app_r, Nat.sub_diag by done. done.
    + destruct (rf_remote _ _ _ R k' n r' Hn) as (rc' & H1 & H2 & H3). exists rc'.
      rewrite list_lookup_insert_ne by (eapply openers_distinct; eauto).
      split; [done|]. rewrite positions_snoc. destruct (decide (k = k')) as [<-|]; [|by rewrite app_nil_r].
      destruct (decide (n < length (positions k C))%nat); [by rewrite lookup_app_l|].
      rewrite lookup_app_r by lia. rewrite (proj2 (lookup_ge_None (positions k C) n)) in H2, H3 by lia.
      destruct (n - length (positions k C))%nat eqn:E; [|done]. exfalso. apply Hne. f_equal. lia.
  - intros j rc' Hj. destruct (decide (j = Z.to_nat (r - 1))) as [->|].
    + pose proof (list_elem_of_lookup_2 _ _ _ Hr) as Hin. apply openers_opened in Hin.
      pose proof (opened_range r I HI Hin). by replace (Z.of_nat (Z.to_nat (r - 1)) + 1) with r by lia.
    + rewrite list_lookup_insert_ne in Hj by done. by apply (rf_absent _ _ _ R) in Hj.
  - intros k'. rewrite positions_snoc. destruct (decide (k' = k)) as [->|Hk].
    + rewrite lookup_insert_eq, decide_True by done. cbn [default from_option id].
      rewrite (drop_ge (_ ++ _)) by (rewrite length_app; cbn; lia). f_equal.
      by rewrite length_app, <- drop_drop, Hdrop.
    + rewrite lookup_insert_ne, decide_False, app_nil_r by done. apply R.
  - intros i. unfold events_of. cbn [mx_events]. rewrite omap_app. fold (events_of i m).
    rewrite (rf_events _ _ _ R i), Hhs, Hpend, Hq.
    replace ((len C, EvOpened (handshake_of r I)) :: ((fun x => (len C, message_event x)) <$> messages r I))
      with ((len C,.) <$> (EvOpened (handshake_of r I) :: (message_event <$> messages r I)))
      by (cbn; by rewrite <- list_fmap_compose).
    rewrite events_of_all. case_decide as Hi.
    + assert (i = length C) as -> by (unfold len in Hi; lia). rewrite told_unmade by lia.
      unfold told. by rewrite partner_last, Hr.
    + rewrite app_nil_r. destruct (decide (i < length C)%nat); [by rewrite told_made|].
      rewrite !told_unmade; [done|rewrite length_app; cbn; unfold len in Hi; lia|lia].
Qed.

(** *** The peer opens a channel *)

Lemma partner_open C I r k hs j :
  partner C (I ++ [IOpen r k hs]) j =
  if decide (positions k C !! length (openers k I) = Some j) then Some r else partner C I j.
Proof.
  unfold partner. destruct (C !! j) as [k0|] eqn:Hj; cbn [mbind option_bind].
  2: { rewrite decide_False; [done|]. rewrite positions_lookup. by intros [? _]; congruence. }
  rewrite openers_app. cbn. destruct (decide (k = k0)) as [->|Hne].
  - destruct (decide (rank C j = length (openers k0 I))) as [Hr|Hr].
    + rewrite decide_True by (by apply positions_lookup). by rewrite Hr, lookup_app_r, Nat.sub_diag by done.
    + rewrite decide_False by (rewrite positions_lookup; intros [_ ?]; congruence).
      destruct (decide (rank C j < length (openers k0 I))%nat); [by apply lookup_app_l|].
      rewrite lookup_app_r by lia. rewrite (proj2 (lookup_ge_None (openers k0 I) _)) by lia.
      apply lookup_ge_None. cbn. lia.
  - rewrite app_nil_r, decide_False; [done|]. rewrite positions_lookup. intros [? _]; congruence.
Qed.

Lemma told_open C I r k hs j :
  items_ok I -> r ∉ opened I ->
  told C (I ++ [IOpen r k hs]) j =
  if decide (positions k C !! length (openers k I) = Some j) then [EvOpened hs] else told C I j.
Proof.
  intros HI Hr. unfold told. rewrite partner_open. case_decide as Hd.
  - rewrite handshake_of_new, messages_app by done. cbn. by rewrite app_nil_r, messages_unopened.
  - destruct (partner C I j) as [r'|] eqn:Hp; [|done]. apply partner_in in Hp.
    rewrite handshake_of_app, messages_app by done. cbn. by rewrite app_nil_r.
Qed.

Lemma lookup_grown {A} (l : list (option A)) n j rc :
  (l ++ replicate n None) !! j = Some (Some rc) <-> l !! j = Some (Some rc).
Proof.
  rewrite lookup_app_Some. split; [|by left]. intros [H|[_ H]]; [done|]. by apply lookup_replicate in H as [? _].
Qed.

Lemma grown_at {A} (l : list (option A)) j :
  (forall rc, l !! j <> Some (Some rc)) ->
  (l ++ replicate (Z.to_nat (Z.of_nat j + 1 - len l)) None) !! j = Some None.
Proof.
  intros Hno. destruct (l !! j) as [[rc|]|] eqn:E; [by destruct (Hno rc)|by apply lookup_app_l_Some|].
  apply lookup_ge_None in E. rewrite lookup_app_r by done. apply lookup_replicate. split; [done|unfold len; lia].
Qed.

(** The channels the peer opened before keep their state. *)
Lemma remote_kept C I m r k hs (l : list (option RemoteChannel)) k' n r' rc :
  reflects C I m -> r ∉ opened I ->
  (forall j rc, ms_remote (mx_state m) !! j = Some (Some rc) -> l !! j = Some (Some rc)) ->
  1 <= r -> openers k' I !! n = Some r' ->
  exists rc', <[Z.to_nat (r - 1) := rc]> l !! Z.to_nat (r' - 1) = Some (Some rc') /\
    rc_local_id rc' = Z.of_nat <$> positions k' C !! n /\
    match positions k' C !! n with
    | Some _ => rc_pending rc' = []
    | None => rc_handshake_state rc' = handshake_of r' (I ++ [IOpen r k hs]) /\
              rc_pending rc' = messages r' (I ++ [IOpen r k hs])
    end.
Proof.
  intros R Hr Hl Hpos Hn. destruct (rf_remote _ _ _ R k' n r' Hn) as (rc' & H1 & H2 & H3).
  apply list_elem_of_lookup_2, openers_opened in Hn.
  pose proof (opened_range r' I (rf_items _ _ _ R) Hn) as Hrg.
  exists rc'. rewrite list_lookup_insert_ne.
  2: { intros E. apply Hr. by replace r with r' by lia. }
  split; [by apply Hl|]. split; [done|]. rewrite handshake_of_app, messages_app by done.
  cbn. by rewrite app_nil_r.
Qed.

Section Open.
Context (C : list string) (I : list Item) (m : Mux) (r : Z) (k : string) (hs : option (list Z))
  (l : list (option RemoteChannel)).
Context (R : reflects C I m) (Hok : items_ok (I ++ [IOpen r k hs]))
  (Hl : forall j rc, l !! j = Some (Some rc) <-> ms_remote (mx_state m) !! j = Some (Some rc))
  (Hlt : (Z.to_nat (r - 1) < length l)%nat).
Let I' := I ++ [IOpen r k hs].

Lemma open_fresh : 1 <= r < 2 ^ 32 /\ r ∉ opened I.
Proof. apply items_ok_next in Hok. exact Hok. Qed.

Lemma open_remote rc lid :
  rc = mkRemote hs lid [] -> lid = Z.of_nat <$> positions k C !! length (openers k I) ->
  forall k' n r', openers k' I' !! n = Some r' -> exists rc',
    <[Z.to_nat (r - 1) := Some rc]> l !! Z.to_nat (r' - 1) = Some (Some rc') /\
    rc_local_id rc' = Z.of_nat <$> positions k' C !! n /\
    match positions k' C !! n with
    | Some _ => rc_pending rc' = []
    | None => rc_handshake_state rc' = handshake_of r' I' /\ rc_pending rc' = messages r' I'
    end.
Proof.
  intros -> -> k' n r' Hn. destruct open_fresh as [Hr Hni]. unfold I' in *.
  rewrite openers_app in Hn. apply lookup_app_Some in Hn as [Hn|[Hge Hn]].
  - eapply remote_kept; eauto; [|lia]. intros j rc H. by apply Hl.
  - cbn in Hn. case_decide; [|done]. subst k'. apply list_lookup_singleton_Some in Hn as [Hn <-].
    assert (n = length (openers k I)) as -> by lia. eexists. rewrite list_lookup_insert_eq by done.
    split; [done|]. cbn [rc_local_id rc_pending rc_handshake_state]. split; [done|].
    rewrite handshake_of_new, messages_app by done. cbn. rewrite app_nil_r, messages_unopened by (done || apply R).
    by destruct (positions k C !! _).
Qed.

Lemma open_absent rc j rc' :
  <[Z.to_nat (r - 1) := Some rc]> l !! j = Some (Some rc') -> Z.of_nat j + 1 ∈ opened I'.
Proof.
  destruct open_fresh as [Hr Hni]. unfold I'. rewrite opened_app. intros Hj. apply elem_of_app.
  destruct (decide (j = Z.to_nat (r - 1))) as [->|].
  - right. cbn. apply list_elem_of_singleton. lia.
  - left. rewrite list_lookup_insert_ne in Hj by done. apply (rf_absent _ _ _ R j rc'). by apply Hl.
Qed.

Lemma open_infos out inc :
  drop (length (openers k I')) (positions k C) = out -> drop (length (positions k C)) (openers k I') = inc ->
  forall k', default (mkInfo [] [])
    (<[k := mkInfo ((fun i => Z.of_nat i + 1) <$> out) inc]> (ms_infos (mx_state m)) !! k') =
    mkInfo ((fun i => Z.of_nat i + 1) <$> drop (length (openers k' I')) (positions k' C))
      (drop (length (positions k' C)) (openers k' I')).
Proof.
  intros <- <- k'. destruct (decide (k' = k)) as [->|Hk]; [by rewrite lookup_insert_eq|].
  rewrite lookup_insert_ne by done. unfold I'. rewrite !openers_app. cbn.
  rewrite !decide_False, app_nil_r by done. apply R.
Qed.

Lemma reflects_open_alone q w n :
  positions k C !! length (openers k I) = None -> n = mx_queues m ->
  reflects C I'
    (mkMux (mkMuxState (ms_local (mx_state m)) (ms_free_ids (mx_state m))
              (<[Z.to_nat (r - 1) := Some (mkRemote hs None [])]> l)
              (<[k := mkInfo [] (drop (length (positions k C)) (openers k I) ++ [r])]> (ms_infos (mx_state m)))
              (ms_cork_depth (mx_state m)) (ms_batch (mx_state m)))
       q w (mx_events m) (mx_responses m) n).
Proof.
  intros Hnone ->. destruct open_fresh as [Hr Hni]. pose proof Hnone as Hle. apply lookup_ge_None in Hle.
  assert (forall j, partner C I' j = partner C I j) as Hp.
  { intros j. unfold I'. rewrite partner_open, Hnone. by rewrite decide_False. }
  split; muxs; try apply R; [done| | | | |].
  - intros i Hi. rewrite Hp. by apply R.
  - by apply (open_remote _ None); [|rewrite Hnone].
  - apply open_absent.
  - apply (open_infos []); unfold I'; rewrite openers_app; cbn; rewrite decide_True by done.
    + apply drop_ge. rewrite length_app. lia.
    + by rewrite drop_app_le by done.
  - intros i. transitivity (told C I i); [apply R|]. unfold I'.
    rewrite told_open, Hnone by (done || apply R). by rewrite decide_False.
Qed.

Lemma reflects_open_paired q w n i out ch :
  positions k C !! length (openers k I) = Some i -> n = mx_queues m ->
  drop (length (openers k I)) (positions k C) = i :: out ->
  ms_local (mx_state m) !! i = Some (Some ch) ->
  reflects C I'
    (mkMux (mkMuxState (<[i := Some (lc_open (lc_pair r ch))]> (ms_local (mx_state m))) (ms_free_ids (mx_state m))
              (<[Z.to_nat (r - 1) := Some (mkRemote hs (Some (Z.of_nat i)) [])]> l)
              (<[k := mkInfo ((fun i => Z.of_nat i + 1) <$> out) []]> (ms_infos (mx_state m)))
              (ms_cork_depth (mx_state m)) (ms_batch (mx_state m)))
       q w (mx_events m ++ [(lc_event_tx ch, EvOpened hs)]) (mx_responses m) n).
Proof.
  intros Hi -> Hdrop Hch. destruct open_fresh as [Hr Hni].
  pose proof Hi as Hlti. apply lookup_lt_Some in Hlti.
  assert (i < length C)%nat as HiC by (apply (positions_lt k); by eapply list_elem_of_lookup_2).
  pose proof (rf_count _ _ _ R) as Hcnt.
  destruct (rf_local _ _ _ R i HiC) as (ch' & Hch' & Htx & _ & Hcl).
  assert (ch' = ch) as -> by congruence.
  assert (forall j, partner C I' j = if decide (j = i) then Some r else partner C I j) as Hp.
  { intros j. unfold I'. rewrite partner_open, Hi. repeat case_decide; congruence. }
  split; muxs; try apply R; [done|by rewrite length_insert| | | | |].
  - intros j Hj. rewrite Hp. destruct (decide (j = i)) as [->|].
    + rewrite list_lookup_insert_eq by lia. by eexists.
    + rewrite list_lookup_insert_ne by done. by apply R.
  - by apply (open_remote _ (Some (Z.of_nat i))); [|rewrite Hi].
  - apply open_absent.
  - apply (open_infos out); unfold I'; rewrite openers_app; cbn; rewrite decide_True by done.
    + by rewrite length_app, <- drop_drop, Hdrop.
    + apply drop_ge. rewrite length_app. cbn. lia.
  - intros j. unfold I'. rewrite told_open, Hi by (done || apply R).
    unfold events_of. cbn [mx_events]. rewrite omap_app. fold (events_of j m). rewrite (rf_events _ _ _ R j).
    cbn. rewrite Htx. destruct (decide (j = i)) as [->|].
    + rewrite !decide_True by done. unfold told.
      assert (partner C I i = None) as ->; [|done]. apply positions_lookup in Hi as [Hk Hrk].
      unfold partner. rewrite Hk. cbn. rewrite Hrk. by apply lookup_ge_None.
    + rewrite !decide_False by (congruence || lia). by rewrite app_nil_r.
Qed.
End Open.

Lemma wp_set_remote i c m (Q : unit -> Mux -> Prop) :
  0 <= i -> (Z.to_nat i < length (ms_remote (mx_state m)))%nat ->
  Q tt (upd_state (fun s => set_remotes (<[Z.to_nat i := c]> (ms_remote s)) s) m) -> wp (set_remote i c) m Q.
Proof.
  intros Hi Hlt HQ. apply lookup_lt_is_Some in Hlt as [c0 Hc0].
  apply wp_bind, wp_gets, wp_bind. eapply wp_index; [done..|]. by apply wp_update.
Qed.

(** The list of the peer's channels, grown for the new one. *)
Lemma reflects_grow C I m r k hs :
  reflects C I m -> items_ok (I ++ [IOpen r k hs]) ->
  let l := ms_remote (mx_state m) ++ replicate (Z.to_nat (r - 1 + 1 - len (ms_remote (mx_state m)))) None in
  (forall j rc, l !! j = Some (Some rc) <-> ms_remote (mx_state m) !! j = Some (Some rc)) /\
  l !! Z.to_nat (r - 1) = Some None.
Proof.
  intros R Hok l. apply items_ok_next in Hok as [Hr Hni].
  split; [intros; apply lookup_grown|]. unfold l.
  replace (r - 1 + 1) with (Z.of_nat (Z.to_nat (r - 1)) + 1) by lia. apply grown_at.
  intros rc Hrc. apply (rf_absent _ _ _ R) in Hrc. by replace (Z.of_nat _ + 1) with r in Hrc by lia.
Qed.

Lemma wp_remote_open C I m rid p cid hs :
  reflects C I m -> items_ok (I ++ [IOpen rid (channel_key p cid) hs]) -> len C < 2 ^ 32 - 1 ->
  wp (handle_remote_open rid p cid hs) m (fun _ m' =>
    reflects C (I ++ [IOpen rid (channel_key p cid) hs]) m' /\ outputs m' = outputs m).
Proof.
  intros R Hok HC. pose proof (items_ok_next _ _ Hok) as [Hr Hni].
  destruct (reflects_grow _ _ _ _ _ _ R Hok) as [Hl Hnone]. cbv zeta in Hl, Hnone.
  set (l := ms_remote (mx_state m) ++ _) in *. pose proof (lookup_lt_Some _ _ _ Hnone) as Hlt.
  unfold handle_remote_open, as_u32. rewrite as_u_id by (unfold in_u; lia).
  rewrite (proj2 (Z.eqb_neq _ _)) by lia. apply wp_bind, wp_update. muxs. fold l.
  apply wp_bind, wp_gets. muxs. apply wp_bind. eapply wp_index; [lia|exact Hnone|].
  set (k := channel_key p cid) in *. apply wp_bind. eapply wp_info_entry; [muxs; exact (rf_infos _ _ _ R k)|]. muxs.
  destruct (drop (length (openers k I)) (positions k C)) as [|i out] eqn:Hout.
  - assert (positions k C !! length (openers k I) = None) as Hp.
    { apply lookup_ge_None. apply (f_equal length) in Hout. rewrite length_drop in Hout. cbn in Hout. lia. }
    cbn [fmap list_fmap ci_outgoing ci_incoming]. apply wp_bind, wp_set_remote; [lia|done|]. apply wp_update. muxs.
    rewrite insert_insert_eq. split; [|done]. by eapply reflects_open_alone.
  - assert (positions k C !! length (openers k I) = Some i) as Hp.
    { rewrite <- (Nat.add_0_r (length _)), <- lookup_drop, Hout. done. }
    assert (i < length C)%nat as Hi by (apply (positions_lt k); by eapply list_elem_of_lookup_2).
    destruct (rf_local _ _ _ R i Hi) as (ch & Hch & _).
    cbn [fmap list_fmap ci_outgoing ci_incoming]. apply wp_bind, wp_update. muxs.
    assert (as_u 32 (Z.of_nat i + 1 - 1) = Z.of_nat i) as ->.
    { unfold len in HC. rewrite as_u_id; unfold in_u; lia. }
    apply wp_bind, wp_set_remote; [lia|done|]. muxs.
    eapply wp_with_local; [lia|muxs; by rewrite Nat2Z.id|]. apply wp_bind, wp_update, wp_send_event. muxs.
    rewrite insert_insert_eq, Nat2Z.id. split; [|done].
    assert (drop (length (positions k C)) (openers k I) = []) as ->.
    { apply drop_ge. apply lookup_lt_Some in Hp. lia. }
    by eapply reflects_open_paired.
Qed.

(** *** The peer sends a message *)

Lemma told_message C I r t d j :
  r ∈ opened I ->
  told C (I ++ [IMsg r t d]) j =
  told C I j ++ (if decide (partner C I j = Some r) then [message_event (t, d)] else []).
Proof.
  intros Hr. unfold told. assert (partner C (I ++ [IMsg r t d]) j = partner C I j) as ->.
  { unfold partner. destruct (C !! j); [|done]. cbn. rewrite openers_app. cbn. by rewrite app_nil_r. }
  destruct (partner C I j) as [r'|] eqn:Hp; [|by rewrite decide_False].
  apply partner_in in Hp. rewrite handshake_of_app, messages_app by done. cbn.
  destruct (decide (r = r')) as [->|].
  - rewrite !decide_True by done. by rewrite fmap_app.
  - rewrite !decide_False by congruence. by rewrite !app_nil_r.
Qed.

Lemma message_openers k I r t d : openers k (I ++ [IMsg r t d]) = openers k I.
Proof. rewrite openers_app. cbn. by rewrite app_nil_r. Qed.
Lemma message_partner C I r t d j : partner C (I ++ [IMsg r t d]) j = partner C I j.
Proof. unfold partner. destruct (C !! j); [|done]. cbn. by rewrite message_openers. Qed.

Lemma opener_of r I : r ∈ opened I -> exists k n, openers k I !! n = Some r.
Proof.
  rewrite opened_in. intros (k & hs & H). exists k. apply list_elem_of_lookup, openers_in. eauto.
Qed.

(** Delivered to the channel paired with [r]. *)
Lemma reflects_message_sent C I m r t d i q w n :
  reflects C I m -> items_ok (I ++ [IMsg r t d]) -> partner C I i = Some r -> n = mx_queues m ->
  reflects C (I ++ [IMsg r t d])
    (mkMux (mx_state m) q w (mx_events m ++ [(Z.of_nat i, message_event (t, d))]) (mx_responses m) n).
Proof.
  intros R Hok Hp ->. pose proof (items_ok_next _ _ Hok) as Hr. cbn in Hr.
  split; muxs; try apply R; [done|..].
  - intros j Hj. rewrite message_partner. by apply R.
  - intros k' n r' Hn. rewrite message_openers in Hn.
    destruct (rf_remote _ _ _ R k' n r' Hn) as (rc & H1 & H2 & H3). exists rc. do 2 (split; [done|]).
    destruct (positions k' C !! n) as [j|] eqn:Hj; [done|].
    pose proof (list_elem_of_lookup_2 _ _ _ Hn) as Hin. apply openers_opened in Hin.
    rewrite handshake_of_app, messages_app by done. cbn.
    rewrite decide_False, app_nil_r; [done|]. intros <-.
    destruct (C !! i) as [k|] eqn:Hk; [|by unfold partner in Hp; rewrite Hk in Hp].
    apply (partner_iff C I i r k Hk) in Hp as (n0 & Hn0 & Hr0).
    assert (k = k') as <- by (eapply openers_unique; [apply R| |]; by eapply list_elem_of_lookup_2).
    pose proof (NoDup_lookup _ _ _ _ (openers_NoDup k I (rf_items _ _ _ R)) Hr0 Hn). congruence.
  - intros j rc Hj. rewrite opened_app. apply elem_of_app. left. by eapply (rf_absent _ _ _ R).
  - intros k'. rewrite message_openers. apply R.
  - intros j. rewrite told_message by done. unfold events_of. cbn [mx_events]. rewrite omap_app.
    fold (events_of j m). rewrite (rf_events _ _ _ R j). cbn. f_equal.
    destruct (decide (j = i)) as [->|]; [by rewrite !decide_True|].
    rewrite !decide_False; [done| |lia]. intros Hj. by pose proof (partner_inj _ _ _ _ _ (rf_items _ _ _ R) Hj Hp).
Qed.

(** Kept for the channel that will be paired with [r]. *)
Lemma reflects_message_kept C I m r t d k n rc :
  reflects C I m -> items_ok (I ++ [IMsg r t d]) -> openers k I !! n = Some r -> positions k C !! n = None ->
  ms_remote (mx_state m) !! Z.to_nat (r - 1) = Some (Some rc) ->
  reflects C (I ++ [IMsg r t d])
    (upd_state (fun s => set_remotes (<[Z.to_nat (r - 1) :=
       Some (mkRemote (rc_handshake_state rc) (rc_local_id rc) (rc_pending rc ++ [(t, d)]))]> (ms_remote s)) s) m).
Proof.
  intros R Hok Hn Hnone Hrc. pose proof (items_ok_next _ _ Hok) as Hr. cbn in Hr.
  pose proof (rf_items _ _ _ R) as HI. pose proof (opened_range r I HI Hr) as Hrg.
  destruct (rf_remote _ _ _ R k n r Hn) as (rc0 & Hrc0 & Hlid & Hst). rewrite Hnone in Hst, Hlid.
  assert (rc0 = rc) as -> by congruence. destruct Hst as [Hhs Hpend].
  split; muxs; try apply R; [done|..].
  - intros j Hj. rewrite message_partner. by apply R.
  - intros k' n' r' Hn'. rewrite message_openers in Hn'.
    pose proof (list_elem_of_lookup_2 _ _ _ Hn') as Hin. apply openers_opened in Hin.
    rewrite handshake_of_app, messages_app by done. cbn. destruct (decide (r = r')) as [<-|Hne].
    + assert (k' = k) as -> by (eapply openers_unique; eauto using list_elem_of_lookup_2).
      assert (n' = n) as -> by (eapply NoDup_lookup; eauto using openers_NoDup).
      eexists. rewrite list_lookup_insert_eq by (by eapply lookup_lt_Some). split; [done|].
      cbn [rc_local_id rc_handshake_state rc_pending]. rewrite Hnone. split_and!; [done|done|by rewrite Hpend].
    + destruct (rf_remote _ _ _ R k' n' r' Hn') as (rc' & H1 & H2 & H3). exists rc'.
      pose proof (opened_range r' I HI Hin). rewrite list_lookup_insert_ne by lia. by rewrite app_nil_r.
  - intros j rc' Hj. rewrite opened_app. apply elem_of_app. left.
    destruct (decide (j = Z.to_nat (r - 1))) as [->|]; [by replace (Z.of_nat _ + 1) with r by lia|].
    rewrite list_lookup_insert_ne in Hj by done. by eapply (rf_absent _ _ _ R).
  - intros k'. rewrite message_openers. apply R.
  - intros j. rewrite told_message by done. rewrite decide_False; [rewrite app_nil_r; apply R|].
    intros Hj. destruct (C !! j) as [k'|] eqn:Hk; [|by unfold partner in Hj; rewrite Hk in Hj].
    destruct (proj1 (partner_iff C I j r k' Hk) Hj) as (n' & Hn' & Hr').
    assert (k' = k) as -> by (eapply openers_unique; eauto using list_elem_of_lookup_2).
    assert (n' = n) as -> by (eapply NoDup_lookup; eauto using openers_NoDup). congruence.
Qed.

Lemma wp_dispatch C I m r t d :
  reflects C I m -> items_ok (I ++ [IMsg r t d]) ->
  wp (dispatch_message (as_u32 r) t d) m (fun _ m' =>
    reflects C (I ++ [IMsg r t d]) m' /\ outputs m' = outputs m).
Proof.
  intros R Hok. pose proof (items_ok_next _ _ Hok) as Hr. cbn in Hr.
  pose proof (opened_range r I (rf_items _ _ _ R) Hr) as Hrg.
  unfold dispatch_message, as_u32. rewrite as_u_id by (unfold in_u; lia).
  rewrite (proj2 (Z.eqb_neq _ _)) by lia.
  destruct (opener_of r I Hr) as (k & n & Hn).
  destruct (rf_remote _ _ _ R k n r Hn) as (rc & Hrc & Hlid & _).
  apply wp_bind, wp_gets. rewrite Hrc. cbn [mjoin option_join]. rewrite Hlid.
  destruct (positions k C !! n) as [i|] eqn:Hi; cbn [fmap option_fmap option_map].
  - pose proof Hi as Hk. apply positions_lookup in Hk as [Hk _].
    destruct (rf_local _ _ _ R i) as (ch & Hch & Htx & Ho & _); [by eapply lookup_lt_Some|].
    assert (partner C I i = Some r) as Hp by (apply (partner_iff C I i r k Hk); eauto).
    rewrite Hp, bool_decide_eq_true_2 in Ho by (by eexists).
    apply wp_bind, wp_gets. rewrite Nat2Z.id, Hch. cbn [mjoin option_join]. rewrite Ho, Htx.
    apply wp_send_event. split; [|done]. by eapply reflects_message_sent.
  - apply wp_bind, wp_ret. apply wp_update. split; [|done].
    pose proof (reflects_message_kept C I m r t d k n rc R Hok Hn Hi Hrc) as H. by rewrite Hlid in H.
Qed.

(** ** Frames as items *)

Definition inner_items (channel_id : Z) (data : list Z) : list Item :=
  match decode_inner data with Ok (t, d) => [IMsg channel_id t d] | _ => [] end.
Definition frame_items (f : DecodedFrame) : list Item :=
  match f with
  | Control (FOpen lid p id hs) => [IOpen lid (channel_key p id) hs]
  | Control _ => []
  | Message c t d => [IMsg c t d]
  | Batch items => items ≫= fun i => inner_items (bi_channel_id i) (bi_data i)
  end.
(** Neither a close nor a reject, and the items of a batch can be read. *)
Definition plain (f : DecodedFrame) : Prop :=
  match f with
  | Control (FOpen _ _ _ _) | Message _ _ _ => True
  | Control _ => False
  | Batch items => Forall (fun i => exists t d, decode_inner (bi_data i) = Ok (t, d)) items
  end.

Lemma wp_batch C I m items :
  reflects C I m -> Forall (fun i => exists t d, decode_inner (bi_data i) = Ok (t, d)) items ->
  items_ok (I ++ (items ≫= fun i => inner_items (bi_channel_id i) (bi_data i))) ->
  wp (for_m items dispatch_batch_item) m (fun _ m' =>
    reflects C (I ++ (items ≫= fun i => inner_items (bi_channel_id i) (bi_data i))) m' /\ outputs m' = outputs m).
Proof.
  intros R Hf. revert I m R. induction Hf as [|i items (t & d & Hd) _ IH]; intros I m R Hok; cbn [for_m].
  { apply wp_ret. cbn. by rewrite app_nil_r. }
  change ((i :: items) ≫= _) with
    (inner_items (bi_channel_id i) (bi_data i) ++ (items ≫= fun i => inner_items (bi_channel_id i) (bi_data i))) in *.
  unfold inner_items at 1 in Hok. unfold inner_items at 1. rewrite Hd in *. rewrite app_assoc in *.
  apply wp_bind. unfold dispatch_batch_item. rewrite Hd. apply wp_bind, wp_ret.
  eapply wp_mono; [|apply wp_dispatch; [done|by eapply items_ok_app]].
  cbv beta. intros _ m' [R' Ho]. rewrite <- Ho. by apply IH.
Qed.

Lemma wp_incoming C I m data f :
  reflects C I m -> len C < 2 ^ 32 - 1 -> decode_frame data = Ok f -> plain f -> items_ok (I ++ frame_items f) ->
  wp (handle_incoming_frame data) m (fun _ m' => reflects C (I ++ frame_items f) m' /\ outputs m' = outputs m).
Proof.
  intros R HC Hd Hp Hok. unfold handle_incoming_frame. rewrite Hd. apply wp_bind, wp_ret.
  destruct f as [[lid p id hs| |]|items|c t d]; cbn [plain frame_items] in *; [|done|done| |].
  - by apply wp_remote_open.
  - by apply wp_batch.
  - by apply wp_dispatch.
Qed.
