(* ===== verification/ProtomuxNet.v ===== *)
(** * ProtomuxNet: two multiplexers over one connection

    Two actors, each writing frames the other reads in order.  A side's log is
    the list of the commands it has handled; [speaks] says that the frames it
    has written, queued and batched, read back, are exactly the channels and
    messages of that log.  [net_run] is any interleaving of commands, writes and
    reads on the two sides. *)

From S2P Require Import Prelude RustStd Persistent CompactEncoding Codec Protomux ProtomuxWire ProtomuxProofs.

#[local] Open Scope Z_scope.

(** ** Logs *)

(** The channels a log creates, and their keys. *)
Definition creations (log : list MuxCommand) : list (string * option (list Z) * option (list Z)) :=
  omap (fun c => match c with CreateChannel p id hs _ => Some (p, id, hs) | _ => None end) log.
Definition creation_key (c : string * option (list Z) * option (list Z)) : string := channel_key c.1.1 c.1.2.
Definition keys (log : list MuxCommand) : list string := creation_key <$> creations log.
(** The messages a log sends on a channel, once the channel exists; [made] is
    the number of channels made before. *)
Fixpoint sends (lid made : Z) (log : list MuxCommand) : list (Z * list Z) :=
  match log with
  | [] => []
  | CreateChannel _ _ _ _ :: log => sends lid (made + 1) log
  | SendMessage l t d :: log =>
      (if decide (l = lid /\ 1 <= lid <= made) then [(t, d)] else []) ++ sends lid made log
  | _ :: log => sends lid made log
  end.

(** A bound on what a log adds to the buffers. *)
Definition command_cost (c : MuxCommand) : Z :=
  match c with SendMessage _ _ d => 32 + len d | _ => 1 end.
Definition log_cost (log : list MuxCommand) : Z := foldr (fun c n => command_cost c + n) 0 log.

Lemma creations_snoc log c :
  creations (log ++ [c]) =
  creations log ++ match c with CreateChannel p id hs _ => [(p, id, hs)] | _ => [] end.
Proof. unfold creations. rewrite omap_app. by destruct c. Qed.
Lemma keys_snoc log c :
  keys (log ++ [c]) = keys log ++ match c with CreateChannel p id _ _ => [channel_key p id] | _ => [] end.
Proof. unfold keys. rewrite creations_snoc, fmap_app. by destruct c. Qed.

Lemma sends_snoc lid made log c :
  sends lid made (log ++ [c]) =
  sends lid made log ++
  match c with
  | SendMessage l t d => if decide (l = lid /\ 1 <= lid <= made + len (creations log)) then [(t, d)] else []
  | _ => []
  end.
Proof.
  revert made. induction log as [|a log IH]; intros made.
  { cbn. change (len (creations [])) with 0. rewrite Z.add_0_r. destruct c; try done. by rewrite app_nil_r. }
  destruct a; cbn [app sends]; rewrite IH; unfold creations; cbn [omap list_omap]; fold (creations log); try done.
  - rewrite len_cons. replace (made + 1 + len (creations log)) with (made + (1 + len (creations log))) by lia. done.
  - by rewrite app_assoc.
Qed.

Lemma log_cost_snoc log c : log_cost (log ++ [c]) = log_cost log + command_cost c.
Proof. induction log as [|a log IH]; cbn; [lia|]. unfold log_cost in IH. rewrite IH. lia. Qed.
Lemma command_cost_pos c : 1 <= command_cost c.
Proof. destruct c; cbn; try lia. pose proof (len_nonneg data). lia. Qed.
Lemma log_cost_nonneg log : 0 <= log_cost log.
Proof. induction log as [|a log IH]; cbn; [lia|]. pose proof (command_cost_pos a). unfold log_cost in IH. lia. Qed.
Lemma log_cost_len log : len log <= log_cost log.
Proof.
  induction log as [|a log IH]; cbn; [done|]. rewrite len_cons.
  pose proof (command_cost_pos a). unfold log_cost in IH. lia.
Qed.
Lemma log_cost_app a b : log_cost (a ++ b) = log_cost a + log_cost b.
Proof. unfold log_cost. induction a as [|x a IH]; [done|]. cbn. rewrite IH. lia. Qed.
Lemma creations_len log : len (creations log) <= len log.
Proof.
  unfold len, creations. induction log as [|a log IH]; [done|]. destruct a; cbn [omap list_omap length] in *; lia.
Qed.

(** ** What has been said *)

Definition decoded_items (data : list Z) : list Item :=
  match decode_frame data with Ok f => frame_items f | _ => [] end.
Definition wire_items (frames : list (list Z)) : list Item := frames ≫= decoded_items.
Definition batch_items (batch : list (Z * list Z)) : list Item := batch ≫= fun e => inner_items e.1 e.2.
(** Everything a side has said: the frames written and queued, and the batch. *)
Definition said_frames (m : Mux) : list (list Z) := mx_written m ++ mx_write_queue m.
Definition said (m : Mux) : list Item := wire_items (said_frames m) ++ batch_items (ms_batch (mx_state m)).

Definition openings (I : list Item) : list (Z * string * option (list Z)) :=
  omap (fun x => match x with IOpen r k hs => Some (r, k, hs) | _ => None end) I.
Definition log_openings (log : list MuxCommand) : list (Z * string * option (list Z)) :=
  imap (fun i c => (Z.of_nat i + 1, creation_key c, buffer_norm c.2)) (creations log).

(** An entry of the batch, for one of the channels made. *)
Definition entry_said (made : Z) (e : Z * list Z) : Prop :=
  1 <= e.1 <= made /\ exists t d, in_u 64 t /\ e.2 = wire_inner t d.
Definition batch_size (batch : list (Z * list Z)) : Z :=
  foldr (fun e n => 19 + len e.2 + n) 0 batch.

Record speaks (log : list MuxCommand) (m : Mux) : Prop := {
  sp_frames : Forall (fun b => exists f, decode_frame b = Ok f /\ plain f) (said_frames m);
  sp_items : items_ok (wire_items (said_frames m));
  sp_openings : openings (wire_items (said_frames m)) = log_openings log;
  sp_messages r : messages r (said m) = sends r 0 log;
  sp_batch : Forall (entry_said (len (creations log))) (ms_batch (mx_state m));
  sp_corked : ms_batch (mx_state m) <> [] -> 0 < ms_cork_depth (mx_state m);
  sp_cork : 0 <= ms_cork_depth (mx_state m) <= len log;
  sp_size : batch_size (ms_batch (mx_state m)) <= log_cost log
}.

Lemma speaks_start : speaks [] Mux_start.
Proof. by split. Qed.

Lemma wire_items_app a b : wire_items (a ++ b) = wire_items a ++ wire_items b.
Proof. apply bind_app. Qed.
Lemma wire_items_one b f : decode_frame b = Ok f -> wire_items [b] = frame_items f.
Proof. intros H. unfold wire_items, decoded_items. cbn. by rewrite H, app_nil_r. Qed.
Lemma openings_app I J : openings (I ++ J) = openings I ++ openings J.
Proof. apply omap_app. Qed.
Lemma opened_openings I : opened I = (fun o => o.1.1) <$> openings I.
Proof. induction I as [|[r k hs|] I IH]; [done| |done]. cbn. f_equal. apply IH. Qed.

Lemma inner_items_said e made :
  entry_said made e -> exists t d, decode_inner e.2 = Ok (t, d) /\ inner_items e.1 e.2 = [IMsg e.1 t d].
Proof.
  intros (_ & t & d & Ht & ->). exists t, d. unfold inner_items. by rewrite decode_inner_wire.
Qed.

(** The channels made are those opened, numbered from 1. *)
Lemma log_openings_opened log I r :
  openings I = log_openings log -> r ∈ opened I <-> 1 <= r <= len (creations log).
Proof.
  intros H. rewrite opened_openings, H. unfold log_openings. rewrite list_elem_of_fmap. split.
  - intros ([[r' k] hs] & -> & Hin). apply elem_of_lookup_imap in Hin as (i & c & [= -> _ _] & Hc).
    apply lookup_lt_Some in Hc. cbn. unfold len. lia.
  - intros Hr. destruct (lookup_lt_is_Some_2 (creations log) (Z.to_nat (r - 1))) as [c Hc]; [unfold len in Hr; lia|].
    exists (r, creation_key c, buffer_norm c.2). split; [done|]. apply elem_of_lookup_imap.
    exists (Z.to_nat (r - 1)), c. split; [|done]. do 2 f_equal. lia.
Qed.

(** Messages for channels that are open may follow. *)
Lemma items_ok_messages I batch :
  items_ok I -> Forall (fun e => e.1 ∈ opened I /\ exists t d, decode_inner e.2 = Ok (t, d)) batch ->
  items_ok (I ++ batch_items batch).
Proof.
  intros HI H. revert I HI H. induction batch as [|e batch IH]; intros I HI H; cbn.
  { by rewrite app_nil_r. }
  apply Forall_cons in H as [[Hin (t & d & Hd)] H].
  change (batch_items (e :: batch)) with (inner_items e.1 e.2 ++ batch_items batch).
  unfold inner_items. rewrite Hd, app_assoc. apply IH.
  - by apply items_ok_snoc.
  - eapply Forall_impl; [exact H|]. intros e' [H1 H2]. split; [|done]. rewrite opened_app. apply elem_of_app. by left.
Qed.

Lemma messages_batch_opening r I J batch : messages r J = [] ->
  messages r ((I ++ J) ++ batch_items batch) = messages r (I ++ batch_items batch).
Proof. intros HJ. by rewrite !messages_app, HJ, app_nil_r. Qed.

Lemma batch_messages_only batch : openings (batch_items batch) = [].
Proof.
  induction batch as [|e batch IH]; [done|].
  change (batch_items (e :: batch)) with (inner_items e.1 e.2 ++ batch_items batch).
  rewrite openings_app, IH, app_nil_r. unfold inner_items. by destruct (decode_inner e.2) as [[t d]| |].
Qed.

Lemma wire_uint_short n : 1 <= len (wire_uint n) <= 9.
Proof. unfold wire_uint. repeat case_match; lens; lia. Qed.

Lemma wire_entries_size prev batch : len (wire_entries prev batch) <= batch_size batch.
Proof.
  revert prev. induction batch as [|[id buf] batch IH]; intros prev; [done|].
  cbn [wire_entries wire_buffer batch_size foldr snd]. fold (batch_size batch). specialize (IH id).
  pose proof (wire_uint_short id). pose proof (wire_uint_short (len buf)).
  destruct (id =? prev); lens; lia.
Qed.

Lemma entries_ok made batch :
  made < 2 ^ 32 -> batch_size batch < 2 ^ 63 -> Forall (entry_said made) batch ->
  Forall entry_ok batch /\ Forall (fun e => e.2 <> []) batch.
Proof.
  intros Hm Hs H. induction H as [|e batch (Hid & t & d & Ht & He) _ IH]; [done|].
  cbn [batch_size foldr] in Hs. fold (batch_size batch) in Hs.
  assert (0 <= batch_size batch).
  { clear. induction batch as [|e batch IH]; [done|]. cbn. pose proof (len_nonneg e.2). unfold batch_size in IH. lia. }
  pose proof (len_nonneg e.2). destruct IH as [IH1 IH2]; [lia|]. split; constructor; try done.
  - split; [words; lia|unfold fits; words; lia].
  - rewrite He. unfold wire_inner, wire_uint. by repeat case_match.
Qed.

(** ** A side and its commands *)

(** The parts of the state [reflects] depends on. *)
Definition core (m : Mux) :=
  (ms_local (mx_state m), ms_free_ids (mx_state m), ms_remote (mx_state m), ms_infos (mx_state m),
   mx_events m, mx_queues m).
Lemma reflects_core C I m m' : core m' = core m -> reflects C I m -> reflects C I m'.
Proof.
  unfold core. intros [= H1 H2 H3 H4 H5 H6] R. split; unfold events_of; rewrite ?H1, ?H2, ?H3, ?H4, ?H5, ?H6; apply R.
Qed.

Record side (log : list MuxCommand) (I : list Item) (m : Mux) : Prop := {
  sd_reflects : reflects (keys log) I m;
  sd_speaks : speaks log m
}.

Lemma keys_len log : len (keys log) = len (creations log).
Proof. unfold keys, len. by rewrite length_fmap. Qed.

(** The commands of handles that are not closed. *)
Definition command_ok (c : MuxCommand) : Prop :=
  match c with
  | CreateChannel p id _ _ => string_valid p /\ opt_ok fits id
  | SendMessage l t _ => in_u 32 l /\ in_u 32 t
  | CloseChannel _ => False
  | Cork | Uncork => True
  end.
#[global] Instance command_ok_dec c : Decision (command_ok c).
Proof. destruct c; cbn; apply _. Defined.

Lemma wp_create C I m p id hs :
  reflects C I m -> len C < 2 ^ 32 - 1 -> string_valid p -> opt_ok fits id ->
  wp (create_channel_internal p id hs) m (fun h m' =>
    reflects (C ++ [channel_key p id]) I m' /\ h = mkHandle (len C + 1) (len C) /\
    outputs m' = (mx_write_queue m ++ [wire_open (len C + 1) p id hs], mx_written m,
                  ms_cork_depth (mx_state m), ms_batch (mx_state m))).
Proof.
  intros R HC Hp Hid. pose proof (rf_infos _ _ _ R (channel_key p id)) as Hinfo.
  assert (len (ms_local (mx_state m)) = len C) as Hcnt by (unfold len; by rewrite (rf_count _ _ _ R)).
  pose proof (rf_queues _ _ _ R) as Hq.
  set (k := channel_key p id) in *. destruct (drop (length (positions k C)) (openers k I)) as [|r inc] eqn:Hd.
  - eapply wp_create_alone; [apply R|by rewrite Hcnt|done..|exact Hinfo|]. rewrite Hcnt. fold k.
    split; [|by rewrite Hq]. apply reflects_create_alone; [done|].
    fold k. apply lookup_ge_None. apply (f_equal length) in Hd. rewrite length_drop in Hd. cbn in Hd. lia.
  - assert (openers k I !! length (positions k C) = Some r) as Hr.
    { rewrite <- (Nat.add_0_r (length _)), <- lookup_drop, Hd. done. }
    destruct (rf_remote _ _ _ R k _ r Hr) as ([hs0 lid0 pend] & Hrc & _ & Hst).
    rewrite (proj2 (lookup_ge_None (positions k C) _)) in Hst by lia. destruct Hst as [Hhs Hpend].
    rewrite drop_ge in Hinfo by (apply lookup_lt_Some in Hr; lia).
    eapply wp_create_paired; [apply R|by rewrite Hcnt|done..|exact Hinfo|exact Hrc|]. rewrite Hcnt. fold k.
    split; [|by rewrite Hq].
    by apply (reflects_create_paired C I m p id _ _ r inc (mkRemote hs0 lid0 pend)).
Qed.

(** *** What each command says *)

Lemma speaks_outputs log m m' : outputs m' = outputs m -> speaks log m -> speaks log m'.
Proof.
  unfold outputs. intros [= H1 H2 H3 H4] S.
  assert (said_frames m' = said_frames m) as Hf by (unfold said_frames; by rewrite H1, H2).
  assert (said m' = said m) as Hs by (unfold said; by rewrite Hf, H4).
  split; rewrite ?Hf, ?Hs, ?H3, ?H4; apply S.
Qed.

Lemma entry_said_mono made made' e : made <= made' -> entry_said made e -> entry_said made' e.
Proof. intros H [? ?]. split; [lia|done]. Qed.

Lemma log_openings_snoc log p id hs resp :
  log_openings (log ++ [CreateChannel p id hs resp]) =
  log_openings log ++ [(len (creations log) + 1, channel_key p id, buffer_norm hs)].
Proof. unfold log_openings. rewrite creations_snoc, imap_app. cbn. by rewrite Nat.add_0_r. Qed.

Lemma speaks_create log m m' p id hs resp :
  let n := len (creations log) in
  speaks log m -> n < 2 ^ 32 - 1 -> string_valid p -> opt_ok fits id ->
  outputs m' = (mx_write_queue m ++ [wire_open (n + 1) p id hs], mx_written m,
                ms_cork_depth (mx_state m), ms_batch (mx_state m)) ->
  speaks (log ++ [CreateChannel p id hs resp]) m'.
Proof.
  intros n S Hn Hp Hid [= H1 H2 H3 H4]. pose proof (len_nonneg (creations log)) as Hpos. fold n in Hpos.
  pose proof (decode_open_wire (n + 1) p id hs ltac:(words; lia) Hp Hid) as Hd.
  assert (said_frames m' = said_frames m ++ [wire_open (n + 1) p id hs]) as Hf.
  { unfold said_frames. by rewrite H1, H2, app_assoc. }
  pose proof (wire_items_one _ _ Hd) as Hi. cbn [frame_items] in Hi. rewrite channel_key_norm in Hi.
  split.
  - rewrite Hf. apply Forall_app. split; [apply S|]. apply Forall_singleton. eexists; split; [exact Hd|done].
  - rewrite Hf, wire_items_app, Hi. apply items_ok_snoc; [apply S|]. split; [lia|].
    rewrite (log_openings_opened log) by apply S. fold n. lia.
  - rewrite Hf, wire_items_app, Hi, openings_app, (sp_openings _ _ S). by rewrite log_openings_snoc.
  - intros r. unfold said. rewrite Hf, wire_items_app, Hi, H4, messages_batch_opening by done.
    rewrite sends_snoc, app_nil_r. apply S.
  - rewrite H4, creations_snoc. eapply Forall_impl; [apply S|]. intros e. apply entry_said_mono. lens. lia.
  - rewrite H3, H4. apply S.
  - rewrite H3. pose proof (sp_cork _ _ S). lens. lia.
  - rewrite H4, log_cost_snoc. pose proof (sp_size _ _ S). cbn. lia.
Qed.

(** *** A message for a channel that exists *)

Section Message.
Context (log : list MuxCommand) (m m' : Mux) (l t : Z) (d : list Z).
Context (S : speaks log m) (Hl : 1 <= l <= len (creations log)) (Hlt : len (creations log) < 2 ^ 32)
  (Ht : in_u 64 t).

Lemma sends_message r :
  sends r 0 (log ++ [SendMessage l t d]) = sends r 0 log ++ (if decide (l = r) then [(t, d)] else []).
Proof.
  rewrite sends_snoc. f_equal. destruct (decide (l = r)) as [<-|].
  - by rewrite decide_True by (split; [done|lia]).
  - by rewrite decide_False by (by intros [? _]).
Qed.

Lemma log_openings_message : log_openings (log ++ [SendMessage l t d]) = log_openings log.
Proof. unfold log_openings. by rewrite creations_snoc, app_nil_r. Qed.

(** On the wire. *)
Lemma speaks_direct :
  ms_cork_depth (mx_state m) = 0 ->
  outputs m' = (mx_write_queue m ++ [wire_message l t d], mx_written m, 0, ms_batch (mx_state m)) ->
  speaks (log ++ [SendMessage l t d]) m'.
Proof.
  intros Hc [= H1 H2 H3 H4].
  pose proof (decode_message_wire l t d ltac:(lia) ltac:(words; lia) Ht) as Hd.
  assert (said_frames m' = said_frames m ++ [wire_message l t d]) as Hf.
  { unfold said_frames. by rewrite H1, H2, app_assoc. }
  assert (ms_batch (mx_state m) = []) as Hb.
  { destruct (ms_batch (mx_state m)) eqn:E; [done|]. pose proof (sp_corked _ _ S ltac:(by rewrite E)). lia. }
  pose proof (wire_items_one _ _ Hd) as Hi. cbn [frame_items] in Hi. rewrite Hb in H4.
  split; rewrite ?Hf, ?wire_items_app, ?Hi, ?H3, ?H4, ?log_openings_message; try done.
  - apply Forall_app. split; [apply S|]. apply Forall_singleton. by eexists; split; [exact Hd|].
  - apply items_ok_snoc; [apply S|]. by apply (log_openings_opened _ _ l (sp_openings _ _ S)).
  - rewrite openings_app, (sp_openings _ _ S). by rewrite app_nil_r.
  - intros r. pose proof (sp_messages _ _ S r) as Hm. unfold said in *. rewrite Hb in Hm.
    rewrite Hf, H4, wire_items_app, Hi, sends_message. cbn [batch_items mbind list_bind] in *.
    rewrite app_nil_r in *. rewrite messages_app, Hm. cbn. by case_decide.
  - lens. pose proof (len_nonneg log). lia.
  - rewrite log_cost_snoc. cbn. pose proof (log_cost_nonneg log). pose proof (len_nonneg d). lia.
Qed.

Lemma batch_size_snoc batch e : batch_size (batch ++ [e]) = batch_size batch + 19 + len e.2.
Proof. unfold batch_size. induction batch as [|x batch IH]; cbn; [lia|]. rewrite IH. lia. Qed.

(** In the batch. *)
Lemma speaks_batched :
  0 < ms_cork_depth (mx_state m) ->
  outputs m' = (mx_write_queue m, mx_written m, ms_cork_depth (mx_state m), ms_batch (mx_state m) ++ [(l, wire_inner t d)]) ->
  speaks (log ++ [SendMessage l t d]) m'.
Proof.
  intros Hc [= H1 H2 H3 H4]. pose proof (sp_cork _ _ S). pose proof (sp_size _ _ S).
  assert (said_frames m' = said_frames m) as Hf by (unfold said_frames; by rewrite H1, H2).
  split; rewrite ?Hf, ?H3, ?H4, ?log_openings_message; try apply S.
  - intros r. unfold said. rewrite Hf, H4. unfold batch_items. rewrite bind_app.
    fold (batch_items (ms_batch (mx_state m))). rewrite app_assoc, messages_app. fold (said m).
    rewrite (sp_messages _ _ S), sends_message. f_equal. cbn. rewrite app_nil_r.
    unfold inner_items. rewrite decode_inner_wire by done. cbn. by case_decide.
  - rewrite creations_snoc, app_nil_r. apply Forall_app. split; [apply S|]. apply Forall_singleton.
    split; [done|]. by exists t, d.
  - done.
  - lens. lia.
  - rewrite log_cost_snoc, batch_size_snoc. cbn. pose proof (wire_uint_short t). unfold wire_inner. lens. lia.
Qed.
End Message.

(** *** Commands that say nothing new *)

Lemma speaks_silent log c m m' :
  speaks log m -> creations (log ++ [c]) = creations log -> (forall r, sends r 0 (log ++ [c]) = sends r 0 log) ->
  said_frames m' = said_frames m -> ms_batch (mx_state m') = ms_batch (mx_state m) ->
  (ms_batch (mx_state m) <> [] -> 0 < ms_cork_depth (mx_state m')) -> 0 <= ms_cork_depth (mx_state m') <= len log + 1 ->
  speaks (log ++ [c]) m'.
Proof.
  intros S Hcr Hs Hf Hb Hne Hd. split; rewrite ?Hf, ?Hb, ?Hcr; try apply S; try done.
  - unfold log_openings. rewrite Hcr. apply S.
  - intros r. unfold said. rewrite Hf, Hb, Hs. apply S.
  - lens. lia.
  - rewrite log_cost_snoc. pose proof (sp_size _ _ S). pose proof (command_cost_pos c). lia.
Qed.

Lemma decode_said_batch first made batch :
  made < 2 ^ 32 -> batch_size batch < 2 ^ 63 -> Forall (entry_said made) batch -> in_u 64 first ->
  decode_frame (wire_batch first batch) = Ok (Batch ((fun e => mkItem e.1 e.2) <$> batch)).
Proof.
  intros Hm Hs H Hf. destruct (entries_ok _ _ Hm Hs H) as [H1 H2]. apply decode_batch_wire; try done.
  pose proof (wire_entries_size first batch). pose proof (wire_uint_short first).
  unfold fits, wire_batch. rewrite !len_app. change (len [0; 0]) with 2. pow2. lia.
Qed.

(** The batch, flushed. *)
Lemma speaks_flushed log m m' id inner batch :
  speaks log m -> ms_batch (mx_state m) = (id, inner) :: batch -> log_cost log < 2 ^ 63 ->
  len (creations log) < 2 ^ 32 ->
  outputs m' = (mx_write_queue m ++ [wire_batch id (ms_batch (mx_state m))], mx_written m, 0, []) ->
  speaks (log ++ [Uncork]) m'.
Proof.
  intros S Hb Hcost Hlt [= H1 H2 H3 H4]. pose proof (sp_size _ _ S). pose proof (sp_batch _ _ S) as Hsaid.
  assert (1 <= id <= len (creations log)) as Hid by (rewrite Hb in Hsaid; by apply Forall_cons in Hsaid as [[? _] _]).
  pose proof (decode_said_batch id _ (ms_batch (mx_state m)) Hlt ltac:(lia) Hsaid ltac:(words; lia)) as Hd.
  set (B := ms_batch (mx_state m)) in *.
  assert (said_frames m' = said_frames m ++ [wire_batch id B]) as Hf.
  { unfold said_frames. by rewrite H1, H2, app_assoc. }
  assert (wire_items [wire_batch id B] = batch_items B) as Hi.
  { rewrite (wire_items_one _ _ Hd). cbn [frame_items]. unfold batch_items. by rewrite list_fmap_bind. }
  assert (Forall (fun e => exists t d, decode_inner e.2 = Ok (t, d)) B) as Hin.
  { eapply Forall_impl; [exact Hsaid|]. intros e He. apply inner_items_said in He as (t & d & ? & _). eauto. }
  split; rewrite ?Hf, ?wire_items_app, ?Hi, ?H3, ?H4; try done.
  - apply Forall_app. split; [apply S|]. apply Forall_singleton. eexists. split; [exact Hd|].
    cbn [plain]. by apply Forall_fmap.
  - apply items_ok_messages; [apply S|]. apply Forall_and. split; [|done].
    eapply Forall_impl; [exact Hsaid|]. intros e [He _]. by apply (log_openings_opened _ _ _ (sp_openings _ _ S)).
  - rewrite openings_app, batch_messages_only, app_nil_r. unfold log_openings.
    rewrite creations_snoc, app_nil_r. apply S.
  - intros r. unfold said. rewrite Hf, H4, wire_items_app, Hi. cbn [batch_items mbind list_bind].
    rewrite sends_snoc, !app_nil_r. apply S.
  - lens. pose proof (len_nonneg log). lia.
  - rewrite log_cost_snoc. pose proof (log_cost_nonneg log). cbn. lia.
Qed.

(** *** A command keeps both descriptions *)

(** What a command leaves of the channels, when it only says something. *)
Lemma side_core log I m m' c :
  side log I m -> core m' = core m -> keys (log ++ [c]) = keys log -> speaks (log ++ [c]) m' -> side (log ++ [c]) I m'.
Proof. intros [R S] Hc Hk S'. split; [|done]. rewrite Hk. by eapply reflects_core. Qed.

Section Command.
Context (log : list MuxCommand) (I : list Item) (m : Mux).
Context (D : side log I m) (Hlen : len log < 2 ^ 32 - 1).

Lemma side_made : len (ms_local (mx_state m)) = len (creations log).
Proof. rewrite <- keys_len. unfold len. f_equal. apply D. Qed.
Lemma side_short : 0 <= len (creations log) < 2 ^ 32 - 1.
Proof. pose proof (creations_len log). pose proof (len_nonneg (creations log)). lia. Qed.

Lemma wp_command_create p id hs resp :
  string_valid p -> opt_ok fits id ->
  wp (handle_command (CreateChannel p id hs resp)) m (fun _ m' => side (log ++ [CreateChannel p id hs resp]) I m').
Proof.
  intros Hp Hid. pose proof side_short as Hs. pose proof (keys_len log) as Hk.
  cbn [handle_command]. apply wp_bind. unfold try_m.
  destruct (wp_inv _ _ _ (wp_create (keys log) I m p id hs (sd_reflects _ _ _ D) ltac:(lia) Hp Hid))
    as (h & m1 & Hm1 & R & _ & Ho).
  unfold wp. rewrite Hm1. cbn [respond]. split.
  - rewrite keys_snoc. by apply (reflects_core _ _ m1).
  - rewrite Hk in Ho. by apply (speaks_create log m _ p id hs resp (sd_speaks _ _ _ D)); [lia|done..].
Qed.

Lemma wp_command_send l t d :
  in_u 32 l -> in_u 32 t ->
  wp (handle_command (SendMessage l t d)) m (fun _ m' => side (log ++ [SendMessage l t d]) I m').
Proof.
  intros Hl Ht. pose proof side_short as Hs. pose proof side_made as Hmade.
  pose proof (sp_cork _ _ (sd_speaks _ _ _ D)) as Hcork.
  assert (in_u 64 t) as Ht64 by (eapply in_u_mono; [|exact Ht]; lia).
  assert (forall m', core m' = core m -> speaks (log ++ [SendMessage l t d]) m' -> side (log ++ [SendMessage l t d]) I m') as Hside.
  { intros m' Hc. apply side_core with m; [done..|]. by rewrite keys_snoc, app_nil_r. }
  cbn [handle_command]. unfold send_message_internal. apply wp_bind, wp_gets. rewrite Hmade.
  destruct (Z.leb_spec (len (creations log)) (as_u32 (l - 1))) as [Hge|Hlt].
  - apply Hside; [done|]. apply (speaks_silent log _ m m); try done; try apply D; [by rewrite creations_snoc, app_nil_r| |lia].
    intros r. rewrite sends_snoc, decide_False, app_nil_r; [done|].
    intros [<- ?]. unfold as_u32 in Hge. rewrite as_u_id in Hge by (words; lia). lia.
  - assert (1 <= l <= len (creations log)) as Hin.
    { destruct (decide (l = 0)) as [->|]; [by unfold as_u32, as_u in Hlt; change ((0 - 1) mod 2 ^ 32) with (2 ^ 32 - 1) in Hlt; lia|].
      unfold as_u32 in Hlt. rewrite as_u_id in Hlt by (words; lia). words. lia. }
    unfold as_u32. rewrite as_u_id by (words; lia).
    destruct (rf_local _ _ _ (sd_reflects _ _ _ D) (Z.to_nat (l - 1))) as (ch & Hch & _).
    { rewrite <- to_nat_len, keys_len. lia. }
    apply wp_bind, wp_gets. rewrite Hch. cbn [mjoin option_join]. apply wp_bind, wp_gets.
    destruct (Z.ltb_spec 0 (ms_cork_depth (mx_state m))).
    + apply wp_bind. eapply wp_encoded; [by apply encode_inner_wire|]. apply wp_update, Hside; [done|].
      apply (speaks_batched log m); try done; apply D.
    + apply wp_bind. eapply wp_encoded; [by apply encode_message_wire; [words; lia|]|].
      apply wp_push, Hside; [done|]. assert (ms_cork_depth (mx_state m) = 0) as Hc by lia.
      apply (speaks_direct log m); try done; [apply D|lia|]. unfold outputs. muxs. by rewrite Hc.
Qed.

Lemma wp_command_cork :
  wp (handle_command Cork) m (fun _ m' => side (log ++ [Cork]) I m').
Proof.
  pose proof (sp_cork _ _ (sd_speaks _ _ _ D)). cbn [handle_command]. apply wp_bind, wp_gets, wp_update.
  assert (as_u32 (ms_cork_depth (mx_state m) + 1) = ms_cork_depth (mx_state m) + 1) as Hd by (apply as_u_id; words; lia).
  apply side_core with m; [done..|by rewrite keys_snoc, app_nil_r|].
  apply (speaks_silent log _ m); try done; [apply D|by rewrite creations_snoc, app_nil_r|intros r; by rewrite sends_snoc, app_nil_r|..];
    muxs; rewrite Hd; lia.
Qed.

Lemma wp_command_uncork :
  log_cost log < 2 ^ 63 -> wp (handle_command Uncork) m (fun _ m' => side (log ++ [Uncork]) I m').
Proof.
  intros Hcost. pose proof (sd_speaks _ _ _ D) as S. pose proof (sp_cork _ _ S) as Hd. pose proof side_short as Hs.
  assert (forall m', core m' = core m -> said_frames m' = said_frames m ->
    ms_batch (mx_state m') = ms_batch (mx_state m) ->
    (ms_batch (mx_state m) <> [] -> 0 < ms_cork_depth (mx_state m')) -> 0 <= ms_cork_depth (mx_state m') <= len log + 1 ->
    side (log ++ [Uncork]) I m') as Hsilent.
  { intros m' Hc Hf Hb Hne Hd'. apply side_core with m; [done..|by rewrite keys_snoc, app_nil_r|].
    apply (speaks_silent log _ m); try done; [by rewrite creations_snoc, app_nil_r|intros r; by rewrite sends_snoc, app_nil_r]. }
  cbn [handle_command]. apply wp_bind, wp_gets. destruct (Z.ltb_spec 0 (ms_cork_depth (mx_state m))) as [Hpos|].
  2: { apply wp_ret, Hsilent; try done; [apply S|lia]. }
  apply wp_bind, wp_update, wp_bind, wp_gets. muxs.
  destruct (ms_batch (mx_state m)) as [|[id inner] batch] eqn:Hb.
  - rewrite andb_false_r. apply wp_ret, Hsilent; muxs; try done. lia.
  - destruct (Z.eqb_spec (ms_cork_depth (mx_state m) - 1) 0) as [Hz|]; cycle 1.
    { apply wp_ret, Hsilent; muxs; try done; lia. }
    rewrite (proj2 (Z.eqb_neq _ _)) by (lens; pose proof (len_nonneg batch); lia). cbn [negb andb].
    apply wp_bind, wp_update, wp_bind. muxs.
    pose proof (sp_size _ _ S) as Hsize. pose proof (sp_batch _ _ S) as Hsaid. rewrite Hb in Hsize, Hsaid.
    eapply wp_encoded.
    { apply encode_batch_wire. apply (entries_ok (len (creations log))); [lia|lia|done]. }
    rewrite (proj2 (Z.eqb_neq _ _)).
    2: { unfold wire_batch. rewrite !len_app. change (len [0; 0]) with 2.
         pose proof (len_nonneg (wire_uint id)). pose proof (len_nonneg (wire_entries id ((id, inner) :: batch))). lia. }
    apply wp_push. apply side_core with m; [done..|by rewrite keys_snoc, app_nil_r|].
    apply (speaks_flushed log m _ id inner batch); try done; [lia|]. unfold outputs. muxs. by rewrite Hb, Hz.
Qed.

Lemma wp_command c :
  command_ok c -> log_cost log < 2 ^ 63 ->
  wp (handle_command c) m (fun _ m' => side (log ++ [c]) I m').
Proof.
  intros Hc Hcost. destruct c as [p id hs resp|l t d|l| |].
  - destruct Hc. by apply wp_command_create.
  - destruct Hc. by apply wp_command_send.
  - done.
  - apply wp_command_cork.
  - by apply wp_command_uncork.
Qed.
End Command.

Lemma wp_commands cs log I m :
  side log I m -> Forall command_ok cs -> len (log ++ cs) < 2 ^ 32 -> log_cost (log ++ cs) < 2 ^ 63 ->
  wp (for_m cs handle_command) m (fun _ m' => side (log ++ cs) I m').
Proof.
  intros D H. revert log m D. induction H as [|c cs Hc _ IH]; intros log m D Hlen Hcost; cbn [for_m].
  { apply wp_ret. by rewrite app_nil_r. }
  pose proof (log_cost_app log (c :: cs)) as Happ. cbn in Happ. pose proof (command_cost_pos c).
  pose proof (log_cost_nonneg cs). unfold log_cost in H0. pose proof (len_nonneg cs).
  apply wp_bind. eapply wp_mono; [|apply wp_command; [exact D|lens; lia|done|lia]].
  cbv beta. intros _ m' D'. specialize (IH (log ++ [c]) m' D'). rewrite <- app_assoc in IH. by apply IH.
Qed.

(** ** Two sides *)

(** A side: its actor, how many of the peer's frames it has read, its log. *)
Record Endpoint : Type := mkEnd { en_mux : Mux; en_got : nat; en_log : list MuxCommand }.
Definition end_start : Endpoint := mkEnd Mux_start 0 [].

Inductive NetAction : Type := Issue (cmd : MuxCommand) (more : list MuxCommand) | Receive | Wait.

(** A turn of one side's [run_mux]: the next frame of the peer, if there is one,
    or commands of its handles.  [None] if the actor stops or panics. *)
Definition endpoint_turn (act : NetAction) (me peer : Endpoint) : option Endpoint :=
  let turn ev got log :=
    match mux_turn None ev (en_mux me) with
    | (Ok true, m) => Some (mkEnd m got log)
    | _ => None
    end in
  match act with
  | Issue cmd more => turn (Some (Commands cmd more)) (en_got me) (en_log me ++ cmd :: more)
  | Receive =>
      match mx_written (en_mux peer) !! en_got me with
      | Some data => turn (Some (ReadFrame data)) (Datatypes.S (en_got me)) (en_log me)
      | None => turn None (en_got me) (en_log me)
      end
  | Wait => turn None (en_got me) (en_log me)
  end.

Definition Net : Type := Endpoint * Endpoint.
Definition net_step (n : Net) (a : bool * NetAction) : option Net :=
  if a.1 then l ← endpoint_turn a.2 n.1 n.2; Some (l, n.2)
  else r ← endpoint_turn a.2 n.2 n.1; Some (n.1, r).
Fixpoint net_run (acts : list (bool * NetAction)) (n : Net) : option Net :=
  match acts with
  | [] => Some n
  | a :: acts => n ← net_step n a; net_run acts n
  end.

(** The commands a script gives to one side. *)
Definition issued (b : bool) (acts : list (bool * NetAction)) : list MuxCommand :=
  acts ≫= fun a => match a.2 with Issue c more => if bool_decide (a.1 = b) then c :: more else [] | _ => [] end.
Definition script_ok (log : list MuxCommand) : Prop :=
  Forall command_ok log /\ len log < 2 ^ 32 - 1 /\ log_cost log < 2 ^ 63.
#[global] Instance script_ok_dec log : Decision (script_ok log).
Proof. unfold script_ok. apply _. Defined.

(** ** Handlers write nothing themselves *)

Definition Keeps {A} (f : MuxM A) : Prop := forall m, mx_written (f m).2 = mx_written m.
Create HintDb keeps.

Lemma Keeps_bind {A B} (f : MuxM A) (g : A -> MuxM B) : Keeps f -> (forall a, Keeps (g a)) -> Keeps (f ≫= g).
Proof.
  intros Hf Hg m. unfold mbind, M_bind. specialize (Hf m). destruct (f m) as [[a|e|] m']; cbn in *; [|done..].
  by rewrite Hg.
Qed.
Lemma Keeps_for {A} (l : list A) f : (forall a, Keeps (f a)) -> Keeps (for_m l f).
Proof. intros Hf. induction l as [|a l IH]; cbn [for_m]; [done|]. by apply Keeps_bind. Qed.
Lemma Keeps_try {A} (f : MuxM A) : Keeps f -> Keeps (try_m f).
Proof. intros H m. specialize (H m). unfold try_m. by destruct (f m) as [[a|e|] m']. Qed.
Lemma Keeps_index {A} (l : list A) i : Keeps (index l i).
Proof. intros m. unfold index. destruct (l !! _); [|done]. by destruct (0 <=? i). Qed.
Lemma Keeps_encoded o : Keeps (encoded o).
Proof. by destruct o. Qed.
Lemma Keeps_gets {A} (f : MuxState -> A) : Keeps (gets f).
Proof. done. Qed.
Lemma Keeps_update f : Keeps (update f).
Proof. done. Qed.
Lemma Keeps_local_at i : Keeps (local_at i).
Proof. apply Keeps_bind; [done|]. intros. apply Keeps_index. Qed.
Lemma Keeps_set_local i c : Keeps (set_local i c).
Proof. apply Keeps_bind; [apply Keeps_local_at|done]. Qed.

Ltac keeps := repeat first
  [ apply Keeps_bind; [|intros ?] | apply Keeps_for; intros ? | apply Keeps_try | apply Keeps_index
  | apply Keeps_encoded | apply Keeps_local_at | apply Keeps_set_local | apply Keeps_gets | apply Keeps_update
  | case_match | done ].

Lemma Keeps_create p id hs : Keeps (create_channel_internal p id hs).
Proof. unfold create_channel_internal, alloc_local_id, info_entry, adopt_remote, with_local, drain_pending. keeps. Qed.
Lemma Keeps_command c : Keeps (handle_command c).
Proof.
  destruct c; cbn [handle_command]; unfold send_message_internal, close_channel_internal, mark_closed, finish_close, handle_uncork;
    first [apply Keeps_bind; [apply Keeps_try, Keeps_create|done] | keeps].
Qed.

(** ** Turns *)

(** The state after the writes of a turn. *)
Definition flushed (m : Mux) : Mux :=
  mkMux (mx_state m) [] (mx_written m ++ mx_write_queue m) (mx_events m) (mx_responses m) (mx_queues m).

Lemma wp_flush m (Q : bool -> Mux -> Prop) : Q true (flushed m) -> wp (flush None) m Q.
Proof. intros HQ. unfold wp, flush, flushed in *. by rewrite firstn_all. Qed.

Lemma side_flushed log I m : side log I m -> side log I (flushed m).
Proof.
  intros [R S]. split; [by apply (reflects_core _ _ m)|].
  assert (said_frames (flushed m) = said_frames m) as Hf by (unfold said_frames, flushed; cbn; by rewrite app_nil_r).
  split; unfold said; rewrite ?Hf; apply S.
Qed.

Lemma wp_turn_commands log I m c more :
  side log I m -> Forall command_ok (c :: more) -> len (log ++ c :: more) < 2 ^ 32 -> log_cost (log ++ c :: more) < 2 ^ 63 ->
  wp (mux_turn None (Some (Commands c more))) m (fun ok m' =>
    ok = true /\ side (log ++ c :: more) I m' /\ mx_written m' = mx_written m ++ mx_write_queue m).
Proof.
  intros D Hok Hlen Hcost. apply wp_bind, wp_flush. cbn [select_arm]. apply wp_bind_assoc.
  assert (Keeps (for_m (c :: more) handle_command)) as Hk by (apply Keeps_for, Keeps_command).
  pose proof (wp_commands (c :: more) log I (flushed m) (side_flushed _ _ _ D) Hok Hlen Hcost) as H.
  apply wp_inv in H as ([] & m' & Hm & D'). specialize (Hk (flushed m)). rewrite Hm in Hk. cbn [for_m] in Hm.
  unfold wp at 1. rewrite Hm. by split_and!.
Qed.

Lemma decode_frame_nonempty data f : decode_frame data = Ok f -> len data <> 0.
Proof. unfold decode_frame. destruct (Z.eqb_spec (len data) 0); done. Qed.

Lemma wp_turn_read log I m data f :
  side log I m -> len log < 2 ^ 32 - 1 -> decode_frame data = Ok f -> plain f -> items_ok (I ++ frame_items f) ->
  wp (mux_turn None (Some (ReadFrame data))) m (fun ok m' =>
    ok = true /\ side log (I ++ frame_items f) m' /\ mx_written m' = mx_written m ++ mx_write_queue m).
Proof.
  intros D Hlen Hd Hp Hok. apply wp_bind, wp_flush. cbn [select_arm].
  rewrite (proj2 (Z.eqb_neq _ _)) by (by eapply decode_frame_nonempty).
  apply side_flushed in D as [R S]. pose proof (creations_len log). pose proof (keys_len log).
  destruct (wp_inv _ _ _ (wp_incoming _ _ _ data f R ltac:(lia) Hd Hp Hok)) as ([] & m' & Hm & R' & Ho).
  apply wp_bind. unfold wp at 1, try_m. rewrite Hm. split; [done|]. split.
  - split; [done|]. by apply (speaks_outputs log (flushed m)).
  - by injection Ho as _ -> _ _.
Qed.

Lemma wp_turn_wait log I m :
  side log I m -> wp (mux_turn None None) m (fun ok m' =>
    ok = true /\ side log I m' /\ mx_written m' = mx_written m ++ mx_write_queue m).
Proof. intros D. apply wp_bind, wp_flush, wp_ret. split; [done|]. split; [by apply side_flushed|done]. Qed.

(** ** The pair *)

(** What [me] has read of what [peer] wrote. *)
Definition heard (me peer : Endpoint) : list Item :=
  wire_items (take (en_got me) (mx_written (en_mux peer))).

Record half (me peer : Endpoint) : Prop := {
  hf_side : side (en_log me) (heard me peer) (en_mux me);
  hf_got : (en_got me <= length (mx_written (en_mux peer)))%nat
}.
Definition linked (n : Net) : Prop := half n.1 n.2 /\ half n.2 n.1.

Lemma linked_start : linked (end_start, end_start).
Proof. split; (split; [split; [apply reflects_start|apply speaks_start]|done]). Qed.

(** The peer's turn only adds to what there is to read. *)
Lemma half_extends me me' peer extra :
  half peer me -> mx_written (en_mux me') = mx_written (en_mux me) ++ extra -> half peer me'.
Proof.
  intros [D G] Hw. unfold heard in D. split; unfold heard; rewrite Hw.
  - by rewrite take_app_le by done.
  - rewrite length_app. lia.
Qed.

(** The next frame can be read. *)
Lemma half_next me peer data :
  half me peer -> half peer me -> mx_written (en_mux peer) !! en_got me = Some data ->
  exists f, decode_frame data = Ok f /\ plain f /\ items_ok (heard me peer ++ frame_items f) /\
    wire_items (take (Datatypes.S (en_got me)) (mx_written (en_mux peer))) = heard me peer ++ frame_items f.
Proof.
  intros H [[_ S] _] Hd. pose proof (sp_frames _ _ S) as Hf. unfold said_frames in Hf.
  apply Forall_app in Hf as [Hf _]. pose proof (proj1 (Forall_lookup _ _) Hf _ _ Hd) as (f & Hdf & Hp).
  assert (wire_items (take (Datatypes.S (en_got me)) (mx_written (en_mux peer))) = heard me peer ++ frame_items f) as E.
  { erewrite take_S_r by done. by rewrite wire_items_app, (wire_items_one _ _ Hdf). }
  exists f. split_and!; [done..| |done]. rewrite <- E. pose proof (sp_items _ _ S) as Hok.
  unfold said_frames in Hok. rewrite <- (take_drop (Datatypes.S (en_got me)) (mx_written _)), <- app_assoc, wire_items_app in Hok.
  by apply items_ok_app in Hok.
Qed.

Definition act_commands (a : NetAction) : list MuxCommand :=
  match a with Issue c more => c :: more | _ => [] end.

(** A turn succeeds, adds its commands to the log, and keeps the pair linked. *)
Lemma endpoint_turn_linked act me peer :
  half me peer -> half peer me -> script_ok (en_log me ++ act_commands act) ->
  exists me', endpoint_turn act me peer = Some me' /\ half me' peer /\ half peer me' /\
    en_log me' = en_log me ++ act_commands act.
Proof.
  intros H H' (Hok & Hlen & Hcost). pose proof H as [D G].
  assert (forall ev got log (m : Mux), wp (mux_turn None ev) (en_mux me) (fun ok m' =>
      ok = true /\ side log (wire_items (take got (mx_written (en_mux peer)))) m' /\
      mx_written m' = mx_written (en_mux me) ++ mx_write_queue (en_mux me)) ->
    (got <= length (mx_written (en_mux peer)))%nat -> log = en_log me ++ act_commands act ->
    exists me', match mux_turn None ev (en_mux me) with (Ok true, m) => Some (mkEnd m got log) | _ => None end = Some me' /\
      half me' peer /\ half peer me' /\ en_log me' = en_log me ++ act_commands act) as Hturn.
  { intros ev got log _ Hw Hg ->. apply wp_inv in Hw as (ok & m' & Hm & -> & D' & Hwr). rewrite Hm.
    eexists. split; [done|]. split; [by split|]. split; [by eapply half_extends|done]. }
  destruct act as [c more| |]; cbn [endpoint_turn act_commands] in *.
  - apply Forall_app in Hok as [_ Hok].
    eapply Hturn; [exact (en_mux me)| |done|done]. apply wp_turn_commands; [exact D|done|lia|done].
  - rewrite app_nil_r in *. destruct (mx_written (en_mux peer) !! en_got me) as [data|] eqn:Hd.
    + destruct (half_next me peer data H H' Hd) as (f & Hf & Hp & Hi & E).
      eapply Hturn; [exact (en_mux me)| | |done]; [rewrite E; by apply wp_turn_read|].
      apply lookup_lt_Some in Hd. lia.
    + eapply Hturn; [exact (en_mux me)|by apply wp_turn_wait|done|done].
  - rewrite app_nil_r in *. eapply Hturn; [exact (en_mux me)|by apply wp_turn_wait|done|done].
Qed.

Lemma script_ok_app a b : script_ok (a ++ b) -> script_ok a.
Proof.
  intros (H1 & H2 & H3). apply Forall_app in H1 as [H1 _]. rewrite log_cost_app in H3.
  pose proof (log_cost_nonneg b). lens. pose proof (len_nonneg b). split_and!; [done|lia|lia].
Qed.

Lemma issued_cons b a acts :
  issued b (a :: acts) = (if bool_decide (a.1 = b) then act_commands a.2 else []) ++ issued b acts.
Proof. unfold issued. cbn. f_equal. by destruct a as [c []]; cbn; destruct (bool_decide _). Qed.

Lemma net_run_linked acts n :
  linked n -> script_ok (en_log n.1 ++ issued true acts) -> script_ok (en_log n.2 ++ issued false acts) ->
  exists n', net_run acts n = Some n' /\ linked n' /\
    en_log n'.1 = en_log n.1 ++ issued true acts /\ en_log n'.2 = en_log n.2 ++ issued false acts.
Proof.
  revert n. induction acts as [|[b act] acts IH]; intros n [H1 H2] Hl Hr.
  { exists n. rewrite !app_nil_r. split_and!; done. }
  rewrite !issued_cons in *. cbn [fst snd] in *. unfold net_step. cbn [net_run fst snd].
  assert (bool_decide (true = true) = true /\ bool_decide (true = false) = false /\
    bool_decide (false = true) = false /\ bool_decide (false = false) = true) as (B1 & B2 & B3 & B4) by done.
  destruct b; rewrite ?B1, ?B2, ?B3, ?B4 in *; cbn [app] in *.
  - rewrite app_assoc in Hl.
    destruct (endpoint_turn_linked act _ _ H1 H2 (script_ok_app _ _ Hl)) as (l & Hn & Hh1 & Hh2 & Hlog).
    unfold net_step. cbn [fst snd]. rewrite Hn. cbn [mbind option_bind]. rewrite <- Hlog in Hl.
    destruct (IH (l, n.2)) as (n' & Hrun & Hk & E1 & E2); [done..|]. exists n'. cbn [fst snd] in *.
    split_and!; [done..| |done]. by rewrite E1, Hlog, <- app_assoc.
  - rewrite app_assoc in Hr.
    destruct (endpoint_turn_linked act _ _ H2 H1 (script_ok_app _ _ Hr)) as (r & Hn & Hh1 & Hh2 & Hlog).
    unfold net_step. cbn [fst snd]. rewrite Hn. cbn [mbind option_bind]. rewrite <- Hlog in Hr.
    destruct (IH (n.1, r)) as (n' & Hrun & Hk & E1 & E2); [done..|]. exists n'. cbn [fst snd] in *.
    split_and!; [done..|]. by rewrite E2, Hlog, <- app_assoc.
Qed.

(** ** What is due to a channel *)

(** The peer's channel paired with the [i]-th one: the one of the same rank
    among those of its key. *)
Definition counterpart (log peer_log : list MuxCommand) (i : nat) : option nat :=
  k ← keys log !! i; positions k (keys peer_log) !! rank (keys log) i.
(** Its opening, with its handshake, then what is sent on it, in order. *)
Definition due (log peer_log : list MuxCommand) (i : nat) : list ChannelEvent :=
  match counterpart log peer_log i with
  | Some j =>
      EvOpened (c ← creations peer_log !! j; buffer_norm c.2) ::
      (message_event <$> sends (Z.of_nat j + 1) 0 peer_log)
  | None => []
  end.

Lemma openers_openings k I :
  openers k I = omap (fun o : Z * string * option (list Z) => if decide (o.1.2 = k) then Some o.1.1 else None) (openings I).
Proof. induction I as [|[r k' hs|] I IH]; [done| |done]. cbn. unfold openers in IH. case_decide; by rewrite IH. Qed.
Lemma handshake_openings r I :
  handshake_of r I = default None (head (omap (fun o : Z * string * option (list Z) =>
    if decide (o.1.1 = r) then Some o.2 else None) (openings I))).
Proof. unfold handshake_of. f_equal. f_equal. induction I as [|[r' k hs|] I IH]; [done| |done]. cbn. case_decide; by rewrite IH. Qed.

Lemma log_openers k log I :
  openings I = log_openings log -> openers k I = (fun j => Z.of_nat j + 1) <$> positions k (keys log).
Proof.
  intros H. rewrite openers_openings, H. unfold log_openings, keys. clear H.
  induction (creations log) as [|c L IH] using rev_ind; [done|].
  rewrite imap_app, omap_app, IH, fmap_app. cbn. rewrite positions_snoc, fmap_app, length_fmap, Nat.add_0_r.
  f_equal. by case_decide.
Qed.

Lemma log_handshake log I j :
  openings I = log_openings log -> (j < length (creations log))%nat ->
  handshake_of (Z.of_nat j + 1) I = c ← creations log !! j; buffer_norm c.2.
Proof.
  intros H. rewrite handshake_openings, H. unfold log_openings. clear H. set (f := fun o => if decide _ then _ else _).
  assert (forall L, (length L <= j)%nat ->
    omap f (imap (fun i c => (Z.of_nat i + 1, creation_key c, buffer_norm c.2)) L) = []) as Hnone.
  { intros L. induction L as [|c L IH] using rev_ind; [done|]. rewrite length_app. cbn. intros HL.
    rewrite imap_app, omap_app, IH by lia. cbn. unfold f. cbn. by rewrite decide_False by lia. }
  induction (creations log) as [|c L IH] using rev_ind; cbn [length]; [lia|]. rewrite length_app. cbn. intros Hj.
  rewrite imap_app, omap_app. destruct (decide (j < length L)%nat) as [Hlt|].
  - rewrite lookup_app_l, <- IH by done. f_equal. destruct (omap f _) eqn:E; [|done].
    destruct (lookup_lt_is_Some_2 L j Hlt) as [c0 Hc0]. exfalso.
    eapply (not_elem_of_nil (buffer_norm c0.2)). rewrite <- E. apply list_elem_of_omap.
    exists (Z.of_nat j + 1, creation_key c0, buffer_norm c0.2). split; [|unfold f; cbn; by rewrite decide_True].
    apply elem_of_lookup_imap. by exists j, c0.
  - rewrite Hnone by lia. assert (j = length L) as -> by lia. rewrite lookup_app_r, Nat.sub_diag by lia. cbn.
    unfold f. cbn. by rewrite Nat.add_0_r, decide_True.
Qed.

Lemma wire_items_prefix a b : a `prefix_of` b -> wire_items a `prefix_of` wire_items b.
Proof. intros [c ->]. rewrite wire_items_app. by eexists. Qed.

Lemma heard_said me peer : heard me peer `prefix_of` wire_items (said_frames (en_mux peer)).
Proof. apply wire_items_prefix. unfold said_frames. transitivity (mx_written (en_mux peer)); [apply prefix_take|by eexists]. Qed.

Lemma messages_prefix r I J : I `prefix_of` J -> messages r I `prefix_of` messages r J.
Proof. intros [K ->]. rewrite messages_app. by eexists. Qed.
Lemma openers_prefix k I J : I `prefix_of` J -> openers k I `prefix_of` openers k J.
Proof. intros [K ->]. rewrite openers_app. by eexists. Qed.

(** Nothing of [peer] is still queued, batched or unread. *)
Definition settled (me peer : Endpoint) : Prop :=
  mx_write_queue (en_mux peer) = [] /\ ms_batch (mx_state (en_mux peer)) = [] /\
  en_got me = length (mx_written (en_mux peer)).
#[global] Instance settled_dec me peer : Decision (settled me peer).
Proof. unfold settled. apply _. Defined.

Lemma heard_all me peer : settled me peer -> heard me peer = said (en_mux peer).
Proof.
  intros (Hq & Hb & Hg). unfold heard, said, said_frames. rewrite Hg, Hq, Hb, firstn_all. cbn. by rewrite !app_nil_r.
Qed.

Lemma half_events me peer i :
  half me peer -> half peer me ->
  events_of i (en_mux me) `prefix_of` due (en_log me) (en_log peer) i /\
  (settled me peer -> events_of i (en_mux me) = due (en_log me) (en_log peer) i).
Proof.
  intros [[R _] _] [[_ S] _]. pose proof (heard_said me peer) as Hpre. pose proof (sp_openings _ _ S) as Ho.
  set (J := wire_items (said_frames (en_mux peer))) in *.
  assert (forall r, messages r (heard me peer) `prefix_of` sends r 0 (en_log peer)) as Hmsg.
  { intros r. rewrite <- (sp_messages _ _ S). apply messages_prefix. transitivity J; [done|by eexists]. }
  rewrite (rf_events _ _ _ R i). unfold told, due, counterpart, partner.
  destruct (keys (en_log me) !! i) as [k|]; cbn [mbind option_bind]; [|by split].
  pose proof (log_openers k _ _ Ho) as HJ. set (q := rank (keys (en_log me)) i).
  assert (settled me peer -> openers k (heard me peer) = openers k J) as Hall.
  { intros Hset. rewrite heard_all by done. unfold said. fold J.
    rewrite openers_app, (openers_openings k (batch_items _)), batch_messages_only. by rewrite app_nil_r. }
  destruct (openers k (heard me peer) !! q) as [r|] eqn:Hr.
  - assert (openers k J !! q = Some r) as HrJ by (eapply prefix_lookup_Some; [exact Hr|by apply openers_prefix]).
    rewrite HJ, list_lookup_fmap in HrJ. destruct (positions k (keys (en_log peer)) !! q) as [j|] eqn:Hj; [|done].
    cbn in HrJ. injection HrJ as <-.
    assert (handshake_of (Z.of_nat j + 1) (heard me peer) = c ← creations (en_log peer) !! j; buffer_norm c.2) as ->.
    { rewrite <- (log_handshake _ J) by (done || (apply list_elem_of_lookup_2, positions_lt in Hj; unfold keys in Hj; by rewrite length_fmap in Hj)).
      destruct Hpre as [K ->]. symmetry. apply handshake_of_app. eapply openers_opened, list_elem_of_lookup_2, Hr. }
    split.
    { apply prefix_cons. destruct (Hmsg (Z.of_nat j + 1)) as [l ->]. rewrite fmap_app. by eexists. } intros Hset. do 2 f_equal.
    rewrite heard_all by done. apply (sp_messages _ _ S).
  - split; [apply prefix_nil|]. intros Hset. rewrite (Hall Hset), HJ, list_lookup_fmap in Hr.
    by destruct (positions k (keys (en_log peer)) !! q).
Qed.
