(* ===== verification/ProtomuxTheorems.v ===== *)
(** * ProtomuxTheorems: what the multiplexer guarantees, and where it fails

    Two multiplexers whose handles stay open pair their channels by key, in
    order, and deliver every message once and in order; frames round-trip; the
    decoder panics on one kind of frame only.  Closing is where the source goes
    wrong: a reject can bring the actor down, and an identifier can be freed
    twice, or reused while the peer's old channel still points at it. *)

From S2P Require Import Prelude RustStd Persistent CompactEncoding Codec Protomux ProtomuxWire ProtomuxProofs ProtomuxNet.

#[local] Open Scope Z_scope.

(** C12: two multiplexers over one connection.  Take any interleaving of turns of
    the two actors, each turn reading the peer's next frame, running commands of
    its handles (creating channels, sending, corking and uncorking, but not
    closing) or only writing what it has queued.  No turn panics or stops an
    actor.  At every moment what a channel's handle has been told is a prefix of
    what is due to it: nothing if the peer has not created the channel of the
    same rank under the same key, otherwise that channel's opening with its
    handshake, then every message sent on it, once and in order, whether it was
    sent before or after the channel was created here, corked or not.  Once
    nothing of the peer is queued, batched or unread, it is exactly that. *)
Theorem mux_channels_deliver (acts : list (bool * NetAction)) :
  script_ok (issued true acts) -> script_ok (issued false acts) ->
  exists l r, net_run acts (end_start, end_start) = Some (l, r) /\
    en_log l = issued true acts /\ en_log r = issued false acts /\
    forall i,
      events_of i (en_mux l) `prefix_of` due (en_log l) (en_log r) i /\
      events_of i (en_mux r) `prefix_of` due (en_log r) (en_log l) i /\
      (settled l r -> events_of i (en_mux l) = due (en_log l) (en_log r) i) /\
      (settled r l -> events_of i (en_mux r) = due (en_log r) (en_log l) i).
Proof.
  intros Hl Hr.
  destruct (net_run_linked acts (end_start, end_start) linked_start Hl Hr) as ([l r] & Hrun & [H1 H2] & El & Er).
  cbn [fst snd] in *. exists l, r. split; [done|]. split; [done|]. split; [done|]. intros i.
  destruct (half_events l r i H1 H2). destruct (half_events r l i H2 H1). done.
Qed.

(** Frames round-trip.  An open, close, reject or data frame, or a batch
    over any sequence of channels, whose identifiers are [u64] and whose batch
    items are not empty, is encoded without a panic, and the decoder returns it
    from the bytes, up to an empty identifier or handshake, which reads back as
    an absent one. *)
Theorem mux_frame_roundtrip f :
  frame_valid f ->
  exists bs, encode_frame f = Ok bs /\ (fits bs -> decode_frame bs = Ok (frame_norm f)).
Proof.
  intros Hf. exists (wire_frame f). split; [by apply encode_frame_wire|by apply decode_wire_frame].
Qed.

(** The frame decoder on arbitrary bytes.  It returns a frame whose
    identifiers are [u64] (not 0 on a data frame) and whose optional fields and
    batch items are not empty, or an error.  It panics only when the buffer
    holds a length that, added to its position, does not fit 64 bits. *)
Theorem mux_decode_safe data :
  bytes_ok data -> len data < 2 ^ 63 ->
  match decode_frame data with
  | Ok f => frame_typed f
  | Err _ => True
  | Panic => overlong data
  end.
Proof. apply decode_frame_safely. Qed.

(** A reject for a channel that was never made brings the actor down.
    Whatever its state, on a reject whose channel, taken as a [u32], is 0 or
    above the number of channels made, the actor panics: it clears the slot
    without looking whether it exists.  The peer chooses that number. *)
Theorem mux_reject_panics (m : Mux) (id : Z) :
  in_u 64 id -> len (ms_local (mx_state m)) < 2 ^ 32 ->
  as_u32 id = 0 \/ len (ms_local (mx_state m)) < as_u32 id ->
  exists bs, encode_reject id = Ok bs /\ (handle_incoming_frame bs m).1 = Panic.
Proof.
  intros Hid Hlen Hr. exists ([0; 2] ++ wire_uint id). split; [by apply encode_short_wire|].
  unfold handle_incoming_frame. rewrite (decode_short_wire CTRL_REJECT) by (done || by right).
  change (CTRL_REJECT =? CTRL_CLOSE) with false. cbv iota. erewrite bind_ok by done.
  set (i := as_u32 (as_u32 id - 1)).
  assert (len (ms_local (mx_state m)) <= i) as Hi.
  { unfold i. destruct Hr as [-> |Hr]; [change (as_u32 (0 - 1)) with (2 ^ 32 - 1); lia|].
    pose proof (as_u_range 32 id ltac:(lia)) as H32. fold (as_u32 id) in H32. pose proof (len_nonneg (ms_local (mx_state m))).
    unfold as_u32 at 1. rewrite as_u_id; unfold in_u in *; lia. }
  assert (ms_local (mx_state m) !! Z.to_nat i = None) as Hnone by (apply lookup_ge_None; unfold len in Hi; lia).
  cbn [handle_control]. unfold handle_remote_reject. fold i.
  assert (get_local i m = (Ok None, m)) as Hg by (unfold get_local, gets; cbv beta; by rewrite Hnone).
  erewrite bind_ok by exact Hg. cbv beta iota.
  erewrite bind_ok by done. erewrite bind_panic; [done|]. apply bind_panic.
  unfold local_at. erewrite bind_ok by done. unfold index. by rewrite Hnone.
Qed.

(** Channels are paired by key, and the key separates them: two channels have
    one key exactly when they have the same protocol and identifier, an empty
    identifier being none. *)
Theorem mux_keys_separate p id p' id' :
  opt_ok bytes_ok id -> opt_ok bytes_ok id' ->
  channel_key p id = channel_key p' id' <-> p = p' /\ buffer_norm id = buffer_norm id'.
Proof. apply channel_key_inj. Qed.

Module MuxExamples.
Definition bytes (s : string) : list Z := string_bytes s.

(** Left creates a channel, sends corked and uncorked; right creates its side
    of it late, and another channel of its own; both read everything. *)
Definition script : list (bool * NetAction) :=
  [(true, Issue (CreateChannel "chat" (Some (bytes "x")) (Some [7]) 0) []);
   (true, Issue Cork [SendMessage 1 0 [1]; SendMessage 1 300 [2; 3]]);
   (false, Issue (CreateChannel "blob" None None 1) []);
   (true, Issue Uncork [SendMessage 1 1 []]);
   (true, Wait); (false, Receive); (false, Receive); (false, Receive);
   (false, Issue (CreateChannel "chat" (Some (bytes "x")) None 2) [SendMessage 2 9 [4]]);
   (false, Wait); (true, Receive); (true, Receive); (true, Receive)].

Definition check_end : bool :=
  match net_run script (end_start, end_start) with
  | Some (l, r) =>
      bool_decide (settled l r) && bool_decide (settled r l) &&
      match events_of 1 (en_mux r), events_of 0 (en_mux l), events_of 0 (en_mux r) with
      | [EvOpened (Some [7]); EvMessage 0 [1]; EvMessage 300 [2; 3]; EvMessage 1 []],
        [EvOpened None; EvMessage 9 [4]], [] => true
      | _, _, _ => false
      end
  | None => false
  end.

Definition a_batch : DecodedFrame :=
  Batch [mkItem 1 [0; 5]; mkItem 1 [1; 6]; mkItem 300 [0]; mkItem 1 [2]].
(** A batch whose item claims 2^64 - 1 bytes. *)
Definition overlong_frame : list Z := [0; 0; 1] ++ replicate 9 255.
(** *** Closing *)

Definition feed (steps : list MuxEvent) : outcome ProtomuxError bool * Mux :=
  run_mux ((None,.) <$> steps) Mux_start.
Definition frame_of (f : DecodedFrame) : MuxEvent := ReadFrame (wire_frame f).
Definition cmd (c : MuxCommand) : MuxEvent := Commands c [].

(** The peer rejects a channel, and its handle, told that it is closed, is
    closed: the identifier is freed twice, and the next two channels share it. *)
Definition rejected_then_closed : list MuxEvent :=
  [cmd (CreateChannel "a" None None 0); frame_of (Control (FReject 1)); cmd (CloseChannel 1);
   cmd (CreateChannel "b" None None 1); cmd (CreateChannel "c" None None 2)].
Example freed_twice :
  mx_responses (feed rejected_then_closed).2 =
  [(0, inr (mkHandle 1 0)); (1, inr (mkHandle 1 1)); (2, inr (mkHandle 1 2))].
Proof. vm_compute. reflexivity. Qed.

(** A channel is closed while the peer still sends on it; its identifier goes
    to a channel of another protocol, which is told the old channel's message. *)
Definition reused_while_open : list MuxEvent :=
  [cmd (CreateChannel "a" None None 0); frame_of (Control (FOpen 1 "a" None None));
   cmd (CloseChannel 1); cmd (CreateChannel "b" None None 1);
   frame_of (Control (FOpen 2 "b" None None)); frame_of (Message 1 0 [42])].
Example message_misdelivered :
  events_of 1 (feed reused_while_open).2 = [EvOpened None; EvMessage 0 [42]].
Proof. vm_compute. reflexivity. Qed.

(** A channel closed before the peer opened it stays queued under its key: the
    channel that reuses its identifier is opened under the old key. *)
Definition closed_before_paired : list MuxEvent :=
  [cmd (CreateChannel "a" None None 0); cmd (CloseChannel 1); cmd (CreateChannel "b" None None 1);
   frame_of (Control (FOpen 1 "a" None (Some [9])))].
Example opened_by_stranger :
  events_of 1 (feed closed_before_paired).2 = [EvOpened (Some [9])].
Proof. vm_compute. reflexivity. Qed.

(** The peer closes a channel that was not paired yet: it stays queued, and a
    channel created later is told that it is open. *)
Definition closed_by_peer : list MuxEvent :=
  [frame_of (Control (FOpen 1 "a" None None)); frame_of (Control (FClose 1)); cmd (CreateChannel "a" None None 0)].
Example opened_with_nobody :
  events_of 0 (feed closed_by_peer).2 = [EvOpened None] /\ ms_remote (mx_state (feed closed_by_peer).2) = [None].
Proof. by vm_compute. Qed.

(** A close while corked overtakes the messages sent before it. *)
Definition corked_close : list MuxEvent :=
  [cmd (CreateChannel "a" None None 0); Commands Cork [SendMessage 1 0 [1]; CloseChannel 1; Uncork]].
Example close_overtakes :
  drop 1 (mx_written (feed corked_close).2) =
  [wire_frame (Control (FClose 1)); wire_frame (Batch [mkItem 1 [0; 1]])].
Proof. vm_compute. reflexivity. Qed.
End MuxExamples.

Lemma mux_channels_deliver_witness :
  script_ok (issued true MuxExamples.script) /\ script_ok (issued false MuxExamples.script) /\ MuxExamples.check_end = true /\
  exists l r, net_run MuxExamples.script (end_start, end_start) = Some (l, r) /\
    events_of 1 (en_mux r) `prefix_of` due (issued false MuxExamples.script) (issued true MuxExamples.script) 1.
Proof.
  assert (script_ok (issued true MuxExamples.script)) as Hl by (apply (bool_decide_unpack _); vm_compute; exact Logic.I).
  assert (script_ok (issued false MuxExamples.script)) as Hr by (apply (bool_decide_unpack _); vm_compute; exact Logic.I).
  split; [exact Hl|]. split; [exact Hr|]. split; [vm_compute; reflexivity|].
  destruct (mux_channels_deliver MuxExamples.script Hl Hr) as (l & r & Hrun & El & Er & H).
  exists l, r. split; [exact Hrun|]. rewrite <- El, <- Er. apply (proj1 (proj2 (H 1%nat))).
Defined.

Lemma mux_frame_roundtrip_witness :
  frame_valid MuxExamples.a_batch /\ exists bs, encode_frame MuxExamples.a_batch = Ok bs /\ (fits bs -> decode_frame bs = Ok MuxExamples.a_batch).
Proof.
  assert (frame_valid MuxExamples.a_batch) as H by (apply (bool_decide_unpack _); vm_compute; exact Logic.I).
  split; [exact H|]. exact (mux_frame_roundtrip MuxExamples.a_batch H).
Defined.

Lemma mux_decode_safe_witness :
  bytes_ok MuxExamples.overlong_frame /\ decode_frame MuxExamples.overlong_frame = Panic /\ overlong MuxExamples.overlong_frame.
Proof.
  assert (bytes_ok MuxExamples.overlong_frame) as Hb by (apply (bool_decide_unpack _); vm_compute; exact Logic.I).
  assert (len MuxExamples.overlong_frame < 2 ^ 63) as Hl by reflexivity.
  assert (decode_frame MuxExamples.overlong_frame = Panic) as Hp by (vm_compute; reflexivity).
  split; [exact Hb|]. split; [exact Hp|].
  pose proof (mux_decode_safe MuxExamples.overlong_frame Hb Hl) as H. rewrite Hp in H. exact H.
Defined.

Lemma mux_reject_panics_witness :
  exists bs, encode_reject 0 = Ok bs /\ (handle_incoming_frame bs Mux_start).1 = Panic.
Proof.
  apply (mux_reject_panics Mux_start 0); [by vm_compute|by vm_compute|left; vm_compute; reflexivity].
Defined.
