(* ===== verification/BlindRelay.v ===== *)
(** * BlindRelay: the relay protocol and its pairing engine
    ([peeroxide-dht/src/blind_relay.rs], [peeroxide-dht/src/relay_service.rs])

    The tables behind the mutexes and the atomic counters are one state; each
    method takes its locks once, so a method is one step on it.  A session's
    outbound channel is named by a number; what a step sends on those channels
    and which teardown senders it fires is its output.  The clock is an
    argument, in milliseconds. *)

From S2P Require Import Prelude RustStd CompactEncoding Codec HyperdhtWire Protomux.

#[local] Open Scope Z_scope.

(** ** Messages *)

Record PairMessage := mkPair { pr_is_initiator : bool; pr_token : list Z; pr_id : Z; pr_seq : Z }.
Record UnpairMessage := mkUnpair { up_token : list Z }.

Definition PROTOCOL_NAME : string := "blind-relay".
Definition MSG_TYPE_PAIR : Z := 0.
Definition MSG_TYPE_UNPAIR : Z := 1.

Definition preencode_pair (s : State) (msg : PairMessage) : State :=
  preencode_uint (preencode_uint (grow 32 (grow 1 s)) (pr_id msg)) (pr_seq msg).
Definition encode_pair (msg : PairMessage) : Enc unit :=
  let flags := if pr_is_initiator msg then 1 else 0 in
  encode_uint8 flags ;; encode_fixed32 (pr_token msg) ;; encode_uint (pr_id msg) ;; encode_uint (pr_seq msg).
Definition decode_pair : Enc PairMessage :=
  flags ← decode_uint8;
  let is_initiator := negb (Z.land flags 1 =? 0) in
  token ← decode_fixed32; id ← decode_uint; seq ← decode_uint;
  mret (mkPair is_initiator token id seq).

Definition preencode_unpair (s : State) (_msg : UnpairMessage) : State := grow 32 (grow 1 s).
Definition encode_unpair (msg : UnpairMessage) : Enc unit := encode_uint8 0 ;; encode_fixed32 (up_token msg).
Definition decode_unpair : Enc UnpairMessage :=
  _ ← decode_uint8; token ← decode_fixed32; mret (mkUnpair token).

Definition encode_pair_to_vec (msg : PairMessage) : outcome EncodingError (list Z) :=
  to_bytes (fun s => preencode_pair s msg) (encode_pair msg).
Definition encode_unpair_to_vec (msg : UnpairMessage) : outcome EncodingError (list Z) :=
  to_bytes (fun s => preencode_unpair s msg) (encode_unpair msg).
Definition decode_pair_from_slice (data : list Z) : outcome EncodingError PairMessage := from_bytes decode_pair data.
Definition decode_unpair_from_slice (data : list Z) : outcome EncodingError UnpairMessage :=
  from_bytes decode_unpair data.

(** ** The client's wait for a response, over the events of its channel *)

Inductive RelayError := RlEncoding (e : EncodingError) | RlChannelClosed.

(** [None]: still waiting when the events are over. *)
Fixpoint BlindRelayClient_wait_pair (is_initiator : bool) (token : list Z) (events : list (option ChannelEvent))
    : option (outcome RelayError Z) :=
  match events with
  | [] => None
  | Some (EvMessage message_type data) :: events =>
      if message_type =? MSG_TYPE_PAIR then
        match decode_pair_from_slice data with
        | Err e => Some (Err (RlEncoding e))
        | Panic => Some Panic
        | Ok response =>
            if bool_decide (pr_token response = token) && eqb (pr_is_initiator response) is_initiator
            then Some (Ok (pr_id response))
            else BlindRelayClient_wait_pair is_initiator token events
        end
      else BlindRelayClient_wait_pair is_initiator token events
  | Some (EvClosed _) :: _ => Some (Err RlChannelClosed)
  | None :: _ => Some (Err RlChannelClosed)
  | Some (EvOpened _) :: events => BlindRelayClient_wait_pair is_initiator token events
  end.

(** The bytes [pair] and [unpair] send on the channel. *)
Definition BlindRelayClient_pair (is_initiator : bool) (token : list Z) (stream_id : Z)
    : outcome EncodingError (list Z) :=
  encode_pair_to_vec (mkPair is_initiator token stream_id 0).
Definition BlindRelayClient_unpair (token : list Z) : outcome EncodingError (list Z) :=
  encode_unpair_to_vec (mkUnpair token).

(** ** The server *)

Record BlindRelayServerConfig := mkRelayConfig {
  rc_max_sessions : Z;
  rc_max_pairings_per_session : Z;
  rc_pairing_timeout : Z;
  rc_idle_session_timeout : Z
}.
Definition BlindRelayServerConfig_default : BlindRelayServerConfig :=
  mkRelayConfig 10000 256 (300 * 1000) (600 * 1000).

(** The stream counters of [RelayStats] are never written. *)
Record RelayStats := mkStats {
  rt_sessions_accepted : Z;
  rt_sessions_active : Z;
  rt_pairings_requested : Z;
  rt_pairings_matched : Z;
  rt_pairings_cancelled : Z;
  rt_pairings_pending : Z;
  rt_pairings_active : Z
}.
Definition RelayStats_default : RelayStats := mkStats 0 0 0 0 0 0 0.

Record MatchedSide := mkSide {
  ms_session_id : Z;
  ms_is_initiator : bool;
  ms_client_stream_id : Z;
  ms_outbound_tx : Z
}.
Record MatchedPairing := mkMatched { mp_token : list Z; mp_first : MatchedSide; mp_second : MatchedSide }.

Inductive SessionOutbound :=
| PairMatched (token : list Z) (is_initiator : bool) (local_stream_id : Z)
| OutClose.

Inductive PairOutcome := PoPending | PoAlreadyPairing | PoMatched (m : MatchedPairing) | PoLimitExceeded.
Inductive UnpairOutcome := UoCancelled | UoDestroyed | UoNotFound.

Record PendingLink := mkLink {
  pl_session_id : Z;
  pl_is_initiator : bool;
  pl_client_stream_id : Z;
  pl_outbound_tx : Z;
  pl_created_at : Z
}.
(** [links], indexed by [usize::from(is_initiator)]. *)
Record PendingPairing := mkPending { links0 : option PendingLink; links1 : option PendingLink }.
Record ActivePairing := mkActive { ap_session_ids : Z * Z; ap_teardown_tx : Z }.

Record ServerState := mkServer {
  sv_config : BlindRelayServerConfig;
  sv_pairing : gmap (list Z) PendingPairing;
  sv_active : gmap (list Z) ActivePairing;
  sv_session_count : Z;
  sv_next_session_id : Z;
  sv_activity : gmap Z Z;
  sv_outbound : gmap Z Z;
  sv_stats : RelayStats
}.

Definition PendingPairing_empty : PendingPairing := mkPending None None.
Definition PendingPairing_slot (p : PendingPairing) (is_initiator : bool) : option PendingLink :=
  if is_initiator then links1 p else links0 p.
Definition set_slot (is_initiator : bool) (l : option PendingLink) (p : PendingPairing) : PendingPairing :=
  if is_initiator then mkPending (links0 p) l else mkPending l (links1 p).
Definition all_none (p : PendingPairing) : bool :=
  match links0 p, links1 p with None, None => true | _, _ => false end.

(** Field updates. *)
Definition set_pairing m s := mkServer (sv_config s) m (sv_active s) (sv_session_count s) (sv_next_session_id s)
  (sv_activity s) (sv_outbound s) (sv_stats s).
Definition set_active m s := mkServer (sv_config s) (sv_pairing s) m (sv_session_count s) (sv_next_session_id s)
  (sv_activity s) (sv_outbound s) (sv_stats s).
Definition set_sessions count next s := mkServer (sv_config s) (sv_pairing s) (sv_active s) count next
  (sv_activity s) (sv_outbound s) (sv_stats s).
Definition set_activity m s := mkServer (sv_config s) (sv_pairing s) (sv_active s) (sv_session_count s)
  (sv_next_session_id s) m (sv_outbound s) (sv_stats s).
Definition set_outbound m s := mkServer (sv_config s) (sv_pairing s) (sv_active s) (sv_session_count s)
  (sv_next_session_id s) (sv_activity s) m (sv_stats s).
Definition set_stats t s := mkServer (sv_config s) (sv_pairing s) (sv_active s) (sv_session_count s)
  (sv_next_session_id s) (sv_activity s) (sv_outbound s) t.

(** The counters wrap around: [AtomicU64] and [AtomicI64]. *)
Definition add_sessions n t := mkStats (as_u64 (rt_sessions_accepted t + Z.max 0 n)) (as_i64 (rt_sessions_active t + n))
  (rt_pairings_requested t) (rt_pairings_matched t) (rt_pairings_cancelled t) (rt_pairings_pending t) (rt_pairings_active t).
Definition add_requested t := mkStats (rt_sessions_accepted t) (rt_sessions_active t)
  (as_u64 (rt_pairings_requested t + 1)) (rt_pairings_matched t) (rt_pairings_cancelled t) (rt_pairings_pending t)
  (rt_pairings_active t).
Definition add_pending n t := mkStats (rt_sessions_accepted t) (rt_sessions_active t)
  (rt_pairings_requested t) (rt_pairings_matched t) (rt_pairings_cancelled t) (as_i64 (rt_pairings_pending t + n))
  (rt_pairings_active t).
Definition add_cancelled n t := mkStats (rt_sessions_accepted t) (rt_sessions_active t)
  (rt_pairings_requested t) (rt_pairings_matched t) (as_u64 (rt_pairings_cancelled t + n)) (rt_pairings_pending t)
  (rt_pairings_active t).
Definition add_matched t := mkStats (rt_sessions_accepted t) (rt_sessions_active t)
  (rt_pairings_requested t) (as_u64 (rt_pairings_matched t + 1)) (rt_pairings_cancelled t) (rt_pairings_pending t)
  (rt_pairings_active t).
Definition add_active n t := mkStats (rt_sessions_accepted t) (rt_sessions_active t)
  (rt_pairings_requested t) (rt_pairings_matched t) (rt_pairings_cancelled t) (rt_pairings_pending t)
  (as_i64 (rt_pairings_active t + n)).
Definition upd_stats f s := set_stats (f (sv_stats s)) s.

Definition BlindRelayServer_new (config : BlindRelayServerConfig) : ServerState :=
  mkServer config ∅ ∅ 0 1 ∅ ∅ RelayStats_default.

(** [last.elapsed()], which saturates. *)
Definition elapsed (now t : Z) : Z := Z.max 0 (now - t).

Definition try_accept_session (s : ServerState) : option Z * ServerState :=
  if rc_max_sessions (sv_config s) <=? sv_session_count s then (None, s)
  else (Some (sv_next_session_id s),
        upd_stats (add_sessions 1)
          (set_sessions (as_u64 (sv_session_count s + 1)) (as_u64 (sv_next_session_id s + 1)) s)).

Definition touch_session (now session_id : Z) (s : ServerState) : ServerState :=
  set_activity (<[session_id := now]> (sv_activity s)) s.
Definition register_session (now session_id outbound_tx : Z) (s : ServerState) : ServerState :=
  touch_session now session_id (set_outbound (<[session_id := outbound_tx]> (sv_outbound s)) s).

(** [slot.as_ref().is_some_and(|l| l.session_id == session_id)] clears the slot. *)
Definition owned (session_id : Z) (l : option PendingLink) : bool :=
  match l with Some l => pl_session_id l =? session_id | None => false end.
Definition clear_links (session_id : Z) (p : PendingPairing) : PendingPairing :=
  mkPending (if owned session_id (links0 p) then None else links0 p)
    (if owned session_id (links1 p) then None else links1 p).
Definition touches (session_id : Z) (p : PendingPairing) : bool :=
  owned session_id (links0 p) || owned session_id (links1 p).

(** The closures of [retain]: [None] removes the entry. *)
Definition retain_pending (session_id : Z) (p : PendingPairing) : option PendingPairing :=
  let p' := clear_links session_id p in
  if touches session_id p && all_none p' then None else Some p'.
Definition retain_active (session_id : Z) (p : ActivePairing) : option ActivePairing :=
  if (fst (ap_session_ids p) =? session_id) || (snd (ap_session_ids p) =? session_id) then None else Some p.

Definition release_session (session_id : Z) (s : ServerState) : ServerState * list Z :=
  let s := upd_stats (add_sessions (-1)) (set_sessions (as_u64 (sv_session_count s - 1)) (sv_next_session_id s) s) in
  let s := set_outbound (delete session_id (sv_outbound s)) (set_activity (delete session_id (sv_activity s)) s) in
  let pairing := omap (retain_pending session_id) (sv_pairing s) in
  let dropped := Z.of_nat (size (sv_pairing s) - size pairing) in
  let s := upd_stats (fun t => add_pending (- dropped) (add_cancelled dropped t)) (set_pairing pairing s) in
  let active := omap (retain_active session_id) (sv_active s) in
  let closed := filter (fun p => retain_active session_id p = None) (snd <$> map_to_list (sv_active s)) in
  (upd_stats (add_active (- len closed)) (set_active active s), ap_teardown_tx <$> closed).

Definition try_pair (now session_id : Z) (is_initiator : bool) (token : list Z)
    (client_stream_id session_pairing_count outbound_tx : Z) (s : ServerState) : PairOutcome * ServerState :=
  let s := touch_session now session_id s in
  if rc_max_pairings_per_session (sv_config s) <=? session_pairing_count then (PoLimitExceeded, s)
  else
    let s := upd_stats add_requested s in
    let pair := default PendingPairing_empty (sv_pairing s !! token) in
    match PendingPairing_slot pair is_initiator with
    | Some _ => (PoAlreadyPairing, s)
    | None =>
        let link := mkLink session_id is_initiator client_stream_id outbound_tx now in
        let pair := set_slot is_initiator (Some link) pair in
        match PendingPairing_slot pair (negb is_initiator) with
        | None => (PoPending, upd_stats (add_pending 1) (set_pairing (<[token := pair]> (sv_pairing s)) s))
        | Some other =>
            let first := mkSide (pl_session_id other) (pl_is_initiator other) (pl_client_stream_id other)
                           (pl_outbound_tx other) in
            let second := mkSide session_id is_initiator client_stream_id outbound_tx in
            (PoMatched (mkMatched token first second),
             upd_stats (fun t => add_active 1 (add_matched (add_pending (-1) t)))
               (set_pairing (delete token (sv_pairing s)) s))
        end
    end.

Definition mark_active (token : list Z) (session_ids : Z * Z) (teardown_tx : Z) (s : ServerState) : ServerState :=
  set_active (<[token := mkActive session_ids teardown_tx]> (sv_active s)) s.

(** The teardown sender it fires, if any. *)
Definition unpair_active (token : list Z) (s : ServerState) : UnpairOutcome * ServerState * option Z :=
  match sv_active s !! token with
  | None => (UoNotFound, s, None)
  | Some pending =>
      (UoDestroyed, upd_stats (add_active (-1)) (set_active (delete token (sv_active s)) s), Some (ap_teardown_tx pending))
  end.

Definition unpair (now session_id : Z) (token : list Z) (s : ServerState) : UnpairOutcome * ServerState * option Z :=
  let s := touch_session now session_id s in
  match sv_pairing s !! token with
  | None => unpair_active token s
  | Some pending =>
      let found := touches session_id pending in
      let pending := clear_links session_id pending in
      if negb found then (UoNotFound, s, None)
      else
        let pairing := if all_none pending then delete token (sv_pairing s) else <[token := pending]> (sv_pairing s) in
        (UoCancelled, upd_stats (fun t => add_pending (-1) (add_cancelled 1 t)) (set_pairing pairing s), None)
  end.

(** The sessions closed: each is sent [Close] on the channel given with it. *)
Definition sweep_idle_sessions (now : Z) (s : ServerState) : list (Z * Z) :=
  let timeout := rc_idle_session_timeout (sv_config s) in
  let idle := fst <$> filter (fun '(_, last) => timeout < elapsed now last) (map_to_list (sv_activity s)) in
  omap (fun id => (fun tx => (id, tx)) <$> sv_outbound s !! id) idle.

Definition created (p : PendingPairing) : list Z :=
  pl_created_at <$> omap id [links0 p; links1 p].
Definition expired (now timeout : Z) (p : PendingPairing) : bool :=
  match created p with
  | [] => false
  | t :: ts => timeout <? elapsed now (foldr Z.min t ts)
  end.
Definition sweep_expired_pairings (now : Z) (s : ServerState) : nat * ServerState :=
  let timeout := rc_pairing_timeout (sv_config s) in
  let pairing := filter (fun tp => expired now timeout (snd tp) = false) (sv_pairing s) in
  let dropped := (size (sv_pairing s) - size pairing)%nat in
  let s := set_pairing pairing s in
  (dropped,
   if (0 <? dropped)%nat
   then upd_stats (fun t => add_pending (- Z.of_nat dropped) (add_cancelled (Z.of_nat dropped) t)) s else s).

(** ** Sessions

    The outbound channel of a session is named by the session's id. *)

Record BlindRelaySession := mkSession { bs_session_id : Z; bs_pairing_count : Z }.

Definition BlindRelaySession_new (now : Z) (s : ServerState) : option BlindRelaySession * ServerState :=
  match try_accept_session s with
  | (None, s) => (None, s)
  | (Some session_id, s) => (Some (mkSession session_id 0), register_session now session_id session_id s)
  end.

(** The session, the server, what goes to [matched_tx] and the teardown fired. *)
Definition on_message (now message_type : Z) (data : list Z) (x : BlindRelaySession) (s : ServerState)
    : BlindRelaySession * ServerState * option MatchedPairing * option Z :=
  if message_type =? MSG_TYPE_PAIR then
    match decode_pair_from_slice data with
    | Ok msg =>
        let '(out, s) := try_pair now (bs_session_id x) (pr_is_initiator msg) (pr_token msg) (pr_id msg)
          (bs_pairing_count x) (bs_session_id x) s in
        match out with
        | PoPending => (mkSession (bs_session_id x) (bs_pairing_count x + 1), s, None, None)
        | PoMatched matched => (x, s, Some matched, None)
        | _ => (x, s, None, None)
        end
    | _ => (x, s, None, None)
    end
  else if message_type =? MSG_TYPE_UNPAIR then
    match decode_unpair_from_slice data with
    | Ok msg =>
        let '(out, s, fired) := unpair now (bs_session_id x) (up_token msg) s in
        match out with
        | UoCancelled => (mkSession (bs_session_id x) (Z.max 0 (bs_pairing_count x - 1)), s, None, fired)
        | _ => (x, s, None, fired)
        end
    | _ => (x, s, None, None)
    end
  else (x, s, None, None).

(** ** The service

    The running session tasks with their outbound queues, the matched pairings
    on their way to the bridge, the bridged ones not yet marked active, the
    bridge tasks that wait for a teardown, the streams kept, and what was sent
    to the clients.  [wd_next_stream] is [NEXT_RELAY_STREAM_ID]. *)

Record Bridged := mkBridged { br_token : list Z; br_session_ids : Z * Z; br_streams : Z * Z }.
Record World := mkWorld {
  wd_server : ServerState;
  wd_sessions : gmap Z (BlindRelaySession * list SessionOutbound);
  wd_matched : list MatchedPairing;
  wd_bridged : list Bridged;
  wd_waiting : gmap Z (list Z);
  wd_fired : list Z;
  wd_streams : gmap (list Z) (Z * Z);
  wd_hooks : list (Z * Z);
  wd_sent : list (Z * list Z);
  wd_next_stream : Z;
  wd_next_teardown : Z
}.
Definition World_new (config : BlindRelayServerConfig) : World :=
  mkWorld (BlindRelayServer_new config) ∅ [] [] ∅ [] ∅ [] [] 1 0.

(** What the runtime gives the bridge: no server socket, streams that fail, or
    the streams. *)
Inductive BridgeResult := NoSocket | StreamsFail | Made.
#[global] Instance BridgeResult_eq_dec : EqDecision BridgeResult.
Proof. solve_decision. Defined.

(** What can happen: a connection whose channel opens or not, an event of a
    session's channel, the next message of its outbound queue (and whether the
    channel takes the reply), a pairing bridged or not, its registration, the
    end of a bridge task whose teardown fired, and the two sweeps. *)
Inductive RelayEvent :=
| Connected (opens : bool)
| ChannelEv (session_id : Z) (e : option ChannelEvent)
| OutboundEv (session_id : Z) (sent : bool)
| BridgeEv (i : nat) (made : BridgeResult)
| MarkEv (i : nat)
| TeardownEv (teardown_tx : Z)
| SweepExpired
| SweepIdle.

Definition with_server s w := mkWorld s (wd_sessions w) (wd_matched w) (wd_bridged w) (wd_waiting w) (wd_fired w)
  (wd_streams w) (wd_hooks w) (wd_sent w) (wd_next_stream w) (wd_next_teardown w).
Definition with_sessions m w := mkWorld (wd_server w) m (wd_matched w) (wd_bridged w) (wd_waiting w) (wd_fired w)
  (wd_streams w) (wd_hooks w) (wd_sent w) (wd_next_stream w) (wd_next_teardown w).
Definition add_matching o w := mkWorld (wd_server w) (wd_sessions w) (wd_matched w ++ option_list o) (wd_bridged w)
  (wd_waiting w) (wd_fired w) (wd_streams w) (wd_hooks w) (wd_sent w) (wd_next_stream w) (wd_next_teardown w).
Definition add_fired l w := mkWorld (wd_server w) (wd_sessions w) (wd_matched w) (wd_bridged w)
  (wd_waiting w) (wd_fired w ++ l) (wd_streams w) (wd_hooks w) (wd_sent w) (wd_next_stream w) (wd_next_teardown w).
Definition add_sent sid bs w := mkWorld (wd_server w) (wd_sessions w) (wd_matched w) (wd_bridged w)
  (wd_waiting w) (wd_fired w) (wd_streams w) (wd_hooks w) (wd_sent w ++ [(sid, bs)]) (wd_next_stream w) (wd_next_teardown w).

(** [run] is over: the session slot is released. *)
Definition end_session (sid : Z) (w : World) : World :=
  let '(s, fired) := release_session sid (wd_server w) in
  add_fired fired (with_sessions (delete sid (wd_sessions w)) (with_server s w)).

(** A message on an outbound channel; one whose session is gone is dropped. *)
Definition send_outbound (tx : Z) (m : SessionOutbound) (w : World) : World :=
  match wd_sessions w !! tx with
  | None => w
  | Some (x, q) => with_sessions (<[tx := (x, q ++ [m])]> (wd_sessions w)) w
  end.

Definition channel_turn (now sid : Z) (e : option ChannelEvent) (w : World) : World :=
  match wd_sessions w !! sid with
  | None => w
  | Some (x, q) =>
      match e with
      | Some (EvMessage message_type data) =>
          let '(x, s, matched, fired) := on_message now message_type data x (wd_server w) in
          add_fired (option_list fired) (add_matching matched
            (with_sessions (<[sid := (x, q)]> (wd_sessions w)) (with_server s w)))
      | Some (EvOpened _) => w
      | Some (EvClosed _) | None => end_session sid w
      end
  end.

Definition outbound_turn (sid : Z) (sent : bool) (w : World) : World :=
  match wd_sessions w !! sid with
  | Some (x, m :: q) =>
      match m with
      | PairMatched token is_initiator local_stream_id =>
          let w := with_sessions (<[sid := (x, q)]> (wd_sessions w)) w in
          match encode_pair_to_vec (mkPair is_initiator token local_stream_id 0) with
          | Ok bytes => if sent then add_sent sid bytes w else end_session sid w
          | _ => w
          end
      | OutClose => end_session sid w
      end
  | _ => w
  end.

(** [bridge_one_pairing]: two streams, hooked to the clients' stream ids, and
    the answers. *)
Definition bridge_one_pairing (made : BridgeResult) (m : MatchedPairing) (w : World) : World :=
  if bool_decide (made = NoSocket) then w else
  let first_local := wd_next_stream w in
  let second_local := as_u32 (first_local + 1) in
  let next := as_u32 (second_local + 1) in
  let w := mkWorld (wd_server w) (wd_sessions w) (wd_matched w) (wd_bridged w) (wd_waiting w) (wd_fired w)
    (wd_streams w) (wd_hooks w) (wd_sent w) next (wd_next_teardown w) in
  let in_range r := (0 <=? r) && (r <? 2 ^ 32) in
  if in_range (ms_client_stream_id (mp_first m)) && in_range (ms_client_stream_id (mp_second m)) && bool_decide (made = Made) then
    let w := mkWorld (wd_server w) (wd_sessions w) (wd_matched w)
      (wd_bridged w ++ [mkBridged (mp_token m) (ms_session_id (mp_first m), ms_session_id (mp_second m))
                         (first_local, second_local)])
      (wd_waiting w) (wd_fired w) (wd_streams w)
      (wd_hooks w ++ [(first_local, ms_client_stream_id (mp_first m)); (second_local, ms_client_stream_id (mp_second m))])
      (wd_sent w) (wd_next_stream w) (wd_next_teardown w) in
    send_outbound (ms_outbound_tx (mp_second m)) (PairMatched (mp_token m) (ms_is_initiator (mp_second m)) second_local)
      (send_outbound (ms_outbound_tx (mp_first m)) (PairMatched (mp_token m) (ms_is_initiator (mp_first m)) first_local) w)
  else w.

Definition bridge_turn (i : nat) (made : BridgeResult) (w : World) : World :=
  match wd_matched w !! i with
  | None => w
  | Some m =>
      bridge_one_pairing made m (mkWorld (wd_server w) (wd_sessions w) (delete i (wd_matched w)) (wd_bridged w)
        (wd_waiting w) (wd_fired w) (wd_streams w) (wd_hooks w) (wd_sent w) (wd_next_stream w) (wd_next_teardown w))
  end.

(** The streams are kept under the token and the pairing is registered. *)
Definition mark_turn (i : nat) (w : World) : World :=
  match wd_bridged w !! i with
  | None => w
  | Some b =>
      let tx := wd_next_teardown w in
      mkWorld (mark_active (br_token b) (br_session_ids b) tx (wd_server w)) (wd_sessions w) (wd_matched w)
        (delete i (wd_bridged w)) (<[tx := br_token b]> (wd_waiting w)) (wd_fired w)
        (<[br_token b := br_streams b]> (wd_streams w)) (wd_hooks w) (wd_sent w) (wd_next_stream w) (tx + 1)
  end.

(** A bridge task wakes when its sender has fired, or is gone from the table. *)
Definition sender_held (tx : Z) (w : World) : bool :=
  bool_decide (tx ∈ ap_teardown_tx ∘ snd <$> map_to_list (sv_active (wd_server w))).
Definition teardown_turn (tx : Z) (w : World) : World :=
  match wd_waiting w !! tx with
  | None => w
  | Some token =>
      if bool_decide (tx ∈ wd_fired w) || negb (sender_held tx w) then
        mkWorld (wd_server w) (wd_sessions w) (wd_matched w) (wd_bridged w) (delete tx (wd_waiting w)) (wd_fired w)
          (delete token (wd_streams w)) (wd_hooks w) (wd_sent w) (wd_next_stream w) (wd_next_teardown w)
      else w
  end.

Definition relay_turn (now : Z) (ev : RelayEvent) (w : World) : World :=
  match ev with
  | Connected opens =>
      match BlindRelaySession_new now (wd_server w) with
      | (None, s) => with_server s w
      | (Some x, s) =>
          let w := with_server s w in
          if opens then with_sessions (<[bs_session_id x := (x, [])]> (wd_sessions w)) w else w
      end
  | ChannelEv sid e => channel_turn now sid e w
  | OutboundEv sid sent => outbound_turn sid sent w
  | BridgeEv i made => bridge_turn i made w
  | MarkEv i => mark_turn i w
  | TeardownEv tx => teardown_turn tx w
  | SweepExpired => with_server (snd (sweep_expired_pairings now (wd_server w))) w
  | SweepIdle =>
      foldr (fun '(_, tx) => send_outbound tx OutClose) w (sweep_idle_sessions now (wd_server w))
  end.

Fixpoint relay_run (events : list (Z * RelayEvent)) (w : World) : World :=
  match events with [] => w | (now, ev) :: events => relay_run events (relay_turn now ev w) end.
