(* ===== verification/BlindRelayTheorems.v ===== *)
(** * BlindRelayTheorems: the pairing engine keeps its books and joins the sides *)

From S2P Require Import Prelude RustStd CompactEncoding Codec HyperdhtWire Protomux BlindRelay.

#[local] Open Scope Z_scope.

(** ** The wrapping counters *)

Lemma as_i64_add x k : as_i64 (as_i64 x + k) = as_i64 (x + k).
Proof. unfold as_i64, as_i. change (2 ^ (64 - 1)) with 9223372036854775808. change (2 ^ 64) with 18446744073709551616. zdm. Qed.

(** ** The messages *)

Definition wire_pair (m : PairMessage) : list Z :=
  [if pr_is_initiator m then 1 else 0] ++ pr_token m ++ wire_uint (pr_id m) ++ wire_uint (pr_seq m).
Definition pair_ok (m : PairMessage) : Prop :=
  fixed_ok 32 (pr_token m) /\ in_u 64 (pr_id m) /\ in_u 64 (pr_seq m).

Lemma encode_pair_ok m : pair_ok m -> encode_pair_to_vec m = Ok (wire_pair m).
Proof.
  intros (Ht & Hi & Hs). apply to_bytes_spec.
  - unfold preencode_pair, wire_pair. destruct Ht as [_ Ht]. rewrite !preencode_uint_spec.
    rewrite !grow_grow, !len_app, Ht. change (len [if pr_is_initiator m then 1 else 0]) with 1. unfold grow. f_equal; lia.
  - unfold encode_pair, wire_pair. apply Writes_bind; [apply Writes_uint8|]. writes_step. apply Writes_bind; [by apply Writes_uint|]. by apply Writes_uint.
Qed.
Lemma decode_pair_ok m : pair_ok m -> decode_pair_from_slice (wire_pair m) = Ok m.
Proof.
  intros (Ht & Hi & Hs). apply from_bytes_spec. unfold decode_pair, wire_pair.
  eapply Reads_bind; [apply Reads_byte; by destruct (pr_is_initiator m)|].
  reads_step. reads_step. eapply Reads_bind_last; [eauto with reads|].
  destruct m as [b t i q]. cbn. destruct b; apply Reads_ret.
Qed.

(** ** The pairing table *)

(** An entry waits with one link, in the slot of its side. *)
Definition waiting (p : PendingPairing) (l : PendingLink) : Prop :=
  p = set_slot (pl_is_initiator l) (Some l) PendingPairing_empty.

Record server_ok (s : ServerState) : Prop := {
  so_waiting tok p : sv_pairing s !! tok = Some p -> exists l, waiting p l;
  so_pending : rt_pairings_pending (sv_stats s) = as_i64 (Z.of_nat (size (sv_pairing s)))
}.

(** The one the token waits with, if any: what the two-slot table stands for. *)
Definition waiter (s : ServerState) (tok : list Z) : option PendingLink :=
  p ← sv_pairing s !! tok; match links0 p with Some l => Some l | None => links1 p end.

Lemma waiting_waiter s tok p l : sv_pairing s !! tok = Some p -> waiting p l -> waiter s tok = Some l.
Proof. unfold waiter, waiting. intros -> ->. by destruct (pl_is_initiator l). Qed.
Lemma waiter_inv s tok l : server_ok s -> waiter s tok = Some l ->
  exists p, sv_pairing s !! tok = Some p /\ waiting p l.
Proof.
  intros Hs Hw. unfold waiter in Hw. destruct (sv_pairing s !! tok) as [p|] eqn:E; [|done].
  destruct (so_waiting s Hs tok p E) as [l' Hl]. exists p. split; [done|].
  rewrite Hl in Hw. unfold set_slot, PendingPairing_empty in Hw.
  cbn in Hw. destruct (pl_is_initiator l'); cbn in Hw; by injection Hw as <-.
Qed.
Lemma waiter_none s tok : server_ok s -> waiter s tok = None <-> sv_pairing s !! tok = None.
Proof.
  intros Hs. split.
  - destruct (sv_pairing s !! tok) as [p|] eqn:E; [|done]. destruct (so_waiting s Hs tok p E) as [l Hl].
    by rewrite (waiting_waiter s tok p l E Hl).
  - unfold waiter. by intros ->.
Qed.

(** The specification of a pair request: one link waits per token; the other
    side takes it, the same side is ignored. *)
Definition pair_spec (session_id : Z) (is_initiator : bool) (token : list Z) (client_stream_id tx : Z)
    (w : option PendingLink) : PairOutcome :=
  match w with
  | None => PoPending
  | Some l =>
      if eqb (pl_is_initiator l) is_initiator then PoAlreadyPairing
      else PoMatched (mkMatched token
             (mkSide (pl_session_id l) (pl_is_initiator l) (pl_client_stream_id l) (pl_outbound_tx l))
             (mkSide session_id is_initiator client_stream_id tx))
  end.
(** The table after it. *)
Definition pair_table (token : list Z) (l : PendingLink) (out : PairOutcome) (m : gmap (list Z) PendingPairing) :=
  match out with
  | PoPending => <[token := set_slot (pl_is_initiator l) (Some l) PendingPairing_empty]> m
  | PoMatched _ => delete token m
  | _ => m
  end.

Lemma try_pair_spec now sid b tok cid count tx s : server_ok s ->
  let '(out, s') := try_pair now sid b tok cid count tx s in
  out = (if rc_max_pairings_per_session (sv_config s) <=? count then PoLimitExceeded
         else pair_spec sid b tok cid tx (waiter s tok)) /\
  sv_pairing s' = pair_table tok (mkLink sid b cid tx now) out (sv_pairing s) /\
  rt_pairings_pending (sv_stats s') = as_i64 (rt_pairings_pending (sv_stats s) +
    match out with PoPending => 1 | PoMatched _ => -1 | _ => 0 end) /\
  sv_active s' = sv_active s /\ sv_config s' = sv_config s /\ sv_session_count s' = sv_session_count s /\
  sv_next_session_id s' = sv_next_session_id s /\ rt_sessions_active (sv_stats s') = rt_sessions_active (sv_stats s).
Proof.
  intros Hs. assert (rt_pairings_pending (sv_stats s) = as_i64 (rt_pairings_pending (sv_stats s) + 0)) as H0.
  { rewrite (so_pending s Hs). by rewrite as_i64_add, Z.add_0_r. }
  unfold try_pair. cbn [sv_config touch_session set_activity].
  destruct (rc_max_pairings_per_session (sv_config s) <=? count); [by split_and!|].
  cbn [upd_stats set_stats sv_pairing touch_session set_activity sv_stats sv_active].
  destruct (waiter s tok) as [l|] eqn:Ew.
  - destruct (waiter_inv s tok l Hs Ew) as (p & -> & Hp). cbn [default from_option]. rewrite Hp. cbn [pair_spec].
    destruct l as [ls lb lc lt la], lb, b; cbn; split_and!; first [done|by rewrite Z.add_simpl_r].
  - apply waiter_none in Ew; [|done]. rewrite Ew. destruct b; cbn; split_and!; done.
Qed.

(** The other operations drop entries and count them. *)
Definition shrinks (s s' : ServerState) : Prop :=
  sv_pairing s' ⊆ sv_pairing s /\
  rt_pairings_pending (sv_stats s') =
    as_i64 (rt_pairings_pending (sv_stats s) + (Z.of_nat (size (sv_pairing s')) - Z.of_nat (size (sv_pairing s)))) /\
  sv_config s' = sv_config s /\ sv_next_session_id s' = sv_next_session_id s.

Lemma shrinks_ok s s' : server_ok s -> shrinks s s' -> server_ok s'.
Proof.
  intros Hs (Hsub & Hp & _). constructor.
  - intros tok p E. apply (so_waiting s Hs tok p). by eapply lookup_weaken.
  - rewrite Hp, (so_pending s Hs), as_i64_add. f_equal. lia.
Qed.
Lemma shrinks_waiter s s' tok l : shrinks s s' -> waiter s' tok = Some l -> waiter s tok = Some l.
Proof.
  intros (Hsub & _) Hw. unfold waiter in *. destruct (sv_pairing s' !! tok) as [p|] eqn:E; [|done].
  by rewrite (lookup_weaken _ _ _ _ E Hsub).
Qed.

Lemma retain_waiting sid p l : waiting p l ->
  retain_pending sid p = if pl_session_id l =? sid then None else Some p.
Proof.
  intros ->. destruct l as [ls lb lc lt la], lb; unfold retain_pending, touches, clear_links; cbn; by destruct (ls =? sid).
Qed.
Lemma retained_sub sid s : server_ok s -> omap (retain_pending sid) (sv_pairing s) ⊆ sv_pairing s.
Proof.
  intros Hs. apply map_subseteq_spec. intros tok p E. rewrite lookup_omap in E.
  destruct (sv_pairing s !! tok) as [p'|] eqn:E'; [|done]. cbn in E.
  destruct (so_waiting s Hs tok p' E') as [l Hl]. rewrite (retain_waiting sid p' l Hl) in E.
  destruct (pl_session_id l =? sid); [done|]. by injection E as <-.
Qed.

Lemma release_spec sid s : server_ok s ->
  let '(s', fired) := release_session sid s in
  shrinks s s' /\ (forall tok l, waiter s' tok = Some l -> pl_session_id l <> sid) /\
  sv_session_count s' = as_u64 (sv_session_count s - 1) /\
  rt_sessions_active (sv_stats s') = as_i64 (rt_sessions_active (sv_stats s) - 1).
Proof.
  intros Hs. unfold release_session. cbn -[size Nat.sub]. pose proof (retained_sub sid s Hs) as Hsub.
  pose proof (map_subseteq_size _ _ Hsub) as Hsz. split_and!; [split_and!|..]; try done.
  - cbn -[size Nat.sub]. f_equal. rewrite Nat2Z.inj_sub by done. lia.
  - intros tok l Hw. unfold waiter in Hw. cbn in Hw. rewrite lookup_omap in Hw.
    destruct (sv_pairing s !! tok) as [p|] eqn:E; [|done]. cbn in Hw.
    destruct (so_waiting s Hs tok p E) as [l' Hl]. rewrite (retain_waiting sid p l' Hl) in Hw.
    destruct (Z.eqb_spec (pl_session_id l') sid) as [|Hne]; [done|]. unfold waiting in Hl. subst p.
    destruct l' as [ls lb lc lt la], lb; cbn in Hw; by injection Hw as <-.
Qed.

(** An unpair takes away the entry its session waits in, or an active pairing. *)
Lemma unpair_spec now sid tok s : server_ok s ->
  let '(out, s', fired) := unpair now sid tok s in
  shrinks s s' /\ sv_session_count s' = sv_session_count s /\
  rt_sessions_active (sv_stats s') = rt_sessions_active (sv_stats s).
Proof.
  intros Hs. assert (forall s', sv_pairing s' = sv_pairing s -> sv_config s' = sv_config s ->
    sv_next_session_id s' = sv_next_session_id s ->
    rt_pairings_pending (sv_stats s') = rt_pairings_pending (sv_stats s) -> shrinks s s') as Hsame.
  { intros s' E1 E2 E3 E4. split_and!; [by rewrite E1| |done..]. rewrite E1, E4, Z.sub_diag, Z.add_0_r.
    rewrite (so_pending s Hs) at 1. rewrite <- (Z.add_0_r (Z.of_nat _)). rewrite <- as_i64_add, <- (so_pending s Hs).
    by rewrite Z.add_0_r. }
  unfold unpair. cbn [sv_pairing touch_session set_activity].
  destruct (sv_pairing s !! tok) as [p|] eqn:E.
  - destruct (so_waiting s Hs tok p E) as [l Hl].
    assert (touches sid p = (pl_session_id l =? sid)) as ->.
    { rewrite Hl. destruct l as [ls lb lc lt la], lb; unfold touches; cbn; by destruct (ls =? sid). }
    destruct (pl_session_id l =? sid) eqn:Eo; cbn [negb]; [|by split_and!; try apply Hsame].
    assert (all_none (clear_links sid p) = true) as ->.
    { rewrite Hl. destruct l as [ls lb lc lt la], lb; unfold clear_links; cbn in *; by rewrite Eo. }
    split_and!; [split_and!|..]; try done; cbn [sv_pairing set_pairing upd_stats set_stats sv_stats].
    + apply delete_subseteq.
    + rewrite map_size_delete, E. cbn -[size]. f_equal. pose proof (map_size_ne_0_lookup_2 (sv_pairing s) tok).
      assert (size (sv_pairing s) <> 0%nat) as Hz by (apply (map_size_ne_0_lookup_2 _ tok); by rewrite E). lia.
  - unfold unpair_active. cbn [sv_active touch_session set_activity].
    destruct (sv_active s !! tok); by split_and!; try apply Hsame.
Qed.

Lemma sweep_spec now s : server_ok s ->
  let '(n, s') := sweep_expired_pairings now s in
  shrinks s s' /\ sv_session_count s' = sv_session_count s /\
  rt_sessions_active (sv_stats s') = rt_sessions_active (sv_stats s).
Proof.
  intros Hs. unfold sweep_expired_pairings. cbv zeta.
  set (m := filter _ (sv_pairing s)).
  assert (m ⊆ sv_pairing s) as Hsub by apply map_filter_subseteq.
  pose proof (map_subseteq_size _ _ Hsub) as Hsz.
  destruct (Nat.ltb_spec 0 (size (sv_pairing s) - size m)) as [Hd|Hd]; split_and!; try split_and!; try done.
  - cbn -[size Nat.sub]. f_equal. rewrite Nat2Z.inj_sub by done. lia.
  - cbn -[size]. rewrite (so_pending s Hs), as_i64_add. f_equal. lia.
Qed.

(** ** The service *)

Definition opposite (m : MatchedPairing) : Prop :=
  ms_is_initiator (mp_first m) = negb (ms_is_initiator (mp_second m)).

Record world_ok (cfg : BlindRelayServerConfig) (n : Z) (w : World) : Prop := {
  wo_server : server_ok (wd_server w);
  wo_config : sv_config (wd_server w) = cfg;
  wo_owner tok l : waiter (wd_server w) tok = Some l ->
    pl_outbound_tx l = pl_session_id l /\ is_Some (wd_sessions w !! pl_session_id l);
  wo_ids sid x q : wd_sessions w !! sid = Some (x, q) ->
    bs_session_id x = sid /\ sid < sv_next_session_id (wd_server w);
  wo_next : sv_next_session_id (wd_server w) <= n + 1;
  wo_count : Z.of_nat (size (wd_sessions w)) <= sv_session_count (wd_server w) < sv_next_session_id (wd_server w);
  wo_bound : sv_session_count (wd_server w) <= Z.max 0 (rc_max_sessions cfg);
  wo_active : rt_sessions_active (sv_stats (wd_server w)) = as_i64 (sv_session_count (wd_server w));
  wo_matched : Forall opposite (wd_matched w)
}.

(** A world that differs in nothing the invariant reads. *)
Definition same_view (w w' : World) : Prop :=
  wd_server w' = wd_server w /\ (forall sid, is_Some (wd_sessions w' !! sid) <-> is_Some (wd_sessions w !! sid)) /\
  (forall sid x q, wd_sessions w' !! sid = Some (x, q) -> exists q', wd_sessions w !! sid = Some (x, q')) /\
  size (wd_sessions w') = size (wd_sessions w) /\ (Forall opposite (wd_matched w) -> Forall opposite (wd_matched w')).

Lemma same_view_ok cfg n w w' : same_view w w' -> world_ok cfg n w -> world_ok cfg n w'.
Proof.
  intros (Es & Hs & Hq & Hz & Hm) [H1 H2 H3 H4 H5 H6 H7 H8 H9]. constructor; rewrite ?Es, ?Hz; auto.
  - intros tok l Hw. destruct (H3 tok l Hw) as [Ht Hl]. split; [done|]. by apply Hs.
  - intros sid x q E. destruct (Hq sid x q E) as [q' E']. by apply (H4 sid x q').
Qed.
Lemma same_view_refl w : same_view w w.
Proof. split_and!; try done. intros sid x q E. by exists q. Qed.
Lemma same_view_trans w1 w2 w3 : same_view w1 w2 -> same_view w2 w3 -> same_view w1 w3.
Proof.
  intros (A1 & A2 & A3 & A4 & A5) (B1 & B2 & B3 & B4 & B5). split_and!.
  - congruence.
  - intros sid. by rewrite B2.
  - intros sid x q E. destruct (B3 sid x q E) as [q' E']. eauto.
  - congruence.
  - auto.
Qed.

(** Replacing the queue of a live session. *)
Lemma same_view_queue w sid x q q' : wd_sessions w !! sid = Some (x, q) ->
  same_view w (with_sessions (<[sid := (x, q')]> (wd_sessions w)) w).
Proof.
  intros E. split_and!; try done; cbn -[size].
  - intros i. destruct (decide (i = sid)) as [->|Hne]; [by rewrite lookup_insert_eq, E|by rewrite lookup_insert_ne].
  - intros i y r. destruct (decide (i = sid)) as [->|Hne].
    + rewrite lookup_insert_eq. intros [= <- <-]. by exists q.
    + rewrite lookup_insert_ne by done. by exists r.
  - rewrite map_size_insert, E. done.
Qed.
Lemma send_outbound_view tx m w : same_view w (send_outbound tx m w).
Proof.
  unfold send_outbound. destruct (wd_sessions w !! tx) as [[x q]|] eqn:E; [|apply same_view_refl].
  by eapply same_view_queue.
Qed.
Lemma sweep_idle_view (l : list (Z * Z)) w : same_view w (foldr (fun '(_, tx) => send_outbound tx OutClose) w l).
Proof.
  induction l as [|[i tx] l IH]; [apply same_view_refl|]. cbn [foldr].
  eapply same_view_trans; [exact IH|apply send_outbound_view].
Qed.

(** Changes that keep the server and the sessions. *)
Lemma quiet_view w w' : wd_server w' = wd_server w -> wd_sessions w' = wd_sessions w ->
  (Forall opposite (wd_matched w) -> Forall opposite (wd_matched w')) -> same_view w w'.
Proof. intros E1 E2 Hm. split_and!; rewrite ?E1, ?E2; try done. intros sid x q E. by exists q. Qed.

Lemma bridge_view i made w : same_view w (bridge_turn i made w).
Proof.
  unfold bridge_turn. destruct (wd_matched w !! i) as [m|] eqn:E; [|apply same_view_refl].
  set (w1 := mkWorld _ _ _ _ _ _ _ _ _ _ _). assert (same_view w w1) as H1.
  { apply quiet_view; try done. cbn. intros Hm. by apply Forall_delete. }
  eapply same_view_trans; [exact H1|]. clearbody w1. unfold bridge_one_pairing.
  case_bool_decide; [apply same_view_refl|]. cbv zeta.
  destruct (_ && _ && _); [|by apply quiet_view].
  eapply same_view_trans; [|apply send_outbound_view]. eapply same_view_trans; [|apply send_outbound_view].
  by apply quiet_view.
Qed.

(** The end of a session. *)
Lemma end_session_ok cfg n w sid x q : wd_sessions w !! sid = Some (x, q) -> n < 2 ^ 64 - 1 ->
  world_ok cfg n w -> world_ok cfg n (end_session sid w).
Proof.
  intros E Hn [H1 H2 H3 H4 H5 H6 H7 H8 H9]. unfold end_session.
  pose proof (release_spec sid (wd_server w) H1) as R.
  destruct (release_session sid (wd_server w)) as [s' fired]. destruct R as (Hsh & Howner & Hcount & Hact).
  assert (size (wd_sessions w) <> 0%nat) as Hz by (apply (map_size_ne_0_lookup_2 _ sid); by rewrite E).
  assert (size (delete sid (wd_sessions w)) = pred (size (wd_sessions w))) as Hd by (by rewrite map_size_delete, E).
  assert (as_u64 (sv_session_count (wd_server w) - 1) = sv_session_count (wd_server w) - 1) as Hc.
  { apply as_u_id. unfold in_u. lia. }
  destruct Hsh as (Hsub & Hpend & Hcfg & Hnext).
  constructor; cbn -[size]; rewrite ?Hnext, ?Hcount, ?Hc, ?Hd; try lia; try done.
  - by eapply shrinks_ok.
  - congruence.
  - intros tok l Hw. pose proof (Howner tok l Hw) as Hne.
    assert (shrinks (wd_server w) s') as Hsh by (by split_and!).
    destruct (H3 tok l (shrinks_waiter _ _ _ _ Hsh Hw)) as [Ht Hl]. split; [done|]. by rewrite lookup_delete_ne.
  - intros i y r Ei. apply lookup_delete_Some in Ei as [_ Ei]. by apply (H4 i y r).
  - rewrite Hact, H8, <- (Z.add_opp_r (as_i64 _)), as_i64_add. f_equal; lia.
Qed.

(** A message of a live session. *)

Lemma pair_server_ok now sid b tok cid count tx s : server_ok s ->
  server_ok (snd (try_pair now sid b tok cid count tx s)).
Proof.
  intros Hs. pose proof (try_pair_spec now sid b tok cid count tx s Hs) as P.
  destruct (try_pair now sid b tok cid count tx s) as [out s']. destruct P as (Ho & Ht & Hp & _). cbn [snd].
  constructor.
  - intros tok' p E. rewrite Ht in E. destruct out; cbn [pair_table] in E; try by apply (so_waiting s Hs tok' p).
    + apply lookup_insert_Some in E as [[<- <-]|[_ E]]; [|by apply (so_waiting s Hs tok' p)].
      by exists (mkLink sid b cid tx now).
    + apply lookup_delete_Some in E as [_ E]. by apply (so_waiting s Hs tok' p).
  - rewrite Hp, Ht, (so_pending s Hs), as_i64_add. destruct (rc_max_pairings_per_session (sv_config s) <=? count).
    { subst out. cbn [pair_table]. f_equal. lia. }
    destruct (waiter s tok) as [l|] eqn:Ew.
    + destruct (waiter_inv s tok l Hs Ew) as (p & E & _).
      assert (size (sv_pairing s) <> 0%nat) as Hz by (apply (map_size_ne_0_lookup_2 _ tok); by rewrite E).
      subst out. cbn [pair_spec]. destruct (eqb _ _); cbn [pair_table]; [f_equal; lia|].
      rewrite map_size_delete, E. f_equal. lia.
    + subst out. cbn [pair_spec pair_table]. apply waiter_none in Ew; [|done]. rewrite map_size_insert, Ew. f_equal. lia.
Qed.

(** Who waits after a pair request. *)
Lemma pair_waiter now sid b tok cid count tx s tok' l : server_ok s ->
  waiter (snd (try_pair now sid b tok cid count tx s)) tok' = Some l ->
  waiter s tok' = Some l \/ l = mkLink sid b cid tx now.
Proof.
  intros Hs Hw. pose proof (try_pair_spec now sid b tok cid count tx s Hs) as P.
  destruct (try_pair now sid b tok cid count tx s) as [out s']. destruct P as (_ & Ht & _). cbn [snd] in Hw.
  unfold waiter in Hw. rewrite Ht in Hw. destruct out; cbn [pair_table] in Hw; try by left.
  - destruct (decide (tok' = tok)) as [->|Hne].
    + rewrite lookup_insert_eq in Hw. right. destruct b; cbn in Hw; by injection Hw as <-.
    + rewrite lookup_insert_ne in Hw by done. by left.
  - destruct (decide (tok' = tok)) as [->|Hne]; [by rewrite lookup_delete_eq in Hw|].
    rewrite lookup_delete_ne in Hw by done. by left.
Qed.

(** The effect of a message on the server, as the world sees it. *)
Record message_effect (sid : Z) (s s' : ServerState) : Prop := {
  me_ok : server_ok s';
  me_config : sv_config s' = sv_config s;
  me_next : sv_next_session_id s' = sv_next_session_id s;
  me_count : sv_session_count s' = sv_session_count s;
  me_active : rt_sessions_active (sv_stats s') = rt_sessions_active (sv_stats s);
  me_waiter tok l : waiter s' tok = Some l -> waiter s tok = Some l \/ (pl_session_id l = sid /\ pl_outbound_tx l = sid)
}.
Lemma message_effect_refl sid s : server_ok s -> message_effect sid s s.
Proof. intros Hs. constructor; try done. intros tok l Hw. by left. Qed.

Lemma on_message_effect now ty data x s : server_ok s ->
  let '(x', s', matched, fired) := on_message now ty data x s in
  bs_session_id x' = bs_session_id x /\ message_effect (bs_session_id x) s s' /\
  match matched with Some m => opposite m | None => True end.
Proof.
  intros Hs. unfold on_message. destruct (ty =? MSG_TYPE_PAIR).
  - destruct (decode_pair_from_slice data) as [[b tok cid q]|e|]; try (split_and!; [done|by apply message_effect_refl|done]).
    cbn [pr_is_initiator pr_token pr_id].
    pose proof (try_pair_spec now (bs_session_id x) b tok cid (bs_pairing_count x) (bs_session_id x) s Hs) as P.
    pose proof (pair_server_ok now (bs_session_id x) b tok cid (bs_pairing_count x) (bs_session_id x) s Hs) as Hok.
    assert (forall tok' l, waiter (snd (try_pair now (bs_session_id x) b tok cid (bs_pairing_count x) (bs_session_id x) s)) tok' = Some l ->
      waiter s tok' = Some l \/ (pl_session_id l = bs_session_id x /\ pl_outbound_tx l = bs_session_id x)) as Hw.
    { intros tok' l H. apply pair_waiter in H as [H| ->]; auto. }
    destruct (try_pair _ _ _ _ _ _ _ _) as [out s']. destruct P as (Ho & _ & _ & _ & Hc & Hn & Hx & Ha). cbn [snd] in *.
    assert (message_effect (bs_session_id x) s s') as He by (by constructor).
    destruct out as [| |m|]; split_and!; try done.
    destruct (rc_max_pairings_per_session (sv_config s) <=? bs_pairing_count x); [done|].
    unfold pair_spec in Ho. destruct (waiter s tok) as [l|]; [|done].
    destruct (eqb (pl_is_initiator l) b) eqn:Eb; [done|]. injection Ho as ->. unfold opposite. cbn.
    by destruct (pl_is_initiator l), b.
  - destruct (ty =? MSG_TYPE_UNPAIR); [|split_and!; [done|by apply message_effect_refl|done]].
    destruct (decode_unpair_from_slice data) as [[tok]|e|]; try (split_and!; [done|by apply message_effect_refl|done]).
    cbn [up_token]. pose proof (unpair_spec now (bs_session_id x) tok s Hs) as P.
    destruct (unpair now (bs_session_id x) tok s) as [[out s'] fired]. destruct P as (Hsh & Hc & Ha).
    assert (message_effect (bs_session_id x) s s') as He.
    { constructor; try done; [by eapply shrinks_ok|apply Hsh|apply Hsh|]. intros tok' l Hw. left. by eapply shrinks_waiter. }
    destruct out; by split_and!.
Qed.

Lemma channel_ok cfg n now w sid e : n < 2 ^ 64 - 1 -> world_ok cfg n w -> world_ok cfg n (channel_turn now sid e w).
Proof.
  intros Hn Hw. unfold channel_turn. destruct (wd_sessions w !! sid) as [[x q]|] eqn:E; [|done].
  destruct e as [[h|ty data|r]|]; [done| |by eapply end_session_ok|by eapply end_session_ok].
  pose proof Hw as [H1 H2 H3 H4 H5 H6 H7 H8 H9]. destruct (H4 sid x q E) as [Hid Hlt].
  pose proof (on_message_effect now ty data x (wd_server w) H1) as P.
  destruct (on_message now ty data x (wd_server w)) as [[[x' s'] matched] fired].
  destruct P as (Hx & [P1 P2 P3 P4 P5 P6] & Hm).
  constructor; cbn -[size]; rewrite ?P2, ?P3, ?P4, ?P5, ?map_size_insert, ?E; try done.
  - intros tok l Hl. destruct (P6 tok l Hl) as [Hold|[Hs Ht]].
    + destruct (H3 tok l Hold) as [Ht Hs]. split; [done|].
      destruct (decide (pl_session_id l = sid)) as [->|Hne]; [by rewrite lookup_insert_eq|by rewrite lookup_insert_ne].
    + split; [congruence|]. rewrite Hs, Hid, lookup_insert_eq. by eexists.
  - intros i y r Ei. apply lookup_insert_Some in Ei as [[<- [= <- <-]]|[_ Ei]]; [|by apply (H4 i y r)].
    split; [congruence|done].
  - apply Forall_app. split; [done|]. destruct matched; cbn; [by apply Forall_singleton|constructor].
Qed.

Lemma outbound_ok cfg n w sid sent : n < 2 ^ 64 - 1 -> world_ok cfg n w -> world_ok cfg n (outbound_turn sid sent w).
Proof.
  intros Hn Hw. unfold outbound_turn. destruct (wd_sessions w !! sid) as [[x [|m q]]|] eqn:E; [done| |done].
  destruct m as [tok b ls|]; [|by eapply end_session_ok].
  assert (world_ok cfg n (with_sessions (<[sid := (x, q)]> (wd_sessions w)) w)) as H1
    by (eapply same_view_ok; [by eapply same_view_queue|done]).
  destruct (encode_pair_to_vec _) as [bytes| |]; [|done..]. destruct sent; [eapply same_view_ok; [|exact H1]; by apply quiet_view|].
  eapply end_session_ok; [|done|done]. cbn. apply lookup_insert_eq.
Qed.
Lemma world_ok_mono cfg n w : world_ok cfg n w -> world_ok cfg (n + 1) w.
Proof. intros [H1 H2 H3 H4 H5 H6 H7 H8 H9]. constructor; try done. lia. Qed.

Lemma connect_turn_ok cfg n now opens w : 0 <= n < 2 ^ 64 - 2 -> world_ok cfg n w ->
  world_ok cfg (n + 1) (relay_turn now (Connected opens) w).
Proof.
  intros Hn Hw. unfold relay_turn, BlindRelaySession_new, try_accept_session.
  pose proof Hw as [H1 H2 H3 H4 H5 H6 H7 H8 H9].
  destruct (Z.leb_spec (rc_max_sessions (sv_config (wd_server w))) (sv_session_count (wd_server w))) as [Hl|Hl].
  { eapply same_view_ok; [|apply world_ok_mono, Hw]; by apply quiet_view. }
  cbn [upd_stats register_session touch_session]. 
  assert (as_u64 (sv_session_count (wd_server w) + 1) = sv_session_count (wd_server w) + 1) as Ec
    by (apply as_u_id; unfold in_u; lia).
  assert (as_u64 (sv_next_session_id (wd_server w) + 1) = sv_next_session_id (wd_server w) + 1) as En
    by (apply as_u_id; unfold in_u; lia).
  assert (wd_sessions w !! sv_next_session_id (wd_server w) = None) as Hfresh.
  { destruct (wd_sessions w !! _) as [[x q]|] eqn:E; [|done]. apply H4 in E. lia. }
  rewrite H2 in Hl.
  destruct opens; constructor; cbn -[size]; rewrite ?Ec, ?En, ?map_size_insert, ?Hfresh; try done; try lia.
  all: try (destruct H1 as [A1 A2]; constructor; done).
  all: try (rewrite H8, as_i64_add; done).
  - intros tok l Hl'. destruct (H3 tok l Hl') as [Ht Hs]. split; [done|].
    rewrite lookup_insert_ne; [done|]. intros Heq. rewrite <- Heq, Hfresh in Hs. by destruct Hs.
  - intros i y r Ei. apply lookup_insert_Some in Ei as [[<- [= <- <-]]|[_ Ei]]; [split; [done|lia]|].
    destruct (H4 i y r Ei). split; [done|lia].
  - intros i y r Ei. destruct (H4 i y r Ei). split; [done|lia].
Qed.

Lemma turn_ok cfg n now ev w : 0 <= n < 2 ^ 64 - 2 -> world_ok cfg n w -> world_ok cfg (n + 1) (relay_turn now ev w).
Proof.
  intros Hn Hw. destruct ev as [opens|sid e|sid sent|i made|i|tx| |]; [by apply connect_turn_ok|..];
    apply world_ok_mono; cbn [relay_turn].
  - apply channel_ok; [lia|done].
  - apply outbound_ok; [lia|done].
  - eapply same_view_ok; [apply bridge_view|done].
  - unfold mark_turn. destruct (wd_bridged w !! i) as [b|]; [|done]. destruct Hw as [[A1 A2] H2 H3 H4 H5 H6 H7 H8 H9].
    by constructor.
  - eapply same_view_ok; [|done]. unfold teardown_turn. destruct (wd_waiting w !! tx); [|apply same_view_refl].
    destruct (_ || _); [by apply quiet_view|apply same_view_refl].
  - pose proof Hw as [H1 H2 H3 H4 H5 H6 H7 H8 H9]. pose proof (sweep_spec now (wd_server w) H1) as P.
    destruct (sweep_expired_pairings now (wd_server w)) as [k s']. destruct P as (Hsh & Hc & Ha).
    pose proof Hsh as (_ & _ & Hcfg & Hnext).
    constructor; cbn -[size]; rewrite ?Hc, ?Hnext, ?Hcfg, ?Ha; try done; [by eapply shrinks_ok|].
    intros tok l Hl. apply (H3 tok). by apply (shrinks_waiter _ s').
  - eapply same_view_ok; [apply sweep_idle_view|done].
Qed.

Lemma run_ok cfg events : forall n w, 0 <= n -> n + len events < 2 ^ 64 - 1 -> world_ok cfg n w ->
  world_ok cfg (n + len events) (relay_run events w).
Proof.
  induction events as [|[now ev] events IH]; intros n w H0 Hn Hw; cbn [relay_run].
  - change (len (@nil (Z * RelayEvent))) with 0. by rewrite Z.add_0_r.
  - rewrite len_cons in *. pose proof (len_nonneg events). replace (n + (1 + len events)) with (n + 1 + len events) by lia.
    apply IH; [lia..|]. apply turn_ok; [lia|done].
Qed.
Lemma new_ok cfg : world_ok cfg 0 (World_new cfg).
Proof.
  constructor; cbn -[size]; try done; try lia.
Qed.

(** The pairing table implements the map from each token to the one side
    that waits for it: a request for a token nobody waits for waits, one of the
    opposite side takes the waiting one with both stream ids and both channels,
    one of the same side, and one beyond the session's limit, changes nothing. *)
Theorem relay_pair_refines now sid b tok cid count tx s : server_ok s ->
  let '(out, s') := try_pair now sid b tok cid count tx s in
  out = (if rc_max_pairings_per_session (sv_config s) <=? count then PoLimitExceeded
         else pair_spec sid b tok cid tx (waiter s tok)) /\
  server_ok s' /\
  forall tok', waiter s' tok' =
    if decide (tok' = tok)
    then match out with PoPending => Some (mkLink sid b cid tx now) | PoMatched _ => None | _ => waiter s tok end
    else waiter s tok'.
Proof.
  intros Hs. pose proof (try_pair_spec now sid b tok cid count tx s Hs) as P.
  pose proof (pair_server_ok now sid b tok cid count tx s Hs) as Hok.
  destruct (try_pair now sid b tok cid count tx s) as [out s']. destruct P as (Ho & Ht & _). cbn [snd] in Hok.
  split_and!; [done|done|]. intros tok'. unfold waiter. rewrite Ht.
  destruct (decide (tok' = tok)) as [->|Hne]; destruct out; cbn [pair_table]; try done.
  - rewrite lookup_insert_eq. by destruct b.
  - by rewrite lookup_delete_eq.
  - by rewrite lookup_insert_ne.
  - by rewrite lookup_delete_ne.
Qed.

(** C19: whatever connects, asks, closes, is bridged or swept, and in whatever
    order: at most [max_sessions] sessions are served, every pending token waits
    with exactly one side, whose session is still served and gets the answer,
    the pending counter is the number of pending tokens, the session counter
    that of the slots taken, and every matched pairing joins opposite sides. *)
Theorem relay_books_balance cfg events : len events < 2 ^ 64 - 1 ->
  let w := relay_run events (World_new cfg) in
  let s := wd_server w in
  Z.of_nat (size (wd_sessions w)) <= sv_session_count s <= Z.max 0 (rc_max_sessions cfg) /\
  (forall tok p, sv_pairing s !! tok = Some p ->
     exists l, waiting p l /\ pl_outbound_tx l = pl_session_id l /\ is_Some (wd_sessions w !! pl_session_id l)) /\
  rt_pairings_pending (sv_stats s) = as_i64 (Z.of_nat (size (sv_pairing s))) /\
  rt_sessions_active (sv_stats s) = as_i64 (sv_session_count s) /\
  Forall opposite (wd_matched w).
Proof.
  intros Hn. cbv zeta. destruct (run_ok cfg events 0 (World_new cfg)) as [H1 H2 H3 H4 H5 H6 H7 H8 H9];
    [done|lia|apply new_ok|]. split_and!; try done; [lia| |apply H1].
  intros tok p E. destruct (so_waiting _ H1 tok p E) as [l Hl]. exists l. split; [done|].
  apply (H3 tok). by eapply waiting_waiter.
Qed.

(** ** Two clients *)

Definition client_link (now sid : Z) (b : bool) (cid : Z) : PendingLink := mkLink sid b cid sid now.

Lemma first_request now sid b tok cid count s :
  pair_ok (mkPair b tok cid 0) -> count < rc_max_pairings_per_session (sv_config s) -> sv_pairing s !! tok = None ->
  exists s', on_message now MSG_TYPE_PAIR (wire_pair (mkPair b tok cid 0)) (mkSession sid count) s
    = (mkSession sid (count + 1), s', None, None) /\
    sv_pairing s' = <[tok := set_slot b (Some (client_link now sid b cid)) PendingPairing_empty]> (sv_pairing s) /\
    sv_config s' = sv_config s /\ sv_active s' = sv_active s.
Proof.
  intros Hp Hc Hn. unfold on_message. cbn [MSG_TYPE_PAIR Z.eqb]. rewrite decode_pair_ok by done.
  unfold try_pair. cbn [bs_session_id bs_pairing_count pr_is_initiator pr_token pr_id sv_config touch_session set_activity].
  destruct (Z.leb_spec (rc_max_pairings_per_session (sv_config s)) count); [lia|].
  cbn [upd_stats set_stats sv_pairing touch_session set_activity]. rewrite Hn.
  destruct b; eexists; by split_and!.
Qed.
Lemma second_request now sid b tok cid count s l :
  pair_ok (mkPair b tok cid 0) -> count < rc_max_pairings_per_session (sv_config s) ->
  sv_pairing s !! tok = Some (set_slot (negb b) (Some l) PendingPairing_empty) ->
  exists s', on_message now MSG_TYPE_PAIR (wire_pair (mkPair b tok cid 0)) (mkSession sid count) s
    = (mkSession sid count, s', Some (mkMatched tok
         (mkSide (pl_session_id l) (pl_is_initiator l) (pl_client_stream_id l) (pl_outbound_tx l)) (mkSide sid b cid sid)), None) /\
    sv_config s' = sv_config s /\ sv_active s' = sv_active s.
Proof.
  intros Hp Hc Hn. unfold on_message. cbn [MSG_TYPE_PAIR Z.eqb]. rewrite decode_pair_ok by done.
  unfold try_pair. cbn [bs_session_id bs_pairing_count pr_is_initiator pr_token pr_id sv_config touch_session set_activity].
  destruct (Z.leb_spec (rc_max_pairings_per_session (sv_config s)) count); [lia|].
  cbn [upd_stats set_stats sv_pairing touch_session set_activity]. rewrite Hn.
  destruct b; eexists; by split_and!.
Qed.

Lemma turn_message now sid ty data x q x' s' matched fired w :
  wd_sessions w !! sid = Some (x, q) -> on_message now ty data x (wd_server w) = (x', s', matched, fired) ->
  relay_turn now (ChannelEv sid (Some (EvMessage ty data))) w =
  add_fired (option_list fired) (add_matching matched
    (with_sessions (<[sid := (x', q)]> (wd_sessions w)) (with_server s' w))).
Proof. intros E1 E2. cbn [relay_turn]. unfold channel_turn. by rewrite E1, E2. Qed.

Lemma send_live tx m x q w : wd_sessions w !! tx = Some (x, q) ->
  send_outbound tx m w = with_sessions (<[tx := (x, q ++ [m])]> (wd_sessions w)) w.
Proof. unfold send_outbound. by intros ->. Qed.

(** The answers to the two sides, from the bridge to the channel. *)
Lemma bridged_turn now i tok sa xa ida sb xb idb (w : World) qa qb ya yb :
  wd_matched w !! i = Some (mkMatched tok (mkSide sa xa ida sa) (mkSide sb xb idb sb)) -> sa <> sb ->
  wd_sessions w !! sa = Some (ya, qa) -> wd_sessions w !! sb = Some (yb, qb) -> in_u 32 ida -> in_u 32 idb ->
  in_u 32 (wd_next_stream w + 1) ->
  let la := wd_next_stream w in
  let w' := relay_turn now (BridgeEv i Made) w in
  wd_server w' = wd_server w /\
  wd_sessions w' !! sa = Some (ya, qa ++ [PairMatched tok xa la]) /\
  wd_sessions w' !! sb = Some (yb, qb ++ [PairMatched tok xb (la + 1)]) /\
  wd_bridged w' = wd_bridged w ++ [mkBridged tok (sa, sb) (la, la + 1)] /\
  wd_hooks w' = wd_hooks w ++ [(la, ida); (la + 1, idb)] /\ wd_sent w' = wd_sent w /\
  wd_streams w' = wd_streams w /\ wd_next_teardown w' = wd_next_teardown w.
Proof.
  intros E Hne Ea Eb Ha Hb Hn. cbv zeta. cbn [relay_turn]. unfold bridge_turn. rewrite E. unfold bridge_one_pairing.
  rewrite bool_decide_eq_false_2 by done. cbn [wd_next_stream mp_first mp_second ms_client_stream_id].
  assert ((0 <=? ida) && (ida <? 2 ^ 32) && ((0 <=? idb) && (idb <? 2 ^ 32)) && bool_decide (Made = Made) = true) as ->.
  { unfold in_u in *. rewrite bool_decide_eq_true_2 by done. lia. }
  assert (as_u32 (wd_next_stream w + 1) = wd_next_stream w + 1) as -> by (by apply as_u_id).
  cbn [ms_outbound_tx mp_first mp_second mp_token ms_is_initiator ms_session_id].
  rewrite (send_live sa _ ya qa) by done.
  rewrite (send_live sb _ yb qb) by (cbn [wd_sessions with_sessions]; by rewrite lookup_insert_ne).
  unfold with_sessions. cbn [wd_server wd_sessions wd_bridged wd_hooks wd_sent wd_streams wd_next_teardown].
  split_and!; [done|by rewrite lookup_insert_ne, lookup_insert_eq|by rewrite lookup_insert_eq|done..].
Qed.

Lemma marked_turn now j w bd : wd_bridged w !! j = Some bd ->
  let w' := relay_turn now (MarkEv j) w in
  wd_server w' = mark_active (br_token bd) (br_session_ids bd) (wd_next_teardown w) (wd_server w) /\
  wd_sessions w' = wd_sessions w /\ wd_streams w' = <[br_token bd := br_streams bd]> (wd_streams w) /\
  wd_hooks w' = wd_hooks w /\ wd_sent w' = wd_sent w /\
  wd_waiting w' = <[wd_next_teardown w := br_token bd]> (wd_waiting w).
Proof. intros E. cbv zeta. cbn [relay_turn]. unfold mark_turn. rewrite E. by split_and!. Qed.

Lemma outbound_sent now sid x tok b ls q w : wd_sessions w !! sid = Some (x, PairMatched tok b ls :: q) ->
  pair_ok (mkPair b tok ls 0) ->
  relay_turn now (OutboundEv sid true) w =
  add_sent sid (wire_pair (mkPair b tok ls 0)) (with_sessions (<[sid := (x, q)]> (wd_sessions w)) w).
Proof. intros E Hp. cbn [relay_turn]. unfold outbound_turn. by rewrite E, encode_pair_ok. Qed.

Lemma client_hears b tok ls : pair_ok (mkPair b tok ls 0) ->
  BlindRelayClient_wait_pair b tok [Some (EvMessage MSG_TYPE_PAIR (wire_pair (mkPair b tok ls 0)))] = Some (Ok ls).
Proof.
  intros Hp. cbn [BlindRelayClient_wait_pair MSG_TYPE_PAIR Z.eqb]. rewrite decode_pair_ok by done.
  cbn [pr_token pr_is_initiator pr_id]. rewrite bool_decide_eq_true_2 by done. by destruct b.
Qed.

(** What the service has after two clients were joined. *)
Record joined (w w' : World) (tok : list Z) (a b ida idb : Z) (ma mb : list Z) : Prop := {
  jn_sent : wd_sent w' = wd_sent w ++ [(a, ma); (b, mb)];
  jn_hooks : wd_hooks w' = wd_hooks w ++ [(wd_next_stream w, ida); (wd_next_stream w + 1, idb)];
  jn_streams : wd_streams w' !! tok = Some (wd_next_stream w, wd_next_stream w + 1);
  jn_active : sv_active (wd_server w') !! tok = Some (mkActive (a, b) (wd_next_teardown w));
  jn_waiting : wd_waiting w' !! wd_next_teardown w = Some tok;
  jn_live : is_Some (wd_sessions w' !! a) /\ is_Some (wd_sessions w' !! b)
}.

Definition join_events (now : Z) (w : World) (a b : Z) (ba bb : list Z) : list (Z * RelayEvent) :=
  [(now, ChannelEv a (Some (EvMessage MSG_TYPE_PAIR ba))); (now, ChannelEv b (Some (EvMessage MSG_TYPE_PAIR bb)));
   (now, BridgeEv (length (wd_matched w)) Made); (now, MarkEv (length (wd_bridged w)));
   (now, OutboundEv a true); (now, OutboundEv b true)].

Lemma join_run now w a b x tok ida idb ca cb :
  a <> b -> wd_sessions w !! a = Some (mkSession a ca, []) -> wd_sessions w !! b = Some (mkSession b cb, []) ->
  ca < rc_max_pairings_per_session (sv_config (wd_server w)) ->
  cb < rc_max_pairings_per_session (sv_config (wd_server w)) ->
  sv_pairing (wd_server w) !! tok = None -> fixed_ok 32 tok -> in_u 32 ida -> in_u 32 idb ->
  0 <= wd_next_stream w -> wd_next_stream w + 1 < 2 ^ 32 ->
  joined w (relay_run (join_events now w a b (wire_pair (mkPair x tok ida 0)) (wire_pair (mkPair (negb x) tok idb 0))) w)
    tok a b ida idb (wire_pair (mkPair x tok (wd_next_stream w) 0)) (wire_pair (mkPair (negb x) tok (wd_next_stream w + 1) 0)).
Proof.
  intros Hne Ea Eb Hca Hcb Hn Ht Hia Hib Hl0 Hl1. unfold join_events.
  assert (forall y i, in_u 32 i -> pair_ok (mkPair y tok i 0)) as Hok.
  { intros y i Hi. split_and!; [done| |done]. cbn. unfold in_u in *. pow2. lia. }
  destruct (first_request now a x tok ida ca (wd_server w)) as (s1 & E1 & T1 & C1 & A1); [by apply Hok|done..|].
  cbn [relay_run]. rewrite (turn_message now a _ _ _ _ _ _ _ _ w Ea E1).
  set (w1 := add_fired _ _).
  assert (wd_sessions w1 !! b = Some (mkSession b cb, [])) as Eb1 by (subst w1; cbn; by rewrite lookup_insert_ne).
  destruct (second_request now b (negb x) tok idb cb (wd_server w1) (client_link now a x ida)) as (s2 & E2 & C2 & A2);
    [by apply Hok|by cbn; rewrite C1|by cbn; rewrite T1, lookup_insert_eq, negb_involutive|].
  rewrite (turn_message now b _ _ _ _ _ _ _ _ w1 Eb1 E2). set (w2 := add_fired _ _).
  destruct (bridged_turn now (length (wd_matched w)) tok a x ida b (negb x) idb w2 [] [] (mkSession a (ca + 1)) (mkSession b cb))
    as (B1 & B2 & B3 & B4 & B5 & B6 & B7 & B8).
  { subst w2 w1. cbn. by rewrite app_nil_r, lookup_app_r, Nat.sub_diag by lia. }
  { done. }
  { subst w2 w1. cbn. by rewrite lookup_insert_ne, lookup_insert_eq. }
  { subst w2 w1. cbn. by rewrite lookup_insert_eq. }
  { done. }
  { done. }
  { subst w2 w1. cbn. split; [lia|]. pow2. lia. }
  assert (wd_bridged w2 = wd_bridged w /\ wd_hooks w2 = wd_hooks w /\ wd_sent w2 = wd_sent w /\
    wd_next_stream w2 = wd_next_stream w /\ wd_next_teardown w2 = wd_next_teardown w) as (F1 & F2 & F3 & F4 & F5)
    by (by subst w2 w1).
  rewrite ?F1, ?F2, ?F3, ?F4, ?F5 in *.
  set (w3 := relay_turn now (BridgeEv _ _) _) in *. clearbody w3.
  destruct (marked_turn now (length (wd_bridged w)) w3 (mkBridged tok (a, b) (wd_next_stream w, wd_next_stream w + 1)))
    as (M1 & M2 & M3 & M4 & M5 & M6). { by rewrite B4, lookup_app_r, Nat.sub_diag by lia. }
  set (w4 := relay_turn now (MarkEv _) w3) in *. clearbody w4.
  cbn [br_token br_session_ids br_streams] in *. rewrite B1 in M1. rewrite B8 in M1, M6. rewrite B5 in M4. rewrite B6 in M5.
  assert (in_u 32 (wd_next_stream w)) as Hla by (split; [done|pow2; lia]).
  assert (in_u 32 (wd_next_stream w + 1)) as Hlb by (split; [lia|pow2; lia]).
  rewrite (outbound_sent now a (mkSession a (ca + 1)) tok x (wd_next_stream w) [] w4) by (by rewrite ?M2; auto).
  set (w5 := add_sent a _ _).
  rewrite (outbound_sent now b (mkSession b cb) tok (negb x) (wd_next_stream w + 1) [] w5)
    by (try (by apply Hok); subst w5; cbn; by rewrite lookup_insert_ne, M2).
  subst w5. constructor; cbn.
  - rewrite M5. by rewrite <- app_assoc.
  - done.
  - rewrite M3. by rewrite lookup_insert_eq.
  - rewrite M1. cbn. by rewrite lookup_insert_eq.
  - rewrite M6. by rewrite lookup_insert_eq.
  - split; [rewrite lookup_insert_ne, lookup_insert_eq by done|rewrite lookup_insert_eq]; by eexists.
Qed.

(** The end of either session takes the pairing and its streams away. *)
Lemma close_tears now w w' tok a b ida idb ma mb sid : joined w w' tok a b ida idb ma mb -> sid = a \/ sid = b ->
  let w2 := relay_run [(now, ChannelEv sid None); (now, TeardownEv (wd_next_teardown w))] w' in
  sv_active (wd_server w2) !! tok = None /\ wd_streams w2 !! tok = None.
Proof.
  intros [_ _ J3 J4 J5 [[[xa qa] Ja] [[xb qb] Jb]]] Hsid. cbv zeta. cbn [relay_run relay_turn].
  assert (retain_active sid (mkActive (a, b) (wd_next_teardown w)) = None) as Hr.
  { unfold retain_active. cbn. destruct Hsid as [->| ->]; rewrite Z.eqb_refl; [done|by rewrite orb_true_r]. }
  assert (channel_turn now sid None w' = end_session sid w') as ->.
  { unfold channel_turn. destruct Hsid as [->| ->]; by rewrite ?Ja, ?Jb. }
  unfold end_session. set (r := release_session sid (wd_server w')).
  assert (sv_active (fst r) !! tok = None) as Hact.
  { subst r. unfold release_session. cbn. rewrite lookup_omap, J4. cbn. by rewrite Hr. }
  assert (wd_next_teardown w ∈ snd r) as Hfired.
  { subst r. unfold release_session. cbn [snd]. apply list_elem_of_fmap. exists (mkActive (a, b) (wd_next_teardown w)).
    split; [done|]. apply list_elem_of_filter. split; [done|]. apply list_elem_of_fmap. exists (tok, mkActive (a, b) (wd_next_teardown w)).
    split; [done|]. by apply elem_of_map_to_list. }
  destruct r as [s fired]. cbn [fst snd] in Hact, Hfired.
  unfold teardown_turn. cbn [wd_waiting add_fired with_sessions with_server]. rewrite J5.
  rewrite bool_decide_eq_true_2 by (cbn; apply elem_of_app; by right). cbn. split; [done|apply lookup_delete_eq].
Qed.

(** C18: two clients that ask for the same token from opposite sides are joined:
    the bridge hooks one stream to each client's stream id, each client hears
    the id of the stream that is its own, the pairing is active, and when either
    session ends the pairing and both streams are gone. *)
Theorem relay_pairs_clients now w a b x tok ida idb ca cb :
  a <> b -> wd_sessions w !! a = Some (mkSession a ca, []) -> wd_sessions w !! b = Some (mkSession b cb, []) ->
  ca < rc_max_pairings_per_session (sv_config (wd_server w)) ->
  cb < rc_max_pairings_per_session (sv_config (wd_server w)) ->
  sv_pairing (wd_server w) !! tok = None -> fixed_ok 32 tok -> in_u 32 ida -> in_u 32 idb ->
  0 <= wd_next_stream w -> wd_next_stream w + 1 < 2 ^ 32 ->
  exists ba bb ma mb,
    BlindRelayClient_pair x tok ida = Ok ba /\ BlindRelayClient_pair (negb x) tok idb = Ok bb /\
    let w' := relay_run (join_events now w a b ba bb) w in
    joined w w' tok a b ida idb ma mb /\
    BlindRelayClient_wait_pair x tok [Some (EvMessage MSG_TYPE_PAIR ma)] = Some (Ok (wd_next_stream w)) /\
    BlindRelayClient_wait_pair (negb x) tok [Some (EvMessage MSG_TYPE_PAIR mb)] = Some (Ok (wd_next_stream w + 1)) /\
    forall sid, sid = a \/ sid = b ->
      let w2 := relay_run [(now, ChannelEv sid None); (now, TeardownEv (wd_next_teardown w))] w' in
      sv_active (wd_server w2) !! tok = None /\ wd_streams w2 !! tok = None.
Proof.
  intros Hne Ea Eb Hca Hcb Hn Ht Hia Hib Hl0 Hl1.
  assert (forall y i, 0 <= i < 2 ^ 32 -> pair_ok (mkPair y tok i 0)) as Hok.
  { intros y i Hi. split_and!; [done| |done]. cbn. unfold in_u. pow2. lia. }
  pose proof (join_run now w a b x tok ida idb ca cb Hne Ea Eb Hca Hcb Hn Ht Hia Hib Hl0 Hl1) as J.
  do 4 eexists. split_and!; [by apply encode_pair_ok, Hok|by apply encode_pair_ok, Hok|].
  cbv zeta. split_and!; [exact J|apply client_hears, Hok; lia|apply client_hears, Hok; lia|].
  intros sid Hsid. by apply (close_tears now w _ tok a b ida idb _ _ sid J).
Qed.

(** ** What goes wrong *)

Module RelayExamples.
Definition token (b : Z) : list Z := replicate 32 b.
Definition ask (sid : Z) (x : bool) (t id : Z) : Z * RelayEvent :=
  (0, ChannelEv sid (Some (EvMessage MSG_TYPE_PAIR (wire_pair (mkPair x (token t) id 0))))).
Definition leave (sid t : Z) : Z * RelayEvent :=
  (0, ChannelEv sid (Some (EvMessage MSG_TYPE_UNPAIR ([0] ++ token t)))).
Definition join (t : Z) : list (Z * RelayEvent) := [ask 1 true t 7; ask 2 false t 8; (0, BridgeEv 0 Made); (0, MarkEv 0)].
Definition small_config : BlindRelayServerConfig := mkRelayConfig 2 1 1000 1000.
Definition connect2 : list (Z * RelayEvent) := [(0, Connected true); (0, Connected true)].
End RelayExamples.
Import RelayExamples.

(** The limit on pairings leaks: the count of a session falls only when it
    cancels a pending pairing.  With a limit of one, a session whose one pairing
    was joined and is over (and with no pairing left anywhere) is refused every
    further one, though a fresh session is served. *)
Theorem relay_limit_leaks :
  let w := relay_run (connect2 ++ join 5 ++ [leave 1 5; (0, TeardownEv 0)]) (World_new small_config) in
  sv_pairing (wd_server w) = ∅ /\ sv_active (wd_server w) = ∅ /\ wd_streams w = ∅ /\
  forall now x tok id, fst (try_pair now 1 x tok id
    (match wd_sessions w !! 1 with Some (s, _) => bs_pairing_count s | None => 0 end) 1 (wd_server w)) = PoLimitExceeded.
Proof. cbv zeta. split_and!; [by vm_compute..|]. intros. by vm_compute. Qed.

(** A token that is paired again while it is active takes down both pairings:
    the second overwrites the entry of the first, whose bridge task wakes and
    removes the streams kept under the token, which are the second's. *)
Lemma repair_kills :
  let w := relay_run (connect2 ++ join 5 ++ join 5 ++ [(0, TeardownEv 0)])
             (World_new (mkRelayConfig 2 9 1000 1000)) in
  wd_streams w = ∅ /\ sv_active (wd_server w) !! token 5 = Some (mkActive (1, 2) 1).
Proof. by vm_compute. Qed.

(** A session that ends between the match and the registration of its bridge
    leaves an active pairing nobody releases. *)
Lemma release_race :
  let w := relay_run (connect2 ++ [ask 1 true 5 7; ask 2 false 5 8; (0, ChannelEv 1 None); (0, ChannelEv 2 None);
             (0, BridgeEv 0 Made); (0, MarkEv 0)]) (World_new small_config) in
  wd_sessions w = ∅ /\ sv_active (wd_server w) !! token 5 = Some (mkActive (1, 2) 0) /\ wd_streams w !! token 5 = Some (1, 2).
Proof. by vm_compute. Qed.

(** A connection whose channel does not open keeps its slot. *)
Lemma slot_leaks :
  let w := relay_run [(0, Connected false); (0, Connected false)] (World_new small_config) in
  wd_sessions w = ∅ /\ fst (BlindRelaySession_new 0 (wd_server w)) = None.
Proof. by vm_compute. Qed.

(** Any session that names an active token tears it down. *)
Lemma foreign_unpair :
  let w := relay_run ((0, Connected true) :: connect2 ++ join 5 ++ [leave 3 5; (0, TeardownEv 0)])
             (World_new (mkRelayConfig 3 9 1000 1000)) in
  wd_streams w = ∅ /\ sv_active (wd_server w) = ∅.
Proof. by vm_compute. Qed.

Lemma relay_pair_refines_witness :
  let s := wd_server (relay_run (connect2 ++ [ask 1 true 5 7]) (World_new small_config)) in
  fst (try_pair 0 2 false (token 5) 8 0 2 s) = PoMatched (mkMatched (token 5) (mkSide 1 true 7 1) (mkSide 2 false 8 2)).
Proof.
  cbv zeta. set (w := relay_run _ _).
  assert (server_ok (wd_server w)) as Hs by apply (run_ok small_config (connect2 ++ [ask 1 true 5 7]) 0 _ ltac:(done) ltac:(done) (new_ok _)).
  pose proof (relay_pair_refines 0 2 false (token 5) 8 0 2 (wd_server w) Hs) as P.
  destruct (try_pair 0 2 false (token 5) 8 0 2 (wd_server w)) as [out s']. destruct P as (-> & _ & _). by vm_compute.
Defined.

Lemma relay_books_balance_witness :
  let w := relay_run (connect2 ++ [ask 1 true 5 7; ask 2 true 6 8; (0, ChannelEv 1 None)]) (World_new small_config) in
  Z.of_nat (size (wd_sessions w)) <= sv_session_count (wd_server w) <= 2 /\
  rt_pairings_pending (sv_stats (wd_server w)) = as_i64 (Z.of_nat (size (sv_pairing (wd_server w)))) /\
  size (sv_pairing (wd_server w)) = 1%nat.
Proof.
  cbv zeta.
  destruct (relay_books_balance small_config (connect2 ++ [ask 1 true 5 7; ask 2 true 6 8; (0, ChannelEv 1 None)]) ltac:(done))
    as (H1 & _ & H2 & _). split_and!; [apply H1|apply H1|exact H2|by vm_compute].
Defined.

Lemma relay_pairs_clients_witness :
  let w := relay_run connect2 (World_new small_config) in
  exists ba bb ma mb,
    BlindRelayClient_pair true (token 5) 7 = Ok ba /\ BlindRelayClient_pair false (token 5) 8 = Ok bb /\
    joined w (relay_run (join_events 0 w 1 2 ba bb) w) (token 5) 1 2 7 8 ma mb /\
    BlindRelayClient_wait_pair true (token 5) [Some (EvMessage MSG_TYPE_PAIR ma)] = Some (Ok 1).
Proof.
  cbv zeta. destruct (relay_pairs_clients 0 (relay_run connect2 (World_new small_config)) 1 2 true (token 5) 7 8 0 0)
    as (ba & bb & ma & mb & E1 & E2 & J & H1 & _).
  1: lia.
  1-5: vm_compute; reflexivity.
  1: split; [by apply (bool_decide_unpack _)|reflexivity].
  1-2: unfold in_u; lia.
  1-2: vm_compute; done.
  exists ba, bb, ma, mb. split_and!; [exact E1|exact E2|exact J|exact H1].
Defined.
