(* ===== verification/RelayService.v ===== *)
(** * RelayService: the relay accepts a client's connection
    ([peeroxide-dht/src/relay_service.rs])

    [handle_handshake] answers a [PEER_HANDSHAKE] and [finalize_relay_connection]
    opens the encrypted session on the stream the client dials; creating the
    UDX stream is the transport's. *)

From S2P Require Import Prelude RustStd CompactEncoding Codec Messages HyperdhtMessages HyperdhtWire PayloadWire HyperdhtTheorems Crypto ToyCrypto Noise ToyNoise NoiseTheorems NoiseWrap NoiseWrapTheorems Secretstream ToyStream Pipes SecretSession SecretSessionTheorems BlindRelay.
From stdpp Require Import relations.

#[local] Open Scope Z_scope.

Record RelayServiceConfig := mkServiceConfig {
  sc_relay : BlindRelayServerConfig;
  sc_sweep_interval : Z;
  sc_firewall : Z
}.
Definition RelayServiceConfig_default : RelayServiceConfig :=
  mkServiceConfig BlindRelayServerConfig_default (30 * 1000) FIREWALL_UNKNOWN.

Section RelayService.
Context `{CryptoPrims, NoisePrims, StreamPrims}.

Definition reply_payload (firewall local_stream_id : Z) (addresses4 : list Ipv4Peer) : NoisePayload :=
  mkNoisePayload 1 0 firewall None addresses4 [] (Some (mkUdxInfo 1 true local_stream_id 0))
    (Some (mkSecretStreamInfo 1)) None None.

(** The reply, and what the connection goes on with; a panic of the codec of the
    payloads is one of the handler. *)
Definition handle_handshake (key_pair : KeyPair) (fresh : list Z) (firewall local_stream_id : Z)
    (addresses4 : list Ipv4Peer) (msg : HandshakeMessage) (peer_address : option Ipv4Peer)
    : outcome Empty_set (option HandshakeMessage * option (UdxInfo * NoiseWrapResult)) :=
  let nw := NoiseWrap_new_responder (mkKeypair (kp_public_key key_pair) (kp_secret_key key_pair)) in
  match NoiseWrap_recv (hs_noise msg) nw with
  | (Ok remote_payload, nw) =>
      if negb (np_error remote_payload =? 0) then Ok (None, None)
      else
        match NoiseWrap_send fresh (reply_payload firewall local_stream_id addresses4) nw with
        | (Ok noise_reply, nw) =>
            match NoiseWrap_finalize nw with
            | Ok nw_result =>
                let '(reply_mode, reply_peer_address) :=
                  if (hs_mode msg =? MODE_FROM_RELAY) || (hs_mode msg =? MODE_FROM_SECOND_RELAY)
                  then (MODE_FROM_SERVER, peer_address) else (MODE_REPLY, None) in
                Ok (Some (mkHandshake reply_mode noise_reply reply_peer_address None),
                    (fun remote_udx => (remote_udx, nw_result)) <$> np_udx remote_payload)
            | Err _ => Ok (None, None)
            | Panic => Panic
            end
        | (Err _, _) => Ok (None, None)
        | (Panic, _) => Panic
        end
  | (Err _, _) => Ok (None, None)
  | (Panic, _) => Panic
  end.
(** What goes into [reply_tx]. *)
Definition handshake_reply (reply : option HandshakeMessage) : outcome Empty_set (option (list Z)) :=
  match encode_handshake_to_bytes <$> reply with
  | Some (Ok bytes) => Ok (Some bytes)
  | Some Panic => Panic
  | Some (Err _) | None => Ok None
  end.

(** The session the relay opens on the stream, once the stream exists. *)
Definition finalize_relay_connection (remote_udx : UdxInfo) (noise_result : NoiseWrapResult)
    (fresh_header : list Z) : option (Prog (outcome SecretStreamError SecretStream)) :=
  if (0 <=? ux_id remote_udx) && (ux_id remote_udx <? 2 ^ 32) then
    Some (SecretStream_from_session false (nr_tx noise_result) (nr_rx noise_result)
            (nr_handshake_hash noise_result) (nr_remote_public_key noise_result) fresh_header)
  else None.
End RelayService.

(** C17: a client that knows the relay's public key connects: the relay answers
    its handshake in the mode that goes back the way it came, with its own
    stream id; both ends finalise; and the two programs that open the session on
    the stream end, whatever the schedule of their reads and writes, with each
    opening what the other seals and knowing the other's key. *)
Theorem relay_accepts_client `{CryptoPrims} `{!CryptoLaws _} `{!MacLaws} `{NoisePrims} `{!NoiseLaws} `{StreamPrims}
    si sr ei er p1 udx mode firewall local_id addresses4 peer_address hl hr :
  seed_ok si -> seed_ok sr -> seed_ok ei -> seed_ok er -> len hl = 24 -> len hr = 24 ->
  noise_payload_ok p1 -> np_error p1 = 0 -> np_udx p1 = Some udx -> in_u 32 (ux_id udx) ->
  noise_payload_ok (reply_payload firewall local_id addresses4) ->
  len (wire_noise_payload p1) < 2 ^ 38 - 64 ->
  len (wire_noise_payload (reply_payload firewall local_id addresses4)) < 2 ^ 38 - 64 ->
  exists m1 i1 reply i2 ri rr relay_end,
    NoiseWrap_send ei p1 (NoiseWrap_new_initiator (noise_keypair_from_seed si) (ed25519_public sr)) = (Ok m1, i1) /\
    handle_handshake (KeyPair_from_seed sr) er firewall local_id addresses4
      (mkHandshake mode m1 None None) peer_address = Ok (Some reply, Some (udx, rr)) /\
    (hs_mode reply, hs_peer_address reply) =
      (if decide (mode = MODE_FROM_RELAY \/ mode = MODE_FROM_SECOND_RELAY)
       then (MODE_FROM_SERVER, peer_address) else (MODE_REPLY, None)) /\
    NoiseWrap_recv (hs_noise reply) i1 = (Ok (reply_payload firewall local_id addresses4), i2) /\
    NoiseWrap_finalize i2 = Ok ri /\ finalize_relay_connection udx rr hr = Some relay_end /\
    exists n i r, ends (ed25519_public si) (ed25519_public sr) i r /\
      forall m d,
        nsteps step m (mkConfig (SecretStream_from_session true (nr_tx ri) (nr_rx ri) (nr_handshake_hash ri)
                                   (nr_remote_public_key ri) hl) relay_end [] []) d ->
        (m <= n)%nat /\ nsteps step (n - m) d (mkConfig (Done (Ok i)) (Done (Ok r)) [] []).
Proof.
  intros Hsi Hsr Hei Her Hhl Hhr Hp1 He Hu Hid Hp2 Hl1 Hl2.
  destruct (wrap_exchange si sr ei er p1 (reply_payload firewall local_id addresses4))
    as (m1 & m2 & i1 & r1 & i2 & r2 & ri & rr & E1 & R1 & E2 & R2 & Fi & Fr & Hpair & _); [done..|].
  destruct Hpair as (_ & _ & Ht & Hx & Hh & _ & Hk & Hk').
  exists m1, i1. eexists (mkHandshake _ m2 _ None), i2, ri, rr, _. split_and!; [exact E1| | |exact R2|exact Fi| |].
  - unfold handle_handshake. cbn [hs_noise kp_public_key kp_secret_key KeyPair_from_seed].
    change (mkKeypair (ed25519_public sr) (sr ++ ed25519_public sr)) with (noise_keypair_from_seed sr).
    rewrite R1, He. cbn [Z.eqb negb]. rewrite E2, Fr, Hu. cbn [hs_mode].
    destruct ((mode =? MODE_FROM_RELAY) || (mode =? MODE_FROM_SECOND_RELAY)) eqn:Em.
    + instantiate (1 := if decide (mode = MODE_FROM_RELAY \/ mode = MODE_FROM_SECOND_RELAY) then peer_address else None).
      instantiate (1 := if decide (mode = MODE_FROM_RELAY \/ mode = MODE_FROM_SECOND_RELAY) then MODE_FROM_SERVER else MODE_REPLY).
      rewrite !decide_True by (apply orb_true_iff in Em as [E|E]; apply Z.eqb_eq in E; auto). done.
    + apply orb_false_iff in Em as [A B]. apply Z.eqb_neq in A, B.
      by rewrite !decide_False by (intros [?|?]; contradiction).
  - cbn. by destruct (decide _).
  - unfold finalize_relay_connection. unfold in_u in Hid. 
    assert ((0 <=? ux_id udx) && (ux_id udx <? 2 ^ 32) = true) as -> by lia. reflexivity.
  - rewrite <- Ht, <- Hx, <- Hh, Hk, Hk'.
    pose proof (ids_exchanged (nr_tx ri) (nr_rx ri) (nr_handshake_hash ri) (ed25519_public si) (ed25519_public sr)
      hl hr Hhl Hhr) as Hs. apply rtc_nsteps in Hs as [n Hn].
    eexists n, _, _. split; [|intros m d; apply any_schedule; [exact Hn|apply done_nf]]. by split_and!.
Qed.

Import NoiseExamples SessionExamples NoiseWrapExamples.
#[local] Existing Instances toy_crypto toy_noise toy_mac toy_stream.

Lemma relay_accepts_client_witness : exists m1 i1 reply i2 ri rr relay_end,
  NoiseWrap_send (seed 3) (hello 1)
    (NoiseWrap_new_initiator (noise_keypair_from_seed (seed 1)) (ed25519_public (seed 2))) = (Ok m1, i1) /\
  handle_handshake (KeyPair_from_seed (seed 2)) (seed 4) 0 9 [mkPeer "1.2.3.4" 5]
    (mkHandshake MODE_FROM_RELAY m1 None None) (Some (mkPeer "9.9.9.9" 9)) = Ok (Some reply, Some (mkUdxInfo 1 true 7 0, rr)) /\
  (hs_mode reply, hs_peer_address reply) = (MODE_FROM_SERVER, Some (mkPeer "9.9.9.9" 9)) /\
  NoiseWrap_recv (hs_noise reply) i1 = (Ok (reply_payload 0 9 [mkPeer "1.2.3.4" 5]), i2) /\
  NoiseWrap_finalize i2 = Ok ri /\ finalize_relay_connection (mkUdxInfo 1 true 7 0) rr (replicate 24 8) = Some relay_end /\
  exists n i r, ends (ed25519_public (seed 1)) (ed25519_public (seed 2)) i r /\
    forall m d,
      nsteps step m (mkConfig (SecretStream_from_session true (nr_tx ri) (nr_rx ri) (nr_handshake_hash ri)
                                 (nr_remote_public_key ri) (replicate 24 7)) relay_end [] []) d ->
      (m <= n)%nat /\ nsteps step (n - m) d (mkConfig (Done (Ok i)) (Done (Ok r)) [] []).
Proof.
  apply (relay_accepts_client (seed 1) (seed 2) (seed 3) (seed 4) (hello 1) (mkUdxInfo 1 true 7 0) MODE_FROM_RELAY
    0 9 [mkPeer "1.2.3.4" 5] (Some (mkPeer "9.9.9.9" 9)) (replicate 24 7) (replicate 24 8)).
  1-4: apply seed_good.
  1-2: reflexivity.
  - apply hello_ok. unfold small. lia.
  - reflexivity.
  - reflexivity.
  - unfold in_u. cbn. lia.
  - constructor; reflexivity || by apply (bool_decide_unpack _).
  - vm_compute. reflexivity.
  - vm_compute. reflexivity.
Defined.
