(* ===== verification/Query.v ===== *)
(** * Query: the iterative query engine of [peeroxide-dht/src/query.rs]

    A state machine driven by responses and timeouts: it keeps the [K] nearest
    replies, a stack of pending nodes and what it has seen of each address.
    The fields fixed at creation are in [QueryParams]; the shared routing table
    is read through an argument, [None] standing for a poisoned lock; the
    one-shot channel is the flag [q_result_tx] and the log [q_sent] of what
    went through it. *)

From S2P Require Import Prelude RustStd CompactEncoding Codec Messages Peer RoutingTable.
From Stdlib Require Import Ascii.

#[local] Open Scope Z_scope.

Definition DOWN_HINT_CMD : Z := 3.

Record QueryNode : Type := mkQueryNode { qn_id : NodeId; qn_host : string; qn_port : Z }.

Record QueryReply : Type := mkReply {
  qr_from : Ipv4Peer;
  qr_from_id : option NodeId;
  qr_token : option (list Z);
  qr_closer_nodes : list Ipv4Peer;
  qr_error : Z;
  qr_value : option (list Z);
  qr_rtt : Z;
  qr_to : Ipv4Peer
}.

Record QueryResult : Type := mkQueryResult {
  qs_closest_replies : list QueryReply;
  qs_successes : Z;
  qs_errors : Z
}.

(** [IoResponseData] has the fields of a reply. *)
Record IoResponseData : Type := mkResponseData {
  rd_from : Ipv4Peer;
  rd_from_id : option NodeId;
  rd_token : option (list Z);
  rd_closer_nodes : list Ipv4Peer;
  rd_error : Z;
  rd_value : option (list Z);
  rd_rtt : Z;
  rd_to : Ipv4Peer
}.

(** [io::RequestParams] *)
Record RequestParams : Type := mkParams {
  rp_to : Ipv4Peer;
  rp_token : option (list Z);
  rp_internal : bool;
  rp_command : Z;
  rp_target : option NodeId;
  rp_value : option (list Z);
  rp_timeout_ms : option Z;
  rp_retries : option Z
}.

Inductive QueryRequest : Type :=
| QQuery (p : RequestParams)
| QCommit (p : RequestParams)
| QDownHint (p : RequestParams).

Inductive SeenState : Type :=
| Pending (refs : list Ipv4Peer)
| Done
| Down.

(** The fields no method changes. *)
Record QueryParams : Type := mkQueryParams {
  qp_id : Z;
  qp_target : NodeId;
  qp_internal : bool;
  qp_command : Z;
  qp_value : option (list Z);
  qp_k : nat;
  qp_concurrency : nat;
  qp_commit : bool;
  qp_own_id : NodeId
}.

Record Query : Type := mkQuery {
  q_params : QueryParams;
  q_inflight : nat;
  q_slowdown : bool;
  q_successes : Z;
  q_errors : Z;
  q_from_table : bool;
  q_committing : bool;
  q_commit_inflight : nat;
  q_seen : gmap string SeenState;
  q_pending : list QueryNode;
  q_closest_replies : list QueryReply;
  q_finished : bool;
  q_result_tx : bool;
  q_sent : list QueryResult
}.

(** Assignments to single fields. *)
Definition set_inflight n q := mkQuery (q_params q) n (q_slowdown q) (q_successes q) (q_errors q)
  (q_from_table q) (q_committing q) (q_commit_inflight q) (q_seen q) (q_pending q)
  (q_closest_replies q) (q_finished q) (q_result_tx q) (q_sent q).
Definition set_slowdown b q := mkQuery (q_params q) (q_inflight q) b (q_successes q) (q_errors q)
  (q_from_table q) (q_committing q) (q_commit_inflight q) (q_seen q) (q_pending q)
  (q_closest_replies q) (q_finished q) (q_result_tx q) (q_sent q).
Definition set_counts s e q := mkQuery (q_params q) (q_inflight q) (q_slowdown q) s e
  (q_from_table q) (q_committing q) (q_commit_inflight q) (q_seen q) (q_pending q)
  (q_closest_replies q) (q_finished q) (q_result_tx q) (q_sent q).
Definition set_from_table b q := mkQuery (q_params q) (q_inflight q) (q_slowdown q) (q_successes q)
  (q_errors q) b (q_committing q) (q_commit_inflight q) (q_seen q) (q_pending q)
  (q_closest_replies q) (q_finished q) (q_result_tx q) (q_sent q).
Definition set_committing b n q := mkQuery (q_params q) (q_inflight q) (q_slowdown q) (q_successes q)
  (q_errors q) (q_from_table q) b n (q_seen q) (q_pending q)
  (q_closest_replies q) (q_finished q) (q_result_tx q) (q_sent q).
Definition set_seen s q := mkQuery (q_params q) (q_inflight q) (q_slowdown q) (q_successes q)
  (q_errors q) (q_from_table q) (q_committing q) (q_commit_inflight q) s (q_pending q)
  (q_closest_replies q) (q_finished q) (q_result_tx q) (q_sent q).
Definition set_pending l q := mkQuery (q_params q) (q_inflight q) (q_slowdown q) (q_successes q)
  (q_errors q) (q_from_table q) (q_committing q) (q_commit_inflight q) (q_seen q) l
  (q_closest_replies q) (q_finished q) (q_result_tx q) (q_sent q).
Definition set_closest l q := mkQuery (q_params q) (q_inflight q) (q_slowdown q) (q_successes q)
  (q_errors q) (q_from_table q) (q_committing q) (q_commit_inflight q) (q_seen q) (q_pending q)
  l (q_finished q) (q_result_tx q) (q_sent q).
Definition set_finished b tx sent q := mkQuery (q_params q) (q_inflight q) (q_slowdown q)
  (q_successes q) (q_errors q) (q_from_table q) (q_committing q) (q_commit_inflight q) (q_seen q)
  (q_pending q) (q_closest_replies q) b tx sent.

Definition Query_new (id : Z) (target : NodeId) (internal : bool) (command : Z)
    (value : option (list Z)) (concurrency : nat) (commit : bool) (own_id : NodeId) : Query :=
  mkQuery (mkQueryParams id target internal command value K concurrency commit own_id)
    0 false 0 0 false false 0 ∅ [] [] false true [].

(** [format!("{}:{}", host, port)] *)
Definition addr_of (host : string) (port : Z) : string := host +:+ ":" +:+ pretty port.
Definition peer_addr (p : Ipv4Peer) : string := addr_of (host p) (port p).

(** ** Distance *)

(** [for i in 0..32 { if a[i] == b[i] { continue; } return .. } 0] *)
Fixpoint compare_from (target a b : list Z) : Z :=
  match target, a, b with
  | t :: target, x :: a, y :: b =>
      if x =? y then compare_from target a b else Z.lxor t x - Z.lxor t y
  | _, _, _ => 0
  end.
Definition Query_compare (q : Query) (a b : NodeId) : Z := compare_from (qp_target (q_params q)) a b.

Definition Query_is_closer (q : Query) (id : NodeId) : bool :=
  if (length (q_closest_replies q) <? qp_k (q_params q))%nat then true
  else match last (q_closest_replies q) with
       | Some l => match qr_from_id l with
                   | Some last_id => Query_compare q id last_id <? 0
                   | None => true
                   end
       | None => true
       end.

(** ** push_closest *)

(** The loop, with [n] = [i + 1]; the flag says the copy was removed. *)
Fixpoint bubble (q : Query) (m_id : NodeId) (n : nat) (l : list QueryReply) : list QueryReply * bool :=
  match n with
  | O => (l, false)
  | S i =>
      match l !! i ≫= qr_from_id with
      | None => (l, false)
      | Some prev_id =>
          let cmp := Query_compare q prev_id m_id in
          if cmp <? 0 then (l, false)
          else if cmp =? 0 then (take (S i) l ++ drop (S (S i)) l, true)
          else bubble q m_id i (swap_next i l)
      end
  end.
Definition Query_push_closest (reply : QueryReply) (q : Query) : Query :=
  match qr_from_id reply with
  | None => q
  | Some m_id =>
      let l := q_closest_replies q ++ [reply] in
      let '(l, removed) := bubble q m_id (length l - 1) l in
      if removed then set_closest l q
      else if (qp_k (q_params q) <? length l)%nat then set_closest (take (length l - 1) l) q
      else set_closest l q
  end.

(** ** Down hints *)

Definition encode_ipv4_peer_6 (peer : Ipv4Peer) : option (list Z) :=
  (fun octets => octets ++ to_le 2 (port peer)) <$> ipv4_from_str (host peer).
Definition make_down_hint (to down : Ipv4Peer) : option QueryRequest :=
  (fun value => QDownHint (mkParams to None true DOWN_HINT_CMD None (Some value) None None)) <$>
    encode_ipv4_peer_6 down.

(** ** Pending nodes *)

Definition Query_add_pending_returning (node : QueryNode) (referrer : option Ipv4Peer) (q : Query)
    : (bool * option QueryRequest) * Query :=
  let addr := addr_of (qn_host node) (qn_port node) in
  let is_closer := Query_is_closer q (qn_id node) in
  match q_seen q !! addr with
  | Some Done => ((negb is_closer, None), q)
  | Some Down =>
      let hint := match referrer with
                  | Some ref_node => make_down_hint ref_node (mkPeer (qn_host node) (qn_port node))
                  | None => None
                  end in
      ((negb is_closer, hint), q)
  | Some (Pending refs) =>
      ((negb is_closer, None),
       match referrer with
       | Some ref_node => set_seen (<[addr := Pending (refs ++ [ref_node])]> (q_seen q)) q
       | None => q
       end)
  | None =>
      if negb is_closer then ((true, None), q)
      else
        let refs := match referrer with Some r => [r] | None => [] end in
        ((false, None),
         set_pending (q_pending q ++ [node]) (set_seen (<[addr := Pending refs]> (q_seen q)) q))
  end.
Definition Query_add_pending_impl (node : QueryNode) (referrer : option Ipv4Peer) (q : Query) : Query :=
  (Query_add_pending_returning node referrer q).2.

Definition Query_add_from_table (table : option RoutingTable) (q : Query) : Query :=
  if (qp_k (q_params q) <=? length (q_pending q))%nat then q
  else
    let q := set_from_table true q in
    match table with
    | None => q
    | Some t =>
        let need := (qp_k (q_params q) - length (q_pending q))%nat in
        let nodes := (fun n => mkQueryNode (n_id n) (n_host n) (n_port n)) <$>
                       RoutingTable_closest t (qp_target (q_params q)) need in
        foldl (fun q node => Query_add_pending_impl node None q) q nodes
    end.

(** ** Finishing *)

Definition Query_finish_internal (q : Query) : Query :=
  if q_finished q then q
  else if q_result_tx q
       then set_finished true false
              (q_sent q ++ [mkQueryResult (q_closest_replies q) (q_successes q) (q_errors q)]) q
       else set_finished true false (q_sent q) q.

Definition commit_params (q : Query) : list RequestParams :=
  omap (fun reply => (fun token =>
    mkParams (qr_from reply) (Some token) (qp_internal (q_params q)) (qp_command (q_params q))
      (Some (qp_target (q_params q))) (qp_value (q_params q)) None None) <$> qr_token reply)
    (q_closest_replies q).

Definition Query_flush (q : Query) : list QueryRequest * Query :=
  if q_committing q then ([], q)
  else
    let q := set_committing true (q_commit_inflight q) q in
    if negb (qp_commit (q_params q)) then ([], Query_finish_internal q)
    else
      let params := commit_params q in
      let q := set_committing true (length params) q in
      if (q_commit_inflight q =? 0)%nat then ([], Query_finish_internal q)
      else (QCommit <$> params, q).

(** ** read_more *)

(** [Vec::pop] *)
Definition pop {A} (l : list A) : option (A * list A) :=
  match last l with Some x => Some (x, take (length l - 1) l) | None => None end.

Definition query_request (q : Query) (next : QueryNode) : QueryRequest :=
  QQuery (mkParams (mkPeer (qn_host next) (qn_port next)) None (qp_internal (q_params q))
    (qp_command (q_params q)) (Some (qp_target (q_params q))) (qp_value (q_params q)) None None).

(** The [while] loop: every turn pops a pending node, so their number is
    enough fuel. *)
Fixpoint read_loop (fuel : nat) (effective : nat) (q : Query) : list QueryRequest * Query :=
  match fuel with
  | O => ([], q)
  | S fuel =>
      if (q_inflight q <? effective)%nat then
        match pop (q_pending q) with
        | None => ([], q)
        | Some (next, pending) =>
            let q := set_pending pending q in
            if negb (Query_is_closer q (qn_id next)) then read_loop fuel effective q
            else
              let q := set_inflight (S (q_inflight q)) q in
              let '(reqs, q') := read_loop fuel effective q in
              (query_request q next :: reqs, q')
        end
      else ([], q)
  end.

Definition effective_concurrency (q : Query) : nat :=
  if q_slowdown q then Nat.min 3 (qp_concurrency (q_params q)) else qp_concurrency (q_params q).

(** It calls itself again only after [add_from_table] set [from_table], so two
    levels are enough. *)
Fixpoint read_more (fuel : nat) (table : option RoutingTable) (q : Query) : list QueryRequest * Query :=
  match fuel with
  | O => ([], q)
  | S fuel =>
      if q_finished q || q_committing q then ([], q)
      else
        let '(requests, q) := read_loop (length (q_pending q)) (effective_concurrency q) q in
        let q := if negb (q_from_table q) && (q_successes q =? 0) && (q_errors q =? 0)
                 then set_slowdown true q else q in
        match q_pending q with
        | _ :: _ => (requests, q)
        | [] =>
            if (q_inflight q =? 0)%nat then
              if negb (q_from_table q) && (q_successes q <? as_u32 (Z.of_nat (qp_k (q_params q))) / 4)
              then
                let q := Query_add_from_table table q in
                match q_pending q with
                | _ :: _ => let '(more, q) := read_more fuel table q in (requests ++ more, q)
                | [] => let '(flush_reqs, q) := Query_flush q in (requests ++ flush_reqs, q)
                end
              else let '(flush_reqs, q) := Query_flush q in (requests ++ flush_reqs, q)
            else (requests, q)
        end
  end.
Definition Query_read_more (table : option RoutingTable) (q : Query) : list QueryRequest * Query :=
  read_more 2 table q.
Definition Query_poll_requests (table : option RoutingTable) (q : Query) : list QueryRequest * Query :=
  Query_read_more table q.

(** ** Events *)

Definition sat_dec (n : nat) : nat := if (0 <? n)%nat then (n - 1)%nat else n.

Definition Query_on_timeout (table : option RoutingTable) (to : Ipv4Peer) (q : Query)
    : list QueryRequest * Query :=
  let addr := peer_addr to in
  let refs := match q_seen q !! addr with Some (Pending refs) => refs | _ => [] end in
  let q := set_seen (<[addr := Down]> (q_seen q)) q in
  let requests := omap (fun referrer => make_down_hint referrer to) refs in
  let q := set_inflight (sat_dec (q_inflight q)) q in
  let q := set_counts (q_successes q) (q_errors q + 1) q in
  if negb (q_committing q) then
    let '(more, q) := Query_read_more table q in (requests ++ more, q)
  else (requests, q).

Definition Query_on_commit_done (q : Query) : bool * Query :=
  let q := set_committing (q_committing q) (sat_dec (q_commit_inflight q)) q in
  if (q_commit_inflight q =? 0)%nat then (true, Query_finish_internal q) else (false, q).

Definition Query_is_finished (q : Query) : bool := q_finished q.

Section WithHash.
(** [Blake2b256], used by [peer_id]. *)
Context (blake2b : list Z -> list Z).

(** [peer_id] panics on a host that is not IPv4 text. *)
Fixpoint Query_add_nodes (nodes : list (string * Z)) (q : Query) : outcome Empty_set Query :=
  match nodes with
  | [] => Ok q
  | (h, p) :: nodes =>
      match peer_id blake2b h p with
      | Ok id =>
          if bool_decide (id = qp_own_id (q_params q)) then Query_add_nodes nodes q
          else Query_add_nodes nodes (Query_add_pending_impl (mkQueryNode id h p) None q)
      | _ => Panic
      end
  end.

(** [for node in &data.closer_nodes { .. }], stopping at the first that is not
    closer. *)
Fixpoint add_closer_nodes (from : Ipv4Peer) (nodes : list Ipv4Peer) (q : Query)
    : outcome Empty_set (list QueryRequest * Query) :=
  match nodes with
  | [] => Ok ([], q)
  | node :: nodes =>
      match peer_id blake2b (host node) (port node) with
      | Ok node_id =>
          if bool_decide (node_id = qp_own_id (q_params q)) then add_closer_nodes from nodes q
          else
            let '((should_break, hint), q) :=
              Query_add_pending_returning (mkQueryNode node_id (host node) (port node)) (Some from) q in
            let extra := match hint with Some h => [h] | None => [] end in
            if should_break then Ok (extra, q)
            else
              match add_closer_nodes from nodes q with
              | Ok (more, q) => Ok (extra ++ more, q)
              | Err e => Err e
              | Panic => Panic
              end
      | _ => Panic
      end
  end.

(** The reply a response adds to [closest_replies]. *)
Definition reply_of (data : IoResponseData) : QueryReply :=
  mkReply (rd_from data) (rd_from_id data) (rd_token data) (rd_closer_nodes data)
    (rd_error data) (rd_value data) (rd_rtt data) (rd_to data).
Definition accept_reply (data : IoResponseData) (q : Query) : Query :=
  if rd_error data =? 0 then
    match rd_from_id data with
    | Some id =>
        if Query_is_closer q id then
          Query_push_closest (reply_of data) q
        else q
    | None => q
    end
  else q.

Definition Query_on_response (table : option RoutingTable) (data : IoResponseData) (q : Query)
    : outcome Empty_set (list QueryRequest * Query) :=
  let q := set_inflight (sat_dec (q_inflight q)) q in
  let q := set_seen (<[peer_addr (rd_from data) := Done]> (q_seen q)) q in
  if q_committing q then Ok ([], q)
  else
    let q := if rd_error data =? 0 then set_counts (q_successes q + 1) (q_errors q) q
             else set_counts (q_successes q) (q_errors q + 1) q in
    let q := accept_reply data q in
    match add_closer_nodes (rd_from data) (rd_closer_nodes data) q with
    | Ok (extra, q) =>
        let q := if negb (q_from_table q) &&
                    (as_u32 (Z.of_nat (qp_concurrency (q_params q))) <=? q_successes q + q_errors q)
                 then set_slowdown false q else q in
        let '(more, q) := Query_read_more table q in
        Ok (extra ++ more, q)
    | Err e => Err e
    | Panic => Panic
    end.
End WithHash.

(** ** Bootstrap strings *)

(** [s.rfind(c)] and [s.find(c)], as a split around the character found. *)
Fixpoint split_first (c : ascii) (s : string) : option (string * string) :=
  match s with
  | EmptyString => None
  | String d s => if Ascii.eqb c d then Some (EmptyString, s)
                  else (fun ab => (String d ab.1, ab.2)) <$> split_first c s
  end.
Fixpoint split_last (c : ascii) (s : string) : option (string * string) :=
  match s with
  | EmptyString => None
  | String d s =>
      match split_last c s with
      | Some (a, b) => Some (String d a, b)
      | None => if Ascii.eqb c d then Some (EmptyString, s) else None
      end
  end.
Definition parse_bootstrap_str (s : string) : option (string * Z) :=
  match split_last ":" s with
  | None => None
  | Some (host_part, port_part) =>
      match parse_u16 port_part with
      | None => None
      | Some port =>
          let host := match split_first "@" host_part with Some (ip, _) => ip | None => host_part end in
          Some (host, port)
      end
  end.
