(* ===== verification/QueryProofs.v ===== *)
(** * QueryProofs: lemmas on the query engine

    The comparison of [query.rs] is the XOR order; [push_closest] is a sorted
    insertion followed by a cut at [K]; and what [add_pending], the pending
    loop and [flush] each leave unchanged. *)

From S2P Require Import Prelude RustStd CompactEncoding Codec Messages Peer RoutingTable.
From S2P Require Import RoutingTableProofs Query.

#[local] Open Scope Z_scope.

(** ** [compare] is the XOR order *)

Lemma compare_from_spec target a b :
  length a = length target -> length b = length target ->
  (compare_from target a b ?= 0) = cmp_bytes (xor_bytes a target) (xor_bytes b target).
Proof.
  revert a b. induction target as [|t target IH]; intros [|x a] [|y b] Ha Hb; simplify_eq/=; [done|].
  destruct (Z.eqb_spec x y) as [->|Hne].
  - rewrite Z.compare_refl. auto.
  - rewrite !(Z.lxor_comm t). rewrite <- Z.compare_sub. destruct (Z.compare_spec (Z.lxor x t) (Z.lxor y t)) as [He| |]; [|done..].
    exfalso. apply Hne. apply (f_equal (fun z => Z.lxor z t)) in He.
    by rewrite !Z.lxor_assoc, !Z.lxor_nilpotent, !Z.lxor_0_r in He.
Qed.

Lemma xor_bytes_inj target a b :
  length a = length target -> length b = length target ->
  xor_bytes a target = xor_bytes b target -> a = b.
Proof.
  revert a b. induction target as [|t target IH]; intros [|x a] [|y b] Ha Hb; simplify_eq/=; [done|].
  intros [= He Hr]. f_equal; [|auto].
  apply (f_equal (fun z => Z.lxor z t)) in He.
  by rewrite !Z.lxor_assoc, !Z.lxor_nilpotent, !Z.lxor_0_r in He.
Qed.

(** ** The nearest replies *)

(** The distance of a reply from the target; replies in [closest_replies]
    carry an id. *)
Definition reply_id (r : QueryReply) : NodeId := default [] (qr_from_id r).
Definition rdist (target : NodeId) (r : QueryReply) : list Z := xor_bytes (reply_id r) target.
Definition nearer_reply (target : NodeId) (a b : QueryReply) : Prop :=
  id_lt (rdist target a) (rdist target b).
Definition reply_ok (r : QueryReply) : Prop := exists id, qr_from_id r = Some id /\ id_ok id.

#[global] Instance nearer_reply_trans target : Transitive (nearer_reply target).
Proof. intros a b c. apply id_lt_trans. Qed.

(** The reference: insertion into a sorted list, keeping the older of two
    replies with one id. *)
Fixpoint insert_reply (target : NodeId) (m : QueryReply) (l : list QueryReply) : list QueryReply :=
  match l with
  | [] => [m]
  | r :: l =>
      match cmp_bytes (rdist target r) (rdist target m) with
      | Lt => r :: insert_reply target m l
      | Eq => r :: l
      | Gt => m :: r :: l
      end
  end.

Lemma id_ok_length i : id_ok i -> length i = 32%nat.
Proof. unfold id_ok, fixed_ok, len. intros [_ H]. lia. Qed.

Lemma compare_replies q a b :
  id_ok (qp_target (q_params q)) -> id_ok a -> id_ok b ->
  (Query_compare q a b ?= 0) =
    cmp_bytes (xor_bytes a (qp_target (q_params q))) (xor_bytes b (qp_target (q_params q))).
Proof.
  intros Ht Ha Hb. apply compare_from_spec; rewrite !id_ok_length by done; done.
Qed.

Lemma insert_reply_nearer target m pre l :
  Forall (fun r => nearer_reply target r m) pre ->
  insert_reply target m (pre ++ l) = pre ++ insert_reply target m l.
Proof. induction 1 as [|r pre Hr _ IH]; cbn; [done|]. unfold nearer_reply, id_lt in Hr. by rewrite Hr, IH. Qed.

Lemma insert_reply_head target m l :
  Forall (nearer_reply target m) l -> insert_reply target m l = m :: l.
Proof.
  destruct l as [|r l]; [done|]. rewrite Forall_cons. intros [Hr _]. cbn.
  apply cmp_bytes_gt in Hr. by rewrite Hr.
Qed.

Lemma insert_reply_length target m l : (length (insert_reply target m l) <= S (length l))%nat.
Proof. induction l as [|r l IH]; cbn; [lia|]. destruct (cmp_bytes _ _); cbn; lia. Qed.

Lemma take_middle {A} (a t : list A) x : take (S (length a)) (a ++ x :: t) = a ++ [x].
Proof. induction a; cbn; [done|]. by f_equal. Qed.
Lemma drop_middle {A} (a t : list A) x y : drop (S (S (length a))) (a ++ x :: y :: t) = t.
Proof. by induction a. Qed.

(** The loop moves the reply down past those that are farther. *)
Lemma bubble_spec q m m_id pre : forall post,
  id_ok (qp_target (q_params q)) -> qr_from_id m = Some m_id -> id_ok m_id ->
  Forall reply_ok pre -> StronglySorted (nearer_reply (qp_target (q_params q))) pre ->
  Forall (nearer_reply (qp_target (q_params q)) m) post ->
  exists removed,
    bubble q m_id (length pre) (pre ++ m :: post) =
      (insert_reply (qp_target (q_params q)) m (pre ++ post), removed) /\
    (removed = true -> (length (insert_reply (qp_target (q_params q)) m (pre ++ post)) <= length (pre ++ post))%nat).
Proof.
  induction pre as [|r a IH] using rev_ind; intros post Ht Hm Hid Hok Hs Hpost.
  { exists false. cbn. by rewrite insert_reply_head. }
  apply Forall_app in Hok as [Hoka (rid & Hr & Hrid)%Forall_singleton].
  apply StronglySorted_app in Hs as (Hcross & Hsa & _).
  assert (Hcr : Forall (fun x => nearer_reply (qp_target (q_params q)) x r) a)
    by (apply Forall_forall; intros x Hx; apply Hcross; [done|by apply list_elem_of_singleton]).
  rewrite length_app, Nat.add_comm. cbn [length Nat.add bubble].
  rewrite <- !app_assoc. cbn [app].
  rewrite list_lookup_middle by done. cbn. rewrite Hr.
  pose proof (compare_replies q rid m_id Ht Hrid Hid) as Hc.
  assert (Hdr : rdist (qp_target (q_params q)) r = xor_bytes rid (qp_target (q_params q)))
    by (unfold rdist, reply_id; by rewrite Hr).
  assert (Hdm : rdist (qp_target (q_params q)) m = xor_bytes m_id (qp_target (q_params q)))
    by (unfold rdist, reply_id; by rewrite Hm).
  rewrite <- Hdr, <- Hdm in Hc.
  destruct (Z.compare_spec (Query_compare q rid m_id) 0) as [He|Hlt|Hgt].
  - rewrite He. cbn [Z.ltb Z.eqb Z.compare]. exists true.
    symmetry in Hc. assert (Heq := proj1 (cmp_bytes_eq _ _) Hc).
    assert (Hin : insert_reply (qp_target (q_params q)) m (a ++ r :: post) = a ++ r :: post).
    { rewrite insert_reply_nearer; [cbn; by rewrite Hc|].
      unfold nearer_reply in *. by rewrite Heq in Hcr. }
    rewrite Hin. split; [|done]. f_equal.
    by rewrite take_middle, drop_middle, <- app_assoc.
  - rewrite (proj2 (Z.ltb_lt _ _)) by done. exists false. symmetry in Hc.
    change (r :: m :: post) with ([r] ++ m :: post). change (r :: post) with ([r] ++ post).
    rewrite !(app_assoc a). rewrite insert_reply_nearer, insert_reply_head; [done|done|].
    apply Forall_app. split; [|by apply Forall_singleton].
    eapply Forall_impl; [done|]. intros x Hx. cbn in Hx. by transitivity r.
  - rewrite (proj2 (Z.ltb_ge _ _)), (proj2 (Z.eqb_neq _ _)) by lia.
    symmetry in Hc. apply cmp_bytes_gt in Hc.
    rewrite swap_next_app. apply (IH (r :: post)); try done. by constructor.
Qed.

(** On a sorted list of at most [k] replies, [push_closest] inserts and cuts. *)
Lemma push_closest_spec m m_id q :
  id_ok (qp_target (q_params q)) -> qr_from_id m = Some m_id -> id_ok m_id ->
  Forall reply_ok (q_closest_replies q) ->
  StronglySorted (nearer_reply (qp_target (q_params q))) (q_closest_replies q) ->
  (length (q_closest_replies q) <= qp_k (q_params q))%nat ->
  Query_push_closest m q =
    set_closest (take (qp_k (q_params q))
      (insert_reply (qp_target (q_params q)) m (q_closest_replies q))) q.
Proof.
  intros Ht Hm Hid Hok Hs Hl. unfold Query_push_closest. rewrite Hm.
  rewrite length_app, Nat.add_sub.
  destruct (bubble_spec q m m_id (q_closest_replies q) [] Ht Hm Hid Hok Hs) as (rm & Hb & Hrm); [done|].
  rewrite app_nil_r in *. rewrite Hb. pose proof (insert_reply_length (qp_target (q_params q)) m (q_closest_replies q)).
  destruct rm; [|destruct (Nat.ltb_spec (qp_k (q_params q)) (length (insert_reply (qp_target (q_params q)) m (q_closest_replies q))))].
  - rewrite take_ge by (specialize (Hrm eq_refl); lia). done.
  - do 2 f_equal. lia.
  - by rewrite take_ge by lia.
Qed.

(** [l] holds the [k] nearest of the replies offered, in order, one per id. *)
Record nearest_of (k : nat) (target : NodeId) (offered l : list QueryReply) : Prop := {
  near_ok : Forall reply_ok l;
  near_sorted : StronglySorted (nearer_reply target) l;
  near_length : (length l <= k)%nat;
  near_offered : l ⊆ offered;
  near_best : forall r, r ∈ offered ->
    (exists r', r' ∈ l /\ qr_from_id r' = qr_from_id r) \/
    (length l = k /\ Forall (fun r' => nearer_reply target r' r) l)
}.

Lemma elem_of_insert_reply target m l r : r ∈ insert_reply target m l -> r = m \/ r ∈ l.
Proof.
  induction l as [|x l IH]; cbn; [rewrite list_elem_of_singleton; tauto|].
  destruct (cmp_bytes _ _); rewrite ?elem_of_cons; tauto.
Qed.
Lemma elem_of_insert_reply_old target m l r : r ∈ l -> r ∈ insert_reply target m l.
Proof.
  induction l as [|x l IH]; cbn; [by intros ?%elem_of_nil|].
  destruct (cmp_bytes _ _); rewrite !elem_of_cons; tauto.
Qed.
Lemma elem_of_insert_reply_new target m l :
  exists r, r ∈ insert_reply target m l /\ rdist target r = rdist target m.
Proof.
  induction l as [|x l (r & Hr & He)]; cbn; [exists m; split; [by left|done]|].
  destruct (cmp_bytes _ _) eqn:Hc.
  - apply cmp_bytes_eq in Hc. exists x. split; [by left|done].
  - exists r. split; [by right|done].
  - exists m. split; [by left|done].
Qed.

Lemma insert_reply_sorted target m l :
  StronglySorted (nearer_reply target) l -> StronglySorted (nearer_reply target) (insert_reply target m l).
Proof.
  induction 1 as [|r l Hs IH Hr]; cbn; [by repeat constructor|].
  destruct (cmp_bytes _ _) eqn:Hc; constructor; try done; try by constructor.
  - apply Forall_forall. intros x [->|Hx]%elem_of_insert_reply; [done|].
    rewrite Forall_forall in Hr. by apply Hr.
  - apply cmp_bytes_gt in Hc. constructor; [done|].
    eapply Forall_impl; [done|]. intros x Hx. by transitivity r.
Qed.

Lemma insert_reply_length_ge target m l : (length l <= length (insert_reply target m l))%nat.
Proof. induction l as [|r l IH]; cbn; [lia|]. destruct (cmp_bytes _ _); cbn; lia. Qed.

Lemma same_dist_id target a b :
  id_ok target -> reply_ok a -> reply_ok b -> rdist target a = rdist target b ->
  qr_from_id a = qr_from_id b.
Proof.
  intros Ht (x & Hx & Hxo) (y & Hy & Hyo). unfold rdist, reply_id. rewrite Hx, Hy. cbn.
  intros He. f_equal. eapply xor_bytes_inj; [..|done]; rewrite !id_ok_length by done; done.
Qed.
Lemma same_id_dist target a b :
  qr_from_id a = qr_from_id b -> rdist target a = rdist target b.
Proof. unfold rdist, reply_id. by intros ->. Qed.

Lemma elem_of_take_elem {A} (x : A) k l : x ∈ take k l -> x ∈ l.
Proof. intros (i & Hi & _)%elem_of_take. by eapply list_elem_of_lookup_2. Qed.

(** Cutting a sorted list at [k] keeps the nearest. *)
Lemma take_nearest k target s r :
  id_ok target -> Forall reply_ok s -> StronglySorted (nearer_reply target) s -> reply_ok r ->
  (exists r', r' ∈ s /\ rdist target r' = rdist target r) ->
  (exists r', r' ∈ take k s /\ qr_from_id r' = qr_from_id r) \/
  (length (take k s) = k /\ Forall (fun r' => nearer_reply target r' r) (take k s)).
Proof.
  intros Ht Hok Hs Hr (r' & Hr' & He).
  rewrite <- (take_drop k s) in Hr', Hs. apply elem_of_app in Hr' as [Hin|Hin].
  - left. exists r'. split; [done|]. apply (same_dist_id target); try done.
    rewrite Forall_forall in Hok. apply Hok. by eapply elem_of_take_elem.
  - right. split.
    + rewrite length_take. apply list_elem_of_lookup in Hin as [i Hi].
      apply lookup_lt_Some in Hi. rewrite length_drop in Hi. lia.
    + apply StronglySorted_app in Hs as (Hc & _ & _). apply Forall_forall. intros x Hx.
      unfold nearer_reply. rewrite <- He. by apply Hc.
Qed.

(** A reply that [is_closer] lets in, and one it does not. *)
Lemma is_closer_inv q m m_id offered :
  id_ok (qp_target (q_params q)) -> (0 < qp_k (q_params q))%nat ->
  nearest_of (qp_k (q_params q)) (qp_target (q_params q)) offered (q_closest_replies q) ->
  qr_from_id m = Some m_id -> id_ok m_id ->
  if Query_is_closer q m_id
  then (length (q_closest_replies q) < qp_k (q_params q))%nat \/
       exists r, r ∈ q_closest_replies q /\ nearer_reply (qp_target (q_params q)) m r
  else length (q_closest_replies q) = qp_k (q_params q) /\
       exists l r, q_closest_replies q = l ++ [r] /\
         (qr_from_id r = Some m_id \/ nearer_reply (qp_target (q_params q)) r m).
Proof.
  intros Ht Hk [Hok _ Hlen _ _] Hm Hid. unfold Query_is_closer.
  destruct (Nat.ltb_spec (length (q_closest_replies q)) (qp_k (q_params q))) as [?|Hge]; [by left|].
  destruct (q_closest_replies q) as [|r l _] eqn:Hc using rev_ind; [cbn in Hge; lia|].
  rewrite last_snoc. apply Forall_app in Hok as [_ (rid & Hr & Hrid)%Forall_singleton].
  rewrite Hr. pose proof (compare_replies q m_id rid Ht Hid Hrid) as Hcmp.
  destruct (Z.ltb_spec (Query_compare q m_id rid) 0) as [Hlt|Hle].
  - right. exists r. split; [apply elem_of_app; right; by left|].
    unfold nearer_reply, id_lt, rdist, reply_id. rewrite Hm, Hr. cbn. by rewrite <- Hcmp.
  - split; [lia|]. exists l, r. split; [done|].
    destruct (Z.compare_spec (Query_compare q m_id rid) 0) as [He|?|?]; [|lia|].
    + left. symmetry in Hcmp. apply cmp_bytes_eq, xor_bytes_inj in Hcmp;
        [congruence|rewrite !id_ok_length by done; done..].
    + right. symmetry in Hcmp. apply cmp_bytes_gt in Hcmp.
      unfold nearer_reply, rdist, reply_id. by rewrite Hm, Hr.
Qed.

(** Offering a reply keeps the [k] nearest. *)
Lemma nearest_offer q m m_id offered :
  id_ok (qp_target (q_params q)) -> (0 < qp_k (q_params q))%nat ->
  nearest_of (qp_k (q_params q)) (qp_target (q_params q)) offered (q_closest_replies q) ->
  qr_from_id m = Some m_id -> id_ok m_id -> Forall reply_ok offered ->
  nearest_of (qp_k (q_params q)) (qp_target (q_params q)) (offered ++ [m])
    (q_closest_replies (if Query_is_closer q m_id then Query_push_closest m q else q)).
Proof.
  intros Ht Hk Hn Hm Hid Hoff. pose proof (is_closer_inv q m m_id offered Ht Hk Hn Hm Hid) as Hcl.
  destruct Hn as [Hok Hs Hlen Hsub Hbest]. assert (Hmok : reply_ok m) by (by exists m_id).
  destruct (Query_is_closer q m_id).
  - rewrite (push_closest_spec m m_id) by done. cbn [set_closest q_closest_replies].
    set (s := insert_reply _ m _). set (target := qp_target (q_params q)) in *.
    assert (Hsok : Forall reply_ok s).
    { apply Forall_forall. intros x [->|Hx]%elem_of_insert_reply; [done|].
      rewrite Forall_forall in Hok. by apply Hok. }
    assert (Hss : StronglySorted (nearer_reply target) s) by by apply insert_reply_sorted.
    split.
    + by apply Forall_take.
    + rewrite <- (take_drop (qp_k (q_params q)) s) in Hss. by apply StronglySorted_app_1_l in Hss.
    + rewrite length_take. lia.
    + intros x Hx%elem_of_take_elem%elem_of_insert_reply. rewrite elem_of_app, list_elem_of_singleton.
      destruct Hx; auto.
    + intros r [Hr| ->%list_elem_of_singleton]%elem_of_app.
      2: { apply take_nearest; try done. apply elem_of_insert_reply_new. }
      assert (Hrok : reply_ok r) by (rewrite Forall_forall in Hoff; auto).
      destruct (Hbest r Hr) as [(r' & Hr' & He)|[Hfull Hall]].
      * apply take_nearest; try done. exists r'. split; [by apply elem_of_insert_reply_old|].
        by apply same_id_dist.
      * right. pose proof (insert_reply_length_ge target m (q_closest_replies q)).
        split; [rewrite length_take; unfold s; lia|].
        rewrite Forall_forall in Hall.
        apply Forall_forall. intros x [->|Hx]%elem_of_take_elem%elem_of_insert_reply; [|by apply Hall].
        destruct Hcl as [?|(z & Hz & Hmz)]; [lia|]. transitivity z; [done|by apply Hall].
  - destruct Hcl as (Hfull & l & z & Hl & Hz). split; try done.
    + intros x Hx. apply elem_of_app. left. by apply Hsub.
    + intros r [Hr| ->%list_elem_of_singleton]%elem_of_app; [by apply Hbest|].
      assert (Hzin : z ∈ q_closest_replies q) by (rewrite Hl, elem_of_app; right; by left).
      destruct Hz as [Hz|Hz]; [left; exists z; by rewrite Hm|].
      right. split; [done|]. rewrite Hl in *. apply StronglySorted_app in Hs as (Hcr & _ & _).
      apply Forall_app. split; [|by apply Forall_singleton].
      apply Forall_forall. intros x Hx. transitivity z; [|done]. apply Hcr; [done|by left].
Qed.

(** ** What the helpers leave unchanged *)

(** Everything but [pending], [seen], [slowdown] and [from_table]. *)
Record same_core (q q' : Query) : Prop := {
  sc_params : q_params q' = q_params q;
  sc_inflight : q_inflight q' = q_inflight q;
  sc_successes : q_successes q' = q_successes q;
  sc_errors : q_errors q' = q_errors q;
  sc_committing : q_committing q' = q_committing q;
  sc_commit_inflight : q_commit_inflight q' = q_commit_inflight q;
  sc_closest : q_closest_replies q' = q_closest_replies q;
  sc_finished : q_finished q' = q_finished q;
  sc_result_tx : q_result_tx q' = q_result_tx q;
  sc_sent : q_sent q' = q_sent q
}.
#[global] Instance same_core_refl : Reflexive same_core.
Proof. done. Qed.
#[global] Instance same_core_trans : Transitive same_core.
Proof. intros a b c [] []. split; congruence. Qed.

(** The addresses already asked and those pending are distinct, and all seen. *)
Definition node_addr (n : QueryNode) : string := addr_of (qn_host n) (qn_port n).
Definition addrs_inv (asked : list string) (q : Query) : Prop :=
  NoDup (asked ++ (node_addr <$> q_pending q)) /\
  forall a, a ∈ asked ++ (node_addr <$> q_pending q) -> is_Some (q_seen q !! a).

(** What adding pending nodes does. *)
Record adds (q q' : Query) : Prop := {
  add_core : same_core q q';
  add_from_table : q_from_table q' = q_from_table q;
  add_addrs : forall asked, addrs_inv asked q -> addrs_inv asked q'
}.
#[global] Instance adds_refl : Reflexive adds.
Proof. done. Qed.
#[global] Instance adds_trans : Transitive adds.
Proof. intros a b c [H1 H2 H3] [H4 H5 H6]. split; [by transitivity b|congruence|auto]. Qed.

Lemma seen_insert_addrs asked q a s :
  addrs_inv asked q -> addrs_inv asked (set_seen (<[a := s]> (q_seen q)) q).
Proof.
  intros [Hn Hs]. split; [done|]. intros b Hb. cbn [set_seen q_seen].
  destruct (decide (a = b)) as [->|?]; [rewrite lookup_insert_eq|rewrite lookup_insert_ne by done]; eauto.
Qed.

Lemma add_pending_adds node referrer q : adds q (Query_add_pending_returning node referrer q).2.
Proof.
  unfold Query_add_pending_returning. fold (node_addr node).
  destruct (q_seen q !! node_addr node) as [[refs| |]|] eqn:Hseen; cbn [snd]; try done.
  - destruct referrer; [|done]. split; [done|done|]. intros asked. apply seen_insert_addrs.
  - destruct (Query_is_closer _ _); cbn [negb snd]; [|done].
    split; [done|done|]. intros asked [Hn Hs]. unfold addrs_inv.
    cbn [set_pending set_seen q_pending q_seen]. rewrite fmap_app, app_assoc.
    cbn [fmap list_fmap]. split.
    + apply NoDup_app. split_and!; [done| |apply NoDup_singleton].
      intros a Ha ->%list_elem_of_singleton. apply Hs in Ha as [? Ha]. congruence.
    + intros a [Ha| ->%list_elem_of_singleton]%elem_of_app; [|by rewrite lookup_insert_eq].
      destruct (decide (node_addr node = a)) as [<-|?]; [by rewrite lookup_insert_eq|].
      rewrite lookup_insert_ne by done. by apply Hs.
Qed.

Lemma add_pending_foldl_adds nodes q :
  adds q (foldl (fun q node => Query_add_pending_impl node None q) q nodes).
Proof.
  revert q. induction nodes as [|n nodes IH]; intros q; cbn; [done|].
  etransitivity; [|apply IH]. apply add_pending_adds.
Qed.

Lemma add_from_table_spec table q :
  same_core q (Query_add_from_table table q) /\
  (forall asked, addrs_inv asked q -> addrs_inv asked (Query_add_from_table table q)) /\
  ((length (q_pending q) < qp_k (q_params q))%nat -> q_from_table (Query_add_from_table table q) = true).
Proof.
  unfold Query_add_from_table. destruct (Nat.leb_spec (qp_k (q_params q)) (length (q_pending q))).
  { split_and!; [done|auto|lia]. }
  destruct table as [t|]; [|done].
  destruct (add_pending_foldl_adds ((fun n => mkQueryNode (n_id n) (n_host n) (n_port n)) <$>
    RoutingTable_closest t (qp_target (q_params (set_from_table true q)))
      (qp_k (q_params (set_from_table true q)) - length (q_pending (set_from_table true q))))
    (set_from_table true q)) as [Hc Hf Ha].
  split_and!; [|exact Ha|by rewrite Hf].
  by transitivity (set_from_table true q).
Qed.

Lemma add_nodes_adds blake2b nodes q q' : Query_add_nodes blake2b nodes q = Ok q' -> adds q q'.
Proof.
  revert q. induction nodes as [|[h p] nodes IH]; intros q; cbn [Query_add_nodes]; [by intros [= ->]|].
  destruct (peer_id blake2b h p) as [id| |]; [|done..]. case_bool_decide; [apply IH|].
  intros Hr%IH. etransitivity; [|exact Hr]. apply add_pending_adds.
Qed.

Definition is_hint (r : QueryRequest) : Prop := match r with QDownHint _ => True | _ => False end.

Lemma add_pending_hint node referrer q h :
  (Query_add_pending_returning node referrer q).1.2 = Some h -> is_hint h.
Proof.
  unfold Query_add_pending_returning. destruct (q_seen q !! _) as [[]|]; try done.
  - destruct referrer; [|done]. unfold make_down_hint. cbn.
    destruct (encode_ipv4_peer_6 _); [|done]. by intros [= <-].
  - by destruct (negb _).
Qed.

Lemma add_closer_adds blake2b from nodes q extra q' :
  add_closer_nodes blake2b from nodes q = Ok (extra, q') -> adds q q' /\ Forall is_hint extra.
Proof.
  revert q extra. induction nodes as [|n nodes IH]; intros q extra; cbn [add_closer_nodes].
  { by intros [= <- ->]. }
  destruct (peer_id blake2b (host n) (port n)) as [id| |]; [|done..]. case_bool_decide; [apply IH|].
  pose proof (add_pending_adds (mkQueryNode id (host n) (port n)) (Some from) q) as Ha.
  pose proof (add_pending_hint (mkQueryNode id (host n) (port n)) (Some from) q) as Hh.
  destruct (Query_add_pending_returning _ _ q) as [[br hint] q1]. cbn [fst snd] in *.
  assert (Forall is_hint (match hint with Some h => [h] | None => [] end))
    by (destruct hint; [apply Forall_singleton; auto|done]).
  destruct br; [by intros [= <- <-]|].
  destruct (add_closer_nodes blake2b from nodes q1) as [[more q2]| |] eqn:Hrec; [|done..].
  intros [= <- <-]. apply IH in Hrec as [Ha2 Hm]. split; [by transitivity q1|by apply Forall_app].
Qed.

(** ** The pending loop *)

Lemma pop_spec {A} (l l' : list A) x : pop l = Some (x, l') -> l = l' ++ [x].
Proof.
  unfold pop. destruct l as [|y l _] using rev_ind; [done|]. rewrite last_snoc.
  rewrite length_app, Nat.add_sub, take_app_length. by intros [= <- <-].
Qed.
Lemma pop_none {A} (l : list A) : pop l = None -> l = [].
Proof. unfold pop. destruct l as [|y l _] using rev_ind; [done|]. by rewrite last_snoc. Qed.

(** The parameters of the phase-1 and of the commit requests of a batch. *)
Definition query_reqs (l : list QueryRequest) : list RequestParams :=
  omap (fun r => match r with QQuery p => Some p | _ => None end) l.
Definition commit_reqs (l : list QueryRequest) : list RequestParams :=
  omap (fun r => match r with QCommit p => Some p | _ => None end) l.
Definition req_addr (p : RequestParams) : string := peer_addr (rp_to p).

Lemma hints_no_query l : Forall is_hint l -> query_reqs l = [] /\ commit_reqs l = [].
Proof. induction 1 as [|[] l Hr Hl IH]; cbn in *; tauto. Qed.

Lemma pop_addrs asked q next pending :
  q_pending q = pending ++ [next] -> addrs_inv asked q ->
  addrs_inv (asked ++ [node_addr next]) (set_pending pending q) /\ addrs_inv asked (set_pending pending q).
Proof.
  unfold addrs_inv. cbn [set_pending q_pending q_seen]. intros -> [Hn Hs].
  rewrite fmap_app in *. cbn [fmap list_fmap] in *. rewrite <- app_assoc in *.
  rewrite (Permutation_app_comm (node_addr <$> pending) [node_addr next]) in Hn.
  split; split; [done| | |].
  - intros a Ha. apply Hs. rewrite !elem_of_app in *. tauto.
  - apply NoDup_app in Hn as (Ha & Hd & Hp). apply NoDup_app in Hp as (_ & _ & Hp).
    apply NoDup_app. split_and!; [done| |done].
    intros a Ha1 Ha2. apply (Hd a Ha1), elem_of_app. by right.
  - intros a Ha. apply Hs. rewrite !elem_of_app in *. tauto.
Qed.

Lemma read_loop_spec fuel eff : forall q reqs q',
  (length (q_pending q) <= fuel)%nat -> read_loop fuel eff q = (reqs, q') ->
  same_core (set_inflight (length (query_reqs reqs) + q_inflight q) q) q' /\
  q_from_table q' = q_from_table q /\ commit_reqs reqs = [] /\
  (forall asked, addrs_inv asked q -> addrs_inv (asked ++ (req_addr <$> query_reqs reqs)) q') /\
  (q_pending q' = [] \/ (eff <= q_inflight q')%nat).
Proof.
  induction fuel as [|fuel IH]; intros q reqs q' Hf; cbn [read_loop].
  { intros [= <- <-]. cbn. split_and!; try done; [intros asked; by rewrite app_nil_r|].
    left. apply nil_length_inv. lia. }
  destruct (Nat.ltb_spec (q_inflight q) eff) as [Hlt|Hge].
  2: { intros [= <- <-]. cbn. split_and!; try done; [intros asked; by rewrite app_nil_r|..]; auto. }
  destruct (pop (q_pending q)) as [[next pending]|] eqn:Hp.
  2: { apply pop_none in Hp. intros [= <- <-]. cbn.
       split_and!; try done; [intros asked; by rewrite app_nil_r|..]; auto. }
  apply pop_spec in Hp. rewrite Hp, length_app in Hf. cbn [length] in Hf.
  destruct (Query_is_closer _ _); cbn [negb].
  - destruct (read_loop fuel eff _) as [reqs1 q1] eqn:Hr. intros [= <- <-].
    apply IH in Hr as (Hc & Ht & Hcm & Ha & He); [|cbn; lia].
    unfold query_reqs, commit_reqs in *. cbn [omap list_omap query_request length fmap list_fmap] in *.
    split_and!; try done.
    + destruct Hc. split; try done. cbn in *. lia.
    + intros asked Has. rewrite cons_middle, app_assoc. apply Ha.
      by apply (pop_addrs asked q next pending Hp).
  - intros Hr. apply IH in Hr as (Hc & Ht & Hcm & Ha & He); [|cbn; lia].
    split_and!; try done; [by destruct Hc|].
    intros asked Has. apply Ha. by apply (pop_addrs asked q next pending Hp).
Qed.
