(* ===== verification/QueryTheorems.v ===== *)
(** * QueryTheorems: what an iterative query does over its whole life

    A [Drive] is a query with the bookkeeping of its owner, the [DhtNode]:
    which requests the query handed out and how many of them have been
    answered.  A response or a timeout is delivered only for an outstanding
    phase-1 request, a commit completion only for an outstanding commit
    request; otherwise the events come in any order, from any peer and with
    any routing table.  The theorems are about every run from [Query::new]. *)

From S2P Require Import Prelude RustStd CompactEncoding Codec Messages Peer RoutingTable.
From S2P Require Import RoutingTableProofs Query QueryProofs.

#[local] Open Scope Z_scope.

(** ** Runs *)

Inductive Event : Type :=
| EvAddNodes (nodes : list (string * Z))
| EvAddFromTable (table : option RoutingTable)
| EvPoll (table : option RoutingTable)
| EvResponse (table : option RoutingTable) (data : IoResponseData)
| EvTimeout (table : option RoutingTable) (to : Ipv4Peer)
| EvCommitDone.

Record Drive : Type := mkDrive {
  d_query : Query;
  d_asked : list RequestParams;
  d_commits : list RequestParams;
  d_answered : nat;
  d_committed : nat;
  d_polled : bool;
  d_offered : list QueryReply
}.

Definition start (q : Query) : Drive := mkDrive q [] [] 0 0 false [].

(** The requests of a batch are sent. *)
Definition absorb (reqs : list QueryRequest) (q : Query) (d : Drive) : Drive :=
  mkDrive q (d_asked d ++ query_reqs reqs) (d_commits d ++ commit_reqs reqs)
    (d_answered d) (d_committed d) (d_polled d) (d_offered d).

(** The successful replies with a proven id. *)
Definition offers (data : IoResponseData) : list QueryReply :=
  match rd_from_id data with
  | Some _ => if rd_error data =? 0 then [reply_of data] else []
  | None => []
  end.

Section Runs.
Context (blake2b : list Z -> list Z).
(** The fields fixed at creation. *)
Context (params : QueryParams).

(** [None]: the event is not enabled, or the code panics. *)
Definition drive_step (e : Event) (d : Drive) : option Drive :=
  match e with
  | EvAddNodes nodes =>
      match Query_add_nodes blake2b nodes (d_query d) with
      | Ok q => Some (absorb [] q d)
      | _ => None
      end
  | EvAddFromTable table => Some (absorb [] (Query_add_from_table table (d_query d)) d)
  | EvPoll table =>
      let '(reqs, q) := Query_poll_requests table (d_query d) in
      let d := absorb reqs q d in
      Some (mkDrive q (d_asked d) (d_commits d) (d_answered d) (d_committed d) true (d_offered d))
  | EvResponse table data =>
      if (d_answered d <? length (d_asked d))%nat then
        match Query_on_response blake2b table data (d_query d) with
        | Ok (reqs, q) =>
            let d := absorb reqs q d in
            Some (mkDrive q (d_asked d) (d_commits d) (S (d_answered d)) (d_committed d)
                    (d_polled d) (d_offered d ++ offers data))
        | _ => None
        end
      else None
  | EvTimeout table to =>
      if (d_answered d <? length (d_asked d))%nat then
        let '(reqs, q) := Query_on_timeout table to (d_query d) in
        let d := absorb reqs q d in
        Some (mkDrive q (d_asked d) (d_commits d) (S (d_answered d)) (d_committed d)
                (d_polled d) (d_offered d))
      else None
  | EvCommitDone =>
      if (d_committed d <? length (d_commits d))%nat then
        let q := (Query_on_commit_done (d_query d)).2 in
        Some (mkDrive q (d_asked d) (d_commits d) (d_answered d) (S (d_committed d))
                (d_polled d) (d_offered d))
      else None
  end.

Fixpoint drive (es : list Event) (d : Drive) : option Drive :=
  match es with
  | [] => Some d
  | e :: es => d ← drive_step e d; drive es d
  end.

(** An id in a response is an array of 32 bytes. *)
Definition event_ok (e : Event) : Prop :=
  match e with
  | EvResponse _ data => match rd_from_id data with Some id => id_ok id | None => True end
  | _ => True
  end.
#[global] Instance event_ok_dec e : Decision (event_ok e).
Proof. destruct e as [| | |t data| |]; try apply _. cbn. destruct (rd_from_id data); apply _. Defined.

(** ** The invariant of a run *)

Definition result_of (q : Query) : QueryResult :=
  mkQueryResult (q_closest_replies q) (q_successes q) (q_errors q).

(** [asked] and [commits] are the requests handed out, [na] and [nc] how many
    of them completed. *)
Record query_inv (asked : list string) (commits : list RequestParams) (na nc : nat)
    (offered : list QueryReply) (q : Query) : Prop := {
  qi_params : q_params q = params;
  qi_target : id_ok (qp_target (q_params q));
  qi_k : (0 < qp_k (q_params q))%nat;
  qi_concurrency : (0 < qp_concurrency (q_params q))%nat;
  qi_inflight : length asked = (na + q_inflight q)%nat;
  qi_commit_inflight : length commits = (nc + q_commit_inflight q)%nat;
  qi_addrs : addrs_inv asked q;
  qi_counts : q_successes q + q_errors q = Z.of_nat na;
  qi_idle : q_committing q = true -> q_inflight q = 0%nat;
  qi_commit : q_committing q = true -> q_finished q = (q_commit_inflight q =? 0)%nat;
  qi_finished : q_finished q = true -> q_committing q = true;
  qi_tx : q_result_tx q = negb (q_finished q);
  qi_sent : q_sent q = if q_finished q then [result_of q] else [];
  qi_commits : commits = if q_committing q && qp_commit (q_params q) then commit_params q else [];
  qi_nearest : nearest_of (qp_k (q_params q)) (qp_target (q_params q)) offered (q_closest_replies q);
  qi_offered : Forall reply_ok offered
}.

(** The query waits for something, or is done. *)
Definition active (q : Query) : Prop :=
  q_finished q = true \/ q_committing q = true \/ (0 < q_inflight q)%nat.

Lemma result_of_core q q' : same_core q q' -> result_of q' = result_of q.
Proof. unfold result_of. by intros [? ? -> -> ? ? -> ? ? ?]. Qed.
Lemma commit_params_core q q' : same_core q q' -> commit_params q' = commit_params q.
Proof. unfold commit_params. by intros [-> ? ? ? ? ? -> ? ? ?]. Qed.

(** The invariant depends on the core and on the addresses only. *)
Lemma query_inv_core asked commits na nc offered q q' :
  same_core q q' -> (addrs_inv asked q -> addrs_inv asked q') ->
  query_inv asked commits na nc offered q -> query_inv asked commits na nc offered q'.
Proof.
  intros Hc Ha []. pose proof (result_of_core _ _ Hc) as Hres. pose proof (commit_params_core _ _ Hc) as Hcp.
  destruct Hc as [Hp Hi Hs He Hcm Hci Hcl Hf Ht Hse].
  split; rewrite ?Hp, ?Hi, ?Hs, ?He, ?Hcm, ?Hci, ?Hcl, ?Hf, ?Ht, ?Hse, ?Hres, ?Hcp; try done; try congruence; auto.
Qed.
Lemma active_core q q' : same_core q q' -> active q -> active q'.
Proof. unfold active. by intros [? -> ? ? -> ? ? -> ? ?]. Qed.

Lemma finish_eq q :
  q_finished q = false -> q_result_tx q = true -> q_sent q = [] ->
  Query_finish_internal q = set_finished true false [result_of q] q.
Proof. intros Hf Htx Hs. unfold Query_finish_internal. by rewrite Hf, Htx, Hs. Qed.

Lemma commit_reqs_commit l : commit_reqs (QCommit <$> l) = l /\ query_reqs (QCommit <$> l) = [].
Proof. induction l as [|p l [IH1 IH2]]; cbn; [done|]. unfold commit_reqs, query_reqs in *. by rewrite IH1, IH2. Qed.

(** [flush] starts the commit phase once nothing is in flight. *)
Lemma flush_inv asked commits na nc offered q reqs q' :
  query_inv asked commits na nc offered q -> q_committing q = false -> q_inflight q = 0%nat ->
  Query_flush q = (reqs, q') ->
  query_inv asked (commits ++ commit_reqs reqs) na nc offered q' /\ query_reqs reqs = [] /\
  q_committing q' = true.
Proof.
  intros Hinv Hc Hi. destruct Hinv. rewrite Hc in *. cbn [andb] in *. subst commits. cbn [length app] in *.
  assert (q_finished q = false) as Hf by (destruct (q_finished q); [by specialize (qi_finished0 eq_refl)|done]).
  rewrite Hf in *. cbn [negb] in *.
  assert (nc = 0%nat /\ q_commit_inflight q = 0%nat) as [-> Hci] by lia.
  unfold Query_flush. rewrite Hc. cbv zeta.
  change (commit_params (set_committing true (q_commit_inflight q) q)) with (commit_params q).
  change (q_commit_inflight (set_committing true (length (commit_params q)) _)) with (length (commit_params q)).
  change (q_params (set_committing _ _ q)) with (q_params q).
  destruct (qp_commit (q_params q)) eqn:Hcommit; cbn [negb].
  - destruct (Nat.eqb_spec (length (commit_params q)) 0) as [H0|H0].
    + assert (commit_params q = []) as Hnil by by apply nil_length_inv.
      rewrite finish_eq by done. intros [= <- <-]. split_and!; [|done|done].
      split; try done; cbn; rewrite ?Hcommit; try done; try lia. by rewrite H0.
    + intros [= <- <-]. destruct (commit_reqs_commit (commit_params q)) as [-> ->].
      split_and!; [|done|done]. split; try done; cbn; rewrite ?Hcommit, ?Hf; try done; try lia.
      intros _. symmetry. by apply Nat.eqb_neq.
  - rewrite finish_eq by done. intros [= <- <-]. split_and!; [|done|done].
    split; try done; cbn; rewrite ?Hcommit, ?Hci; done.
Qed.

Lemma read_loop_inv asked commits na nc offered q reqs q' :
  query_inv asked commits na nc offered q -> q_committing q = false ->
  read_loop (length (q_pending q)) (effective_concurrency q) q = (reqs, q') ->
  query_inv (asked ++ (req_addr <$> query_reqs reqs)) commits na nc offered q' /\
  q_committing q' = false /\ commit_reqs reqs = [] /\ q_from_table q' = q_from_table q /\
  (q_pending q' = [] \/ (0 < q_inflight q')%nat).
Proof.
  intros Hinv Hc Hr. pose proof (qi_concurrency _ _ _ _ _ _ Hinv).
  apply read_loop_spec in Hr as (Hcore & Ht & Hcm & Ha & He); [|done].
  assert (q_committing q' = false) as Hc' by (rewrite (sc_committing _ _ Hcore); done).
  split_and!; try done.
  - apply (query_inv_core _ _ _ _ _ (set_pending (q_pending q') (set_seen (q_seen q')
      (set_inflight (length (query_reqs reqs) + q_inflight q) q))) q').
    + by destruct Hcore.
    + done.
    + destruct Hinv. split; try done; cbn.
      * rewrite length_app, length_fmap. lia.
      * by apply Ha.
      * congruence.
  - destruct He as [He|He]; [by left|right].
    unfold effective_concurrency in He. destruct (q_slowdown q); lia.
Qed.

Definition handed_out (asked : list string) (commits : list RequestParams) (na nc : nat)
    (offered : list QueryReply) (r : list QueryRequest * Query) : Prop :=
  query_inv (asked ++ (req_addr <$> query_reqs r.1)) (commits ++ commit_reqs r.1) na nc offered r.2.

Lemma query_reqs_app a b : query_reqs (a ++ b) = query_reqs a ++ query_reqs b.
Proof. apply omap_app. Qed.
Lemma commit_reqs_app a b : commit_reqs (a ++ b) = commit_reqs a ++ commit_reqs b.
Proof. apply omap_app. Qed.

Lemma handed_out_app asked commits na nc offered reqs more q :
  commit_reqs reqs = [] ->
  handed_out (asked ++ (req_addr <$> query_reqs reqs)) commits na nc offered (more, q) ->
  handed_out asked commits na nc offered (reqs ++ more, q).
Proof.
  unfold handed_out. cbn [fst snd]. intros Hc.
  by rewrite query_reqs_app, commit_reqs_app, Hc, fmap_app, app_assoc.
Qed.

Lemma flush_out asked commits na nc offered q reqs :
  query_inv (asked ++ (req_addr <$> query_reqs reqs)) commits na nc offered q ->
  commit_reqs reqs = [] -> q_committing q = false -> q_inflight q = 0%nat ->
  let r := (let '(f, q') := Query_flush q in (reqs ++ f, q')) in
  handed_out asked commits na nc offered r /\ active r.2.
Proof.
  intros Hinv Hcr Hc Hi. destruct (Query_flush q) as [f q'] eqn:Hf.
  eapply flush_inv in Hf as (Hinv' & Hq & Hc'); try done. split; [|right; by left].
  apply handed_out_app; [done|]. unfold handed_out. cbn [fst snd]. by rewrite Hq, app_nil_r.
Qed.

(** Two levels are enough, and afterwards the query is done or waits. *)
Lemma read_more_inv fuel table : forall q asked commits na nc offered,
  query_inv asked commits na nc offered q ->
  (0 < fuel)%nat -> (q_from_table q = false -> (1 < fuel)%nat) ->
  handed_out asked commits na nc offered (read_more fuel table q) /\ active (read_more fuel table q).2.
Proof.
  induction fuel as [|fuel IH]; intros q asked commits na nc offered Hinv Hf Hft; [lia|].
  cbn [read_more]. destruct (q_finished q || q_committing q) eqn:Hd.
  { unfold handed_out, active. cbn. rewrite !app_nil_r. split; [done|].
    apply orb_true_iff in Hd as [?|?]; auto. }
  apply orb_false_iff in Hd as [Hfin Hc].
  destruct (read_loop _ _ q) as [reqs q1] eqn:Hr.
  apply (read_loop_inv asked commits na nc offered) in Hr as (Hinv1 & Hc1 & Hcr & Hft1 & Hp); try done.
  set (q2 := if _ && _ && _ then _ else q1).
  assert (same_core q1 q2 /\ q_pending q2 = q_pending q1 /\ q_from_table q2 = q_from_table q1 /\
          (forall a, addrs_inv a q1 -> addrs_inv a q2)) as (Hs2 & Hp2 & Hft2 & Ha2)
    by (unfold q2; by destruct (_ && _ && _)).
  clearbody q2.
  assert (query_inv (asked ++ (req_addr <$> query_reqs reqs)) commits na nc offered q2) as Hinv2
    by (eapply query_inv_core; eauto).
  assert (q_committing q2 = false) as Hc2 by (by rewrite (sc_committing _ _ Hs2)).
  assert (forall q', q' = q2 -> (0 < q_inflight q2)%nat ->
    handed_out asked commits na nc offered (reqs, q') /\ active q') as Hstop.
  { intros q' -> Hi. split; [|right; by right]. unfold handed_out. cbn [fst snd]. by rewrite Hcr, app_nil_r. }
  rewrite <- Hp2, <- (sc_inflight _ _ Hs2) in Hp.
  destruct (q_pending q2) as [|n pend] eqn:Hpend; [|destruct Hp as [Hp|Hp]; [done|by apply Hstop]].
  destruct (Nat.eqb_spec (q_inflight q2) 0) as [Hi0|Hi0]; [|apply Hstop; [done|lia]].
  destruct (negb (q_from_table q2) && _) eqn:Hfall; [|by apply flush_out].
  apply andb_true_iff in Hfall as [Hnt%negb_true_iff _].
  destruct (add_from_table_spec table q2) as (Hs3 & Ha3 & Hft3).
  set (q3 := Query_add_from_table table q2) in *.
  assert (query_inv (asked ++ (req_addr <$> query_reqs reqs)) commits na nc offered q3) as Hinv3
    by (eapply query_inv_core; eauto).
  assert (q_from_table q3 = true) as Ht3
    by (apply Hft3; rewrite Hpend; apply (qi_k _ _ _ _ _ _ Hinv2)).
  destruct (q_pending q3) as [|n3 p3].
  - apply flush_out; try done; [by rewrite (sc_committing _ _ Hs3)|by rewrite (sc_inflight _ _ Hs3)].
  - assert (1 < S fuel)%nat by (apply Hft; congruence).
    destruct (IH q3 (asked ++ (req_addr <$> query_reqs reqs)) commits na nc offered Hinv3) as [Hh Hact];
      [lia|congruence|].
    destruct (read_more fuel table q3) as [more q4]. split; [|done]. by apply handed_out_app.
Qed.

(** ** Events *)

Lemma not_finished asked commits na nc offered q :
  query_inv asked commits na nc offered q -> q_committing q = false -> q_finished q = false.
Proof.
  intros Hinv Hc. destruct (q_finished q) eqn:Hf; [|done].
  apply (qi_finished _ _ _ _ _ _ Hinv) in Hf. congruence.
Qed.

(** An answer to an outstanding request is counted; before that the query was
    in its first phase. *)
Lemma answered_inv asked commits na nc offered q addr st s e :
  query_inv asked commits na nc offered q -> (na < length asked)%nat ->
  s + e = q_successes q + q_errors q + 1 ->
  q_committing q = false /\
  query_inv asked commits (S na) nc offered
    (set_counts s e (set_seen (<[addr := st]> (q_seen q)) (set_inflight (sat_dec (q_inflight q)) q))).
Proof.
  intros Hinv Hlt Hse. assert (q_committing q = false) as Hc.
  { destruct Hinv. destruct (q_committing q); [|done]. specialize (qi_idle0 eq_refl). lia. }
  pose proof (not_finished _ _ _ _ _ _ Hinv Hc) as Hf. split; [done|].
  pose proof (seen_insert_addrs asked q addr st (qi_addrs _ _ _ _ _ _ Hinv)) as Ha.
  destruct Hinv. split; cbn; rewrite ?Hc, ?Hf in *; try done.
  - unfold sat_dec. destruct (Nat.ltb_spec 0 (q_inflight q)); lia.
  - lia.
Qed.

Lemma accept_inv asked commits na nc offered q data :
  query_inv asked commits na nc offered q -> q_committing q = false ->
  match rd_from_id data with Some id => id_ok id | None => True end ->
  query_inv asked commits na nc (offered ++ offers data) (accept_reply data q) /\
  q_committing (accept_reply data q) = false.
Proof.
  intros Hinv Hc Hid. pose proof (not_finished _ _ _ _ _ _ Hinv Hc) as Hf.
  unfold accept_reply, offers. destruct (rd_from_id data) as [id|] eqn:Hfrom.
  2: { rewrite app_nil_r. by destruct (rd_error data =? 0). }
  destruct (rd_error data =? 0); [|by rewrite app_nil_r].
  destruct Hinv.
  pose proof (nearest_offer q (reply_of data) id offered) as Hn.
  specialize (Hn ltac:(done) ltac:(done) ltac:(done) Hfrom Hid ltac:(done)).
  assert (Forall reply_ok (offered ++ [reply_of data])) as Hoff
    by (apply Forall_app; split; [done|]; apply Forall_singleton; by exists id).
  destruct (Query_is_closer q id); [|by split].
  destruct qi_nearest0. rewrite (push_closest_spec (reply_of data) id q) in * by done.
  split; [|done]. split; cbn in *; rewrite ?Hc, ?Hf in *; done.
Qed.

Lemma commit_done_inv asked commits na nc offered q :
  query_inv asked commits na nc offered q -> (nc < length commits)%nat ->
  query_inv asked commits na (S nc) offered (Query_on_commit_done q).2 /\
  active (Query_on_commit_done q).2.
Proof.
  intros Hinv Hlt. destruct Hinv. destruct (q_committing q) eqn:Hc.
  2: { cbn in qi_commits0. subst. cbn in Hlt. lia. }
  specialize (qi_commit0 eq_refl).
  assert (q_finished q = false) as Hf by (rewrite qi_commit0; apply Nat.eqb_neq; lia).
  rewrite Hf in *. unfold Query_on_commit_done, sat_dec.
  rewrite (proj2 (Nat.ltb_lt _ _)) by lia. cbn [set_committing q_commit_inflight].
  destruct (Nat.eqb_spec (q_commit_inflight q - 1) 0) as [H0|H0]; cbn [snd].
  - rewrite finish_eq by (cbn; done). split; [|by left].
    split; cbn; rewrite ?Hc; try done; [lia|]. by rewrite H0.
  - split; [|right; by left].
    split; cbn; rewrite ?Hc, ?Hf; try done; [lia|]. intros _. symmetry. by apply Nat.eqb_neq.
Qed.

Lemma query_read_more_inv asked commits na nc offered q table :
  query_inv asked commits na nc offered q ->
  handed_out asked commits na nc offered (Query_read_more table q) /\ active (Query_read_more table q).2.
Proof. intros Hinv. apply read_more_inv; [done|lia|lia]. Qed.

(** Down hints are not part of the accounting. *)
Lemma handed_out_hints asked commits na nc offered hints more q :
  Forall is_hint hints -> handed_out asked commits na nc offered (more, q) ->
  handed_out asked commits na nc offered (hints ++ more, q).
Proof.
  intros [Hq Hc]%hints_no_query. unfold handed_out. cbn [fst snd].
  by rewrite query_reqs_app, commit_reqs_app, Hq, Hc.
Qed.

Lemma down_hints_hint to refs : Forall is_hint (omap (fun r => make_down_hint r to) refs).
Proof.
  induction refs as [|r refs IH]; cbn; [done|]. unfold make_down_hint at 1.
  destruct (encode_ipv4_peer_6 to); cbn; [|done]. by constructor.
Qed.

Lemma on_response_inv asked commits na nc offered q table data reqs q' :
  query_inv asked commits na nc offered q -> (na < length asked)%nat ->
  match rd_from_id data with Some id => id_ok id | None => True end ->
  Query_on_response blake2b table data q = Ok (reqs, q') ->
  handed_out asked commits (S na) nc (offered ++ offers data) (reqs, q') /\ active q'.
Proof.
  intros Hinv Hlt Hid. unfold Query_on_response.
  set (s := if rd_error data =? 0 then q_successes q + 1 else q_successes q).
  set (e := if rd_error data =? 0 then q_errors q else q_errors q + 1).
  destruct (answered_inv asked commits na nc offered q (peer_addr (rd_from data)) Done s e Hinv Hlt)
    as [Hc Hinv1]; [unfold s, e; destruct (rd_error data =? 0); lia|].
  cbv zeta. change (q_committing (set_seen _ _)) with (q_committing q). rewrite Hc.
  set (q1 := set_counts s e _) in Hinv1.
  replace (if rd_error data =? 0 then _ else _) with q1
    by (unfold q1, s, e; by destruct (rd_error data =? 0)).
  destruct (accept_inv _ _ _ _ _ q1 data Hinv1 Hc Hid) as [Hinv2 Hc2].
  set (q2 := accept_reply data q1) in *.
  destruct (add_closer_nodes blake2b _ _ q2) as [[extra q3]| |] eqn:Hadd; [|done..].
  apply add_closer_adds in Hadd as [[Hs3 _ Ha3] Hx].
  assert (query_inv asked commits (S na) nc (offered ++ offers data) q3) as Hinv3
    by (eapply query_inv_core; eauto).
  set (q4 := if _ && _ then _ else q3).
  assert (query_inv asked commits (S na) nc (offered ++ offers data) q4) as Hinv4.
  { unfold q4. destruct (_ && _); [|done]. by eapply query_inv_core; [..|exact Hinv3]. }
  apply (query_read_more_inv _ _ _ _ _ _ table) in Hinv4 as [Hh Hact].
  destruct (Query_read_more table q4) as [more q5]. intros [= <- <-].
  split; [|done]. by apply handed_out_hints.
Qed.

Lemma on_timeout_inv asked commits na nc offered q table to :
  query_inv asked commits na nc offered q -> (na < length asked)%nat ->
  let r := Query_on_timeout table to q in
  handed_out asked commits (S na) nc offered r /\ active r.2.
Proof.
  intros Hinv Hlt. unfold Query_on_timeout. cbv zeta.
  destruct (answered_inv asked commits na nc offered q (peer_addr to) Down
    (q_successes q) (q_errors q + 1) Hinv Hlt) as [Hc Hinv1]; [lia|].
  change (q_committing (set_counts _ _ _)) with (q_committing q). rewrite Hc. cbn [negb].
  set (q1 := set_counts _ _ _) in Hinv1.
  apply (query_read_more_inv _ _ _ _ _ _ table) in Hinv1 as [Hh Hact].
  change (set_counts _ _ _) with q1.
  destruct (Query_read_more table q1) as [more q2].
  split; [|done]. apply handed_out_hints; [apply down_hints_hint|done].
Qed.

(** ** Every run *)

Definition drive_inv (d : Drive) : Prop :=
  query_inv (req_addr <$> d_asked d) (d_commits d) (d_answered d) (d_committed d)
    (d_offered d) (d_query d) /\
  (d_polled d = true -> active (d_query d)).

Lemma absorb_inv na nc offered polled reqs q d :
  handed_out (req_addr <$> d_asked d) (d_commits d) na nc offered (reqs, q) ->
  (polled = true -> active q) ->
  drive_inv (mkDrive q (d_asked (absorb reqs q d)) (d_commits (absorb reqs q d)) na nc polled offered).
Proof. unfold handed_out, drive_inv. cbn [fst snd]. intros H Ha. split; [|done]. cbn. by rewrite fmap_app. Qed.

Lemma drive_step_inv e d d' : event_ok e -> drive_inv d -> drive_step e d = Some d' -> drive_inv d'.
Proof.
  intros Hok [Hinv Hact]. destruct e as [nodes|table|table|table data|table to|]; cbn [drive_step].
  - destruct (Query_add_nodes blake2b nodes (d_query d)) as [q| |] eqn:Hq; [|done..].
    apply add_nodes_adds in Hq as [Hs _ Ha]. intros [= <-]. apply absorb_inv.
    + unfold handed_out. cbn. rewrite !app_nil_r. by eapply query_inv_core; eauto.
    + intros Hp. by eapply active_core; eauto.
  - destruct (add_from_table_spec table (d_query d)) as (Hs & Ha & _). intros [= <-]. apply absorb_inv.
    + unfold handed_out. cbn. rewrite !app_nil_r. by eapply query_inv_core; eauto.
    + intros Hp. by eapply active_core; eauto.
  - destruct (query_read_more_inv _ _ _ _ _ _ table Hinv) as [Hh Ha].
    unfold Query_poll_requests. destruct (Query_read_more table (d_query d)) as [reqs q].
    intros [= <-]. by apply absorb_inv.
  - destruct (Nat.ltb_spec (d_answered d) (length (d_asked d))) as [Hlt|]; [|done].
    destruct (Query_on_response blake2b table data (d_query d)) as [[reqs q]| |] eqn:Hr; [|done..].
    eapply on_response_inv in Hr as [Hh Ha]; [|done|by rewrite length_fmap|done].
    intros [= <-]. by apply absorb_inv.
  - destruct (Nat.ltb_spec (d_answered d) (length (d_asked d))) as [Hlt|]; [|done].
    destruct (on_timeout_inv _ _ _ _ _ _ table to Hinv) as [Hh Ha]; [by rewrite length_fmap|].
    destruct (Query_on_timeout table to (d_query d)) as [reqs q].
    intros [= <-]. by apply absorb_inv.
  - destruct (Nat.ltb_spec (d_committed d) (length (d_commits d))) as [Hlt|]; [|done].
    destruct (commit_done_inv _ _ _ _ _ _ Hinv Hlt) as [Hi Ha]. intros [= <-]. by split.
Qed.

Lemma drive_run_inv es d d' :
  Forall event_ok es -> drive_inv d -> drive es d = Some d' -> drive_inv d'.
Proof.
  intros Hok. revert d. induction Hok as [|e es He _ IH]; intros d Hinv; cbn [drive]; [by intros [= <-]|].
  destruct (drive_step e d) as [d1|] eqn:Hs; [|done]. cbn. apply IH. by eapply drive_step_inv.
Qed.

Lemma query_new_inv id target internal command value concurrency commit own_id :
  params = mkQueryParams id target internal command value K concurrency commit own_id ->
  id_ok target -> (0 < concurrency)%nat ->
  drive_inv (start (Query_new id target internal command value concurrency commit own_id)).
Proof.
  intros Hp Ht Hc. split; [|done]. cbn [start d_query d_asked d_commits d_answered d_committed d_offered].
  split; try done; try (cbn; unfold K; lia).
  - split; [constructor|]. by intros a ?%elem_of_nil.
  - split; try done; try (cbn; unfold K; lia); [constructor|]. by intros r ?%elem_of_nil.
Qed.
End Runs.

(** A run of a new query with the given parameters. *)
Definition run_query (blake2b : list Z -> list Z) (p : QueryParams) (es : list Event) : option Drive :=
  drive blake2b es (start (Query_new (qp_id p) (qp_target p) (qp_internal p) (qp_command p)
    (qp_value p) (qp_concurrency p) (qp_commit p) (qp_own_id p))).

(** ** Nodes that are not IPv4 *)

Lemma peer_id_panic blake2b h p : peer_id blake2b h p = Panic <-> ipv4_octets h = None.
Proof. rewrite peer_id_spec. by destruct (ipv4_octets h). Qed.

Lemma add_nodes_panic blake2b nodes q :
  Query_add_nodes blake2b nodes q = Panic <-> Exists (fun hp => ipv4_octets hp.1 = None) nodes.
Proof.
  revert q. induction nodes as [|[h p] nodes IH]; intros q; cbn [Query_add_nodes].
  { by rewrite Exists_nil. }
  rewrite Exists_cons. cbn [fst]. rewrite <- (peer_id_panic blake2b h p).
  pose proof (peer_id_spec blake2b h p) as Hs.
  destruct (peer_id blake2b h p) as [id| |] eqn:Hp.
  - case_bool_decide; rewrite IH; by split; [auto|intros [?|?]].
  - by destruct (ipv4_octets h).
  - by split; [left|].
Qed.

(** ** The claims *)

Section Claims.
Context (blake2b : list Z -> list Z) (p : QueryParams) (es : list Event) (d : Drive).
Context (Htarget : id_ok (qp_target p)) (Hconc : (0 < qp_concurrency p)%nat).
Context (Hevents : Forall event_ok es) (Hrun : run_query blake2b p es = Some d).

Lemma run_query_inv :
  drive_inv (mkQueryParams (qp_id p) (qp_target p) (qp_internal p) (qp_command p) (qp_value p) K
    (qp_concurrency p) (qp_commit p) (qp_own_id p)) d.
Proof. eapply drive_run_inv; [done| |exact Hrun]. by apply query_new_inv. Qed.

(** C1: in every run of a query, [closest_replies] holds the [K] replies that
    are nearest to the target by XOR distance among all the successful replies
    with a proven id that were received: at most [K], strictly sorted, one per
    id, each of them received, and every received reply is either there by its
    id or the list is full of strictly nearer ones. *)
Theorem closest_replies_nearest :
  nearest_of K (qp_target p) (d_offered d) (q_closest_replies (d_query d)).
Proof.
  destruct run_query_inv as [[] _]. by rewrite qi_params0 in qi_nearest0.
Qed.

(** C2: a query never stalls and never finishes early: once it has been
    polled, it is finished exactly when every phase-1 request and every commit
    request it handed out has completed. *)
Theorem query_finishes :
  d_polled d = true ->
  q_finished (d_query d) = true <->
    d_answered d = length (d_asked d) /\ d_committed d = length (d_commits d).
Proof.
  intros Hp. destruct run_query_inv as [[] Hact]. specialize (Hact Hp). rewrite length_fmap in *. split.
  - intros Hf. specialize (qi_finished0 Hf). specialize (qi_idle0 qi_finished0).
    specialize (qi_commit0 qi_finished0). rewrite Hf in qi_commit0.
    symmetry in qi_commit0. apply Nat.eqb_eq in qi_commit0. lia.
  - intros [Ha Hc]. destruct Hact as [?|[Hcm|?]]; [done| |lia].
    rewrite (qi_commit0 Hcm). apply Nat.eqb_eq. lia.
Qed.

(** The result is delivered exactly once, when the query finishes, and
    holds the final replies and counters; every answer was counted; and the
    commit requests are one per closest reply with a token, carrying that
    token, handed out only by a committing query. *)
Theorem query_delivers_once :
  let q := d_query d in
  q_sent q = (if q_finished q
              then [mkQueryResult (q_closest_replies q) (q_successes q) (q_errors q)] else []) /\
  q_successes q + q_errors q = Z.of_nat (d_answered d) /\
  d_commits d = (if q_committing q && qp_commit p then commit_params q else []).
Proof. destruct run_query_inv as [[] _]. by rewrite qi_params0 in qi_commits0. Qed.

(** No address is asked twice in the first phase of a query, whatever the
    peers suggest. *)
Theorem addresses_asked_once : NoDup (req_addr <$> d_asked d).
Proof. destruct run_query_inv as [[] _]. by destruct qi_addrs0 as [[? _]%NoDup_app _]. Qed.
End Claims.

(** [compare] has the sign of the XOR order and is zero only for equal
    ids; and [push_closest], which appends and swaps its way down, is a sorted
    insertion followed by a cut at [k]. *)
Theorem push_closest_equiv q m m_id :
  id_ok (qp_target (q_params q)) -> qr_from_id m = Some m_id -> id_ok m_id ->
  Forall reply_ok (q_closest_replies q) ->
  StronglySorted (nearer_reply (qp_target (q_params q))) (q_closest_replies q) ->
  (length (q_closest_replies q) <= qp_k (q_params q))%nat ->
  (forall id, id_ok id ->
     (Query_compare q id m_id ?= 0) =
       cmp_bytes (xor_bytes id (qp_target (q_params q))) (xor_bytes m_id (qp_target (q_params q))) /\
     (Query_compare q id m_id = 0 <-> id = m_id)) /\
  q_closest_replies (Query_push_closest m q) =
    take (qp_k (q_params q)) (insert_reply (qp_target (q_params q)) m (q_closest_replies q)).
Proof.
  intros Ht Hm Hid Hok Hs Hl. split; [|by rewrite (push_closest_spec m m_id)].
  intros id Hi. pose proof (compare_replies q id m_id Ht Hi Hid) as Hc. split; [done|].
  rewrite <- Z.compare_eq_iff, Hc, cmp_bytes_eq. split; [|by intros ->].
  apply xor_bytes_inj; rewrite !id_ok_length by done; done.
Qed.

(** [add_nodes] panics exactly when one of the nodes is not IPv4 text, and
    the bootstrap parser accepts an IPv6 address. *)
Theorem bootstrap_ipv6_panics blake2b q :
  (forall nodes, Query_add_nodes blake2b nodes q = Panic <->
                 Exists (fun hp => ipv4_octets hp.1 = None) nodes) /\
  parse_bootstrap_str "::1:49737" = Some ("::1", 49737) /\
  Query_add_nodes blake2b [("::1", 49737)] q = Panic.
Proof. split; [intros nodes; apply add_nodes_panic|done]. Qed.

(** ** Witnesses *)

Module QueryWitness.
(** A stand-in for the hash: the address padded to 32 bytes. *)
Definition pad (bs : list Z) : list Z := take 32 (bs ++ replicate 32 0).
Definition peer (n : Z) : Ipv4Peer := mkPeer ("10.0.0." +:+ pretty n) 1.
Definition pid (n : Z) : NodeId := pad [10; 0; 0; n; 1; 0].
Definition p : QueryParams :=
  mkQueryParams 1 (pad [10; 0; 0; 3]) false 2 None K 2 true (pad [1]).
Definition resp (n : Z) (token : option (list Z)) (closer : list Ipv4Peer) : IoResponseData :=
  mkResponseData (peer n) (Some (pid n)) token closer 0 None 5 (peer 9).
(** One bootstrap node suggests two; one of those times out; the commit goes
    to the two that answered with a token. *)
Definition es : list Event :=
  [EvAddNodes [("10.0.0.1", 1)]; EvPoll None;
   EvResponse None (resp 1 (Some (pad [7])) [peer 2; peer 3]);
   EvTimeout None (peer 2);
   EvResponse None (resp 3 (Some (pad [8])) [peer 2]);
   EvCommitDone; EvCommitDone].
Definition final : option Drive := run_query pad p es.
Definition d : Drive := default (start (Query_new 1 [] false 0 None 0 false [])) final.
(** A query that holds two replies. *)
Definition two : Query :=
  set_closest [reply_of (resp 3 None []); reply_of (resp 1 None [])]
    (Query_new 1 (qp_target p) false 2 None 2 true (pad [1])).
End QueryWitness.

Lemma closest_replies_nearest_witness :
  nearest_of K (qp_target QueryWitness.p) (d_offered QueryWitness.d)
    (q_closest_replies (d_query QueryWitness.d)) /\
  length (q_closest_replies (d_query QueryWitness.d)) = 2%nat.
Proof.
  split; [|vm_compute; reflexivity].
  apply (closest_replies_nearest QueryWitness.pad QueryWitness.p QueryWitness.es);
    [by apply (bool_decide_unpack _)|cbn; lia|by apply (bool_decide_unpack _)|vm_compute; reflexivity].
Defined.

Lemma query_finishes_witness :
  (q_finished (d_query QueryWitness.d) = true <->
    d_answered QueryWitness.d = length (d_asked QueryWitness.d) /\
    d_committed QueryWitness.d = length (d_commits QueryWitness.d)) /\
  q_finished (d_query QueryWitness.d) = true.
Proof.
  split; [|vm_compute; reflexivity].
  apply (query_finishes QueryWitness.pad QueryWitness.p QueryWitness.es);
    [by apply (bool_decide_unpack _)|cbn; lia|by apply (bool_decide_unpack _)|vm_compute; reflexivity..].
Defined.

Lemma query_delivers_once_witness :
  (let q := d_query QueryWitness.d in
   q_sent q = (if q_finished q
               then [mkQueryResult (q_closest_replies q) (q_successes q) (q_errors q)] else []) /\
   q_successes q + q_errors q = Z.of_nat (d_answered QueryWitness.d) /\
   d_commits QueryWitness.d =
     (if q_committing q && qp_commit QueryWitness.p then commit_params q else [])) /\
  length (d_commits QueryWitness.d) = 2%nat /\ length (q_sent (d_query QueryWitness.d)) = 1%nat.
Proof.
  split; [|vm_compute; split; reflexivity].
  apply (query_delivers_once QueryWitness.pad QueryWitness.p QueryWitness.es QueryWitness.d);
    [by apply (bool_decide_unpack _)|cbn; lia|by apply (bool_decide_unpack _)|vm_compute; reflexivity].
Defined.

Lemma addresses_asked_once_witness :
  NoDup (req_addr <$> d_asked QueryWitness.d) /\ length (d_asked QueryWitness.d) = 3%nat.
Proof.
  split; [|vm_compute; reflexivity].
  apply (addresses_asked_once QueryWitness.pad QueryWitness.p QueryWitness.es);
    [by apply (bool_decide_unpack _)|cbn; lia|by apply (bool_decide_unpack _)|vm_compute; reflexivity].
Defined.

Lemma push_closest_equiv_witness :
  let m := reply_of (QueryWitness.resp 2 None []) in
  q_closest_replies (Query_push_closest m QueryWitness.two) =
    take (qp_k (q_params QueryWitness.two))
      (insert_reply (qp_target (q_params QueryWitness.two)) m (q_closest_replies QueryWitness.two)) /\
  length (q_closest_replies (Query_push_closest m QueryWitness.two)) = 3%nat.
Proof.
  split; [|vm_compute; reflexivity].
  apply (push_closest_equiv QueryWitness.two (reply_of (QueryWitness.resp 2 None []))
    (QueryWitness.pid 2)).
  - by apply (bool_decide_unpack _).
  - reflexivity.
  - by apply (bool_decide_unpack _).
  - repeat constructor; eexists; (split; [reflexivity|by apply (bool_decide_unpack _)]).
  - repeat constructor.
  - cbn. unfold K. lia.
Defined.
