(* ===== verification/Io.v ===== *)
(** * Io: the request layer, from [peeroxide-dht/src/io.rs]

    Outgoing requests with their transaction ids, retries and timeouts, the
    congestion window, the tokens and their rotating secrets, and the decoding
    of incoming datagrams.  A datagram handed to a socket is appended to
    [io_out]; the clock of a call is its argument [now] (nanoseconds), the
    routing table behind the shared lock is the argument [table].  Counters are
    unbounded integers; [io_taken] is not in the source, it counts the
    transaction ids taken so far. *)

From S2P Require Import Prelude RustStd CompactEncoding Codec Messages Peer RoutingTable Query.

#[local] Open Scope Z_scope.

Definition ERROR_INVALID_TOKEN : Z := 2.
Definition DEFAULT_TIMEOUT_MS : Z := 1000.
Definition DEFAULT_RETRIES : Z := 3.
(** [Duration::from_millis] *)
Definition from_millis (n : Z) : Z := n * 1000000.

(** [Vec::swap_remove]: the last element takes the place of the removed one. *)
Definition swap_remove {A} (i : nat) (l : list A) : option (A * list A) :=
  match l !! i, last l with
  | Some x, Some y => Some (x, take (length l - 1) (<[i := y]> l))
  | _, _ => None
  end.

(** [iter().position(..)] *)
Fixpoint position {A} (f : A -> bool) (l : list A) : option nat :=
  match l with
  | [] => None
  | x :: l => if f x then Some 0%nat else Datatypes.S <$> position f l
  end.

(** ** Types *)

Inductive SocketKind := Client | Server.
#[global] Instance SocketKind_eq_dec : EqDecision SocketKind.
Proof. solve_decision. Defined.

(** The socket a datagram leaves by: one of the two, or one passed in. *)
Inductive Via := ViaKind (k : SocketKind) | ViaSocket.

Record IoStats := mkStats {
  st_active : Z; st_total : Z; st_responses : Z; st_timeouts : Z; st_retries : Z
}.

Record ResolvedRequest := mkResolved {
  rr_tid : Z; rr_to : Ipv4Peer; rr_command : Z; rr_internal : bool; rr_target : option NodeId
}.

(** [reply_ctx] is the socket the request came by. *)
Record IncomingRequest := mkIncoming {
  ir_tid : Z;
  ir_from : Ipv4Peer;
  ir_to : Ipv4Peer;
  ir_id : option NodeId;
  ir_token : option (list Z);
  ir_internal : bool;
  ir_command : Z;
  ir_target : option NodeId;
  ir_value : option (list Z);
  ir_reply_ctx : SocketKind
}.

(** A response: its own fields with the request it resolved. *)
Record IoResponse := mkIoResponse {
  ev_tid : Z;
  ev_from : Ipv4Peer;
  ev_to : Ipv4Peer;
  ev_id : option NodeId;
  ev_token : option (list Z);
  ev_closer_nodes : list Ipv4Peer;
  ev_error : Z;
  ev_value : option (list Z);
  ev_rtt : Z;
  ev_request : ResolvedRequest
}.

Inductive IoEvent :=
| EvRequest (r : IncomingRequest)
| EvResponse (r : IoResponse).

Record TimeoutEvent := mkTimeout {
  te_tid : Z; te_to : Ipv4Peer; te_command : Z; te_internal : bool; te_target : option NodeId
}.

Record InflightEntry := mkInflight {
  ie_tid : Z;
  ie_to : Ipv4Peer;
  ie_addr : SocketAddr;
  ie_internal : bool;
  ie_command : Z;
  ie_target : option NodeId;
  ie_buffer : list Z;
  ie_kind : SocketKind;
  ie_sent : Z;
  ie_retries : Z;
  ie_deadline : Z;
  ie_timestamp : Z;
  ie_timeout : Z
}.

(** ** The congestion window *)

Record CongestionWindow := mkWindow {
  cw_i : nat; cw_total : Z; cw_window : list Z; cw_max_window : Z
}.

Definition CongestionWindow_new (max_window : Z) : CongestionWindow :=
  mkWindow 0 0 (replicate 4 0) max_window.
(** [self.window[self.i]]: the index stays below four. *)
Definition cw_cur (c : CongestionWindow) : Z := nth (cw_i c) (cw_window c) 0.
Definition CongestionWindow_is_full (c : CongestionWindow) : bool :=
  (2 * cw_max_window c <=? cw_total c) || (cw_max_window c <=? cw_cur c).
Definition CongestionWindow_recv (c : CongestionWindow) : CongestionWindow :=
  if 0 <? cw_cur c then
    mkWindow (cw_i c) (cw_total c - 1) (<[cw_i c := cw_cur c - 1]> (cw_window c)) (cw_max_window c)
  else c.
Definition CongestionWindow_send (c : CongestionWindow) : CongestionWindow :=
  mkWindow (cw_i c) (cw_total c + 1) (<[cw_i c := cw_cur c + 1]> (cw_window c)) (cw_max_window c).
(** [(self.i + 1) & 3] *)
Definition CongestionWindow_drain (c : CongestionWindow) : CongestionWindow :=
  let i := ((cw_i c + 1) mod 4)%nat in
  mkWindow i (cw_total c - nth i (cw_window c) 0) (<[i := 0]> (cw_window c)) (cw_max_window c).
Definition CongestionWindow_clear (c : CongestionWindow) : CongestionWindow :=
  mkWindow 0 0 (replicate 4 0) (cw_max_window c).

(** ** The state *)

Record Io := mkIo {
  io_inflight : list InflightEntry;
  io_congestion : CongestionWindow;
  io_pending : list Z;
  io_tid : Z;
  io_secrets : option (list Z * list Z);
  io_rotate_countdown : Z;
  io_firewalled : bool;
  io_ephemeral : bool;
  io_stats : IoStats;
  io_bytes_sent : Z;
  io_bytes_received : Z;
  io_destroying : bool;
  io_out : list (Via * list Z * SocketAddr);
  io_taken : Z
}.

Definition set_inflight v io := mkIo v (io_congestion io) (io_pending io) (io_tid io) (io_secrets io)
  (io_rotate_countdown io) (io_firewalled io) (io_ephemeral io) (io_stats io) (io_bytes_sent io)
  (io_bytes_received io) (io_destroying io) (io_out io) (io_taken io).
Definition set_window v io := mkIo (io_inflight io) v (io_pending io) (io_tid io) (io_secrets io)
  (io_rotate_countdown io) (io_firewalled io) (io_ephemeral io) (io_stats io) (io_bytes_sent io)
  (io_bytes_received io) (io_destroying io) (io_out io) (io_taken io).
Definition set_pending v io := mkIo (io_inflight io) (io_congestion io) v (io_tid io) (io_secrets io)
  (io_rotate_countdown io) (io_firewalled io) (io_ephemeral io) (io_stats io) (io_bytes_sent io)
  (io_bytes_received io) (io_destroying io) (io_out io) (io_taken io).
Definition set_tid v n io := mkIo (io_inflight io) (io_congestion io) (io_pending io) v (io_secrets io)
  (io_rotate_countdown io) (io_firewalled io) (io_ephemeral io) (io_stats io) (io_bytes_sent io)
  (io_bytes_received io) (io_destroying io) (io_out io) n.
Definition set_secrets v n io := mkIo (io_inflight io) (io_congestion io) (io_pending io) (io_tid io) v
  n (io_firewalled io) (io_ephemeral io) (io_stats io) (io_bytes_sent io)
  (io_bytes_received io) (io_destroying io) (io_out io) (io_taken io).
Definition set_stats v io := mkIo (io_inflight io) (io_congestion io) (io_pending io) (io_tid io) (io_secrets io)
  (io_rotate_countdown io) (io_firewalled io) (io_ephemeral io) v (io_bytes_sent io)
  (io_bytes_received io) (io_destroying io) (io_out io) (io_taken io).
Definition set_wire s r out io := mkIo (io_inflight io) (io_congestion io) (io_pending io) (io_tid io) (io_secrets io)
  (io_rotate_countdown io) (io_firewalled io) (io_ephemeral io) (io_stats io) s
  r (io_destroying io) out (io_taken io).
Definition set_destroying v io := mkIo (io_inflight io) (io_congestion io) (io_pending io) (io_tid io) (io_secrets io)
  (io_rotate_countdown io) (io_firewalled io) (io_ephemeral io) (io_stats io) (io_bytes_sent io)
  (io_bytes_received io) v (io_out io) (io_taken io).

(** What [bind] builds once the sockets are there. *)
Definition Io_new (max_window tid : Z) (firewalled ephemeral : bool) : Io :=
  mkIo [] (CongestionWindow_new max_window) [] tid None 10 firewalled ephemeral
    (mkStats 0 0 0 0 0) 0 0 false [] 0.

Definition IoM : Type -> Type := M Io Empty_set.
Definition upd (f : Io -> Io) : IoM unit := fun io => (Ok tt, f io).

(** One request resolved. *)
Definition count_response (st : IoStats) : IoStats :=
  mkStats (Z.max 0 (st_active st - 1)) (st_total st) (st_responses st + 1) (st_timeouts st) (st_retries st).
Definition count_timeout (st : IoStats) : IoStats :=
  mkStats (Z.max 0 (st_active st - 1)) (st_total st) (st_responses st) (st_timeouts st + 1) (st_retries st).
Definition count_request (st : IoStats) : IoStats :=
  mkStats (st_active st + 1) (st_total st + 1) (st_responses st) (st_timeouts st) (st_retries st).
Definition count_retry (st : IoStats) : IoStats :=
  mkStats (st_active st) (st_total st) (st_responses st) (st_timeouts st) (st_retries st + 1).

Section Io.
(** Blake2b-256 and its keyed form, whose keys here have 32 bytes. *)
Context (blake2b : list Z -> list Z) (mac : list Z -> list Z -> list Z).
(** What [rand::random] yields for the two secrets, when they are first needed. *)
Context (fresh : list Z * list Z).
(** Whether the operating system takes a datagram. *)
Context (send_ok : list Z -> SocketAddr -> bool).

(** [socket.send_to(..)]; the result says whether it was taken. *)
Definition send_to (via : Via) (bytes : list Z) (addr : SocketAddr) : IoM bool := fun io =>
  let ok := send_ok bytes addr in
  (Ok ok, set_wire (if ok then io_bytes_sent io + len bytes else io_bytes_sent io) (io_bytes_received io)
            (io_out io ++ [(via, bytes, addr)]) io).

Definition next_tid : IoM Z := fun io => (Ok (io_tid io), set_tid (as_u16 (io_tid io + 1)) (io_taken io + 1) io).

(** ** Sending requests *)

Definition entry_sent (now : Z) (e : InflightEntry) : InflightEntry :=
  mkInflight (ie_tid e) (ie_to e) (ie_addr e) (ie_internal e) (ie_command e) (ie_target e) (ie_buffer e)
    (ie_kind e) (ie_sent e + 1) (ie_retries e) (now + ie_timeout e) (ie_timestamp e) (ie_timeout e).

Definition send_inflight_at (now : Z) (idx : nat) : IoM unit :=
  io ← Prelude.get;
  match io_inflight io !! idx with
  | None => panic
  | Some e =>
      upd (fun io => set_window (CongestionWindow_send (io_congestion io))
                       (set_inflight (<[idx := entry_sent now e]> (io_inflight io)) io)) ;;
      send_to (ViaKind (ie_kind e)) (ie_buffer e) (ie_addr e) ;;
      mret tt
  end.

(** The socket own requests leave by. *)
Definition own_kind (io : Io) : SocketKind := if io_firewalled io then Client else Server.
(** The id sent along: only by a persistent node on its server socket. *)
Definition own_id (kind : SocketKind) (table : RoutingTable) (io : Io) : option NodeId :=
  if negb (io_ephemeral io) && bool_decide (kind = Server) then Some (t_id table) else None.

Definition request_of (tid : Z) (id : option NodeId) (p : RequestParams) : Request :=
  mkRequest tid (rp_to p) id (rp_token p) (rp_internal p) (rp_command p) (rp_target p) (rp_value p).

Definition entry_of (now tid : Z) (addr : SocketAddr) (buffer : list Z) (kind : SocketKind) (sent retries : Z)
    (p : RequestParams) : InflightEntry :=
  let timeout := from_millis (default DEFAULT_TIMEOUT_MS (rp_timeout_ms p)) in
  mkInflight tid (rp_to p) addr (rp_internal p) (rp_command p) (rp_target p) buffer kind sent retries
    (now + timeout) now timeout.

Definition create_request (now : Z) (table : RoutingTable) (params : RequestParams) : IoM (option Z) :=
  io ← Prelude.get;
  if io_destroying io then mret None
  else
    match socket_addr_from_str (peer_addr (rp_to params)) with
    | None => mret None
    | Some addr =>
        tid ← next_tid;
        let kind := own_kind io in
        match encode_request_to_bytes (request_of tid (own_id kind table io) params) with
        | Ok buffer =>
            upd (fun io => set_stats (count_request (io_stats io))
              (set_inflight (io_inflight io ++
                 [entry_of now tid addr buffer kind 0 (default DEFAULT_RETRIES (rp_retries params)) params]) io)) ;;
            io ← Prelude.get;
            (if CongestionWindow_is_full (io_congestion io)
             then upd (fun io => set_pending (io_pending io ++ [tid]) io)
             else send_inflight_at now (length (io_inflight io) - 1)) ;;
            mret (Some tid)
        | Err _ => mret None
        | Panic => panic
        end
    end.

Definition send_request_via_socket (now : Z) (table : RoutingTable) (params : RequestParams) : IoM (option Z) :=
  io ← Prelude.get;
  if io_destroying io then mret None
  else
    match socket_addr_from_str (peer_addr (rp_to params)) with
    | None => mret None
    | Some addr =>
        tid ← next_tid;
        let id := if negb (io_ephemeral io) then Some (t_id table) else None in
        match encode_request_to_bytes (request_of tid id params) with
        | Ok buffer =>
            ok ← send_to ViaSocket buffer addr;
            if negb ok then mret None
            else
              upd (fun io => set_inflight (io_inflight io ++ [entry_of now tid addr buffer Client 1 0 params])
                               (set_stats (count_request (io_stats io)) io)) ;;
              mret (Some tid)
        | Err _ => mret None
        | Panic => panic
        end
    end.

(** ** Tokens *)

Definition init_secrets : IoM (list Z * list Z) := fun io =>
  match io_secrets io with
  | Some s => (Ok s, io)
  | None => (Ok fresh, set_secrets (Some fresh) (io_rotate_countdown io) io)
  end.

Definition token_with (secrets : list Z * list Z) (host : string) (secret_index : nat) : list Z :=
  mac (if (secret_index mod 2 =? 0)%nat then secrets.1 else secrets.2) (string_bytes host).
Definition token (host : string) (secret_index : nat) : IoM (list Z) :=
  secrets ← init_secrets; mret (token_with secrets host secret_index).

Definition validate_token (host : string) (tok : list Z) : IoM bool :=
  t0 ← token host 0;
  t1 ← token host 1;
  mret (bool_decide (t0 = tok) || bool_decide (t1 = tok)).

(** Swap the secrets, then hash the older one. *)
Definition rotate (secrets : list Z * list Z) : list Z * list Z := (secrets.2, mac secrets.1 secrets.1).

Definition rotate_secrets : IoM unit := upd (fun io =>
  match io_secrets io with
  | None => io
  | Some secrets =>
      let n := io_rotate_countdown io - 1 in
      if n =? 0 then set_secrets (Some (rotate secrets)) 10 io else set_secrets (Some secrets) n io
  end).

(** ** Draining and timeouts *)

(** Every turn takes an entry off the queue: its length is enough fuel. *)
Fixpoint drain_loop (fuel : nat) (now : Z) : IoM unit :=
  match fuel with
  | O => mret tt
  | Datatypes.S fuel =>
      io ← Prelude.get;
      if CongestionWindow_is_full (io_congestion io) then mret tt
      else
        match io_pending io with
        | [] => mret tt
        | tid :: rest =>
            upd (set_pending rest) ;;
            match position (fun e => ie_tid e =? tid) (io_inflight io) with
            | Some idx => send_inflight_at now idx
            | None => mret tt
            end ;;
            drain_loop fuel now
        end
  end.
Definition Io_drain (now : Z) : IoM unit :=
  rotate_secrets ;;
  upd (fun io => set_window (CongestionWindow_drain (io_congestion io)) io) ;;
  io ← Prelude.get;
  drain_loop (length (io_pending io)) now.

Definition next_timeout_deadline (now : Z) (io : Io) : Z :=
  match ie_deadline <$> io_inflight io with
  | [] => now + from_millis 3600000
  | d :: ds => foldl Z.min d ds
  end.

Definition timeout_of (e : InflightEntry) : TimeoutEvent :=
  mkTimeout (ie_tid e) (ie_to e) (ie_command e) (ie_internal e) (ie_target e).

(** The entries that are due, by index: to give up and to send again. *)
Definition due (now : Z) (give : bool) (l : list InflightEntry) : list nat :=
  (filter (fun p : nat * InflightEntry =>
      (ie_deadline p.2 <=? now) && eqb (ie_retries p.2 <? ie_sent p.2) give) (imap pair l)).*1.

Fixpoint remove_due (idxs : list nat) : IoM (list TimeoutEvent) :=
  match idxs with
  | [] => mret []
  | i :: idxs =>
      io ← Prelude.get;
      match swap_remove i (io_inflight io) with
      | None => panic
      | Some (e, rest) =>
          upd (fun io => set_stats (count_timeout (io_stats io))
                 (set_window (CongestionWindow_recv (io_congestion io)) (set_inflight rest io))) ;;
          events ← remove_due idxs;
          mret (timeout_of e :: events)
      end
  end.

(** The indices are collected in increasing order: sorting them from the highest
    reverses them. *)
Definition check_timeouts (now : Z) : IoM (list TimeoutEvent) :=
  io ← Prelude.get;
  let timeouts := due now true (io_inflight io) in
  let retries := due now false (io_inflight io) in
  for_m retries (fun i =>
    upd (fun io => set_stats (count_retry (io_stats io)) io) ;; send_inflight_at now i) ;;
  remove_due (reverse timeouts).

(** ** Replies *)

Definition peer_of (n : Node) : Ipv4Peer := mkPeer (n_host n) (n_port n).

Definition send_reply_internal (table : RoutingTable) (to : Ipv4Peer) (kind : SocketKind) (tid : Z)
    (target : option NodeId) (error : Z) (include_token : bool) (value : option (list Z)) : IoM unit :=
  io ← Prelude.get;
  let id := own_id kind table io in
  let closer_nodes := match target with
                      | Some t => peer_of <$> RoutingTable_closest table t K
                      | None => []
                      end in
  tok ← (if include_token then Some <$> token (host to) 1 else mret None);
  match encode_response_to_bytes (mkResponse tid to id tok closer_nodes error value) with
  | Ok bytes =>
      match socket_addr_from_str (peer_addr to) with
      | Some addr => send_to (ViaKind kind) bytes addr ;; mret tt
      | None => mret tt
      end
  | Err _ => mret tt
  | Panic => panic
  end.

Definition send_reply (table : RoutingTable) (req : IncomingRequest) (error : Z) (value : option (list Z)) : IoM unit :=
  send_reply_internal table (ir_from req) (ir_reply_ctx req) (ir_tid req) (ir_target req) error (error =? 0) value.

Definition send_reply_deferred (table : RoutingTable) (to : Ipv4Peer) (ctx : SocketKind) (tid : Z)
    (target : option NodeId) (error : Z) (value : option (list Z)) : IoM unit :=
  send_reply_internal table to ctx tid target error (error =? 0) value.

Definition reply_to (table : RoutingTable) (tid : Z) (target : option NodeId) (to : Ipv4Peer)
    (value : option (list Z)) : IoM bool :=
  io ← Prelude.get;
  if io_destroying io then mret false
  else send_reply_internal table to (own_kind io) tid target 0 true value ;; mret true.

Definition relay (table : RoutingTable) (command : Z) (target : option NodeId) (value : option (list Z))
    (to : Ipv4Peer) (preserve_tid : option Z) : IoM bool :=
  io ← Prelude.get;
  if io_destroying io then mret false
  else
    match socket_addr_from_str (peer_addr to) with
    | None => mret false
    | Some addr =>
        tid ← match preserve_tid with Some t => mret t | None => next_tid end;
        let kind := own_kind io in
        match encode_request_to_bytes (mkRequest tid to (own_id kind table io) None false command target value) with
        | Ok buffer => send_to (ViaKind kind) buffer addr
        | Err _ => mret false
        | Panic => panic
        end
    end.

(** [destroy], up to closing the sockets. *)
Definition Io_destroy : IoM unit := upd (fun io =>
  let n := length (io_inflight io) in
  set_window (Nat.iter n CongestionWindow_recv (io_congestion io))
    (set_stats (Nat.iter n (fun st => mkStats (Z.max 0 (st_active st - 1)) (st_total st) (st_responses st)
                                        (st_timeouts st) (st_retries st)) (io_stats io))
      (set_inflight [] (set_destroying true io)))).

(** ** Incoming datagrams *)

(** An id counts only when it is the hash of the address it came from. *)
Definition validated_id (id : option NodeId) (from : Ipv4Peer) : IoM (option NodeId) :=
  match id with
  | None => mret None
  | Some id =>
      match peer_id blake2b (host from) (port from) with
      | Ok expected => mret (if bool_decide (expected = id) then Some expected else None)
      | _ => panic
      end
  end.

Definition on_request (table : RoutingTable) (from : Ipv4Peer) (kind : SocketKind) (req : Request)
    : IoM (option IoEvent) :=
  valid ← match req_token req with
          | Some t => validate_token (host from) t
          | None => mret true
          end;
  if negb valid then
    send_reply_internal table from kind (req_tid req) (req_target req) ERROR_INVALID_TOKEN true None ;;
    mret None
  else
    id ← validated_id (req_id req) from;
    mret (Some (EvRequest (mkIncoming (req_tid req) from (req_to req) id (req_token req) (req_internal req)
      (req_command req) (req_target req) (req_value req) kind))).

Definition on_response (now : Z) (from : Ipv4Peer) (res : Response) : IoM (option IoEvent) :=
  io ← Prelude.get;
  match position (fun e => ie_tid e =? res_tid res) (io_inflight io) with
  | None => mret None
  | Some pos =>
      match swap_remove pos (io_inflight io) with
      | None => panic
      | Some (e, rest) =>
          upd (fun io => set_stats (count_response (io_stats io))
                 (set_window (CongestionWindow_recv (io_congestion io)) (set_inflight rest io))) ;;
          id ← validated_id (res_id res) from;
          mret (Some (EvResponse (mkIoResponse (res_tid res) from (res_to res) id (res_token res)
            (res_closer_nodes res) (res_error res) (res_value res) (Z.max 0 (now - ie_timestamp e))
            (mkResolved (ie_tid e) (ie_to e) (ie_command e) (ie_internal e) (ie_target e)))))
      end
  end.

Definition process_datagram (now : Z) (table : RoutingTable) (data : list Z) (addr : SocketAddr)
    (kind : SocketKind) : IoM (option IoEvent) :=
  if len data <? 2 then mret None
  else if negb (length addr.1 =? 4)%nat then mret None
  else if addr.2 =? 0 then mret None
  else
    let from := mkPeer (ipv4_text addr.1) addr.2 in
    match decode_message data with
    | Err _ => mret None
    | Panic => panic
    | Ok (MRequest req) => on_request table from kind req
    | Ok (MResponse res) => on_response now from res
    end.

(** One datagram off a socket, as [recv] handles it, and one handed in by the
    owner of another socket. *)
Definition count_received (data : list Z) : IoM unit := upd (fun io =>
  set_wire (io_bytes_sent io) (io_bytes_received io + len data) (io_out io) io).
Definition Io_recv (now : Z) (table : RoutingTable) (data : list Z) (addr : SocketAddr) (kind : SocketKind)
    : IoM (option IoEvent) :=
  count_received data ;; process_datagram now table data addr kind.
Definition handle_inbound_reply_bytes (now : Z) (table : RoutingTable) (addr : SocketAddr) (data : list Z)
    : IoM (option IoEvent) :=
  count_received data ;; process_datagram now table data addr Client.
End Io.
