(* ===== verification/IoProofs.v ===== *)
(** * IoProofs: what each operation of the request layer does

    The invariant of the layer (window, counters, typed fields) and, for every
    operation, a specification of its result and of the requests in flight. *)

From S2P Require Import Prelude RustStd CompactEncoding Codec Messages Peer RoutingTable Query Io.
From S2P Require Import RoutingTableProofs RoutingTableTheorems.

#[local] Open Scope Z_scope.

(** ** Vectors *)

Lemma position_spec {A} (f : A -> bool) l :
  match position f l with
  | Some i => exists x, l !! i = Some x /\ f x = true /\ Forall (fun y => f y = false) (take i l)
  | None => Forall (fun y => f y = false) l
  end.
Proof.
  induction l as [|x l IH]; cbn [position]; [done|]. destruct (f x) eqn:E; [by exists x|].
  destruct (position f l) as [i|]; cbn [fmap option_fmap option_map]; [|by constructor].
  destruct IH as (y & Hy & Hf & Hl). exists y. split_and!; [done..|]. by constructor.
Qed.

Lemma swap_remove_eq {A} (pre post : list A) x :
  swap_remove (length pre) (pre ++ x :: post) =
  Some (x, match last post with Some y => pre ++ y :: take (length post - 1) post | None => pre end).
Proof.
  unfold swap_remove. rewrite list_lookup_middle by done.
  rewrite last_app, last_cons. destruct (last post) as [y|] eqn:E; cbn [from_option].
  - do 2 f_equal. rewrite insert_app_r_alt, Nat.sub_diag by lia. cbn [insert list_insert].
    rewrite take_app. f_equal; [apply take_ge; rewrite length_app; simpl; lia|].
    destruct post as [|z post]; [done|]. rewrite length_app. cbn [length].
    replace (length pre + S (S (length post)) - 1 - length pre)%nat with (S (length post)) by lia.
    cbn [take]. do 2 f_equal. lia.
  - apply last_None in E as ->. do 2 f_equal. rewrite insert_app_r_alt, Nat.sub_diag by lia.
    rewrite length_app. cbn. by rewrite Nat.add_sub, take_app_length.
Qed.

Lemma take_last {A} (l : list A) y : last l = Some y -> l = take (length l - 1) l ++ [y].
Proof.
  intros [l' ->]%last_Some. rewrite length_app. cbn. by rewrite Nat.add_sub, take_app_length.
Qed.

(** Removing [x] at [i]: the elements before stay in place, the rest is
    permuted. *)
Lemma swap_remove_spec {A} i (l : list A) x :
  l !! i = Some x ->
  exists rest, swap_remove i l = Some (x, rest) /\ l ≡ₚ x :: rest /\ take i rest = take i l.
Proof.
  intros Hx. rewrite <- (take_drop_middle l i x Hx).
  assert (i = length (take i l)) as Hi.
  { apply lookup_lt_Some in Hx. rewrite length_take. lia. }
  set (pre := take i l) in *. set (post := drop (S i) l). rewrite Hi, swap_remove_eq.
  eexists. split; [done|]. destruct (last post) as [y|] eqn:E.
  - split.
    + rewrite (take_last post y E) at 1. rewrite <- Permutation_middle. constructor.
      by rewrite (Permutation_app_comm _ [y]).
    + by rewrite !take_app_length.
  - apply last_None in E as ->. split; [by rewrite Permutation_app_comm|].
    by rewrite take_app_length, take_ge.
Qed.

(** ** The congestion window *)

Record window_ok (c : CongestionWindow) : Prop := {
  wo_index : (cw_i c < 4)%nat;
  wo_quarters : length (cw_window c) = 4%nat;
  wo_nonneg : Forall (fun n => 0 <= n) (cw_window c);
  wo_total : cw_total c = foldr Z.add 0 (cw_window c)
}.
#[global] Instance window_ok_dec c : Decision (window_ok c).
Proof.
  refine (cast_if (decide (((cw_i c < 4)%nat /\ length (cw_window c) = 4%nat) /\
    Forall (fun n => 0 <= n) (cw_window c) /\ cw_total c = foldr Z.add 0 (cw_window c))));
    abstract (firstorder).
Defined.

(** The four quarters, one by one. *)
Lemma window_quarters c :
  window_ok c -> exists a b d e, cw_window c = [a; b; d; e] /\ 0 <= a /\ 0 <= b /\ 0 <= d /\ 0 <= e /\
    cw_total c = a + (b + (d + (e + 0))).
Proof.
  intros [_ Hl Hn Ht]. destruct (cw_window c) as [|a [|b [|d [|e [|]]]]]; try done.
  inv Hn as [|? ? ? Hn']. inv Hn' as [|? ? ? Hn2]. inv Hn2 as [|? ? ? Hn3]. inv Hn3.
  by exists a, b, d, e.
Qed.

Ltac quarters c H :=
  let i := fresh "i" in
  destruct (window_quarters c H) as (a & b & d & e & Hw & ? & ? & ? & ? & Ht);
  destruct H as [Hi _ _ _]; destruct c as [i tot w mx]; cbn [cw_i cw_total cw_window] in *; subst;
  destruct i as [|[|[|[|i]]]]; [| | | |lia].

Lemma window_new n : window_ok (CongestionWindow_new n).
Proof. split; cbn; [lia|done|repeat constructor; lia|done]. Qed.
Lemma window_send c : window_ok c -> window_ok (CongestionWindow_send c).
Proof. intros H. quarters c H; split; cbn; try lia; repeat constructor; lia. Qed.
Lemma window_recv c : window_ok c -> window_ok (CongestionWindow_recv c).
Proof.
  intros H. unfold CongestionWindow_recv. case_match eqn:E; [|done]. apply Z.ltb_lt in E.
  quarters c H; unfold cw_cur in *; cbn in E; split; cbn; try lia; repeat constructor; lia.
Qed.
Lemma window_drain c : window_ok c -> window_ok (CongestionWindow_drain c).
Proof. intros H. quarters c H; split; cbn; try lia; repeat constructor; lia. Qed.
#[export] Hint Resolve window_new window_send window_recv window_drain : core.

(** ** The invariant *)

Record entry_ok (e : InflightEntry) : Prop := {
  eo_tid : in_u 16 (ie_tid e);
  eo_sent : 0 <= ie_sent e;
  eo_retries : 0 <= ie_retries e
}.

Definition secrets_ok (s : option (list Z * list Z)) : Prop :=
  opt_ok (fun s => fixed_ok 32 s.1 /\ fixed_ok 32 s.2) s.

Record io_ok (io : Io) : Prop := {
  io_window : window_ok (io_congestion io);
  io_active : st_active (io_stats io) = len (io_inflight io);
  io_balance : st_total (io_stats io) =
    st_active (io_stats io) + st_responses (io_stats io) + st_timeouts (io_stats io);
  io_tid_ok : in_u 16 (io_tid io);
  io_secrets_ok : secrets_ok (io_secrets io);
  io_entries : Forall entry_ok (io_inflight io)
}.

(** A table whose nodes can be named in a reply. *)
Definition table_ok (t : RoutingTable) : Prop :=
  table_inv t /\ Forall (fun n => peer_ok (peer_of n)) (table_nodes t).

(** The values the types of the arguments allow. *)
Record params_ok (p : RequestParams) : Prop := {
  pk_port : in_u 16 (port (rp_to p));
  pk_token : opt_ok (fixed_ok 32) (rp_token p);
  pk_command : in_u 64 (rp_command p);
  pk_target : opt_ok (fixed_ok 32) (rp_target p);
  pk_value : opt_ok fits (rp_value p);
  pk_retries : opt_ok (fun n => 0 <= n) (rp_retries p)
}.

(** Operations that send a datagram or make the secrets, and nothing else. *)
Record quiet (io io' : Io) : Prop := {
  qt_inflight : io_inflight io' = io_inflight io;
  qt_window : io_congestion io' = io_congestion io;
  qt_pending : io_pending io' = io_pending io;
  qt_stats : io_stats io' = io_stats io;
  qt_tid : io_tid io' = io_tid io;
  qt_taken : io_taken io' = io_taken io;
  qt_destroying : io_destroying io' = io_destroying io;
  qt_ephemeral : io_ephemeral io' = io_ephemeral io;
  qt_firewalled : io_firewalled io' = io_firewalled io;
  qt_secrets : secrets_ok (io_secrets io) -> secrets_ok (io_secrets io')
}.

#[global] Instance quiet_refl : Reflexive quiet.
Proof. by split. Qed.
#[global] Instance quiet_trans : Transitive quiet.
Proof. intros x y z [] []. split; try congruence. auto. Qed.

Lemma quiet_ok io io' : quiet io io' -> io_ok io -> io_ok io'.
Proof. intros [] []. split; try congruence. auto. Qed.

Lemma wp_upd f io (Q : unit -> Io -> Prop) : Q tt (f io) -> wp (upd f) io Q.
Proof. done. Qed.

Section Io.
Context (blake2b : list Z -> list Z) (mac : list Z -> list Z -> list Z).
Context (fresh : list Z * list Z) (send_ok : list Z -> SocketAddr -> bool).
(** The keyed hash and the random secrets have 32 bytes. *)
Hypothesis mac_len : forall k m, fixed_ok 32 (mac k m).
Hypothesis fresh_len : fixed_ok 32 fresh.1 /\ fixed_ok 32 fresh.2.

#[local] Abbreviation send_to := (send_to send_ok).
#[local] Abbreviation token := (token mac fresh).

Lemma send_to_spec via bytes addr io :
  wp (send_to via bytes addr) io (fun ok io' => ok = send_ok bytes addr /\ quiet io io' /\
    io_secrets io' = io_secrets io /\ io_out io' = io_out io ++ [(via, bytes, addr)]).
Proof. unfold wp, Io.send_to. by split_and!. Qed.

Lemma token_spec h i io :
  wp (token h i) io (fun t io' => t = token_with mac (default fresh (io_secrets io)) h i /\ quiet io io' /\
    io_secrets io' = Some (default fresh (io_secrets io)) /\ io_out io' = io_out io).
Proof.
  unfold wp, Io.token, init_secrets, mbind, M_bind. destruct (io_secrets io) as [s|] eqn:E; cbn;
    (split_and!; [done| |done..]).
  - done.
  - split; try done. intros _ s [= <-]. apply fresh_len.
Qed.

Lemma token_with_len s h i : fixed_ok 32 (token_with mac s h i).
Proof. apply mac_len. Qed.

Lemma validate_spec h t io :
  wp (validate_token mac fresh h t) io (fun ok io' =>
    (ok = true <-> t = token_with mac (default fresh (io_secrets io)) h 0 \/
                   t = token_with mac (default fresh (io_secrets io)) h 1) /\
    quiet io io' /\ io_secrets io' = Some (default fresh (io_secrets io)) /\ io_out io' = io_out io).
Proof.
  unfold validate_token. apply wp_bind. eapply wp_mono; [|apply token_spec].
  cbv beta. intros t0 io1 (-> & Hq1 & Hs1 & Ho1). apply wp_bind. eapply wp_mono; [|apply token_spec].
  cbv beta. intros t1 io2 (-> & Hq2 & Hs2 & Ho2). apply wp_ret. rewrite Hs1 in *. cbn [default from_option id] in *.
  split_and!; [|by etrans|done|congruence].
  rewrite orb_true_iff, !bool_decide_eq_true. split; (intros [?|?]; [left|right]; congruence).
Qed.

Lemma closest_peers t target : table_ok t -> id_ok target -> peers_ok (peer_of <$> RoutingTable_closest t target K).
Proof.
  intros [Ht Hn] Hid. rewrite closest_eq.
  assert (RoutingTable_bucket_index t target < NUM_BUCKETS)%nat as Hlt
    by (apply bucket_index_bound; [apply Ht|done]).
  split.
  - unfold len. rewrite length_fmap, length_take. unfold K, MAX_ARRAY_LENGTH. lia.
  - apply Forall_fmap, Forall_take. rewrite scan_order_perm by done. done.
Qed.

Lemma own_id_ok kind t io : table_ok t -> opt_ok (fixed_ok 32) (own_id kind t io).
Proof. intros [[Hid _ _ _] _]. unfold own_id. intros i. case_match; [intros [= <-]; apply Hid|done]. Qed.

(** ** Replies *)

(** The response [send_reply_internal] sends. *)
Definition reply_sent (t : RoutingTable) (io : Io) (to : Ipv4Peer) (kind : SocketKind) (tid : Z)
    (target : option NodeId) (error : Z) (include_token : bool) (value : option (list Z)) : Response :=
  mkResponse tid to (own_id kind t io)
    (if include_token then Some (token_with mac (default fresh (io_secrets io)) (host to) 1) else None)
    (match target with Some tg => peer_of <$> RoutingTable_closest t tg K | None => [] end) error value.

Lemma reply_typed t io to kind tid target error inc value :
  table_ok t -> in_u 16 tid -> in_u 16 (port to) -> opt_ok id_ok target -> in_u 64 error -> opt_ok fits value ->
  response_typed (reply_sent t io to kind tid target error inc value).
Proof.
  intros Ht Htid Hp Htg He Hv. split; cbn [reply_sent res_tid res_to res_id res_token res_closer_nodes res_error res_value];
    try done.
  - by apply own_id_ok.
  - destruct inc; [|done]. intros ? [= <-]. apply token_with_len.
  - destruct target as [tg|]; [apply closest_peers; auto|apply peers_ok_nil].
Qed.

Lemma peer_addr_text p : peer_ok p -> exists o, ipv4_octets (host p) = Some o /\ bytes_ok o /\ len o = 4 /\
  ipv4_text o = host p /\ socket_addr_from_str (peer_addr p) = Some (o, port p).
Proof.
  intros [(o & Ho & Ht & Hb & Hl)%ipv4_host_octets Hp]. exists o. split_and!; try done.
  unfold peer_addr, addr_of. rewrite <- Ht. destruct o as [|a [|b [|c [|d [|]]]]]; try (unfold len in Hl; simpl in Hl; lia).
  inv Hb as [|? ? Ha Hb']. inv Hb' as [|? ? Hb1 Hb2]. inv Hb2 as [|? ? Hc Hb3]. inv Hb3 as [|? ? Hd ?].
  apply socket_addr_text; done.
Qed.

Lemma send_reply_spec t to kind tid target error inc value io :
  table_ok t -> in_u 16 tid -> in_u 16 (port to) -> opt_ok id_ok target -> in_u 64 error -> opt_ok fits value ->
  wp (send_reply_internal mac fresh send_ok t to kind tid target error inc value) io (fun _ io' =>
    quiet io io' /\
    io_secrets io' = (if inc then Some (default fresh (io_secrets io)) else io_secrets io) /\
    (peer_ok to -> exists o, ipv4_octets (host to) = Some o /\ io_out io' = io_out io ++
       [(ViaKind kind, wire_response (reply_sent t io to kind tid target error inc value), (o, port to))])).
Proof.
  intros Ht Htid Hp Htg He Hv. unfold send_reply_internal. apply wp_bind, wp_get. cbv zeta.
  apply wp_bind.
  apply (wp_mono _ _ (fun tok io1 => quiet io io1 /\ io_out io1 = io_out io /\
    io_secrets io1 = (if inc then Some (default fresh (io_secrets io)) else io_secrets io) /\
    tok = if inc then Some (token_with mac (default fresh (io_secrets io)) (host to) 1) else None)).
  2: { destruct inc; [|by apply wp_ret]. apply wp_fmap. eapply wp_mono; [|apply token_spec].
       cbv beta. intros tk io1 (-> & Hq & Hs & Ho). by split_and!. }
  intros tok io1 (Hq & Ho & Hs & ->). fold (reply_sent t io to kind tid target error inc value).
  rewrite encode_response_total by (by apply reply_typed). cbn [reply_sent res_to].
  destruct (ipv4_octets (host to)) as [o|] eqn:Eo.
  - destruct (socket_addr_from_str (peer_addr to)) as [addr|] eqn:Ea.
    + apply wp_bind. eapply wp_mono; [|apply send_to_spec]. cbv beta.
      intros ok io2 (_ & Hq2 & Hs2 & Ho2). apply wp_ret. split_and!; [by etrans|congruence|].
      intros Hpeer. destruct (peer_addr_text to Hpeer) as (o' & Ho' & _ & _ & _ & Ha').
      exists o. split; [done|]. rewrite Ho2, Ho. congruence.
    + apply wp_ret. split_and!; [done..|]. intros Hpeer.
      destruct (peer_addr_text to Hpeer) as (o' & Ho' & _ & _ & _ & Ha'). congruence.
  - apply wp_ret. split_and!; [done..|]. intros Hpeer.
    destruct (peer_addr_text to Hpeer) as (o' & Ho' & _). congruence.
Qed.

(** ** Requests *)

(** What every operation leaves alone, and the transaction ids it takes. *)
Record moves (io io' : Io) : Prop := {
  mv_destroying : io_destroying io' = io_destroying io;
  mv_ephemeral : io_ephemeral io' = io_ephemeral io;
  mv_firewalled : io_firewalled io' = io_firewalled io;
  mv_taken : io_taken io <= io_taken io';
  mv_tid : as_u16 (io_tid io') = as_u16 (io_tid io + (io_taken io' - io_taken io))
}.
#[global] Instance moves_refl : Reflexive moves.
Proof. intros io. split; try done; try lia. by rewrite Z.sub_diag, Z.add_0_r. Qed.
#[global] Instance moves_trans : Transitive moves.
Proof.
  intros x y z [] []. split; try congruence; try lia.
  unfold as_u16, as_u in *. rewrite mv_tid1, <- Zplus_mod_idemp_l, mv_tid0, Zplus_mod_idemp_l. f_equal. lia.
Qed.
Lemma quiet_moves io io' : quiet io io' -> moves io io'.
Proof. intros []. split; try done; rewrite ?qt_taken0, ?qt_tid0; [lia|]. by rewrite Z.sub_diag, Z.add_0_r. Qed.

Lemma request_of_typed t io tid kind p :
  table_ok t -> in_u 16 tid -> params_ok p -> request_typed (request_of tid (own_id kind t io) p).
Proof. intros Ht Htid []. split; try done. by apply own_id_ok. Qed.

(** The entry of a new request, perhaps already sent. *)
Definition new_entry (now tid : Z) (p : RequestParams) (e : InflightEntry) : Prop :=
  entry_ok e /\ ie_tid e = tid /\ ie_to e = rp_to p /\ ie_command e = rp_command p /\
  ie_internal e = rp_internal p /\ ie_target e = rp_target p /\ 0 <= ie_sent e <= 1 /\
  ie_timeout e = from_millis (default DEFAULT_TIMEOUT_MS (rp_timeout_ms p)) /\
  ie_deadline e = now + ie_timeout e.

(** Nothing was created, though a transaction id may be gone. *)
Record no_request (io io' : Io) : Prop := {
  nr_inflight : io_inflight io' = io_inflight io;
  nr_window : io_congestion io' = io_congestion io;
  nr_stats : io_stats io' = io_stats io
}.

Definition created (now : Z) (p : RequestParams) (retries : Z) (io : Io) (r : option Z) (io' : Io) : Prop :=
  io_ok io' /\ moves io io' /\
  match r with
  | None => no_request io io'
  | Some tid => tid = io_tid io /\ io_taken io' = io_taken io + 1 /\
      (exists e, io_inflight io' = io_inflight io ++ [e] /\ new_entry now tid p e /\ ie_retries e = retries)
  end.

Lemma next_tid_spec io : io_ok io ->
  wp next_tid io (fun tid io' => tid = io_tid io /\ no_request io io' /\ io_ok io' /\ moves io io' /\
    io_taken io' = io_taken io + 1 /\ io_secrets io' = io_secrets io /\ io_out io' = io_out io /\
    io_pending io' = io_pending io).
Proof.
  intros []. unfold wp, next_tid. cbn. split_and!; try done.
  - split; try done. by apply as_u_range.
  - split; try done; cbn; [lia|]. unfold as_u16, as_u. rewrite Zmod_mod. f_equal. lia.
Qed.

(** Sending the entry at [idx] (again). *)
Record resent (now : Z) (idx : nat) (e : InflightEntry) (io io' : Io) : Prop := {
  rs_inflight : io_inflight io' = <[idx := entry_sent now e]> (io_inflight io);
  rs_stats : io_stats io' = io_stats io;
  rs_pending : io_pending io' = io_pending io;
  rs_secrets : io_secrets io' = io_secrets io;
  rs_taken : io_taken io' = io_taken io;
  rs_out : io_out io' = io_out io ++ [(ViaKind (ie_kind e), ie_buffer e, ie_addr e)]
}.

Lemma entry_sent_ok now e : entry_ok e -> entry_ok (entry_sent now e).
Proof. intros []. split; cbn; [done|lia|done]. Qed.

Lemma send_inflight_spec now idx e io :
  io_ok io -> io_inflight io !! idx = Some e ->
  wp (send_inflight_at send_ok now idx) io (fun _ io' => io_ok io' /\ moves io io' /\ resent now idx e io io').
Proof.
  intros Hio He. unfold send_inflight_at. apply wp_bind, wp_get. rewrite He. apply wp_bind, wp_upd, wp_bind.
  eapply wp_mono; [|apply send_to_spec]. cbv beta. intros ok io' (_ & Hq & Hs & Ho). apply wp_ret.
  destruct Hq, Hio. cbn in *. split_and!.
  - split; rewrite ?qt_window0, ?qt_stats0, ?qt_inflight0, ?qt_tid0, ?Hs; try done; auto.
    + unfold len. by rewrite length_insert.
    + apply Forall_insert; [done|]. apply entry_sent_ok. by eapply Forall_lookup_1 in He.
  - split; try done; rewrite ?qt_taken0, ?qt_tid0; [lia|]. by rewrite Z.sub_diag, Z.add_0_r.
  - by split.
Qed.

Lemma entry_of_ok now tid addr buf kind sent retries p :
  in_u 16 tid -> 0 <= sent -> 0 <= retries -> entry_ok (entry_of now tid addr buf kind sent retries p).
Proof. by split. Qed.

Lemma retries_nonneg p : params_ok p -> 0 <= default DEFAULT_RETRIES (rp_retries p).
Proof. intros []. destruct (rp_retries p) as [n|]; [by apply pk_retries0|done]. Qed.

Lemma io_ok_pushed e io :
  io_ok io -> entry_ok e ->
  io_ok (set_stats (count_request (io_stats io)) (set_inflight (io_inflight io ++ [e]) io)).
Proof.
  intros [] He. split; cbn; try done.
  - rewrite len_app, io_active0. done.
  - lia.
  - apply Forall_app. by split; [|constructor].
Qed.

Lemma create_request_spec now t p io :
  io_ok io -> table_ok t -> params_ok p ->
  wp (create_request send_ok now t p) io (created now p (default DEFAULT_RETRIES (rp_retries p)) io).
Proof.
  intros Hio Ht Hp. unfold create_request. apply wp_bind, wp_get.
  assert (forall io', no_request io io' -> io_ok io' -> moves io io' -> created now p (default DEFAULT_RETRIES (rp_retries p)) io None io') as Hnone
    by (intros; split_and!; done).
  destruct (io_destroying io) eqn:Ed; [by apply wp_ret, Hnone|].
  destruct (socket_addr_from_str _) as [addr|]; [|by apply wp_ret, Hnone].
  apply wp_bind. eapply wp_mono; [|by apply next_tid_spec]. cbv beta.
  intros tid io1 (-> & Hn1 & Hio1 & Hm1 & Hk1 & Hs1 & Ho1 & Hpd1). cbv zeta.
  rewrite encode_request_total by (apply request_of_typed; [done|apply Hio|done]).
  destruct (ipv4_octets _) as [o|]; [|by apply wp_ret, Hnone].
  set (e := entry_of _ _ _ _ _ _ _ _).
  assert (entry_ok e) as He by (apply entry_of_ok; [apply Hio|done|by apply retries_nonneg]).
  assert (new_entry now (io_tid io) p e /\ new_entry now (io_tid io) p (entry_sent now e)) as [Hne Hne'].
  { split; unfold new_entry; (split_and!; try done); by apply entry_sent_ok. }
  apply wp_bind, wp_upd, wp_bind, wp_get.
  pose proof (io_ok_pushed e io1 Hio1 He) as Hio2. set (io2 := set_stats _ _) in *.
  assert (moves io io2) as Hm2 by (destruct Hm1; by split).
  assert (io_inflight io2 = io_inflight io ++ [e]) as Hi2 by (cbn; by destruct Hn1 as [-> _ _]).
  destruct (CongestionWindow_is_full _).
  - apply wp_bind, wp_upd, wp_ret. split_and!; [by destruct Hio2; split|by destruct Hm2; split|done|done|].
    exists e. by split.
  - apply wp_bind.
    assert (io_inflight io2 !! (length (io_inflight io2) - 1)%nat = Some e) as Hlast.
    { rewrite Hi2, length_app. cbn [length]. rewrite Nat.add_sub. by apply list_lookup_middle. }
    eapply wp_mono; [|by apply send_inflight_spec]. cbv beta. intros _ io3 (Hio3 & Hm3 & Hr3).
    apply wp_ret. destruct Hr3. split_and!; [done|by etrans|done| |].
    + rewrite rs_taken0. cbn. lia.
    + exists (entry_sent now e). split; [|done]. rewrite rs_inflight0, Hi2, length_app. cbn [length].
      rewrite Nat.add_sub, insert_app_r_alt, Nat.sub_diag by lia. done.
Qed.

Lemma send_request_via_spec now t p io :
  io_ok io -> table_ok t -> params_ok p ->
  wp (send_request_via_socket send_ok now t p) io (created now p 0 io).
Proof.
  intros Hio Ht Hp. unfold send_request_via_socket. apply wp_bind, wp_get.
  assert (forall io', no_request io io' -> io_ok io' -> moves io io' -> created now p 0 io None io') as Hnone
    by (intros; split_and!; done).
  destruct (io_destroying io) eqn:Ed; [by apply wp_ret, Hnone|].
  destruct (socket_addr_from_str _) as [addr|]; [|by apply wp_ret, Hnone].
  apply wp_bind. eapply wp_mono; [|by apply next_tid_spec]. cbv beta.
  intros tid io1 (-> & Hn1 & Hio1 & Hm1 & Hk1 & Hs1 & Ho1 & Hpd1). cbv zeta.
  rewrite encode_request_total.
  2: { destruct Hp. split; try done; [apply Hio|]. intros i. cbn. case_match; [|done]. intros [= <-]. apply Ht. }
  destruct (ipv4_octets _) as [o|]; [|by apply wp_ret, Hnone].
  apply wp_bind. eapply wp_mono; [|apply send_to_spec]. cbv beta. intros ok io2 (_ & Hq & _ & _).
  pose proof (quiet_moves _ _ Hq). pose proof (quiet_ok _ _ Hq Hio1) as Hio2.
  destruct Hq, Hn1. destruct ok; cbn [negb]; [|apply wp_ret, Hnone; [split; congruence|done|by etrans]].
  set (e := entry_of _ _ _ _ _ _ _ _).
  assert (entry_ok e) as He by (apply entry_of_ok; [apply Hio|done|done]).
  apply wp_bind, wp_upd, wp_ret. pose proof (io_ok_pushed e io2 Hio2 He) as Hio3.
  assert (moves io io2) as Hm by (by etrans).
  split_and!; [exact Hio3|by destruct Hm; split|done|cbn; lia|].
  exists e. cbn. split_and!; [congruence| |done]. by split_and!.
Qed.

(** ** Draining *)

(** The same requests in the same places, some of them sent again. *)
Definition sent_again (now : Z) (e e' : InflightEntry) : Prop := exists n, e' = Nat.iter n (entry_sent now) e.

Lemma sent_again_tid now e e' : sent_again now e e' -> ie_tid e' = ie_tid e.
Proof. intros [n ->]. by induction n. Qed.
Lemma sent_again_tids now l l' : Forall2 (sent_again now) l l' -> ie_tid <$> l' = ie_tid <$> l.
Proof. induction 1 as [|? ? ? ? H]; cbn; [done|]. by rewrite (sent_again_tid _ _ _ H), IHForall2. Qed.
Lemma sent_again_refl now l : Forall2 (sent_again now) l l.
Proof. apply Reflexive_instance_0. intros e. by exists 0%nat. Qed.
Lemma sent_again_insert now l l' i e :
  l' !! i = Some e -> Forall2 (sent_again now) l l' -> Forall2 (sent_again now) l (<[i := entry_sent now e]> l').
Proof.
  intros He H. apply Forall2_same_length_lookup_2.
  { rewrite length_insert. by eapply Forall2_length. }
  intros j a b Ha. rewrite list_lookup_insert_Some. intros [(-> & <- & _)|[_ Hb]].
  - destruct (Forall2_lookup_lr _ _ _ _ _ _ H Ha He) as [n ->]. by exists (S n).
  - by eapply Forall2_lookup_lr.
Qed.

Lemma drain_loop_spec now fuel : forall io0 io,
  io_ok io -> Forall2 (sent_again now) io0 (io_inflight io) ->
  wp (drain_loop send_ok fuel now) io (fun _ io' => io_ok io' /\ moves io io' /\ io_stats io' = io_stats io /\
    Forall2 (sent_again now) io0 (io_inflight io') /\ io_taken io' = io_taken io).
Proof.
  induction fuel as [|fuel IH]; intros io0 io Hio Hl; cbn [drain_loop]; [by apply wp_ret|].
  apply wp_bind, wp_get. destruct (CongestionWindow_is_full _); [by apply wp_ret|].
  destruct (io_pending io) as [|tid rest]; [by apply wp_ret|].
  apply wp_bind, wp_upd. set (io1 := set_pending rest io).
  assert (io_ok io1 /\ moves io io1) as [Hio1 Hm1] by (split; [by destruct Hio; split|by destruct (moves_refl io); split]).
  apply wp_bind. pose proof (position_spec (fun e => ie_tid e =? tid) (io_inflight io)) as Hpos.
  destruct (position _ _) as [idx|].
  - destruct Hpos as (e & He & _). eapply wp_mono; [|by apply (send_inflight_spec now idx e io1)].
    cbv beta. intros _ io2 (Hio2 & Hm2 & []). eapply wp_mono; [|apply (IH io0); [done|]].
    + cbv beta. intros _ io3 (H1 & H2 & H3 & H4 & H5). split_and!; [done|by do 2 (etrans; [done|])|by rewrite H3, rs_stats0|done|].
      rewrite H5, rs_taken0. done.
    + rewrite rs_inflight0. by apply sent_again_insert.
  - apply wp_ret. eapply wp_mono; [|by apply (IH io0)]. cbv beta. intros _ io3 (H1 & H2 & H3 & H4 & H5).
    split_and!; [done|by etrans|done..].
Qed.

Lemma rotate_secrets_spec io : io_ok io ->
  wp (rotate_secrets mac) io (fun _ io' => quiet io io').
Proof.
  intros []. unfold wp, rotate_secrets, upd. cbv zeta. destruct (io_secrets io) as [s|] eqn:E; [|done].
  destruct (_ =? 0); (split; try done); cbn; rewrite ?E; intros Hs s' [= <-];
    (split; [by apply (Hs s)|apply mac_len || by apply (Hs s)]).
Qed.

Lemma drain_spec now io : io_ok io ->
  wp (Io_drain mac send_ok now) io (fun _ io' => io_ok io' /\ moves io io' /\ io_stats io' = io_stats io /\
    Forall2 (sent_again now) (io_inflight io) (io_inflight io') /\ io_taken io' = io_taken io).
Proof.
  intros Hio. unfold Io_drain. apply wp_bind. eapply wp_mono; [|by apply rotate_secrets_spec].
  cbv beta. intros _ io1 Hq. pose proof (quiet_moves _ _ Hq) as Hm. pose proof (quiet_ok _ _ Hq Hio) as Hio1.
  apply wp_bind, wp_upd, wp_bind, wp_get. set (io2 := set_window _ io1). destruct Hq.
  assert (io_ok io2) as Hio2 by (destruct Hio1; split; cbn; auto).
  eapply wp_mono; [|apply (drain_loop_spec now _ (io_inflight io) io2); [done|]].
  - cbv beta. intros _ io3 (H1 & H2 & H3 & H4 & H5). split_and!; [done| | |done|].
    + etrans; [exact Hm|]. destruct H2. by split.
    + by rewrite H3.
    + by rewrite H5.
  - cbn. rewrite qt_inflight0. apply sent_again_refl.
Qed.

(** ** Timeouts *)

(** An entry to give up, and one that is due and still has tries. *)
Definition expired (now : Z) (e : InflightEntry) : bool := (ie_deadline e <=? now) && (ie_retries e <? ie_sent e).
Definition retry_due (now : Z) (e : InflightEntry) : bool :=
  (ie_deadline e <=? now) && negb (ie_retries e <? ie_sent e).
Definition retried (now : Z) (e : InflightEntry) : InflightEntry :=
  if retry_due now e then entry_sent now e else e.

Lemma due_from now give k l :
  let P := fun e => (ie_deadline e <=? now) && eqb (ie_retries e <? ie_sent e) give in
  (filter (fun p : nat * InflightEntry => P p.2) (imap (fun i e => ((k + i)%nat, e)) l)).*2 =
    filter (fun e => P e) l /\
  Forall2 (fun i e => (k <= i)%nat /\ l !! (i - k)%nat = Some e)
    (filter (fun p : nat * InflightEntry => P p.2) (imap (fun i e => ((k + i)%nat, e)) l)).*1
    (filter (fun e => P e) l) /\
  StronglySorted lt (filter (fun p : nat * InflightEntry => P p.2) (imap (fun i e => ((k + i)%nat, e)) l)).*1.
Proof.
  intros P. revert k. induction l as [|e l IH]; intros k; [repeat constructor|].
  rewrite imap_cons. destruct (IH (S k)) as (H1 & H2 & H3).
  rewrite (imap_ext _ (fun i e => ((S k + i)%nat, e))) by (intros; cbn; f_equal; lia).
  set (m := imap _ l) in *. rewrite !filter_cons. cbn [snd].
  assert (Forall2 (fun i e0 => (k <= i)%nat /\ (e :: l) !! (i - k)%nat = Some e0)
    (filter (fun p : nat * InflightEntry => P p.2) m).*1 (filter (fun e => P e) l)) as H2'.
  { eapply Forall2_impl; [exact H2|]. intros i e' [Hi Hl]. split; [lia|].
    replace (i - k)%nat with (S (i - S k)) by lia. done. }
  destruct (decide (P e)); cbn; [|done]. split_and!; [by rewrite H1| |].
  - constructor; [|done]. rewrite Nat.add_0_r, Nat.sub_diag. split; [lia|done].
  - constructor; [done|]. apply Forall_forall. intros j Hj.
    apply list_elem_of_lookup in Hj as [n Hn].
    destruct (Forall2_lookup_l _ _ _ _ _ H2 Hn) as (e' & _ & Hk & _). lia.
Qed.

Lemma due_spec now give l :
  let P := fun e => (ie_deadline e <=? now) && eqb (ie_retries e <? ie_sent e) give in
  Forall2 (fun i e => l !! i = Some e) (due now give l) (filter (fun e => P e) l) /\
  StronglySorted lt (due now give l).
Proof.
  intros P. destruct (due_from now give 0 l) as (_ & H2 & H3). unfold due.
  change (imap pair l) with (imap (fun i (e : InflightEntry) => ((0 + i)%nat, e)) l).
  split; [|done]. eapply Forall2_impl; [exact H2|]. intros i e [_ He]. by rewrite Nat.sub_0_r in He.
Qed.

Lemma filter_perm {A} (f : A -> bool) l :
  l ≡ₚ filter (fun x => f x) l ++ filter (fun x => negb (f x)) l.
Proof.
  induction l as [|x l IH]; [done|]. rewrite !filter_cons.
  destruct (f x); cbn [negb]; repeat case_decide; try done.
  - by constructor.
  - rewrite <- Permutation_middle. by constructor.
Qed.

(** The retry loop: the entries at the given indices are sent again. *)
Lemma retry_loop_spec now idxs : forall io,
  io_ok io -> NoDup idxs -> Forall (fun i => is_Some (io_inflight io !! i)) idxs ->
  wp (for_m idxs (fun i => upd (fun io => set_stats (count_retry (io_stats io)) io) ;;
                           send_inflight_at send_ok now i)) io (fun _ io' =>
    io_ok io' /\ moves io io' /\ io_taken io' = io_taken io /\
    length (io_inflight io') = length (io_inflight io) /\
    forall j, io_inflight io' !! j =
      if bool_decide (j ∈ idxs) then entry_sent now <$> io_inflight io !! j else io_inflight io !! j).
Proof.
  induction idxs as [|i idxs IH]; intros io Hio Hnd Hin; cbn [for_m].
  { by apply wp_ret. }
  inv Hnd as [|? ? Hni Hnd']. inv Hin as [|? ? [e He] Hin'].
  apply wp_bind, wp_bind, wp_upd. set (io1 := set_stats _ io).
  assert (io_ok io1 /\ moves io io1) as [Hio1 Hm1]
    by (split; [by destruct Hio; split|by destruct (moves_refl io); split]).
  eapply wp_mono; [|by apply (send_inflight_spec now i e io1)]. cbv beta. intros _ io2 (Hio2 & Hm2 & []).
  eapply wp_mono; [|apply IH; [done..|]].
  2: { eapply Forall_impl; [exact Hin'|]. intros j Hj. rewrite rs_inflight0.
       apply lookup_lt_is_Some. rewrite length_insert. by apply lookup_lt_is_Some in Hj. }
  cbv beta. intros _ io3 (H1 & H2 & H3 & H4 & H5). split_and!; [done|by do 2 (etrans; [done|])| | |].
  - by rewrite H3, rs_taken0.
  - by rewrite H4, rs_inflight0, length_insert.
  - intros j. rewrite H5, rs_inflight0. change (io_inflight io1) with (io_inflight io).
    destruct (decide (j = i)) as [->|Hne].
    + rewrite (bool_decide_false (i ∈ idxs)) by done. rewrite (bool_decide_true (i ∈ i :: idxs)) by (by left).
      rewrite list_lookup_insert_eq by (by eapply lookup_lt_Some). by rewrite He.
    + rewrite list_lookup_insert_ne by done.
      by rewrite (bool_decide_ext (j ∈ i :: idxs) (j ∈ idxs)) by (rewrite elem_of_cons; split; [by intros [?|?]|by right]).
Qed.

(** The removal loop, from the highest index down. *)
Lemma remove_due_spec idxs : forall io es,
  io_ok io -> StronglySorted gt idxs -> Forall2 (fun i e => io_inflight io !! i = Some e) idxs es ->
  wp (remove_due idxs) io (fun evs io' => evs = timeout_of <$> es /\ io_ok io' /\ moves io io' /\
    io_taken io' = io_taken io /\ io_inflight io ≡ₚ es ++ io_inflight io').
Proof.
  induction idxs as [|i idxs IH]; intros io es Hio Hs Hl; inv Hl as [|? e ? es' He Hl']; cbn [remove_due].
  { by apply wp_ret. }
  inv Hs as [|? ? Hs' Hlt]. apply wp_bind, wp_get.
  destruct (swap_remove_spec i (io_inflight io) e He) as (rest & -> & Hp & Htake).
  apply wp_bind, wp_upd, wp_bind. set (io1 := set_stats _ _).
  assert (io_ok io1) as Hio1.
  { destruct Hio. assert (len (io_inflight io) = 1 + len rest) as Hlen by (unfold len; rewrite Hp; cbn; lia).
    pose proof (len_nonneg rest). split; cbn; auto; try lia.
    rewrite Hp in io_entries0. by inv io_entries0. }
  assert (moves io io1) as Hm1 by (by destruct (moves_refl io); split).
  eapply wp_mono; [|apply (IH io1 es'); [done..|]].
  - cbv beta. intros evs io2 (-> & H1 & H2 & H3 & H4). apply wp_ret. split_and!; [done|done|by etrans|done|].
    rewrite Hp. cbn. by constructor.
  - apply Forall2_same_length_lookup_2; [by eapply Forall2_length|]. intros k j x Hj Hx.
    pose proof (Forall2_lookup_lr _ _ _ _ _ _ Hl' Hj Hx) as Hjx. cbn beta in Hjx.
    rewrite Forall_forall in Hlt. specialize (Hlt j (list_elem_of_lookup_2 _ _ _ Hj)).
    change (io_inflight io1) with rest.
    rewrite <- (lookup_take_lt rest i j) by lia. by rewrite Htake, lookup_take_lt by lia.
Qed.

Lemma due_expired now l :
  Forall2 (fun i e => l !! i = Some e) (due now true l) (filter (fun e => expired now e) l) /\
  StronglySorted lt (due now true l).
Proof.
  destruct (due_spec now true l) as [H1 H2]. split; [|done].
  erewrite list_filter_iff; [exact H1|]. intros e. unfold expired. cbn.
  by destruct (ie_retries e <? ie_sent e).
Qed.
Lemma due_retry now l j : j ∈ due now false l <-> exists e, l !! j = Some e /\ retry_due now e = true.
Proof.
  destruct (due_spec now false l) as [H1 _]. split.
  - intros [k Hk]%list_elem_of_lookup. destruct (Forall2_lookup_l _ _ _ _ _ H1 Hk) as (e & He & Hl).
    exists e. split; [done|]. apply list_elem_of_lookup_2, list_elem_of_filter in He as [He _].
    unfold retry_due. destruct (ie_retries e <? ie_sent e); [by rewrite andb_false_r in He|].
    by apply Is_true_true in He; cbn in He.
  - intros (e & He & Hr). unfold due. apply list_elem_of_fmap. exists (j, e). split; [done|].
    apply list_elem_of_filter. split.
    + cbn. unfold retry_due in Hr. destruct (ie_retries e <? ie_sent e); [by rewrite andb_false_r in Hr|].
      by apply Is_true_true.
    + apply elem_of_lookup_imap. by exists j, e.
Qed.

Lemma sorted_lt_NoDup l : StronglySorted lt l -> NoDup l.
Proof.
  induction 1 as [|x l _ IH Hx]; constructor; [|done]. intros Hin.
  rewrite Forall_forall in Hx. specialize (Hx x Hin). lia.
Qed.
Lemma sorted_reverse l : StronglySorted lt l -> StronglySorted gt (reverse l).
Proof.
  induction 1 as [|x l _ IH Hx]; [constructor|]. rewrite reverse_cons.
  apply StronglySorted_app. split_and!; [|done|repeat constructor].
  intros a b Ha ->%list_elem_of_singleton. rewrite elem_of_reverse in Ha. rewrite Forall_forall in Hx.
  specialize (Hx a Ha). lia.
Qed.

Lemma retried_expired now e : expired now e = true -> retried now e = e.
Proof.
  unfold expired, retried, retry_due. intros [H1 H2]%andb_true_iff. by rewrite H1, H2.
Qed.

Lemma check_timeouts_spec now io : io_ok io ->
  wp (check_timeouts send_ok now) io (fun evs io' =>
    evs = timeout_of <$> reverse (filter (fun e => expired now e) (io_inflight io)) /\
    io_ok io' /\ moves io io' /\ io_taken io' = io_taken io /\
    io_inflight io' ≡ₚ retried now <$> filter (fun e => negb (expired now e)) (io_inflight io)).
Proof.
  intros Hio. unfold check_timeouts. apply wp_bind, wp_get. cbv zeta. set (l := io_inflight io).
  destruct (due_expired now l) as [Hd Hsort].
  apply wp_bind. eapply wp_mono; [|apply retry_loop_spec; [done|..]].
  2: { apply sorted_lt_NoDup, due_spec. }
  2: { apply Forall_forall. intros j (e & He & _)%due_retry. by exists e. }
  cbv beta. intros _ io1 (Hio1 & Hm1 & Hk1 & Hlen & Hlook).
  assert (io_inflight io1 = retried now <$> l) as E1.
  { apply list_eq. intros j. rewrite Hlook, list_lookup_fmap. fold l. case_bool_decide as Hj.
    - apply due_retry in Hj as (e & He & Hr). rewrite He. cbn. unfold retried. by rewrite Hr.
    - destruct (l !! j) as [e|] eqn:He; [|done]. cbn. unfold retried. destruct (retry_due now e) eqn:Hr; [|done].
      exfalso. apply Hj, due_retry. eauto. }
  set (dead := filter (fun e => expired now e) l) in *.
  assert (retried now <$> dead = dead) as Edead.
  { transitivity (id <$> dead); [|apply list_fmap_id]. apply list_fmap_ext. intros j e He.
    apply list_elem_of_lookup_2, list_elem_of_filter in He as [He _].
    by apply retried_expired, Is_true_true. }
  eapply wp_mono; [|apply (remove_due_spec _ io1 (reverse dead)); [done|by apply sorted_reverse|]].
  - cbv beta. intros evs io2 (-> & Hio2 & Hm2 & Hk2 & Hp). split_and!; [done|done|by etrans|lia|].
    apply (Permutation_app_inv_l (reverse dead)). rewrite <- Hp, E1, (filter_perm (expired now) l) at 1.
    fold dead. rewrite fmap_app, Edead. by rewrite reverse_Permutation.
  - apply Forall2_reverse. apply Forall2_same_length_lookup_2; [by eapply Forall2_length|].
    intros k i e Hi He. pose proof (Forall2_lookup_lr _ _ _ _ _ _ Hd Hi He) as Hie. cbn beta in Hie.
    rewrite E1, list_lookup_fmap, Hie. cbn. f_equal.
    apply list_elem_of_lookup_2, list_elem_of_filter in He as [He _]. by apply retried_expired, Is_true_true.
Qed.

(** ** Relaying *)

Lemma relay_spec t cmd target value to tid io :
  io_ok io -> table_ok t -> in_u 64 cmd -> opt_ok id_ok target -> opt_ok fits value -> in_u 16 (port to) ->
  opt_ok (in_u 16) tid ->
  wp (relay send_ok t cmd target value to tid) io (fun _ io' => io_ok io' /\ moves io io' /\ no_request io io').
Proof.
  intros Hio Ht Hc Htg Hv Hp Htid. unfold relay. apply wp_bind, wp_get.
  destruct (io_destroying io); [by apply wp_ret|].
  destruct (socket_addr_from_str _) as [addr|]; [|by apply wp_ret].
  apply wp_bind.
  apply (wp_mono _ _ (fun i io1 => in_u 16 i /\ io_ok io1 /\ moves io io1 /\ no_request io io1)).
  2: { destruct tid as [i|]; [by apply wp_ret; split_and!; [apply Htid|..]|].
       eapply wp_mono; [|by apply next_tid_spec]. cbv beta.
       intros i io1 (-> & H1 & H2 & H3 & _). split_and!; [apply Hio|done..]. }
  intros i io1 (Hi & Hio1 & Hm1 & Hn1). cbv zeta. rewrite encode_request_total.
  2: { split; try done. by apply own_id_ok. }
  destruct (ipv4_octets _) as [o|]; [|by apply wp_ret].
  eapply wp_mono; [|apply send_to_spec]. cbv beta. intros ok io2 (_ & Hq & _).
  split_and!; [by eapply quiet_ok|by etrans; [done|apply quiet_moves]|].
  destruct Hq, Hn1. split; congruence.
Qed.

Lemma quiet_no_request io io' : quiet io io' -> no_request io io'.
Proof. by intros []. Qed.

Lemma reply_to_spec t tid target to value io :
  io_ok io -> table_ok t -> in_u 16 tid -> opt_ok id_ok target -> opt_ok fits value -> in_u 16 (port to) ->
  wp (reply_to mac fresh send_ok t tid target to value) io (fun _ io' => quiet io io').
Proof.
  intros Hio Ht Htid Htg Hv Hp. unfold reply_to. apply wp_bind, wp_get.
  destruct (io_destroying io); [by apply wp_ret|]. apply wp_bind.
  eapply wp_mono; [|by apply send_reply_spec]. cbv beta. by intros _ io1 (Hq & _).
Qed.

(** ** Incoming datagrams *)

(** A sender and the id it is known by: the hash of its address. *)
Definition sender_ok (from : Ipv4Peer) (id : option NodeId) : Prop :=
  peer_ok from /\ opt_ok (fun i => peer_id blake2b (host from) (port from) = Ok i) id.

Definition addr_ok (a : SocketAddr) : Prop := bytes_ok a.1 /\ in_u 16 a.2.

Lemma validated_id_spec id from io :
  peer_ok from ->
  wp (validated_id blake2b id from) io (fun id' io' => io' = io /\ sender_ok from id' /\
    (forall i, id' = Some i <-> id = Some i /\ peer_id blake2b (host from) (port from) = Ok i)).
Proof.
  clear fresh_len mac_len. intros Hp. unfold validated_id. destruct id as [i|].
  2: { apply wp_ret. split_and!; [done..|]. intros i. split; naive_solver. }
  destruct (peer_addr_text from Hp) as (o & Ho & _). rewrite peer_id_spec, Ho. apply wp_ret.
  unfold sender_ok. rewrite peer_id_spec, Ho. case_bool_decide as E.
  - subst i. split_and!; [done..|by intros i [= <-]|]. intros i. split; naive_solver.
  - split_and!; [done..|]. intros j. split; naive_solver.
Qed.

(** What the layer reports of a request it accepts. *)
Record request_event (kind : SocketKind) (secrets : list Z * list Z) (req : Request) (r : IncomingRequest) : Prop := {
  rv_tid : ir_tid r = req_tid req /\ in_u 16 (req_tid req);
  rv_sender : sender_ok (ir_from r) (ir_id r);
  rv_token : opt_ok (fun t => t = token_with mac secrets (host (ir_from r)) 0 \/
                              t = token_with mac secrets (host (ir_from r)) 1) (ir_token r);
  rv_token_eq : ir_token r = req_token req;
  rv_command : ir_command r = req_command req /\ in_u 64 (req_command req);
  rv_internal : ir_internal r = req_internal req;
  rv_target : ir_target r = req_target req /\ opt_ok id_ok (req_target req);
  rv_value : ir_value r = req_value req /\ buffer_ok (req_value req);
  rv_ctx : ir_reply_ctx r = kind
}.

Definition request_reported (kind : SocketKind) (req : Request) (from : Ipv4Peer) (io : Io) (r : option IoEvent)
    (io' : Io) : Prop :=
  quiet io io' /\
  match r with
  | Some (EvRequest q) => request_event kind (default fresh (io_secrets io)) req q /\ ir_from q = from /\
      io_out io' = io_out io
  | Some (EvResponse _) => False
  | None => exists t, req_token req = Some t /\ t <> token_with mac (default fresh (io_secrets io)) (host from) 0 /\
      t <> token_with mac (default fresh (io_secrets io)) (host from) 1
  end.

Lemma on_request_spec t from kind req io :
  io_ok io -> table_ok t -> peer_ok from -> message_ok (MRequest req) ->
  wp (on_request blake2b mac fresh send_ok t from kind req) io (request_reported kind req from io).
Proof.
  intros Hio Ht Hf (Htid & Hto & Hid & Htok & Hcmd & Htg & Hv). unfold on_request. apply wp_bind.
  apply (wp_mono _ _ (fun ok io1 => quiet io io1 /\ io_out io1 = io_out io /\
    (ok = true <-> opt_ok (fun t => t = token_with mac (default fresh (io_secrets io)) (host from) 0 \/
        t = token_with mac (default fresh (io_secrets io)) (host from) 1) (req_token req)))).
  2: { destruct (req_token req) as [tk|]; [|by apply wp_ret; split_and!].
       eapply wp_mono; [|apply validate_spec]. cbv beta. intros ok io1 (H1 & H2 & H3 & H4).
       split_and!; [done..|]. rewrite H1. split; [by intros H ? [= <-]|intros H; by apply H]. }
  intros ok io1 (Hq1 & Ho1 & Hok). destruct ok; cbn [negb].
  - destruct Hok as [Hok _]. specialize (Hok eq_refl). apply wp_bind.
    eapply wp_mono; [|by apply validated_id_spec]. cbv beta. intros id io2 (-> & Hs & _). apply wp_ret.
    split_and!; [done| |done..]. by split.
  - apply wp_bind. eapply wp_mono; [|apply send_reply_spec; try done].
    2: apply Hf. cbv beta. intros _ io2 (Hq2 & _). apply wp_ret. split; [by etrans|].
    destruct (req_token req) as [tk|]; [|by destruct Hok as [_ Hok]; discriminate Hok].
    exists tk. split; [done|]. destruct Hok as [_ Hok].
    split; intros ->; discriminate Hok; intros ? [= <-]; auto.
Qed.

(** What it reports of a response: the request [e] it answers, taken out of
    the list. *)
Record response_event (e : InflightEntry) (res : Response) (r : IoResponse) : Prop := {
  rp_tid : ev_tid r = ie_tid e;
  rp_sender : sender_ok (ev_from r) (ev_id r);
  rp_to_eq : ev_to r = res_to res /\ peer_ok (res_to res);
  rp_token_eq : ev_token r = res_token res /\ opt_ok (fixed_ok 32) (res_token res);
  rp_closer : ev_closer_nodes r = res_closer_nodes res /\ peers_ok (res_closer_nodes res);
  rp_error : ev_error r = res_error res /\ in_u 64 (res_error res);
  rp_value_eq : ev_value r = res_value res /\ buffer_ok (res_value res);
  rp_rtt : 0 <= ev_rtt r;
  rp_request : ev_request r = mkResolved (ie_tid e) (ie_to e) (ie_command e) (ie_internal e) (ie_target e)
}.

Definition response_reported (res : Response) (from : Ipv4Peer) (io : Io) (r : option IoEvent) (io' : Io) : Prop :=
  io_ok io' /\ moves io io' /\ io_taken io' = io_taken io /\ io_secrets io' = io_secrets io /\
  match r with
  | Some (EvResponse q) => exists e, response_event e res q /\ ev_from q = from /\ ie_tid e = res_tid res /\
      io_inflight io ≡ₚ e :: io_inflight io'
  | Some (EvRequest _) => False
  | None => io' = io /\ Forall (fun e => ie_tid e <> res_tid res) (io_inflight io)
  end.

Lemma on_response_spec now from res io :
  io_ok io -> peer_ok from -> message_ok (MResponse res) ->
  wp (on_response blake2b now from res) io (response_reported res from io).
Proof.
  intros Hio Hf (Htid & Hto & Hid & Htok & Hcl & Herr & Hv). unfold on_response. apply wp_bind, wp_get.
  pose proof (position_spec (fun e => ie_tid e =? res_tid res) (io_inflight io)) as Hpos.
  destruct (position _ _) as [i|].
  - destruct Hpos as (e & He & Heq%Z.eqb_eq & _).
    destruct (swap_remove_spec i (io_inflight io) e He) as (rest & -> & Hp & _).
    apply wp_bind, wp_upd, wp_bind. set (io1 := set_stats _ _).
    assert (io_ok io1) as Hio1.
    { destruct Hio. assert (len (io_inflight io) = 1 + len rest) as Hlen by (unfold len; rewrite Hp; cbn; lia).
      pose proof (len_nonneg rest). split; cbn; auto; try lia. rewrite Hp in io_entries0. by inv io_entries0. }
    eapply wp_mono; [|by apply validated_id_spec]. cbv beta. intros id io2 (-> & Hs & _). apply wp_ret.
    split_and!; [done|by destruct (moves_refl io); split|done..|]. exists e. split_and!; [|done..].
    split; try done. cbn. lia.
  - apply wp_ret. split_and!; [done..|]. eapply Forall_impl; [exact Hpos|]. intros e. cbn. lia.
Qed.

(** One datagram: what is reported of it, by the message it decodes to. *)
Definition datagram_reported (data : list Z) (addr : SocketAddr) (kind : SocketKind) (io : Io)
    (r : option IoEvent) (io' : Io) : Prop :=
  io_ok io' /\ moves io io' /\ io_taken io' = io_taken io /\
  match r with
  | None => io_inflight io' = io_inflight io
  | Some (EvRequest q) => io_inflight io' = io_inflight io /\ ir_from q = mkPeer (ipv4_text addr.1) addr.2 /\
      exists req, decode_message data = Ok (MRequest req) /\
        request_event kind (default fresh (io_secrets io)) req q
  | Some (EvResponse q) => ev_from q = mkPeer (ipv4_text addr.1) addr.2 /\
      exists res e, decode_message data = Ok (MResponse res) /\ response_event e res q /\
        io_inflight io ≡ₚ e :: io_inflight io'
  end.

Lemma process_datagram_spec now t data addr kind io :
  io_ok io -> table_ok t -> bytes_ok data -> addr_ok addr ->
  wp (process_datagram blake2b mac fresh send_ok now t data addr kind) io (datagram_reported data addr kind io).
Proof.
  intros Hio Ht Hd [Ha Hp]. unfold process_datagram.
  assert (datagram_reported data addr kind io None io) as Hnone by (by split_and!).
  destruct (len data <? 2); [by apply wp_ret|].
  destruct (Nat.eqb_spec (length addr.1) 4) as [Hl|]; [|by apply wp_ret].
  destruct (addr.2 =? 0); [by apply wp_ret|]. cbv zeta. cbn [negb].
  assert (peer_ok (mkPeer (ipv4_text addr.1) addr.2)) as Hf.
  { split; [|done]. apply ipv4_host_text; [done|]. unfold len. cbn. lia. }
  pose proof (decode_message_typed data Hd) as Hm.
  destruct (decode_message data) as [[req|res]|e|] eqn:Ed; [| |by apply wp_ret|done].
  - eapply wp_mono; [|by apply on_request_spec]. intros r io' [Hq Hr].
    split_and!; [by eapply quiet_ok|by apply quiet_moves|by destruct Hq|].
    destruct r as [[q|q]|]; [|done|by destruct Hq]. destruct Hr as (H1 & H2 & _).
    split_and!; [by destruct Hq|done|]. by exists req.
  - eapply wp_mono; [|by apply on_response_spec]. intros r io' (H1 & H2 & H3 & _ & Hr).
    split_and!; [done..|]. destruct r as [[q|q]|]; [done| |by destruct Hr as [-> _]].
    destruct Hr as (e & H4 & H5 & _ & H6). split; [done|]. by exists res, e.
Qed.

Lemma count_received_quiet data io : wp (count_received data) io (fun _ io' => quiet io io' /\
  io_secrets io' = io_secrets io /\ io_out io' = io_out io).
Proof. by unfold wp, count_received. Qed.

Lemma Io_recv_spec now t data addr kind io :
  io_ok io -> table_ok t -> bytes_ok data -> addr_ok addr ->
  wp (Io_recv blake2b mac fresh send_ok now t data addr kind) io (datagram_reported data addr kind io).
Proof.
  intros Hio Ht Hd Ha. unfold Io_recv. apply wp_bind. eapply wp_mono; [|apply count_received_quiet].
  cbv beta. intros _ io1 (Hq & Hs & Ho).
  eapply wp_mono; [|apply process_datagram_spec; [by eapply quiet_ok|done..]].
  intros r io2 (H1 & H2 & H3 & Hr). unfold datagram_reported. destruct Hq.
  rewrite Hs, qt_inflight0 in Hr. split_and!; [done|etrans; [|done]|congruence|done].
  by apply quiet_moves.
Qed.
Lemma handle_inbound_spec now t data addr io :
  io_ok io -> table_ok t -> bytes_ok data -> addr_ok addr ->
  wp (handle_inbound_reply_bytes blake2b mac fresh send_ok now t addr data) io
    (datagram_reported data addr Client io).
Proof. apply Io_recv_spec. Qed.

(** A request to a well-formed peer is made, whether it goes out now or later. *)
Lemma create_request_some now t p io :
  io_ok io -> table_ok t -> params_ok p -> peer_ok (rp_to p) -> io_destroying io = false ->
  wp (create_request send_ok now t p) io (fun r _ => r = Some (io_tid io)).
Proof.
  intros Hio Ht Hp Hto Hd. unfold create_request. apply wp_bind, wp_get. rewrite Hd.
  destruct (peer_addr_text _ Hto) as (o & Ho & _ & _ & _ & ->).
  apply wp_bind. eapply wp_mono; [|by apply next_tid_spec]. cbv beta.
  intros tid io1 (-> & [] & Hio1 & _). cbv zeta.
  rewrite encode_request_total by (apply request_of_typed; [done|apply Hio|done]).
  cbn [request_of req_to]. rewrite Ho. apply wp_bind, wp_upd, wp_bind, wp_get, wp_bind.
  destruct (CongestionWindow_is_full _); [by apply wp_upd|].
  set (io2 := set_stats _ _). eapply wp_mono; [|eapply (send_inflight_spec now _ _ io2)].
  - cbv beta. intros _ io3 _. by apply wp_ret.
  - apply io_ok_pushed; [done|]. apply entry_of_ok; [apply Hio|done|by apply retries_nonneg].
  - cbn [io2 set_stats set_inflight io_inflight]. rewrite length_app. cbn [length]. rewrite Nat.add_sub.
    by apply list_lookup_middle.
Qed.

(** A request to a well-formed peer is on the wire at once when the window has
    room. *)
Lemma create_request_sent now t p io :
  io_ok io -> table_ok t -> params_ok p -> peer_ok (rp_to p) -> io_destroying io = false ->
  CongestionWindow_is_full (io_congestion io) = false ->
  wp (create_request send_ok now t p) io (fun r io' => r = Some (io_tid io) /\ io_secrets io' = io_secrets io /\
    exists o, ipv4_octets (host (rp_to p)) = Some o /\ io_out io' = io_out io ++
      [(ViaKind (own_kind io), wire_request (request_of (io_tid io) (own_id (own_kind io) t io) p), (o, port (rp_to p)))]).
Proof.
  intros Hio Ht Hp Hto Hd Hw. unfold create_request. apply wp_bind, wp_get. rewrite Hd.
  destruct (peer_addr_text _ Hto) as (o & Ho & _ & _ & _ & ->).
  apply wp_bind. eapply wp_mono; [|by apply next_tid_spec]. cbv beta.
  intros tid io1 (-> & [] & Hio1 & Hm1 & Hk1 & Hs1 & Ho1 & Hpd1). cbv zeta.
  rewrite encode_request_total by (apply request_of_typed; [done|apply Hio|done]).
  cbn [request_of req_to]. rewrite Ho. apply wp_bind, wp_upd, wp_bind, wp_get.
  set (io2 := set_stats _ _). change (io_congestion io2) with (io_congestion io1). rewrite nr_window0, Hw.
  apply wp_bind.
  assert (io_inflight io2 !! (length (io_inflight io2) - 1)%nat = last (io_inflight io2)) as Hl.
  { rewrite last_lookup. f_equal. lia. }
  change (io_inflight io2) with (io_inflight io1 ++ [entry_of now (io_tid io) (o, port (rp_to p))
    (wire_request (request_of (io_tid io) (own_id (own_kind io) t io) p)) (own_kind io) 0
    (default DEFAULT_RETRIES (rp_retries p)) p]) in *. rewrite last_snoc in Hl.
  eapply wp_mono; [|eapply (send_inflight_spec now _ _ io2); [|exact Hl]].
  - cbv beta. intros _ io3 (_ & _ & []). apply wp_ret. split_and!; [done|by rewrite rs_secrets0|].
    exists o. split; [done|]. rewrite rs_out0. cbn. by rewrite Ho1.
  - apply io_ok_pushed; [done|]. apply entry_of_ok; [apply Hio|done|by apply retries_nonneg].
Qed.
End Io.
