(* ===== verification/IoTheorems.v ===== *)
(** * IoTheorems: what the request layer guarantees

    Runs of arbitrary operations: no panic, exact accounting, every request
    resolved at most once; timeouts resolve everything; how long a token
    lives; and a request travelling to another node and back. *)

From S2P Require Import Prelude RustStd CompactEncoding Codec Messages Peer RoutingTable Query Io.
From S2P Require Import RoutingTableProofs RoutingTableTheorems IoProofs.

#[local] Open Scope Z_scope.

(** ** Runs *)

(** The calls of the node: the clock, the table and the arguments. *)
Inductive IoOp :=
| OpRequest (now : Z) (t : RoutingTable) (p : RequestParams)
| OpRequestVia (now : Z) (t : RoutingTable) (p : RequestParams)
| OpDrain (now : Z)
| OpTimeouts (now : Z)
| OpReceive (now : Z) (t : RoutingTable) (data : list Z) (addr : SocketAddr) (kind : SocketKind)
| OpInbound (now : Z) (t : RoutingTable) (addr : SocketAddr) (data : list Z)
| OpReply (t : RoutingTable) (to : Ipv4Peer) (kind : SocketKind) (tid : Z) (target : option NodeId) (error : Z)
    (value : option (list Z))
| OpReplyTo (t : RoutingTable) (tid : Z) (target : option NodeId) (to : Ipv4Peer) (value : option (list Z))
| OpRelay (t : RoutingTable) (cmd : Z) (target : option NodeId) (value : option (list Z)) (to : Ipv4Peer)
    (tid : option Z).

(** The values the argument types allow. *)
Definition op_ok (op : IoOp) : Prop :=
  match op with
  | OpRequest _ t p | OpRequestVia _ t p => table_ok t /\ params_ok p
  | OpDrain _ | OpTimeouts _ => True
  | OpReceive _ t data addr _ | OpInbound _ t addr data => table_ok t /\ bytes_ok data /\ addr_ok addr
  | OpReply t to _ tid target error value =>
      table_ok t /\ in_u 16 tid /\ in_u 16 (port to) /\ opt_ok id_ok target /\ in_u 64 error /\ opt_ok fits value
  | OpReplyTo t tid target to value =>
      table_ok t /\ in_u 16 tid /\ in_u 16 (port to) /\ opt_ok id_ok target /\ opt_ok fits value
  | OpRelay t cmd target value to tid =>
      table_ok t /\ in_u 64 cmd /\ opt_ok id_ok target /\ opt_ok fits value /\ in_u 16 (port to) /\
      opt_ok (in_u 16) tid
  end.

(** The transaction ids an event resolves. *)
Definition event_resolves (ev : option IoEvent) : list Z :=
  match ev with Some (EvResponse r) => [rr_tid (ev_request r)] | _ => [] end.

Section Io.
Context (blake2b : list Z -> list Z) (mac : list Z -> list Z -> list Z).
Context (fresh : list Z * list Z) (send_ok : list Z -> SocketAddr -> bool).
Hypothesis mac_len : forall k m, fixed_ok 32 (mac k m).
Hypothesis fresh_len : fixed_ok 32 fresh.1 /\ fixed_ok 32 fresh.2.

(** One call: the requests it made and those it resolved. *)
Definition io_step (op : IoOp) : IoM (list Z * list Z) :=
  match op with
  | OpRequest now t p =>
      r ← create_request send_ok now t p; mret (option_list r, [])
  | OpRequestVia now t p =>
      r ← send_request_via_socket send_ok now t p; mret (option_list r, [])
  | OpDrain now => Io_drain mac send_ok now ;; mret ([], [])
  | OpTimeouts now => evs ← check_timeouts send_ok now; mret ([], te_tid <$> evs)
  | OpReceive now t data addr kind =>
      ev ← Io_recv blake2b mac fresh send_ok now t data addr kind; mret ([], event_resolves ev)
  | OpInbound now t addr data =>
      ev ← handle_inbound_reply_bytes blake2b mac fresh send_ok now t addr data; mret ([], event_resolves ev)
  | OpReply t to kind tid target error value =>
      send_reply_deferred mac fresh send_ok t to kind tid target error value ;; mret ([], [])
  | OpReplyTo t tid target to value => reply_to mac fresh send_ok t tid target to value ;; mret ([], [])
  | OpRelay t cmd target value to tid => relay send_ok t cmd target value to tid ;; mret ([], [])
  end.
Fixpoint io_run (ops : list IoOp) : IoM (list Z * list Z) :=
  match ops with
  | [] => mret ([], [])
  | op :: ops => x ← io_step op; y ← io_run ops; mret (x.1 ++ y.1, x.2 ++ y.2)
  end.

Definition tids (io : Io) : list Z := ie_tid <$> io_inflight io.

(** What one call does to the requests in flight. *)
Definition stepped (io : Io) (x : list Z * list Z) (io' : Io) : Prop :=
  io_ok io' /\ tids io ++ x.1 ≡ₚ x.2 ++ tids io'.

Lemma stepped_same io io' : io_ok io' -> io_inflight io' = io_inflight io -> stepped io ([], []) io'.
Proof. intros Hio E. split; [done|]. unfold tids. rewrite E. cbn. by rewrite app_nil_r. Qed.

Lemma retried_tids now (l : list InflightEntry) : ie_tid <$> (retried now <$> l) = ie_tid <$> l.
Proof. induction l as [|e l IH]; cbn; [done|]. f_equal; [|done]. unfold retried. by destruct (retry_due now e). Qed.

Lemma created_stepped now p n io r io' : created now p n io r io' -> stepped io (option_list r, []) io'.
Proof.
  intros (Hio & _ & Hr). destruct r as [tid|]; [|by destruct Hr; apply stepped_same].
  destruct Hr as (_ & _ & e & He & Hn & _). split; [done|]. unfold tids. rewrite He, fmap_app. cbn.
  by destruct Hn as (_ & -> & _).
Qed.

Lemma reported_stepped data addr kind io ev io' :
  datagram_reported blake2b mac fresh data addr kind io ev io' -> stepped io ([], event_resolves ev) io'.
Proof.
  intros (Hio & _ & _ & Hr). destruct ev as [[q|q]|]; cbn [event_resolves].
  - destruct Hr as [E _]. by apply stepped_same.
  - destruct Hr as (_ & res & e & _ & [] & Hp). split; [done|]. cbn. rewrite app_nil_r, rp_request.
    unfold tids. by rewrite Hp.
  - by apply stepped_same.
Qed.

Lemma io_step_spec op io : io_ok io -> op_ok op -> wp (io_step op) io (stepped io).
Proof.
  intros Hio. destruct op; cbn [op_ok io_step]; intros Hop; destruct_and? Hop; apply wp_bind.
  - eapply wp_mono; [|by apply create_request_spec]. intros r io' Hc. eapply created_stepped, Hc.
  - eapply wp_mono; [|by apply send_request_via_spec]. intros r io' Hc. eapply created_stepped, Hc.
  - eapply wp_mono; [|by apply drain_spec]. intros _ io' (Hc & _ & _ & Hs & _). apply wp_ret.
    split; [done|]. unfold tids. rewrite (sent_again_tids _ _ _ Hs). cbn. by rewrite app_nil_r.
  - eapply wp_mono; [|by apply check_timeouts_spec]. intros evs io' (-> & Hc & _ & _ & Hs). apply wp_ret.
    split; [done|]. cbn. rewrite app_nil_r. unfold tids.
    rewrite Hs, retried_tids, <- list_fmap_compose, (filter_perm (expired now) (io_inflight io)), fmap_app at 1.
    by rewrite reverse_Permutation.
  - eapply wp_mono; [|by apply Io_recv_spec]. intros ev io' Hc. eapply reported_stepped, Hc.
  - eapply wp_mono; [|by apply handle_inbound_spec]. intros ev io' Hc. eapply reported_stepped, Hc.
  - unfold send_reply_deferred. eapply wp_mono; [|by apply send_reply_spec]. cbv beta.
    intros [] io' (Hq & _). apply wp_ret.
    apply stepped_same; [by eapply quiet_ok|by destruct Hq].
  - eapply wp_mono; [|by apply reply_to_spec]. cbv beta. intros ? io' Hq. apply wp_ret.
    apply stepped_same; [by eapply quiet_ok|by destruct Hq].
  - eapply wp_mono; [|by apply relay_spec]. intros ? io' (Hc & _ & []). by apply stepped_same.
Qed.

Lemma io_run_spec ops : forall io, io_ok io -> Forall op_ok ops -> wp (io_run ops) io (stepped io).
Proof.
  induction ops as [|op ops IH]; intros io Hio Hops; cbn [io_run].
  { apply wp_ret, stepped_same; done. }
  inv Hops as [|? ? Hop Hops']. apply wp_bind. eapply wp_mono; [|by apply io_step_spec].
  intros [m r] io1 [Hio1 Hp1]. apply wp_bind. eapply wp_mono; [|by apply IH].
  intros [m' r'] io2 [Hio2 Hp2]. apply wp_ret. split; [done|]. cbn [fst snd] in *.
  rewrite (assoc_L (++)), Hp1, <- (assoc_L (++)), Hp2, (assoc_L (++)). done.
Qed.

Lemma io_new_ok n tid fw eph : in_u 16 tid -> io_ok (Io_new n tid fw eph).
Proof. intros H. split; cbn; auto. by intros s. Qed.

(** ** Waiting *)

(** The loop of [run] on a silent network: it wakes at the next deadline, [d]
    late, and checks the timeouts. *)
Fixpoint io_wakes (delays : list Z) : IoM (list TimeoutEvent) :=
  match delays with
  | [] => mret []
  | d :: delays =>
      io ← Prelude.get;
      evs ← check_timeouts send_ok (next_timeout_deadline 0 io + d);
      more ← io_wakes delays;
      mret (evs ++ more)
  end.

(** How often an entry can still be due, and the sum over all. *)
Definition tries (e : InflightEntry) : nat := S (Z.to_nat (ie_retries e + 1 - ie_sent e)).
Definition total_tries (io : Io) : nat := sum_list_with tries (io_inflight io).

Lemma sum_list_perm {A} (f : A -> nat) l k : l ≡ₚ k -> sum_list_with f l = sum_list_with f k.
Proof. induction 1; cbn; lia. Qed.

Lemma tries_step now l :
  (sum_list_with tries (retried now <$> filter (fun e => negb (expired now e)) l) <= sum_list_with tries l)%nat /\
  (Exists (fun e => ie_deadline e <= now) l ->
   (sum_list_with tries (retried now <$> filter (fun e => negb (expired now e)) l) < sum_list_with tries l)%nat).
Proof.
  induction l as [|e l [IH1 IH2]]; [split; [done|by inversion 1]|]. rewrite filter_cons.
  destruct (expired now e) eqn:Ee; cbn [negb].
  - rewrite decide_False by (by intros []). cbn [sum_list_with].
    assert (1 <= tries e)%nat by (unfold tries; lia). split; [lia|]. intros _. lia.
  - rewrite decide_True by done. cbn [fmap list_fmap sum_list_with].
    assert (tries (retried now e) <= tries e)%nat as Hle.
    { unfold retried, tries. destruct (retry_due now e); cbn; lia. }
    split; [lia|]. rewrite Exists_cons. intros [Hd|Hex]; [|specialize (IH2 Hex); lia].
    assert (tries (retried now e) < tries e)%nat; [|lia].
    revert Ee. unfold expired, retried, retry_due, tries. rewrite (proj2 (Z.leb_le _ _) Hd). cbn [andb].
    intros Hn. rewrite Hn. apply Z.ltb_ge in Hn. cbn. lia.
Qed.

Lemma foldl_min_le l : forall d, foldl Z.min d l <= d.
Proof. induction l as [|x l IH]; intros d; cbn; [lia|]. specialize (IH (Z.min d x)). lia. Qed.
Lemma foldl_min_in l : forall d, foldl Z.min d l = d \/ foldl Z.min d l ∈ l.
Proof.
  induction l as [|x l IH]; intros d; cbn; [by left|]. rewrite elem_of_cons.
  destruct (IH (Z.min d x)) as [->|?]; [|by auto]. destruct (Z.min_spec d x) as [[_ ->]|[_ ->]]; auto.
Qed.

(** Some entry is due at the next deadline. *)
Lemma next_deadline_due now d io :
  io_inflight io <> [] -> 0 <= d ->
  Exists (fun e => ie_deadline e <= next_timeout_deadline now io + d) (io_inflight io).
Proof.
  intros Hne Hd. unfold next_timeout_deadline. destruct (io_inflight io) as [|e l]; [done|]. cbn.
  destruct (foldl_min_in (ie_deadline <$> l) (ie_deadline e)) as [->|Hin]; [left; lia|].
  apply list_elem_of_fmap in Hin as (x & -> & Hx). right. apply Exists_exists. exists x. split; [done|]. lia.
Qed.

Lemma io_wakes_spec delays : forall io,
  io_ok io -> Forall (fun d => 0 <= d) delays ->
  wp (io_wakes delays) io (fun evs io' => io_ok io' /\
    tids io ≡ₚ (te_tid <$> evs) ++ tids io' /\
    (total_tries io' <= total_tries io - length delays)%nat).
Proof.
  induction delays as [|d delays IH]; intros io Hio Hd; cbn [io_wakes].
  { apply wp_ret. split_and!; [done..|]. cbn. lia. }
  inv Hd as [|? ? Hd0 Hd']. apply wp_bind, wp_get, wp_bind.
  eapply wp_mono; [|by apply check_timeouts_spec]. cbv beta. intros evs io1 (-> & Hio1 & _ & _ & Hp).
  apply wp_bind. eapply wp_mono; [|by apply IH]. cbv beta. intros more io2 (Hio2 & Hp2 & Ht2). apply wp_ret.
  set (now := next_timeout_deadline 0 io + d) in *.
  split_and!; [done| |].
  - rewrite fmap_app, <- (assoc_L (++)), <- Hp2. unfold tids.
    rewrite Hp, retried_tids, <- list_fmap_compose, (filter_perm (expired now) (io_inflight io)), fmap_app at 1.
    by rewrite reverse_Permutation.
  - cbn [length]. destruct (tries_step now (io_inflight io)) as [Hle Hlt].
    assert (total_tries io1 = sum_list_with tries (retried now <$> filter (fun e => negb (expired now e)) (io_inflight io)))
      as E by (by apply sum_list_perm). unfold total_tries in *.
    destruct (decide (io_inflight io = [])) as [E0|Hne].
    + rewrite E0 in *. cbn in *. lia.
    + specialize (Hlt (next_deadline_due 0 d io Hne Hd0)). lia.
Qed.

Lemma total_tries_0 io : (total_tries io <= 0)%nat -> io_inflight io = [].
Proof. unfold total_tries, tries. destruct (io_inflight io); cbn; [done|lia]. Qed.

(** ** Tokens *)

Fixpoint drains (nows : list Z) : IoM unit :=
  match nows with [] => mret tt | now :: nows => Io_drain mac send_ok now ;; drains nows end.

(** What tokens depend on. *)
Definition token_state (io : Io) : option (list Z * list Z) * Z := (io_secrets io, io_rotate_countdown io).

Lemma send_inflight_tokens now idx io : token_state (send_inflight_at send_ok now idx io).2 = token_state io.
Proof. unfold send_inflight_at, mbind, M_bind, Prelude.get. by destruct (io_inflight io !! idx). Qed.
Lemma drain_loop_tokens fuel now : forall io, token_state (drain_loop send_ok fuel now io).2 = token_state io.
Proof.
  induction fuel as [|fuel IH]; intros io; [done|]. cbn [drain_loop]. unfold mbind at 1, M_bind at 1, Prelude.get.
  destruct (CongestionWindow_is_full _); [done|]. destruct (io_pending io) as [|tid rest]; [done|].
  unfold mbind, M_bind, upd. destruct (position _ _) as [i|]; [|cbv [mret M_ret]; by rewrite IH].
  pose proof (send_inflight_tokens now i (set_pending rest io)) as Hs.
  destruct (send_inflight_at send_ok now i (set_pending rest io)) as [[[]|[]|] io']; cbn [snd] in *; [|exact Hs].
  rewrite IH. exact Hs.
Qed.
Lemma drain_tokens now io :
  token_state (Io_drain mac send_ok now io).2 =
  match io_secrets io with
  | None => token_state io
  | Some s => if io_rotate_countdown io =? 1 then (Some (rotate mac s), 10)
              else (Some s, io_rotate_countdown io - 1)
  end.
Proof.
  unfold Io_drain, mbind, M_bind, rotate_secrets, upd, Prelude.get. cbv zeta beta iota.
  rewrite drain_loop_tokens. cbn. destruct (io_secrets io) as [s|] eqn:E; [|done].
  destruct (Z.eqb_spec (io_rotate_countdown io) 1) as [->|]; [done|].
  by rewrite (proj2 (Z.eqb_neq _ _)) by lia.
Qed.

(** Every drain counts down by one, every rotation starts again from ten. *)
Lemma drains_tokens nows : forall io s,
  io_ok io -> io_secrets io = Some s -> 1 <= io_rotate_countdown io <= 10 ->
  wp (drains nows) io (fun _ io' => exists k, io_ok io' /\ io_secrets io' = Some (Nat.iter k (rotate mac) s) /\
    1 <= io_rotate_countdown io' <= 10 /\
    io_rotate_countdown io' + len nows = io_rotate_countdown io + 10 * Z.of_nat k).
Proof.
  induction nows as [|now nows IH]; intros io s Hio Hs Hc; cbn [drains].
  { apply wp_ret. exists 0%nat. change (len (@nil Z)) with 0. split_and!; [done|done|lia|lia|lia]. }
  apply wp_bind. pose proof (drain_tokens now io) as Ht. rewrite Hs in Ht.
  destruct (wp_inv _ _ _ (drain_spec mac send_ok mac_len now io Hio)) as ([] & io1 & E & Hio1 & _).
  rewrite E in Ht. rewrite (wp_eq _ _ _ _ _ E). cbn [snd] in Ht.
  destruct (Z.eqb_spec (io_rotate_countdown io) 1) as [E1|N1]; injection Ht as Hs1 Hc1.
  - eapply wp_mono; [|apply (IH io1 (rotate mac s)); [done|done|lia]].
    cbv beta. intros _ io2 (k & H1 & H2 & H3 & H4). exists (S k). rewrite Nat.iter_succ_r, len_cons.
    split_and!; [done|done|lia|lia|lia].
  - eapply wp_mono; [|apply (IH io1 s); [done|done|lia]].
    cbv beta. intros _ io2 (k & H1 & H2 & H3 & H4). exists k. rewrite len_cons. split_and!; [done|done|lia|lia|lia].
Qed.

(** A secret hashed [j] times. *)
Definition hashed (j : nat) (s : list Z) : list Z := Nat.iter j (fun x => mac x x) s.

Lemma rotate_twice k s0 s1 :
  exists i j, (1 <= i)%nat /\ (1 <= j)%nat /\
    (Nat.iter (S (S k)) (rotate mac) (s0, s1) = (hashed i s0, hashed j s1) \/
     Nat.iter (S (S k)) (rotate mac) (s0, s1) = (hashed j s1, hashed i s0)).
Proof.
  induction k as [|k (i & j & Hi & Hj & IH)]; [exists 1%nat, 1%nat; auto|].
  rewrite Nat.iter_succ. destruct IH as [->| ->]; cbn.
  - exists (S i), j. split_and!; [lia|lia|by right].
  - exists i, (S j). split_and!; [lia|lia|by left].
Qed.

(** ** Theorems *)

(** C26: whatever calls the node makes and whatever datagrams arrive, the request
    layer never panics and its books balance: every request made is either in
    flight or was resolved, once (by a response or a timeout); [active] counts
    those in flight, [total] is active plus responses plus timeouts, and the
    congestion window's total is the sum of its four non-negative quarters. *)
Theorem requests_accounted max_window tid fw eph ops :
  in_u 16 tid -> Forall op_ok ops ->
  exists made resolved io, io_run ops (Io_new max_window tid fw eph) = (Ok (made, resolved), io) /\
    made ≡ₚ resolved ++ tids io /\
    st_active (io_stats io) = len (io_inflight io) /\
    st_total (io_stats io) =
      st_active (io_stats io) + st_responses (io_stats io) + st_timeouts (io_stats io) /\
    window_ok (io_congestion io).
Proof.
  intros Htid Hops.
  destruct (wp_inv _ _ _ (io_run_spec ops _ (io_new_ok max_window tid fw eph Htid) Hops))
    as ([made resolved] & io & E & Hio & Hp).
  exists made, resolved, io. split; [done|]. split; [exact Hp|]. by destruct Hio.
Qed.

(** Requests always resolve: on a network that has gone silent, after as
    many wake-ups of the node's loop as there are tries left (each at the next
    deadline, however late), nothing is in flight any more and every request
    that was has been reported as timed out exactly once. *)
Theorem silent_requests_time_out io delays :
  io_ok io -> Forall (fun d => 0 <= d) delays -> (total_tries io <= length delays)%nat ->
  exists evs io', io_wakes delays io = (Ok evs, io') /\ io_inflight io' = [] /\
    te_tid <$> evs ≡ₚ tids io.
Proof.
  intros Hio Hd Hn. destruct (wp_inv _ _ _ (io_wakes_spec delays io Hio Hd)) as (evs & io' & E & _ & Hp & Ht).
  assert (io_inflight io' = []) as E0 by (apply total_tries_0; lia).
  exists evs, io'. split_and!; [done..|]. unfold tids at 2 in Hp. rewrite E0 in Hp. cbn in Hp.
  by rewrite app_nil_r in Hp.
Qed.

(** A token handed to a host is accepted from that host through the next ten
    drains (seven and a half seconds), whatever rotation falls among them; from
    twenty drains on, it is accepted only if the keyed hash of the host under a
    rehashed secret equals it; and another host's token never passes unless the
    keyed hashes collide. *)
Theorem token_lifetime io h tok io1 nows io2 :
  io_ok io -> 1 <= io_rotate_countdown io <= 10 ->
  token mac fresh h 1 io = (Ok tok, io1) -> drains nows io1 = (Ok tt, io2) ->
  let s := default fresh (io_secrets io) in
  tok = mac s.2 (string_bytes h) /\
  ((length nows <= 10)%nat -> exists io3, validate_token mac fresh h tok io2 = (Ok true, io3)) /\
  ((20 <= length nows)%nat -> forall io3, validate_token mac fresh h tok io2 = (Ok true, io3) ->
     exists j, (1 <= j)%nat /\
       (tok = mac (hashed j s.1) (string_bytes h) \/ tok = mac (hashed j s.2) (string_bytes h))) /\
  (forall h' io3, validate_token mac fresh h' tok io1 = (Ok true, io3) ->
     tok = mac s.1 (string_bytes h') \/ tok = mac s.2 (string_bytes h')).
Proof.
  intros Hio Hc Ht Hd s. pose proof (token_spec mac fresh fresh_len h 1 io) as Hs.
  rewrite (wp_eq _ _ _ _ _ Ht) in Hs. destruct Hs as (Htok & Hq & Hs1 & _). fold s in Htok, Hs1.
  assert (io_rotate_countdown io1 = io_rotate_countdown io) as Hc1.
  { revert Ht. unfold token, init_secrets, mbind, M_bind. destruct (io_secrets io); by intros [= _ <-]. }
  pose proof (drains_tokens nows io1 s (quiet_ok _ _ Hq Hio) Hs1 ltac:(lia)) as Hk.
  rewrite (wp_eq _ _ _ _ _ Hd) in Hk. destruct Hk as (k & Hio2 & Hs2 & Hc2 & Hn). unfold len in Hn.
  split_and!; [done| | |].
  - intros Hle. destruct (wp_inv _ _ _ (validate_spec mac fresh fresh_len h tok io2)) as (ok & io3 & E & Hok & _).
    exists io3. rewrite E. do 2 f_equal. apply Hok. rewrite Hs2. cbn [default from_option id].
    destruct k as [|[|k]]; [right; exact Htok|left; by rewrite Htok|lia].
  - intros Hge io3 E. pose proof (validate_spec mac fresh fresh_len h tok io2) as Hv.
    rewrite (wp_eq _ _ _ _ _ E), Hs2 in Hv. destruct Hv as [Hv _]. apply proj1 in Hv. specialize (Hv eq_refl).
    destruct k as [|[|k]]; [lia|lia|].
    destruct s as [s0 s1]. cbn [default from_option id] in Hv.
    destruct (rotate_twice k s0 s1) as (i & j & Hi & Hj & [E2|E2]); rewrite E2 in Hv; destruct Hv as [Hv|Hv];
      cbn in Hv; eauto.
  - intros h' io3 E. pose proof (validate_spec mac fresh fresh_len h' tok io1) as Hv.
    rewrite (wp_eq _ _ _ _ _ E), Hs1 in Hv. destruct Hv as [Hv _]. by apply Hv.
Qed.

(** ** A request and its reply *)

(** The address of a peer, as the socket shows it. *)
Definition seen_as (p : Ipv4Peer) (a : SocketAddr) : Prop :=
  bytes_ok a.1 /\ len a.1 = 4 /\ 0 < a.2 < 65536 /\ p = mkPeer (ipv4_text a.1) a.2.

Lemma seen_as_ok p a : seen_as p a -> peer_ok p /\ (length a.1 =? 4)%nat = true /\ (a.2 =? 0) = false /\
  ipv4_octets (host p) = Some a.1 /\ port p = a.2.
Proof.
  intros (Hb & Hl & Hp & ->). split_and!.
  - split; [by apply ipv4_host_text|]. cbn. words. lia.
  - unfold len in Hl. apply Nat.eqb_eq. lia.
  - lia.
  - by apply ipv4_octets_text.
  - done.
Qed.

Lemma recv_request now t data addr from kind req io :
  io_ok io -> table_ok t -> seen_as from addr -> 2 <= len data ->
  decode_message data = Ok (MRequest req) -> message_ok (MRequest req) ->
  opt_ok (fun tk => tk = token_with mac (default fresh (io_secrets io)) (host from) 0 \/
                    tk = token_with mac (default fresh (io_secrets io)) (host from) 1) (req_token req) ->
  wp (Io_recv blake2b mac fresh send_ok now t data addr kind) io (fun r io' => exists q,
    r = Some (EvRequest q) /\ request_event blake2b mac kind (default fresh (io_secrets io)) req q /\
    ir_from q = from /\ quiet io io' /\ io_out io' = io_out io).
Proof.
  intros Hio Ht Hf Hl Hd Hm Htok. destruct (seen_as_ok _ _ Hf) as (Hp & H4 & H0 & _ & _).
  unfold Io_recv. apply wp_bind. eapply wp_mono; [|apply count_received_quiet]. cbv beta.
  intros _ io1 (Hq1 & Hs1 & Ho1). unfold process_datagram.
  rewrite (proj2 (Z.ltb_ge _ _)), H4, H0, Hd by done. cbn [negb]. cbv zeta.
  destruct Hf as (_ & _ & _ & <-). eapply wp_mono; [|apply on_request_spec; try done; by eapply quiet_ok].
  intros r io2 [Hq2 Hr]. rewrite Hs1 in Hr. destruct r as [[q|q]|]; [|done|].
  - destruct Hr as (Hr1 & Hr2 & Hr3). exists q. split_and!; [done..|by etrans|congruence].
  - destruct Hr as (tk & Htk & Hn0 & Hn1). destruct (Htok tk Htk); congruence.
Qed.

Lemma recv_response now t data addr from kind res io :
  io_ok io -> table_ok t -> seen_as from addr -> 2 <= len data ->
  decode_message data = Ok (MResponse res) -> message_ok (MResponse res) -> res_tid res ∈ tids io ->
  wp (Io_recv blake2b mac fresh send_ok now t data addr kind) io (fun r io' => exists q e,
    r = Some (EvResponse q) /\ response_event blake2b e res q /\ ie_tid e = res_tid res /\
    ev_from q = from /\ io_inflight io ≡ₚ e :: io_inflight io').
Proof.
  intros Hio Ht Hf Hl Hd Hm Hin. destruct (seen_as_ok _ _ Hf) as (Hp & H4 & H0 & _ & _).
  unfold Io_recv. apply wp_bind. eapply wp_mono; [|apply count_received_quiet]. cbv beta.
  intros _ io1 (Hq1 & Hs1 & Ho1). unfold process_datagram.
  rewrite (proj2 (Z.ltb_ge _ _)), H4, H0, Hd by done. cbn [negb]. cbv zeta.
  destruct Hf as (_ & _ & _ & <-). eapply wp_mono; [|apply on_response_spec; try done; by eapply quiet_ok].
  intros r io2 (_ & _ & _ & _ & Hr). destruct Hq1. rewrite qt_inflight in Hr.
  destruct r as [[q|q]|]; [done| |].
  - destruct Hr as (e & Hr1 & Hr2 & Hr3 & Hr4). by exists q, e.
  - destruct Hr as [_ Hr]. apply list_elem_of_fmap in Hin as (e & He & Hin).
    rewrite Forall_forall in Hr. by destruct (Hr e Hin).
Qed.

Lemma buffer_norm_ok v : opt_ok bytes_ok v -> buffer_ok (buffer_norm v).
Proof.
  intros H. destruct v as [[|x l]|]; [done| |done]. cbn. split; [by apply (H (x :: l))|]. lens. pose proof (len_nonneg l). lia.
Qed.
Lemma norm_request_ok req :
  request_ok req -> opt_ok bytes_ok (req_value req) -> message_ok (MRequest (norm_request req)).
Proof. intros [[] Hh] Hv. split_and!; try done. by apply buffer_norm_ok. Qed.
Lemma norm_response_ok res :
  response_ok res -> opt_ok bytes_ok (res_value res) -> message_ok (MResponse (norm_response res)).
Proof. intros [[] Hh] Hv. split_and!; try done. by apply buffer_norm_ok. Qed.

Lemma wire_request_len req : 2 <= len (wire_request req).
Proof. unfold wire_request. lens. repeat match goal with |- context [len ?l] => pose proof (len_nonneg l); generalize dependent (len l); intros end. lia. Qed.
Lemma wire_response_len res : 2 <= len (wire_response res).
Proof. unfold wire_response. lens. repeat match goal with |- context [len ?l] => pose proof (len_nonneg l); generalize dependent (len l); intros end. lia. Qed.

(** The request leg: what goes out, and what the peer reports. *)
Lemma request_crosses a b ta tb p now now' me addr_a addr_b kind_b :
  io_ok a -> io_ok b -> table_ok ta -> table_ok tb -> params_ok p -> opt_ok bytes_ok (rp_value p) ->
  io_destroying a = false -> CongestionWindow_is_full (io_congestion a) = false ->
  seen_as me addr_a -> seen_as (rp_to p) addr_b ->
  opt_ok (fun tk => tk = token_with mac (default fresh (io_secrets b)) (host me) 0 \/
                    tk = token_with mac (default fresh (io_secrets b)) (host me) 1) (rp_token p) ->
  let req := request_of (io_tid a) (own_id (own_kind a) ta a) p in
  exists a1 b1 q e,
    create_request send_ok now ta p a = (Ok (Some (io_tid a)), a1) /\ io_ok a1 /\
    io_inflight a1 = io_inflight a ++ [e] /\ new_entry now (io_tid a) p e /\
    io_out a1 = io_out a ++ [(ViaKind (own_kind a), wire_request req, addr_b)] /\
    Io_recv blake2b mac fresh send_ok now' tb (wire_request req) addr_a kind_b b = (Ok (Some (EvRequest q)), b1) /\
    request_event blake2b mac kind_b (default fresh (io_secrets b)) (norm_request req) q /\
    ir_from q = me /\ io_out b1 = io_out b.
Proof.
  intros Ha Hb Hta Htb Hp Hpv Hd Hw Hme Hyou Htok req.
  destruct (seen_as_ok _ _ Hyou) as (Hpy & _ & _ & Hoy & Hpty).
  destruct (wp_inv _ _ _ (create_request_sent send_ok now ta p a Ha Hta Hp Hpy Hd Hw))
    as (r0 & a1 & E1 & -> & Hsa & o & Ho & Hout1).
  rewrite Hoy in Ho. injection Ho as <-. rewrite Hpty, <- surjective_pairing in Hout1.
  pose proof (create_request_spec send_ok now ta p a Ha Hta Hp) as Hc.
  rewrite (wp_eq _ _ _ _ _ E1) in Hc. destruct Hc as (Ha1 & _ & _ & _ & e & He & Hne & _).
  assert (request_ok req) as Hreq by (split; [apply request_of_typed; [done|apply Ha|done]|apply Hpy]).
  destruct (request_roundtrip req Hreq) as [_ Hdec].
  destruct (wp_inv _ _ _ (recv_request now' tb (wire_request req) addr_a me kind_b (norm_request req) b Hb Htb Hme
    (wire_request_len req) Hdec (norm_request_ok req Hreq Hpv) Htok)) as (r1 & b1 & E2 & q & -> & Hev & Hfrom & _ & Hob1).
  by exists a1, b1, q, e.
Qed.

(** The reply leg: what goes out, and which request the requester sees answered. *)
Lemma reply_crosses a1 b1 l e ta tb q now'' you addr_a addr_b kind_a value :
  io_ok a1 -> table_ok ta -> table_ok tb -> seen_as (ir_from q) addr_a -> seen_as you addr_b ->
  in_u 16 (ir_tid q) -> opt_ok id_ok (ir_target q) -> opt_ok fits value -> opt_ok bytes_ok value ->
  io_inflight a1 = l ++ [e] -> ie_tid e = ir_tid q -> ir_tid q ∉ ie_tid <$> l ->
  let res := reply_sent mac fresh tb b1 (ir_from q) (ir_reply_ctx q) (ir_tid q) (ir_target q) 0 true value in
  exists b2 a2 r,
    send_reply mac fresh send_ok tb q 0 value b1 = (Ok tt, b2) /\
    io_out b2 = io_out b1 ++ [(ViaKind (ir_reply_ctx q), wire_response res, addr_a)] /\
    Io_recv blake2b mac fresh send_ok now'' ta (wire_response res) addr_b kind_a a1 = (Ok (Some (EvResponse r)), a2) /\
    response_event blake2b e (norm_response res) r /\ ev_from r = you /\ io_inflight a2 ≡ₚ l.
Proof.
  intros Ha1 Hta Htb Hme Hyou Htid Htg Hv Hvb Hl Het Hni res.
  destruct (seen_as_ok _ _ Hme) as (Hpm & _ & _ & Hom & Hptm).
  pose proof (send_reply_spec mac fresh send_ok mac_len fresh_len tb (ir_from q) (ir_reply_ctx q) (ir_tid q)
    (ir_target q) 0 true value b1 Htb Htid (proj2 Hpm) Htg ltac:(done) Hv) as Hsr.
  destruct (wp_inv _ _ _ Hsr) as ([] & b2 & E3 & _ & _ & Hout).
  destruct (Hout Hpm) as (o & Ho & Hout2). rewrite Hom in Ho. injection Ho as <-.
  rewrite Hptm, <- surjective_pairing in Hout2.
  assert (response_ok res) as Hres by (split; [by apply reply_typed; try done; apply Hpm|apply Hpm]).
  destruct (response_roundtrip res Hres) as [_ Hdec'].
  assert (tids a1 = (ie_tid <$> l) ++ [ir_tid q]) as Htids by (unfold tids; rewrite Hl, fmap_app; cbn; by rewrite Het).
  destruct (wp_inv _ _ _ (recv_response now'' ta (wire_response res) addr_b you kind_a (norm_response res) a1
    Ha1 Hta Hyou (wire_response_len res) Hdec' (norm_response_ok res Hres Hvb)
    ltac:(rewrite Htids; apply elem_of_app; right; by left))) as (r2 & a2 & E4 & r & e' & -> & Hev & Het' & Hfr & Hperm).
  cbn in Het'. assert (e' = e) as ->.
  { assert (e' ∈ io_inflight a1) as Hin by (rewrite Hperm; by left). rewrite Hl in Hin.
    apply elem_of_app in Hin as [Hin|Hin%list_elem_of_singleton]; [|done].
    destruct Hni. rewrite <- Het'. apply list_elem_of_fmap. eauto. }
  exists b2, a2, r. split_and!; try done.
  apply (Permutation_cons_inv (a := e)). rewrite <- Hperm, Hl. by rewrite <- Permutation_cons_append.
Qed.

(** C27: a request and its reply cross the wire: what [create_request] puts on the
    wire, the peer's layer reports as a request with the same transaction id,
    command, target and value, from the requester; what [send_reply] puts on
    the wire for it, the requester's layer reports as the response to exactly
    that request, with the reply's value, no error, the peer's closest nodes
    and the peer's token for the requester's host; and the request is no longer
    in flight.  (An empty value travels as no value.) *)
Theorem request_reply_crosses a b ta tb p now now' now'' me addr_a addr_b kind_a kind_b value :
  io_ok a -> io_ok b -> table_ok ta -> table_ok tb -> params_ok p -> opt_ok bytes_ok (rp_value p) ->
  opt_ok fits value -> opt_ok bytes_ok value ->
  io_destroying a = false -> CongestionWindow_is_full (io_congestion a) = false -> io_tid a ∉ tids a ->
  seen_as me addr_a -> seen_as (rp_to p) addr_b ->
  opt_ok (fun tk => tk = token_with mac (default fresh (io_secrets b)) (host me) 0 \/
                    tk = token_with mac (default fresh (io_secrets b)) (host me) 1) (rp_token p) ->
  exists a1 request b1 q b2 reply a2 r,
    create_request send_ok now ta p a = (Ok (Some (io_tid a)), a1) /\
    io_out a1 = io_out a ++ [(ViaKind (own_kind a), request, addr_b)] /\
    Io_recv blake2b mac fresh send_ok now' tb request addr_a kind_b b = (Ok (Some (EvRequest q)), b1) /\
    (ir_tid q, ir_from q, ir_command q, ir_internal q, ir_target q, ir_value q) =
      (io_tid a, me, rp_command p, rp_internal p, rp_target p, buffer_norm (rp_value p)) /\
    send_reply mac fresh send_ok tb q 0 value b1 = (Ok tt, b2) /\
    io_out b2 = io_out b ++ [(ViaKind kind_b, reply, addr_a)] /\
    Io_recv blake2b mac fresh send_ok now'' ta reply addr_b kind_a a1 = (Ok (Some (EvResponse r)), a2) /\
    (ev_tid r, ev_from r, ev_value r, ev_error r, rr_tid (ev_request r), rr_command (ev_request r)) =
      (io_tid a, rp_to p, buffer_norm value, 0, io_tid a, rp_command p) /\
    ev_closer_nodes r = match rp_target p with
                        | Some t => peer_of <$> RoutingTable_closest tb t K
                        | None => []
                        end /\
    ev_token r = Some (token_with mac (default fresh (io_secrets b1)) (host me) 1) /\
    tids a2 ≡ₚ tids a.
Proof.
  intros Ha Hb Hta Htb Hp Hpv Hv Hvb Hd Hw Hni Hme Hyou Htok.
  destruct (request_crosses a b ta tb p now now' me addr_a addr_b kind_b)
    as (a1 & b1 & q & e & E1 & Ha1 & He & Hne & Hout1 & E2 & Hev & Hfrom & Hob); [done..|].
  destruct Hev as [[Hq1 Hq1'] _ _ _ [Hq2 Hq2'] Hq3 [Hq4 Hq4'] [Hq5 _] Hq6].
  destruct Hne as (_ & Hn1 & _ & Hn2 & _). cbn in Hq1.
  destruct (reply_crosses a1 b1 (io_inflight a) e ta tb q now'' (rp_to p) addr_a addr_b kind_a value)
    as (b2 & a2 & r & E3 & Hout2 & E4 & Hev & Hfr & Hperm);
    rewrite ?Hfrom, ?Hq1, ?Hq4; try done.
  destruct Hev as [Hr1 _ _ [Hr3 _] [Hr4 _] [Hr5 _] [Hr6 _] _ Hr7].
  do 2 eexists. exists b1, q, b2. do 2 eexists. exists r. split_and!; [exact E1|exact Hout1|exact E2| |exact E3| |exact E4|..].
  - by rewrite Hq1, Hfrom, Hq2, Hq3, Hq4, Hq5.
  - by rewrite Hout2, Hob, Hfrom, Hq6.
  - by rewrite Hr1, Hfr, Hr6, Hr5, Hr7, Hn1, Hn2.
  - rewrite Hr4. cbn. by rewrite Hq4.
  - rewrite Hr3. cbn. by rewrite Hfrom.
  - unfold tids. by rewrite Hperm.
Qed.
End Io.

(** ** Instances *)

Module IoExamples.
Definition mac (k m : list Z) : list Z := to_le 32 (from_le k + 7 * from_le m + 1).
Definition blake2b (m : list Z) : list Z := to_le 32 (from_le m + 1).
Definition fresh : list Z * list Z := (replicate 32 1, replicate 32 2).
Definition send_ok (_ : list Z) (_ : SocketAddr) : bool := true.

Lemma mac_len k m : fixed_ok 32 (mac k m).
Proof. split; [apply to_le_bytes_ok|apply len_to_le]. Qed.
Lemma fresh_len : fixed_ok 32 fresh.1 /\ fixed_ok 32 fresh.2.
Proof. by apply (bool_decide_unpack _). Qed.
Lemma two_nodes_ok : table_ok two_nodes.
Proof. split; [apply two_nodes_inv|]. apply (bool_decide_unpack _). vm_compute. exact I. Qed.

Definition you : Ipv4Peer := mkPeer "10.0.0.2" 49737.
Definition me : Ipv4Peer := mkPeer "10.0.0.1" 4000.
Definition ask : RequestParams := mkParams you None true 2 (Some (id_of 0x21)) (Some [1; 2; 3]) None (Some 1).
Lemma ask_ok : params_ok ask.
Proof. constructor; apply (bool_decide_unpack _); vm_compute; exact I. Qed.

(** The last id before the wrap, and one request in flight. *)
Definition start : Io := Io_new 80 65535 true true.
Definition busy : Io := (create_request send_ok 0 two_nodes ask start).2.
Lemma start_ok : io_ok start.
Proof. by apply io_new_ok. Qed.
Lemma busy_ok : io_ok busy.
Proof.
  destruct (wp_inv _ _ _ (create_request_spec send_ok 0 two_nodes ask start start_ok two_nodes_ok ask_ok))
    as (r & io & E & Hio & _). unfold busy. by rewrite E.
Qed.
End IoExamples.

(** Two requests, a datagram that is no message, a drain and a check. *)
Lemma requests_accounted_witness :
  exists made resolved io, io_run IoExamples.blake2b IoExamples.mac IoExamples.fresh IoExamples.send_ok
      [OpRequest 0 two_nodes IoExamples.ask; OpReceive 1 two_nodes [3; 4] ([10; 0; 0; 2], 9) Server;
       OpRequestVia 2 two_nodes IoExamples.ask; OpDrain 3; OpTimeouts 2000000000]
      (Io_new 80 65535 true true) = (Ok (made, resolved), io) /\
    made ≡ₚ resolved ++ tids io.
Proof.
  destruct (requests_accounted IoExamples.blake2b IoExamples.mac IoExamples.fresh IoExamples.send_ok
    IoExamples.mac_len IoExamples.fresh_len 80 65535 true true
    [OpRequest 0 two_nodes IoExamples.ask; OpReceive 1 two_nodes [3; 4] ([10; 0; 0; 2], 9) Server;
     OpRequestVia 2 two_nodes IoExamples.ask; OpDrain 3; OpTimeouts 2000000000])
    as (made & resolved & io & E & Hp & _); [by apply (bool_decide_unpack _)| |].
  2: exact (ex_intro _ made (ex_intro _ resolved (ex_intro _ io (conj E Hp)))).
  repeat apply Forall_cons_2; [..|by apply Forall_nil_2].
  1, 3: split; [apply IoExamples.two_nodes_ok|apply IoExamples.ask_ok].
  - split; [apply IoExamples.two_nodes_ok|]. split; [|split]; by apply (bool_decide_unpack _).
  - exact I.
  - exact I.
Defined.

Lemma silent_requests_time_out_witness :
  exists evs io', io_wakes IoExamples.send_ok [0; 5; 0] IoExamples.busy = (Ok evs, io') /\ io_inflight io' = [].
Proof.
  destruct (silent_requests_time_out IoExamples.send_ok IoExamples.busy [0; 5; 0]) as (evs & io' & E & Hi & _);
    [apply IoExamples.busy_ok|apply (bool_decide_unpack _); vm_compute; exact I|vm_compute; lia|].
  exact (ex_intro _ evs (ex_intro _ io' (conj E Hi))).
Defined.

(** Nine drains with a rotation among them. *)
Lemma token_lifetime_witness :
  let io1 := (token IoExamples.mac IoExamples.fresh "10.0.0.1" 1 IoExamples.start).2 in
  let io2 := (drains IoExamples.mac IoExamples.send_ok (replicate 10 0) io1).2 in
  exists io3, validate_token IoExamples.mac IoExamples.fresh "10.0.0.1"
    (token_with IoExamples.mac IoExamples.fresh "10.0.0.1" 1) io2 = (Ok true, io3).
Proof.
  intros io1 io2.
  refine (proj1 (proj2 (token_lifetime IoExamples.mac IoExamples.fresh IoExamples.send_ok IoExamples.mac_len
    IoExamples.fresh_len IoExamples.start "10.0.0.1" (token_with IoExamples.mac IoExamples.fresh "10.0.0.1" 1) io1
    (replicate 10 0) io2 IoExamples.start_ok _ _ _)) _); [done|done|vm_compute; reflexivity|done].
Defined.

Lemma request_reply_crosses_witness :
  exists a1 request b1 q,
    create_request IoExamples.send_ok 0 two_nodes IoExamples.ask IoExamples.start = (Ok (Some 65535), a1) /\
    Io_recv IoExamples.blake2b IoExamples.mac IoExamples.fresh IoExamples.send_ok 5 two_nodes request
      ([10; 0; 0; 1], 4000) Server IoExamples.start = (Ok (Some (EvRequest q)), b1) /\
    ir_value q = Some [1; 2; 3].
Proof.
  destruct (request_reply_crosses IoExamples.blake2b IoExamples.mac IoExamples.fresh IoExamples.send_ok
    IoExamples.mac_len IoExamples.fresh_len IoExamples.start IoExamples.start two_nodes two_nodes IoExamples.ask
    0 5 9 IoExamples.me ([10; 0; 0; 1], 4000) ([10; 0; 0; 2], 49737) Client Server (Some [7]))
    as (a1 & request & b1 & q & b2 & reply & a2 & r & E1 & _ & E2 & Hq & _);
    try apply IoExamples.start_ok; try apply IoExamples.two_nodes_ok; try apply IoExamples.ask_ok;
    try (apply (bool_decide_unpack _); vm_compute; exact I).
  exists a1, request, b1, q. split_and!; [exact E1|exact E2|]. injection Hq as _ _ _ _ _ Hv. exact Hv.
Defined.
