(* ===== verification/QueryTyped.v ===== *)
(** * QueryTyped: what a query hands to its owner

    The peers a query knows are well-formed IPv4 peers as long as those it is
    given are, so every request it hands out can be encoded and addressed; and
    the number of requests it can still hand out without hearing anything new
    is bounded by a budget that every batch of requests pays for. *)

From S2P Require Import Prelude RustStd CompactEncoding Codec Messages Peer RoutingTable.
From S2P Require Import RoutingTableProofs RoutingTableTheorems Io IoProofs Query QueryProofs.

#[local] Open Scope Z_scope.

(** ** Well-formed queries *)

Definition qnode_ok (n : QueryNode) : Prop := peer_ok (mkPeer (qn_host n) (qn_port n)).
Definition seen_ok (s : SeenState) : Prop := match s with Pending refs => Forall peer_ok refs | _ => True end.
Definition known_reply (r : QueryReply) : Prop := peer_ok (qr_from r) /\ opt_ok (fixed_ok 32) (qr_token r).

Record params_typed (p : QueryParams) : Prop := {
  pt_target : id_ok (qp_target p);
  pt_command : in_u 64 (qp_command p);
  pt_value : opt_ok fits (qp_value p);
  pt_k : qp_k p = K
}.
Record query_typed (q : Query) : Prop := {
  qt_params : params_typed (q_params q);
  qt_pending : Forall qnode_ok (q_pending q);
  qt_closest : Forall known_reply (q_closest_replies q);
  qt_closest_len : (length (q_closest_replies q) <= K)%nat;
  qt_seen : map_Forall (fun _ s => seen_ok s) (q_seen q)
}.

(** A request that can be encoded and addressed, with the default retries. *)
Definition request_params (r : QueryRequest) : RequestParams :=
  match r with QQuery p | QCommit p | QDownHint p => p end.
Definition request_sane (r : QueryRequest) : Prop :=
  let p := request_params r in params_ok p /\ peer_ok (rp_to p) /\ rp_retries p = None.

Lemma opt_none {A} (P : A -> Prop) : opt_ok P None.
Proof. by intros a. Qed.
Lemma opt_some {A} (P : A -> Prop) a : P a -> opt_ok P (Some a).
Proof. by intros Ha b [= <-]. Qed.
#[export] Hint Resolve opt_none opt_some : core.

Lemma ipv4_from_str_len s o : ipv4_from_str s = Some o -> length o = 4%nat.
Proof.
  unfold ipv4_from_str. destruct (_ <? _)%nat; [done|]. unfold read_ipv4_addr. intros H.
  repeat match type of H with
  | context [?m ≫= _] => destruct m as [[? ?]|]; cbn [mbind option_bind] in H; [|done]
  end. case_match; [|done]. by injection H as <-.
Qed.

Lemma down_hint_sane to down h : make_down_hint to down = Some h -> peer_ok to -> request_sane h.
Proof.
  unfold make_down_hint, encode_ipv4_peer_6. intros H Hto.
  destruct (ipv4_from_str (host down)) as [o|] eqn:Eo; [|done]. injection H as <-.
  apply ipv4_from_str_len in Eo. split_and!; [|done|done].
  split; cbn [request_params rp_to rp_token rp_command rp_target rp_value rp_retries]; auto;
    try (apply Hto); try (words; unfold DOWN_HINT_CMD; lia).
  apply opt_some. unfold fits, len. rewrite length_app, Eo. cbn. lia.
Qed.

(** ** Adding nodes *)

Lemma query_typed_seen a s q : seen_ok s -> query_typed q -> query_typed (set_seen (<[a := s]> (q_seen q)) q).
Proof. intros Hs []. split; try done. by apply map_Forall_insert_2. Qed.

Lemma add_pending_typed node referrer q :
  qnode_ok node -> opt_ok peer_ok referrer -> query_typed q ->
  let r := Query_add_pending_returning node referrer q in
  query_typed r.2 /\ opt_ok request_sane r.1.2 /\ (length (q_pending r.2) <= S (length (q_pending q)))%nat.
Proof.
  intros Hn Hr Hq. unfold Query_add_pending_returning. destruct (q_seen q !! _) as [[refs| |]|] eqn:Es; cbv zeta.
  - destruct referrer as [p|]; cbn [fst snd]; (split_and!; [|done|cbn; lia]); [|done].
    apply query_typed_seen; [|done]. cbn. apply Forall_app. split; [|constructor; [by apply Hr|done]].
    apply (qt_seen _ Hq _ _ Es).
  - cbn [fst snd]. split_and!; [done|done|lia].
  - cbn [fst snd]. split_and!; [done| |lia]. destruct referrer as [p|]; [|done].
    intros h Hh. eapply down_hint_sane; [done|by apply Hr].
  - destruct (Query_is_closer _ _); cbn [negb fst snd]; (split_and!; [|done|]); [|cbn; rewrite length_app; cbn; lia|done|lia].
    apply (query_typed_seen (addr_of (qn_host node) (qn_port node)) (Pending match referrer with Some r => [r] | None => [] end)) in Hq.
    + destruct Hq. split; try done. cbn in *. apply Forall_app. by split; [|constructor].
    + cbn. destruct referrer; [constructor; [by apply Hr|done]|done].
Qed.

Lemma add_pendings_typed nodes : forall q,
  Forall qnode_ok nodes -> query_typed q ->
  let q' := foldl (fun q node => Query_add_pending_impl node None q) q nodes in
  query_typed q' /\ (length (q_pending q') <= length nodes + length (q_pending q))%nat.
Proof.
  induction nodes as [|x nodes IH]; intros q Hn Hq; cbn [foldl]; [split; [done|cbn; lia]|].
  inv Hn as [|? ? Hx Hn']. destruct (add_pending_typed x None q Hx (opt_none _) Hq) as (H1 & _ & H2).
  destruct (IH (Query_add_pending_impl x None q) Hn' H1) as [H3 H4]. split; [done|].
  unfold Query_add_pending_impl in H4 |- *. cbn [length] in *. lia.
Qed.

Definition node_of_table (n : Node) : QueryNode := mkQueryNode (n_id n) (n_host n) (n_port n).

Lemma closest_qnodes t target k : table_ok t -> id_ok target ->
  Forall qnode_ok (node_of_table <$> RoutingTable_closest t target k) /\
  (length (node_of_table <$> RoutingTable_closest t target k) <= k)%nat.
Proof.
  intros [Ht Hn] Hid. rewrite closest_eq, length_fmap, length_take. split; [|lia].
  assert (RoutingTable_bucket_index t target < NUM_BUCKETS)%nat as Hlt
    by (apply bucket_index_bound; [apply Ht|done]).
  apply Forall_fmap, Forall_take. by rewrite scan_order_perm.
Qed.

Lemma add_from_table_typed t q :
  table_ok t -> query_typed q ->
  let q' := Query_add_from_table (Some t) q in
  query_typed q' /\ (length (q_pending q') <= Nat.max K (length (q_pending q)))%nat.
Proof.
  intros Ht Hq. unfold Query_add_from_table. pose proof (pt_k _ (qt_params _ Hq)) as Hk.
  destruct (Nat.leb_spec (qp_k (q_params q)) (length (q_pending q))); [split; [done|lia]|]. cbv zeta.
  assert (query_typed (set_from_table true q)) as Hq' by (destruct Hq; by split).
  destruct (closest_qnodes t (qp_target (q_params q)) (qp_k (q_params q) - length (q_pending q)) Ht
    (pt_target _ (qt_params _ Hq))) as [H1 H2].
  destruct (add_pendings_typed _ _ H1 Hq') as [H3 H4]. split; [exact H3|].
  etrans; [exact H4|]. cbn [q_pending set_from_table]. unfold K in *. lia.
Qed.

Lemma add_nodes_typed blake2b nodes : forall q,
  Forall (fun hp => peer_ok (mkPeer hp.1 hp.2)) nodes -> query_typed q ->
  exists q', Query_add_nodes blake2b nodes q = Ok q' /\ query_typed q'.
Proof.
  induction nodes as [|[h p] nodes IH]; intros q Hn Hq; cbn [Query_add_nodes]; [by exists q|].
  inv Hn as [|? ? Hx Hn']. cbn in Hx. destruct (peer_addr_text _ Hx) as (o & Ho & _). cbn in Ho.
  rewrite peer_id_spec, Ho. case_bool_decide; [by apply IH|].
  apply IH; [done|]. by apply (add_pending_typed (mkQueryNode (blake2b (o ++ to_le 2 p)) h p) None q Hx).
Qed.

Lemma add_closer_typed blake2b from nodes : forall q,
  peer_ok from -> Forall peer_ok nodes -> query_typed q ->
  exists extra q', add_closer_nodes blake2b from nodes q = Ok (extra, q') /\ query_typed q' /\
    Forall request_sane extra.
Proof.
  induction nodes as [|x nodes IH]; intros q Hf Hn Hq; cbn [add_closer_nodes]; [by exists [], q|].
  inv Hn as [|? ? Hx Hn']. destruct (peer_addr_text _ Hx) as (o & Ho & _).
  rewrite peer_id_spec, Ho. case_bool_decide; [by apply IH|].
  set (node := mkQueryNode _ _ _).
  assert (qnode_ok node) as Hnode by (by destruct x).
  destruct (add_pending_typed node (Some from) q Hnode (opt_some _ _ Hf) Hq) as (H1 & H2 & _).
  destruct (Query_add_pending_returning node (Some from) q) as [[br hint] q1]. cbn [fst snd] in *.
  assert (Forall request_sane (match hint with Some h => [h] | None => [] end)) as Hx1
    by (destruct hint; [constructor; [by apply H2|done]|done]).
  destruct br; [by eexists _, q1|].
  destruct (IH q1 Hf Hn' H1) as (more & q2 & -> & H3 & H4). exists (match hint with Some h => [h] | None => [] end ++ more), q2.
  split_and!; [done|done|]. by apply Forall_app.
Qed.

(** ** Handing out requests *)

(** The requests a query can still make on its own: for the nodes pending, for
    those of one visit to the table, for the commits. *)
Definition budget (q : Query) : nat :=
  length (q_pending q) + (if q_from_table q then 0 else K) + (if q_committing q then 0 else K).
(** The requests of a batch that are not down hints. *)
Definition handed (reqs : list QueryRequest) : nat := length (query_reqs reqs) + length (commit_reqs reqs).

Definition paid (q : Query) (r : list QueryRequest * Query) : Prop :=
  query_typed r.2 /\ Forall request_sane r.1 /\ (handed r.1 + budget r.2 <= budget q)%nat.

Lemma handed_app a b : handed (a ++ b) = (handed a + handed b)%nat.
Proof. unfold handed, query_reqs, commit_reqs. rewrite !omap_app, !length_app. lia. Qed.
Lemma handed_hints l : Forall is_hint l -> handed l = 0%nat.
Proof. intros [Hq Hc]%hints_no_query. unfold handed. by rewrite Hq, Hc. Qed.

Lemma params_sane q to token :
  query_typed q -> peer_ok to -> opt_ok (fixed_ok 32) token ->
  let p := mkParams to token (qp_internal (q_params q)) (qp_command (q_params q))
             (Some (qp_target (q_params q))) (qp_value (q_params q)) None None in
  params_ok p /\ peer_ok (rp_to p) /\ rp_retries p = None.
Proof. intros [[] _ _ _ _] Hto Htok. split_and!; [|done|done]. split; cbn; auto. apply Hto. Qed.

Lemma read_loop_typed fuel eff : forall q,
  query_typed q ->
  let r := read_loop fuel eff q in
  query_typed r.2 /\ Forall request_sane r.1 /\
  (handed r.1 + length (q_pending r.2) <= length (q_pending q))%nat /\
  q_from_table r.2 = q_from_table q /\ q_committing r.2 = q_committing q.
Proof.
  induction fuel as [|fuel IH]; intros q Hq; cbn [read_loop]; [by split_and!; try done; cbn; lia|].
  destruct (_ <? _)%nat; [|by split_and!; try done; cbn; lia].
  destruct (pop (q_pending q)) as [[next pending]|] eqn:Ep; [|by split_and!; try done; cbn; lia].
  apply pop_spec in Ep. cbv zeta.
  assert (qnode_ok next /\ query_typed (set_pending pending q)) as [Hnext Hq1].
  { destruct Hq. rewrite Ep in qt_pending0. apply Forall_app in qt_pending0 as [Hp Hnx].
    split; [by inv Hnx|by split]. }
  rewrite Ep, length_app. cbn [length].
  destruct (Query_is_closer _ _); cbn [negb].
  - assert (query_typed (set_inflight (S (q_inflight (set_pending pending q))) (set_pending pending q))) as Hq2
      by (destruct Hq1; by split).
    specialize (IH _ Hq2). destruct (read_loop fuel eff _) as [reqs q']. cbn [fst snd] in *.
    destruct IH as (H1 & H2 & H3 & H4 & H5). split_and!; [done| | |done|done].
    + constructor; [|done]. by apply (params_sane _ _ None Hq2).
    + unfold handed, query_reqs, commit_reqs in *. cbn in *. lia.
  - specialize (IH _ Hq1). destruct (read_loop fuel eff _) as [reqs q']. cbn [fst snd] in *.
    destruct IH as (H1 & H2 & H3 & H4 & H5). split_and!; try done. cbn in *. lia.
Qed.

Lemma commit_params_sane q : query_typed q ->
  Forall (fun p => params_ok p /\ peer_ok (rp_to p) /\ rp_retries p = None) (commit_params q) /\
  (length (commit_params q) <= K)%nat.
Proof.
  intros Hq. pose proof (qt_closest _ Hq) as Hc. pose proof (qt_closest_len _ Hq) as Hl.
  unfold commit_params. revert Hc Hl. generalize (q_closest_replies q). intros l Hc Hl. split.
  - clear Hl. induction Hc as [|r l [Hf Htok] _ IH]; cbn; [done|].
    destruct (qr_token r) as [tk|] eqn:E; cbn; [|done]. constructor; [|done].
    by apply (params_sane q (qr_from r) (Some tk) Hq).
  - etrans; [|exact Hl]. clear Hc Hl. induction l as [|r l IH]; cbn; [lia|]. destruct (qr_token r); cbn; lia.
Qed.

Lemma finish_typed q : query_typed q -> query_typed (Query_finish_internal q).
Proof.
  intros Hq. unfold Query_finish_internal. destruct (q_finished q); [done|].
  destruct (q_result_tx q); destruct Hq; by split.
Qed.
Lemma finish_budget q : budget (Query_finish_internal q) = budget q.
Proof. unfold Query_finish_internal. destruct (q_finished q); [done|]. by destruct (q_result_tx q). Qed.

Lemma flush_paid q : query_typed q -> q_committing q = false -> paid q (Query_flush q).
Proof.
  intros Hq Hc. unfold Query_flush. rewrite Hc. cbv zeta.
  assert (forall n, query_typed (set_committing true n q)) as Hq1 by (intros n; destruct Hq; by split).
  assert (forall n, budget (set_committing true n q) + K = budget q)%nat as Hb
    by (intros n; unfold budget; cbn; rewrite Hc; lia).
  destruct (qp_commit _); cbn [negb].
  - destruct (commit_params_sane q Hq) as [H1 H2]. specialize (Hb (length (commit_params q))).
    change (commit_params (set_committing _ _ q)) with (commit_params q).
    destruct (_ =? 0)%nat.
    + split_and!; [apply finish_typed, Hq1|done|]. cbn [fst snd]. rewrite finish_budget. cbn.
      unfold budget in *. cbn in *. lia.
    + split_and!; [apply Hq1| |].
      * apply Forall_fmap. eapply Forall_impl; [exact H1|]. done.
      * cbn [fst snd]. unfold handed.
        assert (length (commit_reqs (QCommit <$> commit_params q)) = length (commit_params q) /\
          query_reqs (QCommit <$> commit_params q) = []) as [-> ->].
        { generalize (commit_params q). intros l. unfold commit_reqs, query_reqs.
          induction l as [|x l [IH1 IH2]]; cbn; [done|]. by rewrite IH1, IH2. }
        unfold budget in *. cbn in *. lia.
  - specialize (Hb (q_commit_inflight q)). split_and!; [apply finish_typed, Hq1|done|]. cbn [fst snd].
    rewrite finish_budget. unfold budget in *. cbn in *. lia.
Qed.

Lemma paid_app q reqs q1 r :
  Forall request_sane reqs -> (handed reqs + budget q1 <= budget q)%nat -> paid q1 r ->
  paid q (let '(more, q2) := r in (reqs ++ more, q2)).
Proof.
  destruct r as [more q2]. intros H1 H2 (H3 & H4 & H5). cbn [fst snd] in *.
  split_and!; [done|by apply Forall_app|]. cbn [fst snd]. rewrite handed_app. lia.
Qed.

Lemma read_more_paid fuel t : forall q, table_ok t -> query_typed q -> paid q (read_more fuel (Some t) q).
Proof.
  induction fuel as [|fuel IH]; intros q Ht Hq; cbn [read_more]; [by split_and!|].
  destruct (q_finished q || q_committing q) eqn:Hd; [by split_and!|].
  apply orb_false_iff in Hd as [_ Hc].
  pose proof (read_loop_typed (length (q_pending q)) (effective_concurrency q) q Hq) as Hr.
  destruct (read_loop _ _ q) as [reqs q1]. cbn [fst snd] in Hr. destruct Hr as (Hq1 & Hs1 & Hp1 & Hf1 & Hc1).
  set (q2 := if _ && _ && _ then _ else q1).
  assert (query_typed q2 /\ budget q2 = budget q1 /\ q_committing q2 = false /\ q_from_table q2 = q_from_table q1)
    as (Hq2 & Hb2 & Hc2 & Hf2).
  { unfold q2. rewrite Hc in Hc1. destruct (_ && _ && _); [|by split_and!]. destruct Hq1. split_and!; try done; by split. }
  clearbody q2.
  assert (handed reqs + budget q2 <= budget q)%nat as Hb by (rewrite Hb2; unfold budget; rewrite Hf1, Hc1; lia).
  assert (paid q (let '(f, q') := Query_flush q2 in (reqs ++ f, q'))) as Hflush
    by (eapply paid_app; [done|done|by apply flush_paid]).
  destruct (q_pending q2) as [|x l] eqn:Ep; [|by split_and!].
  destruct (_ =? 0)%nat; [|by split_and!].
  destruct (negb (q_from_table q2) && _) eqn:Hft; [|done].
  apply andb_true_iff in Hft as [Hnt%negb_true_iff _].
  destruct (add_from_table_typed t q2 Ht Hq2) as [Hq3 Hl3].
  destruct (add_from_table_spec (Some t) q2) as (Hs3 & _ & Ht3).
  set (q3 := Query_add_from_table (Some t) q2) in *.
  assert (q_from_table q3 = true) as Hft3.
  { apply Ht3. rewrite Ep, (pt_k _ (qt_params _ Hq2)). cbn. unfold K. lia. }
  assert (q_committing q3 = false) as Hc3 by (by rewrite (sc_committing _ _ Hs3)).
  assert (budget q3 <= budget q2)%nat as Hb3.
  { unfold budget. rewrite Hft3, Hnt, Hc3, Hc2, Ep. rewrite Ep in Hl3. cbn in *. lia. }
  destruct (q_pending q3).
  - eapply paid_app; [done| |by apply flush_paid]. lia.
  - eapply paid_app; [done| |by apply IH]. lia.
Qed.

(** ** Events *)

Lemma on_timeout_paid t to q :
  table_ok t -> query_typed q -> paid q (Query_on_timeout (Some t) to q).
Proof.
  intros Ht Hq. unfold Query_on_timeout. cbv zeta.
  set (refs := match q_seen q !! peer_addr to with Some (Pending refs) => refs | _ => [] end).
  assert (Forall peer_ok refs) as Hrefs.
  { unfold refs. destruct (q_seen q !! peer_addr to) as [[l| |]|] eqn:E; try done. apply (qt_seen _ Hq _ _ E). }
  assert (Forall request_sane (omap (fun r => make_down_hint r to) refs)) as Hh.
  { clearbody refs. induction Hrefs as [|r l Hr _ IH]; cbn; [done|].
    destruct (make_down_hint r to) as [h|] eqn:E; [|done]. constructor; [|done]. by eapply down_hint_sane. }
  assert (handed (omap (fun r => make_down_hint r to) refs) = 0%nat) as Hh0.
  { apply handed_hints. clear. induction refs as [|r l IH]; cbn; [done|]. unfold make_down_hint at 1.
    destruct (encode_ipv4_peer_6 to); cbn; [by constructor|done]. }
  set (q1 := set_counts _ _ _).
  assert (query_typed q1 /\ budget q1 = budget q) as [Hq1 Hb1].
  { split; [|done]. apply (query_typed_seen (peer_addr to) Down) in Hq; [|done]. destruct Hq. by split. }
  destruct (negb _).
  - eapply paid_app; [done| |by apply read_more_paid]. lia.
  - split_and!; [done|done|]. cbn [fst snd]. lia.
Qed.

(** What a response may carry. *)
Record data_ok (d : IoResponseData) : Prop := {
  do_from : peer_ok (rd_from d);
  do_id : opt_ok id_ok (rd_from_id d);
  do_token : opt_ok (fixed_ok 32) (rd_token d);
  do_closer : Forall peer_ok (rd_closer_nodes d)
}.

Lemma bubble_elems q m_id n : forall l,
  ((bubble q m_id n l).1 ⊆ l) /\ (length (bubble q m_id n l).1 <= length l)%nat.
Proof.
  induction n as [|i IH]; intros l; cbn [bubble]; [done|].
  destruct (l !! i ≫= qr_from_id) as [p|]; [|done]. cbv zeta.
  destruct (_ <? 0); [done|]. destruct (_ =? 0); cbn [fst].
  - split; [|rewrite length_app, length_take, length_drop; lia].
    intros x [Hx|Hx]%elem_of_app; [by eapply elem_of_take_elem|].
    apply list_elem_of_lookup in Hx as [j Hj]. rewrite lookup_drop in Hj. by eapply list_elem_of_lookup_2.
  - destruct (IH (swap_next i l)) as [H1 H2]. unfold swap_next in *.
    destruct (l !! i) as [x|] eqn:Ex; [|done]. destruct (l !! S i) as [y|] eqn:Ey; [|done].
    rewrite !length_insert in H2. split; [|done]. intros z Hz%H1.
    apply list_elem_of_lookup in Hz as [j Hj].
    apply list_lookup_insert_Some in Hj as [(_ & <- & _)|[_ Hj]]; [by eapply list_elem_of_lookup_2|].
    apply list_lookup_insert_Some in Hj as [(_ & <- & _)|[_ Hj]]; by eapply list_elem_of_lookup_2.
Qed.

Lemma push_closest_typed r q : known_reply r -> query_typed q -> query_typed (Query_push_closest r q).
Proof.
  intros Hr Hq. unfold Query_push_closest. destruct (qr_from_id r) as [m|]; [|done]. cbv zeta.
  set (l := q_closest_replies q ++ [r]). destruct (bubble_elems q m (length l - 1) l) as [H1 H2].
  destruct (bubble q m (length l - 1) l) as [l' rm] eqn:Eb. cbn [fst] in *.
  assert (Forall known_reply l') as Hl'.
  { apply Forall_forall. intros x Hx%H1. apply elem_of_app in Hx as [Hx|Hx%list_elem_of_singleton]; [|by subst].
    pose proof (qt_closest _ Hq) as Hc. rewrite Forall_forall in Hc. auto. }
  assert (length l <= S K)%nat as Hlen
    by (unfold l; rewrite length_app; pose proof (qt_closest_len _ Hq); cbn; lia).
  pose proof (pt_k _ (qt_params _ Hq)) as Hk.
  assert (forall l2, Forall known_reply l2 -> (length l2 <= K)%nat -> query_typed (set_closest l2 q)) as Hset
    by (intros l2 ? ?; destruct Hq; by split).
  destruct rm.
  - apply Hset; [done|]. assert (length l' < length l)%nat; [|lia].
    clear -Eb. revert Eb. assert (length l - 1 < length l)%nat as Hn by (unfold l; rewrite length_app; cbn; lia).
    revert Hn. generalize (length l - 1)%nat. clearbody l. intros n. revert l.
    induction n as [|i IH]; intros l Hn; cbn [bubble]; [done|].
    destruct (l !! i ≫= qr_from_id) as [p|]; [|done]. cbv zeta. destruct (_ <? 0); [done|].
    destruct (_ =? 0).
    + intros [= <-]. rewrite length_app, length_take, length_drop. lia.
    + intros Eb. apply IH in Eb; unfold swap_next in *; repeat case_match; rewrite ?length_insert in *; lia.
  - destruct (Nat.ltb_spec (qp_k (q_params q)) (length l')); apply Hset; try done; [by apply Forall_take| |lia].
    rewrite length_take. lia.
Qed.

Lemma on_response_typed blake2b t data q :
  table_ok t -> data_ok data -> query_typed q ->
  exists reqs q', Query_on_response blake2b (Some t) data q = Ok (reqs, q') /\ query_typed q' /\
    Forall request_sane reqs.
Proof.
  intros Ht [] Hq. unfold Query_on_response. cbv zeta.
  apply (query_typed_seen (peer_addr (rd_from data)) Done) in Hq; [|done].
  set (q0 := set_seen (<[peer_addr (rd_from data) := Done]> (q_seen q)) q) in Hq.
  set (q1 := set_seen _ (set_inflight _ _)).
  assert (query_typed q1) as Hq1 by (destruct Hq; by split).
  destruct (q_committing q1); [by eexists _, _|].
  set (q2 := if rd_error data =? 0 then _ else _).
  assert (query_typed q2) as Hq2 by (unfold q2; destruct (rd_error data =? 0); destruct Hq1; by split).
  assert (query_typed (accept_reply data q2)) as Hq3.
  { unfold accept_reply. destruct (rd_error data =? 0); [|done]. destruct (rd_from_id data); [|done].
    destruct (Query_is_closer q2 _); [|done]. by apply push_closest_typed. }
  destruct (add_closer_typed blake2b (rd_from data) (rd_closer_nodes data) _ do_from0 do_closer0 Hq3)
    as (extra & q4 & -> & Hq4 & Hx).
  set (q5 := if _ && _ then _ else q4).
  assert (query_typed q5) as Hq5 by (unfold q5; destruct (_ && _); [destruct Hq4; by split|done]).
  unfold Query_read_more. pose proof (read_more_paid 2 t q5 Ht Hq5) as Hp.
  destruct (read_more 2 (Some t) q5) as [more q6]. destruct Hp as (H1 & H2 & _). cbn [fst snd] in *.
  exists (extra ++ more), q6. split_and!; [done|done|]. by apply Forall_app.
Qed.

Lemma commit_done_typed q : query_typed q ->
  query_typed (Query_on_commit_done q).2 /\ budget (Query_on_commit_done q).2 = budget q.
Proof.
  intros Hq. unfold Query_on_commit_done. cbv zeta.
  set (q1 := set_committing _ _ q). assert (query_typed q1 /\ budget q1 = budget q) as [Hq1 Hb1]
    by (split; [destruct Hq; by split|done]).
  destruct (_ =? 0)%nat; cbn [snd]; [|done]. rewrite finish_budget. split; [by apply finish_typed|done].
Qed.

Lemma query_new_typed id target internal command value concurrency commit own_id :
  id_ok target -> in_u 64 command -> opt_ok fits value ->
  query_typed (Query_new id target internal command value concurrency commit own_id).
Proof. intros. split; try done. cbn. lia. Qed.
