(* ===== verification/Router.v ===== *)
(** * Router: forwarding of handshakes and hole punches

    [peeroxide-dht/src/router.rs] decides what a node does with a handshake or
    hole-punch message; [handle_peer_handshake], [handle_peer_holepunch] and
    one turn of [run_request_handler] in [peeroxide-dht/src/hyperdht.rs] carry
    the decision out, here as the list of messages they send; and
    [encode_server_handshake_reply] of [peeroxide/src/swarm.rs] is the
    server's answer.  An [Instant] is a number of nanoseconds and every read of
    the clock is an argument; a poisoned router lock is [None]. *)

From S2P Require Import Prelude RustStd CompactEncoding Codec Messages.
From S2P Require Import HyperdhtMessages HyperdhtWire HyperdhtTheorems Peer Crypto.
From S2P Require Import Persistent.

#[local] Open Scope Z_scope.

(** Twenty minutes. *)
Definition DEFAULT_FORWARD_TTL : Z := 20 * 60 * 1000000000.

Inductive RouterError : Type :=
| BadHandshakeReply
| BadHolepunchReply
| Encoding (e : EncodingError).

Record HandshakeResult : Type := mkHandshakeResult {
  hr_noise : list Z;
  hr_relayed : bool;
  hr_server_address : Ipv4Peer;
  hr_client_address : Ipv4Peer
}.
Record HolepunchResult : Type := mkHolepunchResult {
  pr_from : Ipv4Peer;
  pr_to : Ipv4Peer;
  pr_payload : list Z;
  pr_peer_address : Ipv4Peer
}.

Inductive HandshakeAction : Type :=
| HsReply (value : list Z)
| HsRelay (value : list Z) (to : Ipv4Peer)
| HsForwardRequest (value : list Z) (to : Ipv4Peer)
| HsReplyTo (value : list Z) (to : Ipv4Peer)
| HsHandleLocally (msg : HandshakeMessage)
| HsCloserNodes
| HsDrop.
Inductive HolepunchAction : Type :=
| HpReply (value : list Z) (to : Ipv4Peer)
| HpRelay (value : list Z) (to : Ipv4Peer)
| HpForwardRequest (value : list Z) (to : Ipv4Peer)
| HpReplyTo (value : list Z) (to : Ipv4Peer)
| HpHandleLocally (msg : HolepunchMessage) (peer_address : Ipv4Peer)
| HpDrop.

Record ForwardEntry : Type := mkForward {
  fe_relay : option Ipv4Peer;
  fe_has_server : bool;
  fe_inserted : Z
}.
Record Router : Type := mkRouter {
  forwards : gmap NodeId ForwardEntry;
  r_ttl : Z
}.

(** ** The table *)

Definition Router_new : Router := mkRouter ∅ DEFAULT_FORWARD_TTL.
Definition Router_set (target : NodeId) (entry : ForwardEntry) (r : Router) : Router :=
  mkRouter (<[target := entry]> (forwards r)) (r_ttl r).
(** [entry.inserted.elapsed()] is [duration_since now]. *)
Definition Router_get (now : Z) (target : NodeId) (r : Router) : option ForwardEntry :=
  match forwards r !! target with
  | None => None
  | Some entry =>
      if negb (fe_has_server entry) && (r_ttl r <? duration_since now (fe_inserted entry))
      then None else Some entry
  end.
Definition Router_delete (target : NodeId) (r : Router) : Router :=
  mkRouter (delete target (forwards r)) (r_ttl r).
(** [now target] is the clock when the entry of [target] is examined. *)
Definition Router_gc (now : NodeId -> Z) (r : Router) : Router :=
  mkRouter (filter (fun te => fe_has_server te.2 || (duration_since (now te.1) (fe_inserted te.2) <=? r_ttl r) = true)
              (forwards r)) (r_ttl r).

(** ** Replies seen by the client *)

Definition peer_eqb (a b : Ipv4Peer) : bool := String.eqb (host a) (host b) && (port a =? port b).

Definition Router_validate_handshake_reply (reply_value : list Z) (expected_from actual_from : Ipv4Peer)
    : outcome RouterError HandshakeResult :=
  match decode_handshake_from_bytes reply_value with
  | Ok hs =>
      if negb (hs_mode hs =? MODE_REPLY) || negb (peer_eqb expected_from actual_from)
         || is_empty (hs_noise hs)
      then Err BadHandshakeReply
      else Ok (mkHandshakeResult (hs_noise hs) (is_some (hs_peer_address hs))
                 (default expected_from (hs_peer_address hs)) actual_from)
  | Err _ => Err BadHandshakeReply
  | Panic => Panic
  end.
Definition Router_validate_holepunch_reply (reply_value : list Z)
    (expected_from actual_from actual_to : Ipv4Peer) : outcome RouterError HolepunchResult :=
  match decode_holepunch_msg_from_bytes reply_value with
  | Ok hp =>
      if negb (hm_mode hp =? MODE_REPLY) || negb (peer_eqb expected_from actual_from)
      then Err BadHolepunchReply
      else Ok (mkHolepunchResult actual_from actual_to (hm_payload hp)
                 (default expected_from (hm_peer_address hp)))
  | Err _ => Err BadHolepunchReply
  | Panic => Panic
  end.

(** [?] on an encoding result. *)
Definition lift_encoding {A} (o : outcome EncodingError A) : outcome RouterError A :=
  match o with Ok a => Ok a | Err e => Err (Encoding e) | Panic => Panic end.
Definition with_encoded {A} (o : outcome EncodingError (list Z)) (k : list Z -> A) : outcome RouterError A :=
  match o with Ok b => Ok (k b) | Err e => Err (Encoding e) | Panic => Panic end.

Definition Router_encode_client_handshake (noise : list Z) (peer_address relay_address : option Ipv4Peer)
    : outcome RouterError (list Z) :=
  lift_encoding (encode_handshake_to_bytes (mkHandshake MODE_FROM_CLIENT noise peer_address relay_address)).
Definition Router_encode_client_holepunch (id : Z) (payload : list Z) (peer_address : option Ipv4Peer)
    : outcome RouterError (list Z) :=
  lift_encoding (encode_holepunch_msg_to_bytes (mkHolepunch MODE_FROM_CLIENT id payload peer_address)).

(** ** Routing *)

Definition opt_or {A} (a b : option A) : option A := match a with Some _ => a | None => b end.

(** [target.and_then(|t| self.get(t))], then [is_some_and(|s| s.has_server)]
    and [and_then(|s| s.relay.clone())]. *)
Definition target_state (now : Z) (r : Router) (target : option NodeId) : option ForwardEntry :=
  t ← target; Router_get now t r.
Definition serves (now : Z) (r : Router) (target : option NodeId) : bool :=
  match target_state now r target with Some s => fe_has_server s | None => false end.
Definition relay_of (now : Z) (r : Router) (target : option NodeId) : option Ipv4Peer :=
  s ← target_state now r target; fe_relay s.

Definition Router_route_handshake (now : Z) (r : Router) (target : option NodeId) (from : Ipv4Peer)
    (value : list Z) : outcome RouterError HandshakeAction :=
  match decode_handshake_from_bytes value with
  | Err _ => Ok HsDrop
  | Panic => Panic
  | Ok hs =>
      let is_server := serves now r target in
      let relay := relay_of now r target in
      if is_server then
        if (hs_mode hs =? MODE_FROM_CLIENT) || (hs_mode hs =? MODE_FROM_RELAY)
           || (hs_mode hs =? MODE_FROM_SECOND_RELAY)
        then Ok (HsHandleLocally hs) else Ok HsDrop
      else if hs_mode hs =? MODE_FROM_CLIENT then
        if is_empty (hs_noise hs) then Ok HsDrop
        else match opt_or (hs_relay_address hs) relay with
             | Some target_addr =>
                 with_encoded (encode_handshake_to_bytes
                   (mkHandshake MODE_FROM_RELAY (hs_noise hs) (Some from) None))
                   (fun b => HsForwardRequest b target_addr)
             | None => Ok HsCloserNodes
             end
      else if hs_mode hs =? MODE_FROM_RELAY then
        match relay with
        | None => Ok HsDrop
        | Some relay_addr =>
            if is_empty (hs_noise hs) then Ok HsDrop
            else with_encoded (encode_handshake_to_bytes
                   (mkHandshake MODE_FROM_SECOND_RELAY (hs_noise hs) (hs_peer_address hs) (Some from)))
                   (fun b => HsForwardRequest b relay_addr)
        end
      else if hs_mode hs =? MODE_FROM_SERVER then
        match hs_peer_address hs with
        | None => Ok HsDrop
        | Some peer_address =>
            if is_empty (hs_noise hs) then Ok HsDrop
            else with_encoded (encode_handshake_to_bytes
                   (mkHandshake MODE_REPLY (hs_noise hs) (Some from) None))
                   (fun b => HsReplyTo b peer_address)
        end
      else Ok HsDrop
  end.

Definition Router_route_holepunch (now : Z) (r : Router) (target : option NodeId) (from : Ipv4Peer)
    (value : list Z) : outcome RouterError HolepunchAction :=
  match decode_holepunch_msg_from_bytes value with
  | Err _ => Ok HpDrop
  | Panic => Panic
  | Ok hp =>
      let is_server := serves now r target in
      let relay := relay_of now r target in
      if hm_mode hp =? MODE_FROM_CLIENT then
        match opt_or (hm_peer_address hp) relay with
        | None => Ok HpDrop
        | Some to =>
            with_encoded (encode_holepunch_msg_to_bytes
              (mkHolepunch MODE_FROM_RELAY (hm_id hp) (hm_payload hp) (Some from)))
              (fun b => HpForwardRequest b to)
        end
      else if hm_mode hp =? MODE_FROM_RELAY then
        if negb is_server then Ok HpDrop
        else match hm_peer_address hp with
             | None => Ok HpDrop
             | Some peer_address => Ok (HpHandleLocally hp peer_address)
             end
      else if hm_mode hp =? MODE_FROM_SERVER then
        match hm_peer_address hp with
        | None => Ok HpDrop
        | Some peer_address =>
            with_encoded (encode_holepunch_msg_to_bytes
              (mkHolepunch MODE_REPLY (hm_id hp) (hm_payload hp) (Some from)))
              (fun b => HpReplyTo b peer_address)
        end
      else Ok HpDrop
  end.

(** ** The request handlers *)

Record UserRequest : Type := mkUserRequest {
  ur_from : Ipv4Peer;
  ur_id : option NodeId;
  ur_tid : Z;
  ur_token : option (list Z);
  ur_command : Z;
  ur_target : option NodeId;
  ur_value : option (list Z)
}.

(** What a handler sends.  [FxReply], [FxError] and [FxRelease] settle the
    request ([UserRequest::reply], [error], [release]); [FxDrop] drops it;
    [FxRelay] is [DhtHandle::relay_with_tid] and [FxReplyTo]
    [DhtHandle::send_reply_to]; the last two are the events for the server,
    which answers later. *)
Inductive Effect : Type :=
| FxReply (value : option (list Z))
| FxError (code : Z)
| FxRelease
| FxDrop
| FxRelay (command : Z) (target : option NodeId) (value : list Z) (to : Ipv4Peer) (tid : Z)
| FxReplyTo (tid : Z) (target : option NodeId) (to : Ipv4Peer) (value : list Z)
| FxServerHandshake (msg : HandshakeMessage) (from : Ipv4Peer) (peer_address : option Ipv4Peer)
    (target : option NodeId)
| FxServerHolepunch (msg : HolepunchMessage) (from : Ipv4Peer) (peer_address : Ipv4Peer)
    (target : option NodeId).

(** [server_up]: the server's channel is open. *)
Definition handle_peer_handshake (now : Z) (router : option Router) (server_up : bool) (req : UserRequest)
    : outcome Empty_set (list Effect) :=
  match ur_value req with
  | None => Ok [FxError 1]
  | Some value =>
      match router with
      | None => Ok [FxError 1]
      | Some r =>
          match Router_route_handshake now r (ur_target req) (ur_from req) value with
          | Panic => Panic
          | Err _ => Ok [FxError 1]
          | Ok (HsReply value) => Ok [FxReply (Some value)]
          | Ok (HsForwardRequest value to) | Ok (HsRelay value to) =>
              Ok [FxRelay PEER_HANDSHAKE (ur_target req) value to (ur_tid req); FxRelease]
          | Ok (HsReplyTo value to) =>
              Ok [FxReplyTo (ur_tid req) (ur_target req) to value; FxRelease]
          | Ok (HsHandleLocally msg) =>
              if server_up
              then Ok [FxServerHandshake msg (ur_from req) (hs_peer_address msg) (ur_target req)]
              else Ok [FxReply None]
          | Ok HsCloserNodes => Ok [FxReply None]
          | Ok HsDrop => Ok [FxDrop]
          end
      end
  end.
Definition handle_peer_holepunch (now : Z) (router : option Router) (server_up : bool) (req : UserRequest)
    : outcome Empty_set (list Effect) :=
  match ur_value req with
  | None => Ok [FxError 1]
  | Some value =>
      match router with
      | None => Ok [FxError 1]
      | Some r =>
          match Router_route_holepunch now r (ur_target req) (ur_from req) value with
          | Panic => Panic
          | Err _ => Ok [FxError 1]
          | Ok (HpForwardRequest value to) | Ok (HpRelay value to) =>
              Ok [FxRelay PEER_HOLEPUNCH (ur_target req) value to (ur_tid req); FxRelease]
          | Ok (HpReplyTo value to) | Ok (HpReply value to) =>
              Ok [FxReplyTo (ur_tid req) (ur_target req) to value; FxRelease]
          | Ok (HpHandleLocally msg peer_address) =>
              if server_up
              then Ok [FxServerHolepunch msg (ur_from req) peer_address (ur_target req)]
              else Ok [FxReply None]
          | Ok HpDrop => Ok [FxDrop]
          end
      end
  end.

(** The task that waits for the server's answer: [None] when the server went
    away, [Some None] when it declined. *)
Definition server_answer (command : Z) (inbound_mode : Z) (req : UserRequest)
    (answer : option (option (list Z))) : list Effect :=
  match answer with
  | Some (Some value) =>
      if inbound_mode =? MODE_FROM_CLIENT then [FxReply (Some value)]
      else if (inbound_mode =? MODE_FROM_RELAY) || (inbound_mode =? MODE_FROM_SECOND_RELAY)
      then [FxRelay command (ur_target req) value (ur_from req) (ur_tid req); FxRelease]
      else [FxReply (Some value)]
  | Some None => [FxReply None]
  | None => [FxError 1]
  end.

(** [encode_server_handshake_reply] *)
Definition encode_server_handshake_reply (inbound_mode : Z) (peer_address : option Ipv4Peer)
    (noise_reply : list Z) : outcome Empty_set (option (list Z)) :=
  let '(mode, peer_address) :=
    if (inbound_mode =? MODE_FROM_RELAY) || (inbound_mode =? MODE_FROM_SECOND_RELAY)
    then (MODE_FROM_SERVER, peer_address) else (MODE_REPLY, None) in
  match encode_handshake_to_bytes (mkHandshake mode noise_reply peer_address None) with
  | Ok b => Ok (Some b)
  | Err _ => Ok None
  | Panic => Panic
  end.
(** The message [handle_server_handshake] answers with. *)
Definition server_reply_msg (noise_reply : list Z) (from : Ipv4Peer) : HandshakeMessage :=
  mkHandshake MODE_REPLY noise_reply (Some from) None.

(** ** One turn of [run_request_handler] *)

Section Handler.
Context `{MapIter} `{CryptoPrims}.

Record HyperNode : Type := mkHyperNode { nd_storage : Persistent; nd_router : option Router }.

(** [r.get(&target).is_some_and(|e| e.has_server)] guards the forward entry an
    accepted announcement leaves. *)
Definition forward_announce (now inserted : Z) (req : IncomingHyperRequest) (reply : HandlerReply)
    (r : Router) : Router :=
  match reply, in_target req with
  | RSilent, _ | _, None => r
  | _, Some target =>
      let already_server := match Router_get now target r with
                            | Some e => fe_has_server e | None => false end in
      if already_server then r
      else Router_set target (mkForward (Some (in_from req)) false inserted) r
  end.

Definition reply_effects (reply : option HandlerReply) : list Effect :=
  match reply with
  | Some (RValue v) | Some (RValueNoToken v) => [FxReply v]
  | Some (RError code) => [FxError code]
  | Some RSilent | None => [FxDrop]
  end.

(** [clk] is the storage's clock and [now], [inserted] the router's. *)
Definition handle_request (own_id : option NodeId) (clk : nat -> Z) (now inserted : Z) (server_up : bool)
    (req : UserRequest) (nd : HyperNode) : outcome Empty_set (list Effect) * HyperNode :=
  if ur_command req =? PEER_HANDSHAKE then
    (handle_peer_handshake now (nd_router nd) server_up req, nd)
  else if ur_command req =? PEER_HOLEPUNCH then
    (handle_peer_holepunch now (nd_router nd) server_up req, nd)
  else
    let incoming := mkIncoming (ur_command req) (ur_target req) (ur_token req) (ur_value req)
                      (ur_from req) (ur_id req) in
    match dispatch own_id clk incoming (nd_storage nd) with
    | (Ok reply, storage) =>
        let router :=
          if ur_command req =? ANNOUNCE then
            match own_id, reply with
            | Some _, Some result => forward_announce now inserted incoming result <$> nd_router nd
            | _, _ => nd_router nd
            end
          else nd_router nd in
        (Ok (reply_effects reply), mkHyperNode storage router)
    | (Err e, storage) => (Err e, mkHyperNode storage (nd_router nd))
    | (Panic, storage) => (Panic, mkHyperNode storage (nd_router nd))
    end.
End Handler.
