(* ===== verification/RouterTheorems.v ===== *)
(** * RouterTheorems: relayed handshakes arrive, and forwarding stops

    What the forwarding table shows, the journey of a handshake through a
    relay to the server and back, the bound on forwarding, and the two paths on
    which the server's answer is lost. *)

From S2P Require Import Prelude RustStd CompactEncoding Codec Messages.
From S2P Require Import HyperdhtMessages HyperdhtWire HyperdhtTheorems Peer Crypto.
From S2P Require Import Persistent PersistentTheorems Router.

#[local] Open Scope Z_scope.

(** ** The table *)

(** The entry is visible at [now]: a server's always, another for its TTL. *)
Definition live (now : Z) (r : Router) (e : ForwardEntry) : bool :=
  fe_has_server e || (duration_since now (fe_inserted e) <=? r_ttl r).

Lemma Router_get_live now t r e :
  Router_get now t r = Some e <-> forwards r !! t = Some e /\ live now r e = true.
Proof.
  unfold Router_get, live. destruct (forwards r !! t) as [e'|]; [|by split; [|intros [? _]]].
  destruct (fe_has_server e') eqn:Hs; cbn [negb andb].
  - split; [intros [= <-]; by rewrite Hs|by intros [[= ->] _]].
  - rewrite Z.ltb_antisym. destruct (_ <=? r_ttl r) eqn:Hl; cbn [negb].
    + split; [intros [= <-]; by rewrite Hs, Hl|by intros [[= ->] _]].
    + split; [done|]. intros [[= ->] Hx]. by rewrite Hs, Hl in Hx.
Qed.

Lemma live_mono now now' r e : now <= now' -> live now' r e = true -> live now r e = true.
Proof.
  unfold live, duration_since. intros Hle. rewrite !orb_true_iff, !Z.leb_le. intros [?|?]; [by left|right; lia].
Qed.

(** ** Messages on the wire *)

Lemma encode_handshake_ok m : handshake_ok m -> encode_handshake_to_bytes m = Ok (wire_handshake m).
Proof. intros Hm. exact (codec_to_bytes (H := handshake_codec) m Hm). Qed.
Lemma decode_handshake_ok m : handshake_ok m -> decode_handshake_from_bytes (wire_handshake m) = Ok m.
Proof. intros Hm. exact (codec_from_bytes (H := handshake_codec) m Hm). Qed.

(** ** One hop *)

(** A message built from valid parts is valid. *)
Ltac hs_ok :=
  constructor; cbn [hs_mode hs_noise hs_peer_address hs_relay_address];
  solve [done | by intros ? [= <-] | by apply (bool_decide_unpack _)].

Lemma is_empty_false {A} (l : list A) : l <> [] -> is_empty l = false.
Proof. by destruct l. Qed.

(** Decides the tests on a known mode. *)
Ltac modes :=
  cbv zeta; repeat match goal with
  | |- context [?a =? ?b] =>
      let v := eval vm_compute in (a =? b) in
      first [constr_eq v true | constr_eq v false]; change (a =? b) with v
  end; cbv beta iota; cbn [orb negb].

(** A client's handshake at a relay. *)
Lemma relay_from_client now r target from m to :
  handshake_ok m -> peer_ok from -> serves now r target = false ->
  hs_mode m = MODE_FROM_CLIENT -> hs_noise m <> [] ->
  opt_or (hs_relay_address m) (relay_of now r target) = Some to ->
  Router_route_handshake now r target from (wire_handshake m) =
    Ok (HsForwardRequest (wire_handshake (mkHandshake MODE_FROM_RELAY (hs_noise m) (Some from) None)) to).
Proof.
  intros Hm Hf Hs Hmode Hn Hto. unfold Router_route_handshake.
  rewrite decode_handshake_ok, Hs, Hmode by done. modes.
  rewrite is_empty_false, Hto, encode_handshake_ok; try done.
  destruct Hm. hs_ok.
Qed.

(** A relayed handshake at a second relay. *)
Lemma relay_from_relay now r target from m to :
  handshake_ok m -> peer_ok from -> serves now r target = false ->
  hs_mode m = MODE_FROM_RELAY -> hs_noise m <> [] -> relay_of now r target = Some to ->
  Router_route_handshake now r target from (wire_handshake m) =
    Ok (HsForwardRequest (wire_handshake
      (mkHandshake MODE_FROM_SECOND_RELAY (hs_noise m) (hs_peer_address m) (Some from))) to).
Proof.
  intros Hm Hf Hs Hmode Hn Hto. unfold Router_route_handshake.
  rewrite decode_handshake_ok, Hs, Hmode by done. modes.
  rewrite Hto, is_empty_false, encode_handshake_ok; try done.
  destruct Hm. hs_ok.
Qed.

(** A handshake at the server. *)
Lemma server_handles now r target from m :
  handshake_ok m -> serves now r target = true ->
  hs_mode m ∈ [MODE_FROM_CLIENT; MODE_FROM_RELAY; MODE_FROM_SECOND_RELAY] ->
  Router_route_handshake now r target from (wire_handshake m) = Ok (HsHandleLocally m).
Proof.
  intros Hm Hs Hmode. unfold Router_route_handshake. rewrite decode_handshake_ok, Hs by done.
  rewrite !elem_of_cons, elem_of_nil in Hmode. by destruct Hmode as [->|[->|[->|[]]]].
Qed.

(** The server's answer at a relay. *)
Lemma relay_from_server now r target from m to :
  handshake_ok m -> peer_ok from -> serves now r target = false ->
  hs_mode m = MODE_FROM_SERVER -> hs_noise m <> [] -> hs_peer_address m = Some to ->
  Router_route_handshake now r target from (wire_handshake m) =
    Ok (HsReplyTo (wire_handshake (mkHandshake MODE_REPLY (hs_noise m) (Some from) None)) to).
Proof.
  intros Hm Hf Hs Hmode Hn Hto. unfold Router_route_handshake.
  rewrite decode_handshake_ok, Hs, Hmode by done. modes.
  rewrite Hto, is_empty_false, encode_handshake_ok; try done.
  destruct Hm. hs_ok.
Qed.

(** A reply is not routed. *)
Lemma reply_not_routed now r target from m :
  handshake_ok m -> hs_mode m = MODE_REPLY ->
  Router_route_handshake now r target from (wire_handshake m) = Ok HsDrop.
Proof.
  intros Hm Hmode. unfold Router_route_handshake. rewrite decode_handshake_ok, Hmode by done.
  by destruct (serves now r target).
Qed.

Lemma peer_eqb_spec a b : reflect (a = b) (peer_eqb a b).
Proof.
  unfold peer_eqb. destruct a as [h p], b as [h' p']. cbn [host port].
  destruct (String.eqb_spec h h') as [->|?], (Z.eqb_spec p p') as [->|?]; constructor; congruence.
Qed.

Lemma client_validates m relay actual :
  handshake_ok m -> hs_mode m = MODE_REPLY -> hs_noise m <> [] ->
  Router_validate_handshake_reply (wire_handshake m) relay actual =
    if decide (relay = actual) then
      Ok (mkHandshakeResult (hs_noise m) (is_some (hs_peer_address m))
            (default relay (hs_peer_address m)) actual)
    else Err BadHandshakeReply.
Proof.
  intros Hm Hmode Hn. unfold Router_validate_handshake_reply.
  rewrite decode_handshake_ok, Hmode, is_empty_false by done. cbn [negb orb Z.eqb].
  destruct (peer_eqb_spec relay actual); [by rewrite decide_True|by rewrite decide_False].
Qed.

(** ** Following a handshake from node to node *)

(** A node on the way: its clock, its router, and the address the message
    reaches it from. *)
Record Hop : Type := mkHop { hop_now : Z; hop_router : Router; hop_from : Ipv4Peer }.

(** The message after the nodes of the list have each forwarded it; [None]
    when one of them does not. *)
Fixpoint follow (target : option NodeId) (hops : list Hop) (value : list Z) : option (list Z) :=
  match hops with
  | [] => Some value
  | h :: hops =>
      match Router_route_handshake (hop_now h) (hop_router h) target (hop_from h) value with
      | Ok (HsForwardRequest value _) => follow target hops value
      | _ => None
      end
  end.

(** How often a message may still be forwarded. *)
Definition hops_left (mode : Z) : nat :=
  if mode =? MODE_FROM_CLIENT then 2 else if mode =? MODE_FROM_RELAY then 1 else 0.

Lemma forward_decreases now r target from m value to :
  handshake_ok m -> peer_ok from ->
  Router_route_handshake now r target from (wire_handshake m) = Ok (HsForwardRequest value to) ->
  exists m', value = wire_handshake m' /\ handshake_ok m' /\ hs_noise m' = hs_noise m /\
    (hops_left (hs_mode m') < hops_left (hs_mode m))%nat.
Proof.
  intros Hm Hf. unfold Router_route_handshake. rewrite decode_handshake_ok by done. cbv zeta.
  destruct (serves now r target); [by destruct (_ || _ || _)|].
  destruct (Z.eqb_spec (hs_mode m) MODE_FROM_CLIENT) as [Hc|Hc].
  { destruct (is_empty (hs_noise m)); [done|]. destruct (opt_or _ _); [|done].
    rewrite encode_handshake_ok by (destruct Hm; hs_ok). intros [= <- <-]. eexists. split; [done|].
    split; [destruct Hm; hs_ok|]. rewrite Hc. split; [done|cbn; lia]. }
  destruct (Z.eqb_spec (hs_mode m) MODE_FROM_RELAY) as [Hr|Hr].
  { destruct (relay_of now r target); [|done]. destruct (is_empty (hs_noise m)); [done|].
    rewrite encode_handshake_ok by (destruct Hm; hs_ok). intros [= <- <-]. eexists. split; [done|].
    split; [destruct Hm; hs_ok|]. rewrite Hr. split; [done|cbn; lia]. }
  destruct (hs_mode m =? MODE_FROM_SERVER); [|done]. destruct (hs_peer_address m); [|done].
  destruct (is_empty (hs_noise m)); [done|]. by destruct (encode_handshake_to_bytes _).
Qed.

Lemma follow_bound target hops : forall m value,
  handshake_ok m -> Forall (fun h => peer_ok (hop_from h)) hops ->
  follow target hops (wire_handshake m) = Some value ->
  (length hops <= hops_left (hs_mode m))%nat /\
  exists m', value = wire_handshake m' /\ handshake_ok m' /\ hs_noise m' = hs_noise m.
Proof.
  induction hops as [|h hops IH]; intros m value Hm Hf; cbn [follow length].
  { intros [= <-]. split; [lia|]. by exists m. }
  apply Forall_cons in Hf as [Hh Hf].
  destruct (Router_route_handshake _ _ _ _ _) as [[| |v to| | | |]| |] eqn:Hr; try done.
  apply forward_decreases in Hr as (m' & -> & Hm' & Hn & Hlt); [|done..].
  intros (Hl & m'' & Hv & Hm'' & Hn')%IH; [|done..]. split; [lia|].
  exists m''. by rewrite Hn'.
Qed.

(** ** What a request does to the table *)

Lemma server_entry_kept now inserted req reply r t e :
  forwards r !! t = Some e -> fe_has_server e = true ->
  forwards (forward_announce now inserted req reply r) !! t = Some e.
Proof.
  intros He Hs. unfold forward_announce.
  destruct reply, (in_target req) as [t'|]; try done.
  all: destruct (decide (t' = t)) as [->|Hne].
  all: try (assert (Router_get now t r = Some e) as -> by
              (apply Router_get_live; unfold live; by rewrite Hs); by rewrite Hs).
  all: destruct (match Router_get now t' r with Some _ => _ | None => _ end); [done|].
  all: cbn; by rewrite lookup_insert_ne.
Qed.

#[global] Instance HandlerReply_eq_dec : EqDecision HandlerReply.
Proof. solve_decision. Defined.

Section Requests.
Context `{MapIter} `{CryptoPrims}.

Lemma handle_request_router own_id clk now inserted server_up req nd o nd' :
  handle_request own_id clk now inserted server_up req nd = (o, nd') ->
  nd_router nd' = nd_router nd \/
  exists nid reply, own_id = Some nid /\ ur_command req = ANNOUNCE /\ reply <> RSilent /\
    (on_announce clk nid (mkIncoming ANNOUNCE (ur_target req) (ur_token req) (ur_value req)
       (ur_from req) (ur_id req)) (nd_storage nd)).1 = Ok reply /\
    nd_router nd' = forward_announce now inserted (mkIncoming ANNOUNCE (ur_target req) (ur_token req)
       (ur_value req) (ur_from req) (ur_id req)) reply <$> nd_router nd.
Proof.
  unfold handle_request. destruct (ur_command req =? PEER_HANDSHAKE); [intros [= <- <-]; by left|].
  destruct (ur_command req =? PEER_HOLEPUNCH); [intros [= <- <-]; by left|]. cbv zeta.
  destruct (Z.eqb_spec (ur_command req) ANNOUNCE) as [Hc|Hc].
  2: { destruct (dispatch _ _ _ _) as [[?|?|] ?]; intros [= <- <-]; by left. }
  rewrite Hc. unfold dispatch. cbn [in_command]. modes.
  destruct own_id as [nid|].
  2: { cbn. intros [= <- <-]. by left. }
  unfold fmap at 1, M_fmap, mbind, M_bind.
  destruct (on_announce clk nid _ (nd_storage nd)) as [[reply|e|] st] eqn:Ha;
    [|intros [= <- <-]; by left..].
  cbn [mret M_ret]. intros [= <- <-]. cbn [nd_router].
  destruct (decide (reply = RSilent)) as [->|Hs].
  - left. by destruct (nd_router nd).
  - right. exists nid, reply. by rewrite Ha.
Qed.

(** Requests change the forwarding table only through announcements the
    storage accepted, and never touch the entry of a local server. *)
Theorem router_updates_safe own_id clk now inserted server_up req nd o nd' r :
  handle_request own_id clk now inserted server_up req nd = (o, nd') ->
  nd_router nd = Some r ->
  exists r', nd_router nd' = Some r' /\
    (forall t e, forwards r !! t = Some e -> fe_has_server e = true -> forwards r' !! t = Some e) /\
    (r' = r \/
     exists nid reply, own_id = Some nid /\ ur_command req = ANNOUNCE /\ reply <> RSilent /\
       (on_announce clk nid (mkIncoming ANNOUNCE (ur_target req) (ur_token req) (ur_value req)
          (ur_from req) (ur_id req)) (nd_storage nd)).1 = Ok reply).
Proof.
  intros [Heq|(nid & reply & -> & Hc & Hs & Ha & Heq)]%handle_request_router Hr;
    rewrite Hr in Heq.
  - exists r. split_and!; [done|done|by left].
  - eexists. split; [exact Heq|]. split; [intros; by apply server_entry_kept|].
    right. by exists nid, reply.
Qed.
End Requests.

(** An entry is visible for its TTL, a server's entry for ever; entries do
    not disturb each other; a deleted one is gone; and a collection run is
    invisible to every later lookup. *)
Theorem forwards_visible r :
  (forall now t e, Router_get now t (Router_set t e r) = if live now r e then Some e else None) /\
  (forall now t t' e, t <> t' -> Router_get now t' (Router_set t e r) = Router_get now t' r) /\
  (forall now t, Router_get now t (Router_delete t r) = None) /\
  (forall now t t', t <> t' -> Router_get now t' (Router_delete t r) = Router_get now t' r) /\
  (forall clock now t, clock t <= now -> Router_get now t (Router_gc clock r) = Router_get now t r).
Proof.
  split_and!.
  - intros now t e. destruct (live now r e) eqn:Hl.
    + apply Router_get_live. cbn. by rewrite lookup_insert_eq.
    + apply eq_None_not_Some. intros [e' [He Hl']%Router_get_live]. cbn in He.
      rewrite lookup_insert_eq in He. simplify_eq. unfold live in *. cbn in Hl'. congruence.
  - intros. unfold Router_get. cbn. by rewrite lookup_insert_ne.
  - intros. unfold Router_get. cbn. by rewrite lookup_delete_eq.
  - intros. unfold Router_get. cbn. by rewrite lookup_delete_ne.
  - intros clock now t Hle. apply option_eq. intros e. rewrite !Router_get_live. cbn.
    rewrite map_lookup_filter_Some. cbn. unfold live at 1. cbn. fold (live now r e).
    split; [by intros [[? _] ?]|]. intros [He Hl]. split; [|done]. split; [done|].
    by apply (live_mono (clock t) now r e Hle).
Qed.

(** ** The journey of a handshake *)

Lemma decode_holepunch_ok m :
  holepunch_msg_ok m -> decode_holepunch_msg_from_bytes (wire_holepunch_msg m) = Ok m.
Proof. intros Hm. exact (codec_from_bytes (H := holepunch_msg_codec) m Hm). Qed.
Lemma encode_holepunch_ok m :
  holepunch_msg_ok m -> encode_holepunch_msg_to_bytes m = Ok (wire_holepunch_msg m).
Proof. intros Hm. exact (codec_to_bytes (H := holepunch_msg_codec) m Hm). Qed.

(** A hole punch is forwarded only by the first relay, as one from a relay. *)
Lemma holepunch_forward now r target from m value to :
  holepunch_msg_ok m -> peer_ok from ->
  Router_route_holepunch now r target from (wire_holepunch_msg m) = Ok (HpForwardRequest value to) ->
  hm_mode m = MODE_FROM_CLIENT /\
  exists m', value = wire_holepunch_msg m' /\ holepunch_msg_ok m' /\ hm_mode m' = MODE_FROM_RELAY.
Proof.
  intros Hm Hf. unfold Router_route_holepunch. rewrite decode_holepunch_ok by done. cbv zeta.
  destruct (Z.eqb_spec (hm_mode m) MODE_FROM_CLIENT) as [Hc|_].
  - destruct (opt_or _ _); [|done].
    assert (holepunch_msg_ok (mkHolepunch MODE_FROM_RELAY (hm_id m) (hm_payload m) (Some from)))
      by (destruct Hm; constructor; cbn [hm_mode hm_id hm_payload hm_peer_address];
          solve [done | by intros ? [= <-] | by apply (bool_decide_unpack _)]).
    rewrite encode_holepunch_ok by done. intros [= <- <-]. split; [done|]. by eexists.
  - destruct (hm_mode m =? MODE_FROM_RELAY).
    { destruct (negb _); [done|]. by destruct (hm_peer_address m). }
    destruct (hm_mode m =? MODE_FROM_SERVER); [|done]. destruct (hm_peer_address m); [|done].
    by destruct (encode_holepunch_msg_to_bytes _).
Qed.

(** C39: a handshake is forwarded at most twice, its Noise message unchanged,
    and a hole punch at most once: no message circulates between relays. *)
Theorem forwarding_bounded target hops m p :
  handshake_ok m -> holepunch_msg_ok p -> Forall (fun h => peer_ok (hop_from h)) hops ->
  (forall value, follow target hops (wire_handshake m) = Some value ->
     (length hops <= 2)%nat /\
     exists m', decode_handshake_from_bytes value = Ok m' /\ hs_noise m' = hs_noise m) /\
  (forall now r from value to now' r' from' value' to', peer_ok from -> peer_ok from' ->
     Router_route_holepunch now r target from (wire_holepunch_msg p) = Ok (HpForwardRequest value to) ->
     Router_route_holepunch now' r' target from' value <> Ok (HpForwardRequest value' to')).
Proof.
  intros Hm Hp Hf. split.
  - intros value (Hl & m' & -> & Hm' & Hn)%follow_bound; [|done..].
    split; [|exists m'; by rewrite decode_handshake_ok].
    unfold hops_left in Hl. repeat case_match; lia.
  - intros now r from value to now' r' from' value' to' H1 H2 Hfw Hfw'.
    apply holepunch_forward in Hfw as (_ & p' & -> & Hp' & Hmode); [|done..].
    apply holepunch_forward in Hfw' as [Hc _]; [|done..]. by rewrite Hmode in Hc.
Qed.

(** C5: through one relay, a handshake reaches the server with the client's
    address, the server's answer goes back to the relay, the relay sends it to
    the client under the client's transaction, and the client accepts it with
    the server's Noise reply and address. *)
Theorem handshake_relayed target client relay server relay_router server_router
    now1 now2 now3 noise reply tid token id :
  peer_ok client -> peer_ok relay -> peer_ok server ->
  fits noise -> noise <> [] -> fits reply -> reply <> [] ->
  serves now1 relay_router target = false -> relay_of now1 relay_router target = Some server ->
  serves now3 relay_router target = false ->
  serves now2 server_router target = true ->
  exists v1 v2 v3 v4,
    Router_encode_client_handshake noise None None = Ok v1 /\
    handle_peer_handshake now1 (Some relay_router) false
      (mkUserRequest client id tid token PEER_HANDSHAKE target (Some v1)) =
      Ok [FxRelay PEER_HANDSHAKE target v2 server tid; FxRelease] /\
    (let req := mkUserRequest relay id tid token PEER_HANDSHAKE target (Some v2) in
     let msg := mkHandshake MODE_FROM_RELAY noise (Some client) None in
     handle_peer_handshake now2 (Some server_router) true req =
       Ok [FxServerHandshake msg relay (Some client) target] /\
     encode_server_handshake_reply MODE_FROM_RELAY (Some client) reply = Ok (Some v3) /\
     server_answer PEER_HANDSHAKE MODE_FROM_RELAY req (Some (Some v3)) =
       [FxRelay PEER_HANDSHAKE target v3 relay tid; FxRelease]) /\
    handle_peer_handshake now3 (Some relay_router) false
      (mkUserRequest server id tid token PEER_HANDSHAKE target (Some v3)) =
      Ok [FxReplyTo tid target client v4; FxRelease] /\
    Router_validate_handshake_reply v4 relay relay = Ok (mkHandshakeResult reply true server relay).
Proof.
  intros Hc Hr Hs Hn Hn0 Hp Hp0 Hs1 Hr1 Hs3 Hs2.
  set (m1 := mkHandshake MODE_FROM_CLIENT noise None None).
  set (m2 := mkHandshake MODE_FROM_RELAY noise (Some client) None).
  set (m3 := mkHandshake MODE_FROM_SERVER reply (Some client) None).
  set (m4 := mkHandshake MODE_REPLY reply (Some server) None).
  assert (handshake_ok m1) by hs_ok. assert (handshake_ok m2) by hs_ok.
  assert (handshake_ok m3) by hs_ok. assert (handshake_ok m4) by hs_ok.
  exists (wire_handshake m1), (wire_handshake m2), (wire_handshake m3), (wire_handshake m4).
  unfold handle_peer_handshake. cbv zeta. cbn [ur_value ur_target ur_from ur_tid].
  split_and!.
  - unfold Router_encode_client_handshake. by rewrite encode_handshake_ok.
  - by rewrite (relay_from_client now1 relay_router target client m1 server).
  - rewrite (server_handles now2 server_router target relay m2); [done|done|done|].
    right. by left.
  - unfold encode_server_handshake_reply. modes. by rewrite encode_handshake_ok.
  - done.
  - by rewrite (relay_from_server now3 relay_router target server m3 client).
  - rewrite client_validates by done. by rewrite decide_True.
Qed.

(** Two paths lose the server's answer.  A relay drops the reply that
    [handle_server_handshake] builds, whose mode is [MODE_REPLY] even for a
    relayed handshake; and after a second relay the answer goes back to that
    relay, so it reaches the client from an address the client rejects. *)
Theorem relayed_reply_lost now r target client relay1 relay2 server reply :
  peer_ok client -> peer_ok server -> peer_ok relay1 ->
  fits reply -> reply <> [] -> relay1 <> relay2 ->
  serves now r target = false ->
  Router_route_handshake now r target server (wire_handshake (server_reply_msg reply relay1)) = Ok HsDrop /\
  exists v3 v4,
    encode_server_handshake_reply MODE_FROM_SECOND_RELAY (Some client) reply = Ok (Some v3) /\
    (forall req, ur_from req = relay2 ->
       server_answer PEER_HANDSHAKE MODE_FROM_SECOND_RELAY req (Some (Some v3)) =
         [FxRelay PEER_HANDSHAKE (ur_target req) v3 relay2 (ur_tid req); FxRelease]) /\
    Router_route_handshake now r target server v3 = Ok (HsReplyTo v4 client) /\
    Router_validate_handshake_reply v4 relay1 relay2 = Err BadHandshakeReply.
Proof.
  intros Hc Hs Hr Hp Hp0 Hne Hsv.
  split; [apply reply_not_routed; [unfold server_reply_msg; hs_ok|done]|].
  set (m3 := mkHandshake MODE_FROM_SERVER reply (Some client) None).
  set (m4 := mkHandshake MODE_REPLY reply (Some server) None).
  assert (handshake_ok m3) by hs_ok. assert (handshake_ok m4) by hs_ok.
  exists (wire_handshake m3), (wire_handshake m4). split_and!.
  - unfold encode_server_handshake_reply. modes. by rewrite encode_handshake_ok.
  - by intros req <-.
  - by rewrite (relay_from_server now r target server m3 client).
  - rewrite client_validates by done. by rewrite decide_False.
Qed.

(** ** Witnesses *)

Module RouterWitness.
Definition addr (n : Z) : Ipv4Peer := mkPeer ("10.0.0." +:+ pretty n) 7.
Definition key : NodeId := replicate 32 5.
(** A relay with a forward entry to [addr 3], and the server. *)
Definition relay_router : Router := Router_set key (mkForward (Some (addr 3)) false 0) Router_new.
Definition server_router : Router := Router_set key (mkForward None true 0) Router_new.
Definition hello : HandshakeMessage := mkHandshake MODE_FROM_CLIENT [1; 2; 3] None None.
Definition punch : HolepunchMessage := mkHolepunch MODE_FROM_CLIENT 4 [9] (Some (addr 3)).
Definition hops : list Hop := [mkHop 1 relay_router (addr 1); mkHop 2 relay_router (addr 2)].
End RouterWitness.

Lemma forwarding_bounded_witness :
  (exists value, follow (Some RouterWitness.key) RouterWitness.hops (wire_handshake RouterWitness.hello) = Some value) /\
  (forall value,
     follow (Some RouterWitness.key) RouterWitness.hops (wire_handshake RouterWitness.hello) = Some value ->
     (length RouterWitness.hops <= 2)%nat /\
     exists m', decode_handshake_from_bytes value = Ok m' /\ hs_noise m' = hs_noise RouterWitness.hello).
Proof.
  split; [eexists; vm_compute; reflexivity|].
  refine (proj1 (forwarding_bounded (Some RouterWitness.key) RouterWitness.hops
    RouterWitness.hello RouterWitness.punch _ _ _)).
  - constructor; by apply (bool_decide_unpack _).
  - constructor; by apply (bool_decide_unpack _).
  - repeat constructor; by apply (bool_decide_unpack _).
Defined.

Lemma handshake_relayed_witness :
  exists v4, Router_validate_handshake_reply v4 (RouterWitness.addr 2) (RouterWitness.addr 2) =
    Ok (mkHandshakeResult [8] true (RouterWitness.addr 3) (RouterWitness.addr 2)).
Proof.
  destruct (handshake_relayed (Some RouterWitness.key) (RouterWitness.addr 1) (RouterWitness.addr 2)
    (RouterWitness.addr 3) RouterWitness.relay_router RouterWitness.server_router 1 2 3 [7] [8] 99 None None)
    as (v1 & v2 & v3 & v4 & _ & _ & _ & _ & Hv); try done; try by apply (bool_decide_unpack _).
  by exists v4.
Defined.

Lemma relayed_reply_lost_witness :
  Router_route_handshake 1 RouterWitness.relay_router (Some RouterWitness.key) (RouterWitness.addr 3)
    (wire_handshake (server_reply_msg [8] (RouterWitness.addr 2))) = Ok HsDrop.
Proof.
  refine (proj1 (relayed_reply_lost 1 RouterWitness.relay_router (Some RouterWitness.key)
    (RouterWitness.addr 1) (RouterWitness.addr 2) (RouterWitness.addr 4) (RouterWitness.addr 3) [8]
    _ _ _ _ _ _ _)); try done; by apply (bool_decide_unpack _).
Defined.

(** An accepted announcement at a node that is a server for another key. *)
Lemma router_updates_safe_witness :
  let nd := mkHyperNode toy_storage (Some RouterWitness.server_router) in
  let req := mkUserRequest (RouterWitness.addr 1) None 5 (Some (replicate 32 1)) ANNOUNCE
               (Some (replicate 32 9)) (Some (wire_announce toy_announce)) in
  let '(o, nd') := handle_request (H := list_iter) (H0 := toy_crypto) (Some (replicate 32 2))
                     toy_clock 10 11 true req nd in
  (exists r', nd_router nd' = Some r' /\
     forall t e, forwards RouterWitness.server_router !! t = Some e -> fe_has_server e = true ->
       forwards r' !! t = Some e) /\
  (exists r', nd_router nd' = Some r' /\ size (forwards r') = 2%nat).
Proof.
  cbv zeta. set (res := handle_request _ _ _ _ _ _ _).
  destruct res as [o nd'] eqn:He. split.
  - destruct (router_updates_safe (H := list_iter) (H0 := toy_crypto) (Some (replicate 32 2)) toy_clock 10 11 true
      (mkUserRequest (RouterWitness.addr 1) None 5 (Some (replicate 32 1)) ANNOUNCE
         (Some (replicate 32 9)) (Some (wire_announce toy_announce)))
      (mkHyperNode toy_storage (Some RouterWitness.server_router)) o nd' RouterWitness.server_router)
      as (r' & Hr' & Hk & _); [exact He|reflexivity|].
    exists r'. split; [exact Hr'|exact Hk].
  - assert (Hsz : (fun r => size (forwards r)) <$> nd_router res.2 = Some 2%nat) by (vm_compute; reflexivity).
    rewrite He in Hsz. cbn [snd] in Hsz. destruct (nd_router nd') as [r'|]; [|done].
    exists r'. split; [done|]. by injection Hsz.
Defined.
