(* ===== verification/NatClassifier.v ===== *)
(** * NatClassifier: the NAT classifier of [peeroxide-dht/src/nat.rs]

    Peers report the address they see us at; the classifier counts the reports
    and decides whether the NAT maps consistently.  The flag
    [analyzing_settled] and the [Notify] of the source are [nat_settled] and
    the number [nat_wakes] of [notify_waiters] calls. *)

From S2P Require Import Prelude RustStd CompactEncoding Codec Messages HyperdhtMessages.
From S2P Require Import Peer RoutingTable Query.

#[local] Open Scope Z_scope.

Definition NAT_MIN_SAMPLES : Z := 4.

Record Sample : Type := mkSample { sm_host : string; sm_port : Z; sm_hits : Z }.

Record Nat : Type := mkNat {
  samples_host : list Sample;
  samples_full : list Sample;
  nat_visited : gmap string Z;
  frozen : bool;
  firewalled : bool;
  sampled : Z;
  firewall : Z;
  addresses : option (list Ipv4Peer);
  nat_settled : bool;
  nat_wakes : nat
}.

Definition Nat_new (fw : bool) : Nat :=
  mkNat [] [] ∅ false fw 0 (if fw then FIREWALL_UNKNOWN else FIREWALL_OPEN) None (negb fw) 0.

(** Assignments to single fields. *)
Definition set_frozen (b : bool) (n : Nat) : Nat :=
  mkNat (samples_host n) (samples_full n) (nat_visited n) b (firewalled n) (sampled n) (firewall n)
    (addresses n) (nat_settled n) (nat_wakes n).
Definition set_firewall (f : Z) (n : Nat) : Nat :=
  mkNat (samples_host n) (samples_full n) (nat_visited n) (frozen n) (firewalled n) (sampled n) f
    (addresses n) (nat_settled n) (nat_wakes n).
Definition set_addresses (a : option (list Ipv4Peer)) (n : Nat) : Nat :=
  mkNat (samples_host n) (samples_full n) (nat_visited n) (frozen n) (firewalled n) (sampled n)
    (firewall n) a (nat_settled n) (nat_wakes n).
Definition set_visited (v : gmap string Z) (n : Nat) : Nat :=
  mkNat (samples_host n) (samples_full n) v (frozen n) (firewalled n) (sampled n) (firewall n)
    (addresses n) (nat_settled n) (nat_wakes n).
Definition set_samples (h f : list Sample) (k : Z) (n : Nat) : Nat :=
  mkNat h f (nat_visited n) (frozen n) (firewalled n) k (firewall n) (addresses n) (nat_settled n)
    (nat_wakes n).

(** [if !settled.swap(true) { notify.notify_waiters() }] *)
Definition settle (n : Nat) : Nat :=
  mkNat (samples_host n) (samples_full n) (nat_visited n) (frozen n) (firewalled n) (sampled n)
    (firewall n) (addresses n) true (if nat_settled n then nat_wakes n else S (nat_wakes n)).

(** ** Samples *)

(** [while j > 0 && samples[j - 1].hits < samples[j].hits { swap; j -= 1 }] *)
Fixpoint bump_up (j : nat) (l : list Sample) : list Sample :=
  match j with
  | O => l
  | S j' =>
      match l !! j', l !! j with
      | Some a, Some b => if sm_hits a <? sm_hits b then bump_up j' (swap_next j' l) else l
      | _, _ => l
      end
  end.

(** The first sample with this host and port. *)
Fixpoint sample_index (h : string) (p : Z) (l : list Sample) : option nat :=
  match l with
  | [] => None
  | s :: l =>
      if negb (sm_port s =? p) || negb (String.eqb (sm_host s) h)
      then S <$> sample_index h p l else Some 0%nat
  end.
Definition hit (s : Sample) : Sample := mkSample (sm_host s) (sm_port s) (sm_hits s + 1).
Definition add_sample (samples : list Sample) (h : string) (p : Z) : list Sample :=
  match sample_index h p samples with
  | Some i => bump_up i (alter hit i samples)
  | None => samples ++ [mkSample h p 1]
  end.

(** ** Classification *)

Definition Nat_update_firewall (n : Nat) : Nat :=
  if negb (firewalled n) then set_firewall FIREWALL_OPEN n
  else if sampled n <? 3 then n
  else match samples_full n with
       | [] => n
       | s :: _ =>
           let max := sm_hits s in
           if 3 <=? max then set_firewall FIREWALL_CONSISTENT n
           else if max =? 1 then set_firewall FIREWALL_RANDOM n
           else if (length (samples_host n) =? 1)%nat && (3 <? sampled n)
                then set_firewall FIREWALL_RANDOM n
           else if (1 <? length (samples_host n))%nat &&
                   match samples_full n with _ :: s1 :: _ => 1 <? sm_hits s1 | _ => false end
                then set_firewall FIREWALL_CONSISTENT n
           else if 4 <? sampled n then set_firewall FIREWALL_RANDOM n
           else n
       end.

(** [for s in &self.samples_full { if s.hits >= 2 || addrs.len() < 2 { .. } }] *)
Fixpoint collect_addresses (l : list Sample) (addrs : list Ipv4Peer) : list Ipv4Peer :=
  match l with
  | [] => addrs
  | s :: l =>
      if (2 <=? sm_hits s) || (length addrs <? 2)%nat
      then collect_addresses l (addrs ++ [mkPeer (sm_host s) (sm_port s)])
      else collect_addresses l addrs
  end.

Definition Nat_update_addresses (n : Nat) : Nat :=
  if firewall n =? FIREWALL_UNKNOWN then set_addresses None n
  else if firewall n =? FIREWALL_RANDOM then
    match samples_host n with
    | s :: _ => set_addresses (Some [mkPeer (sm_host s) (sm_port s)]) n
    | [] => n
    end
  else if firewall n =? FIREWALL_CONSISTENT then
    set_addresses (Some (collect_addresses (samples_full n) [])) n
  else n.

(** ** Operations *)

Definition Nat_destroy (n : Nat) : Nat := settle (set_frozen true n).
Definition Nat_freeze (n : Nat) : Nat := set_frozen true n.
Definition Nat_unfreeze (n : Nat) : Nat :=
  Nat_update_addresses (Nat_update_firewall (set_frozen false n)).
Definition Nat_update (n : Nat) : Nat :=
  let n := if firewalled n && (firewall n =? FIREWALL_OPEN) then set_firewall FIREWALL_UNKNOWN n else n in
  Nat_update_addresses (Nat_update_firewall n).

Definition Nat_is_settled (n : Nat) : bool :=
  (firewall n =? FIREWALL_CONSISTENT) || (firewall n =? FIREWALL_OPEN).

Definition Nat_try_settle (n : Nat) : Nat :=
  let should := (firewall n =? FIREWALL_OPEN) || (firewall n =? FIREWALL_CONSISTENT)
                || (NAT_MIN_SAMPLES <=? sampled n) in
  if should then settle n else n.

Definition Nat_add (addr from : Ipv4Peer) (n : Nat) : Nat :=
  let from_ref := peer_addr from in
  if bool_decide (nat_visited n !! from_ref = Some 2) then n
  else
    let n := set_visited (<[from_ref := 2]> (nat_visited n)) n in
    let n := set_samples (add_sample (samples_host n) (host addr) 0)
               (add_sample (samples_full n) (host addr) (port addr)) (sampled n + 1) n in
    let n := if ((3 <=? sampled n) || negb (firewalled n)) && negb (frozen n) then Nat_update n else n in
    Nat_try_settle n.

Definition Nat_mark_visited (h : string) (p : Z) (n : Nat) : bool * Nat :=
  let key := addr_of h p in
  match nat_visited n !! key with
  | Some _ => (false, n)
  | None => (true, set_visited (<[key := 1]> (nat_visited n)) n)
  end.

(** The loop of [auto_sample] over the pings as they finish: [None] is a
    failed ping, [Some (to, from)] a reply, [to] the address it saw. *)
Fixpoint auto_sample_loop (before added : Z) (joined : list (option (option Ipv4Peer * Ipv4Peer)))
    (n : Nat) : Z * Nat :=
  match joined with
  | [] => (added, n)
  | None :: joined | Some (None, _) :: joined => auto_sample_loop before added joined n
  | Some (Some to, from) :: joined =>
      let n := Nat_add to from n in
      let added := if before + as_u32 added <? sampled n then sampled n - before else added in
      if negb (firewall n =? FIREWALL_UNKNOWN) then (added, n)
      else auto_sample_loop before added joined n
  end.
(** [candidates]: whether [recent_nodes] gave any; the pings sent are those of
    its first [max_samples] nodes. *)
Definition Nat_auto_sample (candidates : bool) (joined : list (option (option Ipv4Peer * Ipv4Peer)))
    (n : Nat) : Z * Nat :=
  if negb (firewall n =? FIREWALL_UNKNOWN) then (0, n)
  else if negb candidates then (0, n)
  else auto_sample_loop (sampled n) 0 joined n.
