(* ===== verification/NatTheorems.v ===== *)
(** * NatTheorems: the classifier counts and decides correctly

    Over every sequence of operations, the samples are the exact counts of the
    addresses reported, one report per peer; the verdict and the addresses
    follow from them; and waiters are woken exactly once. *)

From S2P Require Import Prelude RustStd CompactEncoding Codec Messages HyperdhtMessages.
From S2P Require Import Peer RoutingTable Query NatClassifier.

#[local] Open Scope Z_scope.

(** ** Samples as counts *)

Definition key (s : Sample) : string * Z := (sm_host s, sm_port s).
Definition hits_ge (a b : Sample) : Prop := sm_hits b <= sm_hits a.
#[global] Instance hits_ge_trans : Transitive hits_ge.
Proof. unfold hits_ge. intros a b c. lia. Qed.

(** Sorted by hits, one sample per address, every sample hit. *)
Record samples_ok (l : list Sample) : Prop := {
  so_sorted : StronglySorted hits_ge l;
  so_keys : NoDup (key <$> l);
  so_hits : Forall (fun s => 1 <= sm_hits s) l
}.
Definition counts (l : list Sample) : gmap (string * Z) Z :=
  list_to_map ((fun s => (key s, sm_hits s)) <$> l).
Definition tally_one (k : string * Z) (m : gmap (string * Z) Z) : gmap (string * Z) Z :=
  <[k := default 0 (m !! k) + 1]> m.

Lemma counts_keys l : ((fun s => (key s, sm_hits s)) <$> l).*1 = key <$> l.
Proof. rewrite <- list_fmap_compose. done. Qed.

Lemma counts_perm l l' : NoDup (key <$> l) -> l ≡ₚ l' -> counts l = counts l'.
Proof. intros Hn Hp. apply list_to_map_proper; [by rewrite counts_keys|by rewrite Hp]. Qed.

Lemma counts_elem l s : NoDup (key <$> l) -> s ∈ l -> counts l !! key s = Some (sm_hits s).
Proof.
  intros Hn Hs. apply elem_of_list_to_map; [by rewrite counts_keys|].
  apply list_elem_of_fmap. by exists s.
Qed.
Lemma counts_inv l k n : counts l !! k = Some n -> exists s, s ∈ l /\ key s = k /\ sm_hits s = n.
Proof.
  intros H%elem_of_list_to_map_2. apply list_elem_of_fmap in H as (s & [= -> ->] & Hs). by exists s.
Qed.

(** The bubble restores the order, and only permutes. *)
Lemma bump_up_spec s pre : forall post,
  StronglySorted hits_ge (pre ++ post) -> Forall (hits_ge s) post ->
  pre ++ s :: post ≡ₚ bump_up (length pre) (pre ++ s :: post) /\
  StronglySorted hits_ge (bump_up (length pre) (pre ++ s :: post)).
Proof.
  induction pre as [|x a IH] using rev_ind; intros post Hs Hp.
  { cbn. split; [done|]. by constructor. }
  rewrite length_app, Nat.add_comm. cbn [length Nat.add bump_up]. rewrite <- !app_assoc in *. cbn [app] in *.
  rewrite list_lookup_middle by done.
  replace ((a ++ x :: s :: post) !! S (length a)) with (Some s)
    by (rewrite lookup_app_r, Nat.sub_succ_l, Nat.sub_diag by lia; done).
  destruct (Z.ltb_spec (sm_hits x) (sm_hits s)) as [Hlt|Hge].
  - rewrite swap_next_app. destruct (IH (x :: post) Hs) as [Hperm Hsort].
    { constructor; [unfold hits_ge; lia|done]. }
    split; [|done]. rewrite <- Hperm. apply Permutation_app_head. apply perm_swap.
  - split; [done|]. apply StronglySorted_app in Hs as (Hc & Ha & [Hpost Hx]%StronglySorted_inv).
    apply StronglySorted_app_2; [|done|].
    + intros x1 x2 Hx1 Hx2. rewrite !elem_of_cons in Hx2. destruct Hx2 as [->|[->|Hx2]].
      * apply Hc; [done|left].
      * transitivity x; [apply Hc; [done|left]|done].
      * apply Hc; [done|by right].
    + constructor; [by constructor|]. by constructor.
Qed.

Lemma sample_index_spec h p l :
  match sample_index h p l with
  | Some i => exists pre s post, l = pre ++ s :: post /\ length pre = i /\ key s = (h, p)
  | None => (h, p) ∉ key <$> l
  end.
Proof.
  induction l as [|s l IH]; cbn [sample_index]; [apply not_elem_of_nil|].
  destruct (Z.eqb_spec (sm_port s) p) as [Hp|Hp], (String.eqb_spec (sm_host s) h) as [Hh|Hh]; cbn [negb orb].
  1: { exists [], s, l. unfold key. by rewrite Hp, Hh. }
  all: destruct (sample_index h p l) as [i|]; cbn [fmap option_fmap option_map].
  all: try (destruct IH as (pre & s' & post & -> & <- & Hk); by exists (s :: pre), s', post).
  all: rewrite fmap_cons, not_elem_of_cons; split; [unfold key; congruence|done].
Qed.

Lemma alter_middle {A} (f : A -> A) (pre post : list A) x :
  alter f (length pre) (pre ++ x :: post) = pre ++ f x :: post.
Proof. induction pre as [|y pre IH]; cbn; [done|]. by f_equal. Qed.

Lemma counts_cons s l : counts (s :: l) = <[key s := sm_hits s]> (counts l).
Proof. done. Qed.

Lemma samples_perm l l' :
  l ≡ₚ l' -> NoDup (key <$> l) -> Forall (fun s => 1 <= sm_hits s) l -> StronglySorted hits_ge l' ->
  samples_ok l' /\ counts l' = counts l.
Proof.
  intros Hp Hn Hh Hs. split; [split; [done|by rewrite <- Hp|by rewrite <- Hp]|].
  symmetry. by apply counts_perm.
Qed.

(** Counting one report. *)
Lemma add_sample_spec l h p :
  samples_ok l ->
  samples_ok (add_sample l h p) /\ counts (add_sample l h p) = tally_one (h, p) (counts l).
Proof.
  intros [Hs Hk Hh]. unfold add_sample. pose proof (sample_index_spec h p l) as Hi.
  destruct (sample_index h p l) as [i|].
  - destruct Hi as (pre & s & post & -> & <- & Hkey). rewrite alter_middle.
    apply StronglySorted_app in Hs as (Hc & Hpre & [Hpost Hsp]%StronglySorted_inv).
    destruct (bump_up_spec (hit s) pre post) as [Hperm Hsort].
    { apply StronglySorted_app_2; [|done|done]. intros x y Hx Hy. apply Hc; [done|by right]. }
    { eapply Forall_impl; [done|]. unfold hits_ge. cbn. lia. }
    apply Forall_app in Hh as [Hh1 [Hh2 Hh3]%Forall_cons].
    destruct (samples_perm _ _ Hperm) as [Hok Hcnt]; [|apply Forall_app; split; [done|constructor; [cbn; lia|done]]|done|].
    { rewrite fmap_app in *. done. }
    split; [done|]. rewrite Hcnt.
    assert (forall x, key x = key s -> counts (pre ++ x :: post) = <[key s := sm_hits x]> (counts (pre ++ post))) as Hx.
    { intros x Hx. rewrite <- Hx, <- counts_cons. apply counts_perm; [|by rewrite Permutation_middle].
      rewrite fmap_app in *. cbn [fmap list_fmap] in *. by rewrite Hx. }
    unfold tally_one. rewrite (Hx s eq_refl), (Hx (hit s) eq_refl), Hkey, insert_insert_eq, lookup_insert_eq. done.
  - destruct (samples_perm (mkSample h p 1 :: l) (l ++ [mkSample h p 1])) as [Hok Hcnt].
    { by rewrite Permutation_cons_append. }
    { rewrite fmap_cons. by constructor. }
    { by constructor. }
    { apply StronglySorted_app_2; [|done|by repeat constructor].
      intros x y Hx ->%list_elem_of_singleton. rewrite Forall_forall in Hh. by apply Hh. }
    split; [done|]. rewrite Hcnt, counts_cons. unfold tally_one.
    assert (counts l !! (h, p) = None) as -> by (apply not_elem_of_list_to_map_1; by rewrite counts_keys).
    done.
Qed.

(** ** Operation sequences *)

Inductive NatOp : Type :=
| OpAdd (addr from : Ipv4Peer)
| OpMark (h : string) (p : Z)
| OpFreeze
| OpUnfreeze
| OpUpdate
| OpDestroy.

Definition nat_op (n : Nat) (op : NatOp) : Nat :=
  match op with
  | OpAdd addr from => Nat_add addr from n
  | OpMark h p => (Nat_mark_visited h p n).2
  | OpFreeze => Nat_freeze n
  | OpUnfreeze => Nat_unfreeze n
  | OpUpdate => Nat_update n
  | OpDestroy => Nat_destroy n
  end.
Definition nat_run (fw : bool) (ops : list NatOp) : Nat := foldl nat_op (Nat_new fw) ops.

(** The addresses reported, counting the first report of every peer; and the
    peers that reported. *)
Definition report (r : list Ipv4Peer * gset string) (op : NatOp) : list Ipv4Peer * gset string :=
  match op with
  | OpAdd addr from =>
      if decide (peer_addr from ∈ r.2) then r else (r.1 ++ [addr], {[peer_addr from]} ∪ r.2)
  | _ => r
  end.
Definition reports (ops : list NatOp) : list Ipv4Peer * gset string := foldl report ([], ∅) ops.

(** How often each address, and each host, was reported. *)
Definition tally (f : Ipv4Peer -> string * Z) (l : list Ipv4Peer) : gmap (string * Z) Z :=
  foldl (fun m a => tally_one (f a) m) ∅ l.
Definition full_key (a : Ipv4Peer) : string * Z := (host a, port a).
Definition host_key (a : Ipv4Peer) : string * Z := (host a, 0).

Lemma tally_snoc f l a : tally f (l ++ [a]) = tally_one (f a) (tally f l).
Proof. unfold tally. by rewrite foldl_app. Qed.

Lemma tally_elem f l k : is_Some (tally f l !! k) <-> k ∈ f <$> l.
Proof.
  induction l as [|a l IH] using rev_ind.
  { cbn. rewrite lookup_empty, elem_of_nil. split; [by intros [? ?]|done]. }
  rewrite tally_snoc, fmap_app, elem_of_app, <- IH. unfold tally_one. cbn. rewrite list_elem_of_singleton.
  destruct (decide (f a = k)) as [<-|Hne]; [rewrite lookup_insert_eq|rewrite lookup_insert_ne by done].
  - split; [by right|by eexists].
  - split; [by left|intros [?|?]; congruence].
Qed.

(** ** The verdict *)

Record verdict_ok (n : Nat) : Prop := {
  vo_open : firewalled n = false -> firewall n = FIREWALL_OPEN;
  vo_range : firewalled n = true ->
    firewall n ∈ [FIREWALL_UNKNOWN; FIREWALL_CONSISTENT; FIREWALL_RANDOM];
  vo_consistent : firewall n = FIREWALL_CONSISTENT ->
    (exists k c, counts (samples_full n) !! k = Some c /\ 2 <= c) /\
    exists l, addresses n = Some l /\ forall a, a ∈ l -> is_Some (counts (samples_full n) !! full_key a);
  vo_random : firewall n = FIREWALL_RANDOM ->
    3 <= sampled n /\ exists h, addresses n = Some [mkPeer h 0] /\ is_Some (counts (samples_host n) !! (h, 0))
}.

(** The verdict the samples alone give, if any, and the addresses that go with
    a verdict, if they are to change. *)
Definition decision (n : Nat) : option Z :=
  if negb (firewalled n) then Some FIREWALL_OPEN
  else if sampled n <? 3 then None
  else match samples_full n with
       | [] => None
       | s :: l =>
           if 3 <=? sm_hits s then Some FIREWALL_CONSISTENT
           else if sm_hits s =? 1 then Some FIREWALL_RANDOM
           else if (length (samples_host n) =? 1)%nat && (3 <? sampled n) then Some FIREWALL_RANDOM
           else if (1 <? length (samples_host n))%nat &&
                   match l with s1 :: _ => 1 <? sm_hits s1 | _ => false end
                then Some FIREWALL_CONSISTENT
           else if 4 <? sampled n then Some FIREWALL_RANDOM
           else None
       end.
Definition with_decision (n : Nat) : Z := default (firewall n) (decision n).

Lemma set_firewall_same n : set_firewall (firewall n) n = n.
Proof. by destruct n. Qed.
Lemma set_addresses_same n : set_addresses (addresses n) n = n.
Proof. by destruct n. Qed.

Lemma update_firewall_eq n : Nat_update_firewall n = set_firewall (with_decision n) n.
Proof.
  unfold Nat_update_firewall, with_decision, decision.
  repeat case_match; cbn [default]; try done; by rewrite set_firewall_same.
Qed.

Definition addresses_for (n : Nat) : option (list Ipv4Peer) :=
  if firewall n =? FIREWALL_UNKNOWN then None
  else if firewall n =? FIREWALL_RANDOM then
    match samples_host n with s :: _ => Some [mkPeer (sm_host s) (sm_port s)] | [] => addresses n end
  else if firewall n =? FIREWALL_CONSISTENT then Some (collect_addresses (samples_full n) [])
  else addresses n.
Lemma update_addresses_eq n : Nat_update_addresses n = set_addresses (addresses_for n) n.
Proof.
  unfold Nat_update_addresses, addresses_for. repeat case_match; try done; by rewrite set_addresses_same.
Qed.

(** Verdict and addresses are those the samples give. *)
Definition current (n : Nat) : Prop := firewall n = with_decision n /\ addresses n = addresses_for n.

Lemma update_current n : current (Nat_update_addresses (Nat_update_firewall n)).
Proof.
  rewrite update_firewall_eq, update_addresses_eq. split.
  - unfold with_decision. cbn [set_addresses firewall set_firewall].
    change (decision (set_addresses _ _)) with (decision n). by destruct (decision n).
  - unfold addresses_for. cbn [set_addresses firewall set_firewall addresses samples_host samples_full].
    repeat case_match; done.
Qed.

Lemma collect_sound l : forall acc a,
  a ∈ collect_addresses l acc -> a ∈ acc \/ exists s, s ∈ l /\ full_key a = key s.
Proof.
  induction l as [|s l IH]; intros acc a; cbn [collect_addresses]; [by left|].
  destruct (_ || _); intros [Hin|(x & Hx & He)]%IH; try by (right; exists x; split; [by right|done]).
  - apply elem_of_app in Hin as [?| ->%list_elem_of_singleton]; [by left|].
    right. exists s. split; [left|done].
  - by left.
Qed.
Lemma collect_mono l : forall acc a, a ∈ acc -> a ∈ collect_addresses l acc.
Proof.
  induction l as [|s l IH]; intros acc a Ha; cbn [collect_addresses]; [done|].
  destruct (_ || _); apply IH; [apply elem_of_app; by left|done].
Qed.
Lemma collect_complete l : forall acc s,
  s ∈ l -> 2 <= sm_hits s -> mkPeer (sm_host s) (sm_port s) ∈ collect_addresses l acc.
Proof.
  induction l as [|x l IH]; intros acc s Hs Hh; [by apply elem_of_nil in Hs|].
  cbn [collect_addresses]. apply elem_of_cons in Hs as [->|Hs].
  - rewrite (proj2 (Z.leb_le _ _)) by done. cbn [orb]. apply collect_mono, elem_of_app. right. by left.
  - destruct (_ || _); by apply IH.
Qed.

Lemma decision_range n f :
  firewalled n = true -> decision n = Some f -> f ∈ [FIREWALL_UNKNOWN; FIREWALL_CONSISTENT; FIREWALL_RANDOM].
Proof.
  intros Hf. unfold decision. rewrite Hf. cbn [negb].
  repeat case_match; intros Hd; try done; injection Hd as <-; rewrite !elem_of_cons; auto.
Qed.
Lemma decision_random n : firewalled n = true -> decision n = Some FIREWALL_RANDOM -> 3 <= sampled n.
Proof. unfold decision. intros ->. cbn [negb]. destruct (Z.ltb_spec (sampled n) 3); [done|lia]. Qed.
Lemma decision_consistent n :
  samples_ok (samples_full n) -> decision n = Some FIREWALL_CONSISTENT ->
  exists k c, counts (samples_full n) !! k = Some c /\ 2 <= c.
Proof.
  intros [_ Hk Hh]. unfold decision. destruct (firewalled n); cbn [negb]; [|done].
  destruct (sampled n <? 3); [done|]. destruct (samples_full n) as [|s l] eqn:Hl; [done|].
  assert (s ∈ s :: l) as Hin by left. rewrite Forall_forall in Hh. pose proof (Hh s Hin).
  assert (2 <= sm_hits s -> exists k c, counts (s :: l) !! k = Some c /\ 2 <= c) as Hs
    by (intros; exists (key s), (sm_hits s); split; [by apply counts_elem|done]).
  destruct (Z.leb_spec 3 (sm_hits s)); [intros _; apply Hs; lia|].
  destruct (Z.eqb_spec (sm_hits s) 1); [done|]. intros _. apply Hs. lia.
Qed.

Lemma counts_first n s l :
  samples_host n = s :: l -> samples_ok (samples_host n) ->
  is_Some (counts (samples_host n) !! (sm_host s, sm_port s)).
Proof. intros -> [_ Hk _]. exists (sm_hits s). apply (counts_elem (s :: l) s); [done|left]. Qed.

(** What an update needs of the samples: they count [sampled] reports, hosts
    with port 0. *)
Record samples_inv (n : Nat) : Prop := {
  si_full : samples_ok (samples_full n);
  si_host : samples_ok (samples_host n);
  si_port : Forall (fun s => sm_port s = 0) (samples_host n);
  si_some : 0 < sampled n -> samples_host n <> []
}.

Lemma update_verdict n :
  samples_inv n -> verdict_ok n -> verdict_ok (Nat_update_addresses (Nat_update_firewall n)).
Proof.
  intros [Hf Hh Hp Hs] [Ho Hr Hc Hrd]. rewrite update_firewall_eq. set (f := with_decision n).
  assert (firewalled n = true -> f ∈ [FIREWALL_UNKNOWN; FIREWALL_CONSISTENT; FIREWALL_RANDOM]) as Hr'.
  { intros Hfw. unfold f, with_decision. destruct (decision n) as [d|] eqn:Hd; [by eapply decision_range|by apply Hr]. }
  assert (firewalled n = false -> f = FIREWALL_OPEN) as Ho'
    by (intros Hfw; unfold f, with_decision, decision; by rewrite Hfw).
  assert (f = FIREWALL_CONSISTENT -> exists k c, counts (samples_full n) !! k = Some c /\ 2 <= c) as Hc'.
  { unfold f, with_decision. destruct (decision n) as [d|] eqn:Hd; cbn; [|by intros [? _]%Hc].
    intros ->. by apply decision_consistent. }
  assert (f = FIREWALL_RANDOM -> 3 <= sampled n) as Hrd'.
  { intros Hfr. destruct (firewalled n) eqn:Hfw; [|by rewrite (Ho' eq_refl) in Hfr].
    unfold f, with_decision in Hfr. destruct (decision n) as [d|] eqn:Hd; cbn in Hfr; [|by apply Hrd].
    subst d. by apply decision_random. }
  clearbody f. unfold Nat_update_addresses. cbn [set_firewall firewall samples_host samples_full].
  destruct (Z.eqb_spec f FIREWALL_UNKNOWN) as [->|Hu]; [by split; cbn; try done|].
  destruct (Z.eqb_spec f FIREWALL_RANDOM) as [->|Hnr].
  - specialize (Hrd' eq_refl). destruct (samples_host n) as [|s l] eqn:Hl; [by destruct Hs; [lia|]|].
    split; cbn; try done. intros _. split; [done|]. rewrite Hl.
    apply Forall_cons in Hp as [Hp _]. exists (sm_host s). rewrite Hp. split; [done|].
    rewrite <- Hp, <- Hl. apply (counts_first n s l); [done|by rewrite Hl].
  - destruct (Z.eqb_spec f FIREWALL_CONSISTENT) as [->|Hnc]; [|by split; cbn; try done; intros; subst].
    split; cbn; try done. intros _. split; [by apply Hc'|]. eexists. split; [done|].
    intros a [Ha|(s & Hs' & ->)]%collect_sound; [by apply elem_of_nil in Ha|].
    exists (sm_hits s). apply counts_elem; [apply Hf|done].
Qed.

(** ** The invariant of every run *)

Record nat_base (fw : bool) (r : list Ipv4Peer * gset string) (n : Nat) : Prop := {
  nb_fw : firewalled n = fw;
  nb_visited : forall k, nat_visited n !! k = Some 2 <-> k ∈ r.2;
  nb_samples : samples_inv n;
  nb_full : counts (samples_full n) = tally full_key r.1;
  nb_host : counts (samples_host n) = tally host_key r.1;
  nb_sampled : sampled n = len r.1;
  nb_verdict : verdict_ok n
}.
Definition nat_current (fw : bool) (n : Nat) : Prop :=
  frozen n = false -> fw = true -> 3 <= sampled n -> current n.
(** Waiters are woken when the flag is set, which happens once. *)
Definition woken (fw : bool) (n : Nat) : Prop :=
  nat_wakes n = (if fw && nat_settled n then 1 else 0)%nat /\ (fw = false -> nat_settled n = true).

Record nat_inv (fw : bool) (r : list Ipv4Peer * gset string) (n : Nat) : Prop := {
  ni_base : nat_base fw r n;
  ni_current : nat_current fw n;
  ni_woken : woken fw n;
  ni_settled : 4 <= sampled n -> nat_settled n = true
}.

Lemma tally_one_mono k m x : is_Some (m !! k) -> is_Some (tally_one x m !! k).
Proof.
  unfold tally_one. destruct (decide (x = k)) as [->|?];
    [rewrite lookup_insert_eq|rewrite lookup_insert_ne by done]; eauto.
Qed.
Lemma tally_one_ge k m x c : m !! k = Some c -> exists c', tally_one x m !! k = Some c' /\ c <= c'.
Proof.
  intros Hk. unfold tally_one. destruct (decide (x = k)) as [->|?].
  - rewrite lookup_insert_eq, Hk. eexists. split; [done|]. cbn. lia.
  - rewrite lookup_insert_ne by done. by exists c.
Qed.

(** A report recorded, before any update. *)
Definition recorded (addr : Ipv4Peer) (v : gmap string Z) (n : Nat) : Nat :=
  set_samples (add_sample (samples_host n) (host addr) 0)
    (add_sample (samples_full n) (host addr) (port addr)) (sampled n + 1) (set_visited v n).

Lemma bump_up_port j l :
  Forall (fun s => sm_port s = 0) l -> Forall (fun s => sm_port s = 0) (bump_up j l).
Proof.
  revert l. induction j as [|j IH]; intros l Hl; cbn [bump_up]; [done|].
  destruct (l !! j) as [a|] eqn:Ha; [|done]. destruct (l !! S j) as [b|] eqn:Hb; [|done].
  destruct (_ <? _); [|done]. apply IH. unfold swap_next. rewrite Ha, Hb.
  apply Forall_insert; [apply Forall_insert; [done|]|].
  - by eapply (Forall_lookup_1 (fun s => sm_port s = 0) l j a).
  - by eapply (Forall_lookup_1 (fun s => sm_port s = 0) l (S j) b).
Qed.

Lemma add_sample_port l h :
  Forall (fun s => sm_port s = 0) l -> Forall (fun s => sm_port s = 0) (add_sample l h 0).
Proof.
  intros Hl. unfold add_sample. destruct (sample_index h 0 l).
  - apply bump_up_port. by apply Forall_alter.
  - apply Forall_app. split; [done|]. by apply Forall_singleton.
Qed.

Lemma recorded_samples addr v n :
  samples_inv n -> 0 <= sampled n ->
  samples_inv (recorded addr v n) /\
  counts (samples_full (recorded addr v n)) = tally_one (full_key addr) (counts (samples_full n)) /\
  counts (samples_host (recorded addr v n)) = tally_one (host_key addr) (counts (samples_host n)).
Proof.
  intros [Hf Hh Hp Hs] H0. cbn.
  destruct (add_sample_spec _ (host addr) (port addr) Hf) as [Hf' Hcf].
  destruct (add_sample_spec _ (host addr) 0 Hh) as [Hh' Hch].
  split; [|done]. split; cbn; [done|done|by apply add_sample_port|].
  intros _ Hnil. rewrite Hnil in Hch. unfold tally_one in Hch.
  apply (f_equal (lookup (host addr, 0))) in Hch. by rewrite lookup_insert_eq in Hch.
Qed.

Lemma recorded_verdict addr v n :
  samples_inv n -> 0 <= sampled n -> verdict_ok n -> verdict_ok (recorded addr v n).
Proof.
  intros Hs H0 [Ho Hr Hc Hrd]. destruct (recorded_samples addr v n Hs H0) as (_ & Hcf & Hch).
  split; rewrite ?Hcf, ?Hch; [done|done| |].
  - intros (Hk & l & Hl & Ha)%Hc. split.
    + destruct Hk as (k & c & Hk & H2). destruct (tally_one_ge k _ (full_key addr) c Hk) as (c' & Hc' & Hle).
      exists k, c'. split; [done|lia].
    + exists l. split; [done|]. intros a Hin. by apply tally_one_mono, Ha.
  - intros (H3 & h & Hh & Hk)%Hrd. split; [cbn; lia|]. exists h. split; [done|]. by apply tally_one_mono.
Qed.

Lemma update_base fw r n : nat_base fw r n -> nat_base fw r (Nat_update_addresses (Nat_update_firewall n)).
Proof.
  intros []. pose proof (update_verdict n nb_samples0 nb_verdict0) as Hv.
  rewrite update_firewall_eq, update_addresses_eq in *. split; try done. by destruct nb_samples0.
Qed.
Lemma update_inv fw r n : nat_inv fw r n -> nat_inv fw r (Nat_update_addresses (Nat_update_firewall n)).
Proof.
  intros []. split; [by apply update_base|intros _ _ _; apply update_current| |];
    rewrite update_firewall_eq, update_addresses_eq; done.
Qed.
(** The reset at the start of [update] does nothing. *)
Lemma nat_update_eq n : verdict_ok n -> Nat_update n = Nat_update_addresses (Nat_update_firewall n).
Proof.
  intros [_ Hr _ _]. unfold Nat_update. destruct (firewalled n); [|done]. specialize (Hr eq_refl).
  rewrite !elem_of_cons, elem_of_nil in Hr. by destruct Hr as [->|[->|[->|[]]]].
Qed.

Lemma settle_woken fw n : woken fw n -> woken fw (settle n).
Proof.
  unfold woken, settle. cbn. intros [Hw Hs]. split; [|done].
  destruct fw; cbn [andb] in *; [by destruct (nat_settled n); rewrite Hw|].
  by rewrite (Hs eq_refl).
Qed.

Lemma record_base fw acc seen n addr from :
  nat_base fw (acc, seen) n -> peer_addr from ∉ seen ->
  nat_base fw (acc ++ [addr], {[peer_addr from]} ∪ seen)
    (recorded addr (<[peer_addr from := 2]> (nat_visited n)) n).
Proof.
  intros [] Hns. cbn [fst snd] in *.
  assert (0 <= sampled n) as H0 by (rewrite nb_sampled0; apply len_nonneg).
  destruct (recorded_samples addr (<[peer_addr from := 2]> (nat_visited n)) n nb_samples0 H0) as (Hs & Hf & Hh).
  split; cbn [fst snd]; try done.
  - intros k. cbn. rewrite elem_of_union, elem_of_singleton, <- nb_visited0.
    destruct (decide (peer_addr from = k)) as [->|?]; [rewrite lookup_insert_eq|rewrite lookup_insert_ne by done].
    + split; [by left|done].
    + split; [by right|intros [?|?]; congruence].
  - by rewrite Hf, nb_full0, tally_snoc.
  - by rewrite Hh, nb_host0, tally_snoc.
  - cbn. rewrite nb_sampled0. lens. lia.
  - by apply recorded_verdict.
Qed.

(** Freezing, marking and settling leave the rest alone. *)
Definition same_samples (n n' : Nat) : Prop :=
  (samples_host n', samples_full n', firewalled n', sampled n', firewall n', addresses n') =
  (samples_host n, samples_full n, firewalled n, sampled n, firewall n, addresses n).
Lemma base_same fw r n n' :
  same_samples n n' -> (forall k, nat_visited n' !! k = Some 2 <-> nat_visited n !! k = Some 2) ->
  nat_base fw r n -> nat_base fw r n'.
Proof.
  unfold same_samples. intros [= E1 E2 E3 E4 E5 E6] Hv [Hfw Hvis [] Hf Hh Hs []].
  split; rewrite ?E1, ?E2, ?E3, ?E4; try done.
  - intros k. by rewrite Hv.
  - split; by rewrite ?E1, ?E2, ?E4.
  - split; rewrite ?E1, ?E2, ?E3, ?E4, ?E5, ?E6; done.
Qed.
Lemma current_same n n' : same_samples n n' -> current n -> current n'.
Proof.
  unfold same_samples, current, with_decision, decision, addresses_for. intros [= -> -> -> -> -> ->]. done.
Qed.

Lemma try_settle_inv fw r n :
  nat_base fw r n -> nat_current fw n -> woken fw n -> nat_inv fw r (Nat_try_settle n).
Proof.
  intros Hb Hc Hw. unfold Nat_try_settle.
  destruct (_ || _ || (NAT_MIN_SAMPLES <=? sampled n)) eqn:Hs.
  - split; [by apply (base_same fw r n)|done|by apply settle_woken|done].
  - split; [done|done|done|]. intros H4. apply orb_false_iff in Hs as [_ Hs].
    apply Z.leb_gt in Hs. unfold NAT_MIN_SAMPLES in Hs. lia.
Qed.

Lemma nat_op_inv fw r n op : nat_inv fw r n -> nat_inv fw (report r op) (nat_op n op).
Proof.
  intros Hinv. destruct op as [addr from|h p| | | |]; cbn [nat_op report].
  - destruct Hinv as [Hb Hc Hw Hs]. destruct r as [acc seen]. cbn [fst snd].
    unfold Nat_add. destruct (decide (peer_addr from ∈ seen)) as [Hin|Hin].
    { apply (nb_visited _ _ _ Hb) in Hin. rewrite bool_decide_true by done. by split. }
    rewrite bool_decide_false by (intros Hv; by apply (nb_visited _ _ _ Hb) in Hv).
    pose proof (record_base _ _ _ _ addr from Hb Hin) as Hb'. fold (recorded addr (<[peer_addr from := 2]> (nat_visited n)) n).
    cbv zeta. set (n1 := set_samples _ _ _ _).
    assert (n1 = recorded addr (<[peer_addr from := 2]> (nat_visited n)) n) as E by done. rewrite <- E in Hb'.
    destruct ((_ || _) && _) eqn:Hu.
    + rewrite nat_update_eq by apply Hb'. apply try_settle_inv; [by apply update_base| |].
      * intros _ _ _. apply update_current.
      * rewrite update_firewall_eq, update_addresses_eq. done.
    + apply try_settle_inv; [done| |done]. intros Hf Hfw H3.
      rewrite (proj2 (Z.leb_le _ _) H3), Hf in Hu. done.
  - unfold Nat_mark_visited. destruct (nat_visited n !! addr_of h p) as [v|] eqn:Hv; cbn [snd]; [done|].
    destruct Hinv as [Hb Hc Hw Hs]. split; [|done..]. apply (base_same fw r n); [done| |done].
    intros k. cbn. destruct (decide (addr_of h p = k)) as [<-|?];
      [rewrite lookup_insert_eq, Hv; done|by rewrite lookup_insert_ne].
  - destruct Hinv as [Hb Hc Hw Hs]. split; [by apply (base_same fw r n)|done..].
  - destruct Hinv as [Hb Hc Hw Hs]. unfold Nat_unfreeze.
    assert (nat_base fw r (set_frozen false n)) as Hb' by by apply (base_same fw r n).
    split; [by apply update_base|intros _ _ _; apply update_current| |];
      rewrite update_firewall_eq, update_addresses_eq; done.
  - rewrite nat_update_eq by apply Hinv. by apply update_inv.
  - destruct Hinv as [Hb Hc Hw Hs]. split; [by apply (base_same fw r n)|done|by apply settle_woken|done].
Qed.

Lemma nat_run_inv fw ops : nat_inv fw (reports ops) (nat_run fw ops).
Proof.
  unfold nat_run, reports.
  assert (nat_inv fw ([], ∅) (Nat_new fw)) as Hinv.
  { split; [|by intros _ _ ?|by destruct fw|done]. split; try done.
    - split; cbn; try lia; repeat constructor.
    - split; cbn; destruct fw; try done. intros _. left. }
  revert Hinv. generalize (Nat_new fw), (([], ∅) : list Ipv4Peer * gset string).
  induction ops as [|op ops IH]; intros n r Hinv; cbn [foldl]; [done|]. by apply IH, nat_op_inv.
Qed.

(** ** What the counts say *)

Lemma tally_le f l k c : tally f l !! k = Some c -> c <= len l.
Proof.
  revert k c. induction l as [|a l IH] using rev_ind; intros k c; [cbn; by rewrite lookup_empty|].
  rewrite tally_snoc, len_app. unfold tally_one. change (len [a]) with 1.
  destruct (decide (f a = k)) as [->|?].
  - rewrite lookup_insert_eq. intros [= <-]. destruct (tally f l !! k) as [c|] eqn:Hk; cbn.
    + apply IH in Hk. lia.
    + pose proof (len_nonneg l). lia.
  - rewrite lookup_insert_ne by done. intros Hk%IH. lia.
Qed.

Lemma tally_distinct f l k c : NoDup (f <$> l) -> tally f l !! k = Some c -> c = 1.
Proof.
  revert k c. induction l as [|a l IH] using rev_ind; intros k c Hn; [cbn; by rewrite lookup_empty|].
  rewrite fmap_app in Hn. apply NoDup_app in Hn as (Hn & Hd & _).
  rewrite tally_snoc. unfold tally_one. destruct (decide (f a = k)) as [<-|?].
  - rewrite lookup_insert_eq. destruct (tally f l !! f a) as [c'|] eqn:Hk; [|by intros [= <-]].
    exfalso. apply (Hd (f a)); [apply tally_elem; by eexists|left].
  - rewrite lookup_insert_ne by done. by apply IH.
Qed.

(** The first sample is the most frequent. *)
Lemma first_most n s l k c :
  samples_ok (samples_full n) -> samples_full n = s :: l -> counts (samples_full n) !! k = Some c ->
  c <= sm_hits s.
Proof.
  intros [Hs _ _] E (x & Hx & _ & <-)%counts_inv. rewrite E in *.
  apply StronglySorted_inv in Hs as [_ Hs]. apply elem_of_cons in Hx as [->|Hx]; [done|].
  rewrite Forall_forall in Hs. by apply Hs.
Qed.

Lemma decision_three n a c :
  samples_ok (samples_full n) -> firewalled n = true -> 3 <= sampled n ->
  counts (samples_full n) !! full_key a = Some c -> 3 <= c ->
  decision n = Some FIREWALL_CONSISTENT.
Proof.
  intros Hok Hfw H3 Hc Hge. unfold decision. rewrite Hfw, (proj2 (Z.ltb_ge _ _)) by done. cbn [negb].
  destruct (samples_full n) as [|s l] eqn:E; [done|].
  rewrite (proj2 (Z.leb_le _ _)); [done|].
  assert (c <= sm_hits s); [|lia]. eapply (first_most n s l); rewrite ?E; done.
Qed.

Lemma decision_distinct n :
  samples_ok (samples_full n) -> samples_full n <> [] -> firewalled n = true -> 3 <= sampled n ->
  (forall k c, counts (samples_full n) !! k = Some c -> c = 1) ->
  decision n = Some FIREWALL_RANDOM.
Proof.
  intros Hok Hne Hfw H3 H1. unfold decision. rewrite Hfw, (proj2 (Z.ltb_ge _ _)) by done. cbn [negb].
  destruct (samples_full n) as [|s l] eqn:E; [done|].
  assert (sm_hits s = 1) as ->; [|done].
  apply (H1 (key s)), counts_elem; [apply Hok|left].
Qed.

(** ** The claims *)

(** Whatever the operations, the classifier counts exactly the first report
    of every peer: the samples are the number of times each address, and each
    host, was reported, most frequent first; and the waiters of [analyzing] are
    woken exactly once, at the latest with the fourth report. *)
Theorem nat_samples_exact fw ops :
  let n := nat_run fw ops in
  let seen := (reports ops).1 in
  sampled n = len seen /\
  counts (samples_full n) = tally full_key seen /\ counts (samples_host n) = tally host_key seen /\
  StronglySorted hits_ge (samples_full n) /\ NoDup (key <$> samples_full n) /\
  nat_wakes n = (if fw && nat_settled n then 1 else 0)%nat /\
  (fw = false \/ 4 <= sampled n -> nat_settled n = true).
Proof.
  destruct (nat_run_inv fw ops) as [[? ? [[] ? ? ?] ? ? ? ?] ? [] ?].
  split_and!; try done. intros [?|?]; auto.
Qed.

(** The verdict is sound and complete in what it counts: an open node is
    open; "consistent" is only reported when two peers agreed on an address,
    and every address offered was reported by a peer; "random" needs three
    reports and offers a reported host; and a classifier that is not frozen
    reports "consistent" with that address once three peers agree, and "random"
    while three or more all disagree. *)
Theorem nat_classifies fw ops :
  let n := nat_run fw ops in
  let seen := (reports ops).1 in
  (fw = false -> firewall n = FIREWALL_OPEN) /\
  (fw = true -> firewall n ∈ [FIREWALL_UNKNOWN; FIREWALL_CONSISTENT; FIREWALL_RANDOM]) /\
  (firewall n = FIREWALL_CONSISTENT ->
     (exists k c, tally full_key seen !! k = Some c /\ 2 <= c) /\
     exists l, addresses n = Some l /\ forall a, a ∈ l -> full_key a ∈ full_key <$> seen) /\
  (firewall n = FIREWALL_RANDOM ->
     3 <= len seen /\ exists h, addresses n = Some [mkPeer h 0] /\ (h, 0) ∈ host_key <$> seen) /\
  (frozen n = false -> fw = true ->
     (forall a c, tally full_key seen !! full_key a = Some c -> 3 <= c ->
        firewall n = FIREWALL_CONSISTENT /\ exists l, addresses n = Some l /\ a ∈ l) /\
     (3 <= len seen -> NoDup (full_key <$> seen) -> firewall n = FIREWALL_RANDOM)).
Proof.
  intros n seen. destruct (nat_run_inv fw ops) as [[Hfw _ [Hf Hh Hp Hs] Htf Hth Hsm [Ho Hr Hc Hrd]] Hcur _ _].
  fold n in Hfw, Hf, Hh, Hp, Hs, Htf, Hth, Hsm, Ho, Hr, Hc, Hrd, Hcur. fold seen in Htf, Hth, Hsm.
  rewrite Hfw, Htf, Hth, Hsm in *.
  split_and!; [done|done| | |].
  - intros (Hk & l & Hl & Ha)%Hc. split; [done|]. exists l. split; [done|].
    intros a Hin. by apply tally_elem, Ha.
  - intros (H3 & h & Ha & Hk)%Hrd. split; [done|]. exists h. split; [done|]. by apply tally_elem.
  - intros Hfz Hfwt. split.
    + intros a c Hk Hge. pose proof (tally_le _ _ _ _ Hk). rewrite <- Htf in Hk.
      destruct Hcur as [Hd Ha]; [done|done|lia|].
      assert (firewall n = FIREWALL_CONSISTENT) as Hcons
        by (rewrite Hd; unfold with_decision; rewrite (decision_three n a c); [done|done|congruence|lia|done|done]).
      split; [done|]. unfold addresses_for in Ha. rewrite Hcons in Ha. cbn in Ha.
      eexists. split; [exact Ha|]. apply counts_inv in Hk as (s & Hin & Hkey & Hh').
      destruct a as [h p]. injection Hkey as <- <-. apply collect_complete; [done|lia].
    + intros H3 Hnd. destruct Hcur as [Hd Ha]; [done|done|lia|]. rewrite Hd. unfold with_decision. rewrite decision_distinct; [done|done| |congruence|lia|].
      * intros E. rewrite E in Htf. destruct seen as [|a seen']; [by cbn in H3|].
        assert (is_Some (tally full_key (a :: seen') !! full_key a)) as [c Hx]
          by (apply tally_elem; left). by rewrite <- Htf in Hx.
      * intros k c Hk. rewrite Htf in Hk. by eapply tally_distinct.
Qed.

(** Three peers that agree, after one that does not. *)
Example nat_consistent :
  let addr := mkPeer "1.2.3.4" 77 in
  let n := nat_run true [OpAdd (mkPeer "1.2.3.4" 78) (mkPeer "9.9.9.1" 1);
    OpAdd addr (mkPeer "9.9.9.2" 1); OpAdd addr (mkPeer "9.9.9.3" 1); OpAdd addr (mkPeer "9.9.9.3" 1);
    OpAdd addr (mkPeer "9.9.9.4" 1)] in
  sampled n = 4 /\ firewall n = FIREWALL_CONSISTENT /\
  addresses n = Some [addr; mkPeer "1.2.3.4" 78] /\ nat_wakes n = 1%nat.
Proof. vm_compute. done. Qed.
