(* ===== verification/Holepuncher.v ===== *)
(** * Holepuncher: NAT hole punching
    ([peeroxide-dht/src/holepuncher.rs], [peeroxide-dht/src/socket_pool.rs])

    A socket is a number.  What the puncher does to the outside (probes sent,
    pauses, receive tasks started and stopped, events for its owner) is appended
    to [hp_log], which the source does not keep.  The sockets the pool hands out,
    the random ports and the interfaces of the host are arguments, and so is the
    value of the shared flag [connected_flag] at the moment [destroy] reads it:
    the receive tasks may set it at any time. *)

From S2P Require Import Prelude RustStd RustFloat CompactEncoding Codec Messages HyperdhtMessages Query NatClassifier.
From Stdlib Require Import Ascii.

#[local] Open Scope Z_scope.

Inductive HolepunchEvent := HpConnected (addr : SocketAddr) | HpAborted.

Record RemoteAddress := mkRemote { ra_host : string; ra_port : Z; ra_verified : bool }.

Inductive HpAction :=
| HpSleep (ms : Z)
| HpSend (socket : Z) (ttl : Z) (addr : SocketAddr)
| HpReflect (socket : Z) (addr : SocketAddr)
| HpSpawnAdapter (socket : Z)
| HpAbortAdapter (socket : Z)
| HpEvent (e : HolepunchEvent).

Record Holepuncher := mkHolepuncher {
  hp_nat : Nat;
  hp_is_initiator : bool;
  hp_punching : bool;
  hp_connected : bool;
  hp_destroyed : bool;
  hp_remote_firewall : Z;
  hp_remote_addresses : list RemoteAddress;
  hp_remote_holepunching : bool;
  hp_sockets : list Z;
  (** The first socket's [dht_reply_rx] has not been taken. *)
  hp_dht_rx : bool;
  hp_recv_tasks : list Z;
  hp_log : list HpAction
}.

(** Field updates. *)
Definition hp_act (a : HpAction) (p : Holepuncher) : Holepuncher :=
  mkHolepuncher (hp_nat p) (hp_is_initiator p) (hp_punching p) (hp_connected p) (hp_destroyed p)
    (hp_remote_firewall p) (hp_remote_addresses p) (hp_remote_holepunching p) (hp_sockets p) (hp_dht_rx p)
    (hp_recv_tasks p) (hp_log p ++ [a]).
Definition hp_set_nat n p := mkHolepuncher n (hp_is_initiator p) (hp_punching p) (hp_connected p) (hp_destroyed p)
  (hp_remote_firewall p) (hp_remote_addresses p) (hp_remote_holepunching p) (hp_sockets p) (hp_dht_rx p)
  (hp_recv_tasks p) (hp_log p).
Definition hp_set_flags punching connected destroyed p := mkHolepuncher (hp_nat p) (hp_is_initiator p) punching
  connected destroyed (hp_remote_firewall p) (hp_remote_addresses p) (hp_remote_holepunching p) (hp_sockets p)
  (hp_dht_rx p) (hp_recv_tasks p) (hp_log p).
Definition hp_set_remote fw addrs punching p := mkHolepuncher (hp_nat p) (hp_is_initiator p) (hp_punching p)
  (hp_connected p) (hp_destroyed p) fw addrs punching (hp_sockets p) (hp_dht_rx p) (hp_recv_tasks p) (hp_log p).
Definition hp_set_sockets socks rx tasks p := mkHolepuncher (hp_nat p) (hp_is_initiator p) (hp_punching p)
  (hp_connected p) (hp_destroyed p) (hp_remote_firewall p) (hp_remote_addresses p) (hp_remote_holepunching p)
  socks rx tasks (hp_log p).

(** ** socket_pool.rs *)

Definition HOLEPUNCH_TTL : Z := 5.
Definition DEFAULT_TTL : Z := 64.

Definition send_holepunch (socket : Z) (addr : SocketAddr) (low_ttl : bool) (p : Holepuncher) : Holepuncher :=
  hp_act (HpSend socket (if low_ttl then HOLEPUNCH_TTL else DEFAULT_TTL) addr) p.

(** [1000 + (rand::random::<f64>() * 64536.0) as u16] *)
Definition random_port (r : f64) : Z :=
  as_u16 (1000 + Z.min 65535 (f64_to_u64 (f64_mul r (f64_of_Z 64536)))).

Inductive InboundClass := InHolepunch | InUdxFrame | InDhtResponse | InDrop.

Definition classify_inbound (buf : list Z) : InboundClass :=
  if len buf <=? 1 then InHolepunch
  else if (20 <=? len buf) && (default 0 (buf !! 0%nat) =? 0xFF) then InUdxFrame
  else match decode_message buf with
       | Ok (MResponse _) => InDhtResponse
       | _ => InDrop
       end.

(** Where [route_messages] puts a datagram: the probe channel, the reply
    channel, or nowhere. *)
Definition route_message (dgram : list Z * SocketAddr) : option (SocketAddr + list Z * SocketAddr) :=
  match classify_inbound dgram.1 with
  | InHolepunch => Some (inl dgram.2)
  | InDhtResponse => Some (inr dgram)
  | InUdxFrame | InDrop => None
  end.

Definition coerce_firewall (fw : Z) : Z := if fw =? FIREWALL_OPEN then FIREWALL_CONSISTENT else fw.

(** ** holepuncher.rs *)

Definition BIRTHDAY_SOCKETS : Z := 256.

(** [new] over the socket the pool acquired. *)
Definition Holepuncher_new (socket : Z) (firewalled is_initiator : bool) (remote_firewall : Z) : Holepuncher :=
  mkHolepuncher (Nat_new firewalled) is_initiator false false false remote_firewall [] false [socket] true [socket]
    [HpSpawnAdapter socket].

Definition is_verified (p : Holepuncher) (host : string) : bool :=
  existsb (fun a => ra_verified a && String.eqb (ra_host a) host) (hp_remote_addresses p).

Definition update_remote (punching : bool) (firewall : Z) (addresses : list Ipv4Peer)
    (verified_host : option string) (p : Holepuncher) : Holepuncher :=
  let remote_addrs := (fun addr => mkRemote (host addr) (port addr)
    (bool_decide (verified_host = Some (host addr)) || is_verified p (host addr))) <$> addresses in
  hp_set_remote firewall remote_addrs punching p.

(** An interface of the host: loopback or not, and the text of its address when
    that is an IPv4 one. *)
Record Iface := mkIface { if_loopback : bool; if_ipv4 : option string }.

(** [None]: [get_if_addrs] failed. *)
Definition local_addresses (ifs : option (list Iface)) (port : Z) : list Ipv4Peer :=
  let out := omap (fun iface => if if_loopback iface then None else (fun h => mkPeer h port) <$> if_ipv4 iface)
               (default [] ifs) in
  match out with [] => [mkPeer "127.0.0.1" port] | _ => out end.
Definition select_punch_addresses (ifs : option (list Iface)) (nat_addresses : option (list Ipv4Peer))
    (fallback_port : Z) : list Ipv4Peer :=
  default [] nat_addresses ++ local_addresses ifs fallback_port.
Definition punch_addresses (ifs : option (list Iface)) (p : Holepuncher) (fallback_port : Z) : list Ipv4Peer :=
  select_punch_addresses ifs (addresses (hp_nat p)) fallback_port.

Definition Holepuncher_auto_sample (candidates : bool) (joined : list (option (option Ipv4Peer * Ipv4Peer)))
    (p : Holepuncher) : Z * Holepuncher :=
  match hp_sockets p with
  | [] => (0, p)
  | _ =>
      if negb (hp_dht_rx p) then (0, p)
      else
        let '(added, n) := Nat_auto_sample candidates joined (hp_nat p) in
        (added, hp_set_nat n (hp_set_sockets (hp_sockets p) false (hp_recv_tasks p) p))
  end.

Definition unstable (p : Holepuncher) : bool :=
  let fw := firewall (hp_nat p) in
  ((FIREWALL_RANDOM <=? hp_remote_firewall p) && (FIREWALL_RANDOM <=? fw)) || (fw =? FIREWALL_UNKNOWN).

(** [analyze] after [analyzing] has returned; the classifier does not change
    during the pause, since this task owns it. *)
Definition analyze (allow_reopen : bool) (p : Holepuncher) : bool * Holepuncher :=
  if negb (unstable p) then (true, p)
  else if negb allow_reopen then (false, p)
  else let p := hp_act (HpSleep 500) p in (negb (unstable p), p).

Definition hp_done (p : Holepuncher) : bool := hp_destroyed p || hp_connected p.

(** [connected_flag] is the value of the shared flag. *)
Definition Holepuncher_destroy (connected_flag : bool) (p : Holepuncher) : Holepuncher :=
  if hp_destroyed p then p
  else
    let p := hp_set_flags false (hp_connected p) true p in
    let p := hp_set_nat (Nat_destroy (hp_nat p)) (hp_set_sockets [] (hp_dht_rx p) (hp_recv_tasks p) p) in
    let p := foldl (fun p t => hp_act (HpAbortAdapter t) p) p (hp_recv_tasks p) in
    let p := hp_set_sockets [] (hp_dht_rx p) [] p in
    if negb (hp_connected p) && negb connected_flag then hp_act (HpEvent HpAborted) p else p.

Definition auto_destroy (connected_flag : bool) (p : Holepuncher) : Holepuncher :=
  if hp_connected p then p else Holepuncher_destroy connected_flag p.

Definition first_verified_address (p : Holepuncher) : option Ipv4Peer :=
  (fun a => mkPeer (ra_host a) (ra_port a)) <$> find ra_verified (hp_remote_addresses p).

(** ** The probe loops *)

(** Every socket of the puncher sends through this: [sockets.get(i)]. *)
Definition send_from (i : nat) (target : SocketAddr) (low_ttl : bool) (p : Holepuncher) : Holepuncher :=
  match hp_sockets p !! i with Some s => send_holepunch s target low_ttl p | None => p end.
(** [if self.punching { sleep(..) }] *)
Definition pause (ms : Z) (p : Holepuncher) : Holepuncher :=
  if hp_punching p then hp_act (HpSleep ms) p else p.

Definition probe_address (tries : Z) (p : Holepuncher) (addr : RemoteAddress) : Holepuncher :=
  if negb (ra_verified addr) && negb (Z.land tries 3 =? 0) then p
  else match socket_addr_from_str (addr_of (ra_host addr) (ra_port addr)) with
       | None => p
       | Some target => send_from 0 target false p
       end.

(** [for tries in from..10] *)
Fixpoint consistent_loop (n : nat) (tries : Z) (p : Holepuncher) : Holepuncher :=
  match n with
  | O => p
  | S n =>
      if negb (hp_punching p) then p
      else consistent_loop n (tries + 1) (pause 1000 (foldl (probe_address tries) p (hp_remote_addresses p)))
  end.
Definition consistent_probe (flag : bool) (p : Holepuncher) : Holepuncher :=
  let p := if negb (hp_is_initiator p) then hp_act (HpSleep 1000) p else p in
  auto_destroy flag (consistent_loop 10 0 p).

Fixpoint random_loop (n : nat) (host : string) (ports : nat -> Z) (p : Holepuncher) : Holepuncher :=
  match n with
  | O => p
  | S n =>
      if negb (hp_punching p) then p
      else match socket_addr_from_str (addr_of host (ports n)) with
           | None => random_loop n host ports p
           | Some target => random_loop n host ports (pause 20 (send_from 0 target false p))
           end
  end.
Definition random_probes (flag : bool) (ports : nat -> Z) (remote_addr : Ipv4Peer) (p : Holepuncher) : Holepuncher :=
  auto_destroy flag (random_loop 1750 (host remote_addr) ports p).

(** [pool]: what each [acquire] gives, [None] an error. *)
Fixpoint birthday_loop (pool : list (option Z)) (target : SocketAddr) (p : Holepuncher) : Holepuncher :=
  if negb (hp_punching p && (len (hp_sockets p) <? BIRTHDAY_SOCKETS)) then p
  else match pool with
       | Some s :: pool =>
           let p := hp_act (HpSpawnAdapter s) (send_holepunch s target true p) in
           birthday_loop pool target (hp_set_sockets (hp_sockets p ++ [s]) (hp_dht_rx p) (hp_recv_tasks p ++ [s]) p)
       | _ => p
       end.
Definition open_birthday_sockets (pool : list (option Z)) (remote_addr : Ipv4Peer) (p : Holepuncher) : Holepuncher :=
  match socket_addr_from_str (peer_addr remote_addr) with
  | None => p
  | Some target => birthday_loop pool target p
  end.

Fixpoint keep_alive_loop (n : nat) (i : nat) (low_ttl_rounds : Z) (target : SocketAddr) (p : Holepuncher) : Holepuncher :=
  match n with
  | O => p
  | S n =>
      if negb (hp_punching p) then p
      else
        let '(i, low_ttl_rounds) :=
          if (i =? length (hp_sockets p))%nat then (O, Z.max 0 (low_ttl_rounds - 1)) else (i, low_ttl_rounds) in
        keep_alive_loop n (S i) low_ttl_rounds target (pause 20 (send_from i target (0 <? low_ttl_rounds) p))
  end.
Definition keep_alive_random_nat (flag : bool) (remote_addr : Ipv4Peer) (p : Holepuncher) : Holepuncher :=
  match socket_addr_from_str (peer_addr remote_addr) with
  | None => p
  | Some target => auto_destroy flag (keep_alive_loop 1750 0 1 target (hp_act (HpSleep 100) p))
  end.

Definition Holepuncher_punch (flag : bool) (ports : nat -> Z) (pool : list (option Z)) (p : Holepuncher) : bool * Holepuncher :=
  if hp_done p || match hp_remote_addresses p with [] => true | _ => false end then (false, p)
  else
    let p := hp_set_flags true (hp_connected p) (hp_destroyed p) p in
    let local := coerce_firewall (firewall (hp_nat p)) in
    let remote := coerce_firewall (hp_remote_firewall p) in
    let verified := first_verified_address p in
    if (local =? FIREWALL_CONSISTENT) && (remote =? FIREWALL_CONSISTENT) then (true, consistent_probe flag p)
    else
      match verified with
      | None => (false, p)
      | Some verified_addr =>
          if (local =? FIREWALL_CONSISTENT) && (FIREWALL_RANDOM <=? remote)
          then (true, random_probes flag ports verified_addr p)
          else if (FIREWALL_RANDOM <=? local) && (remote =? FIREWALL_CONSISTENT) then
            let p := open_birthday_sockets pool verified_addr p in
            (true, if hp_punching p then keep_alive_random_nat flag verified_addr p else p)
          else (false, p)
      end.

Definition on_holepunch_message (addr : SocketAddr) (socket_idx : nat) (p : Holepuncher) : Holepuncher :=
  if negb (hp_is_initiator p) then send_from socket_idx addr false p
  else if hp_connected p then p
  else hp_act (HpEvent (HpConnected addr)) (hp_set_flags false true (hp_destroyed p) p).

(** A turn of [run_recv_adapter] on a probe: the shared flag, what it does, and
    whether it goes on. *)
Definition run_recv_adapter (socket : Z) (is_initiator : bool) (connected_flag : bool) (addr : SocketAddr)
    : bool * list HpAction * bool :=
  if is_initiator then
    if negb connected_flag then (true, [HpEvent (HpConnected addr)], false) else (connected_flag, [], true)
  else (connected_flag, [HpReflect socket addr], true).

(** ** match_address *)

(** The first three parts of a host of four. *)
Definition quad (host : string) : option (string * string * string) :=
  match split_on "." host with [a; b; c; _] => Some (a, b, c) | _ => None end.

(** One remote address against one local one: [inl] is the [return]. *)
Definition match_one (a : string * string * string) (remote : Ipv4Peer) (best : Z * option Ipv4Peer)
    : Ipv4Peer + Z * option Ipv4Peer :=
  match quad (host remote) with
  | None => inr best
  | Some b =>
      if String.eqb a.1.1 b.1.1 then
        let best := if best.1 =? 1 then (2, Some remote) else best in
        if String.eqb a.1.2 b.1.2 then
          let best := if best.1 =? 2 then (3, Some remote) else best in
          if String.eqb a.2 b.2 then inl remote else inr best
        else inr best
      else inr best
  end.
Fixpoint match_remotes (a : string * string * string) (remotes : list Ipv4Peer) (best : Z * option Ipv4Peer)
    : Ipv4Peer + Z * option Ipv4Peer :=
  match remotes with
  | [] => inr best
  | r :: remotes =>
      match match_one a r best with inl x => inl x | inr best => match_remotes a remotes best end
  end.
Fixpoint match_locals (locals remotes : list Ipv4Peer) (best : Z * option Ipv4Peer) : option Ipv4Peer :=
  match locals with
  | [] => best.2
  | l :: locals =>
      match quad (host l) with
      | None => match_locals locals remotes best
      | Some a => match match_remotes a remotes best with
                  | inl x => Some x
                  | inr best => match_locals locals remotes best
                  end
      end
  end.
Definition match_address (local_addresses remote_local_addresses : list Ipv4Peer) : option Ipv4Peer :=
  match remote_local_addresses with
  | [] => None
  | _ => match_locals local_addresses remote_local_addresses (1, None)
  end.
