(* ===== verification/HolepuncherTheorems.v ===== *)
(** * HolepuncherTheorems: what a punch does and when it ends; the closest
    address in the local network *)

From S2P Require Import Prelude RustStd RustFloat CompactEncoding Codec Messages HyperdhtMessages Query NatClassifier Holepuncher.
From Stdlib Require Import Ascii.

#[local] Open Scope Z_scope.

(** ** The closest address *)

(** How many leading parts of the dotted hosts agree, at most three. *)
Definition agree (a b : string * string * string) : Z :=
  if String.eqb a.1.1 b.1.1 then
    if String.eqb a.1.2 b.1.2 then if String.eqb a.2 b.2 then 3 else 2 else 1
  else 0.
Definition closeness (l r : Ipv4Peer) : Z :=
  match quad (host l), quad (host r) with Some a, Some b => agree a b | _, _ => 0 end.
Definition address_pairs (locals remotes : list Ipv4Peer) : list (Ipv4Peer * Ipv4Peer) :=
  l ← locals; (fun r => (l, r)) <$> remotes.
Definition close (p : Ipv4Peer * Ipv4Peer) : Z := closeness p.1 p.2.

(** One pass over the pairs, keeping the first that is closer than those before. *)
Fixpoint scan (pairs : list (Ipv4Peer * Ipv4Peer)) (best : Z * option Ipv4Peer) : Ipv4Peer + Z * option Ipv4Peer :=
  match pairs with
  | [] => inr best
  | p :: pairs =>
      if close p =? 3 then inl p.2
      else scan pairs (if best.1 <=? close p then (1 + close p, Some p.2) else best)
  end.

Lemma match_one_spec a l r best :
  quad (host l) = Some a -> 1 <= best.1 <= 3 ->
  match_one a r best =
    if closeness l r =? 3 then inl r
    else inr (if best.1 <=? closeness l r then (1 + closeness l r, Some r) else best).
Proof.
  intros Hl Hb. unfold match_one, closeness, agree. rewrite Hl. destruct best as [k x]. cbn [fst] in *.
  destruct (quad (host r)) as [b|]; [|by destruct (Z.leb_spec k 0); [lia|]].
  destruct (String.eqb a.1.1 b.1.1); [|by destruct (Z.leb_spec k 0); [lia|]].
  destruct (String.eqb a.1.2 b.1.2), (String.eqb a.2 b.2), (Z.eqb_spec k 1) as [->|]; cbn; try done;
    destruct (Z.leb_spec k 1); try lia; destruct (Z.eqb_spec k 2) as [->|]; try done;
    by destruct (Z.leb_spec k 2); [lia|].
Qed.

Lemma closeness_range l r : 0 <= closeness l r <= 3.
Proof. unfold closeness, agree. repeat case_match; lia. Qed.
Lemma close_range p : 0 <= close p <= 3.
Proof. apply closeness_range. Qed.

Lemma match_remotes_scan a l rs best :
  quad (host l) = Some a -> 1 <= best.1 <= 3 -> match_remotes a rs best = scan ((fun r => (l, r)) <$> rs) best.
Proof.
  intros Hl. revert best. induction rs as [|r rs IH]; intros best Hb; [done|].
  cbn [match_remotes fmap list_fmap scan]. rewrite (match_one_spec a l) by done. unfold close at 1 2 3. cbn [fst snd].
  pose proof (closeness_range l r). destruct (Z.eqb_spec (closeness l r) 3); [done|]. apply IH.
  destruct (best.1 <=? _); cbn [fst]; lia.
Qed.

Lemma scan_app ps qs best :
  scan (ps ++ qs) best = match scan ps best with inl x => inl x | inr b => scan qs b end.
Proof. revert best. induction ps as [|p ps IH]; intros best; [done|]. cbn. by destruct (close p =? 3). Qed.

Lemma scan_range ps best b : 1 <= best.1 <= 3 -> scan ps best = inr b -> 1 <= b.1 <= 3.
Proof.
  revert best. induction ps as [|p ps IH]; intros best Hb; cbn; [by intros [= <-]|].
  pose proof (close_range p). destruct (Z.eqb_spec (close p) 3); [done|]. apply IH.
  destruct (best.1 <=? _); cbn [fst]; lia.
Qed.

Lemma scan_skip (l : Ipv4Peer) rs best :
  quad (host l) = None -> 1 <= best.1 <= 3 -> scan ((fun r => (l, r)) <$> rs) best = inr best.
Proof.
  intros Hl Hb. induction rs as [|r rs IH]; [done|]. cbn. unfold close, closeness. cbn. rewrite Hl. cbn.
  by destruct (Z.leb_spec best.1 0); [lia|].
Qed.

Lemma match_locals_scan ls rs best :
  1 <= best.1 <= 3 ->
  match_locals ls rs best = match scan (address_pairs ls rs) best with inl x => Some x | inr b => b.2 end.
Proof.
  revert best. induction ls as [|l ls IH]; intros best Hb; [done|].
  change (address_pairs (l :: ls) rs) with (((fun r => (l, r)) <$> rs) ++ address_pairs ls rs).
  rewrite scan_app. cbn [match_locals]. destruct (quad (host l)) as [a|] eqn:Hl.
  - rewrite (match_remotes_scan a l) by done. destruct (scan _ best) as [x|b] eqn:E; [done|].
    apply IH. by eapply scan_range.
  - rewrite scan_skip by done. by apply IH.
Qed.

(** What the scan has kept of the pairs it has seen. *)
Definition kept (seen : list (Ipv4Peer * Ipv4Peer)) (k : Z) (x : option Ipv4Peer) : Prop :=
  Forall (fun p => close p <= k) seen /\
  match x with
  | None => k = 0
  | Some r => exists before l after, seen = before ++ (l, r) :: after /\ closeness l r = k /\ 0 < k /\
                Forall (fun p => close p < k) before
  end.

Lemma scan_kept ps seen k x :
  0 <= k <= 2 -> kept seen k x ->
  match scan ps (1 + k, x) with
  | inl r => kept (seen ++ ps) 3 (Some r)
  | inr (b, x') => kept (seen ++ ps) (b - 1) x'
  end.
Proof.
  revert seen k x. induction ps as [|p ps IH]; intros seen k x Hk [Hle Hx]; cbn [scan].
  { rewrite app_nil_r. replace (1 + k - 1) with k by lia. by split. }
  pose proof (close_range p) as Hp. destruct (Z.eqb_spec (close p) 3) as [E|E].
  - assert (Forall (fun q => close q < 3) seen) by (eapply Forall_impl; [exact Hle|]; cbn; lia).
    split.
    + apply Forall_app. split; [eapply Forall_impl; [done|]; cbn; lia|].
      constructor; [lia|]. apply Forall_true. intros q. pose proof (close_range q). lia.
    + exists seen, p.1, ps. destruct p. split_and!; [done|exact E|lia|done].
  - rewrite (app_assoc seen [p] ps : seen ++ p :: ps = _). cbn [fst]. destruct (Z.leb_spec (1 + k) (close p)).
    + apply IH; [lia|]. split.
      * apply Forall_app. split; [eapply Forall_impl; [exact Hle|]; cbn; lia|]. by repeat constructor.
      * exists seen, p.1, []. destruct p. split_and!; [done|done|lia|]. eapply Forall_impl; [exact Hle|]. cbn. lia.
    + apply IH; [done|]. split.
      * apply Forall_app. split; [done|]. repeat constructor. lia.
      * destruct x as [r|]; [|done]. destruct Hx as (b & l & a & -> & Hc & H0 & Hb).
        exists b, l, (a ++ [p]). split_and!; [by rewrite <- app_assoc|done..].
Qed.

(** [match_address] picks the closest address: the answer belongs to the
    first pair of a local and a remote address, local by local, that has the
    longest common dotted prefix (up to three parts), and there is none exactly
    when no two agree in the first part. *)
Theorem match_address_best locals remotes :
  match match_address locals remotes with
  | None => forall l r, l ∈ locals -> r ∈ remotes -> closeness l r = 0
  | Some r => exists before l after, address_pairs locals remotes = before ++ (l, r) :: after /\
      0 < closeness l r /\ Forall (fun p => closeness p.1 p.2 < closeness l r) before /\
      Forall (fun p => closeness p.1 p.2 <= closeness l r) after
  end.
Proof.
  assert (match_address locals remotes = match_locals locals remotes (1, None)) as ->.
  { destruct remotes; [|done]. cbn. induction locals as [|l ls IH]; [done|]. cbn. destruct (quad (host l)); exact IH. }
  rewrite match_locals_scan by (cbn; lia).
  pose proof (scan_kept (address_pairs locals remotes) [] 0 None) as Hk. cbn [app] in Hk.
  change (1 + 0) with 1 in Hk.
  assert (forall k r, kept (address_pairs locals remotes) k (Some r) ->
    exists before l after, address_pairs locals remotes = before ++ (l, r) :: after /\ 0 < closeness l r /\
      Forall (fun p => close p < closeness l r) before /\ Forall (fun p => close p <= closeness l r) after) as Hs.
  { intros k r (Hle & b & l & a & E & <- & H0 & Hb). exists b, l, a. split_and!; [done..|].
    rewrite E in Hle. apply Forall_app in Hle as [_ Hle]. by apply Forall_cons in Hle as [_ Hle]. }
  destruct (scan _ _) as [r|[b [r|]]]; [by apply (Hs 3), Hk; [lia|split]|by apply (Hs (b - 1)), Hk; [lia|split]|].
  cbn. destruct Hk as [Hle E]; [lia|by split|]. intros l r Hl Hr. pose proof (closeness_range l r).
  rewrite Forall_forall in Hle. specialize (Hle (l, r)). unfold close in Hle. cbn in Hle.
  assert ((l, r) ∈ address_pairs locals remotes); [|by specialize (Hle H0); lia].
  apply list_elem_of_bind. exists l. split; [|done]. apply list_elem_of_fmap. by exists r.
Qed.

(** ** The probe loops *)
















(** ** The end of a punch *)




(** The strategies, for a puncher [q] that has started. *)
Section Strategies.
Context (flag : bool) (q : Holepuncher) (Hdone : hp_done q = false) (Hp : hp_punching q = true)
  (Hs : len (hp_sockets q) = 1).



End Strategies.


(** A receive task goes on until the initiator's first probe. *)
Lemma adapter_once socket flag addr flag' acts b :
  run_recv_adapter socket true flag addr = (flag', acts, b) ->
  flag' = true /\ (flag = true -> acts = []) /\ (flag = false -> acts = [HpEvent (HpConnected addr)] /\ b = false).
Proof. unfold run_recv_adapter. destruct flag; cbn; intros [= <- <- <-]; split_and!; done. Qed.

Module HolepuncherExamples.
End HolepuncherExamples.
Import HolepuncherExamples.

