(* ===== verification/ReplyCache.v ===== *)
(** * ReplyCache: the replies a server has given to recent handshakes
    ([HandshakeReplyCache] of [peeroxide/src/swarm.rs])

    Instants and durations are in milliseconds; every operation takes the time
    it reads.  The theorem relates the map and its queue to one list of live
    replies. *)

From S2P Require Import Prelude Crypto ToyCrypto.
From stdpp Require Import sorting.

#[local] Open Scope Z_scope.

(** [Instant::elapsed], which saturates at zero. *)
Definition elapsed_since (now t : Z) : Z := Z.max 0 (now - t).

Definition HANDSHAKE_REPLY_TTL : Z := 20 * 1000.
Definition HANDSHAKE_REPLY_CACHE_CAPACITY : Z := 1024.

Record HandshakeReplyCache := mkReplyCache {
  rp_ttl : Z;
  rp_capacity : Z;
  rp_entries : gmap (list Z) (list Z);
  rp_order : list (Z * list Z)
}.
Definition HandshakeReplyCache_new (ttl capacity : Z) : HandshakeReplyCache := mkReplyCache ttl capacity ∅ [].

(** [while let Some((at, key)) = order.front() { .. }] *)
Fixpoint prune_loop (now ttl : Z) (order : list (Z * list Z)) (entries : gmap (list Z) (list Z))
    : gmap (list Z) (list Z) * list (Z * list Z) :=
  match order with
  | [] => (entries, [])
  | (t, key) :: order' =>
      if elapsed_since now t <? ttl then (entries, order) else prune_loop now ttl order' (delete key entries)
  end.
(** A map of capacity 0 is empty already. *)
Definition HandshakeReplyCache_prune (now : Z) (c : HandshakeReplyCache) : HandshakeReplyCache :=
  let '(entries, order) := prune_loop now (rp_ttl c) (rp_order c) (rp_entries c) in
  mkReplyCache (rp_ttl c) (rp_capacity c) (match order with [] => ∅ | _ => entries end) order.

(** [while entries.len() >= capacity { pop_front .. }] *)
Fixpoint evict_loop (capacity : Z) (order : list (Z * list Z)) (entries : gmap (list Z) (list Z))
    : gmap (list Z) (list Z) * list (Z * list Z) :=
  match order with
  | [] => (entries, [])
  | (_, oldest) :: order' =>
      if Z.of_nat (size entries) <? capacity then (entries, order)
      else evict_loop capacity order' (delete oldest entries)
  end.

Section ReplyCache.
Context `{CryptoPrims}.

Definition HandshakeReplyCache_get (now : Z) (client_noise : list Z) (c : HandshakeReplyCache)
    : option (list Z) * HandshakeReplyCache :=
  let c := HandshakeReplyCache_prune now c in (rp_entries c !! hash client_noise, c).

Definition HandshakeReplyCache_insert (now : Z) (client_noise reply_noise : list Z) (c : HandshakeReplyCache)
    : HandshakeReplyCache :=
  let c := HandshakeReplyCache_prune now c in
  let key := hash client_noise in
  if bool_decide (is_Some (rp_entries c !! key)) || (rp_capacity c =? 0) then c
  else
    let '(entries, order) := evict_loop (rp_capacity c) (rp_order c) (rp_entries c) in
    mkReplyCache (rp_ttl c) (rp_capacity c) (<[key := reply_noise]> entries) (order ++ [(now, key)]).

(** ** The abstract cache: a list of replies, oldest first *)

Record Answer := mkAnswer { an_at : Z; an_key : list Z; an_reply : list Z }.

Definition fresh (now ttl : Z) (a : Answer) : Prop := now - an_at a < ttl.
#[global] Instance fresh_dec now ttl a : Decision (fresh now ttl a).
Proof. unfold fresh. apply _. Defined.

Definition spec_prune (now ttl : Z) (l : list Answer) : list Answer := filter (fresh now ttl) l.
Definition spec_lookup (key : list Z) (l : list Answer) : option (list Z) :=
  an_reply <$> head (filter (fun a => an_key a = key) l).
(** A new key comes last, and the oldest make room. *)
Definition spec_insert (now ttl capacity : Z) (key reply : list Z) (l : list Answer) : list Answer :=
  let l := spec_prune now ttl l in
  if bool_decide (is_Some (spec_lookup key l)) || (capacity =? 0) then l
  else drop (Z.to_nat (len l + 1 - capacity)) l ++ [mkAnswer now key reply].

Inductive CacheOp := OpGet (client_noise : list Z) | OpInsert (client_noise reply : list Z) | OpPrune.

Definition cache_step (now : Z) (op : CacheOp) (c : HandshakeReplyCache) : option (list Z) * HandshakeReplyCache :=
  match op with
  | OpGet m => HandshakeReplyCache_get now m c
  | OpInsert m r => (None, HandshakeReplyCache_insert now m r c)
  | OpPrune => (None, HandshakeReplyCache_prune now c)
  end.
Definition spec_step (ttl capacity now : Z) (op : CacheOp) (l : list Answer) : option (list Z) * list Answer :=
  match op with
  | OpGet m => let l := spec_prune now ttl l in (spec_lookup (hash m) l, l)
  | OpInsert m r => (None, spec_insert now ttl capacity (hash m) r l)
  | OpPrune => (None, spec_prune now ttl l)
  end.
(** What a run answers, with the state it ends in. *)
Fixpoint run_ops {S} (step : Z -> CacheOp -> S -> option (list Z) * S) (ops : list (Z * CacheOp)) (s : S)
    : list (option (list Z)) * S :=
  match ops with
  | [] => ([], s)
  | (now, op) :: ops =>
      let '(o, s) := step now op s in let '(os, s) := run_ops step ops s in (o :: os, s)
  end.

(** The map holds the replies of the list, the queue their times and keys; no key
    occurs twice, times do not decrease, and there is room for all. *)
Definition order_of (l : list Answer) : list (Z * list Z) := (fun a => (an_at a, an_key a)) <$> l.
Definition map_of (l : list Answer) : gmap (list Z) (list Z) := list_to_map ((fun a => (an_key a, an_reply a)) <$> l).
Record Listed (now : Z) (l : list Answer) : Prop := {
  ld_keys : NoDup (an_key <$> l);
  ld_sorted : StronglySorted Z.le (an_at <$> l);
  ld_past : Forall (fun a => an_at a <= now) l
}.
Record Implements (now : Z) (c : HandshakeReplyCache) (l : list Answer) : Prop := {
  im_order : rp_order c = order_of l;
  im_entries : rp_entries c = map_of l;
  im_listed : Listed now l;
  im_room : len l <= rp_capacity c
}.

Lemma Listed_suffix now k l : Listed now (k ++ l) -> Listed now l.
Proof.
  intros [Hk Hs Hp]. rewrite fmap_app in Hk. rewrite fmap_app in Hs. apply NoDup_app in Hk as (_ & _ & Hk).
  apply StronglySorted_app_1_r in Hs. by apply Forall_app in Hp as [_ Hp].
Qed.
Lemma Listed_later now now' l : now <= now' -> Listed now l -> Listed now' l.
Proof. intros Hn [? ? Hp]. split; [done..|]. eapply Forall_impl; [exact Hp|]. cbn. lia. Qed.

Lemma delete_head (a : Answer) (l : list Answer) :
  an_key a ∉ an_key <$> l ->
  delete (an_key a) (map_of (a :: l)) = map_of l.
Proof.
  intros Hn. unfold map_of. cbn. apply delete_insert_id. apply not_elem_of_list_to_map_1.
  by rewrite <- list_fmap_compose.
Qed.

Lemma spec_lookup_map key l :
  NoDup (an_key <$> l) ->
  map_of l !! key = spec_lookup key l.
Proof.
  unfold spec_lookup. induction l as [|a l IH]; intros Hn; [done|].
  rewrite fmap_cons in Hn. apply NoDup_cons in Hn as [Ha Hn]. unfold map_of in *; cbn [fmap list_fmap list_to_map foldr uncurry].
  rewrite filter_cons. destruct (decide (an_key a = key)) as [->|Hne]; [by rewrite lookup_insert_eq|].
  rewrite lookup_insert_ne by done. by apply IH.
Qed.

Lemma list_size l :
  NoDup (an_key <$> l) -> size (map_of l) = length l.
Proof.
  induction l as [|a l IH]; intros Hn; [done|].
  rewrite fmap_cons in Hn. apply NoDup_cons in Hn as [Ha Hn]. unfold map_of in *; cbn [fmap list_fmap list_to_map foldr uncurry].
  rewrite map_size_insert_None; [by rewrite IH|]. apply not_elem_of_list_to_map_1.
  by rewrite <- list_fmap_compose.
Qed.

(** Replies older than the ttl come first. *)
Lemma prune_loop_spec now ttl l :
  Listed now l ->
  prune_loop now ttl (order_of l) (map_of l) = (map_of (spec_prune now ttl l), order_of (spec_prune now ttl l)) /\
  exists k, l = k ++ spec_prune now ttl l.
Proof.
  unfold spec_prune. induction l as [|a l IH]; intros Hl; [by split; [|exists []]|].
  pose proof (Listed_suffix now [a] l Hl) as Hl'. destruct Hl as [Hk Hs Hp].
  rewrite fmap_cons in Hk. rewrite fmap_cons in Hs. apply NoDup_cons in Hk as [Hk _]. apply StronglySorted_inv in Hs as [_ Hs].
  apply Forall_cons in Hp as [Ha Hp]. cbn [order_of fmap list_fmap prune_loop]. rewrite filter_cons.
  unfold elapsed_since. rewrite Z.max_r by lia. destruct (decide (fresh now ttl a)) as [Hf|Hf]; unfold fresh in Hf.
  - rewrite (proj2 (Z.ltb_lt _ _)) by done.
    assert (filter (fresh now ttl) l = l) as ->.
    { clear -Hs Hf. induction l as [|b l IH]; [done|]. rewrite fmap_cons in Hs. apply Forall_cons in Hs as [Hb Hs].
      rewrite filter_cons, decide_True by (unfold fresh; lia). by rewrite IH. }
    split; [done|by exists []].
  - rewrite (proj2 (Z.ltb_ge _ _)) by lia. rewrite delete_head by done. destruct (IH Hl') as [E [k Ek]].
    split; [exact E|]. exists (a :: k). cbn. by rewrite <- Ek.
Qed.

Lemma evict_loop_spec now capacity l :
  0 < capacity -> Listed now l ->
  let l' := drop (Z.to_nat (len l + 1 - capacity)) l in
  evict_loop capacity (order_of l) (map_of l) = (map_of l', order_of l').
Proof.
  intros Hc. induction l as [|a l IH]; intros Hl; [by rewrite drop_nil|]. cbn zeta.
  cbn [order_of fmap list_fmap evict_loop]. rewrite list_size by apply Hl. cbn [length].
  destruct (Z.ltb_spec (Z.of_nat (S (length l))) capacity).
  - replace (Z.to_nat _) with O by (unfold len; cbn; lia). done.
  - rewrite delete_head by (destruct Hl as [Hk _ _]; rewrite fmap_cons in Hk; by apply NoDup_cons in Hk as [Hk _]).
    etransitivity; [exact (IH (Listed_suffix now [a] l Hl))|]. cbn zeta.
    replace (Z.to_nat (len (a :: l) + 1 - capacity)) with (S (Z.to_nat (len l + 1 - capacity))) by (unfold len; cbn; lia).
    done.
Qed.

Lemma prune_refines now now' c l :
  now <= now' -> Implements now c l ->
  Implements now' (HandshakeReplyCache_prune now' c) (spec_prune now' (rp_ttl c) l) /\
  rp_ttl (HandshakeReplyCache_prune now' c) = rp_ttl c /\
  rp_capacity (HandshakeReplyCache_prune now' c) = rp_capacity c.
Proof.
  intros Hn [Ho He Hl Hr]. apply (Listed_later now now') in Hl; [|done].
  unfold HandshakeReplyCache_prune. rewrite Ho, He.
  destruct (prune_loop_spec now' (rp_ttl c) l Hl) as [-> [k Ek]]. split; [|done].
  split; cbn [rp_order rp_entries rp_capacity].
  - done.
  - by destruct (spec_prune now' (rp_ttl c) l).
  - apply (Listed_suffix _ k). by rewrite <- Ek.
  - rewrite Ek in Hr. rewrite len_app in Hr. pose proof (len_nonneg k). lia.
Qed.

Lemma spec_lookup_none key l : spec_lookup key l = None -> key ∉ an_key <$> l.
Proof.
  unfold spec_lookup. intros Hf Hin. apply list_elem_of_fmap in Hin as (a & -> & Ha).
  assert (a ∈ filter (fun b => an_key b = an_key a) l) as Hm by (by apply list_elem_of_filter).
  destruct (filter _ l); [by apply not_elem_of_nil in Hm|done].
Qed.

Lemma Listed_snoc now key reply l :
  Listed now l -> key ∉ an_key <$> l -> Listed now (l ++ [mkAnswer now key reply]).
Proof.
  intros [Hk Hs Hp] Hn. split.
  - rewrite fmap_app. apply NoDup_app. split_and!; [done| |by apply NoDup_singleton].
    intros x Hx. by intros ->%list_elem_of_singleton.
  - rewrite fmap_app. apply StronglySorted_app_2; [|done|by repeat constructor].
    intros x y Hx ->%list_elem_of_singleton. apply list_elem_of_fmap in Hx as (a & -> & Ha).
    rewrite Forall_forall in Hp. by apply Hp.
  - apply Forall_app. split; [done|]. repeat constructor. cbn. lia.
Qed.

Lemma map_of_snoc a l : an_key a ∉ an_key <$> l -> map_of (l ++ [a]) = <[an_key a := an_reply a]> (map_of l).
Proof.
  intros Hn. unfold map_of. rewrite fmap_app. cbn. rewrite list_to_map_snoc; [done|].
  by rewrite <- list_fmap_compose.
Qed.

Lemma insert_refines now now' m r c l :
  now <= now' -> 0 <= rp_capacity c -> Implements now c l ->
  Implements now' (HandshakeReplyCache_insert now' m r c) (spec_insert now' (rp_ttl c) (rp_capacity c) (hash m) r l) /\
  rp_ttl (HandshakeReplyCache_insert now' m r c) = rp_ttl c /\
  rp_capacity (HandshakeReplyCache_insert now' m r c) = rp_capacity c.
Proof.
  intros Hn Hc Hi. destruct (prune_refines now now' c l Hn Hi) as (Hp & Et & Ec).
  unfold HandshakeReplyCache_insert, spec_insert. cbn zeta. set (c' := HandshakeReplyCache_prune now' c) in *.
  set (l0 := spec_prune now' (rp_ttl c) l) in *. destruct Hp as [Ho He Hl Hr].
  rewrite He, spec_lookup_map by apply Hl. rewrite Ec. destruct (_ || _) eqn:E; [by split_and!|].
  apply orb_false_iff in E as [Ek%bool_decide_eq_false Ez%Z.eqb_neq].
  rewrite Ho, (evict_loop_spec now') by (lia || done). cbn zeta.
  set (l1 := drop _ l0).
  assert (l0 = take (Z.to_nat (len l0 + 1 - rp_capacity c)) l0 ++ l1) as El1 by (symmetry; apply take_drop).
  assert (Listed now' l1) as Hl1 by (eapply Listed_suffix; by rewrite <- El1).
  assert (hash m ∉ an_key <$> l1) as Hm.
  { assert (hash m ∉ an_key <$> l0) as H0 by (apply spec_lookup_none; by destruct (spec_lookup _ l0); [destruct Ek|]).
    intros Hx. apply H0. rewrite El1, fmap_app. apply elem_of_app. by right. }
  split_and!; [split; cbn|done..].
  - unfold order_of. by rewrite fmap_app.
  - by rewrite (map_of_snoc (mkAnswer now' (hash m) r)).
  - by apply Listed_snoc.
  - unfold l1, len. rewrite length_app, length_drop. cbn. unfold len in Hr |- *. lia.
Qed.

Lemma step_refines now now' op c l :
  now <= now' -> 0 <= rp_capacity c -> Implements now c l ->
  let '(o, c') := cache_step now' op c in
  let '(o', l') := spec_step (rp_ttl c) (rp_capacity c) now' op l in
  o = o' /\ Implements now' c' l' /\ rp_ttl c' = rp_ttl c /\ rp_capacity c' = rp_capacity c.
Proof.
  intros Hn Hc Hi. destruct (prune_refines now now' c l Hn Hi) as (Hp & Et & Ec).
  destruct op as [m|m r|]; cbn [cache_step spec_step].
  - unfold HandshakeReplyCache_get. cbn zeta. split_and!; [|done..].
    destruct Hp as [_ -> Hl _]. apply spec_lookup_map, Hl.
  - destruct (insert_refines now now' m r c l Hn Hc Hi) as (? & ? & ?). by split_and!.
  - by split_and!.
Qed.

(** Clocks do not go back. *)
Fixpoint timely {A} (now : Z) (ops : list (Z * A)) : Prop :=
  match ops with [] => True | (t, _) :: ops => now <= t /\ timely t ops end.

Lemma run_refines now ops c l :
  timely now ops -> 0 <= rp_capacity c -> Implements now c l ->
  (run_ops cache_step ops c).1 = (run_ops (spec_step (rp_ttl c) (rp_capacity c)) ops l).1 /\
  rp_capacity (run_ops cache_step ops c).2 = rp_capacity c /\
  exists now', Implements now' (run_ops cache_step ops c).2 (run_ops (spec_step (rp_ttl c) (rp_capacity c)) ops l).2.
Proof.
  revert now c l. induction ops as [|[t op] ops IH]; intros now c l Ht Hc Hi; [by split_and!; [..|exists now]|].
  destruct Ht as [Hn Ht]. cbn [run_ops]. pose proof (step_refines now t op c l Hn Hc Hi) as Hs.
  destruct (cache_step t op c) as [o c'], (spec_step _ _ t op l) as [o' l']. destruct Hs as (-> & Hi' & Et & Ec).
  specialize (IH t c' l' Ht ltac:(lia) Hi'). rewrite Et, Ec in IH.
  destruct (run_ops cache_step ops c') as [os c2], (run_ops _ ops l') as [os' l2]. cbn [fst snd] in *.
  destruct IH as (-> & Ec2 & Hi2). split_and!; [done|congruence|done].
Qed.

Lemma new_implements now ttl capacity : 0 <= capacity -> Implements now (HandshakeReplyCache_new ttl capacity) [].
Proof. intros Hc. split; [done..| |done]. split; [constructor|constructor|done]. Qed.

(** C25: the map and queue of the reply cache behave as one list of replies: in
    every run of lookups, insertions and sweeps whose clock does not go back,
    each lookup answers with the live reply first recorded for that message, if
    the list has it, where the list forgets replies older than the ttl and, when
    full, the oldest first; and at the end map and queue still hold exactly the
    keys, times and replies of the list, within the capacity. *)
Theorem reply_cache_refines now ttl capacity ops :
  0 <= capacity -> timely now ops ->
  let '(os, c) := run_ops cache_step ops (HandshakeReplyCache_new ttl capacity) in
  let '(os', l) := run_ops (spec_step ttl capacity) ops [] in
  os = os' /\ rp_order c = order_of l /\ rp_entries c = map_of l /\ NoDup (an_key <$> l) /\
  (size (rp_entries c) <= Z.to_nat capacity)%nat.
Proof.
  intros Hc Ht. pose proof (new_implements now ttl capacity Hc) as H0.
  destruct (run_refines now ops (HandshakeReplyCache_new ttl capacity) [] Ht Hc H0) as (E & Hcap & now' & Hi).
  cbn [rp_ttl rp_capacity HandshakeReplyCache_new] in *.
  destruct (run_ops cache_step ops _) as [os c], (run_ops _ ops []) as [os' l]. cbn [fst snd] in *.
  destruct Hi as [Ho He Hl Hr]. split_and!; [done..|apply Hl|]. rewrite He, list_size by apply Hl.
  unfold len in Hr. lia.
Qed.

(** ** The first reply wins *)

Definition inserts (ops : list (Z * CacheOp)) : Z :=
  len (filter (fun op => (match op.2 with OpInsert _ _ => true | _ => false end) = true) ops).

(** The list still has [a] among its newest. *)
Definition holds (a : Answer) (n : Z) (l : list Answer) : Prop :=
  exists k l', l = k ++ a :: l' /\ len l' <= n /\ (an_key a ∉ an_key <$> k) /\ (an_key a ∉ an_key <$> l').

Lemma holds_lookup a n l : holds a n l -> spec_lookup (an_key a) l = Some (an_reply a).
Proof.
  intros (k & l' & -> & _ & Hk & _). unfold spec_lookup. rewrite filter_app.
  assert (filter (fun b => an_key b = an_key a) k = []) as ->.
  { induction k as [|b k IH]; [done|]. rewrite fmap_cons in Hk.
    apply not_elem_of_cons in Hk as [Hb Hk]. rewrite filter_cons, decide_False by done. by apply IH. }
  cbn [app]. by rewrite filter_cons, decide_True.
Qed.

Lemma holds_prune a n l now ttl : fresh now ttl a -> holds a n l -> holds a n (spec_prune now ttl l).
Proof.
  intros Hf (k & l' & -> & Hn & Hk & Hl). exists (spec_prune now ttl k), (spec_prune now ttl l'). unfold spec_prune.
  rewrite filter_app, filter_cons, decide_True by done.
  pose proof (length_filter (fresh now ttl) l'). split_and!; [done|unfold len in *; lia|..].
  - intros (b & E & Hb)%list_elem_of_fmap. apply list_elem_of_filter in Hb as [_ Hb]. apply Hk, list_elem_of_fmap. eauto.
  - intros (b & E & Hb)%list_elem_of_fmap. apply list_elem_of_filter in Hb as [_ Hb]. apply Hl, list_elem_of_fmap. eauto.
Qed.

Lemma holds_step a n l t ttl capacity op :
  fresh t ttl a -> n + 1 < capacity -> holds a n l ->
  holds a (n + inserts [(t, op)]) (spec_step ttl capacity t op l).2.
Proof.
  intros Hf Hc Hh. apply (holds_prune a n l t ttl Hf) in Hh.
  destruct op as [m|m r|]; cbn [spec_step snd].
  - change (inserts _) with 0. by rewrite Z.add_0_r.
  - change (inserts _) with 1. unfold spec_insert. cbn zeta. set (l0 := spec_prune t ttl l) in *.
    destruct Hh as (k & l' & E & Hn & Hk & Hl).
    destruct (_ || _) eqn:Eb; [exists k, l'; split_and!; [done|lia|done..]|].
    apply orb_false_iff in Eb as [Ek%bool_decide_eq_false _].
    assert (hash m <> an_key a) as Hne.
    { intros E'. apply Ek. exists (an_reply a). rewrite E'. apply (holds_lookup a n). by exists k, l'. }
    rewrite E. set (d := Z.to_nat _).
    assert (d <= length k)%nat by (unfold d, len in *; rewrite length_app; cbn; lia).
    exists (drop d k), (l' ++ [mkAnswer t (hash m) r]). rewrite drop_app_le, <- app_assoc by done.
    split_and!; [done|lens; lia|..].
    + intros Hx. apply Hk. pose proof (take_drop d k) as Ed. rewrite <- Ed, fmap_app. apply elem_of_app. by right.
    + rewrite fmap_app. intros [Hx|Hx%list_elem_of_singleton]%elem_of_app; [by apply Hl|by apply Hne].
  - change (inserts _) with 0. by rewrite Z.add_0_r.
Qed.
End ReplyCache.

#[local] Existing Instance tail_crypto.

(** Two replies fit; the third evicts the first; the second is still given, and
    forgotten after twenty seconds. *)
Definition cache_ops : list (Z * CacheOp) :=
  [(0, OpInsert [1] [10]); (1, OpInsert [2] [20]); (2, OpGet [1]); (3, OpInsert [2] [99]); (4, OpInsert [3] [30]);
   (5, OpGet [1]); (6, OpGet [2]); (20001, OpGet [2]); (20003, OpGet [3])].
Lemma reply_cache_refines_witness :
  let '(os, c) := run_ops cache_step cache_ops (HandshakeReplyCache_new HANDSHAKE_REPLY_TTL 2) in
  let '(os', l) := run_ops (spec_step HANDSHAKE_REPLY_TTL 2) cache_ops [] in
  os = os' /\ rp_order c = order_of l /\ rp_entries c = map_of l /\ NoDup (an_key <$> l) /\
  (size (rp_entries c) <= Z.to_nat 2)%nat.
Proof. apply (reply_cache_refines 0 HANDSHAKE_REPLY_TTL 2 cache_ops); [lia|]. cbn. lia. Defined.
Lemma cache_ops_answers :
  (run_ops cache_step cache_ops (HandshakeReplyCache_new HANDSHAKE_REPLY_TTL 2)).1 =
  [None; None; Some [10]; None; None; None; Some [20]; None; Some [30]].
Proof. vm_compute. reflexivity. Qed.
