(* ===== verification/Swarm.v ===== *)
(** * Swarm: the swarm actor
    ([peeroxide/src/swarm.rs], [peer_info.rs], [connection_set.rs])

    [SwarmActor] is the state of the actor; each handler is a function on it.
    What a handler starts or sends (tasks, timers, replies, calls on the DHT
    handle) is appended to [sw_effects], which the source does not keep.  Reply
    channels are numbers, sockets and streams are numbers, instants and durations
    are in milliseconds; the answers of the DHT node, of the sockets and of the
    random generator are arguments.  [NEXT_STREAM_ID] is part of the state.  A
    handler that panics ends the actor: [Panic]. *)

From S2P Require Import Prelude RustStd CompactEncoding Codec Messages HyperdhtMessages Crypto Noise NoiseWrap Secretstream Pipes SecretSession Query Router NatClassifier Holepuncher ReplyCache.

#[local] Open Scope Z_scope.

(** ** peer_info.rs *)

Definition PROVEN_THRESHOLD_SECS : Z := 15.

Inductive Priority := VeryLow | Low | Normal | High | VeryHigh.
(** The discriminants, which the derived order compares. *)
Definition priority_rank (p : Priority) : Z :=
  match p with VeryLow => 0 | Low => 1 | Normal => 2 | High => 3 | VeryHigh => 4 end.

Record PeerInfo := mkPeerInfo {
  pi_public_key : list Z;
  pi_relay_addresses : list Ipv4Peer;
  pi_reconnecting : bool;
  pi_proven : bool;
  pi_banned : bool;
  pi_queued : bool;
  pi_connecting : bool;
  pi_explicit : bool;
  pi_topics : list (list Z);
  pi_attempts : Z;
  pi_priority : Priority;
  pi_connected_at : option Z;
  pi_waiting : bool
}.
Definition PeerInfo_new (public_key : list Z) (relay_addresses : list Ipv4Peer) : PeerInfo :=
  mkPeerInfo public_key relay_addresses false false false false false false [] 0 Normal None false.

Definition get_priority (i : PeerInfo) : Priority :=
  if pi_attempts i =? 0 then Normal
  else if pi_attempts i =? 1 then if pi_proven i then VeryHigh else Normal
  else if pi_attempts i =? 2 then if pi_proven i then High else Low
  else if pi_attempts i =? 3 then Low
  else VeryLow.

Definition PeerInfo_connected (now : Z) (i : PeerInfo) : PeerInfo :=
  mkPeerInfo (pi_public_key i) (pi_relay_addresses i) false (pi_proven i) (pi_banned i) (pi_queued i) (pi_connecting i)
    (pi_explicit i) (pi_topics i) (pi_attempts i) (pi_priority i) (Some now) (pi_waiting i).
Definition PeerInfo_disconnected (now : Z) (i : PeerInfo) : PeerInfo :=
  match pi_connected_at i with
  | Some t =>
      if PROVEN_THRESHOLD_SECS <=? elapsed_since now t / 1000 then
        mkPeerInfo (pi_public_key i) (pi_relay_addresses i) true true (pi_banned i) (pi_queued i) (pi_connecting i)
          (pi_explicit i) (pi_topics i) 0 (pi_priority i) (pi_connected_at i) (pi_waiting i)
      else i
  | None => i
  end.
Definition should_gc (i : PeerInfo) : bool :=
  if pi_banned i || pi_queued i || pi_explicit i || pi_waiting i then false
  else match pi_topics i with [] => true | _ => false end.

(** Field updates. *)
Definition set_queue_flags queued connecting attempts priority i := mkPeerInfo (pi_public_key i) (pi_relay_addresses i)
  (pi_reconnecting i) (pi_proven i) (pi_banned i) queued connecting (pi_explicit i) (pi_topics i) attempts priority
  (pi_connected_at i) (pi_waiting i).
Definition set_waiting w i := mkPeerInfo (pi_public_key i) (pi_relay_addresses i) (pi_reconnecting i) (pi_proven i)
  (pi_banned i) (pi_queued i) (pi_connecting i) (pi_explicit i) (pi_topics i) (pi_attempts i) (pi_priority i)
  (pi_connected_at i) w.
Definition set_known relays topics i := mkPeerInfo (pi_public_key i) relays (pi_reconnecting i) (pi_proven i)
  (pi_banned i) (pi_queued i) (pi_connecting i) (pi_explicit i) topics (pi_attempts i) (pi_priority i)
  (pi_connected_at i) (pi_waiting i).

(** ** connection_set.rs: keys, and who initiated *)

Abbreviation ConnectionSet := (gmap (list Z) bool).
Definition ConnectionSet_has (pk : list Z) (c : ConnectionSet) : bool := bool_decide (is_Some (c !! pk)).
Definition ConnectionSet_len (c : ConnectionSet) : Z := Z.of_nat (size c).

(** ** Retry delays *)

Definition BACKOFF_S : Z * Z * Z * Z := (1000, 250, 100, 50).
Definition BACKOFF_M : Z * Z * Z * Z := (5000, 1000, 500, 250).
Definition BACKOFF_L : Z * Z * Z * Z := (15000, 5000, 2500, 1000).
Definition BACKOFF_X : Z * Z * Z * Z := (600000, 60000, 30000, 15000).

Definition retry_tier (info : PeerInfo) : Z * Z * Z * Z :=
  let idx := Z.min 3 (if pi_proven info then pi_attempts info else as_u32 (pi_attempts info + 1)) in
  if idx =? 0 then BACKOFF_S else if idx =? 1 then BACKOFF_M else if idx =? 2 then BACKOFF_L else BACKOFF_X.
(** [jitter] draws a number below its bound. *)
Definition retry_delay (jitter : Z -> Z) (info : PeerInfo) : Z :=
  let '(base, j1, j2, j3) := retry_tier info in base + (jitter j1 + jitter j2 + jitter j3).

(** ** The state *)

Definition DEFAULT_MAX_PEERS : Z := 64.
Definition DEFAULT_MAX_PARALLEL : Z := 3.
Definition CONNECTION_CHANNEL : Z := 64.

(** [cancel_tx] is there or not. *)
Record TopicState := mkTopic { ts_is_server : bool; ts_is_client : bool; ts_cancel : bool; ts_refreshed : bool }.

(** The configuration and identity, which do not change; [relay_address] as the
    text of its address and its port. *)
Record ActorConfig := mkActorConfig {
  ac_key_pair : KeyPair;
  ac_max_peers : Z;
  ac_max_parallel : Z;
  ac_firewall : Z;
  ac_relay_through : option (list Z);
  ac_relay_address : option Ipv4Peer;
  ac_local_connection : bool
}.

Record InFlightHolepunch := mkInFlight {
  fl_remote_pk : list Z;
  fl_payload : SecurePayload;
  fl_puncher : option Holepuncher;
  fl_udx_stream : Z;
  fl_udx_socket : Z;
  fl_noise_result : NoiseWrapResult;
  fl_round : Z;
  fl_local_punch_addrs : list Ipv4Peer
}.

Record HolepunchSetup := mkSetup {
  su_id : Z;
  su_puncher_port : Z;
  su_puncher : Holepuncher;
  su_udx_stream : Z;
  su_udx_socket : Z
}.

Record SwarmConnection := mkConnection { cn_peer : list Z; cn_is_initiator : bool; cn_topics : list (list Z) }.

(** How a spawned task opens the server side of a connection. *)
Inductive ServerTask :=
| ThroughRelay (relay_pk : list Z) (relay_addr : option Ipv4Peer) (token : list Z) (nr : NoiseWrapResult)
| Direct (local_stream_id : Z) (remote_udx : UdxInfo) (client_address : Ipv4Peer) (dial : bool) (nr : NoiseWrapResult)
| Punched (udx_stream udx_socket : Z) (addr : SocketAddr) (nr : NoiseWrapResult).

Inductive SwarmEffect :=
| SwRegister (target : list Z)
| SwUnregister (target : list Z)
| SwDiscover (topic : list Z) (is_server is_client : bool) (relay_addresses : list Ipv4Peer)
| SwCancel (topic : list Z)
| SwDial (pk : list Z) (relay_addrs : list Ipv4Peer) (local_connection : bool)
| SwRetry (delay : Z) (pk : list Z) (relay_addresses : list Ipv4Peer) (topic : list Z)
| SwAnswer (waiter : Z)
| SwReply (reply : option (list Z))
| SwServe (pk : list Z) (task : ServerTask)
| SwArm (id : Z)
| SwDisarm (id : Z)
| SwPunch (id : Z) (puncher : Holepuncher)
| SwDestroyed (puncher : Holepuncher)
| SwDhtDestroy.

(** The channel of established connections: what it holds, and whether its
    receiver is gone. *)
Record ConnChannel := mkChannel { ch_held : list SwarmConnection; ch_closed : bool }.

(** An entry of [connects] is present exactly while its [abort_task] is. *)
Record SwarmActor := mkSwarm {
  sw_config : ActorConfig;
  sw_local_port : Z;
  sw_topics : gmap (list Z) TopicState;
  sw_peers : gmap (list Z) PeerInfo;
  sw_connections : ConnectionSet;
  sw_queue : list (list Z);
  sw_channel : ConnChannel;
  sw_server_registered : bool;
  sw_active_connects : Z;
  sw_flush_waiters : list Z;
  sw_connects : gmap Z InFlightHolepunch;
  sw_pending_handshakes : gmap (list Z) Z;
  sw_next_holepunch_id : Z;
  sw_replies : HandshakeReplyCache;
  sw_next_stream : Z;
  sw_effects : list SwarmEffect
}.

(** Field updates. *)
Definition set_sw_topics x s := mkSwarm (sw_config s) (sw_local_port s) x (sw_peers s) (sw_connections s)
  (sw_queue s) (sw_channel s) (sw_server_registered s) (sw_active_connects s) (sw_flush_waiters s) (sw_connects s)
  (sw_pending_handshakes s) (sw_next_holepunch_id s) (sw_replies s) (sw_next_stream s) (sw_effects s).
Definition set_sw_peers x s := mkSwarm (sw_config s) (sw_local_port s) (sw_topics s) x (sw_connections s)
  (sw_queue s) (sw_channel s) (sw_server_registered s) (sw_active_connects s) (sw_flush_waiters s) (sw_connects s)
  (sw_pending_handshakes s) (sw_next_holepunch_id s) (sw_replies s) (sw_next_stream s) (sw_effects s).
Definition set_sw_connections x s := mkSwarm (sw_config s) (sw_local_port s) (sw_topics s) (sw_peers s) x
  (sw_queue s) (sw_channel s) (sw_server_registered s) (sw_active_connects s) (sw_flush_waiters s) (sw_connects s)
  (sw_pending_handshakes s) (sw_next_holepunch_id s) (sw_replies s) (sw_next_stream s) (sw_effects s).
Definition set_sw_queue x s := mkSwarm (sw_config s) (sw_local_port s) (sw_topics s) (sw_peers s)
  (sw_connections s) x (sw_channel s) (sw_server_registered s) (sw_active_connects s) (sw_flush_waiters s)
  (sw_connects s) (sw_pending_handshakes s) (sw_next_holepunch_id s) (sw_replies s) (sw_next_stream s) (sw_effects
  s).
Definition set_sw_channel x s := mkSwarm (sw_config s) (sw_local_port s) (sw_topics s) (sw_peers s)
  (sw_connections s) (sw_queue s) x (sw_server_registered s) (sw_active_connects s) (sw_flush_waiters s)
  (sw_connects s) (sw_pending_handshakes s) (sw_next_holepunch_id s) (sw_replies s) (sw_next_stream s) (sw_effects
  s).
Definition set_sw_registered x s := mkSwarm (sw_config s) (sw_local_port s) (sw_topics s) (sw_peers s)
  (sw_connections s) (sw_queue s) (sw_channel s) x (sw_active_connects s) (sw_flush_waiters s) (sw_connects s)
  (sw_pending_handshakes s) (sw_next_holepunch_id s) (sw_replies s) (sw_next_stream s) (sw_effects s).
Definition set_sw_active x s := mkSwarm (sw_config s) (sw_local_port s) (sw_topics s) (sw_peers s)
  (sw_connections s) (sw_queue s) (sw_channel s) (sw_server_registered s) x (sw_flush_waiters s) (sw_connects s)
  (sw_pending_handshakes s) (sw_next_holepunch_id s) (sw_replies s) (sw_next_stream s) (sw_effects s).
Definition set_sw_waiters x s := mkSwarm (sw_config s) (sw_local_port s) (sw_topics s) (sw_peers s)
  (sw_connections s) (sw_queue s) (sw_channel s) (sw_server_registered s) (sw_active_connects s) x (sw_connects s)
  (sw_pending_handshakes s) (sw_next_holepunch_id s) (sw_replies s) (sw_next_stream s) (sw_effects s).
Definition set_sw_connects x s := mkSwarm (sw_config s) (sw_local_port s) (sw_topics s) (sw_peers s)
  (sw_connections s) (sw_queue s) (sw_channel s) (sw_server_registered s) (sw_active_connects s) (sw_flush_waiters
  s) x (sw_pending_handshakes s) (sw_next_holepunch_id s) (sw_replies s) (sw_next_stream s) (sw_effects s).
Definition set_sw_pending x s := mkSwarm (sw_config s) (sw_local_port s) (sw_topics s) (sw_peers s)
  (sw_connections s) (sw_queue s) (sw_channel s) (sw_server_registered s) (sw_active_connects s) (sw_flush_waiters
  s) (sw_connects s) x (sw_next_holepunch_id s) (sw_replies s) (sw_next_stream s) (sw_effects s).
Definition set_sw_next_id x s := mkSwarm (sw_config s) (sw_local_port s) (sw_topics s) (sw_peers s)
  (sw_connections s) (sw_queue s) (sw_channel s) (sw_server_registered s) (sw_active_connects s) (sw_flush_waiters
  s) (sw_connects s) (sw_pending_handshakes s) x (sw_replies s) (sw_next_stream s) (sw_effects s).
Definition set_sw_replies x s := mkSwarm (sw_config s) (sw_local_port s) (sw_topics s) (sw_peers s)
  (sw_connections s) (sw_queue s) (sw_channel s) (sw_server_registered s) (sw_active_connects s) (sw_flush_waiters
  s) (sw_connects s) (sw_pending_handshakes s) (sw_next_holepunch_id s) x (sw_next_stream s) (sw_effects s).
Definition set_sw_next_stream x s := mkSwarm (sw_config s) (sw_local_port s) (sw_topics s) (sw_peers s)
  (sw_connections s) (sw_queue s) (sw_channel s) (sw_server_registered s) (sw_active_connects s) (sw_flush_waiters
  s) (sw_connects s) (sw_pending_handshakes s) (sw_next_holepunch_id s) (sw_replies s) x (sw_effects s).
Definition set_sw_effects x s := mkSwarm (sw_config s) (sw_local_port s) (sw_topics s) (sw_peers s)
  (sw_connections s) (sw_queue s) (sw_channel s) (sw_server_registered s) (sw_active_connects s) (sw_flush_waiters
  s) (sw_connects s) (sw_pending_handshakes s) (sw_next_holepunch_id s) (sw_replies s) (sw_next_stream s) x.

Definition emit (e : SwarmEffect) (s : SwarmActor) : SwarmActor := set_sw_effects (sw_effects s ++ [e]) s.
Definition upd_peer (f : PeerInfo -> PeerInfo) (pk : list Z) (s : SwarmActor) : SwarmActor :=
  set_sw_peers (alter f pk (sw_peers s)) s.
Definition own_key (s : SwarmActor) : list Z := kp_public_key (ac_key_pair (sw_config s)).

(** The actor [spawn] starts; the stream counter starts at 1. *)
Definition SwarmActor_new (config : ActorConfig) (primary_socket_port : Z) : SwarmActor :=
  mkSwarm config primary_socket_port ∅ ∅ ∅ [] (mkChannel [] false) false 0 [] ∅ ∅ 0
    (HandshakeReplyCache_new HANDSHAKE_REPLY_TTL HANDSHAKE_REPLY_CACHE_CAPACITY) 1 [].

(** [Vec<u8>]'s order, for [>] on public keys. *)
Fixpoint bytes_gtb (a b : list Z) : bool :=
  match a, b with
  | [], _ => false
  | _ :: _, [] => true
  | x :: a, y :: b => (y <? x) || ((x =? y) && bytes_gtb a b)
  end.

(** ** Commands *)

Section Swarm.
Context `{CryptoPrims}.

Definition all_topics_refreshed (s : SwarmActor) : bool :=
  negb (bool_decide (sw_topics s = ∅)) && bool_decide (map_Forall (fun _ t => ts_refreshed t = true) (sw_topics s)).

Definition do_join (topic : list Z) (server client : bool) (s : SwarmActor) : SwarmActor :=
  if bool_decide (is_Some (sw_topics s !! topic)) then s
  else
    let s := if server && negb (sw_server_registered s)
             then set_sw_registered true (emit (SwRegister (hash (own_key s))) s) else s in
    let relay_addresses := match ac_relay_address (sw_config s) with Some a => [a] | None => [] end in
    let s := emit (SwDiscover topic server client relay_addresses) s in
    set_sw_topics (<[topic := mkTopic server client true false]> (sw_topics s)) s.

Definition unregister (s : SwarmActor) : SwarmActor :=
  set_sw_registered false (emit (SwUnregister (hash (own_key s))) s).

Definition do_leave (topic : list Z) (s : SwarmActor) : SwarmActor :=
  match sw_topics s !! topic with
  | None => s
  | Some state =>
      let s := set_sw_topics (delete topic (sw_topics s)) s in
      let s := if ts_cancel state then emit (SwCancel topic) s else s in
      let s := set_sw_peers ((fun i => set_known (pi_relay_addresses i) (filter (fun t => t <> topic) (pi_topics i)) i)
                 <$> sw_peers s) s in
      if ts_is_server state && sw_server_registered s then
        let has_remaining_server_topics :=
          negb (bool_decide (map_Forall (fun _ t => ts_is_server t = false) (sw_topics s))) in
        if has_remaining_server_topics then s else unregister s
      else s
  end.

Inductive SwarmCommand :=
| SwJoin (topic : list Z) (server client : bool) (reply : Z)
| SwLeave (topic : list Z) (reply : Z)
| SwFlush (reply : Z)
| SwDestroy (reply : Z).

(** Whether the actor should shut down, and the state. *)
Definition swarm_command (cmd : SwarmCommand) (s : SwarmActor) : bool * SwarmActor :=
  match cmd with
  | SwJoin topic server client reply => (false, emit (SwAnswer reply) (do_join topic server client s))
  | SwLeave topic reply => (false, emit (SwAnswer reply) (do_leave topic s))
  | SwFlush reply =>
      (false, if all_topics_refreshed s then emit (SwAnswer reply) s
              else set_sw_waiters (sw_flush_waiters s ++ [reply]) s)
  | SwDestroy reply =>
      let s := if sw_server_registered s then unregister s else s in (true, emit (SwAnswer reply) s)
  end.

(** After the loop: discovery is cancelled, the server unregistered, the node
    destroyed. *)
Definition swarm_shutdown (s : SwarmActor) : SwarmActor :=
  let s := foldl (fun s t => if ts_cancel t.2 then emit (SwCancel t.1) s else s) s (map_to_list (sw_topics s)) in
  let s := set_sw_topics ∅ s in
  emit SwDhtDestroy (if sw_server_registered s then unregister s else s).

(** ** Outgoing connections *)

(** [queue.sort_by(|a, b| pb.cmp(&pa))]: stable, highest priority first. *)
Definition queue_rank (peers : gmap (list Z) PeerInfo) (pk : list Z) : Z :=
  priority_rank (match peers !! pk with Some i => pi_priority i | None => VeryLow end).
Fixpoint insert_ranked (rank : list Z -> Z) (x : list Z) (l : list (list Z)) : list (list Z) :=
  match l with
  | [] => [x]
  | y :: l' => if rank x <? rank y then y :: insert_ranked rank x l' else x :: l
  end.
Definition sort_queue (rank : list Z -> Z) (l : list (list Z)) : list (list Z) := foldr (insert_ranked rank) [] l.

Definition start_dial (pk : list Z) (s : SwarmActor) : SwarmActor :=
  let relay_addrs := match sw_peers s !! pk with Some i => pi_relay_addresses i | None => [] end in
  let s := upd_peer (fun i => set_queue_flags false true (as_u32 (pi_attempts i + 1)) (pi_priority i) i) pk s in
  emit (SwDial pk relay_addrs (ac_local_connection (sw_config s))) (set_sw_active (sw_active_connects s + 1) s).

(** The queue shrinks with every turn of the loop. *)
Fixpoint attempt_loop (fuel : nat) (s : SwarmActor) : SwarmActor :=
  match fuel with
  | O => s
  | S fuel =>
      if sw_active_connects s <? ac_max_parallel (sw_config s) then
        match sort_queue (queue_rank (sw_peers s)) (sw_queue s) with
        | [] => s
        | pk :: queue => attempt_loop fuel (start_dial pk (set_sw_queue queue s))
        end
      else s
  end.
Definition attempt_connections (s : SwarmActor) : SwarmActor := attempt_loop (length (sw_queue s)) s.

Definition check_flush_waiters (s : SwarmActor) : SwarmActor :=
  if all_topics_refreshed s then
    set_sw_waiters [] (foldl (fun s w => emit (SwAnswer w) s) s (sw_flush_waiters s))
  else s.

Inductive DiscoveryEvent :=
| PeerFound (public_key : list Z) (relay_addresses : list Ipv4Peer) (topic : list Z)
| RefreshComplete (topic : list Z).

Definition handle_discovery_event (event : DiscoveryEvent) (s : SwarmActor) : SwarmActor :=
  match event with
  | PeerFound public_key relay_addresses topic =>
      if bool_decide (public_key = own_key s) then s
      else if ConnectionSet_has public_key (sw_connections s) then s
      else if ac_max_peers (sw_config s) <=? ConnectionSet_len (sw_connections s) then s
      else
        let info := default (PeerInfo_new public_key relay_addresses) (sw_peers s !! public_key) in
        let relays := match relay_addresses with [] => pi_relay_addresses info | _ => relay_addresses end in
        let topics := if bool_decide (topic ∈ pi_topics info) then pi_topics info else pi_topics info ++ [topic] in
        let info := set_known relays topics info in
        if negb (pi_queued info) && negb (pi_connecting info) && negb (pi_banned info) && negb (pi_waiting info) then
          let info := set_queue_flags true (pi_connecting info) (pi_attempts info) (get_priority info) info in
          set_sw_queue (sw_queue s ++ [public_key]) (set_sw_peers (<[public_key := info]> (sw_peers s)) s)
        else set_sw_peers (<[public_key := info]> (sw_peers s)) s
  | RefreshComplete topic =>
      let s := set_sw_topics (alter (fun t => mkTopic (ts_is_server t) (ts_is_client t) (ts_cancel t) true) topic
                 (sw_topics s)) s in
      check_flush_waiters (attempt_connections s)
  end.

(** [jitter]: the draws of [retry_delay]. *)
Definition schedule_retry (jitter : Z -> Z) (pk : list Z) (s : SwarmActor) : SwarmActor :=
  match sw_peers s !! pk with
  | None => s
  | Some info =>
      match pi_banned info, pi_topics info with
      | false, topic :: _ =>
          emit (SwRetry (retry_delay jitter info) pk (pi_relay_addresses info) topic) (upd_peer (set_waiting true) pk s)
      | _, _ => s
      end
  end.

(** [conn_tx.try_send(..)]: a full or closed channel drops the connection. *)
Definition conn_try_send (c : SwarmConnection) (s : SwarmActor) : SwarmActor :=
  if ch_closed (sw_channel s) || (CONNECTION_CHANNEL <=? len (ch_held (sw_channel s))) then s
  else set_sw_channel (mkChannel (ch_held (sw_channel s) ++ [c]) false) s.

(** [ok]: whether the dial succeeded. *)
Definition handle_connect_result (now : Z) (jitter : Z -> Z) (pk : list Z) (ok : bool) (s : SwarmActor) : SwarmActor :=
  let s := set_sw_active (Z.max 0 (sw_active_connects s - 1)) s in
  let s := upd_peer (fun i => set_queue_flags (pi_queued i) false (pi_attempts i) (pi_priority i) i) pk s in
  if ok then
    let we_are_dominant := bytes_gtb (own_key s) pk in
    if match sw_connections s !! pk with Some is_initiator => eqb is_initiator we_are_dominant | None => false end then s
    else
      let s := set_sw_connections (<[pk := true]> (delete pk (sw_connections s))) s in
      let topics := match sw_peers s !! pk with Some i => pi_topics i | None => [] end in
      let s := upd_peer (PeerInfo_connected now) pk s in
      attempt_connections (conn_try_send (mkConnection pk true topics) s)
  else attempt_connections (schedule_retry jitter pk s).

(** [server_failure_rx]: the slot goes by its key. *)
Definition handle_server_failure (pk : list Z) (s : SwarmActor) : SwarmActor :=
  set_sw_connections (delete pk (sw_connections s)) s.

(** ** peer_discovery.rs *)

Definition REFRESH_INTERVAL : Z := 600 * 1000.
Definition REFRESH_JITTER_MS : Z := 120000.
(** The pause between two refreshes. *)
Definition refresh_delay (jitter : Z -> Z) : Z := REFRESH_INTERVAL + jitter REFRESH_JITTER_MS.

(** The announcements of a refresh, by target and relays, and the events it
    sends; [lookup]: the peers of each answer, or the failure of the lookup. *)
Definition do_refresh (topic : list Z) (is_server is_client : bool) (key_pair : KeyPair)
    (relay_addresses current_relay_addresses : list Ipv4Peer) (lookup : option (list (list HyperPeer)))
    : list (list Z * list Ipv4Peer) * list DiscoveryEvent :=
  let announcements :=
    if is_server then
      let topic_relays := match relay_addresses with [] => current_relay_addresses | _ => relay_addresses end in
      [(topic, topic_relays); (hash (kp_public_key key_pair), relay_addresses)]
    else [] in
  let found :=
    if is_client then
      results ← default [] lookup; (fun peer => PeerFound (hp_public_key peer) (hp_relay_addresses peer) topic) <$> results
    else [] in
  (announcements, found ++ [RefreshComplete topic]).
End Swarm.
