(* ===== verification/SwarmServer.v ===== *)
(** * SwarmServer: the server side of the swarm actor, and its loop
    ([peeroxide/src/swarm.rs])

    Handshakes, the passive hole punch, the tasks that open server connections,
    and the turns of [SwarmActor::run]. *)

From S2P Require Import Prelude RustStd CompactEncoding Codec Messages HyperdhtMessages Crypto Noise NoiseWrap Secretstream Pipes SecretSession Query Router NatClassifier Holepuncher ReplyCache Swarm.

#[local] Open Scope Z_scope.

(** ** The path of a handshake *)

Inductive ServerPath := Relay | Dial (advertise_holepunch : bool) | Holepunch | Listen.
#[global] Instance ServerPath_eq_dec : EqDecision ServerPath.
Proof. solve_decision. Defined.

Definition is_firewalled (server_firewall : Z) : bool :=
  (server_firewall =? FIREWALL_CONSISTENT) || (server_firewall =? FIREWALL_RANDOM).
Definition select_server_path (relay_through : bool) (server_firewall client_firewall : Z) (forwarded : bool) : ServerPath :=
  let server_firewalled := is_firewalled server_firewall in
  if relay_through then Relay
  else if (client_firewall =? FIREWALL_OPEN) || negb forwarded then Dial server_firewalled
  else if server_firewalled then Holepunch
  else Listen.

(** ** What the outside answers during a handshake *)

(** The steps of setting up a puncher: its socket and the port that is bound
    to, the pings of [auto_sample], whether the stream and its hook are made. *)
Record PunchIo := mkPunchIo {
  pn_socket : option Z;
  pn_candidates : bool;
  pn_pings : list (option (option Ipv4Peer * Ipv4Peer));
  pn_port : option Z;
  pn_stream : bool;
  pn_hook : bool
}.
(** Two readings of the clock, the ephemeral key, the relay token, the local
    secret of the payload box; the node's verdict on its own firewall, its public
    address, the host's interfaces, the relays it announces through. *)
Record HandshakeIo := mkHandshakeIo {
  ho_now : Z;
  ho_later : Z;
  ho_ephemeral : list Z;
  ho_token : list Z;
  ho_local_secret : list Z;
  ho_firewalled : option Z;
  ho_remote_address : option Ipv4Peer;
  ho_ifaces : option (list Iface);
  ho_relays : list RelayInfo;
  ho_punch : PunchIo
}.

Section SwarmServer.
Context `{CryptoPrims, NoisePrims, BoxPrims}.

(** [HyperDhtHandle::noise_addresses4] *)
Definition noise_addresses4 (remote_address : option Ipv4Peer) (ifs : option (list Iface)) (port : Z) : list Ipv4Peer :=
  match remote_address with Some r => [r] | None => [] end ++ local_addresses ifs port.

Definition next_stream_id (s : SwarmActor) : Z * SwarmActor :=
  (sw_next_stream s, set_sw_next_stream (as_u32 (sw_next_stream s + 1)) s).

Definition take_holepunch_id (s : SwarmActor) : Z * SwarmActor :=
  (sw_next_holepunch_id s, set_sw_next_id (as_u64 (sw_next_holepunch_id s + 1)) s).

(** [None] is its [Err]; once the id is taken it stays taken. *)
Definition try_setup_passive_holepunch (io : PunchIo) (remote_firewall local_stream_id : Z)
    (remote_udx : option UdxInfo) (s : SwarmActor) : option HolepunchSetup * SwarmActor :=
  match remote_udx, pn_socket io, pn_port io with
  | Some udx, Some socket, Some puncher_port =>
      if negb ((0 <=? ux_id udx) && (ux_id udx <? 2 ^ 32)) then (None, s)
      else
        let puncher := (Holepuncher_auto_sample (pn_candidates io) (pn_pings io)
                          (Holepuncher_new socket true false remote_firewall)).2 in
        if negb (pn_stream io) then (None, s)
        else
          let '(holepunch_id, s) := take_holepunch_id s in
          if negb (pn_hook io) then (None, s)
          else (Some (mkSetup holepunch_id puncher_port puncher local_stream_id socket), emit (SwArm holepunch_id) s)
  | _, _, _ => (None, s)
  end.

(** The flag the puncher's receive task shares is only set by an initiator's. *)
Definition HolepunchSetup_release (setup : HolepunchSetup) (s : SwarmActor) : SwarmActor :=
  emit (SwDestroyed (Holepuncher_destroy false (su_puncher setup))) (emit (SwDisarm (su_id setup)) s).

(** The replaced entry's puncher is dropped with it. *)
Definition commit_passive_holepunch (ifs : option (list Iface)) (local_secret : list Z) (setup : HolepunchSetup)
    (remote_pk : list Z) (noise_result : NoiseWrapResult) (s : SwarmActor) : SwarmActor :=
  let replaced := sw_pending_handshakes s !! remote_pk in
  let s := set_sw_pending (<[remote_pk := su_id setup]> (sw_pending_handshakes s)) s in
  let s := match replaced with
           | Some old_id =>
               match sw_connects s !! old_id with
               | Some _ => emit (SwDisarm old_id) (set_sw_connects (delete old_id (sw_connects s)) s)
               | None => s
               end
           | None => s
           end in
  let payload := SecurePayload_with_local_secret (nr_holepunch_secret noise_result) local_secret in
  let local_punch_addrs := punch_addresses ifs (su_puncher setup) (su_puncher_port setup) in
  set_sw_connects (<[su_id setup := mkInFlight remote_pk payload (Some (su_puncher setup)) (su_udx_stream setup)
                       (su_udx_socket setup) noise_result 0 local_punch_addrs]> (sw_connects s)) s.

(** The tail of [handle_server_handshake]: the slot and the task. *)
Definition accept_client (path : ServerPath) (token : option (list Z)) (local_stream_id : Z) (client_address : Ipv4Peer)
    (udx : option UdxInfo) (nw_result : NoiseWrapResult) (s : SwarmActor) : SwarmActor :=
  let remote_pk := nr_remote_public_key nw_result in
  if ConnectionSet_has remote_pk (sw_connections s) then s
  else if ac_max_peers (sw_config s) <=? ConnectionSet_len (sw_connections s) then s
  else
    match udx with
    | None => s
    | Some remote_udx =>
        let s := set_sw_connections (<[remote_pk := false]> (sw_connections s)) s in
        match ac_relay_through (sw_config s), token with
        | Some relay_pk, Some token =>
            emit (SwServe remote_pk (ThroughRelay relay_pk (ac_relay_address (sw_config s)) token nw_result)) s
        | _, _ =>
            let dial := match path with Dial _ => true | _ => false end in
            emit (SwServe remote_pk (Direct local_stream_id remote_udx client_address dial nw_result)) s
        end
    end.

(** The hole-punch offer of the reply; without a staged puncher it takes an id
    of its own. *)
Definition offer_holepunch (io : HandshakeIo) (setup : option HolepunchSetup) (path : ServerPath) (s : SwarmActor)
    : option HolepunchInfo * SwarmActor :=
  match setup, path with
  | Some setup, _ => (Some (mkHolepunchInfo (su_id setup) (ho_relays io)), s)
  | None, Dial true =>
      let '(id, s) := take_holepunch_id s in (Some (mkHolepunchInfo id (ho_relays io)), s)
  | None, _ => (None, s)
  end.

Definition server_payload (io : HandshakeIo) (config : ActorConfig) (relay_through : option RelayThroughInfo)
    (holepunch : option HolepunchInfo) (advertise_port local_stream_id : Z) : NoisePayload :=
  mkNoisePayload 1 0 (ac_firewall config) holepunch
    (noise_addresses4 (ho_remote_address io) (ho_ifaces io) advertise_port) []
    (Some (mkUdxInfo 1 true local_stream_id 0)) (Some (mkSecretStreamInfo 1)) relay_through
    ((fun a => [a]) <$> ac_relay_address config).

Definition release_setup (setup : option HolepunchSetup) (s : SwarmActor) : SwarmActor :=
  match setup with Some setup => HolepunchSetup_release setup s | None => s end.

(** From the client's payload on. *)
Definition answer_handshake (io : HandshakeIo) (msg : HandshakeMessage) (from : Ipv4Peer)
    (peer_address : option Ipv4Peer) (remote_payload : NoisePayload) (nw : NoiseWrap) (s : SwarmActor)
    : outcome Empty_set SwarmActor :=
  let client_address := default from peer_address in
  let config := sw_config s in
  let '(local_stream_id, s) := next_stream_id s in
  let relay_through_info := (fun relay_pk => mkRelayThroughInfo 1 relay_pk (ho_token io)) <$> ac_relay_through config in
  let relay_token := rt_token <$> relay_through_info in
  let firewall_state := default FIREWALL_UNKNOWN (ho_firewalled io) in
  let path := select_server_path (is_some relay_through_info) firewall_state (np_firewall remote_payload)
                (is_some peer_address) in
  let can_accept := (ConnectionSet_len (sw_connections s) <? ac_max_peers config) && is_some (np_udx remote_payload) in
  let '(setup, s) :=
    if bool_decide (path = Holepunch) && can_accept
    then try_setup_passive_holepunch (ho_punch io) (np_firewall remote_payload) local_stream_id (np_udx remote_payload) s
    else (None, s) in
  let advertise_port := match setup with Some setup => su_puncher_port setup | None => sw_local_port s end in
  let '(holepunch_info, s) := offer_holepunch io setup path s in
  let reply_payload := server_payload io config relay_through_info holepunch_info advertise_port local_stream_id in
  match NoiseWrap_send (ho_ephemeral io) reply_payload nw with
  | (Panic, _) => Panic
  | (Err _, _) => Ok (emit (SwReply None) (release_setup setup s))
  | (Ok noise_reply, nw) =>
      match NoiseWrap_finalize nw with
      | Panic => Panic
      | Err _ => Ok (emit (SwReply None) (release_setup setup s))
      | Ok nw_result =>
          let remote_pk := nr_remote_public_key nw_result in
          let eligible := can_accept && negb (ConnectionSet_has remote_pk (sw_connections s)) in
          let '(setup, s) := if eligible then (setup, s) else (None, release_setup setup s) in
          let s := if eligible
                   then set_sw_replies (HandshakeReplyCache_insert (ho_later io) (hs_noise msg) noise_reply (sw_replies s)) s
                   else s in
          reply ← encode_server_handshake_reply (hs_mode msg) peer_address noise_reply;
          let s := emit (SwReply reply) s in
          match setup with
          | Some setup =>
              Ok (commit_passive_holepunch (ho_ifaces io) (ho_local_secret io) setup remote_pk nw_result s)
          | None => Ok (accept_client path relay_token local_stream_id client_address (np_udx remote_payload) nw_result s)
          end
      end
  end.

Definition handle_server_handshake (io : HandshakeIo) (msg : HandshakeMessage) (from : Ipv4Peer)
    (peer_address : option Ipv4Peer) (s : SwarmActor) : outcome Empty_set SwarmActor :=
  let '(cached, replies) := HandshakeReplyCache_get (ho_now io) (hs_noise msg) (sw_replies s) in
  let s := set_sw_replies replies s in
  match cached with
  | Some noise_reply =>
      reply ← encode_server_handshake_reply (hs_mode msg) peer_address noise_reply;
      Ok (emit (SwReply reply) s)
  | None =>
      let key_pair := ac_key_pair (sw_config s) in
      let nw := NoiseWrap_new_responder (mkKeypair (kp_public_key key_pair) (kp_secret_key key_pair)) in
      match NoiseWrap_recv (hs_noise msg) nw with
      | (Panic, _) => Panic
      | (Err _, _) => Ok (emit (SwReply None) s)
      | (Ok remote_payload, nw) =>
          if negb (np_error remote_payload =? 0) then Ok (emit (SwReply None) s)
          else answer_handshake io msg from peer_address remote_payload nw s
      end
  end.

(** ** The passive hole punch *)

Definition holepunch_reply (entry : InFlightHolepunch) (server_firewall : Z) (remote_hp : HolepunchPayload)
    (peer_address : Ipv4Peer) : HolepunchPayload :=
  mkHolepunchPayload ERROR_NONE server_firewall (pl_round remote_hp) false (pl_punching remote_hp)
    (Some (fl_local_punch_addrs entry)) (Some peer_address)
    (Some (SecurePayload_token (fl_payload entry) (host peer_address))) (pl_token remote_hp).

(** The entry after a round, and the puncher that starts probing. *)
Definition punch_round (remote_hp : HolepunchPayload) (peer_address : Ipv4Peer) (entry : InFlightHolepunch)
    : option Holepuncher * InFlightHolepunch :=
  let puncher := update_remote (pl_punching remote_hp) (pl_firewall remote_hp) (default [] (pl_addresses remote_hp))
                   (Some (host peer_address)) <$> fl_puncher entry in
  let round := if fl_round entry <? pl_round remote_hp then pl_round remote_hp else fl_round entry in
  let '(started, puncher) := if pl_punching remote_hp then (puncher, None) else (None, puncher) in
  (started, mkInFlight (fl_remote_pk entry) (fl_payload entry) puncher (fl_udx_stream entry) (fl_udx_socket entry)
              (fl_noise_result entry) round (fl_local_punch_addrs entry)).

(** [nonce]: the nonce of the reply's box; [firewalled]: the node's answer. *)
Definition handle_peer_holepunch (firewalled : option Z) (nonce : list Z) (msg : HolepunchMessage)
    (peer_address : Ipv4Peer) (s : SwarmActor) : outcome Empty_set SwarmActor :=
  match sw_connects s !! hm_id msg with
  | None => Ok (emit (SwReply None) s)
  | Some entry =>
      match SecurePayload_decrypt (fl_payload entry) (hm_payload msg) with
      | Panic => Panic
      | Err _ => Ok (emit (SwReply None) s)
      | Ok remote_hp =>
          let '(started, entry) := punch_round remote_hp peer_address entry in
          let s := match started with Some p => emit (SwPunch (hm_id msg) p) s | None => s end in
          let s := set_sw_connects (<[hm_id msg := entry]> (sw_connects s)) s in
          let reply_hp := holepunch_reply entry (default FIREWALL_UNKNOWN firewalled) remote_hp peer_address in
          match SecurePayload_encrypt_with_nonce (fl_payload entry) reply_hp nonce with
          | Panic => Panic
          | Err _ => Ok (emit (SwReply None) s)
          | Ok encrypted =>
              let reply_mode := if (hm_mode msg =? MODE_FROM_RELAY) || (hm_mode msg =? MODE_FROM_SECOND_RELAY)
                                then MODE_FROM_SERVER else MODE_REPLY in
              match encode_holepunch_msg_to_bytes (mkHolepunch reply_mode (hm_id msg) encrypted (Some peer_address)) with
              | Panic => Panic
              | Err _ => Ok (emit (SwReply None) s)
              | Ok b => Ok (emit (SwReply (Some b)) s)
              end
          end
      end
  end.

Inductive PassiveHolepunchEvent := PassivePunched (id : Z) (addr : SocketAddr) | PassiveAbort (id : Z).

(** The entry, its timer and its key go. *)
Definition close_in_flight (id : Z) (entry : InFlightHolepunch) (s : SwarmActor) : SwarmActor :=
  let s := emit (SwDisarm id) (set_sw_connects (delete id (sw_connects s)) s) in
  set_sw_pending (delete (fl_remote_pk entry) (sw_pending_handshakes s)) s.

Definition handle_passive_holepunch_event (event : PassiveHolepunchEvent) (s : SwarmActor) : SwarmActor :=
  match event with
  | PassivePunched id addr =>
      match sw_connects s !! id with
      | None => s
      | Some entry =>
          let s := close_in_flight id entry s in
          if ConnectionSet_has (fl_remote_pk entry) (sw_connections s) then s
          else if ac_max_peers (sw_config s) <=? ConnectionSet_len (sw_connections s) then s
          else
            let s := set_sw_connections (<[fl_remote_pk entry := false]> (sw_connections s)) s in
            emit (SwServe (fl_remote_pk entry)
                    (Punched (fl_udx_stream entry) (fl_udx_socket entry) addr (fl_noise_result entry))) s
      end
  | PassiveAbort id =>
      match sw_connects s !! id with
      | None => s
      | Some entry =>
          let s := close_in_flight id entry s in
          match fl_puncher entry with
          | Some puncher => emit (SwDestroyed (Holepuncher_destroy false puncher)) s
          | None => s
          end
      end
  end.

(** ** The tasks that open a connection *)

(** [host.parse::<IpAddr>()] *)
Definition ip_from_str (s : string) : option (list Z) :=
  match ipv4_from_str s with Some o => Some o | None => ipv6_from_str s end.
(** Where the stream of a direct connection goes: [Some] address to connect it
    to, [None] to wait for its first packet; its failure otherwise. *)
Definition server_connection_plan (remote_udx : UdxInfo) (client_address : Ipv4Peer) (dial : bool)
    : option (Z * option SocketAddr) :=
  if negb ((0 <=? ux_id remote_udx) && (ux_id remote_udx <? 2 ^ 32)) then None
  else if dial then
    match ip_from_str (host client_address) with
    | Some ip => Some (ux_id remote_udx, Some (ip, port client_address))
    | None => None
    end
  else Some (ux_id remote_udx, None).

(** The session every task opens once its stream exists. *)
Definition server_session `{StreamPrims} (nr : NoiseWrapResult) (fresh_header : list Z)
    : Prog (outcome SecretStreamError SecretStream) :=
  SecretStream_from_session false (nr_tx nr) (nr_rx nr) (nr_handshake_hash nr) (nr_remote_public_key nr) fresh_header.

(** ** The loop

    [sw_effects] holds the effects of one turn.  Between turns the world keeps
    what is under way: the running dials, the tasks that open server
    connections, the failures they have reported, and the trace of all effects.
    Timers and discovery tasks only send events, which may arrive at any time. *)

Record SwarmWorld := mkSwarmWorld {
  ww_actor : SwarmActor;
  ww_dials : list (list Z);
  ww_serving : list (list Z * ServerTask);
  ww_failures : list (list Z);
  ww_trace : list SwarmEffect
}.
Definition SwarmWorld_new (config : ActorConfig) (primary_socket_port : Z) : SwarmWorld :=
  mkSwarmWorld (SwarmActor_new config primary_socket_port) [] [] [] [].

Inductive SwarmEvent :=
| SeCommand (cmd : SwarmCommand)
| SeHandlesDropped
| SeDiscovery (event : DiscoveryEvent)
| SeHandshake (io : HandshakeIo) (msg : HandshakeMessage) (from : Ipv4Peer) (peer_address : option Ipv4Peer)
| SeHolepunch (firewalled : option Z) (nonce : list Z) (msg : HolepunchMessage) (peer_address : Ipv4Peer)
| SeConnectResult (i : nat) (now : Z) (jitter : Z -> Z) (ok : bool)
| SeServed (i : nat) (ok : bool)
| SeFailure (i : nat)
| SePassive (event : PassiveHolepunchEvent)
| SeSweep (now : Z)
| SeTakeConnection
| SeReceiverDropped.

Definition dials_of (effects : list SwarmEffect) : list (list Z) :=
  omap (fun e => match e with SwDial pk _ _ => Some pk | _ => None end) effects.
Definition serves_of (effects : list SwarmEffect) : list (list Z * ServerTask) :=
  omap (fun e => match e with SwServe pk task => Some (pk, task) | _ => None end) effects.

(** The actor after a turn, its effects under way. *)
Definition absorb (s : SwarmActor) (w : SwarmWorld) : SwarmWorld :=
  mkSwarmWorld (set_sw_effects [] s) (ww_dials w ++ dials_of (sw_effects s)) (ww_serving w ++ serves_of (sw_effects s))
    (ww_failures w) (ww_trace w ++ sw_effects s).
Definition goes_on (s : SwarmActor) (w : SwarmWorld) : outcome Empty_set (bool * SwarmWorld) := Ok (true, absorb s w).
Definition stops (s : SwarmActor) (w : SwarmWorld) : outcome Empty_set (bool * SwarmWorld) :=
  Ok (false, absorb (swarm_shutdown s) w).

(** The sender of a finished server task waits for room in the channel. *)
Definition channel_ready (s : SwarmActor) : bool :=
  ch_closed (sw_channel s) || (len (ch_held (sw_channel s)) <? CONNECTION_CHANNEL).

(** One turn; an event about a task that is not there is no turn. *)
Definition swarm_turn (e : SwarmEvent) (w : SwarmWorld) : outcome Empty_set (bool * SwarmWorld) :=
  let s := ww_actor w in
  match e with
  | SeCommand cmd => let '(stop, s) := swarm_command cmd s in if stop then stops s w else goes_on s w
  | SeHandlesDropped => stops s w
  | SeDiscovery event => goes_on (handle_discovery_event event s) w
  | SeHandshake io msg from peer_address => s ← handle_server_handshake io msg from peer_address s; goes_on s w
  | SeHolepunch firewalled nonce msg peer_address =>
      s ← handle_peer_holepunch firewalled nonce msg peer_address s; goes_on s w
  | SeConnectResult i now jitter ok =>
      match ww_dials w !! i with
      | Some pk => goes_on (handle_connect_result now jitter pk ok s)
                     (mkSwarmWorld s (delete i (ww_dials w)) (ww_serving w) (ww_failures w) (ww_trace w))
      | None => Ok (true, w)
      end
  | SeServed i ok =>
      match ww_serving w !! i with
      | Some (pk, task) =>
          if ok then
            if channel_ready s
            then goes_on (conn_try_send (mkConnection pk false []) s)
                   (mkSwarmWorld s (ww_dials w) (delete i (ww_serving w)) (ww_failures w) (ww_trace w))
            else Ok (true, w)
          else Ok (true, mkSwarmWorld s (ww_dials w) (delete i (ww_serving w)) (ww_failures w ++ [pk]) (ww_trace w))
      | None => Ok (true, w)
      end
  | SeFailure i =>
      match ww_failures w !! i with
      | Some pk => goes_on (handle_server_failure pk s)
                     (mkSwarmWorld s (ww_dials w) (ww_serving w) (delete i (ww_failures w)) (ww_trace w))
      | None => Ok (true, w)
      end
  | SePassive event => goes_on (handle_passive_holepunch_event event s) w
  | SeSweep now => goes_on (set_sw_replies (HandshakeReplyCache_prune now (sw_replies s)) s) w
  | SeTakeConnection =>
      goes_on (set_sw_channel (mkChannel (tail (ch_held (sw_channel s))) (ch_closed (sw_channel s))) s) w
  | SeReceiverDropped => goes_on (set_sw_channel (mkChannel [] true) s) w
  end.

(** The turns until the actor stops. *)
Fixpoint swarm_run (events : list SwarmEvent) (w : SwarmWorld) : outcome Empty_set (bool * SwarmWorld) :=
  match events with
  | [] => Ok (true, w)
  | e :: events =>
      '(running, w) ← swarm_turn e w;
      if running : bool then swarm_run events w else Ok (false, w)
  end.
End SwarmServer.
