(* ===== verification/SwarmTheorems.v ===== *)
(** * SwarmTheorems: what the swarm actor keeps, whom it dials, and whom it
    never dials again *)

From S2P Require Import Prelude RustStd CompactEncoding Codec Messages HyperdhtMessages Crypto ToyCrypto Noise ToyNoise NoiseTheorems NoiseWrap NoiseWrapTheorems Query Router Holepuncher ReplyCache Swarm SwarmServer.
From stdpp Require Import sorting.

#[local] Open Scope Z_scope.

(** ** The queue in order *)

Section Sorting.
Context (rank : list Z -> Z).

Definition Ranked (l : list (list Z)) : Prop := StronglySorted (fun a b => rank b <= rank a) l.

Lemma insert_ranked_perm x l : insert_ranked rank x l ≡ₚ x :: l.
Proof. induction l as [|y l IH]; cbn; [done|]. destruct (_ <? _); [|done]. rewrite IH. constructor. Qed.
Lemma sort_queue_perm l : sort_queue rank l ≡ₚ l.
Proof. induction l as [|x l IH]; cbn; [done|]. by rewrite insert_ranked_perm, IH. Qed.
Lemma insert_ranked_sorted x l : Ranked l -> Ranked (insert_ranked rank x l).
Proof.
  unfold Ranked. induction l as [|y l IH]; intros Hl; cbn; [by repeat constructor|].
  pose proof Hl as [Hs Hy]%StronglySorted_inv. destruct (Z.ltb_spec (rank x) (rank y)).
  - constructor; [by apply IH|]. apply Forall_forall. intros z Hz. rewrite insert_ranked_perm in Hz.
    apply elem_of_cons in Hz as [->|Hz]; [lia|]. rewrite Forall_forall in Hy. by apply Hy.
  - constructor; [done|]. constructor; [lia|]. eapply Forall_impl; [exact Hy|]. cbn. lia.
Qed.
Lemma sort_queue_sorted l : Ranked (sort_queue rank l).
Proof. induction l; [constructor|]. by apply insert_ranked_sorted. Qed.
Lemma sort_queue_id l : Ranked l -> sort_queue rank l = l.
Proof.
  induction l as [|x l IH]; intros Hl; [done|]. apply StronglySorted_inv in Hl as [Hs Hx].
  change (sort_queue rank (x :: l)) with (insert_ranked rank x (sort_queue rank l)). rewrite IH by done.
  destruct l as [|y l]; [done|]. apply Forall_cons in Hx as [Hx _]. cbn. by destruct (Z.ltb_spec (rank x) (rank y)); [lia|].
Qed.
(** Equal priorities keep their order. *)
Lemma insert_ranked_stable r x l :
  filter (fun pk => rank pk = r) (insert_ranked rank x l) = filter (fun pk => rank pk = r) (x :: l).
Proof.
  induction l as [|y l IH]; [done|]. cbn [insert_ranked]. destruct (Z.ltb_spec (rank x) (rank y)); [|done].
  rewrite filter_cons, IH, !filter_cons. destruct (decide (rank y = r)), (decide (rank x = r)); done || lia.
Qed.
Lemma sort_queue_stable r l : filter (fun pk => rank pk = r) (sort_queue rank l) = filter (fun pk => rank pk = r) l.
Proof.
  induction l as [|x l IH]; [done|]. change (sort_queue rank (x :: l)) with (insert_ranked rank x (sort_queue rank l)).
  rewrite insert_ranked_stable, !filter_cons, IH. done.
Qed.
End Sorting.

Lemma sort_queue_ext rank rank' l : (forall pk, rank pk = rank' pk) -> sort_queue rank l = sort_queue rank' l.
Proof.
  intros Hr. induction l as [|x l IH]; [done|].
  change (insert_ranked rank x (sort_queue rank l) = insert_ranked rank' x (sort_queue rank' l)).
  rewrite IH. clear IH. induction (sort_queue rank' l) as [|y l' IH']; [done|].
  cbn. by rewrite !Hr, IH'.
Qed.

Lemma Ranked_ext rank rank' l : (forall pk, rank pk = rank' pk) -> Ranked rank l -> Ranked rank' l.
Proof.
  intros Hr. induction 1 as [|x l Hl IHl Hx]; constructor; [done|].
  eapply Forall_impl; [exact Hx|]. intros y. by rewrite !Hr.
Qed.

(** ** The dials of a turn *)

Definition dials_room (s : SwarmActor) : nat := Z.to_nat (ac_max_parallel (sw_config s) - sw_active_connects s).
Definition start_dials (pks : list (list Z)) (s : SwarmActor) : SwarmActor := foldl (fun s pk => start_dial pk s) s pks.

Lemma start_dial_rank pk s pk' : queue_rank (sw_peers (start_dial pk s)) pk' = queue_rank (sw_peers s) pk'.
Proof.
  unfold queue_rank. cbn. destruct (decide (pk = pk')) as [->|Hne].
  - rewrite lookup_alter_eq. by destruct (sw_peers s !! pk').
  - by rewrite lookup_alter_ne.
Qed.

Lemma attempt_loop_sorted n s :
  (length (sw_queue s) <= n)%nat -> Ranked (queue_rank (sw_peers s)) (sw_queue s) ->
  attempt_loop n s = start_dials (take (dials_room s) (sw_queue s)) (set_sw_queue (drop (dials_room s) (sw_queue s)) s).
Proof.
  revert s. induction n as [|n IH]; intros s Hn Hs.
  { destruct (sw_queue s) eqn:E; [|cbn in Hn; lia]. rewrite take_nil, drop_nil. cbn. rewrite <- E. by destruct s. }
  cbn [attempt_loop]. destruct (Z.ltb_spec (sw_active_connects s) (ac_max_parallel (sw_config s))).
  2:{ replace (dials_room s) with O by (unfold dials_room; lia). cbn. rewrite drop_0. by destruct s. }
  rewrite sort_queue_id by done. destruct (sw_queue s) as [|pk q] eqn:E.
  { rewrite take_nil, drop_nil. cbn. rewrite <- E. by destruct s. }
  assert (dials_room s = S (dials_room (start_dial pk (set_sw_queue q s)))) as ->.
  { unfold dials_room. cbn. lia. }
  rewrite IH; cbn [sw_queue start_dial emit upd_peer set_sw_queue set_sw_peers set_sw_active set_sw_effects] in *.
  - done.
  - cbn in Hn. lia.
  - apply StronglySorted_inv in Hs as [Hq _]. eapply Ranked_ext; [|exact Hq]. intros pk'.
    symmetry. exact (start_dial_rank pk (set_sw_queue q s) pk').
Qed.

(** The loop dials the head of the queue sorted once. *)
Lemma attempt_connections_spec s :
  attempt_connections s =
    if (0 <? dials_room s)%nat then
      let q := sort_queue (queue_rank (sw_peers s)) (sw_queue s) in
      start_dials (take (dials_room s) q) (set_sw_queue (drop (dials_room s) q) s)
    else s.
Proof.
  unfold attempt_connections. destruct (Nat.ltb_spec 0 (dials_room s)) as [Hr|Hr].
  - set (q := sort_queue _ _). cbn zeta.
    assert (length q = length (sw_queue s)) as El by (apply Permutation_length, sort_queue_perm).
    transitivity (attempt_loop (length (sw_queue s)) (set_sw_queue q s)).
    + destruct (length (sw_queue s)) eqn:En; cbn [attempt_loop].
      { apply length_zero_iff_nil in En. unfold q. rewrite En. cbn. rewrite <- En. by destruct s. }
      cbn [sw_active_connects sw_config set_sw_queue sw_peers sw_queue]. fold q.
      rewrite (sort_queue_id _ q) by apply sort_queue_sorted.
      destruct (Z.ltb_spec (sw_active_connects s) (ac_max_parallel (sw_config s))) as [|Hge]; [|unfold dials_room in Hr; lia].
      by destruct q.
    + rewrite attempt_loop_sorted; [done|cbn; lia|apply sort_queue_sorted].
  - assert (ac_max_parallel (sw_config s) <= sw_active_connects s) by (unfold dials_room in Hr; lia).
    destruct (length _); cbn [attempt_loop]; [done|]. by rewrite (proj2 (Z.ltb_ge _ _)).
Qed.

Definition known_relays (s : SwarmActor) (pk : list Z) : list Ipv4Peer :=
  match sw_peers s !! pk with Some i => pi_relay_addresses i | None => [] end.
Definition dial_of (s : SwarmActor) (pk : list Z) : SwarmEffect :=
  SwDial pk (known_relays s pk) (ac_local_connection (sw_config s)).

Lemma start_dials_effects pks s :
  sw_effects (start_dials pks s) = sw_effects s ++ (dial_of s <$> pks) /\
  sw_active_connects (start_dials pks s) = sw_active_connects s + len pks /\
  sw_queue (start_dials pks s) = sw_queue s /\ sw_config (start_dials pks s) = sw_config s.
Proof.
  revert s. induction pks as [|pk pks IH]; intros s.
  { cbn. rewrite app_nil_r. split_and!; [done|change (len []) with 0; lia|done..]. }
  change (start_dials (pk :: pks) s) with (start_dials pks (start_dial pk s)).
  destruct (IH (start_dial pk s)) as (-> & -> & -> & ->). split_and!; [|cbn; lens; lia|done..].
  cbn. rewrite <- app_assoc. f_equal. cbn. f_equal. apply list_fmap_ext. intros _ pk' _. unfold dial_of, known_relays. cbn.
  destruct (decide (pk = pk')) as [->|Hne]; [rewrite lookup_alter_eq; by destruct (sw_peers s !! pk')|].
  by rewrite lookup_alter_ne.
Qed.

Lemma attempt_effects s : exists es, sw_effects (attempt_connections s) = sw_effects s ++ es.
Proof.
  rewrite attempt_connections_spec. destruct (0 <? dials_room s)%nat; [|exists []; by rewrite app_nil_r].
  cbn zeta. set (q := sort_queue _ _). destruct (start_dials_effects (take (dials_room s) q) (set_sw_queue (drop (dials_room s) q) s)) as (-> & _).
  by eexists.
Qed.

(** C22: [attempt_connections] dials the best: the peers it dials, each with the
    relays known for it, are at least as high in priority as those that stay in
    the queue, equals in the order they came; it loses and doubles nobody; it
    stays within [max_parallel]; and it stops only when the queue is empty or
    [max_parallel] dials run. *)
Theorem dials_best_first s :
  let s' := attempt_connections s in
  let rank := queue_rank (sw_peers s) in
  exists chosen,
    sw_effects s' = sw_effects s ++ (dial_of s <$> chosen) /\
    sw_queue s ≡ₚ chosen ++ sw_queue s' /\
    (forall a b, a ∈ chosen -> b ∈ sw_queue s' -> rank b <= rank a) /\
    (forall r, filter (fun pk => rank pk = r) (chosen ++ sw_queue s') = filter (fun pk => rank pk = r) (sw_queue s)) /\
    sw_active_connects s' = sw_active_connects s + len chosen /\
    sw_active_connects s' <= Z.max (sw_active_connects s) (ac_max_parallel (sw_config s)) /\
    (sw_queue s' = [] \/ ac_max_parallel (sw_config s) <= sw_active_connects s').
Proof.
  cbn zeta. rewrite attempt_connections_spec. destruct (Nat.ltb_spec 0 (dials_room s)) as [Hr|Hr].
  - cbn zeta. set (q := sort_queue _ _). set (k := dials_room s) in *.
    destruct (start_dials_effects (take k q) (set_sw_queue (drop k q) s)) as (-> & -> & -> & _).
    cbn [sw_effects set_sw_queue sw_queue sw_active_connects].
    assert (len (take k q) <= Z.of_nat k) as Hk by (unfold len; rewrite length_take; lia).
    assert (Z.of_nat k = ac_max_parallel (sw_config s) - sw_active_connects s) as Ek by (unfold k, dials_room in *; lia).
    exists (take k q). rewrite take_drop. split_and!.
    + done.
    + symmetry. apply sort_queue_perm.
    + pose proof (sort_queue_sorted (queue_rank (sw_peers s)) (sw_queue s)) as Hs. fold q in Hs.
      rewrite <- (take_drop k q) in Hs. intros a b Ha Hb. exact (StronglySorted_app_1_elem_of _ _ _ _ _ Hs Ha Hb).
    + intros r. apply sort_queue_stable.
    + done.
    + lia.
    + destruct (decide (length q <= k)%nat) as [Hle|Hgt]; [left; by apply drop_ge|right].
      unfold len. rewrite length_take. lia.
  - exists []. cbn [fmap list_fmap app]. rewrite app_nil_r. change (len []) with 0.
    split_and!; [done|done|set_solver|done|lia|lia|]. right. unfold dials_room in Hr. lia.
Qed.

(** Membership in a list put together from lists. *)
Ltac in_lists := rewrite ?elem_of_app, ?elem_of_cons, ?elem_of_app, ?elem_of_nil; intuition congruence.

(** ** The books of the dials *)

(** The queue, the running dials and the flags of the peers agree. *)
Record DialBooks (own : list Z) (max_parallel : Z) (peers : gmap (list Z) PeerInfo) (queue : list (list Z))
    (active : Z) (dials : list (list Z)) : Prop := {
  db_active : active = len dials;
  db_limit : active <= Z.max 0 max_parallel;
  db_queue : NoDup (queue ++ dials);
  db_known pk : pk ∈ queue ++ dials -> is_Some (peers !! pk);
  db_peer pk i : peers !! pk = Some i ->
    pi_public_key i = pk /\ pk <> own /\ (pi_queued i = true <-> pk ∈ queue) /\ (pi_connecting i = true <-> pk ∈ dials) /\
    (pi_waiting i = true -> pk ∉ queue ++ dials)
}.
Definition dial_books (dials : list (list Z)) (s : SwarmActor) : Prop :=
  DialBooks (own_key s) (ac_max_parallel (sw_config s)) (sw_peers s) (sw_queue s) (sw_active_connects s)
    (dials ++ dials_of (sw_effects s)).

Lemma dials_of_app k l : dials_of (k ++ l) = dials_of k ++ dials_of l.
Proof. unfold dials_of. apply omap_app. Qed.

(** A change of one peer's data that leaves its flags. *)
Definition same_flags (i j : PeerInfo) : Prop :=
  (pi_public_key j, pi_queued j, pi_connecting j, pi_waiting j) = (pi_public_key i, pi_queued i, pi_connecting i, pi_waiting i).
Lemma DialBooks_peers own mp peers peers' q a d :
  (forall pk, option_Forall2 same_flags (peers !! pk) (peers' !! pk)) ->
  DialBooks own mp peers q a d -> DialBooks own mp peers' q a d.
Proof.
  intros Hf [Ha Hl Hq Hk Hp]. split; [done..| |].
  - intros pk Hin. destruct (Hk pk Hin) as [i Hi]. specialize (Hf pk). rewrite Hi in Hf. by inversion Hf.
  - intros pk j Hj. specialize (Hf pk). rewrite Hj in Hf. inversion Hf as [i ? E Ei|]; subst.
    unfold same_flags in E. injection E as -> -> -> ->. by apply Hp.
Qed.

Lemma alter_same_flags (f : PeerInfo -> PeerInfo) (pk : list Z) (peers : gmap (list Z) PeerInfo) :
  (forall i, same_flags i (f i)) -> forall pk' : list Z, option_Forall2 same_flags (peers !! pk') (alter f pk peers !! pk').
Proof.
  intros Hf pk'. destruct (decide (pk = pk')) as [<-|Hne].
  - rewrite lookup_alter_eq. destruct (peers !! pk); by constructor.
  - rewrite lookup_alter_ne by done. destruct (peers !! pk'); by constructor.
Qed.

Lemma start_dial_books dials pk q s :
  dial_books dials (set_sw_queue (pk :: q) s) -> sw_active_connects s < ac_max_parallel (sw_config s) ->
  dial_books dials (start_dial pk (set_sw_queue q s)).
Proof.
  unfold dial_books. cbn -[app dials_of]. intros [Ha Hl Hq Hk Hp] Hr. rewrite dials_of_app. cbn -[app dials_of].
  set (d := dials ++ dials_of (sw_effects s)) in *. rewrite (app_assoc dials). fold d.
  change (dials_of [SwDial pk _ _]) with [pk].
  assert ((pk :: q) ++ d ≡ₚ q ++ d ++ [pk]) as E.
  { rewrite (Permutation_app_comm d [pk]). cbn. apply Permutation_middle. }
  change (NoDup ((pk :: q) ++ d)) in Hq. rewrite E in Hq. assert ((pk ∉ q) /\ (pk ∉ d)) as [Hnq Hnd].
  { rewrite <- E in Hq. apply NoDup_cons in Hq as [Hn _]. rewrite elem_of_app in Hn. tauto. }
  split.
  - rewrite len_app, Ha. done.
  - lia.
  - done.
  - intros pk' Hin. rewrite lookup_alter_is_Some. apply Hk. change (pk' ∈ (pk :: q) ++ d). by rewrite E.
  - intros pk' i. destruct (decide (pk = pk')) as [<-|Hne].
    + rewrite lookup_alter_eq. destruct (sw_peers s !! pk) as [j|] eqn:Ej; [|done]. intros [= <-]. cbn -[app dials_of].
      destruct (Hp pk j Ej) as (Ek & Ho & _ & _ & Hw). split_and!; [done|done|split; [done|by intros ?]|..].
      * in_lists.
      * intros Hwt. destruct (Hw Hwt). by left.
    + rewrite lookup_alter_ne by done. intros Hi. destruct (Hp pk' i Hi) as (Ek & Ho & Hqu & Hc & Hw).
      change (pi_waiting i = true -> pk' ∉ (pk :: q) ++ d) in Hw. rewrite E in Hw.
      split_and!; [done|done|rewrite Hqu; in_lists|rewrite Hc; in_lists|done].
Qed.

#[global] Arguments dials_of : simpl never.
#[global] Arguments serves_of : simpl never.

Lemma DialBooks_perm own mp peers q q' a d : q ≡ₚ q' -> DialBooks own mp peers q a d -> DialBooks own mp peers q' a d.
Proof.
  intros E [Ha Hl Hq Hk Hp]. split; [done..| | |].
  - by rewrite <- E.
  - intros pk. rewrite <- E. apply Hk.
  - intros pk i Hi. specialize (Hp pk i Hi). by rewrite E in Hp.
Qed.
(** A peer whose flags agree with the queue and the dials may be put in. *)
Definition flags_ok (q d : list (list Z)) (pk : list Z) (i : PeerInfo) : Prop :=
  pi_public_key i = pk /\ (pi_queued i = true <-> pk ∈ q) /\ (pi_connecting i = true <-> pk ∈ d) /\
  (pi_waiting i = true -> pk ∉ q ++ d).
Lemma DialBooks_insert own mp peers q a d pk i :
  pk <> own -> flags_ok q d pk i -> DialBooks own mp peers q a d -> DialBooks own mp (<[pk := i]> peers) q a d.
Proof.
  intros Ho (Hi & Hqu & Hc & Hw) [Ha Hl Hq Hk Hp]. split; [done..| |].
  - intros pk' Hin. destruct (decide (pk = pk')) as [<-|Hne]; [by rewrite lookup_insert_eq|].
    rewrite lookup_insert_ne by done. by apply Hk.
  - intros pk' j. destruct (decide (pk = pk')) as [<-|Hne]; [rewrite lookup_insert_eq; by intros [= <-]|].
    rewrite lookup_insert_ne by done. apply Hp.
Qed.
Lemma DialBooks_push own mp peers q a d pk i :
  peers !! pk = Some i -> pi_queued i = true -> pi_waiting i = false -> pk ∉ q ++ d ->
  DialBooks own mp (<[pk := set_queue_flags false (pi_connecting i) (pi_attempts i) (pi_priority i) i]> peers) q a d ->
  DialBooks own mp peers (q ++ [pk]) a d.
Proof.
  intros Hi Hqt Hwf Hno [Ha Hl Hq Hk Hp]. split; [done..| | |].
  - rewrite <- app_assoc, <- (Permutation_middle q d pk : _ ≡ₚ q ++ [pk] ++ d). by constructor.
  - intros pk' Hin. destruct (decide (pk = pk')) as [<-|Hne]; [by eexists|].
    specialize (Hk pk'). rewrite lookup_insert_ne in Hk by done. apply Hk. revert Hin. in_lists.
  - intros pk' j Hj. specialize (Hp pk'). destruct (decide (pk = pk')) as [<-|Hne].
    + rewrite lookup_insert_eq in Hp. rewrite Hj in Hi. injection Hi as ->.
      destruct (Hp _ eq_refl) as (? & ? & _ & Hc & _). split_and!; [done|done|rewrite Hqt; in_lists|done|by rewrite Hwf].
    + rewrite lookup_insert_ne in Hp by done. destruct (Hp j Hj) as (? & ? & Hq' & Hc' & Hw').
      split_and!; [done|done|rewrite Hq'; in_lists|done|]. intros Hwt. specialize (Hw' Hwt). revert Hw'. in_lists.
Qed.

Lemma attempt_books dials s : dial_books dials s -> dial_books dials (attempt_connections s).
Proof.
  unfold attempt_connections. generalize (length (sw_queue s)) as n. intros n. revert s.
  induction n as [|n IH]; intros s Hs; cbn [attempt_loop]; [done|].
  destruct (Z.ltb_spec (sw_active_connects s) (ac_max_parallel (sw_config s))) as [Hr|]; [|done].
  destruct (sort_queue _ _) as [|pk q] eqn:E; [done|]. apply IH, start_dial_books; [|done].
  refine (DialBooks_perm _ _ _ (sw_queue s) _ _ _ _ Hs). cbn. rewrite <- E. symmetry. apply sort_queue_perm.
Qed.

(** What the books depend on. *)
Definition client_view (s : SwarmActor) :=
  (sw_config s, sw_topics s, sw_peers s, sw_queue s, sw_server_registered s, sw_active_connects s, dials_of (sw_effects s)).
Lemma dial_books_view dials s s' : client_view s' = client_view s -> dial_books dials s -> dial_books dials s'.
Proof. unfold client_view, dial_books, own_key. intros E. injection E as -> _ -> -> _ -> ->. done. Qed.

(** ** Discovery *)

Lemma known_flags own mp peers q a d pk relays :
  DialBooks own mp peers q a d -> flags_ok q d pk (default (PeerInfo_new pk relays) (peers !! pk)).
Proof.
  intros [Ha Hl Hq Hk Hp]. destruct (peers !! pk) as [i|] eqn:E; cbn.
  - destruct (Hp pk i E) as (? & _ & ?). by split.
  - assert (pk ∉ q ++ d) as Hno by (intros Hin%Hk; rewrite E in Hin; by destruct Hin).
    unfold flags_ok. cbn. rewrite elem_of_app in Hno. intuition congruence.
Qed.

Lemma found_books dials pk relays topic s :
  dial_books dials s -> dial_books dials (handle_discovery_event (PeerFound pk relays topic) s).
Proof.
  intros Hs. cbn [handle_discovery_event]. destruct (bool_decide_reflect (pk = own_key s)) as [|Hown]; [done|].
  destruct (ConnectionSet_has _ _); [done|]. destruct (_ <=? _); [done|].
  pose proof (known_flags _ _ _ _ _ _ pk relays Hs) as Hf. set (info := default _ (sw_peers s !! pk)) in *.
  set (info' := set_known _ _ info). change (flags_ok (sw_queue s) (dials ++ dials_of (sw_effects s)) pk info') in Hf.
  destruct (_ && negb (pi_waiting info')) eqn:Eb; [|by apply DialBooks_insert].
  rewrite !andb_true_iff, !negb_true_iff in Eb. destruct Eb as (((Eq & Ec) & _) & Ew).
  eapply DialBooks_push; cbn -[app dials_of].
  - by rewrite lookup_insert_eq.
  - done.
  - exact Ew.
  - destruct Hf as (_ & Hq & Hc & _). rewrite elem_of_app, <- Hq, <- Hc, Eq, Ec. intuition congruence.
  - rewrite insert_insert_eq. apply DialBooks_insert; [done| |exact Hs].
    destruct Hf as (? & Hq & Hc & Hw). split_and!; [done|by rewrite <- Hq, Eq|done|done].
Qed.

Lemma refresh_books dials topic s :
  dial_books dials s -> dial_books dials (handle_discovery_event (RefreshComplete topic) s).
Proof.
  intros Hs. cbn [handle_discovery_event]. set (s1 := set_sw_topics _ s).
  assert (dial_books dials (attempt_connections s1)) as H1 by (by apply attempt_books).
  unfold check_flush_waiters. destruct (all_topics_refreshed _); [|done].
  apply (dial_books_view _ (attempt_connections s1)); [|done]. generalize (attempt_connections s1) as r.
  assert (forall ws r, client_view (foldl (fun s w => emit (SwAnswer w) s) r ws) = client_view r) as Hw.
  { induction ws as [|w ws IH]; intros r; [done|]. cbn [foldl]. rewrite IH. unfold client_view. cbn -[app].
    by rewrite dials_of_app, app_nil_r. }
  intros r. exact (Hw (sw_flush_waiters r) r).
Qed.

(** ** The end of a dial *)

Lemma finish_dial own mp peers q a d i pk :
  d !! i = Some pk -> DialBooks own mp peers q a d ->
  DialBooks own mp (alter (fun j => set_queue_flags (pi_queued j) false (pi_attempts j) (pi_priority j) j) pk peers) q
    (Z.max 0 (a - 1)) (delete i d).
Proof.
  intros Hi [Ha Hl Hq Hk Hp]. pose proof (delete_Permutation d i pk Hi) as Ed.
  generalize dependent (delete i d). intros d' Ed.
  rewrite Ed, <- Permutation_middle in Hq. apply NoDup_cons in Hq as [Hno Hq].
  assert (len d = 1 + len d') as El by (unfold len; apply Permutation_length in Ed; rewrite Ed; cbn; lia).
  pose proof (len_nonneg d').
  split.
  - lia.
  - lia.
  - done.
  - intros pk' Hin. rewrite lookup_alter_is_Some. apply Hk. rewrite Ed, <- Permutation_middle. by right.
  - intros pk' j. destruct (decide (pk = pk')) as [<-|Hne].
    + rewrite lookup_alter_eq. destruct (peers !! pk) as [j0|] eqn:E; [|done]. intros [= <-].
      destruct (Hp pk j0 E) as (? & ? & Hq' & Hc' & Hw'). split_and!; [done|done|done| |done]. cbn.
      split; [done|]. rewrite elem_of_app in Hno. tauto.
    + rewrite lookup_alter_ne by done. intros Hj. destruct (Hp pk' j Hj) as (? & ? & Hq' & Hc' & Hw').
      rewrite Ed in Hc', Hw'. split_and!; [done|done|done|rewrite Hc'; in_lists|].
      intros Hwt. specialize (Hw' Hwt). revert Hw'. in_lists.
Qed.

Lemma gone (q d : list (list Z)) i pk : d !! i = Some pk -> NoDup (q ++ d) -> pk ∉ q ++ delete i d.
Proof.
  intros Hi Hq. pose proof (delete_Permutation d i pk Hi) as Ed. generalize dependent (delete i d). intros d' Ed.
  rewrite Ed, <- Permutation_middle in Hq. by apply NoDup_cons in Hq as [? _].
Qed.

Lemma retry_books jitter dials pk s :
  pk ∉ sw_queue s ++ dials ++ dials_of (sw_effects s) -> dial_books dials s -> dial_books dials (schedule_retry jitter pk s).
Proof.
  intros Hno Hs. unfold schedule_retry. destruct (sw_peers s !! pk) as [i|] eqn:E; [|done].
  destruct (pi_banned i); [done|]. destruct (pi_topics i) as [|t ts]; [done|].
  unfold dial_books. cbn -[app dials_of]. rewrite dials_of_app. change (dials_of [SwRetry _ _ _ _]) with (@nil (list Z)).
  rewrite app_nil_r. destruct Hs as [Ha Hl Hq Hk Hp]. split; [done..| |].
  - intros pk' Hin. rewrite lookup_alter_is_Some. by apply Hk.
  - intros pk' j. destruct (decide (pk = pk')) as [<-|Hne]; [|rewrite lookup_alter_ne by done; apply Hp].
    rewrite lookup_alter_eq, E. intros [= <-]. by destruct (Hp pk i E) as (? & ? & ? & ? & _).
Qed.

Lemma connect_result_books now jitter dials i pk ok s :
  sw_effects s = [] -> dials !! i = Some pk -> dial_books dials s ->
  dial_books (delete i dials) (handle_connect_result now jitter pk ok s).
Proof.
  intros He Hi Hs. unfold handle_connect_result.
  set (s1 := upd_peer _ pk (set_sw_active _ s)).
  assert (dial_books (delete i dials) s1) as H1.
  { unfold dial_books in *. cbn -[app dials_of]. rewrite He in *. change (dials_of []) with (@nil (list Z)) in *.
    rewrite app_nil_r in *. by apply finish_dial. }
  assert (pk ∉ sw_queue s1 ++ delete i dials ++ dials_of (sw_effects s1)) as Hno.
  { change (pk ∉ sw_queue s ++ delete i dials ++ dials_of (sw_effects s)). rewrite He, app_nil_r.
    destruct Hs as [_ _ Hq _ _]. rewrite He, app_nil_r in Hq. by apply gone. }
  destruct ok; [|by apply attempt_books, retry_books].
  destruct (match sw_connections s1 !! pk with Some b => _ | None => false end); [done|].
  apply attempt_books. set (peers := sw_peers s1) in *.
  assert (DialBooks (own_key s1) (ac_max_parallel (sw_config s1)) (alter (PeerInfo_connected now) pk peers) (sw_queue s1)
    (sw_active_connects s1) (delete i dials ++ dials_of (sw_effects s1))) as H2.
  { apply (DialBooks_peers _ _ peers); [by apply alter_same_flags|exact H1]. }
  unfold conn_try_send. by destruct (_ || _).
Qed.

(** ** The server leaves the client's books alone *)

Lemma emit_view e s : dials_of [e] = [] -> client_view (emit e s) = client_view s.
Proof. intros He. unfold client_view, emit. cbn [set_sw_effects sw_config sw_topics sw_peers sw_queue sw_server_registered sw_active_connects sw_effects]. by rewrite dials_of_app, He, app_nil_r. Qed.

(** The view of a state built by the server's handlers. *)
Ltac view := repeat first
  [ rewrite emit_view by done
  | progress change (client_view (set_sw_connects ?x ?s)) with (client_view s)
  | progress change (client_view (set_sw_pending ?x ?s)) with (client_view s)
  | progress change (client_view (set_sw_connections ?x ?s)) with (client_view s)
  | progress change (client_view (set_sw_replies ?x ?s)) with (client_view s)
  | progress change (client_view (set_sw_next_id ?x ?s)) with (client_view s)
  | progress change (client_view (set_sw_next_stream ?x ?s)) with (client_view s) ].

Section Server.
Context `{CryptoPrims, NoisePrims, BoxPrims}.

Lemma setup_view io fw sid udx s : client_view (try_setup_passive_holepunch io fw sid udx s).2 = client_view s.
Proof.
  unfold try_setup_passive_holepunch, take_holepunch_id. repeat case_match; simplify_eq; cbn [snd]; by view.
Qed.
Lemma offer_view io setup path s : client_view (offer_holepunch io setup path s).2 = client_view s.
Proof. unfold offer_holepunch, take_holepunch_id. repeat case_match; simplify_eq; cbn [snd]; by view. Qed.
Lemma release_view setup s : client_view (release_setup setup s) = client_view s.
Proof. destruct setup; cbn [release_setup]; [|done]. unfold HolepunchSetup_release. by view. Qed.
Lemma commit_view ifs sec setup pk nr s : client_view (commit_passive_holepunch ifs sec setup pk nr s) = client_view s.
Proof. unfold commit_passive_holepunch. repeat case_match; by view. Qed.
Lemma accept_view path token sid addr udx nr s : client_view (accept_client path token sid addr udx nr s) = client_view s.
Proof. unfold accept_client. repeat case_match; by view. Qed.
Lemma passive_view event s : client_view (handle_passive_holepunch_event event s) = client_view s.
Proof. destruct event; cbn [handle_passive_holepunch_event]; unfold close_in_flight; repeat case_match; by view. Qed.

(** How [answer_handshake] ends: rejected with no reply, or answered, and then the
    staged puncher is committed or the client accepted. *)
Lemma answer_cases io msg from peer_address payload nw s s' :
  answer_handshake io msg from peer_address payload nw s = Ok s' ->
  exists sid setup path hi s1 s2 s3,
    next_stream_id s = (sid, s1) /\
    ((setup, s2) = (None, s1) \/
     try_setup_passive_holepunch (ho_punch io) (np_firewall payload) sid (np_udx payload) s1 = (setup, s2)) /\
    offer_holepunch io setup path s2 = (hi, s3) /\
    (s' = emit (SwReply None) (release_setup setup s3) \/
     exists nr reply noise_reply token addr,
       s' = accept_client path token sid addr (np_udx payload) nr (emit (SwReply reply) (release_setup setup s3)) \/
       let replies := HandshakeReplyCache_insert (ho_later io) (hs_noise msg) noise_reply (sw_replies s3) in
       let s4 := emit (SwReply reply) (set_sw_replies replies s3) in
       match setup with
       | Some setup => s' = commit_passive_holepunch (ho_ifaces io) (ho_local_secret io) setup (nr_remote_public_key nr) nr s4
       | None => s' = accept_client path token sid addr (np_udx payload) nr s4
       end).
Proof.
  unfold answer_handshake. destruct (next_stream_id s) as [sid s1] eqn:E1. set (path := select_server_path _ _ _ _).
  set (can := (_ <? _) && is_some (np_udx payload)).
  destruct (if bool_decide (path = Holepunch) && can then _ else _) as [setup s2] eqn:E2.
  destruct (offer_holepunch io setup path s2) as [hi s3] eqn:E3. intros Hs.
  exists sid, setup, path, hi, s1, s2, s3. split_and!; [done| |done|].
  { destruct (bool_decide (path = Holepunch) && can); [by right|by left]. }
  destruct (NoiseWrap_send _ _ _) as [[noise_reply|e|] nw']; [|left; by injection Hs as <-|done].
  destruct (NoiseWrap_finalize nw') as [nr|e|]; [|left; by injection Hs as <-|done]. right.
  destruct (encode_server_handshake_reply _ _ _) as [reply|[]|] eqn:Er; cbn [mbind outcome_bind] in Hs;
    [|by destruct (can && _) in Hs].
  exists nr, reply, noise_reply,
    (rt_token <$> ((fun pk => mkRelayThroughInfo 1 pk (ho_token io)) <$> ac_relay_through (sw_config s))), (default from peer_address).
  destruct (can && _); [right|left; by injection Hs as <-]. destruct setup; by injection Hs as <-.
Qed.

Lemma answer_view io msg from peer_address payload nw s s' :
  answer_handshake io msg from peer_address payload nw s = Ok s' -> client_view s' = client_view s.
Proof.
  intros (sid & setup & path & hi & s1 & s2 & s3 & E1 & E2 & E3 & Hs)%answer_cases.
  assert (client_view s3 = client_view s) as E.
  { transitivity (client_view s2); [pose proof (offer_view io setup path s2) as Ho; by rewrite E3 in Ho|].
    transitivity (client_view s1); [|by injection E1 as _ <-].
    destruct E2 as [[= -> ->]|E2]; [done|]. pose proof (setup_view (ho_punch io) (np_firewall payload) sid (np_udx payload) s1) as Hv.
    by rewrite E2 in Hv. }
  destruct Hs as [->|(nr & reply & noise_reply & token & addr & [->|Hs])].
  - by rewrite emit_view, release_view.
  - by rewrite accept_view, emit_view, release_view.
  - cbn zeta in Hs. destruct setup; rewrite Hs, ?commit_view, ?accept_view; by view.
Qed.

Lemma handshake_view io msg from peer_address s s' :
  handle_server_handshake io msg from peer_address s = Ok s' -> client_view s' = client_view s.
Proof.
  unfold handle_server_handshake. destruct (HandshakeReplyCache_get _ _ _) as [[r|] c].
  - destruct (encode_server_handshake_reply _ _ _) as [reply|[]|]; [|done]. intros [= <-]. by view.
  - destruct (NoiseWrap_recv _ _) as [[p|e|] nw]; [|intros [= <-]; by view|done].
    destruct (negb _); [intros [= <-]; by view|]. intros Hs%answer_view. rewrite Hs. by view.
Qed.

Lemma holepunch_view fw nonce msg addr s s' :
  handle_peer_holepunch fw nonce msg addr s = Ok s' -> client_view s' = client_view s.
Proof.
  unfold handle_peer_holepunch. destruct (sw_connects s !! hm_id msg) as [e|]; [|intros [= <-]; by view].
  destruct (SecurePayload_decrypt _ _) as [hp|er|]; [|intros [= <-]; by view|done].
  destruct (punch_round hp addr e) as [started e']. destruct (SecurePayload_encrypt_with_nonce _ _ _) as [b|er|];
    [|intros [= <-]; destruct started; by view|done].
  destruct (encode_holepunch_msg_to_bytes _) as [b'|er|]; [| |done]; intros [= <-]; destruct started; by view.
Qed.
End Server.

(** ** The books of the passive hole punch, and the slots of the server *)

(** [n]: a bound on the ids given out. *)
Record PunchBooks (n : Z) (s : SwarmActor) : Prop := {
  pb_next : 0 <= sw_next_holepunch_id s <= n;
  pb_entry id e : sw_connects s !! id = Some e ->
    0 <= id < sw_next_holepunch_id s /\ sw_pending_handshakes s !! fl_remote_pk e = Some id /\
    nr_remote_public_key (fl_noise_result e) = fl_remote_pk e;
  pb_pending pk id : sw_pending_handshakes s !! pk = Some id -> exists e, sw_connects s !! id = Some e /\ fl_remote_pk e = pk
}.
Definition punch_view (s : SwarmActor) := (sw_connects s, sw_pending_handshakes s, sw_next_holepunch_id s).
Lemma PunchBooks_view n s s' : punch_view s' = punch_view s -> PunchBooks n s -> PunchBooks n s'.
Proof. unfold punch_view. intros E [Hn He Hp]. injection E as Ec Ep En. split; rewrite ?En, ?Ec, ?Ep; done. Qed.
Lemma PunchBooks_mono n m s : n <= m -> PunchBooks n s -> PunchBooks m s.
Proof. intros Hm [Hn He Hp]. split; [lia|done..]. Qed.

Definition slot_view (s : SwarmActor) := (sw_config s, sw_connections s).
Definition server_slots (c : ConnectionSet) : Z := Z.of_nat (size (filter (fun p => p.2 = false) c)).
(** The slots the server has given are within [max_peers]. *)
Definition SlotsOk (s : SwarmActor) : Prop :=
  server_slots (sw_connections s) <= Z.max 0 (ac_max_peers (sw_config s)).
Lemma SlotsOk_view s s' : slot_view s' = slot_view s -> SlotsOk s -> SlotsOk s'.
Proof. unfold slot_view, SlotsOk. intros E. by injection E as -> ->. Qed.

Lemma server_slots_le c : server_slots c <= ConnectionSet_len c.
Proof.
  unfold server_slots, ConnectionSet_len. apply Nat2Z.inj_le, map_subseteq_size, map_filter_subseteq.
Qed.
Lemma slots_added max pk c :
  ConnectionSet_len c < max -> server_slots (<[pk := false]> c) <= Z.max 0 max.
Proof.
  intros Hlt. etransitivity; [apply server_slots_le|]. unfold ConnectionSet_len in *.
  rewrite map_size_insert. destruct (c !! pk); unfold id; lia.
Qed.
Lemma slots_deleted pk c : server_slots (delete pk c) <= server_slots c.
Proof.
  unfold server_slots. apply Nat2Z.inj_le, map_subseteq_size. rewrite map_filter_delete. apply delete_subseteq.
Qed.
Lemma slots_initiated pk c : server_slots (<[pk := true]> (delete pk c)) <= server_slots c.
Proof.
  etransitivity; [|apply (slots_deleted pk)]. unfold server_slots. apply Nat2Z.inj_le, map_subseteq_size.
  rewrite map_filter_insert_False by done. rewrite map_filter_delete. apply delete_subseteq.
Qed.

Section Punching.
Context `{CryptoPrims, NoisePrims, BoxPrims}.

Lemma take_id_books n s :
  n + 1 < 2 ^ 64 -> PunchBooks n s -> PunchBooks (n + 1) (take_holepunch_id s).2 /\
  (take_holepunch_id s).1 = sw_next_holepunch_id s /\ sw_next_holepunch_id (take_holepunch_id s).2 = sw_next_holepunch_id s + 1.
Proof.
  intros Hb [Hn He Hp]. unfold take_holepunch_id. cbn [fst snd].
  assert (as_u64 (sw_next_holepunch_id s + 1) = sw_next_holepunch_id s + 1) as E.
  { apply as_u_id. unfold in_u. lia. }
  split_and!; [|done|exact E]. split; cbn; rewrite ?E; [lia| |done].
  intros id e Hi. destruct (He id e Hi) as (? & ? & ?). split_and!; [lia..|done|done].
Qed.

Lemma setup_books n io fw sid udx s setup s' :
  n + 1 < 2 ^ 64 -> try_setup_passive_holepunch io fw sid udx s = (setup, s') -> PunchBooks n s ->
  slot_view s' = slot_view s /\ PunchBooks (n + 1) s' /\
  (forall su, setup = Some su -> 0 <= su_id su < sw_next_holepunch_id s' /\ sw_connects s' !! su_id su = None).
Proof.
  intros Hb E Hs. unfold try_setup_passive_holepunch in E.
  destruct (take_id_books n s Hb Hs) as (Ht & Et1 & Et2).
  destruct udx as [udx|], (pn_socket io), (pn_port io); try (injection E as <- <-; split_and!; [done| |done]; by eapply PunchBooks_mono; [|exact Hs]; lia).
  destruct (negb (_ && _)); [injection E as <- <-; split_and!; [done| |done]; eapply PunchBooks_mono; [|exact Hs]; lia|].
  destruct (negb (pn_stream io)); [injection E as <- <-; split_and!; [done| |done]; eapply PunchBooks_mono; [|exact Hs]; lia|].
  destruct (take_holepunch_id s) as [id s1] eqn:E1. cbn [fst snd] in *.
  assert (slot_view s1 = slot_view s) as Hv by (unfold take_holepunch_id in E1; by injection E1 as _ <-).
  destruct (negb (pn_hook io)); injection E as <- <-; split_and!; [done|done|done|done| |].
  - by apply (PunchBooks_view _ s1).
  - intros su [= <-]. cbn. assert (sw_connects s1 = sw_connects s) as Ec by (unfold take_holepunch_id in E1; by injection E1 as _ <-).
    destruct Hs as [Hn He _]. subst id. split; [lia|]. rewrite Ec.
    destruct (sw_connects s !! sw_next_holepunch_id s) as [e|] eqn:Ee; [|done]. destruct (He _ _ Ee). lia.
Qed.

Lemma offer_books n io setup path s :
  n + 1 < 2 ^ 64 -> PunchBooks n s ->
  let s' := (offer_holepunch io setup path s).2 in
  PunchBooks (n + 1) s' /\ slot_view s' = slot_view s /\ sw_connects s' = sw_connects s /\
  sw_next_holepunch_id s <= sw_next_holepunch_id s'.
Proof.
  intros Hb Hs. destruct (take_id_books n s Hb Hs) as (Ht & _ & Et). unfold offer_holepunch.
  assert (PunchBooks (n + 1) s) by (eapply PunchBooks_mono; [|exact Hs]; lia).
  destruct setup, path as [|[]| |]; cbn beta iota zeta; cbn [fst snd]; try (split_and!; [done..|lia]).
  destruct (take_holepunch_id s) as [id s1] eqn:E1. cbn [fst snd] in *.
  split_and!; [done|unfold take_holepunch_id in E1; by injection E1 as _ <-..|lia].
Qed.

Lemma release_keeps setup s :
  punch_view (release_setup setup s) = punch_view s /\ slot_view (release_setup setup s) = slot_view s.
Proof. by destruct setup. Qed.

Lemma commit_books n ifs sec setup nr s :
  0 <= su_id setup < sw_next_holepunch_id s -> sw_connects s !! su_id setup = None -> PunchBooks n s ->
  let s' := commit_passive_holepunch ifs sec setup (nr_remote_public_key nr) nr s in
  PunchBooks n s' /\ slot_view s' = slot_view s.
Proof.
  intros Hid Hnew [Hn He Hp]. cbn zeta. unfold commit_passive_holepunch. set (pk := nr_remote_public_key nr).
  set (s1 := match sw_pending_handshakes s !! pk with Some _ => _ | None => _ end).
  assert (slot_view s1 = slot_view s /\ sw_next_holepunch_id s1 = sw_next_holepunch_id s /\
    sw_pending_handshakes s1 = <[pk := su_id setup]> (sw_pending_handshakes s) /\
    (forall id e, sw_connects s1 !! id = Some e <-> sw_connects s !! id = Some e /\ fl_remote_pk e <> pk)) as (Hv & En & Ep & Ec).
  { unfold s1. clear s1. destruct (sw_pending_handshakes s !! pk) as [old|] eqn:Eo.
    - destruct (Hp pk old Eo) as (e0 & Ee & Ek). cbn [sw_connects set_sw_pending]. rewrite Ee. split_and!; [done..|]. cbn.
      intros id e. rewrite lookup_delete_Some. split.
      + intros [Hne Hi]. split; [done|]. intros Epk. destruct (He id e Hi) as (_ & Hid' & _). rewrite Epk in Hid'. congruence.
      + intros [Hi Hne]. split; [|done]. intros <-. congruence.
    - split_and!; [done..|]. cbn. intros id e. split; [|tauto]. intros Hi. split; [done|]. intros Epk.
      destruct (He id e Hi) as (_ & Hid' & _). rewrite Epk in Hid'. congruence. }
  split; [|exact Hv]. split; cbn [sw_next_holepunch_id sw_connects sw_pending_handshakes set_sw_connects]; rewrite ?En, ?Ep.
  - lia.
  - intros id e. destruct (decide (su_id setup = id)) as [<-|Hne].
    + rewrite lookup_insert_eq. intros [= <-]. cbn. split_and!; [lia..|by rewrite lookup_insert_eq|done].
    + rewrite lookup_insert_ne by done. intros [Hi Hpk]%Ec. destruct (He id e Hi) as (? & ? & ?).
      split_and!; [lia..|by rewrite lookup_insert_ne|done].
  - intros pk' id. destruct (decide (pk = pk')) as [<-|Hne].
    + rewrite lookup_insert_eq. intros [= <-]. eexists. by rewrite lookup_insert_eq.
    + rewrite lookup_insert_ne by done. intros Hpd. destruct (Hp pk' id Hpd) as (e & Hi & Hpk). exists e.
      rewrite lookup_insert_ne by (intros <-; congruence). split; [|done]. apply Ec. by rewrite Hpk.
Qed.

Lemma accept_books n path token sid addr udx nr s :
  PunchBooks n s -> SlotsOk s ->
  PunchBooks n (accept_client path token sid addr udx nr s) /\ SlotsOk (accept_client path token sid addr udx nr s).
Proof.
  intros Hp Hs. unfold accept_client. destruct (ConnectionSet_has _ _); [done|].
  destruct (Z.leb_spec (ac_max_peers (sw_config s)) (ConnectionSet_len (sw_connections s))); [done|].
  destruct udx as [udx|]; [|done]. set (s1 := set_sw_connections _ s).
  assert (PunchBooks n s1) by (by apply (PunchBooks_view _ s)).
  assert (SlotsOk s1) by (unfold SlotsOk; by apply slots_added).
  destruct (ac_relay_through _), token; (split; [by apply (PunchBooks_view _ s1)|by apply (SlotsOk_view s1)]).
Qed.

Lemma answer_books n io msg from peer_address payload nw s s' :
  n + 2 < 2 ^ 64 -> answer_handshake io msg from peer_address payload nw s = Ok s' ->
  PunchBooks n s -> SlotsOk s -> PunchBooks (n + 2) s' /\ SlotsOk s'.
Proof.
  intros Hb (sid & setup & path & hi & s1 & s2 & s3 & E1 & E2 & E3 & Hs)%answer_cases Hp Hk.
  assert (PunchBooks n s1 /\ SlotsOk s1) as [Hp1 Hk1].
  { unfold next_stream_id in E1. injection E1 as _ <-. split; [by apply (PunchBooks_view _ s)|by apply (SlotsOk_view s)]. }
  assert (slot_view s2 = slot_view s1 /\ PunchBooks (n + 1) s2 /\
    (forall su, setup = Some su -> 0 <= su_id su < sw_next_holepunch_id s2 /\ sw_connects s2 !! su_id su = None)) as (Hv2 & Hp2 & Hsu).
  { destruct E2 as [[= -> ->]|E2]; [split_and!; [done|eapply PunchBooks_mono; [|exact Hp1]; lia|done]|].
    eapply setup_books; [|exact E2|exact Hp1]. lia. }
  pose proof (offer_books (n + 1) io setup path s2 ltac:(lia) Hp2) as (Hp3 & Hv3 & Hc3 & Hn3). rewrite E3 in *. cbn [snd] in *.
  replace (n + 1 + 1) with (n + 2) in Hp3 by lia.
  assert (SlotsOk s3) as Hk3 by (apply (SlotsOk_view s1); [by rewrite Hv3|done]).
  assert (PunchBooks (n + 2) (release_setup setup s3) /\ SlotsOk (release_setup setup s3)) as [Hpr Hkr].
  { destruct (release_keeps setup s3). split; [by eapply PunchBooks_view|by eapply SlotsOk_view]. }
  destruct Hs as [->|(nr & reply & noise_reply & token & addr & [->|Hs])].
  - split; [by apply (PunchBooks_view _ (release_setup setup s3))|by apply (SlotsOk_view (release_setup setup s3))].
  - apply accept_books; [by apply (PunchBooks_view _ (release_setup setup s3))|by apply (SlotsOk_view (release_setup setup s3))].
  - cbn zeta in Hs. set (s4 := emit (SwReply reply) _) in *.
    assert (PunchBooks (n + 2) s4) as Hp4 by (by apply (PunchBooks_view _ s3)).
    assert (SlotsOk s4) as Hk4 by (by apply (SlotsOk_view s3)).
    destruct setup as [su|]; subst s'; [|by apply accept_books].
    destruct (Hsu su eq_refl) as [Hid Hnew].
    destruct (commit_books (n + 2) (ho_ifaces io) (ho_local_secret io) su nr s4) as [Hpc Hvc];
      [change (sw_next_holepunch_id s4) with (sw_next_holepunch_id s3); lia
      |change (sw_connects s4) with (sw_connects s3); by rewrite Hc3|done|].
    split; [done|by apply (SlotsOk_view s4)].
Qed.
End Punching.

(** ** The server is registered while a topic wants it *)

Definition Registered (s : SwarmActor) : Prop :=
  sw_server_registered s = true <-> exists t st, sw_topics s !! t = Some st /\ ts_is_server st = true.
Lemma Registered_view s s' : client_view s' = client_view s -> Registered s -> Registered s'.
Proof. unfold client_view, Registered. intros E. by injection E as _ -> _ _ -> _ _. Qed.

(** What all handlers keep: [n] bounds the hole-punch ids, [dials] are those that
    were running before the turn. *)
Record ActorOk (n : Z) (dials : list (list Z)) (s : SwarmActor) : Prop := {
  ok_dials : dial_books dials s;
  ok_registered : Registered s;
  ok_punch : PunchBooks n s;
  ok_slots : SlotsOk s
}.
(** A handler that leaves all but the reply cache and the channel as they are. *)
Lemma ActorOk_same n dials s s' :
  client_view s' = client_view s -> punch_view s' = punch_view s -> slot_view s' = slot_view s ->
  ActorOk n dials s -> ActorOk n dials s'.
Proof.
  intros Hc Hp Hs [H1 H2 H3 H4].
  split; [by eapply dial_books_view|by eapply Registered_view|by eapply PunchBooks_view|by eapply SlotsOk_view].
Qed.
Lemma ActorOk_mono n m dials s : n <= m -> ActorOk n dials s -> ActorOk m dials s.
Proof. intros Hm [H1 H2 H3 H4]. split; [done..|by eapply PunchBooks_mono|done]. Qed.

Section Handlers.
Context `{CryptoPrims, NoisePrims, BoxPrims}.

Lemma handshake_turn_ok n dials io msg from peer_address s s' :
  n + 2 < 2 ^ 64 -> handle_server_handshake io msg from peer_address s = Ok s' ->
  ActorOk n dials s -> ActorOk (n + 2) dials s'.
Proof.
  intros Hn Hs [Hbd Hbr Hbp Hbs]. pose proof (handshake_view _ _ _ _ _ _ Hs) as Hv.
  assert (PunchBooks (n + 2) s' /\ SlotsOk s') as [Hp Hk].
  { unfold handle_server_handshake in Hs. destruct (HandshakeReplyCache_get _ _ _) as [cached c]. cbn beta iota in Hs.
    set (s1 := set_sw_replies c s) in *.
    assert (PunchBooks n s1) as Hp1 by (by apply (PunchBooks_view _ s)).
    assert (SlotsOk s1) as Hk1 by (by apply (SlotsOk_view s)).
    assert (forall e, PunchBooks (n + 2) (emit e s1) /\ SlotsOk (emit e s1)) as He.
    { intros e. split; [|by apply (SlotsOk_view s1)]. eapply PunchBooks_mono; [|by apply (PunchBooks_view _ s1)]. lia. }
    destruct cached as [r|].
    - destruct (encode_server_handshake_reply _ _ _) as [reply|[]|]; [|done]. injection Hs as <-. apply He.
    - destruct (NoiseWrap_recv _ _) as [[p|e|] nw]; [|injection Hs as <-; apply He|done].
      destruct (negb _); [injection Hs as <-; apply He|]. by eapply (answer_books n); [|exact Hs|..]. }
  split; [by eapply dial_books_view|by eapply Registered_view|done|done].
Qed.

Lemma holepunch_turn_ok n dials fw nonce msg addr s s' :
  handle_peer_holepunch fw nonce msg addr s = Ok s' -> ActorOk n dials s -> ActorOk n dials s'.
Proof.
  intros Hs [Hbd Hbr Hbp Hbs]. pose proof (holepunch_view _ _ _ _ _ _ Hs) as Hv.
  assert (slot_view s' = slot_view s /\ PunchBooks n s') as [Hk Hp].
  { unfold handle_peer_holepunch in Hs. destruct (sw_connects s !! hm_id msg) as [e|] eqn:E.
    2:{ injection Hs as <-. split; [done|by apply (PunchBooks_view _ s)]. }
    destruct (SecurePayload_decrypt _ _) as [hp|er|]; [|injection Hs as <-; split; [done|by apply (PunchBooks_view _ s)]|done].
    destruct (punch_round hp addr e) as [started e'] eqn:Er.
    assert (fl_remote_pk e' = fl_remote_pk e /\ fl_noise_result e' = fl_noise_result e) as [Ek En].
    { unfold punch_round in Er. by destruct (pl_punching hp); injection Er as _ <-. }
    set (s1 := set_sw_connects _ _) in Hs.
    assert (slot_view s1 = slot_view s /\ PunchBooks n s1) as [Hv1 Hp1].
    { destruct Hbp as [Hn He Hp]. destruct (He _ _ E) as (? & ? & ?).
      assert (forall s0, sw_next_holepunch_id s0 = sw_next_holepunch_id s -> sw_pending_handshakes s0 = sw_pending_handshakes s ->
        sw_connects s0 = sw_connects s ->
        PunchBooks n (set_sw_connects (<[hm_id msg := e']> (sw_connects s0)) s0)) as Hgen.
      { intros s0 E1 E2 E3. split; cbn; rewrite ?E1, ?E2, ?E3; [done| |].
        - intros id e2. destruct (decide (hm_id msg = id)) as [<-|Hne].
          + rewrite lookup_insert_eq. intros [= <-]. by rewrite Ek, En.
          + rewrite lookup_insert_ne by done. apply He.
        - intros pk id Hpd. destruct (Hp pk id Hpd) as (e2 & Hi & Hpk). destruct (decide (hm_id msg = id)) as [<-|Hne].
          + exists e'. rewrite lookup_insert_eq. split; [done|]. congruence.
          + exists e2. by rewrite lookup_insert_ne. }
      unfold s1. destruct started; (split; [done|by apply Hgen]). }
    destruct (SecurePayload_encrypt_with_nonce _ _ _) as [b|er|]; [|injection Hs as <-; split; [done|by apply (PunchBooks_view _ s1)]|done].
    destruct (encode_holepunch_msg_to_bytes _) as [b'|er|]; [| |done]; injection Hs as <-;
      (split; [done|by apply (PunchBooks_view _ s1)]). }
  split; [by eapply dial_books_view|by eapply Registered_view|done|by eapply SlotsOk_view].
Qed.

Lemma close_books n id e s :
  sw_connects s !! id = Some e -> PunchBooks n s -> PunchBooks n (close_in_flight id e s).
Proof.
  intros Hi [Hn He Hp]. destruct (He id e Hi) as (Hid & Hpd & _). split; cbn -[app]; [done| |].
  - intros id' e' [Hne Hi']%lookup_delete_Some. destruct (He id' e' Hi') as (? & Hpd' & ?). split_and!; [lia..| |done].
    rewrite lookup_delete_ne; [done|]. intros E. rewrite E in Hpd. congruence.
  - intros pk id' [Hne Hpd']%lookup_delete_Some. destruct (Hp pk id' Hpd') as (e' & Hi' & Hpk).
    exists e'. rewrite lookup_delete_ne by (intros <-; congruence). done.
Qed.

Lemma passive_turn_ok n dials event s : ActorOk n dials s -> ActorOk n dials (handle_passive_holepunch_event event s).
Proof.
  intros [Hbd Hbr Hbp Hbs]. pose proof (passive_view event s) as Hv.
  assert (PunchBooks n (handle_passive_holepunch_event event s) /\ SlotsOk (handle_passive_holepunch_event event s)) as [Hp Hk].
  { destruct event as [id addr|id]; cbn [handle_passive_holepunch_event];
      (destruct (sw_connects s !! id) as [e|] eqn:E; [|done]); pose proof (close_books n id e s E Hbp) as Hc;
      set (s1 := close_in_flight id e s) in *; assert (SlotsOk s1) as Hs1 by (by apply (SlotsOk_view s)).
    - destruct (ConnectionSet_has _ _); [done|].
      destruct (Z.leb_spec (ac_max_peers (sw_config s1)) (ConnectionSet_len (sw_connections s1))); [done|].
      split; [by apply (PunchBooks_view _ s1)|]. unfold SlotsOk. cbn -[close_in_flight]. by apply slots_added.
    - destruct (fl_puncher e); (split; [by apply (PunchBooks_view _ s1)|by apply (SlotsOk_view s1)]). }
  split; [by eapply dial_books_view|by eapply Registered_view|done|done].
Qed.
End Handlers.

(** ** The client's handlers and the commands *)

Definition dial_view (s : SwarmActor) :=
  (sw_config s, sw_peers s, sw_queue s, sw_active_connects s, dials_of (sw_effects s)).
Lemma dial_books_same dials s s' : dial_view s' = dial_view s -> dial_books dials s -> dial_books dials s'.
Proof. unfold dial_view, dial_books, own_key. intros E. by injection E as -> -> -> -> ->. Qed.
Definition rest_view (s : SwarmActor) :=
  (sw_topics s, sw_server_registered s, punch_view s, slot_view s).
Lemma ActorOk_dials n dials dials' s s' :
  dial_books dials' s' -> rest_view s' = rest_view s -> ActorOk n dials s -> ActorOk n dials' s'.
Proof.
  unfold rest_view. intros Hd E [_ Hr Hp Hs]. injection E as Et Er Ec Ep En Eg Es.
  split; [done| | |].
  - unfold Registered. by rewrite Et, Er.
  - apply (PunchBooks_view _ s); [|done]. unfold punch_view. congruence.
  - apply (SlotsOk_view s); [|done]. unfold slot_view. congruence.
Qed.

Lemma attempt_rest s : rest_view (attempt_connections s) = rest_view s.
Proof.
  unfold attempt_connections. generalize (length (sw_queue s)) as n. intros n. revert s.
  induction n as [|n IH]; intros s; cbn [attempt_loop]; [done|].
  destruct (_ <? _); [|done]. destruct (sort_queue _ _) as [|pk q]; [done|]. by rewrite IH.
Qed.

Lemma answers_keep ws s :
  let s' := foldl (fun s w => emit (SwAnswer w) s) s ws in rest_view s' = rest_view s /\ dial_view s' = dial_view s.
Proof.
  revert s. induction ws as [|w ws IH]; intros s; [done|]. cbn [foldl]. destruct (IH (emit (SwAnswer w) s)) as [-> ->].
  split; [done|]. unfold dial_view. cbn -[app dials_of]. by rewrite dials_of_app, app_nil_r.
Qed.

Lemma discovery_ok n dials event s : ActorOk n dials s -> ActorOk n dials (handle_discovery_event event s).
Proof.
  intros Hs. pose proof Hs as [Hbd Hbr Hbp Hbs]. destruct event as [pk relays topic|topic].
  - eapply ActorOk_dials; [by apply found_books| |done]. cbn [handle_discovery_event]. by repeat case_match.
  - split; [by apply refresh_books| | |]; cbn [handle_discovery_event]; set (s1 := set_sw_topics _ s);
      assert (rest_view (check_flush_waiters (attempt_connections s1)) = rest_view s1) as E by
        (rewrite <- (attempt_rest s1); unfold check_flush_waiters; destruct (all_topics_refreshed _); [|done];
         by destruct (answers_keep (sw_flush_waiters (attempt_connections s1)) (attempt_connections s1)));
      unfold rest_view in E; injection E as Et Er Ec Ep En Eg Es.
    + unfold Registered. rewrite Et, Er. cbn. unfold Registered in Hbr. rewrite Hbr. split; intros (t & st & Ht & Hsv).
      * destruct (decide (topic = t)) as [<-|Hne].
        -- eexists topic, _. rewrite lookup_alter_eq, Ht. by split.
        -- exists t, st. by rewrite lookup_alter_ne.
      * destruct (decide (topic = t)) as [<-|Hne].
        -- rewrite lookup_alter_eq in Ht. destruct (sw_topics s !! topic) as [st0|] eqn:E0; [|done]. injection Ht as <-.
           by exists topic, st0.
        -- exists t, st. by rewrite lookup_alter_ne in Ht.
    + apply (PunchBooks_view _ s); [|done]. unfold punch_view. rewrite Ec, Ep, En. done.
    + apply (SlotsOk_view s); [|done]. unfold slot_view. rewrite Eg, Es. done.
Qed.

Lemma join_ok n dials topic server client s `{CryptoPrims} :
  ActorOk n dials s -> ActorOk n dials (do_join topic server client s).
Proof.
  intros [Hbd Hbr Hbp Hbs]. unfold do_join. destruct (bool_decide_reflect (is_Some (sw_topics s !! topic))) as [|Hno]; [done|].
  rewrite <- eq_None_not_Some in Hno. set (s1 := if server && _ then _ else s).
  assert (dial_view s1 = dial_view s /\ sw_topics s1 = sw_topics s /\ punch_view s1 = punch_view s /\ slot_view s1 = slot_view s /\
    sw_server_registered s1 = (server || sw_server_registered s)) as (Ed & Et & Ep & Es & Er).
  { unfold s1. destruct server, (sw_server_registered s) eqn:Er; cbn [andb negb orb]; try done. split_and!; [|done..].
    unfold dial_view. cbn -[app dials_of]. by rewrite dials_of_app, app_nil_r. }
  cbn zeta. set (s2 := emit _ s1). split.
  - apply (dial_books_same _ s); [|done]. rewrite <- Ed. unfold dial_view. cbn -[app dials_of]. by rewrite dials_of_app, app_nil_r.
  - unfold Registered in *. cbn. rewrite Er, Et. rewrite orb_true_iff, Hbr. split.
    + intros [->|(t & st & Ht & Hst)]; [exists topic; eexists; by rewrite lookup_insert_eq|].
      exists t, st. rewrite lookup_insert_ne by (intros <-; congruence). done.
    + intros (t & st & Ht & Hst). destruct (decide (topic = t)) as [<-|Hne].
      * rewrite lookup_insert_eq in Ht. injection Ht as <-. by left.
      * rewrite lookup_insert_ne in Ht by done. right. by exists t, st.
  - by apply (PunchBooks_view _ s).
  - by apply (SlotsOk_view s).
Qed.

Lemma unregister_ok n dials s s0 `{CryptoPrims} :
  dial_books dials s -> punch_view s = punch_view s0 -> slot_view s = slot_view s0 -> PunchBooks n s0 -> SlotsOk s0 ->
  map_Forall (fun _ t => ts_is_server t = false) (sw_topics s) -> ActorOk n dials (unregister s).
Proof.
  intros Hd Ep Es Hp Hs Hnone. split.
  - apply (dial_books_same _ s); [|done]. unfold dial_view. cbn -[app dials_of]. by rewrite dials_of_app, app_nil_r.
  - unfold Registered. cbn. split; [done|]. intros (t & st & Ht & Hst). specialize (Hnone t st Ht). cbn in Hnone. congruence.
  - by apply (PunchBooks_view _ s0).
  - by apply (SlotsOk_view s0).
Qed.

Lemma leave_ok n dials topic s `{CryptoPrims} : ActorOk n dials s -> ActorOk n dials (do_leave topic s).
Proof.
  intros [Hbd Hbr Hbp Hbs]. unfold do_leave. destruct (sw_topics s !! topic) as [state|] eqn:E; [|done].
  set (s1 := set_sw_topics _ s). set (s2 := if ts_cancel state then _ else s1).
  set (s3 := set_sw_peers _ s2).
  assert (dial_books dials s3 /\ sw_topics s3 = delete topic (sw_topics s) /\ sw_server_registered s3 = sw_server_registered s /\
    punch_view s3 = punch_view s /\ slot_view s3 = slot_view s) as (Hd & Et & Er & Ep & Es).
  { assert (dial_view s2 = dial_view s /\ rest_view s2 = rest_view s1) as [E2 Er2].
    { unfold s2. destruct (ts_cancel state); [|done]. split; [|done]. unfold dial_view. cbn -[app dials_of].
      by rewrite dials_of_app, app_nil_r. }
    unfold rest_view in Er2. injection Er2 as Et Er Ec Ep En Eg Es. split_and!; [|done|done|unfold punch_view; cbn; congruence|unfold slot_view; cbn; congruence].
    pose proof (dial_books_same dials s s2 E2 Hbd) as H2. refine (DialBooks_peers _ _ (sw_peers s2) _ _ _ _ _ H2).
    intros pk. cbn. rewrite lookup_fmap. destruct (sw_peers s2 !! pk); by constructor. }
  assert (ActorOk n dials s3 /\ (ts_is_server state = true -> sw_server_registered s3 = true) \/
    (ts_is_server state = true /\ sw_server_registered s3 = true /\
     map_Forall (fun _ t => ts_is_server t = false) (sw_topics s3))) as Hcase.
  { destruct (ts_is_server state) eqn:Esv.
    - assert (sw_server_registered s3 = true) as Hreg by (rewrite Er; apply Hbr; by exists topic, state).
      destruct (decide (map_Forall (fun _ t => ts_is_server t = false) (sw_topics s3))) as [|Hn]; [by right|left].
      apply map_not_Forall in Hn as (t & st & Ht & Hst); [|apply _]. split; [|done].
      split; [done| |by apply (PunchBooks_view _ s)|by apply (SlotsOk_view s)].
      unfold Registered. rewrite Hreg. split; [|done]. intros _. exists t, st. split; [done|]. by destruct (ts_is_server st).
    - left. split; [|done]. split; [done| |by apply (PunchBooks_view _ s)|by apply (SlotsOk_view s)].
      unfold Registered in *. rewrite Er, Et, Hbr. split; intros (t & st & Ht & Hst); exists t, st; (split; [|done]).
      + rewrite lookup_delete_ne by (intros <-; congruence). done.
      + by apply lookup_delete_Some in Ht as [_ ?]. }
  destruct Hcase as [[Hok Hreg]|(Hsv & Hreg & Hnone)].
  - destruct (ts_is_server state); [rewrite (Hreg eq_refl)|done]. cbn [andb].
    destruct (bool_decide_reflect (map_Forall (fun _ t => ts_is_server t = false) (sw_topics s3))) as [Hnone|]; [|done].
    exfalso. destruct Hok as [_ Hr _ _]. destruct (proj1 Hr (Hreg eq_refl)) as (t & st & Ht & Hst).
    specialize (Hnone t st Ht). cbn in Hnone. congruence.
  - rewrite Hsv, Hreg. cbn [andb]. rewrite bool_decide_eq_true_2 by done. cbn [negb]. by apply (unregister_ok n dials s3 s).
Qed.

Lemma emit_ok n dials e s : dials_of [e] = [] -> ActorOk n dials s -> ActorOk n dials (emit e s).
Proof. intros He. apply ActorOk_same; [by apply emit_view|done..]. Qed.

(** Leaving the loop. *)
Lemma shutdown_ok n dials s `{CryptoPrims} :
  dial_books dials s -> PunchBooks n s -> SlotsOk s -> ActorOk n dials (swarm_shutdown s).
Proof.
  intros Hd Hp Hs. unfold swarm_shutdown. apply emit_ok; [done|].
  set (s1 := foldl _ s _).
  assert (dial_view s1 = dial_view s /\ punch_view s1 = punch_view s /\ slot_view s1 = slot_view s) as (Ed & Ep & Es).
  { unfold s1. generalize (map_to_list (sw_topics s)) as l. intros l. clear s1. revert s Hd Hp Hs. 
    induction l as [|t l IH]; intros s Hd Hp Hs; [done|]. cbn [foldl].
    destruct (ts_cancel t.2); [|by apply IH].
    destruct (IH (emit (SwCancel t.1) s)) as (-> & -> & ->);
      [|by apply (PunchBooks_view _ s)|by apply (SlotsOk_view s)|split_and!; [|done..]].
    - apply (dial_books_same _ s); [|done]. unfold dial_view. cbn -[app dials_of]. by rewrite dials_of_app, app_nil_r.
    - unfold dial_view. cbn -[app dials_of]. by rewrite dials_of_app, app_nil_r. }
  set (s2 := set_sw_topics ∅ s1).
  assert (dial_books dials s2) as Hd2 by (by apply (dial_books_same _ s)).
  destruct (sw_server_registered s2) eqn:Er.
  - apply (unregister_ok n dials s2 s); [done..|apply map_Forall_empty].
  - split; [done| |by apply (PunchBooks_view _ s)|by apply (SlotsOk_view s)].
    unfold Registered. rewrite Er. split; [done|]. intros (t & st & Ht & _). destruct (lookup_empty_Some _ _ Ht).
Qed.

Lemma connect_result_ok n now jitter dials i pk ok s :
  sw_effects s = [] -> dials !! i = Some pk -> ActorOk n dials s ->
  ActorOk n (delete i dials) (handle_connect_result now jitter pk ok s).
Proof.
  intros He Hi Hs. pose proof Hs as [Hbd Hbr Hbp Hbs].
  pose proof (connect_result_books now jitter dials i pk ok s He Hi Hbd) as Hd.
  set (s' := handle_connect_result _ _ _ _ _) in *.
  assert (sw_topics s' = sw_topics s /\ sw_server_registered s' = sw_server_registered s /\ punch_view s' = punch_view s /\
    sw_config s' = sw_config s /\
    (sw_connections s' = sw_connections s \/ sw_connections s' = <[pk := true]> (delete pk (sw_connections s)))) as (Et & Er & Ep & Ec & En).
  { assert (forall a, let b := attempt_connections a in sw_topics b = sw_topics a /\ sw_server_registered b = sw_server_registered a /\
      punch_view b = punch_view a /\ sw_config b = sw_config a /\ sw_connections b = sw_connections a) as Ha.
    { intros a. cbv zeta. pose proof (attempt_rest a) as E. unfold rest_view, slot_view in E.
      injection E as -> -> E1 E2 E3 -> ->. split_and!; try done. unfold punch_view. congruence. }
    unfold s', handle_connect_result. clear s' Hd. set (s1 := upd_peer _ pk _).
    destruct ok.
    - destruct (match sw_connections s1 !! pk with Some b => _ | None => false end); [by split_and!; [..|left]|].
      match goal with |- context [attempt_connections ?a] => destruct (Ha a) as (-> & -> & -> & -> & ->) end.
      unfold conn_try_send. destruct (_ || _); (split_and!; [done..|by right]).
    - match goal with |- context [attempt_connections ?a] => destruct (Ha a) as (-> & -> & -> & -> & ->) end.
      unfold schedule_retry. repeat case_match; (split_and!; [done..|by left]). }
  split; [done|unfold Registered; by rewrite Et, Er|by apply (PunchBooks_view _ s)|].
  unfold SlotsOk in *. rewrite Ec. destruct En as [->| ->]; [done|]. etransitivity; [apply slots_initiated|done].
Qed.

Section World.
Context `{CryptoPrims, NoisePrims, BoxPrims}.

(** Between turns. *)
Definition WorldOk (n : Z) (w : SwarmWorld) : Prop :=
  sw_effects (ww_actor w) = [] /\ ActorOk n (ww_dials w) (ww_actor w).

Lemma absorb_ok n s w : ActorOk n (ww_dials w) s -> WorldOk n (absorb s w).
Proof.
  intros Hok. split; [done|]. unfold absorb. cbn [ww_dials ww_actor]. destruct Hok as [Hbd Hbr Hbp Hbs].
  split; [|done|by apply (PunchBooks_view _ s)|by apply (SlotsOk_view s)].
  unfold dial_books in *. cbn -[app dials_of]. change (dials_of []) with (@nil (list Z)). by rewrite app_nil_r.
Qed.

Lemma conn_try_views c s :
  let s' := conn_try_send c s in client_view s' = client_view s /\ punch_view s' = punch_view s /\ slot_view s' = slot_view s.
Proof. unfold conn_try_send. by destruct (_ || _). Qed.

Lemma swarm_turn_ok n e w b w' :
  n + 2 < 2 ^ 64 -> WorldOk n w -> swarm_turn e w = Ok (b, w') -> WorldOk (n + 2) w'.
Proof.
  intros Hn [He Hok] Ht.
  assert (forall s w0 b w', ActorOk n (ww_dials w0) s -> goes_on s w0 = Ok (b, w') -> WorldOk (n + 2) w') as Hgo.
  { intros s w0 b0 w0' Hs [= <- <-]. apply absorb_ok. eapply ActorOk_mono; [|exact Hs]. lia. }
  assert (WorldOk (n + 2) w) as Hsame by (split; [done|]; eapply ActorOk_mono; [|exact Hok]; lia).
  assert (forall s, ActorOk n (ww_dials w) s \/ (dial_books (ww_dials w) s /\ PunchBooks n s /\ SlotsOk s) ->
    stops s w = Ok (b, w') -> WorldOk (n + 2) w') as Hstop.
  { intros s Hs [= <- <-]. apply absorb_ok. eapply (ActorOk_mono n); [lia|].
    destruct Hs as [[]|(? & ? & ?)]; by apply shutdown_ok. }
  destruct e as [cmd| |event|io msg from pa|fw nonce msg addr|i now jitter ok|i ok|i|event|now| |]; cbn [swarm_turn] in Ht.
  - destruct cmd as [topic server client reply|topic reply|reply|reply]; cbn [swarm_command] in Ht.
    + eapply (Hgo _ w); [|exact Ht]. apply emit_ok; [done|]. by apply join_ok.
    + eapply (Hgo _ w); [|exact Ht]. apply emit_ok; [done|]. by apply leave_ok.
    + eapply (Hgo _ w); [|exact Ht]. destruct (all_topics_refreshed _); [by apply emit_ok|].
      by apply (ActorOk_same _ _ (ww_actor w)).
    + eapply Hstop; [|exact Ht]. right. destruct Hok as [Hbd Hbr Hbp Hbs].
      destruct (sw_server_registered _); (split_and!; [|by apply (PunchBooks_view _ (ww_actor w))|by apply (SlotsOk_view (ww_actor w))]);
        (apply (dial_books_same _ (ww_actor w)); [|done]; unfold dial_view; cbn -[app dials_of]; by rewrite ?dials_of_app, ?app_nil_r).
  - eapply Hstop; [|exact Ht]. by left.
  - eapply (Hgo _ w); [|exact Ht]. by apply discovery_ok.
  - destruct (handle_server_handshake io msg from pa (ww_actor w)) as [s|[]|] eqn:Es; [|done]. injection Ht as <- <-.
    apply absorb_ok. by eapply handshake_turn_ok.
  - destruct (handle_peer_holepunch fw nonce msg addr (ww_actor w)) as [s|[]|] eqn:Es; [|done]. 
    eapply (Hgo s w); [|exact Ht]. by eapply holepunch_turn_ok.
  - destruct (ww_dials w !! i) as [pk|] eqn:Ei; [|by injection Ht as <- <-].
    eapply (Hgo _ (mkSwarmWorld _ _ _ _ _)); [|exact Ht]. by apply connect_result_ok.
  - destruct (ww_serving w !! i) as [[pk task]|]; [|by injection Ht as <- <-]. destruct ok; [|injection Ht as <- <-; exact Hsame].
    destruct (channel_ready _); [|by injection Ht as <- <-]. eapply (Hgo _ (mkSwarmWorld _ _ _ _ _)); [|exact Ht].
    destruct (conn_try_views (mkConnection pk false []) (ww_actor w)) as (? & ? & ?). by apply (ActorOk_same _ _ (ww_actor w)).
  - destruct (ww_failures w !! i) as [pk|]; [|by injection Ht as <- <-].
    eapply (Hgo _ (mkSwarmWorld _ _ _ _ _)); [|exact Ht]. destruct Hok as [Hbd Hbr Hbp Hbs].
    split; [done|done|by apply (PunchBooks_view _ (ww_actor w))|]. unfold SlotsOk in *. cbn.
    etransitivity; [apply slots_deleted|done].
  - eapply (Hgo _ w); [|exact Ht]. by apply passive_turn_ok.
  - eapply (Hgo _ w); [|exact Ht]. by apply (ActorOk_same _ _ (ww_actor w)).
  - eapply (Hgo _ w); [|exact Ht]. by apply (ActorOk_same _ _ (ww_actor w)).
  - eapply (Hgo _ w); [|exact Ht]. by apply (ActorOk_same _ _ (ww_actor w)).
Qed.

Lemma swarm_run_ok n events w b w' :
  n + 2 * len events < 2 ^ 64 -> WorldOk n w -> swarm_run events w = Ok (b, w') -> WorldOk (n + 2 * len events) w'.
Proof.
  revert n w. induction events as [|e events IH]; intros n w Hn Hw Hr.
  { cbn in Hr. injection Hr as _ <-. change (len []) with 0. by rewrite Z.mul_0_r, Z.add_0_r. }
  rewrite len_cons in *. cbn [swarm_run] in Hr. destruct (swarm_turn e w) as [[running w1]|[]|] eqn:Et; [|done].
  pose proof (len_nonneg events). cbn in Hr.
  assert (WorldOk (n + 2) w1) as Hw1 by (eapply swarm_turn_ok; [|exact Hw|exact Et]; lia).
  destruct running.
  - replace (n + 2 * (1 + len events)) with ((n + 2) + 2 * len events) by lia. eapply IH; [lia|done|done].
  - injection Hr as _ <-. destruct Hw1 as [? Hw1]. split; [done|]. eapply ActorOk_mono; [|exact Hw1]. lia.
Qed.

Lemma swarm_new_ok config port' : WorldOk 0 (SwarmWorld_new config port').
Proof.
  split; [done|]. split.
  - split; cbn -[app]; [done|lia|constructor| |].
    + intros pk Hin. by apply elem_of_nil in Hin.
    + intros pk i Hi. by apply lookup_empty_Some in Hi.
  - unfold Registered. cbn. split; [done|]. intros (t & st & Ht & _). destruct (lookup_empty_Some _ _ Ht).
  - split; cbn; [lia| |]; intros ? ? Hx; by apply lookup_empty_Some in Hx.
  - unfold SlotsOk. cbn. change (server_slots ∅) with 0. lia.
Qed.

(** C21: the books of the swarm balance. After any events (fewer than 2^62) from a
    fresh start, if the actor has not panicked: [active_connects] is the number
    of running dials and within [max_parallel]; no peer is queued or dialled
    twice or both at once; the flags of every known peer say exactly whether it
    is queued or being dialled, and a waiting peer is neither; our own key is no
    peer; the server is registered with the DHT exactly while a server topic is
    joined; the hole punches in flight and the keys they are filed under
    correspond one to one, each with the session of its key; and the slots given
    to incoming connections are within [max_peers]. *)
Theorem swarm_books_balance config port' events b w :
  len events < 2 ^ 62 -> swarm_run events (SwarmWorld_new config port') = Ok (b, w) ->
  let s := ww_actor w in
  DialBooks (own_key s) (ac_max_parallel (sw_config s)) (sw_peers s) (sw_queue s) (sw_active_connects s) (ww_dials w) /\
  Registered s /\ PunchBooks (2 * len events) s /\ SlotsOk s.
Proof.
  intros Hn Hr. assert (0 + 2 * len events < 2 ^ 64) as Hb by (pow2; lia).
  destruct (swarm_run_ok 0 events _ b w Hb (swarm_new_ok config port') Hr) as [He [Hd Hreg Hp Hs]].
  cbn zeta. split_and!; [|done..]. unfold dial_books in Hd. rewrite He in Hd.
  change (dials_of []) with (@nil (list Z)) in Hd. by rewrite app_nil_r in Hd.
Qed.

(** ** A peer that failed once *)

Definition Waits (pk : list Z) (peers : gmap (list Z) PeerInfo) : Prop :=
  exists i, peers !! pk = Some i /\ pi_waiting i = true.
Definition Unbanned (peers : gmap (list Z) PeerInfo) : Prop := map_Forall (fun _ i => pi_banned i = false) peers.

(** How the actor treats its peers: none is forgotten, none stops waiting, and
    none is banned. *)
Definition PeersStep (m m' : gmap (list Z) PeerInfo) : Prop :=
  (forall pk, Waits pk m -> Waits pk m') /\ (Unbanned m -> Unbanned m').
#[local] Instance PeersStep_refl : Reflexive PeersStep.
Proof. by intros m. Qed.
#[local] Instance PeersStep_trans : Transitive PeersStep.
Proof. intros m1 m2 m3 [] []. split; eauto. Qed.

Lemma step_alter f pk peers :
  (forall i, pi_waiting i = true -> pi_waiting (f i) = true) -> (forall i, pi_banned (f i) = pi_banned i) ->
  PeersStep peers (alter f pk peers).
Proof.
  intros Hf Hb. split.
  - intros pk' (i & Hi & Hw). unfold Waits. destruct (decide (pk = pk')) as [->|Hne].
    + exists (f i). rewrite lookup_alter_eq, Hi. split; [done|by apply Hf].
    + exists i. by rewrite lookup_alter_ne.
  - intros Hu pk' i [(<- & j & Hj & ->)|[_ Hi]]%lookup_alter_Some; [rewrite Hb|]; by eapply Hu.
Qed.

Lemma attempt_step s : PeersStep (sw_peers s) (sw_peers (attempt_connections s)).
Proof.
  unfold attempt_connections. generalize (length (sw_queue s)) as n. intros n. revert s.
  induction n as [|n IH]; intros s; cbn [attempt_loop]; [done|].
  destruct (_ <? _); [|done]. destruct (sort_queue _ _) as [|pk' q]; [done|].
  etrans; [|apply IH]. by apply step_alter.
Qed.

Lemma discovery_step event s : PeersStep (sw_peers s) (sw_peers (handle_discovery_event event s)).
Proof.
  destruct event as [pk relays topic|topic]; cbn [handle_discovery_event].
  - destruct (bool_decide _); [done|]. destruct (ConnectionSet_has _ _); [done|]. destruct (_ <=? _); [done|].
    set (info := default _ (sw_peers s !! pk)).
    assert (forall i', pi_waiting i' = pi_waiting info -> pi_banned i' = pi_banned info ->
      PeersStep (sw_peers s) (<[pk := i']> (sw_peers s))) as Hins.
    { intros i' Hw' Hb'. split.
      - intros pk' (i & Hi & Hw). unfold Waits. destruct (decide (pk = pk')) as [->|Hne].
        + exists i'. rewrite lookup_insert_eq. split; [done|]. rewrite Hw'. unfold info. by rewrite Hi.
        + exists i. by rewrite lookup_insert_ne.
      - intros Hu. apply map_Forall_insert_2; [|done]. rewrite Hb'. unfold info.
        destruct (sw_peers s !! pk) as [i|] eqn:Hi; [by eapply Hu|done]. }
    destruct (_ && _); by apply Hins.
  - set (s1 := set_sw_topics _ s). etrans; [exact (attempt_step s1)|].
    unfold check_flush_waiters. destruct (all_topics_refreshed _); [|done].
    destruct (answers_keep (sw_flush_waiters (attempt_connections s1)) (attempt_connections s1)) as [_ E].
    unfold dial_view in E. injection E as _ E _ _ _. cbn [sw_peers set_sw_waiters]. by rewrite E.
Qed.

Lemma command_step cmd s : PeersStep (sw_peers s) (sw_peers (swarm_command cmd s).2).
Proof.
  destruct cmd as [topic server client reply|topic reply|reply|reply]; cbn [swarm_command snd].
  - unfold do_join. destruct (bool_decide _); [done|]. by destruct (server && _).
  - unfold do_leave. destruct (sw_topics s !! topic) as [st|]; [|done].
    assert (PeersStep (sw_peers s)
      ((fun i => set_known (pi_relay_addresses i) (filter (fun t => t <> topic) (pi_topics i)) i) <$> sw_peers s)) as Hf.
    { split.
      - intros pk (i & Hi & Hw). eexists. by rewrite lookup_fmap, Hi.
      - intros Hu. by apply map_Forall_fmap. }
    destruct (ts_cancel st), (_ && _); try exact Hf; by destruct (negb _).
  - by destruct (all_topics_refreshed s).
  - by destruct (sw_server_registered s).
Qed.

Lemma shutdown_peers s : sw_peers (swarm_shutdown s) = sw_peers s.
Proof.
  unfold swarm_shutdown.
  assert (forall l r, sw_peers (foldl (fun (s : SwarmActor) (t : list Z * TopicState) => if ts_cancel t.2 then emit (SwCancel t.1) s else s) r l) = sw_peers r) as Hf.
  { induction l as [|t l IH]; intros r; [done|]. cbn [foldl]. rewrite IH. by destruct (ts_cancel t.2). }
  destruct (sw_server_registered _); cbn [sw_peers emit unregister set_sw_effects set_sw_registered set_sw_topics]; apply Hf.
Qed.

Lemma result_step now jitter pk ok s :
  PeersStep (sw_peers s) (sw_peers (handle_connect_result now jitter pk ok s)).
Proof.
  unfold handle_connect_result. set (s1 := upd_peer _ pk _).
  assert (PeersStep (sw_peers s) (sw_peers s1)) as H1' by (by apply step_alter). destruct ok.
  - destruct (match sw_connections s1 !! pk with Some b => _ | None => false end); [done|].
    etrans; [exact H1'|]. etrans; [|apply attempt_step].
    assert (PeersStep (sw_peers s1) (alter (PeerInfo_connected now) pk (sw_peers s1))) by (by apply step_alter).
    unfold conn_try_send. by destruct (_ || _).
  - etrans; [exact H1'|]. etrans; [|apply attempt_step]. unfold schedule_retry.
    destruct (sw_peers s1 !! pk); [|done]. destruct (pi_banned _); [done|].
    destruct (pi_topics _); [done|]. by apply step_alter.
Qed.

Lemma turn_step e w b w' :
  swarm_turn e w = Ok (b, w') -> PeersStep (sw_peers (ww_actor w)) (sw_peers (ww_actor w')).
Proof.
  intros Ht. set (P := PeersStep (sw_peers (ww_actor w))).
  assert (forall s w0, goes_on s w0 = Ok (b, w') -> P (sw_peers s) -> P (sw_peers (ww_actor w'))) as Hgo
    by (by intros s w0 [= <- <-]).
  assert (forall s w0, stops s w0 = Ok (b, w') -> P (sw_peers s) -> P (sw_peers (ww_actor w'))) as Hstop.
  { intros s w0 [= <- <-]. unfold absorb. cbn [ww_actor sw_peers set_sw_effects]. by rewrite shutdown_peers. }
  assert (Ok (b, w') = Ok (E := Empty_set) (true, w) -> P (sw_peers (ww_actor w'))) as Hno by (intros [= -> ->]; by unfold P).
  assert (P (sw_peers (ww_actor w))) as Hrefl by (by unfold P).
  destruct e as [cmd| |event|io msg from pa|fw nonce msg addr|i now jitter ok|i ok|i|event|now| |]; cbn [swarm_turn] in Ht.
  - pose proof (command_step cmd (ww_actor w)) as Hc. destruct (swarm_command cmd (ww_actor w)) as [[] s];
      [by apply Hstop in Ht|by apply Hgo in Ht].
  - by apply Hstop in Ht.
  - apply Hgo in Ht; [done|]. apply discovery_step.
  - destruct (handle_server_handshake io msg from pa (ww_actor w)) as [s|[]|] eqn:Es; [|done].
    apply (Hgo s) in Ht; [done|]. apply handshake_view in Es. unfold client_view in Es. by injection Es as _ _ -> _ _ _ _.
  - destruct (handle_peer_holepunch fw nonce msg addr (ww_actor w)) as [s|[]|] eqn:Es; [|done].
    apply (Hgo s) in Ht; [done|]. apply holepunch_view in Es. unfold client_view in Es. by injection Es as _ _ -> _ _ _ _.
  - destruct (ww_dials w !! i); [|by apply Hno]. apply Hgo in Ht; [done|]. apply result_step.
  - destruct (ww_serving w !! i) as [[pk' task]|]; [|by apply Hno]. destruct ok; [|by injection Ht as <- <-].
    destruct (channel_ready _); [|by apply Hno]. apply Hgo in Ht; [done|]. unfold conn_try_send. by destruct (_ || _).
  - destruct (ww_failures w !! i); [|by apply Hno]. by apply Hgo in Ht.
  - apply Hgo in Ht; [done|]. pose proof (passive_view event (ww_actor w)) as E. unfold client_view in E.
    by injection E as _ _ -> _ _ _ _.
  - by apply Hgo in Ht.
  - by apply Hgo in Ht.
  - by apply Hgo in Ht.
Qed.

Lemma run_step events w b w' :
  swarm_run events w = Ok (b, w') -> PeersStep (sw_peers (ww_actor w)) (sw_peers (ww_actor w')).
Proof.
  revert w. induction events as [|e events IH]; intros w Hr; cbn [swarm_run] in Hr; [by injection Hr as _ <-|].
  destruct (swarm_turn e w) as [[running w1]|[]|] eqn:Et; [|done]. cbn in Hr. apply turn_step in Et.
  etrans; [exact Et|]. destruct running; [by apply IH|by injection Hr as _ <-].
Qed.

(** A turn appends its effects to the trace, and its dials to those running. *)
Lemma turn_trace e w b w' :
  swarm_turn e w = Ok (b, w') ->
  exists es d0, ww_trace w' = ww_trace w ++ es /\ ww_dials w' = d0 ++ dials_of es.
Proof.
  intros Ht.
  assert (forall s w0, goes_on s w0 = Ok (b, w') -> ww_trace w0 = ww_trace w ->
    exists es d0, ww_trace w' = ww_trace w ++ es /\ ww_dials w' = d0 ++ dials_of es) as Hgo.
  { intros s w0 [= <- <-] Ew. exists (sw_effects s), (ww_dials w0). cbn. by rewrite Ew. }
  assert (forall s, stops s w = Ok (b, w') -> exists es d0, ww_trace w' = ww_trace w ++ es /\ ww_dials w' = d0 ++ dials_of es) as Hstop.
  { intros s [= <- <-]. by eexists _, _. }
  assert (Ok (b, w') = Ok (E := Empty_set) (true, w) -> exists es d0, ww_trace w' = ww_trace w ++ es /\ ww_dials w' = d0 ++ dials_of es) as Hno.
  { intros [= -> ->]. exists [], (ww_dials w). by rewrite !app_nil_r. }
  destruct e as [cmd| |event|io msg from pa|fw nonce msg addr|i now jitter ok|i ok|i|event|now| |]; cbn [swarm_turn] in Ht;
    try (by eapply Hgo; [exact Ht|]).
  - destruct (swarm_command cmd (ww_actor w)) as [[] s]; [by eapply Hstop|by eapply Hgo; [exact Ht|]].
  - by eapply Hstop.
  - destruct (handle_server_handshake _ _ _ _ _) as [s|[]|]; [|done]. by eapply (Hgo s); [exact Ht|].
  - destruct (handle_peer_holepunch _ _ _ _ _) as [s|[]|]; [|done]. by eapply (Hgo s); [exact Ht|].
  - destruct (ww_dials w !! i); [by eapply Hgo; [exact Ht|]|by apply Hno].
  - destruct (ww_serving w !! i) as [[pk task]|]; [|by apply Hno]. destruct ok.
    + destruct (channel_ready _); [by eapply Hgo; [exact Ht|]|by apply Hno].
    + injection Ht as <- <-. exists [], (ww_dials w). by rewrite !app_nil_r.
  - destruct (ww_failures w !! i); [by eapply Hgo; [exact Ht|]|by apply Hno].
Qed.

(** Whoever waits is not dialled. *)
Lemma waiting_not_dialled n events w b w' pk :
  n + 2 * len events < 2 ^ 64 -> WorldOk n w -> Waits pk (sw_peers (ww_actor w)) -> swarm_run events w = Ok (b, w') ->
  exists es, ww_trace w' = ww_trace w ++ es /\ pk ∉ dials_of es.
Proof.
  revert n w. induction events as [|e events IH]; intros n w Hn Hw Hwt Hr.
  { injection Hr as _ <-. exists []. rewrite app_nil_r. split; [done|]. apply not_elem_of_nil. }
  rewrite len_cons in Hn. pose proof (len_nonneg events). cbn [swarm_run] in Hr.
  destruct (swarm_turn e w) as [[running w1]|[]|] eqn:Et; [|done]. cbn in Hr.
  assert (WorldOk (n + 2) w1) as Hw1 by (eapply swarm_turn_ok; [|exact Hw|exact Et]; lia).
  assert (Waits pk (sw_peers (ww_actor w1))) as Hwt1 by (by eapply turn_step).
  destruct (turn_trace _ _ _ _ Et) as (es & d0 & Htr & Hd).
  assert (pk ∉ dials_of es) as Hes.
  { destruct Hw1 as [He1 [Hdb _ _ _]]. destruct Hwt1 as (i & Hi & Hwi). destruct Hdb as [_ _ _ _ Hp].
    destruct (Hp pk i Hi) as (_ & _ & _ & _ & Hno). specialize (Hno Hwi). rewrite Hd in Hno. revert Hno. in_lists. }
  destruct running; [|injection Hr as _ <-; by exists es].
  destruct (IH (n + 2) w1 ltac:(lia) Hw1 Hwt1 Hr) as (es' & Htr' & Hes'). exists (es ++ es').
  rewrite Htr', Htr, app_assoc, dials_of_app. split; [done|]. in_lists.
Qed.

(** Dialling leaves a peer that is not queued alone. *)
Lemma attempt_others pk s :
  pk ∉ sw_queue s ->
  exists es, sw_effects (attempt_connections s) = sw_effects s ++ es /\
    Forall (fun e => exists pk' relays local, e = SwDial pk' relays local /\ pk' <> pk) es /\
    sw_peers (attempt_connections s) !! pk = sw_peers s !! pk.
Proof.
  unfold attempt_connections. generalize (length (sw_queue s)) as n. intros n. revert s.
  assert (forall s, exists es, sw_effects s = sw_effects s ++ es /\
    Forall (fun e => exists pk' relays local, e = SwDial pk' relays local /\ pk' <> pk) es /\
    sw_peers s !! pk = sw_peers s !! pk) as Hend by (intros s; exists []; by rewrite app_nil_r).
  induction n as [|n IH]; intros s Hq; cbn [attempt_loop]; [apply Hend|].
  destruct (_ <? _); [|apply Hend]. destruct (sort_queue _ _) as [|pk' q] eqn:Es; [apply Hend|].
  assert (pk' :: q ≡ₚ sw_queue s) as Hperm by (rewrite <- Es; apply sort_queue_perm).
  assert (pk' <> pk /\ pk ∉ q) as [Hne Hq'].
  { rewrite <- Hperm in Hq. apply not_elem_of_cons in Hq as [? ?]. split; [congruence|done]. }
  destruct (IH (start_dial pk' (set_sw_queue q s)) Hq') as (es & He & Hes & Hp).
  eexists (_ :: es). rewrite He, Hp. unfold start_dial. cbn. split; [by rewrite <- app_assoc|]. split.
  - constructor; [by do 3 eexists|done].
  - by rewrite lookup_alter_ne.
Qed.

(** A dial that failed, from a state the actor can be in. *)
Section Failed.
Context (n : Z) (w1 : SwarmWorld) (i : nat) (now : Z) (jitter : Z -> Z) (pk : list Z) (info : PeerInfo).
Context (Hn : n + 2 < 2 ^ 64) (Hw1 : WorldOk n w1) (Hi : ww_dials w1 !! i = Some pk).
Context (Hp : sw_peers (ww_actor w1) !! pk = Some info) (Hb : pi_banned info = false).
Let s := ww_actor w1.
Let info1 := set_queue_flags (pi_queued info) false (pi_attempts info) (pi_priority info) info.
Let s1 := upd_peer (fun i => set_queue_flags (pi_queued i) false (pi_attempts i) (pi_priority i) i) pk
            (set_sw_active (Z.max 0 (sw_active_connects s - 1)) s).
Let turn := swarm_turn (SeConnectResult i now jitter false) w1.

Let Hp1 : sw_peers s1 !! pk = Some info1.
Proof. unfold s1. cbn. rewrite lookup_alter_eq. unfold s. by rewrite Hp. Qed.

Lemma failed_with_topic topic topics :
  pi_topics info = topic :: topics ->
  exists w0 es0, turn = Ok (true, w0) /\ WorldOk (n + 2) w0 /\ Waits pk (sw_peers (ww_actor w0)) /\
    ww_trace w0 = ww_trace w1 ++ SwRetry (retry_delay jitter info) pk (pi_relay_addresses info) topic :: es0 /\
    pk ∉ dials_of es0.
Proof.
  intros Ht.
  set (s2 := emit (SwRetry (retry_delay jitter info) pk (pi_relay_addresses info) topic) (upd_peer (set_waiting true) pk s1)).
  assert (handle_connect_result now jitter pk false s = attempt_connections s2) as Eh.
  { unfold handle_connect_result. fold s1. unfold schedule_retry. rewrite Hp1.
    cbn [info1 pi_banned pi_topics set_queue_flags]. by rewrite Hb, Ht. }
  assert (turn = goes_on (attempt_connections s2) 
      (mkSwarmWorld s (delete i (ww_dials w1)) (ww_serving w1) (ww_failures w1) (ww_trace w1))) as Et
    by (unfold turn; cbn [swarm_turn]; fold s; by rewrite Hi, Eh).
  unfold goes_on in Et. set (w0 := absorb _ _) in Et.
  assert (WorldOk (n + 2) w0) as Hw0 by (eapply swarm_turn_ok; [exact Hn|exact Hw1|exact Et]).
  assert (sw_effects s = []) as He by apply Hw1. destruct (attempt_effects s2) as (es0 & Hes0).
  assert (Waits pk (sw_peers (ww_actor w0))) as Hwt.
  { unfold w0, absorb. cbn [ww_actor sw_peers set_sw_effects]. apply attempt_step. exists (set_waiting true info1).
    change (alter (set_waiting true) pk (sw_peers s1) !! pk = Some (set_waiting true info1) /\ true = true).
    by rewrite lookup_alter_eq, Hp1. }
  exists w0, es0. split_and!; [done..| |].
  - unfold w0, absorb. cbn [ww_trace]. rewrite Hes0. unfold s2. cbn [sw_effects emit set_sw_effects].
    change (sw_effects (upd_peer (set_waiting true) pk s1)) with (sw_effects s). by rewrite He.
  - destruct Hw0 as [_ [[_ _ _ _ Hpe] _ _ _]]. destruct Hwt as (j & Hj & Hjw).
    destruct (Hpe pk j Hj) as (_ & _ & _ & _ & Hno). specialize (Hno Hjw). unfold w0, absorb in Hno.
    cbn [ww_dials] in Hno. rewrite Hes0, dials_of_app in Hno. revert Hno. in_lists.
Qed.

Lemma failed_without_topic :
  pi_topics info = [] ->
  exists w' es, turn = Ok (true, w') /\ ww_trace w' = ww_trace w1 ++ es /\
    Forall (fun e => exists pk' relays local, e = SwDial pk' relays local /\ pk' <> pk) es /\
    sw_peers (ww_actor w') !! pk = Some info1 /\
    pi_waiting info1 = false /\ pi_queued info1 = false /\ pi_connecting info1 = false.
Proof.
  intros Ht.
  assert (handle_connect_result now jitter pk false s = attempt_connections s1) as Eh.
  { unfold handle_connect_result. fold s1. unfold schedule_retry. rewrite Hp1.
    cbn [info1 pi_banned pi_topics set_queue_flags]. by rewrite Hb, Ht. }
  destruct Hw1 as [He [Hd _ _ _]]. unfold dial_books in Hd. fold s in Hd, He. rewrite He in Hd.
  change (dials_of []) with (@nil (list Z)) in Hd. rewrite app_nil_r in Hd. destruct Hd as [_ _ Hnd _ Hpe].
  apply list_elem_of_lookup_2 in Hi as Hin. apply NoDup_app in Hnd as (_ & Hdis & _).
  assert (pk ∉ sw_queue s) as Hq by (intros Hin'; by apply (Hdis pk Hin')).
  destruct (Hpe pk info Hp) as (_ & _ & Hqu & _ & Hwa).
  destruct (attempt_others pk s1 Hq) as (es & Hes & Hall & Hpk).
  eexists _, es. split; [unfold turn; cbn [swarm_turn]; fold s; by rewrite Hi, Eh|].
  split_and!.
  - unfold absorb. cbn [ww_trace]. rewrite Hes. change (sw_effects s1) with (sw_effects s). by rewrite He.
  - done.
  - unfold absorb. cbn [ww_actor sw_peers set_sw_effects]. by rewrite Hpk.
  - cbn. destruct (pi_waiting info); [|done]. exfalso. apply (Hwa eq_refl). in_lists.
  - cbn. destruct (pi_queued info); [|done]. exfalso. by apply Hq, Hqu.
  - done.
Qed.
End Failed.

(** C40: in a run of fewer than 2^61 events, a peer whose dial fails while it is
    still listed under a topic is never dialled again: the failure puts it into its waiting period and starts the
    timer of a retry, but nothing ever ends the period, so that neither the
    timer nor any later discovery leads to another dial of that peer, whatever
    else happens for the rest of the run.  If all topics it was found on were
    left during the dial, no timer is started: nothing is done but dialling
    queued peers, and the peer stays known, neither waiting nor queued nor
    connecting. *)
Theorem failed_peer_never_redialled config port' events w1 i now jitter pk rest b w2 :
  len events + len rest < 2 ^ 61 -> swarm_run events (SwarmWorld_new config port') = Ok (true, w1) ->
  ww_dials w1 !! i = Some pk ->
  swarm_run (SeConnectResult i now jitter false :: rest) w1 = Ok (b, w2) ->
  exists info, sw_peers (ww_actor w1) !! pk = Some info /\
    match pi_topics info with
    | topic :: _ =>
        exists es, ww_trace w2 =
            ww_trace w1 ++ SwRetry (retry_delay jitter info) pk (pi_relay_addresses info) topic :: es /\
          pk ∉ dials_of es
    | [] =>
        exists w' es info', swarm_turn (SeConnectResult i now jitter false) w1 = Ok (true, w') /\
          ww_trace w' = ww_trace w1 ++ es /\
          Forall (fun e => exists pk' relays local, e = SwDial pk' relays local /\ pk' <> pk) es /\
          sw_peers (ww_actor w') !! pk = Some info' /\
          pi_waiting info' = false /\ pi_queued info' = false /\ pi_connecting info' = false
    end.
Proof.
  intros Hn Hr1 Hi Hr2. pose proof (len_nonneg events). pose proof (len_nonneg rest).
  assert (WorldOk (2 * len events) w1) as Hw1 by (eapply (swarm_run_ok 0); [pow2; lia|apply swarm_new_ok|exact Hr1]).
  assert (Unbanned (sw_peers (ww_actor w1))) as Hu by (by apply (run_step _ _ _ _ Hr1), map_Forall_empty).
  assert (exists info, sw_peers (ww_actor w1) !! pk = Some info) as [info Hp].
  { destruct Hw1 as [_ [[_ _ _ Hk _] _ _ _]]. apply (Hk pk). apply list_elem_of_lookup_2 in Hi. in_lists. }
  exists info. split; [done|]. pose proof (Hu pk info Hp) as Hb. cbn beta in Hb.
  assert (2 * len events + 2 < 2 ^ 64) as Hlt by (pow2; lia).
  destruct (pi_topics info) as [|topic topics] eqn:Et.
  - destruct (failed_without_topic _ w1 i now jitter pk info Hw1 Hi Hp Hb Et) as (w' & es & Hrest).
    by exists w', es; eexists.
  - destruct (failed_with_topic _ w1 i now jitter pk info Hlt Hw1 Hi Hp Hb topic topics Et)
      as (w0 & es0 & E & Hw0 & Hwt & Htr0 & Hno0).
    cbn [swarm_run] in Hr2. rewrite E in Hr2. cbn [mbind outcome_bind] in Hr2.
    destruct (waiting_not_dialled (2 * len events + 2) rest w0 b w2 pk ltac:(pow2; lia) Hw0 Hwt Hr2) as (es & Htr & Hno).
    exists (es0 ++ es). rewrite Htr, Htr0, <- app_assoc. split; [done|]. rewrite dials_of_app. in_lists.
Qed.
End World.

#[local] Existing Instances toy_crypto toy_noise NoiseWrapExamples.toy_box.

Module SwarmExamples.
Import NoiseTheorems.NoiseExamples.
Definition config : ActorConfig := mkActorConfig (KeyPair_from_seed (seed 2)) 64 1 1 None None true.
Definition topic : list Z := replicate 32 7.
Definition alice : list Z := replicate 32 8.
Definition bob : list Z := replicate 32 9.
Definition world_of (o : outcome Empty_set (bool * SwarmWorld)) : SwarmWorld :=
  match o with Ok (_, w) => w | _ => SwarmWorld_new config 4000 end.
Definition running (o : outcome Empty_set (bool * SwarmWorld)) : bool :=
  match o with Ok (true, _) => true | _ => false end.
Lemma running_world o : running o = true -> o = Ok (true, world_of o).
Proof. by destruct o as [[[] w]| |]. Qed.

(** Two peers are found on a topic joined both ways; one dial runs at a time. *)
Definition meeting : list SwarmEvent :=
  [SeCommand (SwJoin topic true true 1); SeDiscovery (PeerFound alice [mkPeer "1.2.3.4" 5] topic);
   SeDiscovery (PeerFound bob [] topic); SeDiscovery (RefreshComplete topic)].
Definition met : SwarmWorld := world_of (swarm_run meeting (SwarmWorld_new config 4000)).
(** The first dial fails; its timer, a discovery and a refresh follow; the second
    dial succeeds. *)
Definition afterwards : list SwarmEvent :=
  [SeDiscovery (PeerFound alice [mkPeer "1.2.3.4" 5] topic); SeDiscovery (RefreshComplete topic);
   SeConnectResult 0 5 (fun _ => 0) true; SeDiscovery (PeerFound alice [] topic); SeDiscovery (RefreshComplete topic)].
Definition failed : SwarmWorld := world_of (swarm_run (SeConnectResult 0 1 (fun _ => 0) false :: afterwards) met).
End SwarmExamples.
Import SwarmExamples.

Lemma swarm_books_balance_witness :
  ww_dials met = [alice] /\ sw_queue (ww_actor met) = [bob] /\
  DialBooks (own_key (ww_actor met)) (ac_max_parallel (sw_config (ww_actor met))) (sw_peers (ww_actor met))
    (sw_queue (ww_actor met)) (sw_active_connects (ww_actor met)) (ww_dials met) /\
  Registered (ww_actor met) /\ PunchBooks (2 * len meeting) (ww_actor met) /\ SlotsOk (ww_actor met).
Proof.
  split; [vm_compute; reflexivity|]. split; [vm_compute; reflexivity|].
  apply (swarm_books_balance config 4000 meeting true met); [reflexivity|apply running_world; vm_compute; reflexivity].
Defined.

Lemma failed_peer_never_redialled_witness :
  exists es, ww_trace failed = ww_trace met ++ SwRetry 15000 alice [mkPeer "1.2.3.4" 5] topic :: es /\ (alice ∉ dials_of es) /\
    dials_of es = [bob].
Proof.
  assert (swarm_run meeting (SwarmWorld_new config 4000) = Ok (true, met)) as Hr1 by (apply running_world; vm_compute; reflexivity).
  assert (swarm_run (SeConnectResult 0 1 (fun _ => 0) false :: afterwards) met = Ok (true, failed)) as Hr2
    by (apply running_world; vm_compute; reflexivity).
  assert (sw_peers (ww_actor met) !! alice = Some (mkPeerInfo alice [mkPeer "1.2.3.4" 5] false false false false true false [topic] 1 Normal None false))
    as Ei by (vm_compute; reflexivity).
  destruct (failed_peer_never_redialled config 4000 meeting met 0 1 (fun _ => 0) alice afterwards true failed
    eq_refl Hr1 ltac:(vm_compute; reflexivity) Hr2) as (info & Ei' & Hcase).
  rewrite Ei in Ei'. injection Ei' as <-. destruct Hcase as (es & He & Hn).
  exists es. split; [exact He|]. split; [exact Hn|].
  assert (es = drop (S (length (ww_trace met))) (ww_trace failed)) as ->.
  { rewrite He, drop_app. rewrite drop_ge by lia. by replace (S _ - _)%nat with 1%nat by lia. }
  vm_compute. reflexivity.
Defined.

(** The topic is left during the dial: the peer is dialled again once it is
    found after another join. *)
Definition left_meanwhile : list SwarmEvent :=
  meeting ++ [SeCommand (SwLeave topic 2); SeConnectResult 0 1 (fun _ => 0) false;
    SeConnectResult 0 2 (fun _ => 0) false; SeCommand (SwJoin topic true true 3);
    SeDiscovery (PeerFound alice [] topic); SeDiscovery (RefreshComplete topic)].
Example left_topic_redials :
  dials_of (ww_trace (world_of (swarm_run left_meanwhile (SwarmWorld_new config 4000)))) = [alice; bob; alice].
Proof. vm_compute. reflexivity. Qed.
