(* ===== verification/SwarmServerTheorems.v ===== *)
(** * SwarmServerTheorems: how the swarm answers handshakes and hole punches *)

From S2P Require Import Prelude RustStd CompactEncoding Codec Messages HyperdhtMessages HyperdhtWire PayloadWire EncodingTheorems HyperdhtTheorems Crypto ToyCrypto Noise ToyNoise NoiseTheorems NoiseWrap NoiseWrapTheorems Secretstream Pipes SecretSession SecretSessionTheorems Query Router RouterTheorems NatClassifier Holepuncher ReplyCache Swarm SwarmServer SwarmTheorems.

#[local] Open Scope Z_scope.

(** ** The reply cache over the turns of the actor *)

(** Where the clock stands after an event, and that it does not go back nor reach
    [limit]. *)
Definition event_end (now : Z) (e : SwarmEvent) : Z :=
  match e with SeHandshake io _ _ _ => ho_later io | SeSweep t => t | _ => now end.
Definition event_timely (now limit : Z) (e : SwarmEvent) : Prop :=
  match e with
  | SeHandshake io _ _ _ => now <= ho_now io /\ ho_now io <= ho_later io < limit
  | SeSweep t => now <= t < limit
  | _ => True
  end.
Definition run_end (now : Z) (events : list SwarmEvent) : Z := foldl event_end now events.
Fixpoint timely_run (now limit : Z) (events : list SwarmEvent) : Prop :=
  match events with
  | [] => True
  | e :: events => event_timely now limit e /\ timely_run (event_end now e) limit events
  end.
Definition is_handshake (e : SwarmEvent) : Z := match e with SeHandshake _ _ _ _ => 1 | _ => 0 end.
Fixpoint handshakes (events : list SwarmEvent) : Z :=
  match events with [] => 0 | e :: events => is_handshake e + handshakes events end.
Lemma handshakes_nonneg events : 0 <= handshakes events.
Proof. induction events as [|[] events IH]; cbn; lia. Qed.

Section Cache.
Context `{CryptoPrims, NoisePrims, BoxPrims}.

(** A state of the cache in which the answer [a] is held behind at most [n]
    newer ones. *)
Definition Held (now n : Z) (a : Answer) (c : HandshakeReplyCache) : Prop :=
  exists l, Implements now c l /\ holds a n l.

Lemma held_step now now' op a n c :
  now <= now' -> fresh now' (rp_ttl c) a -> n + 1 < rp_capacity c -> 0 <= n -> Held now n a c ->
  let c' := (cache_step now' op c).2 in
  Held now' (n + inserts [(now', op)]) a c' /\ rp_ttl c' = rp_ttl c /\ rp_capacity c' = rp_capacity c.
Proof.
  intros Hn Hf Hc H0' (l & Hi & Hh). pose proof (step_refines now now' op c l Hn ltac:(lia) Hi) as Hs.
  pose proof (holds_step a n l now' (rp_ttl c) (rp_capacity c) op Hf Hc Hh) as Hh'.
  destruct (cache_step now' op c) as [o c'], (spec_step _ _ now' op l) as [o' l']. destruct Hs as (_ & Hi' & ? & ?).
  split_and!; [by exists l'|done|done].
Qed.

Lemma held_get now now' a n c m :
  now <= now' -> fresh now' (rp_ttl c) a -> 0 <= rp_capacity c -> hash m = an_key a -> Held now n a c ->
  (HandshakeReplyCache_get now' m c).1 = Some (an_reply a).
Proof.
  intros Hn Hf Hc Hm (l & Hi & Hh). pose proof (step_refines now now' (OpGet m) c l Hn Hc Hi) as Hs. cbn [cache_step spec_step] in Hs.
  destruct (HandshakeReplyCache_get now' m c) as [o c']. destruct Hs as (-> & _). cbn [fst]. rewrite Hm.
  apply (holds_lookup a n). by apply holds_prune.
Qed.

Lemma attempt_replies s : sw_replies (attempt_connections s) = sw_replies s.
Proof.
  unfold attempt_connections. generalize (length (sw_queue s)) as n. intros n. revert s.
  induction n as [|n IH]; intros s; cbn [attempt_loop]; [done|].
  destruct (_ <? _); [|done]. destruct (sort_queue _ _) as [|pk q]; [done|]. by rewrite IH.
Qed.
Lemma answers_replies ws s : sw_replies (foldl (fun s w => emit (SwAnswer w) s) s ws) = sw_replies s.
Proof. revert s. induction ws as [|w ws IH]; intros s; [done|]. cbn [foldl]. by rewrite IH. Qed.

Lemma pieces_cache io fw sid udx s setup path :
  sw_replies (try_setup_passive_holepunch (ho_punch io) fw sid udx s).2 = sw_replies s /\
  sw_replies (offer_holepunch io setup path s).2 = sw_replies s /\ sw_replies (release_setup setup s) = sw_replies s.
Proof.
  split_and!; [|by destruct setup, path as [|[]| |]|by destruct setup].
  unfold try_setup_passive_holepunch, take_holepunch_id. by repeat case_match; simplify_eq.
Qed.

Lemma handshake_cache io msg from pa s s' :
  handle_server_handshake io msg from pa s = Ok s' ->
  let c := (cache_step (ho_now io) (OpGet (hs_noise msg)) (sw_replies s)).2 in
  sw_replies s' = c \/ exists r, sw_replies s' = (cache_step (ho_later io) (OpInsert (hs_noise msg) r) c).2.
Proof.
  unfold handle_server_handshake. cbn [cache_step]. destruct (HandshakeReplyCache_get _ _ _) as [[r|] c]; cbn [snd].
  - destruct (encode_server_handshake_reply _ _ _) as [reply|[]|]; [|done]. intros [= <-]. by left.
  - destruct (NoiseWrap_recv _ _) as [[p|e|] nw]; [|intros [= <-]; by left|done].
    destruct (negb _); [intros [= <-]; by left|].
    intros (sid & setup & path & hi & s1 & s2 & s3 & E1 & E2 & E3 & Hs)%answer_cases.
    assert (sw_replies s3 = c) as Ec.
    { destruct (pieces_cache io (np_firewall p) sid (np_udx p) s1 setup path) as (P1 & _).
      destruct (pieces_cache io (np_firewall p) sid (np_udx p) s2 setup path) as (_ & P2 & _).
      rewrite E3 in P2. cbn [snd] in P2. rewrite P2. unfold next_stream_id in E1. injection E1 as <- <-.
      destruct E2 as [[= -> ->]|E2]; [done|]. rewrite E2 in P1. exact P1. }
    destruct (pieces_cache io (np_firewall p) sid (np_udx p) s3 setup path) as (_ & _ & P3).
    assert (forall path token addr udx nr a, sw_replies (accept_client path token sid addr udx nr a) = sw_replies a) as Ha.
    { intros. unfold accept_client. by repeat case_match. }
    assert (forall ifs sec su pk nr a, sw_replies (commit_passive_holepunch ifs sec su pk nr a) = sw_replies a) as Hm.
    { intros. unfold commit_passive_holepunch. by repeat case_match. }
    destruct Hs as [->|(nr & reply & noise_reply & token & addr & [->|Hs])].
    + left. cbn [sw_replies emit set_sw_effects]. by rewrite P3.
    + left. rewrite Ha. cbn [sw_replies emit set_sw_effects]. by rewrite P3.
    + right. exists noise_reply. cbn [cache_step snd]. cbn zeta in Hs.
      destruct setup; rewrite Hs, ?Hm, ?Ha; cbn [sw_replies emit set_sw_effects set_sw_replies]; by rewrite Ec.
Qed.

Lemma holepunch_cache fw nonce msg addr s s' :
  handle_peer_holepunch fw nonce msg addr s = Ok s' -> sw_replies s' = sw_replies s.
Proof.
  unfold handle_peer_holepunch. destruct (sw_connects s !! hm_id msg) as [e|]; [|by intros [= <-]].
  destruct (SecurePayload_decrypt _ _) as [hp|er|]; [|by intros [= <-]|done].
  destruct (punch_round hp addr e) as [started e']. destruct (SecurePayload_encrypt_with_nonce _ _ _) as [b|er|];
    [|intros [= <-]; by destruct started|done].
  destruct (encode_holepunch_msg_to_bytes _) as [b'|er|]; [| |done]; intros [= <-]; by destruct started.
Qed.

(** What a turn does to the cache: at most a lookup and an insertion. *)
Lemma turn_cache e w b w' :
  swarm_turn e w = Ok (b, w') ->
  let c := sw_replies (ww_actor w) in let c' := sw_replies (ww_actor w') in
  match e with
  | SeHandshake io msg _ _ =>
      c' = (cache_step (ho_now io) (OpGet (hs_noise msg)) c).2 \/
      exists r, c' = (cache_step (ho_later io) (OpInsert (hs_noise msg) r) (cache_step (ho_now io) (OpGet (hs_noise msg)) c).2).2
  | SeSweep now => c' = (cache_step now OpPrune c).2
  | _ => c' = c
  end.
Proof.
  intros Ht. cbn zeta.
  assert (forall s w0, goes_on s w0 = Ok (b, w') -> sw_replies (ww_actor w') = sw_replies s) as Hgo by (by intros s w0 [= _ <-]).
  assert (forall s, sw_replies (swarm_shutdown s) = sw_replies s) as Hsh.
  { intros s. unfold swarm_shutdown.
    assert (forall l r, sw_replies (foldl (fun (s : SwarmActor) (t : list Z * TopicState) => if ts_cancel t.2 then emit (SwCancel t.1) s else s) r l) = sw_replies r) as Hf.
    { induction l as [|t l IH]; intros r; [done|]. cbn [foldl]. rewrite IH. by destruct (ts_cancel t.2). }
    destruct (sw_server_registered _); cbn [sw_replies emit unregister set_sw_effects set_sw_registered set_sw_topics]; apply Hf. }
  assert (forall s w0, stops s w0 = Ok (b, w') -> sw_replies (ww_actor w') = sw_replies s) as Hstop.
  { intros s w0 [= _ <-]. unfold absorb. cbn [ww_actor sw_replies set_sw_effects]. apply Hsh. }
  destruct e as [cmd| |event|io msg from pa|fw nonce msg addr|i now jitter ok|i ok|i|event|now| |]; cbn [swarm_turn] in Ht.
  - assert (sw_replies (swarm_command cmd (ww_actor w)).2 = sw_replies (ww_actor w)) as Hc.
    { destruct cmd; cbn [swarm_command snd].
      - unfold do_join. destruct (bool_decide _); [done|]. by destruct (server && _).
      - unfold do_leave. destruct (sw_topics _ !! topic) as [st|]; [|done].
        by destruct (ts_cancel st), (_ && _); try done; destruct (negb _).
      - by destruct (all_topics_refreshed _).
      - by destruct (sw_server_registered _). }
    destruct (swarm_command cmd (ww_actor w)) as [[] s]; [by apply Hstop in Ht as ->|by apply Hgo in Ht as ->].
  - by apply Hstop in Ht.
  - apply Hgo in Ht as ->. destruct event as [pk relays topic|topic]; cbn [handle_discovery_event]; [by repeat case_match|].
    unfold check_flush_waiters. destruct (all_topics_refreshed _); [|by rewrite attempt_replies].
    cbn [sw_replies set_sw_waiters]. by rewrite answers_replies, attempt_replies.
  - destruct (handle_server_handshake io msg from pa (ww_actor w)) as [s|[]|] eqn:Es; [|done].
    apply (Hgo s) in Ht as ->. by apply handshake_cache in Es.
  - destruct (handle_peer_holepunch fw nonce msg addr (ww_actor w)) as [s|[]|] eqn:Es; [|done].
    apply (Hgo s) in Ht as ->. by apply holepunch_cache in Es.
  - destruct (ww_dials w !! i); [|by injection Ht as _ <-]. apply Hgo in Ht as ->. unfold handle_connect_result.
    set (s1 := upd_peer _ _ _). destruct ok.
    + destruct (match sw_connections s1 !! _ with Some b => _ | None => false end); [done|]. rewrite attempt_replies.
      unfold conn_try_send. by destruct (_ || _).
    + rewrite attempt_replies. unfold schedule_retry. by repeat case_match.
  - destruct (ww_serving w !! i) as [[pk task]|]; [|by injection Ht as _ <-]. destruct ok; [|by injection Ht as _ <-].
    destruct (channel_ready _); [|by injection Ht as _ <-]. apply Hgo in Ht as ->. unfold conn_try_send. by destruct (_ || _).
  - destruct (ww_failures w !! i); [|by injection Ht as _ <-]. by apply Hgo in Ht as ->.
  - apply Hgo in Ht as ->. destruct event; cbn [handle_passive_holepunch_event]; by repeat case_match.
  - by apply Hgo in Ht as ->.
  - by apply Hgo in Ht as ->.
  - by apply Hgo in Ht as ->.
Qed.
End Cache.

(** ** The answer to a handshake *)

(** The envelope of a reply, by the way the request came. *)
Definition reply_msg (inbound_mode : Z) (peer_address : option Ipv4Peer) (noise : list Z) : HandshakeMessage :=
  if decide (inbound_mode = MODE_FROM_RELAY \/ inbound_mode = MODE_FROM_SECOND_RELAY)
  then mkHandshake MODE_FROM_SERVER noise peer_address None else mkHandshake MODE_REPLY noise None None.

Lemma reply_enveloped mode pa noise :
  fits noise -> opt_ok peer_ok pa ->
  exists b, encode_server_handshake_reply mode pa noise = Ok (Some b) /\
    decode_handshake_from_bytes b = Ok (reply_msg mode pa noise).
Proof.
  intros Hn Hp. assert (handshake_ok (reply_msg mode pa noise)) as Hok.
  { unfold reply_msg. destruct (decide _); constructor; cbn; try done; by apply (bool_decide_unpack _). }
  exists (wire_handshake (reply_msg mode pa noise)). split; [|by apply decode_handshake_ok].
  unfold encode_server_handshake_reply. unfold reply_msg in *.
  destruct ((mode =? MODE_FROM_RELAY) || (mode =? MODE_FROM_SECOND_RELAY)) eqn:Em.
  - apply orb_true_iff in Em. rewrite !Z.eqb_eq in Em. rewrite decide_True in * by done. by rewrite encode_handshake_ok.
  - apply orb_false_iff in Em as [A B]. apply Z.eqb_neq in A, B.
    rewrite decide_False in * by (intros [?|?]; contradiction). by rewrite encode_handshake_ok.
Qed.

(** The session a task or a hole punch in flight goes on with. *)
Definition task_result (task : ServerTask) : NoiseWrapResult :=
  match task with ThroughRelay _ _ _ nr | Direct _ _ _ _ nr | Punched _ _ _ nr => nr end.
Definition keeps_session (s : SwarmActor) (pk : list Z) (nr : NoiseWrapResult) : Prop :=
  (exists id e, sw_connects s !! id = Some e /\ sw_pending_handshakes s !! pk = Some id /\ fl_remote_pk e = pk /\
     fl_noise_result e = nr) \/
  (exists task, SwServe pk task ∈ sw_effects s /\ task_result task = nr /\ sw_connections s !! pk = Some false).

(** What the reply is made of can be sent. *)
Record AnswerOk `{CryptoPrims} (io : HandshakeIo) (s : SwarmActor) : Prop := {
  ao_firewall : small (ac_firewall (sw_config s));
  ao_relay_through : opt_ok (fixed_ok 32) (ac_relay_through (sw_config s));
  ao_token : fixed_ok 32 (ho_token io);
  ao_relay_address : opt_ok peer_ok (ac_relay_address (sw_config s));
  ao_addresses port : in_u 16 port -> peers_ok (noise_addresses4 (ho_remote_address io) (ho_ifaces io) port);
  ao_relays : array_valid relay_info_ok (ho_relays io);
  ao_ports : in_u 16 (sw_local_port s) /\ opt_ok (in_u 16) (pn_port (ho_punch io));
  ao_ids : in_u 32 (sw_next_stream s) /\ in_u 64 (sw_next_holepunch_id s);
  ao_size hi port sid : in_u 16 port -> in_u 32 sid -> (forall h, hi = Some h -> in_u 64 (hi_id h) /\ hi_relays h = ho_relays io) ->
    len (wire_noise_payload (server_payload io (sw_config s)
      ((fun pk => mkRelayThroughInfo 1 pk (ho_token io)) <$> ac_relay_through (sw_config s)) hi port sid)) < 2 ^ 38 - 64
}.

Section Answer.
Context `{CryptoPrims} `{!CryptoLaws _} `{NoisePrims} `{!NoiseLaws} `{BoxPrims} `{!BoxLaws}.

Lemma payload_fits io s hi port sid :
  AnswerOk io s -> in_u 16 port -> in_u 32 sid -> (forall h, hi = Some h -> in_u 64 (hi_id h) /\ hi_relays h = ho_relays io) ->
  noise_payload_ok (server_payload io (sw_config s)
    ((fun pk => mkRelayThroughInfo 1 pk (ho_token io)) <$> ac_relay_through (sw_config s)) hi port sid).
Proof.
  intros [] Hp Hs Hh. constructor; cbn [server_payload np_version np_error np_firewall np_holepunch np_addresses4 np_addresses6
    np_udx np_secret_stream np_relay_through np_relay_addresses]; try done.
  - intros h Eh. destruct (Hh h Eh) as [Hid E]. split; [exact Hid|]. rewrite E. exact ao_relays0.
  - by apply ao_addresses0.
  - intros u [= <-]. split; [done|]. split; [|by apply (bool_decide_unpack _)]. cbn. unfold in_u in *. lia.
  - by intros u [= <-].
  - intros r Er. destruct (ac_relay_through (sw_config s)) as [pk|] eqn:E; [|done]. injection Er as <-.
    split; [done|]. split; [by apply ao_relay_through0|done].
  - intros l El. destruct (ac_relay_address (sw_config s)) as [a|] eqn:E; [|done]. injection El as <-.
    unfold peers_ok. assert (peer_ok a) by (by apply ao_relay_address0).
    assert (array_valid peer_ok [mkPeer "0.0.0.0" 0]) as [Hl _] by (by apply (bool_decide_unpack _)).
    split; [exact Hl|by constructor].
Qed.

(** What the steps before the reply leave alone. *)
Definition reply_view (s : SwarmActor) := (sw_config s, sw_connections s, sw_replies s, sw_local_port s).

Lemma as_u64_in z : in_u 64 (as_u64 z).
Proof. unfold in_u, as_u64, as_u. apply Z.mod_pos_bound. lia. Qed.

Lemma setup_facts io fw sid udx s setup s' :
  try_setup_passive_holepunch io fw sid udx s = (setup, s') -> in_u 64 (sw_next_holepunch_id s) -> opt_ok (in_u 16) (pn_port io) ->
  reply_view s' = reply_view s /\ in_u 64 (sw_next_holepunch_id s') /\
  (forall su, setup = Some su -> in_u 16 (su_puncher_port su) /\ in_u 64 (su_id su)).
Proof.
  intros E Hi Hp. unfold try_setup_passive_holepunch, take_holepunch_id in E.
  repeat case_match; simplify_eq; (split_and!; [done|done || apply as_u64_in|]); try done;
    intros su [= <-]; cbn; split; try done; by apply Hp.
Qed.
Lemma offer_facts io setup path s hi s' :
  offer_holepunch io setup path s = (hi, s') -> in_u 64 (sw_next_holepunch_id s) ->
  (forall su, setup = Some su -> in_u 64 (su_id su)) ->
  reply_view s' = reply_view s /\ (forall h, hi = Some h -> in_u 64 (hi_id h) /\ hi_relays h = ho_relays io).
Proof.
  intros E Hi Hs. unfold offer_holepunch, take_holepunch_id in E.
  destruct setup as [su|], path as [|[]| |]; simplify_eq; (split; [done|]); intros h [= <-]; cbn; split; try done; by apply Hs.
Qed.

Lemma commit_keeps ifs sec su nr s :
  keeps_session (commit_passive_holepunch ifs sec su (nr_remote_public_key nr) nr s) (nr_remote_public_key nr) nr.
Proof.
  left. unfold commit_passive_holepunch. eexists (su_id su), _. cbn. rewrite lookup_insert_eq.
  split_and!; [done| |done|done]. destruct (sw_pending_handshakes s !! _) as [old|]; [|cbn; by rewrite lookup_insert_eq].
  cbn [sw_connects set_sw_pending]. destruct (sw_connects s !! old); cbn; by rewrite lookup_insert_eq.
Qed.
Lemma accept_keeps path token sid addr udx nr s :
  sw_connections s !! nr_remote_public_key nr = None -> ConnectionSet_len (sw_connections s) < ac_max_peers (sw_config s) ->
  keeps_session (accept_client path token sid addr (Some udx) nr s) (nr_remote_public_key nr) nr.
Proof.
  intros Hno Hroom. unfold accept_client. cbn zeta. unfold ConnectionSet_has. rewrite bool_decide_eq_false_2 by (rewrite Hno; by intros []).
  rewrite (proj2 (Z.leb_gt _ _)) by done. right.
  destruct (ac_relay_through _), token; eexists; cbn; rewrite lookup_insert_eq;
    (split_and!; [apply elem_of_app; right; by left|done|done]).
Qed.
Lemma commit_rest ifs sec su pk nr s :
  sw_replies (commit_passive_holepunch ifs sec su pk nr s) = sw_replies s /\
  (forall r, SwReply r ∈ sw_effects s -> SwReply r ∈ sw_effects (commit_passive_holepunch ifs sec su pk nr s)).
Proof.
  unfold commit_passive_holepunch. repeat case_match; (split; [done|]); intros r Hr; cbn; rewrite ?elem_of_app; auto.
Qed.
Lemma accept_rest path token sid addr udx nr s :
  sw_replies (accept_client path token sid addr udx nr s) = sw_replies s /\
  (forall r, SwReply r ∈ sw_effects s -> SwReply r ∈ sw_effects (accept_client path token sid addr udx nr s)).
Proof. unfold accept_client. repeat case_match; (split; [done|]); intros r Hr; cbn; rewrite ?elem_of_app; auto. Qed.

(** An eligible client is answered, and its session kept. *)
Lemma eligible_answered io msg from pa p r1 s pk :
  AnswerOk io s -> opt_ok peer_ok pa -> is_Some (np_udx p) ->
  ConnectionSet_len (sw_connections s) < ac_max_peers (sw_config s) -> sw_connections s !! pk = None ->
  (forall p2, noise_payload_ok p2 -> len (wire_noise_payload p2) < 2 ^ 38 - 64 ->
     exists m2 r2 rr, NoiseWrap_send (ho_ephemeral io) p2 r1 = (Ok m2, r2) /\ NoiseWrap_finalize r2 = Ok rr /\
       fits m2 /\ nr_remote_public_key rr = pk) ->
  exists p2 m2 r2 rr s' b,
    noise_payload_ok p2 /\ len (wire_noise_payload p2) < 2 ^ 38 - 64 /\
    NoiseWrap_send (ho_ephemeral io) p2 r1 = (Ok m2, r2) /\ NoiseWrap_finalize r2 = Ok rr /\
    answer_handshake io msg from pa p r1 s = Ok s' /\ SwReply (Some b) ∈ sw_effects s' /\
    decode_handshake_from_bytes b = Ok (reply_msg (hs_mode msg) pa m2) /\
    keeps_session s' pk rr /\
    sw_replies s' = HandshakeReplyCache_insert (ho_later io) (hs_noise msg) m2 (sw_replies s).
Proof.
  intros Hao Hpa [udx Hudx] Hroom Hno HP. pose proof (ao_ports _ _ Hao) as [Hlp Hpn]. pose proof (ao_ids _ _ Hao) as [His Hid].
  unfold answer_handshake. destruct (next_stream_id s) as [sid s1] eqn:E1. set (path := select_server_path _ _ _ _).
  assert (sid = sw_next_stream s /\ reply_view s1 = reply_view s /\ sw_next_holepunch_id s1 = sw_next_holepunch_id s)
    as (-> & Ev1 & Ei1) by (unfold next_stream_id in E1; by injection E1 as <- <-).
  assert (sw_connections s1 = sw_connections s) as Ec1 by (unfold reply_view in Ev1; by injection Ev1).
  rewrite Hudx, Ec1. cbn [is_some]. rewrite (proj2 (Z.ltb_lt _ _)) by done. rewrite andb_true_r.
  destruct (if bool_decide (path = Holepunch) then _ else _) as [setup s2] eqn:E2.
  assert (reply_view s2 = reply_view s /\ in_u 64 (sw_next_holepunch_id s2) /\
    (forall su, setup = Some su -> in_u 16 (su_puncher_port su) /\ in_u 64 (su_id su))) as (Ev2 & Hi2 & Hsu).
  { destruct (bool_decide (path = Holepunch)).
    - apply setup_facts in E2; [|by rewrite Ei1|done]. by rewrite Ev1 in E2.
    - injection E2 as <- <-. by rewrite Ei1. }
  destruct (offer_holepunch io setup path s2) as [hi s3] eqn:E3.
  apply offer_facts in E3 as [Ev3 Hhi]; [|done|intros su Hs; by apply Hsu].
  set (port' := match setup with Some su => _ | None => _ end).
  assert (in_u 16 port') as Hport.
  { unfold port'. destruct setup as [su|]; [by apply Hsu|]. unfold reply_view in Ev2. by injection Ev2 as _ _ _ ->. }
  rewrite Ev2 in Ev3. unfold reply_view in Ev3. injection Ev3 as Eg3 Ec3 Er3 Ep3.
  set (rt := _ <$> ac_relay_through (sw_config s)).
  destruct (HP (server_payload io (sw_config s) rt hi port' (sw_next_stream s))) as (m2 & r2 & rr & Es & Ef & Hm & Epk);
    [by apply payload_fits|by apply (ao_size _ _ Hao)|].
  destruct (reply_enveloped (hs_mode msg) pa m2 Hm Hpa) as (b & Eb & Db).
  rewrite Es, Ef, Ec3. unfold ConnectionSet_has. rewrite bool_decide_eq_false_2 by (rewrite Epk, Hno; by intros []).
  cbn [negb andb]. rewrite Eb. cbn [mbind outcome_bind].
  set (s4 := emit (SwReply (Some b)) _).
  assert (SwReply (Some b) ∈ sw_effects s4) as Hin by (apply elem_of_app; right; by left).
  assert (sw_replies s4 = HandshakeReplyCache_insert (ho_later io) (hs_noise msg) m2 (sw_replies s)) as Er4 by (cbn; by rewrite Er3).
  destruct setup as [su|].
  - destruct (commit_rest (ho_ifaces io) (ho_local_secret io) su (nr_remote_public_key rr) rr s4) as [Er Ein].
    eexists _, m2, r2, rr, _, b. split_and!; [| |exact Es|exact Ef|reflexivity|by apply Ein|done| |by rewrite Er].
    + by apply payload_fits.
    + by apply (ao_size _ _ Hao).
    + rewrite <- Epk. apply commit_keeps.
  - destruct (accept_rest path (rt_token <$> rt) (sw_next_stream s) (default from pa) (Some udx) rr s4) as [Er Ein].
    eexists _, m2, r2, rr, _, b. split_and!; [| |exact Es|exact Ef|reflexivity|by apply Ein|done| |by rewrite Er].
    + by apply payload_fits.
    + by apply (ao_size _ _ Hao).
    + rewrite <- Epk. apply accept_keeps; cbn; rewrite Ec3; [by rewrite Epk|by rewrite Eg3].
Qed.
End Answer.

Section Copies.
Context `{CryptoPrims} `{!CryptoLaws _} `{NoisePrims} `{!NoiseLaws} `{BoxPrims} `{!BoxLaws}.

(** The answer stays in the cache over a run. *)
Lemma held_mono now n m a c : n <= m -> Held now n a c -> Held now m a c.
Proof. intros Hm (l & Hi & k & l' & El & Hl & Hk & Hl'). exists l. split; [done|]. exists k, l'. split_and!; [done|lia|done|done]. Qed.

Lemma turn_held e w w' b now n a :
  swarm_turn e w = Ok (b, w') ->
  let c := sw_replies (ww_actor w) in let c' := sw_replies (ww_actor w') in
  event_timely now (an_at a + rp_ttl c) e -> 0 <= n -> n + 1 < rp_capacity c -> Held now n a c ->
  Held (event_end now e) (n + is_handshake e) a c' /\ rp_ttl c' = rp_ttl c /\ rp_capacity c' = rp_capacity c.
Proof.
  intros Ht%turn_cache c c' Het Hn Hc Hh. fold c c' in Ht.
  destruct e as [| | |io msg from pa| | | | | |t| |]; cbn [event_timely event_end is_handshake] in *;
    try (rewrite Ht, Z.add_0_r; by split_and!).
  - destruct Het as [H1' [H2' H3']]. 
    destruct (held_step now (ho_now io) (OpGet (hs_noise msg)) a n c) as (Hg & Et & Ec); [done|unfold fresh; lia|done..|].
    change (inserts [(ho_now io, OpGet (hs_noise msg))]) with 0 in Hg. rewrite Z.add_0_r in Hg.
    destruct Ht as [->|[r ->]].
    + split_and!; [|done|done]. destruct Hg as (l & Hi & Hl). exists l. split; [|destruct Hl as (k & l' & ? & ? & ? & ?); exists k, l'; split_and!; [done|lia|done|done]].
      destruct Hi as [? ? Hld ?]. split; [done|done|by eapply Listed_later|done].
    + destruct (held_step (ho_now io) (ho_later io) (OpInsert (hs_noise msg) r) a n
        (cache_step (ho_now io) (OpGet (hs_noise msg)) c).2) as (Hi & Et' & Ec'); [done|unfold fresh; rewrite Et; lia|lia|done|done|].
      split_and!; [exact Hi|etransitivity; [exact Et'|exact Et]|etransitivity; [exact Ec'|exact Ec]].
  - rewrite Ht. destruct (held_step now t OpPrune a n c) as (Hg & Et & Ec); [lia|unfold fresh; lia|done..|].
    change (inserts [(t, OpPrune)]) with 0 in Hg. by split_and!.
Qed.

Lemma run_held events w w' now n a :
  swarm_run events w = Ok (true, w') ->
  let c := sw_replies (ww_actor w) in let c' := sw_replies (ww_actor w') in
  timely_run now (an_at a + rp_ttl c) events -> 0 <= n -> n + handshakes events + 1 < rp_capacity c -> Held now n a c ->
  Held (run_end now events) (n + handshakes events) a c' /\ rp_ttl c' = rp_ttl c /\ rp_capacity c' = rp_capacity c.
Proof.
  revert w now n. induction events as [|e events IH]; intros w now n Hr c c' Ht Hn Hc Hh.
  { injection Hr as <-. cbn. by rewrite Z.add_0_r. }
  cbn [swarm_run] in Hr. destruct (swarm_turn e w) as [[running w1]|[]|] eqn:Et; [|done]. cbn in Hr.
  destruct running; [|done]. destruct Ht as [Hte Ht]. cbn [handshakes] in *. pose proof (handshakes_nonneg events).
  assert (0 <= is_handshake e) by (destruct e; cbn; lia).
  destruct (turn_held e w w1 true now n a Et Hte Hn ltac:(fold c; lia) Hh) as (Hh1 & Et1 & Ec1).
  destruct (IH w1 (event_end now e) (n + is_handshake e) Hr) as (Hh2 & Et2 & Ec2);
    [by rewrite Et1|lia|rewrite Ec1; fold c; lia|done|].
  cbn [run_end foldl]. split_and!; [|etransitivity; [exact Et2|exact Et1]|etransitivity; [exact Ec2|exact Ec1]]. by rewrite Z.add_assoc.
Qed.

(** A new message is held first. *)
Lemma first_answer now later m r c l :
  now <= later -> 0 < rp_capacity c -> Implements now c l -> spec_lookup (hash m) l = None ->
  Held later 0 (mkAnswer later (hash m) r) (HandshakeReplyCache_insert later m r c) /\
  rp_ttl (HandshakeReplyCache_insert later m r c) = rp_ttl c /\
  rp_capacity (HandshakeReplyCache_insert later m r c) = rp_capacity c.
Proof.
  intros Hn Hc Hi Hnone. destruct (insert_refines now later m r c l Hn ltac:(lia) Hi) as (Hi' & Et & Ec).
  split_and!; [|done|done]. eexists. split; [exact Hi'|]. unfold spec_insert. cbn zeta.
  set (l0 := spec_prune later (rp_ttl c) l).
  assert (hash m ∉ an_key <$> l0) as Hno.
  { intros (b & E & Hb)%list_elem_of_fmap. apply list_elem_of_filter in Hb as [_ Hb].
    apply spec_lookup_none in Hnone. apply Hnone, list_elem_of_fmap. by exists b. }
  assert (spec_lookup (hash m) l0 = None) as ->.
  { destruct (spec_lookup (hash m) l0) eqn:E; [|done]. exfalso. apply Hno. unfold spec_lookup in E.
    destruct (filter (fun a => an_key a = hash m) l0) as [|b bs] eqn:Ef; [done|].
    assert (b ∈ filter (fun a => an_key a = hash m) l0) as [Hk Hb]%list_elem_of_filter by (rewrite Ef; by left).
    apply list_elem_of_fmap. by exists b. }
  rewrite bool_decide_eq_false_2 by (by intros []). rewrite (proj2 (Z.eqb_neq _ _)) by lia. cbn [orb].
  set (d := Z.to_nat _). exists (drop d l0), []. split_and!; [done|done| |cbn; apply not_elem_of_nil].
  intros Hx. apply Hno. cbn [an_key] in Hx. pose proof (take_drop d l0) as Ed. rewrite <- Ed, fmap_app. apply elem_of_app. by right.
Qed.

(** A copy of a message the cache holds the answer to. *)
Lemma copy_answered now n a io msg from pa s :
  Held now n a (sw_replies s) -> now <= ho_now io -> fresh (ho_now io) (rp_ttl (sw_replies s)) a ->
  0 <= rp_capacity (sw_replies s) -> hash (hs_noise msg) = an_key a -> fits (an_reply a) -> opt_ok peer_ok pa ->
  exists reply replies,
    handle_server_handshake io msg from pa s = Ok (emit (SwReply (Some reply)) (set_sw_replies replies s)) /\
    decode_handshake_from_bytes reply = Ok (reply_msg (hs_mode msg) pa (an_reply a)).
Proof.
  intros Hh Hn Hf Hc Hm Hfit Hpa. destruct (reply_enveloped (hs_mode msg) pa (an_reply a) Hfit Hpa) as (reply & Eb & Db).
  pose proof (held_get now (ho_now io) a n _ (hs_noise msg) Hn Hf Hc Hm Hh) as Hg.
  unfold handle_server_handshake. destruct (HandshakeReplyCache_get _ _ _) as [cached replies].
  cbn [fst] in Hg. rewrite Hg. exists reply, replies. split; [|done]. rewrite Eb. reflexivity.
Qed.

(** The exchange of a client whose first message is known. *)
Lemma client_exchange si sr ei er p1 m1 i1 :
  seed_ok si -> seed_ok sr -> seed_ok ei -> seed_ok er -> noise_payload_ok p1 -> len (wire_noise_payload p1) < 2 ^ 38 - 64 ->
  NoiseWrap_send ei p1 (NoiseWrap_new_initiator (noise_keypair_from_seed si) (ed25519_public sr)) = (Ok m1, i1) ->
  exists r1, NoiseWrap_recv m1 (NoiseWrap_new_responder (noise_keypair_from_seed sr)) = (Ok p1, r1) /\
    forall p2, noise_payload_ok p2 -> len (wire_noise_payload p2) < 2 ^ 38 - 64 ->
      exists m2 i2 r2 ri rr, NoiseWrap_send er p2 r1 = (Ok m2, r2) /\ NoiseWrap_recv m2 i1 = (Ok p2, i2) /\
        NoiseWrap_finalize i2 = Ok ri /\ NoiseWrap_finalize r2 = Ok rr /\
        session_pair (ed25519_public si) (ed25519_public sr) ri rr /\ fits m2.
Proof.
  intros Hsi Hsr Hei Her Hp1 Hl1 Hm1.
  destruct (wrap_exchange si sr ei er p1 p1) as (m1' & mx & i1' & r1 & ix & rx & r0 & r0' & E1 & R1 & _); [done..|].
  rewrite Hm1 in E1. injection E1 as <- <-. exists r1. split; [done|]. intros p2 Hp2 Hl2.
  destruct (wrap_exchange si sr ei er p1 p2) as (m1' & m2 & i1' & r1' & i2 & r2 & ri & rr & E1 & R1' & E2 & R2 & Fi & Fr & Hpair & Hm2);
    [done..|]. rewrite Hm1 in E1. injection E1 as <- <-. rewrite R1 in R1'. injection R1' as <-.
  exists m2, i2, r2, ri, rr. split_and!; [done..|unfold fits; rewrite Hm2; lia].
Qed.

(** C20: a client may send its handshake through two relays. The server answers
    the first copy, and keeps the session it answered with; the client, given
    the reply, finishes with a matching session. Whatever happens for the next
    twenty seconds (while fewer than a thousand other handshakes arrive), a
    second copy, by whatever way it comes, is answered with the same Noise
    message, in the envelope that goes back that way, and changes nothing but
    the cache: the client may use whichever reply arrives first. *)
Theorem server_answers_every_copy si sr ei io p1 m1 i1 mode ra from pa w l t0 :
  seed_ok si -> seed_ok sr -> seed_ok ei -> seed_ok (ho_ephemeral io) ->
  noise_payload_ok p1 -> np_error p1 = 0 -> is_Some (np_udx p1) -> len (wire_noise_payload p1) < 2 ^ 38 - 64 ->
  NoiseWrap_send ei p1 (NoiseWrap_new_initiator (noise_keypair_from_seed si) (ed25519_public sr)) = (Ok m1, i1) ->
  let s := ww_actor w in let c := sw_replies s in
  ac_key_pair (sw_config s) = KeyPair_from_seed sr -> AnswerOk io s -> opt_ok peer_ok pa ->
  ConnectionSet_len (sw_connections s) < ac_max_peers (sw_config s) -> sw_connections s !! ed25519_public si = None ->
  t0 <= ho_now io <= ho_later io -> Implements t0 c l -> rp_capacity c = HANDSHAKE_REPLY_CACHE_CAPACITY ->
  rp_ttl c = HANDSHAKE_REPLY_TTL -> (HandshakeReplyCache_get (ho_now io) m1 c).1 = None ->
  exists m2 s1 i2 ri rr payload reply,
    handle_server_handshake io (mkHandshake mode m1 pa ra) from pa s = Ok s1 /\
    SwReply (Some reply) ∈ sw_effects s1 /\ decode_handshake_from_bytes reply = Ok (reply_msg mode pa m2) /\
    NoiseWrap_recv m2 i1 = (Ok payload, i2) /\ NoiseWrap_finalize i2 = Ok ri /\
    session_pair (ed25519_public si) (ed25519_public sr) ri rr /\ keeps_session s1 (ed25519_public si) rr /\
    forall events w2 io' msg' from' pa',
      swarm_run events (absorb s1 w) = Ok (true, w2) ->
      timely_run (ho_later io) (ho_later io + HANDSHAKE_REPLY_TTL) events -> handshakes events < 1000 ->
      run_end (ho_later io) events <= ho_now io' < ho_later io + HANDSHAKE_REPLY_TTL ->
      hs_noise msg' = m1 -> opt_ok peer_ok pa' ->
      exists reply' replies,
        handle_server_handshake io' msg' from' pa' (ww_actor w2) =
          Ok (emit (SwReply (Some reply')) (set_sw_replies replies (ww_actor w2))) /\
        decode_handshake_from_bytes reply' = Ok (reply_msg (hs_mode msg') pa' m2).
Proof.
  intros Hsi Hsr Hei Her Hp1 He0 Hudx Hl1 Hm1 s c Hkp Hao Hpa Hroom Hno Htime Himp Hcap Httl Hget.
  pose proof (prune_refines t0 (ho_now io) c l ltac:(lia) Himp) as (Hi1 & Et1 & Ec1).
  destruct (HandshakeReplyCache_get (ho_now io) m1 c) as [cached c1] eqn:Eget. cbn [fst] in Hget. subst cached.
  unfold HandshakeReplyCache_get in Eget. injection Eget as Enone Ec. rewrite Ec in Hi1, Et1, Ec1, Enone.
  destruct (client_exchange si sr ei (ho_ephemeral io) p1 m1 i1 Hsi Hsr Hei Her Hp1 Hl1 Hm1) as (r1 & R1 & HX).
  destruct (eligible_answered io (mkHandshake mode m1 pa ra) from pa p1 r1 (set_sw_replies c1 s) (ed25519_public si))
    as (p2 & m2 & r2 & rr & s1 & b & Hp2 & Hl2 & Es & Ef & Ea & Hin & Db & Hk & Er); [destruct Hao; by split|done..| |].
  { intros p2 Hp2 Hl2. destruct (HX p2 Hp2 Hl2) as (m2 & i2 & r2 & ri & rr & ? & _ & _ & ? & Hpair & ?).
    exists m2, r2, rr. split_and!; [done..|apply Hpair]. }
  destruct (HX p2 Hp2 Hl2) as (m2' & i2 & r2' & ri & rr' & E2 & R2 & Fi & Fr & Hpair & Hfit).
  rewrite Es in E2. injection E2 as <- <-. rewrite Ef in Fr. injection Fr as <-.
  exists m2, s1, i2, ri, rr, p2, b. split_and!; [|exact Hin|exact Db|exact R2|exact Fi|exact Hpair|exact Hk|].
  { unfold handle_server_handshake, HandshakeReplyCache_get. cbn [hs_noise]. fold c. rewrite Ec, Enone. cbn beta iota.
    change (sw_config (set_sw_replies c1 s)) with (sw_config s). rewrite Hkp.
    cbn [kp_public_key kp_secret_key KeyPair_from_seed].
    change (mkKeypair (ed25519_public sr) (sr ++ ed25519_public sr)) with (noise_keypair_from_seed sr).
    rewrite R1, He0. exact Ea. }
  intros events w2 io' msg' from' pa' Hr Ht Hh Hend Hmsg Hpa'. pose proof (handshakes_nonneg events).
  set (a := mkAnswer (ho_later io) (hash m1) m2).
  destruct (first_answer (ho_now io) (ho_later io) m1 m2 c1 (spec_prune (ho_now io) (rp_ttl c) l)) as (Hh1 & Etl & Ecl);
    [lia|rewrite Ec1, Hcap; by vm_compute|done|destruct Hi1 as [_ He Hl _]; rewrite <- spec_lookup_map by apply Hl; by rewrite <- He|].
  fold a in Hh1. cbn [ho_later hs_noise sw_replies set_sw_replies] in Er. rewrite <- Er in Hh1, Etl, Ecl.
  rewrite Et1 in Etl. rewrite Ec1 in Ecl.
  destruct (run_held events (absorb s1 w) w2 (ho_later io) 0 a Hr) as (Hh2 & Et2 & Ec2);
    change (sw_replies (ww_actor (absorb s1 w))) with (sw_replies s1) in *; [by rewrite Etl, Httl|lia| |exact Hh1|].
  { rewrite Ecl, Hcap. unfold HANDSHAKE_REPLY_CACHE_CAPACITY. lia. }
  apply (copy_answered (run_end (ho_later io) events) (0 + handshakes events) a); [done|lia| | |by rewrite Hmsg|done|done].
  - unfold fresh. cbn [an_at a]. rewrite Et2, Etl, Httl. lia.
  - rewrite Ec2, Ecl, Hcap. by vm_compute.
Qed.
End Copies.

(** ** A round number of more than a byte *)

(** A varint of three bytes or more where one was counted leaves the last token
    without room. *)
Lemma wide_round_panics err fw r c p addrs pa token rt :
  small err -> small fw -> in_u 64 r -> 0xfc < r -> peers_ok addrs -> peer_ok pa ->
  fixed_ok 32 token -> opt_ok (fixed_ok 32) rt ->
  encode_holepunch_payload_to_bytes (mkHolepunchPayload err fw r c p (Some addrs) (Some pa) (Some token) rt) = Panic.
Proof.
  intros He Hf Hr Hbig Ha Hp [_ Ht] Hrt. set (m := mkHolepunchPayload _ _ _ _ _ _ _ _ _).
  pose proof (holepunch_flags_has m) as [Hfl _].
  assert (len (wire_peer pa) = 6) as L6 by (apply wire_peer_len; by apply peer_ok_parses).
  pose proof (wire_uint_len r) as Lr. rewrite (proj2 (Z.leb_gt _ _)) in Lr by done.
  pose proof (len_nonneg (wire_peers addrs)).
  set (k := 33 - len (wire_uint r)). assert (0 <= k < 32) as Hk by (unfold k; repeat case_match; lia).
  set (tail := match rt with Some _ => 32 + k | None => k end).
  assert (Panics (if_some (Some token) encode_fixed32 ;; if_some rt encode_fixed32) tail) as Hend.
  { unfold tail. destruct rt as [t'|]; cbn [if_some].
    - replace (32 + k) with (len token + k) by (by rewrite Ht). apply Panics_bind_r; [lia|apply Writes_fixed|]. destruct (Hrt t' eq_refl) as [_ Ht'].
      apply Panics_bind_l, (Panics_copy t'). lia.
    - apply Panics_bind_l, Panics_bind_l, (Panics_copy token). lia. }
  eapply (to_bytes_panics _ _ (1 + (1 + (1 + (len (wire_uint r) + (len (wire_peers addrs) + (len (wire_peer pa) + tail)))))));
    [unfold tail; destruct rt; lia| |].
  - unfold preencode_holepunch_payload. cbn [pl_addresses pl_remote_address pl_token pl_remote_token m pre_some is_some].
    rewrite preencode_peers4_spec by done. unfold grow. cbn. unfold tail, k. rewrite L6.
    destruct rt; cbn; f_equal; lia.
  - assert (0 <= tail) by (unfold tail; destruct rt; lia).
    unfold encode_holepunch_payload. cbn [pl_addresses pl_remote_address pl_token pl_remote_token pl_error pl_firewall pl_round m].
    apply (Panics_bind_r _ _ [holepunch_flags m]); [lia|by apply Writes_flags|].
    apply (Panics_bind_r _ _ [err]); [lia|by apply Writes_flags|].
    apply (Panics_bind_r _ _ [fw]); [lia|by apply Writes_flags|].
    apply (Panics_bind_r _ _ (wire_uint r)); [lia|by apply Writes_uint|].
    apply (Panics_bind_r _ _ (wire_peers addrs)); [lia|by apply Writes_peers4|].
    apply (Panics_bind_r _ _ (wire_peer pa)); [lia|by apply Writes_addr4|]. exact Hend.
Qed.

(** ** The answer *)

(** What the client is told, and what becomes of the punch: [s] before, [s']
    after; [bs] are the bytes of [reply], whose box holds [payload]. *)
Record RoundAnswered `{CryptoPrims, BoxPrims} (client : SecurePayload) (e : InFlightHolepunch) (hp : HolepunchPayload)
    (mode id : Z) (pa : Ipv4Peer) (s s' : SwarmActor) (bs : list Z) (reply : HolepunchMessage) (payload : HolepunchPayload)
    : Prop := {
  ra_effects : sw_effects s' = sw_effects s ++
    match fl_puncher e with
    | Some p => if pl_punching hp
                then [SwPunch id (update_remote true (pl_firewall hp) (default [] (pl_addresses hp)) (Some (host pa)) p)]
                else []
    | None => []
    end ++ [SwReply (Some bs)];
  ra_entry : exists e', sw_connects s' = <[id := e']> (sw_connects s) /\ fl_round e' = Z.max (fl_round e) (pl_round hp) /\
    (pl_punching hp = true -> fl_puncher e' = None);
  ra_reply : decode_holepunch_msg_from_bytes bs = Ok reply;
  ra_mode : hm_mode reply =
    if decide (mode = MODE_FROM_RELAY \/ mode = MODE_FROM_SECOND_RELAY) then MODE_FROM_SERVER else MODE_REPLY;
  ra_id : hm_id reply = id;
  ra_seen : hm_peer_address reply = Some pa /\ pl_remote_address payload = Some pa;
  ra_opens : SecurePayload_decrypt client (hm_payload reply) = Ok payload;
  ra_round : pl_round payload = pl_round hp /\ pl_punching payload = pl_punching hp;
  ra_addresses : pl_addresses payload = Some (fl_local_punch_addrs e);
  ra_tokens : pl_remote_token payload = pl_token hp;
  ra_token : pl_token payload = Some (SecurePayload_token (fl_payload e) (host pa))
}.

Section PunchAnswer.
Context `{CryptoPrims} `{!MacLaws} `{BoxPrims} `{!BoxLaws}.

(** Any holder of the secret opens the box. *)
Lemma box_opened sp n b tag ct :
  box_seal (sp_shared_secret sp) n b = Some (tag, ct) -> len n = 24 -> 0 < len b < 2 ^ 38 ->
  SecurePayload_decrypt sp (n ++ tag ++ ct) = map_err SpEncoding (decode_holepunch_payload_from_bytes b).
Proof.
  intros E Hn Hb. destruct (bl_seal (sp_shared_secret sp) n b ltac:(lia)) as (tag' & ct' & E' & Lt & Lc & O).
  rewrite E in E'. injection E' as <- <-. unfold SecurePayload_decrypt. rewrite (proj2 (Z.ltb_ge _ _)) by (unfold NONCE_SIZE, TAG_SIZE; lens; lia).
  rewrite slice_head by done. unfold NONCE_SIZE, TAG_SIZE. rewrite slice_second, drop_two by done. by rewrite O.
Qed.

Lemma reply_punch_ok e fw hp pa :
  peers_ok (fl_local_punch_addrs e) -> small fw -> peer_ok pa -> holepunch_payload_typed hp -> pl_round hp <= 0xfc ->
  holepunch_payload_ok (holepunch_reply e fw hp pa).
Proof.
  intros Ha Hf Hp [] Hr. constructor; cbn.
  - by apply (bool_decide_unpack _).
  - done.
  - unfold small, in_u in *. lia.
  - by intros ? [= <-].
  - by intros ? [= <-].
  - intros ? [= <-]. apply mac256_ok.
  - done.
Qed.

(** A reply without its number fits the box. *)
Lemma reply_punch_len e fw hp pa :
  peer_ok pa -> opt_ok (fixed_ok 32) (pl_token hp) ->
  len (wire_holepunch_payload (holepunch_reply e fw hp pa)) <= 74 + len (wire_peers (fl_local_punch_addrs e)).
Proof.
  intros Hp Ht. unfold wire_holepunch_payload. cbn [wire_opt holepunch_reply pl_addresses pl_remote_address pl_token pl_remote_token].
  assert (len (wire_opt (pl_token hp) id) <= 32).
  { destruct (pl_token hp) as [t|]; [destruct (Ht t eq_refl) as [_ Hl]; cbn [wire_opt]; unfold id; lia|by vm_compute]. }
  rewrite !len_app, wire_peer_len by (by apply peer_ok_parses). unfold id at 1. unfold SecurePayload_token.
  rewrite (proj2 (mac256_ok _ _)). repeat match goal with |- context [len [?x]] => change (len [x]) with 1 end. lia.
Qed.

Lemma round_facts hp pa e started e' :
  punch_round hp pa e = (started, e') ->
  fl_payload e' = fl_payload e /\ fl_local_punch_addrs e' = fl_local_punch_addrs e /\
  fl_round e' = Z.max (fl_round e) (pl_round hp) /\ (pl_punching hp = true -> fl_puncher e' = None) /\
  started = if pl_punching hp
            then update_remote true (pl_firewall hp) (default [] (pl_addresses hp)) (Some (host pa)) <$> fl_puncher e
            else None.
Proof.
  unfold punch_round. destruct (fl_round e <? pl_round hp) eqn:El, (pl_punching hp); intros [= <- <-]; cbn;
    split_and!; try done; lia.
Qed.

Lemma wide_round_answered e hp payload firewalled nonce mode id pa0 pa s :
  sw_connects s !! id = Some e -> SecurePayload_decrypt (fl_payload e) payload = Ok hp -> holepunch_payload_typed hp ->
  0xfc < pl_round hp -> peer_ok pa -> peers_ok (fl_local_punch_addrs e) -> small (default FIREWALL_UNKNOWN firewalled) ->
  handle_peer_holepunch firewalled nonce (mkHolepunch mode id payload pa0) pa s = Panic.
Proof.
  intros He Hd [] Hr Hpa Ha Hf. unfold handle_peer_holepunch. cbn [hm_id hm_payload hm_mode]. rewrite He, Hd.
  destruct (punch_round hp pa e) as [started e'] eqn:Er. apply round_facts in Er as (Ep & Ea & _).
  unfold SecurePayload_encrypt_with_nonce, holepunch_reply.
  rewrite wide_round_panics; [done|by apply (bool_decide_unpack _)|done|done|done|by rewrite Ea|done|apply mac256_ok|done].
Qed.

Lemma round_answered client e hp box firewalled nonce mode id pa0 pa s :
  sw_connects s !! id = Some e -> SecurePayload_decrypt (fl_payload e) box = Ok hp -> holepunch_payload_typed hp ->
  pl_round hp <= 0xfc -> sp_shared_secret (fl_payload e) = sp_shared_secret client ->
  peer_ok pa -> peers_ok (fl_local_punch_addrs e) -> len (wire_peers (fl_local_punch_addrs e)) < 2 ^ 37 ->
  small (default FIREWALL_UNKNOWN firewalled) -> len nonce = 24 -> in_u 64 id ->
  exists s' bs reply payload,
    handle_peer_holepunch firewalled nonce (mkHolepunch mode id box pa0) pa s = Ok s' /\
    RoundAnswered client e hp mode id pa s s' bs reply payload.
Proof.
  intros He Hd Hty Hr Hsec Hpa Ha Hla Hf Hn Hid. unfold handle_peer_holepunch. cbn [hm_id hm_payload hm_mode]. rewrite He, Hd.
  destruct (punch_round hp pa e) as [started e'] eqn:Er. apply round_facts in Er as (Ep & Ea & Ero & Epu & Est).
  set (p2 := holepunch_reply e' _ hp pa). pose proof (plt_token _ Hty) as Htok.
  assert (holepunch_payload_ok p2) as Hp2 by (apply reply_punch_ok; rewrite ?Ea; done).
  pose proof (reply_punch_len e' (default FIREWALL_UNKNOWN firewalled) hp pa Hpa Htok) as Hl2. rewrite Ea in Hl2. fold p2 in Hl2.
  destruct (box_inverts (fl_payload e') client p2 nonce) as (buffer & Eb & Db & Lb); [by rewrite Ep|done|done|lia|].
  rewrite Eb. set (mode' := if _ || _ then _ else _). set (reply := mkHolepunch mode' id buffer (Some pa)).
  assert (holepunch_msg_ok reply) as Hok.
  { constructor; cbn; [|done|unfold fits; lia|by intros ? [= <-]]. unfold mode'. destruct ((mode =? MODE_FROM_RELAY) || (mode =? MODE_FROM_SECOND_RELAY)); by apply (bool_decide_unpack _). }
  assert (encode_holepunch_msg_to_bytes reply = Ok (wire_holepunch_msg reply)) as ->
    by apply (roundtrip (H := holepunch_msg_codec)), Hok.
  eexists _, (wire_holepunch_msg reply), reply, p2. split; [reflexivity|]. constructor; try done.
  - subst started. destruct (pl_punching hp), (fl_puncher e); cbn; rewrite <- ?app_assoc; done.
  - exists e'. split_and!; try done. by destruct started.
  - apply (roundtrip (H := holepunch_msg_codec)), Hok.
  - cbn. unfold mode'. destruct (decide _) as [[->| ->]|Hm]; [done..|].
    destruct (mode =? MODE_FROM_RELAY) eqn:E1, (mode =? MODE_FROM_SECOND_RELAY) eqn:E2; cbn; done || (exfalso; apply Hm; lia).
  - cbn. by rewrite Ea.
  - cbn. by rewrite Ep.
Qed.
End PunchAnswer.

(** C23: the server answers every round of a hole punch it has in flight, in the
    way the round came. Whoever holds the secret of the handshake may seal any
    bytes; when they read as a round numbered up to 252, the reply opens under
    the same secret, repeats the round, tells the address the client was seen at
    and the ports to probe, and returns the client's token; a round that asks
    for the punch starts the puncher, once, with what it was told. A round
    number above 252 is read like any other but echoed into a reply whose
    encoder has no room for it: the actor panics, with the whole swarm. *)
Theorem punch_rounds_answered `{CryptoPrims} `{!MacLaws} `{BoxPrims} `{!BoxLaws}
    client e hp n b tag ct firewalled nonce mode id pa0 pa s :
  box_seal (sp_shared_secret client) n b = Some (tag, ct) -> len n = 24 -> bytes_ok b -> len b < 2 ^ 38 ->
  decode_holepunch_payload_from_bytes b = Ok hp ->
  sw_connects s !! id = Some e -> sp_shared_secret (fl_payload e) = sp_shared_secret client ->
  peer_ok pa -> peers_ok (fl_local_punch_addrs e) -> len (wire_peers (fl_local_punch_addrs e)) < 2 ^ 37 ->
  small (default FIREWALL_UNKNOWN firewalled) -> len nonce = 24 -> in_u 64 id ->
  let answer := handle_peer_holepunch firewalled nonce (mkHolepunch mode id (n ++ tag ++ ct) pa0) pa s in
  if pl_round hp <=? 0xfc then
    exists s' bs reply payload, answer = Ok s' /\ RoundAnswered client e hp mode id pa s s' bs reply payload
  else answer = Panic.
Proof.
  intros Eb Hn Hb Hlb Hd He Hsec Hpa Hads Hla Hfw Hnonce Hid answer.
  assert (0 < len b) as Hpos by (destruct b; [by vm_compute in Hd|lens; pose proof (len_nonneg b); lia]).
  assert (SecurePayload_decrypt (fl_payload e) (n ++ tag ++ ct) = Ok hp) as Hopen.
  { rewrite (box_opened _ n b tag ct), Hd; [done|by rewrite Hsec|done|lia]. }
  assert (holepunch_payload_typed hp) as Hty.
  { pose proof (safe_from_bytes decode_holepunch_payload holepunch_payload_typed b Decodes_holepunch_payload Hb) as Hs.
    unfold decode_holepunch_payload_from_bytes in Hd. rewrite Hd in Hs. exact Hs. }
  destruct (pl_round hp <=? 0xfc) eqn:Erd.
  - eapply round_answered; try done. lia.
  - eapply wide_round_answered; try done. lia.
Qed.

#[local] Existing Instances toy_crypto toy_noise NoiseWrapExamples.toy_box NoiseWrapExamples.toy_box_laws SessionExamples.toy_mac.

Module SwarmServerExamples.
Import NoiseExamples NoiseWrapExamples.
Definition server_config : ActorConfig := mkActorConfig (KeyPair_from_seed (seed 2)) 64 3 1 None None true.
Definition fresh_server : SwarmWorld := SwarmWorld_new server_config 4000.
Definition io : HandshakeIo :=
  mkHandshakeIo 10 20 (seed 4) (replicate 32 5) (replicate 32 6) (Some 2) (Some (mkPeer "9.8.7.6" 4000)) None []
    (mkPunchIo (Some 1) false [] (Some 5000) true true).
Definition message_of {E A} (o : outcome E (list Z) * A) : list Z := match o.1 with Ok m => m | _ => [] end.
Definition first_message : list Z := message_of
  (NoiseWrap_send (seed 3) (hello 2) (NoiseWrap_new_initiator (noise_keypair_from_seed (seed 1)) (ed25519_public (seed 2)))).
Definition has_message {E A} (o : outcome E (list Z) * A) : bool := match o.1 with Ok _ => true | _ => false end.
Lemma message_ok {E A} (o : outcome E (list Z) * A) : has_message o = true -> o = (Ok (message_of o), o.2).
Proof. by destruct o as [[m|e|] i]. Qed.

Lemma client_sends :
  has_message (NoiseWrap_send (seed 3) (hello 2)
    (NoiseWrap_new_initiator (noise_keypair_from_seed (seed 1)) (ed25519_public (seed 2)))) = true.
Proof. vm_compute. reflexivity. Qed.

Lemma fresh_answer_ok : AnswerOk io (ww_actor fresh_server).
Proof.
  assert (forall port', noise_addresses4 (ho_remote_address io) (ho_ifaces io) port' =
    [mkPeer "9.8.7.6" 4000; mkPeer "127.0.0.1" port']) as Ea by done.
  constructor; try done; try (by apply (bool_decide_unpack _)).
  - intros port' Hp. rewrite Ea. split; [by apply (bool_decide_unpack _)|].
    constructor; [by apply (bool_decide_unpack _)|constructor; [|constructor]]. split; [by apply (bool_decide_unpack _)|done].
  - intros hi port' sid Hp Hs Hh. unfold server_payload. rewrite Ea.
    assert (len (wire_opt hi wire_holepunch_info) <= 10) as Hl.
    { destruct hi as [h|]; [|by vm_compute]. destruct (Hh h eq_refl) as [Hi Hr]. cbn [wire_opt]. unfold wire_holepunch_info.
      rewrite Hr, len_app, wire_uint_len. change (len (wire_array wire_relay_info (ho_relays io))) with 1.
      repeat case_match; lia. }
    change (sw_config (ww_actor fresh_server)) with server_config.
    unfold wire_noise_payload. cbn [np_error np_firewall np_holepunch np_addresses4 np_addresses6 np_udx np_secret_stream
      np_relay_through np_relay_addresses ac_firewall ac_relay_through ac_relay_address server_config is_empty negb wire_opt fmap
      option_fmap option_map].
    rewrite !len_app. unfold wire_udx_info. cbn [ux_id ux_seq ux_reusable_socket]. rewrite !len_app, wire_uint_len.
    assert (len (wire_peers [mkPeer "9.8.7.6" 4000; mkPeer "127.0.0.1" port']) = 13) as -> by done.
    repeat match goal with |- context [len [?x]] => change (len [x]) with 1 end.
    change (len (wire_uint 0)) with 1. change (len []) with 0. change (len (wire_secret_stream_info _)) with 1.
    repeat case_match; lia.
Qed.
Definition later_io : HandshakeIo :=
  mkHandshakeIo 300 310 (seed 9) (replicate 32 5) (replicate 32 6) (Some 2) None None [] (mkPunchIo None false [] None true true).
Definition relay_a : Ipv4Peer := mkPeer "1.1.1.1" 1.
Definition relay_b : Ipv4Peer := mkPeer "2.2.2.2" 2.
Definition client_at : Ipv4Peer := mkPeer "10.0.0.1" 1234.
End SwarmServerExamples.
Import NoiseExamples NoiseWrapExamples SwarmServerExamples.

(** A client behind a NAT is met through one relay, then through another. *)
Lemma server_answers_every_copy_witness : exists m2 s1 reply reply' replies,
  handle_server_handshake io (mkHandshake MODE_FROM_RELAY first_message (Some client_at) None) relay_a (Some client_at)
    (ww_actor fresh_server) = Ok s1 /\
  SwReply (Some reply) ∈ sw_effects s1 /\
  handle_server_handshake later_io (mkHandshake MODE_FROM_SECOND_RELAY first_message (Some client_at) None) relay_b
    (Some client_at) (ww_actor (absorb s1 fresh_server)) =
    Ok (emit (SwReply (Some reply')) (set_sw_replies replies (ww_actor (absorb s1 fresh_server)))) /\
  decode_handshake_from_bytes reply' = Ok (mkHandshake MODE_FROM_SERVER m2 (Some client_at) None).
Proof.
  pose proof (message_ok _ client_sends) as Es.
  set (o := NoiseWrap_send _ _ _) in Es.
  destruct (server_answers_every_copy (seed 1) (seed 2) (seed 3) io (hello 2) (message_of o) o.2 MODE_FROM_RELAY None
    relay_a (Some client_at) fresh_server [] 0) as (m2 & s1 & i2 & ri & rr & payload & reply & Ha & Hin & _ & _ & _ & _ & _ & Hcopy);
    [apply seed_good..|apply hello_ok; by apply (bool_decide_unpack _)|reflexivity|by eexists|vm_compute; reflexivity|exact Es
    |apply eq_refl|apply fresh_answer_ok|intros ? [= <-]; by apply (bool_decide_unpack _)|vm_compute; reflexivity|vm_compute; reflexivity|cbn; lia
    |apply new_implements; by vm_compute|reflexivity|reflexivity|vm_compute; reflexivity|].
  destruct (Hcopy [] (absorb s1 fresh_server) later_io (mkHandshake MODE_FROM_SECOND_RELAY first_message (Some client_at) None)
    relay_b (Some client_at)) as (reply' & replies & Hb & Hd);
    [reflexivity|exact Logic.I|reflexivity|unfold HANDSHAKE_REPLY_TTL; cbn; lia|reflexivity|intros ? [= <-]; by apply (bool_decide_unpack _)|].
  exists m2, s1, reply, reply', replies. split; [exact Ha|]. split; [exact Hin|]. split; [exact Hb|exact Hd].
Defined.

Module SwarmPunchExamples.
Import NoiseExamples NoiseWrapExamples.
Definition secret : SecurePayload := mkSecurePayload (replicate 32 1) (replicate 32 2).
Definition puncher : Holepuncher := Holepuncher_new 3 true false 2.
Definition client_at : Ipv4Peer := mkPeer "10.0.0.1" 1234.
Definition entry : InFlightHolepunch :=
  mkInFlight (replicate 32 8) (mkSecurePayload (replicate 32 1) (replicate 32 3)) (Some puncher) 4 5
    (mkNoiseWrapResult false (replicate 32 8) (replicate 32 1) [] [] []) 0 [mkPeer "9.8.7.6" 4000].
Definition server : SwarmActor :=
  set_sw_connects {[1 := entry]} (SwarmActor_new (mkActorConfig (KeyPair_from_seed (seed 2)) 64 3 1 None None true) 4000).
(** [punch] of the handshake examples, on the wire; and a round numbered 300. *)
Definition sealed (b : list Z) : list Z := replicate 24 7 ++ toy_tag (replicate 32 1) (replicate 24 7) [] b ++ b.
Definition wide : list Z := [0; 0; 1; 253; 44; 1].
End SwarmPunchExamples.
Import NoiseWrapExamples SwarmPunchExamples.

Lemma punch_rounds_answered_witness :
  (exists s' bs reply payload,
     handle_peer_holepunch (Some 2) (replicate 24 9) (mkHolepunch MODE_FROM_RELAY 1 (sealed (wire_holepunch_payload punch)) None)
       client_at server = Ok s' /\
     RoundAnswered secret entry punch MODE_FROM_RELAY 1 client_at server s' bs reply payload) /\
  handle_peer_holepunch None (replicate 24 9) (mkHolepunch MODE_FROM_RELAY 1 (sealed wide) None) client_at server = Panic.
Proof.
  split.
  - apply (punch_rounds_answered secret entry punch (replicate 24 7) (wire_holepunch_payload punch)); try reflexivity;
      try (by apply (bool_decide_unpack _)); vm_compute; reflexivity.
  - apply (punch_rounds_answered secret entry (mkHolepunchPayload 0 1 300 false false None None None None) (replicate 24 7) wide);
      try reflexivity; try (by apply (bool_decide_unpack _)); vm_compute; reflexivity.
Defined.
