(* ===== verification/Rpc.v ===== *)
(** * Rpc: the DHT node of [peeroxide-dht/src/rpc.rs]

    The actor behind a [DhtHandle]: it owns the request layer, the routing
    table, the queries and the NAT classifier, and handles one event of its
    [select!] loop at a time.  The handlers are programs over the whole node;
    the clock of an event is the argument [now].  A channel is a number: what is
    sent into a reply channel is appended to [dn_answers], a request handed to a
    subscriber to [dn_delivered]; [dn_closed] are the subscribers whose
    receiver is gone.  A spawned task is an entry of [dn_tasks] (a delayed
    reply, a request waiting for its handler) or of [dn_forwarders] (a query's
    result on its way to a reply channel).  A query taken out of the map is
    kept in [dn_dropped], with what it sent.  The table's lock is never
    poisoned. *)

From S2P Require Import Prelude RustStd CompactEncoding Codec Messages.
From S2P Require Import HyperdhtMessages Peer Persistent Router NatClassifier RoutingTable Query Io.
From Stdlib Require Import Ascii.

#[local] Open Scope Z_scope.

Definition TICK_INTERVAL_MS : Z := 5000.
Definition SLEEPING_INTERVAL_MS : Z := 3 * TICK_INTERVAL_MS.
Definition REFRESH_TICKS : Z := 60.
Definition RECENT_NODE : Z := 12.
Definition OLD_NODE : Z := 360.
Definition MAX_REPINGING : Z := 3.
Definition DOWN_HINTS_RATE_LIMIT : Z := 50.

Definition CMD_PING : Z := command_code Ping.
Definition CMD_PING_NAT : Z := command_code PingNat.
Definition CMD_FIND_NODE : Z := command_code FindNode.
Definition CMD_DOWN_HINT : Z := command_code DownHint.
Definition CMD_DELAYED_PING : Z := command_code DelayedPing.

Definition ERR_UNKNOWN_COMMAND : Z := 1.
Definition SUPPRESS_REPLY_SENTINEL : Z := 2 ^ 64 - 1.

(** ** Types *)

Inductive DhtError := Destroyed | ChannelClosed | BootstrapFailed | RequestFailed (what : string).

Record DhtConfig := mkDhtConfig {
  cfg_bootstrap : list string;
  cfg_port : Z;
  cfg_host : string;
  cfg_ephemeral : option bool;
  cfg_firewalled : bool;
  cfg_concurrency : nat;
  cfg_max_window : Z
}.

Record PingResponse := mkPingResponse {
  pr_from : Ipv4Peer;
  pr_id : option NodeId;
  pr_rtt : Z;
  pr_to : option Ipv4Peer;
  pr_closer_nodes : list Ipv4Peer
}.

Record ResponseData := mkResponseData {
  rs_from : Ipv4Peer;
  rs_id : option NodeId;
  rs_token : option (list Z);
  rs_closer_nodes : list Ipv4Peer;
  rs_error : Z;
  rs_value : option (list Z);
  rs_rtt : Z
}.

Record UserQueryParams := mkUserQuery {
  uq_target : NodeId;
  uq_command : Z;
  uq_value : option (list Z);
  uq_commit : bool;
  uq_concurrency : option nat
}.

Record UserRequestParams := mkUserParams {
  up_token : option (list Z);
  up_command : Z;
  up_target : option NodeId;
  up_value : option (list Z);
  up_timeout_ms : option Z;
  up_retries : option Z
}.

(** Each command with the channel its answer goes to. *)
Inductive DhtCommand :=
| CBootstrapped (tx : Z)
| CPing (host : string) (port : Z) (tx : Z)
| CFindNode (target : NodeId) (tx : Z)
| CQuery (params : UserQueryParams) (tx : Z)
| CRequest (params : UserRequestParams) (host : string) (port : Z) (tx : Z)
| CRelay (command : Z) (target : option NodeId) (value : option (list Z)) (to : Ipv4Peer)
    (preserve_tid : option Z)
| CSendReplyTo (tid : Z) (target : option NodeId) (to : Ipv4Peer) (value : option (list Z))
| CSubscribeRequests (tx : Z)
| CTableSize (tx : Z)
| CDestroy (tx : Z)
| CLocalPort (tx : Z)
| CTableId (tx : Z)
| CServerSocket (tx : Z)
| CListenSocket (tx : Z)
| CRemoteAddress (tx : Z)
| CInboundReplyBytes (addr : SocketAddr) (data : list Z)
| CPingViaSocket (target : Ipv4Peer) (tx : Z).

(** What goes through the reply channels. *)
Inductive Answer :=
| ABootstrapped (r : DhtError + unit)
| APing (r : DhtError + PingResponse)
| ARequest (r : DhtError + ResponseData)
| ASubscription (sub : Z)
| ATableSize (n : Z)
| ADestroyed
| ALocalPort (p : Z)
| ATableId (id : NodeId)
| ASocket (k : SocketKind)
| ARemoteAddress (addr : option Ipv4Peer) (firewall : Z).

Inductive StandaloneRequest :=
| SPing (tx : Z)
| SUserRequest (tx : Z)
| SReping (new_node : Node) (old_node_id : NodeId) (last_seen_tick : Z)
| SCheck (node_id : NodeId) (last_seen_tick : Z).

Record DeferredReply := mkDeferred {
  df_from : Ipv4Peer;
  df_reply_ctx : SocketKind;
  df_tid : Z;
  df_target : option NodeId;
  df_error : Z;
  df_value : option (list Z)
}.

(** A reply to send at [due], and a request whose handler has not answered. *)
Inductive Task :=
| TDelay (due : Z) (reply : DeferredReply)
| TUser (from : Ipv4Peer) (ctx : SocketKind) (tid : Z) (target : option NodeId).

(** ** The node *)

Record DhtNode := mkDhtNode {
  dn_config : DhtConfig;
  dn_local_port : Z;
  dn_io : Io;
  dn_table : RoutingTable;
  dn_tick : Z;
  dn_refresh_ticks : Z;
  dn_repinging : Z;
  dn_bootstrapped : bool;
  dn_bootstrap_waiters : list Z;
  dn_active_queries : gmap Z Query;
  dn_tid_to_query : gmap Z (Z * bool);
  dn_standalone_tids : gmap Z StandaloneRequest;
  dn_next_query_id : Z;
  dn_request_subscribers : list Z;
  dn_destroyed : bool;
  dn_last_tick_time : Z;
  dn_down_hints_per_tick : Z;
  dn_bootstrap_query_id : option Z;
  dn_deferred_replies : list DeferredReply;
  dn_needs_id_update : bool;
  dn_addr_samples : list Ipv4Peer;
  dn_nat : Nat;
  dn_tasks : list Task;
  dn_forwarders : list (Z * Z);
  dn_answers : list (Z * Answer);
  dn_delivered : list (Z * UserRequest);
  dn_closed : list Z;
  dn_dropped : list Query
}.

(** Assignments to single fields. *)
Definition with_io (v : Io) (n : DhtNode) : DhtNode :=
  mkDhtNode (dn_config n) (dn_local_port n) v (dn_table n) (dn_tick n) (dn_refresh_ticks n)
    (dn_repinging n) (dn_bootstrapped n) (dn_bootstrap_waiters n) (dn_active_queries n)
    (dn_tid_to_query n) (dn_standalone_tids n) (dn_next_query_id n) (dn_request_subscribers n)
    (dn_destroyed n) (dn_last_tick_time n) (dn_down_hints_per_tick n) (dn_bootstrap_query_id n)
    (dn_deferred_replies n) (dn_needs_id_update n) (dn_addr_samples n) (dn_nat n) (dn_tasks n)
    (dn_forwarders n) (dn_answers n) (dn_delivered n) (dn_closed n) (dn_dropped n).
Definition with_table (v : RoutingTable) (n : DhtNode) : DhtNode :=
  mkDhtNode (dn_config n) (dn_local_port n) (dn_io n) v (dn_tick n) (dn_refresh_ticks n) (dn_repinging n)
    (dn_bootstrapped n) (dn_bootstrap_waiters n) (dn_active_queries n) (dn_tid_to_query n)
    (dn_standalone_tids n) (dn_next_query_id n) (dn_request_subscribers n) (dn_destroyed n)
    (dn_last_tick_time n) (dn_down_hints_per_tick n) (dn_bootstrap_query_id n)
    (dn_deferred_replies n) (dn_needs_id_update n) (dn_addr_samples n) (dn_nat n) (dn_tasks n)
    (dn_forwarders n) (dn_answers n) (dn_delivered n) (dn_closed n) (dn_dropped n).
Definition with_tick (v : Z) (n : DhtNode) : DhtNode :=
  mkDhtNode (dn_config n) (dn_local_port n) (dn_io n) (dn_table n) v (dn_refresh_ticks n) (dn_repinging n)
    (dn_bootstrapped n) (dn_bootstrap_waiters n) (dn_active_queries n) (dn_tid_to_query n)
    (dn_standalone_tids n) (dn_next_query_id n) (dn_request_subscribers n) (dn_destroyed n)
    (dn_last_tick_time n) (dn_down_hints_per_tick n) (dn_bootstrap_query_id n)
    (dn_deferred_replies n) (dn_needs_id_update n) (dn_addr_samples n) (dn_nat n) (dn_tasks n)
    (dn_forwarders n) (dn_answers n) (dn_delivered n) (dn_closed n) (dn_dropped n).
Definition with_refresh_ticks (v : Z) (n : DhtNode) : DhtNode :=
  mkDhtNode (dn_config n) (dn_local_port n) (dn_io n) (dn_table n) (dn_tick n) v (dn_repinging n)
    (dn_bootstrapped n) (dn_bootstrap_waiters n) (dn_active_queries n) (dn_tid_to_query n)
    (dn_standalone_tids n) (dn_next_query_id n) (dn_request_subscribers n) (dn_destroyed n)
    (dn_last_tick_time n) (dn_down_hints_per_tick n) (dn_bootstrap_query_id n)
    (dn_deferred_replies n) (dn_needs_id_update n) (dn_addr_samples n) (dn_nat n) (dn_tasks n)
    (dn_forwarders n) (dn_answers n) (dn_delivered n) (dn_closed n) (dn_dropped n).
Definition with_repinging (v : Z) (n : DhtNode) : DhtNode :=
  mkDhtNode (dn_config n) (dn_local_port n) (dn_io n) (dn_table n) (dn_tick n) (dn_refresh_ticks n) v
    (dn_bootstrapped n) (dn_bootstrap_waiters n) (dn_active_queries n) (dn_tid_to_query n)
    (dn_standalone_tids n) (dn_next_query_id n) (dn_request_subscribers n) (dn_destroyed n)
    (dn_last_tick_time n) (dn_down_hints_per_tick n) (dn_bootstrap_query_id n)
    (dn_deferred_replies n) (dn_needs_id_update n) (dn_addr_samples n) (dn_nat n) (dn_tasks n)
    (dn_forwarders n) (dn_answers n) (dn_delivered n) (dn_closed n) (dn_dropped n).
Definition with_bootstrapped (v : bool) (n : DhtNode) : DhtNode :=
  mkDhtNode (dn_config n) (dn_local_port n) (dn_io n) (dn_table n) (dn_tick n) (dn_refresh_ticks n)
    (dn_repinging n) v (dn_bootstrap_waiters n) (dn_active_queries n) (dn_tid_to_query n)
    (dn_standalone_tids n) (dn_next_query_id n) (dn_request_subscribers n) (dn_destroyed n)
    (dn_last_tick_time n) (dn_down_hints_per_tick n) (dn_bootstrap_query_id n)
    (dn_deferred_replies n) (dn_needs_id_update n) (dn_addr_samples n) (dn_nat n) (dn_tasks n)
    (dn_forwarders n) (dn_answers n) (dn_delivered n) (dn_closed n) (dn_dropped n).
Definition with_bootstrap_waiters (v : list Z) (n : DhtNode) : DhtNode :=
  mkDhtNode (dn_config n) (dn_local_port n) (dn_io n) (dn_table n) (dn_tick n) (dn_refresh_ticks n)
    (dn_repinging n) (dn_bootstrapped n) v (dn_active_queries n) (dn_tid_to_query n)
    (dn_standalone_tids n) (dn_next_query_id n) (dn_request_subscribers n) (dn_destroyed n)
    (dn_last_tick_time n) (dn_down_hints_per_tick n) (dn_bootstrap_query_id n)
    (dn_deferred_replies n) (dn_needs_id_update n) (dn_addr_samples n) (dn_nat n) (dn_tasks n)
    (dn_forwarders n) (dn_answers n) (dn_delivered n) (dn_closed n) (dn_dropped n).
Definition with_active_queries (v : gmap Z Query) (n : DhtNode) : DhtNode :=
  mkDhtNode (dn_config n) (dn_local_port n) (dn_io n) (dn_table n) (dn_tick n) (dn_refresh_ticks n)
    (dn_repinging n) (dn_bootstrapped n) (dn_bootstrap_waiters n) v (dn_tid_to_query n)
    (dn_standalone_tids n) (dn_next_query_id n) (dn_request_subscribers n) (dn_destroyed n)
    (dn_last_tick_time n) (dn_down_hints_per_tick n) (dn_bootstrap_query_id n)
    (dn_deferred_replies n) (dn_needs_id_update n) (dn_addr_samples n) (dn_nat n) (dn_tasks n)
    (dn_forwarders n) (dn_answers n) (dn_delivered n) (dn_closed n) (dn_dropped n).
Definition with_tid_to_query (v : gmap Z (Z * bool)) (n : DhtNode) : DhtNode :=
  mkDhtNode (dn_config n) (dn_local_port n) (dn_io n) (dn_table n) (dn_tick n) (dn_refresh_ticks n)
    (dn_repinging n) (dn_bootstrapped n) (dn_bootstrap_waiters n) (dn_active_queries n) v
    (dn_standalone_tids n) (dn_next_query_id n) (dn_request_subscribers n) (dn_destroyed n)
    (dn_last_tick_time n) (dn_down_hints_per_tick n) (dn_bootstrap_query_id n)
    (dn_deferred_replies n) (dn_needs_id_update n) (dn_addr_samples n) (dn_nat n) (dn_tasks n)
    (dn_forwarders n) (dn_answers n) (dn_delivered n) (dn_closed n) (dn_dropped n).
Definition with_standalone_tids (v : gmap Z StandaloneRequest) (n : DhtNode) : DhtNode :=
  mkDhtNode (dn_config n) (dn_local_port n) (dn_io n) (dn_table n) (dn_tick n) (dn_refresh_ticks n)
    (dn_repinging n) (dn_bootstrapped n) (dn_bootstrap_waiters n) (dn_active_queries n)
    (dn_tid_to_query n) v (dn_next_query_id n) (dn_request_subscribers n) (dn_destroyed n)
    (dn_last_tick_time n) (dn_down_hints_per_tick n) (dn_bootstrap_query_id n)
    (dn_deferred_replies n) (dn_needs_id_update n) (dn_addr_samples n) (dn_nat n) (dn_tasks n)
    (dn_forwarders n) (dn_answers n) (dn_delivered n) (dn_closed n) (dn_dropped n).
Definition with_next_query_id (v : Z) (n : DhtNode) : DhtNode :=
  mkDhtNode (dn_config n) (dn_local_port n) (dn_io n) (dn_table n) (dn_tick n) (dn_refresh_ticks n)
    (dn_repinging n) (dn_bootstrapped n) (dn_bootstrap_waiters n) (dn_active_queries n)
    (dn_tid_to_query n) (dn_standalone_tids n) v (dn_request_subscribers n) (dn_destroyed n)
    (dn_last_tick_time n) (dn_down_hints_per_tick n) (dn_bootstrap_query_id n)
    (dn_deferred_replies n) (dn_needs_id_update n) (dn_addr_samples n) (dn_nat n) (dn_tasks n)
    (dn_forwarders n) (dn_answers n) (dn_delivered n) (dn_closed n) (dn_dropped n).
Definition with_request_subscribers (v : list Z) (n : DhtNode) : DhtNode :=
  mkDhtNode (dn_config n) (dn_local_port n) (dn_io n) (dn_table n) (dn_tick n) (dn_refresh_ticks n)
    (dn_repinging n) (dn_bootstrapped n) (dn_bootstrap_waiters n) (dn_active_queries n)
    (dn_tid_to_query n) (dn_standalone_tids n) (dn_next_query_id n) v (dn_destroyed n)
    (dn_last_tick_time n) (dn_down_hints_per_tick n) (dn_bootstrap_query_id n)
    (dn_deferred_replies n) (dn_needs_id_update n) (dn_addr_samples n) (dn_nat n) (dn_tasks n)
    (dn_forwarders n) (dn_answers n) (dn_delivered n) (dn_closed n) (dn_dropped n).
Definition with_destroyed (v : bool) (n : DhtNode) : DhtNode :=
  mkDhtNode (dn_config n) (dn_local_port n) (dn_io n) (dn_table n) (dn_tick n) (dn_refresh_ticks n)
    (dn_repinging n) (dn_bootstrapped n) (dn_bootstrap_waiters n) (dn_active_queries n)
    (dn_tid_to_query n) (dn_standalone_tids n) (dn_next_query_id n) (dn_request_subscribers n) v
    (dn_last_tick_time n) (dn_down_hints_per_tick n) (dn_bootstrap_query_id n)
    (dn_deferred_replies n) (dn_needs_id_update n) (dn_addr_samples n) (dn_nat n) (dn_tasks n)
    (dn_forwarders n) (dn_answers n) (dn_delivered n) (dn_closed n) (dn_dropped n).
Definition with_last_tick_time (v : Z) (n : DhtNode) : DhtNode :=
  mkDhtNode (dn_config n) (dn_local_port n) (dn_io n) (dn_table n) (dn_tick n) (dn_refresh_ticks n)
    (dn_repinging n) (dn_bootstrapped n) (dn_bootstrap_waiters n) (dn_active_queries n)
    (dn_tid_to_query n) (dn_standalone_tids n) (dn_next_query_id n) (dn_request_subscribers n)
    (dn_destroyed n) v (dn_down_hints_per_tick n) (dn_bootstrap_query_id n) (dn_deferred_replies n)
    (dn_needs_id_update n) (dn_addr_samples n) (dn_nat n) (dn_tasks n) (dn_forwarders n)
    (dn_answers n) (dn_delivered n) (dn_closed n) (dn_dropped n).
Definition with_down_hints_per_tick (v : Z) (n : DhtNode) : DhtNode :=
  mkDhtNode (dn_config n) (dn_local_port n) (dn_io n) (dn_table n) (dn_tick n) (dn_refresh_ticks n)
    (dn_repinging n) (dn_bootstrapped n) (dn_bootstrap_waiters n) (dn_active_queries n)
    (dn_tid_to_query n) (dn_standalone_tids n) (dn_next_query_id n) (dn_request_subscribers n)
    (dn_destroyed n) (dn_last_tick_time n) v (dn_bootstrap_query_id n) (dn_deferred_replies n)
    (dn_needs_id_update n) (dn_addr_samples n) (dn_nat n) (dn_tasks n) (dn_forwarders n)
    (dn_answers n) (dn_delivered n) (dn_closed n) (dn_dropped n).
Definition with_bootstrap_query_id (v : option Z) (n : DhtNode) : DhtNode :=
  mkDhtNode (dn_config n) (dn_local_port n) (dn_io n) (dn_table n) (dn_tick n) (dn_refresh_ticks n)
    (dn_repinging n) (dn_bootstrapped n) (dn_bootstrap_waiters n) (dn_active_queries n)
    (dn_tid_to_query n) (dn_standalone_tids n) (dn_next_query_id n) (dn_request_subscribers n)
    (dn_destroyed n) (dn_last_tick_time n) (dn_down_hints_per_tick n) v (dn_deferred_replies n)
    (dn_needs_id_update n) (dn_addr_samples n) (dn_nat n) (dn_tasks n) (dn_forwarders n)
    (dn_answers n) (dn_delivered n) (dn_closed n) (dn_dropped n).
Definition with_deferred_replies (v : list DeferredReply) (n : DhtNode) : DhtNode :=
  mkDhtNode (dn_config n) (dn_local_port n) (dn_io n) (dn_table n) (dn_tick n) (dn_refresh_ticks n)
    (dn_repinging n) (dn_bootstrapped n) (dn_bootstrap_waiters n) (dn_active_queries n)
    (dn_tid_to_query n) (dn_standalone_tids n) (dn_next_query_id n) (dn_request_subscribers n)
    (dn_destroyed n) (dn_last_tick_time n) (dn_down_hints_per_tick n) (dn_bootstrap_query_id n) v
    (dn_needs_id_update n) (dn_addr_samples n) (dn_nat n) (dn_tasks n) (dn_forwarders n)
    (dn_answers n) (dn_delivered n) (dn_closed n) (dn_dropped n).
Definition with_needs_id_update (v : bool) (n : DhtNode) : DhtNode :=
  mkDhtNode (dn_config n) (dn_local_port n) (dn_io n) (dn_table n) (dn_tick n) (dn_refresh_ticks n)
    (dn_repinging n) (dn_bootstrapped n) (dn_bootstrap_waiters n) (dn_active_queries n)
    (dn_tid_to_query n) (dn_standalone_tids n) (dn_next_query_id n) (dn_request_subscribers n)
    (dn_destroyed n) (dn_last_tick_time n) (dn_down_hints_per_tick n) (dn_bootstrap_query_id n)
    (dn_deferred_replies n) v (dn_addr_samples n) (dn_nat n) (dn_tasks n) (dn_forwarders n)
    (dn_answers n) (dn_delivered n) (dn_closed n) (dn_dropped n).
Definition with_addr_samples (v : list Ipv4Peer) (n : DhtNode) : DhtNode :=
  mkDhtNode (dn_config n) (dn_local_port n) (dn_io n) (dn_table n) (dn_tick n) (dn_refresh_ticks n)
    (dn_repinging n) (dn_bootstrapped n) (dn_bootstrap_waiters n) (dn_active_queries n)
    (dn_tid_to_query n) (dn_standalone_tids n) (dn_next_query_id n) (dn_request_subscribers n)
    (dn_destroyed n) (dn_last_tick_time n) (dn_down_hints_per_tick n) (dn_bootstrap_query_id n)
    (dn_deferred_replies n) (dn_needs_id_update n) v (dn_nat n) (dn_tasks n) (dn_forwarders n)
    (dn_answers n) (dn_delivered n) (dn_closed n) (dn_dropped n).
Definition with_nat (v : Nat) (n : DhtNode) : DhtNode :=
  mkDhtNode (dn_config n) (dn_local_port n) (dn_io n) (dn_table n) (dn_tick n) (dn_refresh_ticks n)
    (dn_repinging n) (dn_bootstrapped n) (dn_bootstrap_waiters n) (dn_active_queries n)
    (dn_tid_to_query n) (dn_standalone_tids n) (dn_next_query_id n) (dn_request_subscribers n)
    (dn_destroyed n) (dn_last_tick_time n) (dn_down_hints_per_tick n) (dn_bootstrap_query_id n)
    (dn_deferred_replies n) (dn_needs_id_update n) (dn_addr_samples n) v (dn_tasks n)
    (dn_forwarders n) (dn_answers n) (dn_delivered n) (dn_closed n) (dn_dropped n).
Definition with_tasks (v : list Task) (n : DhtNode) : DhtNode :=
  mkDhtNode (dn_config n) (dn_local_port n) (dn_io n) (dn_table n) (dn_tick n) (dn_refresh_ticks n)
    (dn_repinging n) (dn_bootstrapped n) (dn_bootstrap_waiters n) (dn_active_queries n)
    (dn_tid_to_query n) (dn_standalone_tids n) (dn_next_query_id n) (dn_request_subscribers n)
    (dn_destroyed n) (dn_last_tick_time n) (dn_down_hints_per_tick n) (dn_bootstrap_query_id n)
    (dn_deferred_replies n) (dn_needs_id_update n) (dn_addr_samples n) (dn_nat n) v
    (dn_forwarders n) (dn_answers n) (dn_delivered n) (dn_closed n) (dn_dropped n).
Definition with_forwarders (v : list (Z * Z)) (n : DhtNode) : DhtNode :=
  mkDhtNode (dn_config n) (dn_local_port n) (dn_io n) (dn_table n) (dn_tick n) (dn_refresh_ticks n)
    (dn_repinging n) (dn_bootstrapped n) (dn_bootstrap_waiters n) (dn_active_queries n)
    (dn_tid_to_query n) (dn_standalone_tids n) (dn_next_query_id n) (dn_request_subscribers n)
    (dn_destroyed n) (dn_last_tick_time n) (dn_down_hints_per_tick n) (dn_bootstrap_query_id n)
    (dn_deferred_replies n) (dn_needs_id_update n) (dn_addr_samples n) (dn_nat n) (dn_tasks n) v
    (dn_answers n) (dn_delivered n) (dn_closed n) (dn_dropped n).
Definition with_answers (v : list (Z * Answer)) (n : DhtNode) : DhtNode :=
  mkDhtNode (dn_config n) (dn_local_port n) (dn_io n) (dn_table n) (dn_tick n) (dn_refresh_ticks n)
    (dn_repinging n) (dn_bootstrapped n) (dn_bootstrap_waiters n) (dn_active_queries n)
    (dn_tid_to_query n) (dn_standalone_tids n) (dn_next_query_id n) (dn_request_subscribers n)
    (dn_destroyed n) (dn_last_tick_time n) (dn_down_hints_per_tick n) (dn_bootstrap_query_id n)
    (dn_deferred_replies n) (dn_needs_id_update n) (dn_addr_samples n) (dn_nat n) (dn_tasks n)
    (dn_forwarders n) v (dn_delivered n) (dn_closed n) (dn_dropped n).
Definition with_delivered (v : list (Z * UserRequest)) (n : DhtNode) : DhtNode :=
  mkDhtNode (dn_config n) (dn_local_port n) (dn_io n) (dn_table n) (dn_tick n) (dn_refresh_ticks n)
    (dn_repinging n) (dn_bootstrapped n) (dn_bootstrap_waiters n) (dn_active_queries n)
    (dn_tid_to_query n) (dn_standalone_tids n) (dn_next_query_id n) (dn_request_subscribers n)
    (dn_destroyed n) (dn_last_tick_time n) (dn_down_hints_per_tick n) (dn_bootstrap_query_id n)
    (dn_deferred_replies n) (dn_needs_id_update n) (dn_addr_samples n) (dn_nat n) (dn_tasks n)
    (dn_forwarders n) (dn_answers n) v (dn_closed n) (dn_dropped n).
Definition with_closed (v : list Z) (n : DhtNode) : DhtNode :=
  mkDhtNode (dn_config n) (dn_local_port n) (dn_io n) (dn_table n) (dn_tick n) (dn_refresh_ticks n)
    (dn_repinging n) (dn_bootstrapped n) (dn_bootstrap_waiters n) (dn_active_queries n)
    (dn_tid_to_query n) (dn_standalone_tids n) (dn_next_query_id n) (dn_request_subscribers n)
    (dn_destroyed n) (dn_last_tick_time n) (dn_down_hints_per_tick n) (dn_bootstrap_query_id n)
    (dn_deferred_replies n) (dn_needs_id_update n) (dn_addr_samples n) (dn_nat n) (dn_tasks n)
    (dn_forwarders n) (dn_answers n) (dn_delivered n) v (dn_dropped n).
Definition with_dropped (v : list Query) (n : DhtNode) : DhtNode :=
  mkDhtNode (dn_config n) (dn_local_port n) (dn_io n) (dn_table n) (dn_tick n) (dn_refresh_ticks n)
    (dn_repinging n) (dn_bootstrapped n) (dn_bootstrap_waiters n) (dn_active_queries n)
    (dn_tid_to_query n) (dn_standalone_tids n) (dn_next_query_id n) (dn_request_subscribers n)
    (dn_destroyed n) (dn_last_tick_time n) (dn_down_hints_per_tick n) (dn_bootstrap_query_id n)
    (dn_deferred_replies n) (dn_needs_id_update n) (dn_addr_samples n) (dn_nat n) (dn_tasks n)
    (dn_forwarders n) (dn_answers n) (dn_delivered n) (dn_closed n) v.

Abbreviation NodeM := (M DhtNode Empty_set).
Definition node_upd (f : DhtNode -> DhtNode) : NodeM unit := fun n => (Ok tt, f n).
(** Work on the request layer, on the table. *)
Definition io_do {A} (m : IoM A) : NodeM A := fun n => let '(r, io) := m (dn_io n) in (r, with_io io n).
Definition table_do {A} (m : Tbl A) : NodeM A := fun n => let '(r, t) := m (dn_table n) in (r, with_table t n).
Definition pure_do {A} (o : outcome Empty_set A) : NodeM A := fun n => (o, n).
(** [reply_tx.send(..)] *)
Definition answer (tx : Z) (a : Answer) : NodeM unit := node_upd (fun n => with_answers (dn_answers n ++ [(tx, a)]) n).

(** [Iterator::min_by] (the first of the least), [max_by_key] (the last of the
    greatest), [slice::sort_by_key] (stable). *)
Definition min_by {A} (lt : A -> A -> bool) (l : list A) : option A :=
  foldl (fun acc x => match acc with
                      | None => Some x
                      | Some y => if lt x y then Some x else Some y
                      end) None l.
Definition max_by_key {A} (key : A -> Z) (l : list A) : option A :=
  foldl (fun acc x => match acc with
                      | None => Some x
                      | Some y => if key y <=? key x then Some x else Some y
                      end) None l.
Fixpoint insert_by_key {A} (key : A -> Z) (x : A) (l : list A) : list A :=
  match l with
  | [] => [x]
  | y :: l => if key x <? key y then x :: y :: l else y :: insert_by_key key x l
  end.
Definition sort_by_key {A} (key : A -> Z) (l : list A) : list A :=
  foldl (fun acc x => insert_by_key key x acc) [] l.

(** ** The user's side of a request *)

Definition UserRequest_reply (value : option (list Z)) : Z * option (list Z) := (0, value).
Definition UserRequest_error (code : Z) : Z * option (list Z) := (code, None).
Definition UserRequest_release : Z * option (list Z) := (SUPPRESS_REPLY_SENTINEL, None).

Section Rpc.
Context (blake2b : list Z -> list Z) (mac : list Z -> list Z -> list Z).
Context (fresh : list Z * list Z) (send_ok : list Z -> SocketAddr -> bool).
(** The random numbers of the refresh that starts the query with this id. *)
Context (random_range : Z -> nat -> nat -> nat).
(** The order a [HashMap] iterates in. *)
Context (hash_iter : gmap string Z -> list (string * Z)).

Definition node_create (now : Z) (p : RequestParams) : NodeM (option Z) :=
  n ← Prelude.get; io_do (create_request send_ok now (dn_table n) p).
Definition node_reply (req : IncomingRequest) (error : Z) (value : option (list Z)) : NodeM unit :=
  n ← Prelude.get; io_do (send_reply mac fresh send_ok (dn_table n) req error value).

(** An internal request without token and value. *)
Definition internal_request (to : Ipv4Peer) (command : Z) (target : option NodeId) : RequestParams :=
  mkParams to None true command target None None None.

(** ** Bootstrapping *)

Definition determine_address_from_samples (samples : list Ipv4Peer) : option Ipv4Peer :=
  if is_empty samples then None
  else
    let counts := foldl (fun m s => <[peer_addr s := default 0 (m !! peer_addr s) + 1]> m)
                        (∅ : gmap string Z) samples in
    match max_by_key snd (hash_iter counts) with
    | None => None
    | Some (host_port, _) =>
        match split_last ":" host_port with
        | None => None
        | Some (host, port) =>
            match parse_u16 port with
            | None => None
            | Some port => Some (mkPeer host port)
            end
        end
    end.

Definition mark_bootstrapped : NodeM unit :=
  n ← Prelude.get;
  if dn_bootstrapped n then mret tt
  else
    (if dn_needs_id_update n then
       match determine_address_from_samples (dn_addr_samples n) with
       | Some addr =>
           match peer_id blake2b (host addr) (port addr) with
           | Ok new_id => table_do (RoutingTable_rebuild_with_id new_id)
           | _ => panic
           end
       | None => mret tt
       end ;;
       node_upd (with_needs_id_update false)
     else mret tt) ;;
    node_upd (with_bootstrapped true) ;;
    n ← Prelude.get;
    for_m (dn_bootstrap_waiters n) (fun tx => answer tx (ABootstrapped (inr tt))) ;;
    node_upd (with_bootstrap_waiters []).

Definition on_query_removed (query_id : Z) : NodeM unit :=
  n ← Prelude.get;
  if bool_decide (dn_bootstrap_query_id n = Some query_id) then
    node_upd (with_bootstrap_query_id None) ;; mark_bootstrapped
  else mret tt.

(** ** Queries *)

(** [self.active_queries.insert(..)], [self.active_queries.remove(..)] *)
Definition insert_query (query_id : Z) (q : Query) : NodeM unit :=
  node_upd (fun n => with_active_queries (<[query_id := q]> (dn_active_queries n)) n).
Definition remove_query (query_id : Z) : NodeM unit := node_upd (fun n =>
  match dn_active_queries n !! query_id with
  | Some q => with_dropped (dn_dropped n ++ [q]) (with_active_queries (delete query_id (dn_active_queries n)) n)
  | None => n
  end).
Definition track_query (tid query_id : Z) (is_commit : bool) : NodeM unit :=
  node_upd (fun n => with_tid_to_query (<[tid := (query_id, is_commit)]> (dn_tid_to_query n)) n).
Definition track_standalone (tid : Z) (s : StandaloneRequest) : NodeM unit :=
  node_upd (fun n => with_standalone_tids (<[tid := s]> (dn_standalone_tids n)) n).

Definition dispatch_one (now query_id : Z) (req : QueryRequest) : NodeM unit :=
  match req with
  | QQuery params =>
      tid ← node_create now params;
      match tid with Some tid => track_query tid query_id false | None => mret tt end
  | QCommit params =>
      tid ← node_create now params;
      match tid with Some tid => track_query tid query_id true | None => mret tt end
  | QDownHint params =>
      n ← Prelude.get;
      if dn_down_hints_per_tick n <? DOWN_HINTS_RATE_LIMIT then
        node_upd (with_down_hints_per_tick (dn_down_hints_per_tick n + 1)) ;;
        node_create now params ;; mret tt
      else mret tt
  end.
Definition dispatch_query_requests (now query_id : Z) (requests : list QueryRequest) : NodeM unit :=
  for_m requests (dispatch_one now query_id).

(** A fresh query id. *)
Definition next_query : NodeM Z := fun n => (Ok (dn_next_query_id n), with_next_query_id (dn_next_query_id n + 1) n).

Definition start_bootstrap (now : Z) (own_id : NodeId) : NodeM unit :=
  n ← Prelude.get;
  let bootstrap_nodes := omap parse_bootstrap_str (cfg_bootstrap (dn_config n)) in
  query_id ← next_query;
  node_upd (with_bootstrap_query_id (Some query_id)) ;;
  let q := Query_new query_id own_id true CMD_FIND_NODE None (cfg_concurrency (dn_config n)) false own_id in
  let q := Query_add_from_table (Some (dn_table n)) q in
  q ← pure_do (Query_add_nodes blake2b bootstrap_nodes q);
  let '(requests, q) := Query_poll_requests (Some (dn_table n)) q in
  dispatch_query_requests now query_id requests ;;
  if Query_is_finished q then
    node_upd (fun n => with_dropped (dn_dropped n ++ [q]) n) ;; on_query_removed query_id
  else insert_query query_id q.

(** What [run_refresh] and [start_query] share: make the query, send its first
    requests and keep it. *)
Definition launch_query (now : Z) (target : NodeId) (internal : bool) (command : Z) (value : option (list Z))
    (concurrency : nat) (commit : bool) : NodeM Z :=
  n ← Prelude.get;
  query_id ← next_query;
  let q := Query_new query_id target internal command value concurrency commit (t_id (dn_table n)) in
  let q := Query_add_from_table (Some (dn_table n)) q in
  let '(reqs, q) := Query_poll_requests (Some (dn_table n)) q in
  dispatch_query_requests now query_id reqs ;;
  insert_query query_id q ;;
  mret query_id.

Definition run_refresh (now : Z) : NodeM unit :=
  node_upd (with_refresh_ticks REFRESH_TICKS) ;;
  n ← Prelude.get;
  r ← table_do (RoutingTable_random (random_range (dn_next_query_id n)));
  let target := match r with Some node => n_id node | None => t_id (dn_table n) end in
  launch_query now target true CMD_FIND_NODE None (Nat.max (cfg_concurrency (dn_config n) / 8) 2) false ;;
  mret tt.

Definition start_query (now : Z) (target : NodeId) (internal : bool) (command : Z) (value : option (list Z))
    (commit : bool) (concurrency : option nat) (tx : Z) : NodeM unit :=
  n ← Prelude.get;
  query_id ← launch_query now target internal command value
               (default (cfg_concurrency (dn_config n)) concurrency) commit;
  node_upd (fun n => with_forwarders (dn_forwarders n ++ [(query_id, tx)]) n).

(** ** Nodes from the network *)

(** The least recently pinged of the twenty nodes nearest to [id]. *)
Definition oldest_near (t : RoutingTable) (tick : Z) (id : NodeId) : option Node :=
  min_by (fun a b => (n_pinged_tick a <? n_pinged_tick b) ||
                     ((n_pinged_tick a =? n_pinged_tick b) && (n_added_tick a <? n_added_tick b)))
    (filter (fun n => n_pinged_tick n <? tick) (RoutingTable_closest t id 20)).

Definition set_pinged (tick : Z) (n : Node) : Node :=
  mkNode (n_id n) (n_host n) (n_port n) (n_token n) (n_added_tick n) (n_seen_tick n) tick (n_down_hints n).

(** The loop over the drained events; a node seen recently and known for long
    ends it. *)
Fixpoint reping_loop (now : Z) (events : list TableEvent) : NodeM unit :=
  match events with
  | [] => mret tt
  | BucketFull evt_new_node _ :: events =>
      n ← Prelude.get;
      match oldest_near (dn_table n) (dn_tick n) (n_id evt_new_node) with
      | None => reping_loop now events
      | Some old =>
          added ← table_do (RoutingTable_get (n_id old));
          if (as_u64 (dn_tick n - n_seen_tick old) <? RECENT_NODE) &&
             (OLD_NODE <? Z.max 0 (dn_tick n - match added with Some a => n_added_tick a | None => 0 end))
          then mret tt
          else
            table_do (RoutingTable_get_mut (n_id old) (set_pinged (dn_tick n))) ;;
            tid ← node_create now (internal_request (mkPeer (n_host old) (n_port old)) CMD_PING None);
            match tid with
            | Some tid =>
                node_upd (fun n => with_repinging (dn_repinging n + 1) n) ;;
                track_standalone tid (SReping evt_new_node (n_id old) (n_seen_tick old))
            | None => mret tt
            end ;;
            reping_loop now events
      end
  end.

Definition handle_bucket_full (now : Z) : NodeM unit :=
  n ← Prelude.get;
  if negb (dn_bootstrapped n) || (MAX_REPINGING <=? dn_repinging n) then mret tt
  else
    events ← table_do RoutingTable_drain_events;
    reping_loop now events.

Definition set_seen_now (tick : Z) (n : Node) : Node :=
  mkNode (n_id n) (n_host n) (n_port n) (n_token n) (n_added_tick n) tick tick (n_down_hints n).

Definition add_node_from_network (now : Z) (from : Ipv4Peer) (from_id : option NodeId) : NodeM unit :=
  match from_id with
  | None => mret tt
  | Some id =>
      n ← Prelude.get;
      if bool_decide (id = t_id (dn_table n)) then mret tt
      else
        found ← table_do (RoutingTable_get_mut id (set_seen_now (dn_tick n)));
        match found with
        | Some _ => mret tt
        | None =>
            added ← table_do (RoutingTable_add
              (mkNode id (host from) (port from) None (dn_tick n) (dn_tick n) (dn_tick n) 0));
            if negb added then handle_bucket_full now else mret tt
        end
  end.

(** ** Incoming requests *)

(** The little-endian number in the first [k] bytes. *)
Definition le_prefix (k : nat) (v : list Z) : Z := from_le (take k v).

Definition handle_delayed_ping (now : Z) (req : IncomingRequest) : NodeM unit :=
  match ir_value req with
  | Some v =>
      if len v <? 4 then mret tt
      else
        let delay_ms := le_prefix 4 v in
        if 10000 <? delay_ms then node_reply req ERR_UNKNOWN_COMMAND None
        else node_upd (fun n => with_tasks (dn_tasks n ++ [TDelay (now + from_millis delay_ms)
               (mkDeferred (ir_from req) (ir_reply_ctx req) (ir_tid req) (ir_target req) 0 None)]) n)
  | None => mret tt
  end.

Definition add_down_hint (tick : Z) (n : Node) : Node :=
  mkNode (n_id n) (n_host n) (n_port n) (n_token n) (n_added_tick n) (n_seen_tick n) tick (n_down_hints n + 1).

Definition handle_down_hint_request (now : Z) (req : IncomingRequest) : NodeM unit :=
  match ir_value req with
  | Some v =>
      if len v <? 6 then mret tt
      else
        let port := from_le (take 2 (drop 4 v)) in
        match peer_id blake2b (ipv4_text (take 4 v)) port with
        | Ok node_id =>
            found ← table_do (RoutingTable_get node_id);
            match found with
            | None => mret tt
            | Some node =>
                n ← Prelude.get;
                if n_pinged_tick node <? dn_tick n then
                  table_do (RoutingTable_get_mut (n_id node) (add_down_hint (dn_tick n))) ;;
                  tid ← node_create now (internal_request (mkPeer (n_host node) (n_port node)) CMD_PING None);
                  match tid with
                  | Some tid => track_standalone tid (SCheck (n_id node) (n_seen_tick node))
                  | None => mret tt
                  end
                else mret tt
            end
        | _ => panic
        end
  | None => mret tt
  end.

(** [request_subscribers.retain(..)]: the subscribers kept, and the one that
    took the request, if it has not been taken before. *)
Fixpoint retain_subscribers (closed subs : list Z) (taken : bool) : list Z * option Z :=
  match subs with
  | [] => ([], None)
  | tx :: subs =>
      if bool_decide (tx ∈ closed) then retain_subscribers closed subs taken
      else
        let '(kept, by_tx) := retain_subscribers closed subs true in
        (tx :: kept, if taken then None else Some tx)
  end.

Definition user_request_of (req : IncomingRequest) : UserRequest :=
  mkUserRequest (ir_from req) (ir_id req) (ir_tid req) (ir_token req) (ir_command req) (ir_target req) (ir_value req).

Definition forward_user_request (req : IncomingRequest) : NodeM unit :=
  n ← Prelude.get;
  let '(kept, by_tx) := retain_subscribers (dn_closed n) (dn_request_subscribers n) false in
  node_upd (with_request_subscribers kept) ;;
  match by_tx with
  | None => node_reply req ERR_UNKNOWN_COMMAND None
  | Some tx => node_upd (fun n => with_tasks (dn_tasks n ++ [TUser (ir_from req) (ir_reply_ctx req) (ir_tid req) (ir_target req)])
                 (with_delivered (dn_delivered n ++ [(tx, user_request_of req)]) n))
  end.

Definition handle_incoming_request (now : Z) (req : IncomingRequest) : NodeM unit :=
  if ir_internal req then
    let c := ir_command req in
    if c =? CMD_PING then node_reply req 0 None
    else if c =? CMD_DELAYED_PING then handle_delayed_ping now req
    else if c =? CMD_PING_NAT then
      match ir_value req with
      | Some v => if 2 <=? len v then
                    if negb (le_prefix 2 v =? 0) then node_reply req 0 None else mret tt
                  else mret tt
      | None => mret tt
      end
    else if c =? CMD_FIND_NODE then
      if is_some (ir_target req) then node_reply req 0 None else mret tt
    else if c =? CMD_DOWN_HINT then handle_down_hint_request now req ;; node_reply req 0 None
    else node_reply req ERR_UNKNOWN_COMMAND None
  else forward_user_request req.

(** ** Responses and timeouts *)

Definition reflexive (p : Ipv4Peer) : bool := negb (port p =? 0) && negb (String.eqb (host p) "").

(** [table.get(&id).map(|n| n.seen_tick <= last_seen_tick).unwrap_or(absent)] *)
Definition is_stale (id : NodeId) (last_seen_tick : Z) (absent : bool) : NodeM bool :=
  found ← table_do (RoutingTable_get id);
  mret (match found with Some n => n_seen_tick n <=? last_seen_tick | None => absent end).
Definition replace_node (old_node_id : NodeId) (new_node : Node) : NodeM unit :=
  table_do (RoutingTable_remove old_node_id) ;; table_do (RoutingTable_add new_node) ;; mret tt.
Definition dec_repinging : NodeM unit := node_upd (fun n => with_repinging (Z.max 0 (dn_repinging n - 1)) n).

Definition handle_standalone_response (standalone : StandaloneRequest) (resp : ResponseData)
    (reflexive_addr : Ipv4Peer) : NodeM unit :=
  match standalone with
  | SPing tx => answer tx (APing (inr (mkPingResponse (rs_from resp) (rs_id resp) (rs_rtt resp)
                  (if reflexive reflexive_addr then Some reflexive_addr else None) (rs_closer_nodes resp))))
  | SUserRequest tx => answer tx (ARequest (inr resp))
  | SReping new_node old_node_id last_seen_tick =>
      dec_repinging ;;
      stale ← is_stale old_node_id last_seen_tick true;
      if (stale : bool) then replace_node old_node_id new_node else mret tt
  | SCheck node_id last_seen_tick =>
      stale ← is_stale node_id last_seen_tick false;
      if (stale : bool) then table_do (RoutingTable_remove node_id) ;; mret tt else mret tt
  end.

Definition handle_standalone_timeout (standalone : StandaloneRequest) : NodeM unit :=
  match standalone with
  | SPing tx => answer tx (APing (inl (RequestFailed "timeout")))
  | SUserRequest tx => answer tx (ARequest (inl (RequestFailed "timeout")))
  | SReping new_node old_node_id _ => dec_repinging ;; replace_node old_node_id new_node
  | SCheck node_id _ => table_do (RoutingTable_remove node_id) ;; mret tt
  end.

(** A commit request is done. *)
Definition commit_done (query_id : Z) : NodeM unit :=
  n ← Prelude.get;
  finished ← match dn_active_queries n !! query_id with
             | Some q => let '(b, q) := Query_on_commit_done q in insert_query query_id q ;; mret b
             | None => mret true
             end;
  if (finished : bool) then remove_query query_id ;; on_query_removed query_id else mret tt.

(** A query request is done: [f] is what the query does with it. *)
Definition query_done (now query_id : Z)
    (f : option RoutingTable -> Query -> outcome Empty_set (list QueryRequest * Query)) : NodeM unit :=
  n ← Prelude.get;
  reqs ← match dn_active_queries n !! query_id with
         | Some q => '(reqs, q) ← pure_do (f (Some (dn_table n)) q); insert_query query_id q ;; mret reqs
         | None => mret []
         end;
  dispatch_query_requests now query_id reqs ;;
  n ← Prelude.get;
  if match dn_active_queries n !! query_id with Some q => Query_is_finished q | None => false end then
    remove_query query_id ;; on_query_removed query_id
  else mret tt.

(** [map.remove(&tid)] *)
Definition take_query (tid : Z) : NodeM (option (Z * bool)) := fun n =>
  (Ok (dn_tid_to_query n !! tid), with_tid_to_query (delete tid (dn_tid_to_query n)) n).
Definition take_standalone (tid : Z) : NodeM (option StandaloneRequest) := fun n =>
  (Ok (dn_standalone_tids n !! tid), with_standalone_tids (delete tid (dn_standalone_tids n)) n).

Definition handle_response (now : Z) (r : IoResponse) : NodeM unit :=
  add_node_from_network now (ev_from r) (ev_id r) ;;
  (if reflexive (ev_to r) then
     node_upd (fun n => with_nat (Nat_add (ev_to r) (ev_from r) (dn_nat n))
       (if dn_needs_id_update n then with_addr_samples (dn_addr_samples n ++ [ev_to r]) n else n))
   else mret tt) ;;
  let data := Query.mkResponseData (ev_from r) (ev_id r) (ev_token r) (ev_closer_nodes r) (ev_error r)
                (ev_value r) (ev_rtt r) (ev_to r) in
  q ← take_query (ev_tid r);
  match q with
  | Some (query_id, true) => commit_done query_id
  | Some (query_id, false) => query_done now query_id (fun t => Query_on_response blake2b t data)
  | None =>
      s ← take_standalone (ev_tid r);
      match s with
      | Some standalone => handle_standalone_response standalone
          (mkResponseData (ev_from r) (ev_id r) (ev_token r) (ev_closer_nodes r) (ev_error r) (ev_value r)
             (ev_rtt r)) (ev_to r)
      | None => mret tt
      end
  end.

Definition handle_io_event (now : Z) (event : IoEvent) : NodeM unit :=
  match event with
  | EvRequest req => add_node_from_network now (ir_from req) (ir_id req) ;; handle_incoming_request now req
  | EvResponse r => handle_response now r
  end.

Definition handle_timeout (now : Z) (evt : TimeoutEvent) : NodeM unit :=
  q ← take_query (te_tid evt);
  match q with
  | Some (query_id, true) => commit_done query_id
  | Some (query_id, false) => query_done now query_id (fun t q => Ok (Query_on_timeout t (te_to evt) q))
  | None =>
      s ← take_standalone (te_tid evt);
      match s with
      | Some standalone => handle_standalone_timeout standalone
      | None => mret tt
      end
  end.

(** ** Ticks *)

Definition ping_node (now : Z) (node : Node) : NodeM unit :=
  n ← Prelude.get;
  table_do (RoutingTable_get_mut (n_id node) (set_pinged (dn_tick n))) ;;
  tid ← node_create now (internal_request (mkPeer (n_host node) (n_port node)) CMD_PING None);
  match tid with
  | Some tid => track_standalone tid (SCheck (n_id node) (n_seen_tick node))
  | None => mret tt
  end.
Definition ping_some (now : Z) : NodeM unit :=
  n ← Prelude.get;
  let cnt := if bool_decide (dn_standalone_tids n = ∅) then 5%nat else 3%nat in
  let t := dn_table n in
  if RoutingTable_is_empty t then run_refresh now
  else
    let all := RoutingTable_closest t (t_id t) (Nat.min (Z.to_nat (RoutingTable_len t)) 50) in
    for_m (take cnt (sort_by_key n_seen_tick (filter (fun m => n_pinged_tick m <? dn_tick n) all)))
      (ping_node now).

Definition handle_tick (now : Z) : NodeM unit :=
  node_upd (fun n =>
    let elapsed := Z.max 0 (now - dn_last_tick_time n) / 1000000 in
    let n := if SLEEPING_INTERVAL_MS <? elapsed then
               let tick := dn_tick n + 2 * OLD_NODE in
               with_refresh_ticks 1 (with_tick (tick + (8 - Z.land tick 7)) n)
             else with_tick (dn_tick n + 1) n in
    with_down_hints_per_tick 0 (with_last_tick_time now n)) ;;
  n ← Prelude.get;
  if negb (dn_bootstrapped n) then mret tt
  else
    (if Z.land (dn_tick n) 7 =? 0 then ping_some now else mret tt) ;;
    node_upd (fun n => with_refresh_ticks (Z.max 0 (dn_refresh_ticks n - 1)) n) ;;
    n ← Prelude.get;
    if dn_refresh_ticks n =? 0 then
      node_upd (with_refresh_ticks REFRESH_TICKS) ;; run_refresh now
    else mret tt.

(** ** Commands *)

(** Send a request for a caller, or tell it there was none. *)
Definition caller_request (now : Z) (p : RequestParams) (s : StandaloneRequest) (tx : Z) (failed : Answer) : NodeM unit :=
  tid ← node_create now p;
  match tid with Some tid => track_standalone tid s | None => answer tx failed end.

Definition handle_command (now : Z) (cmd : DhtCommand) : NodeM bool :=
  n ← Prelude.get;
  match cmd with
  | CBootstrapped tx =>
      (if dn_bootstrapped n then answer tx (ABootstrapped (inr tt))
       else node_upd (with_bootstrap_waiters (dn_bootstrap_waiters n ++ [tx]))) ;; mret false
  | CPing h p tx =>
      caller_request now (internal_request (mkPeer h p) CMD_FIND_NODE (Some (t_id (dn_table n)))) (SPing tx) tx
        (APing (inl Destroyed)) ;; mret false
  | CFindNode target tx => start_query now target true CMD_FIND_NODE None false None tx ;; mret false
  | CQuery params tx =>
      start_query now (uq_target params) false (uq_command params) (uq_value params) (uq_commit params)
        (Some (default (cfg_concurrency (dn_config n)) (uq_concurrency params))) tx ;; mret false
  | CRequest params h p tx =>
      caller_request now (mkParams (mkPeer h p) (up_token params) false (up_command params) (up_target params)
        (up_value params) (up_timeout_ms params) (up_retries params)) (SUserRequest tx) tx
        (ARequest (inl Destroyed)) ;; mret false
  | CRelay command target value to preserve_tid =>
      io_do (relay send_ok (dn_table n) command target value to preserve_tid) ;; mret false
  | CSendReplyTo tid target to value =>
      io_do (reply_to mac fresh send_ok (dn_table n) tid target to value) ;; mret false
  | CSubscribeRequests tx =>
      node_upd (with_request_subscribers (dn_request_subscribers n ++ [tx])) ;;
      answer tx (ASubscription tx) ;; mret false
  | CTableSize tx => answer tx (ATableSize (RoutingTable_len (dn_table n))) ;; mret false
  | CDestroy tx => node_upd (with_destroyed true) ;; answer tx ADestroyed ;; mret true
  | CLocalPort tx => answer tx (ALocalPort (dn_local_port n)) ;; mret false
  | CTableId tx => answer tx (ATableId (t_id (dn_table n))) ;; mret false
  | CServerSocket tx => answer tx (ASocket (own_kind (dn_io n))) ;; mret false
  | CListenSocket tx => answer tx (ASocket Server) ;; mret false
  | CRemoteAddress tx =>
      answer tx (ARemoteAddress (addresses (dn_nat n) ≫= head) (firewall (dn_nat n))) ;; mret false
  | CInboundReplyBytes addr data =>
      ev ← io_do (handle_inbound_reply_bytes blake2b mac fresh send_ok now (dn_table n) addr data);
      match ev with Some event => handle_io_event now event | None => mret tt end ;; mret false
  | CPingViaSocket target tx =>
      tid ← io_do (send_request_via_socket send_ok now (dn_table n)
              (internal_request target CMD_FIND_NODE (Some (t_id (dn_table n)))));
      match tid with
      | Some tid => track_standalone tid (SPing tx)
      | None => answer tx (APing (inl Destroyed))
      end ;; mret false
  end.

Definition handle_deferred_reply (reply : DeferredReply) : NodeM unit :=
  n ← Prelude.get;
  io_do (send_reply_deferred mac fresh send_ok (dn_table n) (df_from reply) (df_reply_ctx reply) (df_tid reply)
    (df_target reply) (df_error reply) (df_value reply)).

(** ** The loop *)

(** What the spawned task does once its sleep is over, once its request is
    answered ([None]: the request was dropped). *)
Definition task_done (task : Task) (outcome : option (Z * option (list Z))) : list DeferredReply :=
  match task with
  | TDelay _ reply => [reply]
  | TUser from ctx tid target =>
      match outcome with
      | Some (error, value) =>
          if error =? SUPPRESS_REPLY_SENTINEL then [] else [mkDeferred from ctx tid target error value]
      | None => [mkDeferred from ctx tid target ERR_UNKNOWN_COMMAND None]
      end
  end.

(** The events of the loop, and what happens around it: a task finishing, a
    subscriber going away. *)
Inductive NodeEvent :=
| NDatagram (now : Z) (data : list Z) (addr : SocketAddr) (kind : SocketKind)
| NDrain (now : Z)
| NTimeouts (now : Z)
| NTick (now : Z)
| NDeferred
| NCommand (now : Z) (cmd : DhtCommand)
| NTask (i : nat) (outcome : option (Z * option (list Z)))
| NClose (sub : Z).

Definition node_turn (ev : NodeEvent) : NodeM unit :=
  n ← Prelude.get;
  match ev with
  | NDatagram now data addr kind =>
      e ← io_do (Io_recv blake2b mac fresh send_ok now (dn_table n) data addr kind);
      match e with Some event => handle_io_event now event | None => mret tt end
  | NDrain now => io_do (Io_drain mac send_ok now)
  | NTimeouts now =>
      timeouts ← io_do (check_timeouts send_ok now);
      for_m timeouts (handle_timeout now)
  | NTick now => handle_tick now
  | NDeferred =>
      match dn_deferred_replies n with
      | [] => mret tt
      | reply :: rest => node_upd (with_deferred_replies rest) ;; handle_deferred_reply reply
      end
  | NCommand now cmd =>
      stop ← handle_command now cmd;
      if (stop : bool) then io_do Io_destroy else mret tt
  | NTask i outcome =>
      match dn_tasks n !! i with
      | Some task => node_upd (fun n => with_deferred_replies (dn_deferred_replies n ++ task_done task outcome)
                       (with_tasks (take i (dn_tasks n) ++ drop (S i) (dn_tasks n)) n))
      | None => mret tt
      end
  | NClose sub => node_upd (with_closed (sub :: dn_closed n))
  end.

(** A destroyed node has left the loop. *)
Definition node_step (ev : NodeEvent) : NodeM unit :=
  n ← Prelude.get; if dn_destroyed n then mret tt else node_turn ev.
Definition node_run (evs : list NodeEvent) : NodeM unit := for_m evs node_step.

(** [spawn], once the sockets are bound to [local_port] and the bootstrap names
    resolved to [bootstrap]; [table_id] and [tid] are random; then the start of
    [run]. *)
Definition spawn_table (config : DhtConfig) (table_id : NodeId) (local_port : Z)
    : outcome EncodingError RoutingTable :=
  let ephemeral := default (negb (is_empty (cfg_bootstrap config))) (cfg_ephemeral config) in
  let is_wildcard := String.eqb (cfg_host config) "0.0.0.0" || String.eqb (cfg_host config) "::" in
  let table := RoutingTable_new table_id in
  if negb ephemeral && negb is_wildcard then
    match peer_id blake2b (cfg_host config) local_port with
    | Ok id => match (RoutingTable_rebuild_with_id id table).1 with
               | Ok _ => Ok (RoutingTable_rebuild_with_id id table).2
               | _ => Panic
               end
    | _ => Panic
    end
  else Ok table.
Definition spawn_node (config : DhtConfig) (bootstrap : list string) (table : RoutingTable) (tid local_port now : Z)
    : DhtNode :=
  let ephemeral := default (negb (is_empty (cfg_bootstrap config))) (cfg_ephemeral config) in
  let is_wildcard := String.eqb (cfg_host config) "0.0.0.0" || String.eqb (cfg_host config) "::" in
  mkDhtNode (mkDhtConfig bootstrap (cfg_port config) (cfg_host config) (cfg_ephemeral config) (cfg_firewalled config)
               (cfg_concurrency config) (cfg_max_window config)) local_port
    (Io_new (cfg_max_window config) tid (cfg_firewalled config) ephemeral) table 0 REFRESH_TICKS 0 false []
    ∅ ∅ ∅ 0 [] false now 0 None [] (negb ephemeral && is_wildcard) [] (Nat_new (cfg_firewalled config))
    [] [] [] [] [] [].
Definition run_start (now : Z) : NodeM unit := n ← Prelude.get; start_bootstrap now (t_id (dn_table n)).
End Rpc.
