(* ===== verification/RpcProofs.v ===== *)
(** * RpcProofs: the invariants of a DHT node

    Two layers.  [dht_ok] is about values: every node of the routing table is
    an IPv4 peer whose id is the hash of its address, with ordered ticks, and
    everything the node would encode can be encoded.  [acct] is about books:
    each request in flight belongs to at most one query, check or caller, a
    query waits for exactly as many answers as transaction ids are mapped to
    it, and each caller's channel is answered, waiting, or about to be.  The
    books balance as long as no transaction id comes round again, that is for
    the first 65536 requests. *)

From S2P Require Import Prelude RustStd CompactEncoding Codec Messages Peer RoutingTable.
From S2P Require Import RoutingTableProofs RoutingTableTheorems HyperdhtMessages Persistent Router NatClassifier.
From S2P Require Import Io IoProofs IoTheorems Query QueryProofs QueryTheorems QueryTyped Rpc.
From Stdlib Require Import Ascii.

#[local] Open Scope Z_scope.

(** ** The routing table *)

Section Table.
Context (blake2b : list Z -> list Z).
Hypothesis blake_len : forall m, fixed_ok 32 (blake2b m).

(** A node at the address its id is the hash of, seen and pinged in order. *)
Record known (own : NodeId) (tick : Z) (nd : Node) : Prop := {
  kn_peer : peer_ok (peer_of nd);
  kn_id : peer_id blake2b (n_host nd) (n_port nd) = Ok (n_id nd);
  kn_own : n_id nd <> own;
  kn_ticks : 0 <= n_added_tick nd <= n_seen_tick nd /\ n_seen_tick nd <= n_pinged_tick nd <= tick
}.
Definition event_node (e : TableEvent) : Node := match e with BucketFull nd _ => nd end.

Record table_good (tick : Z) (t : RoutingTable) : Prop := {
  tg_inv : table_inv t;
  tg_nodes : map_Forall (fun _ nd => known (t_id t) tick nd) (table_map t);
  tg_events : Forall (fun e => known (t_id t) tick (event_node e)) (t_pending_events t)
}.

Lemma known_id_ok own tick nd : known own tick nd -> id_ok (n_id nd).
Proof.
  intros [Hp Hid _ _]. rewrite peer_id_spec in Hid. destruct (ipv4_octets _); [|done].
  injection Hid as <-. apply blake_len.
Qed.
Lemma known_later own tick tick' nd : tick <= tick' -> known own tick nd -> known own tick' nd.
Proof. intros Hle []. split; try done. lia. Qed.
Lemma good_later tick tick' t : tick <= tick' -> table_good tick t -> table_good tick' t.
Proof.
  intros Hle []. split; [done| |].
  - eapply map_Forall_impl; [done|]. intros ? ? ?. by eapply known_later.
  - eapply Forall_impl; [done|]. intros ? ?. by eapply known_later.
Qed.

Lemma good_elem tick t nd : table_good tick t -> nd ∈ table_nodes t -> known (t_id t) tick nd.
Proof.
  intros [Hi Hn _] Hin. apply (Hn (n_id nd)). by apply table_map_lookup.
Qed.
Lemma good_ok tick t : table_good tick t -> table_ok t.
Proof.
  intros Hg. split; [apply Hg|]. apply Forall_forall. intros nd Hnd. by apply (good_elem tick t nd Hg).
Qed.
Lemma good_closest tick t target k :
  table_good tick t -> id_ok target -> Forall (known (t_id t) tick) (RoutingTable_closest t target k).
Proof.
  intros Hg Hid. rewrite closest_eq. apply Forall_take.
  rewrite scan_order_perm by (first [apply Hg|apply bucket_index_bound; [apply Hg|done]]).
  apply Forall_forall. intros nd Hnd. by apply good_elem.
Qed.

Lemma get_wp id t (Q : option Node -> RoutingTable -> Prop) :
  table_inv t -> id_ok id -> Q (table_map t !! id) t -> wp (RoutingTable_get id) t Q.
Proof. intros Ht Hid HQ. by rewrite (wp_eq _ _ _ _ _ (get_map t id Ht Hid)). Qed.

(** Updating a node keeps what is known of it. *)
Definition touches (own : NodeId) (tick : Z) (f : Node -> Node) : Prop :=
  (forall nd, n_id (f nd) = n_id nd) /\ forall nd, known own tick nd -> known own tick (f nd).

Lemma get_mut_wp tick id f t :
  table_good tick t -> id_ok id -> touches (t_id t) tick f ->
  wp (RoutingTable_get_mut id f) t (fun r t' => r = f <$> table_map t !! id /\ table_good tick t' /\
    t_id t' = t_id t /\
    table_map t' = match table_map t !! id with Some nd => <[id := f nd]> (table_map t) | None => table_map t end).
Proof.
  intros Hg Hid [Hf Hk]. destruct (get_mut_spec t id f (tg_inv _ _ Hg) Hid Hf) as (t' & E & Ht' & Hi & _ & He & Hm).
  rewrite (wp_eq _ _ _ _ _ E). split_and!; [done| |done|done]. destruct Hg as [_ Hn Hev].
  split; [done| |by rewrite He, Hi]. rewrite Hm, Hi.
  destruct (table_map t !! id) as [nd|] eqn:El; [|done].
  apply map_Forall_insert_2; [|done]. apply Hk, (Hn id nd El).
Qed.

Lemma add_wp tick nd t :
  table_good tick t -> known (t_id t) tick nd ->
  wp (RoutingTable_add nd) t (fun r t' => table_good tick t' /\ t_id t' = t_id t /\
    table_map t' = if r then <[n_id nd := nd]> (table_map t) else table_map t).
Proof.
  intros Hg Hk. destruct (add_spec t nd (tg_inv _ _ Hg) (known_id_ok _ _ _ Hk)) as (r & t' & E & Hi & Ho & _ & Hr).
  rewrite (wp_eq _ _ _ _ _ E). destruct Hg as [_ Hn He]. destruct r; destruct Hr as [Hm Hr].
  - split_and!; [|done|done]. split; [done| |by rewrite Hr, Ho]. rewrite Hm, Ho. by apply map_Forall_insert_2.
  - destruct Hr as (_ & _ & Hev). split_and!; [|done|done]. split; [done|by rewrite Hm, Ho|].
    rewrite Hev, Ho. apply Forall_app. split; [done|by constructor].
Qed.

Lemma remove_wp tick id t :
  table_good tick t -> id_ok id ->
  wp (RoutingTable_remove id) t (fun _ t' => table_good tick t' /\ t_id t' = t_id t /\
    table_map t' = delete id (table_map t)).
Proof.
  intros Hg Hid. destruct (remove_spec t id (tg_inv _ _ Hg) Hid) as (t' & E & Hi & Ho & _ & He & Hm).
  rewrite (wp_eq _ _ _ _ _ E). destruct Hg as [_ Hn Hev]. split_and!; [|done|done].
  split; [done| |by rewrite He, Ho]. rewrite Hm, Ho. by apply map_Forall_delete.
Qed.

Lemma drain_wp tick t :
  table_good tick t ->
  wp RoutingTable_drain_events t (fun evs t' => table_good tick t' /\ t_id t' = t_id t /\
    table_map t' = table_map t /\ Forall (fun e => known (t_id t) tick (event_node e)) evs).
Proof.
  intros [Hi Hn He]. unfold RoutingTable_drain_events. apply wp_bind, wp_get. cbn.
  split_and!; [|done..]. split; [|done|done]. by destruct Hi; split.
Qed.

(** A new id: the nodes move over, but not one that has this id. *)
Lemma rebuild_wp tick new_id t :
  table_good tick t -> id_ok new_id ->
  wp (RoutingTable_rebuild_with_id new_id) t (fun _ t' => table_good tick t' /\ t_id t' = new_id).
Proof.
  intros Hg Hid. unfold RoutingTable_rebuild_with_id. apply wp_bind, wp_get.
  case_bool_decide as E; [by apply wp_ret|]. apply wp_bind.
  set (t0 := mkTable _ _ _ _ _).
  assert (t0 = RoutingTable_with_k new_id (t_k t)) as E0.
  { unfold t0, RoutingTable_with_k. f_equal. rewrite <- (ti_buckets t (tg_inv _ _ Hg)).
    generalize (t_buckets t). intros l. induction l; cbn; congruence. }
  change (wp (for_m (table_nodes t) (fun node => if bool_decide (n_id node = new_id) then mret tt
    else RoutingTable_add node ;; mret tt)) t0 (fun _ t' => table_good tick t' /\ t_id t' = new_id)).
  apply wp_for_m.
  - rewrite E0. split; [|done]. split; [by apply with_k_inv| |done]. rewrite with_k_map. apply map_Forall_empty.
  - intros nd t1 Hnd [Hg1 Ho1]. case_bool_decide as En; [by apply wp_ret|]. apply wp_bind.
    eapply wp_mono; [|apply (add_wp tick); [done|]].
    + cbv beta. intros _ t2 (Hg2 & Ho2 & _). apply wp_ret. by rewrite Ho2.
    + rewrite Ho1. destruct (good_elem _ _ _ Hg Hnd). by split.
Qed.

Lemma set_pinged_touches own tick : 0 <= tick -> touches own tick (set_pinged tick).
Proof. intros Ht. split; [done|]. intros nd []. split; try done. cbn. lia. Qed.
Lemma set_seen_touches own tick : 0 <= tick -> touches own tick (set_seen_now tick).
Proof. intros Ht. split; [done|]. intros nd []. split; try done. cbn. lia. Qed.
Lemma add_hint_touches own tick : 0 <= tick -> touches own tick (add_down_hint tick).
Proof. intros Ht. split; [done|]. intros nd []. split; try done. cbn. lia. Qed.

Lemma random_wp tick rng t :
  table_good tick t -> (forall call n, (0 < n)%nat -> (rng call n < n)%nat) ->
  wp (RoutingTable_random rng) t (fun r t' => t' = t /\ opt_ok (known (t_id t) tick) r).
Proof.
  intros Hg Hr. destruct (random_spec rng t Hr (tg_inv _ _ Hg)) as (r & E & _ & Hin).
  rewrite (wp_eq _ _ _ _ _ E). split; [done|]. intros nd ->. apply good_elem; auto.
Qed.
End Table.
#[export] Hint Resolve set_pinged_touches set_seen_touches add_hint_touches good_ok : core.

(** ** Printed addresses *)

Lemma split_last_spec c a b :
  str_contains c b = false -> split_last c (a +:+ String c b) = Some (a, b).
Proof.
  intros Hb. induction a as [|d a IH].
  - change (EmptyString +:+ String c b) with (String c b). cbn [split_last].
    assert (split_last c b = None) as ->.
    { revert Hb. induction b as [|e b IHb]; cbn; [done|]. case_decide as He; [done|]. intros Hb.
      rewrite (IHb Hb). destruct (Ascii.eqb_spec c e); congruence. }
    by rewrite Ascii.eqb_refl.
  - change (String d a +:+ String c b) with (String d (a +:+ String c b)). cbn [split_last]. by rewrite IH.
Qed.

Lemma pretty_go_colon x : forall s, str_contains ":"%char (pretty_N_go x s) = str_contains ":"%char s.
Proof.
  induction (N.lt_wf_0 x) as [x _ IH]. intros s. destruct (decide (x = 0)%N) as [->|Hx].
  { by rewrite pretty_N_go_0. }
  rewrite pretty_N_go_step by lia. rewrite IH by (apply N.div_lt; lia).
  apply str_contains_ne. intros E. pose proof (digit_char (x `mod` 10)) as Hd. rewrite E in Hd.
  by discriminate Hd; apply N.mod_lt.
Qed.
Lemma pretty_colon p : 0 <= p -> str_contains ":"%char (pretty p) = false.
Proof.
  destruct p as [|p|p]; [done| |lia]. intros _. change (pretty (Z.pos p)) with (pretty (N.pos p)).
  unfold pretty, pretty_N. rewrite decide_False by done. apply pretty_go_colon.
Qed.
Lemma split_peer_addr p : 0 <= port p -> split_last ":"%char (peer_addr p) = Some (host p, pretty (port p)).
Proof. intros Hp. apply (split_last_spec ":"%char), pretty_colon, Hp. Qed.

Lemma parse_u16_range s v : parse_u16 s = Some v -> in_u 16 v.
Proof. intros H%parse_uint_range; unfold in_u; lia. Qed.

Lemma max_by_key_elem {A} (key : A -> Z) l x : max_by_key key l = Some x -> x ∈ l.
Proof.
  unfold max_by_key. intros H. cut (x ∈ l \/ None = Some x); [by intros [?|?]|].
  revert H. generalize (@None A). induction l as [|y l IH]; intros acc; cbn [foldl]; [by right|].
  intros H%IH. rewrite elem_of_cons. destruct acc as [z|].
  - destruct (key z <=? key y); destruct H as [H|H]; auto; injection H as ->; auto.
  - destruct H as [H|H]; auto. injection H as ->. auto.
Qed.

(** ** Maps as books *)

(** How many transaction ids are mapped to [(i, b)]. *)
Definition tracks (i : Z) (b : bool) (m : gmap Z (Z * bool)) : nat :=
  length (filter (fun p => p.2 = (i, b)) (map_to_list m)).
(** The channels the standalone requests answer to. *)
Definition tx_of (s : StandaloneRequest) : list Z :=
  match s with SPing tx | SUserRequest tx => [tx] | _ => [] end.
Definition stand_txs (m : gmap Z StandaloneRequest) : list Z := map_to_list m ≫= (fun p => tx_of p.2).
(** The requests the queries can still make on their own. *)
Definition budgets (m : gmap Z Query) : nat := sum_list_with (fun p => budget p.2) (map_to_list m).

Lemma tracks_insert i b x v m :
  m !! x = None -> tracks i b (<[x := v]> m) = ((if bool_decide (v = (i, b)) then 1 else 0) + tracks i b m)%nat.
Proof.
  intros Hx. unfold tracks. rewrite (map_to_list_insert _ _ _ Hx), filter_cons. cbn [snd].
  case_bool_decide; [by rewrite decide_True|by rewrite decide_False].
Qed.
Lemma tracks_delete i b x v m :
  m !! x = Some v -> tracks i b m = ((if bool_decide (v = (i, b)) then 1 else 0) + tracks i b (delete x m))%nat.
Proof. intros Hx. rewrite <- (insert_delete_id _ _ _ Hx) at 1. apply tracks_insert, lookup_delete_eq. Qed.
Lemma tracks_none i b x m : tracks i b m = 0%nat -> m !! x <> Some (i, b).
Proof. intros H0 Hx. rewrite (tracks_delete i b x (i, b) m Hx), bool_decide_true in H0; [lia|done]. Qed.
Lemma tracks_empty i b : tracks i b ∅ = 0%nat.
Proof. unfold tracks. by rewrite map_to_list_empty. Qed.

Lemma stand_insert x s m : m !! x = None -> stand_txs (<[x := s]> m) ≡ₚ tx_of s ++ stand_txs m.
Proof. intros Hx. unfold stand_txs. by rewrite (map_to_list_insert _ _ _ Hx). Qed.
Lemma stand_delete x s m : m !! x = Some s -> stand_txs m ≡ₚ tx_of s ++ stand_txs (delete x m).
Proof. intros Hx. rewrite <- (insert_delete_id _ _ _ Hx) at 1. apply stand_insert, lookup_delete_eq. Qed.

Lemma budgets_insert i q m : m !! i = None -> budgets (<[i := q]> m) = (budget q + budgets m)%nat.
Proof. intros Hi. unfold budgets. by rewrite (sum_list_perm _ _ _ (map_to_list_insert _ _ _ Hi)). Qed.
Lemma budgets_delete i q m : m !! i = Some q -> budgets m = (budget q + budgets (delete i m))%nat.
Proof. intros Hi. rewrite <- (insert_delete_id _ _ _ Hi) at 1. apply budgets_insert, lookup_delete_eq. Qed.
Lemma budgets_update i q q' m : m !! i = Some q -> (budgets (<[i := q']> m) + budget q = budget q' + budgets m)%nat.
Proof.
  intros Hi. rewrite <- insert_delete_eq, budgets_insert by apply lookup_delete_eq.
  rewrite (budgets_delete i q m Hi). lia.
Qed.

(** ** The books of a node *)

Record Ledger := mkLedger {
  lg_tids : list Z;
  lg_tid : Z;
  lg_taken : Z;
  lg_queries : gmap Z (Z * bool);
  lg_standalone : gmap Z StandaloneRequest;
  lg_next : Z;
  lg_dropped : list Query;
  lg_forwarders : list (Z * Z);
  lg_answers : list (Z * Answer);
  lg_waiters : list Z
}.
Definition ledger (n : DhtNode) : Ledger :=
  mkLedger (tids (dn_io n)) (io_tid (dn_io n)) (io_taken (dn_io n)) (dn_tid_to_query n) (dn_standalone_tids n)
    (dn_next_query_id n) (dn_dropped n) (dn_forwarders n) (dn_answers n) (dn_bootstrap_waiters n).

(** The channels answered, waiting or served by a query's result. *)
Definition callers (l : Ledger) : list Z :=
  (lg_answers l).*1 ++ lg_waiters l ++ (lg_forwarders l).*2 ++ stand_txs (lg_standalone l).

(** What a query waits for. *)
Definition outstanding (q : Query) (b : bool) : nat := if b then q_commit_inflight q else q_inflight q.
Definition query_live (i : Z) (q : Query) : Prop :=
  exists params asked commits na nc offered,
    query_inv params asked commits na nc offered q /\ active q /\ qp_id params = i.
Definition query_over (q : Query) : Prop := q_finished q = true /\ q_sent q = [result_of q].

(** One more answer to a live query. *)
Lemma handed_live i q params asked commits na nc na' nc' offered reqs q' :
  handed_out params asked commits na' nc' offered (reqs, q') -> active q' -> qp_id params = i ->
  length asked = (na + q_inflight q)%nat -> length commits = (nc + q_commit_inflight q)%nat ->
  query_live i q' /\ (q_inflight q' + na' = na + q_inflight q + length (query_reqs reqs))%nat /\
  (q_commit_inflight q' + nc' = nc + q_commit_inflight q + length (commit_reqs reqs))%nat.
Proof.
  intros Hh Hact Hid Ha Hc. unfold handed_out in Hh. cbn [fst snd] in Hh.
  pose proof (qi_inflight _ _ _ _ _ _ _ Hh) as H1. pose proof (qi_commit_inflight _ _ _ _ _ _ _ Hh) as H2.
  rewrite length_app, ?length_fmap in *. split_and!; [|lia..]. by eexists _, _, _, _, _, _.
Qed.

(** What a query does with one answer to a request: what it asks for next. *)
Definition answered (i : Z) (q : Query) (reqs : list QueryRequest) (q' : Query) : Prop :=
  query_live i q -> (1 <= q_inflight q)%nat ->
  query_live i q' /\ (q_inflight q' + 1 = q_inflight q + length (query_reqs reqs))%nat /\
  q_commit_inflight q' = (q_commit_inflight q + length (commit_reqs reqs))%nat.

Lemma timeout_answered i t to q :
  answered i q (Query_on_timeout t to q).1 (Query_on_timeout t to q).2.
Proof.
  intros (params & asked & commits & na & nc & offered & Hinv & Hact & Hid) Hq.
  pose proof (qi_inflight _ _ _ _ _ _ _ Hinv) as H1. pose proof (qi_commit_inflight _ _ _ _ _ _ _ Hinv) as H2.
  destruct (on_timeout_inv _ _ _ _ _ _ _ t to Hinv) as [Hh Ha]; [lia|].
  destruct (Query_on_timeout t to q) as [reqs q']. cbn [fst snd] in *.
  destruct (handed_live i q _ _ _ _ _ _ _ _ _ _ Hh Ha Hid H1 H2) as (H3 & H4 & H5). split_and!; [done|lia|lia].
Qed.
Lemma response_answered blake2b i t data q reqs q' :
  opt_ok id_ok (rd_from_id data) -> Query_on_response blake2b t data q = Ok (reqs, q') -> answered i q reqs q'.
Proof.
  intros Hd Hr (params & asked & commits & na & nc & offered & Hinv & Hact & Hid) Hq.
  pose proof (qi_inflight _ _ _ _ _ _ _ Hinv) as H1. pose proof (qi_commit_inflight _ _ _ _ _ _ _ Hinv) as H2.
  eapply on_response_inv in Hr as [Hh Ha]; [|done|lia|].
  - destruct (handed_live i q _ _ _ _ _ _ _ _ _ _ Hh Ha Hid H1 H2) as (H3 & H4 & H5). split_and!; [done|lia|lia].
  - destruct (rd_from_id data); [by apply Hd|done].
Qed.
Lemma commit_answered i q :
  query_live i q -> (1 <= q_commit_inflight q)%nat ->
  let q' := (Query_on_commit_done q).2 in
  query_live i q' /\ q_inflight q' = q_inflight q /\ (q_commit_inflight q' + 1 = q_commit_inflight q)%nat.
Proof.
  intros (params & asked & commits & na & nc & offered & Hinv & Hact & Hid) Hq. cbv zeta.
  pose proof (qi_inflight _ _ _ _ _ _ _ Hinv) as H1. pose proof (qi_commit_inflight _ _ _ _ _ _ _ Hinv) as H2.
  destruct (commit_done_inv _ _ _ _ _ _ _ Hinv) as [Hi Ha]; [lia|].
  pose proof (qi_inflight _ _ _ _ _ _ _ Hi) as H3. pose proof (qi_commit_inflight _ _ _ _ _ _ _ Hi) as H4.
  split_and!; [|lia..]. by eexists _, _, _, _, _, _.
Qed.
(** Nothing outstanding: done. *)
Lemma live_over i q : query_live i q -> (forall b, outstanding q b = 0%nat) -> query_over q.
Proof.
  intros (params & asked & commits & na & nc & offered & Hinv & Hact & _) H0.
  pose proof (H0 false) as Hf. pose proof (H0 true) as Ht. cbn in Hf, Ht.
  assert (q_finished q = true) as Hfin.
  { destruct Hact as [?|[Hc|?]]; [done| |lia]. by rewrite (qi_commit _ _ _ _ _ _ _ Hinv Hc), Ht. }
  split; [done|]. by rewrite (qi_sent _ _ _ _ _ _ _ Hinv), Hfin.
Qed.
Lemma over_outstanding i q : query_live i q -> q_finished q = true ->
  (forall b, outstanding q b = 0%nat) /\ query_over q /\ qp_id (q_params q) = i.
Proof.
  intros (params & asked & commits & na & nc & offered & Hinv & _ & Hid) Hf.
  pose proof (qi_finished _ _ _ _ _ _ _ Hinv Hf) as Hc. pose proof (qi_commit _ _ _ _ _ _ _ Hinv Hc) as H0.
  rewrite Hf in H0. symmetry in H0. apply Nat.eqb_eq in H0. split_and!.
  - intros []; cbn; [done|by apply (qi_idle _ _ _ _ _ _ _ Hinv)].
  - split; [done|]. by rewrite (qi_sent _ _ _ _ _ _ _ Hinv), Hf.
  - by rewrite (qi_params _ _ _ _ _ _ _ Hinv).
Qed.

(** A transaction id taken before. *)
Definition used (l : Ledger) (x : Z) : Prop := exists d, 1 <= d <= lg_taken l /\ x = as_u16 (lg_tid l - d).

(** [P]: transaction ids out of flight whose event is not handled yet; [G]: the
    queries alive; [due]: requests a query has made that are not mapped yet;
    [C]: the channels of all callers. *)
Record acct (P : list Z) (G : gmap Z Query) (due : Z -> bool -> nat) (C : list Z) (l : Ledger) : Prop := {
  ac_tid : in_u 16 (lg_tid l);
  ac_taken : 0 <= lg_taken l;
  ac_nodup : NoDup (lg_tids l ++ P);
  ac_used : Forall (used l) (lg_tids l ++ P);
  ac_queries : forall x v, lg_queries l !! x = Some v ->
    x ∈ lg_tids l ++ P /\ lg_standalone l !! x = None /\ is_Some (G !! v.1);
  ac_standalone : forall x s, lg_standalone l !! x = Some s -> x ∈ lg_tids l ++ P;
  ac_live : forall i q, G !! i = Some q ->
    query_live i q /\ i < lg_next l /\ forall b, outstanding q b = (tracks i b (lg_queries l) + due i b)%nat;
  ac_dropped : Forall query_over (lg_dropped l);
  ac_forwarders : Forall (fun f => is_Some (G !! f.1) \/ exists q, q ∈ lg_dropped l /\ qp_id (q_params q) = f.1)
    (lg_forwarders l);
  ac_callers : callers l ≡ₚ C
}.
Definition none_due : Z -> bool -> nat := fun _ _ => 0%nat.
Definition due_to (i : Z) (nq nc : nat) : Z -> bool -> nat :=
  fun j b => if bool_decide (j = i) then if b then nc else nq else 0%nat.

Definition untracked (x : Z) (l : Ledger) : Prop :=
  x ∈ lg_tids l /\ lg_queries l !! x = None /\ lg_standalone l !! x = None.

Lemma as_u16_shift a b c : as_u16 a = as_u16 b -> as_u16 (a + c) = as_u16 (b + c).
Proof. unfold as_u16, as_u. intros H. rewrite Z.add_mod, H, <- Z.add_mod by lia. done. Qed.

(** ** Values *)

Section Rpc.
Context (blake2b : list Z -> list Z) (mac : list Z -> list Z -> list Z).
Context (fresh : list Z * list Z) (send_ok : list Z -> SocketAddr -> bool).
Context (random_range : Z -> nat -> nat -> nat) (hash_iter : gmap string Z -> list (string * Z)).
Hypothesis mac_len : forall k m, fixed_ok 32 (mac k m).
Hypothesis fresh_len : fixed_ok 32 fresh.1 /\ fixed_ok 32 fresh.2.
Hypothesis blake_len : forall m, fixed_ok 32 (blake2b m).
Hypothesis rng_ok : forall i call n, (0 < n)%nat -> (random_range i call n < n)%nat.
Hypothesis iter_perm : forall m, hash_iter m ≡ₚ map_to_list m.
(** Whether the books are kept: only for queries with some concurrency. *)
Context (live : Prop).

Definition standalone_ok (own : NodeId) (tick : Z) (s : StandaloneRequest) : Prop :=
  match s with
  | SReping nd old last => known blake2b own tick nd /\ id_ok old /\ last < tick
  | SCheck id last => id_ok id /\ last < tick
  | _ => True
  end.
Definition is_reping (s : StandaloneRequest) : bool := match s with SReping _ _ _ => true | _ => false end.

Record deferred_ok (d : DeferredReply) : Prop := {
  dr_tid : in_u 16 (df_tid d);
  dr_port : in_u 16 (port (df_from d));
  dr_target : opt_ok id_ok (df_target d);
  dr_error : in_u 64 (df_error d);
  dr_value : opt_ok fits (df_value d)
}.
Definition task_ok (t : Task) : Prop :=
  match t with
  | TDelay _ reply => deferred_ok reply
  | TUser from _ tid target => in_u 16 tid /\ in_u 16 (port from) /\ opt_ok id_ok target
  end.

Record dht_ok (n : DhtNode) : Prop := {
  dh_io : io_ok (dn_io n);
  dh_alive : io_destroying (dn_io n) = false;
  dh_tick : 0 <= dn_tick n;
  dh_hints : 0 <= dn_down_hints_per_tick n;
  dh_table : table_good blake2b (dn_tick n) (dn_table n);
  dh_queries : map_Forall (fun _ q => query_typed q) (dn_active_queries n);
  dh_ids : map_Forall (fun i _ => i < dn_next_query_id n) (dn_active_queries n);
  dh_standalone : map_Forall (fun _ s => standalone_ok (t_id (dn_table n)) (dn_tick n) s) (dn_standalone_tids n);
  dh_early : dn_bootstrapped n = false -> map_Forall (fun _ s => is_reping s = false) (dn_standalone_tids n);
  dh_samples : Forall peer_ok (dn_addr_samples n);
  dh_deferred : Forall deferred_ok (dn_deferred_replies n);
  dh_tasks : Forall task_ok (dn_tasks n)
}.

Definition inv (P : list Z) (G : gmap Z Query) (due : Z -> bool -> nat) (C : list Z) (n : DhtNode) : Prop :=
  dht_ok n /\ (live -> io_taken (dn_io n) <= 65536 -> acct P G due C (ledger n)).

(** What most handlers leave alone. *)
Definition core (n : DhtNode) :=
  (dn_active_queries n, dn_bootstrapped n, dn_bootstrap_query_id n, dn_bootstrap_waiters n, dn_config n,
   dn_destroyed n).
(** The work left for the timeouts, but for what the queries can still ask. *)
Definition load (n : DhtNode) : nat := total_tries (dn_io n) + 5 * (50 - Z.to_nat (dn_down_hints_per_tick n)).

Lemma wp_upd_node f n (Q : unit -> DhtNode -> Prop) : Q tt (f n) -> wp (node_upd f) n Q.
Proof. done. Qed.
Lemma wp_io {A} (m : IoM A) n (Q : A -> DhtNode -> Prop) :
  wp m (dn_io n) (fun a io => Q a (with_io io n)) -> wp (io_do m) n Q.
Proof. unfold wp, io_do. by destruct (m (dn_io n)) as [[a|e|] io]. Qed.
Lemma wp_table {A} (m : Tbl A) n (Q : A -> DhtNode -> Prop) :
  wp m (dn_table n) (fun a t => Q a (with_table t n)) -> wp (table_do m) n Q.
Proof. unfold wp, table_do. by destruct (m (dn_table n)) as [[a|e|] t]. Qed.

Lemma with_io_same n : with_io (dn_io n) n = n.
Proof. by destruct n. Qed.
Lemma with_table_same n : with_table (dn_table n) n = n.
Proof. by destruct n. Qed.

(** *** The request layer moves *)

Lemma used_moves n io x :
  in_u 16 (io_tid io) -> moves (dn_io n) io -> used (ledger n) x -> used (ledger (with_io io n)) x.
Proof.
  intros Hio [_ _ _ Hle Ht] (d & Hd & ->). exists (d + (io_taken io - io_taken (dn_io n))). cbn in *.
  split; [lia|]. pose proof (as_u16_shift _ _ (- (d + (io_taken io - io_taken (dn_io n)))) Ht) as Hs.
  rewrite Z.add_opp_r in Hs. rewrite Hs. f_equal. lia.
Qed.

(** Requests are resolved or sent again: what leaves the flight joins [P]. *)
Lemma inv_io P P' G due C io n :
  inv P G due C n -> io_ok io -> moves (dn_io n) io -> tids io ++ P' ≡ₚ tids (dn_io n) ++ P ->
  inv P' G due C (with_io io n).
Proof.
  intros [Hn Ha] Hio Hm Hp. split.
  - destruct Hn. split; try done. cbn. by rewrite (mv_destroying _ _ Hm).
  - intros Hl Hk. cbn in Hk. pose proof (mv_taken _ _ Hm). destruct (Ha Hl ltac:(lia)).
    split; cbn [ledger with_io lg_tids lg_tid lg_taken lg_queries lg_standalone lg_next lg_dropped lg_forwarders dn_io] in *;
      try done.
    + apply Hio.
    + lia.
    + by rewrite Hp.
    + rewrite Hp. eapply Forall_impl; [exact ac_used0|]. intros x Hx. apply used_moves; [apply Hio|done|done].
    + intros x v Hx. rewrite Hp. by apply ac_queries0.
    + intros x s Hx. rewrite Hp. by apply (ac_standalone0 x s).
Qed.
Lemma inv_quiet P G due C io n : inv P G due C n -> quiet (dn_io n) io -> inv P G due C (with_io io n).
Proof.
  intros Hi Hq. eapply inv_io; [done|eapply quiet_ok; [done|apply Hi]|by apply quiet_moves|].
  unfold tids. by rewrite (qt_inflight _ _ Hq).
Qed.

(** A new request: its transaction id is not in the books yet. *)
Lemma inv_created P G due C now p retries r io n :
  inv P G due C n -> created now p retries (dn_io n) r io ->
  inv P G due C (with_io io n) /\
  match r with
  | Some tid => live -> io_taken io <= 65536 -> untracked tid (ledger (with_io io n))
  | None => True
  end.
Proof.
  intros Hi (Hio & Hm & Hr). destruct r as [tid|].
  2: { split; [|done]. eapply inv_io; [done..|]. unfold tids. by rewrite (nr_inflight _ _ Hr). }
  destruct Hr as (-> & Hk & e & He & (_ & Hte & _) & _). destruct Hi as [Hn Ha].
  assert (tids io = tids (dn_io n) ++ [io_tid (dn_io n)]) as Ht by (unfold tids; rewrite He, fmap_app; cbn; by rewrite Hte).
  assert (live -> io_taken io <= 65536 ->
    acct P G due C (ledger n) /\ io_tid (dn_io n) ∉ tids (dn_io n) ++ P) as Hnew.
  { intros Hl Hk'. specialize (Ha Hl ltac:(lia)). split; [done|]. intros Hin.
    pose proof (ac_used _ _ _ _ _ Ha) as Hu. rewrite Forall_forall in Hu. destruct (Hu _ Hin) as (d & Hd & Hx).
    pose proof (ac_tid _ _ _ _ _ Ha) as Hu16. cbn in *. unfold as_u16, as_u, in_u in *.
    rewrite <- (Z.mod_small (io_tid (dn_io n)) (2 ^ 16)) in Hx at 1 by lia.
    apply (f_equal (fun z => (io_tid (dn_io n) - z) mod 2 ^ 16)) in Hx.
    rewrite Zminus_mod_idemp_r, Zminus_mod_idemp_r, Z.sub_diag, Z.mod_0_l in Hx by lia.
    replace (io_tid (dn_io n) - (io_tid (dn_io n) - d)) with d in Hx by lia.
    rewrite Z.mod_small in Hx by lia. lia. }
  split; [split|].
  - destruct Hn. split; try done. cbn. by rewrite (mv_destroying _ _ Hm).
  - intros Hl Hk'. destruct (Hnew Hl Hk') as [[] Hni].
    split; cbn [ledger with_io lg_tids lg_tid lg_taken lg_queries lg_standalone lg_next lg_dropped lg_forwarders dn_io] in *;
      try done; rewrite ?Ht, <- ?app_assoc; cbn [app].
    + apply Hio.
    + lia.
    + rewrite <- Permutation_middle. by constructor.
    + rewrite <- Permutation_middle. constructor.
      * exists 1. cbn. destruct Hm as [_ _ _ _ Hmt]. rewrite Hk in Hmt. split; [lia|].
        pose proof (as_u16_shift _ _ (-1) Hmt) as Hs. change (io_tid io + -1) with (io_tid io - 1) in Hs. rewrite Hs.
        replace (io_tid (dn_io n) + (io_taken (dn_io n) + 1 - io_taken (dn_io n)) + -1) with (io_tid (dn_io n)) by lia.
        unfold as_u16, as_u. rewrite Z.mod_small; [done|apply ac_tid0].
      * eapply Forall_impl; [exact ac_used0|]. intros x Hx. apply used_moves; [apply Hio|done|done].
    + intros x v Hx. rewrite <- Permutation_middle, elem_of_cons. destruct (ac_queries0 x v Hx) as (? & ? & ?). auto.
    + intros x s Hx. rewrite <- Permutation_middle, elem_of_cons. right. by apply (ac_standalone0 x s).
  - intros Hl Hk'. destruct (Hnew Hl Hk') as [[] Hni]. unfold untracked. cbn in *. split_and!.
    + rewrite Ht. apply elem_of_app. right. by left.
    + apply eq_None_not_Some. intros [v Hv]. by apply ac_queries0 in Hv as [? _].
    + apply eq_None_not_Some. intros [v Hv]. by apply ac_standalone0 in Hv.
Qed.

(** *** Fields *)

Lemma inv_due P G due due' C n :
  (forall i b, is_Some (G !! i) -> due i b = due' i b) -> inv P G due C n -> inv P G due' C n.
Proof.
  intros Hd [Hn Ha]. split; [done|]. intros Hl Hk. destruct (Ha Hl Hk). split; try done.
  intros i q Hq. destruct (ac_live0 i q Hq) as (H1 & H2 & H3). split_and!; [done..|]. intros b. by rewrite <- Hd by eauto.
Qed.
Lemma inv_callers P G due C C' n :
  (live -> io_taken (dn_io n) <= 65536 -> C ≡ₚ C') -> inv P G due C n -> inv P G due C' n.
Proof.
  intros Hc [Hn Ha]. split; [done|]. intros Hl Hk. destruct (Ha Hl Hk). split; try done. by rewrite <- Hc.
Qed.
(** Fields outside the books. *)
Lemma inv_same P G due C n n' : inv P G due C n -> dht_ok n' -> ledger n' = ledger n -> inv P G due C n'.
Proof.
  intros [_ Ha] Hn Hl. split; [done|]. rewrite Hl.
  by replace (io_taken (dn_io n')) with (io_taken (dn_io n)) by (by injection Hl).
Qed.
Lemma inv_table P G due C t n :
  inv P G due C n -> table_good blake2b (dn_tick n) t -> t_id t = t_id (dn_table n) ->
  inv P G due C (with_table t n).
Proof.
  intros Hi Ht Hid. apply (inv_same _ _ _ _ n); [done| |done]. destruct Hi as [[] _].
  split; try done. cbn. by rewrite Hid.
Qed.

Lemma answer_wp P G due C tx a n :
  inv P G due C n -> wp (answer tx a) n (fun _ n' => inv P G due (tx :: C) n' /\ core n' = core n /\ load n' = load n /\ dn_io n' = dn_io n).
Proof.
  intros [Hn Ha]. apply wp_upd_node. split_and!; [|done..]. split; [by destruct Hn; split|].
  intros Hl Hk. destruct (Ha Hl Hk). split; try done. unfold callers in *. cbn in *.
  rewrite fmap_app, <- ac_callers0. cbn. rewrite <- app_assoc. cbn. by rewrite <- Permutation_middle.
Qed.

(** *** Requests *)

Lemma new_entry_tries now tid p e :
  new_entry now tid p e -> rp_retries p = None -> ie_retries e = default DEFAULT_RETRIES (rp_retries p) ->
  (tries e <= 5)%nat.
Proof.
  intros (_ & _ & _ & _ & _ & _ & Hs & _) Hp Hr. rewrite Hp in Hr. cbn in Hr. unfold tries, DEFAULT_RETRIES in *. lia.
Qed.

Lemma node_create_wp P G due C now p n :
  inv P G due C n -> params_ok p ->
  wp (node_create send_ok now p) n (fun r n' => inv P G due C n' /\ (exists io, n' = with_io io n) /\
    (peer_ok (rp_to p) -> is_Some r) /\ (rp_retries p = None -> load n' <= load n + 5)%nat /\
    match r with
    | Some tid => live -> io_taken (dn_io n') <= 65536 -> untracked tid (ledger n')
    | None => True
    end).
Proof.
  intros Hi Hp. pose proof Hi as [Hn _]. pose proof (dh_io _ Hn) as Hio.
  pose proof (good_ok _ _ _ (dh_table _ Hn)) as Ht. unfold node_create. apply wp_bind, wp_get, wp_io.
  assert (wp (create_request send_ok now (dn_table n) p) (dn_io n)
    (fun r _ => peer_ok (rp_to p) -> is_Some r)) as Hsome.
  { destruct (decide (peer_ok (rp_to p))).
    - eapply wp_mono; [|apply create_request_some; try done; apply Hn]. cbv beta. intros r _ ->. by eexists.
    - eapply wp_mono; [|by apply create_request_spec]. cbv beta. by intros. }
  eapply wp_mono; [|apply wp_and; [exact Hsome|by apply create_request_spec]].
  cbv beta. intros r io [Hr Hc]. destruct (inv_created P G due C _ _ _ _ _ n Hi Hc) as [Hi' Hu].
  split_and!; [done|by exists io|done| |by destruct r].
  intros Hnone. unfold load. cbn [dn_io with_io dn_down_hints_per_tick]. destruct Hc as (_ & _ & Hc). destruct r as [tid|].
  - destruct Hc as (_ & _ & e & He & Hne & Hre). pose proof (new_entry_tries _ _ _ _ Hne Hnone Hre).
    unfold total_tries. rewrite He, sum_list_with_app. cbn [sum_list_with]. lia.
  - unfold total_tries. rewrite (nr_inflight _ _ Hc). lia.
Qed.

Lemma track_query_inv P G due due' C tid i b n :
  inv P G due C n -> is_Some (G !! i) ->
  (live -> io_taken (dn_io n) <= 65536 -> untracked tid (ledger n)) ->
  (forall j c, due j c = ((if bool_decide ((i, b) = (j, c)) then 1 else 0) + due' j c)%nat) ->
  inv P G due' C (with_tid_to_query (<[tid := (i, b)]> (dn_tid_to_query n)) n).
Proof.
  intros [Hn Ha] Hi Hu Hd. split; [by destruct Hn; split|]. intros Hl Hk. cbn in Hk.
  destruct (Hu Hl Hk) as (Hin & Hq & Hs). destruct (Ha Hl Hk). split; try done; cbn in *.
  - intros x v [[<- <-]|[_ Hx]]%lookup_insert_Some; [|by apply ac_queries0].
    split_and!; [apply elem_of_app; by left|done|done].
  - intros j q Hj. destruct (ac_live0 j q Hj) as (H1 & H2 & H3). split_and!; [done..|]. intros c.
    rewrite H3, tracks_insert, Hd by done. lia.
Qed.

Lemma track_standalone_inv P G due C tid s n :
  inv P G due C n -> standalone_ok (t_id (dn_table n)) (dn_tick n) s ->
  (dn_bootstrapped n = false -> is_reping s = false) ->
  (live -> io_taken (dn_io n) <= 65536 -> untracked tid (ledger n)) ->
  inv P G due (tx_of s ++ C) (with_standalone_tids (<[tid := s]> (dn_standalone_tids n)) n).
Proof.
  intros [Hn Ha] Hs Hb Hu. split.
  - destruct Hn. split; try done; cbn; [by apply map_Forall_insert_2|]. intros E.
    apply map_Forall_insert_2; auto.
  - intros Hl Hk. cbn in Hk. destruct (Hu Hl Hk) as (Hin & Hq & Hst). destruct (Ha Hl Hk). split; try done; cbn in *.
    + intros x v Hx. destruct (ac_queries0 x v Hx) as (H1 & H2 & H3). split_and!; [done| |done].
      rewrite lookup_insert_ne; [done|]. congruence.
    + intros x s' [[<- _]|[_ Hx]]%lookup_insert_Some; [apply elem_of_app; by left|by apply (ac_standalone0 x s')].
    + unfold callers in *. cbn in *. rewrite (stand_insert tid s _ Hst), <- ac_callers0.
      solve_Permutation.
Qed.

Lemma due_query i a c j b :
  due_to i (S a) c j b = ((if bool_decide ((i, false) = (j, b)) then 1 else 0) + due_to i a c j b)%nat.
Proof.
  unfold due_to. destruct (decide (j = i)) as [->|Hne].
  - rewrite !(bool_decide_true (i = i)) by done. destruct b; [rewrite bool_decide_false by congruence|rewrite bool_decide_true by done]; lia.
  - rewrite !(bool_decide_false (j = i)), bool_decide_false by congruence. done.
Qed.
Lemma due_commit i a c j b :
  due_to i a (S c) j b = ((if bool_decide ((i, true) = (j, b)) then 1 else 0) + due_to i a c j b)%nat.
Proof.
  unfold due_to. destruct (decide (j = i)) as [->|Hne].
  - rewrite !(bool_decide_true (i = i)) by done. destruct b; [rewrite bool_decide_true by done|rewrite bool_decide_false by congruence]; lia.
  - rewrite !(bool_decide_false (j = i)), bool_decide_false by congruence. done.
Qed.
Lemma due_none i j b : due_to i 0 0 j b = none_due j b.
Proof. unfold due_to, none_due. case_bool_decide; by destruct b. Qed.

(** What a handler leaves alone besides the core. *)
Definition place (n : DhtNode) := (core n, dn_table n, dn_tick n, dn_next_query_id n).

Definition owed (i : Z) (reqs : list QueryRequest) : Z -> bool -> nat :=
  due_to i (length (query_reqs reqs)) (length (commit_reqs reqs)).

Lemma dispatch_one_wp P G C now i r reqs n :
  inv P G (owed i (r :: reqs)) C n -> is_Some (G !! i) -> request_sane r ->
  wp (dispatch_one send_ok now i r) n (fun _ n' => inv P G (owed i reqs) C n' /\ place n' = place n /\
    (load n' <= load n + 5 * handed [r])%nat).
Proof.
  intros Hi HG (Hp & Hto & Hre).
  destruct r as [p|p|p]; cbn [dispatch_one request_params] in *.
  - apply wp_bind. eapply wp_mono; [|by apply node_create_wp]. cbv beta.
    intros o n1 (Hi1 & [io ->] & Hsome & Hload & Hu). destruct (Hsome Hto) as [tid ->].
    apply wp_upd_node. split_and!; [|done|by specialize (Hload Hre)].
    eapply track_query_inv; [exact Hi1|done|exact Hu|]. intros j c. apply due_query.
  - apply wp_bind. eapply wp_mono; [|by apply node_create_wp]. cbv beta.
    intros o n1 (Hi1 & [io ->] & Hsome & Hload & Hu). destruct (Hsome Hto) as [tid ->].
    apply wp_upd_node. split_and!; [|done|by specialize (Hload Hre)].
    eapply track_query_inv; [exact Hi1|done|exact Hu|]. intros j c. apply due_commit.
  - apply wp_bind, wp_get. destruct (Z.ltb_spec (dn_down_hints_per_tick n) DOWN_HINTS_RATE_LIMIT) as [Hlt|].
    2: { apply wp_ret. split_and!; [done..|]. lia. }
    apply wp_bind, wp_upd_node. set (n0 := with_down_hints_per_tick _ n).
    assert (inv P G (owed i reqs) C n0) as Hi0.
    { apply (inv_same _ _ _ _ n); [done| |done]. destruct Hi as [[] _]. split; try done. cbn. lia. }
    pose proof (dh_hints _ (proj1 Hi)).
    apply wp_bind. eapply wp_mono; [|apply node_create_wp; [exact Hi0|done]]. cbv beta.
    intros o n1 (Hi1 & [io ->] & _ & Hload & _). apply wp_ret. split_and!; [done|done|].
    specialize (Hload Hre). unfold load in *. cbn [dn_down_hints_per_tick with_io n0 with_down_hints_per_tick dn_io] in *.
    unfold DOWN_HINTS_RATE_LIMIT in Hlt. change (handed [QDownHint p]) with 0%nat. lia.
Qed.

Lemma dispatch_wp P G C now i reqs : forall n,
  inv P G (owed i reqs) C n -> is_Some (G !! i) -> Forall request_sane reqs ->
  wp (dispatch_query_requests send_ok now i reqs) n (fun _ n' => inv P G none_due C n' /\ place n' = place n /\
    (load n' <= load n + 5 * handed reqs)%nat).
Proof.
  unfold dispatch_query_requests. induction reqs as [|r reqs IH]; intros n Hi HG Hs; cbn [for_m].
  { apply wp_ret. split_and!; [|done|cbn; lia]. eapply inv_due; [|exact Hi]. intros j b _. apply due_none. }
  inv Hs as [|? ? Hr Hs']. apply wp_bind. eapply wp_mono; [|by eapply dispatch_one_wp]. cbv beta.
  intros _ n1 (Hi1 & Hp1 & Hl1). eapply wp_mono; [|by apply IH]. cbv beta. intros _ n2 (Hi2 & Hp2 & Hl2).
  split_and!; [done|by etrans|]. rewrite (handed_app [r] reqs : handed (r :: reqs) = _). lia.
Qed.

(** *** Bootstrapping *)

Lemma determine_ok samples a :
  Forall peer_ok samples -> determine_address_from_samples hash_iter samples = Some a -> peer_ok a.
Proof.
  clear mac_len fresh_len blake_len rng_ok. unfold determine_address_from_samples. intros Hs.
  destruct (is_empty samples); [done|]. set (f := fun m s => _).
  assert (forall l (m : gmap string Z), Forall peer_ok l ->
    map_Forall (fun k _ => exists p, peer_ok p /\ k = peer_addr p) m ->
    map_Forall (fun k _ => exists p, peer_ok p /\ k = peer_addr p) (foldl f m l)) as Hk.
  { induction l as [|p l IH]; intros m Hl Hm; [done|]. inv Hl as [|? ? Hp Hl']. cbn [foldl]. apply IH; [done|].
    apply map_Forall_insert_2; [by exists p|done]. }
  destruct (max_by_key snd _) as [[k c]|] eqn:Em; [|done].
  apply max_by_key_elem in Em. rewrite iter_perm in Em. apply elem_of_map_to_list in Em.
  destruct (Hk samples ∅ Hs (map_Forall_empty _) k c Em) as (p & Hp & ->).
  rewrite split_peer_addr by apply Hp. destruct (parse_u16 _) as [v|] eqn:Ev; [|done].
  intros [= <-]. split; [apply Hp|]. by eapply parse_u16_range.
Qed.

Lemma peer_id_ok p : peer_ok p -> exists id, peer_id blake2b (host p) (port p) = Ok id /\ id_ok id.
Proof.
  intros (o & Ho & _)%peer_addr_text. rewrite peer_id_spec, Ho. eexists. split; [done|]. apply blake_len.
Qed.

(** The core but for the bootstrap. *)
Definition rest_core (n : DhtNode) :=
  (dn_active_queries n, dn_bootstrap_query_id n, dn_config n, dn_destroyed n, load n).

Lemma answer_all_wp P G due txs : forall C n,
  inv P G due C n ->
  wp (for_m txs (fun tx => answer tx (ABootstrapped (inr tt)))) n (fun _ n' =>
    inv P G due (txs ++ C) n' /\ core n' = core n /\ load n' = load n).
Proof.
  induction txs as [|tx txs IH]; intros C n Hi; cbn [for_m]; [by apply wp_ret|]. apply wp_bind.
  eapply wp_mono; [|by apply answer_wp]. cbv beta. intros _ n1 (Hi1 & Hc1 & Hl1 & _).
  eapply wp_mono; [|by apply IH]. cbv beta. intros _ n2 (Hi2 & Hc2 & Hl2). split_and!; [|congruence..].
  eapply inv_callers; [|exact Hi2]. intros _ _. by rewrite <- Permutation_middle.
Qed.

Lemma inv_waiters_cleared P G due C n :
  inv P G due (dn_bootstrap_waiters n ++ C) n -> inv P G due C (with_bootstrap_waiters [] n).
Proof.
  intros [Hn Ha]. split; [by destruct Hn; split|]. intros Hl Hk. destruct (Ha Hl Hk). split; try done.
  unfold callers in *. cbn in *.
  apply (Permutation_app_inv_l (dn_bootstrap_waiters n)). rewrite <- ac_callers0. solve_Permutation.
Qed.

Lemma mark_bootstrapped_wp P G due C n :
  inv P G due C n -> (dn_bootstrapped n = true -> dn_bootstrap_waiters n = []) ->
  wp (mark_bootstrapped blake2b hash_iter) n (fun _ n' => inv P G due C n' /\
    dn_bootstrapped n' = true /\ dn_bootstrap_waiters n' = [] /\ rest_core n' = rest_core n).
Proof.
  intros Hi Hw. unfold mark_bootstrapped. apply wp_bind, wp_get.
  destruct (dn_bootstrapped n) eqn:Eb; [apply wp_ret; by split_and!; [|done|apply Hw|]|].
  apply wp_bind. eapply (wp_mono _ _ (fun _ n' => inv P G due C n' /\ core n' = core n /\ load n' = load n)).
  2: { destruct (dn_needs_id_update n); [|by apply wp_ret]. apply wp_bind.
    eapply (wp_mono _ _ (fun _ n' => inv P G due C n' /\ core n' = core n /\ load n' = load n)).
    - cbv beta. intros _ n1 (Hi1 & Hc1 & Hl1). apply wp_upd_node. split_and!; [|done|done].
      apply (inv_same _ _ _ _ n1); [done| |done]. destruct Hi1 as [[] _]. by split.
    - destruct (determine_address_from_samples _ _) as [a|] eqn:Ea; [|by apply wp_ret].
      apply determine_ok in Ea; [|apply (dh_samples _ (proj1 Hi))]. destruct (peer_id_ok a Ea) as (id & -> & Hid).
      apply wp_table. eapply wp_mono; [|apply (rebuild_wp blake2b blake_len (dn_tick n)); [apply (dh_table _ (proj1 Hi))|done]].
      cbv beta. intros _ t [Ht Hid']. split_and!; [|done|done].
      apply (inv_same _ _ _ _ n); [done| |done]. destruct Hi as [[] _]. split; try done. cbn.
      intros x s Hx. specialize (dh_early0 Eb x s Hx). specialize (dh_standalone0 x s Hx). by destruct s. }
  cbv beta. intros _ n1 (Hi1 & Hc1 & Hl1). apply wp_bind, wp_upd_node, wp_bind, wp_get, wp_bind.
  set (n2 := with_bootstrapped true n1).
  assert (inv P G due C n2) as Hi2.
  { apply (inv_same _ _ _ _ n1); [done| |done]. destruct Hi1 as [[] _]. by split. }
  eapply wp_mono; [|apply answer_all_wp; exact Hi2]. cbv beta. intros _ n3 (Hi3 & Hc3 & Hl3).
  injection Hc1 as Ha1 Hb1 Hq1 Hw1 Hg1 Hd1. injection Hc3 as Ha3 Hb3 Hq3 Hw3 Hg3 Hd3.
  apply wp_upd_node. split_and!; [|done|done|].
  - apply inv_waiters_cleared. by rewrite Hw3.
  - unfold rest_core. cbn. change (load (with_bootstrap_waiters [] n3)) with (load n3).
    change (load n2) with (load n1) in Hl3. cbn in *. by rewrite Ha3, Ha1, Hq3, Hq1, Hg3, Hg1, Hd3, Hd1, Hl3, Hl1.
Qed.

(** An unfinished query bootstraps the node until it is bootstrapped; then
    nobody waits for it. *)
Definition boot (n : DhtNode) : Prop :=
  if dn_bootstrapped n then dn_bootstrap_waiters n = []
  else exists i q, dn_bootstrap_query_id n = Some i /\ dn_active_queries n !! i = Some q /\ q_finished q = false.

Lemma boot_core n n' : core n' = core n -> boot n -> boot n'.
Proof. intros [= Ha Hb Hq Hw _ _]. unfold boot. by rewrite Ha, Hb, Hq, Hw. Qed.

(** What is left to do without any answer. *)
Definition weight (n : DhtNode) : nat := load n + 5 * budgets (dn_active_queries n).

Lemma on_query_removed_wp P C i n :
  inv P (dn_active_queries n) none_due C n -> (dn_bootstrapped n = true -> dn_bootstrap_waiters n = []) ->
  (dn_bootstrap_query_id n <> Some i -> boot n) ->
  wp (on_query_removed blake2b hash_iter i) n (fun _ n' => inv P (dn_active_queries n') none_due C n' /\ boot n' /\
    dn_active_queries n' = dn_active_queries n /\ dn_config n' = dn_config n /\ dn_destroyed n' = dn_destroyed n /\
    load n' = load n).
Proof.
  intros Hi Hw Hb. unfold on_query_removed. apply wp_bind, wp_get. case_bool_decide as E.
  - apply wp_bind, wp_upd_node. set (n1 := with_bootstrap_query_id None n).
    assert (inv P (dn_active_queries n) none_due C n1) as Hi1.
    { apply (inv_same _ _ _ _ n); [done| |done]. destruct Hi as [[] _]. by split. }
    eapply wp_mono; [|by apply (mark_bootstrapped_wp _ _ _ _ _ Hi1)]. cbv beta.
    intros _ n2 (Hi2 & Hb2 & Hw2 & Hc2). injection Hc2 as Ha2 _ Hg2 Hd2 Hl2.
    change (dn_active_queries n1) with (dn_active_queries n) in Ha2. split_and!; try done; [by rewrite Ha2|].
    unfold boot. by rewrite Hb2.
  - apply wp_ret. split_and!; try done. by apply Hb.
Qed.

Lemma take_query_wp P G C tid n :
  inv (tid :: P) G none_due C n ->
  wp (take_query tid) n (fun r n' => n' = with_tid_to_query (delete tid (dn_tid_to_query n)) n /\
    match r with
    | Some (i, b) => inv P G (due_to i (if b then 0 else 1) (if b then 1 else 0)) C n' /\
        (live -> io_taken (dn_io n') <= 65536 -> is_Some (G !! i))
    | None => inv (tid :: P) G none_due C n' /\ dn_tid_to_query n' !! tid = None
    end).
Proof.
  intros [Hn Ha]. unfold take_query, wp. split; [done|].
  assert (dht_ok (with_tid_to_query (delete tid (dn_tid_to_query n)) n)) as Hn' by (by destruct Hn; split).
  destruct (dn_tid_to_query n !! tid) as [[i b]|] eqn:Et.
  2: { rewrite (delete_id _ _ Et). split; [|cbn; done]. apply (inv_same _ _ _ _ n); [by split| |by destruct n].
       by destruct Hn; split. }
  split.
  2: { intros Hl Hk. specialize (Ha Hl Hk). by destruct (ac_queries _ _ _ _ _ Ha tid _ Et) as (_ & _ & ?). }
  split; [done|]. intros Hl Hk. cbn in Hk. destruct (Ha Hl Hk). cbn in *.
  assert (forall x, x ∈ tids (dn_io n) ++ tid :: P -> x <> tid -> x ∈ tids (dn_io n) ++ P) as Hne.
  { intros x. rewrite <- Permutation_middle, elem_of_cons. by intros [?|?]. }
  destruct (ac_queries0 tid _ Et) as (_ & Hst & _).
  split; try done; cbn in *.
  - rewrite <- Permutation_middle in ac_nodup0. by apply NoDup_cons in ac_nodup0 as [_ ?].
  - rewrite <- Permutation_middle in ac_used0. by apply Forall_cons in ac_used0 as [_ ?].
  - intros x v [Hx Hv]%lookup_delete_Some. destruct (ac_queries0 x v Hv) as (H1 & H2 & H3). split_and!; auto.
  - intros x s Hx. apply Hne; [by apply (ac_standalone0 x s)|]. congruence.
  - intros j q Hj. destruct (ac_live0 j q Hj) as (H1 & H2 & H3). split_and!; [done..|]. intros c.
    rewrite H3, (tracks_delete j c tid _ _ Et). unfold due_to, none_due.
    destruct (decide (j = i)) as [->|Hji].
    + rewrite (bool_decide_true (i = i)) by done. destruct b, c; try (rewrite bool_decide_true by done; lia);
        rewrite bool_decide_false by congruence; lia.
    + rewrite !bool_decide_false by congruence. lia.
Qed.

Lemma take_standalone_wp P G C tid n :
  inv (tid :: P) G none_due C n -> dn_tid_to_query n !! tid = None ->
  wp (take_standalone tid) n (fun r n' => n' = with_standalone_tids (delete tid (dn_standalone_tids n)) n /\
    r = dn_standalone_tids n !! tid /\
    exists C', inv P G none_due C' n' /\
      (live -> io_taken (dn_io n) <= 65536 -> C ≡ₚ match r with Some s => tx_of s ++ C' | None => C' end)).
Proof.
  intros [Hn Ha] Hq. unfold take_standalone, wp. set (n' := with_standalone_tids _ n). split_and!; [done..|].
  exists (callers (ledger n')). split.
  2: { intros Hl Hk. destruct (Ha Hl Hk). rewrite <- ac_callers0. unfold callers. cbn.
       destruct (dn_standalone_tids n !! tid) as [s|] eqn:Es; [|by rewrite (delete_id _ _ Es)].
       rewrite (stand_delete tid s _ Es). solve_Permutation. }
  split.
  { destruct Hn. split; try done; cbn; [by apply map_Forall_delete|]. intros E. by apply map_Forall_delete, dh_early0. }
  intros Hl Hk. destruct (Ha Hl Hk). cbn in *.
  assert (forall x, x ∈ tids (dn_io n) ++ tid :: P -> x <> tid -> x ∈ tids (dn_io n) ++ P) as Hne.
  { intros x. rewrite <- Permutation_middle, elem_of_cons. by intros [?|?]. }
  split; try done; cbn in *.
  - rewrite <- Permutation_middle in ac_nodup0. by apply NoDup_cons in ac_nodup0 as [_ ?].
  - rewrite <- Permutation_middle in ac_used0. by apply Forall_cons in ac_used0 as [_ ?].
  - intros x v Hv. destruct (ac_queries0 x v Hv) as (H1 & H2 & H3). split_and!; [apply Hne; congruence| |done].
    by rewrite lookup_delete_None; right.
  - intros x s [Hx Hs]%lookup_delete_Some. apply Hne; [by apply (ac_standalone0 x s)|done].
Qed.

(** *** Queries *)

(** The query [i] has become [q'], which made the requests [reqs]. *)
Lemma inv_update_query P C due due' i q q' n :
  inv P (dn_active_queries n) due C n -> dn_active_queries n !! i = Some q -> query_typed q' ->
  (live -> io_taken (dn_io n) <= 65536 -> acct P (dn_active_queries n) due C (ledger n) -> query_live i q' /\
     forall b, outstanding q' b = (tracks i b (dn_tid_to_query n) + due' i b)%nat) ->
  (forall j b, j <> i -> due' j b = due j b) ->
  inv P (<[i := q']> (dn_active_queries n)) due' C (with_active_queries (<[i := q']> (dn_active_queries n)) n).
Proof.
  intros [Hn Ha] Hq Ht Hq' Hd. split.
  - destruct Hn. split; try done; cbn; apply map_Forall_insert_2; try done. by apply (dh_ids0 i q).
  - intros Hl Hk. destruct (Hq' Hl Hk (Ha Hl Hk)) as [Hlive Hout]. destruct (Ha Hl Hk). split; try done; cbn in *.
    + intros x v Hx. destruct (ac_queries0 x v Hx) as (H1 & H2 & H3). split_and!; [done..|].
      by apply lookup_insert_is_Some'; right.
    + intros j qj [[<- <-]|[Hji Hj]]%lookup_insert_Some.
      * split_and!; [done| |done]. by destruct (ac_live0 i q Hq) as (_ & ? & _).
      * destruct (ac_live0 j qj Hj) as (H1 & H2 & H3). split_and!; [done..|]. intros b. by rewrite H3, Hd.
    + eapply Forall_impl; [exact ac_forwarders0|]. cbv beta. intros f [Hf|Hf]; [left|by right].
      by apply lookup_insert_is_Some'; right.
Qed.

Definition dropped_too (q : Query) (l : Ledger) : Ledger :=
  mkLedger (lg_tids l) (lg_tid l) (lg_taken l) (lg_queries l) (lg_standalone l) (lg_next l) (lg_dropped l ++ [q])
    (lg_forwarders l) (lg_answers l) (lg_waiters l).
(** A query that is over is dropped: nothing is mapped to it. *)
Lemma acct_drop P G C i q l :
  acct P G none_due C l -> G !! i = Some q -> q_finished q = true -> acct P (delete i G) none_due C (dropped_too q l).
Proof.
  intros [] Hq Hf. destruct (ac_live0 i q Hq) as (Hlive & _ & Hout).
  destruct (over_outstanding i q Hlive Hf) as (H0 & Hover & Hid).
  assert (forall b, tracks i b (lg_queries l) = 0%nat) as Htr
    by (intros b; specialize (H0 b); rewrite Hout in H0; lia).
  split; try done; cbn.
  - intros x v Hx. destruct (ac_queries0 x v Hx) as (H1 & H2 & H3). split_and!; [done..|].
    destruct v as [j b]. cbn in *. rewrite lookup_delete_ne; [done|]. intros <-.
    by apply (tracks_none i b x (lg_queries l) (Htr b)).
  - intros j qj [_ Hj]%lookup_delete_Some. by apply ac_live0.
  - apply Forall_app. by split; [|constructor].
  - eapply Forall_impl; [exact ac_forwarders0|]. cbv beta. intros f [Hg|(q' & Hq' & Hf')].
    + destruct (decide (f.1 = i)) as [->|Hne]; [right; exists q; split; [apply elem_of_app; right; by left|done]|].
      left. by rewrite lookup_delete_ne.
    + right. exists q'. split; [apply elem_of_app; by left|done].
Qed.
Lemma remove_query_inv P C i q n :
  inv P (dn_active_queries n) none_due C n -> dn_active_queries n !! i = Some q -> q_finished q = true ->
  inv P (delete i (dn_active_queries n)) none_due C
    (with_dropped (dn_dropped n ++ [q]) (with_active_queries (delete i (dn_active_queries n)) n)).
Proof.
  intros [Hn Ha] Hq Hf. split.
  - destruct Hn. split; try done; cbn; by apply map_Forall_delete.
  - intros Hl Hk. by apply (acct_drop P _ C i q (ledger n) (Ha Hl Hk)).
Qed.

(** What is kept across a step of a query. *)
Definition settled (P C : list Z) (n n' : DhtNode) : Prop :=
  inv P (dn_active_queries n') none_due C n' /\ boot n' /\ dn_config n' = dn_config n /\
  dn_destroyed n' = dn_destroyed n.

(** A query that has finished is removed. *)
Lemma finish_query_wp P C i q n :
  inv P (dn_active_queries n) none_due C n -> dn_active_queries n !! i = Some q -> q_finished q = true ->
  (dn_bootstrapped n = true -> dn_bootstrap_waiters n = []) -> (dn_bootstrap_query_id n <> Some i -> boot n) ->
  wp (remove_query i ;; on_query_removed blake2b hash_iter i) n (fun _ n' => settled P C n n' /\
    (weight n' <= weight n)%nat).
Proof.
  intros Hi Hq Hf Hw Hb. apply wp_bind. unfold remove_query. apply wp_upd_node. rewrite Hq.
  pose proof (remove_query_inv P C i q n Hi Hq Hf) as Hi1. set (n1 := with_dropped _ _) in *.
  eapply wp_mono; [|apply (on_query_removed_wp P C i n1); [exact Hi1|done|]].
  - cbv beta. intros _ n2 (Hi2 & Hb2 & Ha2 & Hg2 & Hd2 & Hl2). split_and!; [by split_and!|].
    unfold weight. rewrite Ha2, Hl2. change (load n1) with (load n).
    change (dn_active_queries n1) with (delete i (dn_active_queries n)).
    rewrite (budgets_delete i q (dn_active_queries n) Hq). lia.
  - intros Hne. specialize (Hb Hne). unfold boot in *. cbn. destruct (dn_bootstrapped n); [done|].
    destruct Hb as (j & qj & Hj & Hl & Hfin). exists j, qj. split_and!; [done| |done].
    rewrite lookup_delete_ne; congruence.
Qed.

Lemma boot_other i q' n :
  boot n -> dn_bootstrap_query_id n <> Some i ->
  boot (with_active_queries (<[i := q']> (dn_active_queries n)) n).
Proof.
  unfold boot. cbn. destruct (dn_bootstrapped n); [done|]. intros (j & qj & Hj & Hl & Hf) Hne.
  exists j, qj. split_and!; [done| |done]. rewrite lookup_insert_ne; congruence.
Qed.
Lemma boot_same i q' n :
  boot n -> (forall q, dn_active_queries n !! i = Some q -> q_finished q = false -> q_finished q' = false) ->
  boot (with_active_queries (<[i := q']> (dn_active_queries n)) n).
Proof.
  unfold boot. cbn. destruct (dn_bootstrapped n); [done|]. intros (j & qj & Hj & Hl & Hf) Hq.
  destruct (decide (i = j)) as [->|Hne].
  - exists j, q'. rewrite lookup_insert_eq. split_and!; [done..|]. by eapply Hq.
  - exists j, qj. by rewrite lookup_insert_ne.
Qed.
Lemma boot_waiters n : boot n -> dn_bootstrapped n = true -> dn_bootstrap_waiters n = [].
Proof. unfold boot. by destruct (dn_bootstrapped n). Qed.

Lemma commit_done_wp P C i n :
  inv P (dn_active_queries n) (due_to i 0 1) C n -> boot n ->
  wp (commit_done blake2b hash_iter i) n (fun _ n' => settled P C n n' /\ (weight n' <= weight n)%nat).
Proof.
  intros Hi Hb. unfold commit_done. apply wp_bind, wp_get.
  destruct (dn_active_queries n !! i) as [q|] eqn:Eq.
  2: { apply wp_bind, wp_ret, wp_bind. unfold remove_query. apply wp_upd_node. rewrite Eq.
       assert (inv P (dn_active_queries n) none_due C n) as Hi1.
       { eapply inv_due; [|exact Hi]. intros j b [qj Hj]. unfold due_to. rewrite bool_decide_false by congruence. done. }
       eapply wp_mono; [|apply on_query_removed_wp; [exact Hi1|by apply boot_waiters|done]]. cbv beta.
       intros _ n2 (Hi2 & Hb2 & Ha2 & Hg2 & Hd2 & Hl2). split; [by split_and!|]. unfold weight. by rewrite Ha2, Hl2. }
  pose proof (commit_answered i q) as Hca. pose proof (dh_queries _ (proj1 Hi) i q Eq) as Hty.
  destruct (commit_done_typed q Hty) as [Hty' Hbud].
  assert (q_finished (Query_on_commit_done q).2 = (Query_on_commit_done q).1 || q_finished q) as Hfin.
  { unfold Query_on_commit_done. cbv zeta. destruct (_ =? 0)%nat; [|done]. cbn [fst snd orb].
    unfold Query_finish_internal. destruct (q_finished (set_committing _ _ q)) eqn:E; [done|]. by destruct (q_result_tx _). }
  destruct (Query_on_commit_done q) as [b q'] eqn:Ec. cbn [fst snd] in *. apply wp_bind, wp_bind, wp_upd_node, wp_ret.
  set (n1 := with_active_queries _ n).
  assert (inv P (dn_active_queries n1) none_due C n1) as Hi1.
  { eapply inv_update_query; [exact Hi|exact Eq|done| |].
    - intros Hl Hk Ha. destruct (ac_live _ _ _ _ _ Ha i q Eq) as (Hlive & _ & Hout).
      pose proof (Hout true) as Ht. pose proof (Hout false) as Hf. unfold due_to in *.
      rewrite bool_decide_true in * by done. cbn in *.
      destruct (Hca Hlive) as (H1 & H2 & H3); [lia|]. split; [done|]. unfold none_due. intros []; cbn; lia.
    - intros j c Hj. unfold due_to. by rewrite bool_decide_false. }
  assert (budgets (dn_active_queries n1) = budgets (dn_active_queries n)) as Hbb.
  { pose proof (budgets_update i q q' _ Eq). cbn. lia. }
  assert (weight n1 = weight n) as Hwt by (unfold weight; by rewrite Hbb).
  destruct b.
  - eapply wp_mono; [|apply (finish_query_wp P C i q'); [done|apply lookup_insert_eq|done|exact (boot_waiters n Hb)|]].
    + cbv beta. intros _ n2 [Hs2 Hw2]. split; [exact Hs2|lia].
    + intros Hne. by apply boot_other.
  - apply wp_ret. split; [|lia]. split_and!; [done| |done|done]. apply boot_same; [done|].
    intros q0 Hq0 Hf0. rewrite Hfin. cbn. congruence.
Qed.

(** What [query_done] is given: how the query takes the answer, and whether
    its own budget pays for what it asks next. *)
Definition takes (paying : Prop) (i : Z) (n : DhtNode)
    (f : option RoutingTable -> Query -> outcome Empty_set (list QueryRequest * Query)) : Prop :=
  forall q, query_typed q -> exists reqs q', f (Some (dn_table n)) q = Ok (reqs, q') /\ query_typed q' /\
    Forall request_sane reqs /\ answered i q reqs q' /\ (paying -> (handed reqs + budget q' <= budget q)%nat).

Lemma query_done_wp P C paying now i f n :
  inv P (dn_active_queries n) (due_to i 1 0) C n -> boot n -> takes paying i n f ->
  wp (query_done blake2b send_ok hash_iter now i f) n (fun _ n' => settled P C n n' /\
    (paying -> (weight n' <= weight n)%nat)).
Proof.
  intros Hi Hb Hf. unfold query_done. apply wp_bind, wp_get, wp_bind.
  destruct (dn_active_queries n !! i) as [q|] eqn:Eq.
  2: { apply wp_ret, wp_bind. change (wp (mret tt ≫= (fun _ : unit => Prelude.get ≫= (fun n0 : DhtNode =>
         if match dn_active_queries n0 !! i with Some q => Query_is_finished q | None => false end
         then remove_query i ;; on_query_removed blake2b hash_iter i else mret tt))) n (fun _ n' => settled P C n n' /\
           (paying -> (weight n' <= weight n)%nat))).
       apply wp_bind, wp_ret, wp_bind, wp_get. rewrite Eq. apply wp_ret. split; [|done]. split_and!; try done.
       eapply inv_due; [|exact Hi]. intros j b [qj Hj]. unfold due_to. rewrite bool_decide_false by congruence. done. }
  pose proof (dh_queries _ (proj1 Hi) i q Eq) as Hty.
  destruct (Hf q Hty) as (reqs & q' & Ef & Hty' & Hs & Hans & Hpay).
  apply wp_bind. unfold pure_do at 1. rewrite Ef. apply (wp_ret (reqs, q')). apply wp_bind, wp_upd_node, wp_ret.
  set (n1 := with_active_queries _ n). apply wp_bind.
  assert (inv P (dn_active_queries n1) (owed i reqs) C n1) as Hi1.
  { eapply inv_update_query; [exact Hi|exact Eq|done| |].
    - intros Hl Hk Ha. destruct (ac_live _ _ _ _ _ Ha i q Eq) as (Hlive & _ & Hout).
      pose proof (Hout true) as Ht. pose proof (Hout false) as Hfa. unfold owed, due_to in *.
      rewrite bool_decide_true in * by done. cbn in *.
      destruct (Hans Hlive) as (H1 & H2 & H3); [lia|]. split; [done|]. intros []; cbn; lia.
    - intros j c Hj. unfold owed, due_to. by rewrite !bool_decide_false. }
  eapply wp_mono; [|apply dispatch_wp; [exact Hi1|exists q'; apply lookup_insert_eq|done]]. cbv beta.
  intros _ n2 (Hi2 & Hp2 & Hl2). injection Hp2 as Ha2 Hb2 Hq2 Hw2 Hg2 Hd2 Ht2 Hk2 Hx2.
  assert (dn_active_queries n2 !! i = Some q') as Eq2 by (rewrite Ha2; apply lookup_insert_eq).
  assert (inv P (dn_active_queries n2) none_due C n2) as Hi2' by (by rewrite Ha2).
  assert (core n2 = core n1) as Hc2 by (unfold core; by rewrite Ha2, Hb2, Hq2, Hw2, Hg2, Hd2).
  assert (paying -> (weight n2 <= weight n)%nat) as Hw.
  { intros Hp. specialize (Hpay Hp). unfold weight. rewrite Ha2. pose proof (budgets_update i q q' _ Eq).
    change (load n1) with (load n) in Hl2. cbn [n1 dn_active_queries with_active_queries]. lia. }
  apply wp_bind, wp_get. rewrite Eq2. unfold Query_is_finished. destruct (q_finished q') eqn:Efin.
  - eapply wp_mono; [|apply (finish_query_wp P C i q'); [done|done|done| |]].
    + cbv beta. intros _ n3 [(H1 & H2 & H3 & H4) Hw3]. split; [|intros Hp; specialize (Hw Hp); lia].
      split_and!; [done|done|by rewrite H3, Hg2|by rewrite H4, Hd2].
    + intros Hb'. rewrite Hw2. apply (boot_waiters n Hb). by rewrite Hb2 in Hb'.
    + intros Hne. rewrite Hq2 in Hne. eapply boot_core; [exact Hc2|]. by apply boot_other.
  - apply wp_ret. split; [|done]. split_and!; [done| |by rewrite Hg2|by rewrite Hd2].
    eapply boot_core; [exact Hc2|]. by apply boot_same.
Qed.

(** *** Standalone requests *)

(** Handlers that neither send requests nor touch queries. *)
Definition calm (n n' : DhtNode) : Prop := core n' = core n /\ load n' = load n /\ dn_io n' = dn_io n.

Lemma remove_node_wp P G due C id n :
  inv P G due C n -> id_ok id ->
  wp (table_do (RoutingTable_remove id)) n (fun _ n' => inv P G due C n' /\ calm n n' /\
    t_id (dn_table n') = t_id (dn_table n) /\ dn_tick n' = dn_tick n /\
    table_map (dn_table n') = delete id (table_map (dn_table n))).
Proof.
  intros Hi Hid. apply wp_table. eapply wp_mono; [|apply (remove_wp blake2b (dn_tick n)); [apply (dh_table _ (proj1 Hi))|done]].
  cbv beta. intros _ t (Ht & Ho & Hm). split_and!; try done. by apply inv_table.
Qed.
Lemma add_node_wp P G due C nd n :
  inv P G due C n -> known blake2b (t_id (dn_table n)) (dn_tick n) nd ->
  wp (table_do (RoutingTable_add nd)) n (fun r n' => inv P G due C n' /\ calm n n' /\
    t_id (dn_table n') = t_id (dn_table n) /\ dn_tick n' = dn_tick n /\
    table_map (dn_table n') = if r then <[n_id nd := nd]> (table_map (dn_table n)) else table_map (dn_table n)).
Proof.
  intros Hi Hk. apply wp_table.
  eapply wp_mono; [|apply (add_wp blake2b blake_len (dn_tick n)); [apply (dh_table _ (proj1 Hi))|done]].
  cbv beta. intros r t (Ht & Ho & Hm). split_and!; try done. by apply inv_table.
Qed.
Lemma calm_trans n1 n2 n3 : calm n1 n2 -> calm n2 n3 -> calm n1 n3.
Proof. intros (H1 & H2 & H3) (H4 & H5 & H6). split_and!; congruence. Qed.

Lemma replace_node_wp P G due C old nd n :
  inv P G due C n -> id_ok old -> known blake2b (t_id (dn_table n)) (dn_tick n) nd ->
  wp (replace_node old nd) n (fun _ n' => inv P G due C n' /\ calm n n').
Proof.
  intros Hi Hid Hk. unfold replace_node. apply wp_bind. eapply wp_mono; [|by apply remove_node_wp]. cbv beta.
  intros _ n1 (Hi1 & Hc1 & Ho1 & Ht1 & _). apply wp_bind.
  eapply wp_mono; [|apply (add_node_wp P G due C nd n1 Hi1); by rewrite Ho1, Ht1]. cbv beta.
  intros _ n2 (Hi2 & Hc2 & _). apply wp_ret. split; [done|]. by eapply calm_trans.
Qed.
Lemma dec_repinging_inv P G due C v n : inv P G due C n -> inv P G due C (with_repinging v n).
Proof. intros Hi. apply (inv_same _ _ _ _ n); [done| |done]. destruct Hi as [[] _]. by split. Qed.

Lemma is_stale_wp id last absent n (Q : bool -> DhtNode -> Prop) :
  dht_ok n -> id_ok id ->
  Q (match table_map (dn_table n) !! id with Some nd => n_seen_tick nd <=? last | None => absent end) n ->
  wp (is_stale id last absent) n Q.
Proof.
  intros Hn Hid HQ. unfold is_stale. apply wp_bind, wp_table, get_wp; [apply (dh_table _ Hn)|done|].
  apply wp_ret. by rewrite with_table_same.
Qed.

Lemma standalone_timeout_wp P G C s n :
  inv P G none_due C n -> standalone_ok (t_id (dn_table n)) (dn_tick n) s ->
  wp (handle_standalone_timeout s) n (fun _ n' => inv P G none_due (tx_of s ++ C) n' /\ calm n n').
Proof.
  intros Hi Hs. destruct s as [tx|tx|nd old last|id last]; cbn [handle_standalone_timeout tx_of app].
  - by apply answer_wp.
  - by apply answer_wp.
  - destruct Hs as (Hk & Hid & _). apply wp_bind, wp_upd_node.
    eapply wp_mono; [|apply replace_node_wp; [by apply dec_repinging_inv|done|done]].
    cbv beta. intros _ n' [Hi' Hc']. split; [done|]. by eapply calm_trans; [|exact Hc'].
  - apply wp_bind. eapply wp_mono; [|by apply remove_node_wp; [|apply Hs]]. cbv beta. intros _ n' (Hi' & Hc' & _).
    by apply wp_ret.
Qed.

Lemma standalone_response_wp P G C s resp addr n :
  inv P G none_due C n -> standalone_ok (t_id (dn_table n)) (dn_tick n) s ->
  wp (handle_standalone_response s resp addr) n (fun _ n' => inv P G none_due (tx_of s ++ C) n' /\ calm n n').
Proof.
  intros Hi Hs. destruct s as [tx|tx|nd old last|id last]; cbn [handle_standalone_response tx_of app].
  - by apply answer_wp.
  - by apply answer_wp.
  - destruct Hs as (Hk & Hid & _). apply wp_bind, wp_upd_node.
    pose proof (dec_repinging_inv P G none_due C (Z.max 0 (dn_repinging n - 1)) n Hi) as Hi1.
    set (n1 := with_repinging _ n) in *. apply wp_bind, is_stale_wp; [apply Hi1|done|].
    destruct (match _ with Some _ => _ | None => _ end); [|by apply wp_ret].
    eapply wp_mono; [|by apply replace_node_wp]. cbv beta. intros _ n' [Hi' Hc']. split; [done|].
    by eapply calm_trans; [|exact Hc'].
  - destruct Hs as [Hid _]. apply wp_bind, is_stale_wp; [apply Hi|done|].
    destruct (match _ with Some _ => _ | None => _ end); [|by apply wp_ret].
    apply wp_bind. eapply wp_mono; [|by apply remove_node_wp]. cbv beta. intros _ n' (Hi' & Hc' & _).
    by apply wp_ret.
Qed.

(** What is left of a resolved request once its query did not claim it. *)
Lemma standalone_wp P C tid (h : StandaloneRequest -> NodeM unit) n :
  inv (tid :: P) (dn_active_queries n) none_due C n -> dn_tid_to_query n !! tid = None -> boot n ->
  (forall s C n, inv P (dn_active_queries n) none_due C n -> standalone_ok (t_id (dn_table n)) (dn_tick n) s ->
     wp (h s) n (fun _ n' => inv P (dn_active_queries n) none_due (tx_of s ++ C) n' /\ calm n n')) ->
  wp (s ← take_standalone tid; match s with Some s => h s | None => mret tt end) n (fun _ n' =>
    settled P C n n' /\ weight n' = weight n).
Proof.
  intros Hi Hq Hb Hh. apply wp_bind. pose proof (dh_standalone _ (proj1 Hi)) as Hst.
  eapply wp_mono; [|by eapply take_standalone_wp]. cbv beta. intros r n1 (-> & Hr & C' & Hi1 & HC).
  destruct r as [s|].
  - eapply wp_mono; [|apply (Hh s C'); [exact Hi1|]]; [|exact (Hst tid s (eq_sym Hr))].
    cbv beta. intros _ n2 (Hi2 & Hc2 & Hl2 & Hio2). injection Hc2 as Ha2 Hb2 Hq2 Hw2 Hg2 Hd2.
    split; [split_and!; try done|].
    + rewrite Ha2. eapply inv_callers; [|exact Hi2]. intros Hl Hk. rewrite Hio2 in Hk. symmetry. by apply HC.
    + unfold boot in *. by rewrite Ha2, Hb2, Hq2, Hw2.
    + unfold weight. rewrite Ha2, Hl2. done.
  - apply wp_ret. split; [split_and!; try done|done].
    eapply inv_callers; [|exact Hi1]. intros Hl Hk. symmetry. by apply HC.
Qed.

Lemma handle_timeout_wp P C now evt n :
  inv (te_tid evt :: P) (dn_active_queries n) none_due C n -> boot n ->
  wp (handle_timeout blake2b send_ok hash_iter now evt) n (fun _ n' => settled P C n n' /\ (weight n' <= weight n)%nat).
Proof.
  intros Hi Hb. unfold handle_timeout. apply wp_bind. eapply wp_mono; [|by apply take_query_wp]. cbv beta.
  intros r n1 [-> Hr]. set (n1 := with_tid_to_query _ n) in *.
  destruct r as [[i [|]]|].
  - destruct Hr as [Hi1 _]. apply (commit_done_wp P C i n1); [exact Hi1|exact Hb].
  - destruct Hr as [Hi1 _]. eapply wp_mono; [|apply (query_done_wp P C True now i); [exact Hi1|exact Hb|]].
    + cbv beta. intros _ n2 [Hs2 Hw2]. split; [exact Hs2|by apply Hw2].
    + intros q Hty. destruct (on_timeout_paid (dn_table n1) (te_to evt) q) as (H1 & H2 & H3); [|done|].
      { eapply good_ok. apply (dh_table _ (proj1 Hi)). }
      pose proof (timeout_answered i (Some (dn_table n1)) (te_to evt) q) as H4.
      destruct (Query_on_timeout _ _ q) as [reqs q']. exists reqs, q'. cbn [fst snd] in *. by split_and!.
  - destruct Hr as [Hi1 Hq1]. eapply wp_mono; [|apply (standalone_wp P C (te_tid evt) handle_standalone_timeout n1 Hi1 Hq1 Hb)].
    + cbv beta. intros _ n2 [Hs2 Hw2]. split; [exact Hs2|]. rewrite Hw2. done.
    + intros s C' n2. apply standalone_timeout_wp.
Qed.

Lemma handle_timeouts_wp C now evts : forall n,
  inv (te_tid <$> evts) (dn_active_queries n) none_due C n -> boot n ->
  wp (for_m evts (handle_timeout blake2b send_ok hash_iter now)) n (fun _ n' => settled [] C n n' /\
    (weight n' <= weight n)%nat).
Proof.
  induction evts as [|evt evts IH]; intros n Hi Hb; cbn [for_m]; [by apply wp_ret; split; [split_and!|]|].
  apply wp_bind. eapply wp_mono; [|by apply handle_timeout_wp]. cbv beta.
  intros _ n1 [(Hi1 & Hb1 & Hg1 & Hd1) Hw1]. eapply wp_mono; [|by apply IH]. cbv beta.
  intros _ n2 [(Hi2 & Hb2 & Hg2 & Hd2) Hw2]. split; [|lia]. split_and!; [done|done|congruence..].
Qed.

(** *** Nodes from the network *)

(** The handlers that ask nothing for a query. *)
Definition stable (n n' : DhtNode) : Prop :=
  core n' = core n /\ t_id (dn_table n') = t_id (dn_table n) /\ dn_tick n' = dn_tick n.
Lemma stable_refl n : stable n n.
Proof. by split_and!. Qed.
Lemma stable_trans n1 n2 n3 : stable n1 n2 -> stable n2 n3 -> stable n1 n3.
Proof. intros (H1 & H2 & H3) (H4 & H5 & H6). split_and!; congruence. Qed.
Hint Resolve stable_refl : core.

Lemma internal_ok to command target :
  in_u 16 (port to) -> in_u 64 command -> opt_ok id_ok target -> params_ok (internal_request to command target).
Proof. intros. by split; cbn. Qed.

(** A check of some node. *)
Lemma check_request_wp P G C now p s n :
  inv P G none_due C n -> params_ok p -> standalone_ok (t_id (dn_table n)) (dn_tick n) s -> tx_of s = [] ->
  (dn_bootstrapped n = false -> is_reping s = false) ->
  wp (tid ← node_create send_ok now p;
      match tid with Some tid => track_standalone tid s | None => mret tt end) n
    (fun _ n' => inv P G none_due C n' /\ place n' = place n).
Proof.
  intros Hi Hp Hs Htx He. apply wp_bind. eapply wp_mono; [|by apply node_create_wp]. cbv beta.
  intros r n1 (Hi1 & [io ->] & _ & _ & Hu). destruct r as [tid|]; [|by apply wp_ret].
  apply wp_upd_node. split; [|done].
  pose proof (track_standalone_inv P G none_due C tid s _ Hi1 Hs He Hu) as Hi2. by rewrite Htx in Hi2.
Qed.

Lemma get_mut_node_wp P G due C id f n :
  inv P G due C n -> id_ok id -> touches blake2b (t_id (dn_table n)) (dn_tick n) f ->
  wp (table_do (RoutingTable_get_mut id f)) n (fun r n' => inv P G due C n' /\ stable n n' /\ dn_io n' = dn_io n /\
    r = f <$> table_map (dn_table n) !! id /\
    table_map (dn_table n') = match table_map (dn_table n) !! id with
                              | Some nd => <[id := f nd]> (table_map (dn_table n))
                              | None => table_map (dn_table n)
                              end).
Proof.
  intros Hi Hid Hf. apply wp_table.
  eapply wp_mono; [|apply (get_mut_wp blake2b (dn_tick n)); [apply (dh_table _ (proj1 Hi))|done|done]].
  cbv beta. intros r t (-> & Ht & Ho & Hm). split_and!; try done. by apply inv_table.
Qed.

Lemma min_by_elem {A} (lt : A -> A -> bool) l x : min_by lt l = Some x -> x ∈ l.
Proof.
  clear. unfold min_by. intros H. cut (x ∈ l \/ None = Some x); [by intros [?|?]|].
  revert H. generalize (@None A). induction l as [|y l IH]; intros acc; cbn [foldl]; [by right|].
  intros H%IH. rewrite elem_of_cons. destruct acc as [z|].
  - destruct (lt y z); destruct H as [H|H]; auto; injection H as ->; auto.
  - destruct H as [H|H]; auto. injection H as ->. auto.
Qed.

Lemma oldest_known t tick id nd :
  table_good blake2b tick t -> id_ok id -> oldest_near t tick id = Some nd ->
  known blake2b (t_id t) tick nd /\ n_pinged_tick nd < tick.
Proof.
  intros Ht Hid E. apply min_by_elem, list_elem_of_filter in E as [Hp Hin].
  pose proof (good_closest blake2b tick t id 20 Ht Hid) as Hc. rewrite Forall_forall in Hc. split; [by apply Hc|].
  apply Is_true_true in Hp. by apply Z.ltb_lt in Hp.
Qed.

Lemma ping_params own tick nd : known blake2b own tick nd ->
  params_ok (internal_request (mkPeer (n_host nd) (n_port nd)) CMD_PING None).
Proof. intros [[_ Hp] _ _ _]. apply internal_ok; [done| |done]. unfold CMD_PING, command_code, in_u. lia. Qed.

Lemma reping_loop_wp P G C now evs : forall n,
  inv P G none_due C n -> dn_bootstrapped n = true ->
  Forall (fun e => known blake2b (t_id (dn_table n)) (dn_tick n) (event_node e)) evs ->
  wp (reping_loop send_ok now evs) n (fun _ n' => inv P G none_due C n' /\ stable n n').
Proof.
  induction evs as [|[nd idx] evs IH]; intros n Hi Hb Hev; cbn [reping_loop]; [by apply wp_ret|].
  inv Hev as [|? ? Hnd Hev']. cbn [event_node] in Hnd. apply wp_bind, wp_get.
  destruct (oldest_near _ _ _) as [old|] eqn:Eo; [|by apply IH].
  apply oldest_known in Eo as [Hk Hp]; [|apply (dh_table _ (proj1 Hi))|by eapply known_id_ok].
  pose proof (known_id_ok _ blake_len _ _ _ Hk) as Hid.
  apply wp_bind, wp_table, get_wp; [apply (dh_table _ (proj1 Hi))|done|]. rewrite with_table_same.
  destruct (_ && _); [by apply wp_ret|]. apply wp_bind.
  eapply wp_mono; [|apply (get_mut_node_wp P G none_due C); [exact Hi|done|]].
  2: { apply set_pinged_touches, (dh_tick _ (proj1 Hi)). }
  cbv beta. intros _ n1 (Hi1 & Hs1 & _). apply wp_bind.
  eapply wp_mono; [|apply node_create_wp; [exact Hi1|by eapply ping_params]]. cbv beta.
  intros r n2 (Hi2 & [io ->] & _ & _ & Hu). apply wp_bind.
  destruct Hs1 as (Hc1 & Ho1 & Ht1). set (n2 := with_io io n1) in *.
  assert (forall n3, inv P G none_due C n3 -> stable n n3 ->
    wp (reping_loop send_ok now evs) n3 (fun _ n' => inv P G none_due C n' /\ stable n n')) as Hrec.
  { intros n3 Hi3 Hs3. pose proof Hs3 as (Hc3 & Ho3 & Ht3). injection Hc3 as _ Hb3 _ _ _ _.
    eapply wp_mono; [|apply IH; [done|by rewrite Hb3|by rewrite Ho3, Ht3]]. cbv beta. intros _ n4 [Hi4 Hs4].
    split; [done|]. by eapply stable_trans. }
  destruct r as [tid|]; [|by apply wp_ret, Hrec; [|split_and!]].
  apply wp_bind, wp_upd_node, wp_upd_node. apply Hrec; [|by split_and!].
  apply (track_standalone_inv P G none_due C tid (SReping nd (n_id old) (n_seen_tick old))).
  - by apply dec_repinging_inv.
  - cbn. rewrite Ho1, Ht1. split_and!; [done|done|]. pose proof (kn_ticks _ _ _ _ Hk). lia.
  - intros Hb'. cbn in Hb'. injection Hc1 as _ Hb1 _ _ _ _. congruence.
  - exact Hu.
Qed.

Lemma bucket_full_wp P G C now n :
  inv P G none_due C n ->
  wp (handle_bucket_full send_ok now) n (fun _ n' => inv P G none_due C n' /\ stable n n').
Proof.
  intros Hi. unfold handle_bucket_full. apply wp_bind, wp_get.
  destruct (dn_bootstrapped n) eqn:Eb; cbn [negb orb]; [|by apply wp_ret].
  destruct (MAX_REPINGING <=? dn_repinging n); [by apply wp_ret|]. apply wp_bind, wp_table.
  eapply wp_mono; [|apply (drain_wp blake2b (dn_tick n)), (dh_table _ (proj1 Hi))]. cbv beta.
  intros evs t (Ht & Ho & _ & Hev). eapply wp_mono; [|apply (reping_loop_wp P G C); [by apply inv_table|done|]].
  - cbv beta. intros _ n' [Hi' Hs']. split; [done|]. by eapply stable_trans; [|exact Hs'].
  - cbn. by rewrite Ho.
Qed.

Lemma add_node_wp_net P G C now from id n :
  inv P G none_due C n -> sender_ok blake2b from id ->
  wp (add_node_from_network send_ok now from id) n (fun _ n' => inv P G none_due C n' /\ stable n n').
Proof.
  intros Hi [Hf Hid]. destruct id as [id|]; cbn [add_node_from_network]; [|by apply wp_ret].
  specialize (Hid id eq_refl). apply wp_bind, wp_get. case_bool_decide as Eo; [by apply wp_ret|].
  pose proof (dh_tick _ (proj1 Hi)) as Ht0.
  assert (known blake2b (t_id (dn_table n)) (dn_tick n)
    (mkNode id (host from) (port from) None (dn_tick n) (dn_tick n) (dn_tick n) 0)) as Hk.
  { split; cbn; [by destruct from|done|done|lia]. }
  apply wp_bind. eapply wp_mono; [|apply (get_mut_node_wp P G none_due C); [exact Hi| |by apply set_seen_touches]].
  2: { apply (known_id_ok _ blake_len _ _ _ Hk). }
  cbv beta. intros r n1 (Hi1 & Hs1 & _). destruct r as [nd|]; [by apply wp_ret|]. apply wp_bind.
  pose proof Hs1 as (Hc1 & Ho1 & Ht1).
  eapply wp_mono; [|apply (add_node_wp P G none_due C _ n1 Hi1); by rewrite Ho1, Ht1]. cbv beta.
  intros b n2 (Hi2 & (Hc2 & _) & Ho2 & Ht2 & _).
  assert (stable n n2) as Hs2 by (split_and!; congruence).
  destruct b; cbn [negb]; [by apply wp_ret|]. eapply wp_mono; [|by apply bucket_full_wp]. cbv beta.
  intros _ n3 [Hi3 Hs3]. split; [done|]. by eapply stable_trans.
Qed.

(** *** Incoming requests *)

Record req_ok (req : IncomingRequest) : Prop := {
  ro_tid : in_u 16 (ir_tid req);
  ro_sender : sender_ok blake2b (ir_from req) (ir_id req);
  ro_target : opt_ok id_ok (ir_target req);
  ro_value : buffer_ok (ir_value req)
}.

Lemma node_reply_wp P G C req error value n :
  inv P G none_due C n -> req_ok req -> in_u 64 error -> opt_ok fits value ->
  wp (node_reply mac fresh send_ok req error value) n (fun _ n' => inv P G none_due C n' /\ stable n n').
Proof.
  intros Hi [Ht [[_ Hp] _] Htg _] He Hv. unfold node_reply. apply wp_bind, wp_get, wp_io. unfold send_reply.
  eapply wp_mono; [|apply (send_reply_spec mac fresh send_ok mac_len fresh_len); try done].
  - cbv beta. intros _ io (Hq & _). split; [by apply inv_quiet|done].
  - eapply good_ok. apply (dh_table _ (proj1 Hi)).
Qed.

Lemma delayed_ping_wp P G C now req n :
  inv P G none_due C n -> req_ok req ->
  wp (handle_delayed_ping mac fresh send_ok now req) n (fun _ n' => inv P G none_due C n' /\ stable n n').
Proof.
  intros Hi Hr. unfold handle_delayed_ping. destruct (ir_value req) as [v|]; [|by apply wp_ret].
  destruct (len v <? 4); [by apply wp_ret|]. cbv zeta. destruct (10000 <? _).
  - by apply node_reply_wp.
  - apply wp_upd_node. split; [|done]. apply (inv_same _ _ _ _ n); [done| |done]. destruct Hi as [[] _]. split; try done.
    cbn. apply Forall_app. split; [done|]. constructor; [|done]. destruct Hr as [? [[_ ?] _] ? _].
    by split; cbn; auto.
Qed.

Lemma down_hint_wp P G C now req n :
  inv P G none_due C n -> req_ok req ->
  wp (handle_down_hint_request blake2b send_ok now req) n (fun _ n' => inv P G none_due C n' /\ stable n n').
Proof.
  intros Hi Hr. unfold handle_down_hint_request. pose proof (ro_value _ Hr) as Hv.
  destruct (ir_value req) as [v|]; [|by apply wp_ret]. destruct Hv as [Hb _].
  destruct (Z.ltb_spec (len v) 6) as [|Hlen]; [by apply wp_ret|]. cbv zeta.
  assert (bytes_ok (take 4 v) /\ len (take 4 v) = 4) as [Hb4 Hl4].
  { split; [by apply Forall_take|]. unfold len in *. rewrite length_take. lia. }
  assert (exists id, peer_id blake2b (ipv4_text (take 4 v)) (from_le (take 2 (drop 4 v))) = Ok id /\ id_ok id)
    as (id & -> & Hid).
  { rewrite peer_id_spec. rewrite (ipv4_octets_text _ Hb4 Hl4). eexists. split; [done|]. apply blake_len. }
  apply wp_bind, wp_table, get_wp; [apply (dh_table _ (proj1 Hi))|done|]. rewrite with_table_same.
  destruct (table_map (dn_table n) !! id) as [nd|] eqn:En; [|by apply wp_ret].
  pose proof (tg_nodes _ _ _ (dh_table _ (proj1 Hi)) id nd En) as Hk. cbv beta in Hk.
  apply wp_bind, wp_get. destruct (Z.ltb_spec (n_pinged_tick nd) (dn_tick n)) as [Hpt|]; [|by apply wp_ret].
  pose proof (known_id_ok _ blake_len _ _ _ Hk) as Hid'. apply wp_bind.
  eapply wp_mono; [|apply (get_mut_node_wp P G none_due C); [exact Hi|done|]].
  2: { apply add_hint_touches, (dh_tick _ (proj1 Hi)). }
  cbv beta. intros _ n1 (Hi1 & Hs1 & _).
  eapply wp_mono; [|apply (check_request_wp P G C now _ (SCheck (n_id nd) (n_seen_tick nd)) n1 Hi1); try done].
  2: by eapply ping_params.
  2: { split; [done|]. pose proof (kn_ticks _ _ _ _ Hk). destruct Hs1 as (_ & _ & ->). lia. }
  cbv beta. intros _ n2 [Hi2 Hp2]. split; [done|]. eapply stable_trans; [exact Hs1|].
  unfold place, stable in *. injection Hp2 as ? ? ? ? ? ? ? ? ?. split_and!; congruence || (unfold core; congruence).
Qed.

Lemma forward_wp P G C req n :
  inv P G none_due C n -> req_ok req ->
  wp (forward_user_request mac fresh send_ok req) n (fun _ n' => inv P G none_due C n' /\ stable n n').
Proof.
  intros Hi Hr. unfold forward_user_request. apply wp_bind, wp_get.
  destruct (retain_subscribers _ _ _) as [kept tx]. apply wp_bind, wp_upd_node.
  set (n1 := with_request_subscribers kept n).
  assert (inv P G none_due C n1) as Hi1.
  { apply (inv_same _ _ _ _ n); [done| |done]. destruct Hi as [[] _]. by split. }
  destruct tx as [tx|].
  - apply wp_upd_node. split; [|done]. apply (inv_same _ _ _ _ n1); [done| |done]. destruct Hi1 as [[] _]. split; try done.
    cbn. apply Forall_app. split; [done|]. constructor; [|done]. by destruct Hr as [? [[_ ?] _] ? _].
  - eapply wp_mono; [|by apply node_reply_wp]. cbv beta. intros _ n2 [Hi2 Hs2]. by split.
Qed.

Lemma incoming_wp P G C now req n :
  inv P G none_due C n -> req_ok req ->
  wp (handle_incoming_request blake2b mac fresh send_ok now req) n (fun _ n' => inv P G none_due C n' /\ stable n n').
Proof.
  intros Hi Hr. unfold handle_incoming_request. destruct (ir_internal req); [|by apply forward_wp]. cbv zeta.
  destruct (_ =? CMD_PING); [by apply node_reply_wp|]. destruct (_ =? CMD_DELAYED_PING); [by apply delayed_ping_wp|].
  destruct (_ =? CMD_PING_NAT).
  { destruct (ir_value req) as [v|]; [|by apply wp_ret]. destruct (2 <=? len v); [|by apply wp_ret].
    destruct (negb _); [by apply node_reply_wp|by apply wp_ret]. }
  destruct (_ =? CMD_FIND_NODE); [destruct (is_some _); [by apply node_reply_wp|by apply wp_ret]|].
  destruct (_ =? CMD_DOWN_HINT); [|by apply node_reply_wp]. apply wp_bind.
  eapply wp_mono; [|by apply down_hint_wp]. cbv beta. intros _ n1 [Hi1 Hs1].
  eapply wp_mono; [|by apply node_reply_wp]. cbv beta. intros _ n2 [Hi2 Hs2]. split; [done|].
  by eapply stable_trans.
Qed.

(** *** Responses *)

Record resp_ok (r : IoResponse) : Prop := {
  rk_sender : sender_ok blake2b (ev_from r) (ev_id r);
  rk_to : peer_ok (ev_to r);
  rk_token : opt_ok (fixed_ok 32) (ev_token r);
  rk_closer : Forall peer_ok (ev_closer_nodes r)
}.

Lemma sender_id_ok from id : sender_ok blake2b from id -> opt_ok id_ok id.
Proof.
  intros [Hf Hid] i ->. specialize (Hid i eq_refl). destruct (peer_id_ok from Hf) as (j & Hj & Hjo).
  rewrite Hj in Hid. by injection Hid as ->.
Qed.

Lemma response_wp C now r n :
  inv [ev_tid r] (dn_active_queries n) none_due C n -> boot n -> resp_ok r ->
  wp (handle_response blake2b send_ok hash_iter now r) n (fun _ n' => settled [] C n n').
Proof.
  intros Hi Hb [Hs Hto Htok Hcl]. unfold handle_response. apply wp_bind.
  eapply wp_mono; [|by apply add_node_wp_net]. cbv beta. intros _ n1 [Hi1 (Hc1 & _)]. apply wp_bind.
  eapply (wp_mono _ _ (fun _ n' => inv [ev_tid r] (dn_active_queries n') none_due C n' /\ core n' = core n)).
  2: { pose proof Hc1 as [= Ha1 _ _ _ _ _]. destruct (reflexive _); [|apply wp_ret; by rewrite Ha1].
       apply wp_upd_node. split; [|by destruct (dn_needs_id_update n1)].
       apply (inv_same _ _ _ _ n1); [|..]; [destruct (dn_needs_id_update n1); cbn; by rewrite Ha1| |
         by destruct (dn_needs_id_update n1)].
       destruct Hi1 as [[] _]. destruct (dn_needs_id_update n1); split; try done. cbn. apply Forall_app. by split; [|constructor]. }
  cbv beta. intros _ n2 (Hi2 & Hc2). pose proof (boot_core _ _ Hc2 Hb) as Hb2.
  injection Hc2 as Ha2 _ _ _ Hg2 Hd2. apply wp_bind. eapply wp_mono; [|by apply take_query_wp]. cbv beta.
  intros q n3 [-> Hr]. set (n3 := with_tid_to_query _ n2) in *.
  assert (forall n', settled [] C n3 n' -> settled [] C n n') as Hset.
  { intros n' (H1 & H2 & H3 & H4). split_and!; [done|done|by rewrite H3|by rewrite H4]. }
  destruct q as [[i [|]]|].
  - destruct Hr as [Hi3 _]. eapply wp_mono; [|by apply (commit_done_wp [] C i n3)]. cbv beta. intros _ n4 [H4 _]. by apply Hset.
  - destruct Hr as [Hi3 _]. eapply wp_mono; [|apply (query_done_wp [] C False now i _ n3 Hi3 Hb2)].
    + cbv beta. intros _ n4 [H4 _]. by apply Hset.
    + intros q Hty. set (data := Query.mkResponseData _ _ _ _ _ _ _ _).
      assert (data_ok data) as Hd by (split; try done; [apply Hs|by apply (sender_id_ok (ev_from r))]).
      destruct (on_response_typed blake2b (dn_table n3) data q) as (reqs & q' & E & H1 & H2); [|done|done|].
      { eapply good_ok. apply (dh_table _ (proj1 Hi3)). }
      exists reqs, q'. split_and!; try done. eapply response_answered; [|exact E]. apply Hd.
  - destruct Hr as [Hi3 Hq3].
    eapply wp_mono; [|apply (standalone_wp [] C (ev_tid r) (fun s => handle_standalone_response s _ _) n3 Hi3 Hq3 Hb2)].
    + cbv beta. intros _ n4 [H4 _]. by apply Hset.
    + intros s C' n4. apply standalone_response_wp.
Qed.

(** *** New queries *)

(** A query just made and polled. *)
Definition fresh_query (i : Z) (reqs : list QueryRequest) (q : Query) : Prop :=
  query_typed q /\ Forall request_sane reqs /\
  (live -> query_live i q /\ q_inflight q = length (query_reqs reqs) /\ q_commit_inflight q = length (commit_reqs reqs)).

Lemma poll_fresh params i t q :
  table_ok t -> query_typed q -> (live -> query_inv params [] [] 0 0 [] q) -> qp_id params = i ->
  fresh_query i (Query_poll_requests (Some t) q).1 (Query_poll_requests (Some t) q).2.
Proof.
  intros Ht Hq Hinv Hid. destruct (read_more_paid 2 t q Ht Hq) as (H1 & H2 & _). split_and!; [done..|].
  intros Hl. specialize (Hinv Hl). destruct (query_read_more_inv _ _ _ _ _ _ _ (Some t) Hinv) as [Hh Ha].
  unfold Query_poll_requests in *. destruct (Query_read_more (Some t) q) as [reqs q']. cbn [fst snd] in *.
  pose proof (qi_inflight _ _ _ _ _ _ _ Hinv) as H3. pose proof (qi_commit_inflight _ _ _ _ _ _ _ Hinv) as H4.
  destruct (handed_live i q _ _ _ _ _ _ _ _ _ _ Hh Ha Hid H3 H4) as (H5 & H6 & H7).
  cbn in H3, H4. split_and!; [done|lia|lia].
Qed.

Lemma new_query_inv_core id target internal command value concurrency commit own q' :
  same_core (Query_new id target internal command value concurrency commit own) q' ->
  (forall asked, addrs_inv asked (Query_new id target internal command value concurrency commit own) -> addrs_inv asked q') ->
  id_ok target -> (0 < concurrency)%nat ->
  query_inv (mkQueryParams id target internal command value K concurrency commit own) [] [] 0 0 [] q'.
Proof.
  intros Hs Ha Ht Hc. eapply query_inv_core; [exact Hs|apply Ha|].
  by apply (query_new_inv _ id target internal command value concurrency commit own eq_refl Ht Hc).
Qed.

(** A new query takes the next id. *)
Lemma inv_new P C i reqs q n :
  inv P (dn_active_queries n) none_due C n -> i = dn_next_query_id n -> fresh_query i reqs q ->
  inv P (<[i := q]> (dn_active_queries n)) (owed i reqs) C (with_next_query_id (i + 1) n) /\
  dn_active_queries n !! i = None.
Proof.
  intros [Hn Ha] -> (Hty & _ & Hq). set (i := dn_next_query_id n) in *.
  assert (dn_active_queries n !! i = None) as Hnew.
  { apply eq_None_not_Some. intros [q0 H0]. pose proof (dh_ids _ Hn i q0 H0) as Hlt. cbv beta in Hlt. lia. }
  split; [|done]. split.
  - destruct Hn. split; try done. cbn. eapply map_Forall_impl; [exact dh_ids0|]. cbv beta. intros; lia.
  - intros Hl Hk. cbn in Hk. destruct (Ha Hl Hk). destruct (Hq Hl) as (Hlive & Hi1 & Hi2). split; try done; cbn in *.
    + intros x v Hx. destruct (ac_queries0 x v Hx) as (H1 & H2 & H3). split_and!; [done..|].
      by apply lookup_insert_is_Some'; right.
    + assert (forall b, tracks i b (dn_tid_to_query n) = 0%nat) as Htr.
      { intros b. unfold tracks. destruct (filter _ _) as [|[x v] l] eqn:E; [done|exfalso].
        assert ((x, v) ∈ filter (fun p => p.2 = (i, b)) (map_to_list (dn_tid_to_query n))) as Hin by (rewrite E; by left).
        apply list_elem_of_filter in Hin as [Hv Hx%elem_of_map_to_list]. cbn in Hv. subst v.
        destruct (ac_queries0 x _ Hx) as (_ & _ & [q0 H0]). cbn in H0. congruence. }
      intros j qj [[<- <-]|[Hji Hj]]%lookup_insert_Some.
      * split_and!; [done|lia|]. intros b. rewrite Htr. unfold owed, due_to. rewrite bool_decide_true by done.
        by destruct b.
      * destruct (ac_live0 j qj Hj) as (H1 & H2 & H3). split_and!; [done|lia|]. intros b. rewrite H3.
        unfold owed, due_to. by rewrite bool_decide_false.
    + eapply Forall_impl; [exact ac_forwarders0|]. cbv beta. intros f [Hf|Hf]; [left|by right].
      by apply lookup_insert_is_Some'; right.
Qed.

(** Its requests are sent, then it is kept. *)
Definition sent_new (P C : list Z) (i : Z) (q : Query) (n n2 : DhtNode) : Prop :=
  inv P (<[i := q]> (dn_active_queries n)) none_due C n2 /\ place n2 = place (with_next_query_id (i + 1) n) /\
  query_typed q /\ dn_active_queries n !! i = None.
Lemma dispatch_new_wp P C now i reqs q n :
  inv P (dn_active_queries n) none_due C n -> i = dn_next_query_id n -> fresh_query i reqs q ->
  wp (dispatch_query_requests send_ok now i reqs) (with_next_query_id (i + 1) n) (fun _ => sent_new P C i q n).
Proof.
  intros Hi Hx Hq. destruct (inv_new P C i reqs q n Hi Hx Hq) as [Hi1 Hnew].
  eapply wp_mono; [|apply dispatch_wp; [exact Hi1|by rewrite lookup_insert_eq|apply Hq]]. cbv beta.
  intros _ n2 (Hi2 & Hp2 & _). split_and!; [done|done|apply Hq|done].
Qed.
Lemma keep_query P C i q n n2 :
  sent_new P C i q n n2 -> (boot n \/ (dn_bootstrapped n = false /\ dn_bootstrap_query_id n = Some i /\ q_finished q = false)) ->
  let n' := with_active_queries (<[i := q]> (dn_active_queries n2)) n2 in
  settled P C n n' /\ is_Some (dn_active_queries n' !! i).
Proof.
  intros (Hi2 & Hp2 & Hty & Hnew) Hb. injection Hp2 as Ha2 Hb2 Hq2 Hw2 Hg2 Hd2 Ht2 Hk2 Hx2. cbv zeta.
  split; [split_and!|].
  - cbn. rewrite Ha2. destruct Hi2 as [Hn2 Hac2]. split; [|exact Hac2]. destruct Hn2. split; try done; cbn.
    + rewrite Ha2 in *. by apply map_Forall_insert_2.
    + rewrite Ha2 in *. apply map_Forall_insert_2; [|done]. rewrite Hx2. lia.
  - unfold boot. cbn. rewrite Hb2, Hw2, Hq2, Ha2. destruct Hb as [Hb|(Eb & Eq & Ef)].
    + unfold boot in Hb. destruct (dn_bootstrapped n); [done|]. destruct Hb as (j & qj & Hj & Hl & Hf).
      exists j, qj. rewrite lookup_insert_ne by (intros ->; congruence). done.
    + rewrite Eb. exists i, q. by rewrite lookup_insert_eq.
  - exact Hg2.
  - exact Hd2.
  - exists q. cbn. apply lookup_insert_eq.
Qed.

Lemma drop_new P C i q n n2 :
  sent_new P C i q n n2 -> q_finished q = true ->
  inv P (dn_active_queries n2) none_due C (with_dropped (dn_dropped n2 ++ [q]) n2).
Proof.
  intros ([Hn2 Ha2] & Hp2 & _ & Hnew) Hf. injection Hp2 as Ha2' _ _ _ _ _ _ _ _. split; [by destruct Hn2; split|].
  intros Hl Hk. rewrite Ha2'. rewrite <- (delete_insert_id (dn_active_queries n) i q Hnew).
  apply (acct_drop P _ C i q (ledger n2) (Ha2 Hl Hk)); [apply lookup_insert_eq|done].
Qed.

Lemma launch_wp P C now target internal command value concurrency commit n :
  inv P (dn_active_queries n) none_due C n -> boot n -> id_ok target -> in_u 64 command -> opt_ok fits value ->
  (live -> (0 < concurrency)%nat) ->
  wp (launch_query send_ok now target internal command value concurrency commit) n (fun i n' =>
    settled P C n n' /\ is_Some (dn_active_queries n' !! i)).
Proof.
  intros Hi Hb Ht Hc Hv Hcon. unfold launch_query. apply wp_bind, wp_get, wp_bind.
  rewrite (wp_eq _ _ _ _ _ (eq_refl : next_query n = (Ok (dn_next_query_id n), _))).
  set (i := dn_next_query_id n). set (q0 := Query_new _ _ _ _ _ _ _ _). cbv zeta.
  pose proof (good_ok _ _ _ (dh_table _ (proj1 Hi))) as Hto.
  pose proof (query_new_typed i target internal command value concurrency commit (t_id (dn_table n)) Ht Hc Hv) as Hty0.
  destruct (add_from_table_typed (dn_table n) q0 Hto Hty0) as [Hty1 _].
  destruct (add_from_table_spec (Some (dn_table n)) q0) as (Hs1 & Ha1 & _).
  pose proof (poll_fresh (mkQueryParams i target internal command value K concurrency commit (t_id (dn_table n))) i
    (dn_table n) _ Hto Hty1 (fun Hl => new_query_inv_core _ _ _ _ _ _ _ _ _ Hs1 Ha1 Ht (Hcon Hl)) eq_refl) as Hfq.
  destruct (Query_poll_requests _ _) as [reqs q]. cbn [fst snd] in Hfq. apply wp_bind.
  eapply wp_mono; [|apply (dispatch_new_wp P C now i reqs q n Hi eq_refl Hfq)]. cbv beta. intros _ n2 Hn2.
  apply wp_bind, wp_upd_node, wp_ret. by apply (keep_query P C i q n n2 Hn2 (or_introl Hb)).
Qed.

Lemma settled_trans P C n1 n2 n3 : settled P C n1 n2 -> settled P C n2 n3 -> settled P C n1 n3.
Proof. intros (_ & _ & H1 & H2) (H3 & H4 & H5 & H6). split_and!; [done|done|congruence..]. Qed.
(** Fields nothing depends on. *)
Lemma settled_inert P C n n' :
  inv P (dn_active_queries n) none_due C n -> boot n -> dht_ok n' -> ledger n' = ledger n -> core n' = core n ->
  settled P C n n'.
Proof.
  intros Hi Hb Hn Hl Hc. pose proof (boot_core _ _ Hc Hb). injection Hc as Ha _ _ _ Hg Hd.
  split_and!; try done. apply (inv_same _ _ _ _ n); [by rewrite Ha|done|done].
Qed.
Lemma settled_stable P C n n' :
  inv P (dn_active_queries n) none_due C n' -> boot n -> core n' = core n -> settled P C n n'.
Proof.
  intros Hi Hb Hc. pose proof (boot_core _ _ Hc Hb). injection Hc as Ha _ _ _ Hg Hd. split_and!; try done. by rewrite Ha.
Qed.

Lemma refresh_wp P C now n :
  inv P (dn_active_queries n) none_due C n -> boot n ->
  wp (run_refresh send_ok random_range now) n (fun _ n' => settled P C n n').
Proof.
  intros Hi Hb. unfold run_refresh. apply wp_bind, wp_upd_node. set (n1 := with_refresh_ticks _ n).
  assert (inv P (dn_active_queries n1) none_due C n1) as Hi1.
  { apply (inv_same _ _ _ _ n); [done| |done]. destruct Hi as [[] _]. by split. }
  apply wp_bind, wp_get, wp_bind, wp_table.
  eapply wp_mono; [|apply (random_wp blake2b (dn_tick n1)); [apply (dh_table _ (proj1 Hi1))|apply rng_ok]].
  cbv beta. intros r t [-> Hr]. rewrite with_table_same. cbv zeta. apply wp_bind.
  eapply wp_mono; [|apply (launch_wp P C); try done]; cbv beta.
  - intros i n2 [Hs2 _]. apply wp_ret. exact Hs2.
  - destruct r as [nd|]; [|apply (dh_table _ (proj1 Hi1))]. by eapply known_id_ok, Hr.
  - intros _. lia.
Qed.

Lemma ping_some_wp P C now n :
  inv P (dn_active_queries n) none_due C n -> boot n ->
  wp (ping_some send_ok random_range now) n (fun _ n' => settled P C n n').
Proof.
  intros Hi Hb. unfold ping_some. apply wp_bind, wp_get. cbv zeta. destruct (RoutingTable_is_empty _).
  { by apply refresh_wp. }
  set (own := t_id (dn_table n)). set (l := take _ _).
  set (good := fun nd => known blake2b own (dn_tick n) nd /\ n_pinged_tick nd < dn_tick n).
  assert (Forall good l) as Hl.
  { apply Forall_take. unfold sort_by_key. set (l0 := filter _ _).
    assert (Forall good l0) as H0.
    { apply Forall_forall. intros nd [Hp Hnd]%list_elem_of_filter.
      split; [|apply Is_true_true in Hp; by apply Z.ltb_lt in Hp]. revert nd Hp Hnd. clear l0.
      assert (Forall (known blake2b own (dn_tick n)) (RoutingTable_closest (dn_table n) own
        (Nat.min (Z.to_nat (RoutingTable_len (dn_table n))) 50))) as Hcl
        by (apply good_closest; apply (dh_table _ (proj1 Hi))).
      rewrite Forall_forall in Hcl. auto. }
    clearbody l0. clear Hi Hb l. assert (Forall good []) as Hnil by done. revert Hnil.
    generalize (@nil Node). induction H0 as [|nd l0 Hnd _ IH]; intros acc Hacc; cbn [foldl]; [done|]. apply IH.
    clear -Hnd Hacc. induction Hacc as [|m acc Hm Hacc IHa]; cbn [insert_by_key]; [by constructor|].
    destruct (_ <? _); constructor; try done; by constructor. }
  clearbody l. eapply (wp_mono _ _ (fun _ n' => inv P (dn_active_queries n) none_due C n' /\ stable n n')).
  { cbv beta. intros _ n' [Hi' (Hc' & _)]. by apply settled_stable. }
  apply wp_for_m; [done|]. intros nd n1 Hnd [Hi1 Hs1]. rewrite Forall_forall in Hl. destruct (Hl nd Hnd) as [Hkn Hpt]. clear Hl.
  pose proof Hs1 as (Hc1 & Ho1 & Ht1). unfold ping_node. apply wp_bind, wp_get, wp_bind.
  eapply wp_mono; [|apply (get_mut_node_wp P (dn_active_queries n) none_due C); [exact Hi1|by eapply known_id_ok|]].
  2: { apply set_pinged_touches, (dh_tick _ (proj1 Hi1)). }
  cbv beta. intros _ n2 (Hi2 & Hs2 & _). pose proof Hs2 as (_ & _ & Ht2).
  eapply wp_mono; [|apply (check_request_wp P (dn_active_queries n) C now _ (SCheck (n_id nd) (n_seen_tick nd)) n2 Hi2); try done].
  - cbv beta. intros _ n3 [Hi3 Hp3]. split; [done|]. eapply stable_trans; [exact Hs1|]. eapply stable_trans; [exact Hs2|].
    unfold place, stable in *. injection Hp3 as ? ? ? ? ? ? ? ? ?. split_and!; congruence || (unfold core; congruence).
  - by eapply ping_params.
  - split; [by eapply known_id_ok|]. pose proof (kn_ticks _ _ _ _ Hkn). rewrite Ht2, Ht1. lia.
Qed.
Lemma land7 x : 0 <= x -> 0 <= 8 - Z.land x 7.
Proof. intros Hx. change 7 with (Z.ones 3). rewrite Z.land_ones by lia. pose proof (Z.mod_pos_bound x (2 ^ 3)). lia. Qed.

Lemma tick_wp P C now n :
  inv P (dn_active_queries n) none_due C n -> boot n ->
  wp (handle_tick send_ok random_range now) n (fun _ n' => settled P C n n').
Proof.
  intros Hi Hb. unfold handle_tick. apply wp_bind, wp_upd_node. set (n1 := with_down_hints_per_tick _ _).
  assert (dn_tick n <= dn_tick n1 /\ ledger n1 = ledger n /\ core n1 = core n /\ dn_table n1 = dn_table n /\
    dn_addr_samples n1 = dn_addr_samples n /\ dn_deferred_replies n1 = dn_deferred_replies n /\
    dn_tasks n1 = dn_tasks n /\ dn_down_hints_per_tick n1 = 0 /\ dn_io n1 = dn_io n) as (Ht & Hl & Hc & Htb & Hsa & Hde & Hta & Hdh & Hio).
  { unfold n1. cbv zeta. pose proof (dh_tick _ (proj1 Hi)). destruct (_ <? _); cbn; split_and!; try done; [|lia].
    pose proof (land7 (dn_tick n + 2 * OLD_NODE)) as H7. unfold OLD_NODE in *. lia. }
  clearbody n1. assert (settled P C n n1) as Hs1.
  { apply settled_inert; try done. destruct Hi as [[] _]. injection Hc as Ha Hbb Hbq Hw Hg Hd. injection Hl as _ _ _ Hlq Hls Hln _ _ _ _.
    split; rewrite ?Htb, ?Hsa, ?Hde, ?Hta, ?Hdh, ?Ha, ?Hls, ?Hln, ?Hbb, ?Hio; try done; try lia.
    - by eapply good_later.
    - eapply map_Forall_impl; [exact dh_standalone0|]. cbv beta. intros x s. destruct s; try done.
      + intros (Hk & Hid & Hlt). split_and!; [by eapply known_later|done|lia].
      + intros [Hid Hlt]. split; [done|lia]. }
  apply wp_bind, wp_get. destruct (dn_bootstrapped n1); cbn [negb]; [|by apply wp_ret].
  apply wp_bind. destruct Hs1 as (Hi1 & Hb1 & Hg1 & Hd1).
  eapply (wp_mono _ _ (fun _ n' => settled P C n n')).
  2: { destruct (_ =? 0); [|by apply wp_ret]. eapply wp_mono; [|by apply ping_some_wp]. cbv beta. intros _ n2 H2.
       eapply settled_trans; [|exact H2]. by split_and!. }
  cbv beta. intros _ n2 (Hi2 & Hb2 & Hg2 & Hd2). apply wp_bind, wp_upd_node, wp_bind, wp_get.
  set (n3 := with_refresh_ticks _ n2).
  assert (settled P C n n3) as Hs3.
  { eapply settled_trans; [split_and!; [exact Hi2|exact Hb2|done..]|]. apply settled_inert; try done.
    destruct Hi2 as [[] _]. by split. }
  destruct (_ =? 0); [|by apply wp_ret]. apply wp_bind, wp_upd_node. destruct Hs3 as (Hi3 & Hb3 & Hg3 & Hd3).
  assert (settled P C n3 (with_refresh_ticks REFRESH_TICKS n3)) as Hs4.
  { apply settled_inert; try done. destruct Hi3 as [[] _]. by split. }
  eapply wp_mono; [|apply (refresh_wp P C now _ (proj1 Hs4)), Hs4]. cbv beta. intros _ n5 H5.
  eapply settled_trans; [|exact H5]. eapply settled_trans; [|exact Hs4]. by split_and!.
Qed.

(** *** Datagrams *)

Lemma datagram_wp C now (m : IoM (option IoEvent)) data addr kind n :
  inv [] (dn_active_queries n) none_due C n -> boot n ->
  wp m (dn_io n) (datagram_reported blake2b mac fresh data addr kind (dn_io n)) ->
  wp (e ← io_do m; match e with Some event => handle_io_event blake2b mac fresh send_ok hash_iter now event
                                | None => mret tt end) n (fun _ n' => settled [] C n n').
Proof.
  intros Hi Hb Hm. apply wp_bind, wp_io. eapply wp_mono; [|exact Hm]. cbv beta.
  intros r io (Hio & Hmv & _ & Hr). destruct r as [[req|resp]|].
  - destruct Hr as (Hin & _ & rq & _ & Hev). cbn [handle_io_event].
    assert (inv [] (dn_active_queries n) none_due C (with_io io n)) as Hi1.
    { eapply inv_io; [done..|]. unfold tids. by rewrite Hin. }
    assert (req_ok req) as Hrq.
    { destruct Hev as [[E1 H1] H2 _ _ _ _ [E3 H3] [E4 H4] _]. split; [by rewrite E1|done|by rewrite E3|by rewrite E4]. }
    apply wp_bind. eapply wp_mono; [|apply add_node_wp_net; [exact Hi1|apply Hrq]]. cbv beta. intros _ n2 [Hi2 Hs2].
    eapply wp_mono; [|apply incoming_wp; [exact Hi2|exact Hrq]]. cbv beta. intros _ n3 [Hi3 Hs3].
    apply settled_stable; [done|done|]. by destruct (stable_trans _ _ _ Hs2 Hs3).
  - destruct Hr as (_ & res & e & _ & Hev & Hp). cbn [handle_io_event].
    assert (inv [ev_tid resp] (dn_active_queries n) none_due C (with_io io n)) as Hi1.
    { eapply inv_io; [done..|]. unfold tids. rewrite app_nil_r, Hp. cbn.
      rewrite (rp_tid _ _ _ _ Hev). by rewrite Permutation_app_comm. }
    apply (response_wp C now resp (with_io io n) Hi1 Hb).
    destruct Hev as [_ H1 [E2 H2] [E3 H3] [E4 [_ H4]] _ _ _ _]. split; [done|by rewrite E2|by rewrite E3|by rewrite E4].
  - apply wp_ret. apply settled_stable; [|done|done]. eapply inv_io; [done..|]. unfold tids. by rewrite Hr.
Qed.

(** *** Commands *)

Definition cmd_ok (cmd : DhtCommand) : Prop :=
  match cmd with
  | CPing _ p _ => in_u 16 p
  | CFindNode target _ => id_ok target
  | CQuery q _ => id_ok (uq_target q) /\ in_u 64 (uq_command q) /\ opt_ok fits (uq_value q) /\
      (live -> uq_concurrency q <> Some 0%nat)
  | CRequest r _ p _ => in_u 16 p /\ opt_ok (fixed_ok 32) (up_token r) /\ in_u 64 (up_command r) /\
      opt_ok id_ok (up_target r) /\ opt_ok fits (up_value r) /\ opt_ok (fun k => 0 <= k) (up_retries r)
  | CRelay command target value to tid => in_u 64 command /\ opt_ok id_ok target /\ opt_ok fits value /\
      in_u 16 (port to) /\ opt_ok (in_u 16) tid
  | CSendReplyTo tid target to value => in_u 16 tid /\ opt_ok id_ok target /\ opt_ok fits value /\ in_u 16 (port to)
  | CInboundReplyBytes addr data => addr_ok addr /\ bytes_ok data
  | CPingViaSocket target _ => in_u 16 (port target)
  | _ => True
  end.
(** The channel a command is answered on. *)
Definition cmd_txs (cmd : DhtCommand) : list Z :=
  match cmd with
  | CBootstrapped tx | CPing _ _ tx | CFindNode _ tx | CQuery _ tx | CRequest _ _ _ tx | CSubscribeRequests tx
  | CTableSize tx | CDestroy tx | CLocalPort tx | CTableId tx | CServerSocket tx | CListenSocket tx
  | CRemoteAddress tx | CPingViaSocket _ tx => [tx]
  | CRelay _ _ _ _ _ | CSendReplyTo _ _ _ _ | CInboundReplyBytes _ _ => []
  end.

Lemma cmd_target t tick : table_good blake2b tick t -> opt_ok id_ok (Some (t_id t)).
Proof. intros Ht. apply opt_some, Ht. Qed.

(** A request some caller waits for. *)
Lemma caller_created_wp C (m : NodeM (option Z)) s tx failed n :
  inv [] (dn_active_queries n) none_due C n -> boot n -> tx_of s = [tx] ->
  (forall own tick, standalone_ok own tick s) -> is_reping s = false ->
  wp m n (fun r n' => inv [] (dn_active_queries n) none_due C n' /\ (exists io, n' = with_io io n) /\
    match r with Some tid => live -> io_taken (dn_io n') <= 65536 -> untracked tid (ledger n') | None => True end) ->
  wp (tid ← m; match tid with Some tid => track_standalone tid s | None => answer tx failed end) n
    (fun _ n' => settled [] (tx :: C) n n').
Proof.
  intros Hi Hb Htx Hs Hr Hm. apply wp_bind. eapply wp_mono; [|exact Hm]. cbv beta.
  intros r n1 (Hi1 & [io ->] & Hu). destruct r as [tid|].
  - apply wp_upd_node. apply settled_stable; [|done|done].
    pose proof (track_standalone_inv [] _ none_due C tid s _ Hi1 (Hs _ _) (fun _ => Hr) Hu) as Hi2. by rewrite Htx in Hi2.
  - eapply wp_mono; [|by apply answer_wp]. cbv beta. intros _ n2 (Hi2 & Hc2 & _). by apply settled_stable.
Qed.

Lemma node_create_io C now p n :
  inv [] (dn_active_queries n) none_due C n -> params_ok p ->
  wp (node_create send_ok now p) n (fun r n' => inv [] (dn_active_queries n) none_due C n' /\ (exists io, n' = with_io io n) /\
    match r with Some tid => live -> io_taken (dn_io n') <= 65536 -> untracked tid (ledger n') | None => True end).
Proof.
  intros Hi Hp. eapply wp_mono; [|by apply node_create_wp]. cbv beta. intros r n' (H1 & H2 & _ & _ & H3). by split_and!.
Qed.

Lemma answer_now C tx a n :
  inv [] (dn_active_queries n) none_due C n -> boot n ->
  wp (answer tx a ;; mret false) n (fun stop n' => stop = false /\ settled [] (tx :: C) n n').
Proof.
  intros Hi Hb. apply wp_bind. eapply wp_mono; [|by apply answer_wp]. cbv beta. intros _ n1 (Hi1 & Hc1 & _). apply wp_ret.
  split; [done|]. by apply settled_stable.
Qed.

(** A new query whose result goes to [tx]. *)
Lemma start_query_wp C now target internal command value commit concurrency tx n :
  inv [] (dn_active_queries n) none_due C n -> boot n -> id_ok target -> in_u 64 command -> opt_ok fits value ->
  (live -> (0 < default (cfg_concurrency (dn_config n)) concurrency)%nat) ->
  wp (start_query send_ok now target internal command value commit concurrency tx) n
    (fun _ n' => settled [] (tx :: C) n n').
Proof.
  intros Hi Hb Ht Hc Hv Hcon. unfold start_query. apply wp_bind, wp_get, wp_bind.
  eapply wp_mono; [|by apply (launch_wp [] C)]. cbv beta. intros i n1 [(Hi1 & Hb1 & Hg1 & Hd1) Hsome].
  apply wp_upd_node. split_and!; [|done..]. destruct Hi1 as [Hn1 Ha1]. split; [by destruct Hn1; split|].
  intros Hl Hk. destruct (Ha1 Hl Hk). split; try done; cbn in *.
  - apply Forall_app. split; [done|]. constructor; [by left|done].
  - unfold callers in *. cbn in *. rewrite fmap_app, <- ac_callers0. cbn. rewrite <- !app_assoc. cbn.
    by rewrite !Permutation_middle.
Qed.

Lemma find_node_u64 : in_u 64 CMD_FIND_NODE.
Proof. clear. unfold CMD_FIND_NODE, command_code, in_u. lia. Qed.

Lemma command_wp C now cmd n :
  inv [] (dn_active_queries n) none_due C n -> boot n -> cmd_ok cmd ->
  (live -> (0 < cfg_concurrency (dn_config n))%nat) ->
  wp (handle_command blake2b mac fresh send_ok hash_iter now cmd) n (fun stop n' =>
    if stop then dn_destroyed n' = true else settled [] (cmd_txs cmd ++ C) n n').
Proof.
  intros Hi Hb Hc Hcon. unfold handle_command. apply wp_bind, wp_get.
  pose proof (dh_table _ (proj1 Hi)) as Htg. pose proof (good_ok _ _ _ Htg) as Hto.
  pose proof (cmd_target _ _ Htg) as Htgt. pose proof find_node_u64 as Hfn.
  assert (forall (m : NodeM unit) Q, wp m n (fun _ n' => Q n') -> wp (m ;; mret false) n (fun (stop : bool) n' =>
    if stop then dn_destroyed n' = true else Q n')) as Hret.
  { intros m Q Hm. apply wp_bind. eapply wp_mono; [|exact Hm]. cbv beta. intros _ n' Hn'. by apply wp_ret. }
  assert (forall tx a, wp (answer tx a ;; mret false) n (fun (stop : bool) n' =>
    if stop then dn_destroyed n' = true else settled [] ([tx] ++ C) n n')) as Hnow.
  { intros tx a. eapply wp_mono; [|by apply answer_now]. cbv beta. by intros stop n' [-> Hn']. }
  destruct cmd as [tx|h p tx|target tx|q tx|r h p tx|command target value to tid|tid target to value|tx|tx|tx|tx|tx|tx|tx|tx
    |addr data|target tx]; cbn [cmd_txs cmd_ok] in *; try by apply Hnow.
  - destruct (dn_bootstrapped n) eqn:Eb; [by apply Hnow|]. apply Hret, wp_upd_node. split_and!; try done.
    + destruct Hi as [Hn Ha]. split; [by destruct Hn; split|]. intros Hl Hk. destruct (Ha Hl Hk). split; try done.
      unfold callers in *. cbn in *. rewrite <- ac_callers0. solve_Permutation.
    + unfold boot in *. cbn. by rewrite Eb in *.
  - apply Hret, caller_created_wp; try done. apply node_create_io; [done|]. by apply internal_ok.
  - by apply Hret, start_query_wp.
  - destruct Hc as (H1 & H2 & H3 & H4). apply Hret, start_query_wp; try done. cbn. intros Hl. specialize (H4 Hl).
    specialize (Hcon Hl). destruct (uq_concurrency q) as [[|k]|]; cbn; [done|lia|done].
  - destruct Hc as (H1 & H2 & H3 & H4 & H5 & H6). apply Hret, caller_created_wp; try done. by apply node_create_io.
  - destruct Hc as (H1 & H2 & H3 & H4 & H5). apply wp_bind, wp_io. eapply wp_mono; [|by apply relay_spec; [apply Hi|..]]. cbv beta.
    intros _ io (Hio & Hm & Hn). apply wp_ret. apply settled_stable; [|done|done]. eapply inv_io; [done..|].
    unfold tids. by rewrite (nr_inflight _ _ Hn).
  - destruct Hc as (H1 & H2 & H3 & H4). apply wp_bind, wp_io.
    eapply wp_mono; [|by apply (reply_to_spec mac fresh send_ok mac_len fresh_len); [apply Hi|..]]. cbv beta.
    intros _ io Hq. apply wp_ret. apply settled_stable; [|done|done]. by apply inv_quiet.
  - apply wp_bind, wp_upd_node. set (n1 := with_request_subscribers _ n).
    assert (settled [] C n n1) as (Hi1 & Hb1 & _).
    { apply settled_inert; try done. destruct Hi as [[] _]. by split. }
    eapply wp_mono; [|by apply (answer_now C)]. cbv beta. intros stop n2 [-> Hn2]. exact Hn2.
  - apply wp_bind, wp_upd_node, wp_bind, wp_upd_node, wp_ret. done.
  - destruct Hc as [H1 H2]. apply wp_bind_assoc. eapply wp_mono; [|eapply datagram_wp; [exact Hi|exact Hb|]].
    + cbv beta. intros _ n' Hn'. by apply wp_ret.
    + apply (handle_inbound_spec blake2b mac fresh send_ok mac_len fresh_len); try done. apply Hi.
  - apply wp_bind_assoc. eapply wp_mono; [|apply caller_created_wp; try done].
    + cbv beta. intros _ n' Hn'. by apply wp_ret.
    + apply wp_io. eapply wp_mono; [|apply send_request_via_spec; [apply Hi|done|by apply internal_ok]]. cbv beta.
      intros r io Hcr. destruct (inv_created _ _ _ _ _ _ _ _ _ n Hi Hcr) as [H1 H2].
      split_and!; [done|by exists io|by destruct r].
Qed.

(** *** Turns and runs *)

Definition event_typed (ev : NodeEvent) : Prop :=
  match ev with
  | NDatagram _ data addr _ => bytes_ok data /\ addr_ok addr
  | NCommand _ cmd => cmd_ok cmd
  | NTask _ outcome => opt_ok (fun ev => in_u 64 ev.1 /\ opt_ok fits ev.2) outcome
  | _ => True
  end.
Definition event_txs (ev : NodeEvent) : list Z := match ev with NCommand _ cmd => cmd_txs cmd | _ => [] end.

Lemma task_deferred task outcome :
  task_ok task -> opt_ok (fun ev : Z * option (list Z) => in_u 64 ev.1 /\ opt_ok fits ev.2) outcome ->
  Forall deferred_ok (task_done task outcome).
Proof.
  clear. intros Ht Ho. destruct task as [due reply|from ctx tid target]; cbn in *; [by constructor|].
  destruct Ht as (H1 & H2 & H3). destruct outcome as [[e v]|].
  - destruct (Ho _ eq_refl) as [He Hv]. destruct (e =? _); [done|]. constructor; [by split|done].
  - constructor; [|done]. by split.
Qed.

(** The timeouts of one wake-up: with something due, less is left to do. *)
Lemma timeouts_wp C now n :
  inv [] (dn_active_queries n) none_due C n -> boot n ->
  wp (timeouts ← io_do (check_timeouts send_ok now); for_m timeouts (handle_timeout blake2b send_ok hash_iter now)) n
    (fun _ n' => settled [] C n n' /\ (io_inflight (dn_io n) = [] -> io_inflight (dn_io n') = []) /\
      (Exists (fun e => ie_deadline e <= now) (io_inflight (dn_io n)) -> (weight n' < weight n)%nat)).
Proof.
  intros Hi Hb. pose proof (dh_io _ (proj1 Hi)) as Hio. apply wp_bind, wp_io.
  eapply wp_mono; [|by apply check_timeouts_spec]. cbv beta. intros evs io (-> & Hio' & Hm & _ & Hp).
  destruct (tries_step now (io_inflight (dn_io n))) as [_ Hlt].
  destruct (decide (io_inflight (dn_io n) = [])) as [E|Hne].
  { rewrite E in *. cbn in Hp. apply Permutation_nil_r in Hp. apply wp_ret. split_and!; try done.
    - apply settled_stable; [|done|done]. apply (inv_io [] []); [done|done|done|]. unfold tids. by rewrite Hp, E.
    - by inversion 1. }
  assert (inv (te_tid <$> (timeout_of <$> reverse (filter (fun e => expired now e) (io_inflight (dn_io n)))))
    (dn_active_queries n) none_due C (with_io io n)) as Hi1.
  { eapply inv_io; [done..|]. unfold tids. rewrite Hp, retried_tids, <- list_fmap_compose, app_nil_r.
    rewrite (filter_perm (expired now) (io_inflight (dn_io n))) at 3. rewrite fmap_app, Permutation_app_comm.
    by rewrite reverse_Permutation. }
  eapply wp_mono; [|apply (handle_timeouts_wp C now _ (with_io io n) Hi1 Hb)]. cbv beta. intros _ n2 [H2 Hw2].
  split_and!; [exact H2|done|]. intros Hex. specialize (Hlt Hex).
  rewrite <- (sum_list_perm tries _ _ Hp) in Hlt. eapply Nat.le_lt_trans; [exact Hw2|]. unfold weight, load, total_tries.
  cbn [dn_io with_io dn_down_hints_per_tick dn_active_queries]. lia.
Qed.

Lemma turn_wp C ev n :
  inv [] (dn_active_queries n) none_due C n -> boot n -> event_typed ev ->
  (live -> (0 < cfg_concurrency (dn_config n))%nat) ->
  wp (node_turn blake2b mac fresh send_ok random_range hash_iter ev) n (fun _ n' =>
    dn_destroyed n' = true \/ settled [] (event_txs ev ++ C) n n').
Proof.
  intros Hi Hb He Hcon. unfold node_turn. apply wp_bind, wp_get.
  pose proof (good_ok _ _ _ (dh_table _ (proj1 Hi))) as Hto. pose proof (dh_io _ (proj1 Hi)) as Hio.
  destruct ev as [now data addr kind|now|now|now| |now cmd|i outcome|sub]; cbn [event_txs event_typed app] in *.
  - destruct He as [Hd Ha]. eapply wp_mono; [|eapply datagram_wp; [exact Hi|exact Hb|]]; [cbv beta; by right|].
    by apply (Io_recv_spec blake2b mac fresh send_ok mac_len fresh_len).
  - apply wp_io. eapply wp_mono; [|by apply (drain_spec mac send_ok mac_len)]. cbv beta.
    intros _ io (Hio' & Hm & _ & Hs & _). right. apply settled_stable; [|done|done]. eapply inv_io; [done..|].
    unfold tids. by rewrite (sent_again_tids _ _ _ Hs).
  - eapply wp_mono; [|by apply (timeouts_wp C)]. cbv beta. intros _ n2 [H2 _]. by right.
  - eapply wp_mono; [|by apply tick_wp]. cbv beta. by right.
  - destruct (dn_deferred_replies n) as [|reply rest] eqn:Ed; [apply wp_ret; right; by split_and!|].
    apply wp_bind, wp_upd_node. pose proof (dh_deferred _ (proj1 Hi)) as Hdf. rewrite Ed in Hdf. inv Hdf as [|? ? Hr Hrest].
    set (n1 := with_deferred_replies rest n).
    assert (settled [] C n n1) as (Hi1 & Hb1 & _) by (apply settled_inert; try done; destruct Hi as [[] _]; by split).
    unfold handle_deferred_reply, send_reply_deferred. apply wp_bind, wp_get, wp_io. destruct Hr.
    eapply wp_mono; [|by apply (send_reply_spec mac fresh send_ok mac_len fresh_len)]. cbv beta.
    intros _ io (Hq & _). right. apply settled_stable; [|done|done]. by apply (inv_quiet _ _ _ _ _ n1).
  - apply wp_bind. eapply wp_mono; [|by apply command_wp]. cbv beta. intros [|] n1 Hn1.
    + apply wp_io, wp_upd. by left.
    + apply wp_ret. by right.
  - destruct (dn_tasks n !! i) as [task|] eqn:Et; [|apply wp_ret; right; by split_and!]. apply wp_upd_node. right.
    pose proof (dh_tasks _ (proj1 Hi)) as Hta. pose proof (Forall_lookup_1 _ _ _ _ Hta Et) as Htk.
    apply settled_inert; try done. destruct Hi as [[] _]. split; try done; cbn.
    + apply Forall_app. split; [done|]. by apply task_deferred.
    + apply Forall_app. split; [by apply Forall_take|by apply Forall_drop].
  - apply wp_upd_node. right. apply settled_inert; try done. destruct Hi as [[] _]. by split.
Qed.

(** The node between two turns. *)
Definition node_inv (C : list Z) (n : DhtNode) : Prop :=
  dn_destroyed n = true \/
  (inv [] (dn_active_queries n) none_due C n /\ boot n /\ (live -> (0 < cfg_concurrency (dn_config n))%nat)).

Lemma step_wp C ev n : node_inv C n -> event_typed ev ->
  wp (node_step blake2b mac fresh send_ok random_range hash_iter ev) n (fun _ n' => node_inv (event_txs ev ++ C) n').
Proof.
  intros Hn He. unfold node_step. apply wp_bind, wp_get. destruct (dn_destroyed n) eqn:Ed; [apply wp_ret; by left|].
  destruct Hn as [Hn|(Hi & Hb & Hc)]; [congruence|]. eapply wp_mono; [|by apply turn_wp]. cbv beta.
  intros _ n' [?|(Hi' & Hb' & Hg' & _)]; [by left|right]. split_and!; [done|done|by rewrite Hg'].
Qed.
Lemma run_wp evs : forall C n, node_inv C n -> Forall event_typed evs ->
  wp (node_run blake2b mac fresh send_ok random_range hash_iter evs) n (fun _ n' =>
    exists C', C' ≡ₚ (evs ≫= event_txs) ++ C /\ node_inv C' n').
Proof.
  unfold node_run. induction evs as [|ev evs IH]; intros C n Hn He; cbn [for_m]; [apply wp_ret; by exists C|].
  inv He as [|? ? He0 He']. apply wp_bind. eapply wp_mono; [|by apply step_wp]. cbv beta. intros _ n1 Hn1.
  eapply wp_mono; [|by apply IH]. cbv beta. intros _ n2 (C' & HC & Hn2). exists C'. split; [|done]. rewrite HC. cbn.
  solve_Permutation.
Qed.

(** *** The start *)

Definition boot_nodes (config : DhtConfig) : list (string * Z) := omap parse_bootstrap_str (cfg_bootstrap config).

Lemma start_bootstrap_wp C now n :
  inv [] (dn_active_queries n) none_due C n -> dn_bootstrapped n = false ->
  Forall (fun hp => peer_ok (mkPeer hp.1 hp.2)) (boot_nodes (dn_config n)) ->
  (live -> (0 < cfg_concurrency (dn_config n))%nat) ->
  wp (start_bootstrap blake2b send_ok hash_iter now (t_id (dn_table n))) n (fun _ n' => settled [] C n n').
Proof.
  intros Hi Hb Hbn Hcon. unfold start_bootstrap. apply wp_bind, wp_get. cbv zeta. apply wp_bind.
  rewrite (wp_eq _ _ _ _ _ (eq_refl : next_query n = (Ok (dn_next_query_id n), _))).
  set (i := dn_next_query_id n). apply wp_bind, wp_upd_node. set (q0 := Query_new _ _ _ _ _ _ _ _).
  set (n0 := with_bootstrap_query_id (Some i) n). change (with_bootstrap_query_id (Some i) _) with (with_next_query_id (i + 1) n0).
  assert (inv [] (dn_active_queries n0) none_due C n0) as Hi0.
  { apply (inv_same _ _ _ _ n); [done| |done]. destruct Hi as [[] _]. by split. }
  pose proof (dh_table _ (proj1 Hi)) as Htg. pose proof (good_ok _ _ _ Htg) as Hto.
  assert (id_ok (t_id (dn_table n))) as Hid by apply Htg.
  assert (query_typed q0) as Hty0 by (by apply query_new_typed; [|apply find_node_u64|]).
  destruct (add_from_table_typed (dn_table n) q0 Hto Hty0) as [Hty1 _].
  destruct (add_from_table_spec (Some (dn_table n)) q0) as (Hs1 & Ha1 & _).
  destruct (add_nodes_typed blake2b (boot_nodes (dn_config n)) _ Hbn Hty1) as (q2 & Eq2 & Hty2).
  pose proof (add_nodes_adds _ _ _ _ Eq2) as [Hs2 _ Ha2].
  apply wp_bind. unfold pure_do at 1. unfold boot_nodes in Eq2. rewrite Eq2. apply (wp_ret q2).
  pose proof (poll_fresh (mkQueryParams i (t_id (dn_table n)) true CMD_FIND_NODE None K (cfg_concurrency (dn_config n)) false
    (t_id (dn_table n))) i (dn_table n) _ Hto Hty2 (fun Hl => new_query_inv_core _ _ _ _ _ _ _ _ _
      (same_core_trans _ _ _ Hs1 Hs2) (fun a Ha => Ha2 a (Ha1 a Ha)) Hid (Hcon Hl)) eq_refl) as Hfq.
  destruct (Query_poll_requests _ _) as [reqs q]. cbn [fst snd] in Hfq. apply wp_bind.
  eapply wp_mono; [|apply (dispatch_new_wp [] C now i reqs q n0 Hi0 eq_refl Hfq)]. cbv beta. intros _ n2 Hn2.
  unfold Query_is_finished. destruct (q_finished q) eqn:Ef.
  2: { apply wp_upd_node. apply (keep_query [] C i q n0 n2 Hn2). right. by split_and!. }
  pose proof (drop_new [] C i q n0 n2 Hn2 Ef) as Hi3. destruct Hn2 as (_ & Hp2 & _ & Hnew).
  injection Hp2 as Ha2' Hb2 Hq2 Hw2 Hg2 Hd2 _ _ _. apply wp_bind, wp_upd_node.
  eapply wp_mono; [|apply (on_query_removed_wp [] C i _ Hi3)]; cbn [with_dropped dn_bootstrapped dn_bootstrap_query_id].
  - cbv beta. intros _ n4 (Hi4 & Hb4 & _ & Hg4 & Hd4 & _). split_and!; [done|done|by rewrite Hg4|by rewrite Hd4].
  - rewrite Hb2. congruence.
  - rewrite Hq2. done.
Qed.
End Rpc.
