(* ===== verification/RpcTheorems.v ===== *)
(** * RpcTheorems: what a DHT node guarantees

    Runs of a whole node, from [spawn] through any events its loop can see.
    The theorems hold for every hash, every random choice, every order of the
    hash maps and every network. *)

From S2P Require Import Prelude RustStd CompactEncoding Codec Messages Peer RoutingTable.
From S2P Require Import RoutingTableProofs RoutingTableTheorems HyperdhtMessages Persistent Router NatClassifier.
From S2P Require Import Io IoProofs IoTheorems Query QueryProofs QueryTheorems QueryTyped Rpc RpcProofs.

#[local] Open Scope Z_scope.

(** What [spawn] is given: [bootstrap] are the resolved names, [table_id] and
    [tid] are random, [local_port] is the port the socket got. *)
Record spawn_ok (config : DhtConfig) (bootstrap : list string) (table_id : NodeId) (tid local_port : Z) : Prop := {
  so_table : id_ok table_id;
  so_tid : in_u 16 tid;
  so_port : in_u 16 local_port;
  so_host : ipv4_host (cfg_host config) \/ cfg_host config = "::"%string;
  so_bootstrap : Forall (fun hp => peer_ok (mkPeer hp.1 hp.2)) (omap parse_bootstrap_str bootstrap)
}.

Section Rpc.
Context (blake2b : list Z -> list Z) (mac : list Z -> list Z -> list Z).
Context (fresh : list Z * list Z) (send_ok : list Z -> SocketAddr -> bool).
Context (random_range : Z -> nat -> nat -> nat) (hash_iter : gmap string Z -> list (string * Z)).
(** The hashes and secrets have 32 bytes, [random_range(0..n)] is below [n], a
    map is iterated entry by entry. *)
Hypothesis mac_len : forall k m, fixed_ok 32 (mac k m).
Hypothesis fresh_len : fixed_ok 32 fresh.1 /\ fixed_ok 32 fresh.2.
Hypothesis blake_len : forall m, fixed_ok 32 (blake2b m).
Hypothesis rng_ok : forall i call n, (0 < n)%nat -> (random_range i call n < n)%nat.
Hypothesis iter_perm : forall m, hash_iter m ≡ₚ map_to_list m.

(** [spawn] and the start of [run]. *)
Definition start_node (config : DhtConfig) (bootstrap : list string) (table_id : NodeId) (tid local_port now : Z)
    : outcome Empty_set DhtNode :=
  match spawn_table blake2b config table_id local_port with
  | Ok t => match run_start blake2b send_ok hash_iter now (spawn_node config bootstrap t tid local_port now) with
            | (Ok _, n) => Ok n
            | _ => Panic
            end
  | _ => Panic
  end.
#[local] Abbreviation run := (node_run blake2b mac fresh send_ok random_range hash_iter).
#[local] Abbreviation step := (node_step blake2b mac fresh send_ok random_range hash_iter).

(** The loop on a silent network: it wakes at the next deadline, [d] late. *)
Fixpoint node_wakes (delays : list Z) : NodeM unit :=
  match delays with
  | [] => mret tt
  | d :: delays => n ← Prelude.get; step (NTimeouts (next_timeout_deadline 0 (dn_io n) + d)) ;; node_wakes delays
  end.

(** ** The start *)

Lemma spawn_table_good config bootstrap table_id tid port :
  spawn_ok config bootstrap table_id tid port ->
  exists t, spawn_table blake2b config table_id port = Ok t /\ table_good blake2b 0 t.
Proof.
  intros [Hid _ Hp Hh _]. unfold spawn_table. cbv zeta.
  assert (table_good blake2b 0 (RoutingTable_new table_id)) as Hg.
  { split; [by apply with_k_inv| |done]. unfold RoutingTable_new. rewrite with_k_map. apply map_Forall_empty. }
  destruct (negb _ && negb _) eqn:E; [|by eexists].
  apply andb_true_iff in E as [_ Hw%negb_true_iff]. apply orb_false_iff in Hw as [_ Hw%String.eqb_neq].
  destruct Hh as [Hh|?]; [|done].
  destruct (peer_id_ok blake2b blake_len (mkPeer (cfg_host config) port)) as (id & E & Hid'); [by split|].
  cbn in E. rewrite E.
  destruct (wp_inv _ _ _ (rebuild_wp blake2b blake_len 0 id _ Hg Hid')) as ([] & t & -> & Ht & _).
  by exists t.
Qed.

Lemma spawn_inv live config bootstrap t tid port now :
  table_good blake2b 0 t -> in_u 16 tid ->
  inv blake2b live [] ∅ none_due [] (spawn_node config bootstrap t tid port now).
Proof.
  intros Ht Htid. split.
  - split; cbn; try done; try apply map_Forall_empty. by apply io_new_ok.
  - intros _ _. split; cbn; try done; try (by intros ? ? Hx; rewrite lookup_empty in Hx). constructor.
Qed.

Lemma start_inv live config bootstrap table_id tid port now :
  spawn_ok config bootstrap table_id tid port -> (live -> (0 < cfg_concurrency config)%nat) ->
  exists n, start_node config bootstrap table_id tid port now = Ok n /\ dn_destroyed n = false /\
    node_inv blake2b live [] n.
Proof.
  intros Hs Hc. destruct (spawn_table_good _ _ _ _ _ Hs) as (t & Et & Ht). unfold start_node. rewrite Et.
  pose proof (spawn_inv live config bootstrap t tid port now Ht (so_tid _ _ _ _ _ Hs)) as Hi.
  assert (wp (run_start blake2b send_ok hash_iter now) (spawn_node config bootstrap t tid port now)
    (fun _ n' => settled blake2b live [] [] (spawn_node config bootstrap t tid port now) n')) as Hw.
  { unfold run_start. apply wp_bind, wp_get.
    apply (start_bootstrap_wp blake2b send_ok hash_iter blake_len iter_perm live []); try done. apply Hs. }
  apply wp_inv in Hw as ([] & n & -> & Hi' & Hb' & Hg' & Hd'). exists n. split_and!; [done|done|].
  right. split_and!; [done|done|]. by rewrite Hg'.
Qed.

(** A started node after some events. *)
Lemma reached live config bootstrap table_id tid port now evs :
  spawn_ok config bootstrap table_id tid port -> (live -> (0 < cfg_concurrency config)%nat) ->
  Forall (event_typed live) evs ->
  exists n0 n C, start_node config bootstrap table_id tid port now = Ok n0 /\ run evs n0 = (Ok tt, n) /\
    C ≡ₚ evs ≫= event_txs /\ node_inv blake2b live C n.
Proof.
  intros Hs Hc He. destruct (start_inv live _ _ _ _ _ now Hs Hc) as (n0 & E0 & _ & Hn0).
  destruct (wp_inv _ _ _ (run_wp blake2b mac fresh send_ok random_range hash_iter mac_len fresh_len blake_len rng_ok
    iter_perm live evs [] n0 Hn0 He)) as ([] & n & En & C & HC & Hn). rewrite app_nil_r in HC.
  by exists n0, n, C.
Qed.
(** The same, of the given states. *)
Lemma reached_inv live config bootstrap table_id tid port now evs n0 n :
  spawn_ok config bootstrap table_id tid port -> (live -> (0 < cfg_concurrency config)%nat) ->
  Forall (event_typed live) evs ->
  start_node config bootstrap table_id tid port now = Ok n0 -> run evs n0 = (Ok tt, n) -> dn_destroyed n = false ->
  exists C, C ≡ₚ evs ≫= event_txs /\ inv blake2b live [] (dn_active_queries n) none_due C n /\ boot n.
Proof.
  intros Hs Hc He E0 En Hd. destruct (reached live _ _ _ _ _ now evs Hs Hc He) as (n0' & n' & C & E0' & En' & HC & Hn).
  rewrite E0 in E0'. injection E0' as <-. rewrite En in En'. injection En' as <-.
  destruct Hn as [?|(Hi & Hb & _)]; [congruence|]. by exists C.
Qed.

(** ** Silence *)

Lemma wakes_wp live C delays : forall n,
  inv blake2b live [] (dn_active_queries n) none_due C n -> boot n -> dn_destroyed n = false ->
  Forall (fun d => 0 <= d) delays ->
  wp (node_wakes delays) n (fun _ n' => inv blake2b live [] (dn_active_queries n') none_due C n' /\ boot n' /\
    (io_inflight (dn_io n) = [] -> io_inflight (dn_io n') = []) /\
    (io_inflight (dn_io n') = [] \/ weight n' + length delays <= weight n)%nat).
Proof.
  induction delays as [|d delays IH]; intros n Hi Hb Hd Hdl; cbn [node_wakes].
  { apply wp_ret. split_and!; try done. right. cbn. lia. }
  inv Hdl as [|? ? Hd0 Hdl']. apply wp_bind, wp_get, wp_bind. unfold node_step. apply wp_bind, wp_get. rewrite Hd.
  unfold node_turn. apply wp_bind, wp_get. set (now := next_timeout_deadline 0 (dn_io n) + d).
  eapply wp_mono; [|by apply (timeouts_wp blake2b send_ok hash_iter blake_len iter_perm live C)]. cbv beta.
  intros _ n1 ((Hi1 & Hb1 & _ & Hd1) & Hnil & Hlt).
  eapply wp_mono; [|apply IH; [done|done|by rewrite Hd1|done]]. cbv beta. intros _ n2 (Hi2 & Hb2 & Hnil2 & Hw2).
  split_and!; [done|done|auto|].
  destruct (decide (io_inflight (dn_io n) = [])) as [E|Hne]; [left; auto|].
  specialize (Hlt (next_deadline_due 0 d _ Hne Hd0)). cbn [length]. destruct Hw2 as [?|Hw2]; [by left|right; lia].
Qed.

(** With nothing in flight, nothing is awaited. *)
Lemma quiet_books C n :
  inv blake2b True [] (dn_active_queries n) none_due C n -> io_taken (dn_io n) <= 65536 -> io_inflight (dn_io n) = [] ->
  map_Forall (fun _ q => query_over q) (dn_active_queries n) /\ dn_standalone_tids n = ∅ /\
  Forall query_over (dn_dropped n) /\
  Forall (fun f => is_Some (dn_active_queries n !! f.1) \/ exists q, q ∈ dn_dropped n /\ qp_id (q_params q) = f.1)
    (dn_forwarders n) /\ (dn_answers n).*1 ++ dn_bootstrap_waiters n ++ (dn_forwarders n).*2 ≡ₚ C.
Proof.
  intros [_ Ha] Hk E. destruct (Ha I Hk) as [_ _ Hnd _ Hqk Hsk Hlive Hdr Hfw Hcl]. cbn in *. unfold tids in *. rewrite E in *. cbn in *.
  assert (dn_tid_to_query n = ∅) as Eq.
  { apply map_empty. intros x. apply eq_None_not_Some. intros [v Hv]. destruct (Hqk x v Hv) as (Hin & _).
    by apply not_elem_of_nil in Hin. }
  assert (dn_standalone_tids n = ∅) as Es.
  { apply map_empty. intros x. apply eq_None_not_Some. intros [s Hs]. specialize (Hsk x s Hs).
    by apply not_elem_of_nil in Hsk. }
  split_and!; try done.
  - intros i q Hq. destruct (Hlive i q Hq) as (Hl & _ & Hout). eapply live_over; [exact Hl|]. intros b.
    rewrite Hout, Eq, tracks_empty. done.
  - unfold callers in Hcl. cbn in Hcl. rewrite Es in Hcl. unfold stand_txs in Hcl.
    rewrite map_to_list_empty in Hcl. cbn in Hcl. by rewrite app_nil_r in Hcl.
Qed.

(** ** Theorems *)

(** C10: whatever a started node meets - any datagrams, timeouts, ticks and
    commands, in any order - it never panics, and its routing table holds only
    nodes filed under the hash of their own IPv4 address, never the node's own
    id, each added, last seen and last pinged in this order and not in the
    future (so the tick differences the code takes never wrap). *)
Theorem node_never_panics config bootstrap table_id tid port now evs :
  spawn_ok config bootstrap table_id tid port -> Forall (event_typed False) evs ->
  exists n0 n, start_node config bootstrap table_id tid port now = Ok n0 /\ run evs n0 = (Ok tt, n) /\
    (dn_destroyed n = false ->
     table_inv (dn_table n) /\
     map_Forall (fun id nd => peer_id blake2b (n_host nd) (n_port nd) = Ok id /\ id <> t_id (dn_table n) /\
       0 <= n_added_tick nd <= n_seen_tick nd /\ n_seen_tick nd <= n_pinged_tick nd <= dn_tick n)
       (table_map (dn_table n))).
Proof.
  intros Hs He. destruct (reached False _ _ _ _ _ now evs Hs ltac:(done) He) as (n0 & n & C & E0 & En & _ & Hn).
  exists n0, n. split_and!; [done..|]. intros Hd. destruct Hn as [?|(Hi & _)]; [congruence|].
  destruct (dh_table _ _ (proj1 Hi)) as [Ht Hno _]. split; [done|]. intros id nd Hnd. specialize (Hno id nd Hnd).
  apply table_map_lookup in Hnd as [_ <-]; [|done]. by destruct Hno.
Qed.

(** C9: in the first 65536 requests of a node its books are exact after every
    event: no two requests in flight share a transaction id, whatever is mapped
    to one is in flight, a query waits for exactly as many answers and commits
    as are mapped to it, and the channel of every command is in one place: it
    was answered, or waits for the bootstrap, for a query's result or for a
    request in flight. *)
Theorem node_books_balance config bootstrap table_id tid port now evs n0 n :
  spawn_ok config bootstrap table_id tid port -> (0 < cfg_concurrency config)%nat -> Forall (event_typed True) evs ->
  start_node config bootstrap table_id tid port now = Ok n0 -> run evs n0 = (Ok tt, n) ->
  dn_destroyed n = false -> io_taken (dn_io n) <= 65536 ->
  NoDup (tids (dn_io n)) /\
  (forall x, is_Some (dn_tid_to_query n !! x) \/ is_Some (dn_standalone_tids n !! x) -> x ∈ tids (dn_io n)) /\
  (forall i q, dn_active_queries n !! i = Some q ->
     q_inflight q = tracks i false (dn_tid_to_query n) /\ q_commit_inflight q = tracks i true (dn_tid_to_query n)) /\
  (dn_answers n).*1 ++ dn_bootstrap_waiters n ++ (dn_forwarders n).*2 ++ stand_txs (dn_standalone_tids n)
    ≡ₚ evs ≫= event_txs.
Proof.
  intros Hs Hc He E0 En Hd Hk.
  destruct (reached_inv True _ _ _ _ _ now evs n0 n Hs ltac:(done) He E0 En Hd) as (C & HC & [_ Ha] & _).
  destruct (Ha I Hk) as [_ _ Hnd _ Hqk Hsk Hlive Hdr Hfw Hcl]. cbn in *. rewrite app_nil_r in *. split_and!; [done| | |by rewrite <- HC].
  - intros x [[v Hv]|[s Hs']]; [apply (Hqk x v Hv)|apply (Hsk x s Hs')].
  - intros i q Hq. destruct (Hlive i q Hq) as (_ & _ & Hout).
    pose proof (Hout false) as Hf. pose proof (Hout true) as Ht. unfold none_due in *. cbn in *. lia.
Qed.

(** C8: a node left alone comes to rest: on a network that has gone silent,
    after as many wake-ups at the next deadline as it has work left, nothing is
    in flight, the node is bootstrapped, every query has finished and delivered
    one result, and every command was answered exactly once, by the node or by
    the query it started. *)
Theorem silent_node_settles config bootstrap table_id tid port now evs delays n0 n1 :
  spawn_ok config bootstrap table_id tid port -> (0 < cfg_concurrency config)%nat -> Forall (event_typed True) evs ->
  start_node config bootstrap table_id tid port now = Ok n0 -> run evs n0 = (Ok tt, n1) -> dn_destroyed n1 = false ->
  Forall (fun d => 0 <= d) delays -> (weight n1 <= length delays)%nat ->
  exists n, node_wakes delays n1 = (Ok tt, n) /\ io_inflight (dn_io n) = [] /\
    (io_taken (dn_io n) <= 65536 ->
     dn_bootstrapped n = true /\
     map_Forall (fun _ q => query_over q) (dn_active_queries n) /\
     Forall (fun f => exists q, query_over q /\
       (dn_active_queries n !! f.1 = Some q \/ (q ∈ dn_dropped n /\ qp_id (q_params q) = f.1))) (dn_forwarders n) /\
     (dn_answers n).*1 ++ (dn_forwarders n).*2 ≡ₚ evs ≫= event_txs).
Proof.
  intros Hs Hc He E0 En Hd Hdl Hw.
  destruct (reached_inv True _ _ _ _ _ now evs n0 n1 Hs ltac:(done) He E0 En Hd) as (C & HC & Hi & Hb).
  destruct (wp_inv _ _ _ (wakes_wp True C delays n1 Hi Hb Hd Hdl)) as ([] & n & E & Hi' & Hb' & _ & Hwt).
  assert (io_inflight (dn_io n) = []) as Hnil.
  { destruct Hwt as [?|Hwt]; [done|]. apply total_tries_0. unfold weight at 1, load in Hwt. lia. }
  exists n. split_and!; [done..|]. intros Hk. destruct (quiet_books C n Hi' Hk Hnil) as (Hq & _ & Hdr & Hf & Hcl).
  assert (dn_bootstrapped n = true) as Hbt.
  { unfold boot in Hb'. destruct (dn_bootstrapped n); [done|]. destruct Hb' as (i & q & _ & Hl & Hfin).
    destruct (Hq i q Hl). congruence. }
  split_and!; [done|done| |].
  - eapply Forall_impl; [exact Hf|]. cbv beta. intros f [[q Hq']|(q & Hin & Hid)].
    + exists q. split; [by eapply Hq|by left].
    + exists q. rewrite Forall_forall in Hdr. split; [by apply Hdr|by right].
  - unfold boot in Hb'. rewrite Hbt in Hb'. rewrite Hb' in Hcl. by rewrite <- HC.
Qed.

(** The node [id] is being checked under the transaction id [tid]. *)
Definition checking (n : DhtNode) (tid : Z) (id : NodeId) : Prop :=
  dn_tid_to_query n !! tid = None /\
  exists s, dn_standalone_tids n !! tid = Some s /\
    match s with
    | SCheck i _ => i = id
    | SReping new i _ => i = id /\ n_id new <> id
    | _ => False
    end.

Lemma check_timeout_fate n tid id now evt :
  dht_ok blake2b n -> checking n tid id -> te_tid evt = tid ->
  wp (handle_timeout blake2b send_ok hash_iter now evt) n (fun _ n' => table_map (dn_table n') !! id = None).
Proof.
  intros Hn (Hq & s & Hs & Hid) <-. unfold handle_timeout. apply wp_bind.
  unfold wp, take_query. rewrite Hq. apply wp_bind. unfold wp, take_standalone. cbn [dn_standalone_tids with_tid_to_query].
  rewrite Hs. pose proof (dh_standalone _ _ Hn _ s Hs) as Hok. pose proof (dh_table _ _ Hn) as Ht.
  set (n1 := with_standalone_tids _ _). destruct s as [?|?|new i last|i last]; try done; cbn in Hok |- *.
  - destruct Hid as [-> Hne], Hok as (Hk & Hi & _). apply wp_bind, wp_upd_node, wp_bind, wp_table.
    eapply wp_mono; [|by apply (remove_wp blake2b (dn_tick n))]. cbv beta. intros _ t (Ht1 & Ho1 & Hm1).
    apply wp_bind, wp_table. eapply wp_mono; [|apply (add_wp blake2b blake_len (dn_tick n)); [exact Ht1|cbn; by rewrite Ho1]].
    cbv beta. intros r t2 (_ & _ & Hm2). apply wp_ret. cbn. rewrite Hm2. cbn [dn_table with_table]. destruct r; rewrite Hm1.
    + by rewrite lookup_insert_ne, lookup_delete_eq.
    + apply lookup_delete_eq.
  - subst i. destruct Hok as [Hi _]. apply wp_bind, wp_table.
    eapply wp_mono; [|by apply (remove_wp blake2b (dn_tick n))]. cbv beta. intros _ t (_ & _ & Hm1). apply wp_ret.
    cbn. rewrite Hm1. apply lookup_delete_eq.
Qed.

Lemma check_response_fate n tid id now r nd :
  dht_ok blake2b n -> checking n tid id -> ev_tid r = tid -> ev_id r = Some id ->
  table_map (dn_table n) !! id = Some nd ->
  wp (handle_response blake2b send_ok hash_iter now r) n (fun _ n' =>
    table_map (dn_table n') !! id = Some (set_seen_now (dn_tick n) nd)).
Proof.
  intros Hn (Hq & s & Hs & Hid) <- Hev Hnd. pose proof (dh_table _ _ Hn) as Ht.
  pose proof (tg_nodes _ _ _ Ht id nd Hnd) as Hk. cbv beta in Hk.
  assert (n_id nd = id) as Hnid by (by apply table_map_lookup in Hnd as [_ ?]; [|apply Ht]).
  assert (id_ok id) as Hido by (rewrite <- Hnid; by eapply known_id_ok).
  unfold handle_response. apply wp_bind. rewrite Hev. cbn [add_node_from_network]. apply wp_bind, wp_get.
  rewrite bool_decide_false by (rewrite <- Hnid; apply Hk). apply wp_bind, wp_table.
  eapply wp_mono; [|apply (get_mut_wp blake2b (dn_tick n)); [done|done|apply set_seen_touches, (dh_tick _ _ Hn)]].
  cbv beta. intros o t (-> & Htg & Ho & Hm). rewrite Hnd in *. cbn [fmap option_fmap option_map]. apply wp_ret, wp_bind.
  set (n1 := with_table t n).
  eapply (wp_mono _ _ (fun _ n' => dn_table n' = t /\ dn_tid_to_query n' = dn_tid_to_query n /\
    dn_standalone_tids n' = dn_standalone_tids n)).
  2: { destruct (reflexive _); [|by apply wp_ret]. apply wp_upd_node. cbn. by destruct (dn_needs_id_update n). }
  cbv beta. intros _ n2 (Et2 & Eq2 & Es2). apply wp_bind. unfold wp, take_query. rewrite Eq2, Hq. apply wp_bind.
  unfold wp, take_standalone. cbn [dn_standalone_tids with_tid_to_query]. rewrite Es2, Hs. set (n3 := with_standalone_tids _ _).
  assert (dn_table n3 = t) as Et3 by exact Et2.
  pose proof (dh_standalone _ _ Hn _ s Hs) as Hok. cbv beta in Hok.
  assert (table_map t !! id = Some (set_seen_now (dn_tick n) nd)) as Hl by (rewrite Hm; apply lookup_insert_eq).
  assert (forall last b n', last < dn_tick n -> dn_table n' = t ->
    wp (is_stale id last b) n' (fun (st : bool) n'' => st = false /\ n'' = n')) as Hstale.
  { intros last b n' Hlt E. unfold is_stale. apply wp_bind, wp_table. rewrite E. apply get_wp; [apply Htg|done|].
    apply wp_ret. rewrite Hl. cbn. split; [by apply Z.leb_gt|]. rewrite <- E. apply with_table_same. }
  destruct s as [?|?|new i last|i last]; try done; cbn [handle_standalone_response standalone_ok] in *.
  - destruct Hid as [-> _], Hok as (_ & _ & Hlt). apply wp_bind, wp_upd_node, wp_bind.
    eapply wp_mono; [|apply (Hstale last true); [done|exact Et3]]. cbv beta. intros st n4 [-> ->]. apply wp_ret.
    change (dn_table (with_repinging _ n3)) with (dn_table n3). by rewrite Et3.
  - subst i. destruct Hok as [_ Hlt]. apply wp_bind. eapply wp_mono; [|by apply (Hstale last false)]. cbv beta.
    intros st n4 [-> ->]. apply wp_ret. by rewrite Et3.
Qed.

(** C11: the fate of a node being checked (a periodic ping, a down hint, or the
    ping before a newcomer takes its place): when the ping times out, the node
    leaves the routing table; when it answers under its own id, it stays and
    counts as seen now - whether or not it was seen since the ping was sent. *)
Theorem checked_node_fate config bootstrap table_id tid0 port now0 evs n0 n tid id :
  spawn_ok config bootstrap table_id tid0 port -> Forall (event_typed False) evs ->
  start_node config bootstrap table_id tid0 port now0 = Ok n0 -> run evs n0 = (Ok tt, n) -> dn_destroyed n = false ->
  checking n tid id ->
  (forall now evt, te_tid evt = tid ->
     exists n', handle_timeout blake2b send_ok hash_iter now evt n = (Ok tt, n') /\
       table_map (dn_table n') !! id = None) /\
  (forall now r nd, ev_tid r = tid -> ev_id r = Some id -> table_map (dn_table n) !! id = Some nd ->
     exists n', handle_response blake2b send_ok hash_iter now r n = (Ok tt, n') /\
       table_map (dn_table n') !! id = Some (set_seen_now (dn_tick n) nd)).
Proof.
  intros Hs He E0 En Hd Hch.
  destruct (reached_inv False _ _ _ _ _ now0 evs n0 n Hs ltac:(done) He E0 En Hd) as (_ & _ & [Hn _] & _). split.
  - intros now evt Ht. destruct (wp_inv _ _ _ (check_timeout_fate n tid id now evt Hn Hch Ht)) as ([] & n' & E & H).
    by exists n'.
  - intros now r nd Ht Hid Hnd.
    destruct (wp_inv _ _ _ (check_response_fate n tid id now r nd Hn Hch Ht Hid Hnd)) as ([] & n' & E & H). by exists n'.
Qed.
End Rpc.

(** ** Examples *)

Module RpcExamples.
Definition random_range (_ : Z) (_ n : nat) : nat := (n - 1)%nat.
Definition hash_iter (m : gmap string Z) : list (string * Z) := map_to_list m.
Lemma blake_len m : fixed_ok 32 (IoExamples.blake2b m).
Proof. split; [apply to_le_bytes_ok|apply len_to_le]. Qed.
Lemma rng_ok i call n : (0 < n)%nat -> (random_range i call n < n)%nat.
Proof. unfold random_range. lia. Qed.
Lemma iter_perm m : hash_iter m ≡ₚ map_to_list m.
Proof. done. Qed.

Abbreviation start := (start_node IoExamples.blake2b IoExamples.send_ok hash_iter).
Abbreviation run := (node_run IoExamples.blake2b IoExamples.mac IoExamples.fresh IoExamples.send_ok random_range hash_iter).
Abbreviation wakes := (node_wakes IoExamples.blake2b IoExamples.mac IoExamples.fresh IoExamples.send_ok random_range hash_iter).

(** A node with one bootstrap node, and one with none. *)
Definition config (bootstrap : list string) : DhtConfig := mkDhtConfig bootstrap 0 "0.0.0.0" (Some true) true 10 80.
Definition own : NodeId := replicate 32 9.
Definition joining : list string := ["10.0.0.2:49737"%string].
Lemma spawn_ok_config bootstrap :
  Forall (fun hp => peer_ok (mkPeer hp.1 hp.2)) (omap parse_bootstrap_str bootstrap) ->
  spawn_ok (config bootstrap) bootstrap own 65000 4000.
Proof. intros Hb. split; [by apply (bool_decide_unpack _)..|left; by apply (bool_decide_unpack _)|done]. Qed.
Lemma joining_ok : spawn_ok (config joining) joining own 65000 4000.
Proof. apply spawn_ok_config. apply (bool_decide_unpack _). vm_compute. exact I. Qed.
Lemma alone_ok : spawn_ok (config []) [] own 65000 4000.
Proof. by apply spawn_ok_config. Qed.

(** Three commands, a ping that proves its sender's id, and ticks. *)
Definition ping_bytes : list Z :=
  match peer_id IoExamples.blake2b "10.0.0.2" 49737 with
  | Ok id => match encode_request_to_bytes (mkRequest 7 (mkPeer "10.0.0.1" 4000) (Some id) None true 0 None None) with
             | Ok b => b
             | _ => []
             end
  | _ => []
  end.
Definition peer_addr4 : SocketAddr := ([10; 0; 0; 2], 49737).
Definition events : list NodeEvent :=
  [NCommand 0 (CBootstrapped 1); NCommand 0 (CPing "10.0.0.3" 4000 2); NCommand 0 (CFindNode own 3);
   NDatagram 1 ping_bytes peer_addr4 Server; NCommand 2 (CTableSize 4)] ++ replicate 8 (NTick 1000000).
Lemma events_typed live : Forall (event_typed live) events.
Proof.
  unfold events. apply Forall_app. split; [|apply Forall_replicate; exact I].
  apply Forall_cons_2; [exact I|]. apply Forall_cons_2; [by apply (bool_decide_unpack _)|].
  apply Forall_cons_2; [apply (bool_decide_unpack _); vm_compute; exact I|].
  apply Forall_cons_2; [|apply Forall_cons_2; [exact I|apply Forall_nil_2]].
  split; [apply (bool_decide_unpack _); vm_compute; exact I|]. split; by apply (bool_decide_unpack _).
Qed.
Definition n0 (bootstrap : list string) : DhtNode :=
  match start (config bootstrap) bootstrap own 65000 4000 0 with
  | Ok n => n
  | _ => spawn_node (config bootstrap) bootstrap (RoutingTable_new own) 65000 4000 0
  end.
Definition n1 (bootstrap : list string) : DhtNode := (run events (n0 bootstrap)).2.
End RpcExamples.

Lemma node_never_panics_witness :
  exists n0 n, RpcExamples.start (RpcExamples.config RpcExamples.joining) RpcExamples.joining RpcExamples.own 65000 4000 0 =
      Ok n0 /\ RpcExamples.run RpcExamples.events n0 = (Ok tt, n).
Proof.
  destruct (node_never_panics IoExamples.blake2b IoExamples.mac IoExamples.fresh IoExamples.send_ok
    RpcExamples.random_range RpcExamples.hash_iter IoExamples.mac_len IoExamples.fresh_len RpcExamples.blake_len
    RpcExamples.rng_ok RpcExamples.iter_perm _ _ _ _ _ 0 RpcExamples.events RpcExamples.joining_ok
    (RpcExamples.events_typed False)) as (n0 & n & E0 & En & _).
  exact (ex_intro _ n0 (ex_intro _ n (conj E0 En))).
Defined.

(** Four callers: one answered, one waiting for the bootstrap, one for a query
    and one for its ping. *)
Lemma node_books_balance_witness :
  (dn_answers (RpcExamples.n1 RpcExamples.joining)).*1 ++ dn_bootstrap_waiters (RpcExamples.n1 RpcExamples.joining) ++
  (dn_forwarders (RpcExamples.n1 RpcExamples.joining)).*2 ++
  stand_txs (dn_standalone_tids (RpcExamples.n1 RpcExamples.joining)) ≡ₚ [1; 2; 3; 4].
Proof.
  refine (proj2 (proj2 (proj2 (node_books_balance IoExamples.blake2b IoExamples.mac IoExamples.fresh IoExamples.send_ok
    RpcExamples.random_range RpcExamples.hash_iter IoExamples.mac_len IoExamples.fresh_len RpcExamples.blake_len
    RpcExamples.rng_ok RpcExamples.iter_perm _ _ _ _ _ 0 RpcExamples.events (RpcExamples.n0 RpcExamples.joining) _
    RpcExamples.joining_ok _ (RpcExamples.events_typed True) _ _ _ _)))).
  - cbn. lia.
  - vm_compute. reflexivity.
  - vm_compute. reflexivity.
  - vm_compute. reflexivity.
  - vm_compute. discriminate.
Defined.

Lemma silent_node_settles_witness :
  exists n, RpcExamples.wakes (replicate 358 0) (RpcExamples.n1 RpcExamples.joining) = (Ok tt, n) /\
    io_inflight (dn_io n) = [] /\
    (io_taken (dn_io n) <= 65536 -> dn_bootstrapped n = true /\ (dn_answers n).*1 ++ (dn_forwarders n).*2 ≡ₚ [1; 2; 3; 4]).
Proof.
  destruct (silent_node_settles IoExamples.blake2b IoExamples.mac IoExamples.fresh IoExamples.send_ok
    RpcExamples.random_range RpcExamples.hash_iter IoExamples.mac_len IoExamples.fresh_len RpcExamples.blake_len
    RpcExamples.rng_ok RpcExamples.iter_perm _ _ _ _ _ 0 RpcExamples.events (replicate 358 0)
    (RpcExamples.n0 RpcExamples.joining) (RpcExamples.n1 RpcExamples.joining)
    RpcExamples.joining_ok) as (n & E & Hi & Hb).
  - cbn. lia.
  - apply RpcExamples.events_typed.
  - vm_compute. reflexivity.
  - vm_compute. reflexivity.
  - vm_compute. reflexivity.
  - apply Forall_replicate. lia.
  - vm_compute. lia.
  - exact (ex_intro _ n (conj E (conj Hi (fun Hk => conj (proj1 (Hb Hk)) (proj2 (proj2 (proj2 (Hb Hk)))))))).
Defined.

(** The peer that sent the ping is pinged at the eighth tick. *)
Lemma checked_node_fate_witness :
  exists id n', peer_id IoExamples.blake2b "10.0.0.2" 49737 = Ok id /\
    handle_timeout IoExamples.blake2b IoExamples.send_ok RpcExamples.hash_iter 9000000000
      (mkTimeout 65001 (mkPeer "10.0.0.2" 49737) 0 true None) (RpcExamples.n1 []) = (Ok tt, n') /\
    table_map (dn_table n') !! id = None.
Proof.
  pose (id := IoExamples.blake2b [10; 0; 0; 2; 73; 194]).
  destruct (checked_node_fate IoExamples.blake2b IoExamples.mac IoExamples.fresh IoExamples.send_ok
    RpcExamples.random_range RpcExamples.hash_iter IoExamples.mac_len IoExamples.fresh_len RpcExamples.blake_len
    RpcExamples.rng_ok RpcExamples.iter_perm _ _ _ _ _ 0 RpcExamples.events (RpcExamples.n0 []) (RpcExamples.n1 [])
    65001 id RpcExamples.alone_ok (RpcExamples.events_typed False)) as [Ht _].
  - vm_compute. reflexivity.
  - vm_compute. reflexivity.
  - vm_compute. reflexivity.
  - split; [vm_compute; reflexivity|]. exists (SCheck id 0). split; [vm_compute; reflexivity|done].
  - destruct (Ht 9000000000 (mkTimeout 65001 (mkPeer "10.0.0.2" 49737) 0 true None) eq_refl) as (n' & E & Hn').
    exists id, n'. split; [vm_compute; reflexivity|]. exact (conj E Hn').
Defined.
